(* ===== verification/_CoqProject ===== *)
-Q . S2P
Prelude.v
StringPiece.v
Status.v
Coding.v
OrderedCode.v
Crc32c.v
Block.v
BlockFacts.v
TableIterator.v
TableFormat.v
TableBuilder.v
TableBuilderFacts.v
Table.v
Numbers.v
RecordIO.v
DeviceNames.v
DeviceNamesFacts.v
RendezvousKey.v
Rendezvous.v
RendezvousFacts.v
Cancellation.v
PendingCounts.v
EdgeSet.v
Graph.v
GraphFacts.v
GraphOps.v
GraphTraversal.v
GraphPasses.v
GraphDef.v
GraphTheorems.v
Executor.v
ExecutorFacts.v
ExecutorRun.v
ExecutorTheorems.v
DataTypes.v
TensorShape.v
Bcast.v
TensorSlice.v
TensorSliceSet.v
GraphConstructor.v
GraphConstructorSpec.v
GraphConstructorEdges.v
GraphConstructorLoop.v
GraphConstructorRun.v
GraphConstructorRoundtrip.v
GraphConstructorTheorems.v
BfcAllocator.v
BfcAllocatorFacts.v
BfcInvariant.v
BfcExtend.v
BfcTheorems.v
BfcApi.v
FifoQueue.v
FifoQueueThreads.v
FifoQueueSpec.v
FifoQueueDeques.v
FifoQueueBatches.v
FifoQueueRefine.v
FifoQueueFlush.v
FifoQueueSystem.v
FifoQueueSteps.v
FifoQueueRun.v
FifoQueueProgress.v
FifoQueueTheorems.v
Kernels.v
Placer.v
PlacerForest.v
PlacerSpec.v
PlacerConstraints.v
PlacerAssign.v
PlacerTheorems.v
PartialTensorShape.v
ShapeInference.v
ShapeInferenceSpec.v
ShapeInferenceFacts.v
ShapeFns.v
ShapeFnsFacts.v
ShapeFnsArrays.v
ShapeFnsConcat.v
ShapeInferenceTheorems.v
