(* ===== verification/Prelude.v ===== *)
(** * TensorFlow core runtime: verification library (root)

    A model of parts of the C++ core runtime under
    [src/TensorFlowOnSpark/tensorflow/tensorflow/core/] (paths below are
    relative to that directory), with the theorems that make each part correct.
    This file is the prelude: machine integers, vectors indexed by machine
    integers, outcomes, the state monad with its weakest precondition, byte
    strings, and the generic list lemmas that the components share.

    ** The program's parts and their interaction

    Memory. The best-fit-with-coalescing allocator serves the tensor buffers
    of a device. It obtains regions from a sub-allocator and keeps, for each
    region, a table from 256-byte slots to chunk handles, the chunks in a
    vector linked by handles, and the free chunks in 21 bins by size.

    Storage. A checkpoint is a table of sorted key/value pairs: fixed and
    variable-length integers ([Coding]), blocks with shared prefixes
    ([Block]), each framed by a masked CRC-32C ([Crc32c]), written by the table
    builder and read by the table through a two-level iterator. The keys of a
    checkpoint are written with the order-preserving codes ([OrderedCode]). The
    slices of one tensor that a checkpoint holds form a tensor slice set, over
    tensor slices and tensor shapes.

    Communication. Executors exchange tensors through a rendezvous, under keys
    built from device names and frames; a cancellation manager stops pending
    work. The device names are parsed, printed, compared and merged by the
    device name utilities, over the number and text utilities and
    [StringPiece]. Errors travel as [Status] values.

    Execution. A graph of nodes and edges is built by calls, normalised by
    passes, placed on the devices of a set and given to an executor, which counts the pending inputs of each
    node and runs it once they have arrived. Its kernels exchange tensors
    through the rendezvous, and steps exchange them through queues: kernels that
    wait for room or for elements, and that the cancellation manager of their
    step can stop. Before that, shape inference computes what can be known of the
    shapes of each node's outputs from its inputs and attributes: each op has a
    shape function, which works on a context of partly known shapes.

    ** How C++ is read

    A [w]-bit unsigned value is a [Z] in [0, 2^w); [u8], [u32], [u64], [s32]
    and [s64] reduce the result of an operation to its type. A byte string is
    the [list Z] of its bytes. A vector access out of range is [None] or
    [Aborts]. A function that changes an object is a state monad computation
    [ST S A], which ends with [Done] (a result and a state), [Aborts] (a failed
    [CHECK] or assertion, or an access that is undefined) or [Diverges] (the
    fuel of a loop ran out); [wp] is its total weakest precondition, so a
    theorem stated with [wp] also says that the call returns. Parsers and codes
    that only fail are plain functions to [option]. A mutex makes each critical
    section one atomic step; what runs outside the lock (callbacks) is a
    separate step, and steps of different threads interleave.

    ** Files

    - [Prelude]: the definitions and lemmas that the parts share, the scope
      [tf_scope] of their notations and the tactic [wp_step], which runs one
      step of a program under [wp].
    - [StringPiece] ([lib/core/stringpiece.{h,cc}]), [Status] ([lib/core/status.{h,cc}],
      [errors.h]), [Numbers] ([lib/strings/numbers.cc], [str_util.{h,cc}]): the
      utilities that the other parts call. [safe_strto_exact] characterises the
      integer parsers: they accept the strings of an unambiguous grammar whose
      number fits the type, and nothing else.
    - [Coding] ([lib/core/coding.cc], [raw_coding.h]), [OrderedCode]
      ([lib/strings/ordered_code.cc]), [Crc32c] ([lib/hash/crc32c.cc]): round
      trips, order preservation, lengths; the table-driven checksum equals the
      bitwise one for every alignment, and detects every 32-bit burst.
    - [Block], [BlockFacts] ([lib/io/block_builder.cc], [block.cc]): a block
      built from sorted pairs is scanned and searched exactly, for every
      restart interval; the bounds that [DecodeEntry] checks, and the sum that
      wraps around there.
    - [TableIterator] ([lib/io/iterator.{h,cc}], [two_level_iterator.cc]): the
      class [Iterator] is the C++ interface, [IteratorLaws] its contract;
      the two-level iterator satisfies the contract over the concatenated
      blocks whenever its index and data iterators do.
    - [TableFormat] ([lib/io/format.cc]): handles, footer, [ReadBlock]. Files
      and the snappy library are the classes [RandomAccessFile], [WritableFile]
      and [Snappy], whose laws state their documented behaviour; in-memory
      instances show that the laws can hold.
    - [TableBuilder], [TableBuilderFacts] ([lib/io/table_builder.cc]), [Table]
      ([lib/io/table.cc]): no assertion of the builder fires on sorted pairs,
      the file is the image of a table, and opening that file, scanning it,
      searching it and looking keys up give back the pairs.
    - [RecordIO] ([lib/io/record_writer.{h,cc}], [record_reader.{h,cc}]): the
      records written to a file, plain or compressed, are read back in order and
      then the end is reported; what a damaged or truncated file gives.
      Compressed streams are the classes [ClosableFile] and [InputStream].
    - [DeviceNames], [DeviceNamesFacts] ([util/device_name_utils.{h,cc}]),
      [RendezvousKey] ([framework/rendezvous.cc], [CreateKey] to
      [ParseKey]): full names and keys are read back, [MergeDevNames] is the
      join of the specification order.
    - [Rendezvous], [RendezvousFacts] ([framework/rendezvous.cc],
      [LocalRendezvousImpl]): refinement of an abstract rendezvous, completion
      of waiting requests, each callback called exactly once under every
      interleaving.
    - [Cancellation] ([framework/cancellation.{h,cc}]): what
      [DeregisterCallback] guarantees under every interleaving, and that its
      wait ends.
    - [PendingCounts] ([common_runtime/pending_counts.h]): the packed table
      refines a table of abstract node states.
    - [EdgeSet] ([graph/edgeset.{h,cc}]): a set in an array of two, or in a
      tree. [Graph] ([graph/graph.{h,cc}], [lib/core/refcount.h]): the
      operations on a memory of nodes, edges and reference-counted properties,
      with any addresses; the op registry is the class [OpRegistryInterface],
      with the laws [OpRegistryLaws]. Its second module [GraphAlgorithm] is
      [graph/algorithm.cc]. [GraphFacts] starts with the module [GraphSpec], the
      abstract graphs (maps from ids) and the relation [rep]; with [GraphOps] it
      shows that each operation implements its abstract step, and the module
      [GraphRun] of [GraphOps] that sequences of calls do. [GraphTraversal] has
      the invariant of its depth-first search, [GraphPasses] the iteration over
      the nodes and the passes that change the graph, [GraphDef] the inputs of a
      node and [ToGraphDef]. [GraphTheorems] states the results for every graph
      that legal calls build: no check fails and the abstract graph tells
      everything; post orders, pruning, the edges of the source and the sink,
      reading inputs, and definitions.
    - [GraphConstructor] ([graph/graph_constructor.cc] without the option
      [importing], [graph/tensor_id.cc], [lib/strings/scanner.h],
      [framework/versions.cc]): [ConvertGraphDefToGraph]. [GraphConstructorSpec]
      says which definitions are [valid] and what graph they make, and in its
      module [GraphConstructorFacts] has the index of the names and the counts;
      [GraphConstructorEdges] the nodes and edges of one definition and what
      [Undo] needs, [GraphConstructorLoop] the invariant of the conversion,
      [GraphConstructorRun] the whole import and its undoing,
      [GraphConstructorRoundtrip] what [ToGraphDef] then gives.
      [GraphConstructorTheorems]: exactly the valid definitions are accepted, a
      refused one leaves the graph as it was, and definitions are given back.
    - [Kernels], with the modules [DeviceSet] ([common_runtime/device_set.{h,cc}],
      [device.{h,cc}]) and [Kernels] (the registry of [framework/op_kernel.cc]):
      what the placer asks of devices and kernels. [Placer] ([common_runtime/simple_placer.{h,cc}]):
      [SimplePlacer] and [ColocationGraph], over the graph in memory of
      [Graph]. [PlacerForest]: [FindRoot] with path compression and the linking
      by rank keep a forest with ranks. [PlacerSpec] has the constraints of an
      abstract graph ([together], [feasible]) and the invariant of the classes, and
      its module [PlacerGroups] shows that [ColocateNodes] merges two of them;
      [PlacerConstraints] that steps 1 and 2 of [Run] make those of [together],
      [PlacerAssign] what steps 3 and 4 give to each node.
      [PlacerTheorems]: the placer ends and gives every node a device that has a
      kernel for it, ordinary nodes that have to be together get one device, without soft
      placement it decides whether the constraints have a solution, and three
      graphs whose constraints it breaks. Its module [PlacerExamples] has these
      graphs, and the conditions on them as computations.
    - [Executor] ([common_runtime/executor.cc], node and edge classes of
      [graph/graph.h]): the initial counts, [ActivateNodes], [Process] with
      [PrepareInputs], [ProcessOutputs] and [PropagateOutputs], [NodeDone] and
      [Finish], for graphs without loops; [step] interleaves the threads.
      [ExecutorFacts] relates the counts to what has arrived at a node, edge by
      edge, and in its module [ExecutorInputs] the input slots; [ExecutorRun] has the
      initial state and the invariant of all runs; [ExecutorTheorems] shows that
      each node runs at most once and no check fails, that each kernel gets the
      values of its predecessors, and that the execution ends with one call of
      the done callback.
    - [Bcast] ([util/bcast.{h,cc}]): the element of an operand that an element
      of the result reads through the reshapes and broadcasts, with or without
      the merging of dimensions, is the one of the broadcasting rule; the
      reduced dimensions are those along which an operand was repeated.
    - [DataTypes] ([framework/types.{h,cc}]): the names of the data types.
    - [TensorShape] ([framework/tensor_shape.{h,cc}]), [TensorSlice]
      ([framework/tensor_slice.{h,cc}]), [TensorSliceSet]
      ([util/tensor_slice_set.{h,cc}]): the three representations of a shape,
      slices as sets of points, and a set of slices that refuses overlaps and
      answers exactly for the points that it holds.
    - [PartialTensorShape] ([framework/partial_tensor_shape.{h,cc}]): shapes
      whose rank, or some of whose sizes, may be unknown. [ShapeInference]
      ([framework/shape_inference.{h,cc}]): the context of a shape function, over
      a memory of shapes and dimensions; its module [Attrs] is what shape
      functions read of a node ([node_def_util.cc], [attr_value_util.cc],
      [util/padding.cc]). [ShapeInferenceSpec]: a well-formed context, a world
      that it describes (the sizes of all its objects), and the triple [exec]: no
      abort, and in a world OK with a result that stands for the given sizes.
      [ShapeInferenceFacts] proves each call against it. [ShapeFns]
      ([framework/common_shape_fns.{h,cc}]): the shape functions.
      [ShapeFnsFacts], [ShapeFnsArrays] and [ShapeFnsConcat] show what they
      infer: in every world in which the operation makes sense the sizes of its
      result, and how much of them is known. [ShapeInferenceTheorems] states it:
      merging shapes, windows, matrices, reductions, concatenations and
      broadcasting, and that the two computations of windowed sizes agree.
    - [BfcAllocator] ([common_runtime/bfc_allocator.{h,cc}], every operation
      that changes the state), [BfcAllocatorFacts] (the memory invariant [Core],
      splitting and merging chunks), [BfcInvariant] (the invariant of reachable
      states and its preservation by the internal operations), [BfcExtend] (the
      growth of regions and the float backpedal), [BfcTheorems] (the public
      operations), [BfcApi] (the theorems in the terms of a client: the
      relation [reachable] on allocator states, the blocks granted, their
      disjointness and alignment). The sub-allocator is the class
      [SubAllocator], with the laws [SubAllocatorLaws] of an allocator of
      memory: what it returns is null or lies in the address space, disjoint
      from what it returned before.
    - [FifoQueue] ([kernels/fifo_queue.{h,cc}], [queue_base.{h,cc}],
      [typed_queue.h]): the critical sections of a queue, over deques of
      tensors; [FifoQueueThreads] ([kernels/queue_ops.cc] and the rest of those
      methods): the operations as threads, with callbacks and the managers of
      [Cancellation]. [FifoQueueSpec] is the abstract queue (a list of rows,
      operations that wait to put or to take, the history of both) and its
      invariant. [FifoQueueDeques], with its module [FifoQueueFacts], and
      [FifoQueueBatches] show
      what the loops over the components do to rows and batches;
      [FifoQueueRefine] and [FifoQueueFlush] that each run callback, the flush
      and the cancellations take steps of the abstract queue, and that the flush
      ends with no attempt that could go on; [FifoQueueSystem],
      [FifoQueueSteps] and [FifoQueueRun] lift this to threads and executions,
      and [FifoQueueProgress] has the measure by which the threads come to
      rest. [FifoQueueTheorems]: every interleaving refines the abstract queue,
      rows leave in the order they came and every callback reports what was
      done, and at rest whoever waits has to. Its module [FifoQueueFailures]: a
      cancellation that waits for itself, and errors that are not undone. The
      module [FifoQueueExamples] of [FifoQueueRun] has the queues they are tried on. The constants of a
      queue, its allocator and the managers of the contexts are the class
      [QueueEnv].

    ** Fuel

    Loops whose recursion is not structural take fuel; the functions of the
    code pass a bound that is proved enough, or a theorem quantifies over the
    fuel. [GrowRegion] doubles a positive size: 64 turns. The backpedal lowers
    the size by 256 bytes or more each turn above 2304 bytes, so the limit of
    the memory over 256 bounds it; below, it may not end, which is a theorem.
    [EncodeVarint64] writes at most 10 bytes and [VarintLength] counts them,
    [num_bytes_loop] at most 8, [to_buffer_loop] at most 20 digits (10 for 32
    bits). The loops over a buffer ([parse_loop], [step16_loop], [step4_loop],
    [seek_linear], the fragments of ordered codes) consume at least one byte a
    turn and get the length of the buffer or one more; the binary search and
    [advance_restart] get the number of restarts plus one; a scan of a table
    gets any fuel above the number of entries, and
    [SkipEmptyDataBlocksForward] any fuel above the number of index entries
    (for an opened table, one more than the bytes of the index block suffices).
    A removal loop of [RemoveNode] takes an edge away each turn, the iteration
    over the nodes advances the id, a depth-first search pops each entry once
    ([dfs_fuel] counts a node and its edges), and each node enters the queue of
    the pruning once. [Convert] converts each definition once. A round of
    [TryAttemptLocked] but the last removes an attempt; a round of the flush
    that changes something finishes an attempt or lowers what it requests
    ([flush_fuel] is the sum of both), as the termination of the flush shows.
    A path of the placer's forest visits a member at most once, since ranks grow,
    so [FindRoot] gets one more than the number of members.
    [data_type_string] takes the offset of a reference type off at each turn
    and gets as many turns as the type holds offsets, plus one.

    ** What the theorems do not cover

    - [BFCAllocator]: the renderers of the occupancy for the log only read the
      state. Addresses are numbers, and the destructor is the list of the
      calls of [Free] that it makes.
    - Iterators and tables: cleanup callbacks and the ownership of buffers.
      The theorems on tables bound the file by [2^33] bytes and the pairs by
      [2^30] (offsets in a block are 32 bits).
    - [Rendezvous::Recv], the blocking wrapper of [RecvAsync] with a timeout.
      A device context is a number and the references to it a list; a tensor
      and the hash of a key are parameters.
    - [Executor]: the frames and iterations of loops ([Enter], [Exit] and
      [NextIteration] nodes); references to tensors and the errors about them
      (the error of a kernel stands for them); allocator attributes, device
      contexts, statistics, the dumps of the state. Node ids are contiguous.
      The graph hypotheses [graph_ok] are what the constructors of graphs
      establish (each input has one edge, slots exist) and the absence of
      cycles; tensors and kernels are arbitrary.
    - [Graph]: debug strings, versions, and [CopyNode] of a node of another
      graph. Callers keep to the conditions [legal] (live nodes, control slots
      for the source and the sink, fewer than [2^31 - 1] ids), which are the
      DCHECKs and the REQUIRES of the header; [ToGraphDef] also needs
      [well_typedb].
    - [Placer]: the log. The theorems are about graphs that are [placeable] (data
      edges end in inputs of their nodes and come from ops, the source and the
      sink have no device, and a metadata node has an edge into it, as the code
      assumes), and sets of devices with distinct, complete names
      ([devices_ok]); [OpRegistryLaws] only matters for errors staying errors.
      Requested names are only followed through [strict] graphs, as reference
      edges override them. Kernels have no factories, and was_attr_mismatch
      is not an output.
    - [GraphConstructor]: [ImportGraphDef] and [CopyGraph]. The condition
      [wiredb] on definitions excludes the reads outside of the types of a node
      that the code does not guard against: more data inputs than the op has,
      and an output that a merge asks for before it is made. The order of the
      hash table of names is any order.
    - Shape inference: the registrations that give each op its function, the
      refiner that runs them over a graph ([common_runtime/shape_refiner.cc]),
      and attributes of the other types. The theorems on shape functions are
      about well-formed contexts, tensors of indices and axes that are int32,
      an axis other than -1 and the extreme ones, and window sizes that are at
      least -1; the findings say what the code does otherwise. The text of a
      node in messages is the class [DefText], whose law is that an error stays
      an error. Memory is not freed.
    - The FIFO queue: [MatchesNodeDef] and its helpers, [QueueSizeOp], the
      construction of the kernels and the check of their signature. The theorems
      assume [env_ok] (a queue that [Initialize] accepts, types that the copying
      functions handle, enough memory) and requests of fewer than 2^31 rows
      ([request_ok]); [fifo_error_crashes] shows what happens without the last
      two of [env_ok]. A reference count is not modelled: the queue outlives its threads.
      The callbacks registered with a manager are run in the order of its table,
      which is some order.
    - [RecordIO]: zlib itself, whose streams are interfaces, and its tuning
      options other than the window; the messages of the log.
    - [Numbers]: floating-point conversions, human-readable formats, the case
      and escape functions of [str_util].
    - [TensorShape]: copies and moves (an equal shape), the conversions to and
      from Eigen dimensions. [TensorSlice::FillIndicesAndSizes] and the copy
      of slice data in [tensor_slice_util.h], which are Eigen expressions.
    - Protocol buffers, the file system, snappy and the clock are not under
      the modelled sources: they are parameters, or the values that the code
      reads from them.

    Not modelled, and why: the Python front end, [contrib] and the language
    bindings (other languages or glue); the other kernels, op registrations, GPU
    runtime and [stream_executor] (numerical and device code over Eigen and
    drivers);
    the gRPC transport and the platform layer (I/O wrappers); [tools],
    [tensorboard] and the launch scripts of TensorFlowOnSpark and BigDL.

    ** Next

    The frames of the executor ([common_runtime/executor.cc]); strided slices
    ([util/strided_slice_op.cc]) and the shape functions registered with the array
    ops; the refiner of shapes; the import of graphs with prefixes and shapes
    ([ImportGraphDef]); the containers of [lib/gtl] ([top_n.h]) and [util/presized_cuckoo_map.h]; paths ([lib/io/path.cc]); the
    other queues ([kernels/padding_fifo_queue.cc], [priority_queue.cc],
    [random_shuffle_queue_op.cc]), whose attempts go through the same
    [QueueBase]. *)
From stdpp Require Export base gmap list strings.
From Stdlib Require Export ZArith Lia Sorted.

(** ** Machine integers

    A w-bit unsigned value is a [Z] in [0, 2^w); the source's arithmetic on it
    is the mathematical operation followed by the reduction modulo [2^w].
    Signed conversions reinterpret the low [w] bits in two's complement. *)

Declare Scope tf_scope.
Delimit Scope tf_scope with tf.
Open Scope tf_scope.
Open Scope Z_scope.
Create Rewrite HintDb tf.

Definition u8 (z : Z) : Z := z mod 2 ^ 8.
Definition u32 (z : Z) : Z := z mod 2 ^ 32.
Definition u64 (z : Z) : Z := z mod 2 ^ 64.
Definition s32 (z : Z) : Z := (z + 2 ^ 31) mod 2 ^ 32 - 2 ^ 31.
Definition s64 (z : Z) : Z := (z + 2 ^ 63) mod 2 ^ 64 - 2 ^ 63.

Lemma u64_id z : 0 <= z < 2 ^ 64 -> u64 z = z.
Proof. apply Z.mod_small. Qed.
Lemma u32_id z : 0 <= z < 2 ^ 32 -> u32 z = z.
Proof. apply Z.mod_small. Qed.
Lemma u8_id z : 0 <= z < 2 ^ 8 -> u8 z = z.
Proof. apply Z.mod_small. Qed.
Lemma u64_range z : 0 <= u64 z < 2 ^ 64.
Proof. apply Z.mod_pos_bound. lia. Qed.
Lemma u32_range z : 0 <= u32 z < 2 ^ 32.
Proof. apply Z.mod_pos_bound. lia. Qed.
Lemma u8_range z : 0 <= u8 z < 2 ^ 8.
Proof. apply Z.mod_pos_bound. lia. Qed.
Lemma s64_id z : - 2 ^ 63 <= z < 2 ^ 63 -> s64 z = z.
Proof. intros. unfold s64. rewrite Z.mod_small; lia. Qed.
Lemma s32_id z : - 2 ^ 31 <= z < 2 ^ 31 -> s32 z = z.
Proof. intros. unfold s32. rewrite Z.mod_small; lia. Qed.
Lemma s64_range z : - 2 ^ 63 <= s64 z < 2 ^ 63.
Proof. unfold s64. pose proof (Z.mod_pos_bound (z + 2 ^ 63) (2 ^ 64)). lia. Qed.

(** ** Indexing a vector by a machine integer

    [v !!z i] is [v[i]]; it is [None] where the C++ access is out of bounds. *)

Definition zlookup {A} (l : list A) (i : Z) : option A :=
  if i <? 0 then None else l !! Z.to_nat i.
Definition zinsert {A} (l : list A) (i : Z) (x : A) : list A :=
  if i <? 0 then l else <[Z.to_nat i := x]> l.
Notation "l !!z i" := (zlookup l i) (at level 20) : tf_scope.
Definition zlength {A} (l : list A) : Z := Z.of_nat (length l).

Lemma zlookup_range {A} (l : list A) i x :
  l !!z i = Some x -> 0 <= i < zlength l.
Proof.
  unfold zlookup, zlength. case_eq (i <? 0); intros Hi H; [done |].
  apply lookup_lt_Some in H. lia.
Qed.
Lemma zlookup_is_Some {A} (l : list A) i :
  0 <= i < zlength l -> is_Some (l !!z i).
Proof.
  unfold zlookup, zlength. intros H. destruct (Z.ltb_spec i 0); [lia |].
  apply lookup_lt_is_Some. lia.
Qed.
Lemma zlookup_zinsert_eq {A} (l : list A) i x :
  0 <= i < zlength l -> zinsert l i x !!z i = Some x.
Proof.
  unfold zlookup, zinsert, zlength. intros H. destruct (Z.ltb_spec i 0); [lia |].
  apply list_lookup_insert_eq. lia.
Qed.
Lemma zlookup_zinsert_ne {A} (l : list A) i j x :
  i <> j -> zinsert l i x !!z j = l !!z j.
Proof.
  unfold zlookup, zinsert. intros H.
  destruct (Z.ltb_spec i 0), (Z.ltb_spec j 0); try done.
  apply list_lookup_insert_ne. lia.
Qed.
Lemma zlookup_zinsert {A} (l : list A) h x h' y :
  l !!z h = Some y ->
  zinsert l h x !!z h' = if decide (h = h') then Some x else l !!z h'.
Proof.
  intros H%zlookup_range. case_decide; subst.
  - by apply zlookup_zinsert_eq.
  - by apply zlookup_zinsert_ne.
Qed.
Lemma zinsert_length {A} (l : list A) i x : zlength (zinsert l i x) = zlength l.
Proof.
  unfold zlength, zinsert. destruct (i <? 0); [done |]. by rewrite length_insert.
Qed.
Lemma zlength_app {A} (l1 l2 : list A) : zlength (l1 ++ l2) = zlength l1 + zlength l2.
Proof. unfold zlength. rewrite length_app. lia. Qed.
Lemma zlookup_app_l {A} (l k : list A) h y : l !!z h = Some y -> (l ++ k) !!z h = Some y.
Proof.
  unfold zlookup. destruct (h <? 0); [done|]. apply lookup_app_l_Some.
Qed.
Lemma zlookup_front {A} (l k : list A) i : 0 <= i < zlength l -> (l ++ k) !!z i = l !!z i.
Proof. unfold zlookup, zlength. intros Hi. destruct (Z.ltb_spec i 0); [lia|]. apply lookup_app_l. lia. Qed.
Lemma zlookup_app_one {A} (l : list A) x i : (l ++ [x]) !!z i = if decide (i = zlength l) then Some x else l !!z i.
Proof.
  unfold zlookup, zlength. destruct (Z.ltb_spec i 0) as [Hi|Hi]; [case_decide; [lia|done]|]. case_decide as H.
  - subst i. rewrite Nat2Z.id, lookup_app_r by lia. by rewrite Nat.sub_diag.
  - destruct (decide (i < Z.of_nat (length l))).
    + rewrite lookup_app_l by lia. done.
    + rewrite !lookup_ge_None_2; [done|lia|]. rewrite length_app. cbn. lia.
Qed.
Lemma zlookup_middle {A} (l l' : list A) x : (l ++ x :: l') !!z zlength l = Some x.
Proof. unfold zlookup, zlength. destruct (Z.ltb_spec (Z.of_nat (length l)) 0); [lia|]. rewrite Nat2Z.id. by apply list_lookup_middle. Qed.
Lemma zlookup_elem {A} (l : list A) k x : l !!z k = Some x -> x ∈ l.
Proof. unfold zlookup. destruct (k <? 0); [done|]. apply list_elem_of_lookup_2. Qed.
Lemma elem_zlookup {A} (l : list A) x : x ∈ l -> exists k, l !!z k = Some x.
Proof. intros [k Hk]%list_elem_of_lookup. exists (Z.of_nat k). unfold zlookup. destruct (Z.ltb_spec (Z.of_nat k) 0); [lia|]. by rewrite Nat2Z.id. Qed.
Lemma snoc_split {A} (l l1 l2 : list A) y z : l ++ [y] = l1 ++ z :: l2 -> (l1 = l /\ z = y /\ l2 = []) \/ exists l3, l2 = l3 ++ [y] /\ l = l1 ++ z :: l3.
Proof.
  destruct (decide (l2 = [])) as [->|Hne].
  - intros [-> ->]%List.app_inj_tail. by left.
  - destruct (exists_last Hne) as (l3 & y' & ->). intros H. right. exists l3. rewrite app_comm_cons, app_assoc in H. by apply List.app_inj_tail in H as [-> ->].
Qed.
Lemma filter_Permutation_bool {A} (f : A -> bool) l k : l ≡ₚ k -> List.filter f l ≡ₚ List.filter f k.
Proof. induction 1; cbn; repeat case_match; eauto using Permutation_trans, perm_swap. Qed.
#[export] Hint Rewrite @zinsert_length : tf.

(** ** Outcomes of imperative code

    A run ends with a value, or the process aborts (a failed [CHECK],
    [LOG(FATAL)] or an out-of-bounds access), or the fuel of the model is
    spent: [Diverges] is never a value of a terminating program and theorems
    rule it out where the code terminates. *)

Inductive outcome (A : Type) : Type :=
| Done (a : A)
| Aborts
| Diverges.
Arguments Done {A} _.
Arguments Aborts {A}.
Arguments Diverges {A}.

(** The state monad over outcomes. *)
Definition ST (S A : Type) : Type := S -> outcome (A * S).
Definition st_ret {S A} (a : A) : ST S A := fun s => Done (a, s).
Definition st_bind {S A B} (m : ST S A) (k : A -> ST S B) : ST S B :=
  fun s => match m s with
           | Done (a, s') => k a s'
           | Aborts => Aborts
           | Diverges => Diverges
           end.
Definition st_get {S} : ST S S := fun s => Done (s, s).
Definition st_modify {S} (f : S -> S) : ST S unit := fun s => Done (tt, f s).
Definition st_abort {S A} : ST S A := fun _ => Aborts.
Definition st_diverge {S A} : ST S A := fun _ => Diverges.
(** [CHECK(b)] *)
Definition st_check {S} (b : bool) : ST S unit := if b then st_ret tt else st_abort.
(** reading an element that may be out of bounds *)
Definition st_opt {S A} (o : option A) : ST S A :=
  match o with Some a => st_ret a | None => st_abort end.

Definition st_outcome {S A} (o : outcome A) : ST S A :=
  fun s => match o with Done a => Done (a, s) | Aborts => Aborts | Diverges => Diverges end.

Notation "'let!' x := m 'in' k" := (st_bind m (fun x => k))
  (at level 10, x name, m at level 99, k at level 200) : tf_scope.
Notation "'let!' ' p := m 'in' k" := (st_bind m (fun x => match x with p => k end))
  (at level 10, p pattern, m at level 99, k at level 200) : tf_scope.
Notation "m ;;; k" := (st_bind m (fun _ => k))
  (at level 100, k at level 200, right associativity) : tf_scope.

Lemma st_bind_Done {S A B} (m : ST S A) (k : A -> ST S B) s b s' :
  st_bind m k s = Done (b, s') <->
  exists a s1, m s = Done (a, s1) /\ k a s1 = Done (b, s').
Proof.
  unfold st_bind. split.
  - destruct (m s) as [[a s1]| |]; try done. eauto.
  - intros (a & s1 & -> & H). done.
Qed.
Lemma st_bind_eq {S A B} (m : ST S A) (k : A -> ST S B) s a s1 :
  m s = Done (a, s1) -> st_bind m k s = k a s1.
Proof. unfold st_bind. by intros ->. Qed.
Lemma st_bind_div {S A B} (m : ST S A) (k : A -> ST S B) s :
  m s = Diverges -> st_bind m k s = Diverges.
Proof. unfold st_bind. by intros ->. Qed.
Lemma st_check_Done {S} b (s s' : S) u :
  st_check b s = Done (u, s') <-> b = true /\ s' = s.
Proof. destruct b, u; unfold st_check, st_ret, st_abort; split; intros; firstorder congruence. Qed.
Lemma st_opt_Done {S A} (o : option A) (s s' : S) a :
  st_opt o s = Done (a, s') <-> o = Some a /\ s' = s.
Proof. destruct o; unfold st_opt, st_ret, st_abort; split; intros; firstorder congruence. Qed.

(** ** Total correctness of outcomes: [wp m s Q] says that [m] run in [s]
    ends with a value and a state that satisfy [Q]; it rules out aborting and
    diverging. *)
Definition wp {S A} (m : ST S A) (s : S) (Q : A -> S -> Prop) : Prop :=
  match m s with Done (a, s') => Q a s' | _ => False end.

Section WP.
  Context {S A B : Type}.
  Implicit Types (s : S) (Q : A -> S -> Prop).

Lemma wp_Done (m : ST S A) s Q :
    wp m s Q <-> exists a s', m s = Done (a, s') /\ Q a s'.
  Proof.
    unfold wp. destruct (m s) as [[a s']| |]; split; try done; try (by intros (?&?&?&?)).
    - intros HQ. by exists a, s'.
    - intros (? & ? & [= <- <-] & ?). done.
  Qed.
Lemma wp_mono (m : ST S A) s Q (Q' : A -> S -> Prop) :
    wp m s Q -> (forall a s', Q a s' -> Q' a s') -> wp m s Q'.
  Proof. unfold wp. destruct (m s) as [[a s']| |]; eauto. Qed.
Lemma wp_ret (a : A) s Q : Q a s -> wp (st_ret a) s Q.
  Proof. done. Qed.
Lemma wp_bind (m : ST S A) (k : A -> ST S B) s (Q : B -> S -> Prop) :
    wp m s (fun a s' => wp (k a) s' Q) -> wp (st_bind m k) s Q.
  Proof. unfold wp, st_bind. by destruct (m s) as [[a s']| |]. Qed.
Lemma wp_bind_mono (m : ST S A) (k : A -> ST S B) s Q (Q' : B -> S -> Prop) :
    wp m s Q -> (forall a s', Q a s' -> wp (k a) s' Q') -> wp (st_bind m k) s Q'.
  Proof. intros. apply wp_bind. by eapply wp_mono. Qed.
End WP.
(** The first two of three actions in sequence. *)
Lemma wp_split {S A B C} (m : ST S A) (n : ST S B) (k : ST S C) s Q :
  wp (m ;;; n) s (fun _ s' => wp k s' Q) -> wp (m ;;; n ;;; k) s Q.
Proof. unfold wp, st_bind. destruct (m s) as [[a s1]| |]; [|done..]. by destruct (n s1) as [[b s2]| |]. Qed.
Lemma wp_get {S} (s : S) (Q : S -> S -> Prop) : Q s s -> wp st_get s Q.
Proof. done. Qed.
Lemma wp_modify {S} f (s : S) (Q : unit -> S -> Prop) :
  Q tt (f s) -> wp (st_modify f) s Q.
Proof. done. Qed.
Lemma wp_check {S} b (s : S) (Q : unit -> S -> Prop) :
  b = true -> Q tt s -> wp (st_check b) s Q.
Proof. intros ->. done. Qed.
Lemma wp_opt {S A} (o : option A) a (s : S) (Q : A -> S -> Prop) :
  o = Some a -> Q a s -> wp (st_opt o) s Q.
Proof. intros ->. done. Qed.

(** One step of symbolic execution of a [wp] goal. *)
Ltac wp_step :=
  lazymatch goal with
  | |- wp (st_bind _ _) _ _ => apply wp_bind; cbv beta
  | |- wp (st_ret _) _ _ => apply wp_ret
  | |- wp st_get _ _ => apply wp_get
  | |- wp (st_modify _) _ _ => apply wp_modify
  | |- wp (st_check _) _ _ => apply wp_check
  | |- wp (st_opt _) _ _ => eapply wp_opt
  | |- wp (if ?b then _ else _) _ _ => destruct b eqn:?
  end.

(** ** Bytes and bit operations *)

(** A byte is a [Z] in [0, 256); a string or a buffer is a list of bytes. *)
Definition is_byte (b : Z) : Prop := 0 <= b < 256.
Definition is_bytes (l : list Z) : Prop := Forall is_byte l.

(** A boolean fact of a byte, checked on the 256 of them. *)
Lemma forall_byte (P : Z -> bool) :
  forallb P (map Z.of_nat (seq 0 256)) = true -> forall b, is_byte b -> P b = true.
Proof.
  intros H b Hb. rewrite forallb_forall in H. apply H. apply List.in_map_iff.
  exists (Z.to_nat b). unfold is_byte in Hb. split; [lia|]. apply in_seq. lia.
Qed.
(** The same for an equation of integers. *)
Lemma forall_byte_eq (f g : Z -> Z) :
  forallb (fun b => f b =? g b) (map Z.of_nat (seq 0 256)) = true -> forall b, is_byte b -> f b = g b.
Proof. intros H b Hb. apply Z.eqb_eq. by apply (forall_byte (fun b => f b =? g b)). Qed.

Lemma land_ones_mod a n : 0 <= n -> Z.land a (2 ^ n - 1) = a mod 2 ^ n.
Proof. intros. rewrite <- Z.land_ones by done. f_equal. rewrite Z.ones_equiv. lia. Qed.

Lemma land_255 a : Z.land a 255 = a mod 256.
Proof. apply (land_ones_mod a 8). lia. Qed.
Lemma land_127 a : Z.land a 127 = a mod 128.
Proof. apply (land_ones_mod a 7). lia. Qed.
Lemma mod_byte a : is_byte (a mod 256).
Proof. apply Z.mod_pos_bound. lia. Qed.
#[export] Hint Resolve mod_byte : core.

(** Disjoint bits: [|] is [^] and [+]. *)
Lemma land_shift_0 a b s : 0 <= s -> 0 <= a < 2 ^ s -> Z.land a (Z.shiftl b s) = 0.
Proof.
  intros Hs Ha. apply Z.bits_inj'; intros n Hn; rewrite Z.land_spec, Z.bits_0.
  destruct (Z.lt_ge_cases n s) as [Hlt|Hge];
    [rewrite (Z.shiftl_spec_low b) by done; by rewrite andb_false_r|].
  rewrite <- (Z.mod_small a (2 ^ s)) by done. by rewrite Z.mod_pow2_bits_high.
Qed.
Lemma lor_shift_lxor a b s : 0 <= s -> 0 <= a < 2 ^ s -> Z.lor a (Z.shiftl b s) = Z.lxor a (Z.shiftl b s).
Proof. intros. symmetry. by apply Z.lxor_lor, land_shift_0. Qed.
Lemma lor_add_shift a b s :
  0 <= s -> 0 <= a < 2 ^ s -> Z.lor a (Z.shiftl b s) = a + b * 2 ^ s.
Proof.
  intros Hs Ha. rewrite lor_shift_lxor, <- Z.add_nocarry_lxor by (try apply land_shift_0; done).
  by rewrite Z.shiftl_mul_pow2.
Qed.
Lemma lor_shift_add a b s :
  0 <= s -> 0 <= a < 2 ^ s -> Z.lor (Z.shiftl b s) a = b * 2 ^ s + a.
Proof. intros. rewrite Z.lor_comm, lor_add_shift by done. lia. Qed.

Lemma lxor_bound a b k : 0 <= k -> 0 <= a < 2 ^ k -> 0 <= b < 2 ^ k -> 0 <= Z.lxor a b < 2 ^ k.
Proof.
  intros Hk Ha Hb. split; [apply Z.lxor_nonneg; lia|].
  replace (Z.lxor a b) with (Z.lxor a b mod 2 ^ k); [apply Z.mod_pos_bound; lia|].
  apply Z.bits_inj'. intros n Hn. destruct (Z.lt_ge_cases n k); [by rewrite Z.mod_pow2_bits_low|].
  rewrite Z.mod_pow2_bits_high, Z.lxor_spec by lia.
  rewrite <- (Z.mod_small a (2 ^ k)), <- (Z.mod_small b (2 ^ k)) by done. by rewrite !Z.mod_pow2_bits_high by lia.
Qed.
