(* ===== verification/StringPiece.v ===== *)
(** * StringPiece: slices of bytes

    [core/lib/core/stringpiece.h] and [.cc]: the comparison, the prefix and
    suffix tests and the searches. A piece is its list of bytes; the pointer
    arithmetic is [take] and [drop]; [npos] is [2^64 - 1]. *)
From S2P Require Import Prelude.

Module StringPiece.

Definition npos : Z := 2 ^ 64 - 1.

(** [memcmp(x, y, n)]: the sign of the first difference among [n] bytes. *)
Fixpoint memcmp (x y : list Z) (n : nat) : Z :=
  match n, x, y with
  | S n', a :: x', b :: y' =>
      if a <? b then -1 else if b <? a then 1 else memcmp x' y' n'
  | _, _, _ => 0
  end.

Definition compare (x b : list Z) : Z :=
  let min_len := if (length x <? length b)%nat then length x else length b in
  let r := memcmp x b min_len in
  if r =? 0 then
    if (length x <? length b)%nat then -1
    else if (length b <? length x)%nat then 1 else r
  else r.

Definition starts_with (s x : list Z) : bool :=
  (length x <=? length s)%nat && (memcmp s x (length x) =? 0).
Definition ends_with (s x : list Z) : bool :=
  (length x <=? length s)%nat &&
  (memcmp (drop (length s - length x) s) x (length x) =? 0).
Definition remove_prefix (n : nat) (s : list Z) : list Z := drop n s.
Definition remove_suffix (n : nat) (s : list Z) : list Z := take (length s - n) s.

(** [Consume]: the rest of the piece when it starts with [x]. *)
Definition Consume (s x : list Z) : bool * list Z :=
  if starts_with s x then (true, remove_prefix (length x) s) else (false, s).

Definition substr (s : list Z) (pos n : Z) : list Z :=
  let size := zlength s in
  let pos := if size <? pos then size else pos in
  let n := if size - pos <? n then size - pos else n in
  take (Z.to_nat n) (drop (Z.to_nat pos) s).

(** [memchr] from position [i] on. *)
Fixpoint memchr (c i : Z) (s : list Z) : option Z :=
  match s with
  | [] => None
  | a :: s' => if a =? c then Some i else memchr c (i + 1) s'
  end.
Definition find (s : list Z) (c pos : Z) : Z :=
  if zlength s <=? pos then npos
  else match memchr c pos (drop (Z.to_nat pos) s) with Some i => i | None => npos end.

(** The loop of [rfind], downwards from position [n - 1]. *)
Fixpoint rfind_loop (s : list Z) (c : Z) (n : nat) : Z :=
  match n with
  | O => npos
  | S n' => if bool_decide (s !! n' = Some c) then Z.of_nat n' else rfind_loop s c n'
  end.
Definition rfind (s : list Z) (c pos : Z) : Z :=
  if zlength s =? 0 then npos
  else rfind_loop s c (S (Z.to_nat (Z.min pos (zlength s - 1)))).

Fixpoint contains (s x : list Z) : bool :=
  starts_with s x || match s with [] => false | _ :: s' => contains s' x end.

(** ** The order *)

(** The lexicographic order, as a reference. *)
Fixpoint lex (x y : list Z) : comparison :=
  match x, y with
  | [], [] => Eq
  | [], _ :: _ => Lt
  | _ :: _, [] => Gt
  | a :: x', b :: y' => match Z.compare a b with Eq => lex x' y' | c => c end
  end.
Definition sign (c : comparison) : Z := match c with Lt => -1 | Eq => 0 | Gt => 1 end.

Lemma compare_cons a x b y :
  compare (a :: x) (b :: y) = if a <? b then -1 else if b <? a then 1 else compare x y.
Proof.
  unfold compare. cbn [length]. change (S (length x) <? S (length y))%nat with (length x <? length y)%nat.
  change (S (length y) <? S (length x))%nat with (length y <? length x)%nat.
  destruct (length x <? length y)%nat; cbn [memcmp]; destruct (a <? b), (b <? a); try done.
Qed.

Lemma compare_lex x y : compare x y = sign (lex x y).
Proof.
  revert y. induction x as [|a x IH]; intros [|b y]; try done.
  rewrite compare_cons, IH. cbn [lex].
  destruct (Z.ltb_spec a b), (Z.ltb_spec b a), (Z.compare_spec a b); lia || done.
Qed.

Lemma lex_eq x y : lex x y = Eq <-> x = y.
Proof.
  revert y. induction x as [|a x IH]; intros [|b y]; try done. cbn [lex].
  destruct (Z.compare_spec a b); [subst; rewrite IH|..]; (split; [|intros [= ?]; lia || congruence]);
    intros H1; try congruence.
Qed.
Lemma lex_refl x : lex x x = Eq.
Proof. by apply lex_eq. Qed.
Lemma lex_lt a b x y : a < b -> lex (a :: x) (b :: y) = Lt.
Proof. intros H. cbn [lex]. by rewrite (proj2 (Z.compare_lt_iff a b) H). Qed.
Lemma lex_same a x y : lex (a :: x) (a :: y) = lex x y.
Proof. cbn [lex]. by rewrite Z.compare_refl. Qed.
Lemma lex_antisym x y : lex y x = CompOpp (lex x y).
Proof.
  revert y. induction x as [|a x IH]; intros [|b y]; try done. cbn [lex].
  rewrite (Z.compare_antisym a b). destruct (Z.compare a b); simpl; auto.
Qed.
Lemma lex_gt_lt x y : lex y x = Lt -> lex x y = Gt.
Proof. intros H. by rewrite lex_antisym, H. Qed.
Lemma lex_trans x y z : lex x y = Lt -> lex y z = Lt -> lex x z = Lt.
Proof.
  revert y z. induction x as [|a x IH]; intros [|b y] [|c z]; try done. cbn [lex].
  destruct (Z.compare_spec a b), (Z.compare_spec b c), (Z.compare_spec a c); try done; try lia. eauto.
Qed.
Lemma lex_app_same p x y : lex (p ++ x) (p ++ y) = lex x y.
Proof. induction p as [|a p IH]; [done|]. cbn. by rewrite Z.compare_refl. Qed.

Lemma memcmp_prefix s x :
  (length x <= length s)%nat -> memcmp s x (length x) = 0 <-> take (length x) s = x.
Proof.
  revert s. induction x as [|b x IH]; intros [|a s] Hl; simpl in *; try done; try lia.
  rewrite <- (Nat.succ_le_mono (length x)) in Hl. specialize (IH s Hl).
  destruct (Z.ltb_spec a b); [split; [done|intros [= ? _]; lia]|].
  destruct (Z.ltb_spec b a); [split; [done|intros [= ? _]; lia]|].
  assert (a = b) as -> by lia. rewrite IH. split; [by intros ->|congruence].
Qed.

Lemma starts_with_spec s x : starts_with s x = true <-> exists r, s = x ++ r.
Proof.
  unfold starts_with. rewrite andb_true_iff, Nat.leb_le, Z.eqb_eq. split.
  - intros [Hl E]. rewrite memcmp_prefix in E by done. exists (drop (length x) s).
    rewrite <- E at 1. by rewrite take_drop.
  - intros [r ->]. assert (length x <= length (x ++ r))%nat by (rewrite length_app; lia).
    rewrite memcmp_prefix by done. split; [done|]. by rewrite take_app_length.
Qed.
Lemma ends_with_spec s x : ends_with s x = true <-> exists r, s = r ++ x.
Proof.
  unfold ends_with. rewrite andb_true_iff, Nat.leb_le, Z.eqb_eq. split.
  - intros [Hl E]. rewrite memcmp_prefix in E by (rewrite length_drop; lia).
    rewrite take_ge in E by (rewrite length_drop; lia).
    exists (take (length s - length x) s). rewrite <- E at 2. by rewrite take_drop.
  - intros [r ->]. rewrite length_app. split; [lia|].
    replace (length r + length x - length x)%nat with (length r) by lia.
    rewrite drop_app_length, memcmp_prefix by lia. by apply take_ge.
Qed.

(** ** The searches *)

Lemma memchr_spec c i s :
  match memchr c i s with
  | Some j => i <= j /\ s !! Z.to_nat (j - i) = Some c /\ forall k, i <= k < j -> s !! Z.to_nat (k - i) <> Some c
  | None => forall k : nat, s !! k <> Some c
  end.
Proof.
  revert i. induction s as [|a s IH]; intros i; simpl; [done|].
  destruct (Z.eqb_spec a c) as [->|Hn].
  - split_and!; [lia|by rewrite Z.sub_diag|lia].
  - specialize (IH (i + 1)). destruct (memchr c (i + 1) s) as [j|].
    + destruct IH as (Hj & Hf & Hno). split_and!; [lia| |].
      * replace (Z.to_nat (j - i)) with (S (Z.to_nat (j - (i + 1)))) by lia. done.
      * intros k Hk. destruct (decide (k = i)) as [->|]; [rewrite Z.sub_diag; simpl; congruence|].
        replace (Z.to_nat (k - i)) with (S (Z.to_nat (k - (i + 1)))) by lia. apply Hno. lia.
    + intros [|k]; simpl; [congruence|apply IH].
Qed.

Lemma rfind_loop_spec s c n :
  (rfind_loop s c n = npos /\ forall k, (k < n)%nat -> s !! k <> Some c) \/
  exists j, rfind_loop s c n = Z.of_nat j /\ (j < n)%nat /\ s !! j = Some c /\
    forall k, (j < k < n)%nat -> s !! k <> Some c.
Proof.
  induction n as [|n IH]; simpl; [left; split; [done|lia]|]. case_bool_decide as Hc.
  - right. exists n. split_and!; [done|lia|done|lia].
  - destruct IH as [[-> Hno]|(j & -> & Hj & Hf & Hno)].
    + left. split; [done|]. intros k Hk. destruct (decide (k = n)) as [->|]; [done|apply Hno; lia].
    + right. exists j. split_and!; [done|lia|done|]. intros k Hk.
      destruct (decide (k = n)) as [->|]; [done|apply Hno; lia].
Qed.

Lemma contains_spec s x : contains s x = true <-> exists l r, s = l ++ x ++ r.
Proof.
  induction s as [|a s IH]; cbn [contains]; rewrite orb_true_iff, starts_with_spec.
  - split; [intros [[r E]|?]; [by exists [], r|done]|].
    intros (l & r & E). left. symmetry in E. apply app_eq_nil in E as [_ E]. exists r. done.
  - rewrite IH. split; [intros [[r E]|(l & r & ->)]; [by exists [], r|by exists (a :: l), r]|].
    intros ([|b l] & r & E); [left; by exists r|right; exists l, r; by injection E].
Qed.

Lemma compare_eq x y : compare x y = 0 <-> x = y.
Proof. rewrite compare_lex, <- lex_eq. by destruct (lex x y). Qed.
Lemma compare_opp x y : compare y x = - compare x y.
Proof. rewrite !compare_lex, (lex_antisym x y). by destruct (lex x y). Qed.
Lemma compare_trans x y z : compare x y < 0 -> compare y z < 0 -> compare x z < 0.
Proof.
  rewrite !compare_lex. destruct (lex x y) eqn:E1, (lex y z) eqn:E2; try done.
  by rewrite (lex_trans _ _ _ E1 E2).
Qed.
Lemma compare_le_cases x y : compare x y <= 0 <-> x = y \/ compare x y < 0.
Proof. rewrite <- compare_eq. lia. Qed.
Lemma compare_le_lt x y z : compare x y <= 0 -> compare y z < 0 -> compare x z < 0.
Proof. rewrite compare_le_cases. intros [->|?] ?; [done|]. by eapply compare_trans. Qed.
Lemma compare_lt_le x y z : compare x y < 0 -> compare y z <= 0 -> compare x z < 0.
Proof. rewrite compare_le_cases. intros ? [->|?]; [done|]. by eapply compare_trans. Qed.
Lemma compare_le_trans x y z : compare x y <= 0 -> compare y z <= 0 -> compare x z <= 0.
Proof. rewrite !compare_le_cases. intros [->|?] [->|?]; auto. right. by eapply compare_trans. Qed.
Lemma compare_refl x : compare x x = 0.
Proof. by apply compare_eq. Qed.
Lemma compare_not_lt x y : ~ compare x y < 0 <-> compare y x <= 0.
Proof. rewrite (compare_opp x y). lia. Qed.

(** [compare] is the sign of the lexicographic order of the bytes, a total
    order (reflexive exactly on equal pieces, antisymmetric, transitive);
    [starts_with], [ends_with] and [contains] decide being a prefix, a suffix
    and a factor. *)
Theorem StringPiece_order :
  (forall x y, compare x y = 0 <-> x = y) /\
  (forall x y, compare y x = - compare x y) /\
  (forall x y z, compare x y < 0 -> compare y z < 0 -> compare x z < 0) /\
  (forall p x y, compare (p ++ x) (p ++ y) = compare x y) /\
  (forall s x, starts_with s x = true <-> exists r, s = x ++ r) /\
  (forall s x, ends_with s x = true <-> exists r, s = r ++ x) /\
  (forall s x, contains s x = true <-> exists l r, s = l ++ x ++ r).
Proof.
  split_and!; [apply compare_eq|apply compare_opp|apply compare_trans| |apply starts_with_spec|apply ends_with_spec|apply contains_spec].
  intros p x y. by rewrite !compare_lex, lex_app_same.
Qed.

(** [find] returns the first position at or after [pos] that holds the
    byte, [rfind] the last one at or before [pos], and both [npos] when there
    is none. *)
Theorem StringPiece_find_rfind s c pos :
  0 <= pos -> zlength s < npos ->
  ((find s c pos = npos /\ forall k, pos <= k -> s !!z k <> Some c) \/
   (pos <= find s c pos /\ s !!z find s c pos = Some c /\
    forall k, pos <= k < find s c pos -> s !!z k <> Some c)) /\
  ((rfind s c pos = npos /\ forall k, k <= pos -> s !!z k <> Some c) \/
   (rfind s c pos <= pos /\ s !!z rfind s c pos = Some c /\
    forall k, rfind s c pos < k <= pos -> s !!z k <> Some c)).
Proof.
  intros Hp Hl. unfold zlookup. split.
  - unfold find. destruct (Z.leb_spec (zlength s) pos) as [Hge|Hlt].
    + left. split; [done|]. intros k Hk. destruct (Z.ltb_spec k 0); [done|].
      rewrite lookup_ge_None_2; [done|unfold zlength in Hge; lia].
    + pose proof (memchr_spec c pos (drop (Z.to_nat pos) s)) as H.
      destruct (memchr c pos (drop (Z.to_nat pos) s)) as [j|]; [right|left].
      * destruct H as (Hj & Hf & Hno). rewrite lookup_drop in Hf. split_and!; [done| |].
        -- destruct (Z.ltb_spec j 0); [lia|]. by replace (Z.to_nat j) with (Z.to_nat pos + Z.to_nat (j - pos))%nat by lia.
        -- intros k Hk. destruct (Z.ltb_spec k 0); [lia|]. specialize (Hno k Hk). rewrite lookup_drop in Hno.
           by replace (Z.to_nat k) with (Z.to_nat pos + Z.to_nat (k - pos))%nat by lia.
      * split; [done|]. intros k Hk. destruct (Z.ltb_spec k 0); [lia|].
        specialize (H (Z.to_nat k - Z.to_nat pos)%nat). rewrite lookup_drop in H.
        by replace (Z.to_nat k) with (Z.to_nat pos + (Z.to_nat k - Z.to_nat pos))%nat by lia.
  - unfold rfind. destruct (Z.eqb_spec (zlength s) 0) as [E|Hne].
    + left. split; [done|]. intros k _. destruct s; [by destruct (k <? 0)|unfold zlength in E; simpl in E; lia].
    + set (n := S _). assert (Hn : Z.of_nat n = Z.min pos (zlength s - 1) + 1) by (unfold n, zlength in *; lia).
      assert (Hout : forall k, Z.of_nat n <= k <= pos -> s !! Z.to_nat k <> Some c).
      { intros k Hk. rewrite lookup_ge_None_2; [done|unfold zlength in *; lia]. }
      clearbody n. destruct (rfind_loop_spec s c n) as [[-> Hno]|(j & -> & Hj & Hf & Hno)]; [left|right].
      * split; [done|]. intros k Hk. destruct (Z.ltb_spec k 0); [done|].
        destruct (Z.lt_ge_cases k (Z.of_nat n)); [apply Hno; lia|apply Hout; lia].
      * rewrite Nat2Z.id. split_and!; [lia|by destruct (Z.ltb_spec (Z.of_nat j) 0); [lia|]|].
        intros k Hk. destruct (Z.ltb_spec k 0); [lia|].
        destruct (Z.lt_ge_cases k (Z.of_nat n)); [apply Hno; lia|apply Hout; lia].
Qed.
Lemma StringPiece_find_rfind_witness :
  0 <= 1 /\ find [1; 2; 1; 2] 2 1 = 1 /\ rfind [1; 2; 1; 2] 1 3 = 2 /\
  ((find [1; 2; 1; 2] 2 1 = npos /\ forall k, 1 <= k -> [1; 2; 1; 2] !!z k <> Some 2) \/
   (1 <= find [1; 2; 1; 2] 2 1 /\ [1; 2; 1; 2] !!z find [1; 2; 1; 2] 2 1 = Some 2 /\
    forall k, 1 <= k < find [1; 2; 1; 2] 2 1 -> [1; 2; 1; 2] !!z k <> Some 2)).
Proof.
  split_and!; [lia|reflexivity|reflexivity|].
  exact (proj1 (StringPiece_find_rfind [1; 2; 1; 2] 2 1 ltac:(lia) ltac:(vm_compute; reflexivity))).
Defined.
End StringPiece.
