(* ===== verification/Status.v ===== *)
(** * Status

    [core/lib/core/status.h], [status.cc] and the constructors of [errors.h]: a
    status is OK, or an error code with a message. Messages are byte
    strings. *)
From S2P Require Import Prelude.
From stdpp Require Import pretty.
Open Scope Z_scope.

(** The bytes of a string literal. *)
Definition bytes_of (s : String.string) : list Z :=
  map (fun c => Z.of_nat (Ascii.nat_of_ascii c)) (String.list_ascii_of_string s).
Arguments bytes_of s%_string.

Module Status.

(** The non-null [State*] of an error. *)
Record State := mkState { st_code : Z; st_msg : list Z }.
(** [state_]; [None] is the null pointer of an OK status. *)
Record Status := mkStatus { state_ : option State }.
#[global] Instance State_eq_dec : EqDecision State.
Proof. solve_decision. Defined.
#[global] Instance Status_eq_dec : EqDecision Status.
Proof. solve_decision. Defined.

(** error_codes.proto *)
Definition CANCELLED : Z := 1.
Definition UNKNOWN : Z := 2.
Definition INVALID_ARGUMENT : Z := 3.
Definition DEADLINE_EXCEEDED : Z := 4.
Definition NOT_FOUND : Z := 5.
Definition ALREADY_EXISTS : Z := 6.
Definition PERMISSION_DENIED : Z := 7.
Definition RESOURCE_EXHAUSTED : Z := 8.
Definition FAILED_PRECONDITION : Z := 9.
Definition ABORTED : Z := 10.
Definition OUT_OF_RANGE : Z := 11.
Definition UNIMPLEMENTED : Z := 12.
Definition INTERNAL : Z := 13.
Definition UNAVAILABLE : Z := 14.
Definition DATA_LOSS : Z := 15.
Definition UNAUTHENTICATED : Z := 16.

Definition OK : Status := mkStatus None.
(** [Status(code, msg)] *)
Definition Error (code : Z) (msg : list Z) : Status := mkStatus (Some (mkState code msg)).
Definition ok (s : Status) : bool := match state_ s with None => true | Some _ => false end.
Definition code (s : Status) : Z := match state_ s with None => 0 | Some st => st_code st end.
Definition error_message (s : Status) : list Z := match state_ s with None => [] | Some st => st_msg st end.

(** [Update]: the first error is kept. *)
Definition Update (self new_status : Status) : Status := if ok self then new_status else self.

(** errors.h *)
Definition InvalidArgument (msg : list Z) : Status := Error INVALID_ARGUMENT msg.
Definition NotFound (msg : list Z) : Status := Error NOT_FOUND msg.
Definition OutOfRange (msg : list Z) : Status := Error OUT_OF_RANGE msg.
Definition Unimplemented (msg : list Z) : Status := Error UNIMPLEMENTED msg.
Definition Internal (msg : list Z) : Status := Error INTERNAL msg.
Definition Aborted (msg : list Z) : Status := Error ABORTED msg.
Definition Cancelled (msg : list Z) : Status := Error CANCELLED msg.
Definition DataLoss (msg : list Z) : Status := Error DATA_LOSS msg.

(** [type] in [ToString]; [%d] prints the code as a decimal integer. *)
Definition code_name (c : Z) : list Z :=
  bytes_of match c with
  | 1 => "Cancelled"
  | 2 => "Unknown"
  | 3 => "Invalid argument"
  | 4 => "Deadline exceeded"
  | 5 => "Not found"
  | 6 => "Already exists"
  | 7 => "Permission denied"
  | 16 => "Unauthenticated"
  | 8 => "Resource exhausted"
  | 9 => "Failed precondition"
  | 10 => "Aborted"
  | 11 => "Out of range"
  | 12 => "Unimplemented"
  | 13 => "Internal"
  | 14 => "Unavailable"
  | 15 => "Data loss"
  | _ => "Unknown code(" +:+ pretty c +:+ ")"
  end.
Definition ToString (s : Status) : list Z :=
  match state_ s with
  | None => bytes_of "OK"
  | Some st => code_name (st_code st) ++ bytes_of ": " ++ st_msg st
  end.
(** [operator==]: the same state pointer (two OK statuses) or the same string. *)
Definition Status_eqb (a b : Status) : bool :=
  (ok a && ok b) || bool_decide (ToString a = ToString b).

(** ** [ToString] tells statuses apart *)

(** A closed decidable goal, by evaluation. *)
Ltac by_eval := apply (bool_decide_unpack _); vm_compute; done.

Lemma bytes_of_app s t : bytes_of (s +:+ t) = bytes_of s ++ bytes_of t.
Proof. unfold bytes_of. induction s as [|c s IH]; [done|]. cbn. by rewrite <- IH. Qed.
Lemma bytes_of_inj s t : bytes_of s = bytes_of t -> s = t.
Proof.
  unfold bytes_of. revert t. induction s as [|c s IH]; intros [|d t] E; try done.
  cbn in E. injection E as E1 E2. apply IH in E2 as ->. f_equal. rewrite <- (Ascii.ascii_nat_embedding c), <- (Ascii.ascii_nat_embedding d).
  f_equal. lia.
Qed.

(** Splitting at the first occurrence of a separator. *)
Lemma split_sep (x : Z) a a' r r' :
  x ∉ a -> x ∉ a' -> a ++ x :: r = a' ++ x :: r' -> a = a' /\ r = r'.
Proof.
  revert a'. induction a as [|c a IH]; intros [|c' a'] Ha Ha' E; cbn in E.
  - by simplify_eq.
  - injection E as -> _. set_solver.
  - injection E as -> _. set_solver.
  - injection E as -> E. destruct (IH a') as [-> ->]; set_solver.
Qed.

(** A code is printed by one of sixteen names, or as a number. *)
Definition named : list Z := [1; 2; 3; 4; 5; 6; 7; 8; 9; 10; 11; 12; 13; 14; 15; 16].
Lemma code_name_other c : ~ c ∈ named -> code_name c = bytes_of "Unknown code(" ++ bytes_of (pretty c) ++ bytes_of ")".
Proof.
  intros Hc. rewrite <- !bytes_of_app. unfold code_name. f_equal.
  destruct c as [|p|p]; [done| |done].
  do 5 (destruct p as [p|p|]; try done; try (exfalso; apply Hc; by repeat constructor)).
Qed.
Lemma named_other c c' : c ∈ named -> ~ c' ∈ named -> code_name c <> code_name c'.
Proof.
  intros Hc Hc' E. rewrite (code_name_other c') in E by done.
  assert (H : Forall (fun c => take 13 (code_name c) <> bytes_of "Unknown code(") named).
  { repeat constructor; vm_compute; discriminate. }
  rewrite Forall_forall in H. apply (H c Hc). rewrite E. done.
Qed.
Lemma code_name_inj c c' : code_name c = code_name c' -> c = c'.
Proof.
  intros E. destruct (decide (c ∈ named)) as [Hc|Hc], (decide (c' ∈ named)) as [Hc'|Hc'].
  - assert (H : Forall (fun c => Forall (fun c' => code_name c = code_name c' -> c = c') named) named).
    { repeat constructor; intros; try done; by vm_compute in *. }
    rewrite Forall_forall in H. specialize (H c Hc). rewrite Forall_forall in H. by apply H.
  - by apply named_other in E.
  - symmetry in E. by apply named_other in E.
  - rewrite !code_name_other in E by done. apply app_inv_head, app_inv_tail, bytes_of_inj in E.
    by apply (inj pretty).
Qed.

(** No name holds a colon. *)
Lemma pretty_go_colon x s : ~ 58 ∈ bytes_of s -> ~ 58 ∈ bytes_of (pretty_N_go x s).
Proof.
  revert s. induction (N.lt_wf_0 x) as [x _ IH]; intros s Hs.
  assert (x = 0 \/ 0 < x)%N as [->|?] by lia; [by rewrite pretty_N_go_0|].
  rewrite pretty_N_go_step by done. apply IH; [by apply N.div_lt|].
  change (~ 58 ∈ Z.of_nat (Ascii.nat_of_ascii (pretty_N_char (x `mod` 10))) :: bytes_of s). apply not_elem_of_cons. split; [|done].
  unfold pretty_N_char. repeat case_match; vm_compute; discriminate.
Qed.
Lemma pretty_colon (c : Z) : ~ 58 ∈ bytes_of (pretty c).
Proof.
  assert (HN : forall n : N, ~ 58 ∈ bytes_of (pretty n)).
  { intros n. unfold pretty, pretty_N. destruct (decide _); [by_eval|].
    apply pretty_go_colon. by_eval. }
  destruct c as [|p|p]; [by_eval|exact (HN (Npos p))|].
  change (pretty (Z.neg p)) with ("-" +:+ pretty (Npos p)). rewrite bytes_of_app. apply not_elem_of_app. split; [|apply HN].
  by_eval.
Qed.
Lemma code_name_colon c : ~ 58 ∈ code_name c.
Proof.
  destruct (decide (c ∈ named)) as [Hc|Hc].
  - assert (H : Forall (fun c => ~ 58 ∈ code_name c) named); [|rewrite Forall_forall in H; by apply H].
    repeat constructor; by_eval.
  - rewrite code_name_other by done. rewrite !not_elem_of_app. split_and!; [|apply pretty_colon|].
    all: by_eval.
Qed.

(** [ToString] is faithful: two statuses compare equal exactly when they
    have the same code and the same message. *)
Theorem Status_eqb_spec a b : Status_eqb a b = true <-> a = b.
Proof.
  unfold Status_eqb, ok, ToString. rewrite orb_true_iff, andb_true_iff, bool_decide_eq_true.
  assert (Hok : forall c m, bytes_of "OK" <> code_name c ++ bytes_of ": " ++ m).
  { intros c m E. assert (H : 58 ∈ bytes_of "OK") by (rewrite E; set_solver).
    revert H. by_eval. }
  split; [|intros ->; by right].
  destruct a as [[[c m]|]], b as [[[c' m']|]]; cbn [state_ st_code st_msg]; intros [[? ?]|E]; try done.
  - change (bytes_of ": ") with [58; 32] in E. cbn [app] in E.
    apply split_sep in E as [Hc Hm]; [|apply code_name_colon..]. apply code_name_inj in Hc. by simplify_eq.
  - symmetry in E. by apply Hok in E.
  - by apply Hok in E.
Qed.
End Status.
