(* ===== verification/Coding.v ===== *)
(** * Fixed-width and variable-length integer coding

    [core/lib/core/coding.cc] and [raw_coding.h]. A buffer is the list of its
    bytes; [Encode*] returns the bytes it stores, [Get*] the value and the rest
    of the input, or [None] where the code returns [NULL] or [false]. *)
From S2P Require Import Prelude.

Module Coding.

Definition EncodeFixed16 (value : Z) : list Z :=
  [Z.land value 255; Z.land (Z.shiftr value 8) 255].
Definition EncodeFixed32 (value : Z) : list Z :=
  [Z.land value 255; Z.land (Z.shiftr value 8) 255;
   Z.land (Z.shiftr value 16) 255; Z.land (Z.shiftr value 24) 255].
Definition EncodeFixed64 (value : Z) : list Z :=
  [Z.land value 255; Z.land (Z.shiftr value 8) 255;
   Z.land (Z.shiftr value 16) 255; Z.land (Z.shiftr value 24) 255;
   Z.land (Z.shiftr value 32) 255; Z.land (Z.shiftr value 40) 255;
   Z.land (Z.shiftr value 48) 255; Z.land (Z.shiftr value 56) 255].

Definition PutFixed16 (dst : list Z) (value : Z) : list Z := dst ++ EncodeFixed16 value.
Definition PutFixed32 (dst : list Z) (value : Z) : list Z := dst ++ EncodeFixed32 value.
Definition PutFixed64 (dst : list Z) (value : Z) : list Z := dst ++ EncodeFixed64 value.

(** The decoders read without a bounds check: [None] is a read past the end. *)
Definition DecodeFixed16 (ptr : list Z) : option Z :=
  match ptr with
  | a :: b :: _ => Some (Z.lor a (Z.shiftl b 8))
  | _ => None
  end.
Definition DecodeFixed32 (ptr : list Z) : option Z :=
  match ptr with
  | a :: b :: c :: d :: _ =>
      Some (Z.lor (Z.lor (Z.lor a (Z.shiftl b 8)) (Z.shiftl c 16)) (Z.shiftl d 24))
  | _ => None
  end.
Definition DecodeFixed64 (ptr : list Z) : option Z :=
  match DecodeFixed32 ptr, DecodeFixed32 (drop 4 ptr) with
  | Some lo, Some hi => Some (Z.lor (u64 (Z.shiftl hi 32)) lo)
  | _, _ => None
  end.

(** ** Varints *)

(** [*(ptr++) = x] stores the low byte. *)
Definition EncodeVarint32 (v : Z) : list Z :=
  let B := 128 in
  if v <? Z.shiftl 1 7 then [u8 v]
  else if v <? Z.shiftl 1 14 then [u8 (Z.lor v B); u8 (Z.shiftr v 7)]
  else if v <? Z.shiftl 1 21 then
    [u8 (Z.lor v B); u8 (Z.lor (Z.shiftr v 7) B); u8 (Z.shiftr v 14)]
  else if v <? Z.shiftl 1 28 then
    [u8 (Z.lor v B); u8 (Z.lor (Z.shiftr v 7) B); u8 (Z.lor (Z.shiftr v 14) B);
     u8 (Z.shiftr v 21)]
  else
    [u8 (Z.lor v B); u8 (Z.lor (Z.shiftr v 7) B); u8 (Z.lor (Z.shiftr v 14) B);
     u8 (Z.lor (Z.shiftr v 21) B); u8 (Z.shiftr v 28)].
Definition PutVarint32 (dst : list Z) (v : Z) : list Z := dst ++ EncodeVarint32 v.

(** [while (v >= B)], with fuel: the buffer of [PutVarint64] has 10 bytes. *)
Fixpoint EncodeVarint64_loop (fuel : nat) (v : Z) : list Z :=
  match fuel with
  | O => []
  | S f => if 128 <=? v then Z.lor (Z.land v 127) 128 :: EncodeVarint64_loop f (Z.shiftr v 7)
           else [u8 v]
  end.
Definition EncodeVarint64 (v : Z) : list Z := EncodeVarint64_loop 10 v.
Definition PutVarint64 (dst : list Z) (v : Z) : list Z := dst ++ EncodeVarint64 v.

Fixpoint VarintLength_loop (fuel : nat) (len v : Z) : Z :=
  match fuel with
  | O => len
  | S f => if 128 <=? v then VarintLength_loop f (len + 1) (Z.shiftr v 7) else len
  end.
Definition VarintLength (v : Z) : Z := VarintLength_loop 10 1 v.

(** The decoding loop, [p < limit] being a non-empty rest: [max_shift] is 28
    for the 32-bit decoder and 63 for the 64-bit one, [w] the width of
    [result]. *)
Fixpoint GetVarint_loop (max_shift w : Z) (p : list Z) (shift result : Z) : option (Z * list Z) :=
  match p with
  | [] => None
  | byte :: p' =>
      if shift <=? max_shift then
        if negb (Z.land byte 128 =? 0) then
          GetVarint_loop max_shift w p' (shift + 7)
            (Z.lor result (Z.shiftl (Z.land byte 127) shift mod 2 ^ w))
        else Some (Z.lor result (Z.shiftl byte shift mod 2 ^ w), p')
      else None
  end.
Definition GetVarint32PtrFallback (p : list Z) : option (Z * list Z) := GetVarint_loop 28 32 p 0 0.
Definition GetVarint32Ptr (p : list Z) : option (Z * list Z) :=
  match p with
  | result :: p' => if Z.land result 128 =? 0 then Some (result, p') else GetVarint32PtrFallback p
  | [] => GetVarint32PtrFallback p
  end.
Definition GetVarint32 (input : list Z) : option (Z * list Z) := GetVarint32Ptr input.
Definition GetVarint64Ptr (p : list Z) : option (Z * list Z) := GetVarint_loop 63 64 p 0 0.
Definition GetVarint64 (input : list Z) : option (Z * list Z) := GetVarint64Ptr input.

(** ** Fixed-width integers *)

Lemma le_bytes v n : 0 <= n -> Z.land (Z.shiftr v n) 255 = v / 2 ^ n mod 256.
Proof. intros. by rewrite land_255, Z.shiftr_div_pow2. Qed.

Lemma fixed32_value a b c d :
  is_byte a -> is_byte b -> is_byte c -> is_byte d ->
  Z.lor (Z.lor (Z.lor a (Z.shiftl b 8)) (Z.shiftl c 16)) (Z.shiftl d 24) =
  a + b * 2 ^ 8 + c * 2 ^ 16 + d * 2 ^ 24.
Proof.
  unfold is_byte. intros. rewrite (lor_add_shift a), (lor_add_shift _ c), (lor_add_shift _ d); lia.
Qed.

Lemma EncodeFixed32_decode v r :
  0 <= v < 2 ^ 32 -> DecodeFixed32 (EncodeFixed32 v ++ r) = Some v.
Proof.
  intros Hv. unfold EncodeFixed32. cbn [app DecodeFixed32]. rewrite !le_bytes, land_255 by lia.
  rewrite fixed32_value by apply mod_byte. f_equal.
  change (2 ^ 8) with 256. change (2 ^ 16) with (256 * 256). change (2 ^ 24) with (256 * 256 * 256).
  rewrite <- !Z.div_div by lia. set (a := v / 256). set (b := a / 256). set (c := b / 256).
  pose proof (Z.div_mod v 256). pose proof (Z.div_mod a 256). pose proof (Z.div_mod b 256).
  assert (0 <= c < 256) by (unfold c, b, a; rewrite !Z.div_div by lia; split; [apply Z.div_pos; lia|apply Z.div_lt_upper_bound; lia]).
  rewrite (Z.mod_small c) by done. lia.
Qed.

Lemma EncodeFixed64_split v : EncodeFixed64 v = EncodeFixed32 v ++ EncodeFixed32 (Z.shiftr v 32).
Proof. unfold EncodeFixed64, EncodeFixed32. cbn [app]. by rewrite !Z.shiftr_shiftr by lia. Qed.
Lemma EncodeFixed32_low v : EncodeFixed32 v = EncodeFixed32 (v mod 2 ^ 32).
Proof.
  unfold EncodeFixed32. rewrite <- !land_ones_mod by lia.
  rewrite !Z.shiftr_land, <- !Z.land_assoc. done.
Qed.

Lemma EncodeFixed64_decode v r :
  0 <= v < 2 ^ 64 -> DecodeFixed64 (EncodeFixed64 v ++ r) = Some v.
Proof.
  intros Hv. unfold DecodeFixed64. rewrite EncodeFixed64_split, <- app_assoc.
  change (drop 4 (EncodeFixed32 v ++ EncodeFixed32 (Z.shiftr v 32) ++ r)) with (EncodeFixed32 (Z.shiftr v 32) ++ r).
  pose proof (Z.mod_pos_bound v (2 ^ 32) ltac:(lia)) as Hm.
  rewrite Z.shiftr_div_pow2 by lia.
  assert (Hd : 0 <= v / 2 ^ 32 < 2 ^ 32) by (split; [apply Z.div_pos; lia|apply Z.div_lt_upper_bound; lia]).
  rewrite (EncodeFixed32_low v), !EncodeFixed32_decode by done.
  pose proof (Z.div_mod v (2 ^ 32) ltac:(lia)). set (q := v / 2 ^ 32) in *. clearbody q.
  rewrite u64_id by (rewrite Z.shiftl_mul_pow2 by lia; lia).
  rewrite lor_shift_add by lia. f_equal. lia.
Qed.

Lemma EncodeFixed16_decode v r :
  0 <= v < 2 ^ 16 -> DecodeFixed16 (EncodeFixed16 v ++ r) = Some v.
Proof.
  intros Hv. unfold EncodeFixed16. cbn [app DecodeFixed16]. rewrite le_bytes, land_255 by lia.
  rewrite lor_add_shift by (try apply Z.mod_pos_bound; lia). f_equal.
  change (2 ^ 8) with 256. pose proof (Z.div_mod v 256). rewrite (Z.mod_small (v / 256)); [lia|].
  split; [apply Z.div_pos; lia|apply Z.div_lt_upper_bound; lia].
Qed.

(** ** Varints *)

Lemma land_128 b : is_byte b -> (Z.land b 128 =? 0) = (b <? 128).
Proof.
  intros Hb. apply eqb_prop. revert b Hb.
  apply (forall_byte (fun b => eqb (Z.land b 128 =? 0) (b <? 128))). vm_compute. reflexivity.
Qed.
Lemma lor_128 a : 0 <= a < 128 -> Z.lor a 128 = a + 128.
Proof. intros Ha. change 128 with (Z.shiftl 1 7) at 1. by rewrite lor_add_shift by lia. Qed.

(** One continuation byte. *)
Lemma varint_cont v : 0 <= v -> Z.lor (Z.land v 127) 128 = v mod 128 + 128.
Proof. intros. rewrite land_127. apply lor_128. apply Z.mod_pos_bound. lia. Qed.

Lemma u8_lor_128 v : 0 <= v -> u8 (Z.lor v 128) = Z.lor (Z.land v 127) 128.
Proof.
  intros. rewrite varint_cont by done. unfold u8. change (2 ^ 8) with 256.
  rewrite <- land_255, Z.land_lor_distr_l, land_255.
  change (Z.land 128 255) with 128.
  pose proof (Z.mod_pos_bound v 256 ltac:(lia)). pose proof (Z.mod_pos_bound v 128 ltac:(lia)).
  assert (E : v mod 128 = (v mod 256) mod 128).
  { change 256 with (2 * 128). rewrite Z.mul_comm, Z.rem_mul_r by lia.
    rewrite Z.mul_comm, Z.mod_add by lia. by rewrite Z.mod_mod. }
  rewrite E, <- varint_cont by lia. generalize (v mod 256) as b, (mod_byte v). clear.
  apply (forall_byte_eq (fun b => Z.lor b 128) (fun b => Z.lor (Z.land b 127) 128)). vm_compute. reflexivity.
Qed.

(** The unrolled 32-bit encoder is the loop. *)
Lemma EncodeVarint32_loop v : 0 <= v < 2 ^ 32 -> EncodeVarint32 v = EncodeVarint64_loop 5 v.
Proof.
  intros Hv. unfold EncodeVarint32. cbn [EncodeVarint64_loop].
  assert (Hd : forall k, 0 <= k -> 0 <= Z.shiftr v k) by (intros; apply Z.shiftr_nonneg; lia).
  rewrite !Z.shiftr_shiftr by lia. change (7 + 7) with 14. change (14 + 7) with 21. change (21 + 7) with 28.
  change (Z.shiftl 1 7) with (2 ^ 7). change (Z.shiftl 1 14) with (2 ^ 14).
  change (Z.shiftl 1 21) with (2 ^ 21). change (Z.shiftl 1 28) with (2 ^ 28).
  assert (Hc : forall k, 0 <= k -> (128 <=? Z.shiftr v k) = negb (v <? 2 ^ (7 + k))).
  { intros k Hk. rewrite Z.shiftr_div_pow2, Z.pow_add_r by lia. pose proof (Z.pow_pos_nonneg 2 k).
    destruct (Z.leb_spec 128 (v / 2 ^ k)) as [H1|H1], (Z.ltb_spec v (2 ^ 7 * 2 ^ k)) as [H2|H2]; try done; exfalso.
    - assert (v / 2 ^ k < 2 ^ 7) by (apply Z.div_lt_upper_bound; lia). lia.
    - assert (2 ^ 7 <= v / 2 ^ k) by (apply Z.div_le_lower_bound; lia). lia. }
  rewrite (Hc 7), (Hc 14), (Hc 21), (Hc 28) by lia.
  replace (128 <=? v) with (negb (v <? 2 ^ 7)) by (destruct (Z.ltb_spec v (2 ^ 7)), (Z.leb_spec 128 v); done || lia).
  rewrite !u8_lor_128 by auto with lia. 
  change (7 + 7) with 14. change (7 + 14) with 21. change (7 + 21) with 28.
  replace (v <? 2 ^ (7 + 28)) with true by (symmetry; apply Z.ltb_lt; lia).
  destruct (v <? 2 ^ 7), (v <? 2 ^ 14), (v <? 2 ^ 21), (v <? 2 ^ 28); try done.
Qed.

(** ** Decoding what was encoded *)

Lemma loop_S k v : EncodeVarint64_loop (S k) v =
  if 128 <=? v then Z.lor (Z.land v 127) 128 :: EncodeVarint64_loop k (Z.shiftr v 7) else [u8 v].
Proof. done. Qed.

Lemma GetVarint_step mx w b p s r :
  is_byte b -> s <= mx -> 0 <= s -> 0 <= r < 2 ^ s -> r + b mod 128 * 2 ^ s < 2 ^ w -> 0 <= w ->
  GetVarint_loop mx w (b :: p) s r =
  if b <? 128 then Some (r + b * 2 ^ s, p) else GetVarint_loop mx w p (s + 7) (r + b mod 128 * 2 ^ s).
Proof.
  intros Hb Hs H0 Hr Hw Hw0. cbn [GetVarint_loop]. rewrite land_128, land_127 by done.
  destruct (Z.leb_spec s mx); [|lia]. unfold is_byte in Hb.
  assert (Hsh : forall x, 0 <= x -> r + x * 2 ^ s < 2 ^ w -> Z.lor r (Z.shiftl x s mod 2 ^ w) = r + x * 2 ^ s).
  { intros x Hx Hlt. rewrite Z.mod_small; [by apply lor_add_shift|]. rewrite Z.shiftl_mul_pow2 by done. lia. }
  destruct (Z.ltb_spec b 128); cbn [negb].
  - rewrite Hsh; [done|lia|]. by rewrite Z.mod_small in Hw by lia.
  - rewrite Hsh; [done|apply Z.mod_pos_bound; lia|done].
Qed.

Lemma GetVarint_roundtrip mx w r : forall fuel v s acc,
  0 <= v < 2 ^ (7 * Z.of_nat fuel) -> (0 < fuel)%nat -> 0 <= s -> s + 7 * Z.of_nat fuel <= mx + 7 ->
  0 <= acc < 2 ^ s -> acc + v * 2 ^ s < 2 ^ w -> 0 <= w ->
  GetVarint_loop mx w (EncodeVarint64_loop fuel v ++ r) s acc = Some (acc + v * 2 ^ s, r).
Proof.
  induction fuel as [|k IH]; intros v s acc Hv Hf Hs Hmx Hacc Hw Hw0; [lia|].
  assert (Hp : 0 < 2 ^ s) by (apply Z.pow_pos_nonneg; lia).
  rewrite loop_S. destruct (Z.leb_spec 128 v) as [Hge|Hlt]; cbn [app].
  - rewrite varint_cont by lia. pose proof (Z.mod_pos_bound v 128 ltac:(lia)) as Hm.
    pose proof (Z.div_mod v 128 ltac:(lia)) as Hdm.
    assert (Emod : (v mod 128 + 128) mod 128 = v mod 128) by (rewrite <- (Z.add_mod_idemp_r _ 128), Z.mod_same, Z.add_0_r by lia; by rewrite Z.mod_mod).
    assert (Hq : 0 < v / 128) by (apply Z.div_str_pos; lia).
    rewrite GetVarint_step; [|unfold is_byte; lia|lia|done|done|rewrite Emod; nia|done].
    destruct (Z.ltb_spec (v mod 128 + 128) 128); [lia|]. rewrite Emod, Z.shiftr_div_pow2 by lia.
    change (2 ^ 7) with 128. assert (Hp7 : 2 ^ (s + 7) = 2 ^ s * 128) by (by rewrite Z.pow_add_r by lia).
    rewrite IH; try lia.
    + f_equal. f_equal. rewrite Hp7. nia.
    + rewrite Nat2Z.inj_succ, Z.mul_succ_r, Z.pow_add_r in Hv by lia. split; [lia|].
      apply Z.div_lt_upper_bound; lia.
    + destruct k; [|lia]. change (2 ^ (7 * Z.of_nat 1)) with 128 in Hv. lia.
    + rewrite Hp7. nia.
  - unfold u8. rewrite Z.mod_small by lia. rewrite GetVarint_step; [|unfold is_byte; lia|lia|done|done| |done].
    + destruct (Z.ltb_spec v 128); [done|lia].
    + rewrite Z.mod_small by lia. done.
Qed.

(** A strict prefix of an encoding does not decode. *)
Lemma GetVarint_truncated mx w : forall fuel v n s acc,
  0 <= v -> (n < length (EncodeVarint64_loop fuel v))%nat ->
  GetVarint_loop mx w (take n (EncodeVarint64_loop fuel v)) s acc = None.
Proof.
  induction fuel as [|k IH]; intros v n s acc Hv Hn; [cbn in Hn; lia|]. rewrite loop_S in *.
  destruct n as [|n]; [done|]. destruct (128 <=? v) eqn:E; [|cbn in Hn; lia]. cbn [take GetVarint_loop].
  destruct (s <=? mx); [|done]. rewrite varint_cont by lia.
  pose proof (Z.mod_pos_bound v 128 ltac:(lia)). rewrite land_128 by (unfold is_byte; lia).
  destruct (Z.ltb_spec (v mod 128 + 128) 128); [lia|]. cbn [negb]. apply IH; [apply Z.shiftr_nonneg; lia|cbn in Hn; lia].
Qed.

Lemma shr7_bound k v :
  0 <= v < 2 ^ (7 * Z.of_nat (S k)) -> 128 <= v -> 0 <= Z.shiftr v 7 < 2 ^ (7 * Z.of_nat k) /\ (0 < k)%nat.
Proof.
  intros Hv Hge. rewrite Z.shiftr_div_pow2 by lia. rewrite Nat2Z.inj_succ, Z.mul_succ_r, Z.pow_add_r in Hv by lia.
  split; [split; [apply Z.div_pos; lia|apply Z.div_lt_upper_bound; lia]|].
  destruct k; [|lia]. change (2 ^ (7 * Z.of_nat 0)) with 1 in Hv. lia.
Qed.

Lemma VarintLength_loop_length fuel : forall v len,
  (0 < fuel)%nat -> 0 <= v < 2 ^ (7 * Z.of_nat fuel) ->
  VarintLength_loop fuel len v = len - 1 + zlength (EncodeVarint64_loop fuel v) /\
  1 <= zlength (EncodeVarint64_loop fuel v) <= Z.of_nat fuel.
Proof.
  induction fuel as [|k IH]; intros v len Hf Hv; [lia|]. rewrite loop_S. cbn [VarintLength_loop].
  destruct (Z.leb_spec 128 v); [|unfold zlength; cbn [length]; lia].
  destruct (shr7_bound k v Hv) as [Hv' Hk]; [done|].
  destruct (IH (Z.shiftr v 7) (len + 1) Hk Hv') as [-> Hl]. unfold zlength in *. cbn [length]. lia.
Qed.

Lemma encoded_bytes fuel v : 0 <= v -> is_bytes (EncodeVarint64_loop fuel v).
Proof.
  revert v. induction fuel as [|k IH]; intros v Hv; [constructor|]. rewrite loop_S.
  destruct (128 <=? v); [|repeat constructor; apply u8_range].
  constructor; [|apply IH, Z.shiftr_nonneg; lia].
  rewrite varint_cont by lia. pose proof (Z.mod_pos_bound v 128 ltac:(lia)). unfold is_byte. lia.
Qed.

Lemma GetVarint64_enc v rest :
  0 <= v < 2 ^ 64 -> GetVarint64Ptr (EncodeVarint64 v ++ rest) = Some (v, rest).
Proof.
  intros Hv. unfold GetVarint64Ptr, EncodeVarint64. rewrite GetVarint_roundtrip; [f_equal; f_equal; lia|lia..].
Qed.
Lemma GetVarint32_enc v rest :
  0 <= v < 2 ^ 32 -> GetVarint32Ptr (EncodeVarint32 v ++ rest) = Some (v, rest).
Proof.
  intros Hv. rewrite EncodeVarint32_loop by lia.
  assert (E : GetVarint32PtrFallback (EncodeVarint64_loop 5 v ++ rest) = Some (v, rest)).
  { unfold GetVarint32PtrFallback. rewrite GetVarint_roundtrip; [f_equal; f_equal; lia|lia..]. }
  unfold GetVarint32Ptr. rewrite loop_S in *. destruct (Z.leb_spec 128 v); cbn [app] in *.
  - rewrite varint_cont in * by lia. pose proof (Z.mod_pos_bound v 128 ltac:(lia)).
    rewrite land_128 by (unfold is_byte; lia). destruct (Z.ltb_spec (v mod 128 + 128) 128); [lia|exact E].
  - unfold u8. rewrite Z.mod_small, land_128 by (unfold is_byte; lia).
    destruct (Z.ltb_spec v 128); [done|lia].
Qed.

(** The first byte of an encoding tells whether it is the only one. *)
Lemma EncodeVarint32_head v : 0 <= v < 2 ^ 32 ->
  exists b t, EncodeVarint32 v = b :: t /\ is_byte b /\ ((v < 128 /\ b = v /\ t = []) \/ (128 <= v /\ 128 <= b)).
Proof.
  intros Hv. rewrite EncodeVarint32_loop, loop_S by lia. destruct (Z.leb_spec 128 v).
  - rewrite varint_cont by lia. pose proof (Z.mod_pos_bound v 128 ltac:(lia)).
    eexists _, _. split; [reflexivity|]. unfold is_byte. split; [lia|right; lia].
  - rewrite u8_id by lia. eexists _, _. split; [reflexivity|]. unfold is_byte. split; [lia|by left].
Qed.

(** ** The properties *)

(** Decoding a varint gives back the value and leaves exactly the bytes
    after it, for every 32-bit and every 64-bit value and whatever follows; a
    strict prefix of an encoding is rejected. *)
Theorem varint_roundtrip v rest :
  0 <= v < 2 ^ 64 ->
  GetVarint64 (PutVarint64 [] v ++ rest) = Some (v, rest) /\
  (v < 2 ^ 32 -> GetVarint32 (PutVarint32 [] v ++ rest) = Some (v, rest)) /\
  (forall n, (n < length (EncodeVarint64 v))%nat -> GetVarint64 (take n (EncodeVarint64 v)) = None).
Proof.
  intros Hv. split_and!.
  - by apply GetVarint64_enc.
  - intros Hlt. apply GetVarint32_enc. lia.
  - intros n Hn. apply GetVarint_truncated; [lia|exact Hn].
Qed.
Lemma varint_roundtrip_witness :
  GetVarint64 (PutVarint64 [] 300 ++ [7]) = Some (300, [7]) /\
  GetVarint32 (PutVarint32 [] 300 ++ [7]) = Some (300, [7]) /\ PutVarint64 [] 300 = [172; 2].
Proof.
  destruct (varint_roundtrip 300 [7] ltac:(lia)) as (H1 & H2 & _).
  split_and!; [exact H1|apply H2; lia|reflexivity].
Defined.

(** The unrolled 32-bit encoder writes the same bytes as the 64-bit loop,
    [VarintLength] is the number of bytes written, between 1 and 10 (the buffer
    of [PutVarint64]), at most 5 for a 32-bit value, and every byte stored is a
    byte. *)
Theorem varint_encoders v :
  0 <= v < 2 ^ 64 ->
  (v < 2 ^ 32 -> EncodeVarint32 v = EncodeVarint64 v /\ VarintLength v <= 5) /\
  VarintLength v = zlength (EncodeVarint64 v) /\ 1 <= VarintLength v <= 10 /\ is_bytes (EncodeVarint64 v).
Proof.
  intros Hv. unfold VarintLength, EncodeVarint64.
  destruct (VarintLength_loop_length 10 v 1 ltac:(lia) ltac:(lia)) as [E Hl].
  split_and!; [|lia|lia|lia|apply encoded_bytes; lia].
  intros Hlt. rewrite EncodeVarint32_loop by lia.
  assert (E5 : EncodeVarint64_loop 5 v = EncodeVarint64_loop 10 v).
  { clear -Hv Hlt. assert (Hg : forall k m v, (0 < k)%nat -> (k <= m)%nat -> 0 <= v < 2 ^ (7 * Z.of_nat k) ->
      EncodeVarint64_loop k v = EncodeVarint64_loop m v).
    { clear. induction k as [|k IH]; intros m v H0 Hm Hv; [lia|]. destruct m as [|m]; [lia|]. rewrite !loop_S.
      destruct (Z.leb_spec 128 v); [|done]. destruct (shr7_bound k v Hv) as [Hv' Hk]; [done|]. f_equal. apply IH; lia || done. }
    apply Hg; lia. }
  split; [done|]. rewrite E, <- E5.
  destruct (VarintLength_loop_length 5 v 1 ltac:(lia) ltac:(lia)) as [_ Hl5]. lia.
Qed.
Lemma varint_encoders_witness : EncodeVarint32 70000 = EncodeVarint64 70000 /\ VarintLength 70000 <= 5.
Proof. apply (proj1 (varint_encoders 70000 ltac:(lia))). lia. Defined.

(** The fixed-width encoders write 2, 4 or 8 bytes, least significant
    first, which decode to the value whatever follows. *)
Theorem fixed_roundtrip v rest :
  0 <= v < 2 ^ 64 ->
  DecodeFixed64 (PutFixed64 [] v ++ rest) = Some v /\
  (v < 2 ^ 32 -> DecodeFixed32 (PutFixed32 [] v ++ rest) = Some v) /\
  (v < 2 ^ 16 -> DecodeFixed16 (PutFixed16 [] v ++ rest) = Some v) /\
  zlength (EncodeFixed64 v) = 8 /\ is_bytes (EncodeFixed64 v) /\
  forall i, 0 <= i < 8 -> EncodeFixed64 v !!z i = Some (v / 2 ^ (8 * i) mod 256).
Proof.
  intros Hv. split_and!; [by apply EncodeFixed64_decode|intros; apply EncodeFixed32_decode; lia|
    intros; apply EncodeFixed16_decode; lia|done|unfold EncodeFixed64; rewrite !land_255; repeat constructor; apply mod_byte|].
  intros i Hi. assert (Hc : i = 0 \/ i = 1 \/ i = 2 \/ i = 3 \/ i = 4 \/ i = 5 \/ i = 6 \/ i = 7) by lia.
  unfold EncodeFixed64. rewrite !le_bytes, land_255 by lia.
  destruct Hc as [->|[->|[->|[->|[->|[->|[->| ->]]]]]]]; try done. by rewrite Z.div_1_r.
Qed.
Lemma fixed_roundtrip_witness : DecodeFixed64 (PutFixed64 [] 123456789012345 ++ [1]) = Some 123456789012345.
Proof. apply (fixed_roundtrip 123456789012345 [1]). lia. Defined.
End Coding.
