(* ===== verification/OrderedCode.v ===== *)
(** * Order-preserving codes

    [core/lib/strings/ordered_code.cc]: strings, unsigned and signed integers
    are written so that the byte order of the encodings is the order of the
    values. A destination string is the list of its bytes; a reader returns the
    value and the rest of the source, or [None] where the code returns false. *)
From S2P Require Import Prelude StringPiece.
Import StringPiece.

Module OrderedCode.

Definition kEscape1 : Z := 0.
Definition kNullCharacter : Z := 255.
Definition kSeparator : Z := 1.
Definition kEscape2 : Z := 255.
Definition kFFCharacter : Z := 0.

Definition IsSpecialByte (c : Z) : bool := u8 (c + 1) <? 2.

(** The bytes skipped and the bytes from the first special one on, with
    [limit - start = n]. *)
Fixpoint SkipToNextSpecialByte (start : list Z) (n : nat) : list Z * list Z :=
  match n, start with
  | S n', c :: rest =>
      if IsSpecialByte c then ([], start)
      else let '(run, p) := SkipToNextSpecialByte rest n' in (c :: run, p)
  | _, _ => ([], start)
  end.

(** The loop of [EncodeStringFragment]; each iteration consumes a special
    byte, so the length of [s] is enough fuel. *)
Fixpoint EncodeStringFragment_loop (fuel : nat) (dest s : list Z) : list Z :=
  let '(run, p) := SkipToNextSpecialByte s (length s) in
  match fuel, p with
  | S f, c :: p' =>
      if c =? kEscape1 then EncodeStringFragment_loop f (dest ++ run ++ [kEscape1; kNullCharacter]) p'
      else EncodeStringFragment_loop f (dest ++ run ++ [kEscape2; kFFCharacter]) p'
  | _, _ => dest ++ run
  end.
Definition EncodeStringFragment (dest s : list Z) : list Z :=
  EncodeStringFragment_loop (length s) dest s.

Definition WriteString (dest s : list Z) : list Z :=
  EncodeStringFragment dest s ++ [kEscape1; kSeparator].

(** [while (val > 0)]: the payload, built from its last byte. *)
Fixpoint num_bytes_loop (fuel : nat) (val : Z) (buf : list Z) : list Z :=
  match fuel with
  | O => buf
  | S f => if 0 <? val then num_bytes_loop f (Z.shiftr val 8) (Z.land val 255 :: buf) else buf
  end.
Definition WriteNumIncreasing (dest : list Z) (val : Z) : list Z :=
  let buf := num_bytes_loop 8 val [] in
  dest ++ u8 (zlength buf) :: buf.

(** The loop of [ReadStringInternal]; it stops at [limit], one byte before the
    end. *)
Fixpoint ReadString_loop (fuel : nat) (start result : list Z) : option (list Z * list Z) :=
  let '(run, p) := SkipToNextSpecialByte start (length start - 1) in
  match fuel, p with
  | S f, c :: next :: p' =>
      let result := result ++ run in
      if c =? kEscape1 then
        if next =? kSeparator then Some (result, p')
        else if next =? kNullCharacter then ReadString_loop f p' (result ++ [0])
        else None
      else if next =? kFFCharacter then ReadString_loop f p' (result ++ [255])
      else None
  | _, _ => None
  end.
Definition ReadString (src : list Z) : option (list Z * list Z) :=
  ReadString_loop (length src) src [].

Definition be_fold (x : Z) (l : list Z) : Z := foldl (fun tmp b => Z.lor (u64 (Z.shiftl tmp 8)) b) x l.
Definition ReadNumIncreasing (src : list Z) : option (Z * list Z) :=
  match src with
  | [] => None
  | len :: payload =>
      if (zlength src <? len + 1) || (8 <? len) then None
      else Some (be_fold 0 (take (Z.to_nat len) payload), drop (Z.to_nat len) payload)
  end.

(** ** Signed numbers *)

Definition kMaxSigned64Length : Z := 10.
Definition kLengthToHeaderBits : list (Z * Z) :=
  [(0, 0); (128, 0); (192, 0); (224, 0); (240, 0); (248, 0); (252, 0); (254, 0);
   (255, 0); (255, 128); (255, 192)].
Definition kLengthToMask : list Z :=
  [0; 0x80; 0xc000; 0xe00000; 0xf0000000; 0xf800000000; 0xfc0000000000;
   0xfe000000000000; 0xff00000000000000; 0x8000000000000000; 0].
Definition kBitsToLength : list Z :=
  [1; 1; 1; 1; 1; 1; 1; 2; 2; 2; 2; 2; 2; 2; 3; 3; 3; 3; 3; 3; 3; 4;
   4; 4; 4; 4; 4; 4; 5; 5; 5; 5; 5; 5; 5; 6; 6; 6; 6; 6; 6; 6; 7; 7;
   7; 7; 7; 7; 7; 8; 8; 8; 8; 8; 8; 8; 9; 9; 9; 9; 9; 9; 9; 10].

Definition Log2Floor64 (n : Z) : Z := if n =? 0 then -1 else Z.log2 n.
Definition SignedEncodingLength (n : Z) : option Z :=
  kBitsToLength !!z (Log2Floor64 (if n <? 0 then Z.lnot n else n) + 1).

Definition StoreBigEndian64 (v : Z) : list Z :=
  map (fun i => Z.land (Z.shiftr v (56 - 8 * i)) 255) [0; 1; 2; 3; 4; 5; 6; 7].
Definition LoadBigEndian64 (src : list Z) : Z :=
  foldl (fun result i => Z.lor result (Z.shiftl (default 0 (src !!z i)) (56 - 8 * i))) 0 [0; 1; 2; 3; 4; 5; 6; 7].

(** [None] is an index outside a table. *)
Definition WriteSignedNumIncreasing (dest : list Z) (val : Z) : option (list Z) :=
  let x := if val <? 0 then Z.lnot val else val in
  if x <? 64 then Some (dest ++ [u8 (Z.lxor 128 val)])
  else
    let sign_byte := if val <? 0 then 255 else 0 in
    let buf := [sign_byte; sign_byte] ++ StoreBigEndian64 (u64 val) in
    len ← SignedEncodingLength x;
    hdr ← kLengthToHeaderBits !!z len;
    match drop (Z.to_nat (10 - len)) buf with
    | b0 :: b1 :: rest => Some (dest ++ Z.lxor b0 hdr.1 :: Z.lxor b1 hdr.2 :: rest)
    | _ => None
    end.

(** The length and the raw value read, from the normalised first bytes. *)
Definition ReadSigned_length (src : list Z) (xor_mask : Z) : option (Z * Z) :=
  src0 ← src !!z 0;
  let first_byte := Z.lxor src0 (Z.land xor_mask 255) in
  if negb (first_byte =? 255) then
    let len := 7 - Log2Floor64 (Z.lxor first_byte 255) in
    if zlength src <? len then None
    else Some (len, be_fold xor_mask (take (Z.to_nat len) src))
  else
    if zlength src <? 8 then None
    else
      src1 ← src !!z 1;
      let second_byte := Z.lxor src1 (Z.land xor_mask 255) in
      len ← (if 128 <=? second_byte then
               if second_byte <? 192 then Some 9
               else
                 src2 ← src !!z 2;
                 let third_byte := Z.lxor src2 (Z.land xor_mask 255) in
                 if (second_byte =? 192) && (third_byte <? 128) then Some 10 else None
             else Some 8);
      if zlength src <? len then None
      else Some (len, LoadBigEndian64 (drop (Z.to_nat (len - 8)) src)).

Definition ReadSignedNumIncreasing (src : list Z) : option (Z * list Z) :=
  src0 ← src !!z 0;
  let xor_mask := if Z.land src0 128 =? 0 then 2 ^ 64 - 1 else 0 in
  '(len, x) ← ReadSigned_length src xor_mask;
  mask ← kLengthToMask !!z len;
  Some (s64 (Z.lxor x mask), drop (Z.to_nat len) src).

Example write_string : WriteString [] [0; 19; 255] = [0; 255; 19; 255; 0; 0; 1].
Proof. reflexivity. Qed.
Example read_string : ReadString [0; 255; 19; 255; 0; 0; 1; 9] = Some ([0; 19; 255], [9]).
Proof. reflexivity. Qed.
Example write_signed : map (WriteSignedNumIncreasing []) [0x424242; -0x800; 2 ^ 63 - 1] =
  [Some [240; 66; 66; 66]; Some [56; 0]; Some [255; 192; 127; 255; 255; 255; 255; 255; 255; 255]].
Proof. reflexivity. Qed.
Example read_signed : map (fun v => b ← WriteSignedNumIncreasing [] v; ReadSignedNumIncreasing (b ++ [5]))
  [0; 63; 64; -64; -65; 2 ^ 55; - 2 ^ 55; 2 ^ 62 - 1; - 2 ^ 63] =
  map (fun v => Some (v, [5])) [0; 63; 64; -64; -65; 2 ^ 55; - 2 ^ 55; 2 ^ 62 - 1; - 2 ^ 63].
Proof. reflexivity. Qed.

(** ** Strings *)

(** The encoding of one byte, and the specification of a whole string. *)
Definition esc (c : Z) : list Z :=
  if c =? 0 then [0; 255] else if c =? 255 then [255; 0] else [c].
Definition F (s : list Z) : list Z := (s ≫= esc) ++ [0; 1].

Lemma special_spec c : is_byte c -> IsSpecialByte c = (c =? 0) || (c =? 255).
Proof.
  intros Hc. apply eqb_prop. revert c Hc.
  apply (forall_byte (fun c => eqb (IsSpecialByte c) ((c =? 0) || (c =? 255)))). vm_compute. reflexivity.
Qed.

Definition plain (c : Z) : Prop := IsSpecialByte c = false.

Lemma esc_plain run : is_bytes run -> Forall plain run -> run ≫= esc = run.
Proof.
  intros Hb Hp. induction run as [|c run IH]; [done|]. inversion_clear Hb as [|?? Hc Hb'].
  inversion_clear Hp as [|?? Hpc Hp']. csimpl. rewrite IH by done. unfold plain in Hpc.
  rewrite special_spec in Hpc by done. unfold esc. destruct (c =? 0), (c =? 255); done.
Qed.

(** What is skipped, and where the skipping stops. *)
Lemma skip_spec n s run p :
  SkipToNextSpecialByte s n = (run, p) ->
  s = run ++ p /\ Forall plain run /\
  (p = [] \/ length run = n \/ exists c p', p = c :: p' /\ IsSpecialByte c = true).
Proof.
  revert s run p. induction n as [|n IH]; intros s run p E.
  { assert (run = [] /\ p = s) as [-> ->] by (destruct s; by injection E as <- <-). auto. }
  destruct s as [|c s]; [injection E as <- <-; auto|]. cbn [SkipToNextSpecialByte] in E.
  destruct (IsSpecialByte c) eqn:Hsp; [injection E as <- <-; split_and!; eauto 10|].
  destruct (SkipToNextSpecialByte s n) as [run' p'] eqn:E'. injection E as <- <-.
  destruct (IH _ _ _ E') as (-> & Hr & Hcase). split_and!; [done|by constructor|].
  destruct Hcase as [?|[?|?]]; [by left|right; left; cbn; lia|by right; right].
Qed.

Lemma skip_plain run c rest n :
  Forall plain run -> IsSpecialByte c = true -> (length run < n)%nat ->
  SkipToNextSpecialByte (run ++ c :: rest) n = (run, c :: rest).
Proof.
  revert n. induction run as [|a run IH]; intros n Hp Hsp Hn; (destruct n as [|n]; [cbn in Hn; lia|]); cbn [app SkipToNextSpecialByte].
  - by rewrite Hsp.
  - inversion_clear Hp as [|?? Ha Hp']. unfold plain in Ha. rewrite Ha, IH; [done..|cbn in Hn; lia].
Qed.

(** A string is a plain run followed by nothing or by a special byte. *)
Lemma split_run s :
  is_bytes s -> exists run p, SkipToNextSpecialByte s (length s) = (run, p) /\ s = run ++ p /\
    is_bytes run /\ is_bytes p /\ Forall plain run /\
    (p = [] \/ exists p', (p = 0 :: p' \/ p = 255 :: p') /\ is_bytes p' /\ (length p' < length s)%nat).
Proof.
  intros Hs. destruct (SkipToNextSpecialByte s (length s)) as [run p] eqn:E.
  destruct (skip_spec _ _ _ _ E) as (Es & Hr & Hcase). exists run, p.
  assert (Hb := Hs). rewrite Es in Hb. apply Forall_app in Hb as [Hb1 Hb2]. split_and!; try done.
  destruct p as [|c p]; [by left|]. right. exists p. inversion_clear Hb2 as [|?? Hc Hb2'].
  assert (Hl : (length s = length run + S (length p))%nat) by (rewrite Es, length_app; done).
  destruct Hcase as [?|[?|(c' & p' & [= <- <-] & Hsp)]]; [done|lia|].
  rewrite special_spec in Hsp by done.
  split_and!; [|done|lia]. destruct (Z.eqb_spec c 0), (Z.eqb_spec c 255); subst; auto; done.
Qed.

Lemma EncodeStringFragment_esc fuel dest s :
  is_bytes s -> (length s <= fuel)%nat -> EncodeStringFragment_loop fuel dest s = dest ++ (s ≫= esc).
Proof.
  revert dest s. induction fuel as [|f IH]; intros dest s Hs Hf; cbn [EncodeStringFragment_loop].
  { destruct s; [done|cbn in Hf; lia]. }
  destruct (split_run s Hs) as (run & p & -> & Es & Hbr & _ & Hp & Hcase).
  assert (Hb : s ≫= esc = run ++ (p ≫= esc)) by (by rewrite Es, bind_app, esc_plain).
  rewrite Hb. destruct Hcase as [->|(p' & [->| ->] & Hbp & Hl)]; [by rewrite app_nil_r|..];
    unfold kEscape1, kNullCharacter, kEscape2, kFFCharacter; cbn [Z.eqb Pos.eqb];
    rewrite IH by (done || lia); rewrite <- !app_assoc; done.
Qed.

Lemma WriteString_F dest s : is_bytes s -> WriteString dest s = dest ++ F s.
Proof.
  intros Hs. unfold WriteString, EncodeStringFragment, F. rewrite EncodeStringFragment_esc by done.
  by rewrite <- app_assoc.
Qed.

Lemma F_length s : (length s + 2 <= length (F s))%nat.
Proof.
  unfold F. rewrite length_app. cbn [length]. enough (length s <= length (s ≫= esc))%nat by lia.
  induction s as [|c s IH]; csimpl; [done|]. rewrite length_app.
  assert (1 <= length (esc c))%nat by (unfold esc; destruct (c =? 0), (c =? 255); cbn [length]; lia). lia.
Qed.

Lemma ReadString_F fuel s rest result :
  is_bytes s -> (length s < fuel)%nat ->
  ReadString_loop fuel (F s ++ rest) result = Some (result ++ s, rest).
Proof.
  revert s result. induction fuel as [|f IH]; intros s result Hs Hf; [lia|]. cbn [ReadString_loop].
  destruct (split_run s Hs) as (run & p & _ & Es & Hbr & _ & Hp & Hcase).
  assert (HF : F s = run ++ F p) by (unfold F; by rewrite Es, bind_app, esc_plain, <- app_assoc).
  assert (Hlen : (length run + 2 <= length (F s))%nat).
  { rewrite HF, length_app. pose proof (F_length p). lia. }
  assert (Hskip : forall c t, F p ++ rest = c :: t -> IsSpecialByte c = true ->
    SkipToNextSpecialByte (F s ++ rest) (length (F s ++ rest) - 1) = (run, c :: t)).
  { intros c t Et Hsp. rewrite length_app, HF, <- app_assoc, Et. apply skip_plain; [done..|].
    rewrite <- HF. lia. }
  rewrite Es at 3. destruct Hcase as [->|(p' & [->| ->] & Hbp & Hl)].
  - rewrite (Hskip 0 (1 :: rest)) by done. cbn. by rewrite app_nil_r.
  - rewrite (Hskip 0 (255 :: F p' ++ rest)) by done. cbn [Z.eqb Pos.eqb kEscape1 kSeparator kNullCharacter].
    rewrite IH by (done || lia). by rewrite <- !app_assoc.
  - rewrite (Hskip 255 (0 :: F p' ++ rest)) by done. cbn [Z.eqb Pos.eqb kEscape1 kFFCharacter].
    rewrite IH by (done || lia). by rewrite <- !app_assoc.
Qed.

(** The order of the encodings, whatever follows them. *)
Lemma esc_lt a b r1 r2 : 0 <= a < b -> b < 256 -> lex (esc a ++ r1) (esc b ++ r2) = Lt.
Proof.
  intros Ha Hb. unfold esc. destruct (Z.eqb_spec a 0), (Z.eqb_spec b 0), (Z.eqb_spec a 255), (Z.eqb_spec b 255);
    subst; try lia; apply lex_lt; lia.
Qed.
Lemma sep_lt b r1 r2 : is_byte b -> lex (0 :: 1 :: r1) (esc b ++ r2) = Lt.
Proof.
  unfold is_byte. intros Hb. unfold esc. destruct (Z.eqb_spec b 0), (Z.eqb_spec b 255); subst; try lia; cbn [app];
    rewrite ?lex_same; apply lex_lt; lia.
Qed.
Lemma F_cons c s r : F (c :: s) ++ r = esc c ++ F s ++ r.
Proof. unfold F. csimpl. by rewrite <- !app_assoc. Qed.

Lemma F_order x y r1 r2 :
  is_bytes x -> is_bytes y -> x <> y -> lex (F x ++ r1) (F y ++ r2) = lex x y.
Proof.
  revert y. induction x as [|a x IH]; intros [|b y] Hx Hy Hne; [done|..];
    try inversion_clear Hx as [|?? Ha Hx']; try inversion_clear Hy as [|?? Hb Hy'].
  - rewrite F_cons. by apply sep_lt.
  - rewrite F_cons. by apply lex_gt_lt, sep_lt.
  - rewrite !F_cons. unfold is_byte in *. destruct (Z.lt_trichotomy a b) as [Hlt|[->|Hgt]].
    + rewrite lex_lt by done. apply esc_lt; lia.
    + rewrite lex_app_same, lex_same. apply IH; congruence || done.
    + rewrite (lex_gt_lt (a :: x) (b :: y)) by (by apply lex_lt). apply lex_gt_lt, esc_lt; lia.
Qed.

(** ** Big-endian numbers *)

Fixpoint be_bytes (n : nat) (v : Z) : list Z :=
  match n with
  | O => []
  | S n' => v / 256 ^ Z.of_nat n' mod 256 :: be_bytes n' v
  end.
(** The value of a big-endian number. *)
Definition be (l : list Z) : Z := foldl (fun x b => x * 256 + b) 0 l.

Lemma be_bytes_length n v : length (be_bytes n v) = n.
Proof. induction n; simpl; auto. Qed.
Lemma be_bytes_is n v : is_bytes (be_bytes n v).
Proof. induction n; constructor; [apply mod_byte|done]. Qed.

Lemma be_bytes_snoc n v : be_bytes (S n) v = be_bytes n (v / 256) ++ [v mod 256].
Proof.
  induction n as [|n IH]; [cbn; by rewrite Z.div_1_r|]. cbn [be_bytes app]. rewrite Z.div_div, <- Z.pow_succ_r by lia.
  rewrite <- Nat2Z.inj_succ. f_equal. exact IH.
Qed.

Lemma be_fold_shift n v x :
  0 <= v < 256 ^ Z.of_nat n -> foldl (fun x b => x * 256 + b) x (be_bytes n v) = x * 256 ^ Z.of_nat n + v.
Proof.
  revert v x. induction n as [|n IH]; intros v x Hv.
  { change (256 ^ Z.of_nat 0) with 1 in *. cbn. lia. }
  rewrite Nat2Z.inj_succ, Z.pow_succ_r in * by lia.
  rewrite be_bytes_snoc, foldl_app, IH by (split; [apply Z.div_pos; lia|apply Z.div_lt_upper_bound; lia]).
  cbn [foldl]. pose proof (Z.div_mod v 256 ltac:(lia)). lia.
Qed.
Lemma be_be_bytes n v : 0 <= v < 256 ^ Z.of_nat n -> be (be_bytes n v) = v.
Proof. intros Hv. unfold be. by rewrite be_fold_shift. Qed.

(** Only the low bytes matter. *)
Lemma be_bytes_mod n v : be_bytes n (v mod 256 ^ Z.of_nat n) = be_bytes n v.
Proof.
  revert v. induction n as [|n IH]; intros v; [done|].
  rewrite !be_bytes_snoc, Nat2Z.inj_succ, Z.pow_succ_r by lia.
  assert (Hp : 0 < 256 ^ Z.of_nat n) by (apply Z.pow_pos_nonneg; lia).
  rewrite Z.rem_mul_r by lia. f_equal.
  - rewrite Z.add_comm, Z.mul_comm, Z.div_add_l by lia.
    rewrite (Z.div_small (v mod 256)) by (apply Z.mod_pos_bound; lia). rewrite Z.add_0_r. apply IH.
  - rewrite Z.mul_comm, Z.mod_add by lia. by rewrite Z.mod_mod by lia.
Qed.

(** Numbers of the same length are ordered as their values. *)
Lemma be_bytes_lex n v w r1 r2 :
  0 <= v < 256 ^ Z.of_nat n -> 0 <= w < 256 ^ Z.of_nat n -> v < w ->
  lex (be_bytes n v ++ r1) (be_bytes n w ++ r2) = Lt.
Proof.
  revert v w. induction n as [|n IH]; intros v w Hv Hw Hlt; [change (256 ^ Z.of_nat 0) with 1 in *; lia|].
  rewrite Nat2Z.inj_succ, Z.pow_succ_r in * by lia. cbn [be_bytes app].
  set (P := 256 ^ Z.of_nat n) in *. assert (HP : 0 < P) by (apply Z.pow_pos_nonneg; lia).
  pose proof (Z.div_mod v P ltac:(lia)). pose proof (Z.mod_pos_bound v P HP).
  pose proof (Z.div_mod w P ltac:(lia)). pose proof (Z.mod_pos_bound w P HP).
  assert (0 <= v / P < 256) by (split; [apply Z.div_pos; lia|apply Z.div_lt_upper_bound; lia]).
  assert (0 <= w / P < 256) by (split; [apply Z.div_pos; lia|apply Z.div_lt_upper_bound; lia]).
  rewrite !(Z.mod_small (_ / P)) by lia.
  destruct (Z.lt_trichotomy (v / P) (w / P)) as [?|[E|?]]; [by apply lex_lt| |nia].
  rewrite E, lex_same. rewrite <- (be_bytes_mod n v), <- (be_bytes_mod n w). apply IH; fold P; lia || nia.
Qed.

(** *** Unsigned numbers *)

Definition nbytes_ok (k : nat) (v : Z) : Prop :=
  v < 256 ^ Z.of_nat k /\ (k = 0%nat \/ 256 ^ (Z.of_nat k - 1) <= v).

Lemma num_bytes_loop_be f : forall v buf, 0 <= v < 256 ^ Z.of_nat f ->
  exists k, (k <= f)%nat /\ num_bytes_loop f v buf = be_bytes k v ++ buf /\ nbytes_ok k v.
Proof.
  induction f as [|f IH]; intros v buf Hv; cbn [num_bytes_loop].
  { exists 0%nat. split_and!; [lia|done|split; [lia|by left]]. }
  destruct (Z.ltb_spec 0 v) as [Hpos|]; [|exists 0%nat; split_and!; [lia|done|split; [change (256 ^ Z.of_nat 0) with 1; lia|by left]]].
  rewrite Nat2Z.inj_succ, Z.pow_succ_r in Hv by lia. rewrite Z.shiftr_div_pow2, land_255 by lia. change (2 ^ 8) with 256.
  destruct (IH (v / 256) (v mod 256 :: buf)) as (k & Hk & -> & Hlt & Hmin).
  { split; [apply Z.div_pos; lia|apply Z.div_lt_upper_bound; lia]. }
  exists (S k). split; [lia|]. split; [by rewrite be_bytes_snoc, <- app_assoc|].
  pose proof (Z.div_mod v 256 ltac:(lia)). pose proof (Z.mod_pos_bound v 256 ltac:(lia)).
  split; [rewrite Nat2Z.inj_succ, Z.pow_succ_r by lia; lia|right].
  rewrite Nat2Z.inj_succ, Z.sub_succ_l, Z.sub_1_r, Z.succ_pred.
  destruct Hmin as [->|Hmin]; [change (256 ^ Z.of_nat 0) with 1; lia|].
  destruct k; [change (256 ^ Z.of_nat 0) with 1; lia|].
  replace (Z.of_nat (S k)) with (Z.succ (Z.of_nat (S k) - 1)) by lia. rewrite Z.pow_succ_r by lia. lia.
Qed.

Lemma WriteNum_be v :
  0 <= v < 2 ^ 64 -> exists k, (k <= 8)%nat /\ nbytes_ok k v /\
    forall dest, WriteNumIncreasing dest v = dest ++ Z.of_nat k :: be_bytes k v.
Proof.
  intros Hv. destruct (num_bytes_loop_be 8 v []) as (k & Hk & E & Hok); [change (256 ^ Z.of_nat 8) with (2 ^ 64); lia|].
  exists k. split_and!; [done|done|]. intros dest. unfold WriteNumIncreasing. rewrite E, app_nil_r.
  unfold zlength. rewrite be_bytes_length. by rewrite u8_id by lia.
Qed.

Lemma be_fold_u64 x l : is_bytes l -> be_fold (u64 x) l = u64 (foldl (fun x b => x * 256 + b) x l).
Proof.
  revert x. induction l as [|b l IH]; intros x Hl; [done|]. inversion_clear Hl as [|?? Hb Hl'].
  unfold be_fold. cbn [foldl]. rewrite <- IH by done. unfold be_fold. f_equal.
  rewrite Z.shiftl_mul_pow2 by lia. unfold u64. rewrite Z.mul_mod_idemp_l by lia.
  change (2 ^ 64) with (256 * 2 ^ 56). change (2 ^ 8) with 256.
  rewrite (Z.mul_comm x 256), Z.mul_mod_distr_l by lia.
  rewrite (Z.mul_comm 256 (x mod 2 ^ 56)), <- (Z.shiftl_mul_pow2 _ 8), lor_shift_add by (unfold is_byte in Hb; lia).
  change (2 ^ 8) with 256. rewrite (Z.mul_comm 256 x), Z.rem_mul_r by lia.
  unfold is_byte in Hb. rewrite Z.add_comm at 1. rewrite (Z.add_comm (x * 256)), Z.mod_add, (Z.mod_small b) by lia.
  rewrite Z.div_add, (Z.div_small b), Z.add_0_l by lia. lia.
Qed.

Lemma take_be_bytes k v r : take k (be_bytes k v ++ r) = be_bytes k v.
Proof. rewrite <- (be_bytes_length k v) at 1. apply take_app_length. Qed.
Lemma drop_be_bytes k v r : drop k (be_bytes k v ++ r) = r.
Proof. rewrite <- (be_bytes_length k v) at 1. apply drop_app_length. Qed.

Lemma ReadNum_be k v rest :
  (k <= 8)%nat -> 0 <= v < 256 ^ Z.of_nat k ->
  ReadNumIncreasing (Z.of_nat k :: be_bytes k v ++ rest) = Some (v, rest).
Proof.
  intros Hk Hv. unfold ReadNumIncreasing, zlength. cbn [length]. rewrite length_app, be_bytes_length.
  destruct (Z.ltb_spec (Z.of_nat (S (k + length rest))) (Z.of_nat k + 1)); [lia|].
  destruct (Z.ltb_spec 8 (Z.of_nat k)); [lia|]. cbn [orb].
  rewrite Nat2Z.id, take_be_bytes, drop_be_bytes. f_equal. f_equal.
  change 0 with (u64 0) at 1. rewrite be_fold_u64 by apply be_bytes_is.
  change (foldl _ 0 (be_bytes k v)) with (be (be_bytes k v)). rewrite be_be_bytes by done.
  apply u64_id. assert (256 ^ Z.of_nat k <= 256 ^ 8) by (apply Z.pow_le_mono_r; lia). lia.
Qed.

Lemma num_order_be k1 k2 v1 v2 r1 r2 :
  nbytes_ok k1 v1 -> nbytes_ok k2 v2 -> 0 <= v1 < v2 ->
  lex (Z.of_nat k1 :: be_bytes k1 v1 ++ r1) (Z.of_nat k2 :: be_bytes k2 v2 ++ r2) = Lt.
Proof.
  intros [H1 M1] [H2 M2] Hlt. destruct (Nat.lt_trichotomy k1 k2) as [?|[->|Hgt]]; [apply lex_lt; lia| |].
  - rewrite lex_same. apply be_bytes_lex; lia.
  - exfalso. destruct M1 as [->|M1]; [lia|].
    assert (256 ^ Z.of_nat k2 <= 256 ^ (Z.of_nat k1 - 1)) by (apply Z.pow_le_mono_r; lia). lia.
Qed.

(** *** Signed numbers *)

(** The header of an encoding of [n] bytes: [n] ones, then zeros. *)
Definition H (n : nat) : Z := (2 ^ Z.of_nat n - 1) * 2 ^ (7 * Z.of_nat n).
(** The length of the encoding of [val]. *)
Definition sabs (val : Z) : Z := if val <? 0 then Z.lnot val else val.
Definition slen (val : Z) : nat := Z.to_nat ((Log2Floor64 (sabs val) + 1) / 7 + 1).

Lemma be_bytes_lxor n a b : be_bytes n (Z.lxor a b) = zip_with Z.lxor (be_bytes n a) (be_bytes n b).
Proof.
  induction n as [|n IH]; [done|]. cbn [be_bytes zip_with]. f_equal; [|done].
  change 256 with (2 ^ 8) at 1 3 5. rewrite <- !Z.pow_mul_r, <- !Z.shiftr_div_pow2, <- !land_255, Z.shiftr_lxor by lia.
  apply Z.bits_inj'. intros i Hi. rewrite !Z.land_spec, !Z.lxor_spec, !Z.land_spec.
  destruct (Z.testbit 255 i); by rewrite ?andb_true_r, ?andb_false_r.
Qed.
Lemma be_bytes_drop m n v : drop m (be_bytes (m + n) v) = be_bytes n v.
Proof. induction m as [|m IH]; [done|]. exact IH. Qed.

Lemma StoreBigEndian64_be v : StoreBigEndian64 v = be_bytes 8 v.
Proof.
  unfold StoreBigEndian64. cbn [map be_bytes]. rewrite !land_255, !Z.shiftr_div_pow2 by lia. done.
Qed.
Lemma lor_be_step A b k :
  0 <= k -> is_byte b -> Z.lor (Z.shiftl A (k + 8)) (Z.shiftl b k) = Z.shiftl (A * 256 + b) k.
Proof.
  intros Hk Hb. replace (k + 8) with (8 + k) by lia. rewrite <- Z.shiftl_shiftl, <- Z.shiftl_lor by lia.
  by rewrite lor_shift_add by (unfold is_byte in Hb; lia).
Qed.
Lemma LoadBigEndian64_bytes b0 b1 b2 b3 b4 b5 b6 b7 r :
  is_bytes [b0; b1; b2; b3; b4; b5; b6; b7] ->
  LoadBigEndian64 (b0 :: b1 :: b2 :: b3 :: b4 :: b5 :: b6 :: b7 :: r) = be [b0; b1; b2; b3; b4; b5; b6; b7].
Proof.
  unfold is_bytes. rewrite !Forall_cons. intros (H0 & H1 & H2 & H3 & H4 & H5 & H6 & H7 & _).
  unfold LoadBigEndian64, be.
  change (Z.lor (Z.lor (Z.lor (Z.lor (Z.lor (Z.lor (Z.lor (Z.lor 0 (Z.shiftl b0 (48 + 8))) (Z.shiftl b1 48)) (Z.shiftl b2 40))
    (Z.shiftl b3 32)) (Z.shiftl b4 24)) (Z.shiftl b5 16)) (Z.shiftl b6 8)) (Z.shiftl b7 0) =
    foldl (fun x b => x * 256 + b) 0 [b0; b1; b2; b3; b4; b5; b6; b7]).
  rewrite Z.lor_0_l, (lor_be_step b0 b1 48) by (lia || done).
  change 48 with (40 + 8) at 1. rewrite lor_be_step by (lia || done).
  change 40 with (32 + 8) at 1. rewrite lor_be_step by (lia || done).
  change 32 with (24 + 8) at 1. rewrite lor_be_step by (lia || done).
  change 24 with (16 + 8) at 1. rewrite lor_be_step by (lia || done).
  change 16 with (8 + 8) at 1. rewrite lor_be_step by (lia || done).
  change (Z.shiftl ?x 8) with (Z.shiftl x (0 + 8)). rewrite lor_be_step by (lia || done).
  rewrite Z.shiftl_0_r. done.
Qed.
Lemma LoadBigEndian64_be v r : LoadBigEndian64 (be_bytes 8 v ++ r) = v mod 2 ^ 64.
Proof.
  change (2 ^ 64) with (256 ^ Z.of_nat 8). rewrite <- be_bytes_mod.
  set (w := v mod 256 ^ Z.of_nat 8). rewrite <- (be_be_bytes 8 w) at 2 by (apply Z.mod_pos_bound; lia).
  apply LoadBigEndian64_bytes. apply (be_bytes_is 8).
Qed.

(** The header and the payload do not overlap. *)
Lemma H_eq n : H n = 256 ^ Z.of_nat n - 2 ^ (7 * Z.of_nat n).
Proof.
  unfold H. change 256 with (2 ^ 8). rewrite <- Z.pow_mul_r by lia.
  replace (8 * Z.of_nat n) with (Z.of_nat n + 7 * Z.of_nat n) by lia. rewrite Z.pow_add_r by lia. lia.
Qed.
Lemma lxor_H n w : 0 <= w < 2 ^ (7 * Z.of_nat n) -> Z.lxor w (H n) = w + H n.
Proof.
  intros Hw. unfold H. rewrite <- Z.shiftl_mul_pow2 by lia.
  rewrite <- Z.add_nocarry_lxor; [done|]. apply Z.bits_inj'. intros i Hi. rewrite Z.land_spec, Z.bits_0.
  destruct (Z.lt_ge_cases i (7 * Z.of_nat n)) as [Hlt|Hge].
  - rewrite (Z.shiftl_spec_low _ _ _ Hlt). by rewrite andb_false_r.
  - rewrite <- (Z.mod_small w (2 ^ (7 * Z.of_nat n))) by done. by rewrite Z.mod_pow2_bits_high by lia.
Qed.

(** The encoded number, as an integer of [n] bytes. *)
Definition enc (n : nat) (val : Z) : Z := if val <? 0 then 2 ^ (7 * Z.of_nat n) + val else H n + val.
Definition in_range (n : nat) (val : Z) : Prop := - 2 ^ (7 * Z.of_nat n - 1) <= val < 2 ^ (7 * Z.of_nat n - 1).

Lemma pow_half n : (0 < n)%nat -> 2 ^ (7 * Z.of_nat n) = 2 * 2 ^ (7 * Z.of_nat n - 1).
Proof. intros. rewrite <- Z.pow_succ_r by lia. f_equal. lia. Qed.
Lemma H_bounds n : 0 <= H n < 256 ^ Z.of_nat n /\ 0 < 2 ^ (7 * Z.of_nat n).
Proof.
  assert (0 < 2 ^ (7 * Z.of_nat n)) by (apply Z.pow_pos_nonneg; lia).
  assert (0 < 2 ^ Z.of_nat n) by (apply Z.pow_pos_nonneg; lia). rewrite H_eq at 2. unfold H. nia.
Qed.

Lemma enc_bounds n val : (0 < n)%nat -> in_range n val -> 0 <= enc n val < 256 ^ Z.of_nat n.
Proof.
  intros Hn. unfold in_range, enc. pose proof (pow_half n Hn). destruct (H_bounds n). pose proof (H_eq n).
  destruct (Z.ltb_spec val 0); lia.
Qed.

Lemma lxor_mod a b k : 0 <= k -> Z.lxor a b mod 2 ^ k = Z.lxor (a mod 2 ^ k) (b mod 2 ^ k).
Proof.
  intros Hk. apply Z.bits_inj'. intros i Hi. rewrite Z.lxor_spec.
  destruct (Z.lt_ge_cases i k).
  - rewrite !Z.mod_pow2_bits_low by lia. apply Z.lxor_spec.
  - by rewrite !Z.mod_pow2_bits_high by lia.
Qed.

Lemma lxor_enc n val : (0 < n)%nat -> in_range n val -> Z.lxor val (H n) mod 256 ^ Z.of_nat n = enc n val.
Proof.
  intros Hn Hr. pose proof (enc_bounds n val Hn Hr) as Hb. unfold in_range, enc in *.
  pose proof (pow_half n Hn). destruct (H_bounds n) as [HH _]. destruct (Z.ltb_spec val 0).
  - set (w := 2 ^ (7 * Z.of_nat n) + val) in *. replace 256 with (2 ^ 8) in * by done. rewrite <- Z.pow_mul_r in * by lia.
    rewrite lxor_mod by lia. rewrite (Z.mod_small (H n)) by lia.
    replace (val mod 2 ^ (8 * Z.of_nat n)) with (Z.lxor w (H n)).
    + by rewrite Z.lxor_assoc, Z.lxor_nilpotent, Z.lxor_0_r.
    + rewrite lxor_H by lia. pose proof (H_eq n) as HE. change 256 with (2 ^ 8) in HE. rewrite <- Z.pow_mul_r in HE by lia.
      apply Z.mod_unique_pos with (q := -1); lia.
  - rewrite lxor_H by lia. rewrite Z.mod_small; lia.
Qed.

(** *** The length *)

Lemma table_lengths : forallb (fun b => bool_decide (kBitsToLength !!z b = Some (b / 7 + 1))) (map Z.of_nat (seq 0 64)) = true.
Proof. vm_compute. reflexivity. Qed.

Lemma Log2Floor64_bounds x : 0 <= x < 2 ^ 63 ->
  -1 <= Log2Floor64 x <= 62 /\ x < 2 ^ (Log2Floor64 x + 1).
Proof.
  intros Hx. unfold Log2Floor64. destruct (Z.eqb_spec x 0) as [->|]; [simpl; lia|].
  pose proof (Z.log2_spec x ltac:(lia)). assert (Z.log2 x < 63) by (apply Z.log2_lt_pow2; lia).
  pose proof (Z.log2_nonneg x). rewrite Z.add_1_r. lia.
Qed.
Lemma Log2Floor64_mono x y : 0 <= x <= y -> Log2Floor64 x <= Log2Floor64 y.
Proof.
  intros Hx. unfold Log2Floor64. destruct (Z.eqb_spec x 0), (Z.eqb_spec y 0); try lia.
  - pose proof (Z.log2_nonneg y). lia.
  - apply Z.log2_le_mono. lia.
Qed.

Lemma sabs_bounds val : - 2 ^ 63 <= val < 2 ^ 63 -> 0 <= sabs val < 2 ^ 63.
Proof. intros. unfold sabs, Z.lnot. destruct (Z.ltb_spec val 0); lia. Qed.

Lemma slen_spec val :
  - 2 ^ 63 <= val < 2 ^ 63 ->
  (1 <= slen val <= 10)%nat /\ in_range (slen val) val /\
  SignedEncodingLength (sabs val) = Some (Z.of_nat (slen val)).
Proof.
  intros Hv. pose proof (sabs_bounds val Hv) as Hs. destruct (Log2Floor64_bounds _ Hs) as [Hl Hlt].
  set (l := Log2Floor64 (sabs val) + 1) in *.
  assert (Hd : 0 <= l / 7 <= 9) by (split; [apply Z.div_pos; lia|apply Z.lt_succ_r, Z.div_lt_upper_bound; lia]).
  assert (Hn : Z.of_nat (slen val) = l / 7 + 1) by (unfold slen; fold l; lia).
  split; [lia|]. split.
  - unfold in_range. rewrite Hn. assert (2 ^ l <= 2 ^ (7 * (l / 7 + 1) - 1)).
    { apply Z.pow_le_mono_r; [lia|]. pose proof (Z.div_mod l 7). pose proof (Z.mod_pos_bound l 7). lia. }
    unfold sabs, Z.lnot in *. destruct (Z.ltb_spec val 0); lia.
  - unfold SignedEncodingLength. destruct (Z.ltb_spec (sabs val) 0); [lia|]. fold l. rewrite Hn.
    pose proof table_lengths as Ht. rewrite forallb_forall in Ht.
    eapply bool_decide_eq_true_1, Ht. apply List.in_map_iff. exists (Z.to_nat l).
    split; [lia|]. apply in_seq. lia.
Qed.
Lemma slen_mono v w : sabs v <= sabs w -> 0 <= sabs v -> (slen v <= slen w)%nat.
Proof.
  intros H1 H2. pose proof (Log2Floor64_mono (sabs v) (sabs w) ltac:(lia)). unfold slen.
  pose proof (Z.div_le_mono (Log2Floor64 (sabs v) + 1) (Log2Floor64 (sabs w) + 1) 7 ltac:(lia) ltac:(lia)). lia.
Qed.

(** *** What is written *)

Lemma headers_ok n : (2 <= n <= 10)%nat ->
  exists h, kLengthToHeaderBits !!z Z.of_nat n = Some h /\ be_bytes n (H n) = h.1 :: h.2 :: replicate (n - 2) 0.
Proof.
  intros Hn. assert (Hc : (n = 2 \/ n = 3 \/ n = 4 \/ n = 5 \/ n = 6 \/ n = 7 \/ n = 8 \/ n = 9 \/ n = 10)%nat) by lia.
  destruct Hc as [->|[->|[->|[->|[->|[->|[->|[->| ->]]]]]]]]; eexists; split; reflexivity.
Qed.

Lemma zip_lxor_zeros l : zip_with Z.lxor l (replicate (length l) 0) = l.
Proof. induction l as [|a l IH]; [done|]. cbn. by rewrite IH, Z.lxor_0_r. Qed.

Lemma sign_byte k val : - 2 ^ 63 <= val < 2 ^ 63 -> 2 ^ 63 <= k ->
  val / k mod 256 = if val <? 0 then 255 else 0.
Proof.
  intros Hv Hk. destruct (Z.ltb_spec val 0); [|by rewrite Z.div_small by lia].
  replace (val / k) with (-1); [done|]. apply Z.div_unique_pos with (r := val + k); lia.
Qed.
Lemma sign_extended val : - 2 ^ 63 <= val < 2 ^ 63 ->
  be_bytes 10 val = [if val <? 0 then 255 else 0; if val <? 0 then 255 else 0] ++ StoreBigEndian64 (u64 val).
Proof.
  intros Hv. rewrite StoreBigEndian64_be. unfold u64. change (2 ^ 64) with (256 ^ Z.of_nat 8).
  rewrite be_bytes_mod. change (be_bytes 10 val) with (val / 256 ^ 9 mod 256 :: val / 256 ^ 8 mod 256 :: be_bytes 8 val).
  by rewrite !sign_byte by lia.
Qed.

Lemma slen_short val : - 2 ^ 63 <= val < 2 ^ 63 -> (sabs val < 64 <-> slen val = 1%nat).
Proof.
  intros Hv. pose proof (sabs_bounds val Hv) as Hs. unfold slen, Log2Floor64.
  destruct (Z.eqb_spec (sabs val) 0) as [->|]; [done|].
  assert (Hl : sabs val < 64 <-> Z.log2 (sabs val) < 6) by (change 64 with (2 ^ 6); apply Z.log2_lt_pow2; lia).
  pose proof (Z.log2_nonneg (sabs val)). rewrite Hl.
  pose proof (Z.div_mod (Z.log2 (sabs val) + 1) 7 ltac:(lia)).
  pose proof (Z.mod_pos_bound (Z.log2 (sabs val) + 1) 7 ltac:(lia)). lia.
Qed.

Lemma WriteSigned_be dest val :
  - 2 ^ 63 <= val < 2 ^ 63 ->
  WriteSignedNumIncreasing dest val = Some (dest ++ be_bytes (slen val) (enc (slen val) val)).
Proof.
  intros Hv. destruct (slen_spec val Hv) as (Hn & Hr & HL). pose proof (slen_short val Hv) as H1.
  unfold WriteSignedNumIncreasing. change (if val <? 0 then Z.lnot val else val) with (sabs val).
  rewrite <- (lxor_enc (slen val) val), be_bytes_mod by (done || lia).
  destruct (Z.ltb_spec (sabs val) 64).
  - rewrite (proj1 H1) by done. cbn [be_bytes]. rewrite Z.div_1_r, Z.lxor_comm. done.
  - rewrite HL. cbn [mbind option_bind].
    assert (Hn2 : (2 <= slen val <= 10)%nat) by (destruct (decide (slen val = 1%nat)) as [E|]; [apply H1 in E; lia|lia]).
    destruct (headers_ok _ Hn2) as (h & -> & EH). cbn [mbind option_bind].
    rewrite <- sign_extended by done.
    replace (be_bytes 10 val) with (be_bytes ((10 - slen val) + slen val) val) by (f_equal; lia).
    replace (Z.to_nat (10 - Z.of_nat (slen val))) with (10 - slen val)%nat by lia.
    rewrite be_bytes_drop, be_bytes_lxor, EH. clear EH HL.
    destruct (slen val) as [|[|n]]; [lia|lia|]. cbn [be_bytes zip_with]. do 4 f_equal.
    cbn [Nat.sub]. rewrite Nat.sub_0_r. rewrite <- (be_bytes_length n val) at 3. by rewrite zip_lxor_zeros.
Qed.

(** *** The order of the encodings *)

Lemma be_bytes_split n d v : be_bytes (n + d) v = be_bytes n (v / 256 ^ Z.of_nat d) ++ be_bytes d v.
Proof.
  revert v. induction d as [|d IH]; intros v; [by rewrite Nat.add_0_r, Z.div_1_r, app_nil_r|].
  rewrite Nat.add_succ_r, !be_bytes_snoc, IH, app_assoc, Z.div_div by (try apply Z.pow_pos_nonneg; lia).
  by rewrite Nat2Z.inj_succ, Z.pow_succ_r by lia.
Qed.

(** Comparing numbers of different lengths: the shorter length decides. *)
Lemma lex_shorter n d a b r1 r2 :
  0 <= a < 256 ^ Z.of_nat n -> 0 <= b < 256 ^ Z.of_nat (n + d) ->
  ((a + 1) * 256 ^ Z.of_nat d <= b -> lex (be_bytes n a ++ r1) (be_bytes (n + d) b ++ r2) = Lt) /\
  (b < a * 256 ^ Z.of_nat d -> lex (be_bytes (n + d) b ++ r2) (be_bytes n a ++ r1) = Lt).
Proof.
  intros Ha Hb. assert (Hp : 0 < 256 ^ Z.of_nat d) by (apply Z.pow_pos_nonneg; lia).
  assert (Hq : 0 <= b / 256 ^ Z.of_nat d < 256 ^ Z.of_nat n).
  { split; [apply Z.div_pos; lia|apply Z.div_lt_upper_bound; [lia|]]. rewrite <- Z.pow_add_r by lia.
    replace (Z.of_nat d + Z.of_nat n) with (Z.of_nat (n + d)) by lia. apply Hb. }
  rewrite be_bytes_split, <- app_assoc. split; intros Hlt; apply be_bytes_lex; try done.
  - assert (a + 1 <= b / 256 ^ Z.of_nat d) by (apply Z.div_le_lower_bound; lia). lia.
  - apply Z.div_lt_upper_bound; lia.
Qed.

Lemma p256 n : 256 ^ Z.of_nat n = 2 ^ (8 * Z.of_nat n).
Proof. change 256 with (2 ^ 8). by rewrite <- Z.pow_mul_r by lia. Qed.

Lemma enc_order_pos n d v w :
  (0 < n)%nat -> in_range n v -> in_range (n + d) w -> v < w -> 0 <= w -> (0 <= v -> (0 < d)%nat) ->
  (enc n v + 1) * 256 ^ Z.of_nat d <= enc (n + d) w.
Proof.
  intros Hn Hv Hw Hlt Hw0 Hd. unfold enc, in_range in *. destruct (Z.ltb_spec w 0); [lia|].
  pose proof (pow_half n Hn). rewrite !H_eq, !p256. set (N := Z.of_nat n) in *. set (D := Z.of_nat d) in *.
  replace (Z.of_nat (n + d)) with (N + D) in * by lia.
  assert (E8 : 2 ^ (8 * (N + D)) = 2 ^ (8 * N) * 2 ^ (8 * D)) by (rewrite <- Z.pow_add_r by lia; f_equal; lia).
  assert (0 < 2 ^ (8 * D)) by (apply Z.pow_pos_nonneg; lia).
  destruct (Z.ltb_spec v 0).
  - assert (2 ^ (7 * N) * 2 ^ (8 * D) <= 2 ^ (8 * (N + D) - 1)) by (rewrite <- Z.pow_add_r by lia; apply Z.pow_le_mono_r; lia).
    assert (2 ^ (7 * (N + D)) <= 2 ^ (8 * (N + D) - 1)) by (apply Z.pow_le_mono_r; lia).
    assert (2 ^ (8 * (N + D)) = 2 * 2 ^ (8 * (N + D) - 1)) by (rewrite <- Z.pow_succ_r by lia; f_equal; lia).
    assert ((v + 1) * 2 ^ (8 * D) <= 0) by (apply Z.mul_nonpos_nonneg; lia). lia.
  - assert (2 ^ (7 * (N + D)) <= 2 ^ (7 * N - 1) * 2 ^ (8 * D)) by (rewrite <- Z.pow_add_r by lia; apply Z.pow_le_mono_r; lia).
    assert ((v + 1) * 2 ^ (8 * D) <= 2 ^ (7 * N - 1) * 2 ^ (8 * D)) by (apply Z.mul_le_mono_nonneg_r; lia). lia.
Qed.

Lemma enc_order_neg n d v w :
  (0 < n)%nat -> in_range n v -> in_range (n + d) w -> w < v -> w < 0 -> (v < 0 -> (0 < d)%nat) ->
  enc (n + d) w < enc n v * 256 ^ Z.of_nat d.
Proof.
  intros Hn Hv Hw Hlt Hw0 Hd. unfold enc, in_range in *. destruct (Z.ltb_spec w 0); [|lia].
  pose proof (pow_half n Hn). rewrite ?H_eq, !p256. set (N := Z.of_nat n) in *. set (D := Z.of_nat d) in *.
  replace (Z.of_nat (n + d)) with (N + D) in * by lia.
  assert (E8 : 2 ^ (8 * (N + D)) = 2 ^ (8 * N) * 2 ^ (8 * D)) by (rewrite <- Z.pow_add_r by lia; f_equal; lia).
  assert (0 < 2 ^ (8 * D)) by (apply Z.pow_pos_nonneg; lia).
  destruct (Z.ltb_spec v 0).
  - assert (2 ^ (7 * (N + D)) <= 2 ^ (7 * N - 1) * 2 ^ (8 * D)) by (rewrite <- Z.pow_add_r by lia; apply Z.pow_le_mono_r; lia).
    assert (- 2 ^ (7 * N - 1) * 2 ^ (8 * D) <= v * 2 ^ (8 * D)) by (apply Z.mul_le_mono_nonneg_r; lia). lia.
  - assert (2 ^ (7 * N) * 2 ^ (8 * D) <= 2 ^ (8 * (N + D) - 1)) by (rewrite <- Z.pow_add_r by lia; apply Z.pow_le_mono_r; lia).
    assert (2 ^ (7 * (N + D)) <= 2 ^ (8 * (N + D) - 1)) by (apply Z.pow_le_mono_r; lia).
    assert (2 ^ (8 * (N + D)) = 2 * 2 ^ (8 * (N + D) - 1)) by (rewrite <- Z.pow_succ_r by lia; f_equal; lia).
    assert (0 <= v * 2 ^ (8 * D)) by (apply Z.mul_nonneg_nonneg; lia). lia.
Qed.

Lemma signed_order v w r1 r2 :
  - 2 ^ 63 <= v -> v < w -> w < 2 ^ 63 ->
  lex (be_bytes (slen v) (enc (slen v) v) ++ r1) (be_bytes (slen w) (enc (slen w) w) ++ r2) = Lt.
Proof.
  intros Hv Hlt Hw. destruct (slen_spec v ltac:(lia)) as (Hn & Rv & _), (slen_spec w ltac:(lia)) as (Hm & Rw & _).
  pose proof (enc_bounds (slen v) v ltac:(lia) Rv) as Bv. pose proof (enc_bounds (slen w) w ltac:(lia) Rw) as Bw.
  assert (Mono : (0 <= v -> (slen v <= slen w)%nat) /\ (w < 0 -> (slen w <= slen v)%nat)).
  { split; intros ?; apply slen_mono; unfold sabs, Z.lnot; destruct (Z.ltb_spec v 0), (Z.ltb_spec w 0); lia. }
  set (n := slen v) in *. set (m := slen w) in *. clearbody n m.
  destruct (decide (n = m)) as [<-|Hne].
  { apply be_bytes_lex; [done..|]. unfold enc, in_range in *. pose proof (pow_half n ltac:(lia)).
    destruct (H_bounds n). pose proof (H_eq n). destruct (Z.ltb_spec v 0), (Z.ltb_spec w 0); try lia.
    assert (2 ^ (7 * Z.of_nat n) <= H n); [|lia]. rewrite H_eq, p256.
    assert (2 * 2 ^ (7 * Z.of_nat n) <= 2 ^ (8 * Z.of_nat n)); [|lia].
    rewrite <- Z.pow_succ_r by lia. apply Z.pow_le_mono_r; lia. }
  destruct (decide (n < m)%nat) as [Hnm|Hnm].
  - replace m with (n + (m - n))%nat in * by lia. apply lex_shorter; [done..|]. apply enc_order_pos; try done; lia.
  - replace n with (m + (n - m))%nat in * by lia. apply lex_shorter; [done..|]. apply enc_order_neg; try done; lia.
Qed.

(** *** Reading back *)

(** The first bytes of an encoding, with the bits of a negative number
    inverted, are those of [H n + sabs val]. *)
Definition mask_byte (val : Z) : Z := if val <? 0 then 255 else 0.

Lemma be_bytes_m1 n : be_bytes n (-1) = replicate n 255.
Proof.
  induction n as [|n IH]; [done|]. cbn [be_bytes replicate]. f_equal; [|done].
  assert (0 < 256 ^ Z.of_nat n) by (apply Z.pow_pos_nonneg; lia).
  replace (-1 / 256 ^ Z.of_nat n) with (-1); [done|].
  apply Z.div_unique_pos with (r := 256 ^ Z.of_nat n - 1); lia.
Qed.
Lemma zip_lxor_const (l : list Z) m : zip_with Z.lxor l (replicate (length l) m) = map (fun b => Z.lxor b m) l.
Proof. induction l as [|a l IH]; [done|]. cbn. by rewrite IH. Qed.

Lemma normalised n val : (0 < n)%nat -> in_range n val ->
  map (fun b => Z.lxor b (mask_byte val)) (be_bytes n (enc n val)) = be_bytes n (H n + sabs val).
Proof.
  intros Hn Hr. rewrite <- (lxor_enc n val), be_bytes_mod by done. unfold mask_byte, sabs.
  unfold in_range in Hr. pose proof (pow_half n Hn). destruct (Z.ltb_spec val 0).
  - rewrite <- zip_lxor_const, be_bytes_length, <- be_bytes_m1, <- be_bytes_lxor.
    rewrite Z.lxor_comm, <- Z.lxor_assoc, Z.lxor_m1_l, lxor_H by (unfold Z.lnot; lia). by rewrite Z.add_comm.
  - rewrite lxor_H, Z.add_comm by lia. clear. induction (be_bytes n (H n + val)) as [|b l IH]; [done|].
    cbn. by rewrite Z.lxor_0_r, IH.
Qed.

Lemma head_short n x : (1 <= n <= 7)%nat -> 0 <= x < 2 ^ (7 * Z.of_nat n - 1) ->
  exists b t, be_bytes n (H n + x) = b :: t /\ is_byte b /\ 128 <= b /\ b <> 255 /\
    7 - Log2Floor64 (Z.lxor b 255) = Z.of_nat n.
Proof.
  intros Hn Hx. destruct n as [|k]; [lia|]. eexists _, _. split; [reflexivity|]. split; [apply mod_byte|].
  set (n := S k) in *. set (q := x / 256 ^ Z.of_nat k).
  assert (Ek : Z.of_nat k = Z.of_nat n - 1) by lia.
  assert (HP : 0 < 256 ^ Z.of_nat k) by (apply Z.pow_pos_nonneg; lia).
  assert (Hq : 0 <= q < 2 ^ (7 - Z.of_nat n)).
  { split; [apply Z.div_pos; lia|]. apply Z.div_lt_upper_bound; [lia|]. rewrite p256, <- Z.pow_add_r by lia.
    replace (8 * Z.of_nat k + (7 - Z.of_nat n)) with (7 * Z.of_nat n - 1) by lia. apply Hx. }
  assert (Hb : (H n + x) / 256 ^ Z.of_nat k = 256 - 2 ^ (8 - Z.of_nat n) + q).
  { assert (E : H n = (256 - 2 ^ (8 - Z.of_nat n)) * 256 ^ Z.of_nat k).
    { rewrite H_eq, Z.mul_sub_distr_r, !p256, <- Z.pow_add_r by lia. change 256 with (2 ^ 8). rewrite <- Z.pow_add_r by lia.
      f_equal; f_equal; lia. }
    by rewrite E, Z.div_add_l by lia. }
  assert (H2 : 2 ^ (8 - Z.of_nat n) = 2 * 2 ^ (7 - Z.of_nat n)) by (rewrite <- Z.pow_succ_r by lia; f_equal; lia).
  assert (2 ^ (7 - Z.of_nat n) <= 2 ^ 6) by (apply Z.pow_le_mono_r; lia).
  rewrite Hb, Z.mod_small by lia. set (b := 256 - 2 ^ (8 - Z.of_nat n) + q) in *.
  assert (Hc : forallb (fun n => forallb (fun b =>
    implb ((256 - 2 ^ (8 - Z.of_nat n) <=? b) && (b <? 256 - 2 ^ (7 - Z.of_nat n)))
      ((128 <=? b) && negb (b =? 255) && (7 - Log2Floor64 (Z.lxor b 255) =? Z.of_nat n)))
    (map Z.of_nat (seq 0 256))) (seq 1 7) = true) by (vm_compute; reflexivity).
  rewrite forallb_forall in Hc. specialize (Hc n ltac:(apply in_seq; lia)).
  pose proof (forall_byte _ Hc b ltac:(unfold is_byte; lia)) as Hcb. cbv beta in Hcb.
  destruct (Z.leb_spec (256 - 2 ^ (8 - Z.of_nat n)) b); [|lia].
  destruct (Z.ltb_spec b (256 - 2 ^ (7 - Z.of_nat n))); [|lia]. cbn [andb implb] in Hcb.
  apply andb_true_iff in Hcb as [[G1 G2]%andb_true_iff G3].
  apply Z.leb_le in G1. apply Z.eqb_eq in G3. destruct (Z.eqb_spec b 255); [done|]. done.
Qed.

Lemma head_long n x : (8 <= n <= 10)%nat -> 0 <= x < 2 ^ (7 * Z.of_nat n - 1) -> x < 2 ^ 63 ->
  exists b1 b2 t, be_bytes n (H n + x) = 255 :: b1 :: b2 :: t /\
    ((n = 8%nat /\ b1 < 128) \/ (n = 9%nat /\ 128 <= b1 < 192) \/ (n = 10%nat /\ b1 = 192 /\ b2 < 128)).
Proof.
  intros Hn Hx Hx63. destruct (decide (n = 8%nat)) as [->|]; [|destruct (decide (n = 9%nat)) as [->|]; [|assert (n = 10%nat) as -> by lia]].
  - change (H 8) with (255 * 256 ^ 7). change (2 ^ (7 * Z.of_nat 8 - 1)) with (128 * 256 ^ 6) in Hx.
    cbn [be_bytes]. eexists _, _, _. split; [f_equal|left; split; [done|]].
    + change (Z.of_nat 7) with 7. rewrite Z.div_add_l, (Z.div_small x) by lia. done.
    + change (Z.of_nat 6) with 6. replace (255 * 256 ^ 7 + x) with (255 * 256 * 256 ^ 6 + x) by lia.
      rewrite Z.div_add_l, Z.add_comm, Z.mod_add by lia.
      assert (0 <= x / 256 ^ 6 < 128) by (split; [apply Z.div_pos; lia|apply Z.div_lt_upper_bound; lia]).
      rewrite Z.mod_small; lia.
  - change (H 9) with ((255 * 256 + 128) * 256 ^ 7). change (2 ^ (7 * Z.of_nat 9 - 1)) with (64 * 256 ^ 7) in Hx.
    cbn [be_bytes]. eexists _, _, _. split; [f_equal|right; left; split; [done|]].
    + change (Z.of_nat 8) with 8. replace ((255 * 256 + 128) * 256 ^ 7 + x) with (255 * 256 ^ 8 + (128 * 256 ^ 7 + x)) by lia.
      rewrite Z.div_add_l, (Z.div_small (_ + x)) by lia. done.
    + change (Z.of_nat 7) with 7. rewrite Z.div_add_l by lia.
      assert (0 <= x / 256 ^ 7 < 64) by (split; [apply Z.div_pos; lia|apply Z.div_lt_upper_bound; lia]).
      replace (255 * 256 + 128 + x / 256 ^ 7) with (128 + x / 256 ^ 7 + 255 * 256) by lia.
      rewrite Z.mod_add, Z.mod_small; lia.
  - change (H 10) with ((255 * 256 + 192) * 256 ^ 8). cbn [be_bytes]. eexists _, _, _. split; [f_equal|right; right; split; [done|split]].
    + change (Z.of_nat 9) with 9. replace ((255 * 256 + 192) * 256 ^ 8 + x) with (255 * 256 ^ 9 + (192 * 256 ^ 8 + x)) by lia.
      rewrite Z.div_add_l, (Z.div_small (_ + x)) by lia. done.
    + change (Z.of_nat 8) with 8. rewrite Z.div_add_l, (Z.div_small x) by lia. done.
    + change (Z.of_nat 7) with 7. replace ((255 * 256 + 192) * 256 ^ 8 + x) with ((255 * 256 + 192) * 256 * 256 ^ 7 + x) by lia.
      rewrite Z.div_add_l, Z.add_comm, Z.mod_add by lia.
      assert (0 <= x / 256 ^ 7 < 128) by (split; [apply Z.div_pos; lia|apply Z.div_lt_upper_bound; lia]).
      rewrite Z.mod_small; lia.
Qed.

Definition mask_word (val : Z) : Z := if val <? 0 then 2 ^ 64 - 1 else 0.
Definition mask_sign (val : Z) : Z := if val <? 0 then -1 else 0.
Lemma mask_word_u64 val : mask_word val = u64 (mask_sign val).
Proof. unfold mask_word, mask_sign. by destruct (val <? 0). Qed.
Lemma mask_word_byte val : Z.land (mask_word val) 255 = mask_byte val.
Proof. unfold mask_word, mask_byte. by destruct (val <? 0). Qed.

Lemma lxor_H_exact n val : (0 < n)%nat -> in_range n val ->
  Z.lxor val (H n) = mask_sign val * 256 ^ Z.of_nat n + enc n val.
Proof.
  intros Hn Hr. rewrite <- lxor_enc by done.
  assert (Hp : 0 < 256 ^ Z.of_nat n) by (apply Z.pow_pos_nonneg; lia).
  rewrite (Z.div_mod (Z.lxor val (H n)) (256 ^ Z.of_nat n)) at 1 by lia.
  enough (E : Z.lxor val (H n) / 256 ^ Z.of_nat n = mask_sign val) by (rewrite E; lia).
  destruct (H_bounds n) as [HH _]. unfold in_range in Hr. pose proof (pow_half n Hn).
  assert (2 ^ (7 * Z.of_nat n) <= 256 ^ Z.of_nat n) by (rewrite p256; apply Z.pow_le_mono_r; lia).
  rewrite p256 in *. rewrite <- Z.shiftr_div_pow2, Z.shiftr_lxor, !Z.shiftr_div_pow2 by lia.
  rewrite (Z.div_small (H n)), Z.lxor_0_r by lia. unfold mask_sign. destruct (Z.ltb_spec val 0); [|apply Z.div_small; lia].
  symmetry. apply Z.div_unique_pos with (r := val + 2 ^ (8 * Z.of_nat n)); lia.
Qed.

Lemma written_bytes n val : (0 < n)%nat -> in_range n val ->
  be_bytes n (enc n val) = map (fun b => Z.lxor b (mask_byte val)) (be_bytes n (H n + sabs val)).
Proof.
  intros Hn Hr. rewrite <- normalised, List.map_map by done. rewrite <- (List.map_id (be_bytes n (enc n val))) at 1.
  apply List.map_ext. intros b. by rewrite Z.lxor_assoc, Z.lxor_nilpotent, Z.lxor_0_r.
Qed.

Lemma sabs_range n val : (0 < n)%nat -> in_range n val -> 0 <= sabs val < 2 ^ (7 * Z.of_nat n - 1).
Proof. intros Hn. unfold in_range, sabs, Z.lnot. destruct (Z.ltb_spec val 0); lia. Qed.

(** The sign is read off the first bit. *)
Lemma sign_bit b val : is_byte b -> 128 <= b ->
  (if Z.land (Z.lxor b (mask_byte val)) 128 =? 0 then 2 ^ 64 - 1 else 0) = mask_word val.
Proof.
  intros Hb H128. unfold mask_byte, mask_word. destruct (val <? 0).
  - assert (E : forall b, is_byte b -> implb (128 <=? b) (Z.land (Z.lxor b 255) 128 =? 0) = true).
    { apply (forall_byte (fun b => implb (128 <=? b) (Z.land (Z.lxor b 255) 128 =? 0))). vm_compute. reflexivity. }
    specialize (E b Hb). destruct (Z.leb_spec 128 b); [|lia]. cbn [implb] in E. by rewrite E.
  - assert (E : forall b, is_byte b -> implb (128 <=? b) (negb (Z.land (Z.lxor b 0) 128 =? 0)) = true).
    { apply (forall_byte (fun b => implb (128 <=? b) (negb (Z.land (Z.lxor b 0) 128 =? 0)))). vm_compute. reflexivity. }
    specialize (E b Hb). destruct (Z.leb_spec 128 b); [|lia]. cbn [implb] in E. by destruct (_ =? 0).
Qed.

Lemma lxor_twice a m : Z.lxor (Z.lxor a m) m = a.
Proof. by rewrite Z.lxor_assoc, Z.lxor_nilpotent, Z.lxor_0_r. Qed.

Lemma ReadSigned_length_short n val rest :
  (1 <= n <= 7)%nat -> in_range n val ->
  ReadSigned_length (be_bytes n (enc n val) ++ rest) (mask_word val) = Some (Z.of_nat n, u64 (Z.lxor val (H n))).
Proof.
  intros Hn Hr. destruct (head_short n (sabs val) Hn (sabs_range n val ltac:(lia) Hr)) as (b & t & E & Hb & H128 & Hne & HL).
  unfold ReadSigned_length. rewrite mask_word_byte.
  assert (H0 : (be_bytes n (enc n val) ++ rest) !!z 0 = Some (Z.lxor b (mask_byte val))).
  { by rewrite written_bytes, E by (done || lia). }
  rewrite H0. cbn [mbind option_bind]. rewrite lxor_twice. destruct (Z.eqb_spec b 255); [done|]. cbn [negb].
  rewrite HL. unfold zlength. rewrite length_app, be_bytes_length.
  destruct (Z.ltb_spec (Z.of_nat (n + length rest)) (Z.of_nat n)); [lia|].
  rewrite Nat2Z.id, take_be_bytes, mask_word_u64, be_fold_u64 by apply be_bytes_is.
  by rewrite be_fold_shift, lxor_H_exact by (try apply enc_bounds; done || lia).
Qed.

Lemma ReadSigned_length_long n val rest :
  (8 <= n <= 10)%nat -> in_range n val -> - 2 ^ 63 <= val < 2 ^ 63 ->
  ReadSigned_length (be_bytes n (enc n val) ++ rest) (mask_word val) = Some (Z.of_nat n, u64 (Z.lxor val (H n))).
Proof.
  intros Hn Hr Hv.
  destruct (head_long n (sabs val) Hn (sabs_range n val ltac:(lia) Hr) (proj2 (sabs_bounds val Hv))) as (b1 & b2 & t & E & Hcase).
  assert (EL := written_bytes n val ltac:(lia) Hr). rewrite E in EL. cbn [map] in EL.
  assert (Hload : LoadBigEndian64 (drop (n - 8) (be_bytes n (enc n val) ++ rest)) = u64 (Z.lxor val (H n))).
  { replace (be_bytes n (enc n val)) with (be_bytes ((n - 8) + 8) (enc n val)) by (f_equal; lia).
    rewrite drop_app_le, be_bytes_drop by (rewrite be_bytes_length; lia). rewrite LoadBigEndian64_be, lxor_H_exact by (done || lia).
    unfold u64. replace (Z.of_nat n) with (8 + (Z.of_nat n - 8)) by lia. rewrite Z.pow_add_r by lia.
    replace (mask_sign val * (256 ^ 8 * 256 ^ (Z.of_nat n - 8))) with (mask_sign val * 256 ^ (Z.of_nat n - 8) * 2 ^ 64) by lia.
    by rewrite Z.add_comm, Z.mod_add by lia. }
  assert (Hlen : zlength (be_bytes n (enc n val) ++ rest) = Z.of_nat n + zlength rest).
  { unfold zlength. rewrite length_app, be_bytes_length. lia. }
  assert (Hrest : 0 <= zlength rest) by (unfold zlength; lia).
  unfold ReadSigned_length. rewrite mask_word_byte, Hlen.
  assert (L0 : (be_bytes n (enc n val) ++ rest) !!z 0 = Some (Z.lxor 255 (mask_byte val))) by (by rewrite EL).
  assert (L1 : (be_bytes n (enc n val) ++ rest) !!z 1 = Some (Z.lxor b1 (mask_byte val))) by (by rewrite EL).
  assert (L2 : (be_bytes n (enc n val) ++ rest) !!z 2 = Some (Z.lxor b2 (mask_byte val))) by (by rewrite EL).
  rewrite L0. cbn [mbind option_bind]. rewrite lxor_twice. cbn [Z.eqb Pos.eqb negb].
  destruct (Z.ltb_spec (Z.of_nat n + zlength rest) 8); [lia|].
  rewrite L1. cbn [mbind option_bind]. rewrite lxor_twice.
  assert (Hfin : forall z, z = Z.of_nat n -> (if Z.of_nat n + zlength rest <? z then None
     else Some (z, LoadBigEndian64 (drop (Z.to_nat (z - 8)) (be_bytes n (enc n val) ++ rest)))) = Some (Z.of_nat n, u64 (Z.lxor val (H n)))).
  { intros z ->. destruct (Z.ltb_spec (Z.of_nat n + zlength rest) (Z.of_nat n)); [lia|].
    replace (Z.to_nat (Z.of_nat n - 8)) with (n - 8)%nat by lia. by rewrite Hload. }
  destruct Hcase as [[En Hb1]|[[En Hb1]|(En & -> & Hb2)]].
  - destruct (Z.leb_spec 128 b1); [lia|]. cbn [mbind option_bind]. apply Hfin. lia.
  - destruct (Z.leb_spec 128 b1); [|lia]. destruct (Z.ltb_spec b1 192); [|lia]. cbn [mbind option_bind]. apply Hfin. lia.
  - cbn [Z.leb Z.ltb Z.compare Pos.compare Pos.compare_cont]. rewrite L2. cbn [mbind option_bind]. rewrite lxor_twice.
    cbn [Z.eqb Pos.eqb andb]. destruct (Z.ltb_spec b2 128); [|lia]. cbn [mbind option_bind]. apply Hfin. lia.
Qed.

Lemma masks_ok n : (1 <= n <= 10)%nat -> kLengthToMask !!z Z.of_nat n = Some (u64 (H n)).
Proof.
  intros Hn. assert (Hc : (n = 1 \/ n = 2 \/ n = 3 \/ n = 4 \/ n = 5 \/ n = 6 \/ n = 7 \/ n = 8 \/ n = 9 \/ n = 10)%nat) by lia.
  destruct Hc as [->|[->|[->|[->|[->|[->|[->|[->|[->| ->]]]]]]]]]; reflexivity.
Qed.

Lemma s64_u64 v : - 2 ^ 63 <= v < 2 ^ 63 -> s64 (u64 v) = v.
Proof.
  intros Hv. unfold s64, u64. rewrite Z.add_mod_idemp_l by lia. rewrite Z.mod_small; lia.
Qed.

Lemma ReadSigned_be n val rest :
  (1 <= n <= 10)%nat -> in_range n val -> - 2 ^ 63 <= val < 2 ^ 63 ->
  ReadSignedNumIncreasing (be_bytes n (enc n val) ++ rest) = Some (val, rest).
Proof.
  intros Hn Hr Hv. unfold ReadSignedNumIncreasing.
  assert (Hhead : exists b, is_byte b /\ 128 <= b /\ (be_bytes n (enc n val) ++ rest) !!z 0 = Some (Z.lxor b (mask_byte val))).
  { pose proof (sabs_range n val ltac:(lia) Hr). rewrite written_bytes by (done || lia). destruct (decide (n <= 7)%nat).
    - destruct (head_short n (sabs val) ltac:(lia) ltac:(done)) as (b & t & -> & Hb & H128 & _). by exists b.
    - destruct (head_long n (sabs val) ltac:(lia) ltac:(done) (proj2 (sabs_bounds val Hv))) as (b1 & b2 & t & -> & _).
      exists 255. unfold is_byte. split_and!; try lia. done. }
  destruct Hhead as (b & Hb & H128 & ->). cbn [mbind option_bind]. rewrite sign_bit by done.
  assert (HL : ReadSigned_length (be_bytes n (enc n val) ++ rest) (mask_word val) = Some (Z.of_nat n, u64 (Z.lxor val (H n)))).
  { destruct (decide (n <= 7)%nat); [apply ReadSigned_length_short|apply ReadSigned_length_long]; done || lia. }
  rewrite HL. cbn [mbind option_bind]. rewrite masks_ok by done. cbn [mbind option_bind].
  assert (EX : Z.lxor (u64 (Z.lxor val (H n))) (u64 (H n)) = u64 val).
  { unfold u64. rewrite <- lxor_mod by lia. by rewrite lxor_twice. }
  by rewrite EX, s64_u64, Nat2Z.id, drop_be_bytes.
Qed.

(** ** The properties *)

(** A string written with [WriteString] is read back by [ReadString],
    which leaves exactly the bytes that follow it; and the encodings of two
    different strings compare as the strings, whatever follows either. *)
Theorem OrderedCode_string x y rx ry :
  is_bytes x -> is_bytes y ->
  ReadString (WriteString [] x ++ rx) = Some (x, rx) /\
  (x <> y -> compare (WriteString [] x ++ rx) (WriteString [] y ++ ry) = compare x y).
Proof.
  intros Hx Hy. rewrite !WriteString_F by done. cbn [app]. split.
  - unfold ReadString. apply ReadString_F; [done|]. rewrite length_app. pose proof (F_length x). lia.
  - intros Hne. by rewrite !compare_lex, F_order.
Qed.
Lemma OrderedCode_string_witness :
  ReadString (WriteString [] [0; 255; 7] ++ [9]) = Some ([0; 255; 7], [9]) /\
  compare (WriteString [] [0; 255; 7] ++ [9]) (WriteString [] [0; 255] ++ [0]) = compare [0; 255; 7] [0; 255].
Proof.
  assert (H1 : is_bytes [0; 255; 7]) by (repeat constructor; lia). assert (H2 : is_bytes [0; 255]) by (repeat constructor; lia).
  destruct (OrderedCode_string [0; 255; 7] [0; 255] [9] [0] H1 H2) as [E1 E2]. split; [exact E1|apply E2; discriminate].
Defined.

(** An unsigned number written with [WriteNumIncreasing] is read back, and
    the encodings of [v < w] compare in that order, whatever follows. *)
Theorem OrderedCode_num v w rv rw :
  0 <= v < 2 ^ 64 -> 0 <= w < 2 ^ 64 ->
  ReadNumIncreasing (WriteNumIncreasing [] v ++ rv) = Some (v, rv) /\
  (v < w -> compare (WriteNumIncreasing [] v ++ rv) (WriteNumIncreasing [] w ++ rw) = -1).
Proof.
  intros Hv Hw. destruct (WriteNum_be v Hv) as (k & Hk & Hok & ->), (WriteNum_be w Hw) as (m & Hm & Hokm & ->).
  cbn [app]. split; [apply ReadNum_be; [done|destruct Hok; lia]|].
  intros Hlt. rewrite compare_lex, num_order_be by (done || lia). done.
Qed.
Lemma OrderedCode_num_witness :
  ReadNumIncreasing (WriteNumIncreasing [] 255 ++ [1]) = Some (255, [1]) /\
  compare (WriteNumIncreasing [] 255 ++ [1]) (WriteNumIncreasing [] 256 ++ [0]) = -1.
Proof.
  destruct (OrderedCode_num 255 256 [1] [0] ltac:(lia) ltac:(lia)) as [E1 E2]. split; [exact E1|apply E2; lia].
Defined.

(** A signed number of 64 bits written with [WriteSignedNumIncreasing]
    (which never leaves its tables) is read back, its encoding has between 1
    and 10 bytes, and the encodings of [v < w] compare in that order, negative
    numbers included, whatever follows. *)
Theorem OrderedCode_signed v w rv rw :
  - 2 ^ 63 <= v < 2 ^ 63 -> - 2 ^ 63 <= w < 2 ^ 63 ->
  exists ev ew, WriteSignedNumIncreasing [] v = Some ev /\ WriteSignedNumIncreasing [] w = Some ew /\
    ReadSignedNumIncreasing (ev ++ rv) = Some (v, rv) /\ 1 <= zlength ev <= kMaxSigned64Length /\
    (v < w -> compare (ev ++ rv) (ew ++ rw) = -1).
Proof.
  intros Hv Hw. eexists _, _. split; [by apply WriteSigned_be|]. split; [by apply WriteSigned_be|].
  destruct (slen_spec v Hv) as (Hn & Hr & _). cbn [app]. split_and!.
  - by apply ReadSigned_be.
  - unfold zlength. rewrite be_bytes_length. lia.
  - unfold zlength, kMaxSigned64Length. rewrite be_bytes_length. lia.
  - intros Hlt. rewrite compare_lex, signed_order by lia. done.
Qed.
Lemma OrderedCode_signed_witness : exists ev ew,
  WriteSignedNumIncreasing [] (-300) = Some ev /\ WriteSignedNumIncreasing [] 5 = Some ew /\
  ReadSignedNumIncreasing (ev ++ [1]) = Some (-300, [1]) /\ compare (ev ++ [1]) (ew ++ []) = -1.
Proof.
  destruct (OrderedCode_signed (-300) 5 [1] [] ltac:(lia) ltac:(lia)) as (ev & ew & H1 & H2 & H3 & _ & H4).
  exists ev, ew. split; [exact H1|]. split; [exact H2|]. split; [exact H3|apply H4; lia].
Defined.
End OrderedCode.
