(* ===== verification/Block.v ===== *)
(** * SSTable blocks

    [core/lib/io/block_builder.cc] and [block.cc]: a block stores sorted
    key-value pairs, each key without the prefix it shares with the previous
    one, except at the restart points, whose offsets end the block. The
    iterator scans a block and searches it by a binary search of the restart
    points followed by a scan. *)
From S2P Require Import Prelude StringPiece Coding.
Import Coding.

Module Block.

(** ** The builder *)

Record BlockBuilder := mkBuilder {
  buffer_ : list Z;
  restarts_ : list Z;
  counter_ : Z;
  finished_ : bool;
  last_key_ : list Z
}.

Definition BlockBuilder_new : BlockBuilder := mkBuilder [] [0] 0 false [].
Definition BlockBuilder_Reset (b : BlockBuilder) : BlockBuilder := mkBuilder [] [0] 0 false [].
Definition CurrentSizeEstimate (b : BlockBuilder) : Z :=
  zlength (buffer_ b) + zlength (restarts_ b) * 4 + 4.
Definition BlockBuilder_empty (b : BlockBuilder) : bool := bool_decide (buffer_ b = []).

Definition BlockBuilder_Finish (b : BlockBuilder) : list Z * BlockBuilder :=
  let buf := foldl (fun buf r => PutFixed32 buf r) (buffer_ b) (restarts_ b) in
  let buf := PutFixed32 buf (u32 (zlength (restarts_ b))) in
  (buf, mkBuilder buf (restarts_ b) (counter_ b) true (last_key_ b)).

(** [while ((shared < min_length) && (last_key_piece[shared] == key[shared]))] *)
Fixpoint shared_prefix (last_key key : list Z) : Z :=
  match last_key, key with
  | a :: last_key', c :: key' => if a =? c then 1 + shared_prefix last_key' key' else 0
  | _, _ => 0
  end.

Definition BlockBuilder_Add (block_restart_interval : Z) (b : BlockBuilder) (key value : list Z) : BlockBuilder :=
  let '(shared, restarts, counter) :=
    if counter_ b <? block_restart_interval then
      (shared_prefix (last_key_ b) key, restarts_ b, counter_ b)
    else (0, restarts_ b ++ [u32 (zlength (buffer_ b))], 0) in
  let non_shared := zlength key - shared in
  let delta := drop (Z.to_nat shared) key in
  let buf := PutVarint32 (buffer_ b) (u32 shared) in
  let buf := PutVarint32 buf (u32 non_shared) in
  let buf := PutVarint32 buf (u32 (zlength value)) in
  let buf := buf ++ delta in
  let buf := buf ++ value in
  mkBuilder buf restarts (counter + 1) (finished_ b) (take (Z.to_nat shared) (last_key_ b) ++ delta).

(** ** The reader *)

Record Block := mkBlock { data_ : list Z; size_ : Z; restart_offset_ : Z }.

Definition NumRestarts (data : list Z) : option Z := DecodeFixed32 (drop (length data - 4) data).

Definition Block_new (contents : list Z) : option Block :=
  let size := zlength contents in
  if size <? 4 then Some (mkBlock contents 0 0)
  else
    let max_restarts_allowed := (size - 4) / 4 in
    n ← NumRestarts contents;
    if max_restarts_allowed <? n then Some (mkBlock contents 0 0)
    else Some (mkBlock contents size (u32 (size - (1 + n) * 4))).

(** The three lengths at the start of [p], and what follows: the fast path
    for three one-byte varints, and the general one. *)
Definition DecodeLengths (p : list Z) : option (Z * Z * Z * list Z) :=
  match p with
  | b0 :: b1 :: b2 :: p' =>
      if Z.lor (Z.lor b0 b1) b2 <? 128 then Some (b0, b1, b2, p')
      else
        '(shared, p1) ← GetVarint32Ptr p;
        '(non_shared, p2) ← GetVarint32Ptr p1;
        '(value_length, p3) ← GetVarint32Ptr p2;
        Some (shared, non_shared, value_length, p3)
  | _ => None
  end.
Definition DecodeEntry (p : list Z) : option (Z * Z * Z * list Z) :=
  if zlength p <? 3 then None
  else
    '(shared, non_shared, value_length, p') ← DecodeLengths p;
    if u32 (zlength p') <? u32 (non_shared + value_length) then None
    else Some (shared, non_shared, value_length, p').

(** The iterator; [value_] is the offset and the length of the piece, or
    [None] once cleared. *)
Record Iter := mkIter {
  it_data : list Z;
  it_restarts : Z;
  num_restarts_ : Z;
  current_ : Z;
  restart_index_ : Z;
  key_ : list Z;
  value_ : option (Z * Z);
  status_ok : bool
}.
Definition M (A : Type) : Type := ST Iter A.

Definition Iter_new (data : list Z) (restarts num_restarts : Z) : Iter :=
  mkIter data restarts num_restarts restarts num_restarts [] None true.
Definition Valid (it : Iter) : bool := current_ it <? it_restarts it.
(** The bytes of [value()]. *)
Definition Iter_value (it : Iter) : list Z :=
  match value_ it with
  | Some (off, len) => take (Z.to_nat len) (drop (Z.to_nat off) (it_data it))
  | None => []
  end.

Definition set_current v it := mkIter (it_data it) (it_restarts it) (num_restarts_ it) v (restart_index_ it) (key_ it) (value_ it) (status_ok it).
Definition set_restart_index v it := mkIter (it_data it) (it_restarts it) (num_restarts_ it) (current_ it) v (key_ it) (value_ it) (status_ok it).
Definition set_key v it := mkIter (it_data it) (it_restarts it) (num_restarts_ it) (current_ it) (restart_index_ it) v (value_ it) (status_ok it).
Definition set_value v it := mkIter (it_data it) (it_restarts it) (num_restarts_ it) (current_ it) (restart_index_ it) (key_ it) v (status_ok it).
Definition set_status v it := mkIter (it_data it) (it_restarts it) (num_restarts_ it) (current_ it) (restart_index_ it) (key_ it) (value_ it) v.

Definition NextEntryOffset : M Z :=
  let! it := st_get in
  let! v := st_opt (value_ it) in
  st_ret (u32 (v.1 + v.2)).

Definition GetRestartPoint (index : Z) : M Z :=
  let! it := st_get in
  st_opt (DecodeFixed32 (drop (Z.to_nat (it_restarts it + index * 4)) (it_data it))).

Definition SeekToRestartPoint (index : Z) : M unit :=
  st_modify (set_key []) ;;;
  st_modify (set_restart_index index) ;;;
  let! offset := GetRestartPoint index in
  st_modify (set_value (Some (offset, 0))).

Definition CorruptionError : M unit :=
  st_modify (fun it => set_current (it_restarts it) it) ;;;
  st_modify (fun it => set_restart_index (num_restarts_ it) it) ;;;
  st_modify (set_status false) ;;;
  st_modify (set_key []) ;;;
  st_modify (set_value None).

(** [while (restart_index_ + 1 < num_restarts_ && ...) ++restart_index_;] *)
Fixpoint advance_restart (fuel : nat) : M unit :=
  match fuel with
  | O => st_diverge
  | S f =>
      let! it := st_get in
      if restart_index_ it + 1 <? num_restarts_ it then
        let! r := GetRestartPoint (restart_index_ it + 1) in
        if r <? current_ it then
          st_modify (fun it => set_restart_index (restart_index_ it + 1) it) ;;; advance_restart f
        else st_ret tt
      else st_ret tt
  end.

(** [data_[p, limit)] *)
Definition span (data : list Z) (p limit : Z) : list Z :=
  take (Z.to_nat (limit - p)) (drop (Z.to_nat p) data).

Definition ParseNextKey : M bool :=
  let! off := NextEntryOffset in
  st_modify (set_current off) ;;;
  let! it := st_get in
  if it_restarts it <=? current_ it then
    st_modify (fun it => set_current (it_restarts it) it) ;;;
    st_modify (fun it => set_restart_index (num_restarts_ it) it) ;;;
    st_ret false
  else
    match DecodeEntry (span (it_data it) (current_ it) (it_restarts it)) with
    | Some (shared, non_shared, value_length, rest) =>
        if zlength (key_ it) <? shared then CorruptionError ;;; st_ret false
        else
          let p := it_restarts it - zlength rest in
          let tail := drop (Z.to_nat p) (it_data it) in
          st_check (non_shared <=? zlength tail) ;;;
          st_modify (set_key (take (Z.to_nat shared) (key_ it) ++ take (Z.to_nat non_shared) tail)) ;;;
          st_modify (set_value (Some (p + non_shared, value_length))) ;;;
          advance_restart (S (Z.to_nat (num_restarts_ it))) ;;;
          st_ret true
    | None => CorruptionError ;;; st_ret false
    end.

Definition Next : M unit := ParseNextKey ;;; st_ret tt.
Definition SeekToFirst : M unit := SeekToRestartPoint 0 ;;; ParseNextKey ;;; st_ret tt.

(** The binary search; [None] is a corruption. *)
Fixpoint seek_binary (fuel : nat) (target : list Z) (left right : Z) : M (option Z) :=
  match fuel with
  | O => st_diverge
  | S f =>
      if left <? right then
        let mid := u32 (left + right + 1) / 2 in
        let! region_offset := GetRestartPoint mid in
        let! it := st_get in
        match DecodeEntry (span (it_data it) region_offset (it_restarts it)) with
        | Some (shared, non_shared, _, rest) =>
            if negb (shared =? 0) then CorruptionError ;;; st_ret None
            else
              let tail := drop (Z.to_nat (it_restarts it - zlength rest)) (it_data it) in
              st_check (non_shared <=? zlength tail) ;;;
              if StringPiece.compare (take (Z.to_nat non_shared) tail) target <? 0
              then seek_binary f target mid right
              else seek_binary f target left (mid - 1)
        | None => CorruptionError ;;; st_ret None
        end
      else st_ret (Some left)
  end.

(** The linear search. *)
Fixpoint seek_linear (fuel : nat) (target : list Z) : M unit :=
  match fuel with
  | O => st_diverge
  | S f =>
      let! ok := ParseNextKey in
      if negb ok then st_ret tt
      else
        let! it := st_get in
        if 0 <=? StringPiece.compare (key_ it) target then st_ret tt else seek_linear f target
  end.

Definition Seek (target : list Z) : M unit :=
  let! it := st_get in
  let! r := seek_binary (S (Z.to_nat (num_restarts_ it))) target 0 (u32 (num_restarts_ it - 1)) in
  match r with
  | None => st_ret tt
  | Some l =>
      SeekToRestartPoint l ;;; seek_linear (S (length (it_data it))) target
  end.

(** [NewIterator]: an error iterator, an empty one, or one over the entries. *)
Inductive BlockIterator := ErrorIterator | EmptyIterator | EntriesIterator (it : Iter).
Definition NewIterator (b : Block) : option BlockIterator :=
  if size_ b <? 4 then Some ErrorIterator
  else
    n ← NumRestarts (data_ b);
    if n =? 0 then Some EmptyIterator
    else Some (EntriesIterator (Iter_new (data_ b) (restart_offset_ b) n)).
End Block.
