(* ===== verification/BlockFacts.v ===== *)
(** * SSTable blocks: correctness

    A block built from sorted pairs is read back exactly by a scan, and [Seek]
    stops at the first key at or after its target. *)
From S2P Require Import Prelude StringPiece Coding Block.
Import Coding Block.

Module BlockFacts.

(** ** Entries *)

Record entry := Ent { e_shared : nat; e_key : list Z; e_val : list Z }.

Definition enc (e : entry) : list Z :=
  EncodeVarint32 (Z.of_nat (e_shared e)) ++ EncodeVarint32 (zlength (e_key e) - Z.of_nat (e_shared e)) ++
  EncodeVarint32 (zlength (e_val e)) ++ drop (e_shared e) (e_key e) ++ e_val e.
Definition buf (es : list entry) : list Z := concat (map enc es).
(** The offset of entry [i]. *)
Definition off (es : list entry) (i : nat) : Z := zlength (buf (take i es)).

Lemma zlength_nonneg {A} (l : list A) : 0 <= zlength l.
Proof. unfold zlength. lia. Qed.
Lemma buf_app es es' : buf (es ++ es') = buf es ++ buf es'.
Proof. unfold buf. by rewrite map_app, concat_app. Qed.

Lemma varint_len v : 0 <= v < 2 ^ 32 -> 1 <= zlength (EncodeVarint32 v).
Proof. intros Hv. destruct (EncodeVarint32_head v Hv) as (b & t & -> & _). unfold zlength. cbn [length]. lia. Qed.

Lemma lor_ge_128 x y : 0 <= x -> 0 <= y -> Z.lor x y < 128 -> x < 128 /\ y < 128.
Proof.
  intros Hx Hy. assert (Hge : forall x y, 0 <= x -> 0 <= y -> 128 <= x -> 128 <= Z.lor x y).
  { clear. intros x y Hx Hy H1. change 128 with (2 ^ 7) in *. assert (0 <= Z.lor x y) by (apply Z.lor_nonneg; lia).
    assert (Z.lor x y <> 0) by (intros E; apply Z.lor_eq_0_iff in E as [E _]; lia).
    apply Z.log2_le_pow2; [lia|]. rewrite Z.log2_lor by lia. apply Z.max_le_iff. left. apply Z.log2_le_pow2; lia. }
  intros Hl. pose proof (Hge x y Hx Hy). pose proof (Hge y x Hy Hx). rewrite (Z.lor_comm y x) in *. lia.
Qed.

Lemma enc_size e : (e_shared e <= length (e_key e))%nat ->
  zlength (drop (e_shared e) (e_key e) ++ e_val e) <= zlength (enc e) /\
  zlength (drop (e_shared e) (e_key e)) = zlength (e_key e) - Z.of_nat (e_shared e).
Proof.
  intros Hs. split; [|unfold zlength; rewrite length_drop; lia].
  unfold enc. rewrite !zlength_app. pose proof (@zlength_nonneg Z). 
  pose proof (H (EncodeVarint32 (Z.of_nat (e_shared e)))). pose proof (H (EncodeVarint32 (zlength (e_val e)))).
  pose proof (H (EncodeVarint32 (zlength (e_key e) - Z.of_nat (e_shared e)))). lia.
Qed.

Lemma DecodeLengths_enc s n v tail :
  0 <= s < 2 ^ 32 -> 0 <= n < 2 ^ 32 -> 0 <= v < 2 ^ 32 -> is_bytes tail ->
  DecodeLengths (EncodeVarint32 s ++ EncodeVarint32 n ++ EncodeVarint32 v ++ tail) = Some (s, n, v, tail).
Proof.
  intros Hs Hn Hv Ht. set (L := EncodeVarint32 s ++ EncodeVarint32 n ++ EncodeVarint32 v ++ tail).
  assert (Hslow : ('(shared, p1) ← GetVarint32Ptr L; '(non_shared, p2) ← GetVarint32Ptr p1;
     '(value_length, p3) ← GetVarint32Ptr p2; Some (shared, non_shared, value_length, p3)) = Some (s, n, v, tail)).
  { unfold L. rewrite GetVarint32_enc by done. cbn [mbind option_bind]. rewrite GetVarint32_enc by done. cbn [mbind option_bind].
    by rewrite GetVarint32_enc. }
  assert (HL : is_bytes L).
  { unfold L, is_bytes. rewrite !Forall_app, !EncodeVarint32_loop by lia.
    split_and!; try done; apply encoded_bytes; lia. }
  destruct (EncodeVarint32_head s Hs) as (b0 & t0 & E0 & B0 & C0), (EncodeVarint32_head n Hn) as (b1 & t1 & E1 & B1 & C1),
    (EncodeVarint32_head v Hv) as (b2 & t2 & E2 & B2 & C2).
  assert (H3 : (3 <= length L)%nat) by (unfold L; rewrite E0, E1, E2, !length_app; cbn [length]; lia).
  unfold DecodeLengths. destruct L as [|c0 [|c1 [|c2 p']]] eqn:EL; [cbn in H3; lia..|].
  destruct (Z.ltb_spec (Z.lor (Z.lor c0 c1) c2) 128) as [Hlt|]; [|by rewrite <- EL in Hslow |- *].
  unfold is_bytes in HL. rewrite !Forall_cons in HL. destruct HL as (P0 & P1 & P2 & _). unfold is_byte in *.
  apply lor_ge_128 in Hlt as [Hlt L2]; [|apply Z.lor_nonneg; lia|lia]. apply lor_ge_128 in Hlt as [L0 L1]; [|lia..].
  unfold L in EL. rewrite E0, E1, E2 in EL.
  destruct C0 as [(? & -> & ->)|[? ?]]; cbn [app] in EL; [|injection EL as <- _; lia].
  destruct C1 as [(? & -> & ->)|[? ?]]; cbn [app] in EL; [|injection EL as _ <- _; lia].
  destruct C2 as [(? & -> & ->)|[? ?]]; cbn [app] in EL; [|injection EL as _ _ <- _; lia].
  by injection EL as -> -> -> ->.
Qed.

(** Decoding an entry gives back its lengths and its bytes. *)
Lemma DecodeEntry_enc e rest :
  (e_shared e <= length (e_key e))%nat -> zlength (e_key e) < 2 ^ 32 -> zlength (enc e ++ rest) < 2 ^ 32 ->
  is_bytes (e_key e) -> is_bytes (e_val e) -> is_bytes rest ->
  DecodeEntry (enc e ++ rest) =
  Some (Z.of_nat (e_shared e), zlength (e_key e) - Z.of_nat (e_shared e), zlength (e_val e),
        drop (e_shared e) (e_key e) ++ e_val e ++ rest).
Proof.
  intros Hs Hk Hsz Bk Bv Br. destruct (enc_size e Hs) as [Hes Hdrop]. rewrite !zlength_app in *.
  pose proof (zlength_nonneg (e_val e)). pose proof (zlength_nonneg (drop (e_shared e) (e_key e))). pose proof (zlength_nonneg rest).
  assert (Hsk : Z.of_nat (e_shared e) <= zlength (e_key e)) by (unfold zlength; lia).
  assert (E : enc e ++ rest = EncodeVarint32 (Z.of_nat (e_shared e)) ++ EncodeVarint32 (zlength (e_key e) - Z.of_nat (e_shared e)) ++
     EncodeVarint32 (zlength (e_val e)) ++ drop (e_shared e) (e_key e) ++ e_val e ++ rest) by (unfold enc; by rewrite <- !app_assoc).
  rewrite E. unfold DecodeEntry. rewrite DecodeLengths_enc; [|lia..|].
  2: { unfold is_bytes in *. rewrite !Forall_app. split_and!; try done. by apply Forall_drop. }
  cbn [mbind option_bind]. rewrite !zlength_app.
  pose proof (varint_len (Z.of_nat (e_shared e)) ltac:(lia)). pose proof (varint_len (zlength (e_key e) - Z.of_nat (e_shared e)) ltac:(lia)).
  pose proof (varint_len (zlength (e_val e)) ltac:(lia)).
  destruct (Z.ltb_spec (zlength (EncodeVarint32 (Z.of_nat (e_shared e))) + (zlength (EncodeVarint32 (zlength (e_key e) - Z.of_nat (e_shared e))) +
    (zlength (EncodeVarint32 (zlength (e_val e))) + (zlength (drop (e_shared e) (e_key e)) + (zlength (e_val e) + zlength rest))))) 3); [lia|].
  rewrite !u32_id by lia. destruct (Z.ltb_spec (zlength (drop (e_shared e) (e_key e)) + (zlength (e_val e) + zlength rest))
    (zlength (e_key e) - Z.of_nat (e_shared e) + zlength (e_val e))); [lia|done].
Qed.

(** ** The layout of a block *)

Fixpoint good_chain (prev : list Z) (es : list entry) : Prop :=
  match es with
  | [] => True
  | e :: es' => (e_shared e <= length prev)%nat /\ (e_shared e <= length (e_key e))%nat /\
      take (e_shared e) prev = take (e_shared e) (e_key e) /\ good_chain (e_key e) es'
  end.

Definition restart_bytes (es : list entry) (idxs : list nat) : list Z :=
  concat (map (fun i => EncodeFixed32 (off es i)) idxs) ++ EncodeFixed32 (zlength idxs).

Record Layout (data : list Z) (es : list entry) (idxs : list nat) : Prop := {
  ly_data : data = buf es ++ restart_bytes es idxs;
  ly_chain : good_chain [] es;
  ly_bytes : Forall (fun e => is_bytes (e_key e) /\ is_bytes (e_val e)) es;
  ly_size : zlength data < 2 ^ 32;
  ly_keys : Forall (fun e => zlength (e_key e) < 2 ^ 32) es;
  ly_first : idxs !! 0%nat = Some 0%nat;
  ly_idx : forall j i, idxs !! j = Some i -> i = 0%nat \/ (i < length es)%nat;
  ly_idx_mono : forall j j' i i', idxs !! j = Some i -> idxs !! j' = Some i' -> (j < j')%nat -> (i < i')%nat;
  ly_restart : forall j i e, idxs !! j = Some i -> es !! i = Some e -> e_shared e = 0%nat
}.

Lemma drop_chunks {A} (f : A -> list Z) (l : list A) (t : list Z) j :
  (forall x, length (f x) = 4%nat) -> (j <= length l)%nat ->
  drop (4 * j) (concat (map f l) ++ t) = concat (map f (drop j l)) ++ t.
Proof.
  intros Hf. revert l. induction j as [|j IH]; intros l Hj; [done|].
  destruct l as [|x l]; [cbn in Hj; lia|]. cbn [map concat drop]. rewrite <- IH by (cbn in Hj; lia).
  replace (4 * S j)%nat with (length (f x) + 4 * j)%nat by (rewrite Hf; lia).
  by rewrite <- app_assoc, drop_app_add.
Qed.

Section Reader.
Context (data : list Z) (es : list entry) (idxs : list nat).
Hypothesis HL : Layout data es idxs.
Let R := zlength (buf es).

Definition prev_key (i : nat) : list Z :=
  match i with O => [] | S j => match es !! j with Some e => e_key e | None => [] end end.

Lemma off_S i e : es !! i = Some e -> off es (S i) = off es i + zlength (enc e).
Proof.
  intros He. unfold off. rewrite (take_S_r _ _ _ He), buf_app, zlength_app. unfold buf at 2. cbn [map concat]. by rewrite app_nil_r.
Qed.
Lemma off_split i : zlength (buf (take i es)) + zlength (buf (drop i es)) = R.
Proof. unfold R. by rewrite <- zlength_app, <- buf_app, take_drop. Qed.
Lemma off_bounds i : 0 <= off es i <= R.
Proof. pose proof (off_split i). unfold off. pose proof (zlength_nonneg (buf (take i es))). pose proof (zlength_nonneg (buf (drop i es))). lia. Qed.
Lemma off_end i : (length es <= i)%nat -> off es i = R.
Proof. intros Hi. unfold off, R. by rewrite take_ge. Qed.
Lemma size_bounds : R + 4 * zlength idxs + 4 = zlength data /\ zlength data < 2 ^ 32.
Proof.
  split; [|apply HL]. rewrite (ly_data _ _ _ HL), zlength_app. unfold restart_bytes. rewrite zlength_app. fold R.
  change (zlength (EncodeFixed32 _)) with 4. enough (zlength (concat (map (fun i => EncodeFixed32 (off es i)) idxs)) = 4 * zlength idxs) by lia.
  clear. induction idxs as [|i l IH]; [done|]. cbn [map concat]. rewrite zlength_app, IH.
  change (zlength (EncodeFixed32 _)) with 4. unfold zlength. cbn [length]. lia.
Qed.

Lemma data_split i : data = buf (take i es) ++ buf (drop i es) ++ restart_bytes es idxs.
Proof. rewrite (ly_data _ _ _ HL) at 1. by rewrite app_assoc, <- buf_app, take_drop. Qed.
Lemma drop_off i : drop (Z.to_nat (off es i)) data = buf (drop i es) ++ restart_bytes es idxs.
Proof. rewrite (data_split i) at 1. unfold off, zlength. by rewrite Nat2Z.id, drop_app_length. Qed.
Lemma span_off i : span data (off es i) R = buf (drop i es).
Proof.
  unfold span. rewrite drop_off. pose proof (off_split i) as Hs. fold (off es i) in Hs.
  replace (Z.to_nat (R - off es i)) with (length (buf (drop i es))) by (unfold zlength in Hs; lia).
  by rewrite take_app_length.
Qed.

Lemma chain_at i e : es !! i = Some e ->
  (e_shared e <= length (prev_key i))%nat /\ (e_shared e <= length (e_key e))%nat /\
  take (e_shared e) (prev_key i) = take (e_shared e) (e_key e).
Proof.
  pose proof (ly_chain _ _ _ HL) as Hc. intros He.
  assert (G : forall p es i e, good_chain p es -> es !! i = Some e ->
     let pk := match i with O => p | S j => match es !! j with Some e => e_key e | None => [] end end in
     (e_shared e <= length pk)%nat /\ (e_shared e <= length (e_key e))%nat /\ take (e_shared e) pk = take (e_shared e) (e_key e)).
  { clear. intros p es. revert p. induction es as [|e0 es IH]; intros p i e Hc He; [done|].
    destruct Hc as (H1 & H2 & H3 & Hc). destruct i as [|i]; [by simplify_eq/=|].
    specialize (IH _ _ _ Hc He). destruct i as [|i]; simpl in *; [|done]. by simplify_eq. }
  exact (G _ _ _ _ Hc He).
Qed.

Lemma entry_bytes i e : es !! i = Some e ->
  is_bytes (e_key e) /\ is_bytes (e_val e) /\ zlength (e_key e) < 2 ^ 32 /\ is_bytes (buf (drop (S i) es)).
Proof.
  intros He. pose proof (ly_bytes _ _ _ HL) as Hb. pose proof (ly_keys _ _ _ HL) as Hk.
  pose proof (proj1 (Forall_lookup _ _) Hb _ _ He) as [? ?]. pose proof (proj1 (Forall_lookup _ _) Hk _ _ He). split_and!; try done.
  assert (Hd : Forall (fun e => is_bytes (e_key e) /\ is_bytes (e_val e)) (drop (S i) es)) by (by apply Forall_drop).
  assert (Hk' : Forall (fun e => zlength (e_key e) < 2 ^ 32) (drop (S i) es)) by (by apply Forall_drop).
  assert (Hch : Forall (fun e => (e_shared e <= length (e_key e))%nat) (drop (S i) es)).
  { apply Forall_lookup. intros j x Hx. rewrite lookup_drop in Hx. apply chain_at in Hx. lia. }
  assert (Hv : Forall (fun e => zlength (e_val e) < 2 ^ 32) (drop (S i) es)).
  { apply Forall_lookup. intros j x Hx. rewrite lookup_drop in Hx.
    pose proof (off_S _ _ Hx). pose proof (off_bounds (S (S i + j))). pose proof (off_bounds (S i + j)). pose proof size_bounds.
    destruct (enc_size x (proj1 (proj2 (chain_at _ _ Hx)))) as [Hes _]. rewrite zlength_app in Hes.
    pose proof (zlength_nonneg (drop (e_shared x) (e_key x))). pose proof (zlength_nonneg idxs). lia. }
  clear -Hd Hk' Hch Hv. induction (drop (S i) es) as [|x l IH]; [constructor|].
  inversion_clear Hd as [|?? [B1 B2] Hd']. inversion_clear Hk' as [|?? K1 K2]. inversion_clear Hch as [|?? C1 C2].
  inversion_clear Hv as [|?? V1 V2].
  unfold buf. cbn [map concat]. apply Forall_app. split; [|by apply IH].
  pose proof (zlength_nonneg (e_val x)).
  assert (Z.of_nat (e_shared x) <= zlength (e_key x)) by (unfold zlength; lia).
  unfold enc. rewrite !Forall_app, !EncodeVarint32_loop by lia.
  split_and!; try apply encoded_bytes; try lia; [by apply Forall_drop|done].
Qed.

Lemma decode_at i e : es !! i = Some e ->
  DecodeEntry (span data (off es i) R) =
  Some (Z.of_nat (e_shared e), zlength (e_key e) - Z.of_nat (e_shared e), zlength (e_val e),
        drop (e_shared e) (e_key e) ++ e_val e ++ buf (drop (S i) es)).
Proof.
  intros He. rewrite span_off, (drop_S _ _ _ He). unfold buf at 1. cbn [map concat]. fold (buf (drop (S i) es)).
  destruct (chain_at i e He) as (_ & Hs & _). destruct (entry_bytes i e He) as (Bk & Bv & Hk & Br).
  apply DecodeEntry_enc; try done. rewrite zlength_app. pose proof (off_S i e He) as HS.
  pose proof (off_split (S i)) as Hsp. fold (off es (S i)) in Hsp. pose proof (off_bounds i). pose proof size_bounds. pose proof (zlength_nonneg idxs). lia.
Qed.

(** ** The iterator on a good block *)

Record good (it : Iter) : Prop := {
  gd_data : it_data it = data;
  gd_restarts : it_restarts it = R;
  gd_num : num_restarts_ it = zlength idxs
}.

(** The iterator is about to parse entry [i]. *)
Record pos (it : Iter) (i : nat) : Prop := {
  ps_good : good it;
  ps_status : status_ok it = true;
  ps_value : exists vo vl, value_ it = Some (vo, vl) /\ vo + vl = off es i;
  ps_key : key_ it = prev_key i \/ (key_ it = [] /\ forall e, es !! i = Some e -> e_shared e = 0%nat);
  ps_index : 0 <= restart_index_ it <= zlength idxs
}.

(** The iterator is on entry [i]. *)
Definition at_entry (it : Iter) (i : nat) : Prop :=
  exists e, es !! i = Some e /\ Valid it = true /\ key_ it = e_key e /\ Iter_value it = e_val e /\ current_ it = off es i /\ pos it (S i).
Definition at_end (it : Iter) : Prop := good it /\ Valid it = false /\ status_ok it = true.

Lemma restart_at it j i : good it -> idxs !! j = Some i -> GetRestartPoint (Z.of_nat j) it = Done (off es i, it).
Proof.
  intros [Hd Hr Hn] Hj. unfold GetRestartPoint. rewrite (st_bind_eq st_get _ _ _ _ eq_refl), Hd, Hr.
  pose proof (off_bounds i). pose proof size_bounds. pose proof (zlength_nonneg idxs).
  assert (E : drop (Z.to_nat (R + Z.of_nat j * 4)) data = EncodeFixed32 (off es i) ++
    concat (map (fun i => EncodeFixed32 (off es i)) (drop (S j) idxs)) ++ EncodeFixed32 (zlength idxs)).
  { rewrite (ly_data _ _ _ HL). unfold restart_bytes.
    replace (Z.to_nat (R + Z.of_nat j * 4)) with (length (buf es) + 4 * j)%nat by (unfold R, zlength; lia).
    rewrite drop_app_add, drop_chunks by (try done; apply lookup_lt_Some in Hj; lia).
    rewrite (drop_S _ _ _ Hj). cbn [map concat]. by rewrite <- app_assoc. }
  rewrite E, EncodeFixed32_decode by lia. done.
Qed.

Lemma advance_spec fuel : forall it Q,
  good it -> 0 <= restart_index_ it <= zlength idxs -> zlength idxs - restart_index_ it < Z.of_nat fuel ->
  (forall r, 0 <= r <= zlength idxs -> Q tt (set_restart_index r it)) ->
  wp (advance_restart fuel) it Q.
Proof.
  induction fuel as [|f IH]; intros it Q Hg Hr Hf HQ; [lia|]. cbn [advance_restart].
  assert (Hsame : set_restart_index (restart_index_ it) it = it) by (by destruct it).
  pose proof (gd_num _ Hg) as Hn. do 2 wp_step. destruct (Z.ltb_spec (restart_index_ it + 1) (num_restarts_ it)).
  - destruct (lookup_lt_is_Some_2 idxs (Z.to_nat (restart_index_ it + 1))) as [i Hi]; [unfold zlength in *; lia|].
    pose proof (restart_at it _ i Hg Hi) as E. rewrite Z2Nat.id in E by lia.
    apply wp_bind, wp_Done. exists (off es i), it. split; [done|]. destruct (off es i <? current_ it).
    + do 2 wp_step. apply IH; [by destruct Hg|cbn; lia|cbn; lia|]. intros r Hr'. specialize (HQ r Hr'). by destruct it.
    + apply wp_ret. rewrite <- Hsame. by apply HQ.
  - apply wp_ret. rewrite <- Hsame. by apply HQ.
Qed.

Lemma ParseNextKey_spec it i :
  pos it i ->
  wp ParseNextKey it (fun ok it' =>
    if ok then at_entry it' i else (length es <= i)%nat /\ at_end it').
Proof.
  intros [Hg Hst (vo & vl & Hv & Hoff) Hkey Hidx]. pose proof Hg as [Hd Hr Hn].
  pose proof (off_bounds i) as Hob. pose proof size_bounds as Hsz. pose proof (zlength_nonneg idxs).
  unfold ParseNextKey. apply wp_bind, wp_Done. exists (off es i), it. split.
  { unfold NextEntryOffset. rewrite (st_bind_eq st_get _ _ _ _ eq_refl), Hv. cbn. rewrite Hoff, u32_id by lia. done. }
  do 4 wp_step. cbn [it_restarts current_ set_current it_data key_ num_restarts_]. rewrite Hr, Hd.
  destruct (es !! i) as [e|] eqn:He.
  - destruct (chain_at i e He) as (Hs1 & Hs2 & Hs3). pose proof (off_S i e He) as HS.
    pose proof (off_bounds (S i)). destruct (enc_size e Hs2) as [Hes Hdl]. rewrite zlength_app in Hes.
    pose proof (zlength_nonneg (e_val e)). assert (Hdn := zlength_nonneg (drop (e_shared e) (e_key e))).
    assert (0 < zlength (enc e)).
    { unfold enc. rewrite !zlength_app. pose proof (varint_len (Z.of_nat (e_shared e))).
      assert (Z.of_nat (e_shared e) < 2 ^ 32) by (destruct (entry_bytes i e He) as (_ & _ & Hk & _); unfold zlength in *; lia).
      repeat match goal with |- context [zlength ?l] => lazymatch goal with H : 0 <= zlength l |- _ => fail | _ => pose proof (zlength_nonneg l) end end. lia. }
    destruct (Z.leb_spec R (off es i)); [lia|]. rewrite (decode_at i e He).
    assert (Hklen : (e_shared e <= length (key_ it))%nat /\ take (e_shared e) (key_ it) = take (e_shared e) (e_key e)).
    { destruct Hkey as [->|[-> Hz]]; [by split|]. rewrite (Hz e eq_refl). split; [done|by rewrite !take_0]. }
    destruct Hklen as [Hkl Htk]. destruct (Z.ltb_spec (zlength (key_ it)) (Z.of_nat (e_shared e))); [unfold zlength in *; lia|].
    set (rest := drop (e_shared e) (e_key e) ++ e_val e ++ buf (drop (S i) es)).
    assert (Hrest : R - zlength rest = off es (S i) - zlength (e_val e) - zlength (drop (e_shared e) (e_key e))).
    { unfold rest. rewrite !zlength_app. pose proof (off_split (S i)) as Hsp. fold (off es (S i)) in Hsp. lia. }
    assert (Htail : drop (Z.to_nat (R - zlength rest)) data = rest ++ restart_bytes es idxs).
    { pose proof (drop_off i) as Hdo. rewrite (drop_S _ _ _ He) in Hdo. unfold buf in Hdo. cbn [map concat] in Hdo.
      fold (buf (drop (S i) es)) in Hdo. unfold enc in Hdo. rewrite <- !app_assoc in Hdo.
      set (hd := EncodeVarint32 (Z.of_nat (e_shared e)) ++ EncodeVarint32 (zlength (e_key e) - Z.of_nat (e_shared e)) ++ EncodeVarint32 (zlength (e_val e))).
      assert (Hhd : zlength (enc e) = zlength hd + zlength (drop (e_shared e) (e_key e)) + zlength (e_val e)) by (unfold enc, hd; rewrite !zlength_app; lia).
      pose proof (zlength_nonneg hd). pose proof (zlength_nonneg rest).
      replace (Z.to_nat (R - zlength rest)) with (Z.to_nat (off es i) + length hd)%nat by (unfold zlength in *; lia).
      rewrite <- drop_drop, Hdo. unfold hd. rewrite !length_app, <- !drop_drop, !drop_app_length. unfold rest. by rewrite <- !app_assoc. }
    rewrite Htail. do 2 wp_step.
    { rewrite !zlength_app. pose proof (zlength_nonneg (restart_bytes es idxs)). unfold rest. rewrite !zlength_app.
      pose proof (zlength_nonneg (buf (drop (S i) es))). apply Z.leb_le. lia. }
    do 4 wp_step. rewrite <- Hdl. wp_step.
    apply advance_spec; [by split|done|cbn; rewrite Hn; lia|]. intros r Hr0. apply wp_ret.
    assert (Hkfin : take (Z.to_nat (Z.of_nat (e_shared e))) (key_ it) ++ take (Z.to_nat (zlength (drop (e_shared e) (e_key e)))) (rest ++ restart_bytes es idxs) = e_key e).
    { rewrite Nat2Z.id, Htk. unfold rest, zlength. rewrite Nat2Z.id, <- !app_assoc, take_app_length. apply take_drop. }
    exists e. split; [done|]. split_and!.
    + unfold Valid. cbn. rewrite Hr. apply Z.ltb_lt. lia.
    + exact Hkfin.
    + unfold Iter_value. cbn. rewrite ?Hd, ?Hr.
      replace (Z.to_nat (R - zlength rest + zlength (drop (e_shared e) (e_key e)))) with
        (Z.to_nat (R - zlength rest) + length (drop (e_shared e) (e_key e)))%nat by (unfold zlength in *; lia).
      rewrite <- drop_drop, Htail. unfold rest. rewrite <- !app_assoc, drop_app_length.
      unfold zlength. by rewrite Nat2Z.id, take_app_length.
    + done.
    + split; [by split|done| | |done].
      * eexists _, _. split; [done|]. lia.
      * left. cbn. rewrite He. exact Hkfin.
  - apply lookup_ge_None in He. rewrite off_end in * by done. destruct (Z.leb_spec R R); [|lia].
    do 4 wp_step. apply wp_ret. split; [done|]. split; [by split|]. split; [|done]. unfold Valid. cbn. apply Z.ltb_irrefl.
Qed.

(** *** Positioning *)

Lemma SeekToRestart_spec it j i :
  good it -> status_ok it = true -> idxs !! j = Some i ->
  wp (SeekToRestartPoint (Z.of_nat j)) it (fun _ it' => pos it' i).
Proof.
  intros Hg Hst Hj. unfold SeekToRestartPoint. do 4 wp_step. wp_step.
  set (it2 := set_restart_index _ _). assert (Hg2 : good it2) by (by destruct Hg).
  apply wp_Done. exists (off es i), it2. split; [by apply restart_at|]. apply wp_modify.
  split; cbn; [by destruct Hg|done| | |].
  - eexists _, _. split; [done|]. lia.
  - right. split; [done|]. intros e He. by eapply (ly_restart _ _ _ HL).
  - apply lookup_lt_Some in Hj. unfold zlength. lia.
Qed.

Lemma first_idx : idxs !! 0%nat = Some 0%nat.
Proof. apply HL. Qed.
Lemma idxs_pos : 0 < zlength idxs.
Proof. pose proof first_idx as H. apply lookup_lt_Some in H. unfold zlength. lia. Qed.

Lemma SeekToFirst_spec it :
  good it -> status_ok it = true ->
  wp SeekToFirst it (fun _ it' => at_entry it' 0 \/ (es = [] /\ at_end it')).
Proof.
  intros Hg Hst. unfold SeekToFirst. apply wp_bind. change 0 with (Z.of_nat 0).
  eapply wp_mono; [by apply (SeekToRestart_spec it 0 0 Hg Hst), first_idx|]. cbv beta. intros _ it1 Hp.
  wp_step. eapply wp_mono; [by apply ParseNextKey_spec|]. intros ok it2 Hpk. wp_step. destruct ok; [by left|right].
  destruct Hpk as [Hn He]. split; [|done]. apply length_zero_iff_nil. lia.
Qed.
Lemma Next_spec it i :
  at_entry it i -> wp Next it (fun _ it' => at_entry it' (S i) \/ ((length es <= S i)%nat /\ at_end it')).
Proof.
  intros (e & _ & _ & _ & _ & _ & Hp). unfold Next. wp_step. eapply wp_mono; [by apply ParseNextKey_spec|].
  intros ok it2 H. wp_step. destruct ok; [by left|by right].
Qed.

(** *** Seek *)

Definition key_lt (target : list Z) (e : entry) : Prop := StringPiece.compare (e_key e) target < 0.
Hypothesis Hsorted : forall i j e e', es !! i = Some e -> es !! j = Some e' -> (i < j)%nat ->
  StringPiece.compare (e_key e) (e_key e') < 0.

Lemma seek_linear_spec fuel target : forall it i,
  pos it i -> (i <= length es)%nat -> (length es - i < fuel)%nat ->
  wp (seek_linear fuel target) it (fun _ it' => exists i', (i <= i' <= length es)%nat /\
    (forall j e, (i <= j < i')%nat -> es !! j = Some e -> key_lt target e) /\
    ((exists e, es !! i' = Some e /\ ~ key_lt target e /\ at_entry it' i') \/ (i' = length es /\ at_end it'))).
Proof.
  induction fuel as [|f IH]; intros it i Hp Hi Hf; [lia|]. cbn [seek_linear]. wp_step.
  eapply wp_mono; [by apply ParseNextKey_spec|]. intros [|] it1 H; cbn [negb].
  - pose proof H as (e & He & Hval & Hk & Hv & Hcur & Hp1). do 2 wp_step. rewrite Hk.
    pose proof (lookup_lt_Some _ _ _ He). destruct (Z.leb_spec 0 (StringPiece.compare (e_key e) target)).
    + wp_step. exists i. split; [lia|]. split; [lia|]. left. exists e. split_and!; [done| |done]. unfold key_lt. lia.
    + eapply wp_mono; [apply IH; [done|lia|lia]|]. cbv beta. intros _ it2 (i' & Hi' & Hlt & Hend). exists i'.
      split; [lia|]. split; [|done]. intros j e' Hj He'. destruct (decide (j = i)) as [->|]; [|apply (Hlt j); [lia|done]].
      simplify_eq. unfold key_lt. lia.
  - wp_step. destruct H as [Hn He]. exists (length es). split; [lia|]. split; [|by right].
    intros j e Hj Hje. apply lookup_lt_Some in Hje. lia.
Qed.

(** The binary search keeps the restart points at or before [left] below the
    target, and does not touch the iterator. *)
Definition low_ok (target : list Z) (l : Z) : Prop :=
  forall i e, idxs !! Z.to_nat l = Some i -> es !! i = Some e -> l = 0 \/ key_lt target e.

Lemma seek_binary_spec fuel target it : forall l r,
  good it -> 0 <= l <= r -> r < zlength idxs -> r - l < Z.of_nat fuel -> low_ok target l ->
  wp (seek_binary fuel target l r) it (fun res it' => it' = it /\
    exists l', res = Some l' /\ 0 <= l' < zlength idxs /\ low_ok target l').
Proof.
  induction fuel as [|f IH]; intros l r Hg Hl Hr Hf Hlow; [lia|]. cbn [seek_binary].
  destruct (Z.ltb_spec l r) as [Hlr|]; [|apply wp_ret; split; [done|]; exists l; split_and!; done || lia].
  pose proof size_bounds. pose proof (off_bounds 0). rewrite u32_id by lia.
  set (mid := (l + r + 1) / 2). assert (Hmid : l < mid <= r).
  { unfold mid. pose proof (Z.div_mod (l + r + 1) 2 ltac:(lia)). pose proof (Z.mod_pos_bound (l + r + 1) 2 ltac:(lia)). lia. }
  destruct (lookup_lt_is_Some_2 idxs (Z.to_nat mid)) as [i Hi]; [unfold zlength in *; lia|].
  pose proof (restart_at it _ i Hg Hi) as E. rewrite Z2Nat.id in E by lia.
  assert (Hi0 : (0 < i)%nat).
  { pose proof (ly_idx_mono _ _ _ HL _ _ _ _ first_idx Hi ltac:(lia)). lia. }
  destruct (ly_idx _ _ _ HL _ _ Hi) as [?|Hil]; [lia|].
  destruct (lookup_lt_is_Some_2 es i Hil) as [e He]. pose proof (ly_restart _ _ _ HL _ _ _ Hi He) as Hs0.
  wp_step. apply wp_Done. exists (off es i), it. split; [done|]. do 2 wp_step.
  rewrite (gd_data _ Hg), (gd_restarts _ Hg), (decode_at i e He), Hs0. change (Z.of_nat 0) with 0. cbn [Z.eqb negb].
  set (rest := drop 0 (e_key e) ++ e_val e ++ buf (drop (S i) es)).
  assert (Htail : drop (Z.to_nat (R - zlength rest)) data = rest ++ restart_bytes es idxs).
  { replace (R - zlength rest) with (zlength (buf (take i es) ++ EncodeVarint32 0 ++ EncodeVarint32 (zlength (e_key e)) ++ EncodeVarint32 (zlength (e_val e)))).
    - rewrite (data_split i), (drop_S _ _ _ He). unfold buf at 3. cbn [map concat]. fold (buf (drop (S i) es)). unfold enc. rewrite Hs0.
      change (Z.of_nat 0) with 0. rewrite Z.sub_0_r. unfold zlength at 1. rewrite Nat2Z.id, !length_app, <- !drop_drop, <- !app_assoc.
      rewrite !drop_app_length. unfold rest. by rewrite <- !app_assoc.
    - pose proof (off_S i e He) as HS. pose proof (off_split (S i)) as Hsp. fold (off es (S i)) in Hsp. unfold off at 2 in HS.
      unfold rest. rewrite !zlength_app. unfold enc in HS. rewrite Hs0, !zlength_app in HS. change (Z.of_nat 0) with 0 in HS. rewrite Z.sub_0_r in HS. lia. }
  rewrite Htail, Z.sub_0_r. do 2 wp_step.
  { rewrite !zlength_app. unfold rest. rewrite !zlength_app, drop_0. pose proof (zlength_nonneg (e_val e)).
    pose proof (zlength_nonneg (buf (drop (S i) es))). pose proof (zlength_nonneg (restart_bytes es idxs)). apply Z.leb_le. lia. }
  assert (Hkey : take (Z.to_nat (zlength (e_key e))) (rest ++ restart_bytes es idxs) = e_key e).
  { unfold rest, zlength. by rewrite Nat2Z.id, <- !app_assoc, drop_0, take_app_length. }
  rewrite Hkey. destruct (Z.ltb_spec (StringPiece.compare (e_key e) target) 0).
  - apply IH; try done; try lia. intros i0 e0 Hi0' He0. simplify_eq. by right.
  - apply IH; try done; lia.
Qed.

Lemma varint_ne v : 1 <= zlength (EncodeVarint32 v).
Proof.
  unfold EncodeVarint32, zlength. destruct (_ <? _); [done|]. destruct (_ <? _); [done|]. destruct (_ <? _); [done|].
  by destruct (_ <? _).
Qed.
Lemma length_le_data : (length es <= length data)%nat.
Proof.
  assert (G : forall l, Z.of_nat (length l) <= zlength (buf l)).
  { induction l as [|e l IH]; [done|]. unfold buf in *. cbn [map concat length]. rewrite zlength_app.
    assert (1 <= zlength (enc e)); [|lia]. unfold enc. rewrite zlength_app.
    pose proof (varint_ne (Z.of_nat (e_shared e))).
    match goal with |- context [_ + zlength ?t] => pose proof (zlength_nonneg t) end. lia. }
  specialize (G es). pose proof size_bounds. pose proof idxs_pos. fold R in G. unfold zlength in *. lia.
Qed.

Lemma Seek_spec target it :
  good it -> status_ok it = true ->
  wp (Seek target) it (fun _ it' => exists i, (i <= length es)%nat /\
    (forall j e, (j < i)%nat -> es !! j = Some e -> key_lt target e) /\
    ((exists e, es !! i = Some e /\ ~ key_lt target e /\ at_entry it' i) \/ (i = length es /\ at_end it'))).
Proof.
  intros Hg Hst. unfold Seek. do 2 wp_step. pose proof size_bounds. pose proof idxs_pos. pose proof (off_bounds 0).
  rewrite (gd_num _ Hg), u32_id by lia. wp_step. eapply wp_mono.
  { apply seek_binary_spec; [done|lia|lia|lia|]. intros ? ? _ _. by left. }
  cbv beta. intros res it1 (-> & l & -> & Hl & Hlow).
  destruct (lookup_lt_is_Some_2 idxs (Z.to_nat l)) as [i0 Hi0]; [unfold zlength in *; lia|].
  wp_step. rewrite <- (Z2Nat.id l) by lia. eapply wp_mono; [by apply SeekToRestart_spec|]. cbv beta. intros _ it2 Hp.
  assert (Hi0n : (i0 <= length es)%nat) by (destruct (ly_idx _ _ _ HL _ _ Hi0); lia).
  eapply wp_mono; [apply seek_linear_spec; [done|lia|]|].
  { rewrite (gd_data _ Hg). pose proof length_le_data. lia. }
  cbv beta. intros _ it3 (i & Hi & Hlt & Hend). exists i. split; [lia|]. split; [|done].
  intros j e Hj He. destruct (decide (i0 <= j)%nat); [apply (Hlt j); [lia|done]|].
  destruct (lookup_lt_is_Some_2 es i0) as [e0 He0]; [destruct (ly_idx _ _ _ HL _ _ Hi0); lia|].
  destruct (Hlow _ _ Hi0 He0) as [->|Hk0].
  - change (Z.to_nat 0) with 0%nat in Hi0. rewrite first_idx in Hi0. simplify_eq. lia.
  - unfold key_lt in *. pose proof (Hsorted _ _ _ _ He He0 ltac:(lia)).
    by eapply StringPiece.compare_trans.
Qed.

(** *** Scanning *)

Fixpoint scan (fuel : nat) : M (list (list Z * list Z)) :=
  match fuel with
  | O => st_diverge
  | S f =>
      let! it := st_get in
      if Valid it then
        Next ;;; let! l := scan f in st_ret ((key_ it, Iter_value it) :: l)
      else st_ret []
  end.
Definition kv (e : entry) : list Z * list Z := (e_key e, e_val e).

Lemma block_scan_spec fuel : forall it i,
  (at_entry it i \/ ((length es <= i)%nat /\ at_end it)) -> (length es - i < fuel)%nat ->
  wp (scan fuel) it (fun l it' => l = map kv (drop i es) /\ at_end it').
Proof.
  induction fuel as [|f IH]; intros it i Hcase Hf; [lia|]. cbn [scan]. do 2 wp_step.
  destruct Hcase as [Hat|[Hn He]].
  - pose proof Hat as (e & He & Hval & Hk & Hv & _). rewrite Hval. wp_step.
    eapply wp_mono; [by apply Next_spec|]. cbv beta. intros _ it1 Hcase. wp_step.
    pose proof (lookup_lt_Some _ _ _ He).
    eapply wp_mono; [apply (IH it1 (S i) Hcase); lia|]. cbv beta. intros l it2 [-> Hend]. wp_step. split; [|done].
    rewrite (drop_S _ _ _ He), Hk, Hv. done.
  - pose proof He as (_ & Hv & _). rewrite Hv. wp_step. split; [|done]. by rewrite drop_ge.
Qed.
End Reader.

(** ** What the builder writes *)

Lemma shared_prefix_spec a b :
  exists s : nat, shared_prefix a b = Z.of_nat s /\ (s <= length a)%nat /\ (s <= length b)%nat /\ take s a = take s b.
Proof.
  revert b. induction a as [|x a IH]; intros [|y b]; try (by exists 0%nat; cbn; split_and!; lia || done).
  cbn [shared_prefix]. destruct (Z.eqb_spec x y) as [->|]; [|exists 0%nat; split_and!; cbn; lia || done].
  destruct (IH b) as (s & -> & H1 & H2 & H3). exists (S s). cbn [length take]. split_and!; [lia|lia|lia|by rewrite H3].
Qed.

Definition last_key (es : list entry) : list Z := prev_key es (length es).

(** The builder after adding the pairs [kvs]. *)
Record Built (b : BlockBuilder) (kvs : list (list Z * list Z)) (es : list entry) (idxs : list nat) : Prop := {
  bu_kvs : map kv es = kvs;
  bu_buffer : buffer_ b = buf es;
  bu_restarts : restarts_ b = map (off es) idxs;
  bu_last : last_key_ b = last_key es;
  bu_counter : es = [] /\ idxs = [0%nat] /\ counter_ b = 0 \/ 0 < counter_ b /\ es <> [];
  bu_chain : good_chain [] es;
  bu_first : idxs !! 0%nat = Some 0%nat;
  bu_idx : forall j i, idxs !! j = Some i -> i = 0%nat \/ (i < length es)%nat;
  bu_mono : forall j j' i i', idxs !! j = Some i -> idxs !! j' = Some i' -> (j < j')%nat -> (i < i')%nat;
  bu_restart : forall j i e, idxs !! j = Some i -> es !! i = Some e -> e_shared e = 0%nat
}.

Lemma good_chain_snoc p es e :
  good_chain p es -> let pk := match es with [] => p | _ => last_key es end in
  (e_shared e <= length pk)%nat -> (e_shared e <= length (e_key e))%nat ->
  take (e_shared e) pk = take (e_shared e) (e_key e) -> good_chain p (es ++ [e]).
Proof.
  revert p. induction es as [|e0 es IH]; intros p Hc pk H1 H2 H3; [by repeat split|].
  destruct Hc as (C1 & C2 & C3 & Hc). cbn [app good_chain]. split_and!; try done.
  assert (Hpk : pk = match es with [] => e_key e0 | _ => last_key es end).
  { unfold pk, last_key, prev_key. by destruct es. }
  specialize (IH (e_key e0) Hc). cbv zeta in IH. rewrite <- Hpk in IH. by apply IH.
Qed.

Lemma Built_new : Built BlockBuilder_new [] [] [0%nat].
Proof.
  split; try done; [left; done|..].
  - intros [|j] i; [intros [= <-]; by left|done].
  - intros [|j] [|j'] i i'; try done; lia.
Qed.

Lemma off_snoc es e i : (i <= length es)%nat -> off (es ++ [e]) i = off es i.
Proof. intros Hi. unfold off. by rewrite take_app_le. Qed.
Lemma prev_key_snoc es e : last_key (es ++ [e]) = e_key e.
Proof.
  unfold last_key, prev_key. rewrite length_app. cbn [length]. rewrite Nat.add_1_r.
  by rewrite list_lookup_middle.
Qed.

(** The entry that [Add] appends. *)
Lemma Add_entry interval b key value :
  1 <= interval -> zlength key < 2 ^ 32 -> zlength value < 2 ^ 32 ->
  exists s : nat, (s <= length (last_key_ b))%nat /\ (s <= length key)%nat /\ take s (last_key_ b) = take s key /\
    buffer_ (BlockBuilder_Add interval b key value) = buffer_ b ++ enc (Ent s key value) /\
    last_key_ (BlockBuilder_Add interval b key value) = key /\
    ((counter_ b < interval /\ restarts_ (BlockBuilder_Add interval b key value) = restarts_ b /\
      counter_ (BlockBuilder_Add interval b key value) = counter_ b + 1) \/
     (interval <= counter_ b /\ s = 0%nat /\ counter_ (BlockBuilder_Add interval b key value) = 1 /\
      restarts_ (BlockBuilder_Add interval b key value) = restarts_ b ++ [u32 (zlength (buffer_ b))])).
Proof.
  intros Hi Hk Hv. unfold BlockBuilder_Add.
  assert (G : forall s : nat, (s <= length key)%nat -> take s (last_key_ b) = take s key ->
    (((PutVarint32 (PutVarint32 (PutVarint32 (buffer_ b) (u32 (Z.of_nat s))) (u32 (zlength key - Z.of_nat s))) (u32 (zlength value)))
      ++ drop (Z.to_nat (Z.of_nat s)) key) ++ value) = buffer_ b ++ enc (Ent s key value) /\
    take (Z.to_nat (Z.of_nat s)) (last_key_ b) ++ drop (Z.to_nat (Z.of_nat s)) key = key).
  { intros s Hs Ht. pose proof (zlength_nonneg value). assert (Z.of_nat s <= zlength key) by (unfold zlength; lia).
    rewrite Nat2Z.id, Ht, take_drop, !u32_id by lia. split; [|done]. unfold PutVarint32, enc. cbn [e_shared e_key e_val].
    by rewrite <- !app_assoc. }
  destruct (Z.ltb_spec (counter_ b) interval).
  - destruct (shared_prefix_spec (last_key_ b) key) as (s & -> & H1 & H2 & H3). exists s.
    destruct (G s H2 H3) as [G1 G2]. cbn [buffer_ last_key_ restarts_ counter_]. split_and!; try done. left. done.
  - exists 0%nat. destruct (G 0%nat) as [G1 G2]; [lia|done|]. change (Z.of_nat 0) with 0 in *.
    cbn [buffer_ last_key_ restarts_ counter_]. split_and!; try done; try lia. by right.
Qed.

Lemma Built_Add interval b kvs es idxs key value :
  1 <= interval -> Built b kvs es idxs -> zlength key < 2 ^ 32 -> zlength value < 2 ^ 32 -> zlength (buffer_ b) < 2 ^ 32 ->
  exists es' idxs', Built (BlockBuilder_Add interval b key value) (kvs ++ [(key, value)]) es' idxs'.
Proof.
  intros Hi [B1 B2 B3 B4 B5 B6 B7 B8 B9 B10] Hk Hv Hsz.
  destruct (Add_entry interval b key value Hi Hk Hv) as (s & S1 & S2 & S3 & E1 & E2 & Hcase).
  set (e := Ent s key value) in *. set (b' := BlockBuilder_Add interval b key value) in *.
  assert (Hchain : good_chain [] (es ++ [e])).
  { apply good_chain_snoc; [done|..]; (replace (match es with [] => [] | _ => last_key es end) with (last_key_ b) by (rewrite B4; by destruct es)); done. }
  assert (Hbuf : buffer_ b' = buf (es ++ [e])).
  { rewrite E1, B2, buf_app. unfold buf at 3. cbn [map concat]. by rewrite app_nil_r. }
  assert (Hidx : forall j i, idxs !! j = Some i -> (i <= length es)%nat) by (intros j i Hj; destruct (B8 _ _ Hj); lia).
  assert (Hoffs : map (off (es ++ [e])) idxs = map (off es) idxs).
  { apply List.map_ext_in. intros i Hin%list_elem_of_In. apply list_elem_of_lookup in Hin as [j Hj]. apply off_snoc. eauto. }
  destruct Hcase as [(Hc & R1 & C1)|(Hc & -> & C1 & R1)].
  - exists (es ++ [e]), idxs. split; try done.
    + by rewrite map_app, B1.
    + by rewrite Hoffs, R1.
    + by rewrite E2, prev_key_snoc.
    + right. split; [|by destruct es]. rewrite C1. destruct B5 as [(_ & _ & ?)|[? _]]; lia.
    + intros j i Hj. rewrite length_app. destruct (B8 _ _ Hj); [by left|right; lia].
    + intros j i e0 Hj He0. destruct (decide (i < length es)%nat); [rewrite lookup_app_l in He0 by lia; by eapply B10|].
      destruct (B8 _ _ Hj) as [->|]; [|lia]. destruct es; [|cbn in *; lia]. simplify_eq/=.
      unfold last_key in B4. rewrite B4 in S1. cbn in S1. lia.
  - destruct B5 as [(_ & _ & ?)|[Hpos Hne]]; [lia|].
    exists (es ++ [e]), (idxs ++ [length es]). split; try done.
    + by rewrite map_app, B1.
    + rewrite R1, map_app, Hoffs, B3. cbn [map]. rewrite off_snoc by done. rewrite u32_id by (split; [apply zlength_nonneg|done]).
      rewrite B2. unfold off. by rewrite take_ge.
    + by rewrite E2, prev_key_snoc.
    + right. split; [lia|by destruct es].
    + rewrite lookup_app_l; [done|]. by apply lookup_lt_Some in B7.
    + intros j i Hj. rewrite length_app. apply lookup_app_Some in Hj as [Hj|[_ Hj]]; [destruct (B8 _ _ Hj); [by left|right; lia]|].
      apply list_lookup_singleton_Some in Hj as [_ <-]. right. cbn. lia.
    + intros j j' i i' Hj Hj' Hlt. apply lookup_app_Some in Hj as [Hj|[Hge Hj]], Hj' as [Hj'|[Hge' Hj']].
      * by eapply B9.
      * apply list_lookup_singleton_Some in Hj' as [_ <-]. destruct (B8 _ _ Hj) as [->|]; [|done]. destruct es; [done|cbn; lia].
      * apply lookup_lt_Some in Hj'. lia.
      * apply list_lookup_singleton_Some in Hj as [? _], Hj' as [? _]. lia.
    + intros j i e0 Hj He0. apply lookup_app_Some in Hj as [Hj|[_ Hj]].
      * destruct (B8 _ _ Hj) as [->|Hil]; [|rewrite lookup_app_l in He0 by done; by eapply B10].
        rewrite lookup_app_l in He0 by (destruct es; [done|cbn; lia]). by eapply B10.
      * apply list_lookup_singleton_Some in Hj as [_ <-]. rewrite list_lookup_middle in He0 by done. by simplify_eq.
Qed.

Definition add_all (interval : Z) (kvs : list (list Z * list Z)) : BlockBuilder :=
  foldl (fun b kv => BlockBuilder_Add interval b kv.1 kv.2) BlockBuilder_new kvs.
Definition small_kv (kv : list Z * list Z) : Prop :=
  is_bytes kv.1 /\ is_bytes kv.2 /\ zlength kv.1 < 2 ^ 32 /\ zlength kv.2 < 2 ^ 32.

Lemma Built_all interval kvs :
  1 <= interval -> Forall small_kv kvs -> zlength (buffer_ (add_all interval kvs)) < 2 ^ 32 ->
  exists es idxs, Built (add_all interval kvs) kvs es idxs.
Proof.
  intros Hi. induction kvs as [|[k v] kvs IH] using rev_ind; intros Hs Hsz; [exists [], [0%nat]; apply Built_new|].
  apply Forall_app in Hs as [Hs Hkv]. inversion_clear Hkv as [|?? (_ & _ & Hk & Hv) _].
  unfold add_all in *. rewrite foldl_app in *. cbn [foldl] in *.
  assert (Hgrow : zlength (buffer_ (foldl (fun b kv => BlockBuilder_Add interval b kv.1 kv.2) BlockBuilder_new kvs)) < 2 ^ 32).
  { destruct (Add_entry interval (foldl (fun b kv => BlockBuilder_Add interval b kv.1 kv.2) BlockBuilder_new kvs) k v Hi Hk Hv) as (s & _ & _ & _ & E & _).
    cbn [fst snd] in *. rewrite E, zlength_app in Hsz. pose proof (zlength_nonneg (enc (Ent s k v))). lia. }
  destruct (IH Hs Hgrow) as (es & idxs & HB). by eapply Built_Add.
Qed.

Lemma Finish_data b es idxs kvs : Built b kvs es idxs ->
  (BlockBuilder_Finish b).1 = buf es ++ concat (map (fun i => EncodeFixed32 (off es i)) idxs) ++ EncodeFixed32 (u32 (zlength idxs)) /\
  zlength (BlockBuilder_Finish b).1 = zlength (buf es) + 4 * zlength idxs + 4.
Proof.
  intros HB. unfold BlockBuilder_Finish. cbn [fst]. rewrite (bu_buffer _ _ _ _ HB), (bu_restarts _ _ _ _ HB).
  assert (G : forall l acc, foldl (fun buf r => PutFixed32 buf r) acc (map (off es) l) = acc ++ concat (map (fun i => EncodeFixed32 (off es i)) l)).
  { induction l as [|i l IH]; intros acc; cbn [map foldl concat]; [by rewrite app_nil_r|]. rewrite IH. unfold PutFixed32. by rewrite <- app_assoc. }
  assert (G4 : forall l, zlength (concat (map (fun i => EncodeFixed32 (off es i)) l)) = 4 * zlength l).
  { induction l as [|i l IH]; [done|]. cbn [map concat]. rewrite zlength_app, IH.
    change (zlength (EncodeFixed32 _)) with 4. unfold zlength. cbn [length]. lia. }
  rewrite G. unfold PutFixed32. rewrite <- app_assoc. unfold zlength at 1. rewrite length_map. split; [done|].
  rewrite !zlength_app, G4. change (zlength (EncodeFixed32 _)) with 4. lia.
Qed.

(** The layout of the finished block, and the block object over it. *)
Lemma Finish_Layout b es idxs kvs :
  Built b kvs es idxs -> Forall small_kv kvs -> zlength (BlockBuilder_Finish b).1 < 2 ^ 32 ->
  Layout (BlockBuilder_Finish b).1 es idxs.
Proof.
  intros HB Hs Hsz. destruct (Finish_data _ _ _ _ HB) as [Ed El]. pose proof (zlength_nonneg (buf es)). pose proof (zlength_nonneg idxs).
  rewrite u32_id in Ed by lia. destruct HB as [B1 B2 B3 B4 B5 B6 B7 B8 B9 B10]. rewrite <- B1, Forall_fmap in Hs.
  split; try done; eapply Forall_impl; try exact Hs; intros e (? & ? & ? & ?); done.
Qed.

Lemma open_block data es idxs : Layout data es idxs ->
  exists b, Block_new data = Some b /\
    NewIterator b = Some (EntriesIterator (Iter_new data (zlength (buf es)) (zlength idxs))).
Proof.
  intros HL. pose proof (size_bounds _ _ _ HL) as [Hsz Hlt]. pose proof (idxs_pos _ _ _ HL). pose proof (zlength_nonneg (buf es)).
  assert (Hn : NumRestarts data = Some (zlength idxs)).
  { unfold NumRestarts. set (pre := buf es ++ concat (map (fun i => EncodeFixed32 (off es i)) idxs)).
    assert (Ed : data = pre ++ EncodeFixed32 (zlength idxs)).
    { rewrite (ly_data _ _ _ HL) at 1. unfold restart_bytes, pre. by rewrite app_assoc. }
    assert (El : (length data - 4)%nat = length pre) by (rewrite Ed, length_app; change (length (EncodeFixed32 _)) with 4%nat; lia).
    rewrite El, Ed, drop_app_length, <- (app_nil_r (EncodeFixed32 _)). apply EncodeFixed32_decode. lia. }
  unfold Block_new. destruct (Z.ltb_spec (zlength data) 4); [lia|]. rewrite Hn. cbn [mbind option_bind].
  destruct (Z.ltb_spec ((zlength data - 4) / 4) (zlength idxs)) as [Hbad|].
  { assert (zlength idxs <= (zlength data - 4) / 4) by (apply Z.div_le_lower_bound; lia). lia. }
  eexists. split; [done|]. unfold NewIterator. cbn [size_ data_ restart_offset_].
  destruct (Z.ltb_spec (zlength data) 4); [lia|]. rewrite Hn. cbn [mbind option_bind].
  destruct (Z.eqb_spec (zlength idxs) 0); [lia|]. rewrite u32_id by lia. do 3 f_equal. lia.
Qed.

Definition kv_lt (a b : list Z * list Z) : Prop := StringPiece.compare a.1 b.1 < 0.

Lemma sorted_lookup kvs es : map kv es = kvs -> StronglySorted kv_lt kvs ->
  forall i j e e', es !! i = Some e -> es !! j = Some e' -> (i < j)%nat -> StringPiece.compare (e_key e) (e_key e') < 0.
Proof.
  intros <- Hs. induction es as [|e0 es IH]; intros i j e e' Hi Hj Hlt; [done|].
  inversion_clear Hs as [|?? Hs' Hall]. destruct j as [|j]; [lia|]. destruct i as [|i]; simplify_eq/=.
  - rewrite Forall_forall in Hall. apply (Hall (kv e')). apply list_elem_of_fmap. exists e'. split; [done|]. by eapply list_elem_of_lookup_2.
  - eapply IH; eauto. lia.
Qed.

(** The entries from the first key at or after the target, as a filter. *)
Lemma drop_filter es target i :
  (forall j e, (j < i)%nat -> es !! j = Some e -> key_lt target e) ->
  (forall j e, (i <= j)%nat -> es !! j = Some e -> ~ key_lt target e) ->
  map kv (drop i es) = filter (fun p => ~ StringPiece.compare p.1 target < 0) (map kv es).
Proof.
  revert i. induction es as [|e es IH]; intros i Hlo Hhi; [by rewrite drop_nil|]. destruct i as [|i].
  - cbn [drop map]. rewrite filter_cons_True by (apply (Hhi 0%nat); done || lia). f_equal.
    rewrite <- (IH 0%nat); [done|lia|]. intros j e' _ He'. apply (Hhi (S j)); done || lia.
  - cbn [drop map]. rewrite filter_cons_False; [apply IH|].
    + intros j e' Hj He'. apply (Hlo (S j)); done || lia.
    + intros j e' Hj He'. apply (Hhi (S j)); done || lia.
    + intros Hn. apply Hn. apply (Hlo 0%nat); done || lia.
Qed.

(** A block built from strictly sorted pairs opens without error; a scan
    from the first entry returns exactly the pairs, and a scan from [Seek
    target] exactly those whose key is not before [target], for every restart
    interval. *)
Theorem block_roundtrip interval kvs :
  1 <= interval -> Forall small_kv kvs -> StronglySorted kv_lt kvs ->
  let data := (BlockBuilder_Finish (add_all interval kvs)).1 in
  zlength data < 2 ^ 32 ->
  exists b it, Block_new data = Some b /\ NewIterator b = Some (EntriesIterator it) /\
    wp (SeekToFirst ;;; scan (S (length kvs))) it (fun l it' => l = kvs /\ status_ok it' = true) /\
    forall target, wp (Seek target ;;; scan (S (length kvs))) it (fun l it' =>
      l = filter (fun p => ~ StringPiece.compare p.1 target < 0) kvs /\ status_ok it' = true).
Proof.
  intros Hi Hs Hsort data Hsz.
  assert (Hbuf : zlength (buffer_ (add_all interval kvs)) < 2 ^ 32).
  { revert Hsz. unfold data, BlockBuilder_Finish. cbn [fst]. generalize (restarts_ (add_all interval kvs)), (buffer_ (add_all interval kvs)).
    intros l b. unfold PutFixed32 at 1. rewrite zlength_app. change (zlength (EncodeFixed32 _)) with 4.
    enough (zlength b <= zlength (foldl (fun buf r => PutFixed32 buf r) b l)) by lia. revert b.
    induction l as [|r l IH]; intros b; [done|]. cbn [foldl]. specialize (IH (PutFixed32 b r)). unfold PutFixed32 in IH at 1.
    rewrite zlength_app in IH. change (zlength (EncodeFixed32 _)) with 4 in IH. lia. }
  destruct (Built_all interval kvs Hi Hs Hbuf) as (es & idxs & HB).
  pose proof (Finish_Layout _ _ _ _ HB Hs Hsz) as HL. fold data in HL.
  destruct (open_block _ _ _ HL) as (b & Eb & Eit). exists b. eexists. split; [exact Eb|]. split; [exact Eit|].
  set (it := Iter_new _ _ _). assert (Hg : good data es idxs it) by done.
  pose proof (bu_kvs _ _ _ _ HB) as Hkv. assert (Hlen : length kvs = length es) by (by rewrite <- Hkv, length_map). rewrite Hlen.
  pose proof (sorted_lookup _ _ Hkv Hsort) as Hsorted. split.
  - wp_step. eapply wp_mono; [by apply (SeekToFirst_spec _ _ _ HL)|]. cbv beta. intros _ it1 Hcase.
    eapply wp_mono; [apply (block_scan_spec _ _ _ HL _ it1 0%nat); [destruct Hcase as [?|[-> ?]]; [by left|right; split; [cbn; lia|done]]|lia]|].
    cbv beta. intros l it2 [-> (_ & _ & ?)]. by rewrite drop_0.
  - intros target. wp_step. eapply wp_mono; [by apply (Seek_spec _ _ _ HL Hsorted)|]. cbv beta. intros _ it1 (i & Hil & Hlo & Hcase).
    eapply wp_mono; [apply (block_scan_spec _ _ _ HL _ it1 i); [destruct Hcase as [(? & ? & ? & ?)|[-> ?]]; [by left|by right]|lia]|].
    cbv beta. intros l it2 [-> (_ & _ & ?)]. split; [|done]. rewrite <- Hkv. apply drop_filter; [done|].
    intros j e Hj He Hlt. destruct Hcase as [(e0 & He0 & Hge & _)|[-> _]]; [|apply lookup_lt_Some in He; lia].
    destruct (decide (j = i)) as [->|]; [by simplify_eq|]. apply Hge. unfold key_lt in *.
    eapply StringPiece.compare_trans; [apply (Hsorted i j e0 e); done || lia|done].
Qed.
Lemma block_roundtrip_witness :
  let kvs := [([97], [1]); ([97; 98], [2]); ([98], []); ([98; 1], [3; 4])] in
  let data := (BlockBuilder_Finish (add_all 2 kvs)).1 in
  exists b it, Block_new data = Some b /\ NewIterator b = Some (EntriesIterator it) /\
    wp (SeekToFirst ;;; scan 5) it (fun l it' => l = kvs /\ status_ok it' = true) /\
    wp (Seek [97; 99] ;;; scan 5) it (fun l it' => l = [([98], []); ([98; 1], [3; 4])] /\ status_ok it' = true).
Proof.
  intros kvs data.
  destruct (block_roundtrip 2 kvs) as (b & it & H1 & H2 & H3 & H4).
  - lia.
  - repeat constructor; unfold is_byte; cbn; lia.
  - repeat constructor.
  - vm_compute. reflexivity.
  - exists b, it. split; [exact H1|]. split; [exact H2|]. split; [exact H3|]. exact (H4 [97; 99]).
Defined.

(** What [DecodeEntry] accepts ends inside the block when the two lengths
    add up below [2^32]; but their sum is taken modulo [2^32], and a block
    exists whose entry is accepted with a value length beyond its end. *)
Theorem DecodeEntry_bounds :
  (forall p s n v rest, DecodeEntry p = Some (s, n, v, rest) -> 0 <= n + v < 2 ^ 32 -> zlength p < 2 ^ 32 ->
     n + v <= zlength rest) /\
  (exists p s n v rest, is_bytes p /\ zlength p < 2 ^ 32 /\ DecodeEntry p = Some (s, n, v, rest) /\ zlength rest < v).
Proof.
  split.
  - intros p s n v rest E Hnv Hp. unfold DecodeEntry in E. destruct (zlength p <? 3); [done|].
    destruct (DecodeLengths p) as [[[[s' n'] v'] rest']|] eqn:El; [|done]. cbn [mbind option_bind] in E.
    destruct (Z.ltb_spec (u32 (zlength rest')) (u32 (n' + v'))) as [|Hge]; [done|]. simplify_eq.
    assert (Hrest : zlength rest <= zlength p).
    { unfold DecodeLengths in El. destruct p as [|b0 [|b1 [|b2 p']]]; try done. destruct (_ <? _).
      - simplify_eq. unfold zlength. cbn [length]. lia.
      - assert (Hl : forall mx w q sh acc x q', GetVarint_loop mx w q sh acc = Some (x, q') -> (length q' <= length q)%nat).
        { clear. intros mx w q. induction q as [|b q IH]; intros sh acc x q' E; [done|]. cbn [GetVarint_loop] in E. cbn [length].
          destruct (sh <=? mx); [|done]. destruct (negb _); [apply IH in E; lia|by simplify_eq; lia]. }
        assert (Hg : forall q x q', GetVarint32Ptr q = Some (x, q') -> (length q' <= length q)%nat).
        { intros q x q'. unfold GetVarint32Ptr, GetVarint32PtrFallback. destruct q as [|b q]; [apply Hl|].
          destruct (_ =? 0); [intros [= <- <-]; cbn; lia|apply Hl]. }
        apply bind_Some in El as ([x1 p1] & E1 & El). apply bind_Some in El as ([x2 p2] & E2 & El).
        apply bind_Some in El as ([x3 p3] & E3 & El). simplify_eq. apply Hg in E1, E2, E3. unfold zlength. lia. }
    pose proof (zlength_nonneg rest). rewrite !u32_id in Hge by lia. lia.
  - exists [0; 1; 255; 255; 255; 255; 15]. eexists _, _, _, _. split; [repeat constructor; unfold is_byte; lia|].
    split; [reflexivity|]. split; [vm_compute; reflexivity|]. reflexivity.
Qed.
End BlockFacts.
