(* ===== verification/TableIterator.v ===== *)
(** * Table iterators

    [core/lib/io/iterator.h] as an interface with its laws (what an iterator
    over a sequence of key-value pairs promises), and
    [two_level_iterator.cc], which implements the interface for the
    concatenation of the blocks that an index iterator lists, whatever the
    iterators below are. *)
From stdpp Require Import sorting.
From S2P Require Import Prelude StringPiece Status.
Import Status.

Module TableIterator.

Abbreviation kv := (list Z * list Z)%type.
Definition kv_lt (a b : kv) : Prop := StringPiece.compare a.1 b.1 < 0.

(** class Iterator *)
Class Iterator (I : Type) := {
  it_Valid : I -> bool;
  it_key : I -> list Z;
  it_value : I -> list Z;
  it_Next : ST I unit;
  it_Seek : list Z -> ST I unit;
  it_SeekToFirst : ST I unit;
  it_status : I -> Status
}.

(** The number of keys before [t]: where [Seek t] stops. *)
Definition rank (t : list Z) (l : list kv) : nat := length (filter (fun p => StringPiece.compare p.1 t < 0) l).

(** The contract. [over l it]: [it] iterates over [l] without error; [on l it i]:
    moreover it stands on entry [i], at the end when [i = length l]. *)
Class IteratorLaws (I : Type) `{Iterator I} := {
  over : list kv -> I -> Prop;
  on : list kv -> I -> nat -> Prop;
  on_over l it i : on l it i -> over l it;
  on_Valid l it i : on l it i -> it_Valid it = bool_decide (i < length l)%nat;
  on_entry l it i k v : on l it i -> l !! i = Some (k, v) -> it_key it = k /\ it_value it = v;
  over_status l it : over l it -> ok (it_status it) = true;
  Next_law l it i : on l it i -> (i < length l)%nat -> wp it_Next it (fun _ it' => on l it' (S i));
  First_law l it : over l it -> wp it_SeekToFirst it (fun _ it' => on l it' 0%nat);
  Seek_law l it t : over l it -> StronglySorted kv_lt l -> wp (it_Seek t) it (fun _ it' => on l it' (rank t l))
}.

(** ** Scanning with an iterator *)

(** [for (; it->Valid(); it->Next()) ...] *)
Fixpoint collect {I} `{Iterator I} (fuel : nat) : ST I (list kv) :=
  match fuel with
  | O => st_diverge
  | S f =>
      let! it := st_get in
      if it_Valid it then
        it_Next ;;; let! r := collect f in st_ret ((it_key it, it_value it) :: r)
      else st_ret []
  end.
Lemma collect_spec {I} `{IteratorLaws I} (l : list kv) fuel : forall it i,
  on l it i -> (i <= length l)%nat -> (length l - i < fuel)%nat ->
  wp (collect fuel) it (fun r it' => r = drop i l /\ ok (it_status it') = true).
Proof.
  induction fuel as [|f IH]; intros it i Ho Hi Hf; [lia|]. cbn [collect]. do 2 wp_step. rewrite (on_Valid _ _ _ Ho).
  case_bool_decide as Hlt.
  - wp_step. eapply wp_mono; [by apply (Next_law _ _ _ Ho)|]. cbv beta. intros _ it1 Ho1. wp_step.
    eapply wp_mono; [apply (IH _ _ Ho1); lia|]. cbv beta. intros r it2 [-> Hok]. wp_step. split; [|done].
    destruct (lookup_lt_is_Some_2 l i Hlt) as [[k v] E]. destruct (on_entry _ _ _ _ _ Ho E) as [-> ->].
    by rewrite (drop_S _ _ _ E).
  - wp_step. split; [|by eapply over_status, on_over]. by rewrite drop_ge by lia.
Qed.

(** ** The empty iterator *)

Record EmptyIterator := mkEmpty { em_status_ : Status }.
Definition NewEmptyIterator : EmptyIterator := mkEmpty OK.
Definition NewErrorIterator (s : Status) : EmptyIterator := mkEmpty s.
#[global] Instance Empty_Iterator : Iterator EmptyIterator := {
  it_Valid _ := false;
  it_key _ := [];
  it_value _ := [];
  it_Next := st_abort;
  it_Seek _ := st_ret tt;
  it_SeekToFirst := st_ret tt;
  it_status := em_status_
}.
#[global, refine] Instance Empty_Laws : IteratorLaws EmptyIterator := {
  over l it := l = [] /\ ok (em_status_ it) = true;
  on l it i := l = [] /\ ok (em_status_ it) = true /\ i = 0%nat
}.
Proof.
  - by intros l it i (? & ? & ?).
  - by intros l it i (-> & ? & ->).
  - by intros l it i k v (-> & ? & ->).
  - by intros l it [? ?].
  - intros l it i (-> & ? & ->) Hi. cbn in Hi. lia.
  - intros l it [-> ?]. done.
  - intros l it t [-> ?] _. done.
Defined.

(** ** TwoLevelIterator *)

Section TwoLevel.
Context {I D : Type} `{IteratorLaws I} `{IteratorLaws D}.
(** [block_function_(arg_, handle)] *)
Context (block_function : list Z -> outcome D).

Record TwoLevelIterator := mkTwoLevel {
  status_ : Status;
  index_iter_ : I;
  data_iter_ : option D;
  data_block_handle_ : list Z
}.
Definition NewTwoLevelIterator (index_iter : I) : TwoLevelIterator := mkTwoLevel OK index_iter None [].

Definition tl_Valid (t : TwoLevelIterator) : bool :=
  match data_iter_ t with None => false | Some d => it_Valid d end.
Definition tl_key (t : TwoLevelIterator) : list Z := match data_iter_ t with None => [] | Some d => it_key d end.
Definition tl_value (t : TwoLevelIterator) : list Z := match data_iter_ t with None => [] | Some d => it_value d end.
Definition tl_status (t : TwoLevelIterator) : Status :=
  if negb (ok (it_status (index_iter_ t))) then it_status (index_iter_ t)
  else match data_iter_ t with
       | Some d => if negb (ok (it_status d)) then it_status d else status_ t
       | None => status_ t
       end.

(** A call of a method of [*index_iter_], of [*data_iter_]. *)
Definition index_call {A} (m : ST I A) : ST TwoLevelIterator A := fun t =>
  match m (index_iter_ t) with
  | Done (a, i) => Done (a, mkTwoLevel (status_ t) i (data_iter_ t) (data_block_handle_ t))
  | Aborts => Aborts
  | Diverges => Diverges
  end.
Definition data_call {A} (m : ST D A) : ST TwoLevelIterator A := fun t =>
  match data_iter_ t with
  | None => Aborts
  | Some d =>
      match m d with
      | Done (a, d') => Done (a, mkTwoLevel (status_ t) (index_iter_ t) (Some d') (data_block_handle_ t))
      | Aborts => Aborts
      | Diverges => Diverges
      end
  end.

Definition SaveError (s : Status) : ST TwoLevelIterator unit :=
  st_modify (fun t => if ok (status_ t) && negb (ok s)
    then mkTwoLevel s (index_iter_ t) (data_iter_ t) (data_block_handle_ t) else t).
Definition SetDataIterator (data_iter : option D) : ST TwoLevelIterator unit :=
  let! t := st_get in
  match data_iter_ t with Some d => SaveError (it_status d) | None => st_ret tt end ;;;
  st_modify (fun t => mkTwoLevel (status_ t) (index_iter_ t) data_iter (data_block_handle_ t)).
Definition InitDataBlock : ST TwoLevelIterator unit :=
  let! t := st_get in
  if negb (it_Valid (index_iter_ t)) then SetDataIterator None
  else
    let handle := it_value (index_iter_ t) in
    if match data_iter_ t with Some _ => StringPiece.compare handle (data_block_handle_ t) =? 0 | None => false end
    then st_ret tt
    else
      let! iter := st_outcome (block_function handle) in
      st_modify (fun t => mkTwoLevel (status_ t) (index_iter_ t) (data_iter_ t) handle) ;;;
      SetDataIterator (Some iter).
(** [if (data_iter_ != NULL) data_iter_->...] *)
Definition if_data (m : ST D unit) : ST TwoLevelIterator unit :=
  let! t := st_get in
  match data_iter_ t with Some _ => data_call m | None => st_ret tt end.

Fixpoint SkipEmptyDataBlocksForward (fuel : nat) : ST TwoLevelIterator unit :=
  match fuel with
  | O => st_diverge
  | S f =>
      let! t := st_get in
      if tl_Valid t then st_ret tt
      else if negb (it_Valid (index_iter_ t)) then SetDataIterator None
      else
        index_call it_Next ;;;
        InitDataBlock ;;;
        if_data it_SeekToFirst ;;;
        SkipEmptyDataBlocksForward f
  end.
Definition tl_Seek (fuel : nat) (target : list Z) : ST TwoLevelIterator unit :=
  index_call (it_Seek target) ;;;
  InitDataBlock ;;;
  if_data (it_Seek target) ;;;
  SkipEmptyDataBlocksForward fuel.
Definition tl_SeekToFirst (fuel : nat) : ST TwoLevelIterator unit :=
  index_call it_SeekToFirst ;;;
  InitDataBlock ;;;
  if_data it_SeekToFirst ;;;
  SkipEmptyDataBlocksForward fuel.
Definition tl_Next (fuel : nat) : ST TwoLevelIterator unit :=
  let! t := st_get in
  st_check (tl_Valid t) ;;;
  data_call it_Next ;;;
  SkipEmptyDataBlocksForward fuel.
End TwoLevel.

(** ** The two-level iterator keeps the contract *)

Lemma rank_app t l l' : rank t (l ++ l') = (rank t l + rank t l')%nat.
Proof. unfold rank. by rewrite filter_app, length_app. Qed.
Lemma rank_cons t q l : rank t (q :: l) = ((if decide (StringPiece.compare q.1 t < 0)%Z then 1 else 0) + rank t l)%nat.
Proof. unfold rank. rewrite filter_cons. by destruct (decide _). Qed.
Lemma rank_all t l : (forall p, p ∈ l -> StringPiece.compare p.1 t < 0) -> rank t l = length l.
Proof.
  intros Hl. induction l as [|p l IH]; [done|]. rewrite rank_cons, decide_True by (apply Hl; set_solver).
  rewrite IH; [done|set_solver].
Qed.
Lemma rank_none t l : (forall p, p ∈ l -> ~ StringPiece.compare p.1 t < 0) -> rank t l = 0%nat.
Proof.
  intros Hl. induction l as [|p l IH]; [done|]. rewrite rank_cons, decide_False by (apply Hl; set_solver).
  apply IH. set_solver.
Qed.
Lemma rank_le t l : (rank t l <= length l)%nat.
Proof. apply length_filter. Qed.
(** In a sorted sequence the keys before [t] are the first [rank t l]. *)
Lemma rank_sorted t l i p : StronglySorted kv_lt l -> l !! i = Some p ->
  StringPiece.compare p.1 t < 0 <-> (i < rank t l)%nat.
Proof.
  intros Hs. revert i. induction Hs as [|q l Hs IH Hall]; intros i Hi; [done|].
  rewrite rank_cons. rewrite Forall_forall in Hall.
  destruct (decide (StringPiece.compare q.1 t < 0)) as [Hq|Hq].
  - destruct i as [|i]; [simplify_eq/=; split; [lia|done]|]. rewrite IH by done. lia.
  - rewrite rank_none by (intros x Hx Hlt; apply Hq; by eapply StringPiece.compare_trans; [apply Hall|]).
    split; [|lia]. intros Hlt. exfalso. apply Hq. destruct i as [|i]; [by simplify_eq/=|].
    eapply StringPiece.compare_trans; [apply (Hall p)|done]. by eapply list_elem_of_lookup_2.
Qed.

Lemma drop_rank t l : StronglySorted kv_lt l -> drop (rank t l) l = filter (fun p => ~ StringPiece.compare p.1 t < 0) l.
Proof.
  intros Hs. induction Hs as [|q l Hs IH Hall]; [done|]. rewrite rank_cons. rewrite Forall_forall in Hall.
  destruct (decide (StringPiece.compare q.1 t < 0)) as [Hq|Hq].
  - rewrite filter_cons_False by (intros Hn; by apply Hn). exact IH.
  - rewrite filter_cons_True by done. rewrite <- IH.
    rewrite rank_none by (intros x Hx Hlt; apply Hq; by eapply StringPiece.compare_trans; [apply Hall|]). done.
Qed.

Section TwoLevelFacts.
Context {I D : Type} `{LI : IteratorLaws I} `{LD : IteratorLaws D}.
Context (block_function : list Z -> outcome D).
(** The entries of the index (separator, handle) and the block of a handle. *)
Context (idx : list kv) (blk : list Z -> list kv).

Definition blocks : list kv := concat (map (fun p => blk p.2) idx).
Definition start (i : nat) : nat := length (concat (map (fun p => blk p.2) (take i idx))).

Record Blocks : Prop := {
  bs_sorted : StronglySorted kv_lt idx;
  bs_open : forall i s h, idx !! i = Some (s, h) -> exists d, block_function h = Done d /\ over (blk h) d;
  bs_le : forall i s h p, idx !! i = Some (s, h) -> p ∈ blk h -> StringPiece.compare p.1 s <= 0;
  bs_lt : forall i j s h s' h' p, idx !! i = Some (s, h) -> idx !! j = Some (s', h') -> (i < j)%nat ->
    p ∈ blk h' -> StringPiece.compare s p.1 < 0
}.
Hypothesis HB : Blocks.
Let T : Type := @TwoLevelIterator I D.

Definition tl_good (t : T) : Prop :=
  ok (status_ t) = true /\ forall d, data_iter_ t = Some d -> over (blk (data_block_handle_ t)) d.
Definition tl_over (t : T) : Prop := over idx (index_iter_ t) /\ tl_good t.
(** The index stands on entry [i], the data iterator on entry [j] of its block. *)
Definition tl_at (t : T) (i j : nat) : Prop :=
  on idx (index_iter_ t) i /\ tl_good t /\
  exists s h d, idx !! i = Some (s, h) /\ data_iter_ t = Some d /\ data_block_handle_ t = h /\
    on (blk h) d j /\ (j <= length (blk h))%nat.
Definition tl_end (t : T) : Prop := on idx (index_iter_ t) (length idx) /\ tl_good t /\ data_iter_ t = None.
Definition tl_on (t : T) (n : nat) : Prop :=
  (tl_end t /\ n = length blocks) \/
  exists i j s h, tl_at t i j /\ idx !! i = Some (s, h) /\ (j < length (blk h))%nat /\ n = (start i + j)%nat.

Lemma start_S i s h : idx !! i = Some (s, h) -> start (S i) = (start i + length (blk h))%nat.
Proof.
  intros Hi. unfold start. rewrite (take_S_r (A := kv) idx i (s, h) Hi), map_app, concat_app, length_app. cbn. by rewrite app_nil_r.
Qed.
Lemma start_end i : (length idx <= i)%nat -> start i = length blocks.
Proof. intros Hi. unfold start, blocks. by rewrite take_ge. Qed.
Lemma start_0 : start 0 = 0%nat.
Proof. done. Qed.

Lemma SetDataIterator_spec t d : tl_good t ->
  wp (SetDataIterator d) t (fun _ t' => index_iter_ t' = index_iter_ t /\ data_block_handle_ t' = data_block_handle_ t /\
    ok (status_ t') = true /\ data_iter_ t' = d).
Proof.
  intros [Hok Hd]. unfold SetDataIterator. do 2 wp_step. destruct (data_iter_ t) as [d0|] eqn:E.
  - wp_step. unfold SaveError. wp_step. rewrite Hok. cbn [andb].
    pose proof (over_status _ _ (Hd d0 eq_refl)) as Hs. rewrite Hs. cbn [negb]. by wp_step.
  - do 2 wp_step. by wp_step.
Qed.

Lemma InitDataBlock_spec t i : on idx (index_iter_ t) i -> (i <= length idx)%nat -> tl_good t ->
  wp (InitDataBlock block_function) t (fun _ t' => index_iter_ t' = index_iter_ t /\ tl_good t' /\
    match idx !! i with
    | Some (_, h) => exists d, data_iter_ t' = Some d /\ data_block_handle_ t' = h /\ over (blk h) d
    | None => data_iter_ t' = None
    end).
Proof.
  intros Ho Hi Hg. unfold InitDataBlock. do 2 wp_step. rewrite (on_Valid _ _ _ Ho).
  case_bool_decide as Hlt; cbn [negb].
  - destruct (lookup_lt_is_Some_2 idx i Hlt) as [[s h] E]. destruct (on_entry _ _ _ _ _ Ho E) as [_ ->]. rewrite E.
    destruct (match data_iter_ t with Some _ => _ | None => _ end) eqn:Esame.
    + wp_step. destruct (data_iter_ t) as [d|] eqn:Ed; [|done]. apply Z.eqb_eq, StringPiece.compare_eq in Esame as ->.
      split_and!; [done..|]. exists d. split_and!; [done..|]. by apply Hg.
    + destruct (bs_open HB _ _ _ E) as (d & Ebf & Hd). wp_step. rewrite Ebf. unfold wp at 1. cbn [st_outcome].
      wp_step. wp_step. set (t1 := mkTwoLevel _ _ _ _).
      assert (Hs : wp (SetDataIterator (Some d)) t1 (fun _ t' => index_iter_ t' = index_iter_ t1 /\
        data_block_handle_ t' = data_block_handle_ t1 /\ ok (status_ t') = true /\ data_iter_ t' = Some d)).
      { unfold SetDataIterator. do 2 wp_step. destruct Hg as [Hok Hgd]. change (data_iter_ t1) with (data_iter_ t).
        destruct (data_iter_ t) as [d0|]; [|do 2 wp_step; by wp_step].
        wp_step. unfold SaveError. wp_step. rewrite (over_status _ _ (Hgd d0 eq_refl)), andb_false_r. by wp_step. }
      eapply wp_mono; [exact Hs|]. cbv beta. intros _ t' (E1 & E2 & E3 & E4). split; [done|]. split.
      * split; [done|]. intros d1. rewrite E4, E2. by intros [= <-].
      * exists d. by rewrite E4, E2.
  - rewrite lookup_ge_None_2 by lia. eapply wp_mono; [by apply SetDataIterator_spec|]. cbv beta.
    intros _ t' (E1 & E2 & E3 & E4). split; [done|]. split; [|done]. split; [done|]. intros d. by rewrite E4.
Qed.

(** A call of the data iterator keeps the rest. *)
Lemma data_call_spec t d (m : ST D unit) (Q : D -> Prop) : data_iter_ t = Some d -> tl_good t ->
  wp m d (fun _ d' => Q d' /\ over (blk (data_block_handle_ t)) d') ->
  wp (data_call m) t (fun _ t' => index_iter_ t' = index_iter_ t /\ data_block_handle_ t' = data_block_handle_ t /\ tl_good t' /\
    exists d', data_iter_ t' = Some d' /\ Q d').
Proof.
  intros Ed [Hok Hg] Hm. unfold wp in *. unfold data_call. rewrite Ed. destruct (m d) as [[u d']| |]; [|done..].
  destruct Hm as [HQ Ho]. cbn. split_and!; [done..| |by exists d']. split; [done|]. cbn. by intros ? [= <-].
Qed.
Lemma index_call_spec t (m : ST I unit) (Q : I -> Prop) : tl_good t -> wp m (index_iter_ t) (fun _ i => Q i) ->
  wp (index_call m) t (fun _ t' => Q (index_iter_ t') /\ tl_good t').
Proof.
  intros Hg Hm. unfold wp in *. unfold index_call. by destruct (m (index_iter_ t)) as [[u i]| |].
Qed.

(** From an index position: initialise the block and move its iterator. *)
Lemma init_move t i (m : ST D unit) (pos : list kv -> nat) : on idx (index_iter_ t) i -> (i <= length idx)%nat -> tl_good t ->
  (forall l d, over l d -> (exists s h, idx !! i = Some (s, h) /\ l = blk h) -> wp m d (fun _ d' => on l d' (pos l))) ->
  (forall l, pos l <= length l)%nat ->
  wp (InitDataBlock block_function ;;; if_data m) t (fun _ t' =>
    (exists s h, idx !! i = Some (s, h) /\ tl_at t' i (pos (blk h))) \/ (i = length idx /\ tl_end t')).
Proof.
  intros Ho Hi Hg Hm Hpos. wp_step. eapply wp_mono; [by apply (InitDataBlock_spec t i)|]. cbv beta.
  intros _ t1 (E1 & Hg1 & Hcase). unfold if_data. do 2 wp_step. destruct (idx !! i) as [[s h]|] eqn:E.
  - destruct Hcase as (d & Ed & Eh & Hd). rewrite Ed.
    eapply wp_mono; [apply (data_call_spec _ d _ (fun d' => on (blk h) d' (pos (blk h)))); [done..|]|].
    + eapply wp_mono; [apply Hm; [done|by exists s, h]|]. cbv beta. intros _ d' Hd'. split; [done|]. rewrite Eh. by eapply on_over.
    + cbv beta. intros _ t2 (E2 & E2h & Hg2 & d' & Ed' & Hd'). left. exists s, h. split; [done|]. unfold tl_at. rewrite E2, E1.
      split; [done|]. split; [done|]. exists s, h, d'. by rewrite E2h.
  - rewrite Hcase. wp_step. right. apply lookup_ge_None in E. assert (i = length idx) as -> by lia.
    split; [done|]. unfold tl_end. by rewrite E1.
Qed.

Lemma Skip_spec fuel : forall t i j,
  tl_at t i j \/ (tl_end t /\ i = length idx /\ j = 0%nat) -> (length idx - i < fuel)%nat ->
  wp (SkipEmptyDataBlocksForward block_function fuel) t (fun _ t' => tl_on t' (start i + j)).
Proof.
  induction fuel as [|f IH]; intros t i j Hcase Hf; [lia|]. cbn [SkipEmptyDataBlocksForward]. do 2 wp_step. unfold tl_Valid.
  destruct Hcase as [(Ho & Hg & s & h & d & E & Ed & Eh & Hd & Hj)|((Ho & Hg & Ed) & -> & ->)].
  - rewrite Ed, (on_Valid _ _ _ Hd). case_bool_decide as Hlt.
    + wp_step. right. exists i, j, s, h. split_and!; [|done..]. split; [done|]. split; [done|]. by exists s, h, d.
    + assert (j = length (blk h)) as -> by lia. pose proof (lookup_lt_Some _ _ _ E) as Hi.
      rewrite (on_Valid _ _ _ Ho), bool_decide_true by done. cbn [negb]. wp_step.
      eapply wp_mono; [apply (index_call_spec _ _ (fun it => on idx it (S i))); [done|]; eapply wp_mono; [by apply (Next_law _ _ _ Ho)|done]|].
      cbv beta. intros _ t1 [Ho1 Hg1].
      assert (Hm : wp (InitDataBlock block_function ;;; if_data it_SeekToFirst) t1 (fun _ t' =>
        (exists s h, idx !! S i = Some (s, h) /\ tl_at t' (S i) 0) \/ (S i = length idx /\ tl_end t'))).
      { apply (init_move t1 (S i) _ (fun _ => 0%nat)); [done|lia|done| |lia]. intros l d1 Hd1 _. by apply First_law. }
      rewrite <- (start_S _ _ _ E), <- (Nat.add_0_r (start (S i))).
      apply wp_split. eapply wp_mono; [exact Hm|]. cbv beta. intros _ t2 [(s2 & h2 & E2 & Hat)|[Hend Ht]]; (apply IH; [|lia]); [by left|by right].
  - rewrite Ed, (on_Valid _ _ _ Ho), bool_decide_false by lia. cbn [negb].
    eapply wp_mono; [by apply SetDataIterator_spec|]. cbv beta. intros _ t' (E1 & E2 & E3 & E4). left.
    split; [|rewrite start_end by lia; lia]. unfold tl_end. rewrite E1, E4. split; [done|]. split; [|done].
    split; [done|]. intros d. by rewrite E4.
Qed.

(** The keys of block [i] against a target between the separators. *)
Lemma elem_blocks p l : p ∈ concat (map (fun q : kv => blk q.2) l) <-> exists i s h, l !! i = Some (s, h) /\ p ∈ blk h.
Proof.
  rewrite list_elem_of_In, in_concat. split.
  - intros (b & Hb & Hp). apply in_map_iff in Hb as ([s h] & <- & Hq). apply list_elem_of_In, list_elem_of_lookup in Hq as [i Hi].
    exists i, s, h. split; [done|]. by apply list_elem_of_In.
  - intros (i & s & h & Hi & Hp). exists (blk h). split; [|by apply list_elem_of_In].
    apply in_map_iff. exists (s, h). split; [done|]. apply list_elem_of_In. by eapply list_elem_of_lookup_2.
Qed.
Lemma blocks_split i : blocks = concat (map (fun p : kv => blk p.2) (take i idx)) ++ concat (map (fun p : kv => blk p.2) (drop i idx)).
Proof. unfold blocks. by rewrite <- concat_app, <- map_app, take_drop. Qed.

Lemma rank_blocks t : let i := rank t idx in
  rank t blocks = (start i + match idx !! i with Some (_, h) => rank t (blk h) | None => 0 end)%nat.
Proof.
  intros i. rewrite (blocks_split i), rank_app. unfold start.
  rewrite rank_all; [f_equal|].
  - destruct (idx !! i) as [[s h]|] eqn:E; [|by rewrite drop_ge by (by apply lookup_ge_None)].
    rewrite (drop_S idx (s, h) i E). cbn [map concat]. rewrite rank_app, (rank_none _ (concat _)); [cbn; lia|].
    intros p Hp Hlt. apply elem_blocks in Hp as (j & s' & h' & Hj & Hp). rewrite lookup_drop in Hj.
    pose proof (bs_lt HB i (S i + j) s h s' h' p E Hj ltac:(lia) Hp).
    assert (StringPiece.compare s t < 0) as Hs by (by eapply StringPiece.compare_trans).
    apply (rank_sorted t idx i (s, h) (bs_sorted HB) E) in Hs. unfold i in Hs. lia.
  - intros p Hp. apply elem_blocks in Hp as (j & s & h & Hj & Hp). apply lookup_take_Some in Hj as [Hj Hlt].
    eapply StringPiece.compare_le_lt; [by eapply (bs_le HB)|]. by apply (rank_sorted t idx j (s, h) (bs_sorted HB) Hj).
Qed.
Lemma blk_sorted i s h : StronglySorted kv_lt blocks -> idx !! i = Some (s, h) -> StronglySorted kv_lt (blk h).
Proof.
  intros Hs E. rewrite (blocks_split i) in Hs. apply StronglySorted_app_1_r in Hs.
  rewrite (drop_S idx (s, h) i E) in Hs. cbn [map concat] in Hs. by apply StronglySorted_app_1_l in Hs.
Qed.

Lemma tl_Seek_spec fuel t target : tl_over t -> (length idx < fuel)%nat -> StronglySorted kv_lt blocks ->
  wp (tl_Seek block_function fuel target) t (fun _ t' => tl_on t' (rank target blocks)).
Proof.
  intros [Ho Hg] Hf Hs. unfold tl_Seek. wp_step.
  eapply wp_mono; [apply (index_call_spec _ _ (fun it => on idx it (rank target idx))); [done|]; eapply wp_mono; [apply Seek_law; [done|apply HB]|done]|].
  cbv beta. intros _ t1 [Ho1 Hg1]. apply wp_split.
  eapply wp_mono; [apply (init_move t1 (rank target idx) _ (rank target)); [done|apply rank_le|done| |apply rank_le]|].
  { intros l d Hd (s & h & E & ->). apply Seek_law; [done|by eapply blk_sorted]. }
  cbv beta. rewrite rank_blocks. intros _ t2 [(s & h & -> & Hat)|[E Hend]].
  - apply Skip_spec; [by left|lia].
  - rewrite (lookup_ge_None_2 idx) by lia. apply Skip_spec; [by right|lia].
Qed.
Lemma tl_SeekToFirst_spec fuel t : tl_over t -> (length idx < fuel)%nat ->
  wp (tl_SeekToFirst block_function fuel) t (fun _ t' => tl_on t' 0).
Proof.
  intros [Ho Hg] Hf. unfold tl_SeekToFirst. wp_step.
  eapply wp_mono; [apply (index_call_spec _ _ (fun it => on idx it 0%nat)); [done|]; eapply wp_mono; [by apply First_law|done]|].
  cbv beta. intros _ t1 [Ho1 Hg1]. apply wp_split.
  eapply wp_mono; [apply (init_move t1 0 _ (fun _ => 0%nat)); [done|lia|done| |lia]|].
  { intros l d Hd _. by apply First_law. }
  cbv beta. intros _ t2 [(s & h & E & Hat)|[E Hend]]; apply (Skip_spec fuel t2 0 0); try lia; [by left|by right].
Qed.
Lemma tl_Next_spec fuel t n : tl_on t n -> (n < length blocks)%nat -> (length idx < fuel)%nat ->
  wp (tl_Next block_function fuel) t (fun _ t' => tl_on t' (S n)).
Proof.
  intros [[_ ->]|(i & j & s & h & (Ho & Hg & s' & h' & d & E & Ed & Eh & Hd & _) & E' & Hj & ->)] Hn Hf; [lia|].
  rewrite E in E'. injection E' as <- <-. unfold tl_Next. do 4 wp_step; [unfold tl_Valid; rewrite Ed, (on_Valid _ _ _ Hd); by apply bool_decide_eq_true|].
  wp_step. eapply wp_mono; [apply (data_call_spec _ d _ (fun d' => on (blk h') d' (S j))); [done..|]|].
  - eapply wp_mono; [by apply (Next_law _ _ _ Hd)|]. cbv beta. intros _ d' Hd'. split; [done|]. rewrite Eh. by eapply on_over.
  - cbv beta. intros _ t1 (E1 & E1h & Hg1 & d' & Ed' & Hd'). rewrite <- Nat.add_succ_r. apply Skip_spec; [|lia].
    left. unfold tl_at. rewrite E1, E1h. split; [done|]. split; [done|]. by exists s', h', d'.
Qed.

(** What a position shows of the entries. *)
Lemma tl_on_over t n : tl_on t n -> tl_over t.
Proof. intros [[(Ho & Hg & _) _]|(i & j & s & h & (Ho & Hg & _) & _)]; (split; [by eapply on_over|done]). Qed.
Lemma tl_on_entry t n : tl_on t n ->
  tl_Valid t = bool_decide (n < length blocks)%nat /\
  forall k v, blocks !! n = Some (k, v) -> tl_key t = k /\ tl_value t = v.
Proof.
  unfold tl_Valid, tl_key, tl_value.
  intros [[(_ & _ & ->) ->]|(i & j & s & h & (_ & _ & s' & h' & d & E & Ed & _ & Hd & _) & E' & Hj & ->)].
  - split; [by rewrite bool_decide_false by lia|]. intros k v Hl. apply lookup_lt_Some in Hl. lia.
  - rewrite E in E'. injection E' as -> ->. rewrite Ed.
    assert (Hl : blocks !! (start i + j)%nat = blk h !! j).
    { rewrite (blocks_split i), lookup_app_r by (unfold start; lia). unfold start. rewrite Nat.add_comm, Nat.add_sub.
      rewrite (drop_S idx (s, h) i E). cbn [map concat]. by rewrite lookup_app_l. }
    assert (start i + j < length blocks)%nat by (apply lookup_lt_is_Some; rewrite Hl; by apply lookup_lt_is_Some).
    split; [by rewrite (on_Valid _ _ _ Hd), !bool_decide_true|]. intros k v Hk. rewrite Hl in Hk. by eapply on_entry.
Qed.
Lemma tl_over_status t : tl_over t -> ok (tl_status t) = true.
Proof.
  intros [Ho [Hok Hg]]. unfold tl_status. rewrite (over_status _ _ Ho). cbn [negb].
  destruct (data_iter_ t) as [d|]; [|done]. by rewrite (over_status _ _ (Hg d eq_refl)).
Qed.
End TwoLevelFacts.

(** ** The instance *)

Section Instance.
Context {I D : Type} `{LI : IteratorLaws I} `{LD : IteratorLaws D}.
Context (block_function : list Z -> outcome D) (fuel : nat).
#[global] Instance TwoLevel_Iterator : Iterator (@TwoLevelIterator I D) := {
  it_Valid := tl_Valid;
  it_key := tl_key;
  it_value := tl_value;
  it_Next := tl_Next block_function fuel;
  it_Seek := tl_Seek block_function fuel;
  it_SeekToFirst := tl_SeekToFirst block_function fuel;
  it_status := tl_status
}.
(** The blocks that an index lists. *)
Definition lists_blocks (l idx : list kv) (blk : list Z -> list kv) : Prop :=
  Blocks block_function idx blk /\ l = blocks idx blk /\ (length idx < fuel)%nat.
#[global, refine] Instance TwoLevel_Laws : IteratorLaws (@TwoLevelIterator I D) := {
  over l t := exists idx blk, lists_blocks l idx blk /\ tl_over idx blk t;
  on l t n := exists idx blk, lists_blocks l idx blk /\ tl_on idx blk t n
}.
Proof.
  - intros l t n (idx & blk & Hl & Ho). exists idx, blk. split; [done|]. by eapply tl_on_over.
  - intros l t n (idx & blk & (_ & -> & _) & Ho). by apply tl_on_entry.
  - intros l t n k v (idx & blk & (_ & -> & _) & Ho). by apply (tl_on_entry idx blk).
  - intros l t (idx & blk & _ & Ho). by eapply tl_over_status.
  - intros l t n (idx & blk & (HB & -> & Hf) & Ho) Hn.
    eapply wp_mono; [by eapply tl_Next_spec|]. cbv beta. intros _ t' Ho'. by exists idx, blk.
  - intros l t (idx & blk & (HB & -> & Hf) & Ho).
    eapply wp_mono; [by eapply tl_SeekToFirst_spec|]. cbv beta. intros _ t' Ho'. by exists idx, blk.
  - intros l t target (idx & blk & (HB & -> & Hf) & Ho) Hs.
    eapply wp_mono; [by eapply tl_Seek_spec|]. cbv beta. intros _ t' Ho'. by exists idx, blk.
Defined.
End Instance.

(** A scan from the first entry, and from a target. *)
Lemma scan_spec {I} `{IteratorLaws I} l it fuel : over l it -> (length l < fuel)%nat ->
  wp (it_SeekToFirst ;;; collect fuel) it (fun r it' => r = l /\ ok (it_status it') = true).
Proof.
  intros Ho Hf. wp_step. eapply wp_mono; [by apply (First_law l)|]. cbv beta. intros _ it1 Ho1.
  eapply wp_mono; [by apply (collect_spec l fuel it1 0); [|lia|lia]|]. done.
Qed.
Lemma scan_from_spec {I} `{IteratorLaws I} l it fuel t : over l it -> StronglySorted kv_lt l -> (length l < fuel)%nat ->
  wp (it_Seek t ;;; collect fuel) it (fun r it' =>
    r = filter (fun p => ~ StringPiece.compare p.1 t < 0) l /\ ok (it_status it') = true).
Proof.
  intros Ho Hs Hf. wp_step. eapply wp_mono; [by apply (Seek_law l)|]. cbv beta. intros _ it1 Ho1.
  eapply wp_mono; [apply (collect_spec l fuel it1 (rank t l)); [done|apply rank_le|lia]|]. cbv beta. by rewrite drop_rank.
Qed.

(** ** An iterator over a list in memory *)

Record ListIterator := mkListIter { li_list : list kv; li_pos : nat }.
#[global] Instance List_Iterator : Iterator ListIterator := {
  it_Valid it := bool_decide (li_pos it < length (li_list it))%nat;
  it_key it := from_option fst [] (li_list it !! li_pos it);
  it_value it := from_option snd [] (li_list it !! li_pos it);
  it_Next := st_modify (fun it => mkListIter (li_list it) (S (li_pos it)));
  it_Seek t := st_modify (fun it => mkListIter (li_list it) (rank t (li_list it)));
  it_SeekToFirst := st_modify (fun it => mkListIter (li_list it) 0);
  it_status _ := OK
}.
#[global, refine] Instance List_Laws : IteratorLaws ListIterator := {
  over l it := li_list it = l;
  on l it i := li_list it = l /\ li_pos it = i
}.
Proof.
  - by intros l it i [? ?].
  - by intros l it i [<- <-].
  - intros l it i k v [<- <-] E. cbn. by rewrite E.
  - done.
  - by intros l it i [<- <-].
  - by intros l it <-.
  - by intros l it t <-.
Defined.

(** C20: The two-level iterator refines an iterator over the concatenation of
    the blocks, for all index and data iterators that keep the contract: a
    scan from the first entry returns every entry of every block in order,
    empty blocks included, and a scan from [Seek target] exactly the entries
    whose key is not before [target]; both end with an OK status. *)
Theorem two_level_refines {I D} `{IteratorLaws I} `{IteratorLaws D} (block_function : list Z -> outcome D) fuel
    (l idx : list kv) blk (t : @TwoLevelIterator I D) target n :
  lists_blocks block_function fuel l idx blk -> over idx (index_iter_ t) -> data_iter_ t = None -> ok (status_ t) = true ->
  StronglySorted kv_lt l -> (length l < n)%nat ->
  let it := TwoLevel_Iterator block_function fuel in
  wp (it_SeekToFirst ;;; collect n) t (fun r t' => r = l /\ ok (it_status t') = true) /\
  wp (it_Seek target ;;; collect n) t (fun r t' =>
    r = filter (fun p => ~ StringPiece.compare p.1 target < 0) l /\ ok (it_status t') = true).
Proof.
  intros Hl Ho Hd Hok Hs Hn it.
  assert (Ht : over (IteratorLaws := TwoLevel_Laws block_function fuel) l t).
  { exists idx, blk. split; [done|]. split; [done|]. split; [done|]. intros d. by rewrite Hd. }
  split; [by apply (scan_spec l)|by apply (scan_from_spec l)].
Qed.
Lemma two_level_refines_witness :
  let b1 := [([1], [10]); ([3], [30])] in let b3 := [([7], [70])] in
  let blk h := match h with [1] => b1 | [3] => b3 | _ => [] end in
  let idx := [([4], [1]); ([5], [2]); ([8], [3])] in
  let bf h := Done (mkListIter (blk h) 0) in
  let t := NewTwoLevelIterator (D := ListIterator) (mkListIter idx 0) in
  let it := TwoLevel_Iterator bf 5 in
  wp (it_SeekToFirst ;;; collect 9) t (fun r t' => r = b1 ++ b3 /\ ok (it_status t') = true) /\
  wp (it_Seek [2] ;;; collect 9) t (fun r t' => r = [([3], [30]); ([7], [70])] /\ ok (it_status t') = true).
Proof.
  intros b1 b3 blk idx bf t it.
  apply (two_level_refines bf 5 (b1 ++ b3) idx blk t [2] 9).
  - split; [|split; [reflexivity|cbn; lia]]. split.
    + repeat constructor.
    + intros i s h _. by eexists.
    + intros i s h p Hi Hp. destruct i as [|[|[|i]]]; simplify_eq/=; set_unfold in Hp; destruct_or? Hp; subst; done.
    + intros i j s h s' h' p Hi Hj Hij Hp. destruct j as [|[|[|j]]]; [lia| | |done]; simplify_eq/=; set_unfold in Hp; destruct_or? Hp; subst; try done.
      destruct i as [|[|i]]; [| |lia]; simplify_eq/=; done.
  - reflexivity.
  - reflexivity.
  - reflexivity.
  - repeat constructor.
  - cbn. lia.
Defined.
End TableIterator.
