(* ===== verification/TableFormat.v ===== *)
(** * Table file format

    [core/lib/io/format.cc]: block handles, the footer, and [ReadBlock], which
    reads a block back, checks its masked checksum and decompresses it. The
    files and the compression library are interfaces. *)
From S2P Require Import Prelude StringPiece Coding Crc32c Status.
Import Coding Status.

(** [RandomAccessFile::Read(offset, n, result, scratch)]: the status and the
    bytes of [*result]. *)
Class RandomAccessFile (F : Type) := { Read : F -> Z -> Z -> Status * list Z }.
(** A file with contents: a read inside the contents returns them. *)
Class RandomAccessLaws (F : Type) `{RandomAccessFile F} := {
  file_contents : F -> list Z;
  Read_law f off n : 0 <= off -> 0 <= n -> off + n <= zlength (file_contents f) ->
    Read f off n = (OK, take (Z.to_nat n) (drop (Z.to_nat off) (file_contents f)))
}.

(** The compression library: [port::Snappy_Compress], which may refuse, and
    [Snappy_GetUncompressedLength] followed by [Snappy_Uncompress]. *)
Class Snappy := {
  Snappy_Compress : list Z -> option (list Z);
  Snappy_GetUncompressedLength : list Z -> option Z;
  Snappy_Uncompress : list Z -> option (list Z)
}.
Class SnappyLaws `{Snappy} := {
  Snappy_roundtrip raw c : Snappy_Compress raw = Some c ->
    Snappy_GetUncompressedLength c = Some (zlength raw) /\ Snappy_Uncompress c = Some raw;
  Snappy_bytes raw c : is_bytes raw -> Snappy_Compress raw = Some c -> is_bytes c
}.

Module TableFormat.

(** ** Block handles and the footer *)

Record BlockHandle := mkHandle { offset_ : Z; size_ : Z }.
(** [~static_cast<uint64>(0)] *)
Definition unset : Z := 2 ^ 64 - 1.
Definition BlockHandle_new : BlockHandle := mkHandle unset unset.
Definition kMaxEncodedLength : Z := 10 + 10.

(** [None] is a failed [assert]. *)
Definition BlockHandle_EncodeTo (h : BlockHandle) (dst : list Z) : option (list Z) :=
  if offset_ h =? unset then None
  else if size_ h =? unset then None
  else Some (PutVarint64 (PutVarint64 dst (offset_ h)) (size_ h)).
(** The status, the handle and what is left of the input. A field whose varint
    is bad keeps its value. *)
Definition BlockHandle_DecodeFrom (h : BlockHandle) (input : list Z) : Status * BlockHandle * list Z :=
  match GetVarint64 input with
  | Some (off, input1) =>
      match GetVarint64 input1 with
      | Some (sz, input2) => (OK, mkHandle off sz, input2)
      | None => (DataLoss (bytes_of "bad block handle"), mkHandle off (size_ h), input1)
      end
  | None => (DataLoss (bytes_of "bad block handle"), h, input)
  end.

Record Footer := mkFooter { metaindex_handle_ : BlockHandle; index_handle_ : BlockHandle }.
Definition Footer_new : Footer := mkFooter BlockHandle_new BlockHandle_new.
Definition kEncodedLength : Z := 2 * kMaxEncodedLength + 8.
Definition kTableMagicNumber : Z := 0xdb4775248b80fb57.
Definition kBlockTrailerSize : Z := 5.

(** [string::resize(n)]: cut, or extended with null bytes. *)
Definition resize (n : Z) (s : list Z) : list Z :=
  take (Z.to_nat n) s ++ replicate (Z.to_nat (n - zlength s)) 0.

Definition Footer_EncodeTo (f : Footer) (dst : list Z) : option (list Z) :=
  let original_size := zlength dst in
  dst ← BlockHandle_EncodeTo (metaindex_handle_ f) dst;
  dst ← BlockHandle_EncodeTo (index_handle_ f) dst;
  let dst := resize (2 * kMaxEncodedLength) dst in
  let dst := PutFixed32 dst (u32 (Z.land kTableMagicNumber 0xffffffff)) in
  let dst := PutFixed32 dst (u32 (Z.shiftr kTableMagicNumber 32)) in
  if zlength dst =? original_size + kEncodedLength then Some dst else None.

(** [None]: the magic number is read outside the input. *)
Definition Footer_DecodeFrom (f : Footer) (input : list Z) : option (Status * Footer * list Z) :=
  let magic_ptr := Z.to_nat (kEncodedLength - 8) in
  magic_lo ← DecodeFixed32 (drop magic_ptr input);
  magic_hi ← DecodeFixed32 (drop (magic_ptr + 4) input);
  let magic := Z.lor (u64 (Z.shiftl magic_hi 32)) magic_lo in
  if negb (magic =? kTableMagicNumber) then
    Some (DataLoss (bytes_of "not an sstable (bad magic number)"), f, input)
  else
    let '(result, meta, input1) := BlockHandle_DecodeFrom (metaindex_handle_ f) input in
    if ok result then
      let '(result, index, input2) := BlockHandle_DecodeFrom (index_handle_ f) input1 in
      if ok result then Some (result, mkFooter meta index, drop (magic_ptr + 8) input)
      else Some (result, mkFooter meta index, input2)
    else Some (result, mkFooter meta (index_handle_ f), input1).

(** ** Blocks *)

Definition kNoCompression : Z := 0.
Definition kSnappyCompression : Z := 1.

Section Blocks.
Context {F : Type} `{RandomAccessFile F} `{Snappy}.

(** The status and the contents of the block; where the bytes live and whether
    they may be cached is not modelled. A read outside the bytes of the file
    aborts. *)
Definition ReadBlock (file : F) (handle : BlockHandle) : outcome (Status * list Z) :=
  let n := size_ handle in
  let '(s, contents) := Read file (offset_ handle) (u64 (n + kBlockTrailerSize)) in
  if negb (ok s) then Done (s, [])
  else if negb (zlength contents =? u64 (n + kBlockTrailerSize)) then Done (DataLoss (bytes_of "truncated block read"), [])
  else
    let data := contents in
    match DecodeFixed32 (drop (Z.to_nat (u64 (n + 1))) data) with
    | None => Aborts
    | Some masked =>
        let crc := Crc32c.Unmask masked in
        let actual := Crc32c.Value 0 (take (Z.to_nat (u64 (n + 1))) data) in
        if negb (actual =? crc) then Done (DataLoss (bytes_of "block checksum mismatch"), [])
        else
          match data !!z n with
          | None => Aborts
          | Some type =>
              let raw := take (Z.to_nat n) data in
              if type =? kNoCompression then Done (OK, raw)
              else if type =? kSnappyCompression then
                match Snappy_GetUncompressedLength raw with
                | None => Done (DataLoss (bytes_of "corrupted compressed block contents"), [])
                | Some _ =>
                    match Snappy_Uncompress raw with
                    | None => Done (DataLoss (bytes_of "corrupted compressed block contents"), [])
                    | Some ubuf => Done (OK, ubuf)
                    end
                end
              else Done (DataLoss (bytes_of "bad block type"), [])
          end
    end.
End Blocks.

(** What the builder writes for a block: contents, type, masked checksum. *)
Definition frame (contents : list Z) (type : Z) : list Z :=
  contents ++ [type] ++ EncodeFixed32 (Crc32c.Mask (Crc32c.Value 0 (contents ++ [type]))).

(** ** Handles *)

Definition handle_ok (h : BlockHandle) : Prop := 0 <= offset_ h < unset /\ 0 <= size_ h < unset.
Definition enc_handle (h : BlockHandle) : list Z := EncodeVarint64 (offset_ h) ++ EncodeVarint64 (size_ h).

Lemma EncodeTo_enc h dst : handle_ok h -> BlockHandle_EncodeTo h dst = Some (dst ++ enc_handle h).
Proof.
  intros [H1 H2]. unfold BlockHandle_EncodeTo, PutVarint64, enc_handle.
  destruct (Z.eqb_spec (offset_ h) unset); [lia|]. destruct (Z.eqb_spec (size_ h) unset); [lia|]. by rewrite app_assoc.
Qed.
Lemma DecodeFrom_enc h h0 rest : handle_ok h -> BlockHandle_DecodeFrom h0 (enc_handle h ++ rest) = (OK, h, rest).
Proof.
  intros [H1 H2]. unfold unset in *. unfold BlockHandle_DecodeFrom, enc_handle, GetVarint64.
  rewrite <- app_assoc, GetVarint64_enc by lia. rewrite GetVarint64_enc by lia. by destruct h.
Qed.
Lemma enc_handle_length h : handle_ok h -> 2 <= zlength (enc_handle h) <= 20 /\ is_bytes (enc_handle h).
Proof.
  intros [H1 H2]. unfold unset in *. unfold enc_handle. split.
  - destruct (VarintLength_loop_length 10 (offset_ h) 1 ltac:(lia) ltac:(cbn; lia)) as [_ ?].
    destruct (VarintLength_loop_length 10 (size_ h) 1 ltac:(lia) ltac:(cbn; lia)) as [_ ?].
    unfold EncodeVarint64, zlength in *. rewrite length_app. lia.
  - apply Forall_app. split; apply encoded_bytes; lia.
Qed.

(** ** The footer *)

Definition magic_bytes : list Z :=
  EncodeFixed32 (u32 (Z.land kTableMagicNumber 0xffffffff)) ++ EncodeFixed32 (u32 (Z.shiftr kTableMagicNumber 32)).
Definition enc_footer (f : Footer) : list Z :=
  resize (2 * kMaxEncodedLength) (enc_handle (metaindex_handle_ f) ++ enc_handle (index_handle_ f)) ++ magic_bytes.
Definition footer_ok (f : Footer) : Prop := handle_ok (metaindex_handle_ f) /\ handle_ok (index_handle_ f).

Lemma resize_length n s : 0 <= n -> length (resize n s) = Z.to_nat n.
Proof. intros Hn. unfold resize, zlength. rewrite length_app, length_take, length_replicate. lia. Qed.
Lemma resize_pad n s : zlength s <= n -> resize n s = s ++ replicate (Z.to_nat (n - zlength s)) 0.
Proof. intros Hn. unfold resize. by rewrite take_ge by (unfold zlength in *; lia). Qed.

Lemma Footer_EncodeTo_enc f dst : footer_ok f ->
  Footer_EncodeTo f dst = match dst with [] => Some (enc_footer f) | _ => None end.
Proof.
  intros [H1 H2]. unfold Footer_EncodeTo. rewrite EncodeTo_enc by done. cbn [mbind option_bind]. rewrite EncodeTo_enc by done.
  cbn [mbind option_bind]. set (d := resize _ _). unfold PutFixed32.
  assert (El : zlength ((d ++ EncodeFixed32 (u32 (Z.land kTableMagicNumber 4294967295))) ++ EncodeFixed32 (u32 (Z.shiftr kTableMagicNumber 32))) = 48).
  { unfold zlength. rewrite !length_app. unfold d. by rewrite resize_length by done. }
  rewrite El. change kEncodedLength with 48. destruct dst as [|x dst].
  - change (zlength []) with 0. cbn [Z.add]. rewrite Z.eqb_refl. f_equal. unfold enc_footer, magic_bytes, d. cbn [app]. by rewrite app_assoc.
  - destruct (Z.eqb_spec 48 (zlength (x :: dst) + 48)); [|done]. unfold zlength in *. cbn [length] in *. lia.
Qed.
Lemma enc_footer_length f : length (enc_footer f) = 48%nat.
Proof. unfold enc_footer. rewrite length_app, resize_length by done. done. Qed.
Lemma Footer_DecodeFrom_enc f f0 rest : footer_ok f -> Footer_DecodeFrom f0 (enc_footer f ++ rest) = Some (OK, f, rest).
Proof.
  intros [H1 H2]. unfold Footer_DecodeFrom. change (Z.to_nat (kEncodedLength - 8)) with 40%nat.
  set (d := resize (2 * kMaxEncodedLength) (enc_handle (metaindex_handle_ f) ++ enc_handle (index_handle_ f))).
  assert (Ed : length d = 40%nat) by (unfold d; by rewrite resize_length).
  assert (E : enc_footer f ++ rest = d ++ magic_bytes ++ rest) by (unfold enc_footer; by rewrite <- app_assoc).
  assert (E1 : drop 40 (enc_footer f ++ rest) = magic_bytes ++ rest) by (rewrite E, <- Ed; by rewrite drop_app_length).
  assert (E2 : drop (40 + 4) (enc_footer f ++ rest) = drop 4 (magic_bytes ++ rest)) by (rewrite <- E1, drop_drop; done).
  assert (E3 : drop (40 + 8) (enc_footer f ++ rest) = rest) by (rewrite <- (drop_drop _ 8 40), E1; done).
  rewrite E1, E2, E3. change (DecodeFixed32 (magic_bytes ++ rest)) with (DecodeFixed32 magic_bytes).
  change (DecodeFixed32 (drop 4 (magic_bytes ++ rest))) with (DecodeFixed32 (drop 4 magic_bytes)).
  change (DecodeFixed32 magic_bytes) with (Some 0x8b80fb57). change (DecodeFixed32 (drop 4 magic_bytes)) with (Some 0xdb477524).
  cbn [mbind option_bind].
  change (negb (Z.lor (u64 (Z.shiftl 0xdb477524 32)) 0x8b80fb57 =? kTableMagicNumber)) with false. cbn match.
  destruct (enc_handle_length _ H1), (enc_handle_length _ H2). rewrite E. unfold d. rewrite resize_pad by (unfold zlength in *; rewrite length_app; change (2 * kMaxEncodedLength) with 40; lia).
  rewrite <- !app_assoc, DecodeFrom_enc by done. cbn [ok OK state_]. rewrite DecodeFrom_enc by done. cbn [ok OK state_]. by destruct f.
Qed.

Lemma DecodeFixed32_cases p : (4 <= length p)%nat -> is_bytes p -> exists a b c d r,
  p = a :: b :: c :: d :: r /\ is_byte a /\ is_byte b /\ is_byte c /\ is_byte d /\
  DecodeFixed32 p = Some (a + b * 2 ^ 8 + c * 2 ^ 16 + d * 2 ^ 24).
Proof.
  intros Hl Hb. destruct p as [|a [|b [|c [|d r]]]]; try (cbn in Hl; lia).
  inversion_clear Hb as [|?? Ba Hb']. inversion_clear Hb' as [|?? Bb Hb]. inversion_clear Hb as [|?? Bc Hb']. inversion_clear Hb' as [|?? Bd _].
  exists a, b, c, d, r. split_and!; try done. cbn [DecodeFixed32]. by rewrite fixed32_value.
Qed.

(** Whatever the input, the magic number decides. *)
Lemma Footer_DecodeFrom_magic f0 input : 48 <= zlength input -> is_bytes input ->
  is_Some (Footer_DecodeFrom f0 input) /\
  (take 8 (drop 40 input) <> magic_bytes ->
   Footer_DecodeFrom f0 input = Some (DataLoss (bytes_of "not an sstable (bad magic number)"), f0, input)).
Proof.
  intros Hl Hb. unfold zlength in Hl. unfold Footer_DecodeFrom. change (Z.to_nat (kEncodedLength - 8)) with 40%nat.
  destruct (DecodeFixed32_cases (drop 40 input)) as (a & b & c & d & r & E & Ba & Bb & Bc & Bd & ->); [rewrite length_drop; lia|by apply Forall_drop|].
  assert (E2 : drop (40 + 4) input = r) by (by rewrite <- (drop_drop input 4 40), E).
  destruct (DecodeFixed32_cases (drop (40 + 4) input)) as (a' & b' & c' & d' & r' & E' & Ba' & Bb' & Bc' & Bd' & ->); [rewrite length_drop; lia|by apply Forall_drop|].
  cbn [mbind option_bind]. rewrite E2 in E'. set (lo := a + b * 2 ^ 8 + c * 2 ^ 16 + d * 2 ^ 24). set (hi := a' + b' * 2 ^ 8 + c' * 2 ^ 16 + d' * 2 ^ 24).
  unfold is_byte in *. assert (0 <= lo < 2 ^ 32 /\ 0 <= hi < 2 ^ 32) as [Hlo Hhi] by (unfold lo, hi; lia).
  assert (Em : Z.lor (u64 (Z.shiftl hi 32)) lo = lo + hi * 2 ^ 32).
  { rewrite Z.shiftl_mul_pow2, u64_id by lia. rewrite <- Z.shiftl_mul_pow2, Z.lor_comm, lor_add_shift by lia. by rewrite Z.shiftl_mul_pow2 by lia. }
  rewrite Em. split.
  - destruct (negb _); [by eexists|]. destruct (BlockHandle_DecodeFrom (metaindex_handle_ f0) input) as [[s1 h1] i1]. destruct (ok s1); [|by eexists].
    destruct (BlockHandle_DecodeFrom (index_handle_ f0) i1) as [[s2 h2] i2]. by destruct (ok s2); eexists.
  - intros Hne. destruct (Z.eqb_spec (lo + hi * 2 ^ 32) kTableMagicNumber) as [Heq|]; [|done]. exfalso. apply Hne.
    rewrite E, E'. cbn [take]. unfold kTableMagicNumber in Heq.
    assert (lo = 0x8b80fb57 /\ hi = 0xdb477524) as [E3 E4] by lia. unfold lo, hi in *.
    assert (d = 0x8b /\ c = 0x80 /\ b = 0xfb /\ a = 0x57) as (-> & -> & -> & ->) by lia.
    assert (d' = 0xdb /\ c' = 0x47 /\ b' = 0x75 /\ a' = 0x24) as (-> & -> & -> & ->) by lia. done.
Qed.

(** ** Reading a block *)

(** The stored type and contents of a raw block. *)
Definition stored `{Snappy} (raw c : list Z) (type : Z) : Prop :=
  (type = kNoCompression /\ c = raw) \/
  (type = kSnappyCompression /\ is_Some (Snappy_GetUncompressedLength c) /\ Snappy_Uncompress c = Some raw).

Section ReadFacts.
Context {F : Type} `{FL : RandomAccessLaws F} `{S : Snappy}.

(** The bytes at the handle are [c'], a type and the checksum of other bytes. *)
Definition block_at (f : F) (h : BlockHandle) (c : list Z) (type : Z) (sum : list Z) : Prop :=
  exists pre post, file_contents f = pre ++ c ++ [type] ++ EncodeFixed32 (Crc32c.Mask (Crc32c.Value 0 sum)) ++ post /\
    h = mkHandle (zlength pre) (zlength c) /\ zlength (file_contents f) < 2 ^ 64.

Lemma ReadBlock_at f h c type sum : block_at f h c type sum -> is_bytes sum -> is_bytes c -> is_byte type ->
  ReadBlock f h =
  if negb (Crc32c.Value 0 (c ++ [type]) =? Crc32c.Value 0 sum) then Done (DataLoss (bytes_of "block checksum mismatch"), [])
  else if type =? kNoCompression then Done (OK, c)
  else if type =? kSnappyCompression then
    match Snappy_GetUncompressedLength c with
    | None => Done (DataLoss (bytes_of "corrupted compressed block contents"), [])
    | Some _ => match Snappy_Uncompress c with
                | None => Done (DataLoss (bytes_of "corrupted compressed block contents"), [])
                | Some ubuf => Done (OK, ubuf)
                end
    end
  else Done (DataLoss (bytes_of "bad block type"), []).
Proof.
  intros (pre & post & E & -> & Hsz) Hsum Hc Ht. unfold ReadBlock. cbn [size_ offset_]. unfold kBlockTrailerSize.
  pose proof (Crc32c.Value_word 0 sum Hsum) as Hw.
  set (e := EncodeFixed32 (Crc32c.Mask (Crc32c.Value 0 sum))) in *. set (data := c ++ [type] ++ e).
  assert (Hdata : length data = (length c + 5)%nat) by (unfold data; rewrite !length_app; done).
  assert (Hf : file_contents f = pre ++ data ++ post) by (rewrite E; unfold data; by rewrite <- !app_assoc).
  assert (Hn : u64 (zlength c + 5) = zlength c + 5).
  { apply u64_id. rewrite Hf in Hsz. unfold zlength in *. rewrite !length_app in Hsz. lia. }
  assert (Hn1 : u64 (zlength c + 1) = zlength c + 1).
  { apply u64_id. rewrite Hf in Hsz. unfold zlength in *. rewrite !length_app in Hsz. lia. }
  rewrite Hn, Read_law by (rewrite ?Hf; unfold zlength in *; rewrite ?length_app; lia).
  assert (Hread : take (Z.to_nat (zlength c + 5)) (drop (Z.to_nat (zlength pre)) (file_contents f)) = data).
  { rewrite Hf. replace (Z.to_nat (zlength pre)) with (length pre) by (unfold zlength; lia). rewrite drop_app_length.
    replace (Z.to_nat (zlength c + 5)) with (length data) by (unfold zlength; lia). by rewrite take_app_length. }
  rewrite Hread. cbn [ok OK state_ negb]. replace (zlength data =? zlength c + 5) with true by (symmetry; apply Z.eqb_eq; unfold zlength; lia).
  cbn [negb]. rewrite Hn1. replace (Z.to_nat (zlength c + 1)) with (length (c ++ [type])) by (unfold zlength; rewrite length_app; cbn; lia).
  assert (Hd : data = (c ++ [type]) ++ e) by (unfold data; by rewrite <- app_assoc).
  assert (Ht' : data !!z zlength c = Some type).
  { unfold zlookup, zlength. destruct (Z.ltb_spec (Z.of_nat (length c)) 0); [lia|]. rewrite Nat2Z.id. unfold data.
    by rewrite lookup_app_r, Nat.sub_diag by lia. }
  rewrite Ht'. replace (take (Z.to_nat (zlength c)) data) with c
    by (unfold data, zlength; by rewrite Nat2Z.id, take_app_length).
  rewrite Hd, drop_app_length, take_app_length. unfold e. destruct (Crc32c.Mask_Unmask _ Hw) as (Hu & _ & Hm & _).
  rewrite <- (app_nil_r (EncodeFixed32 _)), EncodeFixed32_decode, Hu by done. done.
Qed.

Lemma ReadBlock_frame f h raw c type : block_at f h c type (c ++ [type]) -> is_bytes c -> stored raw c type ->
  ReadBlock f h = Done (OK, raw).
Proof.
  intros Hat Hc Hst. assert (Hb : is_byte type) by (destruct Hst as [[-> _]|[-> _]]; by split).
  assert (Hct : is_bytes (c ++ [type])) by (apply Forall_app; split; [done|by apply Forall_singleton]).
  rewrite (ReadBlock_at _ _ _ _ _ Hat Hct Hc Hb), Z.eqb_refl. cbn [negb].
  destruct Hst as [[-> ->]|(-> & [n Hn] & Hu)]; [done|]. cbn. by rewrite Hn, Hu.
Qed.

(** A burst of at most four bytes changed in the contents and the type. *)
Lemma ReadBlock_corrupt f h c type pre w w' post : c ++ [type] = pre ++ w' ++ post ->
  block_at f h c type (pre ++ w ++ post) -> is_bytes (pre ++ w ++ post) -> is_bytes (pre ++ w' ++ post) ->
  length w = length w' -> (length w <= 4)%nat -> w <> w' ->
  ReadBlock f h = Done (DataLoss (bytes_of "block checksum mismatch"), []).
Proof.
  intros E Hat Hb Hb' Hl H4 Hne. assert (Hct : is_bytes c /\ is_byte type).
  { rewrite <- E in Hb'. apply Forall_app in Hb' as [? Ht]. split; [done|]. by inversion Ht. }
  destruct Hct as [Hc Ht]. rewrite (ReadBlock_at _ _ _ _ _ Hat Hb Hc Ht), E.
  destruct (Z.eqb_spec (Crc32c.Value 0 (pre ++ w' ++ post)) (Crc32c.Value 0 (pre ++ w ++ post))) as [Heq|]; [|done].
  exfalso. unfold is_bytes in *. rewrite !Forall_app in Hb, Hb'. destruct Hb as (? & ? & ?), Hb' as (? & ? & ?).
  by apply (Crc32c.Value_burst 0 0 pre w w' post).
Qed.
(** The sum [n + kBlockTrailerSize] wraps: a few bytes are read, and the checksum
    is looked for before them. *)
Lemma ReadBlock_wraps f off size : 0 <= off -> 2 ^ 64 - 5 <= size < 2 ^ 64 - 1 -> off + (size - (2 ^ 64 - 5)) <= zlength (file_contents f) ->
  ReadBlock f (mkHandle off size) = Aborts.
Proof.
  intros Ho Hs Hl. unfold ReadBlock. cbn [size_ offset_]. unfold kBlockTrailerSize.
  assert (En : u64 (size + 5) = size - (2 ^ 64 - 5)) by (unfold u64; replace (size + 5) with (size - (2 ^ 64 - 5) + 1 * 2 ^ 64) by lia; rewrite Z.mod_add, Z.mod_small; lia).
  rewrite En, Read_law by lia. cbn [ok OK state_ negb]. set (data := take _ _).
  assert (El : zlength data <= 3) by (unfold data, zlength; rewrite length_take; lia). destruct (negb _) eqn:E.
  { apply negb_true_iff, Z.eqb_neq in E. exfalso. apply E. unfold data, zlength in *. rewrite length_take, length_drop. lia. }
  rewrite u64_id by lia. by rewrite drop_ge by (unfold zlength in El; lia).
Qed.
(** For the last size [n + 1] wraps too: the four bytes are taken for the checksum
    of no bytes; if they are, the type is read before them. *)
Lemma ReadBlock_wraps_last f off : 0 <= off -> off + 4 <= zlength (file_contents f) ->
  ReadBlock f (mkHandle off (2 ^ 64 - 1)) = Aborts \/ ReadBlock f (mkHandle off (2 ^ 64 - 1)) = Done (DataLoss (bytes_of "block checksum mismatch"), []).
Proof.
  intros Ho Hl. unfold ReadBlock. cbn [size_ offset_]. change (u64 (2 ^ 64 - 1 + kBlockTrailerSize)) with 4. change (u64 (2 ^ 64 - 1 + 1)) with 0.
  rewrite Read_law by lia. cbn [ok OK state_ negb]. set (data := take _ _).
  assert (El : length data = 4%nat) by (unfold data; rewrite length_take, length_drop; unfold zlength in Hl; lia).
  unfold zlength. rewrite El. change (negb (Z.of_nat 4 =? 4)) with false. cbv iota zeta. destruct (DecodeFixed32 _) as [m|]; [|by left]. destruct (negb _); [by right|left].
  assert (E : data !!z (2 ^ 64 - 1) = None) by (unfold zlookup; cbn [Z.ltb]; apply lookup_ge_None_2; rewrite El; lia). by rewrite E.
Qed.
End ReadFacts.

(** ** A file in memory, and the library without compression

    [port.cc] built without [SNAPPY]: the three functions return false. *)
#[global] Instance MemFile : RandomAccessFile (list Z) := {
  Read f off n :=
    let r := take (Z.to_nat n) (drop (Z.to_nat off) f) in
    (if zlength r =? n then OK else OutOfRange [], r)
}.
#[global, refine] Instance MemFile_Laws : RandomAccessLaws (list Z) := { file_contents f := f }.
Proof.
  intros f off n Ho Hn Hl. unfold Read, MemFile. destruct (Z.eqb_spec (zlength (take (Z.to_nat n) (drop (Z.to_nat off) f))) n) as [|Hne]; [done|].
  exfalso. apply Hne. unfold zlength in *. rewrite length_take, length_drop. lia.
Defined.
Definition NoSnappy : Snappy :=
  {| Snappy_Compress _ := None; Snappy_GetUncompressedLength _ := None; Snappy_Uncompress _ := None |}.

(** ** The properties *)

(** A footer whose handles are set is encoded in 48 bytes and decoded back,
    leaving the rest of the input; encoding into a non-empty buffer fails the
    assertion on the size; decoding 48 bytes or more never reads outside them,
    and refuses every other magic number. *)
Theorem footer_roundtrip f f0 rest : footer_ok f ->
  (exists e, Footer_EncodeTo f [] = Some e /\ zlength e = kEncodedLength /\ Footer_DecodeFrom f0 (e ++ rest) = Some (OK, f, rest)) /\
  (forall b dst, Footer_EncodeTo f (b :: dst) = None) /\
  (forall input, kEncodedLength <= zlength input -> is_bytes input ->
    is_Some (Footer_DecodeFrom f0 input) /\
    (take 8 (drop 40 input) <> magic_bytes ->
     Footer_DecodeFrom f0 input = Some (DataLoss (bytes_of "not an sstable (bad magic number)"), f0, input))).
Proof.
  intros Hf. split; [|split].
  - exists (enc_footer f). rewrite Footer_EncodeTo_enc by done. split; [done|]. split; [|by apply Footer_DecodeFrom_enc].
    unfold zlength. by rewrite enc_footer_length.
  - intros b dst. by rewrite Footer_EncodeTo_enc.
  - intros input Hl Hb. by apply Footer_DecodeFrom_magic.
Qed.
Lemma footer_roundtrip_witness :
  let f := mkFooter (mkHandle 1000 8) (mkHandle 1013 300) in
  exists e, Footer_EncodeTo f [] = Some e /\ zlength e = kEncodedLength /\ Footer_DecodeFrom Footer_new (e ++ [1; 2]) = Some (OK, f, [1; 2]).
Proof. intros f. apply (footer_roundtrip f Footer_new [1; 2]). split; split; cbn; unfold unset; lia. Defined.

(** C21: [ReadBlock] returns what a block stores: the bytes themselves, or what
    the compression library makes of them; any corruption of at most four
    consecutive bytes of the contents and the type is reported as a checksum
    mismatch, whatever the library. A handle that it should refuse, whose size is
    from [2^64 - 5] to [2^64 - 2], makes it read outside the bytes of the file if
    the file has the few bytes that the wrapped sum asks for; with the size
    [2^64 - 1] it takes four bytes of the file for the checksum of no bytes, and
    reports a mismatch or reads outside. *)
Theorem ReadBlock_integrity {F} `{RandomAccessLaws F} {Sn : Snappy} (f : F) h raw c type :
  block_at f h c type (c ++ [type]) -> is_bytes c -> stored raw c type ->
  ReadBlock f h = Done (OK, raw) /\
  (forall (f' : F) c' type' pre w w' post, c ++ [type] = pre ++ w ++ post -> c' ++ [type'] = pre ++ w' ++ post ->
    block_at f' h c' type' (c ++ [type]) -> is_bytes w' -> length w = length w' -> (length w <= 4)%nat -> w <> w' ->
    ReadBlock f' h = Done (DataLoss (bytes_of "block checksum mismatch"), [])) /\
  (forall off size, 0 <= off -> 2 ^ 64 - 5 <= size < 2 ^ 64 - 1 -> off + (size - (2 ^ 64 - 5)) <= zlength (file_contents f) ->
    ReadBlock f (mkHandle off size) = Aborts) /\
  (forall off, 0 <= off -> off + 4 <= zlength (file_contents f) ->
    ReadBlock f (mkHandle off (2 ^ 64 - 1)) = Aborts \/
    ReadBlock f (mkHandle off (2 ^ 64 - 1)) = Done (DataLoss (bytes_of "block checksum mismatch"), [])).
Proof.
  intros Hat Hc Hst. split; [by eapply ReadBlock_frame|]. split; [|by split; [apply ReadBlock_wraps|apply ReadBlock_wraps_last]].
  - intros f' c' type' pre w w' post E E' Hat' Hw Hl H4 Hne.
    assert (Hb : is_bytes (c ++ [type])).
    { apply Forall_app. split; [done|]. apply Forall_singleton. destruct Hst as [[-> _]|[-> _]]; by split. }
    rewrite E in Hat', Hb. eapply ReadBlock_corrupt; [exact E'|done..| |done|done|done].
    unfold is_bytes in *. rewrite !Forall_app in *. naive_solver.
Qed.
Lemma ReadBlock_integrity_witness :
  let c := [1; 2; 3; 4; 5; 6; 7] in let f := [9; 9] ++ frame c 0 in let h := mkHandle 2 7 in
  ReadBlock (H0 := NoSnappy) f h = Done (OK, c) /\
  ReadBlock (H0 := NoSnappy) ([9; 9; 1; 2; 3; 4; 0] ++ drop 7 f) h = Done (DataLoss (bytes_of "block checksum mismatch"), []).
Proof.
  intros c f h.
  destruct (ReadBlock_integrity (Sn := NoSnappy) f h c c 0) as (H1 & H2 & _).
  - exists [9; 9], []. split; [vm_compute; reflexivity|]. split; [reflexivity|vm_compute; reflexivity].
  - repeat constructor; lia.
  - left. split; reflexivity.
  - split; [exact H1|]. apply (H2 _ [1; 2; 3; 4; 0; 6; 7] 0 [1; 2; 3; 4] [5] [0] [6; 7; 0]); try reflexivity.
    + exists [9; 9], []. split; [vm_compute; reflexivity|]. split; [reflexivity|vm_compute; reflexivity].
    + repeat constructor; lia.
    + cbn. lia.
    + discriminate.
Defined.
End TableFormat.
