(* ===== verification/TableBuilder.v ===== *)
(** * Writing a table

    [core/lib/io/table_builder.cc]: pairs are added in key order to a data
    block; a full block is compressed, framed with its type and checksum and
    appended to the file, and one entry of the index block (a separator key
    and the handle of the block) is added when the next key is known. *)
From S2P Require Import Prelude StringPiece Coding Crc32c Status Block TableFormat.
Import Coding Status Block TableFormat.

(** [WritableFile::Append(data)]: the status and the new file. *)
Class WritableFile (W : Type) := { Append : list Z -> W -> Status * W }.
(** An append that succeeds adds its bytes at the end. *)
Class WritableLaws (W : Type) `{WritableFile W} := {
  written : W -> list Z;
  Append_law data w : ok (Append data w).1 = true -> written (Append data w).2 = written w ++ data
}.

Module TableBuilder.

(** ** Separators *)

(** [diff_index]: the length of the common prefix. *)
Fixpoint diff_index_loop (start limit : list Z) : nat :=
  match start, limit with
  | a :: start', b :: limit' => if a =? b then S (diff_index_loop start' limit') else O
  | _, _ => O
  end.
Definition FindShortestSeparator (start limit : list Z) : list Z :=
  let min_length := Nat.min (length start) (length limit) in
  let diff_index := diff_index_loop start limit in
  if (min_length <=? diff_index)%nat then start
  else
    match start !! diff_index, limit !! diff_index with
    | Some diff_byte, Some limit_byte =>
        if (diff_byte <? 0xff) && (diff_byte + 1 <? limit_byte)
        then take (diff_index + 1) (<[diff_index := diff_byte + 1]> start)
        else start
    | _, _ => start
    end.
(** The loop of [FindShortSuccessor] from byte [i]: the changed suffix. *)
Fixpoint FindShortSuccessor (key : list Z) : list Z :=
  match key with
  | [] => []
  | byte :: key' => if negb (byte =? 0xff) then [byte + 1] else byte :: FindShortSuccessor key'
  end.

(** ** The builder *)

Record Options := mkOptions { block_size : Z; block_restart_interval : Z; compression : Z }.

Section Builder.
Context {W : Type} `{WritableFile W} `{Sn : Snappy}.

Record Rep := mkRep {
  options : Options;
  index_block_options : Options;
  file : W;
  offset : Z;
  r_status : Status;
  data_block : BlockBuilder;
  index_block : BlockBuilder;
  last_key : list Z;
  num_entries : Z;
  closed : bool;
  pending_index_entry : bool;
  pending_handle : BlockHandle;
  compressed_output : list Z
}.
Definition B (A : Type) : Type := ST Rep A.

(** [Rep(opt, f)]; the constructors of the blocks assert on the interval. *)
Definition Rep_new (opt : Options) (f : W) : outcome Rep :=
  if 1 <=? block_restart_interval opt then
    Done (mkRep opt (mkOptions (block_size opt) 1 (compression opt)) f 0 OK BlockBuilder_new BlockBuilder_new []
            0 false false BlockHandle_new [])
  else Aborts.

Definition set_file_status f s r := mkRep (options r) (index_block_options r) f (offset r) s (data_block r) (index_block r)
  (last_key r) (num_entries r) (closed r) (pending_index_entry r) (pending_handle r) (compressed_output r).
Definition set_offset o r := mkRep (options r) (index_block_options r) (file r) o (r_status r) (data_block r) (index_block r)
  (last_key r) (num_entries r) (closed r) (pending_index_entry r) (pending_handle r) (compressed_output r).
Definition set_data_block b r := mkRep (options r) (index_block_options r) (file r) (offset r) (r_status r) b (index_block r)
  (last_key r) (num_entries r) (closed r) (pending_index_entry r) (pending_handle r) (compressed_output r).
Definition set_index_block b r := mkRep (options r) (index_block_options r) (file r) (offset r) (r_status r) (data_block r) b
  (last_key r) (num_entries r) (closed r) (pending_index_entry r) (pending_handle r) (compressed_output r).
Definition set_last_key k n r := mkRep (options r) (index_block_options r) (file r) (offset r) (r_status r) (data_block r) (index_block r)
  k n (closed r) (pending_index_entry r) (pending_handle r) (compressed_output r).
Definition set_closed r := mkRep (options r) (index_block_options r) (file r) (offset r) (r_status r) (data_block r) (index_block r)
  (last_key r) (num_entries r) true (pending_index_entry r) (pending_handle r) (compressed_output r).
Definition set_pending p r := mkRep (options r) (index_block_options r) (file r) (offset r) (r_status r) (data_block r) (index_block r)
  (last_key r) (num_entries r) (closed r) p (pending_handle r) (compressed_output r).
Definition set_pending_handle h r := mkRep (options r) (index_block_options r) (file r) (offset r) (r_status r) (data_block r) (index_block r)
  (last_key r) (num_entries r) (closed r) (pending_index_entry r) h (compressed_output r).
Definition set_compressed c r := mkRep (options r) (index_block_options r) (file r) (offset r) (r_status r) (data_block r) (index_block r)
  (last_key r) (num_entries r) (closed r) (pending_index_entry r) (pending_handle r) c.

(** [BlockBuilder::Add] with its assertions. *)
Definition block_Add (o : Options) (b : BlockBuilder) (key value : list Z) : outcome BlockBuilder :=
  if negb (finished_ b) && (counter_ b <=? block_restart_interval o)
     && (BlockBuilder_empty b || (0 <? StringPiece.compare key (last_key_ b)))
  then Done (BlockBuilder_Add (block_restart_interval o) b key value) else Aborts.

Definition is_ok : B bool := fun r => Done (ok (r_status r), r).
Definition do_Append (data : list Z) : B unit := fun r =>
  let '(s, f) := Append data (file r) in Done (tt, set_file_status f s r).

Definition WriteRawBlock (block_contents : list Z) (type : Z) : B BlockHandle :=
  let! r := st_get in
  let handle := mkHandle (offset r) (zlength block_contents) in
  do_Append block_contents ;;;
  let! o := is_ok in
  (if o then
     let crc := Crc32c.Value 0 block_contents in
     let crc := Crc32c.Extend 0 crc [type] in
     do_Append (type :: EncodeFixed32 (Crc32c.Mask crc)) ;;;
     let! o := is_ok in
     if o then st_modify (fun r => set_offset (u64 (offset r + u64 (zlength block_contents + kBlockTrailerSize))) r)
     else st_ret tt
   else st_ret tt) ;;;
  st_ret handle.

(** The finished block, its handle and the reset block; the caller owns the
    block ([data_block], [index_block] or the meta index block). *)
Definition WriteBlock (block : BlockBuilder) : B (BlockBuilder * BlockHandle) :=
  let! o := is_ok in
  st_check o ;;;
  let! r := st_get in
  let '(raw, block) := BlockBuilder_Finish block in
  let type := compression (options r) in
  let! p :=
    (if type =? kNoCompression then st_ret (raw, type)
     else if type =? kSnappyCompression then
       match Snappy_Compress raw with
       | Some compressed =>
           st_modify (set_compressed compressed) ;;;
           if zlength compressed <? zlength raw - zlength raw / 8 then st_ret (compressed, type)
           else st_ret (raw, kNoCompression)
       | None => st_ret (raw, kNoCompression)
       end
     else st_ret ([], type)) in
  let! handle := WriteRawBlock p.1 p.2 in
  st_modify (set_compressed []) ;;;
  st_ret (BlockBuilder_Reset block, handle).

Definition Flush : B unit :=
  let! r := st_get in
  st_check (negb (closed r)) ;;;
  if negb (ok (r_status r)) then st_ret tt
  else if BlockBuilder_empty (data_block r) then st_ret tt
  else
    st_check (negb (pending_index_entry r)) ;;;
    let! p := WriteBlock (data_block r) in
    st_modify (set_data_block p.1) ;;;
    st_modify (set_pending_handle p.2) ;;;
    let! o := is_ok in
    if o then st_modify (set_pending true) else st_ret tt.

(** The index entry of the block just flushed, under the key [k]. *)
Definition add_index_entry (k : list Z) : B unit :=
  let! r := st_get in
  let! handle_encoding := st_opt (BlockHandle_EncodeTo (pending_handle r) []) in
  let! b := st_outcome (block_Add (index_block_options r) (index_block r) k handle_encoding) in
  st_modify (set_last_key k (num_entries r)) ;;;
  st_modify (set_index_block b) ;;;
  st_modify (set_pending false).

Definition Add (key value : list Z) : B unit :=
  let! r := st_get in
  st_check (negb (closed r)) ;;;
  if negb (ok (r_status r)) then st_ret tt
  else
    (if 0 <? num_entries r then
       st_check (0 <? StringPiece.compare key (last_key r)) ;;;
       let this_entry_bytes := u64 (zlength key + zlength value) in
       if u64 (2 * block_size (options r)) <=? this_entry_bytes then Flush else st_ret tt
     else st_ret tt) ;;;
    let! r := st_get in
    (if pending_index_entry r then
       st_check (BlockBuilder_empty (data_block r)) ;;;
       add_index_entry (FindShortestSeparator (last_key r) key)
     else st_ret tt) ;;;
    let! r := st_get in
    st_modify (set_last_key key (s64 (num_entries r + 1))) ;;;
    let! b := st_outcome (block_Add (options r) (data_block r) key value) in
    st_modify (set_data_block b) ;;;
    let estimated_block_size := CurrentSizeEstimate b in
    if block_size (options r) <=? estimated_block_size then Flush else st_ret tt.

(** [if (ok()) ...] *)
Definition if_ok (m : B unit) : B unit := let! o := is_ok in if o then m else st_ret tt.

Definition Finish : B Status :=
  Flush ;;;
  let! r := st_get in
  st_check (negb (closed r)) ;;;
  st_modify set_closed ;;;
  let! metaindex_block_handle :=
    (let! o := is_ok in
     if o then
       st_check (1 <=? block_restart_interval (options r)) ;;;
       let! p := WriteBlock BlockBuilder_new in st_ret p.2
     else st_ret BlockHandle_new) in
  let! index_block_handle :=
    (let! o := is_ok in
     if o then
       let! r := st_get in
       (if pending_index_entry r then add_index_entry (FindShortSuccessor (last_key r)) else st_ret tt) ;;;
       let! r := st_get in
       let! p := WriteBlock (index_block r) in
       st_modify (set_index_block p.1) ;;;
       st_ret p.2
     else st_ret BlockHandle_new) in
  if_ok (
    let! footer_encoding := st_opt (Footer_EncodeTo (mkFooter metaindex_block_handle index_block_handle) []) in
    do_Append footer_encoding ;;;
    let! o := is_ok in
    if o then st_modify (fun r => set_offset (u64 (offset r + zlength footer_encoding)) r) else st_ret tt) ;;;
  let! r := st_get in
  st_ret (r_status r).

Definition Abandon : B unit :=
  let! r := st_get in
  st_check (negb (closed r)) ;;;
  st_modify set_closed.
Definition NumEntries (r : Rep) : Z := u64 (num_entries r).
Definition FileSize (r : Rep) : Z := offset r.

(** A client: all the pairs in order, then [Finish]. *)
Fixpoint AddAll (kvs : list (list Z * list Z)) : B unit :=
  match kvs with [] => st_ret tt | kv :: kvs' => Add kv.1 kv.2 ;;; AddAll kvs' end.
End Builder.
End TableBuilder.
