(* ===== verification/TableBuilderFacts.v ===== *)
(** * Writing a table: correctness

    The separators separate; every call of the builder keeps an invariant that
    relates its state, the file and the pairs added so far, no assertion
    fires, and a table finished without error is a table image: blocks, index
    and footer as the reader expects them. *)
From stdpp Require Import sorting.
From S2P Require Import Prelude StringPiece Coding Crc32c Status Block BlockFacts TableIterator TableFormat TableBuilder.
Import Coding Status Block BlockFacts TableFormat TableBuilder.

Module TableBuilderFacts.

Abbreviation kv := (list Z * list Z)%type.
Notation "a <k b" := (StringPiece.compare a b < 0) (at level 70) : tf_scope.
Notation "a <=k b" := (StringPiece.compare a b <= 0) (at level 70) : tf_scope.

(** ** Separators *)

Lemma diff_index_split start limit : let d := diff_index_loop start limit in
  (d <= length start)%nat /\ (d <= length limit)%nat /\ take d start = take d limit.
Proof.
  revert limit. induction start as [|a start IH]; intros [|b limit]; try (cbn; split_and!; lia || done).
  cbn [diff_index_loop]. destruct (Z.eqb_spec a b) as [->|]; [|cbn; split_and!; lia || done].
  destruct (IH limit) as (H1 & H2 & H3). cbn [length take]. split_and!; [lia|lia|by rewrite H3].
Qed.
Lemma compare_at p a x b y : a < b -> (p ++ a :: x) <k (p ++ b :: y).
Proof. intros Hab. rewrite StringPiece.compare_lex, StringPiece.lex_app_same, StringPiece.lex_lt by done. done. Qed.

Lemma separator_spec start limit : is_bytes start ->
  let s := FindShortestSeparator start limit in
  is_bytes s /\ (length s <= length start)%nat /\ (s = start \/ (start <k s /\ s <k limit)).
Proof.
  intros Hb s. unfold s, FindShortestSeparator. clear s. destruct (diff_index_split start limit) as (H1 & H2 & H3).
  set (d := diff_index_loop start limit) in *. destruct (_ <=? d)%nat; [by auto|].
  destruct (start !! d) as [a|] eqn:Ea; [|by auto]. destruct (limit !! d) as [b|] eqn:Eb; [|by auto].
  destruct (Z.ltb_spec a 255) as [Ha|]; [|by auto]. destruct (Z.ltb_spec (a + 1) b) as [Hab|]; [|by auto]. cbn [andb].
  assert (Es : take (d + 1) (<[d := a + 1]> start) = take d start ++ [a + 1]).
  { rewrite Nat.add_1_r, (take_S_r _ _ (a + 1)) by (apply list_lookup_insert_eq; by eapply lookup_lt_Some). by rewrite take_insert_ge. }
  rewrite Es. pose proof (proj1 (Forall_lookup _ _) Hb _ _ Ea) as Hba. unfold is_byte in Hba.
  split; [|split; [|right]].
  - apply Forall_app. split; [by apply Forall_take|]. apply Forall_singleton. unfold is_byte. lia.
  - rewrite length_app, length_take. cbn. apply lookup_lt_Some in Ea. lia.
  - split.
    + rewrite <- (take_drop_middle _ _ _ Ea) at 1. apply compare_at. lia.
    + pose proof (compare_at (take d limit) (a + 1) [] b (drop (S d) limit) Hab) as Hc.
      by rewrite (take_drop_middle _ _ _ Eb), <- H3 in Hc.
Qed.
Lemma successor_spec key : is_bytes key ->
  let s := FindShortSuccessor key in is_bytes s /\ (length s <= length key)%nat /\ key <=k s.
Proof.
  intros Hb. induction Hb as [|b key Hb Hk IH]; [by split_and!; [constructor|..]|]. cbn [FindShortSuccessor].
  destruct (Z.eqb_spec b 255) as [->|Hne]; cbn [negb].
  - destruct IH as (I1 & I2 & I3). split_and!; [by constructor|cbn; lia|].
    rewrite StringPiece.compare_lex in *. by rewrite StringPiece.lex_same.
  - unfold is_byte in Hb. split_and!; [apply Forall_singleton; unfold is_byte; lia|cbn; lia|].
    pose proof (compare_at [] b key (b + 1) [] ltac:(lia)) as Hlt. cbn in Hlt |- *. lia.
Qed.

(** ** The size and the state of a block under construction *)

Definition weight (p : kv) : Z := zlength p.1 + zlength p.2 + 64.
Fixpoint total (l : list kv) : Z := match l with [] => 0 | p :: l' => weight p + total l' end.
Definition last_of (l : list kv) : list Z := match last l with Some p => p.1 | None => [] end.

Lemma weight_pos p : 64 <= weight p.
Proof. unfold weight, zlength. lia. Qed.
Lemma total_app l l' : total (l ++ l') = total l + total l'.
Proof. induction l as [|p l IH]; cbn [total app]; lia. Qed.
Lemma total_nonneg l : 64 * zlength l <= total l.
Proof. unfold zlength. induction l as [|p l IH]; cbn [total length]; [lia|]. pose proof (weight_pos p). lia. Qed.
Lemma total_single p : total [p] = weight p.
Proof. cbn. lia. Qed.
Lemma last_of_snoc l p : last_of (l ++ [p]) = p.1.
Proof. unfold last_of. by rewrite last_snoc. Qed.

Lemma varint32_facts v : 0 <= v < 2 ^ 32 -> 1 <= zlength (EncodeVarint32 v) <= 5 /\ is_bytes (EncodeVarint32 v).
Proof.
  intros Hv. rewrite EncodeVarint32_loop by lia. split; [|apply encoded_bytes; lia].
  destruct (VarintLength_loop_length 5 v 1 ltac:(lia) ltac:(cbn; lia)) as [_ ?]. cbn in *. lia.
Qed.
Lemma fixed32_bytes v : is_bytes (EncodeFixed32 v).
Proof.
  assert (Hb : forall x, is_byte (Z.land x 255)).
  { intros x. unfold is_byte. rewrite land_255. pose proof (Z.mod_pos_bound x 256). lia. }
  repeat constructor; apply Hb.
Qed.
Lemma enc_facts s k v : (s <= length k)%nat -> small_kv (k, v) ->
  1 <= zlength (enc (Ent s k v)) <= zlength k + zlength v + 15 /\ is_bytes (enc (Ent s k v)).
Proof.
  intros Hs (Bk & Bv & Hk & Hv). cbn [fst snd] in *. unfold enc. cbn [e_shared e_key e_val].
  pose proof (zlength_nonneg k). pose proof (zlength_nonneg v). assert (Z.of_nat s <= zlength k) by (unfold zlength; lia).
  destruct (varint32_facts (Z.of_nat s) ltac:(lia)) as [? B1]. destruct (varint32_facts (zlength k - Z.of_nat s) ltac:(lia)) as [? B2].
  destruct (varint32_facts (zlength v) ltac:(lia)) as [? B3].
  assert (0 <= zlength (drop s k) <= zlength k) by (unfold zlength; rewrite length_drop; lia).
  split; [rewrite !zlength_app; lia|]. unfold is_bytes. rewrite !Forall_app. split_and!; try done. by apply Forall_drop.
Qed.

Record block_state (interval : Z) (b : BlockBuilder) (kvs : list kv) : Prop := {
  bk_finished : finished_ b = false;
  bk_counter : 0 <= counter_ b <= interval;
  bk_empty : BlockBuilder_empty b = bool_decide (kvs = []);
  bk_last : last_key_ b = last_of kvs;
  bk_size : zlength (buffer_ b) + 4 * zlength (restarts_ b) <= total kvs + 4;
  bk_bytes : is_bytes (buffer_ b)
}.
Lemma add_all_snoc interval kvs k v :
  add_all interval (kvs ++ [(k, v)]) = BlockBuilder_Add interval (add_all interval kvs) k v.
Proof. unfold add_all. by rewrite foldl_app. Qed.
Lemma add_all_state interval kvs : 1 <= interval -> Forall small_kv kvs -> block_state interval (add_all interval kvs) kvs.
Proof.
  intros Hi. induction kvs as [|[k v] kvs IH] using rev_ind; intros Hs; [split; [done|cbn; lia|done|done|by vm_compute|constructor]|].
  apply Forall_app in Hs as [Hs Hkv]. specialize (IH Hs). destruct IH as [I1 I2 I3 I4 I5 I6].
  rewrite Forall_singleton in Hkv. pose proof Hkv as (_ & _ & Hk & Hv). cbn [fst snd] in *.
  rewrite add_all_snoc. set (b := add_all interval kvs) in *.
  destruct (Add_entry interval b k v Hi Hk Hv) as (s & _ & S2 & _ & E1 & E2 & Hc). destruct (enc_facts s k v S2 Hkv) as [Hl Hb].
  assert (Hfin : finished_ (BlockBuilder_Add interval b k v) = finished_ b).
  { unfold BlockBuilder_Add. by destruct (counter_ b <? interval). }
  split.
  - by rewrite Hfin.
  - destruct Hc as [(? & _ & ->)|(? & _ & -> & _)]; lia.
  - rewrite bool_decide_false by (by destruct kvs). unfold BlockBuilder_empty. rewrite E1. apply bool_decide_false.
    intros Hn. apply app_eq_nil in Hn as [_ Hn]. rewrite Hn in Hl. unfold zlength at 1 in Hl. cbn [length] in Hl. lia.
  - by rewrite E2, last_of_snoc.
  - rewrite E1, zlength_app, total_app, total_single. unfold weight. cbn [fst snd].
    assert (zlength (restarts_ (BlockBuilder_Add interval b k v)) <= zlength (restarts_ b) + 1).
    { destruct Hc as [(_ & -> & _)|(_ & _ & _ & ->)]; [lia|]. rewrite zlength_app. change (zlength [_]) with 1. lia. }
    lia.
  - rewrite E1. by apply Forall_app.
Qed.

Lemma Finish_facts b : zlength (BlockBuilder_Finish b).1 = zlength (buffer_ b) + 4 * zlength (restarts_ b) + 4 /\
  (is_bytes (buffer_ b) -> is_bytes (BlockBuilder_Finish b).1).
Proof.
  unfold BlockBuilder_Finish. cbn [fst]. generalize (u32 (zlength (restarts_ b))), (buffer_ b). intros n.
  induction (restarts_ b) as [|r l IH]; intros acc; cbn [foldl].
  - unfold PutFixed32. rewrite zlength_app. change (zlength (EncodeFixed32 _)) with 4. change (zlength []) with 0.
    split; [lia|]. intros Hb. apply Forall_app. split; [done|apply fixed32_bytes].
  - destruct (IH (PutFixed32 acc r)) as [-> Hb]. unfold PutFixed32. rewrite zlength_app. change (zlength (EncodeFixed32 _)) with 4.
    split; [unfold zlength; cbn [length]; lia|]. intros Ha. apply Hb. apply Forall_app. split; [done|apply fixed32_bytes].
Qed.

(** The raw bytes of the block of [kvs]. *)
Definition raw_block (interval : Z) (kvs : list kv) : list Z := (BlockBuilder_Finish (add_all interval kvs)).1.
Lemma raw_block_facts interval kvs : 1 <= interval -> Forall small_kv kvs ->
  is_bytes (raw_block interval kvs) /\ 0 <= zlength (raw_block interval kvs) <= total kvs + 8.
Proof.
  intros Hi Hs. destruct (add_all_state interval kvs Hi Hs) as [_ _ _ _ Hsz Hb].
  destruct (Finish_facts (add_all interval kvs)) as [E Hb']. split; [unfold raw_block; auto|]. split; [apply zlength_nonneg|].
  unfold raw_block. rewrite E. lia.
Qed.

(** [Add] of the next key, with its assertions. *)
Lemma block_Add_next o kvs k v : 1 <= block_restart_interval o -> Forall small_kv kvs ->
  (forall p, p ∈ kvs -> p.1 <k k) ->
  block_Add o (add_all (block_restart_interval o) kvs) k v = Done (add_all (block_restart_interval o) (kvs ++ [(k, v)])).
Proof.
  intros Hi Hs Hlt. destruct (add_all_state _ kvs Hi Hs) as [H1 H2 H3 H4 _ _]. unfold block_Add. rewrite H1, H3, H4, add_all_snoc.
  destruct (Z.leb_spec (counter_ (add_all (block_restart_interval o) kvs)) (block_restart_interval o)); [|lia]. cbn [negb andb].
  case_bool_decide as Hn; [done|]. cbn [orb]. destruct (last kvs) as [p|] eqn:El; [|by apply last_None in El].
  unfold last_of. rewrite El. pose proof (Hlt p) as Hp. rewrite (StringPiece.compare_opp p.1 k).
  destruct (Z.ltb_spec 0 (- StringPiece.compare p.1 k)); [done|]. apply last_Some_elem_of in El. specialize (Hp El). lia.
Qed.

(** ** Writing a block *)

Section Writing.
Context {W : Type} `{WL : WritableLaws W} `{Sn : Snappy} {SL : SnappyLaws}.
Abbreviation R := (@Rep W).
Context (o : Options).
Hypothesis Hinterval : 1 <= TableBuilder.block_restart_interval o.
Hypothesis Hcompression : compression o = kNoCompression \/ compression o = kSnappyCompression.

(** The bytes of a stored block at its handle. *)
Definition stored_block (image : list Z) (h : BlockHandle) (raw : list Z) : Prop :=
  exists pre post c type, image = pre ++ frame c type ++ post /\ h = mkHandle (zlength pre) (zlength c) /\
    is_bytes c /\ stored raw c type.
Lemma stored_block_app image image' h raw : stored_block image h raw -> stored_block (image ++ image') h raw.
Proof.
  intros (pre & post & c & type & -> & ? & ? & ?). exists pre, (post ++ image'), c, type. by rewrite <- !app_assoc.
Qed.
Lemma frame_length c type : zlength (frame c type) = zlength c + 5.
Proof. unfold frame. rewrite !zlength_app. change (zlength (EncodeFixed32 _)) with 4. change (zlength [type]) with 1. lia. Qed.

(** A state after some writing: only the file, the offset and the status change. *)
Definition rewritten (r r' : R) : Prop :=
  exists f off s, r' = mkRep (options r) (index_block_options r) f off s (data_block r) (index_block r) (last_key r) (num_entries r)
    (closed r) (pending_index_entry r) (pending_handle r) [].

Lemma WriteRawBlock_spec (r : R) c type : ok (r_status r) = true -> offset r = zlength (written (file r)) ->
  zlength (written (file r)) + zlength c + 5 < 2 ^ 64 -> is_bytes c -> is_byte type ->
  wp (WriteRawBlock c type) r (fun h r' =>
    h = mkHandle (offset r) (zlength c) /\
    (exists f off s, r' = set_offset off (set_file_status f s r)) /\
    (ok (r_status r') = true -> written (file r') = written (file r) ++ frame c type /\ offset r' = zlength (written (file r')))).
Proof.
  intros Hok Hoff Hsz Hc Ht. unfold WriteRawBlock. do 2 wp_step. wp_step. unfold do_Append at 1. unfold wp at 1.
  destruct (Append c (file r)) as [s1 f1] eqn:E1. wp_step. unfold is_ok at 1. unfold wp at 1. cbn [r_status set_file_status].
  pose proof (Append_law c (file r)) as L1. rewrite E1 in L1. cbn [fst snd] in L1.
  destruct (ok s1) eqn:O1; wp_step.
  - wp_step. unfold do_Append, wp at 1. cbn [file set_file_status].
    assert (Ecrc : Crc32c.Extend 0 (Crc32c.Value 0 c) [type] = Crc32c.Value 0 (c ++ [type])).
    { unfold Crc32c.Value. rewrite (Crc32c.Extend_app 0 0 0); [done|by split|done|by apply Forall_singleton]. }
    rewrite Ecrc. set (trailer := type :: _). destruct (Append trailer f1) as [s2 f2] eqn:E2.
    pose proof (Append_law trailer f1) as L2. rewrite E2 in L2. cbn [fst snd] in L2.
    wp_step. unfold is_ok, wp at 1. cbn [r_status set_file_status]. destruct (ok s2) eqn:O2.
    + wp_step. wp_step. split; [done|]. split; [by eexists f2, _, s2|]. cbn [r_status set_offset set_file_status file offset]. intros _.
      rewrite (L2 eq_refl), (L1 eq_refl). assert (Ef : (written (file r) ++ c) ++ trailer = written (file r) ++ frame c type).
      { unfold trailer, frame. by rewrite <- app_assoc. }
      rewrite Ef. split; [done|]. rewrite zlength_app, frame_length. unfold kBlockTrailerSize.
      pose proof (zlength_nonneg c). pose proof (zlength_nonneg (written (file r))). rewrite Hoff, !u64_id by (rewrite ?u64_id by lia; lia). lia.
    + wp_step. wp_step. split; [done|]. split; [by exists f2, (offset r), s2|]. cbn [r_status set_file_status]. by rewrite O2.
  - wp_step. split; [done|]. split; [by exists f1, (offset r), s1|]. cbn [r_status set_file_status]. by rewrite O1.
Qed.

Lemma stored_at image c type raw : is_bytes c -> stored raw c type ->
  stored_block (image ++ frame c type) (mkHandle (zlength image) (zlength c)) raw.
Proof. intros Hc Hs. exists image, [], c, type. by rewrite app_nil_r. Qed.

Lemma WriteBlock_spec (r : R) b (raw := (BlockBuilder_Finish b).1) : ok (r_status r) = true -> options r = o ->
  offset r = zlength (written (file r)) -> zlength (written (file r)) + zlength raw + 5 < 2 ^ 63 -> is_bytes raw ->
  wp (WriteBlock b) r (fun p r' => p.1 = BlockBuilder_new /\ rewritten r r' /\
    (ok (r_status r') = true -> exists bytes, written (file r') = written (file r) ++ bytes /\ zlength bytes <= zlength raw + 5 /\
       offset r' = zlength (written (file r')) /\ handle_ok p.2 /\ stored_block (written (file r')) p.2 raw)).
Proof.
  intros Hok Ho Hoff Hsz Hraw. unfold WriteBlock. wp_step. unfold is_ok, wp at 1. rewrite Hok. do 2 wp_step; [done|]. do 2 wp_step.
  destruct (BlockBuilder_Finish b) as [raw' b'] eqn:Eb. cbn [fst] in raw. subst raw. rewrite Ho.
  pose proof (zlength_nonneg (written (file r))) as Hw. pose proof (zlength_nonneg raw') as Hr.
  assert (Hraw_block : forall (r1 : R) c type, (exists out, r1 = set_compressed out r) -> stored raw' c type -> is_bytes c -> zlength c <= zlength raw' ->
    wp (let! handle := WriteRawBlock c type in st_modify (set_compressed []) ;;; st_ret (BlockBuilder_Reset b', handle)) r1
      (fun p r' => p.1 = BlockBuilder_new /\ rewritten r r' /\
        (ok (r_status r') = true -> exists bytes, written (file r') = written (file r) ++ bytes /\ zlength bytes <= zlength raw' + 5 /\
           offset r' = zlength (written (file r')) /\ handle_ok p.2 /\ stored_block (written (file r')) p.2 raw'))).
  { intros r1 c type [out ->] Hs Hc Hl. pose proof (zlength_nonneg c). wp_step.
    eapply wp_mono; [apply WriteRawBlock_spec; try done; [cbn; lia|destruct Hs as [[-> _]|[-> _]]; by split]|].
    cbv beta. intros h r2 (-> & (f & off & s & ->) & Hpost). wp_step. wp_step. wp_step. split; [done|]. split; [by exists f, off, s|].
    cbn in Hpost |- *. intros Hok2. destruct (Hpost Hok2) as [Ef Eo]. exists (frame c type). rewrite frame_length.
    split; [done|]. split; [lia|]. split; [done|]. split; [|rewrite Ef, Hoff; by apply stored_at].
    unfold handle_ok, unset. cbn [offset_ size_]. lia. }
  assert (Hst0 : stored raw' raw' kNoCompression) by (by left).
  wp_step. destruct Hcompression as [->| ->].
  - change (kNoCompression =? kNoCompression) with true. cbn match. wp_step. apply Hraw_block; [exists (compressed_output r); by destruct r|done|done|cbn; lia].
  - change (kSnappyCompression =? kNoCompression) with false. change (kSnappyCompression =? kSnappyCompression) with true. cbn match.
    destruct (Snappy_Compress raw') as [c|] eqn:Ec; [|wp_step; apply Hraw_block; [exists (compressed_output r); by destruct r|done|done|cbn; lia]].
    destruct (Snappy_roundtrip _ _ Ec) as [Hgl Hun]. do 2 wp_step. destruct (Z.ltb_spec (zlength c) (zlength raw' - zlength raw' / 8)); wp_step.
    + apply Hraw_block; [by exists c| |by eapply Snappy_bytes|].
      * right. split; [done|]. split; [by eexists|done].
      * assert (0 <= zlength raw' / 8) by (apply Z.div_pos; lia). cbn. lia.
    + apply Hraw_block; [by exists c|done|done|cbn; lia].
Qed.

(** ** The invariant of the builder *)

Abbreviation interval := (TableBuilder.block_restart_interval o).
(** Block [b] is stored at [h]. *)
Definition block_stored (image : list Z) (h : BlockHandle) (b : list kv) : Prop :=
  handle_ok h /\ stored_block image h (raw_block interval b).
(** The index entries separate the blocks from each other and from the pairs
    [rest] that follow them. *)
Definition index_ok (idx : list kv) (blks : list (list kv)) (hs : list BlockHandle) (rest : list kv) : Prop :=
  forall i s e, idx !! i = Some (s, e) -> exists b h, blks !! i = Some b /\ hs !! i = Some h /\ e = enc_handle h /\
    (forall p, p ∈ b -> p.1 <=k s) /\ (forall p, p ∈ concat (drop (S i) blks) ++ rest -> s <k p.1).

Section Invariant.
(** The bytes of the file beyond those of the blocks. *)
Context (slack : Z).
Hypothesis Hslack : 0 <= slack <= 100.

(** [blks] are the blocks written at [hs], [cur] the pairs of the data block,
    [nxt] the pairs known to follow, [lk] the last key. *)
Record Inv (r : R) (blks : list (list kv)) (hs : list BlockHandle) (idx cur nxt : list kv) (lk : list Z) : Prop := {
  iv_opts : options r = o;
  iv_iopts : index_block_options r = mkOptions (block_size o) 1 (compression o);
  iv_ok : ok (r_status r) = true;
  iv_data : data_block r = add_all interval cur;
  iv_index : index_block r = add_all 1 idx;
  iv_off : offset r = zlength (written (file r));
  iv_stored : Forall2 (block_stored (written (file r))) hs blks;
  iv_ne : Forall (fun b => b <> []) blks;
  iv_num : num_entries r = zlength (concat blks ++ cur);
  iv_last : last_key r = lk;
  iv_size : zlength (written (file r)) <= 2 * total (concat blks) + slack;
  iv_isize : total idx <= 2 * total (concat (take (length idx) blks));
  iv_ismall : Forall small_kv idx;
  iv_idx : index_ok idx blks hs (cur ++ nxt);
  iv_pend : if pending_index_entry r
            then cur = [] /\ length blks = S (length idx) /\ last hs = Some (pending_handle r)
            else length idx = length blks;
  iv_small : Forall small_kv (concat blks ++ cur ++ nxt);
  iv_sorted : StronglySorted kv_lt (concat blks ++ cur ++ nxt);
  iv_total : total (concat blks ++ cur ++ nxt) < 2 ^ 30
}.
(** The state after a failed append. *)
Definition Failed (r : R) : Prop :=
  options r = o /\ ok (r_status r) = false /\ pending_index_entry r = false /\ data_block r = BlockBuilder_new.

Lemma sorted_before l l' p q : StronglySorted kv_lt (l ++ l') -> p ∈ l -> q ∈ l' -> p.1 <k q.1.
Proof. intros Hs Hp Hq. by apply (StronglySorted_app_1_elem_of _ _ _ p q Hs). Qed.

(** Between two calls of [Add], a block has been written or is being filled. *)
Definition stable (r : R) (blks : list (list kv)) (cur : list kv) : Prop := pending_index_entry r = false -> cur = [] -> blks = [].

(** The next pair is known. *)
Lemma Inv_next r blks hs idx cur lk k v : Inv r blks hs idx cur [] lk -> stable r blks cur -> small_kv (k, v) ->
  (forall p, p ∈ concat blks ++ cur -> p.1 <k k) -> total (concat blks ++ cur) + weight (k, v) < 2 ^ 30 ->
  Inv r blks hs idx cur [(k, v)] lk.
Proof.
  intros [I1 I2 I3 I4 I5 I6 I7 I8 I9 I10 I11 I12 I13 I14 I15 I16 I17 I18] Hstable Hkv Hlt Ht. rewrite app_nil_r in *. split; try done.
  - intros i s e Hi. destruct (I14 i s e Hi) as (b & h & Hb & Hh & He & Hle & Hs). exists b, h. split_and!; try done.
    intros p Hp. rewrite app_assoc, elem_of_app, list_elem_of_singleton in Hp. destruct Hp as [Hp| ->]; [by apply Hs|]. cbn [fst].
    assert (Hex : exists q, q ∈ concat (drop (S i) blks) ++ cur).
    { destruct cur as [|q cur']; [|exists q; set_solver]. pose proof (lookup_lt_Some _ _ _ Hi) as Hli.
      destruct (drop (S i) blks) as [|b' l] eqn:Ed.
      - apply (f_equal length) in Ed. rewrite length_drop in Ed. cbn in Ed. unfold stable in Hstable. destruct (pending_index_entry r); [lia|].
        by rewrite (Hstable eq_refl eq_refl) in Hb.
      - assert (Hne : b' <> []).
        { rewrite Forall_forall in I8. apply I8. eapply (list_elem_of_lookup_2 blks (S i + 0)). by rewrite <- lookup_drop, Ed. }
        destruct b' as [|q b']; [done|]. exists q. cbn. set_solver. }
    destruct Hex as [q Hq]. eapply StringPiece.compare_trans; [by apply Hs|]. apply Hlt.
    apply elem_of_app in Hq as [Hq|Hq]; apply elem_of_app; [left|by right].
    rewrite <- (take_drop (S i) blks), concat_app. apply elem_of_app. by right.
  - rewrite app_assoc. apply Forall_app. split; [done|]. by apply Forall_singleton.
  - rewrite app_assoc. apply StronglySorted_app_2; [|done|by repeat constructor].
    intros x1 x2 Hx ->%list_elem_of_singleton. by apply Hlt.
  - rewrite app_assoc, total_app, total_single. lia.
Qed.

Lemma block_stored_app image image' h b : block_stored image h b -> block_stored (image ++ image') h b.
Proof. intros [? ?]. split; [done|]. by apply stored_block_app. Qed.
Lemma concat_snoc {A} (l : list (list A)) x : concat (l ++ [x]) = concat l ++ x.
Proof. rewrite concat_app. cbn. by rewrite app_nil_r. Qed.
Lemma sub_small l1 l2 l3 : Forall small_kv (l1 ++ l2 ++ l3) -> Forall small_kv l1 /\ Forall small_kv l2 /\ Forall small_kv l3.
Proof. by rewrite !Forall_app. Qed.

(** The invariant once the data block has been written. *)
Lemma Inv_flushed r r1 blks hs idx cur nxt lk h bytes : Inv r blks hs idx cur nxt lk -> cur <> [] -> pending_index_entry r = false ->
  rewritten r r1 -> ok (r_status r1) = true -> written (file r1) = written (file r) ++ bytes -> zlength bytes <= total cur + 13 ->
  offset r1 = zlength (written (file r1)) -> block_stored (written (file r1)) h cur ->
  Inv (set_pending true (set_pending_handle h (set_data_block BlockBuilder_new r1))) (blks ++ [cur]) (hs ++ [h]) idx [] nxt lk.
Proof.
  intros [I1 I2 I3 I4 I5 I6 I7 I8 I9 I10 I11 I12 I13 I14 I15 I16 I17 I18] Hne Hp (f & off & s & ->) Hok Hw Hb Hoff Hst.
  cbn in Hok, Hw, Hoff, Hst. rewrite Hp in I15. rename I15 into Hlen.
  split; cbn [options index_block_options r_status data_block index_block offset file num_entries last_key pending_index_entry
    pending_handle set_pending set_pending_handle set_data_block]; try done.
  - apply Forall2_app; [|by constructor; [|constructor]]. eapply Forall2_impl; [exact I7|]. intros h' b' Hs. rewrite Hw. by apply block_stored_app.
  - apply Forall_app. split; [done|]. by apply Forall_singleton.
  - by rewrite concat_snoc, app_nil_r.
  - rewrite Hw, zlength_app, concat_snoc, total_app. pose proof (total_nonneg cur).
    assert (1 <= zlength cur) by (destruct cur; [done|unfold zlength; cbn; lia]). lia.
  - rewrite take_app_le by lia. done.
  - intros i s' e Hi. destruct (I14 i s' e Hi) as (b & h' & Eb & Eh & He & Hle & Hlt). exists b, h'.
    pose proof (lookup_lt_Some _ _ _ Hi) as Hil.
    split; [by apply lookup_app_l_Some|]. split; [by apply lookup_app_l_Some|]. split; [done|]. split; [done|].
    rewrite drop_app_le by lia. rewrite concat_snoc, <- app_assoc. done.
  - split; [done|]. rewrite length_app, last_snoc. cbn. split; [lia|done].
  - by rewrite concat_snoc, <- app_assoc.
  - by rewrite concat_snoc, <- app_assoc.
  - by rewrite concat_snoc, <- app_assoc.
Qed.

Lemma Flush_spec r blks hs idx cur nxt lk : Inv r blks hs idx cur nxt lk -> closed r = false ->
  wp Flush r (fun _ r' => closed r' = false /\ num_entries r' = num_entries r /\
    ((exists blks' hs', Inv r' blks' hs' idx [] nxt lk /\ concat blks' = concat blks ++ cur /\
        (stable r blks cur -> stable r' blks' [])) \/ Failed r')).
Proof.
  intros HI Hcl. pose proof HI as [I1 I2 I3 I4 I5 I6 I7 I8 I9 I10 I11 I12 I13 I14 I15 I16 I17 I18].
  apply sub_small in I16 as (_ & Hcur & _). destruct (add_all_state interval cur Hinterval Hcur) as [_ _ Hemp _ _ _].
  unfold Flush. do 4 wp_step; [by rewrite Hcl|]. rewrite I3. cbn [negb]. rewrite I4, Hemp. case_bool_decide as Hn.
  { subst cur. wp_step. split; [done|]. split; [done|]. left. exists blks, hs. rewrite app_nil_r. split_and!; try done. }
  assert (Hp : pending_index_entry r = false) by (destruct (pending_index_entry r); [by destruct I15|done]).
  do 2 wp_step; [by rewrite Hp|]. destruct (raw_block_facts interval cur Hinterval Hcur) as [Hraw Hsz].
  rewrite !total_app in I18. pose proof (total_nonneg nxt). pose proof (zlength_nonneg nxt). wp_step.
  pose proof (total_nonneg cur). pose proof (total_nonneg (concat blks)). pose proof (zlength_nonneg cur). pose proof (zlength_nonneg (concat blks)).
  eapply wp_mono; [apply WriteBlock_spec; try done; unfold raw_block in *; lia|].
  cbv beta. intros [b' h] r1 (Eb & Hrw & Hpost). cbn [fst snd] in *. subst b'. do 2 wp_step. wp_step. wp_step. wp_step.
  unfold is_ok, wp at 1. assert (Ec : closed r1 = false /\ num_entries r1 = num_entries r /\ options r1 = o /\ pending_index_entry r1 = false).
  { destruct Hrw as (f & off & s & ->). done. }
  destruct Ec as (Ec1 & Ec2 & Ec3 & Ec4). cbn [r_status set_pending_handle set_data_block].
  destruct (ok (r_status r1)) eqn:Hok; wp_step; (split; [done|]); (split; [done|]).
  - destruct (Hpost eq_refl) as (bytes & Hw & Hl & Hoff & Hh & Hst). left. exists (blks ++ [cur]), (hs ++ [h]). split; [|by rewrite concat_snoc].
    eapply Inv_flushed; try done. unfold raw_block in Hsz. lia.
  - right. done.
Qed.

(** The separator of the last block is added to the index. *)
Definition separates (k : list Z) (blks : list (list kv)) (nxt : list kv) : Prop :=
  is_bytes k /\ exists b, last blks = Some b /\ zlength k <= zlength (last_of b) /\ (forall p, p ∈ b -> p.1 <=k k) /\
    forall p, p ∈ nxt -> k <k p.1.

Lemma total_last b : b <> [] -> zlength (last_of b) + 64 <= total b.
Proof.
  intros Hb. destruct b as [|p l _] using rev_ind; [done|]. rewrite last_of_snoc, total_app, total_single. unfold weight.
  pose proof (total_nonneg l). pose proof (zlength_nonneg l). pose proof (zlength_nonneg p.2). lia.
Qed.
Lemma last_split {A} (l : list A) x : last l = Some x -> exists l', l = l' ++ [x].
Proof. intros Hl. apply last_Some in Hl as [l' ->]. by exists l'. Qed.

Lemma Inv_indexed r blks0 b hs0 h idx nxt lk k : Inv r (blks0 ++ [b]) (hs0 ++ [h]) idx [] nxt lk ->
  length blks0 = length idx -> length hs0 = length idx -> small_kv (k, enc_handle h) -> handle_ok h -> zlength k <= zlength (last_of b) ->
  (forall p, p ∈ b -> p.1 <=k k) -> (forall p, p ∈ nxt -> k <k p.1) ->
  Inv (set_pending false (set_index_block (add_all 1 (idx ++ [(k, enc_handle h)])) (set_last_key k (num_entries r) r)))
    (blks0 ++ [b]) (hs0 ++ [h]) (idx ++ [(k, enc_handle h)]) [] nxt k.
Proof.
  intros [I1 I2 I3 I4 I5 I6 I7 I8 I9 I10 I11 I12 I13 I14 I15 I16 I17 I18] Hlb Hlh Hsmall Hh Lk Hle Hlt.
  split; cbn [options index_block_options r_status data_block index_block offset file num_entries last_key pending_index_entry
    pending_handle set_pending set_index_block set_last_key]; try done.
  - rewrite total_app, total_single, length_app, take_ge by (rewrite length_app; cbn; lia). rewrite <- Hlb, take_app_length in I12.
    rewrite concat_snoc, total_app. destruct (enc_handle_length h Hh). apply Forall_app in I8 as [_ Hne]. rewrite Forall_singleton in Hne.
    pose proof (total_last b Hne). unfold weight. cbn [fst snd]. pose proof (zlength_nonneg k). lia.
  - apply Forall_app. split; [done|]. by apply Forall_singleton.
  - intros i s e Hi. apply lookup_app_Some in Hi as [Hi|[Hge Hi]]; [by apply (I14 i s e)|].
    apply list_lookup_singleton_Some in Hi as [Hi [= <- <-]]. assert (i = length idx) as -> by lia. exists b, h.
    split; [by rewrite <- Hlb, list_lookup_middle|]. split; [by rewrite <- Hlh, list_lookup_middle|]. split; [done|]. split; [done|].
    rewrite drop_ge by (rewrite length_app; cbn; lia). done.
  - rewrite !length_app. cbn. lia.
Qed.
Lemma add_index_entry_spec r blks hs idx nxt lk k : Inv r blks hs idx [] nxt lk -> pending_index_entry r = true -> separates k blks nxt ->
  wp (add_index_entry k) r (fun _ r' => closed r' = closed r /\ pending_index_entry r' = false /\
    Inv r' blks hs (idx ++ [(k, enc_handle (pending_handle r))]) [] nxt k).
Proof.
  intros HI Hp (Bk & b & Hb & Lk & Hle & Hlt). pose proof HI as [I1 I2 I3 I4 I5 I6 I7 I8 I9 I10 I11 I12 I13 I14 I15 I16 I17 I18].
  rewrite Hp in I15. destruct I15 as (_ & Hlen & Hlh). set (h := pending_handle r) in *.
  destruct (last_split _ _ Hb) as [blks0 ->]. destruct (last_split _ _ Hlh) as [hs0 ->].
  rewrite length_app in Hlen. cbn in Hlen. assert (Hl0 : length blks0 = length idx) by lia.
  apply Forall2_app_inv_l in I7 as (b1 & b2 & S1 & S2 & Eb).
  assert (length hs0 = length blks0) as Hlhs.
  { apply Forall2_length in S1, S2. apply (f_equal length) in Eb. rewrite !length_app in Eb. cbn in *. lia. }
  apply app_inj_1 in Eb as [<- <-]; [|apply Forall2_length in S1; lia]. rewrite Forall2_cons in S2. destruct S2 as [[Hh Hsh] _].
  assert (Hsmall : small_kv (k, enc_handle h)).
  { destruct (enc_handle_length h Hh) as [? ?]. split_and!; cbn [fst snd]; try done; [|lia].
    rewrite !concat_snoc, !total_app in I18. pose proof (total_nonneg (concat blks0)). pose proof (zlength_nonneg (concat blks0)).
    apply Forall_app in I8 as [_ Hne]. rewrite Forall_singleton in Hne. pose proof (total_last b Hne). pose proof (total_nonneg nxt). pose proof (zlength_nonneg nxt). cbn in I18. lia. }
  assert (Hidx_lt : forall p, p ∈ idx -> p.1 <k k).
  { intros [s e] Hin. apply list_elem_of_lookup in Hin as [i Hi]. destruct (I14 i s e Hi) as (b' & h' & _ & _ & _ & _ & Hs).
    apply Forall_app in I8 as [_ Hne]. rewrite Forall_singleton in Hne. destruct b as [|q b]; [done|].
    eapply StringPiece.compare_lt_le; [apply (Hs q)|apply Hle; set_solver]. apply lookup_lt_Some in Hi.
    rewrite drop_app_le, concat_snoc by lia. set_solver. }
  unfold add_index_entry. do 2 wp_step. wp_step. fold h. eapply wp_opt; [apply (EncodeTo_enc h [] Hh)|].
  cbn [app]. rewrite I2, I5. wp_step. pose proof (block_Add_next (mkOptions (block_size o) 1 (compression o)) idx k (enc_handle h)) as HA.
  cbn [TableBuilder.block_restart_interval] in HA. rewrite HA by done. unfold wp at 1. cbn [st_outcome]. do 2 wp_step. wp_step. wp_step. wp_step.
  split; [done|]. split; [done|]. apply (Inv_indexed r blks0 b hs0 h idx nxt lk); done || lia.
Qed.

(** The three parts of [Add]. *)
Lemma Add_flush_part r blks hs idx cur k v lk : Inv r blks hs idx cur [(k, v)] lk -> lk = last_of (concat blks ++ cur) -> closed r = false ->
  wp (if 0 <? num_entries r then
        st_check (0 <? StringPiece.compare k (last_key r)) ;;;
        if u64 (2 * TableBuilder.block_size (options r)) <=? u64 (zlength k + zlength v) then Flush else st_ret tt
      else st_ret tt) r
    (fun _ r1 => closed r1 = false /\
       ((exists blks1 hs1 cur1, Inv r1 blks1 hs1 idx cur1 [(k, v)] lk /\ concat blks1 ++ cur1 = concat blks ++ cur) \/ Failed r1)).
Proof.
  intros HI -> Hcl. pose proof HI as [_ _ _ _ _ _ _ _ I9 I10 _ _ _ _ _ _ I17 _].
  assert (Hid : closed r = false /\ ((exists blks1 hs1 cur1, Inv r blks1 hs1 idx cur1 [(k, v)] (last_of (concat blks ++ cur)) /\
    concat blks1 ++ cur1 = concat blks ++ cur) \/ Failed r)).
  { split; [done|]. left. by exists blks, hs, cur. }
  destruct (Z.ltb_spec 0 (num_entries r)) as [Hn|]; [|by wp_step].
  assert (Hlt : 0 < StringPiece.compare k (last_key r)).
  { rewrite I10, (StringPiece.compare_opp (last_of _) k). rewrite app_assoc in I17.
    destruct (concat blks ++ cur) as [|p l _] eqn:E using rev_ind; [rewrite I9 in Hn; done|].
    rewrite last_of_snoc. pose proof (sorted_before _ _ p (k, v) I17) as Hlt. cbn [fst] in Hlt.
    assert (p.1 <k k) by (apply Hlt; set_solver). lia. }
  do 2 wp_step; [by apply Z.ltb_lt|]. destruct (_ <=? _); [|by wp_step].
  eapply wp_mono; [by eapply Flush_spec|]. cbv beta. intros _ r1 (Hc1 & _ & [(blks' & hs' & HI' & E & _)|Hf]); (split; [done|]); [|by right].
  left. exists blks', hs', []. by rewrite app_nil_r.
Qed.

Lemma separator_separates r blks hs idx k v lk : Inv r blks hs idx [] [(k, v)] lk -> lk = last_of (concat blks) -> blks <> [] ->
  separates (FindShortestSeparator lk k) blks [(k, v)].
Proof.
  intros [I1 I2 I3 I4 I5 I6 I7 I8 I9 I10 I11 I12 I13 I14 I15 I16 I17 I18] -> Hne.
  destruct blks as [|b blks _] using rev_ind; [done|]. apply Forall_app in I8 as [_ Hb]. rewrite Forall_singleton in Hb.
  rewrite concat_snoc in I16, I17. cbn [app] in I17. destruct b as [|p b _] using rev_ind; [done|].
  replace (last_of (concat (blks ++ [b ++ [p]]))) with p.1 by (by rewrite concat_snoc, app_assoc, last_of_snoc).
  apply sub_small in I16 as (Hs & _ & _). rewrite !Forall_app, Forall_singleton in Hs. destruct Hs as (_ & _ & Bp & _).
  destruct (separator_spec p.1 k Bp) as (S1 & S2 & S3).
  assert (Hpk : p.1 <k k).
  { apply (sorted_before (concat blks ++ b ++ [p]) [(k, v)] p (k, v)); [done|set_solver|set_solver]. }
  assert (Hps : p.1 <=k FindShortestSeparator p.1 k) by (destruct S3 as [->|[? _]]; [rewrite StringPiece.compare_refl; lia|lia]).
  split; [done|]. exists (b ++ [p]). split; [by rewrite last_snoc|]. rewrite last_of_snoc. split; [unfold zlength; lia|]. split.
  - intros q [Hq| ->%list_elem_of_singleton]%elem_of_app; [|done].
    eapply StringPiece.compare_le_trans; [|exact Hps]. apply Z.lt_le_incl.
    apply StronglySorted_app_1_l, StronglySorted_app_1_r in I17. apply (sorted_before b [p] q p I17); set_solver.
  - intros q ->%list_elem_of_singleton. cbn. destruct S3 as [->|[_ ?]]; done.
Qed.

Lemma Inv_push r blks hs idx cur k v lk : Inv r blks hs idx cur [(k, v)] lk -> pending_index_entry r = false ->
  Inv (set_data_block (add_all interval (cur ++ [(k, v)])) (set_last_key k (s64 (num_entries r + 1)) r)) blks hs idx (cur ++ [(k, v)]) [] k.
Proof.
  intros [I1 I2 I3 I4 I5 I6 I7 I8 I9 I10 I11 I12 I13 I14 I15 I16 I17 I18] Hp. rewrite Hp in I15.
  split; cbn [options index_block_options r_status data_block index_block offset file num_entries last_key pending_index_entry
    pending_handle set_data_block set_last_key]; try done; try (by rewrite app_nil_r).
  - pose proof (total_nonneg (concat blks ++ cur)). rewrite (app_assoc (concat blks) cur), total_app, total_single in I18.
    pose proof (weight_pos (k, v)). rewrite I9, s64_id by (pose proof (zlength_nonneg (concat blks ++ cur)); lia).
    rewrite (app_assoc (concat blks)), (zlength_app _ [_]). done.
  - by rewrite Hp.
Qed.

Lemma Add_push_part r blks hs idx cur k v lk : Inv r blks hs idx cur [(k, v)] lk -> pending_index_entry r = false -> closed r = false ->
  wp (st_modify (set_last_key k (s64 (num_entries r + 1))) ;;;
      let! b := st_outcome (block_Add (options r) (data_block r) k v) in
      st_modify (set_data_block b) ;;;
      if TableBuilder.block_size (options r) <=? CurrentSizeEstimate b then Flush else st_ret tt) r
    (fun _ r' => closed r' = false /\
       ((exists blks' hs' cur', Inv r' blks' hs' idx cur' [] k /\ stable r' blks' cur' /\ concat blks' ++ cur' = concat blks ++ cur ++ [(k, v)]) \/
        ok (r_status r') = false)).
Proof.
  intros HI Hp Hcl. pose proof (Inv_push _ _ _ _ _ _ _ _ HI Hp) as HI'. pose proof HI as [I1 I2 I3 I4 I5 I6 I7 I8 I9 I10 I11 I12 I13 I14 I15 I16 I17 I18].
  destruct (sub_small _ _ _ I16) as (_ & Hs & _). apply StronglySorted_app_1_r in I17. do 2 wp_step. wp_step. rewrite I1, I4.
  rewrite block_Add_next; [|done|done|intros p Hp'; apply (sorted_before cur [(k, v)] p (k, v) I17); set_solver].
  unfold wp at 1. cbn [st_outcome]. do 2 wp_step. set (r3 := set_data_block _ _) in *.
  assert (Hst : stable r3 blks (cur ++ [(k, v)])) by (intros _ Hn; by destruct cur).
  destruct (_ <=? _).
  - eapply wp_mono; [by eapply Flush_spec|]. cbv beta. intros _ r' (Hc & _ & [(blks' & hs' & HI2 & E & Hst2)|(_ & Hf & _)]); (split; [done|]); [left|by right].
    exists blks', hs', []. rewrite app_nil_r. split; [done|]. split; [by apply Hst2|done].
  - wp_step. split; [done|]. left. by exists blks, hs, (cur ++ [(k, v)]).
Qed.

Lemma Failed_push r k v : Failed r -> closed r = false -> small_kv (k, v) ->
  wp (st_modify (set_last_key k (s64 (num_entries r + 1))) ;;;
      let! b := st_outcome (block_Add (options r) (data_block r) k v) in
      st_modify (set_data_block b) ;;;
      if TableBuilder.block_size (options r) <=? CurrentSizeEstimate b then Flush else st_ret tt) r
    (fun _ r' => closed r' = false /\ ok (r_status r') = false).
Proof.
  intros (F1 & F2 & F3 & F4) Hcl Hs. do 2 wp_step. wp_step. rewrite F1, F4. change BlockBuilder_new with (add_all interval []).
  rewrite block_Add_next; [|done|constructor|intros p Hp; set_solver]. unfold wp at 1. cbn [st_outcome]. do 2 wp_step.
  set (r3 := set_data_block _ _). assert (Hok : ok (r_status r3) = false) by done.
  destruct (_ <=? _); [|by wp_step]. unfold Flush. do 4 wp_step; [by change (closed r3) with (closed r); rewrite Hcl|]. rewrite Hok. by wp_step.
Qed.

Lemma Add_spec r blks hs idx cur k v : Inv r blks hs idx cur [] (last_of (concat blks ++ cur)) -> stable r blks cur -> closed r = false ->
  small_kv (k, v) -> (forall p, p ∈ concat blks ++ cur -> p.1 <k k) -> total (concat blks ++ cur) + weight (k, v) < 2 ^ 30 ->
  wp (Add k v) r (fun _ r' => closed r' = false /\
    ((exists blks' hs' idx' cur', Inv r' blks' hs' idx' cur' [] k /\ stable r' blks' cur' /\
        concat blks' ++ cur' = (concat blks ++ cur) ++ [(k, v)]) \/ ok (r_status r') = false)).
Proof.
  intros HI Hst Hcl Hs Hlt Ht. pose proof (Inv_next _ _ _ _ _ _ _ _ HI Hst Hs Hlt Ht) as HI1.
  unfold Add. do 4 wp_step; [by rewrite Hcl|]. rewrite (iv_ok _ _ _ _ _ _ _ HI). cbn [negb]. wp_step.
  eapply wp_mono; [by eapply Add_flush_part|]. cbv beta. intros _ r1 (Hc1 & Hcase). do 2 wp_step. wp_step.
  assert (Hmid : wp (if pending_index_entry r1 then
      st_check (BlockBuilder_empty (data_block r1)) ;;; add_index_entry (FindShortestSeparator (last_key r1) k) else st_ret tt) r1
    (fun _ r2 => closed r2 = false /\ ((exists blks2 hs2 idx2 cur2 lk2, Inv r2 blks2 hs2 idx2 cur2 [(k, v)] lk2 /\ pending_index_entry r2 = false /\
        concat blks2 ++ cur2 = concat blks ++ cur) \/ Failed r2))).
  { destruct Hcase as [(blks1 & hs1 & cur1 & HI2 & E)|HF]; [|rewrite (proj1 (proj2 (proj2 HF))); wp_step; by auto].
    destruct (pending_index_entry r1) eqn:Hp; [|wp_step; split; [done|]; left; by exists blks1, hs1, idx, cur1, (last_of (concat blks ++ cur))].
    pose proof (iv_pend _ _ _ _ _ _ _ HI2) as Hpend. rewrite Hp in Hpend. destruct Hpend as (-> & Hlen & _).
    do 2 wp_step; [by rewrite (iv_data _ _ _ _ _ _ _ HI2)|]. rewrite (iv_last _ _ _ _ _ _ _ HI2).
    eapply wp_mono; [eapply add_index_entry_spec; [done|done|eapply separator_separates; [done|by rewrite <- E, app_nil_r|by intros ->]]|].
    cbv beta. intros _ r2 (Hc2 & Hp2 & HI3). rewrite Hc2. split; [done|]. left. by eexists _, _, _, _, _. }
  eapply wp_mono; [exact Hmid|]. cbv beta. intros _ r2 (Hc2 & [(blks2 & hs2 & idx2 & cur2 & lk2 & HI3 & Hp2 & E)|HF]); do 2 wp_step.
  - eapply wp_mono; [by eapply Add_push_part|]. cbv beta. intros _ r' (Hc3 & [(blks3 & hs3 & cur3 & HI4 & Hst4 & E4)|?]); (split; [done|]); [left|by right].
    exists blks3, hs3, idx2, cur3. split; [done|]. split; [done|]. by rewrite E4, app_assoc, E.
  - eapply wp_mono; [by apply (Failed_push r2 k v)|]. cbv beta. intros _ r' [? ?]. split; [done|by right].
Qed.
End Invariant.

(** ** From the constructor to [Finish] *)

Lemma Rep_new_Inv w r : Rep_new o w = Done r -> written w = [] -> Inv 0 r [] [] [] [] [] [] /\ stable r [] [] /\ closed r = false.
Proof.
  unfold Rep_new. destruct (1 <=? interval); [|done]. intros [= <-] Hw. split; [|done].
  split; cbn; try done; try constructor; rewrite ?Hw; done || lia.
Qed.

Lemma AddAll_failed l r : closed r = false -> ok (r_status r) = false -> wp (AddAll l) r (fun _ r' => r' = r).
Proof.
  intros Hc Hf. induction l as [|p l IH]; [done|]. cbn [AddAll]. wp_step. unfold Add. do 4 wp_step; [by rewrite Hc|].
  rewrite Hf. by wp_step.
Qed.
Lemma AddAll_spec l : forall r blks hs idx cur, Inv 0 r blks hs idx cur [] (last_of (concat blks ++ cur)) -> stable r blks cur -> closed r = false ->
  Forall small_kv l -> StronglySorted kv_lt ((concat blks ++ cur) ++ l) -> total ((concat blks ++ cur) ++ l) < 2 ^ 30 ->
  wp (AddAll l) r (fun _ r' => closed r' = false /\
    ((exists blks' hs' idx' cur', Inv 0 r' blks' hs' idx' cur' [] (last_of (concat blks' ++ cur')) /\ stable r' blks' cur' /\
        concat blks' ++ cur' = (concat blks ++ cur) ++ l) \/ ok (r_status r') = false)).
Proof.
  induction l as [|[k v] l IH]; intros r blks hs idx cur HI Hst Hcl Hs Hsort Ht.
  { cbn [AddAll]. wp_step. split; [done|]. left. exists blks, hs, idx, cur. by rewrite app_nil_r. }
  inversion_clear Hs as [|?? Hkv Hs']. cbn [AddAll fst snd]. wp_step. pose proof (total_nonneg l). pose proof (zlength_nonneg l).
  assert (Hsplit : (concat blks ++ cur) ++ (k, v) :: l = ((concat blks ++ cur) ++ [(k, v)]) ++ l) by (by rewrite <- (app_assoc (concat blks ++ cur) [(k, v)] l)).
  rewrite Hsplit in *. eapply wp_mono; [eapply (Add_spec 0 ltac:(lia) r blks hs idx cur k v); try done|].
  - intros p Hp. apply StronglySorted_app_1_l in Hsort. apply (sorted_before _ _ p (k, v) Hsort Hp). set_solver.
  - rewrite !total_app, total_single in Ht. rewrite total_app. lia.
  - cbv beta. intros _ r1 (Hc1 & [(blks1 & hs1 & idx1 & cur1 & HI1 & Hst1 & E)|Hf]).
    + rewrite <- E in *. apply (IH r1 blks1 hs1 idx1 cur1); try done. by rewrite E, last_of_snoc.
    + eapply wp_mono; [by apply AddAll_failed|]. cbv beta. intros _ r2 ->. split; [done|by right].
Qed.

(** The image of a table: what [Finish] leaves in the file. *)
Definition TableImage (image : list Z) (kvs : list kv) : Prop :=
  exists blks hs idx hm hi pre,
    kvs = concat blks /\ image = pre ++ enc_footer (mkFooter hm hi) /\ footer_ok (mkFooter hm hi) /\
    Forall2 (block_stored image) hs blks /\ Forall (fun b => b <> []) blks /\
    length idx = length blks /\ index_ok idx blks hs [] /\ Forall small_kv idx /\ total idx <= 2 * total kvs /\
    stored_block image hi (raw_block 1 idx) /\ zlength image < 2 ^ 33.

Lemma Inv_rewritten sl sl' r r' blks hs idx cur nxt lk bytes : Inv sl r blks hs idx cur nxt lk -> rewritten r r' ->
  ok (r_status r') = true -> written (file r') = written (file r) ++ bytes -> zlength bytes + sl <= sl' ->
  offset r' = zlength (written (file r')) -> Inv sl' r' blks hs idx cur nxt lk.
Proof.
  intros [I1 I2 I3 I4 I5 I6 I7 I8 I9 I10 I11 I12 I13 I14 I15 I16 I17 I18] (f & off & s & ->) Hok Hw Hb Hoff. cbn in Hok, Hw, Hoff.
  split; cbn; try done.
  - eapply Forall2_impl; [exact I7|]. intros h b Hs. rewrite Hw. by apply block_stored_app.
  - rewrite Hw, zlength_app. lia.
Qed.
Lemma Inv_closed sl r blks hs idx cur nxt lk : Inv sl r blks hs idx cur nxt lk -> Inv sl (set_closed r) blks hs idx cur nxt lk.
Proof. by intros [I1 I2 I3 I4 I5 I6 I7 I8 I9 I10 I11 I12 I13 I14 I15 I16 I17 I18]. Qed.

Lemma successor_separates sl r blks hs idx lk : Inv sl r blks hs idx [] [] lk -> lk = last_of (concat blks) -> blks <> [] ->
  separates (FindShortSuccessor lk) blks [].
Proof.
  intros [I1 I2 I3 I4 I5 I6 I7 I8 I9 I10 I11 I12 I13 I14 I15 I16 I17 I18] -> Hne.
  destruct blks as [|b blks _] using rev_ind; [done|]. apply Forall_app in I8 as [_ Hb]. rewrite Forall_singleton in Hb.
  rewrite concat_snoc in I16, I17. cbn [app] in I17. rewrite app_nil_r in I17. destruct b as [|p b _] using rev_ind; [done|].
  replace (last_of (concat (blks ++ [b ++ [p]]))) with p.1 by (by rewrite concat_snoc, app_assoc, last_of_snoc).
  apply sub_small in I16 as (Hs & _ & _). rewrite !Forall_app, Forall_singleton in Hs. destruct Hs as (_ & _ & Bp & _).
  destruct (successor_spec p.1 Bp) as (S1 & S2 & S3).
  split; [done|]. exists (b ++ [p]). split; [by rewrite last_snoc|]. rewrite last_of_snoc. split; [unfold zlength; lia|]. split.
  - intros q [Hq| ->%list_elem_of_singleton]%elem_of_app; [|done].
    eapply StringPiece.compare_le_trans; [|exact S3]. apply Z.lt_le_incl.
    apply StronglySorted_app_1_r in I17. apply (sorted_before b [p] q p I17); set_solver.
  - intros q Hq. by apply not_elem_of_nil in Hq.
Qed.

(** Writing one more block. *)
Lemma WriteBlock_Inv sl sl' r blks hs idx cur nxt lk int l : Inv sl r blks hs idx cur nxt lk -> 0 <= sl <= 100 -> 1 <= int -> Forall small_kv l ->
  total l < 2 ^ 32 -> total l + 13 + sl <= sl' ->
  wp (WriteBlock (add_all int l)) r (fun p r' => closed r' = closed r /\ index_block r' = index_block r /\ pending_index_entry r' = pending_index_entry r /\
    num_entries r' = num_entries r /\
    (ok (r_status r') = true -> Inv sl' r' blks hs idx cur nxt lk /\ handle_ok p.2 /\ stored_block (written (file r')) p.2 (raw_block int l) /\ p.1 = BlockBuilder_new)).
Proof.
  intros HI Hsl Hint Hl Ht Hsl'. pose proof HI as [I1 I2 I3 I4 I5 I6 I7 I8 I9 I10 I11 I12 I13 I14 I15 I16 I17 I18].
  destruct (raw_block_facts int l Hint Hl) as [Hraw Hsz]. rewrite !total_app in I18.
  pose proof (total_nonneg cur). pose proof (zlength_nonneg cur). pose proof (total_nonneg nxt). pose proof (zlength_nonneg nxt).
  eapply wp_mono; [apply WriteBlock_spec; try done; unfold raw_block in *; lia|]. cbv beta.
  intros [b h] r' (Eb & Hrw & Hpost). cbn [fst snd] in *. assert (Hf : closed r' = closed r /\ index_block r' = index_block r /\
    pending_index_entry r' = pending_index_entry r /\ num_entries r' = num_entries r) by (destruct Hrw as (f & off & s & ->); done).
  destruct Hf as (-> & -> & -> & ->). do 4 (split; [done|]). intros Hok.
  destruct (Hpost Hok) as (bytes & Hw & Hlb & Hoff & Hh & Hst). split; [|by split_and!].
  eapply Inv_rewritten; [done..|unfold raw_block in Hsz; lia|done].
Qed.

Lemma Finish_index r blks hs idx lk : Inv 13 r blks hs idx [] [] lk -> lk = last_of (concat blks) -> stable r blks [] ->
  wp (let! r := st_get in
      (if pending_index_entry r then add_index_entry (FindShortSuccessor (last_key r)) else st_ret tt) ;;;
      let! r := st_get in
      let! p := WriteBlock (index_block r) in
      st_modify (set_index_block p.1) ;;;
      st_ret p.2) r
    (fun h r' => closed r' = closed r /\ (ok (r_status r') = true -> offset r' = zlength (written (file r')) /\
       zlength (written (file r')) <= 4 * total (concat blks) + 26 /\ Forall2 (block_stored (written (file r'))) hs blks /\ handle_ok h /\
       exists idx', length idx' = length blks /\ index_ok idx' blks hs [] /\ Forall small_kv idx' /\ total idx' <= 2 * total (concat blks) /\
       stored_block (written (file r')) h (raw_block 1 idx'))).
Proof.
  intros HI -> Hst. do 3 wp_step.
  assert (Hmid : wp (if pending_index_entry r then add_index_entry (FindShortSuccessor (last_key r)) else st_ret tt) r
    (fun _ r1 => closed r1 = closed r /\ exists idx' lk', Inv 13 r1 blks hs idx' [] [] lk' /\ length idx' = length blks)).
  { pose proof (iv_pend _ _ _ _ _ _ _ _ HI) as Hpend. rewrite (iv_last _ _ _ _ _ _ _ _ HI). destruct (pending_index_entry r) eqn:Hp.
    - destruct Hpend as (_ & Hlen & _). eapply wp_mono; [eapply (add_index_entry_spec 13 ltac:(lia)); [done|done|eapply successor_separates; [done|done|by intros ->]]|].
      cbv beta. intros _ r1 (Hc & _ & HI1). split; [done|]. eexists _, _. split; [done|]. rewrite length_app. cbn. lia.
    - wp_step. split; [done|]. by eexists _, _. }
  eapply wp_mono; [exact Hmid|]. cbv beta. intros _ r1 (Hc1 & idx' & lk' & HI1 & Hlen). do 2 wp_step. wp_step.
  pose proof HI1 as [I1 I2 I3 I4 I5 I6 I7 I8 I9 I10 I11 I12 I13 I14 I15 I16 I17 I18]. rewrite Hlen, take_ge in I12 by lia.
  cbn [app] in I18. rewrite app_nil_r in I18. rewrite I5.
  eapply wp_mono; [eapply (WriteBlock_Inv 13 (total idx' + 26)); done || lia|]. cbv beta.
  intros [b h] r2 (Hc2 & Hib & _ & _ & Hpost). do 2 wp_step. wp_step. split; [by rewrite <- Hc1, <- Hc2|]. cbn [r_status set_index_block snd].
  intros Hok. destruct (Hpost Hok) as (HI2 & Hh & Hs & _). 
  destruct HI2 as [J1 J2 J3 J4 J5 J6 J7 J8 J9 J10 J11 J12 J13 J14 J15 J16 J17 J18].
  split; [done|]. split; [cbn; lia|]. split; [done|]. split; [done|]. exists idx'. by split_and!.
Qed.

Lemma Finish_footer (r : R) hm hi : handle_ok hm -> handle_ok hi -> offset r = zlength (written (file r)) -> offset r < 2 ^ 40 -> closed r = true ->
  wp (let! footer_encoding := st_opt (Footer_EncodeTo (mkFooter hm hi) []) in
      do_Append footer_encoding ;;;
      let! o := is_ok in
      if o then st_modify (fun r => set_offset (u64 (offset r + zlength footer_encoding)) r) else st_ret tt) r
    (fun _ r' => closed r' = true /\ (ok (r_status r') = true ->
       written (file r') = written (file r) ++ enc_footer (mkFooter hm hi) /\ offset r' = zlength (written (file r')))).
Proof.
  intros Hm Hi Hoff Hlt Hc. wp_step. eapply wp_opt; [by apply (Footer_EncodeTo_enc (mkFooter hm hi) [])|]. wp_step.
  unfold do_Append, wp at 1. set (e := enc_footer _). pose proof (Append_law e (file r)) as HA. destruct (Append e (file r)) as [s f].
  cbn [fst snd] in HA. wp_step. unfold is_ok, wp at 1. cbn [r_status set_file_status]. destruct (ok s) eqn:Hok; wp_step; (split; [done|]).
  - cbn. intros _. rewrite HA, zlength_app by done. split; [done|]. pose proof (zlength_nonneg (written (file r))).
    assert (zlength e = 48) as -> by (unfold zlength, e; by rewrite enc_footer_length). rewrite u64_id; lia.
  - cbn. by rewrite Hok.
Qed.

(** What follows the meta index block in [Finish]. *)
Definition Finish_tail (hm : BlockHandle) : @TableBuilder.B W Status :=
  let! index_block_handle :=
    (let! o := is_ok in
     if o then
       let! r := st_get in
       (if pending_index_entry r then add_index_entry (FindShortSuccessor (last_key r)) else st_ret tt) ;;;
       let! r := st_get in
       let! p := WriteBlock (index_block r) in
       st_modify (set_index_block p.1) ;;;
       st_ret p.2
     else st_ret BlockHandle_new) in
  if_ok (
    let! footer_encoding := st_opt (Footer_EncodeTo (mkFooter hm index_block_handle) []) in
    do_Append footer_encoding ;;;
    let! o := is_ok in
    if o then st_modify (fun r => set_offset (u64 (offset r + zlength footer_encoding)) r) else st_ret tt) ;;;
  let! r := st_get in
  st_ret (r_status r).
Definition finished (kvs : list kv) (st : Status) (r : R) : Prop :=
  closed r = true /\ st = r_status r /\ (ok st = true -> TableImage (written (file r)) kvs /\ FileSize r = zlength (written (file r))).

(** One call of [is_ok]. *)
Lemma wp_is_ok {A} (k : bool -> @TableBuilder.B W A) r Q : wp (k (ok (r_status r))) r Q -> wp (let! o := is_ok in k o) r Q.
Proof. done. Qed.

Lemma tail_failed hm r kvs : closed r = true -> ok (r_status r) = false -> wp (Finish_tail hm) r (finished kvs).
Proof.
  intros Hc Hf. unfold Finish_tail. wp_step. apply wp_is_ok. rewrite Hf. do 2 wp_step. unfold if_ok. apply wp_is_ok. rewrite Hf.
  do 3 wp_step. wp_step. split; [done|]. split; [done|]. by rewrite Hf.
Qed.

Lemma tail_spec hm r blks hs idx lk kvs : Inv 13 r blks hs idx [] [] lk -> lk = last_of (concat blks) -> stable r blks [] -> closed r = true ->
  handle_ok hm -> kvs = concat blks -> total kvs < 2 ^ 30 -> wp (Finish_tail hm) r (finished kvs).
Proof.
  intros HI Hlk Hst Hc Hm Hkvs Ht. unfold Finish_tail. wp_step. apply wp_is_ok. rewrite (iv_ok _ _ _ _ _ _ _ _ HI).
  eapply wp_mono; [by eapply Finish_index|]. cbv beta. intros hi r1 (Hc1 & Hpost). rewrite Hc in Hc1. unfold if_ok. wp_step. apply wp_is_ok.
  destruct (ok (r_status r1)) eqn:Hok1; [|do 3 wp_step; wp_step; split; [done|]; split; [done|]; by rewrite Hok1].
  destruct (Hpost eq_refl) as (Hoff & Hsz & Hb & Hi & idx' & H1 & H2 & H3 & H4 & H5). rewrite <- Hkvs in *.
  eapply wp_mono; [apply Finish_footer; try done; lia|]. cbv beta. intros _ r2 (Hc2 & Hpost2). do 3 wp_step.
  split; [done|]. split; [done|]. intros Hok2. destruct (Hpost2 Hok2) as [Hw Hoff2]. split; [|done]. rewrite Hw.
  exists blks, hs, idx', hm, hi, (written (file r1)). split; [done|]. split; [done|]. split; [done|].
  split; [eapply Forall2_impl; [exact Hb|]; intros ? ? ?; by apply block_stored_app|]. split; [apply HI|].
  split; [done|]. split; [done|]. split; [done|]. split; [done|]. split; [by apply stored_block_app|].
  rewrite zlength_app. assert (zlength (enc_footer (mkFooter hm hi)) = 48) as -> by (unfold zlength; by rewrite enc_footer_length). lia.
Qed.

Lemma Finish_spec r blks hs idx cur : Inv 0 r blks hs idx cur [] (last_of (concat blks ++ cur)) -> stable r blks cur -> closed r = false ->
  wp Finish r (finished (concat blks ++ cur)).
Proof.
  intros HI Hst Hcl. unfold Finish. wp_step. eapply wp_mono; [eapply (Flush_spec 0 ltac:(lia)); [done|done]|].
  cbv beta. intros _ r1 (Hc1 & _ & Hcase). do 4 wp_step; [by rewrite Hc1|]. do 2 wp_step. set (r2 := set_closed r1).
  fold (if_ok (W := W)). wp_step. apply wp_is_ok. destruct Hcase as [(blks1 & hs1 & HI1 & E & Hst1)|(_ & Hf & _)].
  2: { change (r_status r2) with (r_status r1). rewrite Hf. wp_step. by apply (tail_failed BlockHandle_new r2). }
  specialize (Hst1 Hst). pose proof (Inv_closed _ _ _ _ _ _ _ _ HI1) as HI2. fold r2 in HI2. rewrite (iv_ok _ _ _ _ _ _ _ _ HI2).
  do 2 wp_step; [rewrite (iv_opts _ _ _ _ _ _ _ _ HI1); by apply Z.leb_le|]. wp_step. change BlockBuilder_new with (add_all interval []).
  eapply wp_mono; [eapply (WriteBlock_Inv 0 13); [exact HI2|lia|done|constructor|cbn; lia|cbn; lia]|]. cbv beta.
  intros [bm hm] r3 (Hc3 & _ & Hp3 & _ & Hpost3). wp_step. cbn [snd] in *. change (closed r2) with true in Hc3.
  destruct (ok (r_status r3)) eqn:Hok3; [|by apply (tail_failed hm r3)].
  destruct (Hpost3 eq_refl) as (HI3 & Hhm & _ & _). apply (tail_spec hm r3 blks1 hs1 idx _ _ HI3); try done; [by rewrite E| |].
  - intros Hp Hn. apply Hst1; [|done]. by rewrite Hp3 in Hp.
  - pose proof (iv_total _ _ _ _ _ _ _ _ HI). by rewrite app_nil_r in *.
Qed.

(** All the pairs, then [Finish]. *)
Lemma build_spec w r kvs : Rep_new o w = Done r -> written w = [] -> Forall small_kv kvs -> StronglySorted kv_lt kvs -> total kvs < 2 ^ 30 ->
  wp (AddAll kvs ;;; Finish) r (finished kvs).
Proof.
  intros Hr Hw Hs Hsort Ht. destruct (Rep_new_Inv w r Hr Hw) as (HI & Hst & Hc). wp_step.
  eapply wp_mono; [by apply (AddAll_spec kvs r [] [] [] [])|]. cbv beta.
  intros _ r1 (Hc1 & [(blks & hs & idx & cur & HI1 & Hst1 & E)|Hf]).
  - cbn in E. rewrite <- E. by eapply Finish_spec.
  - unfold Finish. wp_step. eapply wp_mono; [|].
    { instantiate (1 := fun _ r' => r' = r1). unfold Flush. do 4 wp_step; [by rewrite Hc1|]. rewrite Hf. by wp_step. }
    cbv beta. intros _ r2 ->. do 4 wp_step; [by rewrite Hc1|]. do 3 wp_step. apply wp_is_ok. change (r_status (set_closed r1)) with (r_status r1).
    rewrite Hf. wp_step. by apply (tail_failed BlockHandle_new (set_closed r1)).
Qed.
End Writing.

(** ** A file in memory *)

#[global] Instance MemWriter : WritableFile (list Z) := { Append data w := (OK, w ++ data) }.
#[global, refine] Instance MemWriter_Laws : WritableLaws (list Z) := { written w := w }.
Proof. done. Defined.
#[global, refine] Instance NoSnappy_Laws : @SnappyLaws NoSnappy := {}.
Proof. all: done. Defined.

(** ** The properties *)

(** [FindShortestSeparator start limit] is never longer than [start] and,
    when [start] is before [limit], is a key from [start] on and before
    [limit]; [FindShortSuccessor key] is never longer than [key] and never
    before it. *)
Theorem table_separators start limit : is_bytes start ->
  let s := FindShortestSeparator start limit in let t := FindShortSuccessor start in
  (length s <= length start)%nat /\ is_bytes s /\ (length t <= length start)%nat /\ is_bytes t /\
  StringPiece.compare start t <= 0 /\
  (StringPiece.compare start limit < 0 -> StringPiece.compare start s <= 0 /\ StringPiece.compare s limit < 0).
Proof.
  intros Hb s t. destruct (separator_spec start limit Hb) as (H1 & H2 & H3). destruct (successor_spec start Hb) as (H4 & H5 & H6).
  split_and!; try done. fold s in H3. destruct H3 as [->|[? ?]]; [rewrite StringPiece.compare_refl|]; lia.
Qed.
Lemma table_separators_witness :
  FindShortestSeparator [97; 98; 99] [97; 101; 1] = [97; 99] /\ FindShortSuccessor [255; 98; 99] = [255; 99] /\
  StringPiece.compare [97; 98; 99] [97; 99] <= 0 /\ StringPiece.compare [97; 99] [97; 101; 1] < 0.
Proof.
  split; [reflexivity|]. split; [reflexivity|].
  assert (Hb : is_bytes [97; 98; 99]) by (repeat constructor; lia).
  destruct (table_separators [97; 98; 99] [97; 101; 1] Hb) as (_ & _ & _ & _ & _ & H). apply H. reflexivity.
Defined.

(** Adding strictly sorted pairs and finishing never fails an assertion,
    for every block size, restart interval and compression; when the final
    status is OK (no append failed), the file is the image of a table: stored
    blocks whose concatenation is the pairs, an index block with one
    separator and handle per block, and the footer; [FileSize] is its size. *)
Theorem table_builder_image {W} `{WritableLaws W} {Sn : Snappy} {SL : SnappyLaws} (o : Options) (w : W) r (kvs : list kv) :
  1 <= TableBuilder.block_restart_interval o -> compression o = kNoCompression \/ compression o = kSnappyCompression ->
  Rep_new o w = Done r -> written w = [] -> Forall small_kv kvs -> StronglySorted kv_lt kvs -> total kvs < 2 ^ 30 ->
  wp (AddAll kvs ;;; Finish) r (fun st r' => closed r' = true /\ st = r_status r' /\
    (ok st = true -> TableImage o (written (file r')) kvs /\ FileSize r' = zlength (written (file r')))).
Proof. intros. by eapply build_spec. Qed.
Lemma table_builder_image_witness :
  let o := mkOptions 40 2 0 in
  let kvs := [([97], [1]); ([97; 98], [2]); ([98], replicate 50 7); ([98; 1], [3; 4])] in
  exists r, Rep_new o [] = Done r /\
    wp (AddAll (Sn := NoSnappy) kvs ;;; Finish (Sn := NoSnappy)) r (fun st r' => closed r' = true /\ st = r_status r' /\
      (ok st = true -> TableImage (Sn := NoSnappy) o (written (file r')) kvs /\ FileSize r' = zlength (written (file r')))).
Proof.
  intros o kvs. eexists. split; [reflexivity|]. eapply (table_builder_image (Sn := NoSnappy) o []).
  - cbn. lia.
  - left. reflexivity.
  - reflexivity.
  - reflexivity.
  - repeat constructor; unfold is_byte; cbn; lia.
  - repeat constructor.
  - vm_compute. reflexivity.
Defined.
End TableBuilderFacts.
