(* ===== verification/Table.v ===== *)
(** * Reading a table

    [core/lib/io/table.cc]: [Open] reads the footer and the index block,
    [NewIterator] is a two-level iterator over the index block and the data
    blocks that [BlockReader] loads, [InternalGet] looks one key up. The
    iterators of blocks keep the contract of [TableIterator]. *)
From stdpp Require Import sorting.
From S2P Require Import Prelude StringPiece Coding Status Block BlockFacts TableIterator TableFormat TableBuilder TableBuilderFacts.
Import Status TableIterator TableFormat.

Module Table.

(** ** The iterator of a block *)

Inductive BlockIter := IterEmpty (e : EmptyIterator) | IterEntries (it : Block.Iter).

(** [Block::NewIterator] *)
Definition Block_NewIterator (b : Block.Block) : option BlockIter :=
  r ← Block.NewIterator b;
  Some match r with
       | Block.ErrorIterator => IterEmpty (NewErrorIterator (DataLoss (bytes_of "bad block contents")))
       | Block.EmptyIterator => IterEmpty NewEmptyIterator
       | Block.EntriesIterator it => IterEntries it
       end.

(** A call of a virtual function, by the class of the object. *)
Definition dispatch {A} (e : ST EmptyIterator A) (m : ST Block.Iter A) : ST BlockIter A := fun it =>
  match it with
  | IterEmpty i => match e i with Done (a, i') => Done (a, IterEmpty i') | Aborts => Aborts | Diverges => Diverges end
  | IterEntries i => match m i with Done (a, i') => Done (a, IterEntries i') | Aborts => Aborts | Diverges => Diverges end
  end.
(** [Iter::Next] with its assertion. *)
Definition Iter_Next : ST Block.Iter unit :=
  let! it := st_get in st_check (Block.Valid it) ;;; Block.Next.
Definition Iter_status (it : Block.Iter) : Status :=
  if Block.status_ok it then OK else DataLoss (bytes_of "bad entry in block").
#[global] Instance Block_Iterator : Iterator BlockIter := {
  it_Valid it := match it with IterEmpty i => it_Valid i | IterEntries i => Block.Valid i end;
  it_key it := match it with IterEmpty i => it_key i | IterEntries i => Block.key_ i end;
  it_value it := match it with IterEmpty i => it_value i | IterEntries i => Block.Iter_value i end;
  it_Next := dispatch it_Next Iter_Next;
  it_Seek t := dispatch (it_Seek t) (Block.Seek t);
  it_SeekToFirst := dispatch it_SeekToFirst Block.SeekToFirst;
  it_status it := match it with IterEmpty i => it_status i | IterEntries i => Iter_status i end
}.

(** ** The table *)

Section Table.
Context {F : Type} `{RandomAccessFile F} `{Sn : Snappy}.

Record Rep := mkRep {
  options : TableBuilder.Options;
  file : F;
  metaindex_handle : BlockHandle;
  index_block : Block.Block
}.

(** The status, and [*table] when it is not null. *)
Definition Open (options : TableBuilder.Options) (file : F) (size : Z) : outcome (Status * option Rep) :=
  if size <? kEncodedLength then Done (DataLoss (bytes_of "file is too short to be an sstable"), None)
  else
    let '(s, footer_input) := Read file (u64 (size - kEncodedLength)) kEncodedLength in
    if negb (ok s) then Done (s, None)
    else
      match Footer_DecodeFrom Footer_new footer_input with
      | None => Aborts
      | Some (s, footer, _) =>
          if negb (ok s) then Done (s, None)
          else
            match ReadBlock file (index_handle_ footer) with
            | Done (s, contents) =>
                if ok s then
                  match Block.Block_new contents with
                  | Some index_block => Done (s, Some (mkRep options file (metaindex_handle_ footer) index_block))
                  | None => Aborts
                  end
                else Done (s, None)
            | Aborts => Aborts
            | Diverges => Diverges
            end
      end.

Definition BlockReader (table : Rep) (index_value : list Z) : outcome BlockIter :=
  let '(s, handle, _) := BlockHandle_DecodeFrom BlockHandle_new index_value in
  if ok s then
    match ReadBlock (file table) handle with
    | Done (s, contents) =>
        if ok s then
          match (b ← Block.Block_new contents; Block_NewIterator b) with
          | Some it => Done it
          | None => Aborts
          end
        else Done (IterEmpty (NewErrorIterator s))
    | Aborts => Aborts
    | Diverges => Diverges
    end
  else Done (IterEmpty (NewErrorIterator s)).

Definition NewIterator (table : Rep) : outcome (@TwoLevelIterator BlockIter BlockIter) :=
  match Block_NewIterator (index_block table) with
  | Some index_iter => Done (NewTwoLevelIterator index_iter)
  | None => Aborts
  end.
(** The methods of that iterator: an index block of [n] bytes has at most [n]
    entries, which bounds the loop over the blocks. *)
Definition Table_Iterator (table : Rep) : Iterator (@TwoLevelIterator BlockIter BlockIter) :=
  TwoLevel_Iterator (BlockReader table) (S (length (Block.data_ (index_block table)))).

(** The status, and the entry passed to [saver] when it is called. *)
Definition InternalGet (table : Rep) (k : list Z) : outcome (Status * option (list Z * list Z)) :=
  match Block_NewIterator (index_block table) with
  | None => Aborts
  | Some iiter =>
      match it_Seek k iiter with
      | Done (_, iiter) =>
          if it_Valid iiter then
            match BlockReader table (it_value iiter) with
            | Done block_iter =>
                match it_Seek k block_iter with
                | Done (_, block_iter) =>
                    let saved := if it_Valid block_iter then Some (it_key block_iter, it_value block_iter) else None in
                    let s := it_status block_iter in
                    Done (if ok s then it_status iiter else s, saved)
                | Aborts => Aborts
                | Diverges => Diverges
                end
            | Aborts => Aborts
            | Diverges => Diverges
            end
          else Done (it_status iiter, None)
      | Aborts => Aborts
      | Diverges => Diverges
      end
  end.

Definition ApproximateOffsetOf (table : Rep) (key : list Z) : outcome Z :=
  match Block_NewIterator (index_block table) with
  | None => Aborts
  | Some index_iter =>
      match it_Seek key index_iter with
      | Done (_, index_iter) =>
          if it_Valid index_iter then
            let '(s, handle, _) := BlockHandle_DecodeFrom BlockHandle_new (it_value index_iter) in
            Done (if ok s then offset_ handle else offset_ (metaindex_handle table))
          else Done (offset_ (metaindex_handle table))
      | Aborts => Aborts
      | Diverges => Diverges
      end
  end.
End Table.

(** ** The iterator of a block keeps the contract *)

Import BlockFacts.

Lemma rank_unique t (l : list (list Z * list Z)) i : StronglySorted TableIterator.kv_lt l -> (i <= length l)%nat ->
  (forall j p, (j < i)%nat -> l !! j = Some p -> StringPiece.compare p.1 t < 0) ->
  (forall p, l !! i = Some p -> ~ StringPiece.compare p.1 t < 0) -> rank t l = i.
Proof.
  intros Hs Hi Hlo Hhi. pose proof (rank_le t l).
  assert (H1 : ~ (i < rank t l)%nat).
  { intros Hlt. destruct (lookup_lt_is_Some_2 l i) as [p Hp]; [lia|]. apply (Hhi p Hp). by apply (rank_sorted t l i p). }
  destruct i as [|i]; [lia|]. destruct (lookup_lt_is_Some_2 l i) as [p Hp]; [lia|].
  pose proof (proj1 (rank_sorted t l i p Hs Hp) (Hlo i p ltac:(lia) Hp)). lia.
Qed.

Definition entries_over (l : list (list Z * list Z)) (it : Block.Iter) data es idxs : Prop :=
  Layout data es idxs /\ map kv es = l /\ good data es idxs it /\ Block.status_ok it = true.
Definition entries_on (l : list (list Z * list Z)) (it : Block.Iter) (i : nat) data es idxs : Prop :=
  Layout data es idxs /\ map kv es = l /\ (at_entry data es idxs it i \/ (i = length es /\ at_end data es idxs it)).
Lemma entries_on_over l it i data es idxs : entries_on l it i data es idxs -> entries_over l it data es idxs.
Proof.
  intros (HL & El & [(e & _ & _ & _ & _ & _ & Hp)|[_ (Hg & _ & Hs)]]); (split; [done|]); (split; [done|]); [|done].
  destruct Hp as [Hg Hs _ _ _]. done.
Qed.
Lemma dispatch_entries {A} (e : ST EmptyIterator A) m it Q : wp m it (fun a it' => Q a (IterEntries it')) -> wp (dispatch e m) (IterEntries it) Q.
Proof. unfold wp, dispatch. by destruct (m it) as [[a it']| |]. Qed.

#[global, refine] Instance Block_Laws : IteratorLaws BlockIter := {
  over l it := match it with
    | IterEmpty e => over l e
    | IterEntries it => exists data es idxs, entries_over l it data es idxs
    end;
  on l it i := match it with
    | IterEmpty e => on l e i
    | IterEntries it => exists data es idxs, entries_on l it i data es idxs
    end
}.
Proof.
  - intros l [e|it] i; [apply (on_over (I := EmptyIterator))|]. intros (data & es & idxs & Ho). exists data, es, idxs. by eapply entries_on_over.
  - intros l [e|it] i; [apply (on_Valid (I := EmptyIterator))|]. intros (data & es & idxs & HL & <- & [(e & He & Hv & _)|[-> (_ & Hv & _)]]); cbn [it_Valid Block_Iterator]; rewrite Hv, length_map.
    + apply lookup_lt_Some in He. by rewrite bool_decide_true.
    + by rewrite bool_decide_false by lia.
  - intros l [e|it] i k v; [apply (on_entry (I := EmptyIterator))|]. intros (data & es & idxs & HL & <- & Hcase) Hl. rewrite list_lookup_fmap in Hl.
    destruct Hcase as [(e & He & _ & Hk & Hv & _)|[-> _]]; [|by rewrite lookup_ge_None_2 in Hl].
    rewrite He in Hl. injection Hl as <- <-. done.
  - intros l [e|it]; [apply (over_status (I := EmptyIterator))|]. intros (data & es & idxs & _ & _ & _ & Hs). cbn. unfold Iter_status. by rewrite Hs.
  - intros l [e|it] i.
    + intros (-> & _ & ->) Hi. cbn in Hi. lia.
    + intros (data & es & idxs & HL & <- & [Hat|[-> _]]) Hi; [|rewrite length_map in Hi; lia]. cbn [it_Next Block_Iterator]. apply dispatch_entries.
      unfold Iter_Next. pose proof Hat as (e & He & Hv & _). do 4 wp_step; [done|].
      eapply wp_mono; [by apply (Next_spec _ _ _ HL)|]. cbv beta. intros _ it' Hn. exists data, es, idxs. split; [done|]. split; [done|].
      apply lookup_lt_Some in He. destruct Hn as [?|[? ?]]; [by left|right; split; [lia|done]].
  - intros l [e|it]; [intros [-> ?]; done|]. intros (data & es & idxs & HL & <- & Hg & Hs). cbn [it_SeekToFirst Block_Iterator]. apply dispatch_entries.
    eapply wp_mono; [by apply (SeekToFirst_spec _ _ _ HL)|]. cbv beta. intros _ it' Hn. exists data, es, idxs. split; [done|]. split; [done|].
    destruct Hn as [?|[-> ?]]; [by left|by right].
  - intros l [e|it] t; [intros [-> ?] _; done|]. intros (data & es & idxs & HL & El & Hg & Hs) Hsort. cbn [it_Seek Block_Iterator]. apply dispatch_entries.
    pose proof (sorted_lookup l es El Hsort) as Hsorted.
    eapply wp_mono; [by apply (Seek_spec _ _ _ HL Hsorted)|]. cbv beta. intros _ it' (i & Hi & Hlo & Hcase).
    assert (Er : rank t l = i).
    { subst l. apply rank_unique; [done|by rewrite length_map| |].
      - intros j p Hj Hp. apply list_lookup_fmap_Some in Hp as (e & -> & He). by apply (Hlo j e).
      - intros p Hp. apply list_lookup_fmap_Some in Hp as (e & -> & He).
        destruct Hcase as [(e' & He' & Hn & _)|[-> _]]; [by simplify_eq|by rewrite lookup_ge_None_2 in He]. }
    rewrite Er. exists data, es, idxs. split; [done|]. split; [done|].
    destruct Hcase as [(e & _ & _ & ?)|?]; [by left|by right].
Defined.

(** ** Opening the image of a table *)

Import TableBuilderFacts.

(** What an iterator without error is over is determined. *)
Lemma over_inj {I} `{IteratorLaws I} l l' (it : I) : over l it -> over l' it -> l = l'.
Proof.
  intros Ho Ho'. set (n := S (length l + length l')).
  pose proof (scan_spec l it n Ho ltac:(lia)) as H1. pose proof (scan_spec l' it n Ho' ltac:(lia)) as H2.
  unfold wp in *. destruct ((it_SeekToFirst ;;; collect n) it) as [[r it']| |]; [|done..].
  destruct H1 as [-> _], H2 as [-> _]. done.
Qed.
(** A block built from small pairs opens as an iterator over them. *)
Lemma open_raw interval l : 1 <= interval -> Forall small_kv l -> total l < 2 ^ 32 - 8 ->
  exists b it, Block.Block_new (raw_block interval l) = Some b /\ Block_NewIterator b = Some it /\ over l it /\
    (length l <= length (Block.data_ b))%nat.
Proof.
  intros Hi Hs Ht. destruct (raw_block_facts interval l Hi Hs) as [_ Hsz].
  destruct (add_all_state interval l Hi Hs) as [_ _ _ _ Hbuf _].
  destruct (Built_all interval l Hi Hs) as (es & idxs & HB); [pose proof (zlength_nonneg (Block.restarts_ (add_all interval l))); lia|].
  pose proof (Finish_Layout _ _ _ _ HB Hs ltac:(unfold raw_block in Hsz; lia)) as HL.
  destruct (open_block _ _ _ HL) as (b & Eb & Eit). exists b. eexists. split; [exact Eb|]. unfold Block_NewIterator. rewrite Eit.
  split; [done|]. split.
  - eexists _, es, idxs. split; [exact HL|]. split; [apply HB|]. done.
  - pose proof (length_le_data _ _ _ HL) as Hlen. rewrite <- (bu_kvs _ _ _ _ HB), length_map.
    unfold Block.Block_new in Eb. destruct (_ <? 4); [by injection Eb as <-|]. destruct (Block.NumRestarts _) as [n|]; [|done].
    cbn [mbind option_bind] in Eb. by destruct (_ <? n); injection Eb as <-.
Qed.

Section Image.
Context {F : Type} `{FL : RandomAccessLaws F} {Sn : Snappy}.
Context (o : TableBuilder.Options) (f : F) (kvs : list (list Z * list Z)).
Hypothesis Hinterval : 1 <= TableBuilder.block_restart_interval o.

Lemma read_stored h raw : stored_block (file_contents f) h raw -> zlength (file_contents f) < 2 ^ 33 -> ReadBlock f h = Done (OK, raw).
Proof.
  intros (pre & post & c & type & E & -> & Hc & Hs) Hsz. eapply ReadBlock_frame; [|done|done].
  exists pre, post. split; [|split; [done|lia]]. rewrite E. unfold frame. by rewrite <- !app_assoc.
Qed.

Lemma BlockReader_stored table h b : file table = f -> zlength (file_contents f) < 2 ^ 33 -> block_stored o (file_contents f) h b ->
  Forall small_kv b -> total b < 2 ^ 30 -> exists it, BlockReader table (enc_handle h) = Done it /\ over b it.
Proof.
  intros Hf Hsz [Hh Hst] Hs Ht. destruct (open_raw _ b Hinterval Hs ltac:(lia)) as (blk & it & Eb & Eit & Ho & _).
  exists it. split; [|done]. unfold BlockReader. rewrite <- (app_nil_r (enc_handle h)), DecodeFrom_enc by done. cbn [ok OK state_].
  rewrite Hf, (read_stored _ _ Hst Hsz). cbn [ok OK state_]. rewrite Eb. cbn [mbind option_bind]. by rewrite Eit.
Qed.

(** The block that a handle of the index names. *)
Definition block_of (idx : list (list Z * list Z)) (blks : list (list (list Z * list Z))) (e : list Z) : list (list Z * list Z) :=
  match list_find (fun p => p.2 = e) idx with Some (i, _) => default [] (blks !! i) | None => [] end.

Section Parts.
Context (table : @Rep F) (blks : list (list (list Z * list Z))) (hs : list BlockHandle) (idx : list (list Z * list Z)).
Hypothesis Hfile : file table = f.
Hypothesis Hsz : zlength (file_contents f) < 2 ^ 33.
Hypothesis Hsmall : Forall small_kv (concat blks).
Hypothesis Htotal : total (concat blks) < 2 ^ 30.
Hypothesis Hst : Forall2 (block_stored o (file_contents f)) hs blks.
Hypothesis Hne : Forall (fun b => b <> []) blks.
Hypothesis Hlen : length idx = length blks.
Hypothesis Hidx : index_ok idx blks hs [].

Lemma blk_small i b : blks !! i = Some b -> Forall small_kv b /\ total b < 2 ^ 30.
Proof.
  intros Hi. pose proof Hsmall as Hs. pose proof Htotal as Ht. rewrite <- (take_drop_middle _ _ _ Hi), concat_app in Hs, Ht. cbn [concat] in Hs, Ht.
  rewrite !total_app in Ht. apply sub_small in Hs as (_ & ? & _). split; [done|].
  pose proof (total_nonneg (concat (take i blks))). pose proof (total_nonneg (concat (drop (S i) blks))).
  pose proof (zlength_nonneg (concat (take i blks))). pose proof (zlength_nonneg (concat (drop (S i) blks))). lia.
Qed.
Lemma blk_read i s e : idx !! i = Some (s, e) -> exists b it, blks !! i = Some b /\ BlockReader table e = Done it /\ over b it.
Proof.
  intros Hi. destruct (Hidx _ _ _ Hi) as (b & h & Hb & Hh & -> & _). destruct (blk_small _ _ Hb).
  destruct (BlockReader_stored table h b) as (it & E & Ho); [done|done|by eapply Forall2_lookup_lr|done|done|]. by exists b, it.
Qed.
Lemma block_of_spec i s e b : idx !! i = Some (s, e) -> blks !! i = Some b -> block_of idx blks e = b.
Proof.
  intros Hi Hb. unfold block_of. destruct (list_find _ idx) as [[j [s' e']]|] eqn:Ef.
  - apply list_find_Some in Ef as (Hj & He' & _). cbn in He'. subst e'.
    destruct (blk_read _ _ _ Hi) as (b1 & it1 & Hb1 & E1 & O1). destruct (blk_read _ _ _ Hj) as (b2 & it2 & Hb2 & E2 & O2).
    rewrite Hb2. cbn. rewrite E1 in E2. rewrite Hb in Hb1. simplify_eq. by eapply over_inj.
  - exfalso. rewrite list_find_None, Forall_forall in Ef. apply (Ef (s, e)); [by eapply list_elem_of_lookup_2|done].
Qed.
Lemma block_of_index i s e : idx !! i = Some (s, e) -> blks !! i = Some (block_of idx blks e).
Proof. intros Hi. destruct (blk_read _ _ _ Hi) as (b & it & Hb & _). by rewrite (block_of_spec _ _ _ _ Hi Hb). Qed.
Lemma all_blocks : blocks idx (block_of idx blks) = concat blks.
Proof.
  unfold blocks. f_equal. apply list_eq_same_length with (length blks); [done|by rewrite length_map|].
  intros i x y _ Hx Hy. apply list_lookup_fmap_Some in Hx as ([s e] & -> & Hi). cbn. rewrite (block_of_index _ _ _ Hi) in Hy. by simplify_eq.
Qed.
Lemma Blocks_ok : Blocks (BlockReader table) idx (block_of idx blks).
Proof.
  assert (Hlt : forall i j s e s' e' p, idx !! i = Some (s, e) -> idx !! j = Some (s', e') -> (i < j)%nat ->
    p ∈ block_of idx blks e' -> StringPiece.compare s p.1 < 0).
  { intros i j s e s' e' p Hi Hj Hij Hp. destruct (Hidx _ _ _ Hi) as (b & h & _ & _ & _ & _ & Hs). apply Hs. rewrite app_nil_r.
    apply list_elem_of_In, in_concat. exists (block_of idx blks e'). split; [|by apply list_elem_of_In].
    apply list_elem_of_In. apply (list_elem_of_lookup_2 _ (j - S i)). rewrite lookup_drop. replace (S i + (j - S i))%nat with j by lia.
    by eapply block_of_index. }
  assert (Hle : forall i s e p, idx !! i = Some (s, e) -> p ∈ block_of idx blks e -> StringPiece.compare p.1 s <= 0).
  { intros i s e p Hi Hp. destruct (Hidx _ _ _ Hi) as (b & h & Hb & _ & _ & Hs & _). rewrite (block_of_spec _ _ _ _ Hi Hb) in Hp. by apply Hs. }
  split; [| |exact Hle|exact Hlt].
  - assert (Hpair : forall i j p q, idx !! i = Some p -> idx !! j = Some q -> (i < j)%nat -> TableIterator.kv_lt p q).
    { intros i j [s e] [s' e'] Hi Hj Hij. pose proof (block_of_index _ _ _ Hj) as Hb. rewrite Forall_lookup in Hne. pose proof (Hne _ _ Hb) as Hn.
      destruct (block_of idx blks e') as [|p b] eqn:E; [done|]. unfold TableIterator.kv_lt. cbn.
      eapply StringPiece.compare_lt_le; [apply (Hlt i j s e s' e' p Hi Hj Hij)|apply (Hle j s' e' p Hj)]; rewrite E; set_solver. }
    revert Hpair. clear. induction idx as [|p l IH]; intros Hpair; [constructor|]. constructor.
    + apply IH. intros i j x y Hi Hj Hij. apply (Hpair (S i) (S j)); done || lia.
    + apply Forall_lookup. intros i x Hx. apply (Hpair 0%nat (S i)); done || lia.
  - intros i s e Hi. destruct (blk_read _ _ _ Hi) as (b & it & Hb & E & Ho). exists it. by rewrite (block_of_spec _ _ _ _ Hi Hb).
Qed.
End Parts.

Record Opened (table : @Rep F) (iiter : BlockIter) (idx : list (list Z * list Z)) (blk : list Z -> list (list Z * list Z)) : Prop := {
  op_open : Open o f (zlength (file_contents f)) = Done (OK, Some table);
  op_index : Block_NewIterator (index_block table) = Some iiter;
  op_over : over idx iiter;
  op_fuel : (length idx < S (length (Block.data_ (index_block table))))%nat;
  op_blocks : Blocks (BlockReader table) idx blk;
  op_kvs : kvs = blocks idx blk;
  op_meta : handle_ok (metaindex_handle table);
  op_handles : forall i s e, idx !! i = Some (s, e) -> exists h, e = enc_handle h /\ handle_ok h
}.
Lemma image_opens : TableImage o (file_contents f) kvs -> Forall small_kv kvs -> total kvs < 2 ^ 30 ->
  exists table iiter idx blk, Opened table iiter idx blk.
Proof.
  intros (blks & hs & idx & hm & hi & pre & Ekvs & Eimg & Hf & Hst & Hne & Hlen & Hidx & Hsi & Hti & Hsti & Hsz) Hs Ht.
  pose proof Hf as [Hhm Hhi]. cbn [metaindex_handle_ index_handle_] in *.
  destruct (open_raw 1 idx ltac:(lia) Hsi ltac:(lia)) as (ib & iit & Eb & Eit & Ho & Hil).
  set (table := mkRep o f hm ib). rewrite Ekvs in Hs, Ht. exists table, iit, idx, (block_of idx blks).
  split; [|done|done|cbn; lia|by eapply Blocks_ok|rewrite Ekvs; symmetry; by eapply (all_blocks table blks hs idx)|done|].
  - unfold Open. set (n := zlength (file_contents f)) in *.
    assert (Hn : n = zlength pre + 48). { unfold n. rewrite Eimg, zlength_app. f_equal. unfold zlength. by rewrite enc_footer_length. }
    pose proof (zlength_nonneg pre). change kEncodedLength with 48. destruct (Z.ltb_spec n 48); [lia|].
    rewrite u64_id by lia. rewrite Read_law by (fold n; lia).
    replace (Z.to_nat (n - 48)) with (length pre) by (unfold zlength in *; lia). rewrite Eimg, drop_app_length.
    rewrite take_ge by (by rewrite enc_footer_length). cbn [ok OK state_ negb].
    rewrite <- (app_nil_r (enc_footer _)), Footer_DecodeFrom_enc by done. cbn [ok OK state_ negb index_handle_ metaindex_handle_].
    rewrite (read_stored _ _ Hsti Hsz). cbn [ok OK state_]. by rewrite Eb.
  - intros i s e Hi. destruct (Hidx _ _ _ Hi) as (b & h & Hb & Hh & -> & _). exists h. split; [done|].
    apply (Forall2_lookup_lr _ _ _ _ _ _ Hst Hh Hb).
Qed.

(** The table iterator is over the pairs. *)
Lemma opened_over table iiter idx blk : Opened table iiter idx blk ->
  NewIterator table = Done (NewTwoLevelIterator iiter) /\
  over (IteratorLaws := TwoLevel_Laws (BlockReader table) (S (length (Block.data_ (index_block table))))) kvs (NewTwoLevelIterator iiter).
Proof.
  intros [H1 H2 H3 H4 H5 H6 H7 H8]. split; [unfold NewIterator; by rewrite H2|].
  exists idx, blk. split; [by split|]. split; [done|]. by split.
Qed.

(** Looking a key up in its block. *)
Lemma seek_in_block k v b j : StronglySorted TableIterator.kv_lt b -> (k, v) ∈ b -> rank k b = j -> b !! j = Some (k, v).
Proof.
  intros Hs Hin <-. apply list_elem_of_lookup in Hin as [j' Hj']. pose proof (rank_sorted k b j' (k, v) Hs Hj') as Hr.
  cbn [fst] in Hr. rewrite StringPiece.compare_refl in Hr. assert (Hge : (rank k b <= j')%nat) by lia.
  destruct (decide (rank k b = j')) as [->|Hne]; [done|]. exfalso.
  destruct (lookup_lt_is_Some_2 b (rank k b)) as [p Hp]; [apply lookup_lt_Some in Hj'; lia|].
  pose proof (rank_sorted k b (rank k b) p Hs Hp) as Hr2. assert (~ StringPiece.compare p.1 k < 0) as Hn by lia. apply Hn.
  assert (G : forall l i j (x y : list Z * list Z), StronglySorted TableIterator.kv_lt l -> l !! i = Some x -> l !! j = Some y -> (i < j)%nat -> TableIterator.kv_lt x y).
  { clear. intros l i j x y Hs. revert i j. induction Hs as [|z l Hs IH Hall]; intros i j Hi Hj Hij; [done|].
    destruct j as [|j]; [lia|]. destruct i as [|i]; simplify_eq/=.
    - rewrite Forall_forall in Hall. apply Hall. by eapply list_elem_of_lookup_2.
    - apply (IH i j); done || lia. }
  apply (G b (rank k b) j' p (k, v)); done || lia.
Qed.
Lemma key_block idx blk bf i k v s e : Blocks bf idx blk -> i = rank k idx -> idx !! i = Some (s, e) -> (k, v) ∈ blocks idx blk -> (k, v) ∈ blk e.
Proof.
  intros HB -> Hi Hin. apply elem_blocks in Hin as (i' & s' & e' & Hi' & Hin).
  pose proof (rank_sorted k idx _ _ (bs_sorted _ _ _ HB) Hi) as R. cbn [fst] in R.
  destruct (Nat.lt_trichotomy i' (rank k idx)) as [Hlt|[Heq|Hgt]].
  - pose proof (proj2 (rank_sorted k idx _ _ (bs_sorted _ _ _ HB) Hi') Hlt) as Hs. pose proof (bs_le _ _ _ HB _ _ _ _ Hi' Hin) as Hle. cbn [fst] in *.
    pose proof (StringPiece.compare_opp k s'). lia.
  - rewrite Heq in Hi'. by simplify_eq.
  - pose proof (bs_lt _ _ _ HB _ _ _ _ _ _ _ Hi Hi' Hgt Hin) as Hs. cbn [fst] in *. lia.
Qed.
Lemma past_blocks idx blk bf k v : Blocks bf idx blk -> (length idx <= rank k idx)%nat -> ~ (k, v) ∈ blocks idx blk.
Proof.
  intros HB Hr Hin. apply elem_blocks in Hin as (i & s & e & Hi & Hin). pose proof (lookup_lt_Some _ _ _ Hi).
  pose proof (proj2 (rank_sorted k idx _ _ (bs_sorted _ _ _ HB) Hi) ltac:(lia)) as Hs.
  pose proof (bs_le _ _ _ HB _ _ _ _ Hi Hin) as Hle. cbn [fst] in *. pose proof (StringPiece.compare_opp k s). lia.
Qed.

Definition get_post (k : list Z) (res : option (list Z * list Z)) : Prop :=
  (forall v, (k, v) ∈ kvs -> res = Some (k, v)) /\
  (forall p, res = Some p -> p ∈ kvs /\ StringPiece.compare k p.1 <= 0).
Lemma InternalGet_spec table iiter idx blk k : Opened table iiter idx blk -> StronglySorted TableIterator.kv_lt kvs ->
  exists res, InternalGet table k = Done (OK, res) /\ get_post k res.
Proof.
  intros [H1 H2 H3 H4 H5 H6 H7 H8] Hs. unfold InternalGet. rewrite H2.
  assert (Hok : forall s, ok s = true -> s = OK) by (by intros [[?|]]).
  pose proof (Seek_law _ _ k H3 (bs_sorted _ _ _ H5)) as Hw. apply wp_Done in Hw as ([] & iiter' & -> & Hon).
  rewrite (on_Valid _ _ _ Hon), (Hok _ (over_status _ _ (on_over _ _ _ Hon))). case_bool_decide as Hlt.
  - destruct (lookup_lt_is_Some_2 idx _ Hlt) as [[s e] Hi]. destruct (on_entry _ _ _ _ _ Hon Hi) as [_ ->].
    destruct (bs_open _ _ _ H5 _ _ _ Hi) as (d & -> & Hd). rewrite H6 in Hs. pose proof (blk_sorted idx blk _ _ _ Hs Hi) as Hsb.
    pose proof (Seek_law _ _ k Hd Hsb) as Hw. apply wp_Done in Hw as ([] & d' & -> & Hond).
    rewrite (Hok _ (over_status _ _ (on_over _ _ _ Hond))), (on_Valid _ _ _ Hond). cbn [ok OK state_]. eexists. split; [done|]. split.
    + intros v Hin. rewrite H6 in Hin. pose proof (key_block _ _ _ _ _ _ _ _ H5 eq_refl Hi Hin) as Hb.
      pose proof (seek_in_block k v _ _ Hsb Hb eq_refl) as Hj. destruct (on_entry _ _ _ _ _ Hond Hj) as [-> ->].
      rewrite bool_decide_true; [done|]. by eapply lookup_lt_Some.
    + intros p Hp. case_bool_decide as Hlt2; [|done]. destruct (lookup_lt_is_Some_2 _ _ Hlt2) as [[k' v'] Hj].
      destruct (on_entry _ _ _ _ _ Hond Hj) as [E1 E2]. rewrite E1, E2 in Hp. injection Hp as <-. split.
      * rewrite H6. apply elem_blocks. exists (rank k idx), s, e. split; [done|]. by eapply list_elem_of_lookup_2.
      * apply StringPiece.compare_not_lt. rewrite (rank_sorted k _ _ _ Hsb Hj). lia.
  - exists None. split; [done|]. split; [|done]. intros v Hin. rewrite H6 in Hin. by apply (past_blocks idx blk _ k v H5) in Hin; [|lia].
Qed.
Lemma ApproximateOffsetOf_spec table iiter idx blk k : Opened table iiter idx blk ->
  exists h, ApproximateOffsetOf table k = Done (offset_ h) /\ handle_ok h.
Proof.
  intros [H1 H2 H3 H4 H5 H6 H7 H8]. unfold ApproximateOffsetOf. rewrite H2.
  pose proof (Seek_law _ _ k H3 (bs_sorted _ _ _ H5)) as Hw. apply wp_Done in Hw as ([] & iiter' & -> & Hon).
  rewrite (on_Valid _ _ _ Hon). case_bool_decide as Hlt; [|by eexists].
  destruct (lookup_lt_is_Some_2 idx _ Hlt) as [[s e] Hi]. destruct (on_entry _ _ _ _ _ Hon Hi) as [_ ->].
  destruct (H8 _ _ _ Hi) as (h & -> & Hh). rewrite <- (app_nil_r (enc_handle h)), DecodeFrom_enc by done. by exists h.
Qed.
End Image.

(** ** A small table in memory *)

Lemma run_image (o : TableBuilder.Options) (r : @TableBuilder.Rep (list Z)) kvs run :
  1 <= TableBuilder.block_restart_interval o -> TableBuilder.compression o = kNoCompression ->
  TableBuilder.Rep_new o [] = Done r -> Forall small_kv kvs -> StronglySorted TableIterator.kv_lt kvs -> total kvs < 2 ^ 30 ->
  run = (TableBuilder.AddAll (Sn := NoSnappy) kvs ;;; TableBuilder.Finish (Sn := NoSnappy)) r ->
  match run with Done (st, _) => ok st | _ => false end = true ->
  match run with Done (_, r') => TableImage (Sn := NoSnappy) o (TableBuilder.file r') kvs | _ => False end.
Proof.
  intros Hi Hc Hr H1 H2 H3 -> Hok. pose proof (build_spec (Sn := NoSnappy) o Hi (or_introl Hc) ([] : list Z) r kvs Hr eq_refl H1 H2 H3) as Hw.
  unfold wp in Hw. destruct ((_ ;;; _) r) as [[st r']| |]; [|done..]. by apply Hw.
Qed.

Definition small_options : TableBuilder.Options := TableBuilder.mkOptions 40 2 0.
Definition small_pairs : list (list Z * list Z) := [([97], [1]); ([97; 98], [2]); ([98], replicate 50 7); ([98; 1], [3; 4])].
Definition small_rep : @TableBuilder.Rep (list Z) :=
  TableBuilder.mkRep small_options (TableBuilder.mkOptions 40 1 0) [] 0 OK Block.BlockBuilder_new Block.BlockBuilder_new [] 0 false false
    BlockHandle_new [].
Definition small_run : outcome (Status * @TableBuilder.Rep (list Z)) :=
  (TableBuilder.AddAll (Sn := NoSnappy) small_pairs ;;; TableBuilder.Finish (Sn := NoSnappy)) small_rep.
Definition small_table : list Z := match small_run with Done (_, r') => TableBuilder.file r' | _ => [] end.
Lemma small_pairs_ok : Forall small_kv small_pairs /\ StronglySorted TableIterator.kv_lt small_pairs /\ total small_pairs < 2 ^ 30.
Proof.
  split; [repeat constructor; unfold is_byte; cbn; lia|]. split; [repeat constructor|]. vm_compute. reflexivity.
Qed.
Lemma small_image : TableImage (Sn := NoSnappy) small_options (file_contents small_table) small_pairs.
Proof.
  destruct small_pairs_ok as (H1 & H2 & H3).
  assert (Hok : match small_run with Done (st, _) => ok st | _ => false end = true) by (vm_compute; reflexivity).
  assert (Erun : small_run = (TableBuilder.AddAll (Sn := NoSnappy) small_pairs ;;; TableBuilder.Finish (Sn := NoSnappy)) small_rep)
    by (unfold small_run; reflexivity).
  pose proof (run_image small_options small_rep small_pairs small_run ltac:(cbn; lia) eq_refl eq_refl H1 H2 H3 Erun Hok) as Hw.
  unfold file_contents, MemFile_Laws, small_table. clear Erun Hok. destruct small_run as [[st r']| |]; [exact Hw|destruct Hw..].
Qed.

(** ** The properties *)

(** C14: What is written is read back, end to end: for every block size, restart
    interval and compression, strictly sorted pairs added to a table builder
    whose [Finish] returns OK give a file that [Table::Open] opens; a scan of
    its iterator returns exactly the pairs, and a scan from [Seek t] exactly
    those whose key is not before [t], with an OK status. *)
Theorem table_roundtrip {W} `{WritableLaws W} {F} `{RandomAccessLaws F} {Sn : Snappy} {SL : SnappyLaws}
    (o : TableBuilder.Options) (w : W) r kvs :
  1 <= TableBuilder.block_restart_interval o -> TableBuilder.compression o = kNoCompression \/ TableBuilder.compression o = kSnappyCompression ->
  TableBuilder.Rep_new o w = Done r -> written w = [] ->
  Forall small_kv kvs -> StronglySorted TableIterator.kv_lt kvs -> total kvs < 2 ^ 30 ->
  wp (TableBuilder.AddAll kvs ;;; TableBuilder.Finish) r (fun st r' => ok st = true ->
    forall f : F, file_contents f = written (TableBuilder.file r') ->
    exists table it, Open o f (zlength (file_contents f)) = Done (OK, Some table) /\ NewIterator table = Done it /\
      let I := Table_Iterator table in
      wp (it_SeekToFirst ;;; collect (S (length kvs))) it (fun l it' => l = kvs /\ ok (it_status it') = true) /\
      forall t, wp (it_Seek t ;;; collect (S (length kvs))) it (fun l it' =>
        l = filter (fun p => ~ StringPiece.compare p.1 t < 0) kvs /\ ok (it_status it') = true)).
Proof.
  intros Hi Hc Hr Hw Hs Hsort Ht. eapply wp_mono; [by eapply (build_spec o Hi Hc w r kvs)|]. cbv beta.
  intros st r' (_ & _ & Hpost) Hok f Hf. destruct (Hpost Hok) as [Himg _]. rewrite <- Hf in Himg.
  destruct (image_opens o f kvs Hi Himg Hs Ht) as (table & iiter & idx & blk & HO).
  destruct (opened_over o f kvs _ _ _ _ HO) as [Hnew Hover]. exists table, (NewTwoLevelIterator iiter).
  split; [by apply (op_open _ _ _ _ _ _ _ HO)|]. split; [done|]. intros I. split.
  - apply (scan_spec (H0 := TwoLevel_Laws _ _) kvs); [done|lia].
  - intros t. apply (scan_from_spec (H0 := TwoLevel_Laws _ _) kvs); [done|done|lia].
Qed.

Lemma table_roundtrip_witness :
  exists r, TableBuilder.Rep_new small_options ([] : list Z) = Done r /\
  wp (TableBuilder.AddAll (Sn := NoSnappy) small_pairs ;;; TableBuilder.Finish (Sn := NoSnappy)) r (fun st r' => ok st = true ->
    forall f : list Z, file_contents f = written (TableBuilder.file r') ->
    exists table it, Open (Sn := NoSnappy) small_options f (zlength (file_contents f)) = Done (OK, Some table) /\
      NewIterator table = Done it /\
      let I := Table_Iterator (Sn := NoSnappy) table in
      wp (it_SeekToFirst ;;; collect 5) it (fun l it' => l = small_pairs /\ ok (it_status it') = true) /\
      forall t, wp (it_Seek t ;;; collect 5) it (fun l it' =>
        l = filter (fun p => ~ StringPiece.compare p.1 t < 0) small_pairs /\ ok (it_status it') = true)).
Proof.
  eexists. split; [reflexivity|]. destruct small_pairs_ok as (H1 & H2 & H3).
  apply (table_roundtrip (Sn := NoSnappy) small_options ([] : list Z) _ small_pairs).
  - cbn. lia.
  - left. reflexivity.
  - reflexivity.
  - reflexivity.
  - exact H1.
  - exact H2.
  - exact H3.
Defined.

(** In an opened table [InternalGet k] ends with an OK status; it passes the
    pair of [k] to the callback when the table holds [k], and only ever a
    pair of the table whose key is not before [k]; [ApproximateOffsetOf]
    returns the offset of a block. *)
Theorem table_get {F} `{RandomAccessLaws F} {Sn : Snappy} (o : TableBuilder.Options) (f : F) kvs k :
  1 <= TableBuilder.block_restart_interval o -> TableImage o (file_contents f) kvs -> Forall small_kv kvs ->
  StronglySorted TableIterator.kv_lt kvs -> total kvs < 2 ^ 30 ->
  exists table res h, Open o f (zlength (file_contents f)) = Done (OK, Some table) /\
    InternalGet table k = Done (OK, res) /\
    (forall v, (k, v) ∈ kvs -> res = Some (k, v)) /\
    (forall p, res = Some p -> p ∈ kvs /\ StringPiece.compare k p.1 <= 0) /\
    ApproximateOffsetOf table k = Done (offset_ h) /\ handle_ok h.
Proof.
  intros Hi Himg Hs Hsort Ht. destruct (image_opens o f kvs Hi Himg Hs Ht) as (table & iiter & idx & blk & HO).
  destruct (InternalGet_spec o f kvs _ _ _ _ k HO Hsort) as (res & E & P1 & P2).
  destruct (ApproximateOffsetOf_spec o f kvs _ _ _ _ k HO) as (h & Eh & Hh).
  exists table, res, h. split; [apply (op_open _ _ _ _ _ _ _ HO)|]. by split_and!.
Qed.
Lemma table_get_witness :
  exists table, Open (Sn := NoSnappy) small_options small_table (zlength (file_contents small_table)) = Done (OK, Some table) /\
    InternalGet (Sn := NoSnappy) table [98; 1] = Done (OK, Some ([98; 1], [3; 4])).
Proof.
  destruct small_pairs_ok as (H1 & H2 & H3).
  destruct (table_get (Sn := NoSnappy) small_options (small_table : list Z) small_pairs [98; 1] ltac:(cbn; lia) small_image H1 H2 H3)
    as (table & res & h & E1 & E2 & E3 & _).
  exists table. split; [exact E1|]. rewrite E2, (E3 [3; 4]); [reflexivity|]. do 3 apply list_elem_of_further. apply list_elem_of_here.
Defined.
End Table.
