(* ===== verification/Numbers.v ===== *)
(** * Numbers and text

    The integer conversions of [core/lib/strings/numbers.cc] and the string
    utilities of [str_util.{h,cc}] that the parsers of the runtime use.
    Strings are lists of bytes; a parser returns [None] where the C++ returns
    false, and the rest of the input where it advances a [StringPiece]. *)
From S2P Require Import Prelude StringPiece.

Module Numbers.

(** ** <ctype.h>, in the C locale *)
Definition isdigit (c : Z) : bool := (48 <=? c) && (c <=? 57).
Definition isspace (c : Z) : bool := ((9 <=? c) && (c <=? 13)) || (c =? 32).

(** ** Printing *)

(** The do-while loop of [FastUInt64ToBufferLeft]: the digits, the last first.
    Twenty digits hold 2^64 - 1. *)
Fixpoint to_buffer_loop (fuel : nat) (i : Z) : list Z :=
  match fuel with
  | O => []
  | S fuel' => (i mod 10 + 48) :: (if 0 <? i / 10 then to_buffer_loop fuel' (i / 10) else [])
  end.
Definition FastUInt64ToBufferLeft (i : Z) : list Z := rev (to_buffer_loop 20 i).
Definition FastInt64ToBufferLeft (i : Z) : list Z :=
  let u := u64 i in
  if i <? 0 then 45 :: FastUInt64ToBufferLeft (u64 (0 - u)) else FastUInt64ToBufferLeft u.
Definition FastUInt32ToBufferLeft (i : Z) : list Z := rev (to_buffer_loop 20 i).
Definition FastInt32ToBufferLeft (i : Z) : list Z :=
  let u := u32 i in
  if i <? 0 then 45 :: FastUInt32ToBufferLeft (u32 (0 - u)) else FastUInt32ToBufferLeft u.

Definition hexdigit (d : Z) : Z := if d <? 10 then 48 + d else 97 + (d - 10).
Fixpoint hex_loop (n : nat) (v : Z) (acc : list Z) : list Z :=
  match n with O => acc | S n' => hex_loop n' (Z.shiftr v 4) (hexdigit (Z.land v 15) :: acc) end.
Definition Uint64ToHexString (v : Z) : list Z := hex_loop 16 v [].

(** ** Parsing *)

Definition SafeFirstChar (str : list Z) : Z := match str with [] => 0 | c :: _ => c end.
Fixpoint SkipSpaces (str : list Z) : list Z :=
  match str with [] => [] | c :: str' => if isspace c then SkipSpaces str' else str end.

(** The digit loops, by what they do with one digit: [None] returns false. *)
Fixpoint digit_loop (step : Z -> Z -> option Z) (str : list Z) (result : Z) : option (Z * list Z) :=
  match str with
  | c :: str' =>
      if isdigit c then match step (c - 48) result with Some r => digit_loop step str' r | None => None end else Some (result, str)
  | [] => Some (result, [])
  end.
(** After the sign: at least one digit, the loop, trailing spaces. *)
Definition finish_number (step : Z -> Z -> option Z) (str : list Z) : option Z :=
  if negb (isdigit (SafeFirstChar str)) then None
  else match digit_loop step str 0 with
       | Some (result, rest) => match SkipSpaces rest with [] => Some result | _ => None end
       | None => None
       end.

Definition kint64max : Z := 2 ^ 63 - 1.
Definition kint64min : Z := - 2 ^ 63.
Definition kuint64max : Z := 2 ^ 64 - 1.
Definition kint32max : Z := 2 ^ 31 - 1.
Definition kuint32max : Z := 2 ^ 32 - 1.

Definition strto64_pos_step (digit result : Z) : option Z :=
  if (kint64max - digit) ÷ 10 <? result then None else Some (s64 (result * 10 + digit)).
Definition strto64_neg_step (digit result : Z) : option Z :=
  if result <? (kint64min + digit) ÷ 10 then None else Some (s64 (result * 10 - digit)).
Definition safe_strto64 (str : list Z) : option Z :=
  match StringPiece.Consume (SkipSpaces str) [45] with
  | (true, str) => finish_number strto64_neg_step str
  | (false, str) => finish_number strto64_pos_step str
  end.
(** [result] is an [int64] that the comparison converts to [uint64]. *)
Definition strtou64_step (digit result : Z) : option Z :=
  if (kuint64max - digit) ÷ 10 <? u64 result then None else Some (s64 (result * 10 + digit)).
Definition safe_strtou64 (str : list Z) : option Z :=
  match finish_number strtou64_step (SkipSpaces str) with Some r => Some (u64 r) | None => None end.
Definition strto32_step (vmax digit result : Z) : option Z :=
  let result := result * 10 + digit in if vmax <? result then None else Some result.
Definition safe_strto32 (str : list Z) : option Z :=
  match StringPiece.Consume (SkipSpaces str) [45] with
  | (true, str) => match finish_number (strto32_step (kint32max + 1)) str with Some r => Some (s32 (r * -1)) | None => None end
  | (false, str) => match finish_number (strto32_step kint32max) str with Some r => Some (s32 (r * 1)) | None => None end
  end.
Definition safe_strtou32 (str : list Z) : option Z :=
  match finish_number (strto32_step kuint32max) (SkipSpaces str) with Some r => Some (u32 r) | None => None end.

Fixpoint hex_parse (s : list Z) (v : Z) : option Z :=
  match s with
  | [] => Some v
  | c :: s' =>
      if (48 <=? c) && (c <=? 57) then hex_parse s' (u64 (u64 (Z.shiftl v 4) + (c - 48)))
      else if (97 <=? c) && (c <=? 102) then hex_parse s' (u64 (u64 (Z.shiftl v 4) + 10 + (c - 97)))
      else if (65 <=? c) && (c <=? 70) then hex_parse s' (u64 (u64 (Z.shiftl v 4) + 10 + (c - 65)))
      else None
  end.
Definition HexStringToUint64 (s : list Z) : option Z := match s with [] => None | _ => hex_parse s 0 end.

(** ** str_util *)

Definition ConsumePrefix (s expected : list Z) : option (list Z) :=
  if StringPiece.starts_with s expected then Some (StringPiece.remove_prefix (length expected) s) else None.
Definition leading_digit_step (digit v : Z) : option Z :=
  let new_v := u64 (u64 (v * 10) + digit) in if new_v / 8 <? v then None else Some new_v.
Definition ConsumeLeadingDigits (s : list Z) : option (Z * list Z) :=
  match digit_loop leading_digit_step s 0 with
  | Some (v, rest) => if (length rest <? length s)%nat then Some (v, rest) else None
  | None => None
  end.

(** [Split(text, delim, p)]: [token] holds the characters of [text] from
    [token_start] to [i]. *)
Fixpoint split_loop (text token : list Z) (delim : Z) (p : list Z -> bool) : list (list Z) :=
  let push := if p token then [token] else [] in
  match text with
  | [] => push
  | c :: text' => if c =? delim then push ++ split_loop text' [] delim p else split_loop text' (token ++ [c]) delim p
  end.
Definition Split (text : list Z) (delim : Z) (p : list Z -> bool) : list (list Z) :=
  match text with [] => [] | _ => split_loop text [] delim p end.
Definition AllowEmpty (sp : list Z) : bool := true.
Definition SkipEmpty (sp : list Z) : bool := match sp with [] => false | _ => true end.
Definition Join (s : list (list Z)) (sep : list Z) : list Z :=
  match s with [] => [] | x :: s' => x ++ concat (map (fun y => sep ++ y) s') end.

(** ** Decimal digits *)

Definition dec (ds : list Z) (a : Z) : Z := fold_left (fun v c => v * 10 + (c - 48)) ds a.
Definition digits (ds : list Z) : Prop := Forall (fun c => isdigit c = true) ds.
Definition no_digit (rest : list Z) : Prop := isdigit (SafeFirstChar rest) = false.

Lemma isdigit_range c : isdigit c = true <-> 48 <= c <= 57.
Proof. unfold isdigit. rewrite andb_true_iff, !Z.leb_le. done. Qed.
Lemma dec_app d1 d2 a : dec (d1 ++ d2) a = dec d2 (dec d1 a).
Proof. apply fold_left_app. Qed.
Lemma dec_ge ds a : digits ds -> 0 <= a -> a <= dec ds a.
Proof.
  intros H. revert a. induction H as [|c ds Hc _ IH]; intros a Ha; [cbn; lia|]. cbn. apply isdigit_range in Hc.
  specialize (IH (a * 10 + (c - 48))). unfold dec in IH. lia.
Qed.

(** A step that adds a digit to the number that [rep] represents, while it is
    at most [lim]. *)
Definition exact_step (rep : Z -> Z) (lim : Z) (step : Z -> Z -> option Z) : Prop :=
  forall digit a, 0 <= digit <= 9 -> 0 <= a <= lim -> step digit (rep a) = if a * 10 + digit <=? lim then Some (rep (a * 10 + digit)) else None.
Lemma digit_loop_spec rep lim step ds rest a :
  exact_step rep lim step -> digits ds -> no_digit rest -> 0 <= a <= lim ->
  digit_loop step (ds ++ rest) (rep a) = if dec ds a <=? lim then Some (rep (dec ds a), rest) else None.
Proof.
  intros Hs Hd Hr. revert a. induction Hd as [|c ds Hc Hds IH]; intros a Ha; cbn [app digit_loop].
  - cbn. destruct (Z.leb_spec a lim); [|lia]. unfold no_digit in Hr. destruct rest as [|c rest]; [done|]. cbn in *. by rewrite Hr.
  - rewrite Hc. apply isdigit_range in Hc. rewrite Hs by lia. cbn [dec fold_left]. destruct (Z.leb_spec (a * 10 + (c - 48)) lim).
    + rewrite IH by lia. done.
    + pose proof (dec_ge ds (a * 10 + (c - 48)) Hds). fold (dec ds (a * 10 + (c - 48))). destruct (Z.leb_spec (dec ds (a * 10 + (c - 48))) lim); [lia|done].
Qed.

Ltac by_division := try (Z.to_euclidean_division_equations; nia); try done.
Lemma strto64_pos_exact : exact_step id kint64max strto64_pos_step.
Proof.
  intros d a Hd Ha. unfold strto64_pos_step, kint64max, id in *. rewrite Z.quot_div_nonneg by lia.
  destruct (Z.leb_spec (a * 10 + d) (2 ^ 63 - 1)), (Z.ltb_spec ((2 ^ 63 - 1 - d) / 10) a); by_division. by rewrite s64_id by lia.
Qed.
Lemma strto64_neg_exact : exact_step Z.opp (2 ^ 63) strto64_neg_step.
Proof.
  intros d a Hd Ha. unfold strto64_neg_step, kint64min in *.
  destruct (Z.leb_spec (a * 10 + d) (2 ^ 63)), (Z.ltb_spec (- a) ((- 2 ^ 63 + d) ÷ 10)); by_division. rewrite s64_id by lia. f_equal. lia.
Qed.
Lemma u64_s64 a : u64 (s64 a) = u64 a.
Proof. unfold u64, s64. rewrite Zminus_mod_idemp_l. f_equal. lia. Qed.
Lemma s64_congr a b : a mod 2 ^ 64 = b mod 2 ^ 64 -> s64 a = s64 b.
Proof. intros E. unfold s64. rewrite <- (Zplus_mod_idemp_l a), <- (Zplus_mod_idemp_l b). by rewrite E. Qed.
Lemma strtou64_exact : exact_step s64 kuint64max strtou64_step.
Proof.
  intros d a Hd Ha. unfold strtou64_step, kuint64max in *. rewrite u64_s64, (u64_id a), Z.quot_div_nonneg by lia.
  destruct (Z.leb_spec (a * 10 + d) (2 ^ 64 - 1)), (Z.ltb_spec ((2 ^ 64 - 1 - d) / 10) a); by_division. f_equal. apply s64_congr.
  pose proof (u64_s64 a) as E. unfold u64 in E. by rewrite <- Zplus_mod_idemp_l, <- Zmult_mod_idemp_l, E, Zmult_mod_idemp_l, Zplus_mod_idemp_l.
Qed.
Lemma strto32_exact vmax : exact_step id vmax (strto32_step vmax).
Proof.
  intros d a Hd Ha. unfold strto32_step, id. destruct (Z.leb_spec (a * 10 + d) vmax), (Z.ltb_spec vmax (a * 10 + d)); try lia; done.
Qed.
Lemma leading_digit_exact : exact_step id kuint64max leading_digit_step.
Proof.
  intros d a Hd Ha. unfold leading_digit_step, kuint64max, id in *. unfold u64. rewrite Zplus_mod_idemp_l.
  pose proof (Z.div_mod (a * 10 + d) (2 ^ 64)). pose proof (Z.mod_pos_bound (a * 10 + d) (2 ^ 64)).
  set (r := (a * 10 + d) mod 2 ^ 64) in *. set (k := (a * 10 + d) / 2 ^ 64) in *.
  assert (0 <= k) by (apply Z.div_pos; lia).
  destruct (Z.leb_spec (a * 10 + d) (2 ^ 64 - 1)), (Z.ltb_spec (r / 8) a); by_division. f_equal. subst r. apply Z.mod_small. lia.
Qed.

(** ** The syntax of numbers *)

Definition spaces (sp : list Z) : Prop := Forall (fun c => isspace c = true) sp.
(** Spaces, digits, spaces; and with an optional minus sign. *)
Definition unsigned_text (str ds : list Z) : Prop := exists sp, str = ds ++ sp /\ spaces sp /\ digits ds /\ ds <> [].
Definition number_text (str : list Z) (neg : bool) (ds : list Z) : Prop :=
  exists sp str', str = sp ++ (if neg then [45] else []) ++ str' /\ spaces sp /\ unsigned_text str' ds.

Lemma isdigit_not_space c : isdigit c = true -> isspace c = false.
Proof. rewrite isdigit_range. unfold isspace. intros. destruct (Z.eqb_spec c 32), (Z.leb_spec 9 c), (Z.leb_spec c 13); try lia; done. Qed.
Lemma isspace_not_digit c : isspace c = true -> isdigit c = false.
Proof. intros H. destruct (isdigit c) eqn:E; [|done]. apply isdigit_not_space in E. congruence. Qed.
Lemma SkipSpaces_split str : exists sp, str = sp ++ SkipSpaces str /\ spaces sp /\ isspace (SafeFirstChar (SkipSpaces str)) = false.
Proof.
  induction str as [|c str (sp & E & Hsp & Hn)]; [exists []; split_and!; [done|constructor|done]|]. cbn. destruct (isspace c) eqn:Ec.
  - exists (c :: sp). split_and!; [by rewrite E at 1|by constructor|done].
  - exists []. split_and!; [done|constructor|done].
Qed.
Lemma SkipSpaces_spaces sp rest : spaces sp -> isspace (SafeFirstChar rest) = false -> SkipSpaces (sp ++ rest) = rest.
Proof. intros H Hr. induction H as [|c sp Hc _ IH]; cbn; [|by rewrite Hc]. destruct rest as [|c rest]; [done|]. cbn in *. by rewrite Hr. Qed.
Lemma digits_split str : exists ds rest, str = ds ++ rest /\ digits ds /\ no_digit rest.
Proof.
  induction str as [|c str (ds & rest & E & Hd & Hn)]; [exists [], []; split_and!; [done|constructor|exact eq_refl]|]. destruct (isdigit c) eqn:Ec.
  - exists (c :: ds), rest. split_and!; [by rewrite E|by constructor|done].
  - exists [], (c :: str). split_and!; [done|constructor|exact Ec].
Qed.

Lemma finish_number_spec rep lim step str z : exact_step rep lim step -> 0 <= lim -> rep 0 = 0 ->
  finish_number step str = Some z <-> exists ds, unsigned_text str ds /\ dec ds 0 <= lim /\ z = rep (dec ds 0).
Proof.
  intros Hs Hl H0. unfold finish_number. split.
  - destruct (digits_split str) as (ds & rest & -> & Hd & Hn). destruct ds as [|c ds].
    { cbn [app]. unfold no_digit in Hn. by rewrite Hn. }
    apply Forall_cons in Hd as Hd'. destruct Hd' as [Hc _]. cbn [app SafeFirstChar]. rewrite Hc. cbn [negb].
    pose proof (digit_loop_spec rep lim step (c :: ds) rest 0 Hs Hd Hn ltac:(lia)) as E. rewrite H0 in E. cbn [app] in E. rewrite E. clear E.
    destruct (Z.leb_spec (dec (c :: ds) 0) lim); [|done]. destruct (SkipSpaces_split rest) as (sp & E & Hsp & _).
    destruct (SkipSpaces rest) eqn:Er; [|done]. intros [= <-]. exists (c :: ds). split_and!; [|done..]. exists sp. rewrite E, app_nil_r. done.
  - intros (ds & (sp & -> & Hsp & Hd & Hne) & Hle & ->). destruct ds as [|c ds]; [done|]. apply Forall_cons in Hd as Hd'. destruct Hd' as [Hc _].
    assert (Hn : no_digit sp) by (destruct Hsp as [|s sp Hs' _]; [exact eq_refl|by apply isspace_not_digit]).
    pose proof (digit_loop_spec rep lim step (c :: ds) sp 0 Hs Hd Hn ltac:(lia)) as E. rewrite H0 in E. cbn [app] in E |- *.
    cbn [SafeFirstChar]. rewrite Hc, E. cbn [negb]. destruct (Z.leb_spec (dec (c :: ds) 0) lim); [|lia].
    by rewrite <- (app_nil_r sp), SkipSpaces_spaces.
Qed.

Lemma number_text_false str ds : number_text str false ds <-> unsigned_text (SkipSpaces str) ds.
Proof.
  split.
  - intros (sp & str' & -> & Hsp & Hu). rewrite SkipSpaces_spaces; [done|done|]. cbn [app].
    destruct Hu as (s2 & -> & _ & Hd & Hne). destruct Hd as [|c ds Hc _]; [done|]. by apply isdigit_not_space.
  - intros Hu. destruct (SkipSpaces_split str) as (sp & E & Hsp & _). by exists sp, (SkipSpaces str).
Qed.
Lemma number_text_true str ds : number_text str true ds <-> exists s', SkipSpaces str = 45 :: s' /\ unsigned_text s' ds.
Proof.
  split.
  - intros (sp & str' & -> & Hsp & Hu). exists str'. by rewrite SkipSpaces_spaces.
  - intros (s' & E & Hu). destruct (SkipSpaces_split str) as (sp & E' & Hsp & _). exists sp, s'. by rewrite E in E'.
Qed.
Lemma unsigned_no_minus s ds : ~ unsigned_text (45 :: s) ds.
Proof. intros (sp & E & _ & Hd & Hne). destruct Hd as [|c ds Hc _]; [done|]. injection E as <- _. done. Qed.
(** [Consume("-")] *)
Lemma Consume_minus s : (exists s', s = 45 :: s' /\ StringPiece.Consume s [45] = (true, s')) \/
  ((forall s', s <> 45 :: s') /\ StringPiece.Consume s [45] = (false, s)).
Proof.
  unfold StringPiece.Consume. destruct (StringPiece.starts_with s [45]) eqn:E.
  - left. apply StringPiece.starts_with_spec in E as [r ->]. by exists r.
  - right. split; [|done]. intros s' ->. assert (H : StringPiece.starts_with (45 :: s') [45] = true) by (apply StringPiece.starts_with_spec; by exists s').
    congruence.
Qed.
Lemma signed_spec (pos neg : list Z -> option Z) str z (P N : Z -> Prop) :
  (forall s, pos s = Some z <-> exists ds, unsigned_text s ds /\ P (dec ds 0)) ->
  (forall s, neg s = Some z <-> exists ds, unsigned_text s ds /\ N (dec ds 0)) ->
  (match StringPiece.Consume (SkipSpaces str) [45] with (true, s) => neg s | (false, s) => pos s end) = Some z <->
  exists ng ds, number_text str ng ds /\ (if ng then N (dec ds 0) else P (dec ds 0)).
Proof.
  intros Hp Hn. destruct (Consume_minus (SkipSpaces str)) as [(s' & E & ->)|[Hne ->]].
  - rewrite Hn. split.
    + intros (ds & Hu & Hz). exists true, ds. split; [|done]. apply number_text_true. by exists s'.
    + intros ([] & ds & Ht & Hz); [|apply number_text_false in Ht; rewrite E in Ht; by apply unsigned_no_minus in Ht].
      apply number_text_true in Ht as (s2 & E2 & Hu). rewrite E in E2. injection E2 as <-. by exists ds.
  - rewrite Hp. split.
    + intros (ds & Hu & Hz). exists false, ds. by rewrite number_text_false.
    + intros ([] & ds & Ht & Hz); [apply number_text_true in Ht as (s2 & E2 & _); by apply Hne in E2|].
      apply number_text_false in Ht. by exists ds.
Qed.
Lemma dec_nonneg ds : digits ds -> 0 <= dec ds 0.
Proof. intros H. by apply (dec_ge ds 0). Qed.

Lemma safe_strto64_spec str z : safe_strto64 str = Some z <->
  exists neg ds, number_text str neg ds /\ (if neg then dec ds 0 <= 2 ^ 63 /\ z = - dec ds 0 else dec ds 0 <= kint64max /\ z = dec ds 0).
Proof.
  apply (signed_spec _ _ _ _ (fun d => d <= kint64max /\ z = d) (fun d => d <= 2 ^ 63 /\ z = - d)); intros s.
  - by apply (finish_number_spec id); [apply strto64_pos_exact| |].
  - by apply (finish_number_spec Z.opp); [apply strto64_neg_exact| |].
Qed.
Lemma safe_strto32_spec str z : safe_strto32 str = Some z <->
  exists neg ds, number_text str neg ds /\ (if neg then dec ds 0 <= kint32max + 1 /\ z = - dec ds 0 else dec ds 0 <= kint32max /\ z = dec ds 0).
Proof.
  assert (H : forall vmax sg s, 0 <= vmax -> (forall a, 0 <= a <= vmax -> s32 (a * sg) = a * sg) ->
    match finish_number (strto32_step vmax) s with Some r => Some (s32 (r * sg)) | None => None end = Some z <->
    exists ds, unsigned_text s ds /\ dec ds 0 <= vmax /\ z = dec ds 0 * sg).
  { intros vmax sg s Hv Hs. assert (F : forall r, finish_number (strto32_step vmax) s = Some r <-> exists ds, unsigned_text s ds /\ dec ds 0 <= vmax /\ r = dec ds 0)
      by (intros r; by apply (finish_number_spec id); [apply strto32_exact| |]).
    split.
    - destruct (finish_number _ s) as [r|]; [|done]. destruct (proj1 (F r) eq_refl) as (ds & Hu & Hle & ->). intros [= <-]. exists ds. split_and!; [done..|].
      apply Hs. split; [|done]. apply dec_nonneg. by destruct Hu as (? & _ & _ & Hd & _).
    - intros (ds & Hu & Hle & ->). rewrite (proj2 (F (dec ds 0))) by eauto. f_equal. apply Hs. split; [|done]. apply dec_nonneg.
      by destruct Hu as (? & _ & _ & Hd & _). }
  unfold safe_strto32, kint32max in *. apply (signed_spec _ _ _ _ (fun d => d <= 2 ^ 31 - 1 /\ z = d) (fun d => d <= 2 ^ 31 - 1 + 1 /\ z = - d)); intros s.
  - rewrite H; [|done|intros; apply s32_id; lia]. by setoid_rewrite Z.mul_1_r.
  - rewrite H; [|done|intros; apply s32_id; lia]. split; intros (ds & ? & ? & ->); exists ds; (split_and!; [done..|lia]).
Qed.
Lemma unsigned_spec step lim rep wrap str z : exact_step rep lim step -> 0 <= lim -> rep 0 = 0 -> (forall a, 0 <= a <= lim -> wrap (rep a) = a) ->
  match finish_number step (SkipSpaces str) with Some r => Some (wrap r) | None => None end = Some z <->
  exists ds, number_text str false ds /\ dec ds 0 <= lim /\ z = dec ds 0.
Proof.
  intros Hs Hl H0 Hw. setoid_rewrite number_text_false. pose proof (fun r => finish_number_spec rep lim step (SkipSpaces str) r Hs Hl H0) as F. split.
  - destruct (finish_number _ _) as [r|]; [|done]. destruct (proj1 (F r) eq_refl) as (ds & Hu & Hle & ->). intros [= <-]. exists ds. split_and!; [done..|].
    apply Hw. split; [|done]. apply dec_nonneg. by destruct Hu as (? & _ & _ & Hd & _).
  - intros (ds & Hu & Hle & ->). rewrite (proj2 (F (rep (dec ds 0)))) by eauto. f_equal. apply Hw. split; [|done]. apply dec_nonneg.
    by destruct Hu as (? & _ & _ & Hd & _).
Qed.

(** ** Printing *)

Lemma to_buffer_loop_spec fuel i : 0 <= i < 10 ^ Z.of_nat fuel -> (fuel <> 0)%nat ->
  digits (to_buffer_loop fuel i) /\ to_buffer_loop fuel i <> [] /\ dec (rev (to_buffer_loop fuel i)) 0 = i.
Proof.
  revert i. induction fuel as [|fuel IH]; intros i Hi Hf; [done|]. cbn [to_buffer_loop].
  assert (Hc : isdigit (i mod 10 + 48) = true) by (apply isdigit_range; pose proof (Z.mod_pos_bound i 10); lia).
  destruct (Z.ltb_spec 0 (i / 10)) as [Hlt|Hle].
  - rewrite Nat2Z.inj_succ, Z.pow_succ_r in Hi by lia. destruct fuel as [|fuel]; [cbn in Hi; Z.to_euclidean_division_equations; lia|].
    destruct (IH (i / 10)) as (H1 & _ & H3); [|done|]; [split; [lia|apply Z.div_lt_upper_bound; lia]|].
    split_and!; [by constructor|done|]. cbn [rev]. rewrite dec_app, H3. cbn. pose proof (Z.div_mod i 10). lia.
  - split_and!; [by repeat constructor|done|]. cbn. Z.to_euclidean_division_equations; lia.
Qed.
Lemma FastUInt64_digits i : 0 <= i < 2 ^ 64 -> digits (FastUInt64ToBufferLeft i) /\ FastUInt64ToBufferLeft i <> [] /\ dec (FastUInt64ToBufferLeft i) 0 = i.
Proof.
  intros Hi. unfold FastUInt64ToBufferLeft. destruct (to_buffer_loop_spec 20 i) as (H1 & H2 & H3); [lia|done|]. split_and!; [|intros E|done].
  - by apply Forall_rev.
  - apply H2. apply (f_equal (@rev Z)) in E. by rewrite rev_involutive in E.
Qed.
(** [FastInt64ToBufferLeft]: a minus sign before the digits of the magnitude. *)
Lemma FastInt64_digits z : - 2 ^ 63 <= z < 2 ^ 63 ->
  FastInt64ToBufferLeft z = (if z <? 0 then [45] else []) ++ FastUInt64ToBufferLeft (Z.abs z).
Proof.
  intros Hz. unfold FastInt64ToBufferLeft. destruct (Z.ltb_spec z 0) as [Hn|Hn]; cbn [app].
  - do 2 f_equal. unfold u64. rewrite Zminus_mod_idemp_r, Z.mod_small; lia.
  - f_equal. rewrite u64_id; lia.
Qed.
Lemma FastInt32_eq z : - 2 ^ 31 <= z < 2 ^ 31 -> FastInt32ToBufferLeft z = FastInt64ToBufferLeft z.
Proof.
  intros Hz. rewrite FastInt64_digits by lia. unfold FastInt32ToBufferLeft. destruct (Z.ltb_spec z 0) as [Hn|Hn]; cbn [app].
  - f_equal. unfold FastUInt32ToBufferLeft, FastUInt64ToBufferLeft. do 2 f_equal. unfold u32. rewrite Zminus_mod_idemp_r, Z.mod_small; lia.
  - unfold FastUInt32ToBufferLeft, FastUInt64ToBufferLeft. do 2 f_equal. rewrite u32_id; lia.
Qed.
Lemma FastInt64_text z : - 2 ^ 63 <= z < 2 ^ 63 -> number_text (FastInt64ToBufferLeft z) (z <? 0) (FastUInt64ToBufferLeft (Z.abs z)).
Proof.
  intros Hz. rewrite FastInt64_digits by done. destruct (FastUInt64_digits (Z.abs z)) as (H1 & H2 & _); [lia|].
  exists [], (FastUInt64ToBufferLeft (Z.abs z)). split_and!; [done|constructor|]. exists []. rewrite app_nil_r. split_and!; [done|constructor|done..].
Qed.
Lemma strto64_print z : - 2 ^ 63 <= z < 2 ^ 63 -> safe_strto64 (FastInt64ToBufferLeft z) = Some z.
Proof.
  intros Hz. apply safe_strto64_spec. eexists _, _. split; [by apply FastInt64_text|].
  destruct (FastUInt64_digits (Z.abs z)) as (_ & _ & ->); [lia|]. unfold kint64max. destruct (Z.ltb_spec z 0); lia.
Qed.
Lemma strto32_print z : - 2 ^ 31 <= z < 2 ^ 31 -> safe_strto32 (FastInt32ToBufferLeft z) = Some z.
Proof.
  intros Hz. rewrite FastInt32_eq by done. apply safe_strto32_spec. eexists _, _. split; [apply FastInt64_text; lia|].
  destruct (FastUInt64_digits (Z.abs z)) as (_ & _ & ->); [lia|]. unfold kint32max. destruct (Z.ltb_spec z 0); lia.
Qed.
Lemma ConsumeLeadingDigits_spec ds rest : digits ds -> no_digit rest -> ds <> [] ->
  ConsumeLeadingDigits (ds ++ rest) = if dec ds 0 <=? kuint64max then Some (dec ds 0, rest) else None.
Proof.
  intros Hd Hr Hne. unfold ConsumeLeadingDigits. change 0 with (id 0) at 1. rewrite (digit_loop_spec id kuint64max) by (apply leading_digit_exact || done).
  destruct (_ <=? _); [|done]. rewrite length_app. destruct ds as [|c ds]; [done|]. cbn [length]. by rewrite (proj2 (Nat.ltb_lt _ _)) by lia.
Qed.
Lemma ConsumeLeadingDigits_print i rest : 0 <= i < 2 ^ 64 -> no_digit rest -> ConsumeLeadingDigits (FastUInt64ToBufferLeft i ++ rest) = Some (i, rest).
Proof.
  intros Hi Hr. destruct (FastUInt64_digits i Hi) as (H1 & H2 & H3). rewrite ConsumeLeadingDigits_spec, H3 by done.
  unfold kuint64max. by rewrite (proj2 (Z.leb_le _ _)) by lia.
Qed.

Definition lower_hex (c : Z) : Prop := 48 <= c <= 57 \/ 97 <= c <= 102.
Lemma hexdigit_lower d : 0 <= d < 16 -> lower_hex (hexdigit d).
Proof. intros Hd. unfold hexdigit, lower_hex. destruct (Z.ltb_spec d 10); lia. Qed.
Lemma hex_parse_digit d s v : 0 <= d < 16 -> 0 <= v -> v * 16 + d < 2 ^ 64 -> hex_parse (hexdigit d :: s) v = hex_parse s (v * 16 + d).
Proof.
  intros Hd Hv Hb. cbn [hex_parse]. rewrite Z.shiftl_mul_pow2 by lia. rewrite (u64_id (v * 2 ^ 4)) by lia. unfold hexdigit. destruct (Z.ltb_spec d 10).
  - rewrite (proj2 (Z.leb_le 48 _)), (proj2 (Z.leb_le _ 57)) by lia. cbn [andb]. f_equal. rewrite u64_id by lia. lia.
  - rewrite (proj2 (Z.leb_gt _ 57)), andb_false_r, (proj2 (Z.leb_le 97 _)), (proj2 (Z.leb_le _ 102)) by lia. cbn [andb]. f_equal. rewrite u64_id by lia. lia.
Qed.
Lemma hex_loop_spec n v acc w : 0 <= v < 16 ^ Z.of_nat n -> 0 <= w -> w * 16 ^ Z.of_nat n + v < 2 ^ 64 ->
  hex_parse (hex_loop n v acc) w = hex_parse acc (w * 16 ^ Z.of_nat n + v).
Proof.
  revert v acc. induction n as [|n IH]; intros v acc Hv Hw Hb.
  - cbn in *. do 2 f_equal. lia.
  - cbn [hex_loop]. rewrite Nat2Z.inj_succ, Z.pow_succ_r in Hv, Hb by lia. rewrite Z.shiftr_div_pow2 by lia. change (2 ^ 4) with 16.
    change 15 with (2 ^ 4 - 1). rewrite land_ones_mod by lia. change (2 ^ 4) with 16. pose proof (Z.mod_pos_bound v 16). pose proof (Z.div_mod v 16).
    rewrite IH; [|split; [apply Z.div_pos; lia|apply Z.div_lt_upper_bound; lia]|done|nia].
    assert (0 <= v / 16) by (apply Z.div_pos; lia).
    rewrite hex_parse_digit; [|lia|nia|nia].
    f_equal. rewrite Nat2Z.inj_succ, Z.pow_succ_r by lia. nia.
Qed.
Lemma hex_loop_app n v acc : hex_loop n v acc = hex_loop n v [] ++ acc.
Proof.
  revert v acc. induction n as [|n IH]; intros v acc; [done|]. cbn [hex_loop]. rewrite IH, (IH _ [_]). by rewrite <- app_assoc.
Qed.
Lemma hex_loop_lower n v : Forall lower_hex (hex_loop n v []).
Proof.
  revert v. induction n as [|n IH]; intros v; [constructor|]. cbn [hex_loop]. rewrite hex_loop_app. apply Forall_app. split; [apply IH|].
  constructor; [|constructor]. apply hexdigit_lower. change 15 with (2 ^ 4 - 1). rewrite land_ones_mod by lia. apply Z.mod_pos_bound. lia.
Qed.
Lemma hex_loop_length n v : length (hex_loop n v []) = n.
Proof. revert v. induction n as [|n IH]; intros v; [done|]. cbn [hex_loop]. rewrite hex_loop_app, length_app, IH. cbn. lia. Qed.
Lemma hex_print v : 0 <= v < 2 ^ 64 -> HexStringToUint64 (Uint64ToHexString v) = Some v.
Proof.
  intros Hv. unfold HexStringToUint64, Uint64ToHexString. pose proof (hex_loop_length 16 v) as Hl. pose proof (hex_loop_spec 16 v [] 0) as E.
  destruct (hex_loop 16 v []) as [|c s]; [done|]. rewrite E; [|exact Hv|lia|lia]. done.
Qed.

(** ** Splitting *)

Lemma split_loop_token x rest token d p : d ∉ x -> split_loop (x ++ rest) token d p = split_loop rest (token ++ x) d p.
Proof.
  revert token. induction x as [|c x IH]; intros token Hd; [by rewrite app_nil_r|]. apply not_elem_of_cons in Hd as [Hc Hd].
  cbn. destruct (Z.eqb_spec c d); [congruence|]. rewrite IH by done. by rewrite <- app_assoc.
Qed.
Lemma split_loop_join x xs d p : Forall (fun y => d ∉ y) (x :: xs) -> split_loop (Join (x :: xs) [d]) [] d p = filter (fun y => p y = true) (x :: xs).
Proof.
  assert (Hpush : forall y r, (if p y then [y] else []) ++ filter (fun y => p y = true) r = filter (fun y => p y = true) (y :: r)).
  { intros y r. rewrite filter_cons. by destruct (p y), (decide _). }
  unfold Join. revert x. induction xs as [|y xs IH]; intros x H; apply Forall_cons in H as [Hx H]; rewrite split_loop_token by done; cbn [map concat app].
  - rewrite <- (app_nil_r (split_loop _ _ _ _)). exact (Hpush x []).
  - cbn [split_loop app]. rewrite Z.eqb_refl. pose proof (IH y H) as E. cbn [app] in E. rewrite E. apply Hpush.
Qed.
Lemma Split_Join x xs d p : Forall (fun y => d ∉ y) (x :: xs) -> (xs <> [] \/ p [] = false) ->
  Split (Join (x :: xs) [d]) d p = filter (fun y => p y = true) (x :: xs).
Proof.
  intros H Hp. rewrite <- (split_loop_join x xs d p) by done. unfold Split. destruct (Join (x :: xs) [d]) eqn:E; [|done].
  destruct Hp as [Hp|Hp]; [|by cbn; rewrite Hp]. destruct xs as [|y xs]; [done|]. unfold Join in E. apply app_eq_nil in E as [_ E]. done.
Qed.
Lemma filter_all (p : list Z -> bool) l : Forall (fun y => p y = true) l -> filter (fun y => p y = true) l = l.
Proof. induction 1 as [|y l Hy _ IH]; [done|]. rewrite filter_cons_True by done. by rewrite IH. Qed.
Lemma Split_Join_nonempty xs d : Forall (fun y => d ∉ y) xs -> Forall (fun y => y <> []) xs -> Split (Join xs [d]) d SkipEmpty = xs.
Proof.
  intros H Hne. destruct xs as [|x xs]; [done|]. rewrite Split_Join by auto. apply filter_all. apply (Forall_impl _ _ _ Hne). by intros [|c y].
Qed.
Lemma Split_Join_all x xs d : Forall (fun y => d ∉ y) (x :: xs) -> xs <> [] -> Split (Join (x :: xs) [d]) d AllowEmpty = x :: xs.
Proof. intros H Hx. rewrite Split_Join by auto. apply filter_all. by apply Forall_true. Qed.

(** The integer parsers accept exactly the numbers in range: [safe_strto64]
    and [safe_strto32] return z if and only if the string is spaces, an
    optional minus sign, at least one digit and spaces, and z is the number
    that the digits denote and fits the type; [safe_strtou64] and
    [safe_strtou32] are the same without a sign. In particular no overflow is
    missed and no representable number is refused. *)
Theorem safe_strto_exact str z :
  (safe_strto64 str = Some z <->
     exists neg ds, number_text str neg ds /\ z = (if neg then - dec ds 0 else dec ds 0) /\ - 2 ^ 63 <= z < 2 ^ 63) /\
  (safe_strto32 str = Some z <->
     exists neg ds, number_text str neg ds /\ z = (if neg then - dec ds 0 else dec ds 0) /\ - 2 ^ 31 <= z < 2 ^ 31) /\
  (safe_strtou64 str = Some z <-> exists ds, number_text str false ds /\ z = dec ds 0 /\ z < 2 ^ 64) /\
  (safe_strtou32 str = Some z <-> exists ds, number_text str false ds /\ z = dec ds 0 /\ z < 2 ^ 32).
Proof.
  assert (Hn : forall neg ds, number_text str neg ds -> 0 <= dec ds 0) by (intros neg ds (? & ? & _ & _ & ? & _ & _ & Hd & _); by apply dec_nonneg).
  split_and!.
  - rewrite safe_strto64_spec. unfold kint64max. split; intros (neg & ds & Ht & Hz); exists neg, ds; pose proof (Hn _ _ Ht); (split; [done|]); destruct neg; lia.
  - rewrite safe_strto32_spec. unfold kint32max. split; intros (neg & ds & Ht & Hz); exists neg, ds; pose proof (Hn _ _ Ht); (split; [done|]); destruct neg; lia.
  - unfold safe_strtou64. rewrite (unsigned_spec _ kuint64max s64); [|apply strtou64_exact|done|done|].
    + unfold kuint64max. split; intros (ds & Ht & Hz); exists ds; (split; [done|]); lia.
    + intros a Ha. rewrite u64_s64. apply u64_id. unfold kuint64max in Ha. lia.
  - unfold safe_strtou32. rewrite (unsigned_spec _ kuint32max id); [|apply strto32_exact|done|done|].
    + unfold kuint32max. split; intros (ds & Ht & Hz); exists ds; (split; [done|]); lia.
    + intros a Ha. unfold id. apply u32_id. unfold kuint32max in Ha. lia.
Qed.

(** What is printed is read back: [safe_strto64], [safe_strto32] and
    [ConsumeLeadingDigits] recover every integer of their type from the
    decimal text of the [Fast...ToBufferLeft] functions, [HexStringToUint64]
    recovers it from [Uint64ToHexString], and [ConsumeLeadingDigits] fails on
    every digit string of 2^64 or more. *)
Theorem numbers_roundtrip z rest : no_digit rest ->
  (- 2 ^ 63 <= z < 2 ^ 63 -> safe_strto64 (FastInt64ToBufferLeft z) = Some z) /\
  (- 2 ^ 31 <= z < 2 ^ 31 -> safe_strto32 (FastInt32ToBufferLeft z) = Some z) /\
  (0 <= z < 2 ^ 64 -> ConsumeLeadingDigits (FastUInt64ToBufferLeft z ++ rest) = Some (z, rest)) /\
  (0 <= z < 2 ^ 64 -> HexStringToUint64 (Uint64ToHexString z) = Some z) /\
  (forall ds, digits ds -> 2 ^ 64 <= dec ds 0 -> ConsumeLeadingDigits (ds ++ rest) = None).
Proof.
  intros Hr. split_and!; intros.
  - by apply strto64_print.
  - by apply strto32_print.
  - by apply ConsumeLeadingDigits_print.
  - by apply hex_print.
  - rewrite ConsumeLeadingDigits_spec; [|done..|]; [|by intros ->]. unfold kuint64max. by rewrite (proj2 (Z.leb_gt _ _)) by lia.
Qed.
Lemma numbers_roundtrip_witness : no_digit [] /\ safe_strto64 (FastInt64ToBufferLeft (-17)) = Some (-17).
Proof.
  split; [reflexivity|]. apply (proj1 (numbers_roundtrip (-17) [] eq_refl)). split; [|reflexivity]. vm_compute. discriminate.
Defined.
End Numbers.
