(* ===== verification/RecordIO.v ===== *)
(** * Record files

    [core/lib/io/record_writer.{h,cc}] and [record_reader.{h,cc}]: a record is
    its length, a masked checksum of the length, its bytes and a masked
    checksum of the bytes. The file is plain, or compressed by zlib behind the
    interfaces [WritableFile] and [InputStreamInterface]. *)
From S2P Require Import Prelude Coding Crc32c Status Numbers TableFormat TableBuilder TableBuilderFacts.
Import TableFormat TableBuilderFacts.
Import Coding Status Numbers.

(** [RandomAccessFile::Read] beyond the end of the file: what is there, and
    OUT_OF_RANGE. *)
Class RandomAccessEof (F : Type) `{RandomAccessLaws F} :=
  Read_eof f off n : 0 <= off -> 0 < n -> zlength (file_contents f) < off + n ->
    exists msg, Read f off n = (OutOfRange msg, drop (Z.to_nat off) (file_contents f)).

(** [InputStreamInterface::ReadNBytes(n, &result)]: the status, [*result] and
    the stream after. *)
Class InputStream (S : Type) := { ReadNBytes : Z -> S -> Status * list Z * S }.
Class InputStreamLaws (S : Type) `{InputStream S} := {
  remaining : S -> list Z;
  ReadNBytes_law n s : 0 <= n <= zlength (remaining s) ->
    exists s', ReadNBytes n s = (OK, take (Z.to_nat n) (remaining s), s') /\ remaining s' = drop (Z.to_nat n) (remaining s);
  ReadNBytes_eof n s : zlength (remaining s) < n -> exists msg r s', ReadNBytes n s = (OutOfRange msg, r, s')
}.

(** [Flush] and [Close] of a file: they do not change what was appended. *)
Class ClosableFile (W : Type) := { FlushFile : W -> Status * W; CloseFile : W -> Status * W }.
Class ClosableLaws (W : Type) `{WritableLaws W} `{ClosableFile W} := {
  Flush_law w : written (FlushFile w).2 = written w;
  Close_law w : written (CloseFile w).2 = written w
}.

Module RecordIO.

(** ** Options *)

Inductive CompressionType := NONE | ZLIB_COMPRESSION.
(** The window size of the zlib options is what [DEFAULT] and [GZIP] choose;
    the other fields keep their initial values. *)
Record RecordOptions := mkRecordOptions { compression_type : CompressionType; window_bits : Z }.
Definition MAX_WBITS : Z := 15.
Definition DEFAULT : Z := MAX_WBITS.
Definition RAW : Z := - MAX_WBITS.
Definition GZIP : Z := MAX_WBITS + 16.
Definition CreateRecordWriterOptions (compression_type : list Z) : RecordOptions :=
  if bool_decide (compression_type = bytes_of "ZLIB") then mkRecordOptions ZLIB_COMPRESSION DEFAULT
  else if bool_decide (compression_type = bytes_of "GZIP") then mkRecordOptions ZLIB_COMPRESSION GZIP
  else mkRecordOptions NONE DEFAULT.
Definition CreateRecordReaderOptions (compression_type : list Z) : RecordOptions :=
  if bool_decide (compression_type = bytes_of "ZLIB") then mkRecordOptions ZLIB_COMPRESSION DEFAULT
  else if bool_decide (compression_type = bytes_of "GZIP") then mkRecordOptions ZLIB_COMPRESSION GZIP
  else mkRecordOptions NONE DEFAULT.

(** ** The writer *)

Section Writer.
Context {W : Type} `{WritableFile W} `{ClosableFile W}.

(** [dest_] is the file, or the zlib buffer that the constructor puts before
    it. *)
Record RecordWriter := mkWriter { dest_ : W; options_ : RecordOptions }.
Definition set_dest (w : W) (r : RecordWriter) : RecordWriter := mkWriter w (options_ r).
Definition IsZlibCompressed (o : RecordOptions) : bool :=
  match compression_type o with ZLIB_COMPRESSION => true | NONE => false end.
(** [zlib_output_buffer]: the initialised [ZlibOutputBuffer] over the file, or
    the [Status] of its failed [Init], which is fatal. *)
Definition RecordWriter_new (zlib_output_buffer : W -> Z -> Status * W) (dest : W) (o : RecordOptions) : option RecordWriter :=
  if IsZlibCompressed o then
    let '(s, d) := zlib_output_buffer dest (window_bits o) in
    if negb (ok s) then None else Some (mkWriter d o)
  else Some (mkWriter dest o).

Definition MaskedCrc (data : list Z) : Z := Crc32c.Mask (Crc32c.Value 0 data).
Definition record_header (data : list Z) : list Z :=
  let len := EncodeFixed64 (zlength data) in len ++ EncodeFixed32 (MaskedCrc len).
Definition record_footer (data : list Z) : list Z := EncodeFixed32 (MaskedCrc data).
Definition WriteRecord (data : list Z) (r : RecordWriter) : Status * RecordWriter :=
  let '(s, d) := Append (record_header data) (dest_ r) in
  if negb (ok s) then (s, set_dest d r)
  else
    let '(s, d) := Append data d in
    if negb (ok s) then (s, set_dest d r)
    else let '(s, d) := Append (record_footer data) d in (s, set_dest d r).
Definition Flush (r : RecordWriter) : Status * RecordWriter :=
  if IsZlibCompressed (options_ r) then let '(s, d) := FlushFile (dest_ r) in (s, set_dest d r) else (OK, r).
(** The destructor closes the zlib buffer; a failure is only logged. *)
Definition RecordWriter_destroy (r : RecordWriter) : W :=
  if IsZlibCompressed (options_ r) then (CloseFile (dest_ r)).2 else dest_ r.
End Writer.
Arguments RecordWriter W : clear implicits.

(** ** The reader *)

Section Reader.
Context {F S : Type} `{RandomAccessFile F} `{InputStream S}.
(** The largest size that [std::string::resize] accepts. *)
Context (max_size : Z).

Record RecordReader := mkReader { src_ : F; zlib_input_stream_ : option S; reader_options_ : RecordOptions }.
Definition RecordReader_new (zlib_input_stream : F -> Z -> S) (file : F) (o : RecordOptions) : RecordReader :=
  mkReader file (match compression_type o with ZLIB_COMPRESSION => Some (zlib_input_stream file (window_bits o)) | NONE => None end) o.
Definition set_stream (s : S) (r : RecordReader) : RecordReader := mkReader (src_ r) (Some s) (reader_options_ r).

Definition SIZE_MAX : Z := 2 ^ 64 - 1.
(** The tests that both branches make on the bytes read; [n + 4] of them are
    expected. *)
Definition verify (offset n : Z) (data : list Z) : ST RecordReader (Status * list Z) :=
  if negb (zlength data =? n + 4) then
    if zlength data =? 0 then st_ret (OutOfRange (bytes_of "eof"), [])
    else st_ret (DataLoss (bytes_of "truncated record at " ++ FastUInt64ToBufferLeft offset), [])
  else
    let! masked_crc := st_opt (DecodeFixed32 (drop (Z.to_nat n) data)) in
    if negb (Crc32c.Unmask masked_crc =? Crc32c.Value 0 (take (Z.to_nat n) data)) then
      st_ret (DataLoss (bytes_of "corrupted record at " ++ FastUInt64ToBufferLeft offset), [])
    else st_ret (OK, take (Z.to_nat n) data).
(** The status and [*result]. *)
Definition ReadChecksummed (offset n : Z) : ST RecordReader (Status * list Z) :=
  if SIZE_MAX - 4 <=? n then st_ret (DataLoss (bytes_of "record size too large"), [])
  else
    let expected := n + 4 in
    st_check (expected <=? max_size) ;;;
    let! r := st_get in
    match zlib_input_stream_ r with
    | Some z =>
        let '(s, storage, z') := ReadNBytes (s64 expected) z in
        st_modify (set_stream z') ;;;
        if negb (ok s) then st_ret (s, []) else verify offset n storage
    | None =>
        let '(s, data) := Read (src_ r) offset expected in
        if negb (ok s) then st_ret (s, []) else verify offset n data
    end.

Definition kHeaderSize : Z := 12.
Definition kFooterSize : Z := 4.
Definition IsOutOfRange (s : Status) : bool := code s =? OUT_OF_RANGE.
(** The status, the offset and the record; on an error [*record] holds bytes
    without meaning. *)
Definition ReadRecord (offset : Z) : ST RecordReader (Status * Z * option (list Z)) :=
  let! '(s, lbuf) := ReadChecksummed offset 8 in
  if negb (ok s) then st_ret (s, offset, None)
  else
    let! length := st_opt (DecodeFixed64 lbuf) in
    let! '(s, data) := ReadChecksummed (u64 (offset + kHeaderSize)) length in
    if negb (ok s) then
      st_ret (if IsOutOfRange s then DataLoss (bytes_of "truncated record at " ++ FastUInt64ToBufferLeft offset) else s, offset, None)
    else st_ret (OK, u64 (offset + u64 (kHeaderSize + length + kFooterSize)), Some data).
End Reader.
Arguments RecordReader F S : clear implicits.

(** ** The format *)

Definition frame (data : list Z) : list Z := record_header data ++ data ++ record_footer data.
Definition image (recs : list (list Z)) : list Z := concat (map frame recs).

Lemma Encode32_decode v : 0 <= v < 2 ^ 32 -> DecodeFixed32 (EncodeFixed32 v) = Some v.
Proof. intros. rewrite <- (app_nil_r (EncodeFixed32 v)). by apply EncodeFixed32_decode. Qed.
Lemma Encode64_decode v : 0 <= v < 2 ^ 64 -> DecodeFixed64 (EncodeFixed64 v) = Some v.
Proof. intros. rewrite <- (app_nil_r (EncodeFixed64 v)). by apply EncodeFixed64_decode. Qed.
Lemma EncodeFixed32_bytes v : is_bytes (EncodeFixed32 v).
Proof. unfold EncodeFixed32. repeat constructor; rewrite land_255; apply mod_byte. Qed.
Lemma EncodeFixed64_bytes v : is_bytes (EncodeFixed64 v).
Proof. rewrite EncodeFixed64_split. apply Forall_app. split; apply EncodeFixed32_bytes. Qed.
Lemma MaskedCrc_word data : is_bytes data -> 0 <= MaskedCrc data < 2 ^ 32.
Proof. intros Hb. by apply Crc32c.Mask_Unmask, Crc32c.Value_word. Qed.
Lemma MaskedCrc_unmask data : is_bytes data -> Crc32c.Unmask (MaskedCrc data) = Crc32c.Value 0 data.
Proof. intros Hb. by apply Crc32c.Mask_Unmask, Crc32c.Value_word. Qed.
Lemma record_frame_length data : zlength (frame data) = zlength data + 16.
Proof. unfold frame, zlength. rewrite !length_app. cbn. lia. Qed.

(** Two words of four bytes with the same value, or the same unmasked value,
    are the same. *)
Lemma four_bytes c : is_bytes c -> length c = 4%nat -> exists v, 0 <= v < 2 ^ 32 /\ DecodeFixed32 c = Some v /\
  forall c', is_bytes c' -> length c' = 4%nat -> DecodeFixed32 c' = Some v -> c' = c.
Proof.
  destruct c as [|a0 [|a1 [|a2 [|a3 [|]]]]]; try done. intros Hb _. repeat (apply Forall_cons in Hb as [? Hb]).
  unfold is_byte in *. exists (a0 + a1 * 2 ^ 8 + a2 * 2 ^ 16 + a3 * 2 ^ 24). split; [lia|]. split.
  - cbn [DecodeFixed32]. by rewrite fixed32_value.
  - intros c' Hb' Hl Hd. destruct c' as [|b0 [|b1 [|b2 [|b3 [|]]]]]; try done. repeat (apply Forall_cons in Hb' as [? Hb']).
    cbn [DecodeFixed32] in Hd. rewrite fixed32_value in Hd by done. apply (inj Some) in Hd. unfold is_byte in *.
    repeat (f_equal; [lia|]). f_equal. lia.
Qed.
Lemma Unmask_inj a b : 0 <= a < 2 ^ 32 -> 0 <= b < 2 ^ 32 -> Crc32c.Unmask a = Crc32c.Unmask b -> a = b.
Proof. intros Ha Hb E. rewrite <- (proj1 (proj2 (Crc32c.Mask_Unmask a Ha))), E. by apply Crc32c.Mask_Unmask. Qed.

(** A burst: at most four consecutive bytes changed. *)
Definition burst (w w' : list Z) : Prop :=
  exists pre a b post, w = pre ++ a ++ post /\ w' = pre ++ b ++ post /\ length a = length b /\ (length a <= 4)%nat /\ a <> b.
Lemma burst_Value w w' : is_bytes w -> is_bytes w' -> burst w w' -> Crc32c.Value 0 w' <> Crc32c.Value 0 w.
Proof.
  intros Hw Hw' (pre & a & b & post & -> & -> & Hl & H4 & Hne). unfold is_bytes in *. rewrite !Forall_app in *.
  destruct Hw as (? & ? & ?), Hw' as (? & ? & ?). intros E. symmetry in E. revert E. by apply Crc32c.Value_burst.
Qed.
Lemma burst_length w w' : burst w w' -> length w' = length w.
Proof. intros (pre & a & b & post & -> & -> & Hl & _). rewrite !length_app. lia. Qed.

(** ** Writing *)

Section Writing.
Context {W : Type} `{WL : WritableLaws W} `{CF : ClosableFile W} `{!ClosableLaws W}.

Lemma WriteRecord_law data (r : RecordWriter W) : ok (WriteRecord data r).1 = true ->
  written (dest_ (WriteRecord data r).2) = written (dest_ r) ++ frame data.
Proof.
  unfold WriteRecord. destruct (Append (record_header data) (dest_ r)) as [s1 d1] eqn:E1.
  pose proof (Append_law (record_header data) (dest_ r)) as H1. rewrite E1 in H1. cbn in H1. destruct (ok s1) eqn:O1; cbn [negb]; [|intros E; cbn in E; congruence].
  destruct (Append data d1) as [s2 d2] eqn:E2. pose proof (Append_law data d1) as H2. rewrite E2 in H2. cbn in H2.
  destruct (ok s2) eqn:O2; cbn [negb]; [|intros E; cbn in E; congruence].
  destruct (Append (record_footer data) d2) as [s3 d3] eqn:E3. pose proof (Append_law (record_footer data) d2) as H3. rewrite E3 in H3. cbn in H3 |- *.
  intros O3. rewrite H3, H2, H1 by done. unfold frame. by rewrite <- !app_assoc.
Qed.

Fixpoint write_all (recs : list (list Z)) (r : RecordWriter W) : Status * RecordWriter W :=
  match recs with
  | [] => (OK, r)
  | d :: recs' => let '(s, r') := WriteRecord d r in if ok s then write_all recs' r' else (s, r')
  end.
Lemma write_all_image recs : forall r, ok (write_all recs r).1 = true ->
  written (dest_ (write_all recs r).2) = written (dest_ r) ++ image recs.
Proof.
  induction recs as [|d recs IH]; intros r; [by rewrite app_nil_r|]. cbn [write_all]. pose proof (WriteRecord_law d r) as Hd.
  destruct (WriteRecord d r) as [s r1]. cbn [fst snd] in *. destruct (ok s) eqn:Os; [|cbn; congruence].
  intros Hok. rewrite IH, Hd by done. unfold image. cbn. by rewrite <- app_assoc.
Qed.
Lemma destroy_written (r : RecordWriter W) : written (RecordWriter_destroy r) = written (dest_ r).
Proof. unfold RecordWriter_destroy. destruct (IsZlibCompressed _); [apply Close_law|done]. Qed.
End Writing.

(** ** Reading *)

Section Reading.
Context {F S : Type} `{FE : RandomAccessEof F} `{SL : InputStreamLaws S}.
Context (max_size : Z) (Hmax : 12 <= max_size).

(** What the reader sees: the bytes from the offset on, which a stream has
    not yet returned. *)
Definition sees (r : RecordReader F S) (off : Z) (rest : list Z) : Prop :=
  0 <= off /\ off + zlength rest < 2 ^ 62 /\
  match zlib_input_stream_ r with
  | Some z => remaining z = rest
  | None => off <= zlength (file_contents (src_ r)) /\ drop (Z.to_nat off) (file_contents (src_ r)) = rest
  end.

Lemma ReadChecksummed_short r off n rest : sees r off rest -> 0 <= n < 2 ^ 63 - 5 -> n + 4 <= max_size ->
  zlength rest < n + 4 -> exists msg r', ReadChecksummed max_size off n r = Done (OutOfRange msg, [], r').
Proof.
  intros (Ho & Hsz & Hs) Hn Hm Hl. unfold ReadChecksummed, SIZE_MAX. destruct (Z.leb_spec (2 ^ 64 - 1 - 4) n); [lia|].
  unfold st_check. replace (n + 4 <=? max_size) with true by (symmetry; apply Z.leb_le; lia).
  unfold st_bind, st_ret, st_get. cbv beta iota. destruct (zlib_input_stream_ r) as [z|].
  - rewrite s64_id by (split; lia). destruct (ReadNBytes_eof (n + 4) z) as (msg & rs & s' & E); [by rewrite Hs|]. rewrite E. by eexists _, _.
  - destruct Hs as [Hin Hd]. destruct (Read_eof (src_ r) off (n + 4)) as [msg E]; [done|lia| |rewrite E; by eexists _, _].
    rewrite <- Hd in Hl. unfold zlength in *. rewrite length_drop in Hl. lia.
Qed.
Lemma ReadChecksummed_long r off n rest : sees r off rest -> 0 <= n -> n + 4 <= max_size -> n + 4 <= zlength rest ->
  exists r', ReadChecksummed max_size off n r = verify off n (take (Z.to_nat (n + 4)) rest) r' /\
    sees r' (off + n + 4) (drop (Z.to_nat (n + 4)) rest) /\ (zlib_input_stream_ r = None -> r' = r).
Proof.
  intros (Ho & Hsz & Hs) Hn Hm Hl. unfold ReadChecksummed, SIZE_MAX. destruct (Z.leb_spec (2 ^ 64 - 1 - 4) n); [lia|].
  unfold st_check. replace (n + 4 <=? max_size) with true by (symmetry; apply Z.leb_le; lia).
  unfold st_bind, st_ret, st_get, st_modify. cbv beta iota.
  assert (Hsz' : off + n + 4 + zlength (drop (Z.to_nat (n + 4)) rest) < 2 ^ 62) by (unfold zlength in *; rewrite length_drop; lia).
  destruct (zlib_input_stream_ r) as [z|] eqn:Ez.
  - rewrite s64_id by (split; lia). destruct (ReadNBytes_law (n + 4) z) as (z' & E & Hz'); [rewrite Hs; lia|]. rewrite E, Hs in *.
    cbn [ok OK state_ negb]. exists (set_stream z' r). split; [done|]. split; [|done]. split; [lia|]. by split.
  - destruct Hs as [Hin Hd]. assert (Hlen : off + zlength rest = zlength (file_contents (src_ r))).
    { rewrite <- Hd. unfold zlength in *. rewrite length_drop. lia. }
    rewrite Read_law by lia. rewrite Hd. cbn [ok OK state_ negb]. exists r. split; [done|]. split; [|done].
    split; [lia|]. split; [done|]. rewrite Ez. split; [lia|]. rewrite <- Hd, drop_drop. f_equal. lia.
Qed.
Lemma verify_spec off b c m (r : RecordReader F S) : length c = 4%nat -> DecodeFixed32 c = Some m ->
  verify off (zlength b) (b ++ c) r =
  Done (if Crc32c.Unmask m =? Crc32c.Value 0 b then (OK, b)
        else (DataLoss (bytes_of "corrupted record at " ++ FastUInt64ToBufferLeft off), []), r).
Proof.
  intros Hc Hm. unfold verify. replace (zlength (b ++ c) =? zlength b + 4) with true by (symmetry; apply Z.eqb_eq; unfold zlength; rewrite length_app; lia).
  cbn [negb]. replace (Z.to_nat (zlength b)) with (length b) by (unfold zlength; lia).
  rewrite drop_app_length, take_app_length, Hm. unfold st_bind, st_opt, st_ret. by destruct (_ =? _).
Qed.

(** The next [b ++ c] is bytes and a word: they are accepted when the word is
    their masked checksum. *)
Lemma ReadChecksummed_field r off b c rest : sees r off (b ++ c ++ rest) -> is_bytes b -> is_bytes c -> length c = 4%nat ->
  zlength b + 4 <= max_size -> exists r' res, ReadChecksummed max_size off (zlength b) r = Done (res, r') /\
    sees r' (off + zlength b + 4) rest /\ (zlib_input_stream_ r = None -> r' = r) /\
    (c = EncodeFixed32 (MaskedCrc b) -> res = (OK, b)) /\
    (forall b0, is_bytes b0 -> (c = EncodeFixed32 (MaskedCrc b0) /\ burst b0 b) \/ (b0 = b /\ c <> EncodeFixed32 (MaskedCrc b)) ->
      res = (DataLoss (bytes_of "corrupted record at " ++ FastUInt64ToBufferLeft off), [])).
Proof.
  intros Hs Hb Hc Hl Hm. destruct (four_bytes c Hc Hl) as (m & Hmr & Hd & Huniq).
  assert (E : b ++ c ++ rest = (b ++ c) ++ rest) by by rewrite app_assoc.
  assert (Hlen : Z.to_nat (zlength b + 4) = length (b ++ c)) by (rewrite length_app; unfold zlength; lia).
  destruct (ReadChecksummed_long r off (zlength b) _ Hs) as (r' & Hr & Hs' & Hz); [unfold zlength; lia|done|unfold zlength in *; rewrite !length_app; lia|].
  rewrite E, Hlen, take_app_length, drop_app_length in *. rewrite (verify_spec _ _ _ m) in Hr by done.
  eexists r', _. split; [exact Hr|]. split; [done|]. split; [done|]. split.
  - intros Ec. rewrite Ec, Encode32_decode in Hd by (by apply MaskedCrc_word). apply (inj Some) in Hd as <-.
    by rewrite MaskedCrc_unmask, Z.eqb_refl.
  - intros b0 Hb0 Hcase. destruct (Z.eqb_spec (Crc32c.Unmask m) (Crc32c.Value 0 b)) as [Heq|]; [exfalso|done].
    destruct Hcase as [[Ec Hbu]|[-> Hne]].
    + rewrite Ec, Encode32_decode in Hd by (by apply MaskedCrc_word). apply (inj Some) in Hd as <-.
      rewrite MaskedCrc_unmask in Heq by done. by apply (burst_Value b0 b).
    + apply Hne. rewrite <- MaskedCrc_unmask in Heq by done. apply Unmask_inj in Heq; [|done|by apply MaskedCrc_word]. subst m.
      symmetry. apply Huniq; [apply EncodeFixed32_bytes|done|]. by apply Encode32_decode, MaskedCrc_word.
Qed.

Definition corrupted (off : Z) : Status := DataLoss (bytes_of "corrupted record at " ++ FastUInt64ToBufferLeft off).
Definition truncated (off : Z) : Status := DataLoss (bytes_of "truncated record at " ++ FastUInt64ToBufferLeft off).

(** The first read fails. *)
Lemma ReadRecord_fails r off s b r' : ReadChecksummed max_size off 8 r = Done (s, b, r') -> ok s = false ->
  ReadRecord max_size off r = Done (s, off, None, r').
Proof. intros E Hs. unfold ReadRecord, st_bind. rewrite E, Hs. done. Qed.
(** The length is read, then the record. *)
Lemma ReadRecord_body r off d rest : sees r off (record_header d ++ rest) -> zlength d < 2 ^ 62 ->
  exists r1, sees r1 (off + 12) rest /\ (zlib_input_stream_ r = None -> r1 = r) /\
    ReadRecord max_size off r =
    match ReadChecksummed max_size (off + 12) (zlength d) r1 with
    | Done (s, data, r2) =>
        Done (if negb (ok s) then ((if IsOutOfRange s then truncated off else s), off, None)
              else (OK, off + 16 + zlength d, Some data), r2)
    | Aborts => Aborts
    | Diverges => Diverges
    end.
Proof.
  intros Hs Hd. unfold record_header in Hs. rewrite <- app_assoc in Hs. pose proof Hs as (Ho & Hoz & _).
  assert (Hz0 : 0 <= zlength d) by (unfold zlength; lia).
  destruct (ReadChecksummed_field r off _ _ _ Hs (EncodeFixed64_bytes _) (EncodeFixed32_bytes _) eq_refl) as (r1 & res & E & Hs1 & Hz & Hok & _); [done|].
  rewrite Hok in E by done. change (zlength (EncodeFixed64 (zlength d))) with 8 in *. exists r1.
  split; [by replace (off + 12) with (off + 8 + 4) by lia|]. split; [done|].
  assert (Hu1 : u64 (off + kHeaderSize) = off + 12) by (unfold kHeaderSize; apply u64_id; unfold zlength in *; rewrite !length_app in Hoz; lia).
  assert (Hu2 : u64 (off + u64 (kHeaderSize + zlength d + kFooterSize)) = off + 16 + zlength d).
  { unfold kHeaderSize, kFooterSize. rewrite !u64_id by (rewrite ?u64_id; unfold zlength in *; rewrite ?length_app in Hoz; lia). lia. }
  unfold ReadRecord. unfold st_bind at 1. rewrite E. cbn [ok OK state_ negb]. rewrite Encode64_decode by lia. unfold st_bind, st_opt, st_ret.
  rewrite Hu1, Hu2. destruct (ReadChecksummed max_size (off + 12) (zlength d) r1) as [[[s data] r2]| |]; [|done..]. by destruct (negb (ok s)).
Qed.

Definition record_ok (d : list Z) : Prop := is_bytes d /\ zlength d + 4 <= max_size /\ zlength d < 2 ^ 62.

Lemma ReadRecord_ok r off d rest : sees r off (frame d ++ rest) -> record_ok d ->
  exists r', ReadRecord max_size off r = Done (OK, off + zlength (frame d), Some d, r') /\
    sees r' (off + zlength (frame d)) rest /\ (zlib_input_stream_ r = None -> r' = r).
Proof.
  intros Hs (Hb & Hm & Hd). unfold frame in Hs. rewrite <- !app_assoc in Hs.
  destruct (ReadRecord_body r off d _ Hs Hd) as (r1 & Hs1 & Hz1 & E).
  destruct (ReadChecksummed_field r1 _ _ _ _ Hs1 Hb (EncodeFixed32_bytes _) eq_refl Hm) as (r2 & res & E2 & Hs2 & Hz2 & Hok & _).
  rewrite Hok in E2 by done. rewrite E, E2, record_frame_length. exists r2. cbn [ok OK state_ negb].
  replace (off + (zlength d + 16)) with (off + 16 + zlength d) by lia. split; [done|].
  split; [by replace (off + 16 + zlength d) with (off + 12 + zlength d + 4) by lia|].
  intros Hn. rewrite <- (Hz1 Hn). apply Hz2. by rewrite (Hz1 Hn).
Qed.
Lemma ReadRecord_short r off rest : sees r off rest -> zlength rest < 12 ->
  exists s r', ReadRecord max_size off r = Done (s, off, None, r') /\ code s = OUT_OF_RANGE.
Proof.
  intros Hs Hl. destruct (ReadChecksummed_short r off 8 rest Hs) as (msg & r' & E); [lia..|].
  exists (OutOfRange msg), r'. split; [by eapply ReadRecord_fails|done].
Qed.

(** Reading until something fails: the records, the last status and the
    offset. *)
Fixpoint read_all (fuel : nat) (off : Z) : ST (RecordReader F S) (list (list Z) * Status * Z) :=
  match fuel with
  | O => st_diverge
  | Datatypes.S fuel' =>
      let! '(s, off', rec) := ReadRecord max_size off in
      match rec with
      | Some d => let! '(ds, s', off'') := read_all fuel' off' in st_ret (d :: ds, s', off'')
      | None => st_ret ([], s, off')
      end
  end.
Lemma read_all_app recs rest (P : Status -> Prop) o : Forall record_ok recs -> forall r off fuel, sees r off (image recs ++ rest) ->
  (forall r', sees r' (off + zlength (image recs)) rest ->
     exists s r'', ReadRecord max_size (off + zlength (image recs)) r' = Done (s, o, None, r'') /\ P s) ->
  (length recs < fuel)%nat -> exists s r', read_all fuel off r = Done (recs, s, o, r') /\ P s.
Proof.
  intros Hok. induction Hok as [|d recs Hd Hok IH]; intros r off [|fuel] Hs Hend Hf; cbn [length] in Hf; try lia.
  - cbn [image concat map app] in *. change (zlength []) with 0 in Hend. rewrite Z.add_0_r in Hend.
    destruct (Hend r Hs) as (s & r' & E & Hp). exists s, r'. cbn [read_all]. unfold st_bind, st_ret. by rewrite E.
  - change (image (d :: recs)) with (frame d ++ image recs) in *. rewrite <- app_assoc in Hs. rewrite zlength_app, Z.add_assoc in Hend.
    destruct (ReadRecord_ok r off d _ Hs Hd) as (r1 & E & Hs1 & _). destruct (IH r1 _ fuel Hs1) as (s & r2 & E2 & Hp); [done|lia|].
    exists s, r2. split; [|done]. cbn [read_all]. unfold st_bind at 1. rewrite E. unfold st_bind, st_ret. by rewrite E2.
Qed.
End Reading.

Section Contents.
Context {F S : Type} `{FE : RandomAccessEof F} `{SL : InputStreamLaws S}.
(** The bytes that the reader reads, from its creation on. *)
Definition contents (r : RecordReader F S) : list Z :=
  match zlib_input_stream_ r with Some z => remaining z | None => file_contents (src_ r) end.
Lemma sees_contents (r : RecordReader F S) : zlength (contents r) < 2 ^ 62 -> sees r 0 (contents r).
Proof.
  intros Hl. split; [lia|]. split; [lia|]. unfold contents in *. destruct (zlib_input_stream_ r); [done|].
  split; [unfold zlength; lia|]. by rewrite drop_0.
Qed.
(** Reading from the start returns the records, then fails at [o] with a
    status that satisfies [P]. *)
Definition reads_as (max_size : Z) (r : RecordReader F S) (recs : list (list Z)) (P : Status -> Prop) (o : Z) : Prop :=
  exists s r', read_all max_size (Datatypes.S (length recs)) 0 r = Done (recs, s, o, r') /\ P s.
Definition storable (max_size : Z) (d : list Z) : Prop := is_bytes d /\ zlength d + 4 <= max_size.

Lemma image_in recs d : d ∈ recs -> zlength d < zlength (image recs).
Proof.
  intros (l & l' & ->)%list_elem_of_split. unfold image. rewrite map_app, concat_app. cbn [map concat].
  pose proof (record_frame_length d). unfold zlength in *. rewrite !length_app. lia.
Qed.
Lemma storable_ok max_size recs : Forall (storable max_size) recs -> zlength (image recs) < 2 ^ 62 -> Forall (record_ok max_size) recs.
Proof.
  intros Hs Hl. apply Forall_forall. intros d Hd. pose proof (image_in recs d Hd). rewrite Forall_forall in Hs. destruct (Hs d Hd).
  split; [done|]. split; [done|lia].
Qed.
Lemma reads_ends max_size r recs rest P : 12 <= max_size -> contents r = image recs ++ rest -> zlength (contents r) < 2 ^ 62 ->
  Forall (storable max_size) recs ->
  (forall r', sees r' (zlength (image recs)) rest ->
     exists s r'', ReadRecord max_size (zlength (image recs)) r' = Done (s, zlength (image recs), None, r'') /\ P s) ->
  reads_as max_size r recs P (zlength (image recs)).
Proof.
  intros Hmax E Hl Hs Hend. pose proof (sees_contents r Hl) as H'. rewrite E in H', Hl. rewrite zlength_app in Hl.
  eapply (read_all_app max_size Hmax recs rest); [apply storable_ok; [done|unfold zlength in *; lia]|exact H'|done|lia].
Qed.
End Contents.

(** The bytes [b] and their stored checksum [c] after a burst in what was [b0],
    or any change of its checksum. *)
Definition damaged (b0 b c : list Z) : Prop :=
  is_bytes b /\ is_bytes c /\ length c = 4%nat /\
  ((c = EncodeFixed32 (MaskedCrc b0) /\ burst b0 b) \/ (b = b0 /\ c <> EncodeFixed32 (MaskedCrc b0))).
Lemma damaged_length b0 b c : damaged b0 b c -> zlength b = zlength b0.
Proof. intros (_ & _ & _ & [[_ H]|[-> _]]); [|done]. unfold zlength. by rewrite (burst_length _ _ H). Qed.

Section Damage.
Context {F S : Type} `{FE : RandomAccessEof F} `{SL : InputStreamLaws S}.
Context (max_size : Z) (Hmax : 12 <= max_size).
Implicit Types r : RecordReader F S.

Lemma ReadChecksummed_damaged r off b0 b c rest : sees r off (b ++ c ++ rest) -> is_bytes b0 -> damaged b0 b c ->
  zlength b0 + 4 <= max_size -> exists r', ReadChecksummed max_size off (zlength b0) r = Done (corrupted off, [], r').
Proof.
  intros Hs H0b Hd Hm. rewrite <- (damaged_length _ _ _ Hd) in *. destruct Hd as (Hb & Hc & Hl & Hcase).
  destruct (ReadChecksummed_field max_size r off b c rest Hs Hb Hc Hl Hm) as (r' & res & E & _ & _ & _ & Hbad).
  exists r'. rewrite E, (Hbad b0 H0b); [done|]. destruct Hcase as [|[-> ?]]; [by left|by right].
Qed.
(** A damaged length is reported at the offset of the record, damaged bytes at
    the offset of the bytes. *)
Lemma ReadRecord_header_damaged r off len b c rest : sees r off (b ++ c ++ rest) -> damaged (EncodeFixed64 len) b c ->
  exists r', ReadRecord max_size off r = Done (corrupted off, off, None, r').
Proof.
  intros Hs Hd. destruct (ReadChecksummed_damaged r off _ _ _ _ Hs (EncodeFixed64_bytes len) Hd) as [r' E]; [done|].
  exists r'. by eapply ReadRecord_fails.
Qed.
Lemma ReadRecord_data_damaged r off d b c rest : sees r off (record_header d ++ b ++ c ++ rest) -> record_ok max_size d -> damaged d b c ->
  exists r', ReadRecord max_size off r = Done (corrupted (off + 12), off, None, r').
Proof.
  intros Hs (Hb & Hm & Hd) Hdam. destruct (ReadRecord_body max_size Hmax r off d _ Hs Hd) as (r1 & Hs1 & _ & E).
  destruct (ReadChecksummed_damaged r1 _ _ _ _ _ Hs1 Hb Hdam Hm) as [r2 E2]. rewrite E, E2. by exists r2.
Qed.
(** A record cut after its header is truncated; one cut inside its header is
    taken for the end of the file. *)
Lemma ReadRecord_cut r off d k : sees r off (take k (frame d)) -> record_ok max_size d -> (k < length (frame d))%nat ->
  exists s r', ReadRecord max_size off r = Done (s, off, None, r') /\
    if (k <? 12)%nat then code s = OUT_OF_RANGE else s = truncated off.
Proof.
  intros Hs (Hb & Hm & Hd) Hk. destruct (Nat.ltb_spec k 12) as [Hl|Hl].
  - apply (ReadRecord_short max_size Hmax r off _ Hs). unfold zlength. rewrite length_take. lia.
  - unfold frame in Hs. rewrite take_app_ge in Hs by done. change (length (record_header d)) with 12%nat in Hs.
    destruct (ReadRecord_body max_size Hmax r off d _ Hs Hd) as (r1 & Hs1 & _ & E). pose proof (record_frame_length d) as Hf.
    destruct (ReadChecksummed_short max_size r1 _ (zlength d) _ Hs1) as (msg & r2 & E2); [unfold zlength in *; lia|done|unfold zlength in *; rewrite length_take; lia|].
    rewrite E, E2. by exists (truncated off), r2.
Qed.
End Damage.

(** ** A stream in memory *)

#[global] Instance MemFile_Eof : RandomAccessEof (list Z).
Proof.
  intros f off n Ho Hn Hl. exists []. unfold Read, MemFile. cbn [file_contents MemFile_Laws] in *.
  rewrite (take_ge (drop (Z.to_nat off) f)) by (unfold zlength in *; rewrite length_drop; lia).
  destruct (Z.eqb_spec (zlength (drop (Z.to_nat off) f)) n) as [Heq|]; [|done].
  exfalso. unfold zlength in *. rewrite length_drop in Heq. lia.
Defined.
#[global] Instance MemStream : InputStream (list Z) := {
  ReadNBytes n s := if n <=? zlength s then (OK, take (Z.to_nat n) s, drop (Z.to_nat n) s) else (OutOfRange [], s, [])
}.
#[global, refine] Instance MemStream_Laws : InputStreamLaws (list Z) := { remaining s := s }.
Proof.
  - intros n s Hn. exists (drop (Z.to_nat n) s). unfold ReadNBytes, MemStream. by destruct (Z.leb_spec n (zlength s)); [|lia].
  - intros n s Hn. unfold ReadNBytes, MemStream. destruct (Z.leb_spec n (zlength s)); [lia|]. by exists [], s, [].
Defined.
#[global] Instance MemWriter_Closable : ClosableFile (list Z) := { FlushFile w := (OK, w); CloseFile w := (OK, w) }.
#[global, refine] Instance MemWriter_ClosableLaws : ClosableLaws (list Z) := {}.
Proof. all: done. Defined.

(** ** The properties *)

(** C32: What is written is read back, plain or compressed: when every
    [WriteRecord] on an empty file returns OK, a reader of the file returns
    exactly the records, in order, then OUT_OF_RANGE at the end of the file;
    and a plain file can be read at the offset of any record. *)
Theorem record_roundtrip {W F S} `{ClosableLaws W} `{RandomAccessEof F} `{InputStreamLaws S} max_size recs
    (w : RecordWriter W) (r : RecordReader F S) :
  written (dest_ w) = [] -> ok (write_all recs w).1 = true ->
  contents r = written (RecordWriter_destroy (write_all recs w).2) ->
  12 <= max_size -> Forall (storable max_size) recs -> zlength (contents r) < 2 ^ 62 ->
  reads_as max_size r recs (fun s => code s = OUT_OF_RANGE) (zlength (contents r)) /\
  (forall recs1 d recs2, recs = recs1 ++ d :: recs2 -> zlib_input_stream_ r = None ->
     ReadRecord max_size (zlength (image recs1)) r = Done (OK, zlength (image (recs1 ++ [d])), Some d, r)).
Proof.
  intros Hw Hok Hc Hm Hs Hl. rewrite destroy_written, write_all_image, Hw in Hc by done. cbn [app] in Hc. split.
  - rewrite Hc. apply (reads_ends max_size r recs []); [done|by rewrite app_nil_r|done..|].
    intros r' Hs'. by apply (ReadRecord_short max_size Hm r' _ []).
  - intros recs1 d recs2 -> Hz. rewrite Hc in Hl. pose proof (storable_ok max_size _ Hs Hl) as Hk.
    assert (E : contents r = image recs1 ++ frame d ++ image recs2) by (rewrite Hc; unfold image; by rewrite map_app, concat_app).
    rewrite <- Hc, E in Hl. unfold contents in E. rewrite Hz in E.
    assert (Hsee : sees r (zlength (image recs1)) (frame d ++ image recs2)).
    { rewrite !zlength_app in Hl. split; [unfold zlength; lia|]. split; [rewrite zlength_app; lia|]. rewrite Hz, E. split; [rewrite !zlength_app; unfold zlength; lia|].
      replace (Z.to_nat (zlength (image recs1))) with (length (image recs1)) by (unfold zlength; lia). apply drop_app_length. }
    destruct (ReadRecord_ok max_size Hm r _ d _ Hsee) as (r' & Er & _ & Hr').
    { rewrite Forall_forall in Hk. apply Hk. set_solver. }
    rewrite Er, (Hr' Hz). unfold image. rewrite map_app, concat_app. cbn [map concat]. by rewrite app_nil_r, zlength_app.
Qed.
Lemma record_roundtrip_witness :
  let w := (write_all [[1; 2; 3]; []; [255]] (mkWriter ([] : list Z) (CreateRecordWriterOptions []))).2 in
  let r := RecordReader_new (fun f _ => f) (RecordWriter_destroy w) (CreateRecordReaderOptions []) in
  reads_as 1000 r [[1; 2; 3]; []; [255]] (fun s => code s = OUT_OF_RANGE) (zlength (contents r)).
Proof.
  intros w r. apply (record_roundtrip (W := list Z) (F := list Z) (S := list Z) 1000 [[1; 2; 3]; []; [255]] (mkWriter [] (CreateRecordWriterOptions [])) r).
  all: try (vm_compute; reflexivity).
  - lia.
  - repeat constructor; try lia; vm_compute; discriminate.
Defined.

(** C34: Damage is detected, and how: after any number of sound records, a burst
    of at most four bytes in the length or the bytes of a record, or any change
    of one of its checksums, makes the reader return the records before it and
    then DATA_LOSS, "corrupted record"; so does, as a "truncated record", the
    end of the file inside the bytes of a record. But a file that ends inside
    the twelve bytes of a header is not told from one that ends before them:
    the status is OUT_OF_RANGE, the end of the file. *)
Theorem record_damage {F S} `{RandomAccessEof F} `{InputStreamLaws S} max_size recs d (r : RecordReader F S) :
  12 <= max_size -> Forall (storable max_size) recs -> storable max_size d -> zlength d < 2 ^ 62 -> zlength (contents r) < 2 ^ 62 ->
  let off := zlength (image recs) in
  (forall b c rest, contents r = image recs ++ b ++ c ++ rest -> damaged (EncodeFixed64 (zlength d)) b c ->
     reads_as max_size r recs (eq (corrupted off)) off) /\
  (forall b c rest, contents r = image recs ++ record_header d ++ b ++ c ++ rest -> damaged d b c ->
     reads_as max_size r recs (eq (corrupted (off + 12))) off) /\
  (forall k, contents r = image recs ++ take k (frame d) -> (k < length (frame d))%nat ->
     reads_as max_size r recs (fun s => if (k <? 12)%nat then code s = OUT_OF_RANGE else s = truncated off) off).
Proof.
  intros Hm Hs [Hb Hdm] Hd Hl off. assert (Hok : record_ok max_size d) by done. split_and!.
  - intros b c rest E Hdam. eapply reads_ends; [done..|]. intros r' Hsee.
    destruct (ReadRecord_header_damaged max_size Hm r' off _ _ _ _ Hsee Hdam) as [r'' Er]. by exists (corrupted off), r''.
  - intros b c rest E Hdam. eapply reads_ends; [done..|]. intros r' Hsee.
    destruct (ReadRecord_data_damaged max_size Hm r' off d _ _ _ Hsee Hok Hdam) as [r'' Er]. by exists (corrupted (off + 12)), r''.
  - intros k E Hk. eapply reads_ends; [done..|]. intros r' Hsee. by apply (ReadRecord_cut max_size Hm r' off d k).
Qed.
Lemma record_damage_witness :
  let file := image [[1; 2; 3]; [4]] in
  let plain (f : list Z) := mkReader f (None : option (list Z)) (CreateRecordReaderOptions []) in
  reads_as 1000 (plain (<[31%nat := 5]> file)) [[1; 2; 3]] (eq (corrupted 31)) 19 /\
  reads_as 1000 (plain (take 30 file)) [[1; 2; 3]] (fun s => code s = OUT_OF_RANGE) 19.
Proof.
  intros file plain. split.
  - apply (record_damage (F := list Z) (S := list Z) 1000 [[1; 2; 3]] [4] (plain (<[31%nat := 5]> file))) with (b := [5]) (c := record_footer [4]) (rest := []).
    all: try (vm_compute; reflexivity).
    all: try lia.
    + repeat constructor; try lia; vm_compute; discriminate.
    + repeat constructor; try lia; vm_compute; discriminate.
    + split; [repeat constructor; lia|]. split; [apply EncodeFixed32_bytes|]. split; [reflexivity|]. left. split; [reflexivity|].
      exists [], [4], [5], []. repeat split; cbn; try lia; discriminate.
  - apply (record_damage (F := list Z) (S := list Z) 1000 [[1; 2; 3]] [4] (plain (take 30 file))) with (k := 11%nat).
    all: try (vm_compute; reflexivity).
    all: try lia.
    + repeat constructor; try lia; vm_compute; discriminate.
    + repeat constructor; try lia; vm_compute; discriminate.
    + cbn. lia.
Defined.
End RecordIO.
