(* ===== verification/DeviceNames.v ===== *)
(** * Device names

    [DeviceNameUtils] of [core/util/device_name_utils.{h,cc}]: the full name of
    a device, the parser of names and patterns, the order "is a specification
    of" on parsed names and the merge of two of them. An [int] is a 32-bit
    signed [Z]. *)
From S2P Require Import Prelude StringPiece Status Numbers.
Import Status Numbers.

Module DeviceNames.

Record ParsedName := mkParsed {
  has_job : bool; job : list Z;
  has_replica : bool; replica : Z;
  has_task : bool; task : Z;
  has_type : bool; type : list Z;
  has_id : bool; id : Z
}.
Definition Clear : ParsedName := mkParsed false [] false 0 false 0 false [] false 0.
#[global] Instance ParsedName_eq_dec : EqDecision ParsedName.
Proof. solve_decision. Defined.
(** [operator==] *)
Definition field_eqb {A} `{EqDecision A} (h1 : bool) (v1 : A) (h2 : bool) (v2 : A) : bool := if h1 then h2 && bool_decide (v1 = v2) else negb h2.
Definition ParsedName_eqb (p q : ParsedName) : bool :=
  field_eqb (has_job p) (job p) (has_job q) (job q) && field_eqb (has_replica p) (replica p) (has_replica q) (replica q) &&
  field_eqb (has_task p) (task p) (has_task q) (task q) && field_eqb (has_type p) (type p) (has_type q) (type q) &&
  field_eqb (has_id p) (id p) (has_id q) (id q).

Definition set_job (h : bool) (v : list Z) (p : ParsedName) := mkParsed h v (has_replica p) (replica p) (has_task p) (task p) (has_type p) (type p) (has_id p) (id p).
Definition set_replica (h : bool) (v : Z) (p : ParsedName) := mkParsed (has_job p) (job p) h v (has_task p) (task p) (has_type p) (type p) (has_id p) (id p).
Definition set_task (h : bool) (v : Z) (p : ParsedName) := mkParsed (has_job p) (job p) (has_replica p) (replica p) h v (has_type p) (type p) (has_id p) (id p).
Definition set_type (h : bool) (v : list Z) (p : ParsedName) := mkParsed (has_job p) (job p) (has_replica p) (replica p) (has_task p) (task p) h v (has_id p) (id p).
Definition set_id (h : bool) (v : Z) (p : ParsedName) := mkParsed (has_job p) (job p) (has_replica p) (replica p) (has_task p) (task p) (has_type p) (type p) h v.

(** ** Names *)

Definition IsAlpha (c : Z) : bool := ((97 <=? c) && (c <=? 122)) || ((65 <=? c) && (c <=? 90)).
Definition IsAlphaNum (c : Z) : bool := IsAlpha c || ((48 <=? c) && (c <=? 57)).
Definition name_char (c : Z) : bool := IsAlphaNum c || (c =? 95).
Definition IsJobName (s : list Z) : bool := match s with [] => false | c :: s' => IsAlpha c && forallb name_char s' end.

(** The loops of [ConsumeJobName] and [ConsumeDeviceType]: up to a character
    that stops them; [None] on an invalid one. *)
Fixpoint name_span (stop : Z -> bool) (s : list Z) : option (list Z * list Z) :=
  match s with
  | [] => Some ([], [])
  | c :: s' =>
      if stop c then Some ([], s)
      else if name_char c then match name_span stop s' with Some (n, rest) => Some (c :: n, rest) | None => None end
      else None
  end.
Definition consume_name (stop : Z -> bool) (s : list Z) : option (list Z * list Z) :=
  match s with
  | [] => None
  | c :: s' => if IsAlpha c then match name_span stop s' with Some (n, rest) => Some (c :: n, rest) | None => None end else None
  end.
Definition ConsumeJobName (s : list Z) : option (list Z * list Z) := consume_name (fun c => c =? 47) s.
Definition ConsumeDeviceType (s : list Z) : option (list Z * list Z) := consume_name (fun c => (c =? 47) || (c =? 58)) s.
(** The [uint64] is stored in an [int]. *)
Definition ConsumeNumber (s : list Z) : option (Z * list Z) :=
  match ConsumeLeadingDigits s with Some (v, rest) => Some (s32 v, rest) | None => None end.

Definition StrInt (i : Z) : list Z := FastInt32ToBufferLeft i.
(** [None]: a [CHECK] fails. *)
Definition FullName (jb : list Z) (rep tsk : Z) (ty : list Z) (i : Z) : option (list Z) :=
  if IsJobName jb && (0 <=? rep) && (0 <=? tsk) && SkipEmpty ty && (0 <=? i)
  then Some (bytes_of "/job:" ++ jb ++ bytes_of "/replica:" ++ StrInt rep ++ bytes_of "/task:" ++ StrInt tsk ++
             bytes_of "/device:" ++ ty ++ bytes_of ":" ++ StrInt i)
  else None.

(** ** Parsing *)

(** A part of the body of the loop: it returns false, leaving a name partly
    filled, or goes on with the rest of the string. *)
Inductive parse_result := Refused (p : ParsedName) | Parsed (progress : bool) (s : list Z) (p : ParsedName).
(** A value, or ["*"]. *)
Definition parse_value {V} (set : bool -> V -> ParsedName -> ParsedName) (get : ParsedName -> V) (consume : list Z -> option (V * list Z))
    (s : list Z) (p : ParsedName) : parse_result :=
  match ConsumePrefix s (bytes_of "*") with
  | Some s' => Parsed true s' (set false (get p) p)
  | None => match consume s with Some (v, s') => Parsed true s' (set true v p) | None => Refused (set true (get p) p) end
  end.
Definition parse_field {V} (prefix : list Z) set get consume (s : list Z) (p : ParsedName) : parse_result :=
  match ConsumePrefix s prefix with
  | Some s' => @parse_value V set get consume s' p
  | None => Parsed false s p
  end.
Definition parse_device (s : list Z) (p : ParsedName) : parse_result :=
  match ConsumePrefix s (bytes_of "/device:") with
  | Some s1 =>
      match parse_value set_type type ConsumeDeviceType s1 p with
      | Parsed _ s2 p2 =>
          match ConsumePrefix s2 (bytes_of ":") with
          | None => Parsed true s2 (set_id false (id p2) p2)
          | Some s3 => parse_value set_id id ConsumeNumber s3 p2
          end
      | Refused p2 => Refused p2
      end
  | None => Parsed false s p
  end.
(** "/cpu:" or "/CPU:", and the same for gpu. *)
Definition parse_legacy (lower upper ty : list Z) (s : list Z) (p : ParsedName) : parse_result :=
  match match ConsumePrefix s lower with Some s' => Some s' | None => ConsumePrefix s upper end with
  | Some s' => parse_value set_id id ConsumeNumber s' (set_type true ty p)
  | None => Parsed false s p
  end.
Definition and_then (r : parse_result) (f : list Z -> ParsedName -> parse_result) : parse_result :=
  match r with
  | Refused p => Refused p
  | Parsed b s p => match f s p with Refused p' => Refused p' | Parsed b' s' p' => Parsed (b || b') s' p' end
  end.
(** The body of the loop. *)
Definition parse_once (s : list Z) (p : ParsedName) : parse_result :=
  let r := parse_field (bytes_of "/job:") set_job job ConsumeJobName s p in
  let r := and_then r (parse_field (bytes_of "/replica:") set_replica replica ConsumeNumber) in
  let r := and_then r (parse_field (bytes_of "/task:") set_task task ConsumeNumber) in
  let r := and_then r parse_device in
  let r := and_then r (parse_legacy (bytes_of "/cpu:") (bytes_of "/CPU:") (bytes_of "CPU")) in
  and_then r (parse_legacy (bytes_of "/gpu:") (bytes_of "/GPU:") (bytes_of "GPU")).
(** [None]: out of fuel. *)
Fixpoint parse_loop (fuel : nat) (s : list Z) (p : ParsedName) : option (bool * ParsedName) :=
  match fuel with
  | O => None
  | S fuel' =>
      match s with
      | [] => Some (true, p)
      | _ => match parse_once s p with
             | Refused p' => Some (false, p')
             | Parsed false _ p' => Some (false, p')
             | Parsed true s' p' => parse_loop fuel' s' p'
             end
      end
  end.
(** Each turn consumes a character: [parse_total]. *)
Definition ParseFullName (fullname : list Z) : option (bool * ParsedName) :=
  if bool_decide (fullname = bytes_of "/") then Some (true, Clear) else parse_loop (S (length fullname)) fullname Clear.

Definition ParsedNameToString (pn : ParsedName) : list Z :=
  (if has_job pn then bytes_of "/job:" ++ job pn else []) ++
  (if has_replica pn then bytes_of "/replica:" ++ StrInt (replica pn) else []) ++
  (if has_task pn then bytes_of "/task:" ++ StrInt (task pn) else []) ++
  (if has_type pn then bytes_of "/" ++ type pn ++ bytes_of ":" ++ (if has_id pn then StrInt (id pn) else bytes_of "*") else []).

(** ** Local names *)

Definition LocalName (ty : list Z) (i : Z) : list Z := ty ++ bytes_of ":" ++ StrInt i.
(** [None]: a [CHECK] fails, or out of fuel. *)
Definition LocalName_of (fullname : list Z) : option (list Z) :=
  match ParseFullName fullname with Some (true, x) => Some (LocalName (type x) (id x)) | _ => None end.
Definition ParseLocalName (name : list Z) (p : ParsedName) : bool * ParsedName :=
  match ConsumeDeviceType name with
  | None => (false, p)
  | Some (t, s) =>
      let p := set_type (has_type p) t p in
      match ConsumePrefix s (bytes_of ":") with
      | None => (false, p)
      | Some s => match ConsumeNumber s with
                  | None => (false, p)
                  | Some (n, s) => (negb (SkipEmpty s), set_id (has_id p) n p)
                  end
      end
  end.
(** The strings [task] and [device], when the result is true. *)
Definition SplitDeviceName (name : list Z) : option (list Z * list Z) :=
  match ParseFullName name with
  | Some (true, pn) =>
      if has_type pn && has_id pn then
        Some ((if has_job pn then bytes_of "/job:" ++ job pn else []) ++
              (if has_replica pn then bytes_of "/replica:" ++ StrInt (replica pn) else []) ++
              (if has_task pn then bytes_of "/task:" ++ StrInt (task pn) else []),
              type pn ++ bytes_of ":" ++ StrInt (id pn))
      else None
  | _ => None
  end.

(** ** Patterns *)

Definition HasSomeDetails (n : ParsedName) : bool := has_job n || has_replica n || has_task n || has_type n || has_id n.
(** One component: where the first has a value, the second has the same. *)
Definition field_spec {A} `{EqDecision A} (h1 : bool) (v1 : A) (h2 : bool) (v2 : A) : bool := negb (h1 && (negb h2 || negb (bool_decide (v1 = v2)))).
Definition IsSpecification (less more : ParsedName) : bool :=
  field_spec (has_job less) (job less) (has_job more) (job more) &&
  field_spec (has_replica less) (replica less) (has_replica more) (replica more) &&
  field_spec (has_task less) (task less) (has_task more) (task more) &&
  field_spec (has_type less) (type less) (has_type more) (type more) &&
  field_spec (has_id less) (id less) (has_id more) (id more).
Definition complete (n : ParsedName) : bool := has_job n && has_replica n && has_task n && has_type n && has_id n.
(** [None]: the [CHECK] fails. *)
Definition IsCompleteSpecification (pattern name : ParsedName) : option bool :=
  if complete name then
    Some (negb (has_job pattern && negb (bool_decide (job pattern = job name))) &&
          negb (has_replica pattern && negb (replica pattern =? replica name)) &&
          negb (has_task pattern && negb (task pattern =? task name)) &&
          negb (has_type pattern && negb (bool_decide (type pattern = type name))) &&
          negb (has_id pattern && negb (id pattern =? id name)))
  else None.
Definition AreCompatibleDevNames (a b : ParsedName) : bool := IsSpecification a b || IsSpecification b a.

Definition merge_error (what : list Z) (target other : ParsedName) : Status :=
  InvalidArgument (bytes_of "Cannot merge devices with incompatible " ++ what ++ bytes_of ": '" ++ ParsedNameToString target ++
                   bytes_of "' and '" ++ ParsedNameToString other ++ bytes_of "'").
Definition conflict {A} `{EqDecision A} (h1 : bool) (v1 : A) (h2 : bool) (v2 : A) : bool := h2 && h1 && negb (bool_decide (v1 = v2)).
(** The status and the new value of [*target], which an error leaves partly
    merged. *)
Definition MergeDevNames (target other : ParsedName) (allow_soft_placement : bool) : Status * ParsedName :=
  if conflict (has_job target) (job target) (has_job other) (job other) then (merge_error (bytes_of "jobs") target other, target) else
  let target := if has_job other then set_job true (job other) target else target in
  if conflict (has_replica target) (replica target) (has_replica other) (replica other) then (merge_error (bytes_of "replicas") target other, target) else
  let target := if has_replica other then set_replica true (replica other) target else target in
  if conflict (has_task target) (task target) (has_task other) (task other) then (merge_error (bytes_of "tasks") target other, target) else
  let target := if has_task other then set_task true (task other) target else target in
  if conflict (has_type target) (type target) (has_type other) (type other) then
    if negb allow_soft_placement then (merge_error (bytes_of "types") target other, target)
    else (OK, set_type false (type target) (set_id false (id target) target)) else
  let target := if has_type other then set_type true (type other) target else target in
  if conflict (has_id target) (id target) (has_id other) (id other) then
    if negb allow_soft_placement then (merge_error (bytes_of "ids") target other, target)
    else (OK, set_id false (id target) target) else
  let target := if has_id other then set_id true (id other) target else target in
  (OK, target).

Definition IsSameAddressSpace (a b : ParsedName) : bool :=
  (has_job a && has_job b && bool_decide (job a = job b)) &&
  (has_replica a && has_replica b && (replica a =? replica b)) &&
  (has_task a && has_task b && (task a =? task b)).
Definition IsSameAddressSpace_names (src dst : list Z) : bool :=
  match ParseFullName src with
  | Some (true, x) => match ParseFullName dst with Some (true, y) => IsSameAddressSpace x y | _ => false end
  | _ => false
  end.

End DeviceNames.
