(* ===== verification/DeviceNamesFacts.v ===== *)
(** * Device names: parsing, printing and merging

    A full name, and a local name, are read back by their parsers; which parsed
    names are printed to a text that parses; and the merge of two names as the
    join of the order "is a specification of". *)
From S2P Require Import Prelude StringPiece Status Numbers DeviceNames.
Import Status Numbers DeviceNames.

Module DeviceNamesFacts.

(** ** Prefixes *)

Lemma ConsumePrefix_app p r : ConsumePrefix (p ++ r) p = Some r.
Proof.
  unfold ConsumePrefix, StringPiece.remove_prefix. rewrite (proj2 (StringPiece.starts_with_spec (p ++ r) p)) by (by exists r).
  by rewrite drop_app_length.
Qed.
Lemma ConsumePrefix_inv s p r : ConsumePrefix s p = Some r -> s = p ++ r.
Proof.
  unfold ConsumePrefix, StringPiece.remove_prefix. destruct (StringPiece.starts_with s p) eqn:E; [|done].
  apply StringPiece.starts_with_spec in E as [q ->]. rewrite drop_app_length. by intros [= <-].
Qed.
Lemma ConsumePrefix_None s p : (forall r, s <> p ++ r) -> ConsumePrefix s p = None.
Proof. intros H. destruct (ConsumePrefix s p) as [r|] eqn:E; [|done]. apply ConsumePrefix_inv in E. by apply H in E. Qed.
Lemma ConsumePrefix_head c s d p : c <> d -> ConsumePrefix (c :: s) (d :: p) = None.
Proof. intros Hne. apply ConsumePrefix_None. intros r [= E _]. done. Qed.

(** ** Termination of the parser *)

Definition consumes {V} (consume : list Z -> option (V * list Z)) : Prop :=
  forall s v rest, consume s = Some (v, rest) -> (length rest <= length s)%nat.
Lemma name_span_length stop s n rest : name_span stop s = Some (n, rest) -> s = n ++ rest.
Proof.
  revert n rest. induction s as [|c s IH]; intros n rest; cbn; [by intros [= <- <-]|]. destruct (stop c); [by intros [= <- <-]|].
  destruct (name_char c); [|done]. destruct (name_span stop s) as [[n' r']|]; [|done]. intros [= <- <-]. by rewrite (IH _ _ eq_refl) at 1.
Qed.
Lemma consume_name_consumes stop : consumes (consume_name stop).
Proof.
  intros [|c s] n rest; cbn; [done|]. destruct (IsAlpha c); [|done]. destruct (name_span stop s) as [[n' r']|] eqn:E; [|done].
  intros [= <- <-]. apply name_span_length in E as ->. rewrite length_app. lia.
Qed.
Lemma ConsumeNumber_consumes : consumes ConsumeNumber.
Proof.
  intros s v rest. unfold ConsumeNumber, ConsumeLeadingDigits. destruct (digit_loop _ _ _) as [[w r]|]; [|done].
  destruct (length r <? length s)%nat eqn:E; [|done]. intros [= _ <-]. apply Nat.ltb_lt in E. lia.
Qed.

(** The rest is never longer, and shorter after progress. *)
Definition shrinks (s : list Z) (r : parse_result) : Prop :=
  match r with Refused _ => True | Parsed b s' _ => (length s' <= length s)%nat /\ (b = true -> (length s' < length s)%nat) end.
Lemma ConsumePrefix_length s p r : ConsumePrefix s p = Some r -> length s = (length p + length r)%nat.
Proof. intros E. apply ConsumePrefix_inv in E as ->. apply length_app. Qed.
Lemma parse_value_shrinks {V} set get consume s (p : ParsedName) : consumes consume ->
  match @parse_value V set get consume s p with Refused _ => True | Parsed b s' _ => b = true /\ (length s' <= length s)%nat end.
Proof.
  intros Hc. unfold parse_value. destruct (ConsumePrefix s _) as [s'|] eqn:E.
  - apply ConsumePrefix_length in E. split; [done|]. rewrite E. lia.
  - destruct (consume s) as [[v s']|] eqn:E'; [|done]. split; [done|]. by eapply Hc.
Qed.
Lemma parse_field_shrinks {V} c prefix set get consume s p : consumes consume -> shrinks s (@parse_field V (c :: prefix) set get consume s p).
Proof.
  intros Hc. unfold parse_field. destruct (ConsumePrefix s _) as [s'|] eqn:E; [|by split; [lia|]].
  apply ConsumePrefix_length in E. cbn in E. pose proof (parse_value_shrinks set get consume s' p Hc) as H. destruct (parse_value _ _ _ _ _) as [|b s2 p2]; [done|].
  destruct H as [-> H]. cbn. lia.
Qed.
Lemma parse_device_shrinks s p : shrinks s (parse_device s p).
Proof.
  unfold parse_device. destruct (ConsumePrefix s _) as [s1|] eqn:E; [|by split; [lia|]]. apply ConsumePrefix_length in E. cbn in E.
  pose proof (parse_value_shrinks set_type type ConsumeDeviceType s1 p (consume_name_consumes _)) as H.
  destruct (parse_value _ _ _ _ _) as [|b s2 p2]; [done|]. destruct H as [_ H]. destruct (ConsumePrefix s2 _) as [s3|] eqn:E3; [|cbn; lia].
  apply ConsumePrefix_length in E3. pose proof (parse_value_shrinks set_id id ConsumeNumber s3 p2 ConsumeNumber_consumes) as H'.
  destruct (parse_value _ _ _ _ _) as [|b4 s4 p4]; [done|]. cbn. lia.
Qed.
Lemma parse_legacy_shrinks c l d u ty s p : shrinks s (parse_legacy (c :: l) (d :: u) ty s p).
Proof.
  unfold parse_legacy. assert (H : forall s', (length s' < length s)%nat -> shrinks s (parse_value set_id id ConsumeNumber s' (set_type true ty p))).
  { intros s' Hl. pose proof (parse_value_shrinks set_id id ConsumeNumber s' (set_type true ty p) ConsumeNumber_consumes) as H.
    destruct (parse_value _ _ _ _ _) as [|b s2 p2]; [done|]. cbn. lia. }
  destruct (ConsumePrefix s (c :: l)) as [s'|] eqn:E; [|destruct (ConsumePrefix s (d :: u)) as [s'|] eqn:E'; [|by split; [lia|]]];
    apply H; [apply ConsumePrefix_length in E as ->|apply ConsumePrefix_length in E' as ->]; cbn; lia.
Qed.
Lemma and_then_shrinks s r f : shrinks s r -> (forall s' p, shrinks s' (f s' p)) -> shrinks s (and_then r f).
Proof.
  intros Hr Hf. destruct r as [|b s' p]; [done|]. cbn. specialize (Hf s' p). destruct (f s' p) as [|b' s2 p2]; [done|]. cbn in *.
  destruct b, b'; cbn; lia.
Qed.
Lemma parse_once_shrinks s p : shrinks s (parse_once s p).
Proof.
  unfold parse_once. repeat apply and_then_shrinks; intros; first [apply (parse_field_shrinks 47); first [apply consume_name_consumes|apply ConsumeNumber_consumes]|
    apply parse_device_shrinks|apply (parse_legacy_shrinks 47 _ 47)].
Qed.
Lemma parse_loop_total fuel s p : (length s < fuel)%nat -> parse_loop fuel s p <> None.
Proof.
  revert s p. induction fuel as [|fuel IH]; intros s p Hf; [lia|]. cbn [parse_loop]. destruct s as [|c s]; [done|].
  pose proof (parse_once_shrinks (c :: s) p) as H. destruct (parse_once (c :: s) p) as [|[] s' p']; [done| |done]. apply IH. cbn in *. lia.
Qed.
Lemma parse_loop_more fuel fuel' s p r : parse_loop fuel s p = Some r -> (fuel <= fuel')%nat -> parse_loop fuel' s p = Some r.
Proof.
  revert fuel' s p. induction fuel as [|fuel IH]; intros [|fuel'] s p E Hf; try done; [lia|]. cbn [parse_loop] in *. destruct s as [|c s]; [done|].
  destruct (parse_once (c :: s) p) as [|[] s' p']; try done. apply IH; [done|lia].
Qed.
(** Any fuel that suffices gives the result. *)
Lemma ParseFullName_loop fuel s r : s <> bytes_of "/" -> parse_loop fuel s Clear = Some r -> ParseFullName s = Some r.
Proof.
  intros Hs E. unfold ParseFullName. rewrite bool_decide_eq_false_2 by done. destruct (parse_loop (S (length s)) s Clear) as [r'|] eqn:E'.
  - destruct (Nat.le_ge_cases fuel (S (length s))) as [Hl|Hl]; [rewrite (parse_loop_more _ _ _ _ _ E Hl) in E'|rewrite (parse_loop_more _ _ _ _ _ E' Hl) in E]; congruence.
  - by apply parse_loop_total in E'; [|lia].
Qed.

(** ** Sections: "/word:value" *)

Definition section (x : list Z * list Z) : list Z := 47 :: x.1 ++ 58 :: x.2.
Definition text (xs : list (list Z * list Z)) : list Z := concat (map section xs).
Definition word_ok (x : list Z * list Z) : Prop := 58 ∉ x.1.
Lemma text_app xs ys : text (xs ++ ys) = text xs ++ text ys.
Proof. unfold text. by rewrite map_app, concat_app. Qed.
Lemma text_no_digit xs : no_digit (text xs).
Proof. by destruct xs. Qed.
Lemma text_head xs : text xs = [] \/ exists r, text xs = 47 :: r.
Proof. destruct xs as [|x xs]; [by left|]. right. by eexists. Qed.
Lemma word_unique (w w' r r' : list Z) : 58 ∉ w -> 58 ∉ w' -> w ++ 58 :: r = w' ++ 58 :: r' -> w = w' /\ r = r'.
Proof.
  revert w'. induction w as [|c w IH]; intros [|c' w'] Hw Hw' E; cbn in E; [by injection E|injection E as <- _; exfalso; apply Hw'; by left|
    injection E as -> _; exfalso; apply Hw; by left|].
  injection E as -> E. apply not_elem_of_cons in Hw as [_ Hw], Hw' as [_ Hw']. destruct (IH w' Hw Hw' E) as [-> ->]. done.
Qed.
(** The prefix "/w:" is found exactly on a section of that word. *)
Lemma section_prefix w v xs : ConsumePrefix (text ((w, v) :: xs)) (47 :: w ++ [58]) = Some (v ++ text xs).
Proof.
  replace (text ((w, v) :: xs)) with ((47 :: w ++ [58]) ++ v ++ text xs); [apply ConsumePrefix_app|].
  unfold text, section. cbn. by rewrite <- !app_assoc.
Qed.
Lemma section_no_prefix w xs : 58 ∉ w -> Forall word_ok xs -> Forall (fun x => x.1 <> w) xs -> ConsumePrefix (text xs) (47 :: w ++ [58]) = None.
Proof.
  intros Hw Hok Hne. apply ConsumePrefix_None. intros r E. destruct Hok as [|[w' v] xs Hx _]; [done|]. apply Forall_cons in Hne as [Hne _].
  unfold text, section in E. cbn in E. injection E as E. rewrite <- !app_assoc in E. cbn in E. by apply word_unique in E as [-> _].
Qed.

(** A value that is read back and is not "*". *)
Definition reads {V} (consume : list Z -> option (V * list Z)) (v : V) (vt : list Z) (xs : list (list Z * list Z)) : Prop :=
  consume (vt ++ text xs) = Some (v, text xs) /\ ConsumePrefix (vt ++ text xs) (bytes_of "*") = None.
Lemma parse_field_section {V} w set get consume (h : bool) (v : V) vt xs p :
  58 ∉ w -> Forall word_ok xs -> Forall (fun x => x.1 <> w) xs -> (h = true -> reads consume v vt xs) ->
  parse_field (47 :: w ++ [58]) set get consume (text ((if h then [(w, vt)] else []) ++ xs)) p = Parsed h (text xs) (if h then set true v p else p).
Proof.
  intros Hw Hok Hne Hr. unfold parse_field. destruct h; cbn [app].
  - rewrite section_prefix. unfold parse_value. destruct (Hr eq_refl) as [E1 E2]. by rewrite E2, E1.
  - by rewrite section_no_prefix.
Qed.

Lemma name_span_app stop n rest : Forall (fun c => name_char c = true /\ stop c = false) n -> (rest = [] \/ exists c r, rest = c :: r /\ stop c = true) ->
  name_span stop (n ++ rest) = Some (n, rest).
Proof.
  intros Hn Hr. induction Hn as [|c n [Hc Hs] _ IH]; cbn.
  - destruct Hr as [->|(c & r & -> & Hs)]; [done|]. cbn. by rewrite Hs.
  - by rewrite Hs, Hc, IH.
Qed.
Lemma name_char_cases c : name_char c = true -> c <> 47 /\ c <> 58 /\ c <> 42.
Proof. intros Hc. split_and!; intros ->; done. Qed.
Lemma IsAlpha_cases c : IsAlpha c = true -> name_char c = true.
Proof. intros Hc. unfold name_char, IsAlphaNum. by rewrite Hc. Qed.
Lemma consume_name_app stop n rest : IsJobName n = true -> (forall c, name_char c = true -> stop c = false) ->
  (rest = [] \/ exists c r, rest = c :: r /\ stop c = true) -> consume_name stop (n ++ rest) = Some (n, rest).
Proof.
  intros Hn Hs Hr. destruct n as [|c n]; [done|]. cbn in *. apply andb_true_iff in Hn as [Hc Hn]. rewrite Hc, name_span_app; [done| |done].
  apply Forall_forall. intros d Hd. rewrite forallb_forall in Hn. assert (Hd' : name_char d = true) by (apply Hn; by apply list_elem_of_In). auto.
Qed.
Lemma name_no_star n rest : IsJobName n = true -> ConsumePrefix (n ++ rest) (bytes_of "*") = None.
Proof.
  destruct n as [|c n]; [done|]. cbn. intros H. apply andb_true_iff in H as [Hc _]. apply ConsumePrefix_head.
  apply IsAlpha_cases, name_char_cases in Hc. tauto.
Qed.
Lemma name_no_colon n : IsJobName n = true -> 58 ∉ n.
Proof.
  intros H Hin. destruct n as [|c n]; [done|]. cbn in H. apply andb_true_iff in H as [Hc H]. apply elem_of_cons in Hin as [<-|Hin]; [done|].
  rewrite forallb_forall in H. apply list_elem_of_In in Hin. by apply H in Hin.
Qed.
Lemma reads_job n xs : IsJobName n = true -> reads ConsumeJobName n n xs.
Proof.
  intros Hn. split; [|by apply name_no_star]. apply consume_name_app; [done| |].
  - intros c Hc. apply name_char_cases in Hc. apply Z.eqb_neq. tauto.
  - destruct (text_head xs) as [->|[r ->]]; [by left|]. right. by eexists _, _.
Qed.

Definition is_int (n : Z) : Prop := 0 <= n < 2 ^ 31.
Lemma StrInt_digits n : is_int n -> StrInt n = FastUInt64ToBufferLeft n.
Proof.
  intros Hn. unfold is_int in Hn. unfold StrInt. rewrite FastInt32_eq, FastInt64_digits by lia. rewrite (proj2 (Z.ltb_ge n 0)) by lia.
  by rewrite Z.abs_eq by lia.
Qed.
Lemma ConsumeNumber_int n rest : is_int n -> no_digit rest -> ConsumeNumber (StrInt n ++ rest) = Some (n, rest).
Proof.
  intros Hn Hr. unfold ConsumeNumber. rewrite StrInt_digits, ConsumeLeadingDigits_print by (done || (unfold is_int in Hn; lia)).
  rewrite s32_id by (unfold is_int in Hn; lia). done.
Qed.
Lemma int_no_star n rest : is_int n -> ConsumePrefix (StrInt n ++ rest) (bytes_of "*") = None.
Proof.
  intros Hn. rewrite StrInt_digits by done. destruct (FastUInt64_digits n) as (Hd & Hne & _); [unfold is_int in Hn; lia|].
  destruct Hd as [|c ds Hc _]; [done|]. apply ConsumePrefix_head. intros ->. done.
Qed.
Lemma reads_int n xs : is_int n -> reads ConsumeNumber n (StrInt n) xs.
Proof. intros Hn. split; [by apply ConsumeNumber_int, text_no_digit|by apply int_no_star]. Qed.

(** ** Parsing sections *)

Definition w_job := bytes_of "job".
Definition w_replica := bytes_of "replica".
Definition w_task := bytes_of "task".
Definition w_device := bytes_of "device".
(** The words that the parser knows. *)
Definition reserved : list (list Z) := [w_job; w_replica; w_task; w_device; bytes_of "cpu"; bytes_of "CPU"; bytes_of "gpu"; bytes_of "GPU"].
(** The fields that a name constrains are well formed. *)
Definition valid_head (pn : ParsedName) : Prop :=
  (has_job pn = true -> IsJobName (job pn) = true) /\ (has_replica pn = true -> is_int (replica pn)) /\ (has_task pn = true -> is_int (task pn)).
Definition head_sections (pn : ParsedName) : list (list Z * list Z) :=
  (if has_job pn then [(w_job, job pn)] else []) ++ (if has_replica pn then [(w_replica, StrInt (replica pn))] else []) ++
  (if has_task pn then [(w_task, StrInt (task pn))] else []).
Definition set_head (pn p : ParsedName) : ParsedName :=
  let p := if has_job pn then set_job true (job pn) p else p in
  let p := if has_replica pn then set_replica true (replica pn) p else p in
  if has_task pn then set_task true (task pn) p else p.
Definition parse_tail (b : bool) (s : list Z) (p : ParsedName) : parse_result :=
  and_then (and_then (and_then (Parsed b s p) parse_device) (parse_legacy (bytes_of "/cpu:") (bytes_of "/CPU:") (bytes_of "CPU")))
    (parse_legacy (bytes_of "/gpu:") (bytes_of "/GPU:") (bytes_of "GPU")).
Definition not_head (x : list Z * list Z) : Prop := x.1 <> w_job /\ x.1 <> w_replica /\ x.1 <> w_task.

Lemma parse_head pn rest p : valid_head pn -> Forall word_ok rest -> Forall not_head rest ->
  parse_once (text (head_sections pn ++ rest)) p = parse_tail (has_job pn || has_replica pn || has_task pn) (text rest) (set_head pn p).
Proof.
  intros (Hj & Hr & Ht) Hok Hne. unfold parse_once, parse_tail, head_sections. rewrite <- !app_assoc.
  assert (H1 : Forall (fun x => x.1 <> w_job) rest /\ Forall (fun x => x.1 <> w_replica) rest /\ Forall (fun x => x.1 <> w_task) rest)
    by (split_and!; apply (Forall_impl _ _ _ Hne); by intros x (? & ? & ?)).
  destruct H1 as (N1 & N2 & N3). assert (W : (58 ∉ w_job) /\ (58 ∉ w_replica) /\ (58 ∉ w_task)) by (split_and!; by_eval). destruct W as (W1 & W2 & W3).
  change (bytes_of "/job:") with (47 :: w_job ++ [58]). change (bytes_of "/replica:") with (47 :: w_replica ++ [58]). change (bytes_of "/task:") with (47 :: w_task ++ [58]).
  rewrite (parse_field_section w_job set_job job ConsumeJobName (has_job pn) (job pn)); [|done| | |auto using reads_job];
    [|destruct (has_replica pn), (has_task pn); cbn; repeat (constructor; [done|]); done
     |destruct (has_replica pn), (has_task pn); cbn; repeat (constructor; [by cbn|]); done].
  unfold and_then at 3. cbn [and_then].
  rewrite (parse_field_section w_replica set_replica replica ConsumeNumber (has_replica pn) (replica pn)); [|done| | |auto using reads_int];
    [|destruct (has_task pn); cbn; repeat (constructor; [done|]); done|destruct (has_task pn); cbn; repeat (constructor; [by cbn|]); done].
  cbn [and_then].
  rewrite (parse_field_section w_task set_task task ConsumeNumber (has_task pn) (task pn)); [|done..|auto using reads_int]. done.
Qed.

(** Nothing matches: a section of another word, or the end. *)
Lemma no_legacy l u ty xs p b : 58 ∉ l -> 58 ∉ u -> Forall word_ok xs -> Forall (fun x => x.1 <> l /\ x.1 <> u) xs ->
  and_then (Parsed b (text xs) p) (parse_legacy (47 :: l ++ [58]) (47 :: u ++ [58]) ty) = Parsed b (text xs) p.
Proof.
  intros Hl Hu Hok Hne. cbn [and_then]. unfold parse_legacy. rewrite !section_no_prefix; try done.
  - by rewrite orb_false_r.
  - apply (Forall_impl _ _ _ Hne). by intros x [_ ?].
  - apply (Forall_impl _ _ _ Hne). by intros x [? _].
Qed.
Lemma no_device xs p b : Forall word_ok xs -> Forall (fun x => x.1 <> w_device) xs -> and_then (Parsed b (text xs) p) parse_device = Parsed b (text xs) p.
Proof.
  intros Hok Hne. cbn [and_then]. unfold parse_device. change (bytes_of "/device:") with (47 :: w_device ++ [58]). rewrite section_no_prefix; [|by_eval|done..].
  by rewrite orb_false_r.
Qed.
Lemma parse_tail_other b xs p : Forall word_ok xs -> Forall (fun x => x.1 ∉ reserved) xs -> parse_tail b (text xs) p = Parsed b (text xs) p.
Proof.
  intros Hok Hne. unfold parse_tail. assert (H : forall w, w ∈ reserved -> Forall (fun x => x.1 <> w) xs).
  { intros w Hw. apply (Forall_impl _ _ _ Hne). intros x Hx E. apply Hx. by rewrite E. }
  rewrite no_device by (done || apply H; by_eval).
  change (bytes_of "/cpu:") with (47 :: bytes_of "cpu" ++ [58]). change (bytes_of "/CPU:") with (47 :: bytes_of "CPU" ++ [58]).
  change (bytes_of "/gpu:") with (47 :: bytes_of "gpu" ++ [58]). change (bytes_of "/GPU:") with (47 :: bytes_of "GPU" ++ [58]).
  rewrite !no_legacy; try done; try by_eval; apply Forall_and; split; apply H; by_eval.
Qed.

(** The device section and the legacy ones. *)
Lemma parse_tail_device b ty i p : IsJobName ty = true -> is_int i ->
  parse_tail b (text [(w_device, ty ++ 58 :: StrInt i)]) p = Parsed true [] (set_id true i (set_type true ty p)).
Proof.
  intros Hty Hi. unfold parse_tail. assert (E : and_then (Parsed b (text [(w_device, ty ++ 58 :: StrInt i)]) p) parse_device = Parsed true (text []) (set_id true i (set_type true ty p))).
  { cbn [and_then]. unfold parse_device. change (bytes_of "/device:") with (47 :: w_device ++ [58]). rewrite section_prefix, <- app_assoc. cbn [app].
    unfold parse_value at 1. rewrite name_no_star by done. unfold ConsumeDeviceType. rewrite consume_name_app; [|done| |right; by eexists _, _].
    - change (58 :: StrInt i ++ text []) with (bytes_of ":" ++ StrInt i ++ text []). rewrite ConsumePrefix_app. unfold parse_value. destruct (reads_int i [] Hi) as [-> ->].
      by rewrite orb_true_r.
    - intros c Hc. apply name_char_cases in Hc. destruct (Z.eqb_spec c 47), (Z.eqb_spec c 58); try done; tauto. }
  rewrite E. change (bytes_of "/cpu:") with (47 :: bytes_of "cpu" ++ [58]). change (bytes_of "/CPU:") with (47 :: bytes_of "CPU" ++ [58]).
  change (bytes_of "/gpu:") with (47 :: bytes_of "gpu" ++ [58]). change (bytes_of "/GPU:") with (47 :: bytes_of "GPU" ++ [58]).
  rewrite !no_legacy; try done; try by_eval; apply Forall_nil.
Qed.
(** "*" or a number. *)
Definition id_text (pn : ParsedName) : list Z := if has_id pn then StrInt (id pn) else bytes_of "*".
Lemma parse_id_value pn p : (has_id pn = true -> is_int (id pn)) ->
  parse_value set_id id ConsumeNumber (id_text pn) p = Parsed true [] (if has_id pn then set_id true (id pn) p else set_id false (id p) p).
Proof.
  intros Hi. unfold parse_value, id_text. destruct (has_id pn).
  - destruct (reads_int (id pn) [] (Hi eq_refl)) as [E1 E2]. change (text []) with (@nil Z) in E1, E2. rewrite app_nil_r in E1, E2. by rewrite E2, E1.
  - done.
Qed.
Lemma parse_tail_legacy b pn p : type pn = bytes_of "CPU" \/ type pn = bytes_of "GPU" -> (has_id pn = true -> is_int (id pn)) ->
  parse_tail b (text [(type pn, id_text pn)]) p =
    Parsed true [] (if has_id pn then set_id true (id pn) (set_type true (type pn) p) else set_id false (id p) (set_type true (type pn) p)).
Proof.
  intros Hty Hi. unfold parse_tail. assert (Hok : Forall word_ok [(type pn, id_text pn)]) by (constructor; [|done]; unfold word_ok; cbn; destruct Hty as [->| ->]; by_eval).
  rewrite no_device; [|done|constructor; [|done]; cbn; destruct Hty as [->| ->]; by_eval].
  change (bytes_of "/cpu:") with (47 :: bytes_of "cpu" ++ [58]). change (bytes_of "/CPU:") with (47 :: bytes_of "CPU" ++ [58]).
  change (bytes_of "/gpu:") with (47 :: bytes_of "gpu" ++ [58]). change (bytes_of "/GPU:") with (47 :: bytes_of "GPU" ++ [58]).
  assert (Hleg : forall l ty, 58 ∉ l -> l <> ty -> type pn = ty -> and_then (Parsed b (text [(type pn, id_text pn)]) p) (parse_legacy (47 :: l ++ [58]) (47 :: ty ++ [58]) ty) =
    Parsed true [] (if has_id pn then set_id true (id pn) (set_type true (type pn) p) else set_id false (id p) (set_type true (type pn) p))).
  { intros l ty Hl Hne <-. cbn [and_then]. unfold parse_legacy. rewrite section_no_prefix; [|done..|by constructor; [cbn|]]. rewrite section_prefix, app_nil_r.
    rewrite parse_id_value by done. rewrite orb_true_r. by destruct (has_id pn). }
  destruct Hty as [E|E].
  - rewrite (Hleg (bytes_of "cpu") (bytes_of "CPU")) by (done || by_eval). change [] with (text []) at 1. by rewrite no_legacy by (done || by_eval || apply Forall_nil).
  - rewrite (no_legacy (bytes_of "cpu") (bytes_of "CPU")); [|by_eval|by_eval|done|constructor; [|done]; cbn; rewrite E; split; by_eval].
    rewrite (Hleg (bytes_of "gpu") (bytes_of "GPU")) by (done || by_eval). done.
Qed.

Lemma text_not_root xs : text xs <> bytes_of "/".
Proof. destruct xs as [|[w v] xs]; [done..|]. unfold text, section. cbn. intros [= E]. by destruct w. Qed.
(** A parse whose first turn takes everything. *)
Lemma parse_one_turn xs b p : parse_once (text xs) Clear = Parsed b [] p -> (text xs = [] -> p = Clear) -> (b = false -> text xs = []) ->
  ParseFullName (text xs) = Some (true, p).
Proof.
  intros E Hp Hb. apply (ParseFullName_loop 2); [apply text_not_root|]. cbn [parse_loop]. destruct (text xs) eqn:Et; [by rewrite (Hp eq_refl)|].
  rewrite E. destruct b; [done|]. by specialize (Hb eq_refl).
Qed.
Lemma FullName_text jb rep tsk ty i s : FullName jb rep tsk ty i = Some s ->
  s = text (head_sections (mkParsed true jb true rep true tsk true ty true i) ++ [(w_device, ty ++ 58 :: StrInt i)]) /\ IsJobName jb = true /\ 0 <= rep /\ 0 <= tsk /\ 0 <= i.
Proof.
  unfold FullName. destruct (_ && _) eqn:E; [|done]. intros [= <-]. rewrite !andb_true_iff, !Z.leb_le in E. destruct E as [[[[E1 E2] E3] _] E5].
  split_and!; [|done..]. unfold text, section. cbn [map concat head_sections app has_job has_replica has_task fst snd]. cbn. by rewrite <- !app_assoc, app_nil_r.
Qed.
Lemma valid_head_all jb rep tsk ty i : IsJobName jb = true -> is_int rep -> is_int tsk -> valid_head (mkParsed true jb true rep true tsk true ty true i).
Proof. intros. unfold valid_head. cbn. by split_and!. Qed.
Lemma ParseFullName_full jb rep tsk ty i : IsJobName jb = true -> IsJobName ty = true -> is_int rep -> is_int tsk -> is_int i ->
  exists s, FullName jb rep tsk ty i = Some s /\ ParseFullName s = Some (true, mkParsed true jb true rep true tsk true ty true i).
Proof.
  intros Hj Hty Hr Ht Hi. unfold is_int in *. destruct (FullName jb rep tsk ty i) as [s|] eqn:E.
  - exists s. split; [done|]. apply FullName_text in E as (-> & _).
    eapply parse_one_turn; [|intros E; discriminate E|].
    + rewrite parse_head; [by rewrite parse_tail_device|by apply valid_head_all| |]; (constructor; [|done]); [unfold word_ok|unfold not_head; split_and!]; by_eval.
    + done.
  - unfold FullName in E. rewrite Hj, !(proj2 (Z.leb_le 0 _)) in E by lia. by destruct ty.
Qed.

Lemma ParsedNameToString_text pn : ParsedNameToString pn = text (head_sections pn ++ (if has_type pn then [(type pn, id_text pn)] else [])).
Proof.
  unfold ParsedNameToString, id_text. rewrite text_app. unfold head_sections. rewrite !text_app, <- !app_assoc.
  destruct (has_job pn), (has_replica pn), (has_task pn), (has_type pn); unfold text, section; cbn; by rewrite ?app_nil_r.
Qed.
Definition valid_name (pn : ParsedName) : Prop :=
  valid_head pn /\ (has_type pn = true -> IsJobName (type pn) = true) /\ (has_id pn = true -> is_int (id pn) /\ has_type pn = true).
Lemma parse_print pn : valid_name pn -> (has_type pn = true -> type pn = bytes_of "CPU" \/ type pn = bytes_of "GPU") ->
  exists p, ParseFullName (ParsedNameToString pn) = Some (true, p) /\ ParsedName_eqb p pn = true.
Proof.
  intros (Hh & _ & Hi) Hty. rewrite ParsedNameToString_text. destruct (has_type pn) eqn:Et.
  - specialize (Hty eq_refl). eexists. split.
    + eapply parse_one_turn; [rewrite parse_head; [by rewrite parse_tail_legacy by (done || intros H; by apply Hi)|done| |]| |done].
      * constructor; [|done]. unfold word_ok. cbn. destruct Hty as [->| ->]; by_eval.
      * constructor; [|done]. split_and!; cbn; destruct Hty as [->| ->]; by_eval.
      * intros E. rewrite text_app in E. apply app_eq_nil in E as [_ E]. done.
    + unfold ParsedName_eqb, field_eqb, set_head. destruct (has_job pn), (has_replica pn), (has_task pn), (has_id pn); cbn; rewrite Et, !bool_decide_eq_true_2 by done; done.
  - exists (set_head pn Clear). split.
    + eapply parse_one_turn; [rewrite parse_head by done; by apply (parse_tail_other _ [])| |]; rewrite app_nil_r.
      * unfold head_sections, set_head. by destruct (has_job pn), (has_replica pn), (has_task pn).
      * unfold head_sections. by destruct (has_job pn), (has_replica pn), (has_task pn).
    + assert (Ei : has_id pn = false) by (destruct (has_id pn); [destruct (Hi eq_refl); congruence|done]).
      unfold ParsedName_eqb, field_eqb, set_head. destruct (has_job pn), (has_replica pn), (has_task pn); cbn; rewrite Et, Ei, ?bool_decide_eq_true_2 by done; done.
Qed.
Lemma parse_print_other pn : valid_name pn -> has_type pn = true -> type pn ∉ reserved ->
  exists p, ParseFullName (ParsedNameToString pn) = Some (false, p).
Proof.
  intros (Hh & Hty & _) Et Hr. rewrite ParsedNameToString_text, Et. specialize (Hty Et).
  set (d := [(type pn, id_text pn)]). assert (Hok : Forall word_ok d) by (constructor; [by apply name_no_colon|done]).
  assert (Hres : Forall (fun x => x.1 ∉ reserved) d) by (by constructor).
  assert (Hhd : Forall not_head d) by (constructor; [|done]; split_and!; intros E; cbn in E; apply Hr; rewrite E; by_eval).
  assert (E : forall p, parse_once (text d) p = Parsed false (text d) p).
  { intros p. pose proof (parse_head Clear d p ltac:(by split_and!) Hok Hhd) as E. cbn [head_sections has_job has_replica has_task Clear app orb] in E.
    rewrite E, parse_tail_other by done. done. }
  assert (Hd : exists r, text d = 47 :: r) by (by eexists). destruct Hd as [r Hd].
  pose proof (parse_head pn d Clear Hh Hok Hhd) as E1. rewrite parse_tail_other in E1 by done.
  destruct (text (head_sections pn ++ d)) as [|c t] eqn:Et'; [rewrite text_app in Et'; apply app_eq_nil in Et' as [_ Et']; congruence|].
  eexists. apply (ParseFullName_loop 3); [rewrite <- Et'; apply text_not_root|].
  cbn [parse_loop]. rewrite E1. destruct (_ || _ || _); [|done]. rewrite Hd, <- Hd, E. done.
Qed.

(** A full name is read back: for a job and a device type that are
    identifiers and numbers that fit an [int], [FullName] succeeds,
    [ParseFullName] recovers exactly the five components, [SplitDeviceName]
    gives the part before the device and the local name, and [ParseLocalName]
    reads the local name. The parser always ends. *)
Theorem device_name_roundtrip jb rep tsk ty i p : IsJobName jb = true -> IsJobName ty = true -> is_int rep -> is_int tsk -> is_int i ->
  (exists s, FullName jb rep tsk ty i = Some s /\
     ParseFullName s = Some (true, mkParsed true jb true rep true tsk true ty true i) /\
     SplitDeviceName s = Some (bytes_of "/job:" ++ jb ++ bytes_of "/replica:" ++ StrInt rep ++ bytes_of "/task:" ++ StrInt tsk, LocalName ty i) /\
     LocalName_of s = Some (LocalName ty i)) /\
  ParseLocalName (LocalName ty i) p = (true, set_id (has_id p) i (set_type (has_type p) ty p)) /\
  (forall s, ParseFullName s <> None).
Proof.
  intros Hj Hty Hr Ht Hi. split_and!.
  - destruct (ParseFullName_full jb rep tsk ty i) as (s & Es & Ep); [done..|]. exists s. unfold SplitDeviceName, LocalName_of. rewrite Ep. cbn.
    split_and!; done.
  - unfold ParseLocalName, LocalName, ConsumeDeviceType. rewrite consume_name_app; [|done| |right; by eexists _, _].
    + rewrite ConsumePrefix_app. pose proof (ConsumeNumber_int i [] Hi eq_refl) as E. rewrite app_nil_r in E. by rewrite E.
    + intros c Hc. apply name_char_cases in Hc. destruct (Z.eqb_spec c 47), (Z.eqb_spec c 58); try done; tauto.
  - intros s. unfold ParseFullName. destruct (bool_decide _); [done|]. apply parse_loop_total. lia.
Qed.
Lemma device_name_roundtrip_witness : exists s, FullName (bytes_of "worker") 0 12 (bytes_of "TPU") 3 = Some s /\
  ParseFullName s = Some (true, mkParsed true (bytes_of "worker") true 0 true 12 true (bytes_of "TPU") true 3).
Proof.
  destruct (device_name_roundtrip (bytes_of "worker") 0 12 (bytes_of "TPU") 3 Clear) as [(s & H1 & H2 & _) _];
    [reflexivity|reflexivity|split; [discriminate|reflexivity]..|]. exists s. exact (conj H1 H2).
Defined.

(** [ParsedNameToString] is inverted by [ParseFullName] only for the device
    types CPU and GPU: for a well-formed name of these types, or without a
    type, what is printed parses to an equal name; a name of any other type
    that is not a keyword prints as a text that the parser refuses. *)
Theorem parsed_name_print pn : valid_name pn ->
  ((has_type pn = true -> type pn = bytes_of "CPU" \/ type pn = bytes_of "GPU") ->
     exists p, ParseFullName (ParsedNameToString pn) = Some (true, p) /\ ParsedName_eqb p pn = true) /\
  (has_type pn = true -> type pn ∉ reserved -> exists p, ParseFullName (ParsedNameToString pn) = Some (false, p)).
Proof. intros H. split; [by apply parse_print|by apply parse_print_other]. Qed.
Lemma parsed_name_print_witness : exists p, ParseFullName (ParsedNameToString (mkParsed true (bytes_of "w") false 0 false 0 true (bytes_of "TPU") true 0)) = Some (false, p).
Proof.
  apply parsed_name_print; [|reflexivity|by_eval].
  split; [split; [reflexivity|split; discriminate]|split; [reflexivity|]]. intros _. split; [split; [discriminate|reflexivity]|reflexivity].
Defined.

(** ** Specifications and merging *)

Lemma field_spec_iff {A} `{EqDecision A} h1 (v1 : A) h2 v2 : field_spec h1 v1 h2 v2 = true <-> (h1 = true -> h2 = true /\ v1 = v2).
Proof. unfold field_spec. destruct h1, h2; cbn; [|naive_solver..]. case_bool_decide; naive_solver. Qed.
Definition spec (a b : ParsedName) : Prop :=
  (has_job a = true -> has_job b = true /\ job a = job b) /\ (has_replica a = true -> has_replica b = true /\ replica a = replica b) /\
  (has_task a = true -> has_task b = true /\ task a = task b) /\ (has_type a = true -> has_type b = true /\ type a = type b) /\
  (has_id a = true -> has_id b = true /\ id a = id b).
Lemma IsSpecification_iff a b : IsSpecification a b = true <-> spec a b.
Proof. unfold IsSpecification, spec. rewrite !andb_true_iff, !field_spec_iff. tauto. Qed.
Lemma spec_trans a b c : spec a b -> spec b c -> spec a c.
Proof. unfold spec. naive_solver congruence. Qed.
Definition clash {A} `{EqDecision A} h1 (v1 : A) h2 v2 : Prop := h1 = true /\ h2 = true /\ v1 <> v2.
Lemma conflict_spec {A} `{EqDecision A} h1 (v1 : A) h2 v2 : if conflict h1 v1 h2 v2 then clash h1 v1 h2 v2 else ~ clash h1 v1 h2 v2.
Proof. unfold conflict, clash. destruct h1, h2; cbn; try naive_solver. case_bool_decide; cbn; naive_solver. Qed.
(** The names clash in no component. *)
Definition compatible (a b : ParsedName) : Prop :=
  ~ clash (has_job a) (job a) (has_job b) (job b) /\ ~ clash (has_replica a) (replica a) (has_replica b) (replica b) /\
  ~ clash (has_task a) (task a) (has_task b) (task b) /\ ~ clash (has_type a) (type a) (has_type b) (type b) /\ ~ clash (has_id a) (id a) (has_id b) (id b).
Definition union (a b : ParsedName) : ParsedName :=
  mkParsed (has_job a || has_job b) (if has_job b then job b else job a) (has_replica a || has_replica b) (if has_replica b then replica b else replica a)
    (has_task a || has_task b) (if has_task b then task b else task a) (has_type a || has_type b) (if has_type b then type b else type a)
    (has_id a || has_id b) (if has_id b then id b else id a).

(** The merge fails on the first component that clashes. *)
Lemma merge_spec a b : if ok (fst (MergeDevNames a b false)) then compatible a b /\ snd (MergeDevNames a b false) = union a b else ~ compatible a b.
Proof.
  unfold compatible, union, MergeDevNames. destruct a as [hj j hr r ht t hy y hi i], b as [hj' j' hr' r' ht' t' hy' y' hi' i']; cbn.
  pose proof (conflict_spec hj j hj' j') as C1. destruct (conflict hj j hj' j'); [cbn; tauto|].
  replace (has_replica (if hj' then _ else _)) with hr by (by destruct hj'). replace (replica (if hj' then _ else _)) with r by (by destruct hj').
  pose proof (conflict_spec hr r hr' r') as C2. destruct (conflict hr r hr' r'); [cbn; tauto|].
  match goal with |- context [conflict (has_task ?x) (task ?x)] => replace (has_task x) with ht by (by destruct hj', hr'); replace (task x) with t by (by destruct hj', hr') end.
  pose proof (conflict_spec ht t ht' t') as C3. destruct (conflict ht t ht' t'); [cbn; tauto|].
  match goal with |- context [conflict (has_type ?x) (type ?x)] => replace (has_type x) with hy by (by destruct hj', hr', ht'); replace (type x) with y by (by destruct hj', hr', ht') end.
  pose proof (conflict_spec hy y hy' y') as C4. destruct (conflict hy y hy' y'); [cbn; tauto|].
  match goal with |- context [conflict (has_id ?x) (id ?x)] => replace (has_id x) with hi by (by destruct hj', hr', ht', hy'); replace (id x) with i by (by destruct hj', hr', ht', hy') end.
  pose proof (conflict_spec hi i hi' i') as C5. destruct (conflict hi i hi' i'); [cbn; tauto|].
  cbn. split; [tauto|]. destruct hj', hr', ht', hy', hi'; cbn; by rewrite ?orb_true_r, ?orb_false_r.
Qed.
(** One component of the union. *)
Lemma join_left {A} `{EqDecision A} h1 (v1 : A) h2 v2 : ~ clash h1 v1 h2 v2 -> h1 = true -> h1 || h2 = true /\ v1 = if h2 then v2 else v1.
Proof. unfold clash. intros Hc ->. split; [done|]. destruct h2; [|done]. apply dec_stable. tauto. Qed.
Lemma join_right {A} h1 (v1 : A) h2 v2 : h2 = true -> h1 || h2 = true /\ v2 = if h2 then v2 else v1.
Proof. intros ->. by rewrite orb_true_r. Qed.
Lemma join_least {A} h1 (v1 : A) h2 v2 h3 v3 : (h1 = true -> h3 = true /\ v1 = v3) -> (h2 = true -> h3 = true /\ v2 = v3) ->
  h1 || h2 = true -> h3 = true /\ (if h2 then v2 else v1) = v3.
Proof. destruct h2; [by rewrite orb_true_r; auto|rewrite orb_false_r; auto]. Qed.
Lemma union_join a b : compatible a b -> spec a (union a b) /\ spec b (union a b) /\ forall n, spec a n -> spec b n -> spec (union a b) n.
Proof.
  unfold compatible, spec, union. intros (C1 & C2 & C3 & C4 & C5). cbn. split_and!; try (intros; by apply join_left); try (intros; by apply join_right).
  intros n (A1 & A2 & A3 & A4 & A5) (B1 & B2 & B3 & B4 & B5). split_and!; by apply join_least.
Qed.
(** A complete name below a given one. *)
Definition completion (n : ParsedName) : ParsedName := mkParsed true (job n) true (replica n) true (task n) true (type n) true (id n).
Lemma compatible_iff a b : compatible a b <-> exists n, complete n = true /\ spec a n /\ spec b n.
Proof.
  split.
  - intros Hc. destruct (union_join a b Hc) as (Ha & Hb & _). exists (completion (union a b)). split; [done|].
    assert (Hu : spec (union a b) (completion (union a b))) by (by split_and!). split; by eapply spec_trans.
  - intros (n & _ & (A1 & A2 & A3 & A4 & A5) & (B1 & B2 & B3 & B4 & B5)). unfold compatible, clash.
    split_and!; intros (Ha & Hb & Hne); apply Hne; naive_solver congruence.
Qed.
Lemma Z_eqb_decide (x y : Z) : (x =? y) = bool_decide (x = y).
Proof. destruct (Z.eqb_spec x y); [by rewrite bool_decide_eq_true_2|by rewrite bool_decide_eq_false_2]. Qed.
Lemma spec_complete p n : complete n = true -> IsCompleteSpecification p n = Some (IsSpecification p n).
Proof.
  intros Hn. unfold IsCompleteSpecification. rewrite Hn. unfold complete in Hn. rewrite !andb_true_iff in Hn. destruct Hn as [[[[H1 H2] H3] H4] H5].
  unfold IsSpecification, field_spec. rewrite H1, H2, H3, H4, H5. cbn. by rewrite !Z_eqb_decide.
Qed.

(** C36: Without soft placement [MergeDevNames] computes the least upper bound
    of two names in the order [IsSpecification], a preorder: it returns OK
    exactly when some complete device name is a specification of both, and
    then the result is a specification of both and every common specification
    is a specification of the result. On complete names [IsSpecification] is
    [IsCompleteSpecification]. [AreCompatibleDevNames] implies that a common
    complete name exists, but does not hold whenever there is one. *)
Theorem merge_is_join a b :
  let '(s, m) := MergeDevNames a b false in
  (ok s = true <-> exists n, complete n = true /\ IsSpecification a n = true /\ IsSpecification b n = true) /\
  (ok s = true -> IsSpecification a m = true /\ IsSpecification b m = true /\
     forall n, IsSpecification a n = true -> IsSpecification b n = true -> IsSpecification m n = true) /\
  (forall p q r, IsSpecification p p = true /\ (IsSpecification p q = true -> IsSpecification q r = true -> IsSpecification p r = true)) /\
  (forall p n, complete n = true -> IsCompleteSpecification p n = Some (IsSpecification p n)) /\
  (AreCompatibleDevNames a b = true -> ok s = true) /\
  (exists p q, ok (fst (MergeDevNames p q false)) = true /\ AreCompatibleDevNames p q = false).
Proof.
  pose proof (merge_spec a b) as H. destruct (MergeDevNames a b false) as [s m]. cbn [fst snd] in H.
  assert (Hok : ok s = true <-> compatible a b) by (destruct (ok s); naive_solver). unfold AreCompatibleDevNames. setoid_rewrite IsSpecification_iff. split_and!.
  - rewrite Hok. apply compatible_iff.
  - intros E. rewrite E in H. destruct H as [Hc ->]. by apply union_join.
  - intros p q r. split; [by split_and!|apply spec_trans].
  - intros p n. apply spec_complete.
  - rewrite orb_true_iff, !IsSpecification_iff, Hok, compatible_iff. assert (Hself : forall n, spec n (completion n)) by (intros n; by split_and!).
    intros [E|E]; [exists (completion b)|exists (completion a)]; (split_and!; [done|..]); eauto using spec_trans.
  - exists (mkParsed true (bytes_of "w") false 0 false 0 false [] false 0), (mkParsed false [] false 0 true 1 false [] false 0). split; reflexivity.
Qed.

(** ** Examples *)

Example parse_1 : ParseFullName (bytes_of "/job:worker/replica:1/task:2/gpu:3") =
  Some (true, mkParsed true (bytes_of "worker") true 1 true 2 true (bytes_of "GPU") true 3).
Proof. reflexivity. Qed.
Example parse_2 : ParseFullName (bytes_of "/device:TPU:*") = Some (true, mkParsed false [] false 0 false 0 true (bytes_of "TPU") false 0).
Proof. reflexivity. Qed.
Example parse_3 : ParseFullName (bytes_of "/TPU:0") = Some (false, Clear).
Proof. reflexivity. Qed.
Example parse_4 : ParseFullName (bytes_of "/task:4294967297") = Some (true, mkParsed false [] false 0 true 1 false [] false 0).
Proof. reflexivity. Qed.
End DeviceNamesFacts.
