(* ===== verification/RendezvousKey.v ===== *)
(** * Rendezvous keys

    [Rendezvous::CreateKey], [ParseKey], [AppendStepidToKey] and
    [GetKeyAndStepId] of [core/framework/rendezvous.cc]: the textual key under
    which a tensor travels, made of the two device names, the incarnation of
    the sender, the name of the edge and the frame and iteration. *)
From S2P Require Import Prelude StringPiece Status Numbers DeviceNames DeviceNamesFacts.
Import Status Numbers DeviceNames DeviceNamesFacts.

Module RendezvousKey.

Record FrameAndIter := mkFrame { frame_id : Z; iter_id : Z }.
Record ParsedKey := mkKey {
  src_device : list Z; src : ParsedName; src_incarnation : Z;
  dst_device : list Z; dst : ParsedName; edge_name : list Z; buf_ : list Z
}.
Definition new_ParsedKey : ParsedKey := mkKey [] Clear 0 [] Clear [] [].
Definition semi : Z := 59.

Definition frame_text (f : FrameAndIter) : list Z := FastUInt64ToBufferLeft (frame_id f) ++ bytes_of ":" ++ FastInt64ToBufferLeft (iter_id f).
Definition CreateKey (src_device : list Z) (src_incarnation : Z) (dst_device name : list Z) (frame_iter : FrameAndIter) : list Z :=
  src_device ++ bytes_of ";" ++ Uint64ToHexString src_incarnation ++ bytes_of ";" ++ dst_device ++ bytes_of ";" ++ name ++ bytes_of ";" ++ frame_text frame_iter.

(** The part before the delimiter and what follows it. *)
Fixpoint ConsumeNextPart (s : list Z) (delim : Z) : list Z * list Z :=
  match s with
  | [] => ([], [])
  | c :: s' => if c =? delim then ([], s') else let '(part, rest) := ConsumeNextPart s' delim in (c :: part, rest)
  end.
(** [ParseFullName], with the value that it leaves in its argument. *)
Definition parse_device_name (s : list Z) (p : ParsedName) : bool * ParsedName := match ParseFullName s with Some r => r | None => (false, p) end.
Definition ParseKey (key : list Z) (out : ParsedKey) : Status * ParsedKey :=
  let '(p0, s) := ConsumeNextPart key semi in
  let '(p1, s) := ConsumeNextPart s semi in
  let '(p2, s) := ConsumeNextPart s semi in
  let '(p3, s) := ConsumeNextPart s semi in
  let '(p4, s) := ConsumeNextPart s semi in
  let bad out := (InvalidArgument (bytes_of "Invalid  rendezvous key: " ++ key), out) in
  let out := mkKey (src_device out) (src out) (src_incarnation out) (dst_device out) (dst out) (edge_name out) key in
  if negb (SkipEmpty s) && SkipEmpty p4 then
    let '(ok0, n0) := parse_device_name p0 (src out) in
    let out := mkKey (src_device out) n0 (src_incarnation out) (dst_device out) (dst out) (edge_name out) key in
    if negb ok0 then bad out
    else match HexStringToUint64 p1 with
         | None => bad out
         | Some inc =>
             let out := mkKey (src_device out) n0 inc (dst_device out) (dst out) (edge_name out) key in
             let '(ok2, n2) := parse_device_name p2 (dst out) in
             let out := mkKey (src_device out) n0 inc (dst_device out) n2 (edge_name out) key in
             if ok2 && SkipEmpty p3 then (OK, mkKey p0 n0 inc p2 n2 p3 key) else bad out
         end
  else bad out.

Definition AppendStepidToKey (key : list Z) (step_id : Z) : list Z := key ++ bytes_of ";" ++ FastInt64ToBufferLeft step_id.
(** [None]: the [CHECK] fails. The result of [safe_strto64] is not looked at:
    [step_id] keeps its value when it fails. *)
Definition GetKeyAndStepId (key_with_step_id : list Z) (step_id : Z) : option (list Z * Z) :=
  let parts := Split key_with_step_id semi AllowEmpty in
  if (length parts =? 6)%nat then
    let step_id := match parts !! 5%nat with Some p => match safe_strto64 p with Some n => n | None => step_id end | None => step_id end in
    Some (Join (removelast parts) (bytes_of ";"), step_id)
  else None.

(** ** Parts *)

Lemma next_part x rest : semi ∉ x -> ConsumeNextPart (x ++ bytes_of ";" ++ rest) semi = (x, rest).
Proof.
  change (bytes_of ";") with [semi]. induction x as [|c x IH]; intros Hx; [done|]. apply not_elem_of_cons in Hx as [Hc Hx]. cbn [app ConsumeNextPart].
  destruct (Z.eqb_spec c semi); [congruence|]. pose proof (IH Hx) as E. cbn [app] in E. by rewrite E.
Qed.
Lemma last_part x : semi ∉ x -> ConsumeNextPart x semi = (x, []).
Proof.
  induction x as [|c x IH]; intros Hx; [done|]. apply not_elem_of_cons in Hx as [Hc Hx]. cbn.
  destruct (Z.eqb_spec c semi); [congruence|]. by rewrite IH.
Qed.
Lemma digits_no_semi ds : digits ds -> semi ∉ ds.
Proof. intros Hd Hin. unfold digits in Hd. rewrite Forall_forall in Hd. apply Hd in Hin. done. Qed.
Lemma uint_no_semi n : 0 <= n < 2 ^ 64 -> semi ∉ FastUInt64ToBufferLeft n.
Proof. intros Hn. destruct (FastUInt64_digits n Hn) as (Hd & _). by apply digits_no_semi. Qed.
Lemma int_no_semi n : - 2 ^ 63 <= n < 2 ^ 63 -> semi ∉ FastInt64ToBufferLeft n.
Proof.
  intros Hn. rewrite FastInt64_digits by done. apply not_elem_of_app. split; [|apply uint_no_semi; lia].
  destruct (n <? 0); by_eval.
Qed.
Lemma hex_no_semi v : semi ∉ Uint64ToHexString v.
Proof.
  intros Hin. pose proof (hex_loop_lower 16 v) as H. rewrite Forall_forall in H. apply H in Hin. unfold lower_hex, semi in Hin. lia.
Qed.
Lemma name_no_semi n : IsJobName n = true -> semi ∉ n.
Proof.
  intros H Hin. destruct n as [|c n]; [done|]. cbn in H. apply andb_true_iff in H as [Hc H]. apply elem_of_cons in Hin as [<-|Hin]; [done|].
  rewrite forallb_forall in H. apply list_elem_of_In in Hin. by apply H in Hin.
Qed.
Definition full_device (d : list Z) (pn : ParsedName) : Prop :=
  exists jb rep tsk ty i, IsJobName jb = true /\ IsJobName ty = true /\ is_int rep /\ is_int tsk /\ is_int i /\
    FullName jb rep tsk ty i = Some d /\ pn = mkParsed true jb true rep true tsk true ty true i.
Lemma full_device_parse d pn : full_device d pn -> ParseFullName d = Some (true, pn).
Proof.
  intros (jb & rep & tsk & ty & i & H1 & H2 & H3 & H4 & H5 & Hd & ->).
  destruct (ParseFullName_full jb rep tsk ty i) as (s & Es & Ep); [done..|]. congruence.
Qed.
Lemma StrInt_no_semi n : is_int n -> semi ∉ StrInt n.
Proof. intros Hn. rewrite StrInt_digits by done. apply uint_no_semi. unfold is_int in Hn. lia. Qed.
Lemma full_device_no_semi d pn : full_device d pn -> semi ∉ d.
Proof.
  intros (jb & rep & tsk & ty & i & H1 & H2 & H3 & H4 & H5 & Hd & _). unfold FullName in Hd. destruct (_ && _); [|done]. apply (inj Some) in Hd as <-.
  rewrite !not_elem_of_app. split_and!; first [by apply name_no_semi|by apply StrInt_no_semi|by_eval].
Qed.
Lemma frame_no_semi f : 0 <= frame_id f < 2 ^ 64 -> - 2 ^ 63 <= iter_id f < 2 ^ 63 -> semi ∉ frame_text f.
Proof. intros Hf Hi. unfold frame_text. rewrite !not_elem_of_app. split_and!; [by apply uint_no_semi|by_eval|by apply int_no_semi]. Qed.
Lemma frame_nonempty f : SkipEmpty (frame_text f) = true.
Proof. unfold frame_text. by destruct (FastUInt64ToBufferLeft _). Qed.
Lemma CreateKey_join s h d n f rest : s ++ bytes_of ";" ++ h ++ bytes_of ";" ++ d ++ bytes_of ";" ++ n ++ bytes_of ";" ++ f ++ concat (map (fun y => bytes_of ";" ++ y) rest) =
  Join (s :: h :: d :: n :: f :: rest) (bytes_of ";").
Proof. unfold Join. cbn [map concat]. by rewrite <- !app_assoc. Qed.

Section Keys.
Context (sd dd name : list Z) (sp dp : ParsedName) (inc : Z) (f : FrameAndIter).
Context (Hs : full_device sd sp) (Hd : full_device dd dp) (Hinc : 0 <= inc < 2 ^ 64).
Context (Hframe : 0 <= frame_id f < 2 ^ 64) (Hiter : - 2 ^ 63 <= iter_id f < 2 ^ 63).
Abbreviation key := (CreateKey sd inc dd name f).

Lemma ParseKey_CreateKey out : semi ∉ name -> name <> [] -> ParseKey key out = (OK, mkKey sd sp inc dd dp name key).
Proof.
  intros Hn Hne. unfold ParseKey. unfold CreateKey at 1. rewrite (next_part sd) by (by eapply full_device_no_semi).
  rewrite next_part by apply hex_no_semi. rewrite (next_part dd) by (by eapply full_device_no_semi). rewrite next_part by done.
  rewrite last_part by (by apply frame_no_semi). rewrite frame_nonempty. cbn [SkipEmpty negb andb].
  unfold parse_device_name. rewrite (full_device_parse _ _ Hs), hex_print by done. cbn [negb]. rewrite (full_device_parse _ _ Hd). by destruct name.
Qed.
Lemma ParseKey_semicolon n1 n2 out : name = n1 ++ semi :: n2 -> semi ∉ n1 -> ok (fst (ParseKey key out)) = false.
Proof.
  intros -> Hn. unfold ParseKey. unfold CreateKey at 1. rewrite (next_part sd) by (by eapply full_device_no_semi).
  rewrite next_part by apply hex_no_semi. rewrite (next_part dd) by (by eapply full_device_no_semi).
  change (semi :: n2) with (bytes_of ";" ++ n2). rewrite <- (app_assoc n1), <- (app_assoc (bytes_of ";") n2), (next_part n1) by done.
  assert (H : exists p s, ConsumeNextPart (n2 ++ bytes_of ";" ++ frame_text f) semi = (p, s) /\ SkipEmpty s = true).
  { clear. induction n2 as [|c n2 (p & s & E & H)]; [eexists _, _; split; [exact (next_part [] (frame_text f) (not_elem_of_nil _))|apply frame_nonempty]|].
    cbn [app ConsumeNextPart]. destruct (c =? semi); [eexists _, _; split; [done|]; by destruct n2|]. rewrite E. by eexists _, _. }
  destruct H as (p & s & -> & H). by rewrite H.
Qed.
Lemma GetKeyAndStepId_Append step old : semi ∉ name -> - 2 ^ 63 <= step < 2 ^ 63 -> GetKeyAndStepId (AppendStepidToKey key step) old = Some (key, step).
Proof.
  intros Hn Hstep. unfold GetKeyAndStepId.
  assert (E : Split (AppendStepidToKey key step) semi AllowEmpty = [sd; Uint64ToHexString inc; dd; name; frame_text f; FastInt64ToBufferLeft step]).
  { unfold AppendStepidToKey, CreateKey. rewrite <- !app_assoc.
    pose proof (CreateKey_join sd (Uint64ToHexString inc) dd name (frame_text f) [FastInt64ToBufferLeft step]) as J. cbn [map concat] in J. rewrite app_nil_r in J. rewrite J.
    change (bytes_of ";") with [semi]. apply Split_Join_all; [|done].
    repeat apply Forall_cons_2; try done; [by eapply full_device_no_semi|apply hex_no_semi|by eapply full_device_no_semi|by apply frame_no_semi|by apply int_no_semi]. }
  rewrite E. cbn [length Nat.eqb lookup list_lookup removelast]. rewrite strto64_print by done. f_equal. f_equal. unfold Join, CreateKey. cbn [map concat]. by rewrite app_nil_r, <- !app_assoc.
Qed.

(** A rendezvous key is read back: for two full device names, an
    incarnation, a frame and an iteration of 64 bits and a non-empty edge name
    without a semicolon, [ParseKey] of [CreateKey] is OK and recovers the
    device names with their parsed forms, the incarnation and the edge name,
    whatever [*out] held; [GetKeyAndStepId] recovers the key and the step from
    [AppendStepidToKey]. An edge name with a semicolon is refused with an
    error, never read back as another name. *)
Theorem rendezvous_key_roundtrip out :
  (semi ∉ name -> name <> [] -> ParseKey key out = (OK, mkKey sd sp inc dd dp name key)) /\
  (forall step old, semi ∉ name -> - 2 ^ 63 <= step < 2 ^ 63 -> GetKeyAndStepId (AppendStepidToKey key step) old = Some (key, step)) /\
  (semi ∈ name -> ok (fst (ParseKey key out)) = false).
Proof using All.
  split_and!; [apply ParseKey_CreateKey|intros; by apply GetKeyAndStepId_Append|]. intros Hin.
  apply list_elem_of_split_l in Hin as (n1 & n2 & E & Hn). by eapply ParseKey_semicolon.
Qed.
End Keys.

Definition demo_device : list Z := bytes_of "/job:w/replica:0/task:0/device:GPU:1".
Definition demo_name : ParsedName := mkParsed true (bytes_of "w") true 0 true 0 true (bytes_of "GPU") true 1.
Lemma demo_full : full_device demo_device demo_name.
Proof. exists (bytes_of "w"), 0, 0, (bytes_of "GPU"), 1. split_and!; try reflexivity; unfold is_int; lia. Qed.
Lemma rendezvous_key_roundtrip_witness :
  ParseKey (CreateKey demo_device 255 demo_device (bytes_of "edge_3") (mkFrame 0 0)) new_ParsedKey =
    (OK, mkKey demo_device demo_name 255 demo_device demo_name (bytes_of "edge_3") (CreateKey demo_device 255 demo_device (bytes_of "edge_3") (mkFrame 0 0))).
Proof.
  apply (rendezvous_key_roundtrip demo_device demo_device (bytes_of "edge_3") demo_name demo_name 255 (mkFrame 0 0) demo_full demo_full); try (cbn; lia); by_eval.
Defined.
End RendezvousKey.
