(* ===== verification/Rendezvous.v ===== *)
(** * Rendezvous

    [LocalRendezvousImpl] of [core/framework/rendezvous.cc]: a table from the
    hash of a key to an item that holds a message or a waiting receiver. The
    callbacks run outside the lock: an operation is one atomic step on the
    table that leaves a task (callbacks to invoke, references to drop), and
    the tasks of concurrent operations interleave freely. *)
From stdpp Require Import list_tactics.
From S2P Require Import Prelude Status.
Import Status.

Module Rendezvous.

Section Rendezvous.
(** Tensors, with the default-constructed one, and the hash of a key. *)
Context {Tensor : Type} (no_tensor : Tensor).
Context {Key : Type} (KeyHash : Key -> Z) (FullKey : Key -> list Z).

(** A device context is named by a number, a callback by the number of the
    request that it completes. *)
Record Args := mkArgs { device_context : option nat; alloc_attrs : Z }.
Definition no_args : Args := mkArgs None 0.

Record Item := mkItem {
  waiter : option nat;
  value : Tensor;
  is_dead : bool;
  has_been_recvd : bool;
  send_dev_context : option nat;
  recv_dev_context : option nat;
  send_alloc_attrs : Z;
  recv_alloc_attrs : Z
}.

(** One call of a [DoneCallback]. *)
Record Invocation := mkInv {
  inv_done : nat;
  inv_status : Status;
  inv_send_args : Args;
  inv_recv_args : Args;
  inv_value : Tensor;
  inv_is_dead : bool
}.
Inductive Action := Invoke (i : Invocation) | Unref (c : nat).

(** The object, and the references that it holds on device contexts: [Ref] and
    [Unref] add to and remove from them. *)
Record Rdv := mkRdv {
  tolerate_dup_recv_ : bool;
  table_ : gmap Z Item;
  status_ : Status;
  refs : list nat
}.
Definition NewLocalRendezvous (tolerate : bool) : Rdv := mkRdv tolerate ∅ OK [].

Definition Ref (c : option nat) (refs : list nat) : list nat := match c with Some c => c :: refs | None => refs end.
Fixpoint drop_ref (c : nat) (refs : list nat) : list nat :=
  match refs with [] => [] | d :: refs' => if decide (c = d) then refs' else d :: drop_ref c refs' end.
Definition unref_later (c : option nat) : list Action := match c with Some c => [Unref c] | None => [] end.
Definition set_table (t : gmap Z Item) (refs : list nat) (r : Rdv) : Rdv := mkRdv (tolerate_dup_recv_ r) t (status_ r) refs.

(** The result of the locked part: the status returned to the caller, and the
    task run after the lock is released. *)
Definition Send (key : Key) (send_args : Args) (val : Tensor) (dead : bool) (r : Rdv) : Status * Rdv * list Action :=
  let key_hash := KeyHash key in
  if negb (ok (status_ r)) then (status_ r, r, [])
  else
    match table_ r !! key_hash with
    | None =>
        let item := mkItem None val dead false (device_context send_args) None (alloc_attrs send_args) 0 in
        (OK, set_table (<[key_hash := item]> (table_ r)) (Ref (device_context send_args) (refs r)) r, [])
    | Some item =>
        match waiter item with
        | None => (Aborted (bytes_of "Duplicated send: " ++ FullKey key), r, [])
        | Some w =>
            let recv_args := mkArgs (recv_dev_context item) (recv_alloc_attrs item) in
            let '(item', refs') :=
              if tolerate_dup_recv_ r then
                (mkItem None val dead true
                   (match device_context send_args with Some c => Some c | None => send_dev_context item end) None
                   (alloc_attrs send_args) (recv_alloc_attrs item),
                 Ref (device_context send_args) (refs r))
              else
                (mkItem None (value item) (is_dead item) true (send_dev_context item) None (send_alloc_attrs item) (recv_alloc_attrs item),
                 refs r) in
            (OK, set_table (<[key_hash := item']> (table_ r)) refs' r,
             Invoke (mkInv w OK send_args recv_args val dead) :: unref_later (device_context recv_args))
        end
    end.

Definition RecvAsync (key : Key) (recv_args : Args) (done : nat) (r : Rdv) : Rdv * list Action :=
  let key_hash := KeyHash key in
  let failed s := [Invoke (mkInv done s no_args recv_args no_tensor false)] in
  if negb (ok (status_ r)) then (r, failed (status_ r))
  else
    match table_ r !! key_hash with
    | Some item =>
        if has_been_recvd item && negb (tolerate_dup_recv_ r) then
          (r, failed (Aborted (bytes_of "Duplicated recv: " ++ FullKey key)))
        else if bool_decide (waiter item = None) || tolerate_dup_recv_ r then
          let v := value item in
          let value' := if tolerate_dup_recv_ r then value item else no_tensor in
          let item' := mkItem (waiter item) value' (is_dead item) true (send_dev_context item) (recv_dev_context item)
                         (send_alloc_attrs item) (recv_alloc_attrs item) in
          let send_args := mkArgs (send_dev_context item) (send_alloc_attrs item) in
          (set_table (<[key_hash := item']> (table_ r)) (Ref (send_dev_context item) (refs r)) r,
           Invoke (mkInv done OK send_args recv_args v (is_dead item)) :: unref_later (send_dev_context item))
        else (r, failed (Aborted (bytes_of "Duplicated recv: " ++ FullKey key)))
    | None =>
        let item := mkItem (Some done) no_tensor false false None (device_context recv_args) 0 (alloc_attrs recv_args) in
        (set_table (<[key_hash := item]> (table_ r)) (Ref (device_context recv_args) (refs r)) r, [])
    end.

(** [delete item] *)
Definition delete_item (item : Item) : list Action := unref_later (send_dev_context item) ++ unref_later (recv_dev_context item).
(** [None] is the failed [CHECK(!status.ok())]. The order of the table is that
    of an unordered map. *)
Definition StartAbort (status : Status) (r : Rdv) : option (Rdv * list Action) :=
  if ok status then None
  else if negb (ok (status_ r)) then Some (r, [])
  else
    let items := map snd (map_to_list (table_ r)) in
    Some (mkRdv (tolerate_dup_recv_ r) ∅ status (refs r),
          concat (map (fun item =>
            match waiter item with
            | Some w => [Invoke (mkInv w status no_args no_args no_tensor false)]
            | None => []
            end ++ delete_item item) items)).

(** The destructor deletes the items that are left; their callbacks are not
    called. *)
Definition destroy (r : Rdv) : list Action := concat (map (fun p => delete_item p.2) (map_to_list (table_ r))).

(** ** Interleavings *)

(** The object, the tasks of the calls whose locked part has run, and the calls
    of callbacks so far, the latest first. *)
Record Config := mkConfig { rdv : Rdv; tasks : list (list Action); calls : list Invocation; issued : list nat }.
Definition start (tolerate : bool) : Config := mkConfig (NewLocalRendezvous tolerate) [] [] [].
Definition perform (a : Action) (c : Config) : Config :=
  match a with
  | Invoke i => mkConfig (rdv c) (tasks c) (i :: calls c) (issued c)
  | Unref d => mkConfig (set_table (table_ (rdv c)) (drop_ref d (refs (rdv c))) (rdv c)) (tasks c) (calls c) (issued c)
  end.

Inductive step : Config -> Config -> Prop :=
| step_Send c key args val dead s r' t :
    Send key args val dead (rdv c) = (s, r', t) ->
    step c (mkConfig r' (t :: tasks c) (calls c) (issued c))
| step_RecvAsync c key args done r' t :
    done ∉ issued c -> RecvAsync key args done (rdv c) = (r', t) ->
    step c (mkConfig r' (t :: tasks c) (calls c) (done :: issued c))
| step_StartAbort c status r' t :
    StartAbort status (rdv c) = Some (r', t) ->
    step c (mkConfig r' (t :: tasks c) (calls c) (issued c))
| step_task c i a t :
    tasks c !! i = Some (a :: t) ->
    step c (perform a (mkConfig (rdv c) (<[i := t]> (tasks c)) (calls c) (issued c))).

Inductive reachable (tolerate : bool) : Config -> Prop :=
| reach_start : reachable tolerate (start tolerate)
| reach_step c c' : reachable tolerate c -> step c c' -> reachable tolerate c'.

(** ** Requests and references are conserved *)

(** What the items of a table hold. *)
Definition held {A} (g : Item -> list A) (t : gmap Z Item) : list A := concat (map (fun p => g p.2) (map_to_list t)).
Definition waits (i : Item) : list nat := match waiter i with Some w => [w] | None => [] end.
Definition contexts (i : Item) : list nat := option_list (send_dev_context i) ++ option_list (recv_dev_context i).
Definition act_done (a : Action) : list nat := match a with Invoke i => [inv_done i] | Unref _ => [] end.
Definition act_unref (a : Action) : list nat := match a with Invoke _ => [] | Unref c => [c] end.
Definition pending (f : Action -> list nat) (ts : list (list Action)) : list nat := concat (map (fun t => concat (map f t)) ts).

Lemma held_perm {A} (g : Item -> list A) l t : l ≡ₚ map_to_list t -> concat (map (fun p => g p.2) l) ≡ₚ held g t.
Proof. unfold held. intros ->. done. Qed.
Lemma held_new {A} (g : Item -> list A) t k x : t !! k = None -> held g (<[k := x]> t) ≡ₚ g x ++ held g t.
Proof. intros Hk. unfold held. by rewrite map_to_list_insert. Qed.
Lemma held_split {A} (g : Item -> list A) t k x : t !! k = Some x -> held g t ≡ₚ g x ++ held g (delete k t).
Proof. intros Hk. rewrite <- (insert_delete_id t k x Hk) at 1. rewrite held_new; [done|apply lookup_delete_eq]. Qed.
Lemma held_over {A} (g : Item -> list A) t k x : held g (<[k := x]> t) ≡ₚ g x ++ held g (delete k t).
Proof. rewrite <- insert_delete_eq. rewrite held_new; [done|apply lookup_delete_eq]. Qed.
Lemma pending_cons f t ts : pending f (t :: ts) = concat (map f t) ++ pending f ts.
Proof. done. Qed.
Lemma pending_perform f ts i a t : ts !! i = Some (a :: t) -> pending f ts ≡ₚ f a ++ pending f (<[i := t]> ts).
Proof.
  revert i. induction ts as [|t0 ts IH]; intros [|i] Hi; try done; simplify_eq/=; rewrite !pending_cons.
  - cbn. by rewrite app_assoc.
  - rewrite (IH i Hi), !app_assoc. f_equiv. apply Permutation_app_comm.
Qed.
Lemma drop_ref_perm c l : c ∈ l -> l ≡ₚ c :: drop_ref c l.
Proof.
  induction l as [|d l IH]; intros Hin; [by apply not_elem_of_nil in Hin|]. cbn. destruct (decide (c = d)) as [->|Hne]; [done|].
  apply elem_of_cons in Hin as [?|Hin]; [done|]. rewrite (IH Hin) at 1. apply Permutation_swap.
Qed.

Record Conserved (c : Config) : Prop := {
  cs_requests : map inv_done (calls c) ++ pending act_done (tasks c) ++ held waits (table_ (rdv c)) ≡ₚ issued c;
  cs_nodup : NoDup (issued c);
  cs_refs : refs (rdv c) ≡ₚ held contexts (table_ (rdv c)) ++ pending act_unref (tasks c)
}.

Lemma unref_later_spec d : concat (map act_done (unref_later d)) = [] /\ concat (map act_unref (unref_later d)) = option_list d.
Proof. by destruct d. Qed.
Lemma Ref_spec d l : Ref d l = option_list d ++ l.
Proof. by destruct d. Qed.

(** An item that waits holds no context of a sender. *)
Definition table_wf (r : Rdv) : Prop := forall k i, table_ r !! k = Some i -> waiter i <> None -> send_dev_context i = None.

(** The locked part of an operation moves requests and references between the
    table and the task. *)
Record moves (r r' : Rdv) (t : list Action) (new : list nat) : Prop := {
  mv_requests : concat (map act_done t) ++ held waits (table_ r') ≡ₚ new ++ held waits (table_ r);
  mv_refs : forall l, refs r ≡ₚ held contexts (table_ r) ++ l ->
    refs r' ≡ₚ held contexts (table_ r') ++ concat (map act_unref t) ++ l;
  mv_wf : table_wf r'
}.
Lemma moves_refl r new t : table_wf r -> concat (map act_done t) = new -> concat (map act_unref t) = [] -> moves r r t new.
Proof. intros Hwf <- E. split; [done| |done]. intros l Hl. by rewrite E. Qed.
Lemma table_wf_insert r k i refs' : table_wf r -> (waiter i <> None -> send_dev_context i = None) ->
  table_wf (set_table (<[k := i]> (table_ r)) refs' r).
Proof.
  intros Hwf Hi k' i' E. cbn in E. destruct (decide (k = k')) as [->|Hne].
  - rewrite lookup_insert_eq in E. by injection E as <-.
  - rewrite lookup_insert_ne in E by done. by eapply Hwf.
Qed.

Ltac table_split E :=
  pose proof (held_split waits _ _ _ E) as Hw; pose proof (held_split contexts _ _ _ E) as Hc.

Lemma Send_moves key args val dead r s r' t : table_wf r -> Send key args val dead r = (s, r', t) -> moves r r' t [].
Proof.
  intros Hwf. unfold Send. destruct (ok (status_ r)); cbn [negb]; [|intros [= <- <- <-]; by apply moves_refl].
  destruct (table_ r !! KeyHash key) as [item|] eqn:E.
  - destruct (waiter item) as [w|] eqn:Ew; [|intros [= <- <- <-]; by apply moves_refl]. table_split E.
    unfold waits in Hw at 2. rewrite Ew in Hw. unfold contexts in Hc at 2. rewrite (Hwf _ _ E) in * by (by rewrite Ew). cbn [option_list app] in Hc.
    destruct (tolerate_dup_recv_ r) eqn:Et; intros [= <- <- <-]; cbn [device_context]; destruct (unref_later_spec (recv_dev_context item)) as [U1 U2];
      (split; [cbn [table_ set_table map concat act_done inv_done]; rewrite U1, held_over, Hw; cbn; solve_Permutation| |by apply table_wf_insert]);
      intros l Hl; cbn [table_ set_table refs map concat act_unref]; rewrite U2, held_over, ?Ref_spec, Hl, Hc; unfold contexts; cbn [send_dev_context recv_dev_context option_list app].
    + destruct (device_context args); cbn; solve_Permutation.
    + solve_Permutation.
  - intros [= <- <- <-]. split; [| |by apply table_wf_insert]; cbn [table_ set_table refs map concat].
    + by rewrite held_new.
    + intros l Hl. rewrite held_new by done. unfold contexts at 1. cbn [send_dev_context recv_dev_context]. rewrite Ref_spec, Hl. cbn. solve_Permutation.
Qed.

Lemma RecvAsync_moves key args done r r' t : table_wf r -> RecvAsync key args done r = (r', t) -> moves r r' t [done].
Proof.
  intros Hwf. unfold RecvAsync. destruct (ok (status_ r)); cbn [negb]; [|intros [= <- <-]; by apply moves_refl].
  destruct (table_ r !! KeyHash key) as [item|] eqn:E.
  - destruct (_ && _); [intros [= <- <-]; by apply moves_refl|]. destruct (_ || _) eqn:Eb; [|intros [= <- <-]; by apply moves_refl].
    table_split E. intros [= <- <-]. destruct (unref_later_spec (send_dev_context item)) as [U1 U2].
    split; [| |apply table_wf_insert; [done|]; exact (Hwf _ _ E)]; cbn [table_ set_table refs map concat act_done act_unref inv_done].
    + rewrite U1, held_over, Hw. unfold waits at 1 3. cbn [waiter]. solve_Permutation.
    + intros l Hl. rewrite U2, held_over, Ref_spec, Hl, Hc. unfold contexts at 1 3. cbn [send_dev_context recv_dev_context]. solve_Permutation.
  - intros [= <- <-]. split; [| |by apply table_wf_insert]; cbn [table_ set_table refs map concat app].
    + by rewrite held_new.
    + intros l Hl. rewrite held_new by done. unfold contexts at 1. cbn [send_dev_context recv_dev_context]. rewrite Ref_spec, Hl. cbn. solve_Permutation.
Qed.

Lemma StartAbort_moves status r r' t : table_wf r -> StartAbort status r = Some (r', t) -> moves r r' t [].
Proof.
  intros Hwf. unfold StartAbort. destruct (ok status); [done|]. destruct (ok (status_ r)); cbn [negb]; [|intros [= <- <-]; by apply moves_refl].
  intros [= <- <-]. set (f := fun item => _ ++ delete_item item).
  assert (H1 : forall l, concat (map act_done (concat (map f l))) = concat (map waits l)).
  { induction l as [|i l IH]; [done|]. cbn. rewrite map_app, concat_app, IH. f_equal. unfold f, delete_item, waits. rewrite !map_app, !concat_app.
    destruct (unref_later_spec (send_dev_context i)) as [-> _], (unref_later_spec (recv_dev_context i)) as [-> _]. by destruct (waiter i). }
  assert (H2 : forall l, concat (map act_unref (concat (map f l))) = concat (map contexts l)).
  { induction l as [|i l IH]; [done|]. cbn. rewrite map_app, concat_app, IH. f_equal. unfold f, delete_item, contexts. rewrite !map_app, !concat_app.
    destruct (unref_later_spec (send_dev_context i)) as [_ ->], (unref_later_spec (recv_dev_context i)) as [_ ->]. by destruct (waiter i). }
  assert (H0 : forall g : Item -> list nat, held g ∅ = []) by (intros g; unfold held; by rewrite map_to_list_empty).
  split; cbn [table_ refs].
  - rewrite H1, H0, app_nil_r, map_map. done.
  - intros l Hl. rewrite H2, H0, map_map, Hl. done.
  - intros k i Hi. done.
Qed.

Lemma destroy_refs r : concat (map act_unref (destroy r)) = held contexts (table_ r).
Proof.
  unfold destroy, held. induction (map_to_list (table_ r)) as [|p l IH]; [done|]. cbn [map concat]. rewrite map_app, concat_app, IH. f_equal.
  unfold delete_item, contexts. rewrite map_app, concat_app. by rewrite !(proj2 (unref_later_spec _)).
Qed.

Lemma Conserved_call c r' t new : Conserved c -> moves (rdv c) r' t new -> NoDup (new ++ issued c) ->
  Conserved (mkConfig r' (t :: tasks c) (calls c) (new ++ issued c)).
Proof.
  intros [C1 C2 C3] [M1 M2 _] Hn. split; cbn [calls tasks rdv issued]; [|done|].
  - rewrite pending_cons, <- C1. rewrite <- (app_assoc (concat _)), (Permutation_app_comm (pending _ _)), (app_assoc (concat _)), M1. solve_Permutation.
  - rewrite pending_cons. by apply M2.
Qed.
Lemma Conserved_perform c i a t : Conserved c -> tasks c !! i = Some (a :: t) ->
  Conserved (perform a (mkConfig (rdv c) (<[i := t]> (tasks c)) (calls c) (issued c))).
Proof.
  intros [C1 C2 C3] Hi. pose proof (pending_perform act_done _ _ _ _ Hi) as P1. pose proof (pending_perform act_unref _ _ _ _ Hi) as P2.
  rewrite P1 in C1. rewrite P2 in C3. destruct a as [v|d]; cbn [act_done act_unref app] in C1, C3; split;
    cbn [perform calls tasks rdv issued map table_ set_table refs]; try done.
  - rewrite <- C1. solve_Permutation.
  - apply (Permutation_cons_inv (a := d)). rewrite <- drop_ref_perm; [rewrite C3; solve_Permutation|]. rewrite C3. set_solver.
Qed.

Lemma reachable_conserved tolerate c : reachable tolerate c -> Conserved c /\ table_wf (rdv c).
Proof.
  induction 1 as [|c c' _ [IH Hwf] Hs].
  - split; [|by intros k i Hi]. split; cbn; [|by constructor|]; unfold held; by rewrite map_to_list_empty.
  - destruct Hs as [c key args val dead s r' t E|c key args done r' t Hn E|c status r' t E|c i a t E].
    + pose proof (Send_moves _ _ _ _ _ _ _ _ Hwf E) as M. split; [|apply M]. by apply (Conserved_call c r' t []); [| |apply IH].
    + pose proof (RecvAsync_moves _ _ _ _ _ _ Hwf E) as M. split; [|apply M]. apply (Conserved_call c r' t [done]); [done..|].
      constructor; [done|apply IH].
    + pose proof (StartAbort_moves _ _ _ _ Hwf E) as M. split; [|apply M]. by apply (Conserved_call c r' t []); [| |apply IH].
    + split; [by apply Conserved_perform|]. by destruct a.
Qed.
End Rendezvous.
End Rendezvous.
