(* ===== verification/RendezvousFacts.v ===== *)
(** * Rendezvous: refinement and progress

    An abstract rendezvous keeps, for each key, one of three slots: a message
    sent, a receiver waiting, or a message already taken. The object of
    [Rendezvous] that does not tolerate duplicates implements it, operation by
    operation; every waiting receiver is called once a message is sent or the
    rendezvous is aborted; and every request is completed exactly once. *)
From stdpp Require Import relations.
From S2P Require Import Prelude Status Rendezvous.
Import Status Rendezvous.

Module RendezvousFacts.

Section RendezvousFacts.
Context {Tensor : Type} (no_tensor : Tensor).
Context {Key : Type} (KeyHash : Key -> Z) (FullKey : Key -> list Z).
Abbreviation Item := (@Item Tensor).
Abbreviation Rdv := (@Rdv Tensor).
Abbreviation Action := (@Action Tensor).
Abbreviation Invocation := (@Invocation Tensor).
Abbreviation Config := (@Config Tensor).
Abbreviation step := (step no_tensor KeyHash FullKey).
Abbreviation reachable := (reachable no_tensor KeyHash FullKey).

(** ** Operations, of the object and of the specification *)

Inductive Op := OpSend (k : Key) (a : Args) (v : Tensor) (dead : bool) | OpRecv (k : Key) (a : Args) (done : nat) | OpAbort (s : Status).
(** What the caller gets, and the callbacks that the operation invokes. *)
Definition output : Type := option Status * list Invocation.

Definition invocations (t : list Action) : list Invocation := omap (fun a => match a with Invoke i => Some i | Unref _ => None end) t.
Definition do_op (o : Op) (r : Rdv) : option (Rdv * output) :=
  match o with
  | OpSend k a v dead => let '(s, r', t) := Send KeyHash FullKey k a v dead r in Some (r', (Some s, invocations t))
  | OpRecv k a done => let '(r', t) := RecvAsync no_tensor KeyHash FullKey k a done r in Some (r', (None, invocations t))
  | OpAbort s => match StartAbort no_tensor s r with Some (r', t) => Some (r', (None, invocations t)) | None => None end
  end.

Inductive Slot := Sent (a : Args) (v : Tensor) (dead : bool) | Waiting (w : nat) (a : Args) | Taken.
Record Spec := mkSpec { slots : gmap Z Slot; reason : Status }.
Definition spec_op (o : Op) (s : Spec) : option (Spec * output) :=
  match o with
  | OpSend k a v dead =>
      let h := KeyHash k in
      if negb (ok (reason s)) then Some (s, (Some (reason s), []))
      else match slots s !! h with
           | None => Some (mkSpec (<[h := Sent a v dead]> (slots s)) OK, (Some OK, []))
           | Some (Waiting w a') => Some (mkSpec (<[h := Taken]> (slots s)) OK, (Some OK, [mkInv w OK a a' v dead]))
           | Some _ => Some (s, (Some (Aborted (bytes_of "Duplicated send: " ++ FullKey k)), []))
           end
  | OpRecv k a done =>
      let h := KeyHash k in
      let failed e := (None, [mkInv done e no_args a no_tensor false]) in
      if negb (ok (reason s)) then Some (s, failed (reason s))
      else match slots s !! h with
           | None => Some (mkSpec (<[h := Waiting done a]> (slots s)) OK, (None, []))
           | Some (Sent a' v dead) => Some (mkSpec (<[h := Taken]> (slots s)) OK, (None, [mkInv done OK a' a v dead]))
           | Some _ => Some (s, failed (Aborted (bytes_of "Duplicated recv: " ++ FullKey k)))
           end
  | OpAbort e =>
      if ok e then None
      else if negb (ok (reason s)) then Some (s, (None, []))
      else Some (mkSpec ∅ e, (None, omap (fun p => match p.2 with
                                                  | Waiting w _ => Some (mkInv w e no_args no_args no_tensor false)
                                                  | _ => None
                                                  end) (map_to_list (slots s))))
  end.

(** A sequence of operations, and the outputs in order. *)
Fixpoint run {S} (f : Op -> S -> option (S * output)) (os : list Op) (s : S) : option (S * list output) :=
  match os with
  | [] => Some (s, [])
  | o :: os' =>
      match f o s with
      | Some (s1, x) => match run f os' s1 with Some (s', xs) => Some (s', x :: xs) | None => None end
      | None => None
      end
  end.

(** ** Abstraction *)

Definition abs_item (i : Item) : Slot :=
  match waiter i with
  | Some w => Waiting w (mkArgs (recv_dev_context i) (recv_alloc_attrs i))
  | None => if has_been_recvd i then Taken else Sent (mkArgs (send_dev_context i) (send_alloc_attrs i)) (value i) (is_dead i)
  end.
Definition abs (r : Rdv) : Spec := mkSpec (abs_item <$> table_ r) (status_ r).
(** The order in which the callbacks of one operation run is left open. *)
Definition same_output (x y : output) : Prop := x.1 = y.1 /\ x.2 ≡ₚ y.2.
Definition same_result {S} (g : Rdv -> S) (x : option (Rdv * output)) (y : option (S * output)) : Prop :=
  match x, y with
  | Some (r, o), Some (s, o') => g r = s /\ same_output o o' /\ tolerate_dup_recv_ r = false
  | None, None => True
  | _, _ => False
  end.

Lemma ok_OK s : ok s = true -> s = OK.
Proof. destruct s as [[st|]]; [done|by intros _]. Qed.
Lemma args_eta a : mkArgs (device_context a) (alloc_attrs a) = a.
Proof. by destruct a. Qed.
Lemma invocations_unref d : invocations (unref_later d) = [].
Proof. by destruct d. Qed.
Lemma invocations_app t u : invocations (t ++ u) = invocations t ++ invocations u.
Proof. apply omap_app. Qed.
Lemma invocations_delete i : invocations (delete_item i) = [].
Proof. unfold delete_item. by rewrite invocations_app, !invocations_unref. Qed.
#[local] Hint Rewrite invocations_unref invocations_delete args_eta : tf.

Lemma op_refines o r : tolerate_dup_recv_ r = false -> same_result abs (do_op o r) (spec_op o (abs r)).
Proof.
  intros Ht. destruct o as [k a v dead|k a w|e]; cbn [do_op spec_op].
  - unfold Send. cbn [reason slots abs]. destruct (ok (status_ r)) eqn:Eo; cbn [negb]; [|done]. apply ok_OK in Eo.
    rewrite lookup_fmap. destruct (table_ r !! KeyHash k) as [i|] eqn:E; cbn [fmap option_fmap option_map].
    + unfold abs_item at 1. destruct (waiter i) as [w|]; [|by destruct (has_been_recvd i)]. rewrite Ht. cbn. autorewrite with tf.
      unfold abs. cbn. by rewrite fmap_insert, Eo.
    + cbn. unfold abs. cbn. rewrite fmap_insert, Eo. unfold abs_item at 1. cbn. by rewrite args_eta.
  - unfold RecvAsync. cbn [reason slots abs]. destruct (ok (status_ r)) eqn:Eo; cbn [negb]; [|done]. apply ok_OK in Eo.
    rewrite lookup_fmap. destruct (table_ r !! KeyHash k) as [i|] eqn:E; cbn [fmap option_fmap option_map].
    + unfold abs_item at 1. rewrite Ht. destruct (waiter i) as [w'|] eqn:Ew, (has_been_recvd i); try done. cbn. autorewrite with tf.
      unfold abs. cbn. by rewrite fmap_insert, Eo.
    + cbn. unfold abs. cbn. rewrite fmap_insert, Eo. unfold abs_item at 1. cbn. by rewrite args_eta.
  - unfold StartAbort. cbn [reason slots abs]. destruct (ok e) eqn:Ee; [done|]. destruct (ok (status_ r)); cbn [negb]; [|done].
    split; [|split; [split; [done|]|done]]; [unfold abs; cbn; by rewrite fmap_empty|]. cbn [snd]. rewrite map_to_list_fmap.
    generalize (map_to_list (table_ r)). induction l as [|[h i] l IH]; [done|]. cbn [map concat fmap list_fmap].
    rewrite !invocations_app, invocations_delete, app_nil_r, IH. unfold abs_item. cbn. destruct (waiter i); [done|]. by destruct (has_been_recvd i).
Qed.

(** C18: An object that does not tolerate duplicate receivers refines the
    abstract rendezvous: on every sequence of [Send], [RecvAsync] and
    [StartAbort] it fails its [CHECK] exactly when the specification does, and
    otherwise each operation returns the same status and calls the same
    callbacks with the same arguments, and the final tables correspond. *)
Theorem rendezvous_refines os :
  match run do_op os (NewLocalRendezvous false), run spec_op os (mkSpec ∅ OK) with
  | Some (r, xs), Some (s, ys) => abs r = s /\ Forall2 same_output xs ys
  | None, None => True
  | _, _ => False
  end.
Proof.
  assert (H : forall (r : Rdv), tolerate_dup_recv_ r = false ->
    match run do_op os r, run spec_op os (abs r) with
    | Some (r, xs), Some (s, ys) => abs r = s /\ Forall2 same_output xs ys | None, None => True | _, _ => False end).
  { induction os as [|o os IH]; intros r Ht; [by cbn|]. cbn. pose proof (op_refines o r Ht) as Ho.
    destruct (do_op o r) as [[r1 x]|], (spec_op o (abs r)) as [[s1 y]|]; try done. destruct Ho as (<- & Hxy & Ht1). specialize (IH r1 Ht1).
    destruct (run do_op os r1) as [[r2 xs]|], (run spec_op os (abs r1)) as [[s2 ys]|]; try done. destruct IH as [-> IH]. split; [done|by constructor]. }
  specialize (H (NewLocalRendezvous false) eq_refl). unfold abs in H at 1. cbn in H. rewrite fmap_empty in H. exact H.
Qed.

(** ** Progress *)

Definition drained (c : Config) : Prop := forall i t, tasks c !! i = Some t -> t = [].
(** A callback that is called, or scheduled. *)
Definition promised (v : Invocation) (c : Config) : Prop := v ∈ calls c \/ exists i t, tasks c !! i = Some t /\ Invoke v ∈ t.

Lemma promised_step v c c' : step c c' -> promised v c -> promised v c'.
Proof.
  intros Hs [Hc|(i & t & Hi & Ht)].
  - left. destruct Hs; cbn; [done..|]. destruct a; cbn; [by right|done].
  - assert (Hnew : forall r' t' n, promised v (mkConfig r' (t' :: tasks c) (calls c) n)).
    { intros r' t' n. right. by exists (S i), t. }
    destruct Hs as [| | |c j a t' Hj]; [apply Hnew..|]. destruct (decide (i = j)) as [->|Hne].
    + rewrite Hi in Hj. injection Hj as ->. apply elem_of_cons in Ht as [<-|Ht]; [left; by left|]. right. exists j, t'. split; [|done].
      destruct a; cbn; apply list_lookup_insert_eq; by eapply lookup_lt_Some.
    + right. exists i, t. split; [|done]. destruct a; cbn; by rewrite list_lookup_insert_ne.
Qed.
Lemma promised_drained v c : drained c -> promised v c -> v ∈ calls c.
Proof. intros Hd [?|(i & t & Hi & Ht)]; [done|]. rewrite (Hd _ _ Hi) in Ht. by apply elem_of_nil in Ht. Qed.
Lemma drained_pending f c : drained c -> pending f (tasks c) = [].
Proof.
  unfold drained, pending. generalize (tasks c). induction l as [|t l IH]; intros Hd; [done|]. cbn.
  rewrite IH by (intros i u Hi; exact (Hd (S i) u Hi)). by rewrite (Hd 0%nat t eq_refl).
Qed.
Lemma drains c : exists c', rtc step c c' /\ drained c'.
Proof.
  remember (length (concat (tasks c))) as n eqn:En. revert c En. induction n as [|n IH]; intros c En.
  - exists c. split; [done|]. intros i t Hi. apply list_elem_of_lookup_2 in Hi. destruct t as [|a t]; [done|].
    destruct (concat (tasks c)) eqn:E; [|done]. assert (Ha : a ∈ concat (tasks c)) by (apply list_elem_of_In, in_concat; exists (a :: t); split; [by apply list_elem_of_In|by left]).
    rewrite E in Ha. by apply elem_of_nil in Ha.
  - assert (Hx : exists i a t, tasks c !! i = Some (a :: t)).
    { clear IH. revert En. generalize (tasks c). induction l as [|[|a t] l IH]; intros En; [done| |by exists 0%nat, a, t].
      destruct (IH En) as (i & a & t & Hi). by exists (S i), a, t. }
    destruct Hx as (i & a & t & Hi). pose proof (step_task no_tensor KeyHash FullKey c i a t Hi) as Hs.
    destruct (IH (perform a (mkConfig (rdv c) (<[i := t]> (tasks c)) (calls c) (issued c)))) as (c' & Hc' & Hd); [|exists c'; split; [by eapply rtc_l|done]].
    assert (Hl : length (concat (tasks c)) = S (length (concat (<[i := t]> (tasks c))))).
    { clear -Hi. revert i Hi. induction (tasks c) as [|t0 ts IH]; intros [|i] Hi; try done; simplify_eq/=; rewrite !length_app; [done|]. rewrite (IH i Hi). lia. }
    destruct a; cbn [perform tasks]; lia.
Qed.
Lemma steps_promised v c c' : rtc step c c' -> promised v c -> promised v c'.
Proof. induction 1; eauto using promised_step. Qed.

(** From [c], whatever runs, the callback [v] has been called once the tasks
    have run, and the tasks can always run. *)
Definition eventually_called (v : Invocation) (c : Config) : Prop :=
  forall c', rtc step c c' -> (drained c' -> v ∈ calls c') /\ exists c'', rtc step c' c'' /\ drained c''.
Lemma eventually_called_intro v c : promised v c -> eventually_called v c.
Proof. intros Hp c' Hc. split; [|apply drains]. intros Hd. eauto using promised_drained, steps_promised. Qed.
Lemma promised_new v r t c : Invoke v ∈ t -> promised v (mkConfig r (t :: tasks c) (calls c) (issued c)).
Proof. intros. right. by exists 0%nat, t. Qed.

(** C27: A waiting request is always completed: if a callback waits under a key
    of a rendezvous that is not aborted, then a [Send] on that key returns OK
    and the callback is called with OK, the sender's arguments, the receiver's
    stored arguments and the tensor sent; and a [StartAbort] with an error
    calls it with that error. Both hold in whatever order the operations of
    other threads and the pending tasks interleave, and the tasks can always
    run to the end. *)
Theorem rendezvous_wakes (c : Config) key item w :
  table_ (rdv c) !! KeyHash key = Some item -> waiter item = Some w -> ok (status_ (rdv c)) = true ->
  (forall args v dead s r' t, Send KeyHash FullKey key args v dead (rdv c) = (s, r', t) ->
     s = OK /\ eventually_called (mkInv w OK args (mkArgs (recv_dev_context item) (recv_alloc_attrs item)) v dead)
                 (mkConfig r' (t :: tasks c) (calls c) (issued c))) /\
  (forall e r' t, StartAbort no_tensor e (rdv c) = Some (r', t) ->
     eventually_called (mkInv w e no_args no_args no_tensor false) (mkConfig r' (t :: tasks c) (calls c) (issued c))).
Proof.
  intros Hi Hw Ho. split.
  - intros args v dead s r' t. unfold Send. rewrite Ho, Hi, Hw. cbn [negb].
    destruct (tolerate_dup_recv_ (rdv c)); intros [= <- <- <-]; (split; [done|]); apply eventually_called_intro, promised_new; by left.
  - intros e r' t. unfold StartAbort. rewrite Ho. destruct (ok e); [done|]. cbn [negb]. intros [= <- <-].
    apply eventually_called_intro, promised_new, list_elem_of_In, in_concat. eexists. split.
    + apply in_map, in_map, list_elem_of_In, elem_of_map_to_list, Hi.
    + cbn [snd]. rewrite Hw. by left.
Qed.

(** ** Requests are completed once *)

(** C15: In every reachable configuration, under every interleaving of sends,
    receives, aborts and tasks, the callbacks that were called, those that are
    scheduled and those that wait in the table are together exactly the
    requests issued, each once: no callback is lost and none is called twice.
    The references on device contexts are exactly those held by the items of
    the table and those that the scheduled tasks will drop, so every reference
    taken is dropped once; and when the tasks have run, deleting the object
    drops exactly the references that are left. *)
Theorem rendezvous_once tolerate (c : Config) : reachable tolerate c ->
  map inv_done (calls c) ++ pending act_done (tasks c) ++ held waits (table_ (rdv c)) ≡ₚ issued c /\
  NoDup (issued c) /\
  refs (rdv c) ≡ₚ held contexts (table_ (rdv c)) ++ pending act_unref (tasks c) /\
  (drained c -> concat (map act_unref (destroy (rdv c))) ≡ₚ refs (rdv c)).
Proof.
  intros H. destruct (reachable_conserved _ _ _ _ _ H) as [[H1 H2 H3] _]. split_and!; [done..|]. intros Hd.
  rewrite H3, destroy_refs, drained_pending by done. by rewrite app_nil_r.
Qed.

(** With [tolerate_dup_recv], a second receive on a key that is still
    waited for does not wait and is not an error: its callback is called at
    once with status OK and the empty tensor, although nothing was sent. *)
Theorem rendezvous_dup_recv_empty (r : Rdv) key args1 args2 d1 d2 r1 t1 :
  tolerate_dup_recv_ r = true -> ok (status_ r) = true -> table_ r !! KeyHash key = None ->
  RecvAsync no_tensor KeyHash FullKey key args1 d1 r = (r1, t1) ->
  t1 = [] /\ exists r2, RecvAsync no_tensor KeyHash FullKey key args2 d2 r1 =
    (r2, [Invoke (mkInv d2 OK (mkArgs None 0) args2 no_tensor false)]).
Proof.
  intros Ht Ho Hn. unfold RecvAsync at 1. rewrite Ho, Hn. cbn [negb]. intros [= <- <-]. split; [done|].
  unfold RecvAsync. cbn [status_ set_table table_ tolerate_dup_recv_]. rewrite Ho, lookup_insert_eq, Ht. cbn. by eexists.
Qed.
End RendezvousFacts.

(** ** Witnesses: tensors are lists of bytes, a key is its hash. *)

Definition no_bytes : list Z := [].
Definition demo_config : @Config (list Z) :=
  let '(r, t) := RecvAsync no_bytes id (fun k => [k]) 7 no_args 1 (NewLocalRendezvous false) in mkConfig r [t] [] [1%nat].
Lemma rendezvous_wakes_witness : exists item, table_ (rdv demo_config) !! 7 = Some item /\
  forall c', rtc (step no_bytes id (fun k => [k])) (mkConfig (Send id (fun k => [k]) 7 no_args [5] false (rdv demo_config)).1.2
      [(Send id (fun k => [k]) 7 no_args [5] false (rdv demo_config)).2; []] [] [1%nat]) c' ->
    drained c' -> mkInv 1%nat OK no_args no_args [5] false ∈ calls c'.
Proof.
  exists (mkItem (Some 1%nat) [] false false None None 0 0). split; [reflexivity|]. intros c' Hc.
  exact (proj1 (proj2 (proj1 (rendezvous_wakes no_bytes id (fun k => [k]) demo_config 7
    (mkItem (Some 1%nat) [] false false None None 0 0) 1%nat eq_refl eq_refl eq_refl) no_args [5] false _ _ _ eq_refl) c' Hc)).
Defined.
Lemma rendezvous_once_witness : map inv_done (calls demo_config) ++ pending act_done (tasks demo_config) ++ held waits (table_ (rdv demo_config)) ≡ₚ [1%nat].
Proof.
  refine (proj1 (rendezvous_once no_bytes id (fun k => [k]) false demo_config _)).
  refine (reach_step _ _ _ _ _ _ (reach_start _ _ _ _) (step_RecvAsync _ _ _ (start false) 7 no_args 1%nat _ _ _ eq_refl)).
  apply not_elem_of_nil.
Defined.
Lemma rendezvous_dup_recv_empty_witness :
  snd (RecvAsync no_bytes id (fun k => [k]) 7 no_args 1 (NewLocalRendezvous true)) = [] /\
  exists r2, RecvAsync no_bytes id (fun k => [k]) 7 no_args 2 (fst (RecvAsync no_bytes id (fun k => [k]) 7 no_args 1 (NewLocalRendezvous true))) =
    (r2, [Invoke (mkInv 2%nat OK (mkArgs None 0) no_args no_bytes false)]).
Proof. exact (rendezvous_dup_recv_empty no_bytes id (fun k => [k]) (NewLocalRendezvous true) 7 no_args no_args 1 2 _ _ eq_refl eq_refl eq_refl eq_refl). Defined.
End RendezvousFacts.
