(* ===== verification/Cancellation.v ===== *)
(** * Cancellation manager

    [CancellationManager] of [core/framework/cancellation.{h,cc}]. A method is
    the atomic steps between its critical sections: [StartCancel] empties the
    table under the lock, calls the callbacks without it, sets the flags under
    it and notifies; [DeregisterCallback] may wait for the notification. The
    threads inside these methods interleave freely. *)
From stdpp Require Import list_tactics relations.
From S2P Require Import Prelude.

Module Cancellation.

(** ** The object *)

Definition kInvalidToken : Z := -1.
(** A callback is named by the number of its registration. [notified] is the
    state of [cancelled_notification_]. *)
Record Manager := mkManager {
  is_cancelling_ : bool;
  is_cancelled_ : bool;
  notified : bool;
  next_cancellation_token_ : Z;
  callbacks_ : gmap Z nat
}.
Definition new_Manager : Manager := mkManager false false false 0 ∅.

(** The first critical section of [StartCancel]: [None] is the early return,
    otherwise the callbacks to run, in the order of the table. *)
Definition StartCancel (m : Manager) : option (Manager * list nat) :=
  if is_cancelled_ m || is_cancelling_ m then None
  else Some (mkManager true (is_cancelled_ m) (notified m) (next_cancellation_token_ m) ∅, map snd (map_to_list (callbacks_ m))).
(** The second one, after the callbacks. *)
Definition StartCancel_finish (m : Manager) : Manager :=
  mkManager false true (notified m) (next_cancellation_token_ m) (callbacks_ m).
Definition StartCancel_notify (m : Manager) : Manager :=
  mkManager (is_cancelling_ m) (is_cancelled_ m) true (next_cancellation_token_ m) (callbacks_ m).

Definition IsCancelled (m : Manager) : bool := is_cancelled_ m.
Definition get_cancellation_token (m : Manager) : Z * Manager :=
  (next_cancellation_token_ m,
   mkManager (is_cancelling_ m) (is_cancelled_ m) (notified m) (s64 (next_cancellation_token_ m + 1)) (callbacks_ m)).
(** [None] is the failed [CHECK_LT]. *)
Definition RegisterCallback (token : Z) (callback : nat) (m : Manager) : option (bool * Manager) :=
  if token <? next_cancellation_token_ m then
    let should_register := negb (is_cancelled_ m) && negb (is_cancelling_ m) in
    Some (should_register,
          if should_register
          then mkManager (is_cancelling_ m) (is_cancelled_ m) (notified m) (next_cancellation_token_ m) (<[token := callback]> (callbacks_ m))
          else m)
  else None.

Inductive Deregistration := Returns (b : bool) | Waits.
Definition DeregisterCallback (token : Z) (m : Manager) : Deregistration * Manager :=
  if is_cancelled_ m then (Returns false, m)
  else if is_cancelling_ m then (Waits, m)
  else (Returns true, mkManager (is_cancelling_ m) (is_cancelled_ m) (notified m) (next_cancellation_token_ m) (delete token (callbacks_ m))).

(** ** Threads *)

Inductive Thread :=
| Calling (todo : list nat)          (* in the loop of [StartCancel] *)
| Notifying                          (* before [Notify] *)
| Waiting (token : Z)                (* in [WaitForNotification] *)
| Deregistered (token : Z) (b : bool) (* [DeregisterCallback] has returned [b] *)
| Finished.                          (* [StartCancel] has returned *)

(** [ran]: the callbacks called, the latest first; [accepted]: those whose
    registration succeeded; [dropped]: those removed from the table by
    [DeregisterCallback] or replaced by a later registration. *)
Record Config := mkConfig { mgr : Manager; threads : list Thread; ran : list nat; accepted : list nat; dropped : list nat }.
Definition start : Config := mkConfig new_Manager [] [] [] [].

(** A thread enters a method. *)
Inductive call_step (c : Config) : Config -> Prop :=
| call_StartCancel m' todo : StartCancel (mgr c) = Some (m', todo) ->
    call_step c (mkConfig m' (threads c ++ [Calling todo]) (ran c) (accepted c) (dropped c))
| call_StartCancel_again : StartCancel (mgr c) = None ->
    call_step c (mkConfig (mgr c) (threads c ++ [Finished]) (ran c) (accepted c) (dropped c))
| call_get_token token m' : get_cancellation_token (mgr c) = (token, m') ->
    call_step c (mkConfig m' (threads c) (ran c) (accepted c) (dropped c))
| call_Register token f m' : f ∉ accepted c -> RegisterCallback token f (mgr c) = Some (true, m') ->
    call_step c (mkConfig m' (threads c) (ran c) (f :: accepted c) (option_list (callbacks_ (mgr c) !! token) ++ dropped c))
| call_Register_refused token f m' : RegisterCallback token f (mgr c) = Some (false, m') ->
    call_step c (mkConfig m' (threads c) (ran c) (accepted c) (dropped c))
| call_Deregister token b m' : DeregisterCallback token (mgr c) = (Returns b, m') ->
    call_step c (mkConfig m' (threads c ++ [Deregistered token b]) (ran c) (accepted c)
      ((if b then option_list (callbacks_ (mgr c) !! token) else []) ++ dropped c))
| call_Deregister_waits token m' : DeregisterCallback token (mgr c) = (Waits, m') ->
    call_step c (mkConfig m' (threads c ++ [Waiting token]) (ran c) (accepted c) (dropped c)).
(** A thread inside a method goes on. *)
Inductive thread_step (c : Config) : Config -> Prop :=
| thread_call i f todo : threads c !! i = Some (Calling (f :: todo)) ->
    thread_step c (mkConfig (mgr c) (<[i := Calling todo]> (threads c)) (f :: ran c) (accepted c) (dropped c))
| thread_finish i : threads c !! i = Some (Calling []) ->
    thread_step c (mkConfig (StartCancel_finish (mgr c)) (<[i := Notifying]> (threads c)) (ran c) (accepted c) (dropped c))
| thread_notify i : threads c !! i = Some Notifying ->
    thread_step c (mkConfig (StartCancel_notify (mgr c)) (<[i := Finished]> (threads c)) (ran c) (accepted c) (dropped c))
| thread_wake i token : threads c !! i = Some (Waiting token) -> notified (mgr c) = true ->
    thread_step c (mkConfig (mgr c) (<[i := Deregistered token false]> (threads c)) (ran c) (accepted c) (dropped c)).
Definition step (c c' : Config) : Prop := call_step c c' \/ thread_step c c'.
Definition reachable (c : Config) : Prop := rtc step start c.

(** No thread can go on by itself. *)
Definition stalled (c : Config) : Prop := forall c', ~ thread_step c c'.

(** ** The invariant *)

(** The threads inside [StartCancel]. *)
Definition act (t : Thread) : list Thread := match t with Calling _ | Notifying => [t] | _ => [] end.
Definition active (ts : list Thread) : list Thread := concat (map act ts).
Definition todo_of (t : Thread) : list nat := match t with Calling l => l | _ => [] end.
Definition todos (ts : list Thread) : list nat := concat (map todo_of (active ts)).
Definition table_callbacks (m : Manager) : list nat := map snd (map_to_list (callbacks_ m)).

(** The phases of the object: before, during and after the first
    [StartCancel]. *)
Inductive Phase (m : Manager) (ts : list Thread) : Prop :=
| phase_before : is_cancelling_ m = false -> is_cancelled_ m = false -> notified m = false -> active ts = [] ->
    (forall i tk, ts !! i <> Some (Waiting tk)) -> (forall i tk, ts !! i <> Some (Deregistered tk false)) -> Phase m ts
| phase_calling todo : is_cancelling_ m = true -> is_cancelled_ m = false -> notified m = false -> active ts = [Calling todo] ->
    callbacks_ m = ∅ -> (forall i tk, ts !! i <> Some (Deregistered tk false)) -> Phase m ts
| phase_notifying : is_cancelling_ m = false -> is_cancelled_ m = true -> notified m = false -> active ts = [Notifying] -> callbacks_ m = ∅ -> Phase m ts
| phase_after : is_cancelling_ m = false -> is_cancelled_ m = true -> notified m = true -> active ts = [] -> callbacks_ m = ∅ -> Phase m ts.
Record Inv (c : Config) : Prop := {
  inv_phase : Phase (mgr c) (threads c);
  inv_callbacks : ran c ++ todos (threads c) ++ table_callbacks (mgr c) ++ dropped c ≡ₚ accepted c;
  inv_nodup : NoDup (accepted c)
}.

Lemma active_snoc ts t : active (ts ++ [t]) = active ts ++ act t.
Proof. unfold active. rewrite map_app, concat_app. cbn. by rewrite app_nil_r. Qed.
Lemma snoc_ne (ts : list Thread) (t u : Thread) : t <> u -> (forall i, ts !! i <> Some u) -> forall i, (ts ++ [t]) !! i <> Some u.
Proof.
  intros Hne Hts i E. destruct (decide (i < length ts)%nat) as [Hl|Hl].
  - rewrite lookup_app_l in E by done. by apply (Hts i).
  - apply lookup_app_Some in E as [?|[_ E]]; [by eapply Hts|]. apply list_lookup_singleton_Some in E as [_ ->]. done.
Qed.
Lemma insert_ne (ts : list Thread) i (t u : Thread) : t <> u -> (forall j, ts !! j <> Some u) -> forall j, <[i := t]> ts !! j <> Some u.
Proof. intros Hne Hts j E. apply list_lookup_insert_Some in E as [(<- & -> & _)|[_ E]]; [done|]. by apply (Hts j). Qed.
Lemma active_at ts i t : ts !! i = Some t -> exists l1 l2, active ts = l1 ++ act t ++ l2 /\ forall t', active (<[i := t']> ts) = l1 ++ act t' ++ l2.
Proof.
  intros Hi. exists (active (take i ts)), (active (drop (S i) ts)). unfold active. split.
  - rewrite <- (take_drop_middle ts i t Hi) at 1. by rewrite map_app, concat_app.
  - intros t'. rewrite insert_take_drop by (by eapply lookup_lt_Some). by rewrite map_app, concat_app.
Qed.
(** The one thread inside [StartCancel]. *)
Lemma active_sole ts i t u : ts !! i = Some t -> act t = [t] -> active ts = [u] -> t = u /\ forall t', active (<[i := t']> ts) = act t'.
Proof.
  intros Hi Ha Hu. destruct (active_at ts i t Hi) as (l1 & l2 & E & E'). rewrite Ha, Hu in E.
  destruct l1 as [|? l1]; [|by destruct l1]. injection E as <- <-. split; [done|]. intros t'. rewrite E'. cbn. apply app_nil_r.
Qed.
Lemma active_none ts i t : ts !! i = Some t -> act t = [t] -> active ts <> [].
Proof. intros Hi Ha E. destruct (active_at ts i t Hi) as (l1 & l2 & E' & _). rewrite E, Ha in E'. by destruct l1. Qed.
Lemma active_idle ts i t t' : ts !! i = Some t -> act t = [] -> act t' = [] -> active (<[i := t']> ts) = active ts.
Proof. intros Hi Ha Ha'. destruct (active_at ts i t Hi) as (l1 & l2 & E & E'). by rewrite E, E', Ha, Ha'. Qed.
Lemma no_callbacks m : callbacks_ m = ∅ -> table_callbacks m = [].
Proof. unfold table_callbacks. intros ->. by rewrite map_to_list_empty. Qed.

Lemma table_callbacks_insert m k f : map snd (map_to_list (<[k := f]> (callbacks_ m))) ++ option_list (callbacks_ m !! k) ≡ₚ f :: table_callbacks m.
Proof.
  unfold table_callbacks. destruct (callbacks_ m !! k) as [g|] eqn:E; cbn [option_list].
  - rewrite <- (insert_delete_id (callbacks_ m) k g E) at 2. rewrite <- insert_delete_eq, !map_to_list_insert by apply lookup_delete_eq. cbn. solve_Permutation.
  - rewrite map_to_list_insert by done. cbn. by rewrite app_nil_r.
Qed.
Lemma table_callbacks_delete m k : map snd (map_to_list (delete k (callbacks_ m))) ++ option_list (callbacks_ m !! k) ≡ₚ table_callbacks m.
Proof.
  unfold table_callbacks. destruct (callbacks_ m !! k) as [g|] eqn:E; cbn [option_list].
  - rewrite <- (insert_delete_id (callbacks_ m) k g E) at 2. rewrite map_to_list_insert by apply lookup_delete_eq. cbn. solve_Permutation.
  - by rewrite delete_id, app_nil_r.
Qed.

Ltac phase_snoc := rewrite ?active_snoc, ?app_nil_r; cbn [act]; rewrite ?app_nil_r; try done; try (intros i tk; by apply snoc_ne).

(** A call that starts no canceller keeps the phase. *)
Lemma phase_new_thread m ts t : Phase m ts -> act t = [] -> (forall tk, t <> Deregistered tk false \/ is_cancelled_ m = true) ->
  (forall tk, t = Waiting tk -> is_cancelling_ m = true) -> Phase m (ts ++ [t]).
Proof.
  intros Hp Ha Hd Hw. assert (E : active (ts ++ [t]) = active ts) by (rewrite active_snoc, Ha; apply app_nil_r).
  destruct Hp as [H1 H2 H3 H4 H5 H6|todo H1 H2 H3 H4 H5 H6|H1 H2 H3 H4 H5|H1 H2 H3 H4 H5]; rewrite <- E in H4.
  - apply phase_before; try done; intros i tk; apply snoc_ne; try done; [|destruct (Hd tk); congruence].
    intros ->. specialize (Hw tk eq_refl). congruence.
  - apply (phase_calling _ _ todo); try done. intros i tk. apply snoc_ne; [|done]. destruct (Hd tk); congruence.
  - by apply phase_notifying.
  - by apply phase_after.
Qed.
(** The phase depends on the flags and on whether the table is empty once they
    are set. *)
Lemma phase_same_flags m m' ts : Phase m ts -> is_cancelling_ m' = is_cancelling_ m -> is_cancelled_ m' = is_cancelled_ m -> notified m' = notified m ->
  (callbacks_ m = ∅ -> is_cancelling_ m = true \/ is_cancelled_ m = true -> callbacks_ m' = ∅) -> Phase m' ts.
Proof.
  intros Hp E1 E2 E3 Hc. destruct Hp as [H1 H2 H3 H4 H5 H6|todo H1 H2 H3 H4 H5 H6|H1 H2 H3 H4 H5|H1 H2 H3 H4 H5];
    [apply phase_before|apply (phase_calling _ _ todo)|apply phase_notifying|apply phase_after]; try done; try congruence; apply Hc; tauto.
Qed.

Lemma call_step_Inv c c' : call_step c c' -> Inv c -> Inv c'.
Proof.
  intros Hs [Hp Hc Hn]. destruct Hs as [m' todo E|E|token m' E|token f m' Hf E|token f m' E|token b m' E|token m' E].
  - unfold StartCancel in E. destruct (is_cancelled_ (mgr c)) eqn:E1; [done|]. destruct (is_cancelling_ (mgr c)) eqn:E2; [done|].
    injection E as <- <-. inversion Hp as [_ _ H3 H4 H5 H6| | |]; try congruence. split; [|cbn [ran accepted threads mgr dropped]|done].
    + apply (phase_calling _ _ (table_callbacks (mgr c))); cbn [threads mgr is_cancelling_ is_cancelled_ notified callbacks_]; try done; [by rewrite active_snoc, H4|]. intros i tk. by apply snoc_ne.
    + rewrite <- Hc. unfold todos. rewrite active_snoc, H4. cbn. unfold table_callbacks at 1. cbn. by rewrite map_to_list_empty, app_nil_r.
  - split; cbn [ran accepted threads mgr dropped]; [|by unfold todos in *; rewrite active_snoc, app_nil_r|done].
    apply phase_new_thread; try done. intros tk. by left.
  - injection E as <- <-. split; [|done..]. by eapply phase_same_flags.
  - unfold RegisterCallback in E. destruct (token <? _); [|done]. destruct (is_cancelled_ (mgr c)) eqn:E1; [done|].
    destruct (is_cancelling_ (mgr c)) eqn:E2; [done|]. injection E as <-. split; cbn [ran accepted threads mgr dropped].
    + eapply phase_same_flags; [exact Hp|done..|]. intros _. rewrite E1, E2. by intros [?|?].
    + rewrite <- Hc. unfold table_callbacks at 1. cbn [callbacks_].
      rewrite (app_assoc (map _ _)), table_callbacks_insert. solve_Permutation.
    + by constructor.
  - unfold RegisterCallback in E. destruct (token <? _); [|done]. destruct (is_cancelled_ (mgr c) || is_cancelling_ (mgr c)) eqn:Eb.
    + destruct (is_cancelled_ (mgr c)), (is_cancelling_ (mgr c)); try done; by injection E as <-.
    + apply orb_false_iff in Eb as [E1 E2]. by rewrite E1, E2 in E.
  - unfold DeregisterCallback in E. destruct (is_cancelled_ (mgr c)) eqn:E1; [|destruct (is_cancelling_ (mgr c)) eqn:E2; [done|]];
      injection E as <- <-; (split; cbn [ran accepted threads mgr dropped]; [|unfold todos in *; rewrite active_snoc, app_nil_r|done]).
    + apply phase_new_thread; try done. by right.
    + done.
    + eapply phase_same_flags; [apply (phase_new_thread (mgr c)); [done|done|intros tk; by left|done]|done..|]. rewrite E1, E2. by intros _ [?|?].
    + rewrite <- Hc, <- (table_callbacks_delete (mgr c) token). unfold table_callbacks. cbn [callbacks_]. by rewrite <- !app_assoc.
  - unfold DeregisterCallback in E. destruct (is_cancelled_ (mgr c)) eqn:E1; [done|]. destruct (is_cancelling_ (mgr c)) eqn:E2; [|done].
    injection E as <-. split; cbn [ran accepted threads mgr dropped]; [|by unfold todos in *; rewrite active_snoc, app_nil_r|done].
    apply phase_new_thread; try done. intros tk. by left.
Qed.

Lemma thread_step_Inv c c' : thread_step c c' -> Inv c -> Inv c'.
Proof.
  intros Hs [Hp Hc Hn]. destruct Hs as [i f todo Hi|i Hi|i Hi|i token Hi Hb].
  - pose proof (active_none _ _ _ Hi eq_refl) as Hne. inversion Hp as [|l H1 H2 H3 H4 H5 H6| |]; try congruence;
      (destruct (active_sole _ _ _ _ Hi eq_refl ltac:(eassumption)) as [El Ei]; try done). injection El as <-.
    split; cbn [ran accepted threads mgr dropped]; [|unfold todos in *; rewrite Ei, <- Hc, H4; cbn; solve_Permutation|done].
    apply (phase_calling _ _ todo); try done. intros j tk. by apply insert_ne.
  - pose proof (active_none _ _ _ Hi eq_refl) as Hne. inversion Hp as [|l H1 H2 H3 H4 H5 H6| |]; try congruence;
      (destruct (active_sole _ _ _ _ Hi eq_refl ltac:(eassumption)) as [El Ei]; try done). injection El as <-.
    split; cbn [ran accepted threads mgr dropped]; [|unfold todos in *; rewrite Ei; rewrite H4 in Hc; exact Hc|done].
    by apply phase_notifying.
  - pose proof (active_none _ _ _ Hi eq_refl) as Hne. inversion Hp as [|l H1 H2 H3 H4 H5 H6|H1 H2 H3 H4 H5|]; try congruence;
      (destruct (active_sole _ _ _ _ Hi eq_refl ltac:(eassumption)) as [El Ei]; try done).
    split; cbn [ran accepted threads mgr dropped]; [|unfold todos in *; rewrite Ei; rewrite H4 in Hc; exact Hc|done].
    by apply phase_after.
  - inversion Hp as [| | |H1 H2 H3 H4 H5]; try congruence. pose proof (active_idle _ _ _ (Deregistered token false) Hi eq_refl eq_refl) as Ei.
    split; cbn [ran accepted threads mgr dropped]; [|unfold todos in *; by rewrite Ei|done]. apply phase_after; try done. congruence.
Qed.
Lemma steps_Inv c c' : rtc step c c' -> Inv c -> Inv c'.
Proof. induction 1 as [|c c1 c2 [Hs|Hs] _ IH]; eauto using call_step_Inv, thread_step_Inv. Qed.
Lemma reachable_cancel_Inv c : reachable c -> Inv c.
Proof.
  intros H. apply (steps_Inv _ _ H). split; cbn; [by apply phase_before| |constructor]. unfold table_callbacks. cbn. by rewrite map_to_list_empty.
Qed.

(** ** Callbacks *)

Lemma Inv_disjoint c : Inv c -> NoDup (ran c ++ todos (threads c) ++ table_callbacks (mgr c) ++ dropped c).
Proof. intros [_ Hc Hn]. by rewrite Hc. Qed.
Lemma Inv_cancelled c f : Inv c -> is_cancelled_ (mgr c) = true -> f ∈ accepted c -> f ∈ ran c \/ f ∈ dropped c.
Proof.
  intros [Hp Hc _] Hm Hf. rewrite <- Hc in Hf. assert (Ht : todos (threads c) = [] /\ callbacks_ (mgr c) = ∅).
  { unfold todos. inversion Hp as [| |H1 H2 H3 H4 H5|H1 H2 H3 H4 H5]; [congruence..| |]; by rewrite H4. }
  destruct Ht as [E1 E2]. rewrite E1, (no_callbacks _ E2) in Hf. cbn in Hf. by apply elem_of_app in Hf.
Qed.
Lemma step_dropped c c' f : step c c' -> f ∈ dropped c -> f ∈ dropped c'.
Proof. intros [Hs|Hs] Hf; destruct Hs; cbn; try done; apply elem_of_app; by right. Qed.
Lemma steps_dropped c c' f : rtc step c c' -> f ∈ dropped c -> f ∈ dropped c'.
Proof. induction 1; eauto using step_dropped. Qed.
Lemma dropped_not_run c f : Inv c -> f ∈ dropped c -> f ∉ ran c.
Proof.
  intros Hi Hf Hr. pose proof (Inv_disjoint c Hi) as Hn. apply NoDup_app in Hn as (_ & Hd & _). apply (Hd f Hr). rewrite !elem_of_app. tauto.
Qed.

Lemma calling_not_cancelled c i todo token f : Inv c -> threads c !! i = Some (Calling todo) ->
  IsCancelled (mgr c) = false /\ StartCancel (mgr c) = None /\
  (token < next_cancellation_token_ (mgr c) -> RegisterCallback token f (mgr c) = Some (false, mgr c)).
Proof.
  intros [Hp _ _] Hi. pose proof (active_none _ _ _ Hi eq_refl) as Hne.
  inversion Hp as [|l H1 H2 H3 H4 H5 H6|H1 H2 H3 H4 H5|]; try congruence; (destruct (active_sole _ _ _ _ Hi eq_refl ltac:(eassumption)) as [El _]; try done).
  unfold IsCancelled, StartCancel, RegisterCallback. rewrite H1, H2. split_and!; [done..|]. intros Ht.
  apply Z.ltb_lt in Ht as ->. done.
Qed.

(** C16: In every reachable configuration, however threads interleave: a
    callback is called at most once, and only if its registration succeeded;
    when [DeregisterCallback] returns true, the callback of its token is out
    of the table and is never called afterwards, although it may be asked for
    at any point before the cancellation starts; when it has returned false,
    and likewise when [IsCancelled] is true, every callback whose registration
    succeeded and that was not deregistered (or replaced) has been called.
    While [StartCancel] runs its callbacks [IsCancelled] is still false,
    although registrations are refused. *)
Theorem cancellation_safety c : reachable c ->
  NoDup (ran c) /\ (forall f, f ∈ ran c -> f ∈ accepted c) /\
  (forall token m' c1, DeregisterCallback token (mgr c) = (Returns true, m') ->
     c1 = mkConfig m' (threads c ++ [Deregistered token true]) (ran c) (accepted c) (option_list (callbacks_ (mgr c) !! token) ++ dropped c) ->
     call_step c c1 /\ callbacks_ m' !! token = None /\
     forall f c2, callbacks_ (mgr c) !! token = Some f -> rtc step c1 c2 -> f ∉ ran c2) /\
  (forall i token f, threads c !! i = Some (Deregistered token false) -> f ∈ accepted c -> f ∈ ran c \/ f ∈ dropped c) /\
  (forall f, IsCancelled (mgr c) = true -> f ∈ accepted c -> f ∈ ran c \/ f ∈ dropped c) /\
  (forall i todo token f, threads c !! i = Some (Calling todo) -> IsCancelled (mgr c) = false /\ StartCancel (mgr c) = None /\
     (token < next_cancellation_token_ (mgr c) -> RegisterCallback token f (mgr c) = Some (false, mgr c))).
Proof.
  intros Hr. pose proof (reachable_cancel_Inv c Hr) as Hi. split_and!.
  - pose proof (Inv_disjoint c Hi) as H. by apply NoDup_app in H as [? _].
  - intros f Hf. destruct Hi as [_ Hc _]. rewrite <- Hc. apply elem_of_app. by left.
  - intros token m' c1 E ->. pose proof (call_Deregister c token true m' E) as Hs. split; [done|]. split.
    + unfold DeregisterCallback in E. destruct (is_cancelled_ (mgr c)); [done|]. destruct (is_cancelling_ (mgr c)); [done|].
      injection E as <-. apply lookup_delete_eq.
    + intros f c2 Hf Hc2. apply dropped_not_run; [apply (steps_Inv _ _ Hc2), (call_step_Inv _ _ Hs), Hi|].
      apply (steps_dropped _ _ _ Hc2). cbn. rewrite Hf. by left.
  - intros i token f Ht Hf. apply Inv_cancelled; [done| |done]. destruct Hi as [Hp _ _].
    inversion Hp as [H1 H2 H3 H4 H5 H6|todo H1 H2 H3 H4 H5 H6| |]; try done; by destruct (H6 i token).
  - intros f Hm Hf. by apply Inv_cancelled.
  - intros i todo token f Ht. by eapply calling_not_cancelled.
Qed.

(** ** Progress *)

Definition work (t : Thread) : nat := match t with Calling l => 2 + length l | Notifying | Waiting _ => 1 | _ => 0 end.
Definition total (c : Config) : nat := sum_list_with work (threads c).
Lemma sum_insert (ts : list Thread) i t t' : ts !! i = Some t -> (work t' < work t)%nat -> (sum_list_with work (<[i := t']> ts) < sum_list_with work ts)%nat.
Proof.
  revert i. induction ts as [|u ts IH]; intros [|i] Hi Hw; try done; simplify_eq/=; [lia|]. specialize (IH i Hi Hw). lia.
Qed.
Lemma thread_step_total c c' : thread_step c c' -> (total c' < total c)%nat.
Proof. intros [i f todo Hi|i Hi|i Hi|i token Hi _]; apply (sum_insert _ _ _ _ Hi); cbn; lia. Qed.

Definition enabled (m : Manager) (t : Thread) : bool := match t with Calling _ | Notifying => true | Waiting _ => notified m | _ => false end.
Lemma enabled_step c i t : threads c !! i = Some t -> enabled (mgr c) t = true -> exists c', thread_step c c'.
Proof. intros Hi He. destruct t as [[|f l]| | | |]; cbn in He; try done; eexists; by econstructor. Qed.
Lemma stalled_or_step c : stalled c \/ exists c', thread_step c c'.
Proof.
  destruct (decide (Exists (fun t => enabled (mgr c) t = true) (threads c))) as [He|He].
  - right. apply Exists_exists in He as (t & Ht & He). apply list_elem_of_lookup in Ht as [i Hi]. by eapply enabled_step.
  - left. intros c' Hs. apply He, Exists_exists.
    destruct Hs as [i f todo Hi|i Hi|i Hi|i token Hi Hb]; (eexists; split; [by eapply list_elem_of_lookup_2|]); done.
Qed.
Lemma stalls c : exists c', rtc thread_step c c' /\ stalled c'.
Proof.
  remember (total c) as n eqn:En. revert c En. induction (lt_wf n) as [n _ IH]. intros c ->. destruct (stalled_or_step c) as [Hs|[c1 Hs]]; [by exists c|].
  destruct (IH _ (thread_step_total _ _ Hs) c1 eq_refl) as (c' & Hc' & Hst). exists c'. split; [by eapply rtc_l|done].
Qed.
(** A thread in [DeregisterCallback] waits until it has returned false. *)
Definition in_wait (c : Config) (i : nat) (token : Z) : Prop := threads c !! i = Some (Waiting token) \/ threads c !! i = Some (Deregistered token false).
Lemma step_in_wait c c' i token : step c c' -> in_wait c i token -> in_wait c' i token.
Proof.
  assert (Hsnoc : forall t ts, (ts !! i = Some (Waiting token) \/ ts !! i = Some (Deregistered token false)) ->
    ((ts ++ [t]) !! i = Some (Waiting token) \/ (ts ++ [t]) !! i = Some (Deregistered token false))).
  { intros t ts [H|H]; [left|right]; by apply lookup_app_l_Some. }
  unfold in_wait. intros [Hs|Hs] Hw.
  - destruct Hs; cbn; try apply Hsnoc; exact Hw.
  - destruct Hs as [j f todo Hj|j Hj|j Hj|j tk Hj _]; cbn [threads]; (destruct (decide (i = j)) as [->|Hne];
      [destruct Hw as [Hw|Hw]; rewrite Hw in Hj; simplify_eq|by rewrite list_lookup_insert_ne]).
    right. apply list_lookup_insert_eq. by eapply lookup_lt_Some.
Qed.
Lemma steps_in_wait c c' i token : rtc step c c' -> in_wait c i token -> in_wait c' i token.
Proof. induction 1; eauto using step_in_wait. Qed.
(** Who waits is woken: a stalled configuration has no waiting thread. *)
Lemma stalled_no_wait c i token : Inv c -> stalled c -> threads c !! i <> Some (Waiting token).
Proof.
  intros [Hp _ _] Hst Hi. assert (Hact : active (threads c) = []).
  { unfold active. apply concat_nil_Forall, Forall_map, Forall_lookup. intros j t Hj.
    destruct (enabled (mgr c) t) eqn:He; [|by destruct t]. destruct (enabled_step c j t Hj He) as [c' Hs]. by destruct (Hst c'). }
  inversion Hp as [H1 H2 H3 H4 H5 H6|todo H1 H2 H3 H4 H5 H6|H1 H2 H3 H4 H5|H1 H2 H3 H4 H5]; try congruence; [by destruct (H5 i token)|].
  destruct (Hst (mkConfig (mgr c) (<[i := Deregistered token false]> (threads c)) (ran c) (accepted c) (dropped c))). by apply thread_wake.
Qed.

(** C28: A [DeregisterCallback] that waits for a cancellation in progress is
    never stuck: in a reachable configuration, whatever the other threads do
    from then on, the threads can always run until none can go on, and when
    they have, the call has returned false, and every callback that was
    registered and not removed has been called. *)
Theorem cancellation_liveness c i token : reachable c -> threads c !! i = Some (Waiting token) ->
  forall c', rtc step c c' ->
  (stalled c' -> threads c' !! i = Some (Deregistered token false) /\ forall f, f ∈ accepted c' -> f ∈ ran c' \/ f ∈ dropped c') /\
  exists c'', rtc thread_step c' c'' /\ stalled c''.
Proof.
  intros Hr Hi c' Hc. split; [|apply stalls]. intros Hst.
  pose proof (steps_Inv _ _ Hc (reachable_cancel_Inv c Hr)) as Hinv.
  destruct (steps_in_wait _ _ i token Hc (or_introl Hi)) as [Hw|Hw]; [by destruct (stalled_no_wait _ _ _ Hinv Hst Hw)|]. split; [done|].
  intros f. apply Inv_cancelled; [done|]. destruct Hinv as [Hp _ _].
  inversion Hp as [H1 H2 H3 H4 H5 H6|todo H1 H2 H3 H4 H5 H6| |]; try done; by destruct (H6 i token).
Qed.

(** ** Witnesses: callback 1 is registered and runs while another thread waits. *)

Definition demo_calling : Config := mkConfig (mkManager true false false 1 ∅) [Calling [1%nat]] [] [1%nat] [].
Definition demo_waiting : Config := mkConfig (mkManager true false false 1 ∅) [Calling [1%nat]; Waiting 0] [] [1%nat] [].
Definition demo_registered : Config := mkConfig (mkManager false false false 1 (<[0 := 1%nat]> ∅)) [] [] [1%nat] [].
Lemma demo_registered_reachable : reachable demo_registered.
Proof.
  apply (rtc_l _ _ (mkConfig (mkManager false false false 1 ∅) [] [] [] [])); [left; by eapply (call_get_token start 0)|].
  apply (rtc_l _ _ demo_registered); [left|done].
  exact (call_Register (mkConfig (mkManager false false false 1 ∅) [] [] [] []) 0 1%nat _ (not_elem_of_nil _) eq_refl).
Qed.
Lemma demo_calling_reachable : reachable demo_calling.
Proof. eapply rtc_r; [exact demo_registered_reachable|]. left. by apply (call_StartCancel demo_registered). Qed.
Lemma demo_waiting_reachable : reachable demo_waiting.
Proof. eapply rtc_r; [exact demo_calling_reachable|]. left. by apply (call_Deregister_waits demo_calling). Qed.

Lemma cancellation_safety_witness : NoDup (ran demo_waiting) /\
  1%nat ∉ ran (mkConfig (mkManager false false false 1 ∅) [Deregistered 0 true] [] [1%nat] [1%nat]).
Proof.
  split; [exact (proj1 (cancellation_safety demo_waiting demo_waiting_reachable))|].
  exact (proj2 (proj2 (proj1 (proj2 (proj2 (cancellation_safety demo_registered demo_registered_reachable))) 0 _ _ eq_refl eq_refl)) 1%nat _ eq_refl (rtc_refl _ _)).
Defined.
Lemma cancellation_liveness_witness : exists c', rtc thread_step demo_waiting c' /\ stalled c'.
Proof. exact (proj2 (cancellation_liveness demo_waiting 1 0 demo_waiting_reachable eq_refl demo_waiting (rtc_refl _ _))). Defined.
End Cancellation.
