(* ===== verification/PendingCounts.v ===== *)
(** * Pending counts

    [PendingCounts] of [core/common_runtime/pending_counts.h]: for each node of
    a frame, how many inputs it waits for and how many were dead, packed into
    one byte or, when they do not fit, in a hash table; the same fields encode
    that the node has started or completed. It implements an abstract table of
    node states, whatever the representation that each node has. *)
From S2P Require Import Prelude.

Module PendingCounts.

(** ** The data *)

Inductive NodeState := PENDING_NOTREADY | PENDING_READY | STARTED | COMPLETED.
(** The bit fields of three, three, one and one bits. *)
Record PackedCounts := mkPacked { p_pending : Z; p_dead_count : Z; has_started : bool; is_large : bool }.
Record LargeCounts := mkLarge { l_pending : Z; l_dead_count : Z }.
Record PendingCounts := mkCounts { num_nodes_ : Z; counts_ : list PackedCounts; overflow_ : gmap Z LargeCounts }.
Definition u3 (z : Z) : Z := z mod 8.
Definition kMaxCountForPackedCounts : Z := 7.

Section Operations.
(** What a byte holds before it is written. *)
Context (garbage : PackedCounts).

Definition new_PendingCounts (num_nodes : Z) : PendingCounts := mkCounts num_nodes (replicate (Z.to_nat num_nodes) garbage) ∅.

Definition set_counts (id : Z) (pc : PackedCounts) (c : PendingCounts) : PendingCounts :=
  mkCounts (num_nodes_ c) (zinsert (counts_ c) id pc) (overflow_ c).
Definition set_overflow (id : Z) (l : LargeCounts) (c : PendingCounts) : PendingCounts :=
  mkCounts (num_nodes_ c) (counts_ c) (<[id := l]> (overflow_ c)).

(** A [DCHECK] is a check of the debug build; the release build goes on. *)
Definition set_initial_count (id pending_count max_dead_count : Z) : ST PendingCounts unit :=
  let! c := st_get in
  st_check ((0 <=? id) && (id <? num_nodes_ c)) ;;;
  if (kMaxCountForPackedCounts <? pending_count) || (kMaxCountForPackedCounts <? max_dead_count) then
    st_check (bool_decide (overflow_ c !! id = None)) ;;;
    st_modify (set_overflow id (mkLarge pending_count 0)) ;;;
    st_modify (set_counts id (mkPacked 0 0 (has_started garbage) true))
  else st_modify (set_counts id (mkPacked (u3 pending_count) 0 false false)).

(** [counts_[id]], after the checks of [IsLarge]. *)
Definition counts_at (id : Z) : ST PendingCounts PackedCounts :=
  let! c := st_get in
  st_check ((0 <=? id) && (id <? num_nodes_ c)) ;;;
  st_opt (counts_ c !!z id).
(** [overflow_[id]] inserts a default entry when there is none. *)
Definition overflow_at (id : Z) : ST PendingCounts LargeCounts :=
  let! c := st_get in
  match overflow_ c !! id with
  | Some l => st_ret l
  | None => st_modify (set_overflow id (mkLarge 0 0)) ;;; st_ret (mkLarge 0 0)
  end.

Definition NodeStatePacked (pc : PackedCounts) : NodeState :=
  if has_started pc then (if p_pending pc =? 0 then STARTED else COMPLETED)
  else (if p_pending pc =? 0 then PENDING_READY else PENDING_NOTREADY).
Definition NodeStateLarge (l : LargeCounts) : NodeState :=
  let pending := l_pending l in
  if 0 <? pending then PENDING_NOTREADY
  else if pending =? 0 then PENDING_READY
  else if pending =? -1 then STARTED
  else COMPLETED.
Definition NodeState_eqb (a b : NodeState) : bool :=
  match a, b with
  | PENDING_NOTREADY, PENDING_NOTREADY | PENDING_READY, PENDING_READY | STARTED, STARTED | COMPLETED, COMPLETED => true
  | _, _ => false
  end.

Definition node_state (id : Z) : ST PendingCounts NodeState :=
  let! pc := counts_at id in
  if is_large pc then let! l := overflow_at id in st_ret (NodeStateLarge l) else st_ret (NodeStatePacked pc).
Definition mark_started (id : Z) : ST PendingCounts unit :=
  let! pc := counts_at id in
  if is_large pc then
    let! l := overflow_at id in
    st_check (l_pending l =? 0) ;;;
    st_modify (set_overflow id (mkLarge (-1) (l_dead_count l)))
  else
    st_check (p_pending pc =? 0) ;;;
    st_check (negb (has_started pc)) ;;;
    st_modify (set_counts id (mkPacked (p_pending pc) (p_dead_count pc) true (is_large pc))).
Definition mark_completed (id : Z) : ST PendingCounts unit :=
  let! pc := counts_at id in
  if is_large pc then
    let! l := overflow_at id in
    st_check (l_pending l =? -1) ;;;
    st_modify (set_overflow id (mkLarge (-2) (l_dead_count l)))
  else
    st_check (p_pending pc =? 0) ;;;
    st_check (has_started pc) ;;;
    st_modify (set_counts id (mkPacked 1 (p_dead_count pc) (has_started pc) (is_large pc))).
Definition pending (id : Z) : ST PendingCounts Z :=
  let! pc := counts_at id in
  if is_large pc then
    let! l := overflow_at id in
    if NodeState_eqb PENDING_NOTREADY (NodeStateLarge l) then st_ret (l_pending l) else st_ret 0
  else if NodeState_eqb PENDING_NOTREADY (NodeStatePacked pc) then st_ret (p_pending pc) else st_ret 0.
Definition decrement_pending (id v : Z) : ST PendingCounts Z :=
  let! n := pending id in
  st_check (v <=? n) ;;;
  let! pc := counts_at id in
  if is_large pc then
    let! l := overflow_at id in
    let p := s32 (l_pending l - v) in
    st_modify (set_overflow id (mkLarge p (l_dead_count l))) ;;; st_ret p
  else
    let p := u3 (p_pending pc - v) in
    st_modify (set_counts id (mkPacked p (p_dead_count pc) (has_started pc) (is_large pc))) ;;; st_ret p.
Definition mark_live (id : Z) : ST PendingCounts unit :=
  let! pc := counts_at id in
  if is_large pc then
    let! l := overflow_at id in
    if NodeState_eqb PENDING_NOTREADY (NodeStateLarge l)
    then st_modify (set_overflow id (mkLarge (Z.land (l_pending l) (Z.lnot 1)) (l_dead_count l)))
    else st_ret tt
  else if NodeState_eqb PENDING_NOTREADY (NodeStatePacked pc)
    then st_modify (set_counts id (mkPacked (Z.land (p_pending pc) 6) (p_dead_count pc) (has_started pc) (is_large pc)))
    else st_ret tt.
Definition dead_count (id : Z) : ST PendingCounts Z :=
  let! pc := counts_at id in
  if is_large pc then let! l := overflow_at id in st_ret (l_dead_count l) else st_ret (p_dead_count pc).
Definition increment_dead_count (id : Z) : ST PendingCounts unit :=
  let! pc := counts_at id in
  if is_large pc then
    let! l := overflow_at id in
    if NodeState_eqb PENDING_NOTREADY (NodeStateLarge l)
    then st_modify (set_overflow id (mkLarge (l_pending l) (s32 (l_dead_count l + 1))))
    else st_ret tt
  else if NodeState_eqb PENDING_NOTREADY (NodeStatePacked pc)
    then
      st_check (p_dead_count pc <? kMaxCountForPackedCounts) ;;;
      st_modify (set_counts id (mkPacked (p_pending pc) (u3 (p_dead_count pc + 1)) (has_started pc) (is_large pc)))
    else st_ret tt.

(** The counts of [b] and its hash table; a position beyond either vector is
    undefined. *)
Definition InitializeFrom (b : PendingCounts) : ST PendingCounts unit :=
  let! c := st_get in
  st_check (num_nodes_ c =? num_nodes_ b) ;;;
  st_check ((zlength (counts_ c) =? num_nodes_ c) && (zlength (counts_ b) =? num_nodes_ b)) ;;;
  st_modify (fun c => mkCounts (num_nodes_ c) (counts_ b) (overflow_ b)).
End Operations.

(** ** The abstract table

    A node waits for a number of inputs, or runs, or has finished; [deads]
    counts the dead inputs, at most [max_deads]. [wide] tells the
    representation, which no result depends on. *)

Inductive Phase := Waiting (n : Z) | Running | Finished.
Record NodeCount := mkCount { phase : Phase; deads : Z; max_deads : Z; wide : bool }.
Definition phase_state (p : Phase) : NodeState :=
  match p with
  | Waiting n => if 0 <? n then PENDING_NOTREADY else PENDING_READY
  | Running => STARTED
  | Finished => COMPLETED
  end.
Definition waiting (nc : NodeCount) : Z := match phase nc with Waiting n => n | _ => 0 end.
Definition with_phase (p : Phase) (nc : NodeCount) : NodeCount := mkCount p (deads nc) (max_deads nc) (wide nc).
Definition initial (p d : Z) : NodeCount := mkCount (Waiting p) 0 d ((kMaxCountForPackedCounts <? p) || (kMaxCountForPackedCounts <? d)).

Inductive Op :=
| OpInit (id pending_count max_dead_count : Z)
| OpState (id : Z)
| OpStarted (id : Z)
| OpCompleted (id : Z)
| OpPending (id : Z)
| OpDecrement (id v : Z)
| OpLive (id : Z)
| OpDeadCount (id : Z)
| OpIncrementDead (id : Z).
Inductive Res := RUnit | RState (s : NodeState) | RCount (n : Z).

(** What the operation returns and the node after, under the conditions on its
    use; [None] otherwise. *)
Definition spec_node (op : Op) (nc : NodeCount) : option (Res * NodeCount) :=
  match op with
  | OpInit _ _ _ => None
  | OpState _ => Some (RState (phase_state (phase nc)), nc)
  | OpStarted _ => match phase nc with Waiting 0 => Some (RUnit, with_phase Running nc) | _ => None end
  | OpCompleted _ => match phase nc with Running => Some (RUnit, with_phase Finished nc) | _ => None end
  | OpPending _ => Some (RCount (waiting nc), nc)
  | OpDecrement _ v =>
      match phase nc with
      | Waiting n => if (0 <=? v) && (v <=? n) then Some (RCount (n - v), with_phase (Waiting (n - v)) nc) else None
      | _ => None
      end
  | OpLive _ => Some (RUnit, match phase nc with Waiting n => with_phase (Waiting (n - n mod 2)) nc | _ => nc end)
  | OpDeadCount _ => Some (RCount (deads nc), nc)
  | OpIncrementDead _ =>
      if 0 <? waiting nc then
        if deads nc <? max_deads nc then Some (RUnit, mkCount (phase nc) (deads nc + 1) (max_deads nc) (wide nc)) else None
      else Some (RUnit, nc)
  end.
Definition op_id (op : Op) : Z :=
  match op with
  | OpInit id _ _ | OpState id | OpStarted id | OpCompleted id | OpPending id | OpDecrement id _ | OpLive id | OpDeadCount id | OpIncrementDead id => id
  end.
Definition spec_op (num_nodes : Z) (op : Op) (m : gmap Z NodeCount) : option (Res * gmap Z NodeCount) :=
  match op with
  | OpInit id p d =>
      if (0 <=? id) && (id <? num_nodes) && (0 <=? p) && (p <? 2 ^ 31) && (0 <=? d) && (d <? 2 ^ 31) &&
         match m !! id with Some nc => negb (wide nc) | None => true end
      then Some (RUnit, <[id := initial p d]> m) else None
  | _ =>
      nc ← m !! op_id op;
      '(r, nc') ← spec_node op nc;
      Some (r, <[op_id op := nc']> m)
  end.

Definition run_op (garbage : PackedCounts) (op : Op) : ST PendingCounts Res :=
  match op with
  | OpInit id p d => set_initial_count garbage id p d ;;; st_ret RUnit
  | OpState id => let! s := node_state id in st_ret (RState s)
  | OpStarted id => mark_started id ;;; st_ret RUnit
  | OpCompleted id => mark_completed id ;;; st_ret RUnit
  | OpPending id => let! n := pending id in st_ret (RCount n)
  | OpDecrement id v => let! n := decrement_pending id v in st_ret (RCount n)
  | OpLive id => mark_live id ;;; st_ret RUnit
  | OpDeadCount id => let! n := dead_count id in st_ret (RCount n)
  | OpIncrementDead id => increment_dead_count id ;;; st_ret RUnit
  end.

(** ** The representation of a node *)

Definition encoded (p : Phase) : Z := match p with Waiting n => n | Running => -1 | Finished => -2 end.
Definition phase_ok (bound : Z) (p : Phase) : Prop := match p with Waiting n => 0 <= n <= bound | _ => True end.
Definition packs (pc : PackedCounts) (p : Phase) : Prop :=
  match p with
  | Waiting n => p_pending pc = n /\ has_started pc = false
  | Running => p_pending pc = 0 /\ has_started pc = true
  | Finished => p_pending pc = 1 /\ has_started pc = true
  end.
Definition represents (pc : PackedCounts) (ov : option LargeCounts) (nc : NodeCount) : Prop :=
  is_large pc = wide nc /\ 0 <= deads nc <= max_deads nc /\
  if wide nc
  then max_deads nc < 2 ^ 31 /\ phase_ok (2 ^ 31 - 1) (phase nc) /\ ov = Some (mkLarge (encoded (phase nc)) (deads nc))
  else max_deads nc <= 7 /\ phase_ok 7 (phase nc) /\ ov = None /\ packs pc (phase nc) /\ p_dead_count pc = deads nc.
Record implements (c : PendingCounts) (m : gmap Z NodeCount) : Prop := {
  im_len : zlength (counts_ c) = num_nodes_ c;
  im_node id nc : m !! id = Some nc -> 0 <= id < num_nodes_ c /\ exists pc, counts_ c !!z id = Some pc /\ represents pc (overflow_ c !! id) nc;
  im_none id : m !! id = None -> overflow_ c !! id = None
}.

(** Changing one node in both. *)
Lemma implements_update c c' m id pc ov nc : implements c m -> 0 <= id < num_nodes_ c -> represents pc ov nc ->
  num_nodes_ c' = num_nodes_ c -> zlength (counts_ c') = zlength (counts_ c) ->
  (forall j, counts_ c' !!z j = if decide (id = j) then Some pc else counts_ c !!z j) ->
  (forall j, overflow_ c' !! j = if decide (id = j) then ov else overflow_ c !! j) -> implements c' (<[id := nc]> m).
Proof.
  intros [Hl Hn H0] Hid Hr En El Ec Eo. split.
  - by rewrite El, En.
  - intros j nc'. rewrite lookup_insert, En, Ec, Eo. destruct (decide (id = j)) as [<-|Hne]; [|by apply Hn].
    intros [= <-]. split; [done|]. by exists pc.
  - intros j. rewrite lookup_insert, Eo. destruct (decide (id = j)); [done|]. apply H0.
Qed.
(** The three shapes of a change: the byte, the entry of the table, none. *)
Lemma implements_packed c m id pc pc' nc nc' : implements c m -> m !! id = Some nc -> counts_ c !!z id = Some pc ->
  wide nc' = false -> wide nc = false -> represents pc' None nc' -> implements (set_counts id pc' c) (<[id := nc']> m).
Proof.
  intros HI Hm Hc Hw' Hw Hr. destruct (im_node _ _ HI _ _ Hm) as (Hid & pc0 & Hc0 & Hr0). rewrite Hc in Hc0. injection Hc0 as <-.
  apply (implements_update c _ m id pc' None nc' HI Hid Hr); [done|cbn; by autorewrite with tf|intros j; cbn; by apply (zlookup_zinsert _ _ _ _ pc)|].
  intros j. cbn. destruct (decide (id = j)) as [<-|]; [|done]. unfold represents in Hr0. rewrite Hw in Hr0. naive_solver.
Qed.
Lemma implements_large c m id pc nc nc' l : implements c m -> m !! id = Some nc -> counts_ c !!z id = Some pc ->
  represents pc (Some l) nc' -> implements (set_overflow id l c) (<[id := nc']> m).
Proof.
  intros HI Hm Hc Hr. destruct (im_node _ _ HI _ _ Hm) as (Hid & _).
  apply (implements_update c _ m id pc (Some l) nc' HI Hid Hr); [done|done| |].
  - intros j. cbn. by destruct (decide (id = j)) as [<-|].
  - intros j. cbn. apply lookup_insert.
Qed.
Lemma implements_same c m id nc : implements c m -> m !! id = Some nc -> implements c (<[id := nc]> m).
Proof. intros HI Hm. by rewrite insert_id. Qed.

(** The accessors in a state that implements the table. *)
Lemma counts_at_done c m id nc : implements c m -> m !! id = Some nc ->
  exists pc, counts_at id c = Done (pc, c) /\ counts_ c !!z id = Some pc /\ represents pc (overflow_ c !! id) nc.
Proof.
  intros HI Hm. destruct (im_node _ _ HI _ _ Hm) as ([H1 H2] & pc & Hc & Hr). exists pc. split; [|done].
  unfold counts_at, st_bind, st_get, st_check, st_opt, st_ret. apply Z.leb_le in H1. apply Z.ltb_lt in H2. by rewrite H1, H2, Hc.
Qed.
Lemma overflow_at_done c id l : overflow_ c !! id = Some l -> overflow_at id c = Done (l, c).
Proof. intros H. unfold overflow_at, st_bind, st_get, st_ret. by rewrite H. Qed.
Lemma state_large l p : l_pending l = encoded p -> phase_ok (2 ^ 31 - 1) p -> NodeStateLarge l = phase_state p.
Proof.
  intros E Hp. unfold NodeStateLarge. rewrite E. destruct p as [n| |]; cbn in *; [|done..].
  destruct (Z.ltb_spec 0 n); [done|]. by destruct (Z.eqb_spec n 0); [|lia].
Qed.
Lemma state_packed pc p : packs pc p -> phase_ok 7 p -> NodeStatePacked pc = phase_state p.
Proof.
  unfold NodeStatePacked. destruct p as [n| |]; cbn; intros [-> ->] Hp; [|done..].
  destruct (Z.ltb_spec 0 n), (Z.eqb_spec n 0); try done; lia.
Qed.

(** One node, by its representation: what the byte or the entry holds. *)
Lemma node_cases c m id nc : implements c m -> m !! id = Some nc ->
  exists pc, counts_at id c = Done (pc, c) /\ counts_ c !!z id = Some pc /\ is_large pc = wide nc /\ 0 <= deads nc <= max_deads nc /\
    if wide nc then max_deads nc < 2 ^ 31 /\ phase_ok (2 ^ 31 - 1) (phase nc) /\ overflow_at id c = Done (mkLarge (encoded (phase nc)) (deads nc), c)
    else max_deads nc <= 7 /\ phase_ok 7 (phase nc) /\ packs pc (phase nc) /\ p_dead_count pc = deads nc.
Proof.
  intros HI Hm. destruct (counts_at_done c m id nc HI Hm) as (pc & Ec & Hc & Hl & Hd & Hr). exists pc. do 4 (split; [done|]).
  destruct (wide nc); [|naive_solver]. destruct Hr as (? & ? & Hov). split; [done|]. split; [done|]. by apply overflow_at_done.
Qed.

(** Runs the accessors of a node in both representations. *)
Ltac run_node HI Hm :=
  let pc := fresh "pc" in let Ec := fresh "Ec" in let Hc := fresh "Hc" in let Hl := fresh "Hl" in let Hd := fresh "Hd" in let Hr := fresh "Hr" in
  destruct (node_cases _ _ _ _ HI Hm) as (pc & Ec & Hc & Hl & Hd & Hr);
  unfold st_bind, st_check, st_modify, st_ret; cbv beta iota; rewrite ?Ec; cbv beta iota zeta; rewrite ?Hl;
  match type of Hr with (if ?w then _ else _) => destruct w eqn:? end;
  [let Hm' := fresh "Hmax" in let Hp := fresh "Hp" in let Eo := fresh "Eo" in destruct Hr as (Hm' & Hp & Eo); rewrite ?Eo; cbv beta iota zeta; cbn [l_pending l_dead_count]
  |let Hm' := fresh "Hmax" in let Hp := fresh "Hp" in let Hk := fresh "Hk" in let Hdc := fresh "Hdc" in destruct Hr as (Hm' & Hp & Hk & Hdc)].

Lemma state_eqb_waiting n : NodeState_eqb PENDING_NOTREADY (phase_state (Waiting n)) = (0 <? n).
Proof. cbn. by destruct (0 <? n). Qed.
Lemma state_eqb_phase p : NodeState_eqb PENDING_NOTREADY (phase_state p) = (0 <? match p with Waiting n => n | _ => 0 end).
Proof. destruct p as [n| |]; [apply state_eqb_waiting|done..]. Qed.

Lemma node_state_spec c m id nc : implements c m -> m !! id = Some nc -> node_state id c = Done (phase_state (phase nc), c).
Proof.
  intros HI Hm. unfold node_state. run_node HI Hm.
  - by rewrite (state_large _ (phase nc)).
  - by rewrite (state_packed _ (phase nc)).
Qed.
Lemma pending_spec c m id nc : implements c m -> m !! id = Some nc -> pending id c = Done (waiting nc, c).
Proof.
  intros HI Hm. unfold pending, waiting. run_node HI Hm.
  - rewrite (state_large _ (phase nc)), state_eqb_phase by done. cbn [l_pending]. destruct (phase nc) as [n| |]; cbn in *; try done.
    destruct (Z.ltb_spec 0 n); [done|]. by replace n with 0 by lia.
  - rewrite (state_packed _ (phase nc)), state_eqb_phase by done. destruct (phase nc) as [n| |]; cbn in *; try done. destruct Hk as [-> _].
    destruct (Z.ltb_spec 0 n); [done|]. by replace n with 0 by lia.
Qed.
Lemma dead_count_spec c m id nc : implements c m -> m !! id = Some nc -> dead_count id c = Done (deads nc, c).
Proof. intros HI Hm. unfold dead_count. run_node HI Hm; [done|]. by rewrite Hdc. Qed.

(** An operation that changes a node: from [nc] to [nc'], in either
    representation. *)
Definition changes {A} (op : ST PendingCounts A) (c : PendingCounts) (m : gmap Z NodeCount) (id : Z) (a : A) (nc' : NodeCount) : Prop :=
  exists c', op c = Done (a, c') /\ implements c' (<[id := nc']> m) /\ num_nodes_ c' = num_nodes_ c.

Ltac new_large := eexists; split; [done|]; split; [|done]; eapply implements_large; [done..|]; unfold represents; cbn.
Ltac new_packed := eexists; split; [done|]; split; [|done]; eapply implements_packed; try done; unfold represents; cbn.

Lemma mark_started_spec c m id nc : implements c m -> m !! id = Some nc -> phase nc = Waiting 0 ->
  changes (mark_started id) c m id tt (with_phase Running nc).
Proof.
  intros HI Hm Hph. unfold changes, mark_started. run_node HI Hm; rewrite Hph in *; cbn in *.
  - new_large. by rewrite ?Hl, ?Heqb.
  - destruct Hk as [-> ->]. new_packed. by rewrite Heqb.
Qed.
Lemma mark_completed_spec c m id nc : implements c m -> m !! id = Some nc -> phase nc = Running ->
  changes (mark_completed id) c m id tt (with_phase Finished nc).
Proof.
  intros HI Hm Hph. unfold changes, mark_completed. run_node HI Hm; rewrite Hph in *; cbn in *.
  - new_large. by rewrite ?Hl, ?Heqb.
  - destruct Hk as [-> ->]. new_packed. by rewrite Heqb.
Qed.
Lemma decrement_pending_spec c m id nc n v : implements c m -> m !! id = Some nc -> phase nc = Waiting n -> 0 <= v <= n ->
  changes (decrement_pending id v) c m id (n - v) (with_phase (Waiting (n - v)) nc).
Proof.
  intros HI Hm Hph Hv. unfold changes, decrement_pending. unfold st_bind at 1. rewrite (pending_spec _ _ _ _ HI Hm). unfold waiting. rewrite Hph.
  replace (v <=? n) with true by (symmetry; apply Z.leb_le; lia). run_node HI Hm; rewrite Hph in *; cbn in Hp; cbn [encoded].
  - rewrite s32_id by lia. new_large. rewrite ?Hl, ?Heqb. split; [done|]. split; [done|]. split; [done|]. split; [lia|done].
  - destruct Hk as [-> Hs]. unfold u3. rewrite Z.mod_small by lia. new_packed. rewrite ?Hl, ?Heqb. split; [done|]. split; [done|]. split; [done|]. split; [lia|done].
Qed.
(** Clearing the lowest bit. *)
Lemma land_lnot_1 n : Z.land n (Z.lnot 1) = n - n mod 2.
Proof.
  change (Z.lnot 1) with (Z.lnot (Z.ones 1)). rewrite <- Z.ldiff_land, Z.ldiff_ones_r, Z.shiftl_mul_pow2, Z.shiftr_div_pow2 by lia.
  change (2 ^ 1) with 2. pose proof (Z.div_mod n 2 ltac:(lia)). lia.
Qed.
Lemma land_6 n : 0 <= n <= 7 -> Z.land n 6 = n - n mod 2.
Proof.
  intros Hn. assert (forallb (fun n => Z.land n 6 =? n - n mod 2) (map Z.of_nat (seq 0 8)) = true) as H by done.
  rewrite forallb_forall in H. apply Z.eqb_eq, H, List.in_map_iff. exists (Z.to_nat n). split; [lia|]. apply in_seq. lia.
Qed.
Definition live (nc : NodeCount) : NodeCount := match phase nc with Waiting n => with_phase (Waiting (n - n mod 2)) nc | _ => nc end.
Lemma mark_live_spec c m id nc : implements c m -> m !! id = Some nc -> changes (mark_live id) c m id tt (live nc).
Proof.
  intros HI Hm. assert (Hsame : waiting nc = 0 -> live nc = nc).
  { unfold waiting, live. destruct nc as [[n| |] d mx w]; cbn; intros E; try done. rewrite E. done. }
  unfold changes, mark_live. run_node HI Hm.
  - rewrite (state_large _ (phase nc)), state_eqb_phase by done. fold (waiting nc). destruct (Z.ltb_spec 0 (waiting nc)) as [Hlt|Hle].
    + unfold waiting in Hlt. unfold live. destruct (phase nc) as [n| |]; try lia. cbn [encoded l_pending l_dead_count] in *. cbn in Hp.
      rewrite land_lnot_1. pose proof (Z.mod_pos_bound n 2). new_large. rewrite ?Hl, ?Heqb. split; [done|]. split; [done|]. split; [done|]. split; [lia|done].
    + exists c. rewrite Hsame; [by split; [done|split; [apply implements_same|]]|]. unfold waiting in *. destruct (phase nc); cbn in Hp; lia.
  - rewrite (state_packed _ (phase nc)), state_eqb_phase by done. fold (waiting nc). destruct (Z.ltb_spec 0 (waiting nc)) as [Hlt|Hle].
    + unfold waiting in Hlt. unfold live. destruct (phase nc) as [n| |]; try lia. cbn in Hp, Hk. destruct Hk as [-> Hs].
      rewrite land_6 by done. pose proof (Z.mod_pos_bound n 2). new_packed. rewrite ?Hl, ?Heqb. split; [done|]. split; [done|]. split; [done|]. split; [lia|done].
    + exists c. rewrite Hsame; [by split; [done|split; [apply implements_same|]]|]. unfold waiting in *. destruct (phase nc); cbn in Hp; lia.
Qed.
Definition one_more_dead (nc : NodeCount) : NodeCount := mkCount (phase nc) (deads nc + 1) (max_deads nc) (wide nc).
Lemma increment_dead_count_spec c m id nc : implements c m -> m !! id = Some nc -> (0 < waiting nc -> deads nc < max_deads nc) ->
  changes (increment_dead_count id) c m id tt (if 0 <? waiting nc then one_more_dead nc else nc).
Proof.
  intros HI Hm Hmx. unfold changes, increment_dead_count. run_node HI Hm.
  - rewrite (state_large _ (phase nc)), state_eqb_phase by done. fold (waiting nc). destruct (Z.ltb_spec 0 (waiting nc)) as [Hlt|Hle].
    + specialize (Hmx Hlt). cbn [l_pending l_dead_count]. rewrite s32_id by lia. new_large. rewrite ?Hl, ?Heqb. split; [done|]. split; [lia|]. done.
    + exists c. by split; [done|split; [apply implements_same|]].
  - rewrite (state_packed _ (phase nc)), state_eqb_phase by done. fold (waiting nc). destruct (Z.ltb_spec 0 (waiting nc)) as [Hlt|Hle].
    + specialize (Hmx Hlt). rewrite Hdc. unfold kMaxCountForPackedCounts. destruct (Z.ltb_spec (deads nc) 7); [|lia].
      unfold u3. rewrite Z.mod_small by lia. new_packed. rewrite ?Hl, ?Heqb. split; [done|]. split; [lia|]. split; [done|]. split; [done|].
      split; [done|]. split; [|done]. unfold packs in *. cbn. by destruct (phase nc).
    + exists c. by split; [done|split; [apply implements_same|]].
Qed.
Lemma set_initial_count_spec garbage c m id p d : implements c m -> 0 <= id < num_nodes_ c -> 0 <= p < 2 ^ 31 -> 0 <= d < 2 ^ 31 ->
  (forall nc, m !! id = Some nc -> wide nc = false) -> changes (set_initial_count garbage id p d) c m id tt (initial p d).
Proof.
  intros HI Hid Hp Hd Hw. assert (Hov : overflow_ c !! id = None).
  { destruct (m !! id) as [nc|] eqn:Em; [|by apply (im_none _ _ HI)]. destruct (im_node _ _ HI _ _ Em) as (_ & pc & _ & _ & _ & Hr).
    rewrite (Hw nc eq_refl) in Hr. naive_solver. }
  assert (Hin : exists pc, counts_ c !!z id = Some pc) by (apply zlookup_is_Some; rewrite (im_len _ _ HI); done). destruct Hin as [pc Hpc].
  unfold changes, set_initial_count, initial. unfold st_bind, st_get, st_check, st_modify, st_ret.
  replace ((0 <=? id) && (id <? num_nodes_ c)) with true by (symmetry; apply andb_true_iff; rewrite Z.leb_le, Z.ltb_lt; lia).
  destruct ((kMaxCountForPackedCounts <? p) || (kMaxCountForPackedCounts <? d)) eqn:Ew.
  - rewrite bool_decide_eq_true_2 by done. eexists. split; [done|]. split; [|done].
    eapply (implements_update c _ m id _ (Some (mkLarge p 0))); [done|done| |done|cbn; by autorewrite with tf|intros j; cbn; by apply (zlookup_zinsert _ _ _ _ pc)|].
    + split; [done|]. cbn. split; [lia|]. split; [lia|]. split; [lia|done].
    + intros j. cbn. apply lookup_insert.
  - apply orb_false_iff in Ew as [Ep%Z.ltb_ge Ed%Z.ltb_ge]. unfold kMaxCountForPackedCounts in *. eexists. split; [done|]. split; [|done].
    eapply (implements_update c _ m id _ None); [done|done| |done|cbn; by autorewrite with tf|intros j; cbn; by apply (zlookup_zinsert _ _ _ _ pc)|].
    + split; [done|]. cbn. split; [lia|]. split; [lia|]. split; [lia|]. split; [done|]. split; [|done]. split; [|done]. unfold u3. apply Z.mod_small. lia.
    + intros j. cbn. destruct (decide (id = j)) as [<-|]; done.
Qed.
Lemma new_implements garbage n : 0 <= n -> implements (new_PendingCounts garbage n) ∅.
Proof.
  intros Hn. split; [|done|done]. unfold zlength. cbn. rewrite length_replicate. lia.
Qed.
Lemma InitializeFrom_spec c m b mb : implements c m -> implements b mb -> num_nodes_ c = num_nodes_ b ->
  exists c', InitializeFrom b c = Done (tt, c') /\ implements c' mb /\ num_nodes_ c' = num_nodes_ c.
Proof.
  intros HI HB E. unfold InitializeFrom, st_bind, st_get, st_check, st_modify, st_ret.
  rewrite (im_len _ _ HI), (im_len _ _ HB), !Z.eqb_refl, (proj2 (Z.eqb_eq _ _) E). eexists. split; [done|]. split; [|done].
  destruct HB as [HL HN H0]. split; cbn; [by rewrite E|by rewrite E|done].
Qed.

(** ** Sequences of operations *)

Fixpoint run_ops (garbage : PackedCounts) (ops : list Op) : ST PendingCounts (list Res) :=
  match ops with
  | [] => st_ret []
  | op :: ops' => let! r := run_op garbage op in let! rs := run_ops garbage ops' in st_ret (r :: rs)
  end.
Fixpoint spec_ops (num_nodes : Z) (ops : list Op) (m : gmap Z NodeCount) : option (list Res * gmap Z NodeCount) :=
  match ops with
  | [] => Some ([], m)
  | op :: ops' => '(r, m) ← spec_op num_nodes op m; '(rs, m) ← spec_ops num_nodes ops' m; Some (r :: rs, m)
  end.

Lemma count_op_refines garbage c m op r m' : implements c m -> spec_op (num_nodes_ c) op m = Some (r, m') ->
  exists c', run_op garbage op c = Done (r, c') /\ implements c' m' /\ num_nodes_ c' = num_nodes_ c.
Proof.
  intros HI Hs.
  assert (Hch : forall A (o : ST PendingCounts A) a nc' (k : A -> Res), changes o c m (op_id op) a nc' -> m' = <[op_id op := nc']> m ->
    exists c', st_bind o (fun a => st_ret (k a)) c = Done (k a, c') /\ implements c' m' /\ num_nodes_ c' = num_nodes_ c).
  { intros A o a nc' k (c' & E & H1 & H2) ->. exists c'. by rewrite (st_bind_eq _ _ _ _ _ E). }
  assert (Hrd : forall A (o : ST PendingCounts A) a (k : A -> Res), o c = Done (a, c) -> m' = m ->
    exists c', st_bind o (fun a => st_ret (k a)) c = Done (k a, c') /\ implements c' m' /\ num_nodes_ c' = num_nodes_ c).
  { intros A o a k E ->. exists c. by rewrite (st_bind_eq _ _ _ _ _ E). }
  destruct op as [id p d|id|id|id|id|id v|id|id|id]; cbn [run_op]; cbn [spec_op] in Hs.
  1: { destruct (_ && _) eqn:E in Hs; [|done]. injection Hs as <- <-. rewrite !andb_true_iff, !Z.leb_le, !Z.ltb_lt in E. destruct E as [[[[[[? ?] ?] ?] ?] ?] E].
       apply (Hch _ _ tt (initial p d) (fun _ => RUnit)); [|done]. apply set_initial_count_spec; [done|done|done|done|].
       intros nc Hnc. cbn [op_id] in Hnc; rewrite Hnc in E. by apply negb_true_iff. }
  all: cbn [op_id] in *; destruct (m !! id) as [nc|] eqn:Hm; [|done]; cbn in Hs.
  - injection Hs as <- <-. apply (Hrd _ _ _ RState); [by apply node_state_spec with m|by apply insert_id].
  - destruct (phase nc) as [[| |]| |] eqn:Hp; try done. injection Hs as <- <-. apply (Hch _ _ tt (with_phase Running nc) (fun _ => RUnit)); [by apply mark_started_spec|done].
  - destruct (phase nc) as [|  |] eqn:Hp; try done. injection Hs as <- <-. apply (Hch _ _ tt (with_phase Finished nc) (fun _ => RUnit)); [by apply mark_completed_spec|done].
  - injection Hs as <- <-. apply (Hrd _ _ _ RCount); [by apply pending_spec with m|by apply insert_id].
  - destruct (phase nc) as [n| |] eqn:Hp; try done. destruct ((0 <=? v) && (v <=? n)) eqn:Hv; [|done]. injection Hs as <- <-.
    apply andb_true_iff in Hv as [?%Z.leb_le ?%Z.leb_le].
    apply (Hch _ _ (n - v) (with_phase (Waiting (n - v)) nc) RCount); [by apply decrement_pending_spec|done].
  - injection Hs as <- <-. apply (Hch _ _ tt (live nc) (fun _ => RUnit)); [by apply mark_live_spec|done].
  - injection Hs as <- <-. apply (Hrd _ _ _ RCount); [by apply dead_count_spec with m|by apply insert_id].
  - assert (Hnew : r = RUnit /\ m' = <[id := if 0 <? waiting nc then one_more_dead nc else nc]> m /\ (0 < waiting nc -> deads nc < max_deads nc)).
    { destruct (Z.ltb_spec 0 (waiting nc)); [destruct (Z.ltb_spec (deads nc) (max_deads nc)); [|done]|]; injection Hs as <- <-; split_and!; try done; lia. }
    destruct Hnew as (-> & Em & Hmx). apply (Hch _ _ tt _ (fun _ => RUnit)) with (2 := Em). by apply increment_dead_count_spec.
Qed.
Lemma count_ops_refine garbage ops : forall c m rs m', implements c m -> spec_ops (num_nodes_ c) ops m = Some (rs, m') ->
  exists c', run_ops garbage ops c = Done (rs, c') /\ implements c' m' /\ num_nodes_ c' = num_nodes_ c.
Proof.
  induction ops as [|op ops IH]; intros c m rs m' HI Hs; cbn in Hs.
  - injection Hs as <- <-. by exists c.
  - destruct (spec_op (num_nodes_ c) op m) as [[r m1]|] eqn:E1; [|done]. cbn in Hs. destruct (spec_ops (num_nodes_ c) ops m1) as [[rs1 m2]|] eqn:E2; [|done].
    injection Hs as <- <-. destruct (count_op_refines garbage _ _ _ _ _ HI E1) as (c1 & R1 & H1 & N1). rewrite <- N1 in E2.
    destruct (IH c1 m1 rs1 m2 H1 E2) as (c2 & R2 & H2 & N2). exists c2. cbn [run_ops]. rewrite (st_bind_eq _ _ _ _ _ R1), (st_bind_eq _ _ _ _ _ R2).
    split; [done|]. split; [done|]. by rewrite N2.
Qed.

(** ** The property *)

(** C31: The packed table implements the abstract one: on every sequence of
    operations that the abstract table allows (a node starts when it waits for
    nothing, completes after it started, is decremented by at most what it
    waits for, and has at most as many dead inputs as announced), no [DCHECK]
    fails, no position is out of bounds, and every operation returns the same
    value, whatever the sizes of the counts and the bytes of fresh memory; and
    so does a copy made by [InitializeFrom]. *)
Theorem pending_counts_refines garbage garbage' n ops rs m ops' rs' m' : 0 <= n ->
  spec_ops n ops ∅ = Some (rs, m) -> spec_ops n ops' m = Some (rs', m') ->
  exists c, run_ops garbage ops (new_PendingCounts garbage n) = Done (rs, c) /\
    (exists c', run_ops garbage ops' c = Done (rs', c')) /\
    exists d d', InitializeFrom c (new_PendingCounts garbage' n) = Done (tt, d) /\ run_ops garbage' ops' d = Done (rs', d').
Proof.
  intros Hn Hs Hs'. destruct (count_ops_refine garbage ops (new_PendingCounts garbage n) ∅ rs m (new_implements garbage n Hn) Hs) as (c & Ec & Hc & Nc).
  assert (Hnc : num_nodes_ c = n) by exact Nc. exists c. split; [done|]. split.
  - destruct (count_ops_refine garbage ops' c m rs' m' Hc) as (c' & Ec' & _); [by rewrite Hnc|]. by exists c'.
  - destruct (InitializeFrom_spec _ _ c m (new_implements garbage' n Hn) Hc) as (d & Ed & Hd & Nd); [by rewrite Hnc|].
    destruct (count_ops_refine garbage' ops' d m rs' m' Hd) as (d' & Ed' & _); [by rewrite Nd|]. by exists d, d'.
Qed.
Lemma pending_counts_refines_witness : exists c,
  run_ops (mkPacked 5 5 true true) [OpInit 0 2 2; OpInit 1 9 10; OpDecrement 0 1; OpLive 1; OpPending 1; OpIncrementDead 1; OpDecrement 0 1; OpStarted 0]
    (new_PendingCounts (mkPacked 5 5 true true) 2) =
  Done ([RUnit; RUnit; RCount 1; RUnit; RCount 8; RUnit; RCount 0; RUnit], c) /\
  exists d d', InitializeFrom c (new_PendingCounts (mkPacked 0 0 false false) 2) = Done (tt, d) /\
    run_ops (mkPacked 0 0 false false) [OpState 0; OpDeadCount 1] d = Done ([RState STARTED; RCount 1], d').
Proof.
  destruct (pending_counts_refines (mkPacked 5 5 true true) (mkPacked 0 0 false false) 2
    [OpInit 0 2 2; OpInit 1 9 10; OpDecrement 0 1; OpLive 1; OpPending 1; OpIncrementDead 1; OpDecrement 0 1; OpStarted 0]
    [RUnit; RUnit; RCount 1; RUnit; RCount 8; RUnit; RCount 0; RUnit]
    (<[0 := mkCount Running 0 2 false]> (<[1 := mkCount (Waiting 8) 1 10 true]> ∅))
    [OpState 0; OpDeadCount 1] [RState STARTED; RCount 1]
    (<[0 := mkCount Running 0 2 false]> (<[1 := mkCount (Waiting 8) 1 10 true]> ∅))) as (c & Ec & _ & d & d' & Ed & Ed').
  - lia.
  - vm_compute. reflexivity.
  - vm_compute. reflexivity.
  - exists c. split; [exact Ec|]. exists d, d'. split; [exact Ed|exact Ed'].
Defined.
End PendingCounts.
