(* ===== verification/EdgeSet.v ===== *)
(** * Edge sets

    [EdgeSet] of [graph/edgeset.{h,cc}]: a set of pointers to edges, in an array
    of two that is kept compact, or in an ordered tree once it is full. A
    pointer is its address, and null is 0; the tree is the list of its keys in
    order. *)
From S2P Require Import Prelude.

Module EdgeSet.

Definition kInline : nat := 2.
(** When [ptrs_[0]] points to the set itself, [ptrs_[1]] points to the tree:
    then [get_set] is the tree, and [ptrs_] has no pointer to an edge. *)
Record EdgeSet := mkEdgeSet { ptrs_ : list Z; get_set : option (list Z) }.
Definition new_EdgeSet : EdgeSet := mkEdgeSet (replicate kInline 0) None.

(** [std::set]: insertion and removal by key. *)
Fixpoint set_insert (v : Z) (s : list Z) : list Z * bool :=
  match s with
  | [] => ([v], true)
  | x :: s' => if v <? x then (v :: s, true) else if v =? x then (s, false) else let '(s', b) := set_insert v s' in (x :: s', b)
  end.
Fixpoint set_erase (v : Z) (s : list Z) : list Z * Z :=
  match s with
  | [] => ([], 0)
  | x :: s' => if v =? x then (s', 1) else let '(s', n) := set_erase v s' in (x :: s', n)
  end.

Definition size (e : EdgeSet) : Z :=
  match get_set e with Some s => zlength s | None => zlength (List.filter (fun p => negb (p =? 0)) (ptrs_ e)) end.
Definition empty (e : EdgeSet) : bool := size e =? 0.
Definition clear (e : EdgeSet) : EdgeSet := mkEdgeSet (replicate kInline 0) None.
(** The index of the first pointer that is equal to [v]. *)
Fixpoint find_ptr (v : Z) (l : list Z) : option nat :=
  match l with [] => None | x :: l' => if x =? v then Some O else S <$> find_ptr v l' end.
Definition insert (value : Z) (e : EdgeSet) : EdgeSet * bool :=
  match get_set e with
  | Some s => let '(s, b) := set_insert value s in (mkEdgeSet (ptrs_ e) (Some s), b)
  | None =>
      match find_ptr value (ptrs_ e) with
      | Some _ => (e, false)
      | None =>
          match find_ptr 0 (ptrs_ e) with
          | Some i => (mkEdgeSet (<[i := value]> (ptrs_ e)) None, true)
          | None =>
              let s := fold_left (fun s p => (set_insert p s).1) (ptrs_ e) [] in
              let '(s, b) := set_insert value s in
              (mkEdgeSet [] (Some s), b)
          end
      end
  end.
Definition erase (key : Z) (e : EdgeSet) : EdgeSet * Z :=
  match get_set e with
  | Some s => let '(s, n) := set_erase key s in (mkEdgeSet (ptrs_ e) (Some s), n)
  | None =>
      match find_ptr key (ptrs_ e) with
      | Some i =>
          let n := size e in
          let ptrs := match ptrs_ e !!z (n - 1) with Some p => <[i := p]> (ptrs_ e) | None => ptrs_ e end in
          (mkEdgeSet (zinsert ptrs (n - 1) 0) None, 1)
      | None => (e, 0)
      end
  end.
(** What an iterator meets from [begin] to [end]. *)
Definition elements (e : EdgeSet) : list Z :=
  match get_set e with Some s => s | None => take (Z.to_nat (size e)) (ptrs_ e) end.

(** ** A set *)

Definition set_ok (e : EdgeSet) : Prop :=
  match get_set e with
  | Some s => StronglySorted Z.lt s /\ 0 ∉ s
  | None => ptrs_ e = [0; 0] \/ (exists p, p <> 0 /\ ptrs_ e = [p; 0]) \/ (exists p q, p <> 0 /\ q <> 0 /\ p <> q /\ ptrs_ e = [p; q])
  end.

Lemma tree_insert_spec v s : StronglySorted Z.lt s -> StronglySorted Z.lt (set_insert v s).1 /\
  (set_insert v s).2 = negb (bool_decide (v ∈ s)) /\ (set_insert v s).1 ≡ₚ (if (set_insert v s).2 then v :: s else s).
Proof.
  induction 1 as [|x s Hs IH Hx]; cbn [set_insert].
  - split; [repeat constructor|]. by split.
  - destruct (Z.ltb_spec v x) as [Hvx|Hvx]; [|destruct (Z.eqb_spec v x) as [->|Hne]].
    + cbn. split; [constructor; [by constructor|]; constructor; [done|]; eapply Forall_impl; [exact Hx|]; cbn; lia|]. split; [|done].
      rewrite bool_decide_eq_false_2; [done|]. intros [->|Hv]%elem_of_cons; [lia|]. apply (proj1 (Forall_forall _ _) Hx) in Hv. lia.
    + cbn. split; [by constructor|]. split; [|done]. rewrite bool_decide_eq_true_2; [done|by left].
    + destruct IH as (IH1 & IH2 & IH3). destruct (set_insert v s) as [s' b]. cbn [fst snd] in *. split; [|split].
      * constructor; [done|]. rewrite IH3. destruct b; [constructor; [lia|done]|done].
      * rewrite IH2. f_equal. apply bool_decide_ext. set_solver.
      * rewrite IH3. destruct b; [apply Permutation_swap|done].
Qed.
Lemma tree_erase_spec v s : StronglySorted Z.lt s -> StronglySorted Z.lt (set_erase v s).1 /\
  if bool_decide (v ∈ s) then (set_erase v s).2 = 1 /\ s ≡ₚ v :: (set_erase v s).1 else set_erase v s = (s, 0).
Proof.
  induction 1 as [|x s Hs IH Hx]; cbn [set_erase]; [by split; [constructor|]|]. destruct (Z.eqb_spec v x) as [->|Hne].
  - cbn. split; [done|]. rewrite bool_decide_eq_true_2 by (by left). done.
  - destruct IH as [IH1 IH2]. rewrite (bool_decide_ext (v ∈ x :: s) (v ∈ s)) by set_solver. destruct (set_erase v s) as [s' n]. cbn [fst snd] in *. case_bool_decide.
    + destruct IH2 as [-> IH2]. split; [|split; [done|rewrite IH2 at 1; apply Permutation_swap]].
      constructor; [done|]. rewrite IH2 in Hx. by apply Forall_cons in Hx as [_ ?].
    + injection IH2 as -> ->. split; [by constructor|done].
Qed.
Lemma sorted_nodup s : StronglySorted Z.lt s -> NoDup s.
Proof.
  induction 1 as [|x s Hs IH Hx]; constructor; [|done]. intros Hin. apply (proj1 (Forall_forall _ _) Hx) in Hin. lia.
Qed.
Ltac each_ptr := repeat match goal with |- context [?x =? ?y] => destruct (Z.eqb_spec x y); cbn -[Z.eqb] end.
(** The elements of each shape. *)
Lemma inline_elements p0 p1 l : elements (mkEdgeSet [p0; p1] None) = l -> p0 = 0 /\ p1 = 0 /\ l = [] \/ p0 <> 0 /\ p1 = 0 /\ l = [p0] \/ p0 <> 0 /\ p1 <> 0 /\ l = [p0; p1] \/ p0 = 0 /\ p1 <> 0.
Proof. intros <-. unfold elements, size. cbn -[Z.eqb]. each_ptr; tauto. Qed.
Lemma elements_shape e : set_ok e -> get_set e = None ->
  ptrs_ e = [0; 0] /\ elements e = [] \/ (exists p, p <> 0 /\ ptrs_ e = [p; 0] /\ elements e = [p]) \/
  (exists p q, p <> 0 /\ q <> 0 /\ p <> q /\ ptrs_ e = [p; q] /\ elements e = [p; q]).
Proof.
  destruct e as [ps s]. unfold set_ok. cbn -[Z.eqb]. intros H ->. destruct H as [->|[(p & Hp & ->)|(p & q & Hp & Hq & Hpq & ->)]]; [by left|right; left|right; right].
  - exists p. destruct (inline_elements p 0 _ eq_refl) as [?|[?|[?|?]]]; try tauto.
  - exists p, q. destruct (inline_elements p q _ eq_refl) as [?|[?|[?|?]]]; try tauto.
Qed.
Lemma set_ok_nodup e : set_ok e -> NoDup (elements e) /\ 0 ∉ elements e.
Proof.
  intros Hok. destruct (get_set e) as [s|] eqn:E.
  - unfold set_ok, elements in *. rewrite E in Hok |- *. destruct Hok as [Hok H0]. split; [by apply sorted_nodup|done].
  - destruct (elements_shape e Hok E) as [[_ ->]|[(p & Hp & _ & ->)|(p & q & Hp & Hq & Hpq & _ & ->)]].
    + split; [constructor|]. by intros ?%elem_of_nil.
    + split; [apply NoDup_singleton|]. set_solver.
    + split; [|set_solver]. apply NoDup_cons. split; [set_solver|apply NoDup_singleton].
Qed.
Lemma size_elements e : set_ok e -> size e = zlength (elements e).
Proof.
  intros Hok. destruct (get_set e) as [s|] eqn:E; [unfold size, elements; by rewrite E|].
  destruct (elements_shape e Hok E) as [[Hp ->]|[(p & Hp0 & Hp & ->)|(p & q & Hp0 & Hq & Hpq & Hp & ->)]]; unfold size; rewrite E, Hp; cbn -[Z.eqb]; each_ptr; done.
Qed.
Lemma empty_elements e : set_ok e -> empty e = bool_decide (elements e = []).
Proof.
  intros Hok. unfold empty. rewrite size_elements by done. unfold zlength. case_bool_decide as H; [by rewrite H|]. destruct (elements e); [done|]. cbn -[Z.eqb]. apply Z.eqb_neq. lia.
Qed.
Lemma new_ok : set_ok new_EdgeSet.
Proof. by left. Qed.
Lemma clear_ok e : set_ok (clear e) /\ elements (clear e) = [].
Proof. split; [by left|done]. Qed.

Ltac ptr_simpl := unfold elements, size, zlength, zlookup, zinsert; repeat (progress (cbn -[Z.eqb]; change (Z.of_nat 2 - 1) with 1; change (Z.of_nat 1 - 1) with 0; change (Z.to_nat 1) with 1%nat; change (Z.to_nat 0) with 0%nat; rewrite ?Z.eqb_refl;
  repeat match goal with
  | H : ?x <> ?y |- context [?x =? ?y] => rewrite (proj2 (Z.eqb_neq x y) H)
  | H : ?x <> ?y |- context [?y =? ?x] => rewrite (proj2 (Z.eqb_neq y x) (not_eq_sym H))
  end)).
Lemma insert_tree v e s : get_set e = Some s -> set_ok e -> v <> 0 -> set_ok (insert v e).1 /\ (insert v e).2 = negb (bool_decide (v ∈ elements e)) /\
  elements (insert v e).1 ≡ₚ (if (insert v e).2 then v :: elements e else elements e).
Proof.
  intros E Hok Hv. unfold insert. rewrite E. assert (Hel : elements e = s) by (unfold elements; by rewrite E). rewrite Hel. unfold set_ok in Hok. rewrite E in Hok. destruct Hok as [Hs H0].
  destruct (tree_insert_spec v s Hs) as (H1 & H2 & H3). destruct (set_insert v s) as [s' b]. cbn [fst snd] in *. split; [|split; [done|done]].
  split; [done|]. cbn. rewrite H3. destruct b; set_solver.
Qed.
(** The full array becomes a tree. *)
Lemma insert_full v p q : p <> 0 -> q <> 0 -> p <> q -> v <> 0 -> p <> v -> q <> v -> let e := mkEdgeSet [p; q] None in
  set_ok (insert v e).1 /\ (insert v e).2 = true /\ elements (insert v e).1 ≡ₚ [v; p; q].
Proof.
  intros Hp Hq Hpq Hv Hpv Hqv e.
  destruct (tree_insert_spec q [p] ltac:(repeat constructor)) as (Hs1 & Hs2 & Hs3). rewrite bool_decide_eq_false_2 in Hs2 by set_solver. rewrite Hs2 in Hs3.
  assert (He : insert v e = let '(s, b) := set_insert v (set_insert q [p]).1 in (mkEdgeSet [] (Some s), b)).
  { unfold insert, e. cbn [get_set ptrs_ find_ptr]. by rewrite !(proj2 (Z.eqb_neq _ _)) by done. }
  rewrite He. set (s := (set_insert q [p]).1) in *. destruct (tree_insert_spec v s Hs1) as (H1 & H2 & H3).
  destruct (set_insert v s) as [s' b]. cbn [fst snd] in *. rewrite bool_decide_eq_false_2 in H2 by (rewrite Hs3; set_solver). subst b. split; [|split; [done|]].
  - split; [done|]. rewrite H3. cbn [negb]. rewrite elem_of_cons, Hs3. set_solver.
  - etransitivity; [exact H3|]. apply perm_skip. etransitivity; [exact Hs3|]. apply Permutation_swap.
Qed.
Lemma insert_spec v e : set_ok e -> v <> 0 -> set_ok (insert v e).1 /\ (insert v e).2 = negb (bool_decide (v ∈ elements e)) /\
  elements (insert v e).1 ≡ₚ (if (insert v e).2 then v :: elements e else elements e).
Proof.
  intros Hok Hv. destruct (get_set e) as [s|] eqn:E; [by eapply insert_tree|]. destruct e as [ps s]. cbn in E. subst s.
  destruct (elements_shape _ Hok eq_refl) as [[Hp ->]|[(p & Hp0 & Hp & ->)|(p & q & Hp0 & Hq & Hpq & Hp & ->)]]; cbn in Hp; subst ps.
  - unfold insert. ptr_simpl. split; [right; left; by exists v|]. done.
  - destruct (decide (p = v)) as [->|Hne]; unfold insert; ptr_simpl.
    + by rewrite bool_decide_eq_true_2 by (by left).
    + rewrite bool_decide_eq_false_2 by set_solver. split; [right; right; by exists p, v|]. split; [done|]. apply Permutation_swap.
  - destruct (decide (p = v)) as [->|Hne]; [|destruct (decide (q = v)) as [->|Hne2]].
    + unfold insert. ptr_simpl. by rewrite bool_decide_eq_true_2 by set_solver.
    + unfold insert. ptr_simpl. by rewrite bool_decide_eq_true_2 by set_solver.
    + destruct (insert_full v p q Hp0 Hq Hpq Hv Hne Hne2) as (H1 & H2 & H3). rewrite H2. by rewrite bool_decide_eq_false_2 by set_solver.
Qed.
Lemma erase_spec v e : set_ok e -> v <> 0 -> set_ok (erase v e).1 /\
  if bool_decide (v ∈ elements e) then (erase v e).2 = 1 /\ elements e ≡ₚ v :: elements (erase v e).1 else erase v e = (e, 0).
Proof.
  intros Hok Hv. destruct (get_set e) as [s|] eqn:E.
  - unfold erase. rewrite E. assert (Hel : elements e = s) by (unfold elements; by rewrite E). rewrite Hel. unfold set_ok in Hok. rewrite E in Hok. destruct Hok as [Hs H0].
    destruct (tree_erase_spec v s Hs) as [H1 H2]. destruct (set_erase v s) as [s' n]. cbn [fst snd] in *. case_bool_decide.
    + destruct H2 as [-> H2]. split; [|done]. split; [done|]. cbn. intros ?. apply H0. rewrite H2. by right.
    + injection H2 as -> ->. destruct e as [ps o]. cbn in E. subst o. done.
  - destruct e as [ps s]. cbn in E. subst s.
    destruct (elements_shape _ Hok eq_refl) as [[Hp ->]|[(p & Hp0 & Hp & ->)|(p & q & Hp0 & Hq & Hpq & Hp & ->)]]; cbn in Hp; subst ps.
    + unfold erase. ptr_simpl. split; [done|]. by rewrite bool_decide_eq_false_2 by (by intros ?%elem_of_nil).
    + destruct (decide (p = v)) as [->|Hne]; unfold erase; ptr_simpl.
      * rewrite bool_decide_eq_true_2 by (by left). split; [by left|]. done.
      * split; [done|]. by rewrite bool_decide_eq_false_2 by set_solver.
    + destruct (decide (p = v)) as [->|Hne]; [|destruct (decide (q = v)) as [->|Hne2]]; unfold erase; ptr_simpl.
      * rewrite bool_decide_eq_true_2 by set_solver. split; [right; left; by exists q|]. done.
      * rewrite bool_decide_eq_true_2 by set_solver. split; [right; left; by exists p|]. split; [done|]. apply Permutation_swap.
      * split; [done|]. by rewrite bool_decide_eq_false_2 by set_solver.
Qed.
End EdgeSet.
