(* ===== verification/Graph.v ===== *)
(** * Graphs and graph algorithms

    [Graph], [Node] and [Edge] of [graph/graph.{h,cc}]. Nodes, edges and the
    shared properties of nodes are objects in memory, identified by their
    addresses (0 is null); a graph keeps the addresses of its live nodes and
    edges by id, and reuses the memory of those it removed.

    [graph/algorithm.cc]: depth-first search with the post orders, pruning, and
    the edges of the source and the sink. A stack is the list of its entries from
    its back. *)
From S2P Require Import Prelude Status Numbers EdgeSet.
From stdpp Require Import gmap.
Open Scope Z_scope.

Module NodeClass.

Inductive NodeClass :=
| NC_UNINITIALIZED | NC_SWITCH | NC_MERGE | NC_ENTER | NC_EXIT | NC_NEXT_ITERATION | NC_LOOP_COND | NC_CONTROL_TRIGGER
| NC_SEND | NC_HOST_SEND | NC_RECV | NC_HOST_RECV | NC_CONSTANT | NC_VARIABLE | NC_IDENTITY
| NC_GET_SESSION_HANDLE | NC_GET_SESSION_TENSOR | NC_DELETE_SESSION_TENSOR | NC_OTHER.
#[global] Instance NodeClass_eq_dec : EqDecision NodeClass.
Proof. solve_decision. Defined.

(** The classes of [Node::Initialize] with the two type strings of each. *)
Definition class_table : list (NodeClass * list Z * list Z) := [
  (NC_SWITCH, bytes_of "Switch", bytes_of "RefSwitch");
  (NC_MERGE, bytes_of "Merge", bytes_of "RefMerge");
  (NC_ENTER, bytes_of "Enter", bytes_of "RefEnter");
  (NC_EXIT, bytes_of "Exit", bytes_of "RefExit");
  (NC_NEXT_ITERATION, bytes_of "NextIteration", bytes_of "RefNextIteration");
  (NC_LOOP_COND, bytes_of "LoopCond", []);
  (NC_CONTROL_TRIGGER, bytes_of "ControlTrigger", []);
  (NC_SEND, bytes_of "_Send", []);
  (NC_HOST_SEND, bytes_of "_HostSend", []);
  (NC_RECV, bytes_of "_Recv", []);
  (NC_HOST_RECV, bytes_of "_HostRecv", []);
  (NC_CONSTANT, bytes_of "Const", bytes_of "HostConst");
  (NC_VARIABLE, bytes_of "Variable", []);
  (NC_IDENTITY, bytes_of "Identity", bytes_of "RefIdentity");
  (NC_GET_SESSION_HANDLE, bytes_of "GetSessionHandle", []);
  (NC_GET_SESSION_TENSOR, bytes_of "GetSessionTensor", []);
  (NC_DELETE_SESSION_TENSOR, bytes_of "DeleteSessionTensor", [])].
(** One [SET_CLASS]; [None] is its failed [CHECK]. *)
Definition SET_CLASS (ts : list Z) (c : option NodeClass) (row : NodeClass * list Z * list Z) : option NodeClass :=
  let '(enum_val, str1, str2) := row in
  if bool_decide (ts = str1) || bool_decide (ts = str2)
  then match c with Some NC_UNINITIALIZED => Some enum_val | _ => None end else c.
Definition node_class (ts : list Z) : option NodeClass :=
  match fold_left (SET_CLASS ts) class_table (Some NC_UNINITIALIZED) with
  | Some NC_UNINITIALIZED => Some NC_OTHER
  | c => c
  end.

(** Only the empty type string is in more than one class. *)
Lemma node_class_ok ts : ts <> [] -> is_Some (node_class ts).
Proof.
  intros Hts. destruct (decide (ts ∈ flat_map (fun '(_, a, b) => [a; b]) class_table)) as [Hin|Hout].
  - assert (H : Forall (fun ts => ts = [] \/ bool_decide (node_class ts = None) = false) (flat_map (fun '(_, a, b) => [a; b]) class_table)).
    { apply (bool_decide_unpack _). vm_compute. exact I. }
    destruct (proj1 (Forall_forall _ _) H ts Hin) as [->|Hn]; [done|]. apply bool_decide_eq_false in Hn. by destruct (node_class ts); [eexists|].
  - assert (H : forall t c, (forall row, row ∈ t -> ts <> row.1.2 /\ ts <> row.2) -> fold_left (SET_CLASS ts) t c = c).
    { induction t as [|[[e a] b] t IH]; intros c Ht; [done|]. cbn [fold_left]. rewrite IH by (intros row Hr; apply Ht; by right). destruct (Ht (e, a, b)) as [Ha Hb]; [by left|]. cbn in Ha, Hb.
      unfold SET_CLASS. by rewrite !bool_decide_eq_false_2 by done. }
    unfold node_class. rewrite H; [by eexists|]. intros [[e a] b] Hr. cbn. split; intros <-; apply Hout, list_elem_of_In, in_flat_map; exists (e, ts, b) || exists (e, a, ts); (split; [by apply list_elem_of_In|cbn; tauto]).
Qed.
End NodeClass.

(** ** The program's data *)

Module Graph.
Import Status Numbers NodeClass.

Section Types.
Context {OpDef AttrValue : Type}.

(** node_def.proto *)
Record NodeDef := mkNodeDef { def_name : list Z; def_op : list Z; def_input : list (list Z); def_device : list Z; def_attr : gmap (list Z) AttrValue }.
Record Properties := mkProps { op_def_ : OpDef; node_def_ : NodeDef; input_types_ : list Z; output_types_ : list Z }.
Record Node := mkNode {
  id_ : Z; cost_id_ : Z; class_ : NodeClass; in_edges_ : EdgeSet.EdgeSet; out_edges_ : EdgeSet.EdgeSet;
  props_ : Z; assigned_device_name_ : list Z
}.
Record Edge := mkEdge { src_ : Z; dst_ : Z; edge_id_ : Z; src_output_ : Z; dst_input_ : Z }.
(** The properties are counted by reference. [allocated] is the number of
    objects that the arena and [new] have given out. *)
Record Graph := mkGraph {
  node_heap : gmap Z Node;
  edge_heap : gmap Z Edge;
  props_heap : gmap Z (Properties * Z);
  allocated : nat;
  nodes_ : list Z;
  num_nodes_ : Z;
  edges_ : list Z;
  edge_set_ : EdgeSet.EdgeSet;
  free_nodes_ : list Z;
  free_edges_ : list Z;
  name_counter_ : Z
}.
(** [OpRegistryInterface] with the functions that read an op's definition
    ([InOutTypesForNode], [AttachDef] of [framework/node_def_util.cc]). *)
Class OpRegistryInterface := {
  LookUpOpDef : list Z -> Status * option OpDef;
  InOutTypesForNode : NodeDef -> OpDef -> Status * (list Z * list Z);
  AttachDef : Status -> NodeDef -> Status
}.
End Types.
Arguments NodeDef : clear implicits.
Arguments Properties : clear implicits.
Arguments Graph : clear implicits.
Arguments OpRegistryInterface : clear implicits.

Definition kControlSlot : Z := -1.
Definition kSourceId : Z := 0.
Definition kSinkId : Z := 1.
Definition new_Node : Node := mkNode (-1) (-1) NC_UNINITIALIZED EdgeSet.new_EdgeSet EdgeSet.new_EdgeSet 0 [].
Definition IsSource (n : Node) : bool := id_ n =? 0.
Definition IsSink (n : Node) : bool := id_ n =? 1.
Definition IsOp (n : Node) : bool := 1 <? id_ n.
Definition IsControlEdge (e : Edge) : bool := src_output_ e =? kControlSlot.

Section Ops.
Context {OpDef AttrValue : Type} {registry : OpRegistryInterface OpDef AttrValue}.
(** The address of the [n]-th object that the arena or [new] gives out. *)
Context (addr : nat -> Z).
Abbreviation NodeDef := (NodeDef AttrValue).
Abbreviation Properties := (Properties OpDef AttrValue).
Abbreviation Graph := (Graph OpDef AttrValue).

(** Writes to the fields. *)
Definition with_node_heap f (g : Graph) : Graph := mkGraph (f (node_heap g)) (edge_heap g) (props_heap g) (allocated g) (nodes_ g) (num_nodes_ g) (edges_ g) (edge_set_ g) (free_nodes_ g) (free_edges_ g) (name_counter_ g).
Definition with_edge_heap f (g : Graph) : Graph := mkGraph (node_heap g) (f (edge_heap g)) (props_heap g) (allocated g) (nodes_ g) (num_nodes_ g) (edges_ g) (edge_set_ g) (free_nodes_ g) (free_edges_ g) (name_counter_ g).
Definition with_props_heap f (g : Graph) : Graph := mkGraph (node_heap g) (edge_heap g) (f (props_heap g)) (allocated g) (nodes_ g) (num_nodes_ g) (edges_ g) (edge_set_ g) (free_nodes_ g) (free_edges_ g) (name_counter_ g).
Definition with_allocated k (g : Graph) : Graph := mkGraph (node_heap g) (edge_heap g) (props_heap g) k (nodes_ g) (num_nodes_ g) (edges_ g) (edge_set_ g) (free_nodes_ g) (free_edges_ g) (name_counter_ g).
Definition with_nodes l k (g : Graph) : Graph := mkGraph (node_heap g) (edge_heap g) (props_heap g) (allocated g) l k (edges_ g) (edge_set_ g) (free_nodes_ g) (free_edges_ g) (name_counter_ g).
Definition with_edges l s (g : Graph) : Graph := mkGraph (node_heap g) (edge_heap g) (props_heap g) (allocated g) (nodes_ g) (num_nodes_ g) l s (free_nodes_ g) (free_edges_ g) (name_counter_ g).
Definition with_free_nodes l (g : Graph) : Graph := mkGraph (node_heap g) (edge_heap g) (props_heap g) (allocated g) (nodes_ g) (num_nodes_ g) (edges_ g) (edge_set_ g) l (free_edges_ g) (name_counter_ g).
Definition with_free_edges l (g : Graph) : Graph := mkGraph (node_heap g) (edge_heap g) (props_heap g) (allocated g) (nodes_ g) (num_nodes_ g) (edges_ g) (edge_set_ g) (free_nodes_ g) l (name_counter_ g).
Definition with_name_counter k (g : Graph) : Graph := mkGraph (node_heap g) (edge_heap g) (props_heap g) (allocated g) (nodes_ g) (num_nodes_ g) (edges_ g) (edge_set_ g) (free_nodes_ g) (free_edges_ g) k.
Definition set_in_edges s (n : Node) := mkNode (id_ n) (cost_id_ n) (class_ n) s (out_edges_ n) (props_ n) (assigned_device_name_ n).
Definition set_out_edges s (n : Node) := mkNode (id_ n) (cost_id_ n) (class_ n) (in_edges_ n) s (props_ n) (assigned_device_name_ n).
Definition set_props r (n : Node) := mkNode (id_ n) (cost_id_ n) (class_ n) (in_edges_ n) (out_edges_ n) r (assigned_device_name_ n).
Definition set_device d (n : Node) := mkNode (id_ n) (cost_id_ n) (class_ n) (in_edges_ n) (out_edges_ n) (props_ n) d.

(** Objects: an access through null or to freed memory is undefined. *)
Definition node_of (p : Z) : ST Graph Node := fun g => st_opt (node_heap g !! p) g.
Definition edge_of (p : Z) : ST Graph Edge := fun g => st_opt (edge_heap g !! p) g.
Definition props_of (r : Z) : ST Graph Properties := fun g => st_opt (fst <$> props_heap g !! r) g.
Definition set_node (p : Z) (n : Node) : ST Graph unit := st_modify (with_node_heap <[p := n]>).
Definition set_edge (p : Z) (e : Edge) : ST Graph unit := st_modify (with_edge_heap <[p := e]>).
Definition Alloc : ST Graph Z := fun g => Done (addr (allocated g), with_allocated (S (allocated g)) g).
Definition new_Properties (v : Properties) : ST Graph Z :=
  let! r := Alloc in st_modify (with_props_heap <[r := (v, 1)]>) ;;; st_ret r.
Definition Ref (r : Z) : ST Graph unit :=
  let! g := st_get in let! '(v, k) := st_opt (props_heap g !! r) in st_modify (with_props_heap <[r := (v, k + 1)]>).
(** The last reference deletes the properties. *)
Definition Unref (r : Z) : ST Graph unit :=
  let! g := st_get in
  let! '(v, k) := st_opt (props_heap g !! r) in
  if k =? 1 then st_modify (with_props_heap (delete r)) else st_modify (with_props_heap <[r := (v, k - 1)]>).
Definition RefCountIsOne (r : Z) : ST Graph bool :=
  let! g := st_get in let! '(v, k) := st_opt (props_heap g !! r) in st_ret (k =? 1).

(** ** Nodes *)

Definition def (p : Z) : ST Graph NodeDef := let! n := node_of p in let! v := props_of (props_ n) in st_ret (node_def_ v).
Definition name (p : Z) : ST Graph (list Z) := let! d := def p in st_ret (def_name d).
Definition num_inputs (p : Z) : ST Graph Z := let! n := node_of p in let! v := props_of (props_ n) in st_ret (s32 (zlength (input_types_ v))).

Definition Initialize (p id cost_id props : Z) : ST Graph unit :=
  let! n := node_of p in
  st_check (id_ n =? -1) ;;;
  st_check (EdgeSet.empty (in_edges_ n)) ;;;
  st_check (EdgeSet.empty (out_edges_ n)) ;;;
  (if props_ n =? 0 then st_ret tt else Unref (props_ n)) ;;;
  let! v := props_of props in
  let! c := st_opt (node_class (def_op (node_def_ v))) in
  set_node p (mkNode id cost_id c (in_edges_ n) (out_edges_ n) props (assigned_device_name_ n)).

Definition Clear (p : Z) : ST Graph unit :=
  let! n := node_of p in
  (if props_ n =? 0 then st_ret tt else Unref (props_ n)) ;;;
  set_node p (mkNode (-1) (-1) NC_UNINITIALIZED (EdgeSet.clear (in_edges_ n)) (EdgeSet.clear (out_edges_ n)) 0 []).

Definition set_assigned_device_name (p : Z) (device_name : list Z) : ST Graph unit :=
  let! n := node_of p in set_node p (set_device device_name n).

Definition MaybeCopyOnWrite (p : Z) : ST Graph unit :=
  let! n := node_of p in
  let! one := RefCountIsOne (props_ n) in
  if one then st_ret tt
  else
    let! v := props_of (props_ n) in
    let! new_props := new_Properties v in
    Unref (props_ n) ;;;
    set_node p (set_props new_props n).
(** Writes [mutable_attr()] of the node's own definition. *)
Definition set_attr (f : gmap (list Z) AttrValue -> gmap (list Z) AttrValue) (v : Properties) : Properties :=
  let d := node_def_ v in
  mkProps (op_def_ v) (mkNodeDef (def_name d) (def_op d) (def_input d) (def_device d) (f (def_attr d))) (input_types_ v) (output_types_ v).
Definition mutate_attr (p : Z) (f : gmap (list Z) AttrValue -> gmap (list Z) AttrValue) : ST Graph unit :=
  let! n := node_of p in
  let! g := st_get in
  let! '(v, k) := st_opt (props_heap g !! props_ n) in
  st_modify (with_props_heap <[props_ n := (set_attr f v, k)]>).
Definition AddAttr (p : Z) (name : list Z) (val : AttrValue) : ST Graph unit := MaybeCopyOnWrite p ;;; mutate_attr p <[name := val]>.
Definition ClearAttr (p : Z) (name : list Z) : ST Graph unit := MaybeCopyOnWrite p ;;; mutate_attr p (delete name).

(** The first of the edges into the node that ends at the input. *)
Fixpoint find_input (idx : Z) (es : list Z) : ST Graph (option Z) :=
  match es with
  | [] => st_ret None
  | q :: es' => let! e := edge_of q in if dst_input_ e =? idx then st_ret (Some q) else find_input idx es'
  end.
Definition input_edge (p idx : Z) : ST Graph (Status * Z) :=
  let! k := num_inputs p in
  let! nm := name p in
  if (idx <? 0) || (k <=? idx)
  then st_ret (InvalidArgument (bytes_of "Invalid input_edge index: " ++ FastInt32ToBufferLeft idx ++ bytes_of ", Node " ++ nm ++
                 bytes_of " only has " ++ FastInt32ToBufferLeft k ++ bytes_of " inputs."), 0)
  else
    let! n := node_of p in
    let! r := find_input idx (EdgeSet.elements (in_edges_ n)) in
    match r with
    | Some q => st_ret (OK, q)
    | None => st_ret (NotFound (bytes_of "Could not find input edge " ++ FastInt32ToBufferLeft idx ++ bytes_of " for " ++ nm), 0)
    end.
Definition input_node (p idx : Z) : ST Graph (Status * Z) :=
  let! '(s, q) := input_edge p idx in
  if negb (ok s) then st_ret (s, 0)
  else if q =? 0 then st_ret (OK, 0)
  else let! e := edge_of q in st_ret (OK, src_ e).

Fixpoint ends (f : Edge -> Z) (es : list Z) : ST Graph (list Z) :=
  match es with
  | [] => st_ret []
  | q :: es' => let! e := edge_of q in let! l := ends f es' in st_ret (f e :: l)
  end.
Definition out_nodes (p : Z) : ST Graph (list Z) := let! n := node_of p in ends dst_ (EdgeSet.elements (out_edges_ n)).
Definition in_nodes (p : Z) : ST Graph (list Z) := let! n := node_of p in ends src_ (EdgeSet.elements (in_edges_ n)).

(** ** The graph *)

Definition num_node_ids (g : Graph) : Z := s32 (zlength (nodes_ g)).
Definition num_edge_ids (g : Graph) : Z := s32 (zlength (edges_ g)).
Definition num_nodes (g : Graph) : Z := s32 (num_nodes_ g).
Definition num_edges (g : Graph) : Z := s32 (EdgeSet.size (edge_set_ g)).
Definition FindNodeId (id : Z) : ST Graph Z := let! g := st_get in st_opt (nodes_ g !!z id).
Definition FindEdgeId (id : Z) : ST Graph Z := let! g := st_get in st_opt (edges_ g !!z id).
Definition source_node : ST Graph Z := FindNodeId kSourceId.
Definition sink_node : ST Graph Z := FindNodeId kSinkId.
Definition IsValidNode (p : Z) : ST Graph bool :=
  if p =? 0 then st_ret false
  else
    let! n := node_of p in
    let! g := st_get in
    if (id_ n <? 0) || (zlength (nodes_ g) <=? id_ n) then st_ret false
    else let! q := st_opt (nodes_ g !!z id_ n) in st_ret (q =? p).

(** [back] and [pop_back] of the list of free nodes. *)
Definition AllocateNode (props cost_node : Z) : ST Graph Z :=
  let! g := st_get in
  let! p :=
    match last (free_nodes_ g) with
    | None => let! p := Alloc in set_node p new_Node ;;; st_ret p
    | Some p => st_modify (with_free_nodes (removelast (free_nodes_ g))) ;;; st_ret p
    end in
  let id := s32 (zlength (nodes_ g)) in
  let! cost_id := (if cost_node =? 0 then st_ret id else let! c := node_of cost_node in st_ret (cost_id_ c)) in
  Initialize p id cost_id props ;;;
  st_modify (fun g => with_nodes (nodes_ g ++ [p]) (s64 (num_nodes_ g + 1)) g) ;;;
  st_ret p.
Definition ReleaseNode (p : Z) : ST Graph unit :=
  let! valid := IsValidNode p in
  st_check valid ;;;
  let! n := node_of p in
  st_modify (fun g => with_nodes (zinsert (nodes_ g) (id_ n) 0) (num_nodes_ g) g) ;;;
  st_modify (fun g => with_free_nodes (free_nodes_ g ++ [p]) g) ;;;
  st_modify (fun g => with_nodes (nodes_ g) (s64 (num_nodes_ g - 1)) g) ;;;
  Clear p.

(** The node and what the caller's status becomes. *)
Definition AddNode (node_def : NodeDef) (status : Status) : ST Graph (Z * Status) :=
  let '(s, op_def) := LookUpOpDef (def_op node_def) in
  let status := Update status s in
  if negb (ok status) then st_ret (0, status)
  else
    let! op_def := st_opt op_def in
    let '(s, (inputs, outputs)) := InOutTypesForNode node_def op_def in
    let status := Update status s in
    if negb (ok status) then st_ret (0, AttachDef status node_def)
    else
      let! props := new_Properties (mkProps op_def node_def inputs outputs) in
      let! node := AllocateNode props 0 in
      st_ret (node, status).
Definition CopyNode (p : Z) : ST Graph Z :=
  let! n := node_of p in
  st_check (negb (IsSource n)) ;;;
  st_check (negb (IsSink n)) ;;;
  Ref (props_ n) ;;;
  let! copy := AllocateNode (props_ n) p in
  let! n := node_of p in
  set_assigned_device_name copy (assigned_device_name_ n) ;;;
  st_ret copy.

Definition AddEdge (source x dest y : Z) : ST Graph Z :=
  let! v := IsValidNode source in
  st_check v ;;;
  let! v := IsValidNode dest in
  st_check v ;;;
  let! sn := source_node in
  let! tn := (if source =? sn then st_ret dest else sink_node) in
  (if (source =? sn) || (dest =? tn) || (x =? kControlSlot) || (y =? kControlSlot)
   then st_check (x =? kControlSlot) ;;; st_check (y =? kControlSlot)
   else st_ret tt) ;;;
  let! g := st_get in
  let! e :=
    match last (free_edges_ g) with
    | None => Alloc
    | Some e => st_modify (with_free_edges (removelast (free_edges_ g))) ;;; st_ret e
    end in
  set_edge e (mkEdge source dest (s32 (zlength (edges_ g))) x y) ;;;
  let! n := node_of source in
  let '(s, added) := EdgeSet.insert e (out_edges_ n) in
  set_node source (set_out_edges s n) ;;;
  st_check added ;;;
  let! n := node_of dest in
  let '(s, added) := EdgeSet.insert e (in_edges_ n) in
  set_node dest (set_in_edges s n) ;;;
  st_check added ;;;
  st_modify (fun g => with_edges (edges_ g ++ [e]) (edge_set_ g) g) ;;;
  st_modify (fun g => with_edges (edges_ g) (EdgeSet.insert e (edge_set_ g)).1 g) ;;;
  st_ret e.
Definition AddControlEdge (source dest : Z) : ST Graph Z := AddEdge source kControlSlot dest kControlSlot.
Definition RemoveEdge (q : Z) : ST Graph unit :=
  let! e := edge_of q in
  let! v := IsValidNode (src_ e) in
  st_check v ;;;
  let! v := IsValidNode (dst_ e) in
  st_check v ;;;
  let! n := node_of (src_ e) in
  let '(s, erased) := EdgeSet.erase q (out_edges_ n) in
  set_node (src_ e) (set_out_edges s n) ;;;
  st_check (erased =? 1) ;;;
  let! n := node_of (dst_ e) in
  let '(s, erased) := EdgeSet.erase q (in_edges_ n) in
  set_node (dst_ e) (set_in_edges s n) ;;;
  st_check (erased =? 1) ;;;
  let! g := st_get in
  let! r := st_opt (edges_ g !!z edge_id_ e) in
  st_check (q =? r) ;;;
  let '(s, erased) := EdgeSet.erase q (edge_set_ g) in
  st_modify (fun g => with_edges (edges_ g) s g) ;;;
  st_check (erased =? 1) ;;;
  st_modify (fun g => with_edges (zinsert (edges_ g) (edge_id_ e) 0) (edge_set_ g) g) ;;;
  set_edge q (mkEdge 0 0 (-1) (kControlSlot - 1) (kControlSlot - 1)) ;;;
  st_modify (fun g => with_free_edges (free_edges_ g ++ [q]) g).

(** [while (!edges.empty()) RemoveEdge(begin)]: each pass removes an edge, so
    the number of edges and one more is enough fuel. *)
Fixpoint remove_edges (fuel : nat) (edges : Node -> EdgeSet.EdgeSet) (p : Z) : ST Graph unit :=
  match fuel with
  | O => st_diverge
  | S fuel' =>
      let! n := node_of p in
      if EdgeSet.empty (edges n) then st_ret tt
      else
        let! q := st_opt (head (EdgeSet.elements (edges n))) in
        RemoveEdge q ;;;
        remove_edges fuel' edges p
  end.
Definition RemoveNode (p : Z) : ST Graph unit :=
  let! valid := IsValidNode p in
  st_check valid ;;;
  let! n := node_of p in
  st_check (negb (IsSource n)) ;;;
  st_check (negb (IsSink n)) ;;;
  remove_edges (S (Z.to_nat (EdgeSet.size (in_edges_ n)))) in_edges_ p ;;;
  let! n := node_of p in
  remove_edges (S (Z.to_nat (EdgeSet.size (out_edges_ n)))) out_edges_ p ;;;
  ReleaseNode p.

Definition empty_Graph : Graph := mkGraph ∅ ∅ ∅ 0 [] 0 [] EdgeSet.new_EdgeSet [] [] 0.
Definition source_def (nm : list Z) : NodeDef := mkNodeDef nm (bytes_of "NoOp") [] [] ∅.
(** The constructor. *)
Definition new_Graph : ST Graph unit :=
  let! '(source, status) := AddNode (source_def (bytes_of "_SOURCE")) OK in
  st_check (ok status) ;;;
  let! n := node_of source in
  st_check (id_ n =? kSourceId) ;;;
  let! '(sink, status) := AddNode (source_def (bytes_of "_SINK")) OK in
  st_check (ok status) ;;;
  let! n := node_of sink in
  st_check (id_ n =? kSinkId) ;;;
  AddControlEdge source sink ;;;
  st_ret tt.

Definition NewName (prefix : list Z) : ST Graph (list Z) :=
  let! g := st_get in
  st_modify (with_name_counter (s32 (name_counter_ g + 1))) ;;;
  st_ret (prefix ++ bytes_of "/_" ++ FastInt32ToBufferLeft (name_counter_ g)).

(** [NodeIter]: [operator++] stops at the next live node or at the end. *)
Fixpoint NodeIter_next (fuel : nat) (id : Z) : ST Graph Z :=
  match fuel with
  | O => st_diverge
  | S fuel' =>
      let! g := st_get in
      st_check (id <=? num_node_ids g) ;;;
      let id := id + 1 in
      if num_node_ids g <=? id then st_ret id
      else let! p := FindNodeId id in if negb (p =? 0) then st_ret id else NodeIter_next fuel' id
  end.
(** The nodes that a loop from [NodeIter(this, id)] to the end visits. *)
Fixpoint nodes_from (fuel : nat) (id : Z) : ST Graph (list Z) :=
  match fuel with
  | O => st_diverge
  | S fuel' =>
      let! g := st_get in
      if id =? num_node_ids g then st_ret []
      else
        let! p := FindNodeId id in
        let! next := NodeIter_next (S (length (nodes_ g))) id in
        let! l := nodes_from fuel' next in
        st_ret (p :: l)
  end.
Definition nodes : ST Graph (list Z) := let! g := st_get in nodes_from (S (length (nodes_ g))) 0.

(** ** Serialization *)

(** [AddInput]: the text of an input. *)
Definition AddInput (src_name : list Z) (src_slot : Z) : list Z :=
  if src_slot =? kControlSlot then bytes_of "^" ++ src_name
  else if src_slot =? 0 then src_name
  else src_name ++ bytes_of ":" ++ FastInt32ToBufferLeft src_slot.
(** The edges into a node: the data edges at their inputs, null where there is
    none, then the control edges. *)
Fixpoint place_inputs (es : list Z) (inputs : list Z) : ST Graph (list Z) :=
  match es with
  | [] => st_ret inputs
  | q :: es' =>
      let! e := edge_of q in
      if IsControlEdge e then place_inputs es' (inputs ++ [q])
      else
        let! old := st_opt (inputs !!z dst_input_ e) in
        st_check (old =? 0) ;;;
        place_inputs es' (zinsert inputs (dst_input_ e) q)
  end.
Fixpoint add_inputs (d : NodeDef) (i : Z) (inputs : list Z) : ST Graph (list (list Z)) :=
  match inputs with
  | [] => st_ret []
  | q :: inputs' =>
      let! s :=
        (if q =? 0 then let! s := st_opt (def_input d !!z i) in st_ret [s]
         else
           let! e := edge_of q in
           let! src := node_of (src_ e) in
           if negb (IsOp src) then st_ret []
           else let! nm := name (src_ e) in st_ret [AddInput nm (src_output_ e)]) in
      let! l := add_inputs d (i + 1) inputs' in
      st_ret (s ++ l)
  end.
Definition node_to_def (p : Z) : ST Graph NodeDef :=
  let! n := node_of p in
  let! d := def p in
  let device := (match assigned_device_name_ n with [] => def_device d | _ => assigned_device_name_ n end) in
  let! k := num_inputs p in
  let! inputs := place_inputs (EdgeSet.elements (in_edges_ n)) (replicate (Z.to_nat k) 0) in
  let! input := add_inputs d 0 inputs in
  st_ret (mkNodeDef (def_name d) (def_op d) input device (def_attr d)).
Fixpoint emit_nodes (ids : list Z) : ST Graph (list NodeDef) :=
  match ids with
  | [] => st_ret []
  | id :: ids' =>
      let! p := FindNodeId id in
      let! is_op := (if p =? 0 then st_ret false else let! n := node_of p in st_ret (IsOp n)) in
      let! d := (if is_op then let! d := node_to_def p in st_ret [d] else st_ret []) in
      let! l := emit_nodes ids' in
      st_ret (d ++ l)
  end.
(** The nodes of the [GraphDef]; its versions are those of the graph. *)
Definition ToGraphDefSubRange (from_node_id : Z) : ST Graph (list NodeDef) :=
  let! g := st_get in emit_nodes (seqZ from_node_id (num_node_ids g - from_node_id)).
Definition ToGraphDef : ST Graph (list NodeDef) := ToGraphDefSubRange 0.
End Ops.
End Graph.

Open Scope Z_scope.

Module GraphAlgorithm.
Import Graph.

(** The calls of the callbacks. *)
Inductive Event := Enter (p : Z) | Leave (p : Z).
Definition left (ev : list Event) : list Z := omap (fun e => match e with Leave p => Some p | Enter _ => None end) ev.

Section Algorithms.
Context {OpDef AttrValue : Type}.
Context (addr : nat -> Z).
Abbreviation Graph := (Graph OpDef AttrValue).

(** Each neighbor that is not visited yet is pushed. *)
Fixpoint push_neighbors (outs : list Z) (visited : list bool) (stack : list (Z * bool)) : ST Graph (list (Z * bool)) :=
  match outs with
  | [] => st_ret stack
  | p :: outs' =>
      let! n := node_of p in
      let! seen := st_opt (visited !!z id_ n) in
      push_neighbors outs' visited (if seen then stack else (p, false) :: stack)
  end.
(** The loop of [DFS] (with [out_nodes]) and of [ReverseDFS] (with [in_nodes]);
    the flags say which callbacks there are, and the flag of an entry of the
    stack whether the node is left. *)
Fixpoint dfs_loop (fuel : nat) (neighbors : Z -> ST Graph (list Z)) (enter leave : bool)
    (stack : list (Z * bool)) (visited : list bool) (ev : list Event) : ST Graph (list Event) :=
  match fuel with
  | O => st_diverge
  | S fuel' =>
      match stack with
      | [] => st_ret ev
      | (n, true) :: stack' => dfs_loop fuel' neighbors enter leave stack' visited (ev ++ [Leave n])
      | (n, false) :: stack' =>
          let! x := node_of n in
          let! seen := st_opt (visited !!z id_ x) in
          if seen then dfs_loop fuel' neighbors enter leave stack' visited ev
          else
            let visited := zinsert visited (id_ x) true in
            let ev := if enter then ev ++ [Enter n] else ev in
            let stack := if leave then (n, true) :: stack' else stack' in
            let! outs := neighbors n in
            let! stack := push_neighbors outs visited stack in
            dfs_loop fuel' neighbors enter leave stack visited ev
      end
  end.
(** Each entry of the stack is popped once, and a node pushes at most one entry
    and one for each of its edges, once. *)
Definition degree (g : Graph) (p : Z) : nat :=
  match node_heap g !! p with Some n => length (EdgeSet.elements (in_edges_ n)) + length (EdgeSet.elements (out_edges_ n)) | None => 0 end.
Definition dfs_fuel (g : Graph) : nat := S (S (list_sum (map (fun p => S (degree g p)) (nodes_ g)))).
Definition DFS (enter leave : bool) : ST Graph (list Event) :=
  let! source := source_node in
  let! g := st_get in
  dfs_loop (dfs_fuel g) out_nodes enter leave [(source, false)] (replicate (Z.to_nat (num_node_ids g)) false) [].
Definition ReverseDFS (enter leave : bool) : ST Graph (list Event) :=
  let! sink := sink_node in
  let! g := st_get in
  dfs_loop (dfs_fuel g) in_nodes enter leave [(sink, false)] (replicate (Z.to_nat (num_node_ids g)) false) [].
Definition GetPostOrder : ST Graph (list Z) := let! ev := DFS false true in st_ret (left ev).
Definition GetReversePostOrder : ST Graph (list Z) := let! order := GetPostOrder in st_ret (rev order).

(** ** Pruning *)

(** [visited.insert(in).second] for each predecessor. *)
Fixpoint visit_all (ins : list Z) (visited : gset Z) (queue : list Z) : gset Z * list Z :=
  match ins with
  | [] => (visited, queue)
  | p :: ins' => if bool_decide (p ∈ visited) then visit_all ins' visited queue else visit_all ins' ({[p]} ∪ visited) (queue ++ [p])
  end.
Fixpoint reach_loop (fuel : nat) (queue : list Z) (visited : gset Z) : ST Graph (gset Z) :=
  match fuel with
  | O => st_diverge
  | S fuel' =>
      match queue with
      | [] => st_ret visited
      | n :: queue' =>
          let! ins := in_nodes n in
          let '(visited, queue) := visit_all ins visited queue' in
          reach_loop fuel' queue visited
      end
  end.
Fixpoint remove_unvisited (all_nodes : list Z) (visited : gset Z) (any_removed : bool) : ST Graph bool :=
  match all_nodes with
  | [] => st_ret any_removed
  | p :: rest =>
      let! n := node_of p in
      if negb (bool_decide (p ∈ visited)) && negb (IsSource n) && negb (IsSink n)
      then RemoveNode p ;;; remove_unvisited rest visited true
      else remove_unvisited rest visited any_removed
  end.
(** [roots] is the set of nodes in the order of its iteration; each node enters
    the queue once. *)
Definition PruneForReverseReachability (roots : list Z) : ST Graph bool :=
  let! g := st_get in
  let! visited := reach_loop (S (length roots + length (nodes_ g))) roots (list_to_set roots) in
  let! all_nodes := nodes in
  remove_unvisited all_nodes visited false.

(** ** The source and the sink *)

Fixpoint fixup_loop (ns : list Z) (changed : bool) : ST Graph bool :=
  match ns with
  | [] => st_ret changed
  | p :: rest =>
      let! n := node_of p in
      let! changed :=
        (if negb (IsSource n) && EdgeSet.empty (in_edges_ n)
         then let! s := source_node in AddControlEdge addr s p ;;; st_ret true
         else st_ret changed) in
      let! n := node_of p in
      let! changed :=
        (if negb (IsSink n) && EdgeSet.empty (out_edges_ n)
         then let! t := sink_node in AddControlEdge addr p t ;;; st_ret true
         else st_ret changed) in
      fixup_loop rest changed
  end.
Definition FixupSourceAndSinkEdges : ST Graph bool := let! ns := nodes in fixup_loop ns false.
End Algorithms.
End GraphAlgorithm.
