(* ===== verification/GraphFacts.v ===== *)
(** * Graphs: the specification and its invariants

    An abstract graph maps ids to nodes and to edges; [rep] says when the
    objects in memory are an abstract graph.

    Each operation of [Graph], on a graph that represents an abstract one, does
    not fail any assertion, and leaves a graph that represents the abstract
    result. *)
From S2P Require Import Prelude Status Numbers EdgeSet Graph.
From stdpp Require Import gmap.
Open Scope Z_scope.

Module GraphSpec.
Import Status Numbers NodeClass Graph.

(** ** Ids *)

(** The live object with an id: null entries are of removed objects. *)
Definition at_ (l : list Z) (i : Z) : option Z := match l !!z i with Some p => if p =? 0 then None else Some p | None => None end.

Lemma at_Some l i p : at_ l i = Some p <-> l !!z i = Some p /\ p <> 0.
Proof.
  unfold at_. destruct (l !!z i) as [q|]; [|by split; [|intros [? ?]]]. destruct (Z.eqb_spec q 0) as [->|Hq]; split; try done.
  - by intros [[= <-] ?].
  - by intros [= <-].
  - by intros [[= <-] _].
Qed.
Lemma at_range l i p : at_ l i = Some p -> 0 <= i < zlength l.
Proof. rewrite at_Some. intros [H _]. by eapply zlookup_range. Qed.
Lemma at_app l q i : q <> 0 -> at_ (l ++ [q]) i = if decide (i = zlength l) then Some q else at_ l i.
Proof. intros Hq. unfold at_. rewrite zlookup_app_one. case_decide; [|done]. by rewrite (proj2 (Z.eqb_neq q 0) Hq). Qed.
Lemma at_null l j i : at_ (zinsert l j 0) i = if decide (i = j) then None else at_ l i.
Proof.
  unfold at_. case_decide as H; [subst i|by rewrite zlookup_zinsert_ne by done].
  destruct (decide (0 <= j < zlength l)) as [Hj|Hj]; [by rewrite zlookup_zinsert_eq by done|].
  destruct (zinsert l j 0 !!z j) eqn:E; [|done]. apply zlookup_range in E. rewrite zinsert_length in E. lia.
Qed.

(** ** Abstract graphs *)

Section Spec.
Context {OpDef AttrValue : Type} {registry : OpRegistryInterface OpDef AttrValue}.
Context (addr : nat -> Z).
Abbreviation NodeDef := (NodeDef AttrValue).
Abbreviation Properties := (Properties OpDef AttrValue).
Abbreviation Graph := (Graph OpDef AttrValue).

Record ANode := mkANode { a_props : Properties; a_cost : Z; a_device : list Z }.
Record AEdge := mkAEdge { e_src : Z; e_out : Z; e_dst : Z; e_in : Z }.
(** Ids are never used twice. *)
Record AGraph := mkAGraph { a_nodes : gmap Z ANode; a_next_node : Z; a_edges : gmap Z AEdge; a_next_edge : Z; a_names : Z }.

Definition type_of (v : ANode) : list Z := def_op (node_def_ (a_props v)).
Definition put_node (i : Z) (v : ANode) (a : AGraph) : AGraph := mkAGraph (<[i := v]> (a_nodes a)) (a_next_node a) (a_edges a) (a_next_edge a) (a_names a).
Definition add_node (v : ANode) (a : AGraph) : AGraph := mkAGraph (<[a_next_node a := v]> (a_nodes a)) (a_next_node a + 1) (a_edges a) (a_next_edge a) (a_names a).
Definition add_edge (e : AEdge) (a : AGraph) : AGraph := mkAGraph (a_nodes a) (a_next_node a) (<[a_next_edge a := e]> (a_edges a)) (a_next_edge a + 1) (a_names a).
Definition remove_edge (j : Z) (a : AGraph) : AGraph := mkAGraph (a_nodes a) (a_next_node a) (delete j (a_edges a)) (a_next_edge a) (a_names a).
Definition touches (i : Z) (je : Z * AEdge) : Prop := e_src je.2 = i \/ e_dst je.2 = i.
#[global] Instance touches_dec i je : Decision (touches i je).
Proof. unfold touches. apply _. Defined.
Definition remove_node (i : Z) (a : AGraph) : AGraph :=
  mkAGraph (delete i (a_nodes a)) (a_next_node a) (filter (fun je => ~ touches i je) (a_edges a)) (a_next_edge a) (a_names a).
Definition new_name (a : AGraph) : AGraph := mkAGraph (a_nodes a) (a_next_node a) (a_edges a) (a_next_edge a) (a_names a + 1).

(** ** Representation *)

(** A set of edges holds the addresses of the edges with the node at one end. *)
Definition incident (E : list Z) (m : gmap Z AEdge) (f : AEdge -> Z) (i : Z) (s : EdgeSet.EdgeSet) : Prop :=
  EdgeSet.set_ok s /\ forall q, q ∈ EdgeSet.elements s <-> exists j e, at_ E j = Some q /\ m !! j = Some e /\ f e = i.
Definition node_rel (g : Graph) (a : AGraph) (i p : Z) (v : ANode) : Prop :=
  exists n k, node_heap g !! p = Some n /\ props_heap g !! props_ n = Some (a_props v, k) /\ props_ n <> 0 /\
    id_ n = i /\ cost_id_ n = a_cost v /\ assigned_device_name_ n = a_device v /\ node_class (type_of v) = Some (class_ n) /\
    incident (edges_ g) (a_edges a) e_dst i (in_edges_ n) /\ incident (edges_ g) (a_edges a) e_src i (out_edges_ n).
Definition edge_rel (g : Graph) (j q : Z) (e : AEdge) : Prop :=
  exists s d, edge_heap g !! q = Some (mkEdge s d j (e_out e) (e_in e)) /\ at_ (nodes_ g) (e_src e) = Some s /\ at_ (nodes_ g) (e_dst e) = Some d.
(** The nodes that share properties. *)
Definition user (g : Graph) (r i : Z) : Prop := exists p n, at_ (nodes_ g) i = Some p /\ node_heap g !! p = Some n /\ props_ n = r.
Definition has_address (g : Graph) (p : Z) : Prop := is_Some (node_heap g !! p) \/ is_Some (edge_heap g !! p) \/ is_Some (props_heap g !! p).

(** [extra r] references to the properties at [r] are held by the caller. *)
Record rep_with (extra : Z -> Z) (g : Graph) (a : AGraph) : Prop := mkRep {
  r_len_n : zlength (nodes_ g) = a_next_node a;
  r_len_e : zlength (edges_ g) = a_next_edge a;
  r_nodes : forall i, option_Forall2 (node_rel g a i) (at_ (nodes_ g) i) (a_nodes a !! i);
  r_edges : forall j, option_Forall2 (edge_rel g j) (at_ (edges_ g) j) (a_edges a !! j);
  r_set : EdgeSet.set_ok (edge_set_ g);
  r_set_in : forall q, q ∈ EdgeSet.elements (edge_set_ g) <-> exists j, at_ (edges_ g) j = Some q;
  r_num_n : num_nodes_ g = Z.of_nat (size (a_nodes a));
  r_num_e : zlength (EdgeSet.elements (edge_set_ g)) = Z.of_nat (size (a_edges a));
  r_free_n : NoDup (free_nodes_ g) /\ forall p, p ∈ free_nodes_ g -> p <> 0 /\ node_heap g !! p = Some new_Node;
  r_free_e : NoDup (free_edges_ g) /\ forall q, q ∈ free_edges_ g -> q <> 0 /\ exists e, edge_heap g !! q = Some e /\ edge_id_ e = -1;
  r_fresh : forall p, has_address g p -> exists k, (k < allocated g)%nat /\ p = addr k;
  r_refs : forall r v k, props_heap g !! r = Some (v, k) -> 0 < k /\ exists S : gset Z, k = Z.of_nat (size S) + extra r /\ forall i, i ∈ S <-> user g r i;
  r_names : name_counter_ g = a_names a
}.
Definition rep : Graph -> AGraph -> Prop := rep_with (fun _ => 0).

Class addresses : Prop := {
  addr_inj : forall j k, addr j = addr k -> j = k;
  addr_nonnull : forall k, addr k <> 0
}.
(** What the registry promises: it knows no op without a name, and the op of
    the source and the sink; [AttachDef] keeps an error an error. *)
Class OpRegistryLaws : Prop := {
  registry_named : ok (LookUpOpDef []).1 = false;
  registry_found : forall op, ok (LookUpOpDef op).1 = true -> is_Some (LookUpOpDef op).2;
  registry_noop : exists d, LookUpOpDef (bytes_of "NoOp") = (OK, Some d) /\ forall nm, InOutTypesForNode (source_def nm) d = (OK, ([], []));
  registry_attach : forall s d, ok s = false -> ok (AttachDef s d) = false
}.
End Spec.
Arguments AGraph : clear implicits.
Arguments ANode : clear implicits.
Arguments OpRegistryLaws : clear implicits.
End GraphSpec.

Open Scope Z_scope.

Module GraphFacts.
Import Status Numbers NodeClass Graph GraphSpec.

Section Facts.
Context {OpDef AttrValue : Type} {registry : OpRegistryInterface OpDef AttrValue} {laws : OpRegistryLaws OpDef AttrValue registry}.
Context (addr : nat -> Z) {Haddr : addresses addr}.
Abbreviation NodeDef := (NodeDef AttrValue).
Abbreviation Properties := (Properties OpDef AttrValue).
Abbreviation Graph := (Graph OpDef AttrValue).
Abbreviation AGraph := (AGraph OpDef AttrValue).
Abbreviation ANode := (ANode OpDef AttrValue).
Implicit Types (g : Graph) (a : AGraph) (x : Z -> Z).
Abbreviation rep_with := (rep_with addr).

(** ** What is live *)

Section Live.
Context {x : Z -> Z} {g : Graph} {a : AGraph} (H : rep_with x g a).

Lemma rep_node i v : a_nodes a !! i = Some v -> exists p, at_ (nodes_ g) i = Some p /\ node_rel g a i p v.
Proof. intros Hv. pose proof (r_nodes _ _ _ _ H i) as Hr. rewrite Hv in Hr. inversion Hr; subst. eauto. Qed.
Lemma rep_live i p : at_ (nodes_ g) i = Some p -> exists v, a_nodes a !! i = Some v /\ node_rel g a i p v.
Proof. intros Hv. pose proof (r_nodes _ _ _ _ H i) as Hr. rewrite Hv in Hr. inversion Hr; subst. eauto. Qed.
Lemma rep_edge j e : a_edges a !! j = Some e -> exists q, at_ (edges_ g) j = Some q /\ edge_rel g j q e.
Proof. intros Hv. pose proof (r_edges _ _ _ _ H j) as Hr. rewrite Hv in Hr. inversion Hr; subst. eauto. Qed.
Lemma rep_live_edge j q : at_ (edges_ g) j = Some q -> exists e, a_edges a !! j = Some e /\ edge_rel g j q e.
Proof. intros Hv. pose proof (r_edges _ _ _ _ H j) as Hr. rewrite Hv in Hr. inversion Hr; subst. eauto. Qed.
Lemma live_inj i j p : at_ (nodes_ g) i = Some p -> at_ (nodes_ g) j = Some p -> i = j.
Proof. intros (v & _ & n & k & Hn & _ & _ & <- & _)%rep_live (v' & _ & n' & k' & Hn' & _ & _ & <- & _)%rep_live. congruence. Qed.
Lemma live_edge_inj i j q : at_ (edges_ g) i = Some q -> at_ (edges_ g) j = Some q -> i = j.
Proof. intros (e & _ & s & d & He & _)%rep_live_edge (e' & _ & s' & d' & He' & _)%rep_live_edge. congruence. Qed.
Lemma node_range i v : a_nodes a !! i = Some v -> 0 <= i < a_next_node a.
Proof. intros (p & Hp & _)%rep_node. apply at_range in Hp. by rewrite <- (r_len_n _ _ _ _ H). Qed.
Lemma edge_range j e : a_edges a !! j = Some e -> 0 <= j < a_next_edge a.
Proof. intros (q & Hq & _)%rep_edge. apply at_range in Hq. by rewrite <- (r_len_e _ _ _ _ H). Qed.
Lemma next_node_fresh : a_nodes a !! a_next_node a = None.
Proof. destruct (a_nodes a !! a_next_node a) eqn:E; [|done]. apply node_range in E. lia. Qed.
Lemma next_edge_fresh : a_edges a !! a_next_edge a = None.
Proof. destruct (a_edges a !! a_next_edge a) eqn:E; [|done]. apply edge_range in E. lia. Qed.
Lemma free_not_live p i : p ∈ free_nodes_ g -> at_ (nodes_ g) i <> Some p.
Proof.
  intros [Hp0 Hp]%(proj2 (r_free_n _ _ _ _ H)) Hi. pose proof (at_range _ _ _ Hi). apply rep_live in Hi as (v & _ & n & k & Hn & _ & _ & Hid & _). rewrite Hp in Hn. injection Hn as <-. cbn in Hid. lia.
Qed.
Lemma free_edge_not_live q j : q ∈ free_edges_ g -> at_ (edges_ g) j <> Some q.
Proof.
  intros (Hq0 & e & Hq & Hid)%(proj2 (r_free_e _ _ _ _ H)) Hj. pose proof (at_range _ _ _ Hj). apply rep_live_edge in Hj as (e' & _ & s & d & He & _). rewrite Hq in He. injection He as ->. cbn in Hid. lia.
Qed.
(** The next object of the arena is new. *)
Lemma alloc_fresh : ~ has_address g (addr (allocated g)).
Proof. intros (k & Hk & Heq)%(r_fresh _ _ _ _ H). pose proof (addr_inj addr _ _ Heq). lia. Qed.
Lemma edge_ends j e : a_edges a !! j = Some e -> is_Some (a_nodes a !! e_src e) /\ is_Some (a_nodes a !! e_dst e).
Proof.
  intros (q & _ & s & d & _ & Hs & Hd)%rep_edge. apply rep_live in Hs as (v & Hs & _), Hd as (w & Hd & _). by split; eexists.
Qed.

Lemma node_valid i p : at_ (nodes_ g) i = Some p -> IsValidNode p g = Done (true, g).
Proof.
  intros Hp. pose proof (at_range _ _ _ Hp) as Hr. pose proof (proj1 (at_Some _ _ _) Hp) as [Hl Hp0]. apply rep_live in Hp as (v & _ & n & k & Hn & _ & _ & Hid & _).
  unfold IsValidNode. rewrite (proj2 (Z.eqb_neq p 0) Hp0). rewrite (st_bind_eq _ _ _ n g) by (unfold node_of; by rewrite Hn). rewrite (st_bind_eq _ _ _ g g) by done.
  rewrite Hid. destruct (Z.ltb_spec i 0); [lia|]. destruct (Z.leb_spec (zlength (nodes_ g)) i); [lia|]. cbn [orb]. rewrite (st_bind_eq _ _ _ p g) by (by rewrite Hl). by rewrite Z.eqb_refl.
Qed.
Lemma wp_valid i p Q : at_ (nodes_ g) i = Some p -> Q true g -> wp (IsValidNode p) g Q.
Proof. intros Hp HQ. unfold wp. by rewrite (node_valid i p Hp). Qed.
End Live.

Lemma wp_node_of p n g Q : node_heap g !! p = Some n -> Q n g -> wp (node_of p) g Q.
Proof. intros Hn HQ. unfold wp, node_of. by rewrite Hn. Qed.
Lemma wp_edge_of q e g Q : edge_heap g !! q = Some e -> Q e g -> wp (edge_of q) g Q.
Proof. intros Hn HQ. unfold wp, edge_of. by rewrite Hn. Qed.
Lemma wp_props_of r (v : Properties) k g Q : props_heap g !! r = Some (v, k) -> Q v g -> wp (props_of r) g Q.
Proof. intros Hn HQ. unfold wp, props_of. by rewrite Hn. Qed.

(** ** Frames *)

Lemma opt2_mono {A B} (R R' : A -> B -> Prop) o1 o2 : option_Forall2 R o1 o2 -> (forall p v, o1 = Some p -> o2 = Some v -> R p v -> R' p v) -> option_Forall2 R' o1 o2.
Proof. intros [p v HR|] HI; constructor. by apply HI. Qed.
Lemma opt2_lookup {A B} (R : A -> B -> Prop) o1 o2 : match o1, o2 with Some p, Some v => R p v | None, None => True | _, _ => False end -> option_Forall2 R o1 o2.
Proof. destruct o1, o2; try done; by constructor. Qed.
(** Nodes change only in their properties' counts. *)
Lemma node_rel_frame g g' a a' i p v : node_rel g a i p v -> node_heap g' !! p = node_heap g !! p ->
  (forall r w k, props_heap g !! r = Some (w, k) -> exists k', props_heap g' !! r = Some (w, k')) -> edges_ g' = edges_ g -> a_edges a' = a_edges a -> node_rel g' a' i p v.
Proof.
  intros (n & k & Hn & Hp & Hrest) Hh Hps He Ha. destruct (Hps _ _ _ Hp) as [k' Hp']. exists n, k'. rewrite Hh, He, Ha. done.
Qed.
Lemma edge_rel_frame g g' j q e : edge_rel g j q e -> edge_heap g' !! q = edge_heap g !! q -> (forall i p, at_ (nodes_ g) i = Some p -> at_ (nodes_ g') i = Some p) -> edge_rel g' j q e.
Proof. intros (s & d & He & Hs & Hd) Hh Hat. exists s, d. rewrite Hh. auto. Qed.
Lemma same_counts (h : gmap Z (Properties * Z)) : forall r w k, h !! r = Some (w, k) -> exists k', h !! r = Some (w, k').
Proof. eauto. Qed.
Lemma rep_ext x y g a : rep_with x g a -> (forall r, x r = y r) -> rep_with y g a.
Proof. intros [] Hxy. split; try done. intros r v k Hr. rewrite <- Hxy. eauto. Qed.
(** References do not change unless the nodes do. *)
Lemma user_frame g g' r i : (forall j p, at_ (nodes_ g) j = Some p -> at_ (nodes_ g') j = Some p /\ node_heap g' !! p = node_heap g !! p) ->
  (forall j p, at_ (nodes_ g') j = Some p -> at_ (nodes_ g) j = Some p) -> user g' r i <-> user g r i.
Proof.
  intros H1 H2. split.
  - intros (p & n & Hp & Hn & Hr). apply H2 in Hp. exists p, n. rewrite <- (proj2 (H1 _ _ Hp)). done.
  - intros (p & n & Hp & Hn & Hr). destruct (H1 _ _ Hp) as [Hp' Hh]. exists p, n. by rewrite Hh.
Qed.

(** ** Memory for a node *)

Definition spare g p : Prop := p <> 0 /\ node_heap g !! p = Some new_Node /\ p ∉ free_nodes_ g.

Lemma removelast_last {A} (l : list A) p : last l = Some p -> l = removelast l ++ [p].
Proof. intros [l' ->]%last_Some. by rewrite removelast_last. Qed.
Lemma take_free_rep x g a p : rep_with x g a -> last (free_nodes_ g) = Some p ->
  let g' := with_free_nodes (removelast (free_nodes_ g)) g in rep_with x g' a /\ spare g' p.
Proof.
  intros H Hl. apply removelast_last in Hl. destruct (r_free_n _ _ _ _ H) as [Hnd Hfree]. rewrite Hl in Hnd, Hfree. apply NoDup_app in Hnd as (Hnd & Hni & _).
  destruct (Hfree p ltac:(set_solver)) as [Hp0 Hp]. split.
  - destruct H. split; try done. split; [done|]. intros p' Hp'. apply Hfree. set_solver.
  - split; [done|]. split; [done|]. cbn. intros Hin. apply (Hni p Hin). set_solver.
Qed.
Lemma alloc_node_rep x g a : rep_with x g a ->
  let g' := with_node_heap <[addr (allocated g) := new_Node]> (with_allocated (S (allocated g)) g) in rep_with x g' a /\ spare g' (addr (allocated g)).
Proof.
  intros H g'. pose proof (alloc_fresh H) as Hf. set (p := addr (allocated g)) in *.
  assert (Hold : forall p', is_Some (node_heap g !! p') -> node_heap g' !! p' = node_heap g !! p').
  { intros p' Hp'. cbn. apply lookup_insert_ne. intros <-. apply Hf. by left. }
  assert (Hlive : forall i p', at_ (nodes_ g) i = Some p' -> node_heap g' !! p' = node_heap g !! p').
  { intros i p' (v & _ & n & k & Hn & _)%(rep_live H). apply Hold. by eexists. }
  split.
  - pose proof H as []. split; try done.
    + intros i. eapply opt2_mono; [apply r_nodes0|]. intros p' v Hp' _ Hr. by eapply node_rel_frame; [exact Hr|eapply Hlive|apply same_counts| |].
    + split; [apply r_free_n0|]. intros p' Hp'. destruct (proj2 r_free_n0 p' Hp') as [? Hn]. split; [done|]. by rewrite Hold by (by eexists).
    + intros p' Hp'. destruct (decide (p' = p)) as [->|Hne]; [exists (allocated g); cbn; split; [lia|done]|]. destruct (r_fresh0 p') as (k & Hk & ->); [|exists k; cbn; split; [lia|done]].
      destruct Hp' as [Hp'|Hp']; [left|by right]. cbn in Hp'. by rewrite lookup_insert_ne in Hp'.
    + intros r v k Hr. destruct (r_refs0 r v k Hr) as (Hk & S & HS & HiS). split; [done|]. exists S. split; [done|]. intros i. rewrite HiS. symmetry. apply user_frame; [|done]. intros j p' Hj. split; [done|]. by eapply Hlive.
  - split; [by apply addr_nonnull|]. split; [cbn; apply lookup_insert_eq|]. cbn. intros Hin. apply Hf. left. destruct (proj2 (r_free_n _ _ _ _ H) _ Hin) as [_ ->]. by eexists.
Qed.

(** ** The properties *)

Definition bump (x : Z -> Z) (r d : Z) : Z -> Z := fun r' => if decide (r' = r) then x r' + d else x r'.
Lemma new_props_rep x g a (v : Properties) : rep_with x g a -> x (addr (allocated g)) = 0 ->
  let r := addr (allocated g) in let g' := with_props_heap <[r := (v, 1)]> (with_allocated (S (allocated g)) g) in rep_with (bump x r 1) g' a.
Proof.
  intros H Hx r g'. pose proof (alloc_fresh H) as Hf. fold r in Hf, Hx.
  assert (Hold : forall r', is_Some (props_heap g !! r') -> props_heap g' !! r' = props_heap g !! r').
  { intros r' Hr'. cbn. apply lookup_insert_ne. intros <-. apply Hf. right. by right. }
  pose proof H as []. split; try done.
  - intros i. eapply opt2_mono; [apply r_nodes0|]. intros p' v' Hp' _ Hr. eapply node_rel_frame; [exact Hr|done| |done|done]. intros r' w k Hw. exists k. by rewrite Hold by (by eexists).
  - intros p' Hp'. destruct (decide (p' = r)) as [->|Hne]; [exists (allocated g); cbn; split; [lia|done]|]. destruct (r_fresh0 p') as (k & Hk & ->); [|exists k; cbn; split; [lia|done]].
    destruct Hp' as [Hp'|[Hp'|Hp']]; [by left|by right; left|right; right]. cbn in Hp'. by rewrite lookup_insert_ne in Hp'.
  - intros r' w k. cbn. unfold bump. destruct (decide (r' = r)) as [->|Hne].
    + rewrite lookup_insert_eq. intros [= <- <-]. split; [lia|]. exists ∅. split; [rewrite size_empty; lia|]. intros i. split; [set_solver|]. intros (p & n & Hp & Hn & Hr). apply (rep_live H) in Hp as (v' & _ & n' & k & Hn' & Hps & _).
      cbn in Hn. rewrite Hn in Hn'. injection Hn' as <-. rewrite Hr in Hps. exfalso. apply Hf. right. right. by eexists.
    + rewrite lookup_insert_ne by done. apply r_refs0.
Qed.

Lemma count_rep x g a r (v : Properties) k k' : rep_with x g a -> props_heap g !! r = Some (v, k) -> 0 < k' ->
  rep_with (bump x r (k' - k)) (with_props_heap <[r := (v, k')]> g) a.
Proof.
  intros H Hr Hk'. pose proof H as []. split; try done.
  - intros i. eapply opt2_mono; [apply r_nodes0|]. intros p w _ _ Hn. eapply node_rel_frame; [exact Hn|done| |done|done].
    intros r' w' l Hr'. cbn. destruct (decide (r = r')) as [->|Hne]; [rewrite lookup_insert_eq, Hr in *|rewrite lookup_insert_ne by done; eauto]. injection Hr' as <- <-. eauto.
  - intros p Hp. apply r_fresh0. destruct Hp as [Hp|[Hp|Hp]]; [by left|by right; left|right; right]. cbn in Hp. destruct (decide (r = p)) as [->|Hne]; [by eexists|by rewrite lookup_insert_ne in Hp].
  - intros r' w l. cbn. unfold bump. destruct (decide (r' = r)) as [->|Hne].
    + rewrite lookup_insert_eq. intros [= <- <-]. split; [done|]. destruct (r_refs0 r v k Hr) as (_ & S & HS & HiS). exists S. split; [lia|done].
    + rewrite lookup_insert_ne by done. apply r_refs0.
Qed.
Lemma last_unref_rep x g a r (v : Properties) : rep_with x g a -> props_heap g !! r = Some (v, 1) -> 0 < x r ->
  rep_with (bump x r (-1)) (with_props_heap (delete r) g) a.
Proof.
  intros H Hr Hx. pose proof H as []. destruct (r_refs0 r v 1 Hr) as (_ & S & HS & HiS). assert (S = ∅) as -> by (apply leibniz_equiv, size_empty_iff; lia).
  split; try done.
  - intros i. eapply opt2_mono; [apply r_nodes0|]. intros p w Hp _ (n & k & Hn & Hps & Hrest). exists n, k. split; [done|]. split; [|done]. cbn. rewrite lookup_delete_ne; [done|].
    intros Heq. assert (Hi : i ∈ (∅ : gset Z)) by (apply HiS; by exists p, n). set_solver.
  - intros p Hp. apply r_fresh0. destruct Hp as [Hp|[Hp|Hp]]; [by left|by right; left|right; right]. cbn in Hp. destruct (decide (r = p)) as [->|Hne]; [by eexists|by rewrite lookup_delete_ne in Hp].
  - intros r' w l. cbn. unfold bump. intros Hl. apply lookup_delete_Some in Hl as [Hne Hl]. rewrite decide_False by congruence. eauto.
Qed.
Definition dropped (r : Z) (v : Properties) (k : Z) : gmap Z (Properties * Z) -> gmap Z (Properties * Z) := if k =? 1 then delete r else <[r := (v, k - 1)]>.
Lemma unref_rep x g a r (v : Properties) k : rep_with x g a -> props_heap g !! r = Some (v, k) -> 0 < x r -> rep_with (bump x r (-1)) (with_props_heap (dropped r v k) g) a.
Proof.
  intros H Hr Hx. destruct (r_refs _ _ _ _ H r v k Hr) as (Hk & _). unfold dropped. destruct (Z.eqb_spec k 1) as [->|Hk1]; [by eapply last_unref_rep|].
  replace (-1) with (k - 1 - k) by lia. apply count_rep; [done|done|lia].
Qed.
Lemma wp_Unref r (v : Properties) k g Q : props_heap g !! r = Some (v, k) -> Q tt (with_props_heap (dropped r v k) g) -> wp (Unref r) g Q.
Proof.
  intros Hr HQ. unfold Unref. wp_step. wp_step. wp_step. eapply wp_opt; [exact Hr|]. unfold dropped in HQ. cbv beta iota. destruct (k =? 1); by apply wp_modify.
Qed.
Lemma wp_Ref r (v : Properties) k g (Q : unit -> Graph -> Prop) : props_heap g !! r = Some (v, k) -> Q tt (with_props_heap <[r := (v, k + 1)]> g) -> wp (Ref r) g Q.
Proof. intros Hr HQ. unfold Ref. wp_step. wp_step. wp_step. eapply wp_opt; [exact Hr|]. by apply wp_modify. Qed.
Lemma wp_new_Properties (v : Properties) g (Q : Z -> Graph -> Prop) : 
  Q (addr (allocated g)) (with_props_heap <[addr (allocated g) := (v, 1)]> (with_allocated (S (allocated g)) g)) -> wp (new_Properties addr v) g Q.
Proof. done. Qed.

(** ** A node comes and goes *)

Lemma size_bound x g a : rep_with x g a -> Z.of_nat (size (a_nodes a)) <= a_next_node a.
Proof.
  intros H. rewrite <- size_dom. assert (Hs : dom (a_nodes a) ⊆ list_to_set (seqZ 0 (a_next_node a))).
  { intros i [v Hv]%elem_of_dom. apply (node_range H) in Hv. rewrite elem_of_list_to_set, elem_of_seqZ. lia. }
  apply subseteq_size in Hs. rewrite size_list_to_set in Hs by apply NoDup_seqZ. rewrite length_seqZ in Hs. assert (0 <= a_next_node a) by (rewrite <- (r_len_n _ _ _ _ H); unfold zlength; lia). lia.
Qed.
Lemma incident_none x g a f i : rep_with x g a -> (forall j e, a_edges a !! j = Some e -> f e <> i) -> incident (edges_ g) (a_edges a) f i EdgeSet.new_EdgeSet.
Proof.
  intros H Hno. split; [apply EdgeSet.new_ok|]. intros q. split; [by intros ?%elem_of_nil|]. intros (j & e & _ & He & Hf). by destruct (Hno j e He).
Qed.
Lemma install_rep x g a p r (v : Properties) k c cost dev : rep_with x g a -> spare g p -> props_heap g !! r = Some (v, k) -> r <> 0 -> node_class (def_op (node_def_ v)) = Some c ->
  let g' := with_nodes (nodes_ g ++ [p]) (num_nodes_ g + 1) (with_node_heap <[p := mkNode (a_next_node a) cost c EdgeSet.new_EdgeSet EdgeSet.new_EdgeSet r dev]> g) in
  rep_with (bump x r (-1)) g' (add_node (mkANode v cost dev) a).
Proof.
  intros H (Hp0 & Hpn & Hpf) Hr Hr0 Hc g'. pose proof H as []. pose proof (next_node_fresh H) as Hfresh.
  assert (Hlen : zlength (nodes_ g) = a_next_node a) by done.
  assert (Hnl : forall i p', at_ (nodes_ g) i = Some p' -> p' <> p).
  { intros i p' Hp' ->. pose proof (at_range _ _ _ Hp'). apply (rep_live H) in Hp' as (w & _ & n & l & Hn & _ & _ & Hid & _). rewrite Hpn in Hn. injection Hn as <-. cbn in Hid. lia. }
  assert (Hat : forall i, at_ (nodes_ g') i = if decide (i = a_next_node a) then Some p else at_ (nodes_ g) i) by (intros i; cbn; rewrite at_app by done; by rewrite Hlen).
  assert (Hmono : forall i p', at_ (nodes_ g) i = Some p' -> at_ (nodes_ g') i = Some p' /\ node_heap g' !! p' = node_heap g !! p').
  { intros i p' Hp'. rewrite Hat, decide_False by (apply at_range in Hp'; lia). split; [done|]. cbn. apply lookup_insert_ne. intros <-. by eapply Hnl. }
  assert (Hnew : node_heap g' !! p = Some (mkNode (a_next_node a) cost c EdgeSet.new_EdgeSet EdgeSet.new_EdgeSet r dev)) by apply lookup_insert_eq.
  assert (Huser : forall r' i, user g' r' i <-> user g r' i \/ r' = r /\ i = a_next_node a).
  { intros r' i. split.
    - intros (p' & n & Hp' & Hn & Hps). rewrite Hat in Hp'. case_decide as Hi.
      + injection Hp' as <-. rewrite Hnew in Hn. injection Hn as <-. by right.
      + left. exists p', n. by rewrite <- (proj2 (Hmono _ _ Hp')).
    - intros [(p' & n & Hp' & Hn & Hps)|[-> ->]].
      + destruct (Hmono _ _ Hp') as [? Hh]. exists p', n. by rewrite Hh.
      + exists p. eexists. split; [by rewrite Hat, decide_True|]. by split. }
  split; try done.
  - cbn. rewrite zlength_app. unfold zlength at 2. cbn. lia.
  - intros i. rewrite Hat. cbn [a_nodes add_node]. case_decide as Hi.
    + subst i. rewrite lookup_insert_eq. constructor. eexists _, k. split; [exact Hnew|]. do 6 (split; [done|]). cbn.
      split; eapply incident_none; try done; intros j e [[w Hw] [w' Hw']]%(edge_ends H) Heq; rewrite Heq in *; congruence.
    + rewrite lookup_insert_ne by done. eapply opt2_mono; [apply r_nodes0|]. intros p' w Hp' _ Hn. eapply node_rel_frame; [exact Hn|by eapply Hmono|apply same_counts|done|done].
  - intros j. eapply opt2_mono; [apply r_edges0|]. intros q e _ _ He. eapply edge_rel_frame; [exact He|done|]. intros i p' Hp'. by apply Hmono.
  - cbn. rewrite map_size_insert_None by done. lia.
  - split; [apply r_free_n0|]. intros p' Hp'. destruct (proj2 r_free_n0 p' Hp') as [? Hn]. split; [done|]. cbn. rewrite lookup_insert_ne; [done|]. by intros <-.
  - intros p' Hp'. destruct (decide (p' = p)) as [->|Hne]; [apply r_fresh0; left; by eexists|]. apply r_fresh0. destruct Hp' as [Hp'|Hp']; [left|by right]. cbn in Hp'. by rewrite lookup_insert_ne in Hp'.
  - intros r' w l Hw. destruct (r_refs0 r' w l Hw) as (Hl & S & HS & HiS). split; [done|]. unfold bump. case_decide as Hr'.
    + subst r'. exists ({[a_next_node a]} ∪ S). split.
      * rewrite size_union, size_singleton; [lia|]. intros i Hi1%elem_of_singleton Hi2. subst i. apply HiS in Hi2 as (p' & n & Hp' & _). apply at_range in Hp'. lia.
      * intros i. rewrite Huser, elem_of_union, elem_of_singleton, HiS. tauto.
    + exists S. split; [done|]. intros i. rewrite Huser, HiS. tauto.
Qed.

Lemma user_num x g a r (v : Properties) k i : rep_with x g a -> props_heap g !! r = Some (v, k) -> user g r i ->
  exists S : gset Z, k = Z.of_nat (size S) + 1 + x r /\ (i ∉ S) /\ forall j, j ∈ S <-> user g r j /\ j <> i.
Proof.
  intros H Hr Hu. destruct (r_refs _ _ _ _ H r v k Hr) as (_ & S & HS & HiS). exists (S ∖ {[i]}). apply HiS in Hu.
  rewrite size_difference by set_solver. rewrite size_singleton. assert (size S <> 0)%nat by (intros H0%size_empty_iff; set_solver).
  split; [lia|]. split; [set_solver|]. intros j. rewrite <- HiS. set_solver.
Qed.
Lemma detach_rep x g a i p n : rep_with x g a -> at_ (nodes_ g) i = Some p -> node_heap g !! p = Some n ->
  (forall j e, a_edges a !! j = Some e -> e_src e <> i /\ e_dst e <> i) ->
  let g' := with_nodes (zinsert (nodes_ g) i 0) (num_nodes_ g - 1) g in
  rep_with (bump x (props_ n) 1) g' (mkAGraph (delete i (a_nodes a)) (a_next_node a) (a_edges a) (a_next_edge a) (a_names a)).
Proof.
  intros H Hp Hn Hno g'. pose proof H as []. destruct (rep_live H _ _ Hp) as (v & Hv & n' & k & Hn' & Hps & _). rewrite Hn in Hn'. injection Hn' as <-.
  assert (Hat : forall j, at_ (nodes_ g') j = if decide (j = i) then None else at_ (nodes_ g) j) by (intros j; apply at_null).
  assert (Huser : forall r j, user g' r j <-> user g r j /\ j <> i).
  { intros r j. split.
    - intros (p' & m & Hp' & Hm). rewrite Hat in Hp'. case_decide; [done|]. split; [by exists p', m|done].
    - intros [(p' & m & Hp' & Hm) Hji]. exists p', m. by rewrite Hat, decide_False. }
  split; try done.
  - cbn. by rewrite zinsert_length.
  - intros j. rewrite Hat. cbn [a_nodes]. case_decide as Hj; [subst j; rewrite lookup_delete_eq; constructor|]. rewrite lookup_delete_ne by done.
    eapply opt2_mono; [apply r_nodes0|]. intros p' w _ _ Hw. by eapply node_rel_frame; [exact Hw| |apply same_counts| |].
  - intros j. eapply opt2_mono; [apply r_edges0|]. intros q e _ He (s & d & Hq & Hs & Hd). destruct (Hno _ _ He). exists s, d. by rewrite !Hat, !decide_False.
  - cbn. assert (Hsz := map_size_delete_Some i (a_nodes a) (mk_is_Some _ _ Hv)). assert (size (a_nodes a) <> 0)%nat by (intros H0%map_size_empty_inv; by rewrite H0, lookup_empty in Hv). lia.
  - intros r w l Hw. unfold bump. case_decide as Hr.
    + subst r. destruct (r_refs0 _ _ _ Hw) as (Hl & _). split; [done|]. destruct (user_num x g a _ _ _ i H Hw) as (S & HS & HiS & HjS); [by exists p, n|]. exists S. split; [lia|]. intros j. by rewrite Huser, HjS.
    + destruct (r_refs0 _ _ _ Hw) as (Hl & S & HS & HiS). split; [done|]. exists S. split; [done|]. intros j. rewrite Huser, HiS. split; [|tauto]. intros Hu. split; [done|]. intros ->. destruct Hu as (p' & m & Hp' & Hm & Hrm). rewrite Hp in Hp'. injection Hp' as <-. rewrite Hn in Hm. by injection Hm as <-.
Qed.
Lemma recycle_rep x g a p : rep_with x g a -> (forall i, at_ (nodes_ g) i <> Some p) -> p <> 0 -> p ∉ free_nodes_ g -> is_Some (node_heap g !! p) ->
  rep_with x (with_free_nodes (free_nodes_ g ++ [p]) (with_node_heap <[p := new_Node]> g)) a.
Proof.
  intros H Hnl Hp0 Hpf Hpn. pose proof H as []. set (g' := with_free_nodes _ _).
  assert (Hold : forall p', p' <> p -> node_heap g' !! p' = node_heap g !! p') by (intros p' Hp'; cbn; by apply lookup_insert_ne).
  split; try done.
  - intros i. eapply opt2_mono; [apply r_nodes0|]. intros p' w Hp' _ Hw. eapply node_rel_frame; [exact Hw| |apply same_counts|done|done]. apply Hold. intros ->. by eapply Hnl.
  - split.
    + cbn. apply NoDup_app. split; [apply r_free_n0|]. split; [|apply NoDup_singleton]. intros p' Hp' ->%list_elem_of_singleton. done.
    + intros p'. cbn [g' free_nodes_ with_free_nodes]. rewrite elem_of_app, list_elem_of_singleton. intros [Hp'| ->].
      * destruct (proj2 r_free_n0 _ Hp') as [? Hn]. split; [done|]. rewrite Hold; [done|]. by intros ->.
      * split; [done|]. apply lookup_insert_eq.
  - intros p' Hp'. apply r_fresh0. destruct Hp' as [Hp'|Hp']; [left|by right]. destruct (decide (p' = p)) as [->|Hne]; [done|]. by rewrite Hold in Hp'.
  - intros r v k Hr. destruct (r_refs0 r v k Hr) as (Hk & S & HS & HiS). split; [done|]. exists S. split; [done|]. intros i. rewrite HiS. symmetry. apply user_frame; [|done]. intros j p' Hj. split; [done|]. apply Hold. intros ->. by eapply Hnl.
Qed.

(** ** An edge comes and goes *)

Definition relinked (s d : Z) (f : EdgeSet.EdgeSet -> EdgeSet.EdgeSet) (p : Z) (m : Node) : Node :=
  mkNode (id_ m) (cost_id_ m) (class_ m) (if decide (p = d) then f (in_edges_ m) else in_edges_ m) (if decide (p = s) then f (out_edges_ m) else out_edges_ m) (props_ m) (assigned_device_name_ m).
Definition relink (s d : Z) f (h h' : gmap Z Node) : Prop := forall p, h' !! p = relinked s d f p <$> h !! p.
Lemma relink_steps (h : gmap Z Node) s d f n m : h !! s = Some n -> <[s := set_out_edges (f (out_edges_ n)) n]> h !! d = Some m ->
  relink s d f h (<[d := set_in_edges (f (in_edges_ m)) m]> (<[s := set_out_edges (f (out_edges_ n)) n]> h)).
Proof.
  intros Hn Hm p. destruct (decide (p = d)) as [->|Hpd].
  - rewrite lookup_insert_eq. destruct (decide (d = s)) as [->|Hds].
    + rewrite lookup_insert_eq in Hm. injection Hm as <-. rewrite Hn. cbn. unfold relinked. by rewrite !decide_True.
    + rewrite lookup_insert_ne in Hm by done. rewrite Hm. cbn. unfold relinked. by rewrite decide_True, decide_False.
  - rewrite lookup_insert_ne by done. destruct (decide (p = s)) as [->|Hps].
    + rewrite lookup_insert_eq, Hn. cbn. unfold relinked. by rewrite decide_False, decide_True.
    + rewrite lookup_insert_ne by done. destruct (h !! p) as [k|]; [|done]. cbn. unfold relinked. rewrite !decide_False by done. by destruct k.
Qed.
Lemma incident_link E (m : gmap Z AEdge) f i s q e J : incident E m f i s -> q <> 0 -> (forall j, at_ E j <> Some q) -> J = zlength E -> m !! J = None ->
  incident (E ++ [q]) (<[J := e]> m) f i (if decide (f e = i) then (EdgeSet.insert q s).1 else s).
Proof.
  intros [Hs Hin] Hq Hno HJ HmJ. destruct (EdgeSet.insert_spec q s Hs Hq) as (Hs' & _ & Hel).
  assert (Hiff : forall q', (exists j e', at_ (E ++ [q]) j = Some q' /\ <[J := e]> m !! j = Some e' /\ f e' = i) <-> q' ∈ EdgeSet.elements s \/ q' = q /\ f e = i).
  { intros q'. rewrite Hin. split.
    - intros (j & e' & Hj & He' & Hf). rewrite at_app in Hj by done. rewrite <- HJ in Hj. case_decide as Hd.
      + subst j. rewrite lookup_insert_eq in He'. injection He' as <-. injection Hj as <-. by right.
      + rewrite lookup_insert_ne in He' by done. left. eauto.
    - intros [(j & e' & Hj & He' & Hf)|[-> Hf]].
      + exists j, e'. rewrite at_app, decide_False by (done || apply at_range in Hj; lia). rewrite lookup_insert_ne; [done|]. apply at_range in Hj. lia.
      + exists J, e. rewrite at_app, decide_True by done. by rewrite lookup_insert_eq. }
  assert (Hq' : q ∉ EdgeSet.elements s) by (intros (j & e' & Hj & _)%Hin; by eapply Hno).
  destruct (EdgeSet.insert_spec q s Hs Hq) as (_ & Hb & _). rewrite bool_decide_eq_false_2 in Hb by done. rewrite Hb in Hel. cbn [negb] in Hel.
  split; [by case_decide|]. intros q'. rewrite Hiff. case_decide as Hf; [|naive_solver]. rewrite Hel, elem_of_cons. naive_solver.
Qed.
Lemma incident_unlink E (m : gmap Z AEdge) f i s q e J : incident E m f i s -> q <> 0 -> at_ E J = Some q -> (forall j, at_ E j = Some q -> j = J) -> m !! J = Some e ->
  incident (zinsert E J 0) (delete J m) f i (if decide (f e = i) then (EdgeSet.erase q s).1 else s) /\ (f e = i -> (EdgeSet.erase q s).2 = 1).
Proof.
  intros [Hs Hin] Hq HJ Huniq HmJ. destruct (EdgeSet.erase_spec q s Hs Hq) as (Hs' & Hel). destruct (EdgeSet.set_ok_nodup s Hs) as [Hnd _].
  assert (Hq' : q ∈ EdgeSet.elements s <-> f e = i).
  { rewrite Hin. split; [intros (j & e' & Hj & He' & Hf)|intros Hf; by exists J, e]. rewrite (Huniq j Hj), HmJ in He'. by injection He' as <-. }
  assert (Hiff : forall q', (exists j e', at_ (zinsert E J 0) j = Some q' /\ delete J m !! j = Some e' /\ f e' = i) <-> q' ∈ EdgeSet.elements s /\ q' <> q).
  { intros q'. rewrite Hin. split.
    - intros (j & e' & Hj & He' & Hf). rewrite at_null in Hj. case_decide as Hd; [done|]. rewrite lookup_delete_ne in He' by done. split; [eauto|]. intros ->. by apply Hd, Huniq.
    - intros [(j & e' & Hj & He' & Hf) Hne]. assert (j <> J) by congruence. exists j, e'. by rewrite at_null, decide_False, lookup_delete_ne. }
  destruct (decide (f e = i)) as [Hf|Hf].
  - rewrite bool_decide_eq_true_2 in Hel by (by apply Hq'). destruct Hel as [-> Hel]. split; [|done]. split; [done|]. intros q'. rewrite Hiff. rewrite Hel in Hnd |- *. apply NoDup_cons in Hnd as [Hni _]. rewrite elem_of_cons. naive_solver.
  - split; [|done]. split; [done|]. intros q'. rewrite Hiff. naive_solver.
Qed.

Lemma relink_node s d f h h' p m : relink s d f h h' -> h !! p = Some m -> h' !! p = Some (relinked s d f p m).
Proof. intros Hr Hm. by rewrite Hr, Hm. Qed.
Lemma relink_other s d f h h' p : relink s d f h h' -> p <> s -> p <> d -> h' !! p = h !! p.
Proof. intros Hr Hs Hd. rewrite Hr. destruct (h !! p) as [m|]; [|done]. cbn. unfold relinked. rewrite !decide_False by done. by destruct m. Qed.
Lemma relink_user g s d f h' l r i g' : relink s d f (node_heap g) h' -> node_heap g' = h' -> nodes_ g' = nodes_ g -> l = g' -> user g' r i <-> user g r i.
Proof.
  intros Hr Hh Hn ->. unfold user. rewrite Hh, Hn. split.
  - intros (p & n & Hp & Hm & Hps). rewrite Hr in Hm. destruct (node_heap g !! p) as [m|] eqn:E; [|done]. injection Hm as <-. by exists p, m.
  - intros (p & n & Hp & Hm & Hps). exists p, (relinked s d f p n). by rewrite (relink_node _ _ _ _ _ _ _ Hr Hm).
Qed.
(** The node [i] is at [p], and is one of the ends just when its address is. *)
Lemma end_addr x g a i j p q : rep_with x g a -> at_ (nodes_ g) i = Some p -> at_ (nodes_ g) j = Some q -> p = q <-> j = i.
Proof. intros H Hi Hj. split; [intros ->; by eapply (live_inj H)|intros ->; congruence]. Qed.
Lemma link_rep x g a i k s d q h' cx cy : rep_with x g a -> at_ (nodes_ g) i = Some s -> at_ (nodes_ g) k = Some d -> q <> 0 ->
  (forall j, at_ (edges_ g) j <> Some q) -> q ∉ free_edges_ g -> (exists l, (l < allocated g)%nat /\ q = addr l) ->
  relink s d (fun es => (EdgeSet.insert q es).1) (node_heap g) h' ->
  let g' := with_edges (edges_ g ++ [q]) (EdgeSet.insert q (edge_set_ g)).1 (with_node_heap (fun _ => h') (with_edge_heap <[q := mkEdge s d (a_next_edge a) cx cy]> g)) in
  rep_with x g' (add_edge (mkAEdge i cx k cy) a).
Proof.
  intros H Hs Hd Hq0 Hq Hqf Hqa Hrel g'. pose proof H as []. pose proof (next_edge_fresh H) as Hfresh. set (e := mkAEdge i cx k cy).
  assert (Hat : forall j, at_ (edges_ g') j = if decide (j = a_next_edge a) then Some q else at_ (edges_ g) j) by (intros j; cbn; rewrite at_app by done; by rewrite r_len_e0).
  assert (Hqs : q ∉ EdgeSet.elements (edge_set_ g)) by (intros [j Hj]%r_set_in0; by eapply Hq).
  destruct (EdgeSet.insert_spec q (edge_set_ g) r_set0 Hq0) as (Hset & Hb & Hel). rewrite bool_decide_eq_false_2 in Hb by done. rewrite Hb in Hel. cbn [negb] in Hel.
  split; try done.
  - cbn. rewrite zlength_app. unfold zlength at 2. cbn. lia.
  - intros j. eapply opt2_mono; [apply r_nodes0|]. intros p w Hp _ (n & l & Hn & Hps & H1 & H2 & H3 & H4 & H5 & Hin & Hout).
    exists (relinked s d (fun es => (EdgeSet.insert q es).1) p n), l. split; [by eapply relink_node|]. do 6 (split; [done|]). cbn [a_edges add_edge edges_ g' with_edges in_edges_ out_edges_ relinked].
    split.
    + pose proof (incident_link _ _ _ _ _ q e (a_next_edge a) Hin Hq0 Hq (eq_sym r_len_e0) Hfresh) as Hi. pose proof (end_addr _ _ _ _ _ _ _ H Hp Hd). cbn in Hi. by rewrite (decide_ext (k = j) (p = d)) in Hi by naive_solver.
    + pose proof (incident_link _ _ _ _ _ q e (a_next_edge a) Hout Hq0 Hq (eq_sym r_len_e0) Hfresh) as Hi. pose proof (end_addr _ _ _ _ _ _ _ H Hp Hs). cbn in Hi. by rewrite (decide_ext (i = j) (p = s)) in Hi by naive_solver.
  - intros j. rewrite Hat. cbn [a_edges add_edge]. case_decide as Hj.
    + subst j. rewrite lookup_insert_eq. constructor. exists s, d. split; [cbn; by rewrite lookup_insert_eq|done].
    + rewrite lookup_insert_ne by done. eapply opt2_mono; [apply r_edges0|]. intros q' e' Hq' _ He'. eapply edge_rel_frame; [exact He'| |done]. cbn. apply lookup_insert_ne. intros <-. by eapply Hq.
  - intros q'. cbn [edge_set_ g' with_edges]. rewrite Hel, elem_of_cons, r_set_in0. split.
    + intros [->|[j Hj]]; [exists (a_next_edge a); by rewrite Hat, decide_True|]. exists j. rewrite Hat, decide_False; [done|]. apply at_range in Hj. lia.
    + intros [j Hj]. rewrite Hat in Hj. case_decide; [injection Hj as <-; by left|right; eauto].
  - cbn [edge_set_ g' with_edges a_edges add_edge]. rewrite map_size_insert_None by done. unfold zlength in *. rewrite Hel. cbn [length]. lia.
  - split; [apply r_free_n0|]. intros p Hp. destruct (proj2 r_free_n0 p Hp) as [Hp0 Hn]. split; [done|]. cbn. rewrite (relink_other _ _ _ _ _ _ Hrel); [done|intros ->; by eapply (free_not_live H)|intros ->; by eapply (free_not_live H)].
  - split; [apply r_free_e0|]. intros q' Hq'. destruct (proj2 r_free_e0 q' Hq') as (? & e' & He' & Hid). split; [done|]. exists e'. split; [|done]. cbn. rewrite lookup_insert_ne; [done|]. by intros <-.
  - intros p [Hp|[Hp|Hp]].
    + apply r_fresh0. left. cbn in Hp. rewrite Hrel in Hp. destruct Hp as [m Hp]. destruct (node_heap g !! p); [by eexists|done].
    + cbn in Hp. destruct (decide (p = q)) as [->|Hne]; [done|]. rewrite lookup_insert_ne in Hp by done. apply r_fresh0. right. by left.
    + apply r_fresh0. right. by right.
  - intros r v l Hr. destruct (r_refs0 r v l Hr) as (Hl & S & HS & HiS). split; [done|]. exists S. split; [done|]. intros j. rewrite HiS. symmetry. by eapply relink_user.
Qed.
Lemma unlink_rep x g a J q e s d h' : rep_with x g a -> at_ (edges_ g) J = Some q -> a_edges a !! J = Some e ->
  at_ (nodes_ g) (e_src e) = Some s -> at_ (nodes_ g) (e_dst e) = Some d -> relink s d (fun es => (EdgeSet.erase q es).1) (node_heap g) h' ->
  let dead := mkEdge 0 0 (-1) (kControlSlot - 1) (kControlSlot - 1) in
  let g' := with_free_edges (free_edges_ g ++ [q]) (with_edge_heap <[q := dead]> (with_edges (zinsert (edges_ g) J 0) (EdgeSet.erase q (edge_set_ g)).1 (with_node_heap (fun _ => h') g))) in
  rep_with x g' (remove_edge J a).
Proof.
  intros H HJ He Hs Hd Hrel dead g'. pose proof H as []. pose proof (proj2 (proj1 (at_Some _ _ _) HJ)) as Hq0.
  assert (Huniq : forall j, at_ (edges_ g) j = Some q -> j = J) by (intros j Hj; by eapply (live_edge_inj H)).
  assert (Hat : forall j, at_ (edges_ g') j = if decide (j = J) then None else at_ (edges_ g) j) by (intros j; apply at_null).
  assert (Hqs : q ∈ EdgeSet.elements (edge_set_ g)) by (apply r_set_in0; eauto).
  destruct (EdgeSet.erase_spec q (edge_set_ g) r_set0 Hq0) as (Hset & Hel). rewrite bool_decide_eq_true_2 in Hel by done. destruct Hel as [_ Hel].
  destruct (EdgeSet.set_ok_nodup _ r_set0) as [Hnd _].
  split; try done.
  - cbn. by rewrite zinsert_length.
  - intros j. eapply opt2_mono; [apply r_nodes0|]. intros p w Hp _ (n & l & Hn & Hps & H1 & H2 & H3 & H4 & H5 & Hin & Hout).
    exists (relinked s d (fun es => (EdgeSet.erase q es).1) p n), l. split; [by eapply relink_node|]. do 6 (split; [done|]).
    cbn [a_edges remove_edge edges_ g' with_edges with_free_edges with_edge_heap in_edges_ out_edges_ relinked]. split.
    + destruct (incident_unlink _ _ _ _ _ q e J Hin Hq0 HJ Huniq He) as [Hi _]. pose proof (end_addr _ _ _ _ _ _ _ H Hp Hd). by rewrite (decide_ext (e_dst e = j) (p = d)) in Hi by naive_solver.
    + destruct (incident_unlink _ _ _ _ _ q e J Hout Hq0 HJ Huniq He) as [Hi _]. pose proof (end_addr _ _ _ _ _ _ _ H Hp Hs). by rewrite (decide_ext (e_src e = j) (p = s)) in Hi by naive_solver.
  - intros j. rewrite Hat. cbn [a_edges remove_edge]. case_decide as Hj; [subst j; rewrite lookup_delete_eq; constructor|]. rewrite lookup_delete_ne by done.
    eapply opt2_mono; [apply r_edges0|]. intros q' e' Hq' _ He'. eapply edge_rel_frame; [exact He'| |done]. cbn. apply lookup_insert_ne. intros <-. by apply Hj, Huniq.
  - intros q'. cbn [edge_set_ g' with_edges with_free_edges with_edge_heap]. transitivity (q' ∈ EdgeSet.elements (edge_set_ g) /\ q' <> q).
    + rewrite Hel in Hnd |- *. apply NoDup_cons in Hnd as [Hni _]. rewrite elem_of_cons. naive_solver.
    + rewrite r_set_in0. split.
      * intros [[j Hj] Hne]. exists j. rewrite Hat, decide_False; [done|]. intros ->. congruence.
      * intros [j Hj]. rewrite Hat in Hj. case_decide; [done|]. split; [eauto|]. intros ->. by apply H0, Huniq.
  - cbn [edge_set_ g' with_edges with_free_edges with_edge_heap a_edges remove_edge]. rewrite (map_size_delete_Some J (a_edges a)) by (by eexists). unfold zlength in *. apply Permutation_length in Hel. cbn [length] in Hel. lia.
  - split; [apply r_free_n0|]. intros p Hp. destruct (proj2 r_free_n0 p Hp) as [Hp0 Hn]. split; [done|]. cbn. rewrite (relink_other _ _ _ _ _ _ Hrel); [done|intros ->; by eapply (free_not_live H)|intros ->; by eapply (free_not_live H)].
  - cbn. split.
    + apply NoDup_app. split; [apply r_free_e0|]. split; [|apply NoDup_singleton]. intros q' Hq' ->%list_elem_of_singleton. by eapply (free_edge_not_live H).
    + intros q'. rewrite elem_of_app, list_elem_of_singleton. destruct (decide (q' = q)) as [->|Hne]; [intros _; split; [done|]; exists dead; by rewrite lookup_insert_eq|]. intros [Hq'|?]; [|done].
      destruct (proj2 r_free_e0 q' Hq') as (? & e' & He' & Hid). split; [done|]. exists e'. by rewrite lookup_insert_ne.
  - intros p [Hp|[Hp|Hp]]; apply r_fresh0.
    + left. cbn in Hp. rewrite Hrel in Hp. destruct Hp as [m Hp]. destruct (node_heap g !! p); [by eexists|done].
    + right. left. cbn in Hp. destruct (decide (p = q)) as [->|Hne]; [|by rewrite lookup_insert_ne in Hp]. destruct (rep_live_edge H _ _ HJ) as (e' & _ & s' & d' & He' & _). by eexists.
    + right. by right.
  - intros r v l Hr. destruct (r_refs0 r v l Hr) as (Hl & S & HS & HiS). split; [done|]. exists S. split; [done|]. intros j. rewrite HiS. symmetry. by eapply relink_user.
Qed.

(** ** A node's own fields *)

Lemma update_rep x g a i p n v v' r k d : rep_with x g a -> at_ (nodes_ g) i = Some p -> node_heap g !! p = Some n -> a_nodes a !! i = Some v ->
  props_heap g !! r = Some (a_props v', k) -> r <> 0 -> type_of v' = type_of v -> a_cost v' = a_cost v -> a_device v' = d ->
  let n' := mkNode (id_ n) (cost_id_ n) (class_ n) (in_edges_ n) (out_edges_ n) r d in
  rep_with (bump (bump x (props_ n) 1) r (-1)) (with_node_heap <[p := n']> g) (put_node i v' a).
Proof.
  intros H Hp Hn Hv Hr Hr0 Ht Hc Hd n'. set (g' := with_node_heap _ _). pose proof H as [].
  destruct (rep_live H _ _ Hp) as (w & Hw & m & l & Hm & Hps & H0 & Hid & Hcost & Hdev & Hcl & Hinc). rewrite Hn in Hm. injection Hm as <-. rewrite Hv in Hw. injection Hw as <-.
  assert (Hother : forall j p', at_ (nodes_ g) j = Some p' -> j <> i -> p' <> p) by (intros j p' Hj Hji ->; by eapply Hji, (live_inj H)).
  assert (Huser : forall r' j, user g' r' j <-> (j <> i /\ user g r' j) \/ (j = i /\ r' = r)).
  { intros r' j. split.
    - intros (p' & m & Hp' & Hm & Hrm). cbn in Hp', Hm. destruct (decide (j = i)) as [->|Hji].
      + rewrite Hp in Hp'. injection Hp' as <-. rewrite lookup_insert_eq in Hm. injection Hm as <-. by right.
      + left. split; [done|]. exists p', m. by rewrite lookup_insert_ne in Hm by (symmetry; by eapply Hother).
    - intros [[Hji (p' & m & Hp' & Hm & Hrm)]|[-> ->]].
      + exists p', m. cbn. by rewrite lookup_insert_ne by (symmetry; by eapply Hother).
      + exists p, n'. cbn. by rewrite lookup_insert_eq. }
  split; try done.
  - intros j. cbn [a_nodes put_node]. destruct (decide (i = j)) as [<-|Hij].
    + rewrite lookup_insert_eq. cbn. rewrite Hp. constructor. exists n', k. split; [cbn; by rewrite lookup_insert_eq|]. do 3 (split; [done|]). split; [cbn; congruence|]. split; [done|]. split; [by rewrite Ht|done].
    + rewrite lookup_insert_ne by done. eapply opt2_mono; [apply r_nodes0|]. intros p' w Hp' _ Hw. eapply node_rel_frame; [exact Hw| |apply same_counts|done|done]. cbn. rewrite lookup_insert_ne; [done|]. symmetry. by eapply Hother.
  - cbn. by rewrite map_size_insert_Some by (by eexists).
  - split; [apply r_free_n0|]. intros p' Hp'. destruct (proj2 r_free_n0 p' Hp') as [? Hn']. split; [done|]. cbn. rewrite lookup_insert_ne; [done|]. intros <-. by eapply (free_not_live H).
  - intros p' Hp'. apply r_fresh0. destruct Hp' as [Hp'|Hp']; [left|by right]. cbn in Hp'. destruct (decide (p' = p)) as [->|Hne]; [by eexists|by rewrite lookup_insert_ne in Hp'].
  - intros r' w l' Hl. assert (Hu : user g (props_ n) i) by (by exists p, n).
    destruct (r_refs0 r' w l' Hl) as (Hl' & S & HS & HiS). split; [done|]. exists (if decide (r' = r) then {[i]} ∪ S else S ∖ {[i]}).
    assert (HiS' : i ∈ S <-> r' = props_ n).
    { rewrite HiS. split; [|by intros ->]. intros (p' & m & Hp' & Hm & <-). rewrite Hp in Hp'. injection Hp' as <-. congruence. }
    split.
    + unfold bump. destruct (decide (r' = r)) as [->|Hr'], (decide (i ∈ S)) as [Hi|Hi].
      * rewrite (subseteq_union_1_L {[i]} S) by set_solver. rewrite decide_True by (by apply HiS'). lia.
      * rewrite size_union, size_singleton by set_solver. rewrite decide_False by tauto. lia.
      * rewrite size_difference, size_singleton by set_solver. rewrite decide_True by (by apply HiS'). assert (size S <> 0)%nat by (intros Hz%size_empty_iff; set_solver). lia.
      * rewrite decide_False by tauto. replace (S ∖ {[i]}) with S by set_solver. lia.
    + intros j. rewrite Huser, <- HiS. case_decide; [rewrite elem_of_union, elem_of_singleton|rewrite elem_of_difference, elem_of_singleton]; destruct (decide (j = i)); naive_solver.
Qed.
Lemma attr_rep x g a i p n v r k w : rep_with x g a -> at_ (nodes_ g) i = Some p -> node_heap g !! p = Some n -> a_nodes a !! i = Some v ->
  props_ n = r -> props_heap g !! r = Some (a_props v, k) -> (forall j, user g r j -> j = i) -> def_op (node_def_ w) = type_of v ->
  rep_with x (with_props_heap <[r := (w, k)]> g) (put_node i (mkANode w (a_cost v) (a_device v)) a).
Proof.
  intros H Hp Hn Hv Hr Hps Honly Ht. set (g' := with_props_heap _ _). pose proof H as [].
  destruct (rep_live H _ _ Hp) as (w' & Hw' & m & l & Hm & _ & H0 & Hid & Hcost & Hdev & Hcl & Hinc). rewrite Hn in Hm. injection Hm as <-. rewrite Hv in Hw'. injection Hw' as <-.
  split; try done.
  - intros j. cbn [a_nodes put_node]. destruct (decide (i = j)) as [<-|Hij].
    + rewrite lookup_insert_eq. cbn. rewrite Hp. constructor. exists n, k. split; [done|]. split; [cbn; by rewrite Hr, lookup_insert_eq|]. do 4 (split; [done|]). split; [|done]. rewrite <- Hcl. unfold type_of at 1. by rewrite <- Ht.
    + rewrite lookup_insert_ne by done. eapply opt2_mono; [apply r_nodes0|]. intros p' w' Hp' _ (m & l' & Hm & Hpm & Hrest). exists m, l'. split; [done|]. split; [|done]. cbn. rewrite lookup_insert_ne; [done|].
      intros Heq. apply Hij. symmetry. apply Honly. by exists p', m.
  - cbn. by rewrite map_size_insert_Some by (by eexists).
  - intros p' Hp'. apply r_fresh0. destruct Hp' as [Hp'|[Hp'|Hp']]; [by left|by right; left|right; right]. cbn in Hp'. destruct (decide (p' = r)) as [->|Hne]; [by eexists|by rewrite lookup_insert_ne in Hp'].
  - intros r' w' l'. cbn. destruct (decide (r' = r)) as [->|Hne]; [rewrite lookup_insert_eq|rewrite lookup_insert_ne by done]; [|apply r_refs0]. intros [= <- <-]. by apply (r_refs0 r (a_props v) k).
Qed.
End Facts.
End GraphFacts.
