(* ===== verification/GraphOps.v ===== *)
(** * Graphs: the operations and sequences of them

    The total correctness of each operation against the abstract graphs.

    Clients name nodes and edges by their ids. Every sequence of legal calls on
    a new graph runs, without failing an assertion, as it does on the abstract
    graph. *)
From S2P Require Import Prelude Status Numbers EdgeSet Graph GraphFacts.
From stdpp Require Import gmap.
Open Scope Z_scope.

Module GraphOps.
Import Status Numbers NodeClass Graph GraphSpec GraphFacts.

Section Ops.
Context {OpDef AttrValue : Type} {registry : OpRegistryInterface OpDef AttrValue} {laws : OpRegistryLaws OpDef AttrValue registry}.
Context (addr : nat -> Z) {Haddr : addresses addr}.
Abbreviation NodeDef := (NodeDef AttrValue).
Abbreviation Properties := (Properties OpDef AttrValue).
Abbreviation Graph := (Graph OpDef AttrValue).
Abbreviation AGraph := (AGraph OpDef AttrValue).
Abbreviation ANode := (ANode OpDef AttrValue).
Abbreviation rep_with := (rep_with addr).
Abbreviation rep := (rep addr).
Implicit Types (g : Graph) (a : AGraph) (x : Z -> Z).

(** Ids are [int]s. *)
Definition room (k : Z) : Prop := k < 2 ^ 31 - 1.
Lemma s32_len {A} (l : list A) : room (zlength l) -> s32 (zlength l) = zlength l.
Proof. unfold room. intros. apply s32_id. unfold zlength in *. lia. Qed.

(** ** Nodes *)

Lemma wp_Initialize p id cost r (v : Properties) k c g (Q : unit -> Graph -> Prop) :
  node_heap g !! p = Some new_Node -> props_heap g !! r = Some (v, k) -> node_class (def_op (node_def_ v)) = Some c ->
  Q tt (with_node_heap <[p := mkNode id cost c EdgeSet.new_EdgeSet EdgeSet.new_EdgeSet r []]> g) -> wp (Initialize p id cost r) g Q.
Proof.
  intros Hp Hr Hc HQ. unfold Initialize. wp_step. eapply wp_node_of; [exact Hp|]. do 3 (wp_step; apply wp_check; [done|]). wp_step. apply wp_ret.
  wp_step. eapply wp_props_of; [exact Hr|]. wp_step. eapply wp_opt; [exact Hc|]. exact HQ.
Qed.
Definition keeps g g' : Prop := forall i p, at_ (nodes_ g) i = Some p -> at_ (nodes_ g') i = Some p.
Definition cost_of g a (cp cost : Z) : Prop := cp = 0 /\ cost = a_next_node a \/ exists i v, at_ (nodes_ g) i = Some cp /\ a_nodes a !! i = Some v /\ cost = a_cost v.
Lemma wp_AllocateNode x g a r (v : Properties) k cp cost (Q : Z -> Graph -> Prop) :
  rep_with x g a -> props_heap g !! r = Some (v, k) -> r <> 0 -> is_Some (node_class (def_op (node_def_ v))) -> room (a_next_node a) -> cost_of g a cp cost ->
  (forall p g', rep_with (bump x r (-1)) g' (add_node (mkANode v cost []) a) -> at_ (nodes_ g') (a_next_node a) = Some p -> keeps g g' -> Q p g') ->
  wp (AllocateNode addr r cp) g Q.
Proof.
  intros H Hr Hr0 [c Hc] Hroom Hcost HQ. unfold AllocateNode. wp_step. wp_step. wp_step.
  enough (Hgo : forall p g1, spare g1 p -> rep_with x g1 a -> nodes_ g1 = nodes_ g -> props_heap g1 = props_heap g ->
    wp (let id := s32 (zlength (nodes_ g)) in
        let! cost_id := (if cp =? 0 then st_ret id else let! c := node_of cp in st_ret (cost_id_ c)) in
        Initialize p id cost_id r ;;; st_modify (fun g => with_nodes (nodes_ g ++ [p]) (s64 (num_nodes_ g + 1)) g) ;;; st_ret p) g1 Q).
  { destruct (last (free_nodes_ g)) as [p|] eqn:El.
    - wp_step. wp_step. wp_step. destruct (take_free_rep addr x g a p H El). by apply Hgo.
    - wp_step. unfold Alloc, wp. destruct (alloc_node_rep addr x g a H). by apply Hgo. }
  intros p g1 Hsp H1 Hn1 Hp1. cbv zeta. rewrite s32_len by (rewrite (r_len_n _ _ _ _ H); done). rewrite (r_len_n _ _ _ _ H).
  wp_step. apply (wp_mono _ _ (fun cid g' => g' = g1 /\ cid = cost)).
  { destruct (Z.eqb_spec cp 0) as [Hcp|Hcp].
    - apply wp_ret. split; [done|]. destruct Hcost as [[_ ->]|(i & w & Hi%at_Some & _)]; [done|]. tauto.
    - destruct Hcost as [[? _]|(i & w & Hi & Hw & ->)]; [done|]. rewrite <- Hn1 in Hi. destruct (rep_live addr H1 _ _ Hi) as (w' & Hw' & n & l & Hn & _ & _ & _ & Hc' & _). rewrite Hw in Hw'. injection Hw' as <-.
      wp_step. eapply wp_node_of; [exact Hn|]. by apply wp_ret. }
  intros ? ? [-> ->]. wp_step. eapply wp_Initialize; [apply Hsp|by rewrite Hp1|exact Hc|]. wp_step. wp_step. wp_step.
  pose proof (size_bound addr _ _ _ H1) as Hsz. pose proof (r_num_n _ _ _ _ H1) as Hnum. unfold room in Hroom.
  cbn [num_nodes_ nodes_ with_node_heap]. rewrite s64_id by (rewrite Hnum; lia).
  apply HQ; [eapply install_rep; try done; by rewrite Hp1| |].
  - cbn. rewrite at_app, decide_True; [done|by rewrite (r_len_n _ _ _ _ H1)|apply Hsp].
  - intros i p' Hp'. cbn. rewrite Hn1, at_app by apply Hsp. rewrite decide_False; [done|]. apply at_range in Hp'. lia.
Qed.

(** What a node is made of, and the caller's status. *)
Definition made (d : NodeDef) (status : Status) : option Properties * Status :=
  let '(s, o) := LookUpOpDef (def_op d) in
  match ok (Update status s), o with
  | false, _ => (None, Update status s)
  | true, None => (None, status)
  | true, Some op =>
      let '(s', (i, o)) := InOutTypesForNode d op in
      if ok (Update (Update status s) s') then (Some (mkProps op d i o), Update (Update status s) s') else (None, AttachDef (Update (Update status s) s') d)
  end.
Lemma bump_cancel x r : forall r', bump (bump x r 1) r (-1) r' = x r'.
Proof. intros r'. unfold bump. case_decide; lia. Qed.
Lemma wp_AddNode g a d status (Q : Z * Status -> Graph -> Prop) : rep g a -> room (a_next_node a) ->
  (match made d status with
   | (None, st) => Q (0, st) g
   | (Some v, st) => forall p g', rep g' (add_node (mkANode v (a_next_node a) []) a) -> at_ (nodes_ g') (a_next_node a) = Some p -> keeps g g' -> Q (p, st) g'
   end) -> wp (AddNode addr d status) g Q.
Proof.
  intros H Hroom HQ. unfold AddNode. unfold made in HQ. pose proof (registry_found (def_op d)) as Hfound. pose proof registry_named as Hnamed.
  destruct (LookUpOpDef (def_op d)) as [s o] eqn:El. cbn [fst snd] in Hfound. destruct (ok (Update status s)) eqn:E1; cbn [negb]; [|by apply wp_ret].
  assert (Hs : ok s = true) by (unfold Update in E1; destruct (ok status) eqn:Es; [done|congruence]). destruct (Hfound Hs) as [op ->].
  wp_step. eapply wp_opt; [done|]. destruct (InOutTypesForNode d op) as [s' [ins outs]]. destruct (ok (Update (Update status s) s')) eqn:E2; cbn [negb]; [|by apply wp_ret].
  assert (Hop : def_op d <> []) by (intros Hd; rewrite Hd in El; rewrite El in Hnamed; cbn in Hnamed; congruence).
  wp_step. apply wp_new_Properties. wp_step.
  eapply (wp_AllocateNode (bump (fun _ => 0) (addr (allocated g)) 1) _ a); [by apply new_props_rep|cbn; by rewrite lookup_insert_eq|by apply addr_nonnull|by apply node_class_ok|done|by left|].
  intros p g' H' Hp Hk. wp_step. apply HQ; [|done|done]. eapply rep_ext; [exact H'|]. intros r'. apply bump_cancel.
Qed.
Lemma wp_CopyNode g a i p v (Q : Z -> Graph -> Prop) : rep g a -> room (a_next_node a) -> at_ (nodes_ g) i = Some p -> a_nodes a !! i = Some v -> 1 < i ->
  (forall q g', rep g' (add_node v a) -> at_ (nodes_ g') (a_next_node a) = Some q -> keeps g g' -> Q q g') -> wp (CopyNode addr p) g Q.
Proof.
  intros H Hroom Hp Hv Hi HQ. unfold CopyNode. destruct (rep_live addr H _ _ Hp) as (v' & Hv' & n & k & Hn & Hps & Hps0 & Hid & Hc & Hd & Hcl & _). rewrite Hv in Hv'. injection Hv' as <-.
  wp_step. eapply wp_node_of; [exact Hn|]. unfold IsSource, IsSink. rewrite Hid. wp_step. apply wp_check; [apply negb_true_iff, Z.eqb_neq; lia|]. wp_step. apply wp_check; [apply negb_true_iff, Z.eqb_neq; lia|].
  wp_step. eapply wp_Ref; [exact Hps|]. destruct (r_refs _ _ _ _ H _ _ _ Hps) as [Hk _]. pose proof (count_rep addr _ _ _ _ _ _ (k + 1) H Hps ltac:(lia)) as H1. replace (k + 1 - k) with 1 in H1 by lia.
  wp_step. eapply wp_AllocateNode; [exact H1|cbn; by rewrite lookup_insert_eq|done|by eexists|done|right; by exists i, v|].
  intros q g' H' Hq Hk'. apply (rep_ext _ _ (fun _ => 0)) in H'; [|apply bump_cancel].
  pose proof (Hk' i p Hp) as Hp'. destruct (rep_live addr H' _ _ Hp') as (w & Hw & m & l & Hm & _ & _ & _ & _ & Hdm & _). cbn in Hw. rewrite lookup_insert_ne in Hw by (apply at_range in Hp; rewrite <- (r_len_n _ _ _ _ H); lia). rewrite Hv in Hw. injection Hw as <-.
  wp_step. eapply wp_node_of; [exact Hm|]. unfold set_assigned_device_name. wp_step. wp_step.
  destruct (rep_live addr H' _ _ Hq) as (w & Hw & m' & l' & Hm' & Hps' & Hps0' & _). eapply wp_node_of; [exact Hm'|]. unfold set_node. wp_step. wp_step.
  cbn in Hw. rewrite lookup_insert_eq in Hw. injection Hw as <-. rewrite Hc in H'. rewrite Hdm.
  apply HQ; [|done|done]. eapply rep_ext.
  - replace (add_node v a) with (put_node (a_next_node a) v (add_node (mkANode (a_props v) (a_cost v) []) a)) by (unfold put_node, add_node; cbn; by rewrite insert_insert_eq).
    eapply (update_rep addr _ _ _ _ _ m' _ v (props_ m')); [exact H'|done|done|cbn; by rewrite lookup_insert_eq|exact Hps'|done|done|done|done].
  - intros r. apply bump_cancel.
Qed.
Lemma wp_set_device g a i p v d (Q : unit -> Graph -> Prop) : rep g a -> at_ (nodes_ g) i = Some p -> a_nodes a !! i = Some v ->
  (forall g', rep g' (put_node i (mkANode (a_props v) (a_cost v) d) a) -> nodes_ g' = nodes_ g -> Q tt g') -> wp (set_assigned_device_name p d) g Q.
Proof.
  intros H Hp Hv HQ. destruct (rep_live addr H _ _ Hp) as (v' & Hv' & n & k & Hn & Hps & Hps0 & _). rewrite Hv in Hv'. injection Hv' as <-.
  unfold set_assigned_device_name. wp_step. eapply wp_node_of; [exact Hn|]. unfold set_node. wp_step. apply HQ; [|done]. eapply rep_ext; [by eapply (update_rep addr _ _ _ _ _ n v _ (props_ n))|]. intros r. apply bump_cancel.
Qed.

(** A reference count of one is a node of its own. *)
Lemma unique_user g a r (v : Properties) i : rep g a -> props_heap g !! r = Some (v, 1) -> user g r i -> forall j, user g r j -> j = i.
Proof.
  intros H Hr Hi j Hj. destruct (user_num addr _ _ _ _ _ _ i H Hr Hi) as (S & HS & _ & HjS). destruct (decide (j = i)); [done|]. assert (HjS' : j ∈ S) by by apply HjS.
  assert (size S = 0)%nat as Hz%size_empty_iff by lia. set_solver.
Qed.
Lemma put_node_id i v a : a_nodes a !! i = Some v -> put_node i v a = a.
Proof. intros Hv. unfold put_node. rewrite insert_id by done. by destruct a. Qed.
Lemma wp_MaybeCopyOnWrite g a i p v (Q : unit -> Graph -> Prop) : rep g a -> at_ (nodes_ g) i = Some p -> a_nodes a !! i = Some v ->
  (forall g' n, rep g' a -> nodes_ g' = nodes_ g -> node_heap g' !! p = Some n -> props_heap g' !! props_ n = Some (a_props v, 1) -> Q tt g') -> wp (MaybeCopyOnWrite addr p) g Q.
Proof.
  intros H Hp Hv HQ. destruct (rep_live addr H _ _ Hp) as (v' & Hv' & n & k & Hn & Hps & Hps0 & _ & Hc & Hd & _). rewrite Hv in Hv'. injection Hv' as <-.
  unfold MaybeCopyOnWrite. wp_step. eapply wp_node_of; [exact Hn|]. wp_step. unfold RefCountIsOne. wp_step. wp_step. wp_step. eapply wp_opt; [exact Hps|]. apply wp_ret.
  destruct (Z.eqb_spec k 1) as [->|Hk1]; [apply wp_ret; by eapply HQ|].
  wp_step. eapply wp_props_of; [exact Hps|]. wp_step. apply wp_new_Properties. set (r' := addr (allocated g)). set (g1 := with_props_heap _ _).
  assert (Hne : r' <> props_ n) by (intros Heq; apply (alloc_fresh addr H); right; right; rewrite <- Heq in Hps; by eexists).
  assert (H1 : rep_with (bump (fun _ => 0) r' 1) g1 a) by by apply new_props_rep.
  assert (Hps1 : props_heap g1 !! props_ n = Some (a_props v, k)) by (cbn; by rewrite lookup_insert_ne).
  destruct (r_refs _ _ _ _ H _ _ _ Hps) as [Hk _].
  assert (H2 : rep_with (bump (bump (bump (fun _ => 0) r' 1) (props_ n) 1) r' (-1)) (with_node_heap <[p := set_props r' n]> g1) a).
  { rewrite <- (put_node_id i v a Hv) at 1. unfold set_props. rewrite Hd. eapply (update_rep addr _ g1 a i p n v v r' 1); try done; [cbn; apply lookup_insert_eq|by apply addr_nonnull]. }
  pose proof (unref_rep addr _ _ _ (props_ n) (a_props v) k H2 Hps1) as H3.
  assert (Hx : 0 < bump (bump (bump (λ _ : Z, 0) r' 1) (props_ n) 1) r' (-1) (props_ n)) by (unfold bump; repeat case_decide; congruence || lia).
  specialize (H3 Hx). wp_step. eapply wp_Unref; [exact Hps1|]. unfold set_node. wp_step. eapply (HQ _ (set_props r' n)).
  - eapply rep_ext; [exact H3|]. intros r. unfold bump. repeat case_decide; try lia; congruence.
  - done.
  - cbn. by rewrite lookup_insert_eq.
  - cbn. unfold dropped. destruct (Z.eqb_spec k 1); [done|]. rewrite lookup_insert_ne by done. by rewrite lookup_insert_eq.
Qed.
Definition attr_node (f : gmap (list Z) AttrValue -> gmap (list Z) AttrValue) (v : ANode) : ANode := mkANode (set_attr f (a_props v)) (a_cost v) (a_device v).
Lemma wp_mutate_attr g a i p v f (Q : unit -> Graph -> Prop) : rep g a -> at_ (nodes_ g) i = Some p -> a_nodes a !! i = Some v ->
  (forall g', rep g' (put_node i (attr_node f v) a) -> Q tt g') -> wp (MaybeCopyOnWrite addr p ;;; mutate_attr p f) g Q.
Proof.
  intros H Hp Hv HQ. wp_step. eapply wp_MaybeCopyOnWrite; [done..|]. intros g' n H' Hnodes Hn Hps. rewrite <- Hnodes in Hp.
  unfold mutate_attr. wp_step. eapply wp_node_of; [exact Hn|]. wp_step. wp_step. wp_step. eapply wp_opt; [exact Hps|]. apply wp_modify, HQ.
  eapply (attr_rep addr _ _ _ _ _ n); [done..| |done]. apply (unique_user g' a _ (a_props v)); [done|done|by exists p, n].
Qed.

(** ** Edges *)

(** Only control edges leave the source or enter the sink. *)
Definition control_ok (i : Z) (cx : Z) (k : Z) (cy : Z) : bool :=
  if (i =? kSourceId) || (k =? kSinkId) || (cx =? kControlSlot) || (cy =? kControlSlot) then (cx =? kControlSlot) && (cy =? kControlSlot) else true.
Lemma wp_FindNodeId g i p (Q : Z -> Graph -> Prop) : at_ (nodes_ g) i = Some p -> Q p g -> wp (FindNodeId i) g Q.
Proof. intros [Hp _]%at_Some HQ. unfold FindNodeId. wp_step. wp_step. by eapply wp_opt. Qed.
(** The source and the sink are never removed. *)
Definition has_ends a : Prop := is_Some (a_nodes a !! kSourceId) /\ is_Some (a_nodes a !! kSinkId).
Lemma wp_take_edge g a (Q : Z -> Graph -> Prop) : rep g a ->
  (forall q g', rep g' a -> nodes_ g' = nodes_ g -> edges_ g' = edges_ g -> node_heap g' = node_heap g -> q <> 0 -> (forall j, at_ (edges_ g') j <> Some q) -> q ∉ free_edges_ g' ->
     (exists l, (l < allocated g')%nat /\ q = addr l) -> Q q g') ->
  wp (match last (free_edges_ g) with None => Alloc addr | Some e => st_modify (with_free_edges (removelast (free_edges_ g))) ;;; st_ret e end) g Q.
Proof.
  intros H HQ. destruct (last (free_edges_ g)) as [q|] eqn:El.
  - pose proof (removelast_last _ _ El) as Hl. destruct (r_free_e _ _ _ _ H) as [Hnd Hfree]. rewrite Hl in Hnd. apply NoDup_app in Hnd as (Hnd & Hni & _).
    assert (Hq : q ∈ free_edges_ g) by (rewrite Hl; set_solver). destruct (Hfree q Hq) as (Hq0 & e & He & _).
    wp_step. wp_step. wp_step. apply HQ; try done.
    + pose proof H as []. split; try done. cbn. split; [done|]. intros q' Hq'. apply Hfree. rewrite Hl. set_solver.
    + intros j. by apply (free_edge_not_live addr H).
    + cbn. intros Hin. apply (Hni q Hin). set_solver.
    + cbn. apply (r_fresh _ _ _ _ H). right. left. by eexists.
  - unfold Alloc, wp. apply HQ; try done.
    + pose proof H as []. split; try done. intros p Hp. destruct (r_fresh0 p Hp) as (k & Hk & ->). exists k. split; [cbn; lia|done].
    + by apply addr_nonnull.
    + intros j (e & _ & s & d & He & _)%(rep_live_edge addr H). apply (alloc_fresh addr H). right. left. by eexists.
    + intros (Hq0 & e & He & _)%(proj2 (r_free_e _ _ _ _ H)). apply (alloc_fresh addr H). right. left. by eexists.
    + exists (allocated g). cbn. split; [lia|done].
Qed.
Lemma set_ok_in g a i p n x : rep_with x g a -> at_ (nodes_ g) i = Some p -> node_heap g !! p = Some n ->
  incident (edges_ g) (a_edges a) e_dst i (in_edges_ n) /\ incident (edges_ g) (a_edges a) e_src i (out_edges_ n).
Proof. intros H Hp Hn. destruct (rep_live addr H _ _ Hp) as (v & _ & n' & k & Hn' & _ & _ & _ & _ & _ & _ & Hi). rewrite Hn in Hn'. by injection Hn' as <-. Qed.
Lemma insert_new E (m : gmap Z AEdge) f i s q : incident E m f i s -> q <> 0 -> (forall j, at_ E j <> Some q) -> (EdgeSet.insert q s).2 = true.
Proof.
  intros [Hs Hin] Hq Hno. destruct (EdgeSet.insert_spec q s Hs Hq) as (_ & -> & _). rewrite bool_decide_eq_false_2; [done|]. intros (j & e & Hj & _)%Hin. by eapply Hno.
Qed.
Lemma wp_AddEdge g a i cx k cy s d (Q : Z -> Graph -> Prop) : rep g a -> has_ends a -> room (a_next_edge a) -> at_ (nodes_ g) i = Some s -> at_ (nodes_ g) k = Some d ->
  control_ok i cx k cy = true ->
  (forall q g', rep g' (add_edge (mkAEdge i cx k cy) a) -> nodes_ g' = nodes_ g -> at_ (edges_ g') (a_next_edge a) = Some q -> Q q g') -> wp (AddEdge addr s cx d cy) g Q.
Proof.
  intros H [[vs Hvs] [vt Hvt]] Hroom Hs Hd Hctl HQ. unfold AddEdge. wp_step. eapply (wp_valid addr H i); [done|]. wp_step. apply wp_check; [done|]. wp_step. eapply (wp_valid addr H k); [done|]. wp_step. apply wp_check; [done|].
  destruct (rep_node addr H _ _ Hvs) as (sn & Hsn & _). destruct (rep_node addr H _ _ Hvt) as (tn & Htn & _).
  wp_step. eapply wp_FindNodeId; [exact Hsn|]. wp_step. apply (wp_mono _ _ (fun t g' => g' = g /\ t = if s =? sn then d else tn)).
  { destruct (s =? sn); [by apply wp_ret|]. by eapply wp_FindNodeId. }
  intros ? ? [-> ->]. assert (E1 : (s =? sn) = (i =? kSourceId)) by (pose proof (end_addr addr _ _ _ _ _ _ _ H Hs Hsn); destruct (Z.eqb_spec s sn), (Z.eqb_spec i kSourceId); naive_solver).
  assert (E2 : (d =? tn) = (k =? kSinkId)) by (pose proof (end_addr addr _ _ _ _ _ _ _ H Hd Htn); destruct (Z.eqb_spec d tn), (Z.eqb_spec k kSinkId); naive_solver).
  assert (E3 : (s =? sn) || (d =? (if s =? sn then d else tn)) = (i =? kSourceId) || (k =? kSinkId)) by (rewrite E1; destruct (i =? kSourceId); [done|by rewrite E2]).
  wp_step. apply (wp_mono _ _ (fun _ g' => g' = g)).
  { unfold control_ok in Hctl. rewrite E3. destruct (_ || (cy =? kControlSlot)); [|by apply wp_ret]. apply andb_prop in Hctl as [Hx Hy]. wp_step. apply wp_check; [done|]. by apply wp_check. }
  intros _ ? ->. wp_step. wp_step. wp_step. apply (wp_take_edge g a); [done|]. intros q g1 H1 Hn1 He1 Hh1 Hq0 Hq Hqf Hqa. rewrite <- Hn1 in Hs, Hd.
  destruct (rep_live addr H1 _ _ Hs) as (v1 & _ & n & l & Hn & _). destruct (set_ok_in _ _ _ _ _ _ H1 Hs Hn) as [_ Hout].
  destruct (rep_live addr H1 _ _ Hd) as (v2 & _ & n2 & l2 & Hn2 & _). destruct (set_ok_in _ _ _ _ _ _ H1 Hd Hn2) as [Hin _].
  rewrite s32_len by (rewrite (r_len_e _ _ _ _ H); done). rewrite (r_len_e _ _ _ _ H).
  unfold set_edge, set_node. wp_step. wp_step. wp_step. eapply wp_node_of; [exact Hn|]. pose proof (insert_new _ _ _ _ _ q Hout Hq0 Hq) as Ho2. destruct (EdgeSet.insert q (out_edges_ n)) as [so bo] eqn:Eo. cbn in Ho2. subst bo.
  wp_step. wp_step. wp_step. apply wp_check; [done|]. set (f := fun es => (EdgeSet.insert q es).1).
  assert (exists n', <[s := set_out_edges so n]> (node_heap g1) !! d = Some n' /\ in_edges_ n' = in_edges_ n2) as (n' & Hn' & Hin').
  { destruct (decide (s = d)) as [<-|Hsd]; [rewrite lookup_insert_eq; eexists; split; [done|]; cbn; congruence|rewrite lookup_insert_ne by done; by eexists]. }
  wp_step. eapply wp_node_of; [exact Hn'|]. rewrite Hin'. pose proof (insert_new _ _ _ _ _ q Hin Hq0 Hq) as Hi2. destruct (EdgeSet.insert q (in_edges_ n2)) as [si bi] eqn:Ei. cbn in Hi2. subst bi.
  wp_step. wp_step. wp_step. apply wp_check; [done|]. wp_step. wp_step. wp_step. wp_step. wp_step.
  assert (Hrel : relink s d f (node_heap g1) (<[d := set_in_edges si n']> (<[s := set_out_edges so n]> (node_heap g1)))).
  { pose proof (relink_steps (node_heap g1) s d f n n' Hn) as Hr. unfold f in Hr. rewrite Hin', Eo, Ei in Hr. by apply Hr. }
  apply HQ.
  - by apply (link_rep addr _ g1 a i k s d q _ cx cy H1).
  - done.
  - cbn. rewrite at_app, decide_True; [done|by rewrite He1, (r_len_e _ _ _ _ H)|done].
Qed.

Lemma wp_RemoveEdge g a J q e (Q : unit -> Graph -> Prop) : rep g a -> at_ (edges_ g) J = Some q -> a_edges a !! J = Some e ->
  (forall g' s d, rep g' (remove_edge J a) -> nodes_ g' = nodes_ g -> at_ (nodes_ g) (e_src e) = Some s -> at_ (nodes_ g) (e_dst e) = Some d ->
     relink s d (fun es => (EdgeSet.erase q es).1) (node_heap g) (node_heap g') -> Q tt g') -> wp (RemoveEdge q) g Q.
Proof.
  intros H HJ He HQ. destruct (rep_live_edge addr H _ _ HJ) as (e' & He' & s & d & Hq & Hs & Hd). rewrite He in He'. injection He' as <-.
  pose proof (proj2 (proj1 (at_Some _ _ _) HJ)) as Hq0. assert (Huniq : forall j, at_ (edges_ g) j = Some q -> j = J) by (intros j Hj; by eapply (live_edge_inj addr H)).
  unfold RemoveEdge. wp_step. eapply wp_edge_of; [exact Hq|]. cbn [src_ dst_ edge_id_].
  wp_step. eapply (wp_valid addr H); [exact Hs|]. wp_step. apply wp_check; [done|]. wp_step. eapply (wp_valid addr H); [exact Hd|]. wp_step. apply wp_check; [done|].
  destruct (rep_live addr H _ _ Hs) as (v1 & _ & n & l & Hn & _). destruct (set_ok_in _ _ _ _ _ _ H Hs Hn) as [_ Hout].
  destruct (rep_live addr H _ _ Hd) as (v2 & _ & n2 & l2 & Hn2 & _). destruct (set_ok_in _ _ _ _ _ _ H Hd Hn2) as [Hin _].
  destruct (incident_unlink _ _ _ _ _ q e J Hout Hq0 HJ Huniq He) as [_ Ho2]. specialize (Ho2 eq_refl).
  destruct (incident_unlink _ _ _ _ _ q e J Hin Hq0 HJ Huniq He) as [_ Hi2]. specialize (Hi2 eq_refl).
  unfold set_edge, set_node. wp_step. eapply wp_node_of; [exact Hn|]. destruct (EdgeSet.erase q (out_edges_ n)) as [so bo] eqn:Eo. cbn in Ho2. subst bo.
  wp_step. wp_step. wp_step. apply wp_check; [done|]. set (f := fun es => (EdgeSet.erase q es).1).
  assert (exists n', <[s := set_out_edges so n]> (node_heap g) !! d = Some n' /\ in_edges_ n' = in_edges_ n2) as (n' & Hn' & Hin').
  { destruct (decide (s = d)) as [<-|Hsd]; [rewrite lookup_insert_eq; eexists; split; [done|]; cbn; congruence|rewrite lookup_insert_ne by done; by eexists]. }
  wp_step. eapply wp_node_of; [exact Hn'|]. rewrite Hin'. destruct (EdgeSet.erase q (in_edges_ n2)) as [si bi] eqn:Ei. cbn in Hi2. subst bi.
  wp_step. wp_step. wp_step. apply wp_check; [done|]. wp_step. wp_step. wp_step. eapply wp_opt; [exact (proj1 (proj1 (at_Some _ _ _) HJ))|].
  wp_step. apply wp_check; [apply Z.eqb_refl|]. cbn [edge_set_ with_node_heap].
  assert (Hqs : q ∈ EdgeSet.elements (edge_set_ g)) by (apply (r_set_in _ _ _ _ H); eauto).
  destruct (EdgeSet.erase_spec q (edge_set_ g) (r_set _ _ _ _ H) Hq0) as (_ & Hel). rewrite bool_decide_eq_true_2 in Hel by done. destruct Hel as [Hel _].
  destruct (EdgeSet.erase q (edge_set_ g)) as [se be] eqn:Ee. cbn in Hel. subst be. wp_step. wp_step. wp_step. apply wp_check; [done|]. do 4 wp_step. wp_step.
  assert (Hrel : relink s d f (node_heap g) (<[d := set_in_edges si n']> (<[s := set_out_edges so n]> (node_heap g)))).
  { pose proof (relink_steps (node_heap g) s d f n n' Hn) as Hr. unfold f in Hr. rewrite Hin', Eo, Ei in Hr. by apply Hr. }
  apply (HQ _ s d); [|done..]. pose proof (unlink_rep addr _ g a J q e s d _ H HJ He Hs Hd Hrel) as Hr. cbn zeta in Hr. by rewrite Ee in Hr.
Qed.

(** ** Removing a node *)

Definition clear_edges (f : AEdge -> Z) (i : Z) a : AGraph := mkAGraph (a_nodes a) (a_next_node a) (filter (fun je => f je.2 <> i) (a_edges a)) (a_next_edge a) (a_names a).
(** The set of a node's edges at one of their ends. *)
Definition side (edges : Node -> EdgeSet.EdgeSet) (f : AEdge -> Z) : Prop := edges = in_edges_ /\ f = e_dst \/ edges = out_edges_ /\ f = e_src.
Lemma side_incident edges f g a i p n : side edges f -> rep g a -> at_ (nodes_ g) i = Some p -> node_heap g !! p = Some n -> incident (edges_ g) (a_edges a) f i (edges n).
Proof. intros [[-> ->]|[-> ->]] H Hp Hn; by destruct (set_ok_in _ _ _ _ _ _ H Hp Hn). Qed.
Lemma side_relinked edges f s d h p n e i : side edges f -> (e_src e = i -> p = s) -> (e_dst e = i -> p = d) -> f e = i -> edges (relinked s d h p n) = h (edges n).
Proof. intros [[-> ->]|[-> ->]] Hs Hd Hf; cbn; [rewrite decide_True by auto|rewrite decide_True by auto]; done. Qed.
Lemma clear_remove f i J e a : a_edges a !! J = Some e -> f e = i -> clear_edges f i (remove_edge J a) = clear_edges f i a.
Proof.
  intros He Hf. unfold clear_edges, remove_edge. cbn. f_equal. apply map_eq. intros j. apply option_eq. intros e'. rewrite !map_lookup_filter_Some, lookup_delete_Some. cbn. naive_solver.
Qed.
Lemma clear_none f i a : (forall j e, a_edges a !! j = Some e -> f e <> i) -> clear_edges f i a = a.
Proof. intros Hno. unfold clear_edges. rewrite map_filter_id; [by destruct a|]. intros j e He. by apply (Hno j). Qed.
Lemma wp_remove_edges edges f fuel : side edges f -> forall g a i p n (Q : unit -> Graph -> Prop), rep g a -> at_ (nodes_ g) i = Some p -> node_heap g !! p = Some n ->
  EdgeSet.size (edges n) < Z.of_nat fuel -> (forall g', rep g' (clear_edges f i a) -> nodes_ g' = nodes_ g -> Q tt g') -> wp (remove_edges fuel edges p) g Q.
Proof.
  intros Hside. induction fuel as [|fuel IH]; intros g a i p n Q H Hp Hn Hfuel HQ; destruct (side_incident _ _ _ _ _ _ _ Hside H Hp Hn) as [Hok Hin].
  { rewrite EdgeSet.size_elements in Hfuel by done. unfold zlength in Hfuel. lia. }
  cbn [remove_edges]. wp_step. eapply wp_node_of; [exact Hn|]. rewrite EdgeSet.empty_elements by done. rewrite EdgeSet.size_elements in Hfuel by done.
  case_bool_decide as Hemp.
  - wp_step. apply HQ; [|done]. rewrite clear_none; [done|]. intros j e He Hf. destruct (rep_edge addr H _ _ He) as (q & Hq & _).
    assert (Hqe : q ∈ EdgeSet.elements (edges n)) by (apply Hin; eauto). rewrite Hemp in Hqe. by apply elem_of_nil in Hqe.
  - destruct (EdgeSet.elements (edges n)) as [|q rest] eqn:Eel; [done|]. wp_step. eapply wp_opt; [done|]. destruct (proj1 (Hin q)) as (J & e & HJ & He & Hf); [by left|].
    wp_step. eapply wp_RemoveEdge; [exact H|exact HJ|exact He|]. intros g' s d H' Hn' Hs Hd Hrel.
    pose proof (proj2 (proj1 (at_Some _ _ _) HJ)) as Hq0. destruct (EdgeSet.erase_spec q (edges n) Hok Hq0) as [Hok' Hel]. rewrite Eel, bool_decide_eq_true_2 in Hel by (by left). destruct Hel as [_ Hel%Permutation_cons_inv].
    eapply (IH g' _ i p (relinked s d (fun es => (EdgeSet.erase q es).1) p n)); [exact H'|by rewrite Hn'|by eapply relink_node| |].
    + rewrite (side_relinked edges f s d (fun es => (EdgeSet.erase q es).1) p n e i Hside) by (done || intros; congruence). rewrite EdgeSet.size_elements by done. unfold zlength in *. rewrite <- Hel. cbn [length] in Hfuel. lia.
    + intros g2 H2 Hn2. apply HQ; [by rewrite (clear_remove f i J e) in H2|congruence].
Qed.
Lemma wp_ReleaseNode g a i p (Q : unit -> Graph -> Prop) : rep g a -> at_ (nodes_ g) i = Some p -> a_next_node a < 2 ^ 31 -> (forall j e, a_edges a !! j = Some e -> e_src e <> i /\ e_dst e <> i) ->
  (forall g', rep g' (mkAGraph (delete i (a_nodes a)) (a_next_node a) (a_edges a) (a_next_edge a) (a_names a)) -> nodes_ g' = zinsert (nodes_ g) i 0 -> Q tt g') -> wp (ReleaseNode p) g Q.
Proof.
  intros H Hp Hroom Hno HQ. destruct (rep_live addr H _ _ Hp) as (v & Hv & n & k & Hn & Hps & Hps0 & Hid & _). pose proof (proj2 (proj1 (at_Some _ _ _) Hp)) as Hp0.
  unfold ReleaseNode. wp_step. eapply (wp_valid addr H); [exact Hp|]. wp_step. apply wp_check; [done|]. wp_step. eapply wp_node_of; [exact Hn|]. do 6 wp_step.
  unfold Clear. wp_step. eapply wp_node_of; [exact Hn|]. rewrite (proj2 (Z.eqb_neq _ 0) Hps0). wp_step. eapply wp_Unref; [exact Hps|]. unfold set_node. wp_step.
  cbn [num_nodes_ nodes_ free_nodes_ with_free_nodes with_nodes]. pose proof (size_bound addr _ _ _ H) as Hsz. pose proof (r_num_n _ _ _ _ H) as Hnum. rewrite s64_id by lia.
  apply HQ; [|by cbn; rewrite Hid].
  pose proof (detach_rep addr _ _ _ _ _ _ H Hp Hn Hno) as H1. cbn zeta in H1.
  pose proof (unref_rep addr _ _ _ (props_ n) (a_props v) k H1 Hps) as H2. assert (Hx : 0 < bump (fun _ : Z => 0) (props_ n) 1 (props_ n)) by (unfold bump; rewrite decide_True by done; lia). specialize (H2 Hx).
  pose proof (recycle_rep addr _ _ _ p H2) as H3. rewrite Hid. eapply rep_ext; [apply H3|].
  - intros j. cbn. rewrite at_null. case_decide as Hj; [done|]. intros Hj'. apply Hj. by eapply (live_inj addr H).
  - done.
  - cbn. intros Hf. by eapply (free_not_live addr H).
  - cbn. by eexists.
  - intros r. unfold bump. case_decide; lia.
Qed.
Lemma clear_both i a : let a' := clear_edges e_src i (clear_edges e_dst i a) in
  mkAGraph (delete i (a_nodes a')) (a_next_node a') (a_edges a') (a_next_edge a') (a_names a') = remove_node i a.
Proof.
  unfold remove_node, clear_edges. cbn. f_equal. apply map_eq. intros j. apply option_eq. intros e. rewrite !map_lookup_filter_Some. unfold touches. cbn. tauto.
Qed.
Lemma wp_RemoveNode g a i p (Q : unit -> Graph -> Prop) : rep g a -> at_ (nodes_ g) i = Some p -> 1 < i -> a_next_node a < 2 ^ 31 ->
  (forall g', rep g' (remove_node i a) -> nodes_ g' = zinsert (nodes_ g) i 0 -> Q tt g') -> wp (RemoveNode p) g Q.
Proof.
  intros H Hp Hi Hroom HQ. destruct (rep_live addr H _ _ Hp) as (v & Hv & n & k & Hn & Hps & Hps0 & Hid & _).
  unfold RemoveNode. wp_step. eapply (wp_valid addr H); [exact Hp|]. wp_step. apply wp_check; [done|]. wp_step. eapply wp_node_of; [exact Hn|]. unfold IsSource, IsSink. rewrite Hid.
  wp_step. apply wp_check; [apply negb_true_iff, Z.eqb_neq; lia|]. wp_step. apply wp_check; [apply negb_true_iff, Z.eqb_neq; lia|].
  wp_step. eapply (wp_remove_edges in_edges_ e_dst); [by left|exact H|exact Hp|exact Hn|lia|]. intros g1 H1 Hn1. rewrite <- Hn1 in Hp.
  destruct (rep_live addr H1 _ _ Hp) as (v1 & _ & n1 & k1 & Hn1' & _). wp_step. eapply wp_node_of; [exact Hn1'|].
  wp_step. eapply (wp_remove_edges out_edges_ e_src); [by right|exact H1|exact Hp|exact Hn1'|lia|]. intros g2 H2 Hn2. rewrite <- Hn2 in Hp.
  eapply wp_ReleaseNode; [exact H2|exact Hp|done| |].
  - intros j e. cbn. rewrite !map_lookup_filter_Some. cbn. tauto.
  - intros g3 H3 Hn3. apply HQ; [|congruence]. by rewrite <- clear_both.
Qed.
End Ops.
End GraphOps.

Open Scope Z_scope.

Module GraphRun.
Import Status Numbers NodeClass Graph GraphSpec GraphFacts GraphOps.

Section Run.
Context {OpDef AttrValue : Type} {registry : OpRegistryInterface OpDef AttrValue}.
Context (addr : nat -> Z).
Abbreviation NodeDef := (NodeDef AttrValue).
Abbreviation Properties := (Properties OpDef AttrValue).
Abbreviation Graph := (Graph OpDef AttrValue).
Abbreviation AGraph := (AGraph OpDef AttrValue).
Abbreviation ANode := (ANode OpDef AttrValue).
Abbreviation rep := (rep addr).

Inductive GOp :=
| OpAddNode (d : NodeDef) (status : Status)
| OpCopyNode (i : Z)
| OpRemoveNode (i : Z)
| OpAddEdge (i cx k cy : Z)
| OpAddControlEdge (i k : Z)
| OpRemoveEdge (j : Z)
| OpSetDevice (i : Z) (d : list Z)
| OpAddAttr (i : Z) (nm : list Z) (val : AttrValue)
| OpClearAttr (i : Z) (nm : list Z)
| OpNewName (prefix : list Z).
(** The id of the new node (none is -1) and the status; the id of the new edge;
    the new name. *)
Inductive GRes := RNode (id : Z) (s : Status) | REdge (id : Z) | RName (nm : list Z) | RDone.

Definition run (o : GOp) : ST Graph GRes :=
  match o with
  | OpAddNode d status =>
      let! '(p, st) := AddNode addr d status in
      if p =? 0 then st_ret (RNode (-1) st) else let! n := node_of p in st_ret (RNode (id_ n) st)
  | OpCopyNode i => let! p := FindNodeId i in let! q := CopyNode addr p in let! n := node_of q in st_ret (RNode (id_ n) OK)
  | OpRemoveNode i => let! p := FindNodeId i in RemoveNode p ;;; st_ret RDone
  | OpAddEdge i cx k cy => let! s := FindNodeId i in let! d := FindNodeId k in let! q := AddEdge addr s cx d cy in let! e := edge_of q in st_ret (REdge (edge_id_ e))
  | OpAddControlEdge i k => let! s := FindNodeId i in let! d := FindNodeId k in let! q := AddControlEdge addr s d in let! e := edge_of q in st_ret (REdge (edge_id_ e))
  | OpRemoveEdge j => let! q := FindEdgeId j in RemoveEdge q ;;; st_ret RDone
  | OpSetDevice i d => let! p := FindNodeId i in set_assigned_device_name p d ;;; st_ret RDone
  | OpAddAttr i nm val => let! p := FindNodeId i in AddAttr addr p nm val ;;; st_ret RDone
  | OpClearAttr i nm => let! p := FindNodeId i in ClearAttr addr p nm ;;; st_ret RDone
  | OpNewName prefix => let! nm := NewName prefix in st_ret (RName nm)
  end.
Fixpoint run_all (os : list GOp) : ST Graph (list GRes) :=
  match os with [] => st_ret [] | o :: os' => let! r := run o in let! rs := run_all os' in st_ret (r :: rs) end.

(** ** The same on abstract graphs *)

Definition update_node (i : Z) (f : ANode -> ANode) (a : AGraph) : AGraph := match a_nodes a !! i with Some v => put_node i (f v) a | None => a end.
Definition spec (o : GOp) (a : AGraph) : AGraph * GRes :=
  match o with
  | OpAddNode d status =>
      match made d status with
      | (Some v, st) => (add_node (mkANode v (a_next_node a) []) a, RNode (a_next_node a) st)
      | (None, st) => (a, RNode (-1) st)
      end
  | OpCopyNode i => match a_nodes a !! i with Some v => (add_node v a, RNode (a_next_node a) OK) | None => (a, RDone) end
  | OpRemoveNode i => (remove_node i a, RDone)
  | OpAddEdge i cx k cy => (add_edge (mkAEdge i cx k cy) a, REdge (a_next_edge a))
  | OpAddControlEdge i k => (add_edge (mkAEdge i kControlSlot k kControlSlot) a, REdge (a_next_edge a))
  | OpRemoveEdge j => (remove_edge j a, RDone)
  | OpSetDevice i d => (update_node i (fun v => mkANode (a_props v) (a_cost v) d) a, RDone)
  | OpAddAttr i nm val => (update_node i (attr_node <[nm := val]>) a, RDone)
  | OpClearAttr i nm => (update_node i (attr_node (delete nm)) a, RDone)
  | OpNewName prefix => (new_name a, RName (prefix ++ bytes_of "/_" ++ FastInt32ToBufferLeft (a_names a)))
  end.
Fixpoint spec_all (os : list GOp) (a : AGraph) : AGraph * list GRes :=
  match os with [] => (a, []) | o :: os' => let '(a, r) := spec o a in let '(a, rs) := spec_all os' a in (a, r :: rs) end.
(** What the callers must see to; ids and names must not run out. *)
Definition live (a : AGraph) (i : Z) : bool := bool_decide (is_Some (a_nodes a !! i)).
Definition in_room (k : Z) : bool := k <? 2 ^ 31 - 1.
Definition legal (o : GOp) (a : AGraph) : bool :=
  match o with
  | OpAddNode _ _ => in_room (a_next_node a)
  | OpCopyNode i => (1 <? i) && live a i && in_room (a_next_node a)
  | OpRemoveNode i => (1 <? i) && live a i
  | OpAddEdge i cx k cy => live a i && live a k && control_ok i cx k cy && in_room (a_next_edge a)
  | OpAddControlEdge i k => live a i && live a k && in_room (a_next_edge a)
  | OpRemoveEdge j => bool_decide (is_Some (a_edges a !! j))
  | OpSetDevice i _ | OpAddAttr i _ _ | OpClearAttr i _ => live a i
  | OpNewName _ => in_room (a_names a)
  end.
Fixpoint legal_all (os : list GOp) (a : AGraph) : bool :=
  match os with [] => true | o :: os' => legal o a && legal_all os' (spec o a).1 end.
(** The new graph: source, sink and the edge between them. *)
Definition end_node (d : OpDef) (nm : list Z) (i : Z) : ANode := mkANode (mkProps d (source_def nm) [] []) i [].
Definition spec_new (d : OpDef) : AGraph :=
  mkAGraph {[ 0 := end_node d (bytes_of "_SOURCE") 0; 1 := end_node d (bytes_of "_SINK") 1 ]} 2 {[ 0 := mkAEdge 0 kControlSlot 1 kControlSlot ]} 1 0.
End Run.

Section Refines.
Context {OpDef AttrValue : Type} {registry : OpRegistryInterface OpDef AttrValue} {laws : OpRegistryLaws OpDef AttrValue registry}.
Context (addr : nat -> Z) {Haddr : addresses addr}.
Abbreviation NodeDef := (NodeDef AttrValue).
Abbreviation Properties := (Properties OpDef AttrValue).
Abbreviation Graph := (Graph OpDef AttrValue).
Abbreviation AGraph := (AGraph OpDef AttrValue).
Abbreviation ANode := (ANode OpDef AttrValue).
Abbreviation rep := (rep addr).
Implicit Types (g : Graph) (a : AGraph).

Definition bounded a : Prop := has_ends a /\ a_next_node a < 2 ^ 31 /\ 0 <= a_names a.
Lemma live_at g a i : rep g a -> live a i = true -> exists p v, at_ (nodes_ g) i = Some p /\ a_nodes a !! i = Some v.
Proof. unfold live. intros H [v Hv]%bool_decide_eq_true. destruct (rep_node addr H _ _ Hv) as (p & Hp & _). eauto. Qed.
Lemma in_room_true k : in_room k = true -> room k.
Proof. apply Z.ltb_lt. Qed.
Lemma wp_id_of {B} g a i p (f : Node -> ST Graph B) (h : Z -> ST Graph B) Q : rep g a -> at_ (nodes_ g) i = Some p -> (forall n, f n = h (id_ n)) -> wp (h i) g Q -> wp (let! n := node_of p in f n) g Q.
Proof. intros H Hp Hf HQ. destruct (rep_live addr H _ _ Hp) as (v & _ & n & k & Hn & _ & _ & Hid & _). wp_step. eapply wp_node_of; [exact Hn|]. by rewrite Hf, Hid. Qed.
Lemma wp_new_edge g a i cx k cy (Q : GRes -> Graph -> Prop) : rep g a -> has_ends a -> live a i = true -> live a k = true -> control_ok i cx k cy = true -> room (a_next_edge a) ->
  (forall g', rep g' (add_edge (mkAEdge i cx k cy) a) -> Q (REdge (a_next_edge a)) g') ->
  wp (let! s := FindNodeId i in let! d := FindNodeId k in let! q := AddEdge addr s cx d cy in let! e := edge_of q in st_ret (REdge (edge_id_ e))) g Q.
Proof.
  intros H Hends Hi Hk Hc Hr HQ. destruct (live_at _ _ _ H Hi) as (s & v & Hs & _), (live_at _ _ _ H Hk) as (d & w & Hd & _).
  wp_step. eapply wp_FindNodeId; [exact Hs|]. wp_step. eapply wp_FindNodeId; [exact Hd|]. wp_step. eapply (wp_AddEdge addr g a i cx k cy); [done..|]. intros q g' H' Hn Hq.
  destruct (rep_live_edge addr H' _ _ Hq) as (e & _ & s' & d' & He & _). wp_step. eapply wp_edge_of; [exact He|]. wp_step. by apply HQ.
Qed.
(** One operation. *)
Lemma run_refines o g a (Q : GRes -> Graph -> Prop) : rep g a -> bounded a -> legal o a = true -> (forall g', rep g' (spec o a).1 -> Q (spec o a).2 g') -> wp (run addr o) g Q.
Proof.
  intros H (Hends & Hnext & Hnames) Hl HQ. destruct o as [d st|i|i|i cx k cy|i k|j|i d|i nm val|i nm|prefix]; cbn [run spec legal] in *; rewrite ?andb_true_iff in Hl.
  - apply in_room_true in Hl. wp_step. eapply (wp_AddNode addr g a); [done..|]. destruct (made d st) as [[v|] st'].
    + intros p g' H' Hp _. destruct (Z.eqb_spec p 0) as [->|Hp0]; [apply at_Some in Hp; tauto|]. eapply (wp_id_of _ _ _ _ _ (fun i => st_ret (RNode i st')) _ H' Hp); [done|]. apply wp_ret. by apply HQ.
    + cbn. apply wp_ret. by apply HQ.
  - destruct Hl as [[Hi Hli] Hr]. destruct (live_at _ _ _ H Hli) as (p & v & Hp & Hv). rewrite Hv in HQ. wp_step. eapply wp_FindNodeId; [exact Hp|]. wp_step.
    eapply (wp_CopyNode addr g a i); [done|by apply in_room_true|done|done|lia|]. intros q g' H' Hq _. eapply (wp_id_of _ _ _ _ _ (fun i => st_ret (RNode i OK)) _ H' Hq); [done|]. apply wp_ret. by apply HQ.
  - destruct Hl as [Hi Hli]. destruct (live_at _ _ _ H Hli) as (p & v & Hp & Hv). wp_step. eapply wp_FindNodeId; [exact Hp|]. wp_step. eapply (wp_RemoveNode addr g a i); [done|done|lia|done|]. intros g' H' _. wp_step. by apply HQ.
  - destruct Hl as [[[Hi Hk] Hc] Hr]. apply (wp_new_edge g a); try done. by apply in_room_true.
  - destruct Hl as [[Hi Hk] Hr]. apply (wp_new_edge g a); try done; [|by apply in_room_true]. unfold control_ok. by destruct (_ || _).
  - apply bool_decide_eq_true in Hl as [e He]. destruct (rep_edge addr H _ _ He) as (q & Hq & _). wp_step. unfold FindEdgeId. wp_step. wp_step. eapply wp_opt; [exact (proj1 (proj1 (at_Some _ _ _) Hq))|].
    wp_step. eapply (wp_RemoveEdge addr g a j); [done..|]. intros g' s d H' _ _ _ _. wp_step. by apply HQ.
  - destruct (live_at _ _ _ H Hl) as (p & v & Hp & Hv). unfold update_node in HQ. rewrite Hv in HQ. wp_step. eapply wp_FindNodeId; [exact Hp|]. wp_step. eapply (wp_set_device addr g a i); [done..|]. intros g' H' _. wp_step. by apply HQ.
  - destruct (live_at _ _ _ H Hl) as (p & v & Hp & Hv). unfold update_node in HQ. rewrite Hv in HQ. wp_step. eapply wp_FindNodeId; [exact Hp|]. wp_step. eapply (wp_mutate_attr addr g a i); [done..|]. intros g' H'. wp_step. by apply HQ.
  - destruct (live_at _ _ _ H Hl) as (p & v & Hp & Hv). unfold update_node in HQ. rewrite Hv in HQ. wp_step. eapply wp_FindNodeId; [exact Hp|]. wp_step. eapply (wp_mutate_attr addr g a i); [done..|]. intros g' H'. wp_step. by apply HQ.
  - apply in_room_true in Hl. unfold room in Hl. unfold NewName. wp_step. wp_step. wp_step. wp_step. wp_step. wp_step. wp_step. pose proof (r_names _ _ _ _ H) as Hnm. rewrite Hnm. apply HQ. rewrite s32_id by lia.
    pose proof H as []. split; done.
Qed.
(** The source, the sink and the bounds stay. *)
Lemma spec_bounded o a : bounded a -> legal o a = true -> bounded (spec o a).1.
Proof.
  intros ([Hs Ht] & Hn & Hnm) Hl. destruct o as [d st|i|i|i cx k cy|i k|j|i d|i nm val|i nm|prefix]; cbn [spec legal] in *; rewrite ?andb_true_iff in Hl; unfold bounded, has_ends, in_room, update_node in *.
  - destruct (made d st) as [[v|] st']; [|done]. cbn. rewrite !lookup_insert_is_Some'. unfold in_room in Hl. split; [tauto|lia].
  - destruct (a_nodes a !! i); [|done]. cbn. rewrite !lookup_insert_is_Some'. split; [tauto|lia].
  - cbn. unfold kSourceId, kSinkId in *. rewrite !lookup_delete_ne by lia. done.
  - done.
  - done.
  - done.
  - destruct (a_nodes a !! i); [|done]. cbn. rewrite !lookup_insert_is_Some'. split; [tauto|lia].
  - destruct (a_nodes a !! i); [|done]. cbn. rewrite !lookup_insert_is_Some'. split; [tauto|lia].
  - destruct (a_nodes a !! i); [|done]. cbn. rewrite !lookup_insert_is_Some'. split; [tauto|lia].
  - cbn. split; [done|lia].
Qed.
Lemma run_all_refines os g a (Q : list GRes -> Graph -> Prop) : rep g a -> bounded a -> legal_all os a = true -> (forall g', rep g' (spec_all os a).1 -> bounded (spec_all os a).1 -> Q (spec_all os a).2 g') -> wp (run_all addr os) g Q.
Proof.
  revert g a Q. induction os as [|o os IH]; intros g a Q H Hb Hl HQ; cbn in *; [apply wp_ret; by apply HQ|]. apply andb_prop in Hl as [Hl Hls].
  wp_step. eapply run_refines; [done..|]. intros g' H'. pose proof (spec_bounded _ _ Hb Hl) as Hb'. destruct (spec o a) as [a' r]. cbn [fst snd] in *. wp_step. eapply IH; [done..|]. intros g2 H2 Hb2.
  wp_step. destruct (spec_all os a') as [a2 rs]. cbn in *. by apply HQ.
Qed.
End Refines.
End GraphRun.
