(* ===== verification/GraphTraversal.v ===== *)
(** * Depth-first search

    The invariant of a depth-first search with an explicit stack, for any
    neighbors; the searches of [GraphAlgorithm] follow it. *)
From S2P Require Import Prelude Status Numbers EdgeSet Graph GraphFacts GraphOps.
From stdpp Require Import gmap relations.
Open Scope Z_scope.

Module GraphTraversal.
Import Status Numbers NodeClass Graph GraphSpec GraphFacts GraphOps GraphRun GraphAlgorithm.

Section Search.
Context (nb : Z -> list Z) (root : Z).
Definition arc (p q : Z) : Prop := q ∈ nb p.
Abbreviation reach := (rtc arc).
Abbreviation Stack := (list (Z * bool)).
(** Visited: entered, and maybe left. *)
Definition vis (s : Stack) (o : list Z) (p : Z) : Prop := (p, true) ∈ s \/ p ∈ o.
Definition grays (s : Stack) : list Z := omap (fun e : Z * bool => if e.2 then Some e.1 else None) s.
Record search (s : Stack) (o : list Z) : Prop := mkSearch {
  s_reach : forall p b, (p, b) ∈ s -> reach root p;
  s_nodup : NoDup (grays s ++ o);
  s_split : forall top u rest, s = top ++ (u, true) :: rest ->
    (forall v, v ∈ nb u -> vis s o v \/ (v, false) ∈ top) /\ forall w b, (w, b) ∈ top -> reach u w;
  s_order : forall l1 u l2, o = l1 ++ u :: l2 -> forall v, v ∈ nb u -> vis s o v /\ (v ∈ l1 \/ reach v u);
  s_root : vis s o root \/ (root, false) ∈ s;
  s_left : forall p, p ∈ o -> reach root p
}.

Lemma elem_of_grays s p : p ∈ grays s <-> (p, true) ∈ s.
Proof.
  unfold grays. rewrite list_elem_of_omap. split.
  - intros ([q b] & Hq & Hp). destruct b; [|done]. by injection Hp as ->.
  - intros Hp. by exists (p, true).
Qed.
Lemma search_start : search [(root, false)] [].
Proof.
  split.
  - intros p b [= -> ->]%list_elem_of_singleton. constructor.
  - constructor.
  - intros [|[w b] [|]] u rest; done.
  - intros [|] u l2; done.
  - right. by left.
  - by intros p ?%elem_of_nil.
Qed.
Lemma search_skip n s o : search ((n, false) :: s) o -> vis s o n -> search s o.
Proof.
  intros [] Hn. assert (Hvis : forall p, vis ((n, false) :: s) o p -> vis s o p) by (intros p [[[=]|?]%elem_of_cons|?]; [by left|by right]).
  split; try done.
  - intros p b Hp. apply (s_reach0 p b). by right.
  - intros top u rest ->. destruct (s_split0 ((n, false) :: top) u rest eq_refl) as [H1 H2]. split.
    + intros v Hv. destruct (H1 v Hv) as [?|[[= ->]|?]%elem_of_cons]; [left; by apply Hvis|by left|by right].
    + intros w b Hw. apply (H2 w b). by right.
  - intros l1 u l2 Ho v Hv. destruct (s_order0 l1 u l2 Ho v Hv). split; [by apply Hvis|done].
  - destruct s_root0 as [?|[[= ->]|?]%elem_of_cons]; [left; by apply Hvis|by left|by right].
Qed.
(** The neighbors that are not visited yet are pushed over the entered node. *)
Lemma search_enter n s o pushed : search ((n, false) :: s) o -> ~ vis s o n ->
  (forall e, e ∈ pushed -> e.2 = false /\ e.1 ∈ nb n) -> (forall v, v ∈ nb n -> vis ((n, true) :: s) o v \/ (v, false) ∈ pushed) ->
  search (pushed ++ (n, true) :: s) o.
Proof.
  intros [] Hn Hpush Hall.
  assert (Hgray : grays (pushed ++ (n, true) :: s) = n :: grays s).
  { unfold grays. rewrite omap_app. cbn. replace (omap _ pushed) with (@nil Z); [done|]. symmetry. clear -Hpush. induction pushed as [|e l IH]; [done|]. cbn. rewrite (proj1 (Hpush e ltac:(by left))). apply IH. intros e' He'. apply Hpush. by right. }
  assert (Hvis : forall p, vis (pushed ++ (n, true) :: s) o p <-> p = n \/ vis s o p).
  { intros p. unfold vis. rewrite <- !elem_of_grays, Hgray, elem_of_cons. tauto. }
  assert (Hold : forall p, vis ((n, false) :: s) o p <-> vis s o p) by (intros p; unfold vis; rewrite elem_of_cons; naive_solver).
  assert (Hreach : reach root n) by (eapply s_reach0; by left).
  split; try done.
  - intros p b [Hp|[[= -> _]|Hp]%elem_of_cons]%elem_of_app; [|done|apply (s_reach0 p b); by right].
    destruct (Hpush _ Hp) as [_ Hp']. eapply rtc_r; [exact Hreach|exact Hp'].
  - rewrite Hgray. cbn. constructor; [|done]. rewrite elem_of_app, elem_of_grays. exact Hn.
  - intros top u rest Heq. destruct (decide (u = n /\ top = pushed)) as [[-> ->]|Hne].
    + split; [|intros w b Hw; destruct (Hpush _ Hw) as [_ Hw']; by apply rtc_once]. intros v Hv. destruct (Hall v Hv) as [[[[= ->]|Hv']%elem_of_cons|Hv']|Hv']; [left; apply Hvis; by left|left; apply Hvis; right; by left|left; apply Hvis; right; by right|by right].
    + assert (exists top', top = pushed ++ (n, true) :: top' /\ s = top' ++ (u, true) :: rest) as (top' & -> & Hs).
      { apply app_eq_app in Heq as (l & [[-> Hl]|[-> Hl]]).
        - destruct l as [|e l]; [cbn in Hl; injection Hl as <- <-; rewrite app_nil_r in Hne; by destruct Hne|]. injection Hl as <- ->. exfalso. destruct (Hpush (u, true)) as [Hf _]; [apply elem_of_app; right; by left|done].
        - destruct l as [|e l]; [cbn in Hl; injection Hl as <- <-; rewrite app_nil_r in Hne; by destruct Hne|]. injection Hl as <- ->. by exists l. }
      destruct (s_split0 ((n, false) :: top') u rest) as [H1 H2]; [by rewrite Hs|]. assert (Hun : reach u n) by (apply (H2 n false); by left). split.
      * intros v Hv. destruct (H1 v Hv) as [?%Hold|[[= ->]|?]%elem_of_cons]; [left; apply Hvis; by right|left; apply Hvis; by left|right; set_solver].
      * intros w b [Hw|[[= -> _]|Hw]%elem_of_cons]%elem_of_app; [|done|apply (H2 w b); by right]. destruct (Hpush _ Hw) as [_ Hw']. eapply rtc_r; [exact Hun|exact Hw'].
  - intros l1 u l2 Ho v Hv. destruct (s_order0 l1 u l2 Ho v Hv) as [H1 H2]. split; [apply Hvis; right; by apply Hold|done].
  - destruct s_root0 as [?%Hold|[[= ->]|Hr]%elem_of_cons]; [left; apply Hvis; by right|left; apply Hvis; by left|right; apply elem_of_app; right; by right].
Qed.
Lemma search_leave n s o : search ((n, true) :: s) o -> search s (o ++ [n]).
Proof.
  intros []. assert (Hvis : forall p, vis s (o ++ [n]) p <-> vis ((n, true) :: s) o p) by (intros p; unfold vis; rewrite elem_of_cons, elem_of_app, list_elem_of_singleton; assert ((p, true) = (n, true) <-> p = n) by (split; [by intros [= ->]|by intros ->]); tauto).
  destruct (s_split0 [] n s eq_refl) as [Hnb _].
  split.
  - intros p b Hp. apply (s_reach0 p b). by right.
  - rewrite app_assoc. rewrite (Permutation_app_comm (grays s ++ o) [n]). exact s_nodup0.
  - intros top u rest Hs. destruct (s_split0 ((n, true) :: top) u rest) as [H1 H2]; [by rewrite Hs|]. split.
    + intros v Hv. destruct (H1 v Hv) as [?|[[=]|?]%elem_of_cons]; [left; by apply Hvis|by right].
    + intros w b Hw. apply (H2 w b). by right.
  - intros l1 u l2 Ho v Hv. destruct l2 as [|x l2 _] using rev_ind.
    + apply app_inj_tail in Ho as [-> <-]. destruct (Hnb v Hv) as [Hv'|?%elem_of_nil]; [|done]. split; [by apply Hvis|].
      destruct Hv' as [[[= ->]|Hv']%elem_of_cons|Hv']; [right; done| |by left]. right. apply list_elem_of_split in Hv' as (top & rest & ->). destruct (s_split0 ((n, true) :: top) v rest eq_refl) as [_ H2]. apply (H2 n true). by left.
    + rewrite app_comm_cons, app_assoc in Ho. apply app_inj_tail in Ho as [-> ->]. destruct (s_order0 l1 u l2 eq_refl v Hv) as [H1 H2]. split; [by apply Hvis|done].
  - destruct s_root0 as [?|[[=]|?]%elem_of_cons]; [left; by apply Hvis|by right].
  - intros p [Hp| ->%list_elem_of_singleton]%elem_of_app; [by apply s_left0|]. apply (s_reach0 n true). by left.
Qed.
(** The order of a complete search: the nodes that the root reaches, each once,
    and each node after its neighbors, unless they reach it back. *)
Lemma search_end o : search [] o -> NoDup o /\ (forall p, p ∈ o <-> reach root p) /\
  forall l1 u l2, o = l1 ++ u :: l2 -> forall v, v ∈ nb u -> v ∈ l1 \/ reach v u.
Proof.
  intros []. split; [done|]. split; [|intros l1 u l2 Ho v Hv; by destruct (s_order0 l1 u l2 Ho v Hv)].
  assert (Hvis : forall p, vis [] o p -> p ∈ o) by (by intros p [?%elem_of_nil|?]). intros p. split; [apply s_left0|]. intros Hp.
  assert (Hroot : root ∈ o) by (destruct s_root0 as [?|?%elem_of_nil]; [by apply Hvis|done]). clear -Hp Hroot s_order0 Hvis. induction Hp as [q|q r t Hqr _ IH]; [done|]. apply IH.
  apply list_elem_of_split in Hroot as (l1 & l2 & Ho). destruct (s_order0 l1 q l2 Ho r Hqr) as [Hr _]. by apply Hvis.
Qed.
End Search.

(** ** The loop *)

Section Loop.
Context {OpDef AttrValue : Type} {registry : OpRegistryInterface OpDef AttrValue}.
Context (addr : nat -> Z) {Haddr : addresses addr}.
Abbreviation Graph := (Graph OpDef AttrValue).
Abbreviation AGraph := (AGraph OpDef AttrValue).
Abbreviation rep := (rep addr).
Implicit Types (g : Graph) (a : AGraph).

Definition live_node g p : Prop := exists i, at_ (nodes_ g) i = Some p.
(** The nodes at the other ends of a node's edges. *)
Definition other_ends (edges : Node -> EdgeSet.EdgeSet) (f : Edge -> Z) g p : list Z :=
  match node_heap g !! p with Some n => omap (fun q => f <$> edge_heap g !! q) (EdgeSet.elements (edges n)) | None => [] end.
Definition outs g := other_ends out_edges_ dst_ g.
Definition ins g := other_ends in_edges_ src_ g.
Lemma ends_Done (f : Edge -> Z) g qs : Forall (fun q => is_Some (edge_heap g !! q)) qs -> ends f qs g = Done (omap (fun q => f <$> edge_heap g !! q) qs, g).
Proof.
  induction 1 as [|q qs [e He] _ IH]; [done|]. cbn [ends]. rewrite (st_bind_eq _ _ _ e g) by (unfold edge_of; by rewrite He). rewrite (st_bind_eq _ _ _ _ _ IH). cbn. by rewrite He.
Qed.
Section Neighbors.
Context {g : Graph} {a : AGraph} (H : rep g a).

(** Along the edges, or against them. *)
Definition way (edges : Node -> EdgeSet.EdgeSet) (far : Edge -> Z) (near afar : AEdge -> Z) : Prop :=
  edges = out_edges_ /\ far = dst_ /\ near = e_src /\ afar = e_dst \/ edges = in_edges_ /\ far = src_ /\ near = e_dst /\ afar = e_src.
Lemma way_side edges far near afar : way edges far near afar -> side edges near.
Proof. intros [(-> & _ & -> & _)|(-> & _ & -> & _)]; [by right|by left]. Qed.
Lemma way_far edges far near afar j q e : way edges far near afar -> edge_rel g j q e -> exists c, edge_heap g !! q = Some c /\ at_ (nodes_ g) (afar e) = Some (far c).
Proof. intros Hw (s & d & Hq & Hs & Hd). eexists. split; [exact Hq|]. by destruct Hw as [(_ & -> & _ & ->)|(_ & -> & _ & ->)]. Qed.
Lemma way_edges edges far near afar i p n : way edges far near afar -> at_ (nodes_ g) i = Some p -> node_heap g !! p = Some n ->
  Forall (fun q => exists j e c, a_edges a !! j = Some e /\ near e = i /\ edge_heap g !! q = Some c /\ at_ (nodes_ g) (afar e) = Some (far c)) (EdgeSet.elements (edges n)).
Proof.
  intros Hw Hp Hn. apply Forall_forall. intros q Hq. destruct (side_incident addr _ _ _ _ _ _ _ (way_side _ _ _ _ Hw) H Hp Hn) as [_ Hin].
  apply Hin in Hq as (j & e & Hj & He & Hf). destruct (rep_live_edge addr H _ _ Hj) as (e' & He' & Hr). rewrite He in He'. injection He' as <-. destruct (way_far _ _ _ _ _ _ _ Hw Hr) as (c & Hc & Hfar). eauto 10.
Qed.
(** The neighbors are those of the abstract graph. *)
Lemma other_ends_spec edges far near afar i p q : way edges far near afar -> at_ (nodes_ g) i = Some p ->
  q ∈ other_ends edges far g p <-> exists j e, a_edges a !! j = Some e /\ near e = i /\ at_ (nodes_ g) (afar e) = Some q.
Proof.
  intros Hw Hp. destruct (rep_live addr H _ _ Hp) as (v & _ & n & k & Hn & _). unfold other_ends. rewrite Hn, list_elem_of_omap. pose proof (way_edges _ _ _ _ _ _ _ Hw Hp Hn) as Hall. split.
  - intros (q0 & Hq0 & Hf). apply (proj1 (Forall_forall _ _) Hall) in Hq0 as (j & e & c & He & Hne & Hc & Hfar). rewrite Hc in Hf. injection Hf as <-. eauto.
  - intros (j & e & He & Hne & Hq). destruct (rep_edge addr H _ _ He) as (q0 & Hj & Hr). destruct (way_far _ _ _ _ _ _ _ Hw Hr) as (c & Hc & Hfar). exists q0. rewrite Hc. split; [|cbn; congruence].
    destruct (side_incident addr _ _ _ _ _ _ _ (way_side _ _ _ _ Hw) H Hp Hn) as [_ Hin]. apply Hin. eauto.
Qed.
Lemma other_ends_live edges far near afar i p : way edges far near afar -> at_ (nodes_ g) i = Some p -> Forall (live_node g) (other_ends edges far g p).
Proof. intros Hw Hp. apply Forall_forall. intros q Hq. eapply other_ends_spec in Hq as (j & e & _ & _ & Hq); [by eexists|done|done]. Qed.
Lemma neighbors_Done edges far near afar i p : way edges far near afar -> at_ (nodes_ g) i = Some p ->
  (let! n := node_of p in ends far (EdgeSet.elements (edges n))) g = Done (other_ends edges far g p, g).
Proof.
  intros Hw Hp. destruct (rep_live addr H _ _ Hp) as (v & _ & n & k & Hn & _). rewrite (st_bind_eq _ _ _ n g) by (unfold node_of; by rewrite Hn). unfold other_ends. rewrite Hn. apply ends_Done.
  eapply Forall_impl; [by eapply way_edges|]. intros q (j & e & c & _ & _ & Hc & _). by eexists.
Qed.
Lemma length_omap {A B} (f : A -> option B) l : (length (omap f l) <= length l)%nat.
Proof. induction l as [|x l IH]; cbn; [lia|]. destruct (f x); cbn; lia. Qed.
Lemma other_ends_degree edges far near afar p : way edges far near afar -> (length (other_ends edges far g p) <= degree g p)%nat.
Proof.
  intros Hw. unfold other_ends, degree. destruct (node_heap g !! p) as [n|]; [|cbn; lia]. etransitivity; [apply length_omap|]. destruct Hw as [(-> & _)|(-> & _)]; lia.
Qed.

(** ** The loop *)

Definition marks (visited : list bool) (s : list (Z * bool)) (o : list Z) : Prop :=
  length visited = length (nodes_ g) /\ forall i p, at_ (nodes_ g) i = Some p -> exists b, visited !!z i = Some b /\ (b = true <-> vis s o p).
Lemma push_spec outs s o visited s0 : marks visited s o -> Forall (live_node g) outs -> exists pushed,
  push_neighbors outs visited s0 g = Done (pushed ++ s0, g) /\ (forall e, e ∈ pushed -> e.2 = false /\ e.1 ∈ outs) /\ (forall v, v ∈ outs -> vis s o v \/ (v, false) ∈ pushed) /\ (length pushed <= length outs)%nat.
Proof.
  intros [Hlen Hm] Hl. revert s0. induction Hl as [|p ps [i Hp] _ IH]; intros s0; cbn [push_neighbors].
  { exists []. split; [done|]. split; [by intros e ?%elem_of_nil|]. split; [by intros v ?%elem_of_nil|done]. }
  destruct (rep_live addr H _ _ Hp) as (v & _ & n & k & Hn & _ & _ & Hid & _). destruct (Hm i p Hp) as (b & Hb & Hbv).
  rewrite (st_bind_eq _ _ _ n g) by (unfold node_of; by rewrite Hn). rewrite Hid, (st_bind_eq _ _ _ b g) by (by rewrite Hb).
  destruct b.
  - destruct (IH s0) as (pushed & -> & H1 & H2 & H3). exists pushed. split; [done|]. split; [intros e He; destruct (H1 e He); split; [done|by right]|]. split; [|cbn; lia].
    intros w [->|Hw]%elem_of_cons; [left; by apply Hbv|by apply H2].
  - destruct (IH ((p, false) :: s0)) as (pushed & -> & H1 & H2 & H3). exists (pushed ++ [(p, false)]). split; [by rewrite <- app_assoc|]. split; [|split; [|rewrite length_app; cbn; lia]].
    + intros e [He| ->%list_elem_of_singleton]%elem_of_app; [destruct (H1 e He); split; [done|by right]|split; [done|by left]].
    + intros w [->|Hw]%elem_of_cons; [right; apply elem_of_app; right; by left|]. destruct (H2 w Hw); [by left|right; apply elem_of_app; by left].
Qed.
(** What the nodes that are not visited may still push. *)
Definition todo (visited : list bool) : nat := list_sum (zip_with (fun p (b : bool) => if b then O else S (degree g p)) (nodes_ g) visited).
Lemma zip_sum_insert {A B} (f : A -> B -> nat) l k i x y y' : l !! i = Some x -> k !! i = Some y -> (list_sum (zip_with f l (<[i := y']> k)) + f x y = list_sum (zip_with f l k) + f x y')%nat.
Proof.
  revert l k. induction i as [|i IH]; intros [|a0 l] [|b0 k]; try done; cbn.
  - intros [= ->] [= ->]. lia.
  - intros Hl Hk. rewrite <- !Nat.add_assoc. f_equal. exact (IH l k Hl Hk).
Qed.
Lemma todo_visit visited i p : at_ (nodes_ g) i = Some p -> visited !!z i = Some false -> (todo (zinsert visited i true) + S (degree g p) = todo visited)%nat.
Proof.
  intros [Hp _]%at_Some Hv. unfold todo, zinsert. unfold zlookup in Hp, Hv. destruct (i <? 0); [done|]. pose proof (zip_sum_insert (fun p (b : bool) => if b then O else S (degree g p)) _ _ _ _ _ true Hp Hv). cbn in *. lia.
Qed.
Lemma marks_leave visited n s o : marks visited ((n, true) :: s) o -> marks visited s (o ++ [n]).
Proof.
  intros [Hl Hm]. split; [done|]. intros i p Hp. destruct (Hm i p Hp) as (b & Hb & Hbv). exists b. split; [done|]. rewrite Hbv. unfold vis. rewrite elem_of_cons, elem_of_app, list_elem_of_singleton.
  assert ((p, true) = (n, true) <-> p = n) by (split; [by intros [= ->]|by intros ->]). tauto.
Qed.
Lemma marks_pop visited n s o : marks visited ((n, false) :: s) o -> marks visited s o.
Proof.
  intros [Hl Hm]. split; [done|]. intros i p Hp. destruct (Hm i p Hp) as (b & Hb & Hbv). exists b. split; [done|]. rewrite Hbv. unfold vis. rewrite elem_of_cons. split; [|tauto]. intros [[[=]|?]|?]; tauto.
Qed.
Lemma marks_enter visited i n s o : marks visited s o -> at_ (nodes_ g) i = Some n -> marks (zinsert visited i true) ((n, true) :: s) o.
Proof.
  intros [Hl Hm] Hn. split; [unfold zinsert; destruct (i <? 0); [done|]; by rewrite length_insert|]. intros j p Hp. pose proof (at_range _ _ _ Hn) as Hr. destruct (decide (j = i)) as [->|Hji].
  - exists true. rewrite Hn in Hp. injection Hp as <-. rewrite zlookup_zinsert_eq by (unfold zlength in *; rewrite Hl; lia). split; [done|]. split; [intros _; left; by left|done].
  - rewrite zlookup_zinsert_ne by done. destruct (Hm j p Hp) as (b & Hb & Hbv). exists b. split; [done|]. rewrite Hbv. unfold vis. rewrite elem_of_cons. split; [tauto|]. intros [[[= ->]|?]|?]; [|tauto..].
    exfalso. apply Hji. by eapply (live_inj addr H).
Qed.
Lemma marks_pushed visited pushed s o : (forall e, e ∈ pushed -> e.2 = false) -> marks visited s o -> marks visited (pushed ++ s) o.
Proof.
  intros Hf [Hl Hm]. split; [done|]. intros j p Hp. destruct (Hm j p Hp) as (b & Hb & Hbv). exists b. split; [done|]. rewrite Hbv. unfold vis. rewrite elem_of_app. split; [tauto|]. intros [[Hp'|?]|?]; [|tauto..]. by apply Hf in Hp'.
Qed.
Lemma left_app e1 e2 : left (e1 ++ e2) = left e1 ++ left e2.
Proof. apply omap_app. Qed.
(** The loop is a search, and ends. *)
Lemma dfs_loop_correct edges far near afar neighbors enter root : way edges far near afar -> (forall p, neighbors p = (let! n := node_of p in ends far (EdgeSet.elements (edges n)))) ->
  forall fuel s visited ev, search (other_ends edges far g) root s (left ev) -> marks visited s (left ev) -> (forall p b, (p, b) ∈ s -> live_node g p) ->
  (length s + todo visited < fuel)%nat ->
  exists ev', dfs_loop fuel neighbors enter true s visited ev g = Done (ev', g) /\ search (other_ends edges far g) root [] (left ev').
Proof.
  intros Hw Hnb. induction fuel as [|fuel IH]; intros s visited ev Hs Hm Hl Hfuel; [lia|]. destruct s as [|[n [|]] s]; cbn [dfs_loop].
  - by exists ev.
  - destruct (IH s visited (ev ++ [Leave n])) as (ev' & -> & Hs').
    + rewrite left_app. by apply search_leave.
    + rewrite left_app. by apply marks_leave.
    + intros p b Hp. apply (Hl p b). by right.
    + cbn in Hfuel. lia.
    + by exists ev'.
  - destruct (Hl n false) as [i Hn]; [by left|]. destruct (rep_live addr H _ _ Hn) as (v & _ & x & k & Hx & _ & _ & Hid & _). rewrite (st_bind_eq _ _ _ x g) by (unfold node_of; by rewrite Hx).
    destruct Hm as [Hlen Hm]. destruct (Hm i n Hn) as (b & Hb & Hbv). rewrite Hid, (st_bind_eq _ _ _ b g) by (by rewrite Hb). pose proof (marks_pop visited n s _ (conj Hlen Hm)) as Hm'.
    assert (Hbv' : b = true <-> vis s (left ev) n) by (destruct (proj2 Hm' i n Hn) as (b' & Hb' & <-); by rewrite Hb in Hb'; injection Hb' as <-).
    destruct b.
    + apply IH; [eapply search_skip; [exact Hs|by apply Hbv']|done|intros p b' Hp; apply (Hl p b'); by right|cbn in Hfuel; lia].
    + assert (Hev : left (if enter then ev ++ [Enter n] else ev) = left ev) by (destruct enter; [rewrite left_app; cbn; by rewrite app_nil_r|done]).
      rewrite Hnb. rewrite (st_bind_eq _ _ _ _ _ (neighbors_Done _ _ _ _ _ _ Hw Hn)). pose proof (marks_enter visited i n s _ Hm' Hn) as Hm2. pose proof (other_ends_live _ _ _ _ _ _ Hw Hn) as Hol.
      destruct (push_spec (other_ends edges far g n) _ _ _ ((n, true) :: s) Hm2 Hol) as (pushed & Hpush & H1 & H2 & H3). rewrite (st_bind_eq _ _ _ _ _ Hpush).
      apply IH; rewrite ?Hev.
      * apply search_enter; [done|intros Hv; apply Hbv' in Hv; done|done|done].
      * apply marks_pushed; [intros e He; by apply H1|done].
      * intros p b' [Hp|[[= -> _]|Hp]%elem_of_cons]%elem_of_app; [|by eexists|apply (Hl p b'); by right]. destruct (H1 _ Hp) as [_ Hp']. by apply (proj1 (Forall_forall _ _) Hol).
      * pose proof (todo_visit visited i n Hn Hb). pose proof (other_ends_degree _ _ _ _ n Hw). rewrite length_app. cbn [length] in *. lia.
Qed.
End Neighbors.
End Loop.
End GraphTraversal.
