(* ===== verification/GraphPasses.v ===== *)
(** * Passes over a graph

    The iteration over the nodes, and the passes of [GraphAlgorithm] that change
    the graph. *)
From S2P Require Import Prelude Status Numbers EdgeSet Graph GraphFacts GraphOps GraphTraversal.
From stdpp Require Import gmap relations.
Open Scope Z_scope.

Module GraphPasses.
Import Status Numbers NodeClass Graph GraphSpec GraphFacts GraphOps GraphRun GraphAlgorithm GraphTraversal.

Section Passes.
Context {OpDef AttrValue : Type} {registry : OpRegistryInterface OpDef AttrValue} {laws : OpRegistryLaws OpDef AttrValue registry}.
Context (addr : nat -> Z) {Haddr : addresses addr}.
Abbreviation Graph := (Graph OpDef AttrValue).
Abbreviation AGraph := (AGraph OpDef AttrValue).
Abbreviation rep := (rep addr).
Implicit Types (g : Graph) (a : AGraph).

(** ** The nodes in the order of their ids *)

Definition live_from g (k : Z) : list Z := omap (at_ (nodes_ g)) (seqZ k (zlength (nodes_ g) - k)).
Lemma seqZ_step k n : 0 < n -> seqZ k n = k :: seqZ (k + 1) (n - 1).
Proof. intros Hn. rewrite seqZ_cons by done. f_equal; lia. Qed.
Lemma live_from_step g k : 0 <= k < zlength (nodes_ g) -> live_from g k = match at_ (nodes_ g) k with Some p => p :: live_from g (k + 1) | None => live_from g (k + 1) end.
Proof. intros Hk. unfold live_from. rewrite seqZ_step by lia. replace (zlength (nodes_ g) - k - 1) with (zlength (nodes_ g) - (k + 1)) by lia. cbn. by destruct (at_ (nodes_ g) k). Qed.
Lemma live_from_end g : live_from g (zlength (nodes_ g)) = [].
Proof. unfold live_from. by rewrite Z.sub_diag, seqZ_nil by lia. Qed.
Lemma find_Done g k : 0 <= k < zlength (nodes_ g) -> exists p, nodes_ g !!z k = Some p /\ FindNodeId k g = Done (p, g) /\ at_ (nodes_ g) k = if p =? 0 then None else Some p.
Proof.
  intros [p Hp]%zlookup_is_Some. exists p. split; [done|]. split; [|unfold at_; by rewrite Hp]. unfold FindNodeId. rewrite (st_bind_eq _ _ _ g g) by done. by rewrite Hp.
Qed.
Lemma NodeIter_next_Done g fuel id : zlength (nodes_ g) < 2 ^ 31 -> 0 <= id < zlength (nodes_ g) -> (Z.to_nat (zlength (nodes_ g) - id) <= fuel)%nat ->
  exists id', NodeIter_next fuel id g = Done (id', g) /\ id < id' <= zlength (nodes_ g) /\ (id' = zlength (nodes_ g) \/ is_Some (at_ (nodes_ g) id')) /\ live_from g (id + 1) = live_from g id'.
Proof.
  intros Hlen. assert (Hnum : num_node_ids g = zlength (nodes_ g)) by (apply s32_id; unfold zlength in *; lia).
  revert id. induction fuel as [|fuel IH]; intros id Hid Hfuel; [lia|]. cbn [NodeIter_next]. rewrite (st_bind_eq _ _ _ g g) by done. rewrite Hnum.
  rewrite (st_bind_eq _ _ _ tt g) by (unfold st_check; by rewrite (proj2 (Z.leb_le _ _)) by lia). cbv zeta. destruct (Z.leb_spec (zlength (nodes_ g)) (id + 1)) as [Hle|Hlt].
  - exists (id + 1). split; [done|]. split; [lia|]. split; [left; lia|done].
  - destruct (find_Done g (id + 1) ltac:(lia)) as (p & Hp & Hf & Hat). rewrite (st_bind_eq _ _ _ p g Hf). destruct (Z.eqb_spec p 0) as [Hp0|Hp0]; cbn [negb].
    + destruct (IH (id + 1) ltac:(lia) ltac:(lia)) as (id' & -> & H1 & H2 & H3). exists id'. split; [done|]. split; [lia|]. split; [done|]. rewrite live_from_step by lia. by rewrite Hat.
    + exists (id + 1). split; [done|]. split; [lia|]. split; [right; rewrite Hat; by eexists|done].
Qed.
Lemma nodes_from_Done g fuel id : zlength (nodes_ g) < 2 ^ 31 -> 0 <= id <= zlength (nodes_ g) -> (id = zlength (nodes_ g) \/ is_Some (at_ (nodes_ g) id)) ->
  (Z.to_nat (zlength (nodes_ g) - id) < fuel)%nat -> nodes_from fuel id g = Done (live_from g id, g).
Proof.
  intros Hlen. assert (Hnum : num_node_ids g = zlength (nodes_ g)) by (apply s32_id; unfold zlength in *; lia).
  revert id. induction fuel as [|fuel IH]; intros id Hid Hl Hfuel; [lia|]. cbn [nodes_from]. rewrite (st_bind_eq _ _ _ g g) by done. rewrite Hnum. destruct (Z.eqb_spec id (zlength (nodes_ g))) as [->|Hne].
  - by rewrite live_from_end.
  - destruct Hl as [?|[p Hp]]; [done|]. destruct (find_Done g id ltac:(lia)) as (p' & Hp' & Hf & Hat). rewrite (st_bind_eq _ _ _ p' g Hf).
    destruct (NodeIter_next_Done g (S (length (nodes_ g))) id Hlen ltac:(lia)) as (id' & Hn & H1 & H2 & H3); [unfold zlength in *; lia|]. rewrite (st_bind_eq _ _ _ id' g Hn).
    rewrite (st_bind_eq _ _ _ _ g (IH id' ltac:(lia) H2 ltac:(lia))). unfold st_ret. rewrite (live_from_step g id), Hp, H3 by lia. rewrite Hp in Hat. destruct (p' =? 0); congruence.
Qed.
Lemma nodes_Done g a : rep g a -> bounded a -> nodes g = Done (live_from g 0, g).
Proof.
  intros H ([[v Hv] _] & Hn & _). unfold nodes. rewrite (st_bind_eq _ _ _ g g) by done. destruct (rep_node addr H _ _ Hv) as (p & Hp & _). pose proof (at_range _ _ _ Hp). pose proof (r_len_n _ _ _ _ H).
  apply nodes_from_Done; [lia|lia|right; by eexists|unfold zlength in *; lia].
Qed.
(** The live nodes with their ids. *)
Definition ids_of a : list Z := List.filter (fun i => bool_decide (is_Some (a_nodes a !! i))) (seqZ 0 (a_next_node a)).
Definition located g : list Z -> list Z -> Prop := Forall2 (fun p i => at_ (nodes_ g) i = Some p).
Lemma elem_of_ids x g a i : rep_with addr x g a -> i ∈ ids_of a <-> is_Some (a_nodes a !! i).
Proof.
  intros H. unfold ids_of. rewrite list_elem_of_In, filter_In, bool_decide_eq_true, <- list_elem_of_In, elem_of_seqZ. split; [tauto|]. intros [v Hv]. split; [|by eexists]. apply (node_range addr H) in Hv. lia.
Qed.
Lemma ids_NoDup a : NoDup (ids_of a).
Proof. apply NoDup_ListNoDup, List.NoDup_filter, NoDup_ListNoDup, NoDup_seqZ. Qed.
Lemma live_from_located g a : rep g a -> located g (live_from g 0) (ids_of a).
Proof.
  intros H. unfold live_from, ids_of, located. rewrite (r_len_n _ _ _ _ H), Z.sub_0_r. generalize (seqZ 0 (a_next_node a)). intros l. induction l as [|i l IH]; [constructor|]. cbn.
  pose proof (r_nodes _ _ _ _ H i) as Hr. inversion Hr as [p v Hpv Hp Hv|Hp Hv]; cbn.
  - constructor; [done|exact IH].
  - exact IH.
Qed.

(** ** Reverse reachability *)

Definition step a (i k : Z) : Prop := exists j e, a_edges a !! j = Some e /\ e_src e = i /\ e_dst e = k.
Definition back_arc g (p q : Z) : Prop := q ∈ ins g p.
Lemma visit_all_spec qs visited queue : exists new, visit_all qs visited queue = (list_to_set new ∪ visited, queue ++ new) /\
  (forall q, q ∈ new -> q ∈ qs) /\ (forall q, q ∈ qs -> q ∈ visited \/ q ∈ new) /\ NoDup new /\ (forall q, q ∈ new -> q ∉ visited).
Proof.
  revert visited queue. induction qs as [|q qs IH]; intros visited queue; cbn [visit_all].
  - exists []. rewrite app_nil_r. split; [f_equal; set_solver|]. split; [done|]. split; [by intros ? ?%elem_of_nil|]. split; [constructor|by intros ? ?%elem_of_nil].
  - case_bool_decide as Hq.
    + destruct (IH visited queue) as (new & -> & H1 & H2 & H3 & H4). exists new. split; [done|]. split; [intros; right; auto|]. split; [|done]. intros r [->|Hr]%elem_of_cons; [by left|auto].
    + destruct (IH ({[q]} ∪ visited) (queue ++ [q])) as (new & -> & H1 & H2 & H3 & H4). exists (q :: new). split; [rewrite <- app_assoc; f_equal; set_solver|]. split; [|split; [|split]].
      * intros r [->|Hr]%elem_of_cons; [by left|right; auto].
      * intros r [->|Hr]%elem_of_cons; [right; by left|]. destruct (H2 r Hr) as [[->%elem_of_singleton|?]%elem_of_union|?]; [right; by left|by left|right; by right].
      * constructor; [|done]. intros Hn. apply (H4 q Hn). set_solver.
      * intros r [->|Hr]%elem_of_cons; [done|]. intros Hv. apply (H4 r Hr). set_solver.
Qed.
(** The nodes that are not visited yet. *)
Definition unseen g (visited : gset Z) : nat := length (List.filter (fun p => bool_decide (p ∉ visited)) (nodes_ g)).
Lemma filter_split (l new : list Z) (V : gset Z) :
  (length (List.filter (fun p => bool_decide ((p ∈ new) /\ p ∉ V)) l) + length (List.filter (fun p => bool_decide (p ∉ (list_to_set new ∪ V : gset Z))) l) = length (List.filter (fun p => bool_decide (p ∉ V)) l))%nat.
Proof.
  induction l as [|p l IH]; [done|]. cbn [List.filter]. assert (E : p ∉ (list_to_set new ∪ V : gset Z) <-> (p ∉ new) /\ p ∉ V) by (rewrite elem_of_union, elem_of_list_to_set; tauto).
  rewrite (bool_decide_ext _ _ E). repeat case_bool_decide; cbn [length]; try tauto; lia.
Qed.
Lemma filter_shrink (l new : list Z) (V : gset Z) : NoDup new -> (forall q, q ∈ new -> q ∈ l /\ q ∉ V) ->
  (length new + length (List.filter (fun p => bool_decide (p ∉ (list_to_set new ∪ V : gset Z))) l) <= length (List.filter (fun p => bool_decide (p ∉ V)) l))%nat.
Proof.
  intros Hnd Hin. rewrite <- (filter_split l new V). apply Nat.add_le_mono_r, submseteq_length, NoDup_submseteq; [done|]. intros q Hq. apply list_elem_of_In, filter_In. rewrite bool_decide_eq_true, <- list_elem_of_In. destruct (Hin q Hq). done.
Qed.
Lemma reach_loop_correct g a (roots : list Z) fuel (queue : list Z) (visited : gset Z) : rep g a ->
  (forall p, p ∈ visited -> live_node g p) -> (forall p, p ∈ queue -> p ∈ visited) -> (forall p, p ∈ roots -> p ∈ visited) ->
  (forall p, p ∈ visited -> exists r, r ∈ roots /\ rtc (back_arc g) r p) -> (forall p, p ∈ visited -> p ∈ queue \/ forall q, q ∈ ins g p -> q ∈ visited) ->
  (length queue + unseen g visited < fuel)%nat ->
  exists V : gset Z, reach_loop fuel queue visited g = Done (V, g) /\ (forall p, p ∈ V <-> exists r, r ∈ roots /\ rtc (back_arc g) r p) /\ forall p, p ∈ V -> live_node g p.
Proof.
  intros H. revert queue visited. induction fuel as [|fuel IH]; intros queue visited Hl Hq Hr Hv Hc Hfuel; [lia|]. destruct queue as [|n queue]; cbn [reach_loop].
  - exists visited. split; [done|]. split; [|done]. intros p. split; [apply Hv|]. intros (r & Hr' & Hrp). apply Hr in Hr'. induction Hrp as [|x y z Hxy _ IH']; [done|]. apply IH'. destruct (Hc x Hr') as [?%elem_of_nil|Hc']; [done|]. by apply Hc'.
  - destruct (Hl n) as [i Hn]; [apply Hq; by left|]. assert (Hway : way in_edges_ src_ e_dst e_src) by (right; done).
    rewrite (st_bind_eq _ _ _ _ _ (neighbors_Done addr H _ _ _ _ _ _ Hway Hn)). fold (ins g n). pose proof (other_ends_live addr H _ _ _ _ _ _ Hway Hn) as Hlive. fold (ins g n) in Hlive.
    destruct (visit_all_spec (ins g n) visited queue) as (new & -> & H1 & H2 & H3 & H4). 
    assert (Hnew : forall p, p ∈ new -> live_node g p) by (intros p Hp; by apply (proj1 (Forall_forall _ _) Hlive), H1).
    apply IH.
    + intros p [Hp%elem_of_list_to_set|Hp]%elem_of_union; auto.
    + intros p [Hp|Hp]%elem_of_app; apply elem_of_union; [right; apply Hq; by right|left; by apply elem_of_list_to_set].
    + intros p Hp. apply elem_of_union. right. auto.
    + intros p [Hp%elem_of_list_to_set|Hp]%elem_of_union; [|auto]. destruct (Hv n) as (r & Hr' & Hrn); [apply Hq; by left|]. exists r. split; [done|]. eapply rtc_r; [exact Hrn|by apply H1].
    + intros p [Hp%elem_of_list_to_set|Hp]%elem_of_union; [left; apply elem_of_app; by right|]. destruct (Hc p Hp) as [[->|Hp']%elem_of_cons|Hc'].
      * right. intros q Hqn. apply elem_of_union. destruct (H2 q Hqn); [by right|left; by apply elem_of_list_to_set].
      * left. apply elem_of_app. by left.
      * right. intros q Hqn. apply elem_of_union. right. auto.
    + rewrite length_app. pose proof (filter_shrink (nodes_ g) new visited H3) as Hs. unfold unseen in *. cbn [length] in Hfuel. 
      enough (length new + length (List.filter (fun p => bool_decide (p ∉ (list_to_set new ∪ visited : gset Z))) (nodes_ g)) <= length (List.filter (fun p => bool_decide (p ∉ visited)) (nodes_ g)))%nat by lia.
      apply Hs. intros q Hqn. split; [|auto]. destruct (Hnew q Hqn) as [k [Hk _]%at_Some]. unfold zlookup in Hk. destruct (k <? 0); [done|]. by eapply list_elem_of_lookup_2.
Qed.
(** Backwards from a node, in ids. *)
Lemma back_arc_ids g a i p q : rep g a -> at_ (nodes_ g) i = Some p -> back_arc g p q <-> exists k, at_ (nodes_ g) k = Some q /\ step a k i.
Proof.
  intros H Hp. unfold back_arc, ins. rewrite (other_ends_spec addr H in_edges_ src_ e_dst e_src i p q) by (done || by right). unfold step. split.
  - intros (j & e & He & <- & Hq). exists (e_src e). split; [done|]. by exists j, e.
  - intros (k & Hk & j & e & He & <- & <-). by exists j, e.
Qed.
Lemma back_reach_ids g a i p q : rep g a -> at_ (nodes_ g) i = Some p -> rtc (back_arc g) p q <-> exists k, at_ (nodes_ g) k = Some q /\ rtc (step a) k i.
Proof.
  intros H Hp. split.
  - intros Hr. revert i Hp. induction Hr as [p|p p' q Hpp' _ IH]; intros i Hp; [by exists i|]. apply (back_arc_ids _ _ _ _ _ H Hp) in Hpp' as (k & Hk & Hki). destruct (IH k Hk) as (l & Hl & Hlk). exists l. split; [done|]. eapply rtc_r; done.
  - intros (k & Hk & Hki). revert q Hk. induction Hki as [k|k l m Hkl Hlm IH]; intros q Hk; [rewrite Hp in Hk; by injection Hk as <-|].
    destruct Hkl as (j & e & He & <- & <-). destruct (rep_edge addr H _ _ He) as (qe & _ & s & d & _ & Hs & Hd). eapply rtc_r; [by apply (IH Hp d)|]. apply (back_arc_ids _ _ _ _ _ H Hd). exists (e_src e). split; [done|]. by exists j, e.
Qed.

(** ** Pruning *)

Definition remove_all (rs : list Z) a : AGraph := fold_left (fun a i => remove_node i a) rs a.
Lemma remove_all_spec rs a : a_next_node (remove_all rs a) = a_next_node a /\ a_next_edge (remove_all rs a) = a_next_edge a /\ a_names (remove_all rs a) = a_names a /\
  (forall i, a_nodes (remove_all rs a) !! i = if decide (i ∈ rs) then None else a_nodes a !! i) /\
  (forall j e, a_edges (remove_all rs a) !! j = Some e <-> a_edges a !! j = Some e /\ (e_src e ∉ rs) /\ (e_dst e ∉ rs)).
Proof.
  revert a. induction rs as [|r rs IH]; intros a; cbn.
  - do 3 (split; [done|]). split; [done|]. intros j e. rewrite !elem_of_nil. tauto.
  - destruct (IH (remove_node r a)) as (H1 & H2 & H3 & H4 & H5). do 3 (split; [done|]). split.
    + intros i. rewrite H4. cbn. destruct (decide (i ∈ rs)) as [Hi|Hi]; [by rewrite decide_True by (by right)|]. destruct (decide (i = r)) as [->|Hir].
      * rewrite decide_True by (by left). apply lookup_delete_eq.
      * rewrite decide_False by (by intros [?|?]%elem_of_cons). by apply lookup_delete_ne.
    + intros j e. rewrite H5. cbn. rewrite map_lookup_filter_Some. unfold touches. cbn. rewrite !elem_of_cons. tauto.
Qed.
Lemma wp_remove_unvisited V ps ids removed g a (Q : bool -> Graph -> Prop) : rep g a -> a_next_node a < 2 ^ 31 -> located g ps ids -> NoDup ids ->
  (let gone := List.filter (fun pi => negb (bool_decide (pi.1 ∈ V)) && negb (pi.2 =? 0) && negb (pi.2 =? 1)) (zip ps ids) in
   forall g', rep g' (remove_all (map snd gone) a) -> Q (removed || negb (bool_decide (gone = []))) g') -> wp (remove_unvisited ps V removed) g Q.
Proof.
  intros H Hnext Hloc. revert g a removed Q H Hnext Hloc. revert ids. induction ps as [|p ps IH]; intros ids g a removed Q H Hnext Hloc Hnd HQ.
  { apply Forall2_nil_inv_l in Hloc as ->. cbn in *. apply wp_ret. rewrite orb_false_r in HQ. by apply HQ. }
  apply Forall2_cons_inv_l in Hloc as (i & ids' & Hp & Hloc & ->). apply NoDup_cons in Hnd as [Hni Hnd]. cbn [remove_unvisited]. cbn [zip zip_with List.filter fst snd] in HQ.
  destruct (rep_live addr H _ _ Hp) as (v & Hv & n & k & Hn & _ & _ & Hid & _). pose proof (at_range _ _ _ Hp) as Hr. wp_step. eapply wp_node_of; [exact Hn|]. unfold IsSource, IsSink. rewrite Hid.
  destruct (negb (bool_decide (p ∈ V)) && negb (i =? 0) && negb (i =? 1)) eqn:Eb.
  - apply andb_prop in Eb as [[_ E0]%andb_prop E1]. apply negb_true_iff, Z.eqb_neq in E0, E1. wp_step. eapply (wp_RemoveNode addr g a i); [done|done|lia|done|]. intros g' H' Hn'.
    apply (IH ids' g' (remove_node i a)); [done|done| |done|].
    + unfold located. rewrite Hn'. apply Forall2_same_length_lookup_2; [by eapply Forall2_length|]. intros m q k' Hq Hk'. rewrite at_null, decide_False; [exact (Forall2_lookup_lr _ _ _ _ _ _ Hloc Hq Hk')|]. intros ->. apply Hni. by eapply list_elem_of_lookup_2.
    + intros gone g2 H2. cbn in HQ. rewrite orb_true_r in HQ. by apply HQ.
  - apply (IH ids' g a removed); [done..|]. exact HQ.
Qed.

Lemma elem_of_zip_snd {A B} (l : list A) (k : list B) P y : In y (map snd (List.filter P (zip l k))) <-> exists x, (x, y) ∈ zip l k /\ P (x, y) = true.
Proof.
  rewrite in_map_iff. split.
  - intros ([x y'] & <- & [Hin HP]%filter_In). exists x. by rewrite list_elem_of_In.
  - intros (x & Hin & HP). exists (x, y). split; [done|]. apply filter_In. by rewrite <- list_elem_of_In.
Qed.
Lemma located_elem g ps ids p i : located g ps ids -> (p, i) ∈ zip ps ids -> at_ (nodes_ g) i = Some p.
Proof. intros Hloc Hin. induction Hloc as [|q k ps ids Hq _ IH]; [by apply elem_of_nil in Hin|]. apply elem_of_cons in Hin as [[= -> ->]|Hin]; auto. Qed.
Lemma located_zip g ps ids i : located g ps ids -> i ∈ ids -> exists p, (p, i) ∈ zip ps ids.
Proof. intros Hloc Hin. induction Hloc as [|q k ps ids Hq _ IH]; [by apply elem_of_nil in Hin|]. apply elem_of_cons in Hin as [->|Hin]; [exists q; by left|]. destruct (IH Hin) as [p Hp]. exists p. by right. Qed.
Lemma located_ids g ps ids i : located g ps ids -> i ∈ ids -> exists p, p ∈ ps /\ at_ (nodes_ g) i = Some p.
Proof. intros Hloc Hin. induction Hloc as [|q k ps ids Hq _ IH]; [by apply elem_of_nil in Hin|]. apply elem_of_cons in Hin as [->|Hin]; [exists q; by split; [left|]|]. destruct (IH Hin) as (p & ? & ?). exists p. by split; [right|]. Qed.
Lemma located_ptrs g ps ids p : located g ps ids -> p ∈ ps -> exists i, i ∈ ids /\ at_ (nodes_ g) i = Some p.
Proof. intros Hloc Hin. induction Hloc as [|q k ps ids Hq _ IH]; [by apply elem_of_nil in Hin|]. apply elem_of_cons in Hin as [->|Hin]; [exists k; by split; [left|]|]. destruct (IH Hin) as (i & ? & ?). exists i. by split; [right|]. Qed.
Definition unneeded a (roots : list Z) (i : Z) : Prop := is_Some (a_nodes a !! i) /\ 1 < i /\ forall r, r ∈ roots -> ~ rtc (step a) i r.
Lemma wp_Prune g a ps roots (Q : bool -> Graph -> Prop) : rep g a -> bounded a -> located g ps roots ->
  (forall gone g', (forall i, i ∈ gone <-> unneeded a roots i) -> rep g' (remove_all gone a) -> Q (negb (bool_decide (gone = []))) g') -> wp (PruneForReverseReachability ps) g Q.
Proof.
  intros H Hb Hloc HQ. unfold PruneForReverseReachability. wp_step. wp_step. wp_step.
  assert (Hbound : (unseen g (list_to_set ps) <= length (nodes_ g))%nat) by (unfold unseen; apply List.filter_length_le).
  destruct (reach_loop_correct g a ps (S (length ps + length (nodes_ g))) ps (list_to_set ps) H) as (V & HV & HVs & _).
  - intros p Hp%elem_of_list_to_set. destruct (located_ptrs _ _ _ _ Hloc Hp) as (i & _ & Hi). by exists i.
  - intros p Hp. by apply elem_of_list_to_set.
  - intros p Hp. by apply elem_of_list_to_set.
  - intros p Hp%elem_of_list_to_set. exists p. split; [done|constructor].
  - intros p Hp%elem_of_list_to_set. by left.
  - lia.
  - apply (proj2 (wp_Done _ _ _)). exists V, g. split; [exact HV|]. wp_step. apply (proj2 (wp_Done _ _ _)). exists (live_from g 0), g. split; [by eapply nodes_Done|].
    pose proof (live_from_located g a H) as Hlf. eapply (wp_remove_unvisited V _ (ids_of a)); [done|apply Hb|done|apply ids_NoDup|]. cbn zeta. intros g' H'. cbn [orb].
    replace (bool_decide (List.filter _ _ = [])) with (bool_decide (map snd (List.filter (fun pi : Z * Z => negb (bool_decide (pi.1 ∈ V)) && negb (pi.2 =? 0) && negb (pi.2 =? 1)) (zip (live_from g 0) (ids_of a))) = [])) by (apply bool_decide_ext; destruct (List.filter _ _); done).
    apply HQ; [|done]. intros i. rewrite list_elem_of_In, elem_of_zip_snd. cbn [fst snd]. unfold unneeded. rewrite <- (elem_of_ids _ g a i H).
    assert (HVi : forall p, at_ (nodes_ g) i = Some p -> p ∈ V <-> exists r, r ∈ roots /\ rtc (step a) i r).
    { intros p Hp. rewrite HVs. split.
      - intros (q & Hq & Hqp). destruct (located_ptrs _ _ _ _ Hloc Hq) as (r & Hr & Hrq). destruct (proj1 (back_reach_ids _ _ _ _ _ H Hrq) Hqp) as (k & Hk & Hkr). rewrite (live_inj addr H _ _ _ Hp Hk). eauto.
      - intros (r & Hr & Hir). destruct (located_ids _ _ _ _ Hloc Hr) as (q & Hq & Hrq). exists q. split; [done|]. apply (back_reach_ids _ _ _ _ _ H Hrq). eauto. }
    split.
    + intros (p & Hin & Hc). pose proof (located_elem _ _ _ _ _ Hlf Hin) as Hp. apply andb_prop in Hc as [[Hc1 Hc2]%andb_prop Hc3]. apply negb_true_iff in Hc1, Hc2, Hc3. apply bool_decide_eq_false in Hc1. apply Z.eqb_neq in Hc2, Hc3.
      pose proof (at_range _ _ _ Hp). split; [by eapply elem_of_zip_r|]. split; [lia|]. intros r Hr Hir. apply Hc1. apply (proj2 (HVi p Hp)). eauto.
    + intros (Hin & Hi & Hno). destruct (located_zip _ _ _ _ Hlf Hin) as [p Hp]. exists p. split; [done|]. pose proof (located_elem _ _ _ _ _ Hlf Hp) as Hp'.
      assert (HpV : p ∉ V) by (intros Hv; apply (HVi p Hp') in Hv as (r & Hr & Hir); by eapply Hno). rewrite bool_decide_eq_false_2, (proj2 (Z.eqb_neq i 0)), (proj2 (Z.eqb_neq i 1)) by (done || lia). done.
Qed.

(** ** Fixing up the source and the sink *)

Definition no_edge (f : AEdge -> Z) (i : Z) a : bool := bool_decide (filter (fun je => f je.2 = i) (a_edges a) = ∅).
Lemma no_edge_true f i a : no_edge f i a = true <-> forall j e, a_edges a !! j = Some e -> f e <> i.
Proof.
  unfold no_edge. rewrite bool_decide_eq_true. split.
  - intros Hf j e He Hi. assert (Hin : filter (fun je => f je.2 = i) (a_edges a) !! j = Some e) by by apply map_lookup_filter_Some. by rewrite Hf, lookup_empty in Hin.
  - intros Hno. apply map_empty. intros j. apply eq_None_not_Some. intros [e [He Hi]%map_lookup_filter_Some]. by apply (Hno j e).
Qed.
Lemma side_empty edges f g a i p n : side edges f -> rep g a -> at_ (nodes_ g) i = Some p -> node_heap g !! p = Some n -> EdgeSet.empty (edges n) = no_edge f i a.
Proof.
  intros Hs H Hp Hn. destruct (side_incident addr _ _ _ _ _ _ _ Hs H Hp Hn) as [Hok Hin]. rewrite EdgeSet.empty_elements by done. apply Bool.eq_iff_eq_true. rewrite bool_decide_eq_true, no_edge_true. split.
  - intros Hnil j e He Hf. destruct (rep_edge addr H _ _ He) as (q & Hq & _). assert (Hq' : q ∈ EdgeSet.elements (edges n)) by (apply Hin; eauto). rewrite Hnil in Hq'. by apply elem_of_nil in Hq'.
  - intros Hno. destruct (EdgeSet.elements (edges n)) as [|q l]; [done|]. destruct (proj1 (Hin q)) as (j & e & _ & He & Hf); [by left|]. by destruct (Hno j e He).
Qed.
Definition control (i k : Z) : AEdge := mkAEdge i kControlSlot k kControlSlot.
Definition fix_node (ac : AGraph * bool) (i : Z) : AGraph * bool :=
  let '(a, c) := ac in
  let '(a, c) := if negb (i =? 0) && no_edge e_dst i a then (add_edge (control 0 i) a, true) else (a, c) in
  if negb (i =? 1) && no_edge e_src i a then (add_edge (control i 1) a, true) else (a, c).
Lemma wp_control g a i k s d (Q : Z -> Graph -> Prop) : rep g a -> has_ends a -> room (a_next_edge a) -> at_ (nodes_ g) i = Some s -> at_ (nodes_ g) k = Some d ->
  (forall q g', rep g' (add_edge (control i k) a) -> nodes_ g' = nodes_ g -> Q q g') -> wp (AddControlEdge addr s d) g Q.
Proof. intros. eapply (wp_AddEdge addr g a i kControlSlot k kControlSlot); try done; [|auto]. unfold control_ok. by destruct (_ || _). Qed.
Lemma fix_ends ac i : has_ends ac.1 -> has_ends (fix_node ac i).1 /\ a_next_edge (fix_node ac i).1 <= a_next_edge ac.1 + 2.
Proof. destruct ac as [a c]. unfold fix_node, has_ends. cbn [fst]. intros Ha. destruct (negb (i =? 0) && _), (negb (i =? 1) && _); cbn; (split; [done|lia]). Qed.
Lemma wp_fixup_loop ps ids c g a (Q : bool -> Graph -> Prop) : rep g a -> has_ends a -> located g ps ids -> a_next_edge a + 2 * zlength ids < 2 ^ 31 - 1 ->
  (forall g', rep g' (fold_left fix_node ids (a, c)).1 -> nodes_ g' = nodes_ g -> Q (fold_left fix_node ids (a, c)).2 g') -> wp (fixup_loop addr ps c) g Q.
Proof.
  intros H He Hloc. revert ids g a c Q H He Hloc. induction ps as [|p ps IH]; intros ids g a c Q H He Hloc Hroom HQ.
  { apply Forall2_nil_inv_l in Hloc as ->. apply wp_ret. by apply HQ. }
  apply Forall2_cons_inv_l in Hloc as (i & ids' & Hp & Hloc & ->). cbn [fixup_loop]. cbn [fold_left] in HQ. unfold zlength in Hroom. cbn [length] in Hroom.
  destruct (rep_live addr H _ _ Hp) as (v & Hv & n & k & Hn & _ & _ & Hid & _). wp_step. eapply wp_node_of; [exact Hn|]. unfold IsSource. rewrite Hid, (side_empty in_edges_ e_dst g a i p n) by (done || by left).
  destruct He as [[vs Hvs] [vt Hvt]]. destruct (rep_node addr H _ _ Hvs) as (s & Hs & _). destruct (rep_node addr H _ _ Hvt) as (t & Ht & _).
  wp_step. set (ac1 := if negb (i =? 0) && no_edge e_dst i a then (add_edge (control 0 i) a, true) else (a, c)).
  apply (wp_mono _ _ (fun c' g' => c' = ac1.2 /\ rep g' ac1.1 /\ nodes_ g' = nodes_ g)).
  { unfold ac1. destruct (_ && _); [|by apply wp_ret]. wp_step. eapply wp_FindNodeId; [exact Hs|]. wp_step. eapply (wp_control g a 0 i); [done|by split; eexists|unfold room; lia|exact Hs|exact Hp|]. intros q g' H' Hn'. by apply wp_ret. }
  intros c' g1 (-> & H1 & Hn1). rewrite <- Hn1 in Hp, Ht. destruct (rep_live addr H1 _ _ Hp) as (v1 & Hv1 & n1 & k1 & Hn1' & _ & _ & Hid1 & _). wp_step. eapply wp_node_of; [exact Hn1'|]. unfold IsSink. rewrite Hid1, (side_empty out_edges_ e_src g1 ac1.1 i p n1) by (done || by right).
  wp_step. set (ac2 := if negb (i =? 1) && no_edge e_src i ac1.1 then (add_edge (control i 1) ac1.1, true) else ac1).
  assert (He1 : has_ends ac1.1 /\ a_next_edge ac1.1 <= a_next_edge a + 1) by (unfold ac1; destruct (_ && _); cbn; (split; [by split; eexists|lia])).
  apply (wp_mono _ _ (fun c' g' => c' = ac2.2 /\ rep g' ac2.1 /\ nodes_ g' = nodes_ g1)).
  { unfold ac2. destruct (negb (i =? 1) && no_edge e_src i ac1.1); [|by apply wp_ret]. wp_step. eapply wp_FindNodeId; [exact Ht|]. wp_step. eapply (wp_control g1 ac1.1 i 1); [done|apply He1|unfold room; lia|exact Hp|exact Ht|]. intros q g' H' Hn'. by apply wp_ret. }
  intros c' g2 (-> & H2 & Hn2). assert (Hfix : fix_node (a, c) i = ac2) by (unfold fix_node; fold ac1; unfold ac2; by destruct ac1).
  rewrite Hfix in HQ. destruct (fix_ends (a, c) i) as [He2 Hne2]; [by split; eexists|]. rewrite Hfix in He2, Hne2. cbn [fst] in Hne2. eapply (IH ids' g2 ac2.1); [done|done| |unfold zlength; lia|].
  - unfold located. by rewrite Hn2, Hn1.
  - intros g' H' Hn'. destruct ac2 as [a2 c2]. cbn [fst snd] in *. apply HQ; [done|congruence].
Qed.

(** The added edges are control edges from the source to nodes without incoming
    edges, and from nodes without outgoing edges to the sink. *)
Definition extends a a' : Prop :=
  a_nodes a' = a_nodes a /\ a_next_node a' = a_next_node a /\ a_names a' = a_names a /\ a_edges a ⊆ a_edges a' /\
  forall j e, a_edges a' !! j = Some e -> a_edges a !! j = Some e \/
    exists i, is_Some (a_nodes a !! i) /\ (e = control 0 i /\ i <> 0 /\ no_edge e_dst i a = true \/ e = control i 1 /\ i <> 1 /\ no_edge e_src i a = true).
Definition ids_fresh a : Prop := forall j e, a_edges a !! j = Some e -> j < a_next_edge a.
Definition has_edge (f : AEdge -> Z) (i : Z) a : Prop := exists j e, a_edges a !! j = Some e /\ f e = i.
Lemma extends_refl a : extends a a.
Proof. do 4 (split; [done|]). by left. Qed.
Lemma no_edge_mono f i a a' : a_edges a ⊆ a_edges a' -> no_edge f i a' = true -> no_edge f i a = true.
Proof. intros Hs H. apply no_edge_true. intros j e He. apply (proj1 (no_edge_true f i a') H j). by eapply lookup_weaken. Qed.
Lemma has_edge_mono f i a a' : a_edges a ⊆ a_edges a' -> has_edge f i a -> has_edge f i a'.
Proof. intros Hs (j & e & He & Hf). exists j, e. split; [by eapply lookup_weaken|done]. Qed.
Lemma no_edge_false f i a : no_edge f i a = false -> has_edge f i a.
Proof.
  unfold no_edge. intros [j [e He]]%bool_decide_eq_false%map_choose. apply map_lookup_filter_Some in He as [He Hf]. by exists j, e.
Qed.
Lemma extends_add a a' e i : extends a a' -> ids_fresh a' -> is_Some (a_nodes a !! i) ->
  (e = control 0 i /\ i <> 0 /\ no_edge e_dst i a' = true \/ e = control i 1 /\ i <> 1 /\ no_edge e_src i a' = true) -> extends a (add_edge e a') /\ ids_fresh (add_edge e a') /\ a_edges a' ⊆ a_edges (add_edge e a').
Proof.
  intros (H1 & H2 & H3 & H4 & H5) Hf Hi He. assert (Hsub : a_edges a' ⊆ a_edges (add_edge e a')).
  { apply insert_subseteq. destruct (a_edges a' !! a_next_edge a') eqn:E; [|done]. apply Hf in E. lia. }
  split; [|split; [|done]].
  - do 3 (split; [done|]). split; [by etransitivity|]. intros j e' Hj. cbn [a_edges add_edge] in Hj. apply lookup_insert_Some in Hj as [[_ <-]|[_ Hj]]; [|by apply H5]. right. exists i. split; [done|].
    destruct He as [(-> & ? & Hn)|(-> & ? & Hn)]; [left|right]; (split; [done|]; split; [done|]; by eapply no_edge_mono).
  - intros j e' Hj. cbn [a_edges a_next_edge add_edge] in Hj |- *. apply lookup_insert_Some in Hj as [[<- _]|[_ Hj]]; [lia|]. apply Hf in Hj. lia.
Qed.
Lemma has_new e f a : has_edge f (f e) (add_edge e a).
Proof. exists (a_next_edge a), e. split; [apply lookup_insert_eq|done]. Qed.
Lemma new_id e a a2 : a_edges (add_edge e a) ⊆ a_edges a2 -> exists j, a_next_edge a <= j /\ is_Some (a_edges a2 !! j).
Proof. intros Hs. exists (a_next_edge a). split; [lia|]. exists e. eapply lookup_weaken; [|exact Hs]. apply lookup_insert_eq. Qed.
Lemma fix_node_spec a a' c i : extends a a' -> ids_fresh a' -> is_Some (a_nodes a !! i) -> let ac := fix_node (a', c) i in
  extends a ac.1 /\ ids_fresh ac.1 /\ a_edges a' ⊆ a_edges ac.1 /\ (i <> 0 -> has_edge e_dst i ac.1) /\ (i <> 1 -> has_edge e_src i ac.1) /\
  a_next_edge a' <= a_next_edge ac.1 /\ (ac.2 = false -> c = false /\ ac.1 = a') /\ (c = true -> ac.2 = true) /\ (ac.2 = true -> c = true \/ exists j, a_next_edge a' <= j /\ is_Some (a_edges ac.1 !! j)).
Proof.
  intros Hx Hf Hi ac. unfold ac, fix_node. destruct (negb (i =? 0) && no_edge e_dst i a') eqn:E1.
  - apply andb_prop in E1 as [E0%negb_true_iff%Z.eqb_neq E1]. destruct (extends_add a a' (control 0 i) i Hx Hf Hi) as (Hx1 & Hf1 & Hs1); [by left|].
    set (a1 := add_edge (control 0 i) a') in *. assert (Hd : has_edge e_dst i a1) by apply (has_new (control 0 i) e_dst). destruct (negb (i =? 1) && no_edge e_src i a1) eqn:E2.
    + apply andb_prop in E2 as [E3%negb_true_iff%Z.eqb_neq E2]. destruct (extends_add a a1 (control i 1) i Hx1 Hf1 Hi) as (Hx2 & Hf2 & Hs2); [by right|].
      cbn [fst snd]. split; [done|]. split; [done|]. split; [by etransitivity|]. split; [intros _; by eapply has_edge_mono|]. split; [intros _; apply (has_new (control i 1) e_src)|]. split; [cbn; lia|]. split; [done|]. split; [done|]. intros _. right. first [by eapply new_id|eapply new_id; reflexivity].
    + cbn [fst snd]. split; [done|]. split; [done|]. split; [done|]. split; [done|]. split; [intros Hi1; apply andb_false_iff in E2 as [E2%negb_false_iff%Z.eqb_eq|E2%no_edge_false]; done|]. split; [cbn; lia|]. split; [done|]. split; [done|]. intros _. right. apply (new_id (control 0 i)); unfold a1; reflexivity.
  - assert (Hd : i <> 0 -> has_edge e_dst i a') by (intros Hi0; apply andb_false_iff in E1 as [E1%negb_false_iff%Z.eqb_eq|E1%no_edge_false]; done). destruct (negb (i =? 1) && no_edge e_src i a') eqn:E2.
    + apply andb_prop in E2 as [E3%negb_true_iff%Z.eqb_neq E2]. destruct (extends_add a a' (control i 1) i Hx Hf Hi) as (Hx2 & Hf2 & Hs2); [by right|].
      cbn [fst snd]. split; [done|]. split; [done|]. split; [done|]. split; [intros Hi0; eapply has_edge_mono; [done|auto]|]. split; [intros _; apply (has_new (control i 1) e_src)|]. split; [cbn; lia|]. split; [done|]. split; [done|]. intros _. right. first [by eapply new_id|eapply new_id; reflexivity].
    + cbn [fst snd]. split; [done|]. split; [done|]. split; [done|]. split; [done|]. split; [intros Hi1; apply andb_false_iff in E2 as [E2%negb_false_iff%Z.eqb_eq|E2%no_edge_false]; done|]. split; [lia|]. split; [done|]. split; [done|]. tauto.
Qed.
Lemma fix_all_spec ids a a' c : extends a a' -> ids_fresh a' -> (forall i, i ∈ ids -> is_Some (a_nodes a !! i)) -> let ac := fold_left fix_node ids (a', c) in
  extends a ac.1 /\ ids_fresh ac.1 /\ a_edges a' ⊆ a_edges ac.1 /\ (forall i, i ∈ ids -> (i <> 0 -> has_edge e_dst i ac.1) /\ (i <> 1 -> has_edge e_src i ac.1)) /\
  a_next_edge a' <= a_next_edge ac.1 /\ (ac.2 = false -> c = false /\ ac.1 = a') /\ (c = true -> ac.2 = true) /\ (ac.2 = true -> c = true \/ exists j, a_next_edge a' <= j /\ is_Some (a_edges ac.1 !! j)).
Proof.
  revert a' c. induction ids as [|i ids IH]; intros a' c Hx Hf Hids; cbn [fold_left].
  { cbn. do 3 (split; [done|]). split; [by intros i ?%elem_of_nil|]. split; [lia|]. tauto. }
  destruct (fix_node_spec a a' c i Hx Hf) as (H1 & H2 & H3 & H4 & H5 & H6 & H7 & H8 & H9); [apply Hids; by left|]. destruct (fix_node (a', c) i) as [a1 c1]. cbn [fst snd] in *.
  destruct (IH a1 c1 H1 H2) as (K1 & K2 & K3 & K4 & K6 & K7 & K8 & K9); [intros; apply Hids; by right|]. set (ac := fold_left fix_node ids (a1, c1)) in *.
  split; [done|]. split; [done|]. split; [by etransitivity|]. split; [|split; [lia|split; [|split; [auto|]]]].
  - intros k [->|Hk]%elem_of_cons; [|by apply K4]. split; intros Hne; (eapply has_edge_mono; [exact K3|auto]).
  - intros Hc. destruct (K7 Hc) as [-> ->]. by apply H7.
  - intros Hc. destruct (K9 Hc) as [->|(j & Hj & Hs)]; [|right; exists j; split; [lia|done]]. destruct (H9 eq_refl) as [?|(j & Hj & [e He])]; [by left|right]. exists j. split; [lia|]. exists e. by eapply lookup_weaken.
Qed.
Lemma tc_unflip (R : Z -> Z -> Prop) i k : tc (flip R) i k -> tc R k i.
Proof. induction 1 as [i k H|i k l H _ IH]; [by apply tc_once|]. eapply tc_r; [exact IH|exact H]. Qed.
(** With every node but the source entered, all nodes of an acyclic graph are
    reached from the source. *)
Lemma acyclic_reach x g a : rep_with addr x g a -> (forall i, ~ tc (step a) i i) -> (forall i, is_Some (a_nodes a !! i) -> i <> 0 -> has_edge e_dst i a) -> forall i, is_Some (a_nodes a !! i) -> rtc (step a) 0 i.
Proof.
  intros H Hac Hin i Hi. assert (Hsn : sn (flip (step a)) i).
  { apply tc_finite_sn; [intros k Hk; apply (Hac k); by apply tc_unflip|]. exists (map_to_list (a_nodes a)).*1. intros k Hk. apply list_elem_of_fmap. 
    assert (Hlive : is_Some (a_nodes a !! k)).
    { clear Hi. induction Hk as [p q (j & e & He & <- & _)|p q r _ _ IH]; [by apply (edge_ends addr H j e He)|done]. }
    destruct Hlive as [v Hv]. exists (k, v). split; [done|]. by apply elem_of_map_to_list. }
  induction Hsn as [i _ IH]. destruct (decide (i = 0)) as [->|Hi0]; [constructor|]. destruct (Hin i Hi Hi0) as (j & e & He & <-).
  eapply rtc_r; [apply (IH (e_src e))|]; [by exists j, e|by apply (edge_ends addr H j e He)|by exists j, e].
Qed.
(** What the pass leaves. *)
Record fixed a a' (changed : bool) : Prop := mkFixed {
  f_extends : extends a a';
  f_ends : forall i, is_Some (a_nodes a !! i) -> (i <> 0 -> has_edge e_dst i a') /\ (i <> 1 -> has_edge e_src i a');
  f_changed : changed = true <-> a_edges a' <> a_edges a
}.
Lemma wp_FixupSourceAndSinkEdges g a (Q : bool -> Graph -> Prop) : rep g a -> bounded a -> a_next_edge a + 2 * a_next_node a < 2 ^ 31 - 1 ->
  (forall changed g' a', rep g' a' -> fixed a a' changed -> Q changed g') -> wp (FixupSourceAndSinkEdges addr) g Q.
Proof.
  intros Hg Hb Hroom HQ. unfold FixupSourceAndSinkEdges. wp_step. apply (proj2 (wp_Done _ _ _)). exists (live_from g 0), g. split; [by eapply nodes_Done|].
  pose proof (live_from_located g a Hg) as Hlf. pose proof (r_len_n _ _ _ _ Hg) as Hlen.
  assert (Hids : zlength (ids_of a) <= a_next_node a) by (unfold zlength, ids_of; pose proof (List.filter_length_le (fun i => bool_decide (is_Some (a_nodes a !! i))) (seqZ 0 (a_next_node a))) as Hf; rewrite length_seqZ in Hf; unfold zlength in Hlen; lia).
  eapply (wp_fixup_loop _ (ids_of a)); [exact Hg|apply Hb|done|lia|]. intros g' Hg' Hn'.
  assert (Hfresh : ids_fresh a) by (intros j e He; apply (edge_range addr Hg) in He; lia).
  destruct (fix_all_spec (ids_of a) a a false (extends_refl a) Hfresh) as (H1 & H2 & H3 & H4 & H5 & H6 & _ & H8); [intros i Hi; by apply (elem_of_ids _ _ _ _ Hg)|].
  eapply HQ; [exact Hg'|]. split; [done|intros i Hi; apply H4; by apply (elem_of_ids _ _ _ _ Hg)|]. split.
  - intros Hc Heq. destruct (H8 Hc) as [?|(j & Hj & [e He])]; [done|]. rewrite Heq in He. apply Hfresh in He. lia.
  - intros Hne. destruct (fold_left fix_node (ids_of a) (a, false)).2 eqn:Ec; [done|]. destruct (H6 eq_refl) as [_ Heq]. by rewrite Heq in Hne.
Qed.
End Passes.
End GraphPasses.
