(* ===== verification/GraphDef.v ===== *)
(** * Reading a graph

    The inputs of a node, and the nodes as definitions ([ToGraphDef]). *)
From S2P Require Import Prelude Status Numbers EdgeSet Graph GraphFacts GraphOps GraphTraversal GraphPasses.
From stdpp Require Import gmap relations.
Open Scope Z_scope.

Module GraphDef.
Import Status Numbers NodeClass Graph GraphSpec GraphFacts GraphOps GraphRun GraphAlgorithm GraphTraversal GraphPasses.

Section Reading.
Context {OpDef AttrValue : Type} {registry : OpRegistryInterface OpDef AttrValue} {laws : OpRegistryLaws OpDef AttrValue registry}.
Context (addr : nat -> Z) {Haddr : addresses addr}.
Abbreviation NodeDef := (NodeDef AttrValue).
Abbreviation Graph := (Graph OpDef AttrValue).
Abbreviation AGraph := (AGraph OpDef AttrValue).
Abbreviation ANode := (ANode OpDef AttrValue).
Abbreviation rep := (rep addr).
Abbreviation JEdge := (Z * AEdge)%type.
Implicit Types (g : Graph) (a : AGraph).

(** ** The edges into a node *)

Definition edge_at g a (q : Z) (je : JEdge) : Prop := at_ (edges_ g) je.1 = Some q /\ a_edges a !! je.1 = Some je.2.
Definition into a (i : Z) : list JEdge := List.filter (fun je => e_dst je.2 =? i) (map_to_list (a_edges a)).
Lemma elem_of_into a i je : je ∈ into a i <-> a_edges a !! je.1 = Some je.2 /\ e_dst je.2 = i.
Proof. unfold into. rewrite list_elem_of_In, filter_In, <- list_elem_of_In, Z.eqb_eq. destruct je as [j e]. by rewrite elem_of_map_to_list. Qed.
Lemma into_NoDup a i : NoDup (into a i).
Proof. apply NoDup_ListNoDup, List.NoDup_filter, NoDup_ListNoDup, NoDup_map_to_list. Qed.
Lemma node_edges g a i p n : rep g a -> at_ (nodes_ g) i = Some p -> node_heap g !! p = Some n ->
  exists js, Forall2 (edge_at g a) (EdgeSet.elements (in_edges_ n)) js /\ js ≡ₚ into a i.
Proof.
  intros H Hp Hn. destruct (set_ok_in addr _ _ _ _ _ _ H Hp Hn) as [[Hok Hin] _]. destruct (EdgeSet.set_ok_nodup _ Hok) as [Hnd _].
  assert (Hex : exists js, Forall2 (edge_at g a) (EdgeSet.elements (in_edges_ n)) js).
  { assert (Hall : Forall (fun q => exists je, edge_at g a q je) (EdgeSet.elements (in_edges_ n))).
    { apply Forall_forall. intros q (j & e & Hj & He & _)%Hin. by exists (j, e). }
    clear -Hall. induction Hall as [|q l [je Hq] _ (js & IH)]; [by exists []; constructor|]. exists (je :: js). by constructor. }
  destruct Hex as [js Hjs]. exists js. split; [done|]. apply NoDup_Permutation; [|apply into_NoDup|].
  - clear Hin Hok. induction Hjs as [|q je l js Hq Hjs IH]; [constructor|]. apply NoDup_cons in Hnd as [Hni Hnd]. constructor; [|auto]. intros Hje. apply Hni.
    apply list_elem_of_lookup in Hje as [m Hm]. destruct (Forall2_lookup_r _ _ _ _ _ Hjs Hm) as (q' & Hq' & Hr). destruct Hq as [Hq _], Hr as [Hr _]. rewrite Hq in Hr. injection Hr as ->. by eapply list_elem_of_lookup_2.
  - intros je. rewrite elem_of_into. split.
    + intros [m Hm]%list_elem_of_lookup. destruct (Forall2_lookup_r _ _ _ _ _ Hjs Hm) as (q & Hq & Hr1 & Hr2). split; [done|]. apply list_elem_of_lookup_2, Hin in Hq as (j & e & Hj & He & Hd).
      rewrite (live_edge_inj addr H _ _ _ Hj Hr1) in He. rewrite Hr2 in He. by injection He as ->.
    + intros [He Hd]. destruct (rep_edge addr H _ _ He) as (q & Hq & _). assert (Hqe : q ∈ EdgeSet.elements (in_edges_ n)) by (apply Hin; eauto).
      apply list_elem_of_lookup in Hqe as [m Hm]. destruct (Forall2_lookup_l _ _ _ _ _ Hjs Hm) as ([j' e'] & Hje & Hr1 & Hr2). cbn in Hr1, Hr2. rewrite (live_edge_inj addr H _ _ _ Hr1 Hq) in Hr2, Hje. rewrite He in Hr2. injection Hr2 as <-.
      destruct je as [j e]. cbn in *. by eapply list_elem_of_lookup_2.
Qed.
Lemma edge_at_heap g a q je : rep g a -> edge_at g a q je -> exists c, edge_heap g !! q = Some c /\ src_output_ c = e_out je.2 /\ dst_input_ c = e_in je.2 /\ at_ (nodes_ g) (e_src je.2) = Some (src_ c) /\ q <> 0.
Proof.
  intros H [Hj He]. destruct (rep_live_edge addr H _ _ Hj) as (e' & He' & s & d & Hq & Hs & Hd). rewrite He in He'. injection He' as <-. eexists. split; [exact Hq|]. cbn. repeat split; try done. by apply at_Some in Hj as [_ ?].
Qed.

(** ** An input *)

Lemma find_input_Done g a idx qs js : rep g a -> Forall2 (edge_at g a) qs js ->
  (exists q je, find_input idx qs g = Done (Some q, g) /\ je ∈ js /\ edge_at g a q je /\ e_in je.2 = idx) \/
  (find_input idx qs g = Done (None, g) /\ forall je, je ∈ js -> e_in je.2 <> idx).
Proof.
  intros H. induction 1 as [|q je qs js Hq Hjs IH]; [right; split; [done|]; by intros je ?%elem_of_nil|]. cbn [find_input].
  destruct (edge_at_heap g a q je H Hq) as (c & Hc & _ & Hin & _). rewrite (st_bind_eq _ _ _ c g) by (unfold edge_of; by rewrite Hc). rewrite Hin. destruct (Z.eqb_spec (e_in je.2) idx) as [He|He].
  - left. exists q, je. split; [done|]. split; [by left|done].
  - destruct IH as [(q' & je' & -> & H1 & H2)|[-> H1]].
    + left. exists q', je'. split; [done|]. split; [by right|done].
    + right. split; [done|]. intros je' [->|Hj]%elem_of_cons; [done|auto].
Qed.
Definition num_in (v : ANode) : Z := s32 (zlength (input_types_ (a_props v))).
Definition name_of (v : ANode) : list Z := def_name (node_def_ (a_props v)).
Lemma node_read g a i p v n : rep g a -> at_ (nodes_ g) i = Some p -> a_nodes a !! i = Some v -> node_heap g !! p = Some n ->
  num_inputs p g = Done (num_in v, g) /\ name p g = Done (name_of v, g) /\ def p g = Done (node_def_ (a_props v), g) /\ id_ n = i /\ assigned_device_name_ n = a_device v.
Proof.
  intros H Hp Hv Hn. destruct (rep_live addr H _ _ Hp) as (v' & Hv' & n' & k & Hn' & Hps & _ & Hid & _ & Hd & _). rewrite Hv in Hv'. injection Hv' as <-. rewrite Hn in Hn'. injection Hn' as <-.
  assert (Hdef : def p g = Done (node_def_ (a_props v), g)).
  { unfold def. rewrite (st_bind_eq _ _ _ n g) by (unfold node_of; by rewrite Hn). rewrite (st_bind_eq _ _ _ (a_props v) g) by (unfold props_of; by rewrite Hps). done. }
  split; [|split; [|done]].
  - unfold num_inputs. rewrite (st_bind_eq _ _ _ n g) by (unfold node_of; by rewrite Hn). rewrite (st_bind_eq _ _ _ (a_props v) g) by (unfold props_of; by rewrite Hps). done.
  - unfold name. by rewrite (st_bind_eq _ _ _ _ _ Hdef).
Qed.
(** The status and the id of the source of an input. *)
Definition input_of (i idx : Z) : ST Graph (Status * Z) :=
  let! p := FindNodeId i in
  let! '(st, q) := input_node p idx in
  if ok st then let! n := node_of q in st_ret (st, id_ n) else st_ret (st, -1).
Lemma wp_input_of g a i idx v (Q : Status * Z -> Graph -> Prop) : rep g a -> a_nodes a !! i = Some v ->
  (idx < 0 \/ num_in v <= idx -> forall msg, Q (InvalidArgument msg, -1) g) ->
  (0 <= idx < num_in v -> forall j e, a_edges a !! j = Some e -> e_dst e = i -> e_in e = idx -> Q (OK, e_src e) g) ->
  (0 <= idx < num_in v -> (forall j e, a_edges a !! j = Some e -> e_dst e = i -> e_in e <> idx) -> forall msg, Q (NotFound msg, -1) g) -> wp (input_of i idx) g Q.
Proof.
  intros H Hv Hbad Hok Hno. destruct (rep_node addr H _ _ Hv) as (p & Hp & Hrel). pose proof Hrel as (n & k & Hn & _). destruct (node_read g a i p v n H Hp Hv Hn) as (Hni & Hnm & _).
  unfold input_of. wp_step. eapply wp_FindNodeId; [exact Hp|]. unfold input_node, input_edge. wp_step. wp_step. wp_step. apply (proj2 (wp_Done _ _ _)). exists (num_in v), g. split; [done|]. wp_step. apply (proj2 (wp_Done _ _ _)). exists (name_of v), g. split; [done|].
  destruct ((idx <? 0) || (num_in v <=? idx)) eqn:Eb.
  - apply wp_ret. cbn. apply wp_ret. cbn. apply wp_ret. apply Hbad. apply orb_prop in Eb as [?%Z.ltb_lt|?%Z.leb_le]; lia.
  - apply orb_false_iff in Eb as [E1%Z.ltb_ge E2%Z.leb_gt]. wp_step. eapply wp_node_of; [exact Hn|]. destruct (node_edges g a i p n H Hp Hn) as (js & Hjs & Hperm). wp_step. apply (proj2 (wp_Done _ _ _)).
    destruct (find_input_Done g a idx _ js H Hjs) as [(q & je & -> & Hje & Hq & Hin)|[-> Hnone]].
    + exists (Some q), g. split; [done|]. apply wp_ret. destruct (edge_at_heap g a q je H Hq) as (c & Hc & _ & _ & Hsrc & Hq0). cbn [ok negb state_ OK]. rewrite (proj2 (Z.eqb_neq q 0) Hq0). wp_step. eapply wp_edge_of; [exact Hc|]. apply wp_ret. cbn.
      destruct (rep_live addr H _ _ Hsrc) as (w & _ & m & l & Hm & _ & _ & Hid & _). wp_step. eapply wp_node_of; [exact Hm|]. apply wp_ret. rewrite Hid. rewrite Hperm in Hje. apply elem_of_into in Hje as [Hje Hd]. by apply (Hok ltac:(lia) je.1).
    + exists None, g. split; [done|]. apply wp_ret. cbn. apply wp_ret. cbn. apply wp_ret. apply Hno; [lia|]. intros j e He Hd. apply (Hnone (j, e)). rewrite Hperm. by apply elem_of_into.
Qed.

(** ** A definition *)

Definition is_control (je : JEdge) : bool := e_out je.2 =? kControlSlot.
(** The text of an input; nothing for an edge from the source or the sink. *)
Definition input_text a (e : AEdge) : list (list Z) :=
  if 1 <? e_src e then match a_nodes a !! e_src e with Some w => [AddInput (name_of w) (e_out e)] | None => [] end else [].
(** The data edge into input [idx]; the input of the definition where there is
    none. *)
Definition slot a (v : ANode) (i idx : Z) : list (list Z) :=
  match List.find (fun je : JEdge => negb (is_control je) && (e_in je.2 =? idx)) (into a i) with
  | Some je => input_text a je.2
  | None => match def_input (node_def_ (a_props v)) !!z idx with Some s => [s] | None => [] end
  end.
Definition control_inputs a (i : Z) : list (list Z) := flat_map (fun je => input_text a je.2) (List.filter is_control (into a i)).
Definition serialized a (i : Z) (d : NodeDef) : Prop :=
  exists v, a_nodes a !! i = Some v /\ def_name d = name_of v /\ def_op d = type_of v /\ def_attr d = def_attr (node_def_ (a_props v)) /\
    def_device d = (match a_device v with [] => def_device (node_def_ (a_props v)) | _ => a_device v end) /\
    exists ctl, def_input d = flat_map (slot a v i) (seqZ 0 (num_in v)) ++ ctl /\ ctl ≡ₚ control_inputs a i.
(** The data edges enter the inputs of their nodes, each input at most once, and
    the definition of a node tells the inputs without an edge. *)
Definition well_typed a : Prop := forall i v, a_nodes a !! i = Some v -> 1 < i -> 0 <= num_in v /\
  (forall je, je ∈ into a i -> is_control je = false -> 0 <= e_in je.2 < num_in v) /\
  (forall je je', je ∈ into a i -> je' ∈ into a i -> is_control je = false -> is_control je' = false -> e_in je.2 = e_in je'.2 -> je = je') /\
  (forall idx, 0 <= idx < num_in v -> (forall je, je ∈ into a i -> is_control je = false -> e_in je.2 <> idx) -> is_Some (def_input (node_def_ (a_props v)) !!z idx)).

(** The vector of edges, on the abstract graph. *)
Definition place (ws : list (option JEdge)) (je : JEdge) : list (option JEdge) := if is_control je then ws ++ [Some je] else zinsert ws (e_in je.2) (Some je).
Definition placed g a (q : Z) (o : option JEdge) : Prop := match o with None => q = 0 | Some je => edge_at g a q je end.
(** Each data edge is put in a free place. *)
Fixpoint fits (js : list JEdge) (ws : list (option JEdge)) : Prop :=
  match js with [] => True | je :: js' => (is_control je = false -> ws !!z e_in je.2 = Some None) /\ fits js' (place ws je) end.
Lemma Forall2_zlookup {A B} (R : A -> B -> Prop) l k i y : Forall2 R l k -> k !!z i = Some y -> exists x, l !!z i = Some x /\ R x y.
Proof. unfold zlookup. destruct (i <? 0); [done|]. intros H Hy. destruct (Forall2_lookup_r _ _ _ _ _ H Hy) as (x & Hx & Hr). by exists x. Qed.
Lemma place_inputs_Done g a qs js inputs ws : rep g a -> Forall2 (edge_at g a) qs js -> Forall2 (placed g a) inputs ws -> fits js ws ->
  exists inputs', place_inputs qs inputs g = Done (inputs', g) /\ Forall2 (placed g a) inputs' (fold_left place js ws).
Proof.
  intros H Hjs. revert inputs ws. induction Hjs as [|q je qs js Hq Hjs IH]; intros inputs ws Hws Hfit; cbn [place_inputs fold_left]; [by exists inputs|].
  destruct Hfit as [Hfree Hfit]. destruct (edge_at_heap g a q je H Hq) as (c & Hc & Hout & Hin & _). rewrite (st_bind_eq _ _ _ c g) by (unfold edge_of; by rewrite Hc). unfold IsControlEdge. rewrite Hout, Hin. fold (is_control je). unfold place at 2.
  unfold place in Hfit. destruct (is_control je) eqn:Ec.
  - apply IH; [|done]. apply Forall2_app; [done|]. constructor; [exact Hq|constructor].
  - destruct (Forall2_zlookup _ _ _ _ _ Hws (Hfree eq_refl)) as (x & Hx & Hx0). cbn in Hx0. subst x. rewrite (st_bind_eq _ _ _ 0 g) by (by rewrite Hx). rewrite (st_bind_eq _ _ _ tt g) by done.
    apply IH; [|done]. unfold zinsert. destruct (_ <? 0); [done|]. by apply Forall2_insert.
Qed.
Definition entry_text a (v : ANode) (k : Z) (o : option JEdge) : list (list Z) :=
  match o with Some je => input_text a je.2 | None => match def_input (node_def_ (a_props v)) !!z k with Some s => [s] | None => [] end end.
Fixpoint entries_text a (v : ANode) (k : Z) (ws : list (option JEdge)) : list (list Z) :=
  match ws with [] => [] | o :: ws' => entry_text a v k o ++ entries_text a v (k + 1) ws' end.
Lemma add_inputs_Done g a v k inputs ws : rep g a -> Forall2 (placed g a) inputs ws -> (forall m, ws !! m = Some None -> is_Some (def_input (node_def_ (a_props v)) !!z (k + Z.of_nat m))) ->
  add_inputs (node_def_ (a_props v)) k inputs g = Done (entries_text a v k ws, g).
Proof.
  intros H Hws. revert k. induction Hws as [|q o inputs ws Hq Hws IH]; intros k Hdef; [done|]. cbn [add_inputs entries_text].
  assert (IH' : add_inputs (node_def_ (a_props v)) (k + 1) inputs g = Done (entries_text a v (k + 1) ws, g)).
  { apply IH. intros m Hm. replace (k + 1 + Z.of_nat m) with (k + Z.of_nat (S m)) by lia. by apply Hdef. }
  assert (Hs : (if q =? 0 then let! s := st_opt (def_input (node_def_ (a_props v)) !!z k) in st_ret [s] else
     let! e := edge_of q in let! src := node_of (src_ e) in if negb (IsOp src) then st_ret [] else let! nm := name (src_ e) in st_ret [AddInput nm (src_output_ e)]) g = Done (entry_text a v k o, g)).
  { destruct o as [je|]; cbn in Hq.
    - destruct (edge_at_heap g a q je H Hq) as (c & Hc & Hout & Hin & Hsrc & Hq0). rewrite (proj2 (Z.eqb_neq q 0) Hq0). rewrite (st_bind_eq _ _ _ c g) by (unfold edge_of; by rewrite Hc).
      destruct (rep_live addr H _ _ Hsrc) as (w & Hw & m & l & Hm & _). destruct (node_read g a _ _ w m H Hsrc Hw Hm) as (_ & Hnm & _ & Hid & _). rewrite (st_bind_eq _ _ _ m g) by (unfold node_of; by rewrite Hm).
      unfold IsOp. rewrite Hid. cbn [entry_text]. unfold input_text. destruct (1 <? e_src je.2); cbn [negb]; [|done]. rewrite (st_bind_eq _ _ _ _ g Hnm), Hout, Hw. done.
    - subst q. cbn. destruct (Hdef 0%nat eq_refl) as [s Hs]. rewrite Z.add_0_r in Hs. rewrite (st_bind_eq _ _ _ s g) by (by rewrite Hs). by rewrite Hs. }
  rewrite (st_bind_eq _ _ _ _ _ Hs), (st_bind_eq _ _ _ _ _ IH'). done.
Qed.

(** The data edges at their inputs, then the control edges. *)
Lemma zinsert_app {A} (l k : list A) i x : 0 <= i < zlength l -> zinsert (l ++ k) i x = zinsert l i x ++ k.
Proof. unfold zinsert, zlength. intros Hi. destruct (Z.ltb_spec i 0); [lia|]. apply insert_app_l. lia. Qed.
Lemma place_shape js : forall S C, NoDup js -> (forall je, je ∈ js -> is_control je = false -> S !!z e_in je.2 = Some (@None JEdge)) ->
  (forall je je', je ∈ js -> je' ∈ js -> is_control je = false -> is_control je' = false -> e_in je.2 = e_in je'.2 -> je = je') ->
  exists S', fold_left place js (S ++ map Some C) = S' ++ map Some (C ++ List.filter is_control js) /\ fits js (S ++ map Some C) /\ zlength S' = zlength S /\
    (forall je, je ∈ js -> is_control je = false -> S' !!z e_in je.2 = Some (Some je)) /\ (forall k, (forall je, je ∈ js -> is_control je = false -> e_in je.2 <> k) -> S' !!z k = S !!z k).
Proof.
  induction js as [|je js IH]; intros S C Hnd Hfree Hinj.
  { exists S. cbn. rewrite app_nil_r. split; [done|]. split; [done|]. split; [done|]. split; [by intros je ?%elem_of_nil|done]. }
  apply NoDup_cons in Hnd as [Hni Hnd]. cbn [fold_left fits List.filter]. unfold place at 2 3. destruct (is_control je) eqn:Ec.
  - destruct (IH S (C ++ [je]) Hnd) as (S' & H1 & H2 & H3 & H4 & H5); [intros; apply Hfree; [by right|done]|intros; apply Hinj; try done; by right|]. exists S'.
    assert (E : (S ++ map Some C) ++ [Some je] = S ++ map Some (C ++ [je])) by (by rewrite map_app, app_assoc). rewrite E.
    split; [by rewrite H1, <- (app_assoc C)|]. split; [by split|]. split; [done|]. split.
    + intros je' [->|Hj]%elem_of_cons Hc; [congruence|by apply H4].
    + intros k Hk. apply H5. intros je' Hj. apply Hk. by right.
  - pose proof (Hfree je ltac:(by left) Ec) as Hje. pose proof (zlookup_range _ _ _ Hje) as Hr.
    destruct (IH (zinsert S (e_in je.2) (Some je)) C Hnd) as (S' & H1 & H2 & H3 & H4 & H5).
    + intros je' Hj Hc. rewrite zlookup_zinsert_ne; [apply Hfree; [by right|done]|]. intros Heq. apply Hni. rewrite (Hinj je je'); [done|by left|by right|done|done|done].
    + intros; apply Hinj; try done; by right.
    + exists S'. rewrite zinsert_app by done. split; [done|]. split; [split; [intros _; by rewrite zlookup_front|done]|]. split; [by rewrite zinsert_length in H3|]. split.
      * intros je' [->|Hj]%elem_of_cons Hc; [|by apply H4]. rewrite H5; [by rewrite zlookup_zinsert_eq|]. intros je2 Hj2 Hc2 Heq. apply Hni. rewrite (Hinj je je2); [done|by left|by right|done|done|done].
      * intros k Hk. rewrite H5 by (intros je' Hj; apply Hk; by right). apply zlookup_zinsert_ne. apply Hk; [by left|done].
Qed.
Lemma entries_app a v k ws1 ws2 : entries_text a v k (ws1 ++ ws2) = entries_text a v k ws1 ++ entries_text a v (k + zlength ws1) ws2.
Proof.
  revert k. induction ws1 as [|o ws1 IH]; intros k; cbn [app entries_text]; [unfold zlength; cbn [length]; by rewrite Z.add_0_r|]. rewrite IH, <- app_assoc. do 3 f_equal. unfold zlength. cbn [length]. lia.
Qed.
Lemma entries_some a v k l : entries_text a v k (map Some l) = flat_map (fun je => input_text a je.2) l.
Proof. revert k. induction l as [|je l IH]; intros k; [done|]. cbn. by rewrite IH. Qed.
Lemma entries_slots a v (f : Z -> list (list Z)) ws k : 0 <= k -> (forall m o, ws !! m = Some o -> entry_text a v (k + Z.of_nat m) o = f (k + Z.of_nat m)) -> entries_text a v k ws = flat_map f (seqZ k (zlength ws)).
Proof.
  revert k. induction ws as [|o ws IH]; intros k Hk Hf; [done|]. unfold zlength. cbn [entries_text length]. rewrite (seqZ_step k) by lia. cbn [flat_map]. replace (Z.of_nat (S (length ws)) - 1) with (zlength ws) by (unfold zlength; lia).
  rewrite <- IH; [|lia|].
  - f_equal. specialize (Hf 0%nat o eq_refl). by rewrite Z.add_0_r in Hf.
  - intros m o' Hm. replace (k + 1 + Z.of_nat m) with (k + Z.of_nat (S m)) by lia. by apply Hf.
Qed.
Lemma find_unique (l : list JEdge) P je : je ∈ l -> P je = true -> (forall je', je' ∈ l -> P je' = true -> je' = je) -> List.find P l = Some je.
Proof.
  intros Hin HP Hu. destruct (List.find P l) as [je'|] eqn:E.
  - apply List.find_some in E as [Hin' HP']. f_equal. apply Hu; [by apply list_elem_of_In|done].
  - rewrite (List.find_none _ _ E je) in HP; [done|by apply list_elem_of_In].
Qed.
Lemma input_list a i v js : well_typed a -> a_nodes a !! i = Some v -> 1 < i -> js ≡ₚ into a i ->
  let ws := fold_left place js (replicate (Z.to_nat (num_in v)) None) in
  fits js (replicate (Z.to_nat (num_in v)) None) /\ (forall m, ws !! m = Some None -> is_Some (def_input (node_def_ (a_props v)) !!z Z.of_nat m)) /\
  entries_text a v 0 ws = flat_map (slot a v i) (seqZ 0 (num_in v)) ++ flat_map (fun je => input_text a je.2) (List.filter is_control js).
Proof.
  intros Hwt Hv Hi Hjs ws. destruct (Hwt i v Hv Hi) as (Hnum & Hrange & Hinj & Hdef). set (S := replicate (Z.to_nat (num_in v)) (@None JEdge)).
  assert (HlenS : zlength S = num_in v) by (unfold zlength, S; rewrite length_replicate; lia).
  assert (HS : forall k, 0 <= k < num_in v -> S !!z k = Some None) by (intros k Hk; unfold zlookup, S; destruct (Z.ltb_spec k 0); [lia|]; apply lookup_replicate; split; [done|lia]).
  destruct (place_shape js S []) as (S' & Hws & Hfits & Hlen & Hin & Hout).
  - rewrite Hjs. apply into_NoDup.
  - intros je Hje Hc. apply HS. apply Hrange; [by rewrite <- Hjs|done].
  - intros je je' H1 H2. rewrite Hjs in H1, H2. by apply Hinj.
  - cbn [map app] in Hws, Hfits. rewrite app_nil_r in Hws, Hfits. split; [done|]. unfold ws. fold S. rewrite Hws.
    assert (Hslot : forall m o, S' !! m = Some o -> entry_text a v (0 + Z.of_nat m) o = slot a v i (0 + Z.of_nat m) /\ (o = None -> is_Some (def_input (node_def_ (a_props v)) !!z Z.of_nat m))).
    { intros m o Hm. rewrite Z.add_0_l. assert (Hmr : 0 <= Z.of_nat m < num_in v) by (apply lookup_lt_Some in Hm; rewrite <- HlenS, <- Hlen; unfold zlength; lia).
      assert (Hzm : S' !!z Z.of_nat m = Some o) by (unfold zlookup; destruct (Z.ltb_spec (Z.of_nat m) 0); [lia|]; by rewrite Nat2Z.id).
      unfold slot. destruct (List.find _ (into a i)) as [je|] eqn:Ef.
      - apply List.find_some in Ef as [Hje [Hc%negb_true_iff He%Z.eqb_eq]%andb_prop]. apply list_elem_of_In in Hje. rewrite <- Hjs in Hje. pose proof (Hin je Hje Hc) as Hl. rewrite He, Hzm in Hl. injection Hl as ->. done.
      - assert (Hno : forall je, je ∈ into a i -> is_control je = false -> e_in je.2 <> Z.of_nat m).
        { intros je Hje Hc He. pose proof (List.find_none _ _ Ef je (proj1 (list_elem_of_In _ _) Hje)) as Hf. cbn in Hf. by rewrite Hc, (proj2 (Z.eqb_eq _ _) He) in Hf. }
        rewrite Hout in Hzm by (intros je Hje; apply Hno; by rewrite <- Hjs). rewrite HS in Hzm by done. injection Hzm as <-. split; [done|]. intros _. by apply Hdef. }
    split.
    + intros m Hm. apply lookup_app_Some in Hm as [Hm|[_ Hm]]; [by apply (proj2 (Hslot m _ Hm))|]. rewrite <- list_fmap_map in Hm || idtac. apply list_elem_of_lookup_2, list_elem_of_In, in_map_iff in Hm as (? & ? & _). done.
    + rewrite entries_app, entries_some. f_equal. rewrite <- HlenS, <- Hlen. apply entries_slots; [lia|]. intros m o Hm. by apply Hslot.
Qed.
Lemma node_to_def_Done g a i p v : rep g a -> well_typed a -> at_ (nodes_ g) i = Some p -> a_nodes a !! i = Some v -> 1 < i -> exists d, node_to_def p g = Done (d, g) /\ serialized a i d.
Proof.
  intros H Hwt Hp Hv Hi. destruct (rep_live addr H _ _ Hp) as (v' & Hv' & n & k & Hn & _). rewrite Hv in Hv'. injection Hv' as <-. destruct (node_read g a i p v n H Hp Hv Hn) as (Hni & Hnm & Hd & Hid & Hdev).
  destruct (node_edges g a i p n H Hp Hn) as (js & Hjs & Hperm). destruct (input_list a i v js Hwt Hv Hi Hperm) as (Hfits & Hdefd & Htext).
  assert (Hrep : Forall2 (placed g a) (replicate (Z.to_nat (num_in v)) 0) (replicate (Z.to_nat (num_in v)) None)) by by apply Forall2_replicate.
  destruct (place_inputs_Done g a _ _ _ _ H Hjs Hrep Hfits) as (inputs & Hplace & Hws).
  pose proof (add_inputs_Done g a v 0 _ _ H Hws Hdefd) as Hadd.
  eexists. split.
  - unfold node_to_def. rewrite (st_bind_eq _ _ _ n g) by (unfold node_of; by rewrite Hn). rewrite (st_bind_eq _ _ _ _ _ Hd). cbv zeta. rewrite (st_bind_eq _ _ _ _ _ Hni), (st_bind_eq _ _ _ _ _ Hplace), (st_bind_eq _ _ _ _ _ Hadd). reflexivity.
  - exists v. split; [done|]. cbn. rewrite Hdev. do 4 (split; [done|]). eexists. split; [exact Htext|]. unfold control_inputs.
    assert (Hf : List.filter is_control js ≡ₚ List.filter is_control (into a i)) by (clear -Hperm; induction Hperm; cbn; repeat case_match; eauto using Permutation_trans, perm_swap).
    by rewrite Hf.
Qed.

(** The condition, decided. *)
Definition data_into a (i : Z) : list JEdge := List.filter (fun je => negb (is_control je)) (into a i).
Definition well_typed_node a (i : Z) (v : ANode) : bool :=
  (i <=? 1) ||
  (0 <=? num_in v) && forallb (fun je : JEdge => (0 <=? e_in je.2) && (e_in je.2 <? num_in v)) (data_into a i) &&
  bool_decide (NoDup (map (fun je : JEdge => e_in je.2) (data_into a i))) &&
  forallb (fun idx => bool_decide (is_Some (def_input (node_def_ (a_props v)) !!z idx)) || existsb (fun je : JEdge => e_in je.2 =? idx) (data_into a i)) (seqZ 0 (num_in v)).
Definition well_typedb a : bool := forallb (fun iv : Z * ANode => well_typed_node a iv.1 iv.2) (map_to_list (a_nodes a)).
Lemma elem_of_data a i je : je ∈ data_into a i <-> je ∈ into a i /\ is_control je = false.
Proof. unfold data_into. rewrite list_elem_of_In, filter_In, <- list_elem_of_In, negb_true_iff. done. Qed.
Lemma NoDup_map_inj {A B} (f : A -> B) (l : list A) x y : NoDup (map f l) -> x ∈ l -> y ∈ l -> f x = f y -> x = y.
Proof.
  induction l as [|z l IH]; [by intros _ ?%elem_of_nil|]. cbn. intros [Hni Hnd]%NoDup_cons Hx Hy Hf. assert (Hz : forall w, w ∈ l -> f w ∈ map f l) by (intros w Hw; apply list_elem_of_In, in_map; by apply list_elem_of_In).
  apply elem_of_cons in Hx as [->|Hx], Hy as [->|Hy]; [done|exfalso; apply Hni; rewrite Hf; auto|exfalso; apply Hni; rewrite <- Hf; auto|auto].
Qed.
Lemma well_typedb_ok a : well_typedb a = true -> well_typed a.
Proof.
  intros Hall i v Hv Hi. unfold well_typedb in Hall. rewrite forallb_forall in Hall. specialize (Hall (i, v)). cbn in Hall. unfold well_typed_node in Hall. rewrite (proj2 (Z.leb_gt i 1)) in Hall by lia. cbn [orb] in Hall.
  assert (Hin : In (i, v) (map_to_list (a_nodes a))) by (by apply list_elem_of_In, elem_of_map_to_list). apply Hall in Hin. apply andb_prop in Hin as [[[H1%Z.leb_le H2]%andb_prop H3%bool_decide_eq_true]%andb_prop H4]. rewrite forallb_forall in H2, H4.
  split; [done|]. split; [|split].
  - intros je Hje Hc. assert (Hd : In je (data_into a i)) by (apply list_elem_of_In; by apply elem_of_data). apply H2 in Hd. apply andb_prop in Hd as [?%Z.leb_le ?%Z.ltb_lt]. done.
  - intros je je' Hje Hje' Hc Hc'. apply (NoDup_map_inj (fun je : JEdge => e_in je.2) (data_into a i)); [done|by apply elem_of_data|by apply elem_of_data].
  - intros idx Hidx Hno. assert (Hs : In idx (seqZ 0 (num_in v))) by (apply list_elem_of_In, elem_of_seqZ; lia). apply H4 in Hs. apply orb_prop in Hs as [Hs%bool_decide_eq_true|Hs]; [done|].
    apply existsb_exists in Hs as (je & Hje & He%Z.eqb_eq). apply list_elem_of_In, elem_of_data in Hje as [Hje Hc]. by destruct (Hno je Hje Hc).
Qed.
(** The nodes in the order of their ids. *)
Definition ops_of a : list Z := List.filter (fun i => 1 <? i) (ids_of a).
Lemma emit_nodes_Done g a ids : rep g a -> well_typed a -> Forall (fun i => 0 <= i < a_next_node a) ids ->
  exists ds, emit_nodes ids g = Done (ds, g) /\ Forall2 (fun d i => serialized a i d) ds (List.filter (fun i => 1 <? i) (List.filter (fun i => bool_decide (is_Some (a_nodes a !! i))) ids)).
Proof.
  intros H Hwt. induction 1 as [|i ids Hr _ (ds & IH & Hds)]; [exists []; split; [done|constructor]|]. cbn [emit_nodes List.filter]. destruct (find_Done g i) as (p & Hp & Hf & Hat); [by rewrite (r_len_n _ _ _ _ H)|].
  rewrite (st_bind_eq _ _ _ _ _ Hf). pose proof (r_nodes _ _ _ _ H i) as Hrel. rewrite Hat in Hrel. destruct (p =? 0) eqn:Ep.
  - inversion Hrel as [|Hx Hn]. rewrite bool_decide_eq_false_2 by (by intros [? ?]). exists ds. split; [|done]. rewrite (st_bind_eq _ _ _ false g) by done. rewrite (st_bind_eq _ _ _ [] g) by done. by rewrite (st_bind_eq _ _ _ _ _ IH).
  - inversion Hrel as [q v (n & k & Hn & _ & _ & Hid & _) Hx Hv|]. subst q. rewrite bool_decide_eq_true_2 by (by eexists). cbn [List.filter].
    rewrite (st_bind_eq _ _ _ (1 <? i) g) by (rewrite (st_bind_eq _ _ _ n g) by (unfold node_of; by rewrite Hn); unfold IsOp; by rewrite Hid).
    destruct (Z.ltb_spec 1 i) as [Hi|Hi].
    + destruct (node_to_def_Done g a i p v H Hwt) as (d & Hd & Hs); [done|done|done|]. rewrite (st_bind_eq _ _ _ [d] g) by (by rewrite (st_bind_eq _ _ _ _ _ Hd)). rewrite (st_bind_eq _ _ _ _ _ IH). exists (d :: ds). split; [done|by constructor].
    + rewrite (st_bind_eq _ _ _ [] g) by done. rewrite (st_bind_eq _ _ _ _ _ IH). by exists ds.
Qed.
Lemma ToGraphDef_Done g a : rep g a -> a_next_node a < 2 ^ 31 -> well_typed a -> exists ds, ToGraphDef g = Done (ds, g) /\ Forall2 (fun d i => serialized a i d) ds (ops_of a).
Proof.
  intros H Hn Hwt. pose proof (r_len_n _ _ _ _ H) as Hlen. assert (Hnum : num_node_ids g = a_next_node a) by (unfold num_node_ids; rewrite s32_id; [done|unfold zlength in *; lia]).
  unfold ToGraphDef, ToGraphDefSubRange. rewrite (st_bind_eq _ _ _ g g) by done. rewrite Hnum, Z.sub_0_r. apply emit_nodes_Done; [done|done|]. apply Forall_forall. intros i Hi%elem_of_seqZ. lia.
Qed.
End Reading.
End GraphDef.
