(* ===== verification/GraphTheorems.v ===== *)
(** * Graphs: the theorems

    What holds of every graph that calls of its operations build. *)
From S2P Require Import Prelude Status Numbers EdgeSet Graph GraphFacts GraphOps GraphTraversal GraphPasses GraphDef.
From stdpp Require Import gmap relations.
Open Scope Z_scope.

Module GraphTheorems.
Import Status Numbers NodeClass Graph GraphSpec GraphFacts GraphOps GraphRun GraphAlgorithm GraphTraversal GraphPasses GraphDef.

Section Theorems.
Context {OpDef AttrValue : Type} {registry : OpRegistryInterface OpDef AttrValue} {laws : OpRegistryLaws OpDef AttrValue registry}.
Context (addr : nat -> Z) {Haddr : addresses addr}.
Abbreviation Graph := (Graph OpDef AttrValue).
Abbreviation AGraph := (AGraph OpDef AttrValue).
Abbreviation rep := (rep addr).
Implicit Types (g : Graph) (a : AGraph).

Definition no_graph : AGraph := mkAGraph ∅ 0 ∅ 0 0.
Lemma empty_rep : rep empty_Graph no_graph.
Proof.
  assert (Hat : forall i, at_ [] i = None) by (intros i; unfold at_, zlookup; by destruct (i <? 0)).
  split; try done.
  - intros i. cbn. rewrite Hat. constructor.
  - intros i. cbn. rewrite Hat. constructor.
  - apply EdgeSet.new_ok.
  - intros q. split; [by intros ?%elem_of_nil|]. intros [j Hj]. cbn in Hj. by rewrite Hat in Hj.
  - split; [constructor|]. by intros p ?%elem_of_nil.
  - split; [constructor|]. by intros p ?%elem_of_nil.
  - intros p [[? Hp]|[[? Hp]|[? Hp]]]; cbn in Hp; by rewrite lookup_empty in Hp.
Qed.
Lemma wp_add_end g a d nm : rep g a -> room (a_next_node a) -> LookUpOpDef (bytes_of "NoOp") = (OK, Some d) -> (forall nm, InOutTypesForNode (source_def nm) d = (OK, ([], []))) ->
  forall Q : Z * Status -> Graph -> Prop, (forall p g', rep g' (add_node (end_node d nm (a_next_node a)) a) -> at_ (nodes_ g') (a_next_node a) = Some p -> keeps g g' -> Q (p, OK) g') -> wp (AddNode addr (source_def nm) OK) g Q.
Proof. intros H Hr Hd Hio Q HQ. eapply (wp_AddNode addr g a); [done..|]. unfold made. cbn [def_op source_def]. rewrite Hd. cbn. rewrite Hio. cbn. apply HQ. Qed.
Lemma wp_live_node {B} g a i p (f : Node -> ST Graph B) Q : rep g a -> at_ (nodes_ g) i = Some p -> (forall n, id_ n = i -> wp (f n) g Q) -> wp (let! n := node_of p in f n) g Q.
Proof. intros H Hp HQ. destruct (rep_live addr H _ _ Hp) as (v & _ & n & k & Hn & _ & _ & Hid & _). wp_step. eapply wp_node_of; [exact Hn|]. by apply HQ. Qed.
(** The constructor. *)
Lemma wp_new_Graph d (Q : unit -> Graph -> Prop) : LookUpOpDef (bytes_of "NoOp") = (OK, Some d) -> (forall g', rep g' (spec_new d) -> Q tt g') -> wp (new_Graph addr) empty_Graph Q.
Proof.
  intros Hd HQ. destruct registry_noop as (d' & Hd' & Hio). rewrite Hd in Hd'. injection Hd' as <-. unfold new_Graph.
  wp_step. eapply (wp_add_end _ no_graph d); [apply empty_rep|unfold room; cbn; lia|done|done|]. intros s g1 H1 Hs _. cbn in Hs.
  wp_step. apply wp_check; [done|]. apply (wp_live_node _ _ _ _ _ _ H1 Hs). intros n Hid. wp_step. apply wp_check; [by rewrite Hid|].
  wp_step. eapply (wp_add_end _ _ d); [exact H1|unfold room; cbn; lia|done|done|]. intros t g2 H2 Ht Hk. cbn in Ht. apply Hk in Hs.
  wp_step. apply wp_check; [done|]. apply (wp_live_node _ _ _ _ _ _ H2 Ht). intros n' Hid'. wp_step. apply wp_check; [by rewrite Hid'|].
  wp_step. eapply (wp_AddEdge addr g2 _ 0 kControlSlot 1 kControlSlot); [exact H2| |unfold room; cbn; lia|done|done|done|].
  - split; cbn; [by rewrite lookup_insert_ne, lookup_insert_eq by done|by rewrite lookup_insert_eq].
  - intros q g3 H3 _ _. wp_step. apply HQ. assert (E : spec_new d = add_edge (mkAEdge 0 kControlSlot 1 kControlSlot) (add_node (end_node d (bytes_of "_SINK") 1) (add_node (end_node d (bytes_of "_SOURCE") 0) no_graph))).
    { unfold spec_new, add_edge, add_node, no_graph. cbn. f_equal. }
    by rewrite E.
Qed.
Lemma new_bounded (d : OpDef) : bounded (spec_new (AttrValue := AttrValue) d).
Proof. split; [|cbn; lia]. split; eexists; reflexivity. Qed.

(** C4: any sequence of legal calls on a new graph runs on the objects in memory
    as on the abstract graph: with the same results (ids, statuses, names), to a
    represented graph, whatever addresses the arena gives out. No [CHECK] or
    [DCHECK] fails, and no call runs forever. *)
Theorem graph_refines d os : LookUpOpDef (bytes_of "NoOp") = (OK, Some d) -> legal_all os (spec_new d) = true ->
  wp (new_Graph addr ;;; run_all addr os) empty_Graph (fun rs g => rep g (spec_all os (spec_new d)).1 /\ rs = (spec_all os (spec_new d)).2).
Proof.
  intros Hd Hl. wp_step. apply (wp_new_Graph d); [done|]. intros g Hg. eapply (run_all_refines addr); [exact Hg|apply new_bounded|done|]. done.
Qed.

(** What follows the calls that build a graph. *)
Lemma wp_built {B} d os (m : ST Graph B) Q : LookUpOpDef (bytes_of "NoOp") = (OK, Some d) -> legal_all os (spec_new d) = true ->
  (forall g, rep g (spec_all os (spec_new d)).1 -> bounded (spec_all os (spec_new d)).1 -> wp m g Q) -> wp (new_Graph addr ;;; run_all addr os ;;; m) empty_Graph Q.
Proof. intros Hd Hl HQ. wp_step. apply (wp_new_Graph d); [done|]. intros g Hg. wp_step. eapply (run_all_refines addr); [exact Hg|apply new_bounded|done|]. done. Qed.

(** ** Post orders *)

Definition before {A} (l : list A) (x y : A) : Prop := exists l1 l2, l = l1 ++ x :: l2 /\ y ∈ l2.
Lemma live_located g l : Forall (live_node g) l -> exists ids, located g l ids.
Proof. induction 1 as [|p l [i Hi] _ (ids & IH)]; [exists []; constructor|]. exists (i :: ids). by constructor. Qed.
Lemma located_NoDup g l ids : located g l ids -> NoDup l -> NoDup ids.
Proof.
  intros Hloc. induction Hloc as [|p i l ids Hp Hloc IH]; [constructor|]. intros [Hn Hnd]%NoDup_cons. constructor; [|auto]. intros Hi. destruct (located_ids _ _ _ _ Hloc Hi) as (q & Hq & Hiq). rewrite Hp in Hiq. injection Hiq as <-. done.
Qed.
Lemma arc_ids g a i p q : rep g a -> at_ (nodes_ g) i = Some p -> arc (outs g) p q <-> exists k, at_ (nodes_ g) k = Some q /\ step a i k.
Proof.
  intros H Hp. unfold arc, outs. rewrite (other_ends_spec addr H out_edges_ dst_ e_src e_dst i p q) by (done || by left). unfold step. split.
  - intros (j & e & He & <- & Hq). exists (e_dst e). split; [done|]. by exists j, e.
  - intros (k & Hk & j & e & He & <- & <-). by exists j, e.
Qed.
Lemma reach_ids g a i p q : rep g a -> at_ (nodes_ g) i = Some p -> rtc (arc (outs g)) p q <-> exists k, at_ (nodes_ g) k = Some q /\ rtc (step a) i k.
Proof.
  intros H Hp. split.
  - intros Hr. revert i Hp. induction Hr as [p|p p' q Hpp' _ IH]; intros i Hp; [by exists i|]. destruct (proj1 (arc_ids _ _ _ _ _ H Hp) Hpp') as (k & Hk & Hik). destruct (IH k Hk) as (l & Hl & Hkl). exists l. split; [done|]. by eapply rtc_l.
  - intros (k & Hk & Hik). revert p Hp. induction Hik as [k|i k l Hik Hkl IH]; intros p Hp; [rewrite Hp in Hk; by injection Hk as ->|].
    pose proof Hik as (j & e & He & _ & <-). destruct (rep_edge addr H _ _ He) as (qe & _ & s & d & _ & Hs & Hd). eapply rtc_l; [|by apply (IH Hk d)]. apply (arc_ids _ _ _ _ _ H Hp). by exists (e_dst e).
Qed.
Lemma rev_reverse {A} (l : list A) : rev l = reverse l.
Proof. apply rev_alt. Qed.
(** A list of addresses and their ids are split together. *)
Lemma before_located g l ids p q i k : located g l ids -> before l p q -> at_ (nodes_ g) i = Some p -> at_ (nodes_ g) k = Some q -> (forall j j' r, at_ (nodes_ g) j = Some r -> at_ (nodes_ g) j' = Some r -> j = j') -> before ids i k.
Proof.
  intros Hloc (l1 & l2 & -> & Hq) Hi Hk Hinj. apply Forall2_app_inv_l in Hloc as (i1 & i2 & _ & Hloc & ->). apply Forall2_cons_inv_l in Hloc as (i' & i3 & Hi' & Hloc & ->).
  rewrite (Hinj _ _ _ Hi' Hi). exists i1, i3. split; [done|]. destruct (located_ptrs _ _ _ _ Hloc Hq) as (k' & Hk' & Hkq). by rewrite (Hinj _ _ _ Hk Hkq).
Qed.
Definition forward a (ids : list Z) : Prop := NoDup ids /\ (forall i, i ∈ ids <-> rtc (step a) 0 i) /\ forall i k, i ∈ ids -> step a i k -> before ids i k \/ rtc (step a) k i.
Lemma todo_false g : (todo (g := g) (replicate (length (nodes_ g)) false) <= list_sum (map (fun p => S (degree g p)) (nodes_ g)))%nat.
Proof. unfold todo. induction (nodes_ g) as [|p l IH]; [done|]. cbn. by apply le_n_S, Nat.add_le_mono_l. Qed.
Lemma wp_GetReversePostOrder g a (Q : list Z -> Graph -> Prop) : rep g a -> bounded a -> (forall order ids, located g order ids -> forward a ids -> Q order g) -> wp GetReversePostOrder g Q.
Proof.
  intros H Hb HQ. pose proof Hb as ([[v Hv] _] & Hn & _). destruct (rep_node addr H _ _ Hv) as (s & Hs & _). pose proof (r_len_n _ _ _ _ H) as Hlen.
  assert (Hnum : Z.to_nat (num_node_ids g) = length (nodes_ g)) by (unfold num_node_ids; rewrite s32_id; unfold zlength in *; lia).
  assert (Hway : way out_edges_ dst_ e_src e_dst) by by left.
  destruct (dfs_loop_correct addr H out_edges_ dst_ e_src e_dst out_nodes false s Hway ltac:(done) (dfs_fuel g) [(s, false)] (replicate (length (nodes_ g)) false) []) as (ev & Hev & Hsearch).
  - apply search_start.
  - split; [by rewrite length_replicate|]. intros i p Hp. exists false. apply at_range in Hp. split; [unfold zlookup, zlength in *; destruct (Z.ltb_spec i 0); [lia|]; apply lookup_replicate; split; [done|lia]|].
    split; [done|]. intros [[[=]|?%elem_of_nil]%elem_of_cons|?%elem_of_nil]; done.
  - intros p b [= -> ->]%list_elem_of_singleton. by exists kSourceId.
  - cbn [length]. pose proof (todo_false g). unfold dfs_fuel. lia.
  - unfold GetReversePostOrder, GetPostOrder, DFS. wp_step. wp_step. wp_step. eapply wp_FindNodeId; [exact Hs|]. wp_step. wp_step. rewrite Hnum. apply (proj2 (wp_Done _ _ _)). exists ev, g. split; [exact Hev|]. wp_step. wp_step.
    fold (outs g) in Hsearch. destruct (search_end _ _ _ Hsearch) as (Hnd & Hreach & Hord).
    rewrite rev_reverse. destruct (live_located g (reverse (left ev))) as [ids Hids].
    { apply Forall_forall. intros p Hp%(proj1 (elem_of_reverse _ _)). apply Hreach in Hp. destruct (proj1 (reach_ids _ _ _ _ _ H Hs) Hp) as (k & Hk & _). by exists k. }
    assert (Hmem : forall i p, at_ (nodes_ g) i = Some p -> i ∈ ids <-> p ∈ left ev).
    { intros i p Hp. split.
      - intros Hi. destruct (located_ids _ _ _ _ Hids Hi) as (p' & Hp'%(proj1 (elem_of_reverse _ _)) & Hip). rewrite Hp in Hip. by injection Hip as ->.
      - intros Hp'. apply elem_of_reverse in Hp'. destruct (located_ptrs _ _ _ _ Hids Hp') as (i' & Hi' & Hip). by rewrite (live_inj addr H _ _ _ Hp Hip). }
    apply (HQ _ ids Hids). split; [|split].
    + eapply located_NoDup; [exact Hids|]. by rewrite reverse_Permutation.
    + intros i. split.
      * intros Hi. destruct (located_ids _ _ _ _ Hids Hi) as (p & Hp%(proj1 (elem_of_reverse _ _)) & Hip). apply Hreach in Hp. destruct (proj1 (reach_ids _ _ _ _ _ H Hs) Hp) as (k & Hk & Hr). by rewrite (live_inj addr H _ _ _ Hip Hk).
      * intros Hr. assert (Hl : is_Some (a_nodes a !! i)) by (apply rtc_inv_r in Hr as [<-|(k & _ & j & e & He & _ & <-)]; [by eexists|by apply (edge_ends addr H j e He)]).
        destruct Hl as [w Hw]. destruct (rep_node addr H _ _ Hw) as (p & Hp & _). apply (Hmem i p Hp), Hreach, (reach_ids _ _ _ _ _ H Hs). by exists i.
    + intros i k Hi Hik. pose proof Hik as (j & e & He & <- & <-). destruct (rep_edge addr H _ _ He) as (qe & _ & p & q & _ & Hp & Hq). apply (Hmem _ p Hp) in Hi. apply list_elem_of_split in Hi as (l1 & l2 & Hl).
      assert (Harc : arc (outs g) p q) by (apply (arc_ids _ _ _ _ _ H Hp); by exists (e_dst e)). destruct (Hord l1 p l2 Hl q Harc) as [Hq1|Hqp].
      * left. eapply before_located; [exact Hids| |exact Hp|exact Hq|apply (live_inj addr H)]. rewrite Hl, reverse_app, reverse_cons, <- app_assoc. exists (reverse l2), (reverse l1). split; [done|]. by apply elem_of_reverse.
      * right. destruct (proj1 (reach_ids _ _ _ _ _ H Hq) Hqp) as (k' & Hk' & Hr). by rewrite (live_inj addr H _ _ _ Hp Hk').
Qed.
(** C24: on any graph built by legal calls, [GetReversePostOrder] lists exactly
    the nodes that the source reaches, each once; an edge goes forward in the
    list, unless it is on a cycle. The search ends. *)
Theorem graph_post_order d os : LookUpOpDef (bytes_of "NoOp") = (OK, Some d) -> legal_all os (spec_new d) = true ->
  wp (new_Graph addr ;;; run_all addr os ;;; GetReversePostOrder) empty_Graph (fun order g =>
    let a := (spec_all os (spec_new d)).1 in rep g a /\ exists ids, located g order ids /\ forward a ids).
Proof. intros Hd Hl. apply (wp_built d); [done..|]. intros g Hg Hb. eapply wp_GetReversePostOrder; [done..|]. intros order ids Ho Hf. split; [done|]. by exists ids. Qed.

(** ** Pruning *)

Fixpoint find_all (ids : list Z) : ST Graph (list Z) :=
  match ids with [] => st_ret [] | i :: ids' => let! p := FindNodeId i in let! ps := find_all ids' in st_ret (p :: ps) end.
Lemma wp_find_all g a ids (Q : list Z -> Graph -> Prop) : rep g a -> forallb (live a) ids = true -> (forall ps, located g ps ids -> Q ps g) -> wp (find_all ids) g Q.
Proof.
  intros H. revert Q. induction ids as [|i ids IH]; intros Q Hl HQ; cbn in *; [apply wp_ret, HQ; constructor|]. apply andb_prop in Hl as [Hi Hl].
  destruct (live_at addr _ _ _ H Hi) as (p & v & Hp & _). wp_step. eapply wp_FindNodeId; [exact Hp|]. wp_step. apply IH; [done|]. intros ps Hps. wp_step. apply HQ. by constructor.
Qed.
(** C25: [PruneForReverseReachability] removes exactly the nodes from which no
    root is reached, save the source and the sink, with their edges, and says
    whether there were any; the other nodes and edges stay, with their ids. *)
Theorem graph_prune d os roots : LookUpOpDef (bytes_of "NoOp") = (OK, Some d) -> legal_all os (spec_new d) = true -> forallb (live (spec_all os (spec_new d)).1) roots = true ->
  wp (new_Graph addr ;;; run_all addr os ;;; let! ps := find_all roots in PruneForReverseReachability ps) empty_Graph (fun any_removed g =>
    let a := (spec_all os (spec_new d)).1 in exists a', rep g a' /\
      (forall i v, a_nodes a' !! i = Some v <-> a_nodes a !! i = Some v /\ ~ unneeded a roots i) /\
      (forall j e, a_edges a' !! j = Some e <-> a_edges a !! j = Some e /\ ~ unneeded a roots (e_src e) /\ ~ unneeded a roots (e_dst e)) /\
      a_next_node a' = a_next_node a /\ a_next_edge a' = a_next_edge a /\ (any_removed = true <-> exists i, unneeded a roots i)).
Proof.
  intros Hd Hl Hr. apply (wp_built d); [done..|]. intros g Hg Hb. wp_step. eapply wp_find_all; [done..|]. intros ps Hps. eapply (wp_Prune addr g _ ps roots); [done..|]. intros gone g' Hgone Hg'.
  exists (remove_all gone (spec_all os (spec_new d)).1). split; [done|]. destruct (remove_all_spec gone (spec_all os (spec_new d)).1) as (H1 & H2 & _ & H4 & H5). split; [|split; [|split; [done|split; [done|]]]].
  - intros i v. rewrite H4, <- Hgone. case_decide; naive_solver.
  - intros j e. by rewrite H5, !Hgone.
  - rewrite negb_true_iff, bool_decide_eq_false. split.
    + intros Hne. destruct gone as [|i gone]; [done|]. exists i. apply Hgone. by left.
    + intros [i Hi] ->. apply Hgone in Hi. by apply elem_of_nil in Hi.
Qed.

(** ** The source and the sink *)

(** C23: [FixupSourceAndSinkEdges] only adds control edges, from the source to
    nodes without incoming edges and from nodes without outgoing edges to the
    sink; it says whether it added any; then every node but the source is
    entered and every node but the sink is left. If the graph is then acyclic,
    [GetReversePostOrder] is a topological order of all its nodes. *)
Theorem graph_fixup d os : let a := (spec_all os (spec_new d)).1 in LookUpOpDef (bytes_of "NoOp") = (OK, Some d) -> legal_all os (spec_new d) = true ->
  a_next_edge a + 2 * a_next_node a < 2 ^ 31 - 1 ->
  wp (new_Graph addr ;;; run_all addr os ;;; let! changed := FixupSourceAndSinkEdges addr in let! order := GetReversePostOrder in st_ret (changed, order)) empty_Graph (fun '(changed, order) g =>
    exists a', rep g a' /\ extends a a' /\ (changed = true <-> a_edges a' <> a_edges a) /\
      (forall i, is_Some (a_nodes a !! i) -> (i <> 0 -> has_edge e_dst i a') /\ (i <> 1 -> has_edge e_src i a')) /\
      ((forall i, ~ tc (step a') i i) -> exists ids, located g order ids /\ NoDup ids /\ (forall i, i ∈ ids <-> is_Some (a_nodes a !! i)) /\ forall i k, step a' i k -> before ids i k)).
Proof.
  intros a Hd Hl Hroom. apply (wp_built d); [done..|]. intros g Hg Hb. fold a in Hg, Hb. wp_step. eapply (wp_FixupSourceAndSinkEdges addr); [exact Hg|done|done|]. intros changed g' a' Hg' [H1 H4 Hch].
  pose proof H1 as (Hnodes & Hnext & Hnames & _). wp_step. eapply wp_GetReversePostOrder; [exact Hg'| |].
  { destruct Hb as ([? ?] & ? & ?). unfold bounded, has_ends. rewrite Hnodes, Hnext, Hnames. done. }
  intros order ids Hloc (Hnd & Hreach & Hfw). wp_step. exists a'. split; [done|]. split; [done|]. split; [done|]. split; [done|].
  - intros Hac. exists ids. split; [done|]. split; [done|]. assert (Hall : forall i, i ∈ ids <-> is_Some (a_nodes a !! i)).
    { intros i. rewrite Hreach. split.
      - intros Hr. apply rtc_inv_r in Hr as [<-|(k & _ & j & e & He & _ & <-)]; [apply Hb|]. rewrite <- Hnodes. by apply (edge_ends addr Hg' j e He).
      - intros Hi. eapply (acyclic_reach addr _ g' a'); [exact Hg'|done| |by rewrite Hnodes]. intros k Hk Hk0. rewrite Hnodes in Hk. by apply (H4 k). }
    split; [done|]. intros i k Hik. pose proof Hik as (j & e & He & Hi & Hk). destruct (Hfw i k) as [?|Hr]; [|done|done|].
    + apply Hall. rewrite <- Hnodes. subst i. by apply (edge_ends addr Hg' j e He).
    + exfalso. apply (Hac i). eapply tc_rtc_r; [by apply tc_once|exact Hr].
Qed.

(** ** Reading *)

(** [input_node] of any live node: an index out of range is an invalid
    argument, an input that an edge enters gives the source of such an edge, and
    another input is not found. *)
Theorem graph_input d os i idx v : LookUpOpDef (bytes_of "NoOp") = (OK, Some d) -> legal_all os (spec_new d) = true -> a_nodes (spec_all os (spec_new d)).1 !! i = Some v ->
  wp (new_Graph addr ;;; run_all addr os ;;; input_of i idx) empty_Graph (fun '(st, src) g =>
    let a := (spec_all os (spec_new d)).1 in rep g a /\
    if (0 <=? idx) && (idx <? num_in v)
    then (exists j e, a_edges a !! j = Some e /\ e_dst e = i /\ e_in e = idx /\ st = OK /\ src = e_src e) \/
         ((forall j e, a_edges a !! j = Some e -> e_dst e = i -> e_in e <> idx) /\ code st = NOT_FOUND /\ src = -1)
    else code st = INVALID_ARGUMENT /\ src = -1).
Proof.
  intros Hd Hl Hv. apply (wp_built d); [done..|]. intros g Hg Hb. eapply (wp_input_of addr); [exact Hg|exact Hv|..].
  - intros Hi msg. split; [done|]. destruct (Z.leb_spec 0 idx), (Z.ltb_spec idx (num_in v)); done || lia.
  - intros Hi j e He Hd' Hin. split; [done|]. destruct (Z.leb_spec 0 idx), (Z.ltb_spec idx (num_in v)); try lia. left. by exists j, e.
  - intros Hi Hno msg. split; [done|]. destruct (Z.leb_spec 0 idx), (Z.ltb_spec idx (num_in v)); try lia. by right.
Qed.
(** [ToGraphDef] lists the nodes but the source and the sink in the order of
    their ids. A node's definition has the assigned device, if any, and its
    inputs: the data edges in the order of the inputs, or what its definition
    said where there is no edge, then the control edges; nothing for edges from
    the source or the sink. *)
Theorem graph_to_def d os : LookUpOpDef (bytes_of "NoOp") = (OK, Some d) -> legal_all os (spec_new d) = true -> well_typedb (spec_all os (spec_new d)).1 = true ->
  wp (new_Graph addr ;;; run_all addr os ;;; ToGraphDef) empty_Graph (fun ds g =>
    let a := (spec_all os (spec_new d)).1 in rep g a /\ Forall2 (fun def i => serialized a i def) ds (ops_of a)).
Proof.
  intros Hd Hl Hwt. apply (wp_built d); [done..|]. intros g Hg Hb. destruct (ToGraphDef_Done addr g _ Hg (proj1 (proj2 Hb)) (well_typedb_ok _ Hwt)) as (ds & Hds & Hs). apply (proj2 (wp_Done _ _ _)). by exists ds, g.
Qed.
End Theorems.

(** ** An example

    A registry that knows every op with a name: "NoOp" and "Const" have no
    inputs, other ops have two inputs and one output. *)
#[local] Instance demo_registry : OpRegistryInterface Z Z := {
  LookUpOpDef op :=
    if bool_decide (op = []) then (NotFound [], None)
    else (OK, Some (if bool_decide (op = bytes_of "NoOp") then 0 else if bool_decide (op = bytes_of "Const") then 1 else 2));
  InOutTypesForNode _ op := (OK, if op =? 0 then ([], []) else if op =? 1 then ([], [1]) else ([1; 1], [1]));
  AttachDef s _ := s
}.
#[local] Instance demo_registry_laws : OpRegistryLaws Z Z demo_registry.
Proof.
  split; [done| | |done].
  - intros op. cbn. case_bool_decide; [done|]. intros _. by eexists.
  - by exists 0.
Qed.
Definition demo_addr (k : nat) : Z := Z.of_nat k + 1.
#[local] Instance demo_addresses : addresses demo_addr.
Proof. split; unfold demo_addr; intros; lia. Qed.
Definition demo_def (nm op : String.string) (input : list (list Z)) : NodeDef Z := mkNodeDef (bytes_of nm) (bytes_of op) input [] ∅.
(** A constant feeds a merge and its copy; a removed node gives its memory to
    another, and an op without a name is refused. *)
Definition demo : list (GOp (AttrValue := Z)) := [
  OpAddNode (demo_def "c" "Const" []) OK;
  OpAddNode (demo_def "m" "Merge" [bytes_of "x"; bytes_of "y"]) OK;
  OpAddEdge 2 0 3 0;
  OpCopyNode 3;
  OpAddEdge 2 0 4 1;
  OpAddControlEdge 3 4;
  OpAddAttr 4 (bytes_of "k") 7;
  OpSetDevice 4 (bytes_of "/gpu:0");
  OpAddNode (demo_def "t" "Const" []) OK;
  OpAddControlEdge 0 5;
  OpAddControlEdge 5 3;
  OpRemoveNode 5;
  OpAddNode (demo_def "u" "Const" []) OK;
  OpRemoveEdge 3;
  OpAddControlEdge 3 4;
  OpAddNode (demo_def "v" "" []) OK;
  OpClearAttr 4 (bytes_of "k");
  OpNewName (bytes_of "n")].

Lemma graph_refines_witness : legal_all demo (spec_new 0) = true /\
  wp (new_Graph demo_addr ;;; run_all demo_addr demo) empty_Graph (fun rs g => GraphSpec.rep demo_addr g (spec_all demo (spec_new 0)).1 /\ rs = (spec_all demo (spec_new 0)).2).
Proof. split; [vm_compute; reflexivity|]. apply (graph_refines demo_addr 0 demo); [reflexivity|vm_compute; reflexivity]. Defined.
Lemma graph_post_order_witness : wp (new_Graph demo_addr ;;; run_all demo_addr demo ;;; GetReversePostOrder) empty_Graph (fun order g =>
  let a := (spec_all demo (spec_new 0)).1 in GraphSpec.rep demo_addr g a /\ exists ids, located g order ids /\ forward a ids).
Proof. apply (graph_post_order demo_addr 0 demo); [reflexivity|vm_compute; reflexivity]. Defined.
Lemma graph_prune_witness : wp (new_Graph demo_addr ;;; run_all demo_addr demo ;;; let! ps := find_all [3] in PruneForReverseReachability ps) empty_Graph (fun any_removed g =>
  let a := (spec_all demo (spec_new 0)).1 in exists a', GraphSpec.rep demo_addr g a' /\
    (forall i v, a_nodes a' !! i = Some v <-> a_nodes a !! i = Some v /\ ~ unneeded a [3] i) /\
    (forall j e, a_edges a' !! j = Some e <-> a_edges a !! j = Some e /\ ~ unneeded a [3] (e_src e) /\ ~ unneeded a [3] (e_dst e)) /\
    a_next_node a' = a_next_node a /\ a_next_edge a' = a_next_edge a /\ (any_removed = true <-> exists i, unneeded a [3] i)).
Proof. apply (graph_prune demo_addr 0 demo [3]); [reflexivity|vm_compute; reflexivity|vm_compute; reflexivity]. Defined.
Lemma graph_fixup_witness : let a := (spec_all demo (spec_new 0)).1 in
  wp (new_Graph demo_addr ;;; run_all demo_addr demo ;;; let! changed := FixupSourceAndSinkEdges demo_addr in let! order := GetReversePostOrder in st_ret (changed, order)) empty_Graph (fun '(changed, order) g =>
    exists a', GraphSpec.rep demo_addr g a' /\ extends a a' /\ (changed = true <-> a_edges a' <> a_edges a) /\
      (forall i, is_Some (a_nodes a !! i) -> (i <> 0 -> has_edge e_dst i a') /\ (i <> 1 -> has_edge e_src i a')) /\
      ((forall i, ~ tc (step a') i i) -> exists ids, located g order ids /\ NoDup ids /\ (forall i, i ∈ ids <-> is_Some (a_nodes a !! i)) /\ forall i k, step a' i k -> before ids i k)).
Proof. apply (graph_fixup demo_addr 0 demo); [reflexivity|vm_compute; reflexivity|vm_compute; reflexivity]. Defined.
Lemma graph_input_witness : exists v : ANode Z Z, wp (new_Graph demo_addr ;;; run_all demo_addr demo ;;; input_of 4 1) empty_Graph (fun '(st, src) g =>
  let a := (spec_all demo (spec_new 0)).1 in GraphSpec.rep demo_addr g a /\
  if (0 <=? 1) && (1 <? num_in v)
  then (exists j e, a_edges a !! j = Some e /\ e_dst e = 4 /\ e_in e = 1 /\ st = OK /\ src = e_src e) \/
       ((forall j e, a_edges a !! j = Some e -> e_dst e = 4 -> e_in e <> 1) /\ code st = NOT_FOUND /\ src = -1)
  else code st = INVALID_ARGUMENT /\ src = -1).
Proof. eexists. apply (graph_input demo_addr 0 demo 4 1); [reflexivity|vm_compute; reflexivity|vm_compute; reflexivity]. Defined.
Lemma graph_to_def_witness : wp (new_Graph demo_addr ;;; run_all demo_addr demo ;;; ToGraphDef) empty_Graph (fun ds g =>
  let a := (spec_all demo (spec_new 0)).1 in GraphSpec.rep demo_addr g a /\ Forall2 (fun def i => serialized a i def) ds (ops_of a)).
Proof. apply (graph_to_def demo_addr 0 demo); [reflexivity|vm_compute; reflexivity|vm_compute; reflexivity]. Defined.
(** Runs of the programs themselves. *)
Example demo_run : match (new_Graph demo_addr ;;; run_all demo_addr demo ;;; FixupSourceAndSinkEdges demo_addr ;;; let! order := GetReversePostOrder in let! ds := ToGraphDef in st_ret (order, map def_input ds)) empty_Graph with
  Done ((order, inputs), g) => (length order, inputs, num_nodes g, num_edges g) = (6%nat, [[]; [bytes_of "c"; bytes_of "y"]; [bytes_of "x"; bytes_of "c"; bytes_of "^m"]; []], 6, 8) | _ => False end.
Proof. vm_compute. reflexivity. Qed.
End GraphTheorems.
