(* ===== verification/Executor.v ===== *)
(** * The executor

    [ExecutorImpl] and [ExecutorState] of [core/common_runtime/executor.cc], for
    the graphs without loops, which run in the one iteration of the root frame:
    the initial pending counts, the delivery of the outputs of a node to its
    successors ([ActivateNodes], with the dead values of untaken branches), and
    the scheduling of nodes over threads that interleave. Kernels are
    arbitrary. *)
From S2P Require Import Prelude Status Numbers PendingCounts Graph.
Import Status Numbers PendingCounts NodeClass.

Module Executor.

(** ** Graphs *)

Definition kControlSlot : Z := -1.
Record Edge := mkEdge { dst : Z; src_output : Z; dst_input : Z }.
Definition IsControlEdge (e : Edge) : bool := src_output e =? kControlSlot.
Record Node := mkNode { class_ : NodeClass; num_inputs : Z; num_outputs : Z; out_edges : list Edge }.
Definition IsMerge (n : Node) : bool := bool_decide (class_ n = NC_MERGE).
Definition IsEnter (n : Node) : bool := bool_decide (class_ n = NC_ENTER).
Definition IsExit (n : Node) : bool := bool_decide (class_ n = NC_EXIT).
Definition IsNextIteration (n : Node) : bool := bool_decide (class_ n = NC_NEXT_ITERATION).
Definition IsSwitch (n : Node) : bool := bool_decide (class_ n = NC_SWITCH).
Definition IsControlTrigger (n : Node) : bool := bool_decide (class_ n = NC_CONTROL_TRIGGER).
Definition IsSend (n : Node) : bool := bool_decide (class_ n = NC_SEND) || bool_decide (class_ n = NC_HOST_SEND).
Definition IsRecv (n : Node) : bool := bool_decide (class_ n = NC_RECV) || bool_decide (class_ n = NC_HOST_RECV).
Definition IsTransferNode (n : Node) : bool := IsSend n || IsRecv n.

(** The nodes by their id; [kSinkId] is 1. *)
Definition Graph : Type := list Node.
Definition IsSink (id : Z) : bool := id =? 1.
Definition edges_of (p : nat * Node) : list (Z * Edge) := map (pair (Z.of_nat p.1)) (out_edges p.2).
Definition all_edges (g : Graph) : list (Z * Edge) := concat (map edges_of (imap pair g)).
Definition in_edges (g : Graph) (id : Z) : list (Z * Edge) := List.filter (fun p => dst p.2 =? id) (all_edges g).

(** ** Initialization *)

(** [ExecutorImpl]: the graph and, for each node, where its inputs start and
    its position in the pending counts; all nodes are in the root frame. *)
Record ExecutorImpl := mkImpl {
  graph_ : Graph;
  input_start : list Z;
  frame_local_ids_ : list Z;
  total_inputs : Z;
  root_nodes_ : list Z;
  pending_counts : PendingCounts
}.

(** The loop of [Initialize] over the nodes, from the node [id]. *)
Fixpoint starts_loop (g : list Node) (total : Z) : list Z * Z :=
  match g with
  | [] => ([], total)
  | n :: g' => let '(starts, total') := starts_loop g' (s32 (total + num_inputs n)) in (total :: starts, total')
  end.
Definition node_ids (g : Graph) : list Z := map Z.of_nat (seq 0 (length g)).
Definition root_ids (g : Graph) : list Z := List.filter (fun id => zlength (in_edges g id) =? 0) (node_ids g).

Section Pending.
Context (garbage : PackedCounts).
Definition num_control_edges (g : Graph) (id : Z) : Z := zlength (List.filter (fun p => IsControlEdge p.2) (in_edges g id)).
Definition initial_count (g : Graph) (id : Z) (n : Node) : Z :=
  if IsMerge n then s32 (1 + s32 (Z.shiftl (num_control_edges g id) 1)) else zlength (in_edges g id).
Fixpoint clear_loop (ids : list Z) : ST PendingCounts unit :=
  match ids with [] => st_ret tt | id :: ids' => set_initial_count garbage id 0 0 ;;; clear_loop ids' end.
Fixpoint initial_loop (g : Graph) (nodes : list (nat * Node)) : ST PendingCounts unit :=
  match nodes with
  | [] => st_ret tt
  | (id, n) :: nodes' =>
      set_initial_count garbage (Z.of_nat id) (initial_count g (Z.of_nat id) n) (zlength (in_edges g (Z.of_nat id))) ;;;
      initial_loop g nodes'
  end.
Definition InitializePending (g : Graph) : outcome PendingCounts :=
  match (clear_loop (node_ids g) ;;; initial_loop g (imap pair g)) (new_PendingCounts garbage (zlength g)) with
  | Done (_, c) => Done c
  | Aborts => Aborts
  | Diverges => Diverges
  end.
Definition Initialize (g : Graph) : outcome ExecutorImpl :=
  let '(starts, total) := starts_loop g 0 in
  match InitializePending g with
  | Done c => Done (mkImpl g starts (node_ids g) total (root_ids g) c)
  | Aborts => Aborts
  | Diverges => Diverges
  end.
End Pending.

(** ** The state of a step *)

Section Executor.
Context {Val : Type}.

(** [val] is there when [val_field_is_set]; it may have been cleared. *)
Record Entry := mkEntry { has_value : bool; val : option Val }.
Definition no_entry : Entry := mkEntry false None.
Definition ClearVal (e : Entry) : Entry := mkEntry (has_value e) None.

Record IterationState := mkIter {
  input_tensors : list Entry;
  outstanding_ops : Z;
  outstanding_frame_count : Z;
  counts : PendingCounts
}.
Definition new_IterationState (garbage : PackedCounts) (pending_counts : PendingCounts) (total_input_tensors : Z) : outcome IterationState :=
  match InitializeFrom pending_counts (new_PendingCounts garbage (num_nodes_ pending_counts)) with
  | Done (_, c) => Done (mkIter (replicate (Z.to_nat total_input_tensors) no_entry) 0 0 c)
  | Aborts => Aborts
  | Diverges => Diverges
  end.

(** A node to run, in the iteration 0 of the root frame. *)
Record TaggedNode := mkTagged { node : Z; is_dead : bool }.

(** [ActivateNodes] works on the iteration and on [*ready]. *)
Record Act := mkAct { iter_state : IterationState; ready : list TaggedNode }.
Definition set_counts (c : PendingCounts) (a : Act) : Act :=
  let it := iter_state a in mkAct (mkIter (input_tensors it) (outstanding_ops it) (outstanding_frame_count it) c) (ready a).
Definition on_counts {A} (m : ST PendingCounts A) : ST Act A :=
  fun a => match m (counts (iter_state a)) with Done (x, c) => Done (x, set_counts c a) | Aborts => Aborts | Diverges => Diverges end.
Definition set_input (loc : Z) (e : Entry) (a : Act) : Act :=
  let it := iter_state a in mkAct (mkIter (zinsert (input_tensors it) loc e) (outstanding_ops it) (outstanding_frame_count it) (counts it)) (ready a).
Definition push_ready (t : TaggedNode) (a : Act) : Act :=
  let it := iter_state a in mkAct (mkIter (input_tensors it) (outstanding_ops it + 1) (outstanding_frame_count it) (counts it)) (ready a ++ [t]).

Context (impl : ExecutorImpl) (SummarizeNodeDef : Node -> list Z) (kEmptyTensor : Val).

(** [dst_dead], [dst_ready] and [dst_need_input] for a merge node and for
    another. *)
Definition activate_merge (n : Node) (e : Edge) (dst_node : Node) (dst_pending_id : Z) (outputs : list Entry) : ST Act (bool * bool * bool) :=
  if IsControlEdge e then
    on_counts (decrement_pending dst_pending_id 2) ;;;
    let! count := on_counts (pending dst_pending_id) in
    let! dead_cnt := on_counts (dead_count dst_pending_id) in
    let dst_dead := dead_cnt =? num_inputs dst_node in
    st_ret (dst_dead, (count =? 0) || ((count =? 1) && dst_dead), false)
  else
    let! output := st_opt (outputs !!z src_output e) in
    if has_value output then
      let! count := on_counts (pending dst_pending_id) in
      on_counts (mark_live dst_pending_id) ;;;
      st_ret (false, count =? 1, Z.land count 1 =? 1)
    else
      on_counts (increment_dead_count dst_pending_id) ;;;
      let! dead_cnt := on_counts (dead_count dst_pending_id) in
      let dst_dead := (dead_cnt =? num_inputs dst_node) || IsEnter n in
      let! count := on_counts (pending dst_pending_id) in
      st_ret (dst_dead, (count =? 1) && dst_dead, false).
Definition activate_plain (dead : bool) (e : Edge) (dst_pending_id : Z) (outputs : list Entry) : ST Act (bool * bool * bool) :=
  let! missing :=
    (if dead then st_ret true
     else if IsControlEdge e then st_ret false
     else let! output := st_opt (outputs !!z src_output e) in st_ret (negb (has_value output))) in
  (if missing then on_counts (increment_dead_count dst_pending_id) else st_ret tt) ;;;
  let! dead_cnt := on_counts (dead_count dst_pending_id) in
  let! count := on_counts (decrement_pending dst_pending_id 1) in
  st_ret (0 <? dead_cnt, count =? 0, negb (IsControlEdge e)).

Definition activate_edge (n : Node) (dead : bool) (outputs : list Entry) (e : Edge) : ST Act unit :=
  let! dst_node := st_opt (graph_ impl !!z dst e) in
  let! dst_pending_id := st_opt (frame_local_ids_ impl !!z dst e) in
  if IsSink (dst e) then st_ret tt
  else
    let! '(dst_dead, dst_ready, dst_need_input) :=
      (if IsMerge dst_node then activate_merge n e dst_node dst_pending_id outputs
       else activate_plain dead e dst_pending_id outputs) in
    (if dst_need_input then
       let! start := st_opt (input_start impl !!z dst e) in
       let! output := st_opt (outputs !!z src_output e) in
       let! a := st_get in
       st_check ((0 <=? start + dst_input e) && (start + dst_input e <? zlength (input_tensors (iter_state a)))) ;;;
       st_modify (set_input (start + dst_input e) output)
     else st_ret tt) ;;;
    if dst_ready then st_modify (push_ready (mkTagged (dst e) (dst_dead && negb (IsControlTrigger dst_node)))) else st_ret tt.
Fixpoint activate_edges (n : Node) (dead : bool) (outputs : list Entry) (es : list Edge) : ST Act unit :=
  match es with
  | [] => st_ret tt
  | e :: es' => activate_edge n dead outputs e ;;; activate_edges n dead outputs es'
  end.
Definition ActivateNodes (n : Node) (dead : bool) (outputs : list Entry) : ST Act unit := activate_edges n dead outputs (out_edges n).

(** ** Steps of the execution *)

(** A thread between [PropagateOutputs] and [NodeDone] holds the status of its
    node and the nodes that it made ready. [root_frame] is gone once the frame
    is done. [history] holds the nodes processed without error, with what the
    kernel got (nothing when there was no call) and their outputs; [failed] the
    others. [aborts] and [dones] are the calls of
    [StartAbort] and of the done callback. *)
Record NodeRun := mkRun { run_node : TaggedNode; run_inputs : list (option Val); run_outputs : list Entry }.
Record ExecutorState := mkState {
  root_frame : option IterationState;
  scheduled : list TaggedNode;
  finishing : list (Status * list TaggedNode);
  num_outstanding_ops_ : Z;
  status_ : Status;
  aborts : list Status;
  dones : list Status;
  history : list NodeRun;
  failed : list TaggedNode
}.

(** The constructor and [RunAsync]; the device may refuse to fill the map of
    its contexts. *)
Definition RunAsync (garbage : PackedCounts) (fill_status : Status) : outcome ExecutorState :=
  match new_IterationState garbage (pending_counts impl) (total_inputs impl) with
  | Done it =>
      let roots := map (fun id => mkTagged id false) (root_nodes_ impl) in
      if negb (ok fill_status) then Done (mkState (Some it) [] [] 0 OK [] [fill_status] [] [])
      else if bool_decide (roots = []) then Done (mkState (Some it) [] [] 0 OK [] [OK] [] [])
      else
        let it := mkIter (input_tensors it) (zlength roots) (outstanding_frame_count it) (counts it) in
        Done (mkState (Some it) roots [] (zlength roots) OK [] [] [] [])
  | Aborts => Aborts
  | Diverges => Diverges
  end.

(** [ProcessOutputs]: what the kernel released for each output, if anything;
    only a switch or a receive may leave one out, and the first that another
    leaves out is the error. The types of the outputs are taken to be right. *)
Definition ProcessOutputs (n : Node) (kernel_status : Status) (released : list (option Val)) : Status * list Entry :=
  if negb (ok kernel_status) then (kernel_status, replicate (Z.to_nat (num_outputs n)) no_entry)
  else
    (match list_find (fun v : option Val => v = None) released with
     | Some (i, _) =>
         if IsSwitch n || IsRecv n then OK
         else Internal (bytes_of "Missing " ++ FastInt64ToBufferLeft (Z.of_nat i) ++ bytes_of "-th output from " ++ SummarizeNodeDef n)
     | None => OK
     end,
     map (fun v => match v with Some x => mkEntry true (Some x) | None => no_entry end) released).

(** [PropagateOutputs] of a node that is not [Enter], [Exit] or
    [NextIteration]: the successors are activated, and the frame is deleted
    when its only iteration has nothing outstanding. *)
Definition PropagateOutputs (n : Node) (t : TaggedNode) (outputs : list Entry) (it : IterationState) :
    outcome (option IterationState * list TaggedNode) :=
  match ActivateNodes n (is_dead t) outputs (mkAct it []) with
  | Done (_, a) =>
      let it := iter_state a in
      let ops := outstanding_ops it - 1 in
      let it := mkIter (input_tensors it) ops (outstanding_frame_count it) (counts it) in
      let done := (ops =? 0) && (outstanding_frame_count it =? 0) in
      Done (if done then None else Some it, ready a)
  | Aborts => Aborts
  | Diverges => Diverges
  end.

Fixpoint clear_inputs (k : nat) (loc : Z) (l : list Entry) : list Entry :=
  match k with O => l | S k' => clear_inputs k' (loc + 1) (match l !!z loc with Some e => zinsert l loc (ClearVal e) | None => l end) end.
Definition clear_node_inputs (n : Node) (start : Z) (it : IterationState) : IterationState :=
  mkIter (clear_inputs (Z.to_nat (num_inputs n)) start (input_tensors it)) (outstanding_ops it) (outstanding_frame_count it) (counts it).

(** [PrepareInputs]: the tensor of each input, or none, and whether an input is
    dead; only a merge or a transfer may have an input without value. A value
    that was destroyed cannot be read. References and the errors about them are
    left out. *)
Definition prepare_input (n : Node) (loc : Z) (e : Entry) : ST (list Entry) (option Val * bool) :=
  if negb (has_value e) then
    if IsMerge n then st_ret (None, false)
    else
      st_check (IsTransferNode n) ;;;
      st_check (bool_decide (val e = None)) ;;;
      st_modify (fun l => zinsert l loc (mkEntry true (Some kEmptyTensor))) ;;;
      st_ret (Some kEmptyTensor, true)
  else let! v := st_opt (val e) in st_ret (Some v, false).
Fixpoint prepare_loop (n : Node) (k : nat) (loc : Z) : ST (list Entry) (list (option Val) * bool) :=
  match k with
  | O => st_ret ([], false)
  | S k' =>
      let! l := st_get in
      let! entry := st_opt (l !!z loc) in
      let! '(inp, dead) := prepare_input n loc entry in
      let! '(inputs, is_input_dead) := prepare_loop n k' (loc + 1) in
      st_ret (inp :: inputs, dead || is_input_dead)
  end.
Definition PrepareInputs (n : Node) (start : Z) (it : IterationState) : outcome (list (option Val) * bool * IterationState) :=
  match prepare_loop n (Z.to_nat (num_inputs n)) start (input_tensors it) with
  | Done (r, l) => Done (r, mkIter l (outstanding_ops it) (outstanding_frame_count it) (counts it))
  | Aborts => Aborts
  | Diverges => Diverges
  end.

(** The part of [Process] that runs the kernel: the status, what the kernel got,
    and the outputs. A dead node that is not a transfer has no outputs; the
    kernel of any other may depend on its inputs. The variable of the status is
    that of the thread: a dead node leaves in it [s], the status of the node
    before. *)
Definition RunNode (n : Node) (t : TaggedNode) (start : Z) (s : Status) (kernel : list (option Val) -> bool -> Status * list (option Val))
    (it : IterationState) : outcome (Status * list (option Val) * list Entry * IterationState) :=
  if is_dead t && negb (IsTransferNode n) then Done (s, [], replicate (Z.to_nat (num_outputs n)) no_entry, it)
  else
    match PrepareInputs n start it with
    | Done (inputs, is_input_dead, it) =>
        let '(kernel_status, released) := kernel inputs is_input_dead in
        let '(s, outputs) := ProcessOutputs n kernel_status released in
        Done (s, inputs, outputs, it)
    | Aborts => Aborts
    | Diverges => Diverges
    end.
(** [Process] of one node, up to [NodeDone]. *)
Definition Process (t : TaggedNode) (s : Status) (kernel : list (option Val) -> bool -> Status * list (option Val)) (rest : list TaggedNode)
    (x : ExecutorState) : outcome ExecutorState :=
  match root_frame x, graph_ impl !!z node t, input_start impl !!z node t with
  | Some it, Some n, Some start =>
      match RunNode n t start s kernel it with
      | Done (s, inputs, outputs, it) =>
          let it := clear_node_inputs n start it in
          if ok s then
            match PropagateOutputs n t outputs it with
            | Done (frame, r) =>
                Done (mkState frame rest (finishing x ++ [(s, r)]) (num_outstanding_ops_ x) (status_ x) (aborts x) (dones x)
                  (history x ++ [mkRun t inputs outputs]) (failed x))
            | Aborts => Aborts
            | Diverges => Diverges
            end
          else
            Done (mkState (Some it) rest (finishing x ++ [(s, [])]) (num_outstanding_ops_ x) (status_ x) (aborts x) (dones x)
              (history x) (failed x ++ [t]))
      | Aborts => Aborts
      | Diverges => Diverges
      end
  | _, _, _ => Aborts
  end.

(** [Finish]: the device synchronizes when no node failed. *)
Definition Finish (status sync : Status) : Status := if ok status then sync else status.
(** [NodeDone], and [Finish] when the execution is completed. *)
Definition NodeDone (sync s : Status) (r : list TaggedNode) (rest : list (Status * list TaggedNode)) (x : ExecutorState) : ExecutorState :=
  let first_error := negb (ok s) && ok (status_ x) in
  let status := if first_error then s else status_ x in
  let aborts' := if first_error then aborts x ++ [s] else aborts x in
  let stop := bool_decide (r = []) || negb (ok s) in
  let completed := stop && (num_outstanding_ops_ x =? 1) in
  let ops := if stop then num_outstanding_ops_ x - 1 else num_outstanding_ops_ x + (zlength r - 1) in
  mkState (root_frame x) (if ok s then scheduled x ++ r else scheduled x) rest ops status aborts'
    (if completed then dones x ++ [Finish status sync] else dones x) (history x) (failed x).

(** Any scheduled node may run next, whatever the thread pool and the inline
    queue; its kernel gives as many outputs as the node has. The thread's status
    is an error only after a node failed. *)
Inductive step (x : ExecutorState) : ExecutorState -> Prop :=
| step_process t l1 l2 n s kernel x' :
    scheduled x = l1 ++ t :: l2 -> graph_ impl !!z node t = Some n -> (forall inputs dead, zlength (kernel inputs dead).2 = num_outputs n) ->
    ok s = true \/ failed x <> [] -> Process t s kernel (l1 ++ l2) x = Done x' -> step x x'
| step_done sync s r l1 l2 :
    finishing x = l1 ++ (s, r) :: l2 -> step x (NodeDone sync s r (l1 ++ l2) x).
End Executor.
Arguments Entry Val : clear implicits.
Arguments IterationState Val : clear implicits.
Arguments ExecutorState Val : clear implicits.
Arguments NodeRun Val : clear implicits.
Arguments Act Val : clear implicits.
End Executor.
