(* ===== verification/ExecutorFacts.v ===== *)
(** * The executor: what its nodes have received

    The deliveries so far determine, for each node, what its pending count
    holds, whether it has become ready and whether it is dead; [ActivateNodes]
    keeps this relation edge by edge. Over all interleavings of the threads,
    every node is scheduled at most once, no check fails, the done callback is
    called once; and a graph without cycles is run to the end.

    [PrepareInputs] finds in its slots what the edges delivered, the inputs of
    the other nodes stay as they are, and a node that is ready and not dead has
    a value on every input that it needs. *)
From S2P Require Import Prelude Status Numbers PendingCounts Graph Executor.
Import Status PendingCounts NodeClass Executor.

Module ExecutorFacts.

(** ** Counting *)

Lemma find_snoc {A} (P : A -> bool) l x : List.find P (l ++ [x]) = match List.find P l with Some y => Some y | None => if P x then Some x else None end.
Proof. induction l as [|y l IH]; [done|]. cbn. by destruct (P y). Qed.
Lemma filter_perm {A} (P : A -> bool) l k : l ≡ₚ k -> List.filter P l ≡ₚ List.filter P k.
Proof.
  induction 1 as [|x l k _ IH|x y l|l1 l2 l3 _ IH1 _ IH2]; cbn; [done| | |by rewrite IH1].
  - destruct (P x); by rewrite IH.
  - destruct (P x), (P y); solve_Permutation.
Qed.
Lemma zlength_cons {A} (x : A) l : zlength (x :: l) = zlength l + 1.
Proof. unfold zlength. cbn [length]. lia. Qed.
Definition cnt {A} (P : A -> bool) (l : list A) : Z := zlength (List.filter P l).
Lemma cnt_app {A} (P : A -> bool) l k : cnt P (l ++ k) = cnt P l + cnt P k.
Proof. unfold cnt. by rewrite List.filter_app, zlength_app. Qed.
Lemma cnt_snoc {A} (P : A -> bool) l x : cnt P (l ++ [x]) = cnt P l + (if P x then 1 else 0).
Proof. rewrite cnt_app. unfold cnt. cbn. by destruct (P x). Qed.
Lemma cnt_nonneg {A} (P : A -> bool) l : 0 <= cnt P l.
Proof. unfold cnt, zlength. lia. Qed.
Lemma cnt_map {A B} (f : A -> B) (P : B -> bool) l : cnt P (map f l) = cnt (fun x => P (f x)) l.
Proof. induction l as [|x l IH]; [done|]. unfold cnt in *. cbn [map List.filter]. destruct (P (f x)); [|done]. rewrite !zlength_cons. lia. Qed.
Lemma cnt_filter {A} (P Q : A -> bool) l : cnt P (List.filter Q l) = cnt (fun x => Q x && P x) l.
Proof. induction l as [|x l IH]; [done|]. unfold cnt in *. cbn. destruct (Q x); cbn; [|done]. destruct (P x); [|done]. by rewrite !zlength_cons, IH. Qed.
Lemma cnt_perm {A} (P : A -> bool) l k : l ≡ₚ k -> cnt P l = cnt P k.
Proof. induction 1 as [|x l k _ IH|x y l|l1 l2 l3 _ IH1 _ IH2]; [done| | |congruence]; unfold cnt in *; cbn; repeat case_match; rewrite ?zlength_cons; lia. Qed.
Lemma cnt_submseteq {A} (P : A -> bool) l k : l ⊆+ k -> cnt P l <= cnt P k.
Proof. intros [k' Hk]%submseteq_Permutation. rewrite (cnt_perm P _ _ Hk), cnt_app. pose proof (cnt_nonneg P k'). lia. Qed.
Lemma cnt_existsb {A} (P : A -> bool) l : existsb P l = (0 <? cnt P l).
Proof.
  induction l as [|x l IH]; [done|]. unfold cnt in *. cbn. destruct (P x); cbn; [|done]. rewrite zlength_cons. symmetry. apply Z.ltb_lt. unfold zlength. lia.
Qed.
Lemma cnt_partition {A} (P Q R : A -> bool) l : (forall x, P x = true -> (if Q x then 1 else 0) + (if R x then 1 else 0) = 1) -> (forall x, P x = false -> Q x = false /\ R x = false) ->
  cnt P l = cnt Q l + cnt R l.
Proof.
  intros H1 H2. induction l as [|x l IH]; [done|]. unfold cnt in *. cbn. specialize (H1 x). specialize (H2 x).
  destruct (P x), (Q x), (R x); rewrite ?zlength_cons; try lia; naive_solver.
Qed.
Lemma cnt_true {A} (l : list A) : cnt (fun _ => true) l = zlength l.
Proof. unfold cnt. induction l as [|x l IH]; [done|]. cbn. by rewrite !zlength_cons, IH. Qed.

(** ** What arrives at a node

    An input arrives by a control edge, or by a data edge with a value or
    without one; its source may be dead. *)

Record Arrival := mkArr { a_ctl : bool; a_value : bool; a_dead : bool }.
Definition live_arrival (a : Arrival) : bool := negb (a_ctl a) && a_value a.
Definition dead_arrival (a : Arrival) : bool := negb (a_ctl a) && negb (a_value a).
Definition data_arrival (a : Arrival) : bool := negb (a_ctl a).
Definition missing_arrival (a : Arrival) : bool := a_dead a || dead_arrival a.

(** The rule for a node with [ctls] control edges and [datas] data edges, after
    the arrivals [A]. *)
Section Rule.
Context (n : Node) (ctls datas : Z).
Definition has_live (A : list Arrival) : bool := existsb live_arrival A.
(** It is ready: a merge when all control edges and one live value, or only
    dead values, have arrived; any other node when everything has. *)
Definition fires (A : list Arrival) : bool :=
  if IsMerge n then (cnt a_ctl A =? ctls) && (has_live A || (cnt dead_arrival A =? datas))
  else zlength A =? ctls + datas.
(** It is dead: a merge when no live value arrived, any other node when an input
    is missing, except a control trigger. *)
Definition dead_flag (A : list Arrival) : bool :=
  (if IsMerge n then negb (has_live A) else existsb missing_arrival A) && negb (IsControlTrigger n).
Definition pend (A : list Arrival) : Z :=
  if IsMerge n then 2 * (ctls - cnt a_ctl A) + (if has_live A then 0 else 1) else ctls + datas - zlength A.
Definition bounded (A : list Arrival) : Prop := cnt a_ctl A <= ctls /\ cnt data_arrival A <= datas.
Definition node_inv (A : list Arrival) (nc : NodeCount) : Prop :=
  phase nc = Waiting (pend A) /\ max_deads nc = ctls + datas /\
  if IsMerge n then 0 <= deads nc <= cnt dead_arrival A /\ (has_live A = false -> deads nc = cnt dead_arrival A)
  else deads nc = cnt missing_arrival A.

Lemma arrivals_split A : zlength A = cnt a_ctl A + cnt data_arrival A.
Proof. rewrite <- cnt_true. apply cnt_partition; [|done]. intros [[] ? ?]; done. Qed.
Lemma data_arrival_split A : cnt data_arrival A = cnt live_arrival A + cnt dead_arrival A.
Proof. apply cnt_partition; intros [[] [] ?]; by try split. Qed.
Lemma has_live_snoc A a : has_live (A ++ [a]) = has_live A || live_arrival a.
Proof. unfold has_live. rewrite existsb_app. cbn. by rewrite orb_false_r. Qed.
Lemma has_live_cnt A : has_live A = (0 <? cnt live_arrival A).
Proof. apply cnt_existsb. Qed.
Lemma missing_le A : cnt missing_arrival A <= zlength A.
Proof. unfold cnt, zlength. pose proof (List.filter_length_le missing_arrival A). lia. Qed.

(** Once ready, a node stays ready and keeps its flag. *)
Lemma fires_stable A a : bounded (A ++ [a]) -> fires A = true -> fires (A ++ [a]) = true /\ dead_flag (A ++ [a]) = dead_flag A.
Proof.
  intros [Hc Hd] Hf. rewrite cnt_snoc in Hc, Hd. unfold fires, dead_flag in *. rewrite has_live_snoc, existsb_app, !cnt_snoc, zlength_app.
  pose proof (arrivals_split A). pose proof (data_arrival_split A). pose proof (cnt_nonneg live_arrival A). change (zlength [a]) with 1. destruct (IsMerge n).
  - apply andb_true_iff in Hf as [Hf1%Z.eqb_eq Hf2]. destruct a as [[] v dd]; cbn in *; [lia|]. rewrite Z.add_0_r, Hf1, Z.eqb_refl. cbn.
    destruct (has_live A) eqn:El; cbn in *; [done|]. apply Z.eqb_eq in Hf2. lia.
  - apply Z.eqb_eq in Hf. change (data_arrival a) with (negb (a_ctl a)) in Hd. destruct (a_ctl a); cbn [negb] in *; lia.
Qed.
End Rule.

(** ** One edge *)

Section Edge.
Context {Val : Type}.
Implicit Types (a : Act Val) (outputs : list (Entry Val)).

Definition output_value outputs (e : Edge) : bool := match outputs !!z src_output e with Some en => has_value en | None => false end.
Definition arrival (dead : bool) outputs (e : Edge) : Arrival := mkArr (IsControlEdge e) (output_value outputs e) dead.

Lemma wp_counts {A} (op : ST PendingCounts A) a x c' (Q : A -> Act Val -> Prop) :
  op (counts (iter_state a)) = Done (x, c') -> Q x (set_counts c' a) -> wp (on_counts op) a Q.
Proof. intros E HQ. unfold wp, on_counts. by rewrite E. Qed.
(** An operation on the counts of the destination, in sequence. *)
Lemma wp_change {A} (op : ST PendingCounts A) a m d x nc' (Q : A -> Act Val -> Prop) : changes op (counts (iter_state a)) m d x nc' ->
  (forall c', implements c' (<[d := nc']> m) -> Q x (set_counts c' a)) -> wp (on_counts op) a Q.
Proof. intros (c' & E & HI & _) HQ. eapply wp_counts; [exact E|]. by apply HQ. Qed.
Lemma pending_at c m d nc : implements c (<[d := nc]> m) -> pending d c = Done (waiting nc, c).
Proof. intros H. eapply pending_spec; [exact H|]. apply lookup_insert_eq. Qed.
Lemma dead_count_at c m d nc : implements c (<[d := nc]> m) -> dead_count d c = Done (deads nc, c).
Proof. intros H. eapply dead_count_spec; [exact H|]. apply lookup_insert_eq. Qed.
Lemma set_counts_twice c c' a : set_counts c' (set_counts c a) = set_counts c' a.
Proof. done. Qed.
Lemma set_counts_same c a : c = counts (iter_state a) -> set_counts c a = a.
Proof. intros ->. by destruct a as [[] ?]. Qed.

(** The input is stored when it is data, for a merge only the first live one. *)
Definition needed (dn : Node) (A : list Arrival) (ar : Arrival) : bool :=
  if IsMerge dn then live_arrival ar && negb (has_live A) else negb (a_ctl ar).
(** What the delivery of one edge does: the state of the destination follows,
    and the node is declared ready at the edge that makes it so. *)
Definition edge_post (dn : Node) (ctls datas : Z) (A : list Arrival) (ar : Arrival) a (m : gmap Z NodeCount) (d : Z)
    (res : bool * bool * bool) (a' : Act Val) : Prop :=
  let '(dst_dead, dst_ready, dst_need_input) := res in
  (exists c' nc', a' = set_counts c' a /\ implements c' (<[d := nc']> m) /\ node_inv dn ctls datas (A ++ [ar]) nc') /\
  dst_ready = fires dn ctls datas (A ++ [ar]) && negb (fires dn ctls datas A) /\
  (dst_ready = true -> dst_dead && negb (IsControlTrigger dn) = dead_flag dn (A ++ [ar])) /\
  dst_need_input = needed dn A ar.

Section Destination.
Context (n dn : Node) (ctls datas : Z) (A : list Arrival) (m : gmap Z NodeCount) (d : Z) (nc : NodeCount) (dead : bool) (outputs : list (Entry Val)) (e : Edge) (a : Act Val).
Hypothesis Himp : implements (counts (iter_state a)) m.
Hypothesis Hm : m !! d = Some nc.
Hypothesis Hinv : node_inv dn ctls datas A nc.
Hypothesis Hbound : bounded ctls datas (A ++ [arrival dead outputs e]).
Hypothesis Houtput : IsControlEdge e = false -> is_Some (outputs !!z src_output e).

Lemma activate_plain_spec : IsMerge dn = false ->
  wp (activate_plain dead e d outputs) a (edge_post dn ctls datas A (arrival dead outputs e) a m d).
Proof.
  intros Hmg. set (ar := arrival dead outputs e) in *. destruct Hinv as (Hph & Hmx & Hde). rewrite Hmg in Hde.
  destruct Hbound as [Hb1 Hb2]. pose proof (arrivals_split (A ++ [ar])) as Hlen. rewrite zlength_app in Hlen. change (zlength [ar]) with 1 in Hlen.
  assert (Hpend : pend dn ctls datas A = ctls + datas - zlength A) by (unfold pend; by rewrite Hmg). rewrite Hpend in Hph.
  assert (Hw : waiting nc = ctls + datas - zlength A) by (unfold waiting; by rewrite Hph).
  unfold activate_plain. wp_step.
  assert (Hmiss : wp (if dead then st_ret true else if IsControlEdge e then st_ret false
      else let! output := st_opt (outputs !!z src_output e) in st_ret (negb (has_value output))) a (fun x a' => x = missing_arrival ar /\ a' = a)).
  { unfold ar, missing_arrival, dead_arrival, arrival, output_value. cbn. destruct dead; [done|]. destruct (IsControlEdge e); [done|].
    destruct (Houtput eq_refl) as [o Ho]. rewrite Ho. done. }
  eapply wp_mono; [exact Hmiss|]. intros x a' [-> ->]. wp_step.
  apply wp_mono with (Q := fun _ a' => exists c' nc', a' = set_counts c' a /\ implements c' (<[d := nc']> m) /\ phase nc' = phase nc /\ max_deads nc' = max_deads nc /\
    deads nc' = cnt missing_arrival (A ++ [ar])).
  { rewrite cnt_snoc. destruct (missing_arrival ar).
    - pose proof (missing_le A). eapply wp_change; [apply (increment_dead_count_spec _ _ _ _ Himp Hm); lia|]. intros c' Hc'.
      rewrite (proj2 (Z.ltb_lt 0 (waiting nc))) in Hc' by lia. exists c', (one_more_dead nc). split_and!; try done. cbn. lia.
    - exists (counts (iter_state a)), nc. rewrite set_counts_same by done. split_and!; try done; [by apply implements_same|lia]. }
  intros _ a' (c1 & nc1 & -> & Hc1 & Hp1 & Hm1 & Hd1). rewrite Hph in Hp1. wp_step.
  eapply wp_counts; [exact (dead_count_at _ _ _ _ Hc1)|]. rewrite set_counts_twice. wp_step.
  eapply wp_change; [apply (decrement_pending_spec _ _ _ nc1 _ 1 Hc1 (lookup_insert_eq _ _ _) Hp1); lia|]. intros c2 Hc2. rewrite set_counts_twice, insert_insert_eq in *. wp_step.
  split_and!.
  - exists c2, (with_phase (Waiting (ctls + datas - zlength A - 1)) nc1). split_and!; [done..|]. unfold node_inv, pend. rewrite Hmg, zlength_app. change (zlength [ar]) with 1. cbn.
    split; [f_equal; lia|]. split; [by rewrite Hm1|done].
  - unfold fires. rewrite Hmg, zlength_app. change (zlength [ar]) with 1. destruct (Z.eqb_spec (ctls + datas - zlength A - 1) 0), (Z.eqb_spec (zlength A + 1) (ctls + datas)), (Z.eqb_spec (zlength A) (ctls + datas)); try done; lia.
  - intros _. unfold dead_flag. by rewrite Hmg, Hd1, cnt_existsb.
  - unfold needed. by rewrite Hmg.
Qed.

(** A merge counts its control edges by two and keeps the lowest bit for the
    first live value. *)
Section Merge.
Hypothesis Hmg : IsMerge dn = true.
Hypothesis Hdatas : num_inputs dn = datas.
Hypothesis Henter : IsEnter n = false.
Let ar := arrival dead outputs e.

Lemma merge_facts : phase nc = Waiting (2 * (ctls - cnt a_ctl A) + (if has_live A then 0 else 1)) /\ max_deads nc = ctls + datas /\
  0 <= deads nc <= cnt dead_arrival A /\ (has_live A = false -> deads nc = cnt dead_arrival A) /\
  waiting nc = 2 * (ctls - cnt a_ctl A) + (if has_live A then 0 else 1) /\
  cnt a_ctl A + (if a_ctl ar then 1 else 0) <= ctls /\ cnt live_arrival A + cnt dead_arrival A + (if a_ctl ar then 0 else 1) <= datas /\
  has_live A = (0 <? cnt live_arrival A) /\ 0 <= cnt live_arrival A /\ 0 <= cnt a_ctl A.
Proof.
  destruct Hinv as (Hph & Hmx & Hde). rewrite Hmg in Hde. unfold pend in Hph. rewrite Hmg in Hph. destruct Hbound as [Hb1 Hb2]. rewrite !cnt_snoc, data_arrival_split in *.
  change (data_arrival (arrival dead outputs e)) with (negb (a_ctl ar)) in Hb2. change (arrival dead outputs e) with ar in Hb1.
  pose proof (cnt_nonneg live_arrival A). pose proof (cnt_nonneg a_ctl A). pose proof (has_live_cnt A).
  split_and!; try done; try (unfold waiting; by rewrite Hph); try apply Hde. destruct (a_ctl ar); cbn in Hb2; lia.
Qed.
(** The three events, on the abstract count. *)
Ltac merge_start := let H := fresh in pose proof merge_facts as H;
  destruct H as (Hph & Hmx & Hde & Hnl & Hw & Hc & Hdt & Hlv & Hl0 & Hc0).

Lemma merge_fires : fires dn ctls datas (A ++ [ar]) && negb (fires dn ctls datas A) =
  if a_ctl ar then (cnt a_ctl A + 1 =? ctls) && (has_live A || (cnt dead_arrival A =? datas))
  else (cnt a_ctl A =? ctls) && negb (has_live A) && (a_value ar || (cnt dead_arrival A + 1 =? datas)).
Proof.
  merge_start. unfold fires. rewrite Hmg, has_live_snoc, !cnt_snoc.
  change (live_arrival ar) with (negb (a_ctl ar) && a_value ar). change (dead_arrival ar) with (negb (a_ctl ar) && negb (a_value ar)). destruct (a_ctl ar); cbn [negb andb].
  - destruct (Z.eqb_spec (cnt a_ctl A) ctls); [lia|]. cbn [negb andb]. by rewrite andb_true_r, orb_false_r, Z.add_0_r.
  - rewrite Z.add_0_r. destruct (Z.eqb_spec (cnt a_ctl A) ctls); cbn [negb andb]; [|done]. destruct (has_live A); cbn [negb orb andb]; [done|].
    destruct (Z.eqb_spec (cnt dead_arrival A) datas); [lia|]. cbn [negb]. by rewrite andb_true_r; destruct (a_value ar).
Qed.
Lemma merge_flag : dead_flag dn (A ++ [ar]) = negb (has_live A || live_arrival ar) && negb (IsControlTrigger dn).
Proof. unfold dead_flag. by rewrite Hmg, has_live_snoc. Qed.
Lemma merge_inv nc' : phase nc' = Waiting (2 * (ctls - (cnt a_ctl A + (if a_ctl ar then 1 else 0))) + (if has_live A || live_arrival ar then 0 else 1)) ->
  max_deads nc' = max_deads nc -> 0 <= deads nc' <= cnt dead_arrival A + (if dead_arrival ar then 1 else 0) ->
  (has_live A = false -> deads nc' = cnt dead_arrival A + (if dead_arrival ar then 1 else 0)) -> node_inv dn ctls datas (A ++ [ar]) nc'.
Proof.
  merge_start. intros Hp Hm' Hd' Hn'. unfold node_inv, pend. rewrite Hmg, has_live_snoc, !cnt_snoc. split; [done|]. split; [by rewrite Hm'|]. split; [done|].
  intros [? _]%orb_false_iff. by apply Hn'.
Qed.

Lemma land_1_parity k (b : bool) : (Z.land (2 * k + (if b : bool then 0 else 1)) 1 =? 1) = negb b.
Proof. change 1 with (Z.ones 1) at 2. rewrite Z.land_ones by lia. change (2 ^ 1) with 2. rewrite Z.add_comm, Z.mul_comm, Z.mod_add by lia. by destruct b. Qed.
Lemma live_ar : live_arrival ar = negb (a_ctl ar) && a_value ar.
Proof. done. Qed.
Lemma dead_ar : dead_arrival ar = negb (a_ctl ar) && negb (a_value ar).
Proof. done. Qed.
Lemma activate_merge_spec : wp (activate_merge n e dn d outputs) a (edge_post dn ctls datas A ar a m d).
Proof.
  merge_start. unfold activate_merge. destruct (IsControlEdge e) eqn:Ectl.
  - assert (Ea : a_ctl ar = true) by exact Ectl. rewrite Ea in *. wp_step.
    eapply wp_change; [apply (decrement_pending_spec _ _ _ nc _ 2 Himp Hm Hph); destruct (has_live A); lia|]. intros c1 Hc1. wp_step.
    eapply wp_counts; [exact (pending_at _ _ _ _ Hc1)|]. wp_step.
    eapply wp_counts; [exact (dead_count_at _ _ _ _ Hc1)|]. wp_step. rewrite !set_counts_twice, Hdatas. cbn [waiting phase with_phase deads].
    split; [|split; [|split; [|unfold needed; by rewrite Hmg, live_ar, Ea]]].
    + eexists c1, _. split; [done|]. split; [exact Hc1|]. apply merge_inv; cbn [phase with_phase max_deads deads]; rewrite ?Ea; try done.
      * rewrite live_ar. rewrite Ea. cbn [negb andb]. rewrite orb_false_r. f_equal. destruct (has_live A); lia.
      * rewrite dead_ar. rewrite Ea. cbn [negb andb]. lia.
      * rewrite dead_ar. rewrite Ea. cbn [negb andb]. intros H. rewrite (Hnl H). lia.
    + rewrite merge_fires, Ea. destruct (has_live A).
      * rewrite orb_true_l, andb_true_r. repeat match goal with |- context [?x =? ?y] => destruct (Z.eqb_spec x y) end; cbn [orb andb negb]; try done; lia.
      * rewrite (Hnl eq_refl). repeat match goal with |- context [?x =? ?y] => destruct (Z.eqb_spec x y) end; cbn [orb andb negb]; try done; lia.
    + rewrite merge_flag. rewrite live_ar. rewrite Ea. cbn [negb andb]. rewrite orb_false_r. intros Hr. f_equal. destruct (has_live A).
      * destruct (Z.eqb_spec (deads nc) datas); [|done]. lia.
      * rewrite (Hnl eq_refl) in *. destruct (Z.eqb_spec (cnt dead_arrival A) datas); [done|]. rewrite andb_false_r, orb_false_r in Hr. apply Z.eqb_eq in Hr. lia.
  - assert (Ea : a_ctl ar = false) by exact Ectl. rewrite Ea in *. destruct (Houtput eq_refl) as [o Ho]. wp_step. eapply wp_opt; [exact Ho|]. cbv beta.
    assert (Ev : a_value ar = has_value o) by (unfold ar, arrival, output_value; cbn [a_value]; by rewrite Ho). destruct (has_value o).
    + wp_step. eapply wp_counts; [exact (pending_spec _ _ _ _ Himp Hm)|]. rewrite set_counts_same by done. wp_step.
      eapply wp_change; [apply (mark_live_spec _ _ _ _ Himp Hm)|]. intros c1 Hc1. wp_step. rewrite Hw.
      split; [|split; [|split; [|unfold needed; by rewrite land_1_parity, Hmg, live_ar, Ea, Ev]]].
      * exists c1, (live nc). split; [done|]. split; [done|]. unfold live. rewrite Hph. apply merge_inv; cbn [phase with_phase max_deads deads]; rewrite ?Ea; try done.
        -- rewrite live_ar. rewrite Ea, Ev. cbn [negb andb]. rewrite orb_true_r. f_equal. destruct (has_live A); [|].
           ++ rewrite Z.add_0_r, Z.mul_comm, Z.mod_mul by lia. lia.
           ++ rewrite (Z.add_comm _ 1), (Z.mul_comm 2), Z.mod_add by lia. change (1 mod 2) with 1. lia.
        -- rewrite dead_ar. rewrite Ea, Ev. cbn [negb andb]. lia.
        -- rewrite dead_ar. rewrite Ea, Ev. cbn [negb andb]. intros H. rewrite (Hnl H). lia.
      * rewrite merge_fires, Ea, Ev, orb_true_l, andb_true_r. destruct (has_live A); cbn; rewrite ?andb_false_r, ?andb_true_r;
          repeat match goal with |- context [?x =? ?y] => destruct (Z.eqb_spec x y) end; try done; lia.
      * intros _. rewrite merge_flag. rewrite live_ar. rewrite Ea, Ev. cbn [negb andb]. by rewrite orb_true_r.
    + wp_step. eapply wp_change; [apply (increment_dead_count_spec _ _ _ _ Himp Hm); lia|]. intros c1 Hc1.
      set (nc1 := if 0 <? waiting nc then one_more_dead nc else nc) in *. wp_step.
      eapply wp_counts; [exact (dead_count_at _ _ _ _ Hc1)|]. wp_step.
      eapply wp_counts; [exact (pending_at _ _ _ _ Hc1)|]. wp_step. rewrite !set_counts_twice, Henter, orb_false_r, Hdatas.
      assert (Hp1 : phase nc1 = phase nc /\ max_deads nc1 = max_deads nc /\ waiting nc1 = waiting nc) by (unfold nc1; destruct (0 <? waiting nc); done).
      destruct Hp1 as (Hp1 & Hx1 & Hw1). rewrite Hw1, Hw.
      assert (Hd1 : 0 <= deads nc1 <= cnt dead_arrival A + 1 /\ (has_live A = false -> deads nc1 = cnt dead_arrival A + 1)).
      { unfold nc1. destruct (Z.ltb_spec 0 (waiting nc)) as [Hlt|Hge]; cbn; [split; [lia|]; intros H; by rewrite (Hnl H)|]. split; [lia|].
        intros H. rewrite H in Hw. lia. }
      split; [|split; [|split; [|unfold needed; by rewrite Hmg, live_ar, Ea, Ev]]].
      * exists c1, nc1. split; [done|]. split; [done|]. apply merge_inv; rewrite ?Ea; try done.
        -- rewrite Hp1, Hph. rewrite live_ar. rewrite Ea, Ev. cbn [negb andb]. by rewrite orb_false_r, Z.add_0_r.
        -- rewrite dead_ar. rewrite Ea, Ev. apply Hd1.
        -- rewrite dead_ar. rewrite Ea, Ev. apply Hd1.
      * rewrite merge_fires, Ea, Ev, orb_false_l. destruct (has_live A).
        -- cbn [negb]. rewrite !andb_false_r, andb_false_l. destruct (Z.eqb_spec (2 * (ctls - cnt a_ctl A) + 0) 1); [lia|done].
        -- rewrite (proj2 Hd1 eq_refl). cbn [negb]. rewrite andb_true_r. repeat match goal with |- context [?x =? ?y] => destruct (Z.eqb_spec x y) end; try done; lia.
      * rewrite merge_flag. rewrite live_ar. rewrite Ea, Ev. cbn [negb andb]. rewrite orb_false_r. intros [Hr1%Z.eqb_eq Hr2]%andb_true_iff.
        rewrite Hr2. destruct (has_live A); [lia|done].
Qed.
End Merge.
End Destination.
End Edge.

(** ** Graphs *)

Definition ctls (g : Graph) (d : Z) : Z := num_control_edges g d.
Definition datas (g : Graph) (d : Z) : Z := cnt (fun p => negb (IsControlEdge p.2)) (in_edges g d).
(** A graph of the executor, without loops over frames: the edges join outputs
    and inputs that exist, each input has exactly one edge, the source (node 0) has no
    input and the sink (node 1) has no output and some input, a merge has an
    input and a control trigger none. No edge leads back
    in the order of [rank], so every node can be reached from the roots. *)
Record graph_ok (g : Graph) : Prop := {
  go_edge s e n : (s, e) ∈ all_edges g -> g !!z s = Some n -> s <> 1 /\ (exists dn, g !!z dst e = Some dn) /\
    (IsControlEdge e = false -> 0 <= src_output e < num_outputs n);
  go_inputs d n : g !!z d = Some n -> map (fun p => dst_input p.2) (List.filter (fun p => negb (IsControlEdge p.2)) (in_edges g d)) ≡ₚ seqZ 0 (num_inputs n);
  go_total : fold_right (fun n total => num_inputs n + total) 0 g < 2 ^ 31;
  go_trigger d n : g !!z d = Some n -> IsControlTrigger n = true -> num_inputs n = 0;
  go_plain d n : g !!z d = Some n -> IsEnter n = false /\ IsExit n = false /\ IsNextIteration n = false;
  go_small d : zlength (in_edges g d) < 2 ^ 29;
  go_source : is_Some (g !!z 0) /\ in_edges g 0 = [];
  go_sink : in_edges g 1 <> [];
  go_merge d n : g !!z d = Some n -> IsMerge n = true -> in_edges g d <> [];
  go_sizes d n : g !!z d = Some n -> 0 <= num_inputs n /\ 0 <= num_outputs n;
  go_acyclic : exists rank : Z -> nat, forall s e, (s, e) ∈ all_edges g -> (rank s < rank (dst e))%nat
}.

Lemma go_count g d n : graph_ok g -> g !!z d = Some n -> num_inputs n = datas g d.
Proof.
  intros Hg Hn. pose proof (Permutation_length (go_inputs g Hg d n Hn)) as Hl. rewrite length_map, length_seqZ in Hl.
  pose proof (go_sizes g Hg d n Hn). unfold datas, cnt, zlength. lia.
Qed.
Lemma go_range g s e dn : graph_ok g -> (s, e) ∈ all_edges g -> IsControlEdge e = false -> g !!z dst e = Some dn -> 0 <= dst_input e < num_inputs dn.
Proof.
  intros Hg He Hc Hn. assert (Hin : dst_input e ∈ seqZ 0 (num_inputs dn)); [|by apply elem_of_seqZ in Hin].
  rewrite <- (go_inputs g Hg _ _ Hn). apply list_elem_of_In, List.in_map_iff. exists (s, e). split; [done|].
  apply List.filter_In. split; [|cbn; by rewrite Hc]. apply List.filter_In. split; [by apply list_elem_of_In|]. apply Z.eqb_refl.
Qed.

(** The delivery of an output by an edge. *)
Section Deliveries.
Context {Val : Type}.
Record Delivery := mkDelivery { d_src : Z; d_edge : Edge; d_arr : Arrival; d_entry : Entry Val }.
Definition d_id (x : Delivery) : Z * Edge := (d_src x, d_edge x).
Definition d_data (d : Z) (x : Delivery) : bool := (dst (d_edge x) =? d) && negb (IsControlEdge (d_edge x)).
Implicit Types (D : list Delivery) (x : Delivery).

(** A value is there exactly when the entry says so. *)
Definition entry_ok (e : Entry Val) : bool := match val e with Some _ => has_value e | None => negb (has_value e) end.
Definition arrivals D (d : Z) : list Arrival := map d_arr (List.filter (fun x => dst (d_edge x) =? d) D).
Definition coherent x : Prop := a_ctl (d_arr x) = IsControlEdge (d_edge x) /\ a_value (d_arr x) = has_value (d_entry x) /\ entry_ok (d_entry x) = true.
Definition legal (g : Graph) D : Prop := map d_id D ⊆+ all_edges g /\ Forall coherent D.
Definition fires_at (g : Graph) D (d : Z) (n : Node) : bool := fires n (ctls g d) (datas g d) (arrivals D d).
Definition flag_at D (d : Z) (n : Node) : bool := dead_flag n (arrivals D d).

Lemma arrivals_snoc D x d : arrivals (D ++ [x]) d = arrivals D d ++ (if dst (d_edge x) =? d then [d_arr x] else []).
Proof. unfold arrivals. rewrite List.filter_app, map_app. f_equal. cbn. by destruct (_ =? _). Qed.
Lemma arrivals_count D d (P : Arrival -> bool) (Q : Z * Edge -> bool) : Forall coherent D ->
  (forall x, a_ctl (d_arr x) = IsControlEdge (d_edge x) -> P (d_arr x) = Q (d_id x)) ->
  cnt P (arrivals D d) = cnt Q (List.filter (fun p => dst p.2 =? d) (map d_id D)).
Proof.
  intros Hall HPQ. unfold arrivals. rewrite cnt_map, !cnt_filter, cnt_map.
  induction Hall as [|x D [Hx _] Hall IH]; [done|]. unfold cnt in *. cbn. rewrite (HPQ x Hx). destruct (_ && _); [|done]. by rewrite !zlength_cons, IH.
Qed.
Lemma arrivals_cnt g D d (P : Arrival -> bool) (Q : Z * Edge -> bool) : legal g D ->
  (forall x, a_ctl (d_arr x) = IsControlEdge (d_edge x) -> P (d_arr x) = Q (d_id x)) -> cnt P (arrivals D d) <= cnt Q (in_edges g d).
Proof.
  intros [Hsub Hall] HPQ. rewrite (arrivals_count D d P Q Hall HPQ). unfold in_edges. rewrite !cnt_filter. by apply cnt_submseteq.
Qed.

(** What the input [i] of the node [d] holds after the deliveries: for a merge,
    the first live value, in its place. *)
Definition stored (n : Node) (d i : Z) x : bool := d_data d x && (if IsMerge n then has_value (d_entry x) else dst_input (d_edge x) =? i).
Definition slot (n : Node) D (d i : Z) : Entry Val :=
  match List.find (stored n d i) D with
  | Some x => if dst_input (d_edge x) =? i then d_entry x else no_entry
  | None => no_entry
  end.
Lemma slot_same n D x d i : stored n d i x = false -> slot n (D ++ [x]) d i = slot n D d i.
Proof. intros Hx. unfold slot. rewrite find_snoc, Hx. by destruct (List.find _ D). Qed.
Lemma slot_new n D x d i : List.find (stored n d i) D = None -> stored n d i x = true ->
  slot n (D ++ [x]) d i = if dst_input (d_edge x) =? i then d_entry x else no_entry.
Proof. intros HD Hx. unfold slot. by rewrite find_snoc, HD, Hx. Qed.
Lemma slot_old n D x d i y : List.find (stored n d i) D = Some y -> slot n (D ++ [x]) d i = slot n D d i.
Proof. intros HD. unfold slot. by rewrite find_snoc, HD. Qed.
Lemma find_live n D d i : IsMerge n = true -> Forall coherent D -> has_live (arrivals D d) = match List.find (stored n d i) D with Some _ => true | None => false end.
Proof.
  intros Hm. induction 1 as [|x D (Hc & Hv & _) Hall IH]; [done|]. unfold arrivals in *. cbn [List.filter List.find]. unfold stored at 1, d_data. rewrite Hm.
  destruct (dst (d_edge x) =? d); cbn [map andb]; [|done]. cbn [has_live existsb]. fold (has_live (map d_arr (List.filter (fun x => dst (d_edge x) =? d) D))).
  unfold live_arrival. rewrite Hc, Hv. by destruct (negb _ && _).
Qed.
(** No two edges lead to the same input. *)
Lemma legal_unique g D x n i : graph_ok g -> legal g (D ++ [x]) -> g !!z dst (d_edge x) = Some n -> IsMerge n = false -> IsControlEdge (d_edge x) = false -> dst_input (d_edge x) = i ->
  List.find (stored n (dst (d_edge x)) i) D = None.
Proof.
  intros Hg [Hsub _] Hn Hm Hc Hi. destruct (List.find _ D) as [y|] eqn:Ey; [|done]. exfalso. apply List.find_some in Ey as [Hy Hst].
  unfold stored, d_data in Hst. rewrite Hm, !andb_true_iff, !Z.eqb_eq in Hst. destruct Hst as [[Hyd Hyc] Hyi].
  set (d := dst (d_edge x)) in *. set (P := fun p : Z * Edge => dst p.2 =? d). set (Q := fun p : Z * Edge => negb (IsControlEdge p.2)).
  assert (Hsub2 : List.filter Q (List.filter P (map d_id (D ++ [x]))) ⊆+ List.filter Q (in_edges g d)).
  { apply submseteq_Permutation in Hsub as [k Hk]. change (in_edges g d) with (List.filter P (all_edges g)).
    rewrite (filter_perm Q _ _ (filter_perm P _ _ Hk)), !List.filter_app. by apply submseteq_inserts_r. }
  assert (Hnd : NoDup (map (fun p : Z * Edge => dst_input p.2) (List.filter Q (List.filter P (map d_id (D ++ [x])))))).
  { apply submseteq_Permutation in Hsub2 as [k Hk]. pose proof (go_inputs g Hg d n Hn) as HP. fold Q in HP. rewrite Hk, map_app in HP.
    pose proof (NoDup_seqZ 0 (num_inputs n)) as Hs. rewrite <- HP in Hs. by apply NoDup_app in Hs as [? _]. }
  rewrite map_app, !List.filter_app, map_app in Hnd. apply NoDup_app in Hnd as (_ & Hdis & _). apply (Hdis i).
  - apply list_elem_of_In, List.in_map_iff. exists (d_id y). split; [done|]. apply List.filter_In. split; [|done]. apply List.filter_In. split; [by apply List.in_map|]. unfold P. cbn. by rewrite Hyd, Z.eqb_refl.
  - cbn. unfold P. cbn. rewrite Z.eqb_refl. cbn. unfold Q. cbn. rewrite Hc. cbn. rewrite Hi. by apply list_elem_of_singleton.
Qed.
End Deliveries.
Arguments Delivery Val : clear implicits.

Lemma legal_bounded {Val} g (D : list (Delivery Val)) d : legal g D -> bounded (ctls g d) (datas g d) (arrivals D d).
Proof.
  intros HD. split.
  - unfold ctls, num_control_edges. fold (cnt (fun p : Z * Edge => IsControlEdge p.2) (in_edges g d)). by apply arrivals_cnt.
  - apply arrivals_cnt; [done|]. intros x Hx. unfold data_arrival. by rewrite Hx.
Qed.
Lemma in_edges_split g d : zlength (in_edges g d) = ctls g d + datas g d.
Proof. unfold ctls, num_control_edges, datas. rewrite <- cnt_true. apply cnt_partition; [|done]. intros [? e]. cbn. by destruct (IsControlEdge e). Qed.

Section Execution.
Context {Val : Type} (g : Graph) (Hg : graph_ok g) (impl : ExecutorImpl).
Implicit Types (D xs : list (Delivery Val)) (x : Delivery Val).

Record impl_ok : Prop := {
  io_graph : graph_ impl = g;
  io_ids d : is_Some (g !!z d) -> frame_local_ids_ impl !!z d = Some d;
  io_start d n : g !!z d = Some n -> exists st, input_start impl !!z d = Some st /\ 0 <= st /\ st + num_inputs n <= total_inputs impl;
  io_apart d d' n n' st st' : g !!z d = Some n -> g !!z d' = Some n' -> d <> d' -> input_start impl !!z d = Some st -> input_start impl !!z d' = Some st' ->
    st + num_inputs n <= st' \/ st' + num_inputs n' <= st;
  io_roots : root_nodes_ impl = root_ids g;
  io_counts : exists m, implements (pending_counts impl) m /\ forall d n, g !!z d = Some n -> exists nc, m !! d = Some nc /\ node_inv n (ctls g d) (datas g d) [] nc
}.
Hypothesis Himpl : impl_ok.

(** The state after the deliveries [D], when the nodes [ps] were processed: the
    counts, and the inputs of the nodes not yet processed. *)
Record iter_ok (it : IterationState Val) (D : list (Delivery Val)) (ps : list Z) : Prop := {
  it_counts : exists m, implements (counts it) m /\
    forall d n, g !!z d = Some n -> d <> 1 -> exists nc, m !! d = Some nc /\ node_inv n (ctls g d) (datas g d) (arrivals D d) nc;
  it_inputs : zlength (input_tensors it) = total_inputs impl;
  it_slots d n st i : g !!z d = Some n -> d <> 1 -> d ∉ ps -> input_start impl !!z d = Some st -> 0 <= i < num_inputs n -> input_tensors it !!z (st + i) = Some (slot n D d i);
  it_frames : outstanding_frame_count it = 0
}.

(** The node that a delivery makes ready. *)
Definition newly (D : list (Delivery Val)) (x : Delivery Val) : list TaggedNode :=
  let d := dst (d_edge x) in
  match g !!z d with
  | Some n => if negb (d =? 1) && fires_at g (D ++ [x]) d n && negb (fires_at g D d n) then [mkTagged d (flag_at (D ++ [x]) d n)] else []
  | None => []
  end.

Definition delivery (s : Z) (dead : bool) (outputs : list (Entry Val)) (e : Edge) : Delivery Val :=
  mkDelivery s e (arrival dead outputs e) (default no_entry (outputs !!z src_output e)).

(** What [activate_edge] does to the inputs. *)
Lemma input_stored s dead outputs e D (ps : list Z) (dn : Node) start o (l : list (Entry Val)) : let x := delivery s dead outputs e in
  g !!z dst e = Some dn -> input_start impl !!z dst e = Some start -> legal g (D ++ [x]) -> 0 <= dst_input e < num_inputs dn -> outputs !!z src_output e = Some o ->
  needed dn (arrivals D (dst e)) (d_arr x) = true -> start + num_inputs dn <= zlength l -> 0 <= start ->
  (forall d n st i, g !!z d = Some n -> d <> 1 -> d ∉ ps -> input_start impl !!z d = Some st -> 0 <= i < num_inputs n -> l !!z (st + i) = Some (slot n D d i)) ->
  forall d n st i, g !!z d = Some n -> d <> 1 -> d ∉ ps -> input_start impl !!z d = Some st -> 0 <= i < num_inputs n ->
    zinsert l (start + dst_input e) o !!z (st + i) = Some (slot n (D ++ [x]) d i).
Proof.
  intros x Hdn Hstart Hl Hdin Ho Hneed Hlen Hs0 Hold d n st i Hd Hd1 Hps Hst Hi. destruct (decide (d = dst e)) as [->|Hne].
  - rewrite Hdn in Hd. injection Hd as <-. rewrite Hstart in Hst. injection Hst as <-.
    assert (Hnew : slot dn (D ++ [x]) (dst e) i = if dst_input e =? i then o else slot dn D (dst e) i).
    { unfold needed in Hneed. destruct (IsMerge dn) eqn:Em.
      - apply andb_true_iff in Hneed as [Hlive Hno%negb_true_iff]. assert (HD : Forall coherent D) by (destruct Hl as [_ Hl]; by apply Forall_app in Hl as [? _]).
        rewrite (find_live dn D (dst e) i Em HD) in Hno. destruct (List.find _ D) eqn:Ef; [done|].
        assert (Hx : stored dn (dst e) i x = true).
        { unfold stored, d_data, x, delivery. cbn. rewrite Em, Z.eqb_refl, Ho. unfold live_arrival, x, delivery, arrival, output_value in Hlive. cbn in Hlive. by rewrite Ho in Hlive. }
        rewrite (slot_new _ _ _ _ _ Ef Hx). unfold slot. rewrite Ef. unfold x, delivery. cbn. by rewrite Ho.
      - apply negb_true_iff in Hneed. destruct (Z.eqb_spec (dst_input e) i) as [Hdi|Hdi].
        + rewrite slot_new.
          * unfold x, delivery. cbn. by rewrite Ho, Hdi, Z.eqb_refl.
          * by apply (legal_unique g D x).
          * unfold stored, d_data. cbn. cbn in Hneed. by rewrite Em, Hneed, Z.eqb_refl, Hdi, Z.eqb_refl.
        + apply slot_same. unfold stored, d_data. cbn. by rewrite Em, (proj2 (Z.eqb_neq _ _) Hdi), andb_false_r. }
    rewrite Hnew. destruct (Z.eqb_spec (dst_input e) i) as [->|Hdi]; [apply zlookup_zinsert_eq; lia|]. rewrite zlookup_zinsert_ne by lia. by apply Hold.
  - rewrite slot_same; [|unfold stored, d_data; cbn; by rewrite (proj2 (Z.eqb_neq _ _)) by congruence].
    destruct (io_apart Himpl _ _ _ _ _ _ Hdn Hd (not_eq_sym Hne) Hstart Hst); rewrite zlookup_zinsert_ne by lia; by apply Hold.
Qed.
Lemma input_kept s dead outputs e D dn n d i : let x := delivery s dead outputs e in
  Forall coherent D -> g !!z dst e = Some dn -> (IsControlEdge e = false -> is_Some (outputs !!z src_output e)) ->
  needed dn (arrivals D (dst e)) (d_arr x) = false -> g !!z d = Some n -> slot n (D ++ [x]) d i = slot n D d i.
Proof.
  intros x HD Hdn Ho Hneed Hd. destruct (stored n d i x) eqn:Ex; [|by apply slot_same]. unfold stored, d_data in Ex. cbn in Ex.
  apply andb_true_iff in Ex as [[Hde%Z.eqb_eq Hc%negb_true_iff]%andb_true_iff Hv]. rewrite <- Hde, Hdn in Hd. injection Hd as <-. unfold needed in Hneed.
  destruct (Ho Hc) as [o Hoo]. rewrite Hoo in Hv. cbn in Hv. destruct (IsMerge dn) eqn:Em; [|cbn in Hneed; by rewrite Hc in Hneed].
  assert (Hlive : live_arrival (d_arr x) = true) by (unfold live_arrival, x, delivery, arrival, output_value; cbn; by rewrite Hc, Hoo, Hv).
  rewrite Hlive in Hneed. cbn in Hneed. apply negb_false_iff in Hneed. rewrite Hde in Hneed. rewrite (find_live dn D d i Em HD) in Hneed.
  destruct (List.find _ D) eqn:Ef; [|done]. by eapply slot_old.
Qed.

Lemma activate_edge_spec n s dead outputs e (a : Act Val) D ps : let x := delivery s dead outputs e in
  iter_ok (iter_state a) D ps -> g !!z s = Some n -> (s, e) ∈ all_edges g -> legal g (D ++ [x]) -> zlength outputs = num_outputs n ->
  wp (activate_edge impl n dead outputs e) a (fun _ a' => iter_ok (iter_state a') (D ++ [x]) ps /\ ready a' = ready a ++ newly D x /\
    outstanding_ops (iter_state a') = outstanding_ops (iter_state a) + zlength (newly D x)).
Proof.
  intros x [(m & Himp & Hm) Hin Hsl Hfr] Hn He Hl Hout. destruct (go_edge g Hg s e n He Hn) as (Hs1 & (dn & Hdn) & Hsrc).
  assert (Hdin : IsControlEdge e = false -> 0 <= dst_input e < num_inputs dn) by (intros Hc; by apply (go_range g s)).
  assert (HD : Forall coherent D) by (destruct Hl as [_ Hl]; by apply Forall_app in Hl as [? _]).
  pose proof (legal_bounded g _ (dst e) Hl) as Hb. rewrite arrivals_snoc in Hb. cbn [d_edge d_arr delivery x] in Hb. rewrite Z.eqb_refl in Hb.
  unfold activate_edge. rewrite (io_graph Himpl). wp_step. eapply wp_opt; [exact Hdn|]. cbv beta. wp_step.
  eapply wp_opt; [by apply (io_ids Himpl); exists dn|]. cbv beta. unfold IsSink. unfold newly. cbn [d_edge d_arr delivery x]. rewrite Hdn. destruct (Z.eqb_spec (dst e) 1) as [Hsink|Hnsink].
  { apply wp_ret. rewrite app_nil_r, Z.add_0_r. split; [|done]. split; [| |intros d n' st i Hd Hd1 Hps Hst Hi|]; try done.
    - exists m. split; [done|]. intros d n' Hd Hd1. rewrite arrivals_snoc. cbn [d_edge d_arr delivery x]. rewrite (proj2 (Z.eqb_neq (dst e) d)), app_nil_r by congruence. by apply Hm.
    - rewrite slot_same; [by apply Hsl|]. unfold stored, d_data. cbn. by rewrite (proj2 (Z.eqb_neq (dst e) d)) by congruence. }
  destruct (Hm _ _ Hdn Hnsink) as (nc & Hnc & Hinv).
  assert (Ho : IsControlEdge e = false -> is_Some (outputs !!z src_output e)) by (intros Hc; apply zlookup_is_Some; rewrite Hout; by apply Hsrc).
  assert (Hres : wp (if IsMerge dn then activate_merge n e dn (dst e) outputs else activate_plain dead e (dst e) outputs) a
    (edge_post dn (ctls g (dst e)) (datas g (dst e)) (arrivals D (dst e)) (arrival dead outputs e) a m (dst e))).
  { destruct (IsMerge dn) eqn:Emg.
    - eapply (activate_merge_spec n dn _ _ _ m (dst e) nc dead outputs e a); try done; [by apply go_count|by apply (go_plain g Hg s)].
    - by eapply (activate_plain_spec dn _ _ _ m (dst e) nc dead outputs e a). }
  wp_step. eapply wp_mono; [exact Hres|]. intros [[dd dr] ni] a1 ((c' & nc' & -> & Hc' & Hinv') & Hdr & Hflag & Hni). cbn [fst snd].
  wp_step. apply wp_mono with (Q := fun _ a' => counts (iter_state a') = c' /\ zlength (input_tensors (iter_state a')) = total_inputs impl /\
    outstanding_frame_count (iter_state a') = 0 /\ ready a' = ready a /\ outstanding_ops (iter_state a') = outstanding_ops (iter_state a) /\
    forall d n st i, g !!z d = Some n -> d <> 1 -> d ∉ ps -> input_start impl !!z d = Some st -> 0 <= i < num_inputs n -> input_tensors (iter_state a') !!z (st + i) = Some (slot n (D ++ [x]) d i)).
  { destruct ni.
    - assert (Hc : IsControlEdge e = false).
      { destruct (IsControlEdge e) eqn:Ec; [|done]. unfold needed, live_arrival, arrival in Hni. cbn in Hni. rewrite Ec in Hni. cbn in Hni. by destruct (IsMerge dn). }
      destruct (io_start Himpl _ _ Hdn) as (st & Hst & Hst0 & Hst1). specialize (Hdin Hc).
      destruct (Ho Hc) as [o Hoo]. wp_step. eapply wp_opt; [exact Hst|]. cbv beta. wp_step. eapply wp_opt; [exact Hoo|]. cbv beta. do 4 wp_step.
      { apply andb_true_iff. rewrite Z.leb_le, Z.ltb_lt. cbn [iter_state set_counts input_tensors]. rewrite Hin. lia. }
      cbn. rewrite zinsert_length. split_and!; try done. eapply (input_stored s dead outputs e D ps dn st o); try done. lia.
    - apply wp_ret. cbn. split_and!; try done. intros d n' st i Hd Hd1 Hps Hst Hi. unfold x. rewrite (input_kept s dead outputs e D dn n' d i HD Hdn Ho (eq_sym Hni) Hd). by apply Hsl. }
  intros _ a2 (Ec & Ei & Ef & Er & Eo & Es). assert (Hit : forall ops, iter_ok (mkIter (input_tensors (iter_state a2)) ops (outstanding_frame_count (iter_state a2)) (counts (iter_state a2))) (D ++ [x]) ps).
  { intros ops. split; [|done|done|done]. cbn [counts]. rewrite Ec. exists (<[dst e := nc']> m). split; [done|]. intros d n' Hd Hd1. rewrite arrivals_snoc, lookup_insert. cbn [d_edge d_arr delivery x].
    destruct (decide (dst e = d)) as [<-|Hne].
    - rewrite Z.eqb_refl. exists nc'. split; [done|]. rewrite Hdn in Hd. by injection Hd as <-.
    - rewrite (proj2 (Z.eqb_neq _ _)), app_nil_r by done. by apply Hm. }
  cbn [negb]. rewrite andb_true_l. unfold fires_at, flag_at. rewrite !arrivals_snoc. cbn [d_edge d_arr delivery x]. rewrite Z.eqb_refl, <- Hdr. destruct dr.
  - apply wp_modify. cbn [iter_state ready push_ready outstanding_ops]. split; [apply Hit|]. rewrite Er, Eo, Hflag by done. done.
  - apply wp_ret. rewrite Er, Eo, app_nil_r, Z.add_0_r. split; [|done]. specialize (Hit (outstanding_ops (iter_state a2))). by destruct (iter_state a2).
Qed.

(** ** All the edges of a node *)

Fixpoint newlies (D xs : list (Delivery Val)) : list TaggedNode :=
  match xs with [] => [] | x :: xs' => newly D x ++ newlies (D ++ [x]) xs' end.
Definition deliver (s : Z) (dead : bool) (outputs : list (Entry Val)) (es : list Edge) : list (Delivery Val) :=
  map (delivery s dead outputs) es.

Lemma deliver_cons s dead outputs e es : deliver s dead outputs (e :: es) = delivery s dead outputs e :: deliver s dead outputs es.
Proof. done. Qed.
Lemma legal_app_l D xs : legal g (D ++ xs) -> legal g D.
Proof.
  intros [Hs Hall]. rewrite map_app in Hs. apply Forall_app in Hall as [? _]. split; [|done].
  etransitivity; [|exact Hs]. by apply submseteq_inserts_r.
Qed.
Lemma activate_edges_spec n s dead outputs es : forall (a : Act Val) D ps, iter_ok (iter_state a) D ps -> g !!z s = Some n -> legal g (D ++ deliver s dead outputs es) ->
  zlength outputs = num_outputs n ->
  wp (activate_edges impl n dead outputs es) a (fun _ a' => iter_ok (iter_state a') (D ++ deliver s dead outputs es) ps /\
    ready a' = ready a ++ newlies D (deliver s dead outputs es) /\
    outstanding_ops (iter_state a') = outstanding_ops (iter_state a) + zlength (newlies D (deliver s dead outputs es))).
Proof.
  induction es as [|e es IH]; intros a D ps Hit Hn Hl Hout; cbn [activate_edges].
  - apply wp_ret. cbn [deliver map newlies]. rewrite !app_nil_r. change (zlength []) with 0. by rewrite Z.add_0_r.
  - rewrite deliver_cons in *. set (x := delivery s dead outputs e) in *. cbn [newlies].
    rewrite (cons_middle x D) in *. rewrite (app_assoc D) in *.
    assert (He : (s, e) ∈ all_edges g) by (destruct Hl as [Hl _]; eapply elem_of_submseteq; [|exact Hl]; rewrite !map_app; cbn; set_solver).
    wp_step. eapply wp_mono; [apply (activate_edge_spec n s dead outputs e a D ps Hit Hn He); [exact (legal_app_l _ _ Hl)|done]|].
    intros _ a1 (Hit1 & Er1 & Eo1). eapply wp_mono; [by apply (IH a1 (D ++ [x]) ps)|].
    intros _ a2 (Hit2 & Er2 & Eo2). split; [done|]. rewrite Er2, Er1, Eo2, Eo1, <- app_assoc, zlength_app. split; [done|unfold x; lia].
Qed.

(** ** The nodes made ready so far *)

Record pushed_ok (D : list (Delivery Val)) (P : list TaggedNode) : Prop := {
  po_nodup : NoDup (map node P);
  po_fired t : t ∈ P -> exists n, g !!z node t = Some n /\ node t <> 1 /\ fires_at g D (node t) n = true /\ is_dead t = flag_at D (node t) n;
  po_all d n : g !!z d = Some n -> d <> 1 -> fires_at g D d n = true -> d ∈ map node P
}.
Lemma pushed_ok_perm D P P' : P ≡ₚ P' -> pushed_ok D P -> pushed_ok D P'.
Proof.
  intros HP [H1 H2 H3]. split.
  - by rewrite <- HP.
  - intros t Ht. apply H2. by rewrite HP.
  - intros d n Hd Hd1 Hf. rewrite <- HP. by eapply H3.
Qed.
Lemma fires_at_stable D x d n : legal g (D ++ [x]) -> g !!z d = Some n -> fires_at g D d n = true ->
  fires_at g (D ++ [x]) d n = true /\ flag_at (D ++ [x]) d n = flag_at D d n.
Proof.
  intros Hl Hd Hf. pose proof (legal_bounded g _ d Hl) as Hb. unfold fires_at, flag_at in *. rewrite arrivals_snoc in *.
  destruct (dst (d_edge x) =? d); [|by rewrite app_nil_r]. by apply fires_stable.
Qed.
Lemma pushed_ok_newly D P x : legal g (D ++ [x]) -> pushed_ok D P -> pushed_ok (D ++ [x]) (P ++ newly D x).
Proof.
  intros Hl [H1 H2 H3]. assert (Hold : forall t, t ∈ P -> exists n, g !!z node t = Some n /\ node t <> 1 /\ fires_at g (D ++ [x]) (node t) n = true /\ is_dead t = flag_at (D ++ [x]) (node t) n).
  { intros t Ht. destruct (H2 t Ht) as (n & Hn & Ht1 & Hf & Hfl). exists n. destruct (fires_at_stable D x _ n Hl Hn Hf) as [? ->]. done. }
  assert (Hother : forall d n, d <> dst (d_edge x) -> fires_at g (D ++ [x]) d n = fires_at g D d n).
  { intros d n Hne. unfold fires_at. rewrite arrivals_snoc, (proj2 (Z.eqb_neq _ _)), app_nil_r by congruence. done. }
  unfold newly. destruct (g !!z dst (d_edge x)) as [n|] eqn:En.
  - destruct (negb (dst (d_edge x) =? 1) && fires_at g (D ++ [x]) (dst (d_edge x)) n && negb (fires_at g D (dst (d_edge x)) n)) eqn:E.
    + rewrite !andb_true_iff, !negb_true_iff, Z.eqb_neq in E. destruct E as [[Hd1 Hf] Hnf]. split.
      * rewrite map_app. apply NoDup_app. split; [done|]. split; [|apply NoDup_singleton]. cbn. intros d Hd ->%list_elem_of_singleton.
        apply list_elem_of_In, List.in_map_iff in Hd as (t & Et & Ht). apply list_elem_of_In in Ht. destruct (H2 t Ht) as (n' & Hn' & _ & Hf' & _).
        rewrite Et, En in Hn'. injection Hn' as <-. rewrite Et in Hf'. congruence.
      * intros t [Ht| ->%list_elem_of_singleton]%elem_of_app; [by apply Hold|]. by exists n.
      * intros d n' Hd Hdn Hf'. rewrite map_app. apply elem_of_app. destruct (decide (d = dst (d_edge x))) as [->|Hne]; [right; by apply list_elem_of_singleton|].
        left. rewrite Hother in Hf' by done. by eapply H3.
    + rewrite app_nil_r. split; [done|done|]. intros d n' Hd Hdn Hf'. destruct (decide (d = dst (d_edge x))) as [->|Hne]; [|rewrite Hother in Hf' by done; by eapply H3].
      rewrite En in Hd. injection Hd as <-. rewrite Hf', andb_true_r, (proj2 (Z.eqb_neq _ _) Hdn) in E. cbn in E. apply negb_false_iff in E. by eapply H3.
  - rewrite app_nil_r. split; [done|done|]. intros d n' Hd Hdn Hf'. destruct (decide (d = dst (d_edge x))) as [->|Hne]; [congruence|]. rewrite Hother in Hf' by done. by eapply H3.
Qed.
Lemma pushed_ok_newlies xs : forall D P, legal g (D ++ xs) -> pushed_ok D P -> pushed_ok (D ++ xs) (P ++ newlies D xs).
Proof.
  induction xs as [|x xs IH]; intros D P Hl HP; cbn [newlies]; [by rewrite !app_nil_r|].
  replace (D ++ x :: xs) with ((D ++ [x]) ++ xs) in * by (by rewrite <- app_assoc). rewrite app_assoc. apply IH; [done|].
  apply pushed_ok_newly; [by apply legal_app_l in Hl|done].
Qed.
End Execution.
End ExecutorFacts.

Import Status PendingCounts NodeClass Executor ExecutorFacts.

Module ExecutorInputs.

Lemma nodup_map_inj {A B} (f : A -> B) l x y : NoDup (map f l) -> x ∈ l -> y ∈ l -> f x = f y -> x = y.
Proof.
  induction l as [|z l IH]; cbn; [by intros _ ?%elem_of_nil|]. intros [Hz Hnd]%NoDup_cons Hx Hy Hf.
  apply elem_of_cons in Hx as [->|Hx], Hy as [->|Hy]; [done| | |by apply IH].
  - exfalso. apply Hz. rewrite Hf. apply list_elem_of_In, List.in_map. by apply list_elem_of_In.
  - exfalso. apply Hz. rewrite <- Hf. apply list_elem_of_In, List.in_map. by apply list_elem_of_In.
Qed.

Lemma find_ext {A} (P Q : A -> bool) l : (forall x, P x = Q x) -> List.find P l = List.find Q l.
Proof. intros H. induction l as [|x l IH]; [done|]. cbn. rewrite H. by destruct (Q x). Qed.

Section Prepare.
Context {Val : Type} (kEmptyTensor : Val).
Implicit Types (l : list (Entry Val)).

(** ** PrepareInputs *)

(** What the kernel sees of an entry. *)
Definition input_of (n : Node) (e : Entry Val) : option Val :=
  if has_value e then val e else if IsMerge n then None else Some kEmptyTensor.
Definition readable (n : Node) (e : Entry Val) : bool := entry_ok e && (has_value e || IsMerge n || IsTransferNode n).
Definition inside (loc k j : Z) : Prop := loc <= j < loc + k.

Lemma prepare_input_spec n loc e l : readable n e = true ->
  wp (prepare_input kEmptyTensor n loc e) l (fun r l' => r.1 = input_of n e /\ zlength l' = zlength l /\ forall j, j <> loc -> l' !!z j = l !!z j).
Proof.
  unfold readable, entry_ok, prepare_input, input_of. intros [He Hr]%andb_true_iff. destruct (has_value e); cbn [negb orb] in *.
  - destruct (val e) as [v|] eqn:Ev; [|done]. wp_step. eapply wp_opt; [done|]. cbv beta. by apply wp_ret.
  - destruct (IsMerge n); [by apply wp_ret|]. cbn in Hr. rewrite Hr. destruct (val e); [done|].
    do 2 wp_step; [done|]. do 2 wp_step; [by apply bool_decide_eq_true|]. do 3 wp_step. cbn. rewrite zinsert_length. split; [done|]. split; [done|]. intros j Hj. by apply zlookup_zinsert_ne.
Qed.
Lemma prepare_loop_spec n (E : Z -> Entry Val) loc k : forall b l, (forall i, b <= i < b + Z.of_nat k -> l !!z (loc + i) = Some (E i) /\ readable n (E i) = true) ->
  wp (prepare_loop kEmptyTensor n k (loc + b)) l (fun r l' => r.1 = map (fun i => input_of n (E i)) (seqZ b (Z.of_nat k)) /\ zlength l' = zlength l /\
    forall j, ~ inside (loc + b) (Z.of_nat k) j -> l' !!z j = l !!z j).
Proof.
  induction k as [|k IH]; intros b l HE; cbn [prepare_loop]; [by apply wp_ret|].
  destruct (HE b) as [Hl Hr]; [lia|]. do 2 wp_step. wp_step. eapply wp_opt; [exact Hl|]. cbv beta. wp_step.
  eapply wp_mono; [apply prepare_input_spec, Hr|]. intros [inp dead] l1 (Hin & Hlen & Hsame). cbn [fst] in Hin. wp_step. rewrite <- Z.add_assoc.
  eapply wp_mono; [apply (IH (b + 1))|].
  - intros i Hi. rewrite Hsame by lia. apply HE. lia.
  - intros [inputs dead'] l2 (Hins & Hlen2 & Hsame2). wp_step. cbn [fst] in *. split; [|split].
    + rewrite seqZ_cons by lia. cbn [map]. rewrite Hin, Hins. f_equal. f_equal. f_equal; lia.
    + by rewrite Hlen2.
    + unfold inside in *. intros j Hj. rewrite Hsame2 by lia. apply Hsame. lia.
Qed.
Lemma clear_inputs_spec k : forall loc l, zlength (clear_inputs k loc l) = zlength l /\ forall j, ~ inside loc (Z.of_nat k) j -> clear_inputs k loc l !!z j = l !!z j.
Proof.
  unfold inside. induction k as [|k IH]; intros loc l; cbn [clear_inputs]; [done|]. destruct (IH (loc + 1) (match l !!z loc with Some e => zinsert l loc (ClearVal e) | None => l end)) as [Hl Hs].
  split; [rewrite Hl; destruct (l !!z loc); by rewrite ?zinsert_length|]. intros j Hj. rewrite Hs by lia. destruct (l !!z loc); [|done]. apply zlookup_zinsert_ne. lia.
Qed.
End Prepare.

(** ** The inputs of a node that is ready *)

Section Ready.
Context {Val : Type} (kEmptyTensor : Val) (g : Graph) (Hg : graph_ok g) (impl : ExecutorImpl) (Himpl : impl_ok g impl).
Implicit Types (D : list (Delivery Val)) (x : Delivery Val).

(** The edge of an input. *)
Lemma input_edge d n i : g !!z d = Some n -> 0 <= i < num_inputs n -> exists s e, (s, e) ∈ in_edges g d /\ IsControlEdge e = false /\ dst_input e = i.
Proof.
  intros Hn Hi. assert (Hin : i ∈ seqZ 0 (num_inputs n)) by (apply elem_of_seqZ; lia). rewrite <- (go_inputs g Hg d n Hn) in Hin.
  apply list_elem_of_In, List.in_map_iff in Hin as ([s e] & He & [Hin Hc]%List.filter_In). exists s, e. split; [by apply list_elem_of_In|]. split; [by apply negb_true_iff in Hc|done].
Qed.
Lemma input_edge_unique d n s e s' e' : g !!z d = Some n -> (s, e) ∈ in_edges g d -> (s', e') ∈ in_edges g d -> IsControlEdge e = false -> IsControlEdge e' = false ->
  dst_input e = dst_input e' -> (s, e) = (s', e').
Proof.
  intros Hn He He' Hc Hc' Hi. eapply (nodup_map_inj (fun p : Z * Edge => dst_input p.2)); [|..|exact Hi].
  - rewrite (go_inputs g Hg d n Hn). apply NoDup_seqZ.
  - apply list_elem_of_In, List.filter_In. split; [by apply list_elem_of_In|]. cbn. by rewrite Hc.
  - apply list_elem_of_In, List.filter_In. split; [by apply list_elem_of_In|]. cbn. by rewrite Hc'.
Qed.

(** A plain node is ready when every edge to it has delivered. *)
Lemma plain_delivered D d n : legal g D -> IsMerge n = false -> fires_at g D d n = true -> forall p, p ∈ in_edges g d -> exists x, x ∈ D /\ d_id x = p.
Proof.
  intros [Hsub Hco] Hm Hf p Hp. unfold fires_at, fires in Hf. rewrite Hm in Hf. apply Z.eqb_eq in Hf. rewrite <- in_edges_split in Hf.
  rewrite <- cnt_true in Hf. rewrite (arrivals_count D d (fun _ => true) (fun _ => true) Hco) in Hf by done. rewrite cnt_true in Hf.
  assert (Hsub2 : List.filter (fun p => dst p.2 =? d) (map d_id D) ⊆+ in_edges g d).
  { apply submseteq_Permutation in Hsub as [k Hk]. unfold in_edges. rewrite (filter_perm _ _ _ Hk), List.filter_app. by apply submseteq_inserts_r. }
  assert (HP : List.filter (fun p => dst p.2 =? d) (map d_id D) ≡ₚ in_edges g d) by (apply submseteq_length_Permutation; [done|]; unfold zlength in Hf; lia).
  rewrite <- HP in Hp. apply list_elem_of_In, List.filter_In in Hp as [Hp _]. apply List.in_map_iff in Hp as (x & <- & Hx). exists x. split; [by apply list_elem_of_In|done].
Qed.
Lemma delivered_stored D d n x : legal g D -> IsMerge n = false -> g !!z d = Some n -> x ∈ D -> d_data d x = true ->
  exists y, y ∈ D /\ slot n D d (dst_input (d_edge x)) = d_entry y /\ d_id y = d_id x.
Proof.
  intros [Hsub Hco] Hm Hn Hx Hd. unfold slot. assert (Hin : forall y, y ∈ D -> d_data d y = true -> (d_src y, d_edge y) ∈ in_edges g d).
  { intros y Hy [Hyd _]%andb_true_iff. apply list_elem_of_In, List.filter_In. split; [|done]. apply list_elem_of_In. eapply elem_of_submseteq; [|exact Hsub].
    apply list_elem_of_In, List.in_map_iff. exists y. split; [done|]. by apply list_elem_of_In. }
  destruct (List.find (stored n d (dst_input (d_edge x))) D) as [y|] eqn:Ef.
  - apply List.find_some in Ef as [Hy%list_elem_of_In [Hyd Hyi]%andb_true_iff]. rewrite Hm in Hyi. rewrite Hyi. exists y. split; [done|]. split; [done|].
    apply Z.eqb_eq in Hyi. apply (input_edge_unique d n); [done|by apply Hin|by apply Hin| | |done].
    + apply andb_true_iff in Hyd as [_ Hyd]. by apply negb_true_iff.
    + apply andb_true_iff in Hd as [_ Hd]. by apply negb_true_iff.
  - apply list_elem_of_In in Hx. pose proof (List.find_none _ _ Ef x Hx) as Hno. unfold stored in Hno. by rewrite Hd, Hm, Z.eqb_refl in Hno.
Qed.
(** The values of a plain node that is ready and not dead. *)
Lemma plain_values D d n s e : legal g D -> g !!z d = Some n -> IsMerge n = false -> fires_at g D d n = true -> flag_at D d n = false ->
  (s, e) ∈ in_edges g d -> IsControlEdge e = false -> exists x, x ∈ D /\ d_id x = (s, e) /\ slot n D d (dst_input e) = d_entry x /\ has_value (d_entry x) = true.
Proof.
  intros Hl Hn Hm Hf Hflag He Hc. destruct (plain_delivered D d n Hl Hm Hf _ He) as (x & Hx & Hid). unfold d_id in Hid. injection Hid as Hs Hed.
  assert (Hde : dst e = d) by (unfold in_edges in He; apply list_elem_of_In, List.filter_In in He as [_ He]; by apply Z.eqb_eq in He).
  destruct (delivered_stored D d n x Hl Hm Hn Hx) as (y & Hy & Hslot & Hid); [unfold d_data; by rewrite Hed, Hde, Z.eqb_refl, Hc|]. rewrite Hed in Hslot.
  exists y. split; [done|]. split; [by rewrite Hid; unfold d_id; rewrite Hs, Hed|]. split; [done|].
  assert (Hnt : IsControlTrigger n = false).
  { destruct (IsControlTrigger n) eqn:Et; [|done]. pose proof (go_trigger g Hg d n Hn Et). rewrite <- Hde in Hn.
    assert (Hee : (s, e) ∈ all_edges g) by (unfold in_edges in He; apply list_elem_of_In, List.filter_In in He as [He _]; by apply list_elem_of_In).
    pose proof (go_range g s e n Hg Hee Hc Hn). lia. }
  unfold flag_at, dead_flag in Hflag. rewrite Hm, Hnt, andb_true_r in Hflag.
  destruct Hl as [_ Hco]. destruct (proj1 (Forall_forall _ _) Hco y Hy) as (Hyc & Hyv & _). unfold d_id in Hid. injection Hid as _ Hye. rewrite Hed in Hye.
  destruct (missing_arrival (d_arr y)) eqn:Em.
  - exfalso. assert (Ht : existsb missing_arrival (arrivals D d) = true); [|congruence]. apply existsb_exists. exists (d_arr y). split; [|done].
    unfold arrivals. apply List.in_map. apply List.filter_In. split; [by apply list_elem_of_In|]. by rewrite Hye, Hde, Z.eqb_refl.
  - unfold missing_arrival, dead_arrival in Em. apply orb_false_iff in Em as [_ Em]. rewrite Hyc, Hye, Hc in Em. cbn in Em. apply negb_false_iff in Em. congruence.
Qed.
(** The value of a merge that is not dead. *)
Lemma merge_value D d n : legal g D -> IsMerge n = true -> flag_at D d n = false ->
  exists x, x ∈ D /\ d_data d x = true /\ has_value (d_entry x) = true /\ forall i, slot n D d i = if dst_input (d_edge x) =? i then d_entry x else no_entry.
Proof.
  intros [_ Hco] Hm Hflag. assert (Hnt : IsControlTrigger n = false) by (unfold IsMerge, IsControlTrigger in *; apply bool_decide_eq_true in Hm; rewrite Hm; done).
  unfold flag_at, dead_flag in Hflag. rewrite Hm, Hnt, andb_true_r in Hflag. apply negb_false_iff in Hflag. rewrite (find_live n D d 0 Hm Hco) in Hflag.
  destruct (List.find (stored n d 0) D) as [x|] eqn:Ef; [|done].
  assert (Hany : forall i, List.find (stored n d i) D = Some x).
  { intros i. rewrite <- Ef. apply find_ext. intros y. unfold stored. by rewrite Hm. }
  apply List.find_some in Ef as [Hx%list_elem_of_In [Hxd Hxv]%andb_true_iff]. rewrite Hm in Hxv. exists x. split_and!; try done.
  intros i. unfold slot. by rewrite Hany.
Qed.
Lemma slot_ok n D d i : Forall coherent D -> entry_ok (slot n D d i) = true.
Proof.
  intros Hco. unfold slot. destruct (List.find _ D) as [x|] eqn:Ef; [|done]. apply List.find_some in Ef as [Hx _]. apply list_elem_of_In in Hx.
  destruct (_ =? _); [|done]. by apply (proj1 (Forall_forall _ _) Hco x Hx).
Qed.
Lemma slots_readable D d n i : legal g D -> g !!z d = Some n -> fires_at g D d n = true -> flag_at D d n && negb (IsTransferNode n) = false -> 0 <= i < num_inputs n ->
  readable n (slot n D d i) = true.
Proof.
  intros Hl Hn Hf Hflag Hi. unfold readable. rewrite (slot_ok n D d i (proj2 Hl)). destruct (IsMerge n) eqn:Em; [by rewrite orb_true_r|].
  destruct (IsTransferNode n); [by rewrite orb_true_r|]. rewrite andb_true_r in Hflag. rewrite !orb_false_r.
  destruct (input_edge d n i Hn Hi) as (s & e & He & Hc & <-). by destruct (plain_values D d n s e Hl Hn Em Hf Hflag He Hc) as (x & _ & _ & -> & ->).
Qed.

(** ** The iteration when a node is processed *)

Lemma iter_ok_change it D ps ps' d n st l ops : iter_ok g impl it D ps -> g !!z d = Some n -> input_start impl !!z d = Some st ->
  (forall j, j ∉ ps' -> (j ∉ ps) /\ j <> d) -> zlength l = zlength (input_tensors it) -> (forall j, not (inside st (num_inputs n) j) -> l !!z j = input_tensors it !!z j) ->
  iter_ok g impl (mkIter l ops (outstanding_frame_count it) (counts it)) D ps'.
Proof.
  intros [Hc Hi Hs Hf] Hn Hst Hps Hlen Hsame. split; [done|cbn; by rewrite Hlen| |done]. intros j m st' i Hj Hj1 Hjp Hst' Hir. cbn [input_tensors].
  destruct (Hps j Hjp) as [Hjps Hjd]. rewrite Hsame; [by apply Hs|]. unfold inside. destruct (io_apart _ _ Himpl _ _ _ _ _ _ Hn Hj (not_eq_sym Hjd) Hst Hst'); lia.
Qed.
Lemma PrepareInputs_spec it D ps d n st : iter_ok g impl it D ps -> legal g D -> g !!z d = Some n -> d <> 1 -> d ∉ ps -> input_start impl !!z d = Some st ->
  fires_at g D d n = true -> flag_at D d n && negb (IsTransferNode n) = false ->
  exists dead l, PrepareInputs kEmptyTensor n st it =
    Done (map (fun i => input_of kEmptyTensor n (slot n D d i)) (seqZ 0 (num_inputs n)), dead, mkIter l (outstanding_ops it) (outstanding_frame_count it) (counts it)) /\
    zlength l = zlength (input_tensors it) /\ forall j, ~ inside st (num_inputs n) j -> l !!z j = input_tensors it !!z j.
Proof.
  intros Hit Hl Hn Hd Hps Hst Hf Hflag. pose proof (proj1 (go_sizes g Hg d n Hn)) as H0. unfold PrepareInputs.
  assert (Hwp := prepare_loop_spec kEmptyTensor n (fun i => slot n D d i) st (Z.to_nat (num_inputs n)) 0 (input_tensors it)). rewrite Z2Nat.id, Z.add_0_r in Hwp by done.
  destruct (proj1 (wp_Done _ _ _) (Hwp ltac:(intros i Hi; split; [by eapply it_slots|by apply slots_readable]))) as ([inputs dead] & l & E & Hin & Hlen & Hsame).
  rewrite E. cbn [fst] in Hin. rewrite Hin. by exists dead, l.
Qed.
End Ready.
End ExecutorInputs.
