(* ===== verification/ExecutorRun.v ===== *)
(** * The executor: runs

    The initial state, and the invariant of all interleavings of the threads:
    [process_ok] and [node_done_ok] preserve it, [remaining] decreases with each
    step, and a state without a step has run every node. *)
From S2P Require Import Prelude Status Numbers PendingCounts Graph Executor ExecutorFacts.
Import Status PendingCounts NodeClass Executor ExecutorFacts ExecutorInputs.

Module ExecutorRun.

(** ** Lists *)

Lemma concat_perm {A} (l k : list (list A)) : l ≡ₚ k -> concat l ≡ₚ concat k.
Proof.
  induction 1 as [|x l k _ IH|x y l|l1 l2 l3 _ IH1 _ IH2]; cbn; [done|by rewrite IH| |by rewrite IH1].
  rewrite !app_assoc. by rewrite (Permutation_app_comm y x).
Qed.
Lemma filter_none {A} (P : A -> bool) l : (forall x, x ∈ l -> P x = false) -> List.filter P l = [].
Proof. induction l as [|x l IH]; intros H; [done|]. cbn. rewrite (H x) by set_solver. apply IH. set_solver. Qed.
Lemma concat_map_submseteq {A B} (f : A -> list B) l k : l ⊆+ k -> concat (map f l) ⊆+ concat (map f k).
Proof.
  intros [k' Hk]%submseteq_Permutation. rewrite (concat_perm (map f k) (map f (l ++ k'))) by (by rewrite Hk).
  rewrite map_app, concat_app. by apply submseteq_inserts_r.
Qed.
Lemma zlookup_at_nat {A} (l : list A) i x : l !!z i = Some x <-> 0 <= i /\ l !! Z.to_nat i = Some x.
Proof. unfold zlookup. destruct (Z.ltb_spec i 0); naive_solver lia. Qed.
Lemma node_ids_elem g d : d ∈ node_ids g <-> is_Some (g !!z d).
Proof.
  unfold node_ids. rewrite list_elem_of_In, List.in_map_iff. split.
  - intros (i & <- & Hi%List.in_seq). destruct (lookup_lt_is_Some_2 g i) as [n Hn]; [lia|]. exists n. apply zlookup_at_nat. rewrite Nat2Z.id. split; [lia|done].
  - intros [n [Hd Hn%lookup_lt_Some]%zlookup_at_nat]. exists (Z.to_nat d). split; [lia|]. apply List.in_seq. lia.
Qed.
Lemma node_ids_nodup g : NoDup (node_ids g).
Proof. unfold node_ids. apply NoDup_fmap_2; [intros ??; lia|]. apply NoDup_ListNoDup, List.seq_NoDup. Qed.
Lemma imap_pair_elem (g : Graph) i n : (i, n) ∈ imap pair g <-> g !! i = Some n.
Proof. rewrite elem_of_lookup_imap. naive_solver. Qed.
Lemma imap_pair_fst (g : Graph) : map (fun p => Z.of_nat p.1) (imap pair g) = node_ids g.
Proof.
  unfold node_ids. change (map Z.of_nat (seq 0 (length g))) with (Z.of_nat <$> seq 0 (length g)). rewrite <- (imap_seq_0 g Z.of_nat).
  change (map (fun p : nat * Node => Z.of_nat p.1) (imap pair g)) with ((fun p : nat * Node => Z.of_nat p.1) <$> imap pair g). by rewrite fmap_imap.
Qed.

(** ** Initialization *)

Definition inputs_from (g : Graph) : Z := fold_right (fun n total => num_inputs n + total) 0 g.
Lemma inputs_from_nonneg g : Forall (fun n => 0 <= num_inputs n) g -> 0 <= inputs_from g.
Proof. induction 1; cbn; [lia|]. unfold inputs_from in IHForall. lia. Qed.
Lemma starts_loop_spec g : forall total, Forall (fun n => 0 <= num_inputs n) g -> 0 <= total -> total + inputs_from g < 2 ^ 31 ->
  (starts_loop g total).2 = total + inputs_from g /\
  (forall i n, g !! i = Some n -> exists st, (starts_loop g total).1 !! i = Some st /\ total <= st /\ st + num_inputs n <= total + inputs_from g) /\
  forall i j n n' st st', (i < j)%nat -> g !! i = Some n -> g !! j = Some n' -> (starts_loop g total).1 !! i = Some st -> (starts_loop g total).1 !! j = Some st' -> st + num_inputs n <= st'.
Proof.
  induction g as [|n g IH]; intros total Hg H0 Hmax; cbn [starts_loop]; [split; [unfold inputs_from; cbn; lia|split; done]|].
  apply Forall_cons in Hg as [Hn Hg]. pose proof (inputs_from_nonneg g Hg) as Hr. change (inputs_from (n :: g)) with (num_inputs n + inputs_from g) in *.
  rewrite s32_id by lia. destruct (IH (total + num_inputs n) Hg) as (Hle & Hi & Hij); [lia|lia|]. destruct (starts_loop g (total + num_inputs n)) as [starts total'] eqn:E.
  cbn [fst snd] in *. split; [lia|]. split.
  - intros [|i] n'; cbn; [intros [= <-]; exists total; split; [done|lia]|]. intros Hn'. destruct (Hi i n' Hn') as (st & ? & ? & ?). exists st. split; [done|lia].
  - intros [|i] [|j] n1 n2 st st' Hlt; cbn; try lia.
    + intros [= <-] Hn2 [= <-] Hst'. destruct (Hi j n2 Hn2) as (st2 & Hst2 & ? & ?). change (starts !! j = Some st') in Hst'. rewrite Hst2 in Hst'. injection Hst' as <-. lia.
    + apply Hij. lia.
Qed.

Section Init.
Context (garbage : PackedCounts) (g : Graph) (Hg : graph_ok g).

Lemma ctls_bounds d : 0 <= ctls g d < 2 ^ 29 /\ 0 <= datas g d < 2 ^ 29.
Proof.
  pose proof (go_small g Hg d). pose proof (in_edges_split g d). pose proof (cnt_nonneg (fun p : Z * Edge => IsControlEdge p.2) (in_edges g d)).
  pose proof (cnt_nonneg (fun p : Z * Edge => negb (IsControlEdge p.2)) (in_edges g d)).
  unfold ctls, num_control_edges, datas in *. fold (cnt (fun p : Z * Edge => IsControlEdge p.2) (in_edges g d)) in *. lia.
Qed.
Lemma initial_count_value d n : initial_count g d n = pend n (ctls g d) (datas g d) [].
Proof.
  unfold initial_count, pend. pose proof (ctls_bounds d). fold (ctls g d). destruct (IsMerge n).
  - rewrite Z.shiftl_mul_pow2 by lia. change (cnt a_ctl []) with 0. change (has_live []) with false. change (2 ^ 1) with 2. rewrite (s32_id (_ * 2)), s32_id by lia. lia.
  - rewrite in_edges_split. change (zlength []) with 0. lia.
Qed.
Lemma pend_bounds d n : 0 <= pend n (ctls g d) (datas g d) [] < 2 ^ 31.
Proof. unfold pend. pose proof (ctls_bounds d). change (cnt a_ctl []) with 0. change (has_live []) with false. change (zlength []) with 0. destruct (IsMerge n); lia. Qed.

Lemma wp_changes {A} (op : ST PendingCounts A) c m id a nc (Q : A -> PendingCounts -> Prop) : changes op c m id a nc ->
  (forall c', implements c' (<[id := nc]> m) -> num_nodes_ c' = num_nodes_ c -> Q a c') -> wp op c Q.
Proof. intros (c' & E & HI & Hn) HQ. unfold wp. rewrite E. by apply HQ. Qed.
Definition narrow (m : gmap Z NodeCount) : Prop := forall id nc, m !! id = Some nc -> wide nc = false.
Lemma clear_loop_spec ids : forall c m, implements c m -> narrow m -> Forall (fun id => 0 <= id < num_nodes_ c) ids ->
  wp (clear_loop garbage ids) c (fun _ c' => num_nodes_ c' = num_nodes_ c /\ exists m', implements c' m' /\ narrow m').
Proof.
  induction ids as [|id ids IH]; intros c m HI Hm Hids; cbn [clear_loop].
  - apply wp_ret. split; [done|]. by exists m.
  - apply Forall_cons in Hids as [Hid Hids]. wp_step. eapply wp_changes; [apply set_initial_count_spec; [exact HI|done|lia|lia|apply Hm]|].
    intros c' HI' Hn. eapply wp_mono; [eapply IH; [exact HI'| |by rewrite Hn]|].
    + intros j nc. rewrite lookup_insert. destruct (decide (id = j)); [by intros [= <-]|apply Hm].
    + intros _ c2 [Hn2 Hx]. split; [by rewrite Hn2|done].
Qed.
Definition initial_at (id : Z) (n : Node) : NodeCount := initial (initial_count g id n) (zlength (in_edges g id)).
Lemma initial_loop_spec nodes : forall c m, implements c m -> NoDup (map (fun p : nat * Node => Z.of_nat p.1) nodes) ->
  Forall (fun p : nat * Node => Z.of_nat p.1 < num_nodes_ c /\ forall nc, m !! Z.of_nat p.1 = Some nc -> wide nc = false) nodes ->
  wp (initial_loop garbage g nodes) c (fun _ c' => exists m', implements c' m' /\
    (forall i n, (i, n) ∈ nodes -> m' !! Z.of_nat i = Some (initial_at (Z.of_nat i) n)) /\
    forall d, d ∉ map (fun p : nat * Node => Z.of_nat p.1) nodes -> m' !! d = m !! d).
Proof.
  induction nodes as [|[id n] nodes IH]; intros c m HI Hnd Hall; cbn [initial_loop].
  - apply wp_ret. exists m. split; [done|]. split; [by intros ?? ?%elem_of_nil|done].
  - cbn [map] in Hnd. apply NoDup_cons in Hnd as [Hnew Hnd]. apply Forall_cons in Hall as [[Hid Hw] Hall]. cbn [fst] in *. wp_step.
    pose proof (pend_bounds (Z.of_nat id) n). pose proof (go_small g Hg (Z.of_nat id)).
    eapply wp_changes; [apply set_initial_count_spec; [exact HI|lia|rewrite initial_count_value; lia|unfold zlength in *; lia|exact Hw]|].
    fold (initial_at (Z.of_nat id) n). intros c' HI' Hn. eapply wp_mono; [eapply IH; [exact HI'|done|]|].
    + rewrite Hn. eapply Forall_impl; [apply Forall_and; split; [exact Hall|apply Forall_forall]|].
      * intros p Hp. assert (Z.of_nat p.1 <> Z.of_nat id); [|exact H1]. intros Heq. apply Hnew. rewrite <- Heq. apply list_elem_of_In, List.in_map_iff. exists p. split; [done|]. by apply list_elem_of_In.
      * intros p [[Hp1 Hp2] Hne]. split; [done|]. intros nc. rewrite lookup_insert_ne by congruence. apply Hp2.
    + intros _ c2 (m' & HI2 & Hin & Hout). exists m'. split; [done|]. split.
      * intros i n' [[= -> ->]|Hi]%elem_of_cons; [|by apply Hin]. by rewrite Hout, lookup_insert_eq.
      * intros d Hd. cbn [map] in Hd. apply not_elem_of_cons in Hd as [Hne Hd]. rewrite Hout, lookup_insert_ne by done. done.
Qed.

Lemma InitializePending_spec : exists c m, InitializePending garbage g = Done c /\ implements c m /\
  forall d n, g !!z d = Some n -> exists nc, m !! d = Some nc /\ node_inv n (ctls g d) (datas g d) [] nc.
Proof.
  unfold InitializePending.
  assert (Hwp : wp (clear_loop garbage (node_ids g) ;;; initial_loop garbage g (imap pair g)) (new_PendingCounts garbage (zlength g))
    (fun _ c => exists m, implements c m /\ forall i n, (i, n) ∈ imap pair g -> m !! Z.of_nat i = Some (initial_at (Z.of_nat i) n))).
  { wp_step. eapply wp_mono; [eapply clear_loop_spec; [apply new_implements; unfold zlength; lia|by intros ??|]|].
    - apply Forall_forall. intros d [n Hd]%node_ids_elem. by apply zlookup_range in Hd.
    - intros _ c [Hn (m & HI & Hm)]. eapply wp_mono; [eapply initial_loop_spec; [exact HI|rewrite imap_pair_fst; apply node_ids_nodup|]|].
      + rewrite Hn. apply Forall_forall. intros [i n] Hi%imap_pair_elem%lookup_lt_Some. cbn. unfold zlength. split; [lia|apply Hm].
      + intros _ c' (m' & HI' & Hin & _). by exists m'. }
  apply wp_Done in Hwp as ([] & c & E & m & HI & Hin). exists c, m. rewrite E. split; [done|]. split; [done|].
  intros d n [Hd Hn]%zlookup_at_nat. specialize (Hin (Z.to_nat d) n (proj2 (imap_pair_elem _ _ _) Hn)). rewrite Z2Nat.id in Hin by done.
  exists (initial_at d n). split; [done|]. unfold initial_at, node_inv, initial. cbn [phase deads max_deads]. rewrite initial_count_value, in_edges_split.
  split; [done|]. split; [done|]. change (cnt dead_arrival []) with 0. change (cnt missing_arrival []) with 0. destruct (IsMerge n); [split; [lia|done]|done].
Qed.
Lemma Initialize_spec : exists impl, Initialize garbage g = Done impl /\ impl_ok g impl.
Proof.
  unfold Initialize. destruct InitializePending_spec as (c & m & -> & HI & Hm). destruct (starts_loop g 0) as [starts total] eqn:Es. eexists. split; [done|].
  assert (Hs : Forall (fun n => 0 <= num_inputs n) g).
  { apply Forall_forall. intros n [i Hi]%list_elem_of_lookup. eapply (go_sizes g Hg (Z.of_nat i)). apply zlookup_at_nat. rewrite Nat2Z.id. split; [lia|done]. }
  pose proof (go_total g Hg) as Htot. fold (inputs_from g) in Htot.
  destruct (starts_loop_spec g 0 Hs ltac:(lia) ltac:(lia)) as (Htotal & Hst & Hij). rewrite Es in Htotal, Hst, Hij. cbn [fst snd] in *.
  split; cbn [graph_ frame_local_ids_ input_start total_inputs root_nodes_ pending_counts]; [done| | | |done|by exists m].
  - intros d [n [Hd Hn]%zlookup_at_nat]. apply zlookup_at_nat. split; [done|]. unfold node_ids. change (map Z.of_nat (seq 0 (length g))) with (Z.of_nat <$> seq 0 (length g)).
    rewrite list_lookup_fmap. rewrite lookup_seq_lt by (by apply lookup_lt_Some in Hn). cbn. f_equal. lia.
  - intros d n [Hd Hn]%zlookup_at_nat. destruct (Hst _ _ Hn) as (st & Hs1 & Hs2 & Hs3). exists st. split; [by apply zlookup_at_nat|lia].
  - intros d d' n n' st st' [Hd Hn]%zlookup_at_nat [Hd' Hn']%zlookup_at_nat Hne [_ Hs1]%zlookup_at_nat [_ Hs2]%zlookup_at_nat.
    destruct (decide (d < d')); [left; apply (Hij (Z.to_nat d) (Z.to_nat d') n n'); try done; lia|right; apply (Hij (Z.to_nat d') (Z.to_nat d) n' n); try done; lia].
Qed.
End Init.

(** ** The state of a run *)

Section Run.
Context {Val : Type} (SummarizeNodeDef : Node -> list Z) (kEmptyTensor : Val) (g : Graph) (Hg : graph_ok g) (impl : ExecutorImpl) (Himpl : impl_ok g impl).
Implicit Types (x : ExecutorState Val) (h : list (NodeRun Val)).

Definition run_id (r : NodeRun Val) : Z := node (run_node r).
(** What the processed nodes delivered. *)
Definition run_deliveries r : list (Delivery Val) :=
  match g !!z run_id r with Some n => deliver (run_id r) (is_dead (run_node r)) (run_outputs r) (out_edges n) | None => [] end.
Definition deliveries h : list (Delivery Val) := concat (map run_deliveries h).
(** The nodes that became ready: not yet run, made ready by a node that has not
    reached [NodeDone], processed, or failed. *)
Definition readied x : list TaggedNode := concat (map snd (finishing x)).
Definition touched x : list TaggedNode := scheduled x ++ readied x ++ map run_node (history x) ++ failed x.
Definition processed x : list Z := map run_id (history x) ++ map node (failed x).
Definition work x : Z := zlength (scheduled x) + zlength (readied x) + zlength (failed x).
Definition errors x : Prop := ok (status_ x) = false \/ Exists (fun p => ok p.1 = false) (finishing x).

(** A run of a node saw what its edges had delivered by then. *)
Definition run_saw h r : Prop := forall n, g !!z run_id r = Some n ->
  fires_at g (deliveries h) (run_id r) n = true /\ is_dead (run_node r) = flag_at (deliveries h) (run_id r) n /\
  (is_dead (run_node r) = false ->
   run_inputs r = map (fun i => input_of kEmptyTensor n (slot n (deliveries h) (run_id r) i)) (seqZ 0 (num_inputs n))).
Record run_ok x : Prop := {
  ro_pushed : pushed_ok g (deliveries (history x)) (touched x);
  ro_frame : match root_frame x with
    | Some it => iter_ok g impl it (deliveries (history x)) (processed x) /\ outstanding_ops it = work x /\ 0 < work x
    | None => work x = 0
    end;
  ro_outputs : Forall (fun r => Forall (fun e => entry_ok e = true) (run_outputs r)) (history x);
  ro_saw h r h' : history x = h ++ r :: h' -> run_saw h r;
  ro_ops : num_outstanding_ops_ x = zlength (scheduled x) + zlength (finishing x);
  ro_done : if num_outstanding_ops_ x =? 0 then exists sync, dones x = [Finish (status_ x) sync] else dones x = [];
  ro_aborts : aborts x = if ok (status_ x) then [] else [status_ x];
  ro_finishing : Forall (fun p => ok p.1 = false -> p.2 = []) (finishing x);
  ro_failed : failed x <> [] <-> errors x
}.

(** *** The deliveries are legal *)

Definition edges_at (d : Z) : list (Z * Edge) := match g !!z d with Some n => map (pair d) (out_edges n) | None => [] end.
Lemma all_edges_at : all_edges g = concat (map edges_at (node_ids g)).
Proof.
  unfold all_edges. rewrite <- imap_pair_fst, List.map_map. f_equal. apply List.map_ext_in. intros [i n] Hi%list_elem_of_In%imap_pair_elem.
  unfold edges_of, edges_at. cbn [fst snd]. rewrite (proj2 (zlookup_at_nat g _ n)); [done|]. rewrite Nat2Z.id. split; [lia|done].
Qed.
Lemma run_deliveries_id r : map d_id (run_deliveries r) = edges_at (run_id r).
Proof. unfold run_deliveries, edges_at. destruct (g !!z run_id r); [|done]. unfold deliver. by rewrite List.map_map. Qed.
Lemma deliveries_id h : map d_id (deliveries h) = concat (map edges_at (map run_id h)).
Proof. unfold deliveries. rewrite concat_map, !List.map_map. f_equal. apply List.map_ext, run_deliveries_id. Qed.
Lemma delivery_coherent s dead outputs e : Forall (fun e : Entry Val => entry_ok e = true) outputs -> coherent (delivery s dead outputs e).
Proof.
  intros Ho. split; [done|]. unfold delivery. cbn. unfold output_value. destruct (outputs !!z src_output e) as [en|] eqn:E; [|done]. cbn. split; [done|].
  apply zlookup_at_nat in E as [_ E]. by apply (proj1 (Forall_forall _ _) Ho), list_elem_of_lookup_2 with (i := Z.to_nat (src_output e)).
Qed.
Lemma deliveries_legal h : NoDup (map run_id h) -> Forall (fun r => Forall (fun e => entry_ok e = true) (run_outputs r)) h -> legal g (deliveries h).
Proof.
  intros Hnd Ho. split.
  - rewrite deliveries_id, all_edges_at. clear -Hnd. assert (Hsub : List.filter (fun d => bool_decide (is_Some (g !!z d))) (map run_id h) ⊆+ node_ids g).
    { apply NoDup_submseteq; [by apply NoDup_ListNoDup, List.NoDup_filter, NoDup_ListNoDup|]. intros d [_ Hd]%list_elem_of_In%List.filter_In. apply node_ids_elem. by apply bool_decide_eq_true in Hd. }
    etransitivity; [|by apply concat_map_submseteq]. apply Permutation_submseteq. clear. induction h as [|p h IH]; cbn; [done|].
    unfold edges_at at 1. destruct (g !!z run_id p) eqn:E.
    + rewrite bool_decide_eq_true_2 by done. cbn. unfold edges_at at 2. rewrite E. by rewrite IH.
    + rewrite bool_decide_eq_false_2 by (intros [? ?]; done). done.
  - unfold deliveries. apply Forall_concat, Forall_map. eapply Forall_impl; [exact Ho|]. intros r Hr. unfold run_deliveries. destruct (g !!z run_id r); [|done].
    unfold deliver. apply Forall_map, Forall_forall. intros e _. by apply delivery_coherent.
Qed.
Lemma deliveries_snoc h t inputs outputs n : g !!z node t = Some n ->
  deliveries (h ++ [mkRun t inputs outputs]) = deliveries h ++ deliver (node t) (is_dead t) outputs (out_edges n).
Proof. intros Hn. unfold deliveries. rewrite map_app, concat_app. cbn. unfold run_deliveries, run_id. cbn. by rewrite Hn, app_nil_r. Qed.
Lemma deliveries_elem h y : y ∈ deliveries h -> exists r, r ∈ h /\ run_id r = d_src y /\ d_entry y = default no_entry (run_outputs r !!z src_output (d_edge y)).
Proof.
  intros Hy. apply list_elem_of_In, List.in_concat in Hy as (l & Hl & Hy). apply List.in_map_iff in Hl as (r & <- & Hr). exists r. split; [by apply list_elem_of_In|].
  unfold run_deliveries in Hy. destruct (g !!z run_id r) as [n|]; [|done]. unfold deliver in Hy. by apply List.in_map_iff in Hy as (e & <- & _).
Qed.

(** *** Processing a node *)

Lemma touched_nodup x : pushed_ok g (deliveries (history x)) (touched x) -> NoDup (map run_id (history x)).
Proof.
  intros Hp. pose proof (po_nodup _ _ _ Hp) as Hnd. unfold touched in Hnd. rewrite !map_app in Hnd.
  apply NoDup_app in Hnd as (_ & _ & Hnd). apply NoDup_app in Hnd as (_ & _ & Hnd). apply NoDup_app in Hnd as (Hnd & _ & _).
  by rewrite List.map_map in Hnd.
Qed.
Lemma scheduled_new x t l1 l2 : NoDup (map node (touched x)) -> scheduled x = l1 ++ t :: l2 -> node t ∉ processed x.
Proof.
  intros Hnd Hs. assert (HP : touched x ≡ₚ t :: (map run_node (history x) ++ failed x) ++ l1 ++ l2 ++ readied x) by (unfold touched; rewrite Hs; solve_Permutation).
  rewrite HP in Hnd. cbn [map] in Hnd. rewrite map_app in Hnd. apply NoDup_cons in Hnd as [Hnd _]. unfold processed. rewrite map_app, List.map_map in Hnd. set_solver.
Qed.
Lemma zlength_replicate {A} n (a : A) : 0 <= n -> zlength (replicate (Z.to_nat n) a) = n.
Proof. unfold zlength. rewrite length_replicate. lia. Qed.
Lemma ProcessOutputs_spec n ks released s outputs : zlength released = num_outputs n -> ProcessOutputs (Val := Val) SummarizeNodeDef n ks released = (s, outputs) ->
  zlength outputs = num_outputs n /\ Forall (fun e => entry_ok e = true) outputs.
Proof.
  intros Hr. assert (H0 : 0 <= num_outputs n) by (unfold zlength in Hr; lia). unfold ProcessOutputs. destruct (ok ks); cbn [negb]; intros [= _ <-].
  - split; [unfold zlength in *; by rewrite length_map|]. apply Forall_map, Forall_forall. by intros [v|] _.
  - split; [by apply zlength_replicate|]. by apply Forall_replicate.
Qed.
Lemma PropagateOutputs_spec n t (outputs : list (Entry Val)) it D ps : iter_ok g impl it D ps -> g !!z node t = Some n -> legal g (D ++ deliver (node t) (is_dead t) outputs (out_edges n)) ->
  zlength outputs = num_outputs n -> let r := newlies g D (deliver (node t) (is_dead t) outputs (out_edges n)) in let ops := outstanding_ops it + zlength r - 1 in
  exists frame, PropagateOutputs impl n t outputs it = Done (frame, r) /\ match frame with
    | Some it' => iter_ok g impl it' (D ++ deliver (node t) (is_dead t) outputs (out_edges n)) ps /\ outstanding_ops it' = ops /\ ops <> 0
    | None => ops = 0
    end.
Proof.
  intros Hit Hn Hl Hout r ops. unfold PropagateOutputs, ActivateNodes.
  pose proof (activate_edges_spec g Hg impl Himpl n (node t) (is_dead t) outputs (out_edges n) (mkAct it []) D ps Hit Hn Hl Hout) as Hwp.
  apply wp_Done in Hwp as ([] & a & E & Hit' & Er & Eo). rewrite E. cbn [ready iter_state app] in Er, Eo. fold r in Er, Eo. rewrite Er.
  replace (outstanding_ops (iter_state a) - 1) with ops by (unfold ops; lia). rewrite (it_frames _ _ _ _ _ Hit'), andb_true_r. eexists. split; [done|].
  destruct (Z.eqb_spec ops 0) as [Hz|Hz]; [done|]. split; [|done]. destruct Hit' as [Hc Hi Hs Hf]. by split.
Qed.
Lemma sched_split {A} (l1 l2 : list A) t : zlength (l1 ++ t :: l2) = zlength (l1 ++ l2) + 1.
Proof. rewrite !zlength_app, zlength_cons. lia. Qed.

(** The lists of the nodes before and after a step. *)
Lemma touched_process x t l1 l2 s r inputs outputs frame : scheduled x = l1 ++ t :: l2 ->
  touched (mkState frame (l1 ++ l2) (finishing x ++ [(s, r)]) (num_outstanding_ops_ x) (status_ x) (aborts x) (dones x) (history x ++ [mkRun t inputs outputs]) (failed x))
    ≡ₚ touched x ++ r.
Proof.
  intros Hs. unfold touched, readied. cbn [scheduled finishing history failed]. rewrite Hs, !map_app, concat_app. cbn. rewrite app_nil_r. solve_Permutation.
Qed.
Lemma touched_fails x t l1 l2 s frame : scheduled x = l1 ++ t :: l2 ->
  touched (mkState frame (l1 ++ l2) (finishing x ++ [(s, [])]) (num_outstanding_ops_ x) (status_ x) (aborts x) (dones x) (history x) (failed x ++ [t])) ≡ₚ touched x.
Proof.
  intros Hs. unfold touched, readied. cbn [scheduled finishing history failed]. rewrite Hs, !map_app, concat_app. cbn. rewrite !app_nil_r. solve_Permutation.
Qed.
Lemma work_process x t l1 l2 s r inputs outputs frame : scheduled x = l1 ++ t :: l2 ->
  work (mkState frame (l1 ++ l2) (finishing x ++ [(s, r)]) (num_outstanding_ops_ x) (status_ x) (aborts x) (dones x) (history x ++ [mkRun t inputs outputs]) (failed x))
    = work x - 1 + zlength r.
Proof.
  intros Hs. unfold work, readied. cbn [scheduled finishing failed]. rewrite Hs, sched_split, !map_app, concat_app. cbn [map concat fst snd]. rewrite app_nil_r, !zlength_app. lia.
Qed.
Lemma work_fails x t l1 l2 s frame : scheduled x = l1 ++ t :: l2 ->
  work (mkState frame (l1 ++ l2) (finishing x ++ [(s, [])]) (num_outstanding_ops_ x) (status_ x) (aborts x) (dones x) (history x) (failed x ++ [t])) = work x.
Proof.
  intros Hs. unfold work, readied. cbn [scheduled finishing failed]. rewrite Hs, (sched_split l1), !map_app, concat_app. cbn [map concat fst snd]. rewrite !app_nil_r, !zlength_app. change (zlength [t]) with 1. lia.
Qed.

Lemma run_nodup x t l1 l2 inputs outputs : NoDup (map node (touched x)) -> scheduled x = l1 ++ t :: l2 -> NoDup (map run_id (history x ++ [mkRun t inputs outputs])).
Proof.
  intros Hnd Hs. assert (HP : touched x ≡ₚ (map run_node (history x) ++ [t]) ++ l1 ++ l2 ++ readied x ++ failed x) by (unfold touched; rewrite Hs; solve_Permutation).
  rewrite HP, map_app in Hnd. apply NoDup_app in Hnd as [Hnd _]. rewrite map_app, List.map_map in Hnd. by rewrite map_app.
Qed.
Lemma RunNode_spec (it : IterationState Val) D ps t n st s kernel : iter_ok g impl it D ps -> legal g D -> g !!z node t = Some n -> node t <> 1 -> node t ∉ ps -> input_start impl !!z node t = Some st ->
  fires_at g D (node t) n = true -> is_dead t = flag_at D (node t) n -> (forall inputs dead, zlength (kernel inputs dead).2 = num_outputs n) ->
  exists s' inputs outputs l, RunNode SummarizeNodeDef kEmptyTensor n t st s kernel it = Done (s', inputs, outputs, mkIter l (outstanding_ops it) (outstanding_frame_count it) (counts it)) /\
    zlength outputs = num_outputs n /\ Forall (fun e => entry_ok e = true) outputs /\
    (is_dead t = false -> inputs = map (fun i => input_of kEmptyTensor n (slot n D (node t) i)) (seqZ 0 (num_inputs n))) /\
    zlength l = zlength (input_tensors it) /\ forall j, ~ inside st (num_inputs n) j -> l !!z j = input_tensors it !!z j.
Proof.
  intros Hit Hl Hn H1 Hps Hst Hf Hdead Hk. unfold RunNode. pose proof (proj2 (go_sizes g Hg _ n Hn)) as H0. destruct (is_dead t && negb (IsTransferNode n)) eqn:Ed.
  - eexists _, _, _, (input_tensors it). split; [by destruct it|]. split; [by apply zlength_replicate|]. split; [by apply Forall_replicate|].
    apply andb_true_iff in Ed as [Ed _]. by rewrite Ed.
  - rewrite Hdead in Ed. destruct (PrepareInputs_spec kEmptyTensor g Hg impl it D ps (node t) n st Hit Hl Hn H1 Hps Hst Hf Ed) as (dead & l & -> & Hlen & Hsame).
    set (inputs := map _ _). pose proof (Hk inputs dead) as Hr. destruct (kernel inputs dead) as [ks released]. cbn [snd] in Hr.
    destruct (ProcessOutputs SummarizeNodeDef n ks released) as [s' outputs] eqn:Eo. destruct (ProcessOutputs_spec _ _ _ _ _ Hr Eo) as [Hlo Hoo].
    by exists s', inputs, outputs, l.
Qed.
(** The iteration after the inputs are cleared. *)
Lemma cleared_iter_ok (it : IterationState Val) D ps ps' d n st l : iter_ok g impl it D ps -> g !!z d = Some n -> input_start impl !!z d = Some st -> (forall j, j ∉ ps' -> (j ∉ ps) /\ j <> d) ->
  zlength l = zlength (input_tensors it) -> (forall j, ~ inside st (num_inputs n) j -> l !!z j = input_tensors it !!z j) ->
  iter_ok g impl (clear_node_inputs n st (mkIter l (outstanding_ops it) (outstanding_frame_count it) (counts it))) D ps'.
Proof.
  intros Hit Hn Hst Hps Hlen Hsame. unfold clear_node_inputs. cbn [input_tensors outstanding_ops outstanding_frame_count counts].
  destruct (clear_inputs_spec (Z.to_nat (num_inputs n)) st l) as [Hl2 Hs2]. rewrite Z2Nat.id in Hs2 by apply (go_sizes g Hg _ n Hn).
  eapply iter_ok_change; try done; [by rewrite Hl2|]. intros j Hj. rewrite Hs2 by done. by apply Hsame.
Qed.
Lemma process_ok x t l1 l2 n s kernel : run_ok x -> scheduled x = l1 ++ t :: l2 -> g !!z node t = Some n -> (forall inputs dead, zlength (kernel inputs dead).2 = num_outputs n) ->
  ok s = true \/ failed x <> [] -> exists x', Process impl SummarizeNodeDef kEmptyTensor t s kernel (l1 ++ l2) x = Done x' /\ run_ok x' /\
    zlength (history x') + zlength (failed x') = zlength (history x) + zlength (failed x) + 1 /\ zlength (finishing x') = zlength (finishing x) + 1.
Proof.
  intros [Hp Hf Hout Hsaw Ho Hd Ha Hfin Hfa] Hs Hn Hk Hst.
  assert (Hw : work x = zlength (l1 ++ l2) + 1 + zlength (readied x) + zlength (failed x)) by (unfold work; rewrite Hs, sched_split; lia).
  destruct (root_frame x) as [it|] eqn:Eit; [|unfold zlength in Hw; lia]. destruct Hf as (Hit & Hops & Hpos).
  destruct (io_start _ _ Himpl _ _ Hn) as (st & Hstart & _). unfold Process. rewrite Eit, (io_graph _ _ Himpl), Hn, Hstart.
  pose proof (deliveries_legal _ (touched_nodup x Hp) Hout) as HlD. pose proof (scheduled_new x t l1 l2 (po_nodup _ _ _ Hp) Hs) as Hnew.
  destruct (po_fired _ _ _ Hp t) as (n' & Hn' & Ht1 & Hfires & Hdead); [unfold touched; rewrite Hs; set_solver|]. rewrite Hn in Hn'. injection Hn' as <-.
  destruct (RunNode_spec it _ _ t n st s kernel Hit HlD Hn Ht1 Hnew Hstart Hfires Hdead Hk) as (s' & inputs & outputs & l & -> & Hlen & Hoo & Hin & Hl & Hsame).
  destruct (ok s') eqn:Es.
  - pose proof (run_nodup x t l1 l2 inputs outputs (po_nodup _ _ _ Hp) Hs) as Hnd. set (x1 := history x ++ [mkRun t inputs outputs]) in *.
    assert (Hout' : Forall (fun r => Forall (fun e => entry_ok e = true) (run_outputs r)) x1) by (apply Forall_app; split; [done|by apply Forall_singleton]).
    pose proof (deliveries_legal _ Hnd Hout') as Hlegal. unfold x1 in Hlegal. rewrite (deliveries_snoc _ _ _ _ _ Hn) in Hlegal.
    assert (Hit' : iter_ok g impl (clear_node_inputs n st (mkIter l (outstanding_ops it) (outstanding_frame_count it) (counts it))) (deliveries (history x)) (map run_id x1 ++ map node (failed x))).
    { eapply cleared_iter_ok; try done. unfold x1, processed. rewrite map_app. intros j Hj. cbn in Hj. unfold run_id at 2 in Hj. cbn in Hj. set_solver. }
    destruct (PropagateOutputs_spec n t outputs _ _ _ Hit' Hn Hlegal Hlen) as (frame & -> & Hframe).
    pose proof (pushed_ok_newlies g _ _ _ Hlegal Hp) as Hp'. set (r := newlies g _ _) in *.
    eexists. split; [done|]. split; [|unfold x1; cbn [history failed finishing]; rewrite !zlength_app; change (zlength [_]) with 1; lia].
    unfold x1 in *. split; cbn [root_frame num_outstanding_ops_ dones status_ aborts history].
    + rewrite (deliveries_snoc _ _ _ _ _ Hn). eapply pushed_ok_perm; [|exact Hp']. symmetry. by apply touched_process.
    + rewrite (work_process x t l1 l2 s' r inputs outputs frame Hs), (deliveries_snoc _ _ _ _ _ Hn). cbn [clear_node_inputs outstanding_ops] in Hframe. rewrite Hops in Hframe.
      assert (0 <= zlength r) by (unfold zlength; lia). destruct frame as [it'|]; [|lia]. destruct Hframe as (? & ? & ?). split; [done|lia].
    + done.
    + intros h r0 h' Heq. destruct (snoc_split _ _ _ _ _ Heq) as [(-> & -> & ->)|(h2 & Hh & Hhx)]; [|by eapply Hsaw].
      unfold run_saw, run_id. cbn. rewrite Hn. intros ? [= <-]. split; [done|]. split; [done|exact Hin].
    + cbn [scheduled finishing]. rewrite Ho, Hs, sched_split, (zlength_app (finishing x)). change (zlength [_]) with 1. lia.
    + done.
    + done.
    + cbn [finishing]. apply Forall_app. split; [done|]. apply Forall_singleton. cbn. congruence.
    + cbn [failed]. rewrite Hfa. unfold errors. cbn [status_ finishing]. rewrite Exists_app, Exists_cons, Exists_nil. cbn. rewrite Es. naive_solver.
  - eexists. split; [done|]. split; [|cbn [history failed finishing]; rewrite !zlength_app; change (zlength [_]) with 1; lia].
    split; cbn [root_frame num_outstanding_ops_ dones status_ aborts history].
    + eapply pushed_ok_perm; [|exact Hp]. symmetry. by apply touched_fails.
    + rewrite (work_fails x t l1 l2 s' _ Hs). split; [|done]. eapply cleared_iter_ok; try done. unfold processed. cbn [history failed]. rewrite map_app. intros j Hj. cbn in Hj. set_solver.
    + done.
    + done.
    + cbn [scheduled finishing]. rewrite Ho, Hs, sched_split, (zlength_app (finishing x)). change (zlength [_]) with 1. lia.
    + done.
    + done.
    + cbn [finishing]. apply Forall_app. split; [done|]. by apply Forall_singleton.
    + cbn [failed]. unfold errors. cbn [status_ finishing]. rewrite Exists_app, Exists_cons, Exists_nil. split; [by right; right; left|]. intros _ Hnil%app_eq_nil. naive_solver.
Qed.

(** *** The end of a node *)

Lemma node_done_ok x sync s r l1 l2 : run_ok x -> finishing x = l1 ++ (s, r) :: l2 -> run_ok (NodeDone sync s r (l1 ++ l2) x).
Proof.
  intros [Hp Hf Hout Hsaw Ho Hd Ha Hfin Hfa] Hx. rewrite Hx in Hfin. apply Forall_app in Hfin as [Hf1 [Hr Hf2]%Forall_cons]. cbn [fst snd] in Hr.
  assert (Hs : scheduled (NodeDone sync s r (l1 ++ l2) x) = scheduled x ++ r).
  { unfold NodeDone. cbn [scheduled]. destruct (ok s); [done|]. by rewrite (Hr eq_refl), app_nil_r. }
  assert (Hpos : 1 <= num_outstanding_ops_ x) by (rewrite Ho, Hx, sched_split; unfold zlength; lia).
  rewrite (proj2 (Z.eqb_neq (num_outstanding_ops_ x) 0)) in Hd by lia.
  assert (Hstop : (bool_decide (r = []) || negb (ok s)) = bool_decide (r = [])).
  { destruct (ok s); [by rewrite orb_false_r|]. rewrite (Hr eq_refl). done. }
  assert (Hread : concat (map snd (l1 ++ (s, r) :: l2)) ≡ₚ r ++ concat (map snd (l1 ++ l2))).
  { rewrite !map_app, !concat_app. cbn. solve_Permutation. }
  split.
  - eapply pushed_ok_perm; [|exact Hp]. unfold touched, readied. rewrite Hs, Hx, Hread. cbn [NodeDone finishing history failed]. solve_Permutation.
  - replace (work (NodeDone sync s r (l1 ++ l2) x)) with (work x); [done|]. unfold work, readied. rewrite Hs, Hx, (zlength_app (scheduled x)). cbn [NodeDone finishing failed].
    assert (zlength (concat (map snd (l1 ++ (s, r) :: l2))) = zlength r + zlength (concat (map snd (l1 ++ l2)))) by (rewrite <- zlength_app; unfold zlength; by rewrite Hread). lia.
  - done.
  - done.
  - rewrite Hs, zlength_app. cbn [NodeDone num_outstanding_ops_ finishing]. rewrite Hstop, Ho, Hx, sched_split. case_bool_decide as Hnil; [rewrite Hnil; change (zlength []) with 0|]; lia.
  - cbn [NodeDone num_outstanding_ops_ dones status_]. rewrite Hstop, Hd. case_bool_decide as Hnil; cbn [andb app].
    + destruct (Z.eqb_spec (num_outstanding_ops_ x) 1) as [->|H1]; [by exists sync|]. by rewrite (proj2 (Z.eqb_neq _ _)) by lia.
    + rewrite (proj2 (Z.eqb_neq _ _)); [done|]. destruct r; [done|]. rewrite zlength_cons. unfold zlength. lia.
  - cbn [NodeDone aborts status_]. rewrite Ha. destruct (ok (status_ x)) eqn:E1, (ok s) eqn:E2; cbn; by rewrite ?E1, ?E2.
  - cbn [NodeDone finishing]. by apply Forall_app.
  - cbn [NodeDone failed]. rewrite Hfa. unfold errors. rewrite Hx. cbn [NodeDone finishing status_]. rewrite !Exists_app, Exists_cons. cbn [fst].
    destruct (ok (status_ x)) eqn:E1, (ok s) eqn:E2; cbn; rewrite ?E1, ?E2; naive_solver.
Qed.

(** *** The first state *)

Lemma roots_pushed : pushed_ok g (deliveries []) (map (fun id => mkTagged id false) (root_ids g)).
Proof.
  assert (Hroot : forall d n, g !!z d = Some n -> fires n (ctls g d) (datas g d) [] = (zlength (in_edges g d) =? 0)).
  { intros d n Hn. unfold fires. rewrite in_edges_split. change (cnt a_ctl []) with 0. change (cnt dead_arrival []) with 0. change (zlength []) with 0. change (has_live []) with false.
    destruct (ctls_bounds g Hg d) as [[? _] [? _]]. destruct (IsMerge n); cbn [orb]; repeat match goal with |- context [?x =? ?y] => destruct (Z.eqb_spec x y) end; cbn; try done; lia. }
  assert (Hne : (zlength (in_edges g 1) =? 0) = false) by (apply Z.eqb_neq; pose proof (go_sink g Hg); destruct (in_edges g 1); [done|rewrite zlength_cons; unfold zlength; lia]).
  split.
  - rewrite List.map_map. cbn. rewrite List.map_id. unfold root_ids. apply NoDup_ListNoDup, List.NoDup_filter, NoDup_ListNoDup, node_ids_nodup.
  - intros t Ht. apply list_elem_of_In, List.in_map_iff in Ht as (id & <- & [Hid Hz]%List.filter_In). apply list_elem_of_In, node_ids_elem in Hid as [n Hn].
    exists n. cbn [node is_dead]. split; [done|]. split; [intros ->; congruence|]. split; [unfold fires_at; by rewrite Hroot|].
    unfold flag_at. change (arrivals (deliveries []) id) with (@nil Arrival). unfold dead_flag. destruct (IsMerge n) eqn:Em; [|done].
    pose proof (go_merge g Hg id n Hn Em) as Hm. apply Z.eqb_eq in Hz. destruct (in_edges g id); [done|]. rewrite zlength_cons in Hz. unfold zlength in Hz. lia.
  - intros d n Hn Hd Hf. rewrite List.map_map. cbn. rewrite List.map_id. apply list_elem_of_In, List.filter_In. split; [by apply list_elem_of_In, node_ids_elem; exists n|].
    unfold fires_at in Hf. by rewrite Hroot in Hf.
Qed.
Lemma RunAsync_ok garbage : exists x0 : ExecutorState Val, RunAsync impl garbage OK = Done x0 /\ run_ok x0 /\ history x0 = [] /\ failed x0 = [] /\ finishing x0 = [].
Proof.
  destruct (io_counts _ _ Himpl) as (m & HI & Hm). unfold RunAsync, new_IterationState.
  assert (Hn0 : 0 <= num_nodes_ (pending_counts impl)) by (rewrite <- (im_len _ _ HI); unfold zlength; lia).
  destruct (InitializeFrom_spec _ _ _ _ (new_implements garbage _ Hn0) HI eq_refl) as (c & -> & HI' & _).
  rewrite (io_roots _ _ Himpl). cbn [ok OK state_ negb]. set (roots := map (fun id => mkTagged id false) (root_ids g)).
  assert (Hr0 : 0 ∈ root_ids g).
  { apply list_elem_of_In, List.filter_In. destruct (go_source g Hg) as [H1 H2]. split; [by apply list_elem_of_In, node_ids_elem|]. by rewrite H2. }
  assert (Hne : roots <> []) by (unfold roots; destruct (root_ids g); [by apply elem_of_nil in Hr0|done]).
  rewrite bool_decide_eq_false_2 by done. assert (Hpos : 0 < zlength roots) by (destruct roots; [done|]; rewrite zlength_cons; unfold zlength; lia).
  eexists. split; [done|]. split; [|done]. assert (Htot : 0 <= total_inputs impl).
  { destruct (proj1 (go_source g Hg)) as [n Hn]. destruct (io_start _ _ Himpl _ _ Hn) as (st & _ & ? & ?). pose proof (proj1 (go_sizes g Hg _ _ Hn)). lia. }
  split; cbn [root_frame num_outstanding_ops_ dones status_ aborts history finishing failed scheduled].
  - unfold touched, readied. cbn [scheduled finishing history failed map concat]. rewrite !app_nil_r. apply roots_pushed.
  - split; [|split; [unfold work; cbn; rewrite !Z.add_0_r; done|unfold work; cbn; change (zlength []) with 0; lia]].
    split; cbn [counts input_tensors outstanding_frame_count]; [|by apply zlength_replicate| |done].
    + exists m. split; [done|]. intros d n Hn _. by apply Hm.
    + intros d n st i Hn _ _ Hst Hi. destruct (io_start _ _ Himpl _ _ Hn) as (st' & Hst' & ? & ?). rewrite Hst in Hst'. injection Hst' as <-.
      apply zlookup_at_nat. split; [lia|]. apply lookup_replicate_2. lia.
  - done.
  - by intros [|??] ? ?.
  - change (zlength []) with 0. lia.
  - by rewrite (proj2 (Z.eqb_neq _ _)) by lia.
  - done.
  - done.
  - split; [done|]. unfold errors. cbn. intros [?|?%Exists_nil]; done.
Qed.

(** *** Runs *)

(** Each step takes one away. *)
Definition remaining x : Z := 2 * (zlength g - zlength (history x) - zlength (failed x)) + zlength (finishing x).
Lemma step_ok x x' : run_ok x -> step impl SummarizeNodeDef kEmptyTensor x x' -> run_ok x' /\ remaining x' = remaining x - 1.
Proof.
  intros Hx [t l1 l2 n s kernel y Hs Hn Hr Hst HP|sync s r l1 l2 Hf].
  - rewrite (io_graph _ _ Himpl) in Hn. destruct (process_ok x t l1 l2 n s kernel Hx Hs Hn Hr Hst) as (y' & HP' & Hy & H1 & H2).
    rewrite HP' in HP. injection HP as <-. split; [done|]. unfold remaining. lia.
  - split; [by apply node_done_ok|]. unfold remaining. cbn [NodeDone history failed finishing]. rewrite Hf, sched_split. lia.
Qed.
Lemma steps_ok k x x' : run_ok x -> nsteps (step impl SummarizeNodeDef kEmptyTensor) k x x' -> run_ok x' /\ remaining x' = remaining x - Z.of_nat k.
Proof.
  intros Hx Hk. revert Hx. induction Hk as [x|k x y z Hxy _ IH]; intros Hx; [split; [done|lia]|].
  destruct (step_ok x y Hx Hxy) as [Hy Hm]. destruct (IH Hy) as [Hz Hm']. split; [done|lia].
Qed.
Lemma remaining_nonneg x : run_ok x -> 0 <= remaining x.
Proof.
  intros Hx. assert (Hsub : map node (touched x) ⊆+ node_ids g).
  { apply NoDup_submseteq; [apply (po_nodup _ _ _ (ro_pushed x Hx))|]. intros d Hd. apply list_elem_of_In, List.in_map_iff in Hd as (t & <- & Ht).
    apply list_elem_of_In in Ht. destruct (po_fired _ _ _ (ro_pushed x Hx) t Ht) as (n & Hn & _). apply node_ids_elem. by exists n. }
  apply submseteq_length in Hsub. unfold touched, node_ids in Hsub. rewrite !length_map, !length_app, length_map, List.length_seq in Hsub. unfold remaining, zlength. lia.
Qed.
Lemma step_exists x t : run_ok x -> t ∈ scheduled x -> exists x', step impl SummarizeNodeDef kEmptyTensor x x'.
Proof.
  intros Hx Ht. destruct (po_fired _ _ _ (ro_pushed x Hx) t) as (n & Hn & _); [unfold touched; set_solver|].
  apply list_elem_of_split in Ht as (l1 & l2 & Hs). set (kernel := fun (_ : list (option Val)) (_ : bool) => (OK, replicate (Z.to_nat (num_outputs n)) (@None Val))).
  assert (Hk : forall inputs dead, zlength (kernel inputs dead).2 = num_outputs n) by (intros; apply zlength_replicate, (go_sizes g Hg _ _ Hn)).
  destruct (process_ok x t l1 l2 n OK kernel Hx Hs Hn Hk (or_introl eq_refl)) as (x' & HP & _). exists x'.
  apply (step_process impl SummarizeNodeDef kEmptyTensor x t l1 l2 n OK kernel); [exact Hs|by rewrite (io_graph _ _ Himpl)|exact Hk|by left|exact HP].
Qed.

(** *** The end of a run *)

Lemma fires_complete n c d A : cnt a_ctl A = c -> cnt data_arrival A = d -> fires n c d A = true.
Proof.
  intros Hc Hd. unfold fires. destruct (IsMerge n).
  - rewrite Hc, Z.eqb_refl. cbn. rewrite has_live_cnt. destruct (Z.ltb_spec 0 (cnt live_arrival A)) as [|Hz]; [done|]. cbn.
    rewrite data_arrival_split in Hd. pose proof (cnt_nonneg live_arrival A). apply Z.eqb_eq. lia.
  - rewrite arrivals_split, Hc, Hd. apply Z.eqb_refl.
Qed.
(** When all the sources of a node were processed, its inputs have arrived. *)
Lemma complete_edges (hs : list Z) d : NoDup hs -> (forall s, s ∈ hs -> is_Some (g !!z s)) -> (forall s e, (s, e) ∈ in_edges g d -> s ∈ hs) ->
  List.filter (fun p => dst p.2 =? d) (concat (map edges_at hs)) ≡ₚ in_edges g d.
Proof.
  intros Hnd Hin Hall. assert (Hsub : hs ⊆+ node_ids g) by (apply NoDup_submseteq; [done|]; intros s Hs; by apply node_ids_elem, Hin).
  apply submseteq_Permutation in Hsub as [rest Hrest]. unfold in_edges in *. rewrite all_edges_at in *.
  assert (HP : concat (map edges_at (node_ids g)) ≡ₚ concat (map edges_at hs) ++ concat (map edges_at rest)).
  { rewrite (concat_perm _ (map edges_at (hs ++ rest))) by (by rewrite Hrest). by rewrite map_app, concat_app. }
  rewrite (filter_perm _ _ _ HP), List.filter_app. rewrite (filter_none _ (concat (map edges_at rest))); [by rewrite app_nil_r|].
  intros [s e] He. destruct (dst e =? d) eqn:Ed; [|done]. exfalso. cbn [snd] in *.
  apply list_elem_of_In, List.in_concat in He as (l & Hl & He). apply List.in_map_iff in Hl as (s' & <- & Hs').
  assert (Hss : s = s') by (unfold edges_at in He; destruct (g !!z s'); [|done]; apply List.in_map_iff in He as (? & [= <- _] & _); done). subst s'.
  assert (Hs : s ∈ hs).
  { apply (Hall s e), list_elem_of_In, List.filter_In. split; [|done]. apply List.in_concat. exists (edges_at s). split; [|done].
    apply List.in_map_iff. exists s. split; [done|]. apply list_elem_of_In. rewrite Hrest. apply elem_of_app. right. by apply list_elem_of_In. }
  pose proof (node_ids_nodup g) as Hnd'. rewrite Hrest in Hnd'. apply NoDup_app in Hnd' as (_ & Hdis & _). apply (Hdis s Hs). by apply list_elem_of_In.
Qed.
Lemma arrivals_complete h d (P : Arrival -> bool) (Q : Z * Edge -> bool) : NoDup (map run_id h) -> Forall (fun r => Forall (fun e => entry_ok e = true) (run_outputs r)) h -> (forall p, p ∈ h -> is_Some (g !!z run_id p)) ->
  (forall s e, (s, e) ∈ in_edges g d -> s ∈ map run_id h) -> (forall x : Delivery Val, a_ctl (d_arr x) = IsControlEdge (d_edge x) -> P (d_arr x) = Q (d_id x)) ->
  cnt P (arrivals (deliveries h) d) = cnt Q (in_edges g d).
Proof.
  intros Hnd Ho Hin Hall HPQ. rewrite (arrivals_count _ d P Q (proj2 (deliveries_legal h Hnd Ho)) HPQ), deliveries_id.
  apply cnt_perm, complete_edges; [done| |done]. intros s Hs. apply list_elem_of_In, List.in_map_iff in Hs as (p & <- & Hp). by apply Hin, list_elem_of_In.
Qed.
Lemma in_edges_source d s e : (s, e) ∈ in_edges g d -> exists m, g !!z s = Some m /\ s <> 1.
Proof.
  intros [He _]%list_elem_of_In%List.filter_In. apply list_elem_of_In in He. pose proof He as He'.
  rewrite all_edges_at in He. apply list_elem_of_In, List.in_concat in He as (l & Hl & He). apply List.in_map_iff in Hl as (s' & <- & Hs').
  unfold edges_at in He. destruct (g !!z s') as [m|] eqn:Em; [|done]. apply List.in_map_iff in He as (? & [= <- _] & _).
  exists m. split; [done|]. by apply (go_edge g Hg s' e m).
Qed.
Lemma all_processed x : run_ok x -> scheduled x = [] -> finishing x = [] -> failed x = [] ->
  forall d n, g !!z d = Some n -> d <> 1 -> d ∈ map run_id (history x).
Proof.
  intros Hx Hs Hf Hfa. destruct (go_acyclic g Hg) as [rank Hrank]. pose proof (ro_pushed x Hx) as Hp.
  assert (Ht : touched x = map run_node (history x)) by (unfold touched, readied; rewrite Hs, Hf, Hfa; cbn; by rewrite app_nil_r). rewrite Ht in Hp.
  assert (Hin : forall p, p ∈ history x -> is_Some (g !!z run_id p)).
  { intros p Hpp. destruct (po_fired _ _ _ Hp (run_node p)) as (n & Hn & _); [apply list_elem_of_In, List.in_map, list_elem_of_In, Hpp|by exists n]. }
  intros d. induction (well_founded_ltof _ rank d) as [d _ IH]. intros n Hn Hd. unfold run_id. rewrite <- List.map_map.
  apply (po_all _ _ _ Hp d n Hn Hd).
  assert (Hall : forall s e, (s, e) ∈ in_edges g d -> s ∈ map run_id (history x)).
  { intros s e He. destruct (in_edges_source _ _ _ He) as (m & Hm & Hs1). unfold in_edges in He. apply list_elem_of_In, List.filter_In in He as [He Hde]. cbn in Hde. apply Z.eqb_eq in Hde. apply list_elem_of_In in He.
    apply (IH s) with (n := m); [|done|done]. unfold ltof. rewrite <- Hde. by apply Hrank. }
  pose proof (touched_nodup x (ro_pushed x Hx)) as Hnd. pose proof (ro_outputs x Hx) as Hout. unfold fires_at. apply fires_complete.
  - rewrite (arrivals_complete _ d a_ctl (fun p => IsControlEdge p.2) Hnd Hout Hin Hall) by done. done.
  - rewrite (arrivals_complete _ d data_arrival (fun p => negb (IsControlEdge p.2)) Hnd Hout Hin Hall); [done|]. intros y Hy. unfold data_arrival. by rewrite Hy.
Qed.
Lemma completed_run x : run_ok x -> scheduled x = [] -> finishing x = [] -> failed x = [] ->
  ok (status_ x) = true /\ root_frame x = None /\ map run_id (history x) ≡ₚ List.filter (fun d => negb (IsSink d)) (node_ids g) /\
  forall r n, r ∈ history x -> g !!z run_id r = Some n ->
    zlength (arrivals (deliveries (history x)) (run_id r)) = zlength (in_edges g (run_id r)) /\ is_dead (run_node r) = dead_flag n (arrivals (deliveries (history x)) (run_id r)).
Proof.
  intros Hx Hs Hf Hfa. pose proof (touched_nodup x (ro_pushed x Hx)) as Hnd. pose proof (all_processed x Hx Hs Hf Hfa) as Hall.
  assert (Hin : forall p, p ∈ history x -> exists n, g !!z run_id p = Some n /\ run_id p <> 1 /\ is_dead (run_node p) = flag_at (deliveries (history x)) (run_id p) n).
  { intros p Hp. destruct (po_fired _ _ _ (ro_pushed x Hx) (run_node p)) as (n & ? & ? & _ & ?); [|by exists n].
    unfold touched. rewrite !elem_of_app. right. right. left. by apply list_elem_of_In, List.in_map, list_elem_of_In. }
  split; [|split; [|split]].
  - destruct (ok (status_ x)) eqn:E; [done|]. exfalso. apply (ro_failed x Hx); [by left|done].
  - pose proof (ro_frame x Hx) as Hfr. unfold work, readied in Hfr. rewrite Hs, Hf, Hfa in Hfr. destruct (root_frame x); [|done]. destruct Hfr as (_ & _ & Hlt). done.
  - apply NoDup_Permutation; [done|apply NoDup_ListNoDup, List.NoDup_filter, NoDup_ListNoDup, node_ids_nodup|]. intros d. split.
    + intros Hd. apply list_elem_of_In, List.in_map_iff in Hd as (p & <- & Hp). apply list_elem_of_In in Hp. destruct (Hin p Hp) as (n & Hn & Hp1 & _).
      apply list_elem_of_In, List.filter_In. split; [apply list_elem_of_In, node_ids_elem; by exists n|]. unfold IsSink. by apply negb_true_iff, Z.eqb_neq.
    + intros [Hd Hd1]%list_elem_of_In%List.filter_In. apply list_elem_of_In, node_ids_elem in Hd as [n Hn]. apply negb_true_iff, Z.eqb_neq in Hd1. by apply (Hall d n).
  - intros r n Hr Hn. destruct (Hin _ Hr) as (n' & Hn' & _ & Hdead). rewrite Hn in Hn'. injection Hn' as <-. split; [|exact Hdead].
    rewrite <- !cnt_true. apply arrivals_complete; [done|by apply (ro_outputs x Hx)|intros p Hp; destruct (Hin p Hp) as (m & ? & _); by exists m| |done].
    intros s e He. destruct (in_edges_source _ _ _ He) as (m & Hm & Hs1). by apply (Hall s m).
Qed.
End Run.
End ExecutorRun.
