(* ===== verification/ExecutorTheorems.v ===== *)
(** * The executor: properties

    Three properties of the executions of a graph without loops, over every
    behaviour of the kernels and every interleaving of the threads: each node
    runs at most once and nothing fails ([executor_runs_once]), each kernel gets
    the values that its predecessors computed ([executor_dataflow]), and the
    execution ends with one call of the done callback
    ([executor_completes]). *)
From S2P Require Import Prelude Status Numbers PendingCounts Graph Executor ExecutorFacts ExecutorRun.
Import Status PendingCounts NodeClass Executor ExecutorFacts ExecutorInputs ExecutorRun.

Module ExecutorTheorems.

(** ** The inputs of a run *)

Section Dataflow.
Context {Val : Type} (kEmptyTensor : Val) (g : Graph) (Hg : graph_ok g) (impl : ExecutorImpl) (Himpl : impl_ok g impl).

Lemma inputs_lookup (f : Z -> option Val) n i : 0 <= i < n -> map f (seqZ 0 n) !!z i = Some (f i).
Proof.
  intros Hi. apply zlookup_at_nat. split; [lia|]. change (map f (seqZ 0 n)) with (f <$> seqZ 0 n). rewrite list_lookup_fmap, lookup_seqZ_lt by lia.
  cbn. do 2 f_equal. lia.
Qed.
Lemma value_there (outputs : list (Entry Val)) i : has_value (default no_entry (outputs !!z i)) = true -> entry_ok (default no_entry (outputs !!z i)) = true ->
  exists v, outputs !!z i = Some (mkEntry true (Some v)).
Proof. destruct (outputs !!z i) as [[hv [v|]]|]; cbn; intros; subst; try done. by exists v. Qed.

Definition saw_values (h : list (NodeRun Val)) (r : NodeRun Val) (n : Node) : Prop :=
  zlength (run_inputs r) = num_inputs n /\
  if IsMerge n then
    exists s e p v, (s, e) ∈ in_edges g (run_id r) /\ p ∈ h /\ run_id p = s /\ run_outputs p !!z src_output e = Some (mkEntry true (Some v)) /\
      forall i, 0 <= i < num_inputs n -> run_inputs r !!z i = Some (if dst_input e =? i then Some v else None)
  else
    forall s e, (s, e) ∈ in_edges g (run_id r) -> exists p, p ∈ h /\ run_id p = s /\
      (IsControlEdge e = false -> exists v, run_outputs p !!z src_output e = Some (mkEntry true (Some v)) /\ run_inputs r !!z dst_input e = Some (Some v)).

Lemma prefix_legal (x : ExecutorState Val) h r h' : run_ok kEmptyTensor g impl x -> history x = h ++ r :: h' -> legal g (deliveries g h).
Proof.
  intros Hx Hh. pose proof (touched_nodup g x (ro_pushed _ _ _ _ Hx)) as Hnd. pose proof (ro_outputs _ _ _ _ Hx) as Ho. rewrite Hh in Hnd, Ho.
  rewrite map_app in Hnd. apply NoDup_app in Hnd as [Hnd _]. apply Forall_app in Ho as [Ho _]. by apply (deliveries_legal g).
Qed.
Lemma run_dataflow (x : ExecutorState Val) h r h' n : run_ok kEmptyTensor g impl x -> history x = h ++ r :: h' -> g !!z run_id r = Some n -> is_dead (run_node r) = false ->
  saw_values h r n.
Proof.
  intros Hx Hh Hn Hlive. pose proof (prefix_legal x h r h' Hx Hh) as Hl. destruct (ro_saw _ _ _ _ Hx h r h' Hh n Hn) as (Hf & Hflag & Hin). specialize (Hin Hlive). rewrite Hlive in Hflag.
  pose proof (proj1 (go_sizes g Hg _ n Hn)) as H0. unfold saw_values. rewrite Hin. split; [unfold zlength; rewrite length_map, length_seqZ; lia|].
  destruct (IsMerge n) eqn:Em.
  - destruct (merge_value g (deliveries g h) (run_id r) n Hl Em (eq_sym Hflag)) as (y & Hy & Hyd & Hyv & Hslot).
    destruct (deliveries_elem g h y Hy) as (p & Hp & Hps & Hpe). pose proof (proj1 (Forall_forall _ _) (proj2 Hl) y Hy) as (_ & _ & Hok). rewrite Hpe in Hyv, Hok.
    destruct (value_there _ _ Hyv Hok) as [v Hv]. exists (d_src y), (d_edge y), p, v. rewrite Hv in Hpe. cbn in Hpe. split_and!; try done.
    + apply andb_true_iff in Hyd as [Hyd _]. apply list_elem_of_In, List.filter_In. split; [|done]. apply list_elem_of_In. eapply elem_of_submseteq; [|apply Hl].
      apply list_elem_of_In, List.in_map_iff. exists y. split; [done|]. by apply list_elem_of_In.
    + intros i Hi. rewrite inputs_lookup by done. rewrite Hslot, Hpe. unfold input_of. by destruct (_ =? i); cbn; rewrite ?Em.
  - intros s e He. destruct (IsControlEdge e) eqn:Ec.
    + destruct (plain_delivered g (deliveries g h) (run_id r) n Hl Em Hf _ He) as (y & Hy & Hid). destruct (deliveries_elem g h y Hy) as (p & Hp & Hps & _).
      injection Hid as Hs _. exists p. split; [done|]. by rewrite Hps.
    + destruct (plain_values g Hg (deliveries g h) (run_id r) n s e Hl Hn Em Hf (eq_sym Hflag) He Ec) as (y & Hy & Hid & Hslot & Hyv).
      destruct (deliveries_elem g h y Hy) as (p & Hp & Hps & Hpe). injection Hid as Hs He2. pose proof (proj1 (Forall_forall _ _) (proj2 Hl) y Hy) as (_ & _ & Hok).
      rewrite Hpe, He2 in *. destruct (value_there _ _ Hyv Hok) as [v Hv]. exists p. split; [done|]. split; [by rewrite Hps|]. intros _. exists v. split; [done|].
      assert (Hr : 0 <= dst_input e < num_inputs n).
      { apply list_elem_of_In, List.filter_In in He as [He Hd]. apply Z.eqb_eq in Hd. cbn in Hd. rewrite <- Hd in Hn. apply (go_range g s e n Hg); [by apply list_elem_of_In|done|done]. }
      rewrite inputs_lookup by done. rewrite Hslot, Hv. done.
Qed.
End Dataflow.

(** ** An example *)

Section Demo.
(** A switch whose untaken branch (node 4) dies, and the merge of the two. *)
Definition demo : Graph := [
  mkNode NC_OTHER 0 0 [mkEdge 1 (-1) (-1); mkEdge 2 (-1) (-1)];
  mkNode NC_OTHER 0 0 [];
  mkNode NC_OTHER 0 2 [mkEdge 3 0 0; mkEdge 3 1 1];
  mkNode NC_SWITCH 2 2 [mkEdge 4 0 0; mkEdge 5 1 0];
  mkNode NC_OTHER 1 1 [mkEdge 6 0 0];
  mkNode NC_OTHER 1 1 [mkEdge 6 0 1];
  mkNode NC_MERGE 2 1 [mkEdge 1 (-1) (-1)]].
Definition demo_rank (d : Z) : nat := if d =? 1 then 7%nat else Z.to_nat d.
Lemma demo_nodes d n : demo !!z d = Some n -> d = 0 \/ d = 1 \/ d = 2 \/ d = 3 \/ d = 4 \/ d = 5 \/ d = 6.
Proof. intros H%zlookup_range. change (zlength demo) with 7 in H. lia. Qed.
Lemma demo_in_edges d : zlength (in_edges demo d) <= 9.
Proof. unfold in_edges, zlength. pose proof (List.filter_length_le (fun p => dst p.2 =? d) (all_edges demo)). change (length (all_edges demo)) with 9%nat in H. lia. Qed.
Ltac each_node H := destruct (demo_nodes _ _ H) as [-> | [-> | [-> | [-> | [-> | [-> | ->]]]]]]; vm_compute in H; injection H as <-.
Ltac each_edge H := apply list_elem_of_In in H; vm_compute in H; repeat (destruct H as [[= <- <-]|H]); [..|done].
Lemma demo_ok : graph_ok demo.
Proof.
  split.
  - intros s e n He Hn. each_edge He; vm_compute in Hn; injection Hn as <-; (split; [lia|]); (split; [by eexists|done || (intros _; cbn; lia)]).
  - intros d n H. each_node H; vm_compute; reflexivity.
  - done.
  - intros d n H. each_node H; done.
  - intros d n H. each_node H; done.
  - intros d. pose proof (demo_in_edges d). lia.
  - split; [by eexists|reflexivity].
  - done.
  - intros d n H. each_node H; done.
  - intros d n H. each_node H; cbn; lia.
  - exists demo_rank. intros s e He. each_edge He; vm_compute; lia.
Qed.
(** The run that takes what comes first, until the end. *)
Definition demo_kernel (d : Z) (inputs : list (option Z)) : list (option Z) :=
  match d, inputs with
  | 2, _ => [Some 20; Some 1]
  | 3, [Some v; Some 1] => [None; Some v]
  | 3, [Some v; _] => [Some v; None]
  | 4, [Some v] | 5, [Some v] => [Some (v + 1)]
  | 6, [Some v; None] | 6, [None; Some v] => [Some v]
  | _, _ => []
  end.
Fixpoint demo_run (impl : ExecutorImpl) (fuel : nat) (x : ExecutorState Z) : outcome (ExecutorState Z) :=
  match fuel, finishing x, scheduled x with
  | O, _, _ => Diverges
  | S k, (s, r) :: rest, _ => demo_run impl k (NodeDone OK s r rest x)
  | S k, [], t :: rest =>
      match Process impl (fun _ => []) 0 t OK (fun inputs _ => (OK, demo_kernel (node t) inputs)) rest x with
      | Done x' => demo_run impl k x'
      | Aborts => Aborts
      | Diverges => Diverges
      end
  | S k, [], [] => Done x
  end.
Definition demo_result : outcome (list (Z * bool * list (option Z)) * list Status * bool) :=
  match Initialize (mkPacked 5 5 true true) demo with
  | Done impl =>
      match RunAsync impl (mkPacked 0 0 false false) OK with
      | Done x0 =>
          match demo_run impl 20 x0 with
          | Done x => Done (map (fun r => (run_id r, is_dead (run_node r), run_inputs r)) (history x), dones x, bool_decide (root_frame x = None))
          | Aborts => Aborts
          | Diverges => Diverges
          end
      | Aborts => Aborts
      | Diverges => Diverges
      end
  | Aborts => Aborts
  | Diverges => Diverges
  end.
End Demo.

(** ** The properties *)

Section Properties.
Context {Val : Type} (SummarizeNodeDef : Node -> list Z) (kEmptyTensor : Val).

Lemma executor_starts garbage garbage' g : graph_ok g -> exists impl (x0 : ExecutorState Val), Initialize garbage g = Done impl /\ impl_ok g impl /\
  RunAsync impl garbage' OK = Done x0 /\ run_ok kEmptyTensor g impl x0 /\ remaining g x0 = 2 * zlength g.
Proof.
  intros Hg. destruct (Initialize_spec garbage g Hg) as (impl & Hi & Himpl). destruct (RunAsync_ok kEmptyTensor g Hg impl Himpl garbage') as (x0 & H0 & Hx0 & E1 & E2 & E3).
  exists impl, x0. split_and!; try done. unfold remaining. rewrite E1, E2, E3. change (zlength []) with 0. lia.
Qed.
Lemma idle_done g impl (x : ExecutorState Val) : run_ok kEmptyTensor g impl x -> dones x <> [] -> scheduled x = [] /\ finishing x = [].
Proof.
  intros Hx Hd. pose proof (ro_ops _ _ _ _ Hx) as Ho. pose proof (ro_done _ _ _ _ Hx) as H. destruct (Z.eqb_spec (num_outstanding_ops_ x) 0) as [E|]; [|done].
  unfold zlength in Ho. destruct (scheduled x), (finishing x); cbn in *; [done|lia..].
Qed.
Lemma idle_dones g impl (x : ExecutorState Val) : run_ok kEmptyTensor g impl x -> scheduled x = [] -> finishing x = [] -> exists sync, dones x = [Finish (status_ x) sync].
Proof.
  intros Hx Hs Hf. pose proof (ro_ops _ _ _ _ Hx) as Ho. rewrite Hs, Hf in Ho. pose proof (ro_done _ _ _ _ Hx) as H. by rewrite Ho in H.
Qed.

(** C1: Whatever the kernels return and however the threads interleave, an
    execution of a graph without loops is safe: [Initialize] and [RunAsync]
    succeed; a node becomes ready at most once, only when the readiness rule
    holds of what its inputs delivered (a merge: all control edges and one live
    value, or only dead values; any other node: everything), and with the dead
    flag of the rule; every ready node can be processed without an access out
    of bounds, a failed check, a missing or destroyed input or a deleted frame; the done callback is called
    at most once, when nothing is left to run, with the status of the
    execution (or of the device when no node failed); and [StartAbort] is
    called once, with the first error, and only after a node failed. *)
Theorem executor_runs_once garbage garbage' g : graph_ok g ->
  exists impl (x0 : ExecutorState Val), Initialize garbage g = Done impl /\ RunAsync impl garbage' OK = Done x0 /\
  forall x, rtc (step impl SummarizeNodeDef kEmptyTensor) x0 x ->
    NoDup (map node (touched x)) /\
    (forall t, t ∈ touched x -> exists n, g !!z node t = Some n /\ fires_at g (deliveries g (history x)) (node t) n = true /\
      is_dead t = flag_at (deliveries g (history x)) (node t) n) /\
    (forall t l1 l2 n s kernel, scheduled x = l1 ++ t :: l2 -> g !!z node t = Some n -> (forall inputs dead, zlength (kernel inputs dead).2 = num_outputs n) ->
      ok s = true \/ failed x <> [] -> exists x', Process impl SummarizeNodeDef kEmptyTensor t s kernel (l1 ++ l2) x = Done x') /\
    (dones x = [] \/ scheduled x = [] /\ finishing x = [] /\ exists sync, dones x = [Finish (status_ x) sync]) /\
    aborts x = (if ok (status_ x) then [] else [status_ x]) /\
    (ok (status_ x) = false -> failed x <> []).
Proof.
  intros Hg. destruct (executor_starts garbage garbage' g Hg) as (impl & x0 & Hi & Himpl & H0 & Hx0 & _). exists impl, x0. split; [done|]. split; [done|].
  intros x [k Hk]%rtc_nsteps. destruct (steps_ok SummarizeNodeDef kEmptyTensor g Hg impl Himpl k x0 x Hx0 Hk) as [Hx _]. pose proof (ro_pushed _ _ _ _ Hx) as Hp. split_and!.
  - apply (po_nodup _ _ _ Hp).
  - intros t Ht. destruct (po_fired _ _ _ Hp t Ht) as (n & ? & _ & ? & ?). by exists n.
  - intros t l1 l2 n s kernel Hs Hn Hker Hst. destruct (process_ok SummarizeNodeDef kEmptyTensor g Hg impl Himpl x t l1 l2 n s kernel Hx Hs Hn Hker Hst) as (x' & ? & _). by exists x'.
  - destruct (decide (dones x = [])) as [|Hd]; [by left|right]. destruct (idle_done g impl x Hx Hd) as [Hs Hf]. split; [done|]. split; [done|]. by apply (idle_dones g impl).
  - apply (ro_aborts _ _ _ _ Hx).
  - intros He. apply (ro_failed _ _ _ _ Hx). by left.
Qed.

(** C2: Whatever the threads do, the kernels compute over the graph's data flow:
    a node that runs and is not dead finds on each input the value that the
    source of its edge put on that output when it ran before, and the sources
    of its control edges ran before; a merge finds exactly one of its inputs,
    with the value of a source that ran before. *)
Theorem executor_dataflow garbage garbage' g : graph_ok g ->
  exists impl (x0 : ExecutorState Val), Initialize garbage g = Done impl /\ RunAsync impl garbage' OK = Done x0 /\
  forall x h r h' n, rtc (step impl SummarizeNodeDef kEmptyTensor) x0 x -> history x = h ++ r :: h' -> g !!z run_id r = Some n ->
    is_dead (run_node r) = false -> saw_values g h r n.
Proof.
  intros Hg. destruct (executor_starts garbage garbage' g Hg) as (impl & x0 & Hi & Himpl & H0 & Hx0 & _). exists impl, x0. split; [done|]. split; [done|].
  intros x h r h' n [k Hk]%rtc_nsteps Hh Hn Hlive. destruct (steps_ok SummarizeNodeDef kEmptyTensor g Hg impl Himpl k x0 x Hx0 Hk) as [Hx _].
  by apply (run_dataflow kEmptyTensor g Hg impl x h r h' n).
Qed.

(** C3: An execution of a graph without loops ends: a run has at most two steps
    for each node, and it only stops when the done callback was called, exactly
    once. If no node failed, then every node but the sink was processed exactly
    once, is dead exactly when the rule says so of the outputs of all its
    predecessors, and the state of the root frame was deleted. *)
Theorem executor_completes garbage garbage' g : graph_ok g ->
  exists impl (x0 : ExecutorState Val), Initialize garbage g = Done impl /\ RunAsync impl garbage' OK = Done x0 /\
  forall k x, nsteps (step impl SummarizeNodeDef kEmptyTensor) k x0 x ->
    (k <= 2 * length g)%nat /\
    ((exists x', step impl SummarizeNodeDef kEmptyTensor x x') \/
     (exists sync, dones x = [Finish (status_ x) sync]) /\
     (failed x = [] -> ok (status_ x) = true /\ root_frame x = None /\
       map run_id (history x) ≡ₚ List.filter (fun d => negb (IsSink d)) (node_ids g) /\
       forall r n, r ∈ history x -> g !!z run_id r = Some n ->
         zlength (arrivals (deliveries g (history x)) (run_id r)) = zlength (in_edges g (run_id r)) /\
         is_dead (run_node r) = dead_flag n (arrivals (deliveries g (history x)) (run_id r)))).
Proof.
  intros Hg. destruct (executor_starts garbage garbage' g Hg) as (impl & x0 & Hi & Himpl & H0 & Hx0 & Hm0). exists impl, x0. split; [done|]. split; [done|].
  intros k x Hk. destruct (steps_ok SummarizeNodeDef kEmptyTensor g Hg impl Himpl k x0 x Hx0 Hk) as [Hx Hm]. split.
  { pose proof (remaining_nonneg kEmptyTensor g impl x Hx). rewrite Hm0 in Hm. unfold zlength in *. lia. }
  destruct (finishing x) as [|[s r] fs] eqn:Ef; [|left; exists (NodeDone OK s r ([] ++ fs) x); by apply step_done].
  destruct (scheduled x) as [|t ts] eqn:Es; [|left; apply (step_exists SummarizeNodeDef kEmptyTensor g Hg impl Himpl x t Hx); rewrite Es; by left]. right.
  split; [by apply (idle_dones g impl)|]. intros Hfa. by apply (completed_run kEmptyTensor g Hg impl).
Qed.
End Properties.

Lemma executor_runs_once_witness : exists impl (x0 : ExecutorState Z), Initialize (mkPacked 5 5 true true) demo = Done impl /\
  RunAsync impl (mkPacked 0 0 false false) OK = Done x0 /\
  forall x, rtc (step impl (fun _ => []) 0) x0 x -> NoDup (map node (touched x)) /\ aborts x = (if ok (status_ x) then [] else [status_ x]).
Proof.
  destruct (executor_runs_once (fun _ => []) 0 (mkPacked 5 5 true true) (mkPacked 0 0 false false) demo demo_ok) as (impl & x0 & H1 & H2 & H).
  exists impl, x0. split; [exact H1|]. split; [exact H2|]. intros x Hx. destruct (H x Hx) as (Ha & _ & _ & _ & Hb & _). split; [exact Ha|exact Hb].
Defined.

Lemma executor_dataflow_witness : exists impl (x0 : ExecutorState Z), Initialize (mkPacked 5 5 true true) demo = Done impl /\
  RunAsync impl (mkPacked 0 0 false false) OK = Done x0 /\
  forall x h r h', rtc (step impl (fun _ => []) 0) x0 x -> history x = h ++ r :: h' -> run_id r = 6 -> is_dead (run_node r) = false ->
    saw_values demo h r (mkNode NC_MERGE 2 1 [mkEdge 1 (-1) (-1)]).
Proof.
  destruct (executor_dataflow (fun _ => []) 0 (mkPacked 5 5 true true) (mkPacked 0 0 false false) demo demo_ok) as (impl & x0 & H1 & H2 & H).
  exists impl, x0. split; [exact H1|]. split; [exact H2|]. intros x h r h' Hx Hh Hr Hd. apply (H x h r h' _ Hx Hh); [rewrite Hr; reflexivity|exact Hd].
Defined.
Lemma executor_completes_witness : exists impl (x0 : ExecutorState Z), Initialize (mkPacked 5 5 true true) demo = Done impl /\
  RunAsync impl (mkPacked 0 0 false false) OK = Done x0 /\ forall k x, nsteps (step impl (fun _ => []) 0) k x0 x -> (k <= 14)%nat.
Proof.
  destruct (executor_completes (fun _ => []) 0 (mkPacked 5 5 true true) (mkPacked 0 0 false false) demo demo_ok) as (impl & x0 & H1 & H2 & H).
  exists impl, x0. split; [exact H1|]. split; [exact H2|]. intros k x Hk. exact (proj1 (H k x Hk)).
Defined.
(** The branch 4 is dead, the merge is not, and the frame is deleted. *)
Example demo_completes : demo_result =
  Done ([(0, false, []); (2, false, []); (3, false, [Some 20; Some 1]); (4, true, []); (5, false, [Some 20]); (6, false, [None; Some 21])], [OK], true).
Proof. vm_compute. reflexivity. Qed.
End ExecutorTheorems.
