(* ===== verification/DataTypes.v ===== *)
(** * Data types

    The names of the data types, of [framework/types.{h,cc}]; a type is the
    number of [types.proto]. *)
From S2P Require Import Prelude Status Numbers.
Import Status Numbers.
Open Scope Z_scope.

Module DataTypes.

Definition DT_RESOURCE : Z := 20.
Definition kDataTypeRefOffset : Z := 100.
Definition IsRefType (dtype : Z) : bool := kDataTypeRefOffset <? dtype.
(** [None]: [LOG(FATAL)]. *)
Definition base_type_string (dtype : Z) : option (list Z) :=
  nth (Z.to_nat dtype)
    (map (fun s => Some (bytes_of s)) ["INVALID"; "float"; "double"; "int32"; "uint8"; "int16"; "int8"; "string"; "complex64"; "int64"; "bool"; "qint8";
      "quint8"; "qint32"; "bfloat16"; "qint16"; "quint16"; "uint16"; "complex128"; "half"; "resource"]%string) None.
Fixpoint data_type_string (fuel : nat) (dtype : Z) : option (list Z) :=
  match fuel with
  | S fuel' => if IsRefType dtype then match data_type_string fuel' (dtype - kDataTypeRefOffset) with Some s => Some (s ++ bytes_of "_ref") | None => None end
               else if 0 <=? dtype then base_type_string dtype else None
  | O => None
  end.
Definition DataTypeString (dtype : Z) : option (list Z) := data_type_string (S (Z.to_nat (dtype / kDataTypeRefOffset))) dtype.
Fixpoint option_all {A} (l : list (option A)) : option (list A) :=
  match l with
  | [] => Some []
  | Some x :: l' => match option_all l' with Some r => Some (x :: r) | None => None end
  | None :: _ => None
  end.
Definition DataTypeSliceString (l : list Z) : option (list Z) :=
  match option_all (map DataTypeString l) with Some names => Some (Join names (bytes_of ", ")) | None => None end.

End DataTypes.
