(* ===== verification/TensorShape.v ===== *)
(** * Tensor shapes

    [TensorShape] and [TensorShapeUtils] of [core/framework/tensor_shape.{h,cc}]:
    the sizes of the dimensions in one of three representations, with the
    number of elements. A failed [CHECK] is [None]. The slots of a
    representation that are beyond the number of dimensions are never read and
    are left out. *)
From S2P Require Import Prelude Status Numbers.
Import Status Numbers.

Module TensorShape.

Definition s16 (z : Z) : Z := (z + 2 ^ 15) mod 2 ^ 16 - 2 ^ 15.
Definition kMaxElements : Z := Z.shiftl 1 40.
Definition MaxDimensions : Z := 255.
Definition kMaxRep16 : Z := 32768.
Definition kMaxRep32 : Z := Z.shiftl 1 31 - 1.

(** The union, with the tag as the constructor. *)
Inductive Rep := Rep16 (dims_ : list Z) | Rep32 (dims_ : list Z) | Rep64 (dims_ : list Z).
Definition slots (r : Rep) : list Z := match r with Rep16 l | Rep32 l | Rep64 l => l end.
Record TensorShape := mkShape { rep : Rep; ndims_byte : Z; data_type : Z; num_elements_ : Z }.
Definition DT_INVALID : Z := 0.
Definition new_TensorShape : TensorShape := mkShape (Rep16 []) 0 DT_INVALID 1.

Definition dims (s : TensorShape) : Z := ndims_byte s.
Definition num_elements (s : TensorShape) : Z := num_elements_ s.
Definition dim_size (s : TensorShape) (d : Z) : option Z := if (0 <=? d) && (d <? dims s) then slots (rep s) !!z d else None.
(** The loops from [begin()] to [end()]: [AppendTo] and [dim_sizes]. *)
Definition AppendTo (s : TensorShape) (vals : list Z) : list Z := vals ++ omap (fun d => dim_size s (Z.of_nat d)) (seq 0 (Z.to_nat (dims s))).
Definition dim_sizes (s : TensorShape) : list Z := AppendTo s [].

Definition ClearAllButDataType (s : TensorShape) : TensorShape := mkShape (Rep16 []) 0 (data_type s) 1.
Definition Clear (s : TensorShape) : TensorShape := mkShape (Rep16 []) 0 DT_INVALID 1.

(** [num_elements *= size] with its two [CHECK]s. *)
Definition times_checked (n size : Z) : option Z :=
  let n := s64 (n * size) in if (0 <=? n) && (n <=? kMaxElements) then Some n else None.
Fixpoint recompute (n : Z) (sizes : list Z) : option Z :=
  match sizes with [] => Some n | size :: sizes' => match times_checked n size with Some n' => recompute n' sizes' | None => None end end.
Definition RecomputeNumElements (s : TensorShape) : option TensorShape :=
  match recompute 1 (dim_sizes s) with Some n => Some (mkShape (rep s) (ndims_byte s) (data_type s) n) | None => None end.

Definition change_rep (vals : list Z) : Rep :=
  if (zlength vals <=? 3) && forallb (fun v => v <? kMaxRep32) vals then Rep32 (map s32 vals) else Rep64 vals.
Definition add_rep (s : TensorShape) (size : Z) : Rep :=
  let nd := ndims_byte s in
  match rep s with
  | Rep16 l => if (nd <? 6) && (size <? kMaxRep16) then Rep16 (l ++ [s16 size]) else change_rep (AppendTo s [] ++ [size])
  | Rep32 l => if (nd <? 3) && (size <? kMaxRep32) then Rep32 (l ++ [s32 size]) else change_rep (AppendTo s [] ++ [size])
  | Rep64 l => Rep64 (l ++ [size])
  end.
Definition AddDim (size : Z) (s : TensorShape) : option TensorShape :=
  if (0 <=? size) && (ndims_byte s <? MaxDimensions) then
    match times_checked (num_elements_ s) size with
    | Some n => Some (mkShape (add_rep s size) (u8 (ndims_byte s + 1)) (data_type s) n)
    | None => None
    end
  else None.
Fixpoint AddDims (sizes : list Z) (s : TensorShape) : option TensorShape :=
  match sizes with [] => Some s | size :: sizes' => match AddDim size s with Some s' => AddDims sizes' s' | None => None end end.

(** The constructors from an array and from a proto, whose sizes are given. *)
Definition TensorShape_of (sizes : list Z) : option TensorShape := AddDims sizes new_TensorShape.
Definition AppendShape (shape s : TensorShape) : option TensorShape := AddDims (dim_sizes shape) s.
Definition InsertDim (d size : Z) (s : TensorShape) : option TensorShape :=
  if (0 <=? d) && (d <=? dims s) && (0 <=? size) && (dims s <? MaxDimensions) then
    let vals := AppendTo s [] in
    AddDims (take (Z.to_nat d) vals ++ [size] ++ drop (Z.to_nat d) vals) (ClearAllButDataType s)
  else None.
Definition set_dim (d size : Z) (s : TensorShape) : option TensorShape :=
  if (0 <=? d) && (d <? dims s) && (0 <=? size) then
    let with_rep r := RecomputeNumElements (mkShape r (ndims_byte s) (data_type s) (num_elements_ s)) in
    let upgrade := match AddDims (zinsert (AppendTo s []) d size) (ClearAllButDataType s) with Some s' => RecomputeNumElements s' | None => None end in
    match rep s with
    | Rep16 l => if size <? kMaxRep16 then with_rep (Rep16 (zinsert l d (s16 size))) else upgrade
    | Rep32 l => if size <? kMaxRep32 then with_rep (Rep32 (zinsert l d (s32 size))) else upgrade
    | Rep64 l => with_rep (Rep64 (zinsert l d size))
    end
  else None.
Definition RemoveDim (d : Z) (s : TensorShape) : option TensorShape :=
  if (0 <=? d) && (d <? dims s) then
    match AddDims (base.delete (Z.to_nat d) (AppendTo s [])) (ClearAllButDataType s) with Some s' => RecomputeNumElements s' | None => None end
  else None.
Definition AsProto (s : TensorShape) : list Z := dim_sizes s.

(** The loops that compare sizes, from [i]. *)
Fixpoint same_sizes (n : nat) (i : Z) (a b : TensorShape) (da db : Z) : bool :=
  match n with
  | O => true
  | S n' => bool_decide (dim_size a (da + i) = dim_size b (db + i)) && same_sizes n' (i + 1) a b da db
  end.
Definition IsSameSize (a b : TensorShape) : bool := (dims b =? dims a) && same_sizes (Z.to_nat (dims a)) 0 a b 0 0.
Definition StartsWith (shape prefix : TensorShape) : bool := negb (dims shape <? dims prefix) && same_sizes (Z.to_nat (dims prefix)) 0 shape prefix 0 0.
Definition EndsWith (shape suffix : TensorShape) : bool :=
  negb (dims shape <? dims suffix) && same_sizes (Z.to_nat (dims suffix)) 0 shape suffix (dims shape - dims suffix) 0.

(** ** Validation of a proto *)

Fixpoint valid_loop (n : Z) (sizes : list Z) : bool :=
  match sizes with
  | [] => true
  | size :: sizes' => if size <? 0 then false else let n := s64 (n * size) in if kMaxElements <? n then false else valid_loop n sizes'
  end.
Definition IsValid (proto : list Z) : bool := if MaxDimensions <? zlength proto then false else valid_loop 1 proto.

Definition shape_text (sizes : list Z) : list Z := bytes_of "[" ++ Join (map FastInt64ToBufferLeft sizes) (bytes_of ",") ++ bytes_of "]".
Definition DebugString (s : TensorShape) : list Z := shape_text (dim_sizes s).
Fixpoint valid_shape_loop (proto : list Z) (n : Z) (sizes : list Z) : Status :=
  match sizes with
  | [] => OK
  | size :: sizes' =>
      if size <? 0 then InvalidArgument (bytes_of "Shape " ++ shape_text proto ++ bytes_of " has negative dimensions")
      else let n := s64 (n * size) in
           if kMaxElements <? n then InvalidArgument (bytes_of "Shape " ++ shape_text proto ++ bytes_of " is too large (more than " ++
             FastInt64ToBufferLeft kMaxElements ++ bytes_of " entries)")
           else valid_shape_loop proto n sizes'
  end.
Definition IsValidShape (proto : list Z) : Status :=
  if MaxDimensions <? zlength proto then InvalidArgument (bytes_of "Shape " ++ shape_text proto ++ bytes_of " has too many dimensions")
  else valid_shape_loop proto 1 proto.

(** [MakeShape]: a status and [*out], or a failed [CHECK]. *)
Fixpoint make_loop (sizes : list Z) (out : TensorShape) : option (Status * TensorShape) :=
  match sizes with
  | [] => Some (OK, out)
  | dim :: sizes' =>
      if 0 <=? dim then match AddDim dim out with Some out' => make_loop sizes' out' | None => None end
      else Some (InvalidArgument (bytes_of "Dimension " ++ FastInt64ToBufferLeft dim ++ bytes_of " must be >= 0"), out)
  end.
Definition MakeShape (sizes : list Z) : option (Status * TensorShape) :=
  if MaxDimensions <? zlength sizes then Some (InvalidArgument (bytes_of "Too many dimensions"), new_TensorShape) else make_loop sizes new_TensorShape.

(** ** Well-formed shapes *)

Definition rep_ok (r : Rep) : Prop :=
  match r with
  | Rep16 l => zlength l <= 6 /\ Forall (fun x => 0 <= x < kMaxRep16) l
  | Rep32 l => zlength l <= 3 /\ Forall (fun x => 0 <= x < kMaxRep32) l
  | Rep64 l => Forall (fun x => 0 <= x) l
  end.
Definition product (l : list Z) : Z := fold_right Z.mul 1 l.
Record shape_ok (s : TensorShape) : Prop := {
  ok_rep : rep_ok (rep s);
  ok_ndims : zlength (slots (rep s)) = ndims_byte s;
  ok_max : ndims_byte s <= MaxDimensions;
  ok_num : 0 <= num_elements_ s <= kMaxElements;
  ok_product : num_elements_ s = product (slots (rep s)) mod 2 ^ 64
}.

Lemma slots_nonneg r : rep_ok r -> Forall (fun x => 0 <= x) (slots r).
Proof. destruct r; cbn; [intros [_ H]|intros [_ H]|done]; apply (Forall_impl _ _ _ H); intros; lia. Qed.
Lemma omap_lookup (l l0 : list Z) : omap (fun d => (l0 ++ l) !! d) (seq (length l0) (length l)) = l.
Proof.
  revert l0. induction l as [|x l IH]; intros l0; [done|]. cbn [length seq omap list_omap]. rewrite list_lookup_middle by done.
  f_equal. specialize (IH (l0 ++ [x])). rewrite length_app, <- app_assoc, Nat.add_1_r in IH. exact IH.
Qed.
Lemma AppendTo_slots s vals : zlength (slots (rep s)) = ndims_byte s -> AppendTo s vals = vals ++ slots (rep s).
Proof.
  intros H. unfold AppendTo. f_equal. transitivity (omap (fun d => ([] ++ slots (rep s)) !! d) (seq 0 (length (slots (rep s))))); [|apply (omap_lookup (slots (rep s)) [])].
  cbn [app]. unfold dims. rewrite <- H. unfold zlength. rewrite Nat2Z.id. apply list_omap_ext. apply Forall2_same_length_lookup. split; [done|].
  intros i x y Hx Hy. assert (x = y) as -> by congruence. apply lookup_seq in Hx as [-> Hi]. unfold dim_size, dims. rewrite <- H.
  unfold zlength. rewrite (proj2 (Z.leb_le _ _)), (proj2 (Z.ltb_lt _ _)) by lia. cbn [andb]. unfold zlookup.
  rewrite (proj2 (Z.ltb_ge _ _)), Nat2Z.id by lia. done.
Qed.
Lemma dim_sizes_slots s : zlength (slots (rep s)) = ndims_byte s -> dim_sizes s = slots (rep s).
Proof. intros H. unfold dim_sizes. by rewrite AppendTo_slots. Qed.
#[local] Hint Resolve ok_ndims : core.

Lemma times_checked_spec n size n' : times_checked n size = Some n' -> 0 <= n' <= kMaxElements /\ n' = (n * size) mod 2 ^ 64.
Proof.
  unfold times_checked. destruct (_ && _) eqn:E; [|done]. intros [= <-]. rewrite andb_true_iff, !Z.leb_le in E. split; [done|].
  pose proof (u64_range (n * size)) as Hu. unfold u64 in Hu. destruct E as [E1 E2]. change kMaxElements with (2 ^ 40) in E2.
  unfold s64 in *. pose proof (Z.div_mod (n * size) (2 ^ 64)). pose proof (Z.div_mod (n * size + 2 ^ 63) (2 ^ 64)). lia.
Qed.
Lemma product_app l1 l2 : product (l1 ++ l2) = product l1 * product l2.
Proof. induction l1 as [|x l1 IH]; cbn [app product fold_right]; [by rewrite Z.mul_1_l|]. fold (product (l1 ++ l2)) (product l1). rewrite IH. ring. Qed.
Lemma map_small (f : Z -> Z) m l : (forall x, 0 <= x < m -> f x = x) -> Forall (fun x => 0 <= x < m) l -> map f l = l.
Proof. intros Hf H. induction H as [|x l Hx _ IH]; [done|]. cbn. by rewrite Hf, IH. Qed.
Lemma s32_dim x : 0 <= x < kMaxRep32 -> s32 x = x.
Proof. change kMaxRep32 with (2 ^ 31 - 1). intros. apply s32_id. lia. Qed.
Lemma s16_dim x : 0 <= x < kMaxRep16 -> s16 x = x.
Proof. unfold s16, kMaxRep16. intros. rewrite Z.mod_small; lia. Qed.
Lemma change_rep_ok vals : Forall (fun x => 0 <= x) vals -> rep_ok (change_rep vals) /\ slots (change_rep vals) = vals.
Proof.
  intros H. unfold change_rep. destruct (_ && _) eqn:E; [|done]. rewrite andb_true_iff, Z.leb_le, forallb_forall in E. destruct E as [E1 E2].
  assert (H' : Forall (fun x => 0 <= x < kMaxRep32) vals).
  { rewrite Forall_forall in *. intros x Hx. split; [by apply H|]. apply Z.ltb_lt, E2. by apply list_elem_of_In. }
  cbn. by rewrite (map_small _ kMaxRep32) by (done || apply s32_dim).
Qed.
Lemma add_rep_ok s size : shape_ok s -> 0 <= size -> rep_ok (add_rep s size) /\ slots (add_rep s size) = slots (rep s) ++ [size].
Proof.
  intros H Hsz. pose proof (slots_nonneg _ (ok_rep s H)) as Hn. pose proof (ok_rep s H) as Hr. pose proof (ok_ndims s H) as Hl. unfold add_rep. rewrite AppendTo_slots by auto. cbn [app].
  assert (Hc : rep_ok (change_rep (slots (rep s) ++ [size])) /\ slots (change_rep (slots (rep s) ++ [size])) = slots (rep s) ++ [size])
    by (apply change_rep_ok, Forall_app; split; [done|by constructor]).
  destruct (rep s) as [l|l|l]; cbn [slots rep_ok] in *.
  - destruct (_ && _) eqn:E; [|done]. rewrite andb_true_iff, !Z.ltb_lt in E. cbn. rewrite s16_dim by lia. split; [|done]. rewrite zlength_app. change (zlength [size]) with 1.
    split; [lia|]. apply Forall_app. split; [apply Hr|]. constructor; [lia|done].
  - destruct (_ && _) eqn:E; [|done]. rewrite andb_true_iff, !Z.ltb_lt in E. cbn. rewrite s32_dim by lia. split; [|done]. rewrite zlength_app. change (zlength [size]) with 1.
    split; [lia|]. apply Forall_app. split; [apply Hr|]. constructor; [lia|done].
  - split; [|done]. apply Forall_app. split; [done|by constructor].
Qed.
Lemma AddDim_ok size s s' : shape_ok s -> AddDim size s = Some s' -> shape_ok s' /\ slots (rep s') = slots (rep s) ++ [size] /\ data_type s' = data_type s.
Proof.
  intros H. unfold AddDim. destruct (_ && _) eqn:E; [|done]. rewrite andb_true_iff, Z.leb_le, Z.ltb_lt in E. destruct E as [E1 E2].
  destruct (times_checked _ _) as [n|] eqn:En; [|done]. intros [= <-]. apply times_checked_spec in En as [En1 En2].
  destruct (add_rep_ok s size H E1) as [Hr Hs]. split; [|done]. pose proof (ok_ndims s H) as Hl. unfold MaxDimensions in *. split; cbn.
  - done.
  - rewrite Hs, zlength_app, Hl. change (zlength [size]) with 1. unfold u8. unfold zlength in Hl. rewrite Z.mod_small; lia.
  - unfold u8. unfold zlength in Hl. unfold MaxDimensions. rewrite Z.mod_small; lia.
  - done.
  - rewrite En2, Hs, product_app, (ok_product s H). cbn [product fold_right]. rewrite Z.mul_1_r. by rewrite Zmult_mod_idemp_l.
Qed.
Lemma AddDims_ok sizes s s' : shape_ok s -> AddDims sizes s = Some s' -> shape_ok s' /\ slots (rep s') = slots (rep s) ++ sizes /\ data_type s' = data_type s.
Proof.
  revert s. induction sizes as [|size sizes IH]; intros s H; cbn; [intros [= <-]; by rewrite app_nil_r|].
  destruct (AddDim size s) as [s1|] eqn:E; [|done]. intros E'. destruct (AddDim_ok _ _ _ H E) as (H1 & Hs1 & Hd1).
  destruct (IH s1 H1 E') as (H2 & Hs2 & Hd2). split; [done|]. rewrite Hs2, Hs1, <- app_assoc. split; [done|congruence].
Qed.
Lemma new_shape_ok : shape_ok new_TensorShape.
Proof. by split; cbn. Qed.
Lemma cleared_ok s : shape_ok (ClearAllButDataType s) /\ shape_ok (Clear s).
Proof. split; by split; cbn. Qed.
Lemma recompute_ok n sizes n' l : n = product l mod 2 ^ 64 -> 0 <= n <= kMaxElements -> recompute n sizes = Some n' -> 0 <= n' <= kMaxElements /\ n' = product (l ++ sizes) mod 2 ^ 64.
Proof.
  revert n l. induction sizes as [|size sizes IH]; intros n l Hn Hb; cbn; [intros [= <-]; by rewrite app_nil_r|].
  destruct (times_checked n size) as [n1|] eqn:E; [|done]. apply times_checked_spec in E as [E1 E2]. intros E'.
  replace (l ++ size :: sizes) with ((l ++ [size]) ++ sizes) by (by rewrite <- app_assoc). apply (IH n1); [|done|done].
  rewrite E2, Hn, product_app. cbn [product fold_right]. by rewrite Z.mul_1_r, Zmult_mod_idemp_l.
Qed.
(** Well formed but for the number of elements. *)
Lemma RecomputeNumElements_ok s s' : rep_ok (rep s) -> zlength (slots (rep s)) = ndims_byte s -> ndims_byte s <= MaxDimensions -> RecomputeNumElements s = Some s' ->
  shape_ok s' /\ rep s' = rep s /\ data_type s' = data_type s.
Proof.
  intros Hr Hl Hm. unfold RecomputeNumElements. rewrite dim_sizes_slots by done.
  destruct (recompute 1 (slots (rep s))) as [n|] eqn:E; [|done]. intros [= <-].
  destruct (recompute_ok 1 _ n [] eq_refl ltac:(done) E) as [H1 H2]. split; [|done]. by split.
Qed.

(** ** Operations *)

Lemma zinsert_eq (l : list Z) d x : 0 <= d -> zinsert l d x = <[Z.to_nat d := x]> l.
Proof. intros Hd. unfold zinsert. by rewrite (proj2 (Z.ltb_ge d 0)). Qed.
Lemma InsertDim_ok d size s s' : shape_ok s -> InsertDim d size s = Some s' ->
  shape_ok s' /\ dim_sizes s' = take (Z.to_nat d) (dim_sizes s) ++ [size] ++ drop (Z.to_nat d) (dim_sizes s) /\ data_type s' = data_type s.
Proof.
  intros H. unfold InsertDim. destruct (_ && _); [|done]. intros E. apply AddDims_ok in E as (H' & Hs & Hd); [|apply cleared_ok].
  rewrite (dim_sizes_slots s'), Hs, (dim_sizes_slots s), AppendTo_slots by auto. done.
Qed.
Lemma RemoveDim_ok d s s' : shape_ok s -> RemoveDim d s = Some s' ->
  shape_ok s' /\ dim_sizes s' = base.delete (Z.to_nat d) (dim_sizes s) /\ data_type s' = data_type s.
Proof.
  intros H. unfold RemoveDim. destruct (_ && _); [|done]. destruct (AddDims _ _) as [s1|] eqn:E; [|done].
  apply AddDims_ok in E as (H1 & Hs1 & Hd1); [|apply cleared_ok]. intros E2. apply RecomputeNumElements_ok in E2 as (H2 & Hr2 & Hd2); [|apply H1|auto|apply H1].
  split; [done|]. rewrite (dim_sizes_slots s'), Hr2, Hs1, (dim_sizes_slots s), AppendTo_slots by auto. split; [done|by rewrite Hd2, Hd1].
Qed.
Lemma insert_slots_ok (P : Z -> Prop) l d x : Forall P l -> P x -> Forall P (zinsert l d x).
Proof. intros Hl Hx. unfold zinsert. destruct (d <? 0); [done|]. by apply Forall_insert. Qed.
Lemma set_dim_ok d size s s' : shape_ok s -> set_dim d size s = Some s' ->
  shape_ok s' /\ dim_sizes s' = <[Z.to_nat d := size]> (dim_sizes s) /\ data_type s' = data_type s.
Proof.
  intros H. unfold set_dim. destruct (_ && _) eqn:E; [|done]. rewrite !andb_true_iff, !Z.leb_le in E. destruct E as [[E1 E2] E3].
  pose proof (ok_rep s H) as Hr. pose proof (ok_ndims s H) as Hl. pose proof (ok_max s H) as Hm.
  assert (Hset : forall r, rep_ok r -> slots r = zinsert (slots (rep s)) d size ->
    RecomputeNumElements (mkShape r (ndims_byte s) (data_type s) (num_elements_ s)) = Some s' ->
    shape_ok s' /\ dim_sizes s' = <[Z.to_nat d := size]> (dim_sizes s) /\ data_type s' = data_type s).
  { intros r Hok Hs Er. apply RecomputeNumElements_ok in Er as (H' & Hr' & Hd'); [|done| |done]; cbn [rep ndims_byte data_type] in *; [|by rewrite Hs, zinsert_length].
    split; [done|]. rewrite (dim_sizes_slots s'), Hr', Hs, (dim_sizes_slots s), zinsert_eq by auto. done. }
  assert (Hup : match AddDims (zinsert (AppendTo s []) d size) (ClearAllButDataType s) with Some t => RecomputeNumElements t | None => None end = Some s' ->
    shape_ok s' /\ dim_sizes s' = <[Z.to_nat d := size]> (dim_sizes s) /\ data_type s' = data_type s).
  { destruct (AddDims _ _) as [s1|] eqn:Ea; [|done]. apply AddDims_ok in Ea as (H1 & Hs1 & Hd1); [|apply cleared_ok]. intros Er.
    apply RecomputeNumElements_ok in Er as (H2 & Hr2 & Hd2); [|apply H1|auto|apply H1]. split; [done|].
    rewrite (dim_sizes_slots s'), Hr2, Hs1, (dim_sizes_slots s), AppendTo_slots, zinsert_eq by auto. split; [done|by rewrite Hd2, Hd1]. }
  destruct (rep s) as [l|l|l] eqn:Es; cbn [slots rep_ok] in *.
  - destruct (Z.ltb_spec size kMaxRep16); [|done]. apply Hset; cbn [rep_ok slots]; [|by rewrite s16_dim by lia]. rewrite s16_dim by lia. rewrite zinsert_length. split; [lia|]. apply insert_slots_ok; [apply Hr|lia].
  - destruct (Z.ltb_spec size kMaxRep32); [|done]. apply Hset; cbn [rep_ok slots]; [|by rewrite s32_dim by lia]. rewrite s32_dim by lia. rewrite zinsert_length. split; [lia|]. apply insert_slots_ok; [apply Hr|lia].
  - apply Hset; cbn [rep_ok slots]; [|done]. by apply insert_slots_ok.
Qed.

Lemma dim_size_sizes s d : shape_ok s -> dim_size s d = dim_sizes s !!z d.
Proof.
  intros H. rewrite dim_sizes_slots by auto. unfold dim_size, dims. rewrite <- (ok_ndims s H). destruct (_ && _) eqn:E; [done|].
  unfold zlookup, zlength in *. destruct (Z.ltb_spec d 0); [done|]. rewrite (proj2 (Z.leb_le 0 d)) in E by lia. cbn in E. apply Z.ltb_ge in E.
  symmetry. apply lookup_ge_None. lia.
Qed.
Lemma dims_sizes s : shape_ok s -> dims s = zlength (dim_sizes s).
Proof. intros H. rewrite dim_sizes_slots by auto. symmetry. by apply ok_ndims. Qed.
Lemma same_sizes_spec n i a b da db : same_sizes n i a b da db = true <-> forall j, i <= j < i + Z.of_nat n -> dim_size a (da + j) = dim_size b (db + j).
Proof.
  revert i. induction n as [|n IH]; intros i; cbn [same_sizes]; [split; [intros _ j Hj; lia|done]|]. rewrite andb_true_iff, bool_decide_eq_true, IH. split.
  - intros [H1 H2] j Hj. destruct (decide (j = i)) as [->|Hne]; [done|]. apply H2. lia.
  - intros H. split; [apply H; lia|]. intros j Hj. apply H. lia.
Qed.
Lemma zlookup_nat {A} (l : list A) i : l !!z Z.of_nat i = l !! i.
Proof. unfold zlookup. by rewrite (proj2 (Z.ltb_ge _ _)), Nat2Z.id by lia. Qed.
Lemma EndsWith_spec a b : shape_ok a -> shape_ok b -> EndsWith a b = true <-> exists l, dim_sizes a = l ++ dim_sizes b.
Proof.
  intros Ha Hb. unfold EndsWith. rewrite andb_true_iff, same_sizes_spec, !dims_sizes, negb_true_iff, Z.ltb_ge by done.
  setoid_rewrite dim_size_sizes; [|done..]. unfold zlength. split.
  - intros [Hl H]. exists (take (length (dim_sizes a) - length (dim_sizes b)) (dim_sizes a)).
    rewrite <- (take_drop (length (dim_sizes a) - length (dim_sizes b)) (dim_sizes a)) at 1. f_equal. apply list_eq_same_length with (n := length (dim_sizes b)); [done|rewrite length_drop; lia|].
    intros i x y Hi Hx Hy. rewrite lookup_drop in Hx. specialize (H (Z.of_nat i) ltac:(lia)). rewrite Z.add_0_l in H.
    replace (Z.of_nat (length (dim_sizes a)) - Z.of_nat (length (dim_sizes b)) + Z.of_nat i) with (Z.of_nat (length (dim_sizes a) - length (dim_sizes b) + i)) in H by lia.
    rewrite !zlookup_nat in H. congruence.
  - intros [l E]. rewrite E, length_app. split; [lia|]. intros j Hj. rewrite Z.add_0_l. replace j with (Z.of_nat (Z.to_nat j)) by lia.
    replace (Z.of_nat (length l + length (dim_sizes b)) - Z.of_nat (length (dim_sizes b)) + Z.of_nat (Z.to_nat j)) with (Z.of_nat (length l + Z.to_nat j)) by lia.
    rewrite !zlookup_nat. rewrite lookup_app_r by lia. f_equal. lia.
Qed.
Lemma StartsWith_spec a b : shape_ok a -> shape_ok b -> StartsWith a b = true <-> exists l, dim_sizes a = dim_sizes b ++ l.
Proof.
  intros Ha Hb. unfold StartsWith. rewrite andb_true_iff, same_sizes_spec, !dims_sizes, negb_true_iff, Z.ltb_ge by done.
  setoid_rewrite dim_size_sizes; [|done..]. unfold zlength. split.
  - intros [Hl H]. exists (drop (length (dim_sizes b)) (dim_sizes a)). rewrite <- (take_drop (length (dim_sizes b)) (dim_sizes a)) at 1. f_equal.
    apply list_eq_same_length with (n := length (dim_sizes b)); [done|rewrite length_take; lia|].
    intros i x y Hi Hx Hy. rewrite lookup_take_lt in Hx by done. specialize (H (Z.of_nat i) ltac:(lia)). rewrite !Z.add_0_l, !zlookup_nat in H. congruence.
  - intros [l E]. rewrite E, length_app. split; [lia|]. intros j Hj. rewrite !Z.add_0_l. replace j with (Z.of_nat (Z.to_nat j)) by lia.
    rewrite !zlookup_nat. rewrite lookup_app_l by lia. done.
Qed.
Lemma IsSameSize_spec a b : shape_ok a -> shape_ok b -> IsSameSize a b = true <-> dim_sizes a = dim_sizes b.
Proof.
  intros Ha Hb. transitivity (zlength (dim_sizes b) = zlength (dim_sizes a) /\ StartsWith b a = true).
  - unfold IsSameSize, StartsWith. rewrite !andb_true_iff, !same_sizes_spec, !dims_sizes, Z.eqb_eq, negb_true_iff, Z.ltb_ge by done.
    split; [intros [H1 H2]; split; [done|]; split; [lia|]|intros [H1 [_ H2]]; split; [done|]]; intros j Hj; symmetry; by apply H2.
  - rewrite StartsWith_spec by done. split.
    + intros [Hl [l E]]. rewrite E, zlength_app in Hl. unfold zlength in Hl. assert (l = []) as -> by (apply nil_length_inv; lia). by rewrite app_nil_r in E.
    + intros E. rewrite E. split; [done|]. exists []. by rewrite app_nil_r.
Qed.

(** ** Number of elements *)

(** Non-negative sizes whose products, multiplied in order from [p], stay
    within the limit. *)
Definition within_from (p : Z) (sizes : list Z) : Prop := Forall (fun x => 0 <= x) sizes /\ forall k, p * product (take k sizes) <= kMaxElements.
Definition within (sizes : list Z) : Prop := zlength sizes <= MaxDimensions /\ within_from 1 sizes.
Lemma within_cons p size sizes : 0 <= p -> within_from p (size :: sizes) -> 0 <= size /\ 0 <= p * size <= kMaxElements /\ within_from (p * size) sizes.
Proof.
  intros Hp [Hn Hk]. apply Forall_cons in Hn as [H0 Hn]. split; [done|]. split.
  - pose proof (Hk 1%nat) as H. cbn in H. rewrite take_0 in H. cbn in H. rewrite Z.mul_1_r in H. lia.
  - split; [done|]. intros k. specialize (Hk (S k)). cbn in Hk. fold (product (take k sizes)) in Hk. lia.
Qed.
Lemma s64_small x : 0 <= x <= kMaxElements -> s64 x = x.
Proof. change kMaxElements with (2 ^ 40). intros. apply s64_id. lia. Qed.
Lemma times_checked_small n size : 0 <= n * size <= kMaxElements -> times_checked n size = Some (n * size).
Proof. intros H. unfold times_checked. rewrite s64_small by done. by rewrite (proj2 (Z.leb_le 0 _)), (proj2 (Z.leb_le _ kMaxElements)) by lia. Qed.
Lemma AddDims_within sizes s : shape_ok s -> within_from (num_elements_ s) sizes -> ndims_byte s + zlength sizes <= MaxDimensions ->
  exists s', AddDims sizes s = Some s' /\ num_elements_ s' = num_elements_ s * product sizes.
Proof.
  revert s. induction sizes as [|size sizes IH]; intros s H Hw Hl; [exists s; split; [done|]; cbn; lia|].
  apply within_cons in Hw as (H0 & Hb & Hw); [|by apply H]. unfold zlength in Hl. cbn [length] in Hl.
  assert (E : AddDim size s = Some (mkShape (add_rep s size) (u8 (ndims_byte s + 1)) (data_type s) (num_elements_ s * size))).
  { unfold AddDim. rewrite (proj2 (Z.leb_le 0 size)), (proj2 (Z.ltb_lt _ _)) by lia. cbn [andb]. by rewrite times_checked_small. }
  destruct (AddDim_ok _ _ _ H E) as (H1 & _). destruct (IH _ H1) as (s' & Es & En); [done| |].
  - cbn. unfold u8, MaxDimensions in *. pose proof (ok_ndims s H) as Hnd. unfold zlength in *. rewrite Z.mod_small by lia. lia.
  - exists s'. split; [cbn [AddDims]; by rewrite E|]. rewrite En. cbn [product fold_right num_elements_]. fold (product sizes). ring.
Qed.
Lemma valid_loop_within n sizes : 0 <= n -> within_from n sizes -> valid_loop n sizes = true.
Proof.
  revert n. induction sizes as [|size sizes IH]; intros n Hn Hw; [done|]. apply within_cons in Hw as (H0 & Hb & Hw); [|done]. cbn.
  rewrite (proj2 (Z.ltb_ge size 0)), s64_small, (proj2 (Z.ltb_ge kMaxElements _)) by lia. apply IH; [lia|done].
Qed.
Lemma make_loop_AddDims sizes s s' : Forall (fun x => 0 <= x) sizes -> AddDims sizes s = Some s' -> make_loop sizes s = Some (OK, s').
Proof.
  intros H. revert s. induction H as [|size sizes Hs _ IH]; intros s; cbn; [by intros [= ->]|]. rewrite (proj2 (Z.leb_le 0 size)) by done.
  destruct (AddDim size s) as [s1|]; [|done]. apply IH.
Qed.
Lemma valid_shape_loop_ok proto n sizes : ok (valid_shape_loop proto n sizes) = valid_loop n sizes.
Proof. revert n. induction sizes as [|size sizes IH]; intros n; [done|]. cbn. destruct (size <? 0); [done|]. destruct (kMaxElements <? _); [done|]. apply IH. Qed.

(** C35: Every operation keeps a shape well formed (the sizes fit the slots of
    the representation, the byte counts them, the number of elements is their
    product modulo 2^64 and between 0 and 2^40), keeps the data type, and acts
    on the list of sizes as it says, through every change of representation:
    [AddDim] appends, [InsertDim] inserts, [set_dim] updates, [RemoveDim]
    removes, [AppendShape] concatenates. [IsSameSize], [StartsWith] and
    [EndsWith] decide equality, prefix and suffix of the sizes whatever the
    representations of the two shapes. *)
Theorem tensor_shape_ops s t : shape_ok s -> shape_ok t ->
  (forall sizes r, TensorShape_of sizes = Some r -> shape_ok r /\ dim_sizes r = sizes) /\
  (forall size r, AddDim size s = Some r -> shape_ok r /\ dim_sizes r = dim_sizes s ++ [size] /\ data_type r = data_type s) /\
  (forall r, AppendShape t s = Some r -> shape_ok r /\ dim_sizes r = dim_sizes s ++ dim_sizes t /\ data_type r = data_type s) /\
  (forall d size r, InsertDim d size s = Some r ->
     shape_ok r /\ dim_sizes r = take (Z.to_nat d) (dim_sizes s) ++ [size] ++ drop (Z.to_nat d) (dim_sizes s) /\ data_type r = data_type s) /\
  (forall d size r, set_dim d size s = Some r -> shape_ok r /\ dim_sizes r = <[Z.to_nat d := size]> (dim_sizes s) /\ data_type r = data_type s) /\
  (forall d r, RemoveDim d s = Some r -> shape_ok r /\ dim_sizes r = base.delete (Z.to_nat d) (dim_sizes s) /\ data_type r = data_type s) /\
  (IsSameSize s t = true <-> dim_sizes s = dim_sizes t) /\
  (StartsWith s t = true <-> exists l, dim_sizes s = dim_sizes t ++ l) /\
  (EndsWith s t = true <-> exists l, dim_sizes s = l ++ dim_sizes t).
Proof.
  intros Hs Ht. split_and!.
  - intros sizes r E. apply AddDims_ok in E as (H & Hr & _); [|apply new_shape_ok]. split; [done|]. by rewrite dim_sizes_slots, Hr by auto.
  - intros size r E. apply AddDim_ok in E as (H & Hr & Hd); [|done]. rewrite !dim_sizes_slots, Hr by auto. done.
  - intros r E. apply AddDims_ok in E as (H & Hr & Hd); [|done]. rewrite (dim_sizes_slots r), Hr, (dim_sizes_slots s) by auto. done.
  - intros d size r. by apply InsertDim_ok.
  - intros d size r. by apply set_dim_ok.
  - intros d r. by apply RemoveDim_ok.
  - by apply IsSameSize_spec.
  - by apply StartsWith_spec.
  - by apply EndsWith_spec.
Qed.
Definition demo_shape : TensorShape := mkShape (Rep32 [3; 40000]) 2 1 120000.
Lemma demo_shape_ok : shape_ok demo_shape.
Proof. split; cbn; try done; try lia. split; [done|]. repeat constructor; vm_compute; done. Qed.
Lemma tensor_shape_ops_witness : exists r, AddDim 7 demo_shape = Some r /\ dim_sizes r = [3; 40000; 7].
Proof.
  destruct (tensor_shape_ops demo_shape demo_shape demo_shape_ok demo_shape_ok) as (_ & H & _). eexists. split; [reflexivity|].
  exact (proj1 (proj2 (H 7 _ eq_refl))).
Defined.

(** C37: When the sizes are non-negative, at most 255, and their products taken
    in order stay at most 2^40, validation accepts them, every constructor
    succeeds, and the number of elements is the product of the sizes. Beyond
    that limit the products wrap around: [IsValid] accepts a proto on which
    the constructor then fails its [CHECK], and accepts another whose shape
    has a number of elements that is not the product of its sizes. *)
Theorem tensor_shape_elements sizes : within sizes ->
  (IsValid sizes = true /\ ok (IsValidShape sizes) = true /\
   exists s, TensorShape_of sizes = Some s /\ MakeShape sizes = Some (OK, s) /\ dim_sizes s = sizes /\ num_elements s = product sizes) /\
  (exists l, IsValid l = true /\ ok (IsValidShape l) = true /\ TensorShape_of l = None) /\
  (exists l s, IsValid l = true /\ TensorShape_of l = Some s /\ num_elements s <> product l).
Proof.
  intros [Hl Hw]. split_and!.
  - unfold IsValid. rewrite (proj2 (Z.ltb_ge MaxDimensions _)) by done. by apply valid_loop_within.
  - unfold IsValidShape. rewrite (proj2 (Z.ltb_ge MaxDimensions _)), valid_shape_loop_ok by done. by apply valid_loop_within.
  - destruct (AddDims_within sizes new_TensorShape new_shape_ok Hw Hl) as (s & E & En). exists s. split; [done|].
    destruct (AddDims_ok _ _ _ new_shape_ok E) as (H & Hs & _). split_and!.
    + unfold MakeShape. rewrite (proj2 (Z.ltb_ge MaxDimensions _)) by done. apply make_loop_AddDims; [apply Hw|done].
    + by rewrite dim_sizes_slots, Hs by auto.
    + unfold num_elements. rewrite En. cbn [num_elements_ new_TensorShape]. lia.
  - exists [2 ^ 40; 2 ^ 23]. split_and!; reflexivity.
  - exists [2 ^ 40; 2 ^ 24]. eexists. split_and!; [reflexivity|reflexivity|]. vm_compute. discriminate.
Qed.
Lemma tensor_shape_elements_witness : exists s, TensorShape_of [3; 0; 70000] = Some s /\ num_elements s = 0.
Proof.
  destruct (tensor_shape_elements [3; 0; 70000]) as [(_ & _ & s & H1 & _ & _ & H2) _]; [|exists s; exact (conj H1 H2)].
  split; [discriminate|]. split; [repeat constructor; discriminate|]. intros [|[|[|[|k]]]]; vm_compute; discriminate.
Defined.
End TensorShape.
