(* ===== verification/Bcast.v ===== *)
(** * Broadcasting

    [BCast] of [core/util/bcast.{h,cc}]: from the shapes of two operands, the
    shape of the result and the reshapes and broadcasts that compute it, with
    runs of dimensions of the same kind merged. The theorems compare what an
    element of the result reads through them with the broadcasting rule. *)
From S2P Require Import Prelude TensorShape.

Module Bcast.

(** ** The constructor *)

Record BCast := mkBCast {
  valid_ : bool;
  x_reshape_ : list Z;
  x_bcast_ : list Z;
  y_reshape_ : list Z;
  y_bcast_ : list Z;
  result_ : list Z;
  output_ : list Z;
  grad_x_reduce_idx_ : list Z;
  grad_y_reduce_idx_ : list Z
}.
Definition empty_BCast : BCast := mkBCast true [] [] [] [] [] [] [] [].
Inductive State := UNKNOWN | SAME | X_ONE | Y_ONE.
#[global] Instance State_eq_dec : EqDecision State.
Proof. solve_decision. Defined.

(** [v.back() *= m] *)
Definition mul_back (v : list Z) (m : Z) : option (list Z) :=
  match rev v with [] => None | l :: r => Some (rev (s64 (l * m) :: r)) end.
(** [resize(n, 1)] of a vector that is not longer than [n]. *)
Definition extend (n : nat) (v : list Z) : list Z := v ++ replicate (n - length v) 1.

(** The output size, the broadcasts of [x] and [y], and the case. *)
Definition classify (x_i y_i : Z) : option (Z * Z * Z * State) :=
  if x_i =? y_i then Some (x_i, 1, 1, SAME)
  else if x_i =? 1 then Some (y_i, y_i, 1, X_ONE)
  else if y_i =? 1 then Some (x_i, 1, x_i, Y_ONE)
  else None.
Definition set_valid (v : bool) (b : BCast) : BCast :=
  mkBCast v (x_reshape_ b) (x_bcast_ b) (y_reshape_ b) (y_bcast_ b) (result_ b) (output_ b) (grad_x_reduce_idx_ b) (grad_y_reduce_idx_ b).
Definition push_output (o : Z) (gx gy : list Z) (b : BCast) : BCast :=
  mkBCast (valid_ b) (x_reshape_ b) (x_bcast_ b) (y_reshape_ b) (y_bcast_ b) (result_ b) (output_ b ++ [o])
    (grad_x_reduce_idx_ b ++ gx) (grad_y_reduce_idx_ b ++ gy).
Definition push_dim (o x bx y by_ : Z) (b : BCast) : BCast :=
  mkBCast (valid_ b) (x_reshape_ b ++ [x]) (x_bcast_ b ++ [bx]) (y_reshape_ b ++ [y]) (y_bcast_ b ++ [by_]) (result_ b ++ [o])
    (output_ b) (grad_x_reduce_idx_ b) (grad_y_reduce_idx_ b).
Definition merge_dim (o x bx y by_ : Z) (b : BCast) : option BCast :=
  result ← mul_back (result_ b) o;
  xr ← mul_back (x_reshape_ b) x;
  xb ← mul_back (x_bcast_ b) bx;
  yr ← mul_back (y_reshape_ b) y;
  yb ← mul_back (y_bcast_ b) by_;
  Some (mkBCast (valid_ b) xr xb yr yb result (output_ b) (grad_x_reduce_idx_ b) (grad_y_reduce_idx_ b)).

Definition push_grads (d : Z) (b : BCast) : BCast :=
  mkBCast (valid_ b) (x_reshape_ b) (x_bcast_ b) (y_reshape_ b) (y_bcast_ b) (result_ b) (output_ b)
    (grad_x_reduce_idx_ b ++ [d]) (grad_y_reduce_idx_ b ++ [d]).

(** One turn of the loop; no next state means that the constructor returns. *)
Definition bcast_dim (fewer : bool) (n i x_i y_i : Z) (prev : State) (b : BCast) : outcome (option State * BCast) :=
  if negb (0 <=? x_i) then Aborts
  else if negb (0 <=? y_i) then Aborts
  else
    match classify x_i y_i with
    | None => Done (None, set_valid false b)
    | Some (o_i, bx_i, by_i, curr) =>
        let gx := match curr with X_ONE => [n - 1 - i] | _ => [] end in
        let gy := match curr with Y_ONE => [n - 1 - i] | _ => [] end in
        let b := push_output o_i gx gy b in
        if bool_decide (curr = SAME) && (x_i =? 1) then
          let b := push_grads (n - 1 - i) b in
          Done (Some prev, if negb fewer then push_dim o_i x_i bx_i y_i by_i b else b)
        else if fewer && bool_decide (prev = curr) then
          match merge_dim o_i x_i bx_i y_i by_i b with Some b' => Done (Some curr, b') | None => Aborts end
        else Done (Some curr, push_dim o_i x_i bx_i y_i by_i b)
    end.
(** The loop, and whether it ran to its end. *)
Fixpoint bcast_loop (fewer : bool) (n i : Z) (dims : list (Z * Z)) (prev : State) (b : BCast) : outcome (bool * BCast) :=
  match dims with
  | [] => Done (true, b)
  | (x_i, y_i) :: dims' =>
      match bcast_dim fewer n i x_i y_i prev b with
      | Done (Some prev', b') => bcast_loop fewer n (i + 1) dims' prev' b'
      | Done (None, b') => Done (false, b')
      | Aborts => Aborts
      | Diverges => Diverges
      end
  end.
Definition reverse_all (b : BCast) : BCast :=
  mkBCast (valid_ b) (rev (x_reshape_ b)) (rev (x_bcast_ b)) (rev (y_reshape_ b)) (rev (y_bcast_ b)) (rev (result_ b)) (rev (output_ b))
    (rev (grad_x_reduce_idx_ b)) (rev (grad_y_reduce_idx_ b)).
Definition BCast_new (sx sy : list Z) (fewer_dims_optimization : bool) : outcome BCast :=
  if bool_decide (sx = sy) && fewer_dims_optimization then
    let elements := fold_left (fun e dim => s64 (e * dim)) sx 1 in
    Done (mkBCast true [elements] [1] [elements] [1] [elements] sx [] [])
  else
    let x := rev sx in
    let y := rev sy in
    let n := Nat.max (length x) (length y) in
    let x := extend n x in
    let y := extend n y in
    match bcast_loop fewer_dims_optimization (Z.of_nat n) 0 (combine x y) UNKNOWN empty_BCast with
    | Done (false, b) => Done b
    | Done (true, b) =>
        let b := match result_ b with [] => push_dim 1 1 1 1 1 b | _ => b end in
        Done (reverse_all b)
    | Aborts => Aborts
    | Diverges => Diverges
    end.

Definition FromShape (shape : TensorShape.TensorShape) : list Z :=
  omap (fun i => TensorShape.dim_size shape (Z.of_nat i)) (seq 0 (Z.to_nat (TensorShape.dims shape))).
Definition ToShape (vec : list Z) : option TensorShape.TensorShape := TensorShape.TensorShape_of vec.

(** ** The broadcasting rule

    Two shapes are aligned at their last dimensions; missing dimensions are 1;
    two dimensions agree when they are equal or one of them is 1. *)

Fixpoint shape_rule (xs ys : list Z) : option (list Z) :=
  match xs, ys with
  | [], ys => Some ys
  | xs, [] => Some xs
  | x :: xs', y :: ys' =>
      os ← shape_rule xs' ys';
      if (x =? y) || (y =? 1) then Some (x :: os) else if x =? 1 then Some (y :: os) else None
  end.
Definition numpy_shape (sx sy : list Z) : option (list Z) := @rev Z <$> shape_rule (rev sx) (rev sy).

(** The element of an operand that the element [k] of the output reads, both in
    row-major order: its coordinates are those of [k], but 0 in a dimension of
    size 1. Inner-most dimension first. *)
Fixpoint operand_index (xs os : list Z) (k : Z) : Z :=
  match xs, os with
  | x :: xs', o :: os' => (if x =? 1 then 0 else k mod o) + x * operand_index xs' os' (k / o)
  | _, _ => 0
  end.
Definition numpy_index (sx out : list Z) (k : Z) : Z := operand_index (rev sx) (rev out) k.

(** The same for a tensor of shape [ds] each of whose dimensions is repeated
    [bs] times, as Eigen's [broadcast] does. *)
Fixpoint repeat_index (ds bs : list Z) (k : Z) : Z :=
  match ds, bs with
  | d :: ds', b :: bs' => (k mod (d * b)) mod d + d * repeat_index ds' bs' (k / (d * b))
  | _, _ => 0
  end.
Definition eigen_index (reshape bcast : list Z) (k : Z) : Z := repeat_index (rev reshape) (rev bcast) k.

(** The element of the tensor left when the dimensions [idx] are summed over,
    to which the element [k] contributes. [d] is the number of the inner-most
    dimension. *)
Fixpoint kept_index (idx os : list Z) (d k : Z) : Z :=
  match os with
  | o :: os' => if bool_decide (d ∈ idx) then kept_index idx os' (d - 1) (k / o) else k mod o + o * kept_index idx os' (d - 1) (k / o)
  | [] => 0
  end.
Fixpoint kept_sizes (idx os : list Z) (d : Z) : list Z :=
  match os with
  | o :: os' => if bool_decide (d ∈ idx) then kept_sizes idx os' (d - 1) else o :: kept_sizes idx os' (d - 1)
  | [] => []
  end.
Definition reduced_shape (idx out : list Z) : list Z := rev (kept_sizes idx (rev out) (zlength out - 1)).
Definition reduced_index (idx out : list Z) (k : Z) : Z := kept_index idx (rev out) (zlength out - 1) k.

(** ** Shapes as products *)

Abbreviation product := TensorShape.product.
Lemma product_cons x l : product (x :: l) = x * product l.
Proof. done. Qed.
Lemma product_snoc l x : product (l ++ [x]) = product l * x.
Proof. rewrite TensorShape.product_app, product_cons. cbn. lia. Qed.
Lemma product_rev l : product (rev l) = product l.
Proof. induction l as [|x l IH]; [done|]. cbn [rev]. rewrite product_snoc, IH, product_cons. lia. Qed.
Lemma product_ones n : product (replicate n 1) = 1.
Proof. induction n as [|n IH]; [done|]. cbn [replicate]. rewrite product_cons, IH. done. Qed.
Definition positive (l : list Z) : Prop := Forall (fun d => 1 <= d) l.
Lemma product_positive l : positive l -> 1 <= product l.
Proof. induction 1 as [|d l Hd Hl IH]; [done|]. rewrite product_cons. nia. Qed.
Lemma positive_product l : Forall (fun d => 0 <= d) l -> 0 < product l -> positive l.
Proof.
  induction 1 as [|d l Hd Hl IH]; [constructor|]. rewrite product_cons. intros Hp.
  assert (0 <= product l) by (clear -Hl; induction Hl as [|e l He Hl IH]; [done|]; rewrite product_cons; nia).
  constructor; [nia|]. apply IH. nia.
Qed.

(** ** Indices *)

Lemma zip_product R B : length R = length B -> product (zip_with Z.mul R B) = product R * product B.
Proof. revert B. induction R as [|r R IH]; intros [|b B] Hl; try done. cbn [zip_with]. rewrite !product_cons, IH by (by injection Hl). lia. Qed.
Lemma zip_positive R B : positive (zip_with Z.mul R B) -> length R = length B -> Forall (fun d => 0 <= d) R -> Forall (fun d => 0 <= d) B -> positive R /\ positive B.
Proof.
  intros Hz Hl HR HB. revert B Hl Hz HB. induction HR as [|r R Hr HR IH]; intros [|b B] Hl Hz HB; try done.
  cbn in Hz. inversion_clear Hz. inversion_clear HB. destruct (IH B) as [? ?]; [by injection Hl|done..|]. split; constructor; try done; nia.
Qed.

Lemma operand_index_snoc xs os x o k : length xs = length os -> positive os ->
  operand_index (xs ++ [x]) (os ++ [o]) k = operand_index xs os k + product xs * (if x =? 1 then 0 else (k / product os) mod o).
Proof.
  intros Hl Hp. revert xs k Hl. induction Hp as [|o' os Ho Hp IH]; intros [|x' xs] k Hl; try done.
  - cbn. rewrite Z.div_1_r. lia.
  - cbn [app operand_index]. rewrite IH by (by injection Hl). pose proof (product_positive os Hp). rewrite !product_cons, Z.div_div by lia. lia.
Qed.
Lemma repeat_index_snoc R B r b k : length R = length B -> positive (zip_with Z.mul R B) ->
  repeat_index (R ++ [r]) (B ++ [b]) k =
  repeat_index R B k + product R * (((k / product (zip_with Z.mul R B)) mod (r * b)) mod r).
Proof.
  revert B k. induction R as [|r' R IH]; intros [|b' B] k Hl Hp; try done.
  - cbn. rewrite Z.div_1_r. lia.
  - cbn in Hp. inversion_clear Hp as [|?? Hrb Hp']. cbn [app repeat_index zip_with]. rewrite IH by (try done; by injection Hl).
    pose proof (product_positive _ Hp'). rewrite !product_cons, Z.div_div by lia. lia.
Qed.
Lemma operand_index_ones n os k : operand_index (replicate n 1) os k = 0.
Proof. revert os k. induction n as [|n IH]; intros [|o os] k; try done. cbn [replicate operand_index]. rewrite IH. done. Qed.
Lemma operand_index_extend n xs os k : operand_index (extend n xs) os k = operand_index xs os k.
Proof.
  unfold extend. generalize (n - length xs)%nat. intros m. revert os k. induction xs as [|x xs IH]; intros os k.
  - cbn [app]. rewrite operand_index_ones. by destruct os.
  - destruct os as [|o os]; [done|]. cbn [app operand_index]. by rewrite IH.
Qed.
Lemma operand_index_same xs k : positive xs -> operand_index xs xs k = k mod product xs.
Proof.
  intros Hp. revert k. induction Hp as [|x xs Hx Hp IH]; intros k; [by rewrite Z.mod_1_r|]. cbn [operand_index]. pose proof (product_positive xs Hp).
  rewrite IH, product_cons, (Z.mul_comm x), Z.mul_comm, Z.rem_mul_r by lia. destruct (Z.eqb_spec x 1) as [->|]; [by rewrite Z.mod_1_r|done].
Qed.

(** ** One operand through the loop

    The reshape [R] and broadcast [B] so far read the same elements as the rule
    on the dimensions [xs] gone through, and multiply to the partial result. *)

Record side (R B res xs os : list Z) : Prop := {
  sd_len : length R = length B;
  sd_zip : zip_with Z.mul R B = res;
  sd_total : product res = product os;
  sd_prod : product R = product xs;
  sd_pos : positive R /\ positive B;
  sd_idx k : repeat_index R B k = operand_index xs os k
}.
Lemma side_res_positive R B res xs os : side R B res xs os -> positive res.
Proof.
  intros H. rewrite <- (sd_zip _ _ _ _ _ H). destruct (sd_pos _ _ _ _ _ H) as [HR HB].
  pose proof (sd_len _ _ _ _ _ H) as Hl. clear H. revert B Hl HB. induction HR as [|r R Hr HR IH]; intros [|b B] Hl HB; try done.
  inversion_clear HB. cbn [zip_with]. constructor; [nia|]. apply IH; [by injection Hl|done].
Qed.
Lemma side_nil : side [] [] [] [] [].
Proof. split; try done. split; constructor. Qed.

Section SideSteps.
Context (R B res xs os : list Z) (x bx o : Z).
Hypothesis Hos : positive os.
Hypothesis Hlen : length xs = length os.
Hypothesis Ho : o = x * bx.
Hypothesis Hx : 1 <= x.
Hypothesis Hbx : 1 <= bx.

(** The coordinate that the operand uses in the new dimension. *)
Lemma coordinate q : x = 1 \/ bx = 1 -> (q mod o) mod x = if x =? 1 then 0 else q mod o.
Proof.
  intros [->| ->].
  - by rewrite Z.mod_1_r.
  - rewrite Ho, Z.mul_1_r, Z.mod_mod by lia. destruct (Z.eqb_spec x 1) as [->|]; [by rewrite Z.mod_1_r|done].
Qed.
Lemma side_push : side R B res xs os -> x = 1 \/ bx = 1 -> side (R ++ [x]) (B ++ [bx]) (res ++ [o]) (xs ++ [x]) (os ++ [o]).
Proof.
  intros H Hc. pose proof (side_res_positive _ _ _ _ _ H) as Hres. destruct H as [Hl Hz Ht Hp [HR HB] Hi]. split.
  - rewrite !length_app. cbn. lia.
  - rewrite zip_with_app by done. by rewrite Hz, Ho.
  - by rewrite !product_snoc, Ht.
  - by rewrite !product_snoc, Hp.
  - split; apply Forall_app; (split; [done|by constructor]).
  - intros k. rewrite repeat_index_snoc, operand_index_snoc by (rewrite ?Hz; done). rewrite Hi, Hz, Ht, Hp, <- Ho. by rewrite coordinate.
Qed.
Lemma side_skip : side R B res xs os -> x = 1 -> bx = 1 -> side R B res (xs ++ [x]) (os ++ [o]).
Proof.
  intros [Hl Hz Ht Hp Hpos Hi] -> ->. rewrite Ho. split; try done.
  - rewrite product_snoc, Ht. lia.
  - rewrite product_snoc, Hp. lia.
  - intros k. rewrite operand_index_snoc, Hi by done. cbn. lia.
Qed.
Lemma side_merge r b q : side (R ++ [r]) (B ++ [b]) (res ++ [q]) xs os -> (b = 1 /\ bx = 1) \/ (r = 1 /\ x = 1) ->
  side (R ++ [r * x]) (B ++ [b * bx]) (res ++ [q * o]) (xs ++ [x]) (os ++ [o]).
Proof.
  intros H Hc. pose proof (side_res_positive _ _ _ _ _ H) as Hres. destruct H as [Hl Hz Ht Hp [HR HB] Hi].
  rewrite !length_app in Hl. cbn in Hl. assert (Hl' : length R = length B) by lia.
  rewrite zip_with_app in Hz by done. apply app_inj_tail in Hz as [Hz Hq]. apply Forall_app in HR as [HR Hr], HB as [HB Hb], Hres as [Hres Hq1].
  inversion_clear Hr as [|?? Hr' _]. inversion_clear Hb as [|?? Hb' _]. rewrite !product_snoc in *. pose proof (product_positive _ Hres).
  split.
  - rewrite !length_app. cbn. lia.
  - rewrite zip_with_app by done. rewrite Hz, <- Hq, Ho. cbn [zip_with]. do 2 f_equal. ring.
  - rewrite !product_snoc, <- Ht. ring.
  - rewrite !product_snoc, <- Hp. ring.
  - split; apply Forall_app; (split; [done|constructor; [nia|constructor]]).
  - intros k. rewrite repeat_index_snoc, operand_index_snoc by (rewrite ?Hz; done). rewrite <- Hi, repeat_index_snoc, Hz, <- Ht, <- Hp by (rewrite ?Hz; done).
    rewrite <- Z.div_div by lia. set (t := k / product res). rewrite <- Hq. destruct Hc as [[-> ->]|[-> ->]].
    + rewrite !Z.mul_1_r, !Z.mod_mod, Z.rem_mul_r by nia. rewrite Ho, Z.mul_1_r.
      destruct (Z.eqb_spec x 1) as [->|]; [rewrite Z.mod_1_r|]; ring.
    + rewrite !Z.mul_1_l, !Z.mod_1_r. cbn [Z.eqb Pos.eqb]. ring.
Qed.
End SideSteps.

(** ** The loop *)

(** The dimensions of size 1 of an operand, inner-most first. *)
Fixpoint ones_from (n i : Z) (xs : list Z) : list Z :=
  match xs with [] => [] | x :: xs' => (if x =? 1 then [n - 1 - i] else []) ++ ones_from n (i + 1) xs' end.
Lemma ones_from_snoc n i xs x : ones_from n i (xs ++ [x]) = ones_from n i xs ++ (if x =? 1 then [n - 1 - (i + zlength xs)] else []).
Proof.
  revert i. induction xs as [|x' xs IH]; intros i; cbn [app ones_from].
  - rewrite app_nil_r. change (zlength []) with 0. by rewrite Z.add_0_r.
  - rewrite IH, app_assoc. do 2 f_equal. change (zlength (x' :: xs)) with (Z.of_nat (S (length xs))). unfold zlength. by replace (i + 1 + Z.of_nat (length xs)) with (i + Z.of_nat (S (length xs))) by lia.
Qed.

(** What a run of a kind guarantees of its last entries. *)
Definition run_ok (prev : State) (b : BCast) : Prop :=
  match prev with
  | UNKNOWN => True
  | SAME => last (x_bcast_ b) = Some 1 /\ last (y_bcast_ b) = Some 1
  | X_ONE => last (x_reshape_ b) = Some 1 /\ last (y_bcast_ b) = Some 1
  | Y_ONE => last (x_bcast_ b) = Some 1 /\ last (y_reshape_ b) = Some 1
  end.
Definition lengths_ok (b : BCast) : Prop :=
  length (x_reshape_ b) = length (result_ b) /\ length (x_bcast_ b) = length (result_ b) /\
  length (y_reshape_ b) = length (result_ b) /\ length (y_bcast_ b) = length (result_ b).
Record inv (fewer : bool) (n : Z) (px py po : list Z) (prev : State) (b : BCast) : Prop := {
  inv_valid : valid_ b = true;
  inv_output : output_ b = po;
  inv_grads : grad_x_reduce_idx_ b = ones_from n 0 px /\ grad_y_reduce_idx_ b = ones_from n 0 py;
  inv_len : length px = length po /\ length py = length po;
  inv_lengths : lengths_ok b;
  inv_run : run_ok prev b;
  inv_full : fewer = false -> length (result_ b) = length po;
  inv_sides : positive po -> product po < 2 ^ 63 ->
    side (x_reshape_ b) (x_bcast_ b) (result_ b) px po /\ side (y_reshape_ b) (y_bcast_ b) (result_ b) py po
}.

(** What a turn needs of the sizes, whatever the case. *)
Definition joined (x y : Z) : option Z := if (x =? y) || (y =? 1) then Some x else if x =? 1 then Some y else None.
Definition case_ok (x bx y by_ : Z) (curr : State) : Prop :=
  match curr with SAME => bx = 1 /\ by_ = 1 | X_ONE => x = 1 /\ by_ = 1 | Y_ONE => bx = 1 /\ y = 1 | UNKNOWN => False end.
Lemma classify_spec x y :
  match classify x y with
  | None => joined x y = None
  | Some (o, bx, by_, curr) => joined x y = Some o /\ o = x * bx /\ o = y * by_ /\ case_ok x bx y by_ curr /\
      (x = 1 <-> curr = X_ONE \/ (curr = SAME /\ x = 1)) /\ (y = 1 <-> curr = Y_ONE \/ (curr = SAME /\ x = 1))
  end.
Proof.
  unfold classify, joined. destruct (Z.eqb_spec x y) as [->|Hne]; cbn [orb].
  { split_and!; try done; try lia; naive_solver. }
  destruct (Z.eqb_spec x 1) as [->|Hx]; destruct (Z.eqb_spec y 1) as [->|Hy]; try done; split_and!; try done; try lia; naive_solver.
Qed.

Lemma mul_back_snoc v l m : mul_back (v ++ [l]) m = Some (v ++ [s64 (l * m)]).
Proof. unfold mul_back. rewrite rev_unit. cbn [rev]. by rewrite rev_involutive. Qed.
Lemma snoc_of_length {A} (v : list A) n : length v = S n -> exists v' l, v = v' ++ [l].
Proof. intros Hl. destruct (exists_last (l := v)) as (v' & l & E); [by intros ->|]. by exists v', l. Qed.
Lemma positive_snoc l x : positive (l ++ [x]) -> positive l /\ 1 <= x.
Proof. intros [H1 H2]%Forall_app. split; [done|]. by inversion H2. Qed.

(** The accumulated products stay in range as long as the output does. *)
Lemma s64_run r b x bx q o tot : 1 <= r -> 1 <= b -> 1 <= x -> 1 <= bx -> q = r * b -> o = x * bx -> 1 <= tot -> tot * q * o < 2 ^ 63 ->
  s64 (r * x) = r * x /\ s64 (b * bx) = b * bx /\ s64 (q * o) = q * o.
Proof.
  intros Hr Hb Hx Hbx -> -> Ht Hlt. assert (1 <= r * x) by nia. assert (1 <= b * bx) by nia.
  assert (r * b * (x * bx) = (r * x) * (b * bx)) as E by ring. assert (r * b * (x * bx) <= tot * (r * b) * (x * bx)) by nia.
  split_and!; apply s64_id; nia.
Qed.

Lemma factors a b : 0 <= a -> 1 <= a * b -> 1 <= a /\ 1 <= b.
Proof. intros Ha Hab. destruct (Z.eq_dec a 0) as [->|]; [lia|]. split; [lia|]. nia. Qed.

(** Under the hypotheses of the turn on the new dimension. *)
Section Turn.
Context (fewer : bool) (n : Z) (px py po : list Z) (prev : State) (b : BCast) (o x bx y by_ : Z).
Hypothesis H : inv fewer n px py po prev b.
Hypothesis Hox : o = x * bx.
Hypothesis Hoy : o = y * by_.
Hypothesis Hx : 0 <= x.
Hypothesis Hy : 0 <= y.

Lemma turn_sides : positive (po ++ [o]) -> product (po ++ [o]) < 2 ^ 63 ->
  (1 <= product po /\ 1 <= x /\ 1 <= bx /\ 1 <= y /\ 1 <= by_) /\ length px = length po /\ length py = length po /\ positive po /\
  side (x_reshape_ b) (x_bcast_ b) (result_ b) px po /\ side (y_reshape_ b) (y_bcast_ b) (result_ b) py po.
Proof.
  intros Hp Hlt. destruct (positive_snoc _ _ Hp) as [Hpo Ho]. rewrite product_snoc in Hlt.
  pose proof (product_positive _ Hpo). destruct (inv_len _ _ _ _ _ _ _ H).
  destruct (factors x bx) as [? ?]; [done|lia|]. destruct (factors y by_) as [? ?]; [done|lia|].
  split; [lia|]. do 3 (split; [done|]). apply (inv_sides _ _ _ _ _ _ _ H Hpo). nia.
Qed.
Lemma push_sides : (x = 1 \/ bx = 1) -> (y = 1 \/ by_ = 1) -> positive (po ++ [o]) -> product (po ++ [o]) < 2 ^ 63 ->
  side (x_reshape_ b ++ [x]) (x_bcast_ b ++ [bx]) (result_ b ++ [o]) (px ++ [x]) (po ++ [o]) /\
  side (y_reshape_ b ++ [y]) (y_bcast_ b ++ [by_]) (result_ b ++ [o]) (py ++ [y]) (po ++ [o]).
Proof.
  intros Hcx Hcy Hp Hlt. destruct (turn_sides Hp Hlt) as ((? & ? & ? & ? & ?) & ? & ? & ? & Sx & Sy).
  split; by apply side_push.
Qed.
Lemma skip_sides : x = 1 -> bx = 1 -> y = 1 -> by_ = 1 -> positive (po ++ [o]) -> product (po ++ [o]) < 2 ^ 63 ->
  side (x_reshape_ b) (x_bcast_ b) (result_ b) (px ++ [x]) (po ++ [o]) /\ side (y_reshape_ b) (y_bcast_ b) (result_ b) (py ++ [y]) (po ++ [o]).
Proof.
  intros Ex Ebx Ey Eby Hp Hlt. destruct (turn_sides Hp Hlt) as ((? & ? & ? & ? & ?) & ? & ? & ? & Sx & Sy).
  split; by eapply side_skip.
Qed.
(** The last entries [r], [c] of [x] and [s], [d] of [y] absorb the
    dimension. *)
Lemma merge_sides R B S D Q r c s d q : x_reshape_ b = R ++ [r] -> x_bcast_ b = B ++ [c] -> y_reshape_ b = S ++ [s] -> y_bcast_ b = D ++ [d] ->
  result_ b = Q ++ [q] -> (c = 1 /\ bx = 1) \/ (r = 1 /\ x = 1) -> (d = 1 /\ by_ = 1) \/ (s = 1 /\ y = 1) ->
  positive (po ++ [o]) -> product (po ++ [o]) < 2 ^ 63 ->
  side (R ++ [s64 (r * x)]) (B ++ [s64 (c * bx)]) (Q ++ [s64 (q * o)]) (px ++ [x]) (po ++ [o]) /\
  side (S ++ [s64 (s * y)]) (D ++ [s64 (d * by_)]) (Q ++ [s64 (q * o)]) (py ++ [y]) (po ++ [o]).
Proof.
  intros ER EB ES ED EQ Hcx Hcy Hp Hlt. destruct (turn_sides Hp Hlt) as ((? & ? & ? & ? & ?) & ? & ? & ? & Sx & Sy).
  rewrite ER, EB, EQ in Sx. rewrite ES, ED, EQ in Sy. rewrite product_snoc in Hlt.
  assert (Hside : forall R B r c xs, side (R ++ [r]) (B ++ [c]) (Q ++ [q]) xs po -> 1 <= r /\ 1 <= c /\ q = r * c /\ 1 <= product Q /\ product Q * q = product po).
  { intros R' B' r' c' xs HS. pose proof (side_res_positive _ _ _ _ _ HS) as [HQ _]%positive_snoc. destruct HS as [Hl Hz Ht _ [HR HB] _].
    apply positive_snoc in HR as [_ ?], HB as [_ ?]. rewrite !length_app in Hl. cbn in Hl. rewrite zip_with_app in Hz by lia.
    apply app_inj_tail in Hz as [_ Hq]. rewrite product_snoc in Ht. pose proof (product_positive _ HQ). done. }
  destruct (Hside _ _ _ _ _ Sx) as (? & ? & Eq & HQ & Et), (Hside _ _ _ _ _ Sy) as (? & ? & Eq' & _).
  destruct (s64_run r c x bx q o (product Q)) as (-> & -> & Eqo); [done..|by rewrite Et|].
  destruct (s64_run s d y by_ q o (product Q)) as (-> & -> & _); [done..|by rewrite Et|]. rewrite Eqo.
  split; by apply side_merge.
Qed.
End Turn.

(** The gradient indices that a turn adds. *)
Lemma grads_snoc n px x g : g = ones_from n 0 px ->
  g ++ (if x =? 1 then [n - 1 - zlength px] else []) = ones_from n 0 (px ++ [x]).
Proof. intros ->. by rewrite ones_from_snoc. Qed.

(** A merge finds entries to merge into. *)
Lemma merge_dim_spec o x bx y by_ prev b : lengths_ok b -> run_ok prev b -> case_ok x bx y by_ prev ->
  exists R B S D Q r c s d q, x_reshape_ b = R ++ [r] /\ x_bcast_ b = B ++ [c] /\ y_reshape_ b = S ++ [s] /\ y_bcast_ b = D ++ [d] /\ result_ b = Q ++ [q] /\
    ((c = 1 /\ bx = 1) \/ (r = 1 /\ x = 1)) /\ ((d = 1 /\ by_ = 1) \/ (s = 1 /\ y = 1)) /\
    merge_dim o x bx y by_ b = Some (mkBCast (valid_ b) (R ++ [s64 (r * x)]) (B ++ [s64 (c * bx)]) (S ++ [s64 (s * y)]) (D ++ [s64 (d * by_)])
      (Q ++ [s64 (q * o)]) (output_ b) (grad_x_reduce_idx_ b) (grad_y_reduce_idx_ b)).
Proof.
  intros (HR & HB & HS & HD) Hrun Hcase. assert (Hne : exists m, length (result_ b) = Datatypes.S m).
  { destruct (length (result_ b)) as [|m] eqn:E; [exfalso|by exists m]. apply nil_length_inv in HR, HB, HS, HD.
    destruct prev; cbn in *; rewrite ?HR, ?HB, ?HS, ?HD in Hrun; cbn in Hrun; naive_solver. }
  destruct Hne as [m Hm]. rewrite Hm in *. apply snoc_of_length in HR as (R & r & ER), HB as (B & c & EB), HS as (S & s & ES), HD as (D & d & ED).
  apply snoc_of_length in Hm as (Q & q & EQ). exists R, B, S, D, Q, r, c, s, d, q. split_and!; try done.
  - destruct prev; cbn in Hrun, Hcase; rewrite ?ER, ?EB, ?last_snoc in Hrun; naive_solver.
  - destruct prev; cbn in Hrun, Hcase; rewrite ?ES, ?ED, ?last_snoc in Hrun; naive_solver.
  - unfold merge_dim. by rewrite ER, EB, ES, ED, EQ, !mul_back_snoc.
Qed.
Lemma merge_run prev b R B S D Q r c s d q x bx y by_ o vx : 
  x_reshape_ b = R ++ [r] -> x_bcast_ b = B ++ [c] -> y_reshape_ b = S ++ [s] -> y_bcast_ b = D ++ [d] ->
  run_ok prev b -> case_ok x bx y by_ prev -> run_ok prev (mkBCast vx (R ++ [s64 (r * x)]) (B ++ [s64 (c * bx)]) (S ++ [s64 (s * y)]) (D ++ [s64 (d * by_)])
      (Q ++ [s64 (q * o)]) (output_ b) (grad_x_reduce_idx_ b) (grad_y_reduce_idx_ b)).
Proof.
  intros ER EB ES ED Hrun Hcase. assert (Hone : forall u v, Some u = Some 1 -> v = 1 -> Some (s64 (u * v)) = Some 1) by (intros u v [= ->] ->; done).
  destruct prev; cbn in *; rewrite ?ER, ?EB, ?ES, ?ED, ?last_snoc in *; try done; destruct Hrun, Hcase; split; by apply Hone.
Qed.

(** The end of a turn that is not a pair of ones. *)
Lemma merge_or_push fewer n px py po prev b o x bx y by_ curr gx gy : inv fewer n px py po prev b -> o = x * bx -> o = y * by_ -> 0 <= x -> 0 <= y ->
  case_ok x bx y by_ curr -> grad_x_reduce_idx_ b ++ gx = ones_from n 0 (px ++ [x]) -> grad_y_reduce_idx_ b ++ gy = ones_from n 0 (py ++ [y]) ->
  exists b', (if fewer && bool_decide (prev = curr) then
                match merge_dim o x bx y by_ (push_output o gx gy b) with Some b' => Done (Some curr, b') | None => Aborts end
              else Done (Some curr, push_dim o x bx y by_ (push_output o gx gy b))) = Done (Some curr, b') /\
    inv fewer n (px ++ [x]) (py ++ [y]) (po ++ [o]) curr b'.
Proof.
  intros H Hox Hoy Hx Hy Hcase Hgx Hgy. pose proof H as [Hv Hout _ [Hlx Hly] HL Hrun Hfull _].
  assert (Hlen : length (px ++ [x]) = length (po ++ [o]) /\ length (py ++ [y]) = length (po ++ [o])) by (rewrite !length_app; cbn; lia).
  destruct (fewer && bool_decide (prev = curr)) eqn:Em.
  - apply andb_true_iff in Em as [-> ->%bool_decide_eq_true].
    destruct (merge_dim_spec o x bx y by_ curr (push_output o gx gy b)) as (R & B & S & D & Q & r & c & s & d & q & ER & EB & ES & ED & EQ & Hcx & Hcy & ->); [done..|].
    eexists. split; [done|]. split; cbn; [done|by rewrite Hout|done|done| | |done|].
    + destruct HL as (? & ? & ? & ?). cbn in ER, EB, ES, ED, EQ. rewrite ER, EB, ES, ED, EQ in *. unfold lengths_ok. cbn. rewrite !length_app in *. cbn in *. lia.
    + by apply (merge_run curr (push_output o gx gy b)).
    + by apply (merge_sides true n px py po curr b o x bx y by_ H Hox Hoy Hx Hy).
  - eexists. split; [done|]. split; cbn; [done|by rewrite Hout|done|done| | | |].
    + destruct HL as (? & ? & ? & ?). unfold lengths_ok. cbn. rewrite !length_app. cbn. lia.
    + destruct curr; cbn in *; rewrite ?last_snoc; naive_solver.
    + intros Hf. by rewrite !length_app, Hfull.
    + apply (push_sides fewer n px py po prev b o x bx y by_ H Hox Hoy Hx Hy); destruct curr; naive_solver.
Qed.

Lemma bcast_turn fewer n px py po prev b x y : inv fewer n px py po prev b -> 0 <= x -> 0 <= y ->
  match joined x y with
  | None => bcast_dim fewer n (zlength px) x y prev b = Done (None, set_valid false b)
  | Some o => exists prev' b', bcast_dim fewer n (zlength px) x y prev b = Done (Some prev', b') /\
      inv fewer n (px ++ [x]) (py ++ [y]) (po ++ [o]) prev' b'
  end.
Proof.
  intros H Hx Hy. unfold bcast_dim. destruct (Z.leb_spec 0 x); [|lia]. destruct (Z.leb_spec 0 y); [|lia]. cbn [negb].
  pose proof (classify_spec x y) as Hcl. destruct (classify x y) as [[[[o bx] by_] curr]|]; [|by rewrite Hcl].
  destruct Hcl as (-> & Hox & Hoy & Hcase & Hx1 & Hy1). pose proof H as [Hv Hout [Hgx Hgy] [Hlx Hly] HL Hrun Hfull _].
  assert (Hzl : zlength py = zlength px) by (unfold zlength; by rewrite Hlx, Hly).
  pose proof (grads_snoc n py y _ Hgy) as Hgy'. rewrite Hzl in Hgy'. pose proof (grads_snoc n px x _ Hgx) as Hgx'.
  destruct (bool_decide (curr = SAME) && (x =? 1)) eqn:Eone.
  - apply andb_true_iff in Eone as [->%bool_decide_eq_true ->%Z.eqb_eq]. assert (y = 1) as -> by naive_solver. destruct Hcase as [-> ->].
    eexists prev, _. split; [done|]. cbn [Z.eqb Pos.eqb] in Hgx', Hgy'.
    assert (Hlen : length (px ++ [1]) = length (po ++ [o]) /\ length (py ++ [1]) = length (po ++ [o])) by (rewrite !length_app; cbn; lia).
    destruct fewer; cbn [negb]; (split; cbn; [done|by rewrite Hout|by rewrite !app_nil_r|done| | | |]).
    + done.
    + by destruct prev.
    + done.
    + by apply (skip_sides true n px py po prev b o 1 1 1 1 H).
    + destruct HL as (? & ? & ? & ?). unfold lengths_ok. cbn. rewrite !length_app. cbn. lia.
    + destruct prev; cbn; rewrite ?last_snoc; naive_solver.
    + intros _. by rewrite !length_app, Hfull.
    + apply (push_sides false n px py po prev b o 1 1 1 1 H); auto.
  - assert (Hn : ~ (curr = SAME /\ x = 1)) by (intros [-> ->]; rewrite bool_decide_eq_true_2 in Eone by done; done).
    edestruct merge_or_push as (b' & Eb & Hb'); [exact H|exact Hox|exact Hoy|done|done|exact Hcase| | |exists curr, b'; split; [exact Eb|exact Hb']].
    + rewrite <- Hgx'. f_equal. destruct (Z.eqb_spec x 1); destruct curr; naive_solver.
    + rewrite <- Hgy'. f_equal. destruct (Z.eqb_spec y 1); destruct curr; naive_solver.
Qed.

Lemma shape_rule_cons x xs y ys : shape_rule (x :: xs) (y :: ys) =
  match shape_rule xs ys with Some os => match joined x y with Some o => Some (o :: os) | None => None end | None => None end.
Proof. cbn [shape_rule]. destruct (shape_rule xs ys); [|done]. cbn. unfold joined. by destruct (_ || _), (x =? 1). Qed.

(** The rule on two aligned shapes. *)
Lemma bcast_loop_spec fewer n xs : forall ys px py po prev b, inv fewer n px py po prev b -> length xs = length ys ->
  Forall (fun d => 0 <= d) xs -> Forall (fun d => 0 <= d) ys ->
  match shape_rule xs ys with
  | None => exists b', bcast_loop fewer n (zlength px) (combine xs ys) prev b = Done (false, b') /\ valid_ b' = false
  | Some os => exists prev' b', bcast_loop fewer n (zlength px) (combine xs ys) prev b = Done (true, b') /\
      inv fewer n (px ++ xs) (py ++ ys) (po ++ os) prev' b'
  end.
Proof.
  induction xs as [|x xs IH]; intros [|y ys] px py po prev b H Hl Hx Hy; try done.
  - cbn. exists prev, b. by rewrite !app_nil_r.
  - inversion_clear Hx as [|?? Hx0 Hxs]. inversion_clear Hy as [|?? Hy0 Hys]. cbn [combine bcast_loop].
    pose proof (bcast_turn fewer n px py po prev b x y H Hx0 Hy0) as Ht.
    replace (zlength px + 1) with (zlength (px ++ [x])) by (rewrite zlength_app; done).
    rewrite shape_rule_cons. destruct (joined x y) as [o|].
    + destruct Ht as (prev' & b' & -> & H'). specialize (IH ys _ _ _ _ _ H' ltac:(by injection Hl) Hxs Hys). rewrite <- !app_assoc in IH.
      destruct (shape_rule xs ys); [|done]. by rewrite <- app_assoc in IH.
    + rewrite Ht. destruct (shape_rule xs ys); by eexists.
Qed.

(** ** Aligning and reversing *)

Lemma extend_length n v : (length v <= n)%nat -> length (extend n v) = n.
Proof. intros. unfold extend. rewrite length_app, length_replicate. lia. Qed.
Lemma extend_nonneg n v : Forall (fun d => 0 <= d) v -> Forall (fun d => 0 <= d) (extend n v).
Proof. intros Hv. apply Forall_app. split; [done|]. apply Forall_replicate. lia. Qed.
Lemma extend_cons n d v : extend (S n) (d :: v) = d :: extend n v.
Proof. done. Qed.
Lemma extend_product n v : product (extend n v) = product v.
Proof. unfold extend. rewrite TensorShape.product_app, product_ones. lia. Qed.
Lemma shape_rule_ones l : shape_rule (replicate (length l) 1) l = Some l /\ shape_rule l (replicate (length l) 1) = Some l.
Proof.
  induction l as [|d l [IH1 IH2]]; [done|]. cbn [length replicate]. rewrite !shape_rule_cons, IH1, IH2. unfold joined.
  destruct (Z.eqb_spec 1 d) as [<-|]; [done|]. rewrite (proj2 (Z.eqb_neq d 1)) by lia. split; [by rewrite Z.eqb_refl|]. by rewrite orb_true_r.
Qed.
Lemma shape_rule_extend xs ys : let n := Nat.max (length xs) (length ys) in shape_rule (extend n xs) (extend n ys) = shape_rule xs ys.
Proof.
  revert ys. induction xs as [|x xs IH]; intros [|y ys] n; [done| | |].
  - unfold extend, n. cbn [length Nat.max]. rewrite Nat.sub_0_r, Nat.sub_diag, app_nil_r. apply (shape_rule_ones (y :: ys)).
  - unfold extend, n. cbn [length Nat.max]. rewrite Nat.sub_0_r, Nat.sub_diag, app_nil_r. apply (shape_rule_ones (x :: xs)).
  - unfold n. cbn [length Nat.max]. by rewrite !extend_cons, !shape_rule_cons, IH.
Qed.
Lemma shape_rule_length xs : forall ys os, shape_rule xs ys = Some os -> length os = Nat.max (length xs) (length ys).
Proof.
  induction xs as [|x xs IH]; intros [|y ys] os; try (intros [= <-]; done). rewrite shape_rule_cons.
  destruct (shape_rule xs ys) as [os'|] eqn:E; [|done]. destruct (joined x y); [|done]. intros [= <-]. cbn. f_equal. by apply IH.
Qed.
Lemma shape_rule_same xs : shape_rule xs xs = Some xs.
Proof. induction xs as [|x xs IH]; [done|]. rewrite shape_rule_cons, IH. unfold joined. by rewrite Z.eqb_refl. Qed.
Lemma shape_rule_nonneg xs : forall ys os, Forall (fun d => 0 <= d) xs -> Forall (fun d => 0 <= d) ys -> shape_rule xs ys = Some os -> Forall (fun d => 0 <= d) os.
Proof.
  induction xs as [|x xs IH]; intros [|y ys] os Hx Hy; try (by intros [= <-]). rewrite shape_rule_cons. inversion_clear Hx. inversion_clear Hy.
  destruct (shape_rule xs ys) as [os'|] eqn:E; [|done]. unfold joined. destruct ((x =? y) || (y =? 1)); [|destruct (x =? 1); [|done]];
    intros [= <-]; constructor; try done; by apply (IH ys).
Qed.

(** A finished loop gives the fields that the constructor leaves. *)
Definition correct (fewer : bool) (sx sy o : list Z) (b : BCast) : Prop :=
  valid_ b = true /\ output_ b = o /\ (fewer = false -> o <> [] -> length (result_ b) = length o) /\
  (0 < product o < 2 ^ 63 ->
    result_ b = zip_with Z.mul (x_reshape_ b) (x_bcast_ b) /\ result_ b = zip_with Z.mul (y_reshape_ b) (y_bcast_ b) /\
    product (result_ b) = product o /\ product (x_reshape_ b) = product sx /\ product (y_reshape_ b) = product sy /\
    forall k, 0 <= k < product o ->
      eigen_index (x_reshape_ b) (x_bcast_ b) k = numpy_index sx o k /\ eigen_index (y_reshape_ b) (y_bcast_ b) k = numpy_index sy o k).

Lemma zip_rev R B : length R = length B -> zip_with Z.mul (rev R) (rev B) = rev (zip_with Z.mul R B).
Proof.
  revert B. induction R as [|r R IH]; intros [|b B] Hl; try done. injection Hl as Hl. cbn [rev zip_with].
  rewrite zip_with_app by (by rewrite !length_rev). by rewrite IH.
Qed.
(** An empty result becomes a single 1. *)
Definition close (b : BCast) : BCast := match result_ b with [] => push_dim 1 1 1 1 1 b | _ => b end.
Lemma close_side b px po : lengths_ok b ->
  (side (x_reshape_ b) (x_bcast_ b) (result_ b) px po -> side (x_reshape_ (close b)) (x_bcast_ (close b)) (result_ (close b)) px po) /\
  (side (y_reshape_ b) (y_bcast_ b) (result_ b) px po -> side (y_reshape_ (close b)) (y_bcast_ (close b)) (result_ (close b)) px po).
Proof.
  intros (HR & HB & HS & HD). unfold close. destruct (result_ b) as [|q Q] eqn:EQ; [|by rewrite EQ].
  apply nil_length_inv in HR, HB, HS, HD. unfold push_dim. cbn. rewrite HR, HB, HS, HD, EQ.
  split; (intros [_ _ Ht Hp _ Hi]; split; cbn; [done|done|by rewrite <- Ht|by rewrite <- Hp|by split; repeat constructor|];
    intros k; rewrite <- Hi; cbn; by rewrite !Z.mod_1_r).
Qed.

Lemma elem_of_rev (x : Z) l : x ∈ rev l <-> x ∈ l.
Proof. rewrite !list_elem_of_In. symmetry. apply in_rev. Qed.

(** The loop on the aligned shapes, from an empty object. *)
Lemma empty_inv fewer n : inv fewer n [] [] [] UNKNOWN empty_BCast.
Proof. by split. Qed.
Lemma aligned_loop fewer sx sy : Forall (fun d => 0 <= d) sx -> Forall (fun d => 0 <= d) sy ->
  let n := Nat.max (length (rev sx)) (length (rev sy)) in let xs := extend n (rev sx) in let ys := extend n (rev sy) in
  match shape_rule (rev sx) (rev sy) with
  | None => exists b, bcast_loop fewer (Z.of_nat n) 0 (combine xs ys) UNKNOWN empty_BCast = Done (false, b) /\ valid_ b = false
  | Some os => exists prev b, bcast_loop fewer (Z.of_nat n) 0 (combine xs ys) UNKNOWN empty_BCast = Done (true, b) /\ inv fewer (Z.of_nat n) xs ys os prev b
  end.
Proof.
  intros Hx Hy n xs ys. assert (length (rev sx) <= n)%nat by lia. assert (length (rev sy) <= n)%nat by lia.
  pose proof (bcast_loop_spec fewer (Z.of_nat n) xs ys [] [] [] UNKNOWN empty_BCast (empty_inv fewer _)) as Hloop.
  unfold xs, ys, n in Hloop. rewrite shape_rule_extend in Hloop. apply Hloop; [by rewrite !extend_length by done|..]; by apply extend_nonneg, Forall_rev.
Qed.
Lemma reverse_correct fewer sx sy os n prev b : let m := Nat.max (length (rev sx)) (length (rev sy)) in
  inv fewer n (extend m (rev sx)) (extend m (rev sy)) os prev b -> Forall (fun d => 0 <= d) os -> correct fewer sx sy (rev os) (reverse_all (close b)).
Proof.
  intros m H Hnn. pose proof H as [Hv Hout _ _ HL _ Hfull Hsides]. unfold correct, reverse_all. cbn. rewrite product_rev.
  assert (valid_ (close b) = true /\ output_ (close b) = os) as [-> ->] by (unfold close; destruct (result_ b); by split).
  split; [done|]. split; [done|]. split.
  - intros Hf Hne. rewrite !length_rev, <- Hfull by done. unfold close. destruct (result_ b) eqn:E; [|by rewrite E].
    specialize (Hfull Hf). symmetry in Hfull. by apply nil_length_inv in Hfull as ->.
  - intros [Hp Hlt]. destruct (Hsides (positive_product _ Hnn Hp) Hlt) as [Sx Sy].
    apply (proj1 (close_side b _ _ HL)) in Sx. apply (proj2 (close_side b _ _ HL)) in Sy.
    destruct Sx as [Lx Zx Tx Px _ Ix], Sy as [Ly Zy Ty Py _ Iy]. rewrite !product_rev, !zip_rev by done. rewrite Zx, Zy, Tx, Px, Py, !extend_product, !product_rev.
    split_and!; try done. intros k Hk. unfold eigen_index, numpy_index. rewrite !rev_involutive, Ix, Iy, !operand_index_extend. done.
Qed.
Lemma identical_correct sx : Forall (fun d => 0 <= d) sx ->
  let elements := fold_left (fun e dim => s64 (e * dim)) sx 1 in correct true sx sx sx (mkBCast true [elements] [1] [elements] [1] [elements] sx [] []).
Proof.
  intros Hnn elements. split; [done|]. split; [done|]. split; [done|]. intros [Hp Hlt]. cbn.
  pose proof (positive_product _ Hnn Hp) as Hpos.
  assert (He : forall l e, positive l -> 1 <= e -> e * product l < 2 ^ 63 -> fold_left (fun e dim => s64 (e * dim)) l e = e * product l).
  { induction l as [|d l IH]; intros e Hl Hpe Hb; cbn [fold_left]; [cbn; lia|]. inversion_clear Hl. rewrite product_cons in *.
    match goal with Hl : Forall _ l |- _ => pose proof (product_positive l Hl) end. assert (e * d <= e * (d * product l)) by nia. rewrite s64_id by nia. rewrite IH; [ring|done|nia|lia]. }
  assert (elements = product sx) as -> by (unfold elements; rewrite He by (done || lia); lia). rewrite !Z.mul_1_r.
  split_and!; try done. intros k Hk. unfold eigen_index, numpy_index. rewrite operand_index_same by (by apply Forall_rev). rewrite product_rev.
  rewrite !(Z.mod_small k) by done. lia.
Qed.
Lemma numpy_shape_same sx : numpy_shape sx sx = Some sx.
Proof. unfold numpy_shape. rewrite shape_rule_same. cbn. by rewrite rev_involutive. Qed.

(** ** Gradients *)

Lemma elem_of_ones_from n xs : forall i d, d ∈ ones_from n i xs <-> exists j, xs !! j = Some 1 /\ d = n - 1 - (i + Z.of_nat j).
Proof.
  induction xs as [|x xs IH]; intros i d; cbn [ones_from]; [split; [set_solver|intros (j & E & _); done]|].
  rewrite elem_of_app, IH. split.
  - intros [Hd|(j & Hj & ->)]; [|by exists (S j); split; [done|lia]]. exists 0%nat. destruct (Z.eqb_spec x 1) as [->|]; [|set_solver].
    apply list_elem_of_singleton in Hd as ->. split; [done|lia].
  - intros ([|j] & Hj & ->); [left|right; exists j; split; [done|lia]]. injection Hj as ->. rewrite Z.eqb_refl. apply list_elem_of_singleton. lia.
Qed.
Lemma kept_spec idx xs os : Forall2 (fun x o => x = 1 \/ x = o) xs os -> forall d, (forall j, (j < length xs)%nat -> d - Z.of_nat j ∈ idx <-> xs !! j = Some 1) ->
  (forall k, kept_index idx os d k = operand_index xs os k) /\ product (kept_sizes idx os d) = product xs.
Proof.
  induction 1 as [|x o xs os Hxo Hall IH]; intros d Hd; [done|]. destruct (IH (d - 1)) as [IH1 IH2].
  { intros j Hj. rewrite <- (Hd (S j)) by (cbn; lia). by replace (d - 1 - Z.of_nat j) with (d - Z.of_nat (S j)) by lia. }
  pose proof (Hd 0%nat ltac:(cbn; lia)) as H0. cbn in H0. rewrite Z.sub_0_r in H0. cbn [kept_index kept_sizes operand_index].
  destruct (bool_decide_reflect (d ∈ idx)) as [Hin|Hout].
  - apply H0 in Hin. injection Hin as ->. rewrite product_cons, IH2. split; [|lia]. intros k. rewrite IH1. cbn. lia.
  - assert (Hx : x <> 1) by (intros ->; by apply Hout, H0). destruct Hxo as [|<-]; [done|]. rewrite !product_cons, IH2. split; [|done].
    intros k. by rewrite IH1, (proj2 (Z.eqb_neq x 1) Hx).
Qed.
Lemma joined_cases x y o : joined x y = Some o -> (x = 1 \/ x = o) /\ (y = 1 \/ y = o).
Proof. unfold joined. destruct (Z.eqb_spec x y) as [->|]; [intros [= <-]; auto|]. destruct (Z.eqb_spec y 1); [intros [= <-]; auto|]. destruct (Z.eqb_spec x 1); [intros [= <-]; auto|done]. Qed.
Lemma shape_rule_dims xs : forall ys os, length xs = length ys -> shape_rule xs ys = Some os ->
  Forall2 (fun x o => x = 1 \/ x = o) xs os /\ Forall2 (fun y o => y = 1 \/ y = o) ys os.
Proof.
  induction xs as [|x xs IH]; intros [|y ys] os Hl; try done; [by intros [= <-]|]. rewrite shape_rule_cons.
  destruct (shape_rule xs ys) as [os'|] eqn:E; [|done]. destruct (joined x y) as [o|] eqn:Ej; [|done]. intros [= <-].
  destruct (IH ys os' ltac:(by injection Hl) E), (joined_cases _ _ _ Ej). by split; constructor.
Qed.
Lemma kept_nil os : positive os -> forall d, (forall k, kept_index [] os d k = k mod product os) /\ kept_sizes [] os d = os.
Proof.
  induction 1 as [|o os Ho Hos IH]; intros d; [split; [|done]; intros k; by rewrite Z.mod_1_r|]. destruct (IH (d - 1)) as [IH1 IH2]. pose proof (product_positive os Hos).
  split; [|cbn; by rewrite IH2]. intros k. cbn [kept_index]. rewrite bool_decide_eq_false_2 by set_solver. by rewrite IH1, product_cons, Z.rem_mul_r by lia.
Qed.

Lemma FromShape_sizes s : FromShape s = TensorShape.dim_sizes s.
Proof. done. Qed.

(** ** The properties *)

(** C33: The constructor implements the broadcasting rule, with and without the
    merging of dimensions: on shapes of non-negative sizes it never fails its
    [CHECK]s; the result is valid exactly when the rule has a shape for the two,
    and [output_shape] is that shape. When the output is not empty and has
    fewer than 2^63 elements, the intermediate shapes have as many elements as
    the operands and the output, and every element of the output reads, through
    the reshape and the broadcast of each operand, the element that the rule
    says. *)
Theorem bcast_correct fewer sx sy : Forall (fun d => 0 <= d) sx -> Forall (fun d => 0 <= d) sy ->
  exists b, BCast_new sx sy fewer = Done b /\
    match numpy_shape sx sy with None => valid_ b = false | Some o => correct fewer sx sy o b end.
Proof.
  intros Hx Hy. unfold BCast_new. destruct (bool_decide (sx = sy) && fewer) eqn:Ef.
  - apply andb_true_iff in Ef as [->%bool_decide_eq_true ->]. rewrite numpy_shape_same. eexists. split; [done|]. by apply identical_correct.
  - clear Ef. pose proof (aligned_loop fewer sx sy Hx Hy) as Hl. cbv zeta in *. unfold numpy_shape.
    destruct (shape_rule (rev sx) (rev sy)) as [os|] eqn:Er; cbn [option_fmap option_map fmap].
    + destruct Hl as (prev & b & -> & H). eexists. split; [done|]. eapply (reverse_correct fewer sx sy os); [exact H|].
      apply (shape_rule_nonneg _ _ _ (Forall_rev Hx) (Forall_rev Hy) Er).
    + destruct Hl as (b & -> & Hb). by exists b.
Qed.
Lemma bcast_correct_witness : exists b, BCast_new [2; 3; 4; 5] [3; 1; 1] true = Done b /\
  eigen_index (x_reshape_ b) (x_bcast_ b) 87 = 87 /\ eigen_index (y_reshape_ b) (y_bcast_ b) 87 = 1.
Proof.
  destruct (bcast_correct true [2; 3; 4; 5] [3; 1; 1]) as (b & E & Hb); [repeat constructor; lia..|]. exists b. split; [exact E|].
  destruct Hb as (_ & _ & _ & Hb). destruct Hb as (_ & _ & _ & _ & _ & Hk); [vm_compute; split; reflexivity|].
  destruct (Hk 87) as [Hkx Hky]; [split; [lia|vm_compute; reflexivity]|]. split; [exact Hkx|exact Hky].
Defined.

(** The gradients are summed over the right dimensions: when two shapes of
    non-negative sizes broadcast to a non-empty output, the output summed over
    [grad_x_reduce_idx] has as many elements as the first operand, and the
    element of it to which an element of the output contributes is the one that
    the element reads in the operand; and likewise for the second operand. *)
Theorem bcast_gradient fewer sx sy o b : Forall (fun d => 0 <= d) sx -> Forall (fun d => 0 <= d) sy ->
  BCast_new sx sy fewer = Done b -> numpy_shape sx sy = Some o -> 0 < product o ->
  product (reduced_shape (grad_x_reduce_idx_ b) o) = product sx /\ product (reduced_shape (grad_y_reduce_idx_ b) o) = product sy /\
  forall k, 0 <= k < product o ->
    reduced_index (grad_x_reduce_idx_ b) o k = numpy_index sx o k /\ reduced_index (grad_y_reduce_idx_ b) o k = numpy_index sy o k.
Proof.
  intros Hx Hy Eb Eo Hp. unfold reduced_shape, reduced_index, numpy_index. rewrite !product_rev. unfold BCast_new in Eb.
  destruct (bool_decide (sx = sy) && fewer) eqn:Ef.
  - apply andb_true_iff in Ef as [->%bool_decide_eq_true ->]. rewrite numpy_shape_same in Eo. injection Eo as <-. injection Eb as <-. cbn.
    assert (Hpos : positive (rev sy)) by (by apply Forall_rev, positive_product). destruct (kept_nil _ Hpos (zlength sy - 1)) as [Hi ->].
    rewrite product_rev. split; [done|]. split; [done|]. intros k Hk. by rewrite Hi, operand_index_same.
  - clear Ef. pose proof (aligned_loop fewer sx sy Hx Hy) as Hl. cbv zeta in *. unfold numpy_shape in Eo.
    destruct (shape_rule (rev sx) (rev sy)) as [os|] eqn:Er; [|done]. injection Eo as <-. rewrite !rev_involutive.
    destruct Hl as (prev & b' & El & H). rewrite El in Eb. injection Eb as <-.
    assert (Hg : forall f : BCast -> list Z, f (push_dim 1 1 1 1 1 b') = f b' -> f (close b') = f b') by (intros f Hf; unfold close; by destruct (result_ b')).
    fold (close b'). cbn [reverse_all grad_x_reduce_idx_ grad_y_reduce_idx_]. rewrite (Hg grad_x_reduce_idx_), (Hg grad_y_reduce_idx_) by done.
    destruct (inv_grads _ _ _ _ _ _ _ H) as [-> ->]. set (n := Nat.max (length (rev sx)) (length (rev sy))) in *.
    pose proof (shape_rule_length _ _ _ Er) as Hlen. fold n in Hlen. assert (zlength (rev os) = Z.of_nat n) as -> by (unfold zlength; by rewrite length_rev, Hlen).
    destruct (shape_rule_dims (extend n (rev sx)) (extend n (rev sy)) os) as [Dx Dy]; [by rewrite !extend_length by lia|by rewrite <- Er; apply shape_rule_extend|].
    assert (Hidx : forall xs, Forall2 (fun x o => x = 1 \/ x = o) xs os ->
      (forall k, kept_index (rev (ones_from (Z.of_nat n) 0 xs)) os (Z.of_nat n - 1) k = operand_index xs os k) /\
      product (kept_sizes (rev (ones_from (Z.of_nat n) 0 xs)) os (Z.of_nat n - 1)) = product xs).
    { intros xs HD. apply kept_spec; [done|]. intros j Hj. rewrite elem_of_rev, elem_of_ones_from. split.
      - intros (j' & Hj' & E). assert (j' = j) as -> by lia. done.
      - intros Hj'. exists j. split; [done|lia]. }
    destruct (Hidx _ Dx) as [Ix Px], (Hidx _ Dy) as [Iy Py]. rewrite Px, Py, !extend_product, !product_rev.
    split; [done|]. split; [done|]. intros k _. by rewrite Ix, Iy, !operand_index_extend.
Qed.
Lemma bcast_gradient_witness : exists b, BCast_new [2; 3; 4] [3; 1] true = Done b /\ grad_y_reduce_idx_ b = [0; 2] /\
  reduced_index (grad_y_reduce_idx_ b) [2; 3; 4] 17 = numpy_index [3; 1] [2; 3; 4] 17.
Proof.
  eexists. split; [vm_compute; reflexivity|]. split; [reflexivity|].
  match goal with |- reduced_index (grad_y_reduce_idx_ ?b) _ _ = _ =>
    destruct (bcast_gradient true [2; 3; 4] [3; 1] [2; 3; 4] b) as (_ & _ & Hk) end.
  - repeat constructor; lia.
  - repeat constructor; lia.
  - vm_compute. reflexivity.
  - vm_compute. reflexivity.
  - vm_compute. reflexivity.
  - apply Hk. split; [lia|vm_compute; reflexivity].
Defined.
Example bcast_demo : BCast_new [2; 3; 4; 5] [3; 1; 1] true =
  Done (mkBCast true [2; 3; 20] [1; 1; 1] [1; 3; 1] [2; 1; 20] [2; 3; 20] [2; 3; 4; 5] [] [0; 2; 3]).
Proof. reflexivity. Qed.
End Bcast.
