(* ===== verification/TensorSlice.v ===== *)
(** * Tensor slices

    [TensorSlice] of [core/framework/tensor_slice.{h,cc}]. The parallel vectors
    [starts_] and [lengths_] are one list of extents: every method changes them
    together. An [int64] sum wraps around. *)
From S2P Require Import Prelude Status Numbers TensorShape.
Import Status Numbers TensorShape.

Module TensorSlice.

Record Extent := mkExtent { start : Z; length_ : Z }.
#[global] Instance Extent_eq_dec : EqDecision Extent.
Proof. solve_decision. Defined.
Abbreviation TensorSlice := (list Extent).

Definition kFullExtent : Z := -1.
Definition full : Extent := mkExtent 0 kFullExtent.
Definition IsFullAt (e : Extent) : bool := (length_ e =? kFullExtent) && (start e =? 0).
Definition end_ (e : Extent) : Z := s64 (start e + length_ e).
Definition IsFull (s : TensorSlice) : bool := forallb IsFullAt s.
Definition SetFullSlice (dim : nat) : TensorSlice := replicate dim full.
(** [None]: the [DCHECK] fails. *)
Definition Extend (dim : nat) (s : TensorSlice) : option TensorSlice :=
  if (length s <=? dim)%nat then Some (s ++ replicate (dim - length s) full) else None.

(** An extent of a proto: [start], and [length] when it is present. *)
Definition ProtoExtent : Type := Z * option Z.
Definition HasExtentLength (e : ProtoExtent) : bool := bool_decide (is_Some e.2).
Definition GetExtentLength (e : ProtoExtent) : Z := match e.2 with Some l => l | None => -1 end.
Definition TensorSlice_of_proto (proto : list ProtoExtent) : TensorSlice := map (fun e => mkExtent e.1 (GetExtentLength e)) proto.
(** A full extent leaves [start] at 0 and no [length]. *)
Definition AsProto (s : TensorSlice) : list ProtoExtent := map (fun e => if IsFullAt e then (0, None) else (start e, Some (length_ e))) s.

Definition extent_text (e : Extent) : list Z :=
  if IsFullAt e then bytes_of "-" else FastInt64ToBufferLeft (start e) ++ bytes_of "," ++ FastInt64ToBufferLeft (length_ e).
Definition DebugString (s : TensorSlice) : list Z := Join (map extent_text s) (bytes_of ":").

Definition parse_extent (str x : list Z) : Status * option Extent :=
  if bool_decide (x = bytes_of "-") then (OK, Some full)
  else
    let bad := (InvalidArgument (bytes_of "Expected a pair of numbers or '-' but got '" ++ x ++ bytes_of "': string = " ++ str), None) in
    match Split x 44 SkipEmpty with
    | [a; b] =>
        match safe_strto64 a, safe_strto64 b with
        | Some s, Some l =>
            if (s <? 0) || (l <=? 0) then
              (InvalidArgument (bytes_of "Expected non-negative start and positive length but got start = " ++ FastInt64ToBufferLeft s ++
                 bytes_of ", length = " ++ FastInt64ToBufferLeft l ++ bytes_of ": string = " ++ str), None)
            else (OK, Some (mkExtent s l))
        | _, _ => bad
        end
    | _ => bad
    end.
(** The extents are added to what [*slice] holds, up to the first error. *)
Fixpoint parse_items (str : list Z) (items : list (list Z)) (slice : TensorSlice) : Status * TensorSlice :=
  match items with
  | [] => (OK, slice)
  | x :: items' => match parse_extent str x with
                   | (s, Some e) => parse_items str items' (slice ++ [e])
                   | (s, None) => (s, slice)
                   end
  end.
Definition Parse (str : list Z) (slice : TensorSlice) : Status * TensorSlice := parse_items str (Split str 58 SkipEmpty) slice.

(** ** Intersection *)

Definition intersect_dim (x y : Extent) : option Extent :=
  if IsFullAt x then Some (mkExtent (start y) (length_ y))
  else if IsFullAt y then Some (mkExtent (start x) (length_ x))
  else
    let s := Z.max (start x) (start y) in
    let l := s64 (Z.min (end_ x) (end_ y) - s) in
    if 0 <? l then Some (mkExtent s l) else None.
Fixpoint intersect_loop (a b : TensorSlice) : option TensorSlice :=
  match a, b with
  | x :: a', y :: b' =>
      match intersect_dim x y with
      | Some e => match intersect_loop a' b' with Some r => Some (e :: r) | None => None end
      | None => None
      end
  | _, _ => Some []
  end.
(** The answer, and [*result]. *)
Definition Intersect (a other result : TensorSlice) : bool * TensorSlice :=
  if negb (length a =? length other)%nat then (false, result)
  else match intersect_loop a other with Some r => (true, r) | None => (false, []) end.
Definition Overlaps (a other : TensorSlice) : bool := fst (Intersect a other []).
Definition slice_eqb (a b : TensorSlice) : bool := (length a =? length b)%nat && bool_decide (map start a = map start b) && bool_decide (map length_ a = map length_ b).

Definition relative_dim (x sub : Extent) : Extent :=
  if IsFullAt x then mkExtent (start sub) (length_ sub) else mkExtent (s64 (start sub - start x)) (length_ sub).
(** [None]: the [DCHECK] on the ranks fails. *)
Definition ComputeRelative (a sub : TensorSlice) : option TensorSlice :=
  if (length a =? length sub)%nat then Some (zip_with relative_dim a sub) else None.
Definition cover_dim (x other : Extent) : Extent :=
  if IsFullAt x then x
  else if IsFullAt other then full
  else let new_end := Z.max (end_ x) (end_ other) in
       let s := Z.min (start x) (start other) in
       mkExtent s (s64 (new_end - s)).
Definition UpdateToCover (a other : TensorSlice) : option TensorSlice :=
  if (length a =? length other)%nat then Some (zip_with cover_dim a other) else None.

(** ** Slicing a shape *)

(** The loop over the dimensions, from [d]. *)
Fixpoint slice_shape_loop (shape : TensorShape) (whole : TensorSlice) (d : Z) (s : TensorSlice) (result : TensorShape) : option (Status * TensorShape) :=
  match s with
  | [] => Some (OK, result)
  | e :: s' =>
      match dim_size shape d with
      | None => None
      | Some size =>
          if IsFullAt e then
            match AddDim size result with Some r => slice_shape_loop shape whole (d + 1) s' r | None => None end
          else if end_ e <=? size then
            match AddDim (length_ e) result with Some r => slice_shape_loop shape whole (d + 1) s' r | None => None end
          else Some (Internal (bytes_of "Extent in dimension " ++ FastInt64ToBufferLeft d ++ bytes_of " out of bounds: shape = " ++
                       TensorShape.DebugString shape ++ bytes_of ", slice = " ++ DebugString whole), Clear result)
      end
  end.
(** The status and [*result_shape]; [None]: a [CHECK] fails. *)
Definition SliceTensorShape (shape : TensorShape) (s : TensorSlice) (result : TensorShape) : option (Status * TensorShape) :=
  let result := Clear result in
  if negb (dims shape =? zlength s) then
    Some (Internal (bytes_of "Mismatching ranks: shape = " ++ TensorShape.DebugString shape ++ bytes_of ", slice = " ++ DebugString s), result)
  else slice_shape_loop shape s 0 s result.

(** ** Points *)

(** The coordinates of an extent; a full one has no bound of its own. *)
Definition covers_dim (e : Extent) (p : Z) : Prop := if IsFullAt e then 0 <= p else start e <= p < start e + length_ e.
Definition covers (s : TensorSlice) (p : list Z) : Prop := Forall2 covers_dim s p.
(** What [Parse] accepts, with an end that is an [int64]. *)
Definition extent_ok (e : Extent) : Prop := e = full \/ (0 <= start e /\ 1 <= length_ e /\ start e + length_ e < 2 ^ 63).
Definition slice_ok (s : TensorSlice) : Prop := Forall extent_ok s.

Lemma IsFullAt_iff e : IsFullAt e = true <-> e = full.
Proof.
  unfold IsFullAt. rewrite andb_true_iff, !Z.eqb_eq. destruct e as [s l]. cbn. split; [intros [-> ->]; done|]. by intros [= -> ->].
Qed.
Lemma not_full s l : 1 <= l -> IsFullAt (mkExtent s l) = false.
Proof. intros H. unfold IsFullAt, kFullExtent. cbn [length_]. by rewrite (proj2 (Z.eqb_neq l (-1))) by lia. Qed.
(** An extent that is not full. *)
Lemma extent_cases e : extent_ok e -> (e = full /\ IsFullAt e = true) \/
  (IsFullAt e = false /\ 0 <= start e /\ 1 <= length_ e /\ start e + length_ e < 2 ^ 63 /\ end_ e = start e + length_ e).
Proof.
  intros [->|(H1 & H2 & H3)]; [by left|right]. split_and!; try done.
  - destruct (IsFullAt e) eqn:E; [|done]. apply IsFullAt_iff in E as ->. by cbn in H2.
  - unfold end_. apply s64_id. lia.
Qed.
Lemma covers_full p : covers_dim full p <-> 0 <= p.
Proof. done. Qed.
Lemma covers_part e p : IsFullAt e = false -> covers_dim e p <-> start e <= p < start e + length_ e.
Proof. intros H. unfold covers_dim. by rewrite H. Qed.
Lemma covers_start e : extent_ok e -> covers_dim e (start e).
Proof. intros He. destruct (extent_cases e He) as [[-> _]|(Hf & H1 & H2 & _)]; [done|]. apply covers_part; [done|lia]. Qed.

Lemma intersect_dim_spec x y : extent_ok x -> extent_ok y ->
  match intersect_dim x y with
  | Some e => extent_ok e /\ forall p, covers_dim e p <-> covers_dim x p /\ covers_dim y p
  | None => forall p, ~ (covers_dim x p /\ covers_dim y p)
  end.
Proof.
  intros Hx Hy. unfold intersect_dim. destruct (extent_cases x Hx) as [[-> Ex]|(Ex & X1 & X2 & X3 & X4)], (extent_cases y Hy) as [[-> Ey]|(Ey & Y1 & Y2 & Y3 & Y4)];
    rewrite Ex, ?Ey, ?X4, ?Y4.
  - split; [by left|]. intros p. rewrite !covers_full. tauto.
  - destruct y as [s l]. cbn [start length_] in *. split; [done|]. intros p. rewrite covers_full, covers_part by done. cbn. lia.
  - destruct x as [s l]. cbn [start length_] in *. split; [done|]. intros p. rewrite covers_full, covers_part by done. cbn. lia.
  - rewrite s64_id by lia. destruct (Z.ltb_spec 0 (Z.min (start x + length_ x) (start y + length_ y) - Z.max (start x) (start y))) as [Hl|Hl].
    + assert (Hok : extent_ok (mkExtent (Z.max (start x) (start y)) (Z.min (start x + length_ x) (start y + length_ y) - Z.max (start x) (start y)))) by (right; cbn; lia).
      split; [done|]. intros p. rewrite !covers_part by (done || apply not_full; lia). cbn [start length_]. lia.
    + intros p. rewrite !covers_part by done. lia.
Qed.
Lemma cover_dim_spec x y : extent_ok x -> extent_ok y ->
  extent_ok (cover_dim x y) /\ (forall p, covers_dim x p \/ covers_dim y p -> covers_dim (cover_dim x y) p) /\
  forall c, extent_ok c -> (forall p, covers_dim x p -> covers_dim c p) -> (forall p, covers_dim y p -> covers_dim c p) -> forall p, covers_dim (cover_dim x y) p -> covers_dim c p.
Proof.
  intros Hx Hy. unfold cover_dim.
  assert (Hf : forall c, extent_ok c -> (forall p, covers_dim full p -> covers_dim c p) -> c = full).
  { intros c Hc H. destruct (extent_cases c Hc) as [[-> _]|(Ec & _ & _ & C3 & _)]; [done|]. specialize (H (2 ^ 63) ltac:(cbn; lia)). rewrite covers_part in H by done. lia. }
  destruct (extent_cases x Hx) as [[-> Ex]|(Ex & X1 & X2 & X3 & X4)]; rewrite Ex.
  - split; [by left|]. split; [|intros c Hc Hcx _; by rewrite (Hf c Hc Hcx)]. intros p [?|Hp]; [done|]. apply covers_full.
    destruct (extent_cases y Hy) as [[-> _]|(Ey & ? & _)]; [done|]. rewrite covers_part in Hp by done. lia.
  - destruct (extent_cases y Hy) as [[-> Ey]|(Ey & Y1 & Y2 & Y3 & Y4)]; rewrite Ey.
    + split; [by left|]. split; [|intros c Hc _ Hcy; by rewrite (Hf c Hc Hcy)]. intros p [Hp|?]; [|done]. apply covers_full. rewrite covers_part in Hp by done. lia.
    + rewrite X4, Y4, s64_id by lia. set (e := mkExtent _ _). assert (He : extent_ok e) by (right; cbn; lia).
      assert (E : IsFullAt e = false) by (apply not_full; lia). split; [done|]. split.
      * intros p. rewrite !covers_part by done. cbn. lia.
      * intros c Hc Hcx Hcy p. rewrite covers_part by done. cbn. intros Hp. destruct (extent_cases c Hc) as [[-> _]|(Ec & _ & _ & _ & _)]; [apply covers_full; lia|].
        pose proof (Hcx (start x) ltac:(apply covers_part; [done|lia])) as P1. pose proof (Hcx (start x + length_ x - 1) ltac:(apply covers_part; [done|lia])) as P2.
        pose proof (Hcy (start y) ltac:(apply covers_part; [done|lia])) as P3. pose proof (Hcy (start y + length_ y - 1) ltac:(apply covers_part; [done|lia])) as P4.
        rewrite !covers_part in * by done. lia.
Qed.

(** ** Text *)

Lemma digits_not c ds : isdigit c = false -> digits ds -> c ∉ ds.
Proof. intros Hc Hd Hin. unfold digits in Hd. rewrite Forall_forall in Hd. apply Hd in Hin. congruence. Qed.
Lemma print_nonneg n : 0 <= n < 2 ^ 63 -> digits (FastInt64ToBufferLeft n) /\ FastInt64ToBufferLeft n <> [] /\ safe_strto64 (FastInt64ToBufferLeft n) = Some n.
Proof.
  intros Hn. destruct (FastUInt64_digits (Z.abs n)) as (H1 & H2 & _); [lia|]. rewrite strto64_print by lia. rewrite FastInt64_digits by lia.
  rewrite (proj2 (Z.ltb_ge n 0)) by lia. by split_and!.
Qed.
Lemma extent_text_ok e : extent_ok e -> (58 ∉ extent_text e) /\ extent_text e <> [] /\ forall str, parse_extent str (extent_text e) = (OK, Some e).
Proof.
  intros He. unfold extent_text. destruct (extent_cases e He) as [[-> _]|(E & H1 & H2 & H3 & _)]; [split_and!; [by_eval|done|done]|]. rewrite E.
  destruct (print_nonneg (start e)) as (D1 & N1 & P1); [lia|]. destruct (print_nonneg (length_ e)) as (D2 & N2 & P2); [lia|]. split_and!.
  - rewrite !not_elem_of_app. split_and!; [by apply digits_not|by_eval|by apply digits_not].
  - intros Hx. by apply app_eq_nil in Hx as [? _].
  - intros str. unfold parse_extent. rewrite bool_decide_eq_false_2.
    + assert (Es : Split (FastInt64ToBufferLeft (start e) ++ bytes_of "," ++ FastInt64ToBufferLeft (length_ e)) 44 SkipEmpty = [FastInt64ToBufferLeft (start e); FastInt64ToBufferLeft (length_ e)]).
      { pose proof (Split_Join_nonempty [FastInt64ToBufferLeft (start e); FastInt64ToBufferLeft (length_ e)] 44) as J. unfold Join in J. cbn [map concat] in J. rewrite app_nil_r in J.
        apply J; repeat constructor; try done; by apply digits_not. }
      rewrite Es, P1, P2. rewrite (proj2 (Z.ltb_ge (start e) 0)), (proj2 (Z.leb_gt (length_ e) 0)) by lia. by destruct e.
    + intros Hx. assert (Hin : 44 ∈ bytes_of "-") by (rewrite <- Hx; apply elem_of_app; right; apply elem_of_app; left; by_eval).
      revert Hin. by_eval.
Qed.
Lemma parse_items_text str s acc : slice_ok s -> parse_items str (map extent_text s) acc = (OK, acc ++ s).
Proof.
  intros H. revert acc. induction H as [|e s He _ IH]; intros acc; cbn; [by rewrite app_nil_r|]. destruct (extent_text_ok e He) as (_ & _ & E).
  rewrite E, IH. by rewrite <- app_assoc.
Qed.

(** ** Slices *)

(** An extent in a dimension of [n]: its size, and that it ends inside. *)
Definition slice_dim (e : Extent) (n : Z) : Z := if IsFullAt e then n else length_ e.
Definition in_bounds (e : Extent) (n : Z) : Prop := IsFullAt e = true \/ start e + length_ e <= n.

Lemma intersect_loop_spec a b : slice_ok a -> slice_ok b -> length a = length b ->
  match intersect_loop a b with
  | Some r => slice_ok r /\ length r = length a /\ forall p, covers r p <-> covers a p /\ covers b p
  | None => forall p, ~ (covers a p /\ covers b p)
  end.
Proof.
  intros Ha. revert b. induction Ha as [|x a Hx Ha IH]; intros [|y b] Hb Hl; try done; cbn.
  - split_and!; [constructor|done|]. intros p. unfold covers. tauto.
  - apply Forall_cons in Hb as [Hy Hb]. injection Hl as Hl. specialize (IH b Hb Hl). pose proof (intersect_dim_spec x y Hx Hy) as Hd.
    destruct (intersect_dim x y) as [e|]; [destruct Hd as [He Hd]; destruct (intersect_loop a b) as [r|]; [destruct IH as (Hr & Hlr & IH)|]|].
    + split_and!; [by constructor|cbn; lia|]. intros p. unfold covers. destruct p as [|q p].
      * split; [intros H; inversion H|intros [H _]; inversion H].
      * rewrite !Forall2_cons, Hd. unfold covers in IH. rewrite IH. tauto.
    + intros p [Hp Hq]. destruct p as [|q p]; [inversion Hp|]. apply Forall2_cons in Hp as [_ Hp], Hq as [_ Hq]. by apply (IH p).
    + intros p [Hp Hq]. destruct p as [|q p]; [inversion Hp|]. apply Forall2_cons in Hp as [Hp _], Hq as [Hq _]. by apply (Hd q).
Qed.
Lemma intersect_in_bounds a b sizes r : slice_ok a -> slice_ok b -> Forall2 in_bounds a sizes -> Forall2 in_bounds b sizes -> intersect_loop a b = Some r -> Forall2 in_bounds r sizes.
Proof.
  intros Ha Hb Ba. revert b r Hb. induction Ba as [|x n a sizes Hx _ IH]; intros [|y b] r Hb Bb; try (by inversion Bb); cbn; [by intros [= <-]|].
  apply Forall_cons in Ha as [Hxo Ha], Hb as [Hyo Hb]. apply Forall2_cons in Bb as [Hy Bb].
  destruct (intersect_dim x y) as [e|] eqn:E; [|done]. destruct (intersect_loop a b) as [r'|] eqn:Er; [|done]. intros [= <-]. constructor; [|by apply (IH Ha b)].
  unfold intersect_dim in E. destruct (extent_cases x Hxo) as [[-> Ex]|(Ex & X1 & X2 & X3 & X4)]; rewrite Ex in E; [injection E as <-; by destruct y|].
  destruct (extent_cases y Hyo) as [[-> Ey]|(Ey & Y1 & Y2 & Y3 & Y4)]; rewrite Ey in E; [injection E as <-; by destruct x|].
  rewrite X4, Y4, s64_id in E by lia. destruct (Z.ltb_spec 0 (Z.min (start x + length_ x) (start y + length_ y) - Z.max (start x) (start y))); [|done].
  injection E as <-. right. cbn [start length_]. destruct Hx as [Hx|Hx], Hy as [Hy|Hy]; try congruence. lia.
Qed.
Lemma covers_starts s : slice_ok s -> covers s (map start s).
Proof. induction 1 as [|e s He _ IH]; [constructor|]. constructor; [by apply covers_start|done]. Qed.
Lemma Intersect_spec a b r0 : slice_ok a -> slice_ok b -> length a = length b ->
  (fst (Intersect a b r0) = true <-> exists p, covers a p /\ covers b p) /\
  (fst (Intersect a b r0) = true -> slice_ok (snd (Intersect a b r0)) /\ length (snd (Intersect a b r0)) = length a /\
     forall p, covers (snd (Intersect a b r0)) p <-> covers a p /\ covers b p).
Proof.
  intros Ha Hb Hl. unfold Intersect. rewrite Hl, Nat.eqb_refl. cbn [negb]. pose proof (intersect_loop_spec a b Ha Hb Hl) as H.
  destruct (intersect_loop a b) as [r|]; cbn [fst snd].
  - destruct H as (Hr & Hlr & H). rewrite <- Hl. split; [|done]. split; [|done]. intros _. exists (map start r). apply H. by apply covers_starts.
  - split; [|done]. split; [done|]. intros (p & Hp). by apply H in Hp.
Qed.

Lemma covers_dims a c : slice_ok a -> (forall p, covers a p -> covers c p) -> Forall2 (fun x z => forall q, covers_dim x q -> covers_dim z q) a c.
Proof.
  intros Ha. revert c. induction Ha as [|x a Hx Ha IH]; intros c H.
  - assert (Hc : covers c []) by (apply H; constructor). inversion Hc. constructor.
  - destruct c as [|z c].
    { pose proof (H (start x :: map start a) ltac:(apply Forall2_cons; split; [by apply covers_start|by apply covers_starts])) as Hc. inversion Hc. }
    constructor.
    + intros q Hq. assert (Hc : covers (z :: c) (q :: map start a)) by (apply H, Forall2_cons; split; [done|by apply covers_starts]). by apply Forall2_cons in Hc as [? _].
    + apply IH. intros p Hp. assert (Hc : covers (z :: c) (start x :: p)) by (apply H, Forall2_cons; split; [by apply covers_start|done]). by apply Forall2_cons in Hc as [_ ?].
Qed.
Lemma dims_covers a c p : Forall2 (fun x z => forall q, covers_dim x q -> covers_dim z q) a c -> covers a p -> covers c p.
Proof. unfold covers. intros H. revert p. induction H as [|x z a c Hx _ IH]; intros p Hp; inversion Hp; subst; constructor; auto. Qed.
Lemma UpdateToCover_spec a b : slice_ok a -> slice_ok b -> length a = length b ->
  exists u, UpdateToCover a b = Some u /\ slice_ok u /\ length u = length a /\ (forall p, covers a p \/ covers b p -> covers u p) /\
    forall c, slice_ok c -> (forall p, covers a p -> covers c p) -> (forall p, covers b p -> covers c p) -> forall p, covers u p -> covers c p.
Proof.
  intros Ha Hb Hl. exists (zip_with cover_dim a b). unfold UpdateToCover. rewrite Hl, Nat.eqb_refl.
  assert (Hd : Forall2 (fun x y => extent_ok x /\ extent_ok y) a b).
  { clear -Ha Hb Hl. revert b Hb Hl. induction Ha as [|x a Hx _ IH]; intros [|y b] Hb Hl; try done. apply Forall_cons in Hb as [Hy Hb]. constructor; auto. }
  split_and!; [done| |by rewrite length_zip_with, Hl, Nat.min_id| |].
  - clear -Hd. induction Hd as [|x y a b [Hx Hy] _ IH]; cbn; constructor; [|done]. by apply cover_dim_spec.
  - assert (Hboth : Forall2 (fun x z => forall q, covers_dim x q -> covers_dim z q) a (zip_with cover_dim a b) /\ Forall2 (fun y z => forall q, covers_dim y q -> covers_dim z q) b (zip_with cover_dim a b)).
    { clear -Hd. induction Hd as [|x y a b [Hx Hy] _ [IH1 IH2]]; cbn; [split; constructor|]. destruct (cover_dim_spec x y Hx Hy) as (_ & Hc & _). split; constructor; auto. }
    intros p [Hp|Hp]; [apply (dims_covers a)|apply (dims_covers b)]; try done; apply Hboth.
  - intros c Hc Hac Hbc p. apply dims_covers. pose proof (covers_dims a c Ha Hac) as H1. pose proof (covers_dims b c Hb Hbc) as H2. clear -Hd H1 H2 Hc.
    revert c Hc H1 H2. induction Hd as [|x y a b [Hx Hy] _ IH]; intros [|z c] Hc H1 H2; try (by inversion H1); cbn.
    apply Forall_cons in Hc as [Hz Hc]. apply Forall2_cons in H1 as [H1 H1'], H2 as [H2 H2']. constructor; [|by apply IH].
    destruct (cover_dim_spec x y Hx Hy) as (_ & _ & Hm). by apply Hm.
Qed.

(** The coordinates relative to a slice. *)
Definition offset_dim (e : Extent) (q : Z) : Z := if IsFullAt e then q else q - start e.
Definition offset (a : TensorSlice) (p : list Z) : list Z := zip_with offset_dim a p.
Lemma relative_dim_spec x y q : extent_ok x -> extent_ok y -> (forall q, covers_dim y q -> covers_dim x q) -> covers_dim y q <-> covers_dim (relative_dim x y) (offset_dim x q).
Proof.
  intros Hx Hy H. unfold relative_dim, offset_dim. destruct (extent_cases x Hx) as [[-> Ex]|(Ex & X1 & X2 & X3 & X4)]; rewrite Ex; [by destruct y|].
  destruct (extent_cases y Hy) as [[-> Ey]|(Ey & Y1 & Y2 & Y3 & Y4)].
  - specialize (H (2 ^ 63) ltac:(cbn; lia)). rewrite covers_part in H by done. lia.
  - pose proof (H (start y) ltac:(apply covers_part; [done|lia])) as H1. rewrite covers_part in H1 by done. rewrite s64_id by lia.
    rewrite covers_part by done. rewrite covers_part by (apply not_full; lia). cbn [start length_]. lia.
Qed.
Lemma ComputeRelative_spec a b : slice_ok a -> slice_ok b -> (forall p, covers b p -> covers a p) ->
  exists r, ComputeRelative a b = Some r /\ forall p, covers a p -> covers b p <-> covers r (offset a p).
Proof.
  intros Ha Hb H. pose proof (covers_dims b a Hb H) as Hd. exists (zip_with relative_dim a b). unfold ComputeRelative.
  rewrite <- (Forall2_length _ _ _ Hd), Nat.eqb_refl. split; [done|]. unfold covers, offset. intros p Hp. clear H. revert p Hp. induction Hd as [|y x b a Hyx _ IH]; intros p Hp.
  - inversion Hp. done.
  - apply Forall_cons in Ha as [Hx Ha], Hb as [Hy Hb]. destruct p as [|q p]; [inversion Hp|]. apply Forall2_cons in Hp as [Hq Hp]. cbn.
    rewrite !Forall2_cons, (relative_dim_spec x y q), (IH Ha Hb p) by done. done.
Qed.

(** ** Shapes *)

Lemma slice_shape_loop_ok shape whole s sizes d result : slice_ok s -> length s = length sizes -> (forall i x, sizes !! i = Some x -> dim_size shape (d + Z.of_nat i) = Some x) ->
  Forall2 in_bounds s sizes ->
  slice_shape_loop shape whole d s result = match AddDims (zip_with slice_dim s sizes) result with Some r => Some (OK, r) | None => None end.
Proof.
  intros Hs Hl Hd Hb. revert d result Hd Hs Hl. induction Hb as [|e n s sizes He _ IH]; intros d result Hd Hs Hl; [done|]. cbn [slice_shape_loop zip_with AddDims].
  apply Forall_cons in Hs as [Heo Hs]. injection Hl as Hl. pose proof (Hd 0%nat n eq_refl) as H0. rewrite Z.add_0_r in H0. rewrite H0.
  assert (Hd' : forall i x, sizes !! i = Some x -> dim_size shape (d + 1 + Z.of_nat i) = Some x) by (intros i x Hi; rewrite <- (Hd (S i) x Hi); f_equal; lia).
  unfold slice_dim at 1. destruct (extent_cases e Heo) as [[-> Ef]|(Ef & _ & _ & _ & Ee)]; rewrite Ef.
  - destruct (AddDim n result) as [r|]; [|done]. by apply IH.
  - destruct He as [He|He]; [congruence|]. rewrite Ee, (proj2 (Z.leb_le _ _) He). destruct (AddDim (length_ e) result) as [r|]; [|done]. by apply IH.
Qed.
Lemma slice_shape_loop_bad shape whole s sizes d result st r : slice_ok s -> length s = length sizes -> (forall i x, sizes !! i = Some x -> dim_size shape (d + Z.of_nat i) = Some x) ->
  ~ Forall2 in_bounds s sizes -> slice_shape_loop shape whole d s result = Some (st, r) -> ok st = false.
Proof.
  revert sizes d result. induction s as [|e s IH]; intros [|n sizes] d result Hs Hl Hd Hb; try done; [by destruct Hb|]. cbn [slice_shape_loop].
  apply Forall_cons in Hs as [Heo Hs]. injection Hl as Hl. pose proof (Hd 0%nat n eq_refl) as H0. rewrite Z.add_0_r in H0. rewrite H0.
  assert (Hd' : forall i x, sizes !! i = Some x -> dim_size shape (d + 1 + Z.of_nat i) = Some x) by (intros i x Hi; rewrite <- (Hd (S i) x Hi); f_equal; lia).
  assert (Hrest : in_bounds e n -> ~ Forall2 in_bounds s sizes) by (intros He H; apply Hb; by constructor).
  destruct (extent_cases e Heo) as [[-> Ef]|(Ef & _ & _ & _ & Ee)]; rewrite Ef.
  - destruct (AddDim n result) as [r'|]; [|done]. apply (IH sizes); auto. apply Hrest. by left.
  - rewrite Ee. destruct (Z.leb_spec (start e + length_ e) n); [|by intros [= <- _]]. destruct (AddDim (length_ e) result) as [r'|]; [|done].
    apply (IH sizes); auto. apply Hrest. by right.
Qed.

Lemma slice_dim_range e n : extent_ok e -> in_bounds e n -> 0 <= n -> 0 <= slice_dim e n <= n.
Proof.
  intros He Hb Hn. unfold slice_dim. destruct (extent_cases e He) as [[_ Ef]|(Ef & ? & ? & _)]; rewrite Ef; [lia|]. destruct Hb as [Hb|Hb]; [congruence|lia].
Qed.
Lemma product_le (l m : list Z) : Forall2 (fun x y => 0 <= x <= y) l m -> 0 <= product l <= product m.
Proof. induction 1 as [|x y l m Hxy _ IH]; cbn; [lia|]. fold (product l) (product m). nia. Qed.
Lemma slice_within s sizes : slice_ok s -> Forall2 in_bounds s sizes -> within sizes -> within (zip_with slice_dim s sizes).
Proof.
  intros Hs Hb (Hl & Hn & Hk).
  assert (H : Forall2 (fun x y => 0 <= x <= y) (zip_with slice_dim s sizes) sizes).
  { clear Hk Hl. induction Hb as [|e n s sizes He _ IH]; [constructor|]. apply Forall_cons in Hs as [He' Hs], Hn as [Hn' Hn]. cbn. constructor; [by apply slice_dim_range|auto]. }
  split; [|split].
  - unfold zlength in *. by rewrite (Forall2_length _ _ _ H).
  - clear -H. induction H as [|x y l m [? _] _ IH]; constructor; done.
  - intros k. specialize (Hk k). pose proof (product_le _ _ (Forall2_take _ _ _ k H)). lia.
Qed.
Lemma SliceTensorShape_ok shape s r0 : shape_ok shape -> within (dim_sizes shape) -> slice_ok s -> Forall2 in_bounds s (dim_sizes shape) ->
  exists r, SliceTensorShape shape s r0 = Some (OK, r) /\ shape_ok r /\ dim_sizes r = zip_with slice_dim s (dim_sizes shape) /\
    num_elements r = product (zip_with slice_dim s (dim_sizes shape)).
Proof.
  intros H Hw Hs Hb. unfold SliceTensorShape. pose proof (Forall2_length _ _ _ Hb) as Hl.
  assert (Er : (dims shape =? zlength s) = true) by (rewrite dims_sizes by done; unfold zlength; apply Z.eqb_eq; lia). rewrite Er. cbn [negb].
  destruct (slice_within _ _ Hs Hb Hw) as (Hwl & Hwn). destruct (cleared_ok r0) as [_ Hc].
  destruct (AddDims_within (zip_with slice_dim s (dim_sizes shape)) (Clear r0) Hc Hwn Hwl) as (r & E & En).
  exists r. rewrite (slice_shape_loop_ok shape s s (dim_sizes shape)), E; [|done|done| |done].
  - destruct (AddDims_ok _ _ _ Hc E) as (Hr & Hsl & _). split_and!; [done|done| |].
    + rewrite dim_sizes_slots by (by apply ok_ndims). by rewrite Hsl.
    + unfold num_elements. rewrite En. cbn. lia.
  - intros i x Hi. rewrite Z.add_0_l, dim_size_sizes by done. unfold zlookup. rewrite (proj2 (Z.ltb_ge _ _)), Nat2Z.id by lia. done.
Qed.
Lemma SliceTensorShape_bad shape s r0 st r : shape_ok shape -> slice_ok s -> ~ Forall2 in_bounds s (dim_sizes shape) -> SliceTensorShape shape s r0 = Some (st, r) -> ok st = false.
Proof.
  intros H Hs Hb. unfold SliceTensorShape. destruct (Z.eqb_spec (dims shape) (zlength s)) as [El|]; cbn [negb]; [|by intros [= <- _]].
  apply (slice_shape_loop_bad shape s s (dim_sizes shape)); [done| | |done].
  - rewrite dims_sizes in El by done. unfold zlength in El. lia.
  - intros i x Hi. rewrite Z.add_0_l, dim_size_sizes by done. unfold zlookup. rewrite (proj2 (Z.ltb_ge _ _)), Nat2Z.id by lia. done.
Qed.

(** On slices of the same rank whose extents are full or have a
    non-negative start, a positive length and an end below 2^63, as sets of
    points: [Intersect] returns true exactly when the slices share a point and
    then its result is their intersection; [UpdateToCover] gives the smallest
    slice that contains both; and for a sub-slice, [ComputeRelative] gives the
    slice that selects, inside the first, the points of the second. *)
Theorem slice_algebra (a b r0 : TensorSlice) : slice_ok a -> slice_ok b -> length a = length b ->
  (fst (Intersect a b r0) = true <-> exists p, covers a p /\ covers b p) /\
  (fst (Intersect a b r0) = true -> slice_ok (snd (Intersect a b r0)) /\ forall p, covers (snd (Intersect a b r0)) p <-> covers a p /\ covers b p) /\
  (exists u, UpdateToCover a b = Some u /\ slice_ok u /\ (forall p, covers a p \/ covers b p -> covers u p) /\
     forall c, slice_ok c -> (forall p, covers a p -> covers c p) -> (forall p, covers b p -> covers c p) -> forall p, covers u p -> covers c p) /\
  ((forall p, covers b p -> covers a p) -> exists r, ComputeRelative a b = Some r /\ forall p, covers a p -> covers b p <-> covers r (offset a p)).
Proof.
  intros Ha Hb Hl. destruct (Intersect_spec a b r0 Ha Hb Hl) as [H1 H2]. split_and!; [done|intros E; by destruct (H2 E) as (? & _ & ?)| |].
  - destruct (UpdateToCover_spec a b Ha Hb Hl) as (u & Eu & Hu & _ & H3 & H4). by exists u.
  - by apply ComputeRelative_spec.
Qed.
Lemma slice_algebra_witness : exists u, UpdateToCover [mkExtent 2 3; full] [mkExtent 4 5; mkExtent 0 1] = Some u /\ slice_ok u.
Proof.
  destruct (slice_algebra [mkExtent 2 3; full] [mkExtent 4 5; mkExtent 0 1] []) as (_ & _ & (u & H1 & H2 & _) & _); [..|by exists u].
  - constructor; [right; cbn; lia|constructor; [by left|constructor]].
  - constructor; [right; cbn; lia|constructor; [right; cbn; lia|constructor]].
  - reflexivity.
Defined.

Lemma Parse_print (s acc : TensorSlice) : slice_ok s -> Parse (DebugString s) acc = (OK, acc ++ s).
Proof.
  intros Hs. unfold Parse, DebugString. change (bytes_of ":") with [58]. rewrite Split_Join_nonempty; [by apply parse_items_text|..];
    apply Forall_map, (Forall_impl _ _ _ Hs); intros e He; apply (extent_text_ok e He).
Qed.
Lemma DebugString_inj (s t : TensorSlice) : slice_ok s -> slice_ok t -> DebugString s = DebugString t -> s = t.
Proof. intros Hs Ht E. pose proof (Parse_print s [] Hs) as P. rewrite E, Parse_print in P by done. by injection P. Qed.

(** A slice of such extents is read back from its text and from its proto:
    [Parse] of [DebugString] is OK and appends the slice to what the output
    held. *)
Theorem slice_parse_roundtrip (s acc : TensorSlice) : slice_ok s -> Parse (DebugString s) acc = (OK, acc ++ s) /\ TensorSlice_of_proto (AsProto s) = s.
Proof.
  intros Hs. split.
  - by apply Parse_print.
  - clear Hs. unfold TensorSlice_of_proto, AsProto. rewrite map_map. induction s as [|e s IH]; [done|]. cbn [map]. rewrite IH. f_equal.
    destruct (IsFullAt e) eqn:E; [apply IsFullAt_iff in E as ->; done|by destruct e].
Qed.
Lemma slice_parse_roundtrip_witness : Parse (DebugString [mkExtent 0 10; full; mkExtent 14 1]) [] = (OK, [mkExtent 0 10; full; mkExtent 14 1]).
Proof.
  apply (slice_parse_roundtrip [mkExtent 0 10; full; mkExtent 14 1] []).
  constructor; [right; cbn; lia|constructor; [by left|constructor; [right; cbn; lia|constructor]]].
Defined.

(** [SliceTensorShape] of a shape within the limit on elements: when the
    ranks agree and every extent that is not full ends inside its dimension it
    is OK, the result has the sizes of the slice and as many elements as their
    product; otherwise the status is an error. The bound on the end matters:
    [end] wraps around, and an extent that [Parse] accepts, far outside the
    dimension, is sliced with status OK. *)
Theorem slice_shape shape (s : TensorSlice) r0 : shape_ok shape -> within (dim_sizes shape) -> slice_ok s ->
  (Forall2 in_bounds s (dim_sizes shape) -> exists r, SliceTensorShape shape s r0 = Some (OK, r) /\
     dim_sizes r = zip_with slice_dim s (dim_sizes shape) /\ num_elements r = product (dim_sizes r)) /\
  (forall st r, ~ Forall2 in_bounds s (dim_sizes shape) -> SliceTensorShape shape s r0 = Some (st, r) -> ok st = false) /\
  (exists sh e r, TensorShape_of [10] = Some sh /\ Parse (bytes_of "9223372036854775807,1") [] = (OK, [e]) /\ ~ in_bounds e 10 /\
     SliceTensorShape sh [e] r0 = Some (OK, r)).
Proof.
  intros H Hw Hs. split_and!.
  - intros Hb. destruct (SliceTensorShape_ok shape s r0 H Hw Hs Hb) as (r & E & _ & Ed & En). exists r. by rewrite Ed.
  - intros st r. by apply SliceTensorShape_bad.
  - eexists _, (mkExtent (2 ^ 63 - 1) 1), _. split_and!; [reflexivity|reflexivity| |reflexivity]. by intros [?|?].
Qed.
Lemma slice_shape_witness : exists r, SliceTensorShape demo_shape [mkExtent 1 2; full] new_TensorShape = Some (OK, r) /\ num_elements r = product (dim_sizes r).
Proof.
  destruct (slice_shape demo_shape [mkExtent 1 2; full] new_TensorShape demo_shape_ok) as [H _].
  - split; [discriminate|]. split; [repeat constructor; discriminate|]. intros [|[|[|k]]]; vm_compute; discriminate.
  - constructor; [right; cbn; lia|constructor; [by left|constructor]].
  - destruct H as (r & H1 & _ & H2); [|exists r; exact (conj H1 H2)]. constructor; [right; vm_compute; discriminate|constructor; [left; reflexivity|constructor]].
Defined.
End TensorSlice.
