(* ===== verification/TensorSliceSet.v ===== *)
(** * Tensor slice sets

    [TensorSliceSet] and [RegisterTensorSlice] of
    [core/util/tensor_slice_set.{h,cc}]: the slices of one tensor that a
    checkpoint holds, under their text, with the hull that contains them. *)
From stdpp Require Import list_numbers.
From S2P Require Import Prelude Status Numbers DataTypes TensorShape TensorSlice.
Import Status DataTypes TensorShape TensorSlice.

Module TensorSliceSet.

Section SliceSet.
(** A pointer to the data of a slice. *)
Context {Data : Type}.

Record SliceInfo := mkInfo { slice : TensorSlice; tag : list Z; data : Data; num_floats : Z }.
Record SliceSet := mkSet { shape_ : TensorShape; type_ : Z; slices_ : gmap (list Z) SliceInfo; slices_hull_ : TensorSlice }.
Definition new_SliceSet (shape : TensorShape) (type : Z) : SliceSet := mkSet shape type ∅ [].
Definition infos (t : SliceSet) : list SliceInfo := map snd (map_to_list (slices_ t)).

(** The status and the set afterwards; [None]: a [CHECK] fails. The name of
    the overlapping slice in the message is the first in the order of the
    table. *)
Definition Register (s : TensorSlice) (tg : list Z) (d : Data) (t : SliceSet) : option (Status * SliceSet) :=
  match SliceTensorShape (shape_ t) s new_TensorShape with
  | None => None
  | Some (st, result_shape) =>
      if negb (ok st) then Some (st, t)
      else
        let str := DebugString s in
        let insert hull := Some (OK, mkSet (shape_ t) (type_ t)
          (match slices_ t !! str with Some _ => slices_ t | None => <[str := mkInfo s tg d (num_elements result_shape)]> (slices_ t) end) hull) in
        if bool_decide (slices_ t = ∅) then insert s
        else
          let overlapping := if Overlaps (slices_hull_ t) s then List.filter (fun p => Overlaps s (slice p.2)) (map_to_list (slices_ t)) else [] in
          match overlapping with
          | x :: _ => Some (Internal (bytes_of "Overlapping slices: existing slice = " ++ x.1 ++ bytes_of ", new slice = " ++ str), t)
          | [] => match UpdateToCover (slices_hull_ t) s with Some hull => insert hull | None => None end
          end
  end.

(** The loop of [Query] and [QueryMeta]: the size of the overlaps and the
    slices that overlap; [None]: an intersection that does not fit the
    shape. *)
Fixpoint overlap_loop (shape : TensorShape) (s : TensorSlice) (xs : list SliceInfo) (intersection : TensorSlice) (overlap_size : Z) : option (option (Z * list SliceInfo)) :=
  match xs with
  | [] => Some (Some (overlap_size, []))
  | x :: xs' =>
      let '(b, intersection) := Intersect s (slice x) intersection in
      if b then
        match SliceTensorShape shape intersection new_TensorShape with
        | None => None
        | Some (st, inter_shape) =>
            if ok st then
              match overlap_loop shape s xs' intersection (s64 (overlap_size + num_elements inter_shape)) with
              | Some (Some (n, l)) => Some (Some (n, x :: l))
              | r => r
              end
            else Some None
        end
      else overlap_loop shape s xs' intersection overlap_size
  end.
(** What [Query] copies when it is given a buffer: a whole slice, or the common
    part of each slice of the set. *)
Inductive Copies := CopyAll (x : SliceInfo) | CopyParts (xs : list SliceInfo).
Definition covered (s : TensorSlice) (t : SliceSet) : option (option (list SliceInfo)) :=
  match SliceTensorShape (shape_ t) s new_TensorShape with
  | None => None
  | Some (st, target_shape) =>
      if ok st then
        match overlap_loop (shape_ t) s (infos t) [] 0 with
        | None => None
        | Some None => Some None
        | Some (Some (n, l)) => if num_elements target_shape =? n then Some (Some l) else Some None
        end
      else Some None
  end.
(** [Some None] is the answer false; [None]: a [CHECK] fails. *)
Definition Query (s : TensorSlice) (t : SliceSet) : option (option Copies) :=
  match slices_ t !! DebugString s with
  | Some info => Some (Some (CopyAll info))
  | None => match covered s t with
            | None => None
            | Some None => Some None
            | Some (Some _) => Some (Some (CopyParts (infos t)))
            end
  end.
(** The answer and [*results]. *)
Definition QueryMeta (s : TensorSlice) (t : SliceSet) : option (bool * list (TensorSlice * list Z)) :=
  match slices_ t !! DebugString s with
  | Some info => Some (true, [(slice info, tag info)])
  | None => match covered s t with
            | None => None
            | Some None => Some (false, [])
            | Some (Some l) => Some (true, map (fun x => (slice x, tag x)) l)
            end
  end.

(** [RegisterTensorSlice], on the sets by name. *)
Definition RegisterTensorSlice (name : list Z) (shape : TensorShape) (type : Z) (tg : list Z) (s : TensorSlice) (null : Data)
    (sets : gmap (list Z) SliceSet) : option (Status * gmap (list Z) SliceSet) :=
  let register t sets := match Register s tg null t with Some (st, t') => Some (st, <[name := t']> sets) | None => None end in
  match sets !! name with
  | None => register (new_SliceSet shape type) sets
  | Some t =>
      if negb (IsSameSize shape (shape_ t)) then
        Some (Internal (bytes_of "Incompatible tensor shapes detected for tensor " ++ name ++ bytes_of ": existing = " ++
          TensorShape.DebugString (shape_ t) ++ bytes_of ", new = " ++ TensorShape.DebugString shape), sets)
      else if negb (type =? type_ t) then
        match DataTypeString (type_ t), DataTypeString type with
        | Some old, Some new =>
            Some (Internal (bytes_of "Incompatible tensor types detected for tensor " ++ name ++ bytes_of ": existing = " ++ old ++ bytes_of ", new = " ++ new), sets)
        | _, _ => None
        end
      else register t sets
  end.

(** ** The points of a slice in a shape *)

Definition range (e : Extent) (n : Z) : list Z := seqZ (if IsFullAt e then 0 else start e) (slice_dim e n).
Fixpoint box (s : TensorSlice) (sizes : list Z) : list (list Z) :=
  match s, sizes with
  | e :: s', n :: sizes' => concat (map (fun q => map (cons q) (box s' sizes')) (range e n))
  | _, _ => [[]]
  end.
Definition in_shape (p sizes : list Z) : Prop := Forall2 (fun q n => 0 <= q < n) p sizes.

Lemma product_NoDup (l : list Z) (r : list (list Z)) : NoDup l -> NoDup r -> NoDup (concat (map (fun q => map (cons q) r) l)).
Proof.
  intros Hl Hr. induction Hl as [|q l Hq _ IH]; [constructor|]. cbn. apply NoDup_app. split_and!; [|intros p Hp Hin|done].
  - apply (NoDup_fmap_2 (cons q) r Hr).
  - apply list_elem_of_In, in_map_iff in Hp as (p' & <- & _). apply list_elem_of_In, in_concat in Hin as (x & Hx & Hin).
    apply in_map_iff in Hx as (q' & <- & Hq'). apply in_map_iff in Hin as (p2 & [= -> _] & _). apply Hq. by apply list_elem_of_In.
Qed.
Lemma product_length (l : list Z) (r : list (list Z)) : length (concat (map (fun q => map (cons q) r) l)) = (length l * length r)%nat.
Proof. induction l as [|q l IH]; [done|]. cbn. rewrite length_app, length_map, IH. lia. Qed.
Lemma product_elem (l : list Z) (r : list (list Z)) p : p ∈ concat (map (fun q => map (cons q) r) l) <-> exists q p', p = q :: p' /\ q ∈ l /\ p' ∈ r.
Proof.
  rewrite list_elem_of_In, in_concat. split.
  - intros (x & Hx & Hin). apply in_map_iff in Hx as (q & <- & Hq). apply in_map_iff in Hin as (p' & <- & Hp'). exists q, p'. by rewrite !list_elem_of_In.
  - intros (q & p' & -> & Hq & Hp'). rewrite list_elem_of_In in Hq. rewrite list_elem_of_In in Hp'. exists (map (cons q) r). split; [by apply (in_map (fun q => map (cons q) r))|by apply in_map].
Qed.
Lemma box_NoDup s sizes : NoDup (box s sizes).
Proof.
  revert sizes. induction s as [|e s IH]; intros [|n sizes]; try apply NoDup_singleton. apply product_NoDup; [apply NoDup_seqZ|apply IH].
Qed.
Lemma range_elem e n q : extent_ok e -> in_bounds e n -> q ∈ range e n <-> covers_dim e q /\ 0 <= q < n.
Proof.
  intros He Hb. unfold range, slice_dim. rewrite elem_of_seqZ. destruct (extent_cases e He) as [[-> Ef]|(Ef & H1 & H2 & _)]; rewrite Ef.
  - rewrite covers_full. lia.
  - rewrite covers_part by done. destruct Hb as [Hb|Hb]; [congruence|]. lia.
Qed.
Lemma box_elem s sizes p : slice_ok s -> Forall2 in_bounds s sizes -> p ∈ box s sizes <-> covers s p /\ in_shape p sizes.
Proof.
  intros Hs Hb. revert p. induction Hb as [|e n s sizes He _ IH]; intros p.
  - cbn. rewrite list_elem_of_singleton. split; [intros ->; split; constructor|intros [H _]; by inversion H].
  - apply Forall_cons in Hs as [Heo Hs]. cbn [box]. rewrite product_elem. setoid_rewrite range_elem; [|done..]. setoid_rewrite (IH Hs). unfold covers, in_shape. split.
    + intros (q & p' & -> & [H1 H2] & H3 & H4). split; by constructor.
    + intros [H1 H2]. destruct p as [|q p]; [inversion H1|]. apply Forall2_cons in H1 as [? ?], H2 as [? ?]. by exists q, p.
Qed.
Lemma box_length s sizes : slice_ok s -> Forall2 in_bounds s sizes -> Forall (fun n => 0 <= n) sizes -> Z.of_nat (length (box s sizes)) = product (zip_with slice_dim s sizes).
Proof.
  intros Hs Hb Hn. induction Hb as [|e n s sizes He _ IH]; [done|]. apply Forall_cons in Hs as [Heo Hs], Hn as [Hn' Hn]. cbn [box zip_with].
  rewrite product_length, Nat2Z.inj_mul, (IH Hs Hn). unfold range. rewrite length_seqZ. pose proof (slice_dim_range e n Heo He Hn'). rewrite Z2Nat.id by lia. done.
Qed.

(** ** The invariant *)

Abbreviation sizes t := (dim_sizes (shape_ t)).
Definition disjoint (a b : TensorSlice) : Prop := forall p, ~ (covers a p /\ covers b p).
Definition fits (s : TensorSlice) (t : SliceSet) : Prop := slice_ok s /\ Forall2 in_bounds s (sizes t).
(** The points of the registered slices. *)
Definition held (t : SliceSet) (p : list Z) : Prop := exists k x, slices_ t !! k = Some x /\ covers (slice x) p.
Record set_ok (t : SliceSet) : Prop := {
  so_shape : shape_ok (shape_ t);
  so_within : within (sizes t);
  so_slices : forall k x, slices_ t !! k = Some x -> k = DebugString (slice x) /\ fits (slice x) t;
  so_disjoint : forall k1 k2 x y, slices_ t !! k1 = Some x -> slices_ t !! k2 = Some y -> k1 <> k2 -> disjoint (slice x) (slice y);
  so_hull : slices_ t <> ∅ -> slice_ok (slices_hull_ t) /\ length (slices_hull_ t) = length (sizes t) /\ forall p, held t p -> covers (slices_hull_ t) p
}.

Lemma fits_length s t : fits s t -> length s = length (sizes t).
Proof. intros [_ H]. by apply Forall2_length in H. Qed.
Lemma fits_shape s t r0 : set_ok t -> fits s t -> exists r, SliceTensorShape (shape_ t) s r0 = Some (OK, r) /\ num_elements r = Z.of_nat (length (box s (sizes t))).
Proof.
  intros H [Hs Hb]. destruct (SliceTensorShape_ok (shape_ t) s r0 (so_shape t H) (so_within t H) Hs Hb) as (r & E & _ & _ & En).
  exists r. split; [done|]. rewrite En, box_length; [done..|]. apply (so_within t H).
Qed.
Lemma box_bound s t : set_ok t -> fits s t -> Z.of_nat (length (box s (sizes t))) <= kMaxElements.
Proof.
  intros H [Hs Hb]. pose proof (so_within t H) as Hw. rewrite box_length by (done || apply Hw). destruct (slice_within s _ Hs Hb Hw) as (_ & _ & Hk).
  specialize (Hk (length (zip_with slice_dim s (sizes t)))). rewrite firstn_all in Hk. lia.
Qed.
Lemma Overlaps_spec a b : slice_ok a -> slice_ok b -> length a = length b -> Overlaps a b = true <-> exists p, covers a p /\ covers b p.
Proof. intros Ha Hb Hl. apply (Intersect_spec a b [] Ha Hb Hl). Qed.
Lemma Overlaps_disjoint a b : slice_ok a -> slice_ok b -> length a = length b -> Overlaps a b = false <-> disjoint a b.
Proof.
  intros Ha Hb Hl. pose proof (Overlaps_spec a b Ha Hb Hl) as H. unfold disjoint. split.
  - intros E p Hp. assert (Overlaps a b = true) by (apply H; by exists p). congruence.
  - intros Hd. destruct (Overlaps a b); [|done]. destruct (proj1 H eq_refl) as [p Hp]. by apply Hd in Hp.
Qed.
Lemma not_self_disjoint s : slice_ok s -> ~ disjoint s s.
Proof. intros Hs H. apply (H (map start s)). split; by apply covers_starts. Qed.
Lemma fits_same s t t' : shape_ t = shape_ t' -> fits s t -> fits s t'.
Proof. unfold fits. by intros ->. Qed.

(** ** [Register] *)

Definition overlapping (s : TensorSlice) (t : SliceSet) : list (list Z * SliceInfo) :=
  if Overlaps (slices_hull_ t) s then List.filter (fun p => Overlaps s (slice p.2)) (map_to_list (slices_ t)) else [].
Lemma overlapping_nil s t : set_ok t -> fits s t -> slices_ t <> ∅ -> overlapping s t = [] <-> forall k x, slices_ t !! k = Some x -> disjoint s (slice x).
Proof.
  intros H Hf Hne. pose proof Hf as [Hs _]. destruct (so_hull t H Hne) as (Hh & Hhl & Hhc). pose proof (fits_length s t Hf) as Hl.
  assert (Hx : forall k x, slices_ t !! k = Some x -> slice_ok (slice x) /\ length s = length (slice x)).
  { intros k x E. destruct (so_slices t H k x E) as [_ Hfx]. split; [apply Hfx|]. by rewrite Hl, (fits_length _ _ Hfx). }
  unfold overlapping. split.
  - intros E k x Ek. destruct (Hx k x Ek) as [Hxo Hxl]. destruct (Overlaps (slices_hull_ t) s) eqn:Eh.
    + apply Overlaps_disjoint; [done..|]. destruct (Overlaps s (slice x)) eqn:Ex; [|done]. exfalso.
      assert (Hin : In (k, x) (List.filter (fun p => Overlaps s (slice p.2)) (map_to_list (slices_ t)))) by (apply filter_In; split; [by apply list_elem_of_In, elem_of_map_to_list|done]).
      by rewrite E in Hin.
    + apply Overlaps_disjoint in Eh; [|done|done|congruence]. intros p [Hp Hq]. apply (Eh p). split; [|done]. apply Hhc. by exists k, x.
  - intros Hd. destruct (Overlaps _ _); [|done]. destruct (List.filter _ _) as [|[k x] l] eqn:E; [done|]. exfalso.
    assert (Hin : In (k, x) (List.filter (fun p => Overlaps s (slice p.2)) (map_to_list (slices_ t)))) by (rewrite E; by left).
    apply filter_In in Hin as [Hin Ho]. apply list_elem_of_In, elem_of_map_to_list in Hin. destruct (Hx k x Hin) as [Hxo Hxl].
    apply Overlaps_spec in Ho as [p Hp]; [|done..]. by apply (Hd k x Hin) in Hp.
Qed.
(** Adding a slice that is disjoint from the others. *)
Lemma insert_ok s tg d n hull t : set_ok t -> fits s t -> (forall k x, slices_ t !! k = Some x -> disjoint s (slice x)) ->
  slice_ok hull -> length hull = length (sizes t) -> (forall p, covers s p \/ held t p -> covers hull p) ->
  let t' := mkSet (shape_ t) (type_ t) (match slices_ t !! DebugString s with Some _ => slices_ t | None => <[DebugString s := mkInfo s tg d n]> (slices_ t) end) hull in
  set_ok t' /\ forall p, held t' p <-> held t p \/ covers s p.
Proof.
  intros H Hf Hd Hh Hhl Hhc t'. assert (Hnone : slices_ t !! DebugString s = None).
  { destruct (slices_ t !! DebugString s) as [x|] eqn:E; [|done]. exfalso. destruct (so_slices t H _ _ E) as [Ek [Hxo _]].
    apply DebugString_inj in Ek; [|apply Hf|done]. apply (not_self_disjoint s); [apply Hf|]. rewrite Ek at 2. by eapply Hd. }
  subst t'. rewrite Hnone. assert (Hheld : forall p, held (mkSet (shape_ t) (type_ t) (<[DebugString s := mkInfo s tg d n]> (slices_ t)) hull) p <-> held t p \/ covers s p).
  { intros p. unfold held. cbn [slices_]. split.
    - intros (k & x & E & Hp). destruct (decide (DebugString s = k)) as [<-|Hne]; [rewrite lookup_insert_eq in E; injection E as <-; by right|].
      rewrite lookup_insert_ne in E by done. left. by exists k, x.
    - intros [(k & x & E & Hp)|Hp].
      + exists k, x. split; [|done]. rewrite lookup_insert_ne; [done|]. intros <-. congruence.
      + eexists _, _. split; [apply lookup_insert_eq|done]. }
  split; [|done]. split; cbn [shape_ slices_ slices_hull_].
  - apply H.
  - apply H.
  - intros k x E. destruct (decide (DebugString s = k)) as [<-|Hne]; [rewrite lookup_insert_eq in E; by injection E as <-|].
    rewrite lookup_insert_ne in E by done. by apply (so_slices t H).
  - intros k1 k2 x y E1 E2 Hne. destruct (decide (DebugString s = k1)) as [<-|H1], (decide (DebugString s = k2)) as [<-|H2]; try done.
    + rewrite lookup_insert_eq in E1. injection E1 as <-. rewrite lookup_insert_ne in E2 by done. by apply (Hd k2).
    + rewrite lookup_insert_eq in E2. injection E2 as <-. rewrite lookup_insert_ne in E1 by done. intros p [Hp Hq]. by apply (Hd k1 x E1 p).
    + rewrite lookup_insert_ne in E1, E2 by done. by apply (so_disjoint t H k1 k2).
  - intros _. split_and!; [done..|]. intros p Hp. apply Hhc. apply Hheld in Hp. tauto.
Qed.
Lemma Register_spec s tg d t : set_ok t -> fits s t ->
  exists st t', Register s tg d t = Some (st, t') /\ set_ok t' /\
    (ok st = true <-> forall k x, slices_ t !! k = Some x -> disjoint s (slice x)) /\
    (if ok st then forall p, held t' p <-> held t p \/ covers s p else t' = t).
Proof.
  intros H Hf. unfold Register. destruct (fits_shape s t new_TensorShape H Hf) as (r & -> & _). cbn [ok OK state_ negb].
  case_bool_decide as He.
  - assert (Hno : forall k x, slices_ t !! k = Some x -> disjoint s (slice x)) by (intros k x E; by rewrite He in E).
    destruct (insert_ok s tg d (num_elements r) s t H Hf Hno) as [H1 H2]; [apply Hf|by apply fits_length| |].
    { intros p [Hp|(k & x & E & _)]; [done|]. by rewrite He in E. }
    eexists _, _. split; [done|]. split; [exact H1|]. cbn. split; [done|exact H2].
  - pose proof (overlapping_nil s t H Hf He) as Ho. unfold overlapping in Ho. destruct (if Overlaps (slices_hull_ t) s then _ else _) as [|x l].
    + destruct (so_hull t H He) as (Hh & Hhl & Hhc). destruct (UpdateToCover_spec (slices_hull_ t) s Hh ltac:(apply Hf)) as (u & Eu & Hu & Hul & Hc & _); [by rewrite (fits_length s t Hf)|].
      rewrite Eu. pose proof (proj1 Ho eq_refl) as Hno. destruct (insert_ok s tg d (num_elements r) u t H Hf Hno Hu) as [H1 H2]; [congruence| |].
      { intros p [Hp|Hp]; apply Hc; [by right|left; by apply Hhc]. }
      eexists _, _. split; [done|]. split; [exact H1|]. cbn. split; [done|exact H2].
    + eexists _, _. split; [done|]. split; [done|]. cbn. split; [|done]. split; [done|]. intros Hno. by apply Ho in Hno.
Qed.

(** ** [Query]: counting the points *)

(** The points of [s] in the slices of [xs], slice by slice. *)
Definition cells (s : TensorSlice) (sz : list Z) (xs : list SliceInfo) : list (list Z) :=
  concat (map (fun x => match intersect_loop s (slice x) with Some r => box r sz | None => [] end) xs).
Lemma cell_elem s x t p : fits s t -> fits (slice x) t ->
  p ∈ (match intersect_loop s (slice x) with Some r => box r (sizes t) | None => [] end) <-> covers s p /\ covers (slice x) p /\ in_shape p (sizes t).
Proof.
  intros Hs Hx. pose proof (intersect_loop_spec s (slice x) ltac:(apply Hs) ltac:(apply Hx)) as H. rewrite (fits_length s t Hs), (fits_length _ t Hx) in H.
  specialize (H eq_refl). destruct (intersect_loop s (slice x)) as [r|] eqn:E.
  - destruct H as (Hr & _ & Hc). rewrite box_elem, Hc; [tauto|done|]. apply (intersect_in_bounds s (slice x)); [apply Hs|apply Hx|apply Hs|apply Hx|done].
  - split; [by intros ?%not_elem_of_nil|]. intros (H1 & H2 & _). by destruct (H p).
Qed.
Lemma cells_elem s t xs p : fits s t -> Forall (fun x => fits (slice x) t) xs -> p ∈ cells s (sizes t) xs <-> exists x, x ∈ xs /\ covers s p /\ covers (slice x) p /\ in_shape p (sizes t).
Proof.
  intros Hs H. unfold cells. induction H as [|x xs Hx _ IH]; [split; [by intros ?%not_elem_of_nil|by intros (x & ?%not_elem_of_nil & _)]|].
  cbn [map concat]. rewrite elem_of_app, IH, (cell_elem s x t) by done. split.
  - intros [?|(y & ? & ?)]; [exists x|exists y]; (split; [by (left + (right; assumption))|done]).
  - intros (y & [->|Hy]%elem_of_cons & Hr); [by left|]. right. by exists y.
Qed.
Lemma cells_NoDup s t xs : fits s t -> Forall (fun x => fits (slice x) t) xs -> ForallOrdPairs (fun x y => disjoint (slice x) (slice y)) xs -> NoDup (cells s (sizes t) xs).
Proof.
  intros Hs H Hd. induction Hd as [|x xs Hx _ IH]; [constructor|]. apply Forall_cons in H as [Hxf H]. unfold cells. cbn [map concat]. apply NoDup_app. split_and!; [|intros p Hp Hq|by apply IH].
  - destruct (intersect_loop s (slice x)); [apply box_NoDup|constructor].
  - apply (cell_elem s x t) in Hp as (_ & Hp & _); [|done..]. apply (cells_elem s t) in Hq as (y & Hy & _ & Hq & _); [|done..].
    rewrite List.Forall_forall in Hx. by apply (Hx y ltac:(by apply list_elem_of_In) p).
Qed.
Lemma cells_box s t xs : fits s t -> Forall (fun x => fits (slice x) t) xs -> forall p, p ∈ cells s (sizes t) xs -> p ∈ box s (sizes t).
Proof. intros Hs H p Hp. apply (cells_elem s t) in Hp as (x & _ & H1 & _ & H2); [|done..]. apply box_elem; [apply Hs|apply Hs|done]. Qed.

Lemma overlap_loop_spec s t xs i0 acc : set_ok t -> fits s t -> Forall (fun x => fits (slice x) t) xs -> 0 <= acc ->
  acc + Z.of_nat (length (cells s (sizes t) xs)) <= kMaxElements ->
  overlap_loop (shape_ t) s xs i0 acc = Some (Some (acc + Z.of_nat (length (cells s (sizes t) xs)), List.filter (fun x => Overlaps s (slice x)) xs)).
Proof.
  intros H Hs Hx. revert i0 acc. induction Hx as [|x xs Hx Hxs IH]; intros i0 acc Ha Hb; [cbn; by rewrite Z.add_0_r|].
  assert (Hl : length s = length (slice x)) by (by rewrite (fits_length s t Hs), (fits_length _ t Hx)).
  cbn [overlap_loop List.filter]. unfold Overlaps at 1, Intersect at 1 2. rewrite Hl, Nat.eqb_refl. cbn [negb]. unfold cells in Hb |- *. cbn [map concat] in Hb |- *.
  fold (cells s (sizes t) xs) in Hb |- *. destruct (intersect_loop s (slice x)) as [r|] eqn:E; cbn [fst app] in Hb |- *.
  - rewrite length_app in Hb |- *. assert (Hr : fits r t).
    { pose proof (intersect_loop_spec s (slice x) ltac:(apply Hs) ltac:(apply Hx) Hl) as Hi. rewrite E in Hi. split; [apply Hi|].
      apply (intersect_in_bounds s (slice x)); [apply Hs|apply Hx|apply Hs|apply Hx|done]. }
    destruct (fits_shape r t new_TensorShape H Hr) as (sh & -> & En). cbn [ok OK state_]. rewrite En, s64_small by lia.
    rewrite IH by lia. do 3 f_equal. lia.
  - by apply IH.
Qed.
Lemma infos_elem t x : x ∈ infos t <-> exists k, slices_ t !! k = Some x.
Proof.
  unfold infos. rewrite list_elem_of_In, in_map_iff. split.
  - intros ([k y] & <- & Hin). exists k. by apply elem_of_map_to_list, list_elem_of_In.
  - intros [k E]. exists (k, x). split; [done|]. by apply list_elem_of_In, elem_of_map_to_list.
Qed.
Lemma infos_fit t : set_ok t -> Forall (fun x => fits (slice x) t) (infos t).
Proof. intros H. apply Forall_forall. intros x Hx. apply infos_elem in Hx as [k E]. by apply (so_slices t H) in E as [_ ?]. Qed.
Lemma infos_disjoint t : set_ok t -> ForallOrdPairs (fun x y => disjoint (slice x) (slice y)) (infos t).
Proof.
  intros H. unfold infos. assert (Hin : forall p, p ∈ map_to_list (slices_ t) -> slices_ t !! p.1 = Some p.2) by (intros [k x] Hp; by apply elem_of_map_to_list).
  revert Hin. pose proof (NoDup_fst_map_to_list (slices_ t)) as Hn. revert Hn. generalize (map_to_list (slices_ t)). intros l Hn Hin.
  induction l as [|[k x] l IH]; [constructor|]. cbn in Hn. apply NoDup_cons in Hn as [Hk Hn]. cbn [map]. constructor; [|apply IH; [done|intros p Hp; apply Hin; by right]].
  apply List.Forall_forall. intros y Hy. apply in_map_iff in Hy as ([k' y'] & <- & Hy). apply list_elem_of_In in Hy.
  apply (so_disjoint t H k k'); [by apply (Hin (k, x)); left|by apply (Hin (k', y')); right|]. intros <-. apply Hk. apply (list_elem_of_fmap_2 fst _ _ Hy).
Qed.
(** The counts agree exactly when the registered slices hold every point. *)
Lemma count_covers s t : set_ok t -> fits s t ->
  length (box s (sizes t)) = length (cells s (sizes t) (infos t)) <-> forall p, covers s p -> in_shape p (sizes t) -> held t p.
Proof.
  intros H Hs. pose proof (infos_fit t H) as Hf. pose proof (cells_NoDup s t (infos t) Hs Hf (infos_disjoint t H)) as Hn.
  assert (Hh : forall p, held t p <-> exists x, x ∈ infos t /\ covers (slice x) p).
  { intros p. unfold held. setoid_rewrite infos_elem. naive_solver. }
  pose proof (NoDup_submseteq _ (box s (sizes t)) Hn (cells_box s t (infos t) Hs Hf)) as Hsub. split.
  - intros El p Hp Hin. apply Hh. assert (Hb : p ∈ box s (sizes t)) by (apply box_elem; [apply Hs|apply Hs|done]).
    pose proof (submseteq_length_Permutation _ _ Hsub ltac:(lia)) as HP. rewrite <- HP in Hb. apply (cells_elem s t) in Hb as (x & Hx & _ & Hc & _); [|done..]. by exists x.
  - intros Hc. apply Nat.le_antisymm; [|by apply submseteq_length]. apply submseteq_length, NoDup_submseteq; [apply box_NoDup|].
    intros p Hp. apply box_elem in Hp as [Hp Hin]; [|apply Hs|apply Hs]. apply (cells_elem s t); [done|done|]. destruct (proj1 (Hh p) (Hc p Hp Hin)) as (x & Hx & Hq). by exists x.
Qed.
Lemma covered_spec s t : set_ok t -> fits s t ->
  exists c, covered s t = Some c /\ (is_Some c <-> forall p, covers s p -> in_shape p (sizes t) -> held t p) /\
    forall l, c = Some l -> l = List.filter (fun x => Overlaps s (slice x)) (infos t).
Proof.
  intros H Hs. unfold covered. destruct (fits_shape s t new_TensorShape H Hs) as (r & -> & En). cbn [ok OK state_].
  assert (Hle : Z.of_nat (length (cells s (sizes t) (infos t))) <= kMaxElements).
  { pose proof (box_bound s t H Hs). pose proof (submseteq_length _ _ (NoDup_submseteq _ (box s (sizes t)) (cells_NoDup s t (infos t) Hs (infos_fit t H) (infos_disjoint t H))
      (cells_box s t (infos t) Hs (infos_fit t H)))). lia. }
  rewrite overlap_loop_spec; [|done|done|by apply infos_fit|done|lia]. rewrite En, Z.add_0_l. pose proof (count_covers s t H Hs) as Hcount.
  destruct (Z.eqb_spec (Z.of_nat (length (box s (sizes t)))) (Z.of_nat (length (cells s (sizes t) (infos t))))) as [E|E].
  - eexists. split; [done|]. split; [|by intros l [= <-]]. rewrite <- Hcount. split; [intros _; lia|by eexists].
  - eexists. split; [done|]. split; [|done]. rewrite <- Hcount. split; [by intros [? ?]|lia].
Qed.

(** C17: A slice set answers for the points that it holds. In a set that
    satisfies the invariant (an empty set of a shape within the limit on
    elements does), [Register] of a slice that fits the shape returns OK
    exactly when the slice shares no point with a registered one; then the set
    holds its points as well, and otherwise it is unchanged; the invariant
    stays. [Query] and [QueryMeta], which add up the sizes of the
    intersections, are right: they return true exactly when every point of the
    slice in the shape is held, and the slices that [QueryMeta] lists hold
    them all. *)
Theorem slice_set_correct (t : SliceSet) (s : TensorSlice) tg d : set_ok t -> fits s t ->
  (exists st t', Register s tg d t = Some (st, t') /\ set_ok t' /\
     (ok st = true <-> forall k x, slices_ t !! k = Some x -> forall p, ~ (covers s p /\ covers (slice x) p)) /\
     (if ok st then forall p, held t' p <-> held t p \/ covers s p else t' = t)) /\
  (exists c, Query s t = Some c /\ (is_Some c <-> forall p, covers s p -> in_shape p (sizes t) -> held t p)) /\
  (exists b l, QueryMeta s t = Some (b, l) /\ (b = true <-> forall p, covers s p -> in_shape p (sizes t) -> held t p) /\
     (b = true -> forall p, covers s p -> in_shape p (sizes t) -> exists y, y ∈ l /\ covers y.1 p)) /\
  (forall shape type, shape_ok shape -> within (dim_sizes shape) -> set_ok (new_SliceSet shape type)).
Proof.
  intros H Hs. destruct (covered_spec s t H Hs) as (c & Ec & Hc & Hl).
  assert (Hexact : forall x, slices_ t !! DebugString s = Some x -> slice x = s).
  { intros x E. destruct (so_slices t H _ _ E) as [Ek Hx]. symmetry. apply DebugString_inj; [apply Hs|apply Hx|done]. }
  split_and!.
  - by apply Register_spec.
  - unfold Query. destruct (slices_ t !! DebugString s) as [x|] eqn:E.
    + exists (Some (CopyAll x)). split; [done|]. split; [|by eexists]. intros _ p Hp _. exists (DebugString s), x. by rewrite (Hexact x eq_refl).
    + rewrite Ec. destruct c as [l|].
      * exists (Some (CopyParts (infos t))). split; [done|]. rewrite <- Hc. by split; intros _; eexists.
      * exists None. split; [done|]. rewrite <- Hc. by split; intros [? ?].
  - unfold QueryMeta. destruct (slices_ t !! DebugString s) as [x|] eqn:E.
    + exists true, [(slice x, tag x)]. split; [done|]. rewrite (Hexact x eq_refl). split; [split; [|done]|].
      * intros _ p Hp _. exists (DebugString s), x. by rewrite (Hexact x eq_refl).
      * intros _ p Hp _. exists (s, tag x). split; [by left|done].
    + rewrite Ec. destruct c as [l|]; [exists true, (map (fun x => (slice x, tag x)) l)|exists false, []]; (split; [done|]); rewrite <- Hc;
        [|by split; [split; [|intros [? ?]]|]]. split; [by split; [exists l|]|].
      intros _ p Hp Hin. destruct (proj1 Hc (ex_intro _ l eq_refl) p Hp Hin) as (k & x & Ex & Hq). exists (slice x, tag x). split; [|done].
      apply list_elem_of_In, in_map_iff. exists x. split; [done|]. rewrite (Hl l eq_refl). apply filter_In. split; [by apply list_elem_of_In, infos_elem; exists k|].
      destruct (so_slices t H k x Ex) as [_ Hx]. apply Overlaps_spec; [apply Hs|apply Hx| |by exists p]. by rewrite (fits_length s t Hs), (fits_length _ t Hx).
  - intros shape type Hsh Hw. by split; cbn.
Qed.

Lemma new_set_ok shape type : shape_ok shape -> within (dim_sizes shape) -> set_ok (new_SliceSet shape type).
Proof. intros Hsh Hw. by split; cbn. Qed.
End SliceSet.

(** A set of the shape [3; 40000]: the rows 1 and 2. *)
Definition demo_slice : TensorSlice := [mkExtent 1 2; full].
Lemma demo_set_ok : @set_ok unit (new_SliceSet demo_shape 1).
Proof.
  apply new_set_ok; [exact demo_shape_ok|]. split; [discriminate|]. split; [repeat constructor; discriminate|].
  intros [|[|[|k]]]; vm_compute; discriminate.
Qed.
Lemma demo_fits : @fits unit demo_slice (new_SliceSet demo_shape 1).
Proof.
  split; [constructor; [right; cbn; lia|constructor; [by left|constructor]]|].
  constructor; [right; vm_compute; discriminate|constructor; [left; reflexivity|constructor]].
Qed.
Lemma slice_set_correct_witness : exists st t', Register demo_slice (bytes_of "file") tt (new_SliceSet demo_shape 1) = Some (st, t') /\ set_ok t'.
Proof.
  destruct (slice_set_correct (new_SliceSet demo_shape 1) demo_slice (bytes_of "file") tt demo_set_ok demo_fits) as [(st & t' & H1 & H2 & _) _].
  exists st, t'. exact (conj H1 H2).
Defined.
End TensorSliceSet.
