(* ===== verification/GraphConstructor.v ===== *)
(** * Graph construction

    [ConvertGraphDefToGraph] of [graph/graph_constructor.cc], with the names of
    tensors ([graph/tensor_id.cc]), the scanner that checks the names of nodes
    ([lib/strings/scanner.h]) and the versions ([framework/versions.cc]): the
    [GraphConstructor] without the option [importing]. *)
From S2P Require Import Prelude StringPiece Status Numbers DataTypes Graph.
From stdpp Require Import gmap.
Open Scope Z_scope.

Module Scanner.

Inductive CharClass :=
| ALL | DIGIT | LETTER | LETTER_DIGIT | LETTER_DIGIT_DASH_UNDERSCORE | LETTER_DIGIT_DASH_DOT_SLASH | LETTER_DIGIT_DASH_DOT_SLASH_UNDERSCORE | LETTER_DIGIT_DOT
| LETTER_DIGIT_DOT_PLUS_MINUS | LETTER_DIGIT_DOT_UNDERSCORE | LETTER_DIGIT_UNDERSCORE | LOWERLETTER | LOWERLETTER_DIGIT | LOWERLETTER_DIGIT_UNDERSCORE
| NON_ZERO_DIGIT | SPACE | UPPERLETTER.
Definition in_range (a b ch : Z) : bool := (a <=? ch) && (ch <=? b).
Definition IsLowerLetter (ch : Z) : bool := in_range 97 122 ch.
Definition IsLetter (ch : Z) : bool := in_range 97 122 ch || in_range 65 90 ch.
Definition IsDigit (ch : Z) : bool := in_range 48 57 ch.
Definition IsSpace (ch : Z) : bool := (ch =? 32) || (ch =? 9) || (ch =? 10) || (ch =? 11) || (ch =? 12) || (ch =? 13).
(** '-' is 45, '.' 46, '/' 47, '_' 95 and '+' 43. *)
Definition Matches (clz : CharClass) (ch : Z) : bool :=
  match clz with
  | ALL => true
  | DIGIT => IsDigit ch
  | LETTER => IsLetter ch
  | LETTER_DIGIT => IsLetter ch || IsDigit ch
  | LETTER_DIGIT_DASH_UNDERSCORE => IsLetter ch || IsDigit ch || (ch =? 45) || (ch =? 95)
  | LETTER_DIGIT_DASH_DOT_SLASH => IsLetter ch || IsDigit ch || (ch =? 45) || (ch =? 46) || (ch =? 47)
  | LETTER_DIGIT_DASH_DOT_SLASH_UNDERSCORE => IsLetter ch || IsDigit ch || (ch =? 45) || (ch =? 46) || (ch =? 47) || (ch =? 95)
  | LETTER_DIGIT_DOT => IsLetter ch || IsDigit ch || (ch =? 46)
  | LETTER_DIGIT_DOT_PLUS_MINUS => IsLetter ch || IsDigit ch || (ch =? 43) || (ch =? 45) || (ch =? 46)
  | LETTER_DIGIT_DOT_UNDERSCORE => IsLetter ch || IsDigit ch || (ch =? 46) || (ch =? 95)
  | LETTER_DIGIT_UNDERSCORE => IsLetter ch || IsDigit ch || (ch =? 95)
  | LOWERLETTER => IsLowerLetter ch
  | LOWERLETTER_DIGIT => IsLowerLetter ch || IsDigit ch
  | LOWERLETTER_DIGIT_UNDERSCORE => IsLowerLetter ch || IsDigit ch || (ch =? 95)
  | NON_ZERO_DIGIT => IsDigit ch && negb (ch =? 48)
  | SPACE => IsSpace ch
  | UPPERLETTER => in_range 65 90 ch
  end.

(** The text that is left, and whether a step failed. *)
Record Scanner := mkScanner { cur_ : list Z; error_ : bool }.
Definition new_Scanner (source : list Z) : Scanner := mkScanner source false.
Definition Error (s : Scanner) : Scanner := mkScanner (cur_ s) true.
Definition One (clz : CharClass) (s : Scanner) : Scanner :=
  match cur_ s with
  | ch :: rest => if Matches clz ch then mkScanner rest (error_ s) else Error s
  | [] => Error s
  end.
Fixpoint skip (clz : CharClass) (cur : list Z) : list Z :=
  match cur with ch :: rest => if Matches clz ch then skip clz rest else cur | [] => [] end.
Definition Any (clz : CharClass) (s : Scanner) : Scanner := mkScanner (skip clz (cur_ s)) (error_ s).
Definition Eos (s : Scanner) : Scanner := match cur_ s with [] => s | _ => Error s end.
Definition GetResult (s : Scanner) : bool := negb (error_ s).
End Scanner.

Module GraphConstructor.
Import Status Numbers Graph GraphAlgorithm.

(** ** Names *)

Definition IsValidNodeName (s : list Z) (allow_internal_ops : bool) : bool :=
  Scanner.GetResult (Scanner.Eos (Scanner.Any Scanner.LETTER_DIGIT_DASH_DOT_SLASH_UNDERSCORE
    (Scanner.One (if allow_internal_ops then Scanner.LETTER_DIGIT_DOT_UNDERSCORE else Scanner.LETTER_DIGIT_DOT) (Scanner.new_Scanner s)))).
(** The characters are read from the last one, [back]; the first of the name is
    never taken for a digit. *)
Fixpoint trailing_digits (back : list Z) (index mul : Z) : list Z * Z * Z :=
  match back with
  | c :: ((_ :: _) as rest) => if isdigit c then trailing_digits rest (s32 (index + s32 ((c - 48) * mul))) (s32 (mul * 10)) else (back, index, mul)
  | _ => (back, index, mul)
  end.
Definition ParseTensorName (name : list Z) : list Z * Z :=
  let '(back, index, mul) := trailing_digits (rev name) 0 1 in
  match back with
  | 58 :: ((_ :: _) as rest) => if 1 <? mul then (rev rest, index) else (name, 0)
  | _ => (name, 0)
  end.

(** ** Versions *)

Record VersionDef := mkVersions { producer : Z; min_consumer : Z; bad_consumers : list Z }.
Definition TF_GRAPH_DEF_VERSION_MIN_PRODUCER : Z := 0.
Definition TF_GRAPH_DEF_VERSION : Z := 17.
(** [upper_name] and [lower_name] are used for the messages, with the version of
    TensorFlow. *)
Definition CheckVersions (versions : VersionDef) (consumer min_producer : Z) (upper_name lower_name TF_VERSION_STRING : list Z) : Status :=
  let int := FastInt32ToBufferLeft in
  if consumer <? min_producer
  then Internal (upper_name ++ bytes_of " version check has consumer " ++ int consumer ++ bytes_of " < min_producer " ++ int min_producer ++ bytes_of ".")
  else if producer versions <? min_producer
  then InvalidArgument (upper_name ++ bytes_of " producer version " ++ int (producer versions) ++ bytes_of " below min producer " ++ int min_producer ++
         bytes_of " supported by TensorFlow " ++ TF_VERSION_STRING ++ bytes_of ".  Please regenerate your " ++ lower_name ++ bytes_of ".")
  else if consumer <? min_consumer versions
  then InvalidArgument (upper_name ++ bytes_of " min consumer version " ++ int (min_consumer versions) ++ bytes_of " above current version " ++ int consumer ++
         bytes_of " for TensorFlow " ++ TF_VERSION_STRING ++ bytes_of ".  Please upgrade TensorFlow.")
  else if existsb (Z.eqb consumer) (bad_consumers versions)
  then InvalidArgument (upper_name ++ bytes_of " disallows consumer version " ++ int consumer ++ bytes_of ".  Please upgrade TensorFlow: this version is likely buggy.")
  else OK.

(** ** Types *)

Definition BaseType (dtype : Z) : Z := if DataTypes.IsRefType dtype then dtype - DataTypes.kDataTypeRefOffset else dtype.
Definition TypesCompatible (expected actual : Z) : bool := (expected =? actual) || (expected =? BaseType actual).

Section Constructor.
Context {OpDef AttrValue : Type} {registry : OpRegistryInterface OpDef AttrValue}.
Context (addr : nat -> Z) (TF_VERSION_STRING : list Z).
(** The order of the iteration over the hash table of the names. *)
Context (hash_order : gmap (list Z) (Z * Z) -> list (list Z * (Z * Z))).
Abbreviation NodeDef := (NodeDef AttrValue).
Abbreviation Graph := (Graph OpDef AttrValue).

Record GraphDef := mkGraphDef { versions : VersionDef; node : list NodeDef }.
Record Options := mkOptions { allow_internal_ops : bool; expect_device_spec : bool }.
Record InputInfo := mkInputInfo { in_name : list Z; in_node : Z; in_index : Z }.
Record EdgeInfo := mkEdgeInfo { src_name : list Z; src_index : Z; dst_node : Z; dst_index : Z }.
(** The constructor and the graph [g_] that it changes, with its versions. A
    name is mapped to its [gdef_index] and its node. [ready_] is a stack: the
    list from its back. *)
Record Constructor := mkConstructor {
  g_ : Graph; g_versions : VersionDef;
  name_index_ : gmap (list Z) (Z * Z);
  ready_ : list Z;
  pending_count_ : list Z;
  outputs_ : list (list Z);
  back_edges_ : list EdgeInfo
}.
Abbreviation M := (ST Constructor).
Definition set_name_index m (c : Constructor) := mkConstructor (g_ c) (g_versions c) m (ready_ c) (pending_count_ c) (outputs_ c) (back_edges_ c).
Definition set_ready l (c : Constructor) := mkConstructor (g_ c) (g_versions c) (name_index_ c) l (pending_count_ c) (outputs_ c) (back_edges_ c).
Definition set_pending l (c : Constructor) := mkConstructor (g_ c) (g_versions c) (name_index_ c) (ready_ c) l (outputs_ c) (back_edges_ c).
Definition set_outputs l (c : Constructor) := mkConstructor (g_ c) (g_versions c) (name_index_ c) (ready_ c) (pending_count_ c) l (back_edges_ c).
Definition set_back_edges l (c : Constructor) := mkConstructor (g_ c) (g_versions c) (name_index_ c) (ready_ c) (pending_count_ c) (outputs_ c) l.
Definition set_versions v (c : Constructor) := mkConstructor (g_ c) v (name_index_ c) (ready_ c) (pending_count_ c) (outputs_ c) (back_edges_ c).
Definition set_graph g (c : Constructor) := mkConstructor g (g_versions c) (name_index_ c) (ready_ c) (pending_count_ c) (outputs_ c) (back_edges_ c).
(** A call on the graph. *)
Definition on_graph {A} (m : ST Graph A) : M A :=
  fun c => match m (g_ c) with
           | Done (a, g) => Done (a, set_graph g c)
           | Aborts => Aborts
           | Diverges => Diverges
           end.
(** [TF_RETURN_IF_ERROR(m); k] *)
Definition and_then (m k : M Status) : M Status := let! s := m in if ok s then k else st_ret s.

Definition IsMerge (d : NodeDef) : bool := bool_decide (def_op d = bytes_of "Merge") || bool_decide (def_op d = bytes_of "RefMerge").
Definition quoted (d : NodeDef) (rest : list Z) : Status := InvalidArgument (bytes_of "Node '" ++ def_name d ++ rest).

Context (opts_ : Options) (gdef_ : GraphDef).

(** ** The index of the names *)

Fixpoint index_loop (n : Z) (ds : list NodeDef) : M Status :=
  match ds with
  | [] => st_ret OK
  | d :: ds' =>
      if negb (IsValidNodeName (def_name d) (allow_internal_ops opts_)) then st_ret (quoted d (bytes_of "': Node name contains invalid characters"))
      else
        let! c := st_get in
        if bool_decide (is_Some (name_index_ c !! def_name d)) then st_ret (quoted d (bytes_of "' is not unique"))
        else
          st_modify (set_name_index (<[def_name d := (n, 0)]> (name_index_ c))) ;;;
          if bool_decide (def_op d = []) then st_ret (quoted d (bytes_of "' does not specify an operation"))
          else if expect_device_spec opts_ && bool_decide (def_device d = []) then st_ret (quoted d (bytes_of "' is missing a device specification"))
          else index_loop (n + 1) ds'
  end.
Definition BuildNodeIndex : M Status := index_loop 0 (node gdef_).

(** ** The counts *)

Definition is_control_name (s : list Z) : bool := StringPiece.starts_with s (bytes_of "^").
(** [input_name.Consume("^")], then [ParseTensorName]. *)
Definition input_id (s : list Z) : list Z * Z := ParseTensorName (StringPiece.Consume s (bytes_of "^")).2.
Definition initial_pending (d : NodeDef) : Z :=
  if IsMerge d then s32 (zlength (List.filter is_control_name (def_input d)) + 1) else s32 (zlength (def_input d)).
Fixpoint outputs_loop (n : Z) (d : NodeDef) (inputs : list (list Z)) : M Status :=
  match inputs with
  | [] => st_ret OK
  | s :: inputs' =>
      let! c := st_get in
      match name_index_ c !! (input_id s).1 with
      | None => st_ret (quoted d (bytes_of "': Unknown input node '" ++ s ++ bytes_of "'"))
      | Some (o, _) =>
          let! outs := st_opt (outputs_ c !!z o) in
          st_modify (set_outputs (zinsert (outputs_ c) o (outs ++ [n]))) ;;;
          outputs_loop n d inputs'
      end
  end.
Fixpoint init_loop (n : Z) (ds : list NodeDef) : M Status :=
  match ds with
  | [] => st_ret OK
  | d :: ds' =>
      let! c := st_get in
      st_modify (set_pending (pending_count_ c ++ [initial_pending d])) ;;;
      if bool_decide (def_input d = []) then st_modify (set_ready (n :: ready_ c)) ;;; init_loop (n + 1) ds'
      else and_then (outputs_loop n d (def_input d)) (init_loop (n + 1) ds')
  end.
Definition InitFromEdges : M Status :=
  st_modify (set_outputs (replicate (length (node gdef_)) [])) ;;; init_loop 0 (node gdef_).

(** ** The nodes *)

Definition MakeNode (d : NodeDef) : M (Status * Z) :=
  let! '(p, status) := on_graph (AddNode addr d OK) in
  if negb (ok status) then st_ret (status, p)
  else (if expect_device_spec opts_ then on_graph (set_assigned_device_name p (def_device d)) else st_ret tt) ;;; st_ret (OK, p).
Definition num_outputs (p : Z) : ST Graph Z := let! n := node_of p in let! v := props_of (props_ n) in st_ret (s32 (zlength (output_types_ v))).
Definition output_type (p i : Z) : ST Graph Z := let! n := node_of p in let! v := props_of (props_ n) in st_opt (output_types_ v !!z i).
Definition input_type (p i : Z) : ST Graph Z := let! n := node_of p in let! v := props_of (props_ n) in st_opt (input_types_ v !!z i).
Definition MakeEdge (src output_index dst input_index : Z) : ST Graph Status :=
  let! src_out := output_type src output_index in
  let! dst_in := input_type dst input_index in
  if negb (TypesCompatible dst_in src_out) then
    let! dst_name := name dst in
    let! src_text := st_opt (DataTypes.DataTypeString src_out) in
    let! src_name := name src in
    let! dst_text := st_opt (DataTypes.DataTypeString dst_in) in
    st_ret (InvalidArgument (bytes_of "Input " ++ FastInt32ToBufferLeft input_index ++ bytes_of " of node " ++ dst_name ++ bytes_of " was passed " ++ src_text ++
      bytes_of " from " ++ src_name ++ bytes_of ":" ++ FastInt32ToBufferLeft output_index ++ bytes_of " incompatible with expected " ++ dst_text ++ bytes_of "."))
  else AddEdge addr src output_index dst input_index ;;; st_ret OK.

(** The inputs of a node: what is known of their nodes, and whether a data input
    is not converted yet. *)
Fixpoint collect_inputs (d : NodeDef) (inputs : list (list Z)) (in_control_dependence : bool) (acc : list InputInfo) (has_data_back_edge : bool) :
    M (Status * (list InputInfo * bool)) :=
  match inputs with
  | [] => st_ret (OK, (acc, has_data_back_edge))
  | s :: inputs' =>
      if negb (is_control_name s) && in_control_dependence
      then st_ret (quoted d (bytes_of "': Control dependencies must come after regular dependencies"), (acc, has_data_back_edge))
      else
        let in_control_dependence := is_control_name s in
        let id := input_id s in
        let! c := st_get in
        let! '(_, src_node) := st_opt (name_index_ c !! id.1) in
        if in_control_dependence then collect_inputs d inputs' true (acc ++ [mkInputInfo id.1 src_node (-1)]) has_data_back_edge
        else if src_node =? 0 then collect_inputs d inputs' false (acc ++ [mkInputInfo id.1 src_node id.2]) true
        else
          let! k := on_graph (num_outputs src_node) in
          if k <=? id.2
          then st_ret (quoted d (bytes_of "': Connecting to invalid output " ++ FastInt32ToBufferLeft id.2 ++ bytes_of " of source node " ++ id.1 ++
                 bytes_of " which has " ++ FastInt32ToBufferLeft k ++ bytes_of " outputs"), (acc, has_data_back_edge))
          else collect_inputs d inputs' false (acc ++ [mkInputInfo id.1 src_node id.2]) has_data_back_edge
  end.
Fixpoint add_edges (p : Z) (i : Z) (inputs : list InputInfo) : M Status :=
  match inputs with
  | [] => st_ret OK
  | x :: inputs' =>
      if in_node x =? 0 then
        let! c := st_get in
        st_modify (set_back_edges (back_edges_ c ++ [mkEdgeInfo (in_name x) (in_index x) p i])) ;;;
        add_edges p (i + 1) inputs'
      else if in_index x =? -1 then on_graph (AddControlEdge addr (in_node x) p) ;;; add_edges p (i + 1) inputs'
      else and_then (on_graph (MakeEdge (in_node x) (in_index x) p i)) (add_edges p (i + 1) inputs')
  end.
Fixpoint count_down (outs : list Z) : M unit :=
  match outs with
  | [] => st_ret tt
  | output :: outs' =>
      let! c := st_get in
      let! k := st_opt (pending_count_ c !!z output) in
      st_modify (set_pending (zinsert (pending_count_ c) output (s32 (k - 1)))) ;;;
      (if s32 (k - 1) =? 0 then st_modify (set_ready (output :: ready_ c)) else st_ret tt) ;;;
      count_down outs'
  end.
(** One definition. *)
Definition convert_node (o : Z) : M Status :=
  let! d := st_opt (node gdef_ !!z o) in
  let! '(s, (inputs, has_data_back_edge)) := collect_inputs d (def_input d) false [] false in
  if negb (ok s) then st_ret s
  else if has_data_back_edge && negb (IsMerge d)
  then st_ret (quoted d (bytes_of "' had a back edge, but only Merge nodes can have back edges."))
  else
    let! '(s, p) := MakeNode d in
    if negb (ok s) then st_ret s
    else
      let! c := st_get in
      st_modify (set_name_index (<[def_name d := ((default (-1, 0) (name_index_ c !! def_name d)).1, p)]> (name_index_ c))) ;;;
      and_then (add_edges p 0 inputs)
        (let! c := st_get in
         let! outs := st_opt (outputs_ c !!z o) in
         count_down outs ;;;
         st_ret OK).
(** Each definition is ready once: [fuel] is the number of definitions and
    one. *)
Fixpoint convert_loop (fuel : nat) (processed : Z) : M (Status * Z) :=
  match fuel with
  | O => st_diverge
  | S fuel' =>
      let! c := st_get in
      match ready_ c with
      | [] => st_ret (OK, processed)
      | o :: ready' =>
          st_modify (set_ready ready') ;;;
          let! s := convert_node o in
          if ok s then convert_loop fuel' (s32 (processed + 1)) else st_ret (s, s32 (processed + 1))
      end
  end.
Definition Convert : M Status :=
  let! '(s, processed) := convert_loop (S (length (node gdef_))) 0 in
  if negb (ok s) then st_ret s
  else
    let size := s32 (zlength (node gdef_)) in
    if processed <? size then st_ret (InvalidArgument (FastInt32ToBufferLeft (s32 (size - processed)) ++ bytes_of " nodes in a cycle")) else st_ret OK.

(** ** The back edges, and the end *)

Fixpoint back_loop (es : list EdgeInfo) : M Status :=
  match es with
  | [] => st_ret OK
  | e :: es' =>
      let! c := st_get in
      let! '(_, src_node) := st_opt (name_index_ c !! src_name e) in
      if src_index e =? -1 then on_graph (AddControlEdge addr src_node (dst_node e)) ;;; back_loop es'
      else and_then (on_graph (MakeEdge src_node (src_index e) (dst_node e) (dst_index e))) (back_loop es')
  end.
Definition AddBackEdges : M Status := let! c := st_get in back_loop (back_edges_ c).
Definition UpdateVersionDef : M Status := st_modify (set_versions (versions gdef_)) ;;; st_ret OK.
Definition TryImport : M Status :=
  and_then BuildNodeIndex (and_then InitFromEdges (and_then Convert (and_then AddBackEdges (and_then UpdateVersionDef
    (on_graph (FixupSourceAndSinkEdges addr) ;;; st_ret OK))))).
Fixpoint undo_loop (names : list (list Z * (Z * Z))) : M unit :=
  match names with
  | [] => st_ret tt
  | (_, (_, p)) :: names' => (if negb (p =? 0) then on_graph (RemoveNode p) else st_ret tt) ;;; undo_loop names'
  end.
Definition Undo (original_versions : VersionDef) : M unit :=
  let! c := st_get in undo_loop (hash_order (name_index_ c)) ;;; st_modify (set_versions original_versions).
(** [ConvertGraphDefToGraph], on a graph with its versions. *)
Definition Construct (g : Graph) (v : VersionDef) : outcome (Status * (Graph * VersionDef)) :=
  let s := CheckVersions (versions gdef_) TF_GRAPH_DEF_VERSION TF_GRAPH_DEF_VERSION_MIN_PRODUCER (bytes_of "GraphDef") (bytes_of "graph") TF_VERSION_STRING in
  if negb (ok s) then Done (s, (g, v))
  else
    match (let! s := TryImport in (if negb (ok s) then Undo v else st_ret tt) ;;; st_ret s) (mkConstructor g v ∅ [] [] [] []) with
    | Done (s, c) => Done (s, (g_ c, g_versions c))
    | Aborts => Aborts
    | Diverges => Diverges
    end.
End Constructor.
End GraphConstructor.
