(* ===== verification/GraphConstructorSpec.v ===== *)
(** * Graph construction: the specification, the index and the counts

    Which definitions [ConvertGraphDefToGraph] accepts, and the graph that it
    builds from them.

    The total correctness of the parts of [ConvertGraphDefToGraph]. *)
From S2P Require Import Prelude StringPiece Status Numbers DataTypes EdgeSet Graph GraphFacts GraphOps GraphConstructor.
From stdpp Require Import gmap.
Open Scope Z_scope.

Module GraphConstructorSpec.
Import Status Graph GraphSpec GraphOps GraphConstructor.

(** ** The first index of an element *)

Section Index.
Context {A : Type} (P : A -> Prop) `{forall x, Decision (P x)}.
Definition index (l : list A) : option Z := (fun kx => Z.of_nat kx.1) <$> list_find P l.

Lemma index_Some l k : index l = Some k -> exists x, l !!z k = Some x /\ P x.
Proof.
  unfold index. intros ([i x] & (Hi & HP & _)%list_find_Some & ->)%fmap_Some. exists x. cbn [fst]. unfold zlookup. destruct (Z.ltb_spec (Z.of_nat i) 0); [lia|]. by rewrite Nat2Z.id.
Qed.
Lemma index_None l : index l = None <-> forall x, x ∈ l -> ~ P x.
Proof. unfold index. rewrite fmap_None, list_find_None, Forall_forall. done. Qed.
Lemma index_app l l' k : index l = Some k -> index (l ++ l') = Some k.
Proof. unfold index. intros ([i x] & Hi & ->)%fmap_Some. by rewrite (list_find_app_l P l l' i x Hi). Qed.
Lemma index_app_None l l' : index l = None -> index (l ++ l') = (fun k => zlength l + k) <$> index l'.
Proof.
  unfold index. intros Hl%fmap_None. rewrite list_find_app_r by done. destruct (list_find P l') as [[i x]|]; [|done]. cbn. f_equal. unfold zlength. lia.
Qed.
Lemma index_one x : index [x] = if decide (P x) then Some 0 else None.
Proof. unfold index. cbn. by destruct (decide (P x)). Qed.
Lemma index_elem l x : x ∈ l -> P x -> is_Some (index l).
Proof. intros Hx HP. destruct (index l) eqn:E; [by eexists|]. by destruct (proj1 (index_None l) E x). Qed.
Lemma index_range l k : index l = Some k -> 0 <= k < zlength l.
Proof. intros (x & Hx & _)%index_Some. by eapply zlookup_range. Qed.
End Index.

(** ** Nodes and edges added to a graph *)

Section Spec.
Context {OpDef AttrValue : Type} {registry : OpRegistryInterface OpDef AttrValue}.
Abbreviation NodeDef := (NodeDef AttrValue).
Abbreviation AGraph := (AGraph OpDef AttrValue).
Abbreviation ANode := (ANode OpDef AttrValue).
Implicit Types (a : AGraph) (vs : list ANode) (es : list AEdge).

Definition grow vs es a : AGraph := fold_left (fun a e => add_edge e a) es (fold_left (fun a v => add_node v a) vs a).
Lemma grow_edge vs es e a : grow vs (es ++ [e]) a = add_edge e (grow vs es a).
Proof. unfold grow. by rewrite fold_left_app. Qed.
Lemma add_edges_node es v a : fold_left (fun a e => add_edge e a) es (add_node v a) = add_node v (fold_left (fun a e => add_edge e a) es a).
Proof. revert a. induction es as [|e es IH]; intros a; [done|]. cbn [fold_left]. rewrite <- IH. done. Qed.
Lemma grow_node vs es v a : grow (vs ++ [v]) es a = add_node v (grow vs es a).
Proof. unfold grow. rewrite fold_left_app. cbn [fold_left]. apply add_edges_node. Qed.
Lemma grow_app vs es vs' es' a : grow vs' es' (grow vs es a) = grow (vs ++ vs') (es ++ es') a.
Proof.
  unfold grow. rewrite !fold_left_app. f_equal. induction vs' as [|v vs' IH] using rev_ind; [done|]. rewrite !fold_left_app. cbn [fold_left]. by rewrite IH, add_edges_node.
Qed.
Lemma grow_next vs es a : a_next_node (grow vs es a) = a_next_node a + zlength vs /\ a_next_edge (grow vs es a) = a_next_edge a + zlength es /\ a_names (grow vs es a) = a_names a.
Proof.
  assert (H1 : a_next_node (grow vs [] a) = a_next_node a + zlength vs /\ a_next_edge (grow vs [] a) = a_next_edge a /\ a_names (grow vs [] a) = a_names a).
  { induction vs as [|v vs (IH1 & IH2 & IH3)] using rev_ind; [unfold zlength; cbn; lia|]. rewrite grow_node. cbn [add_node a_next_node a_next_edge a_names]. rewrite IH1, zlength_app. unfold zlength. cbn [length]. split; [lia|done]. }
  induction es as [|e es (IH1 & IH2 & IH3)] using rev_ind; [unfold zlength in *; cbn [length]; lia|]. rewrite grow_edge. cbn [add_edge a_next_node a_next_edge a_names]. rewrite IH2, zlength_app. unfold zlength in *. cbn [length]. split; [done|split; [lia|done]].
Qed.
Lemma grow_nodes vs es a i : a_nodes (grow vs es a) !! i = if decide (a_next_node a <= i < a_next_node a + zlength vs) then vs !!z (i - a_next_node a) else a_nodes a !! i.
Proof.
  assert (H1 : a_nodes (grow vs es a) = a_nodes (grow vs [] a)) by (induction es as [|e es IH] using rev_ind; [done|]; by rewrite grow_edge).
  rewrite H1. clear H1. induction vs as [|v vs IH] using rev_ind; [rewrite decide_False by (unfold zlength; cbn; lia); done|].
  rewrite grow_node. cbn [add_node a_nodes]. destruct (grow_next vs [] a) as [Hn _]. rewrite Hn, zlookup_app_one, zlength_app. change (zlength [v]) with 1. rewrite lookup_insert, IH. unfold zlength in *.
  repeat case_decide; try lia; done.
Qed.
Lemma grow_edges vs es a j : a_edges (grow vs es a) !! j = if decide (a_next_edge a <= j < a_next_edge a + zlength es) then es !!z (j - a_next_edge a) else a_edges a !! j.
Proof.
  induction es as [|e es IH] using rev_ind.
  { rewrite decide_False by (unfold zlength; cbn; lia). induction vs as [|v vs IH] using rev_ind; [done|]. rewrite grow_node. apply IH. }
  rewrite grow_edge. cbn [add_edge a_edges]. destruct (grow_next vs es a) as (_ & Hn & _). rewrite Hn, zlookup_app_one, zlength_app. change (zlength [e]) with 1. rewrite lookup_insert, IH. unfold zlength in *.
  repeat case_decide; try lia; done.
Qed.

(** ** The definitions *)

Context (opts : Options) (ds : list NodeDef).

Definition index_in (l : list NodeDef) (nm : list Z) : option Z := index (fun d => def_name d = nm) l.
(** The definition that an input names. *)
Definition source (s : list Z) : option Z := index_in ds (input_id s).1.
Definition inputs (o : Z) : list (list Z) := from_option def_input [] (ds !!z o).
Definition need (o : Z) : Z := from_option initial_pending 0 (ds !!z o).
(** The inputs that come from some definitions. *)
Definition comes_from (from : list Z) (s : list Z) : bool := match source s with Some o => bool_decide (o ∈ from) | None => false end.
Definition got (from : list Z) (o : Z) : Z := zlength (List.filter (comes_from from) (inputs o)).
(** The edge of an input, between indices of definitions. *)
Definition slot (s : list Z) : Z := if is_control_name s then kControlSlot else (input_id s).2.
Definition edge_for (o k : Z) (s : list Z) : AEdge := mkAEdge (default (-1) (source s)) (slot s) o (if slot s =? kControlSlot then kControlSlot else k).
Fixpoint edges_from (o k : Z) (ss : list (list Z)) : list AEdge := match ss with [] => [] | s :: ss' => edge_for o k s :: edges_from o (k + 1) ss' end.
Definition edges_for (o : Z) : list AEdge := edges_from o 0 (inputs o).
Definition all_edges : list AEdge := flat_map edges_for (seqZ 0 (zlength ds)).
Fixpoint controls_last (l : list (list Z)) : bool :=
  match l with [] => true | s :: l' => if is_control_name s then forallb is_control_name l' else controls_last l' end.

Definition props (o : Z) (v : Properties OpDef AttrValue) : Prop := exists d, ds !!z o = Some d /\ (made d OK).1 = Some v.
Definition edge_ok (e : AEdge) : Prop :=
  e_out e = kControlSlot \/ exists v w so si, props (e_src e) v /\ props (e_dst e) w /\ output_types_ v !!z e_out e = Some so /\ input_types_ w !!z e_in e = Some si /\ TypesCompatible si so = true.
Definition name_ok (d : NodeDef) : bool :=
  IsValidNodeName (def_name d) (allow_internal_ops opts) && negb (bool_decide (def_op d = [])) && negb (expect_device_spec opts && bool_decide (def_device d = [])).

(** What is accepted: the names are valid and unique, every input is of one of
    the definitions, control inputs come last, every op is known and each data
    input has the type of the output that it names. There are no cycles but
    through merges: in some order, all the inputs of a definition come earlier,
    and of a merge one more than it has control inputs. *)
Record valid : Prop := mkValid {
  v_names : forallb name_ok ds = true;
  v_unique : NoDup (map def_name ds);
  v_inputs : forall o s, s ∈ inputs o -> is_Some (source s);
  v_controls : forall o, controls_last (inputs o) = true;
  v_ops : forall o, 0 <= o < zlength ds -> exists v, props o v;
  v_edges : forall o e, e ∈ edges_for o -> edge_ok e;
  v_order : exists order, forall o, 0 <= o < zlength ds -> inputs o <> [] ->
    exists before, (forall o', o' ∈ before -> (order o' < order o)%nat) /\ need o <= got before o
}.
(** What the caller must see to: only merges are asked for outputs before they
    are made, and numbers in names do not overflow. *)
Record wired : Prop := mkWired {
  w_slot : forall o s, s ∈ inputs o -> kControlSlot <= slot s;
  w_input : forall o e v, e ∈ edges_for o -> e_out e <> kControlSlot -> props o v -> e_in e < zlength (input_types_ v);
  w_merge : forall o d e v, ds !!z o = Some d -> IsMerge d = true -> e ∈ edges_for o -> props (e_src e) v -> e_out e < zlength (output_types_ v);
  w_types : forall o v t, props o v -> t ∈ input_types_ v ++ output_types_ v -> is_Some (DataTypes.DataTypeString t);
  w_outputs : forall o v, props o v -> zlength (output_types_ v) < 2 ^ 31
}.

(** Ids are [int]s. *)
Definition fits a : Prop := a_next_edge a + zlength all_edges + 2 * (a_next_node a + zlength ds) < 2 ^ 31 - 1.

(** ** The graph that is built *)

Definition pos (order : list Z) (o : Z) : option Z := index (eq o) order.
(** The id of the node of a definition, with the first free id [first]. *)
Definition id_of (first : Z) (order : list Z) (o : Z) : Z := first + default (-1) (pos order o).
Definition place (first : Z) (order : list Z) (e : AEdge) : AEdge := mkAEdge (id_of first order (e_src e)) (e_out e) (id_of first order (e_dst e)) (e_in e).
Definition made_node (o i : Z) (v : ANode) : Prop :=
  exists d w, ds !!z o = Some d /\ (made d OK).1 = Some w /\ v = mkANode w i (if expect_device_spec opts then def_device d else []).
Definition made_nodes (first : Z) (order : list Z) vs : Prop :=
  length vs = length order /\ forall k o, order !!z k = Some o -> exists v, vs !!z k = Some v /\ made_node o (first + k) v.
(** [a'] is [a] with a node for each definition, in some order, and an edge for
    each input. *)
Definition imported a a' : Prop :=
  exists order vs es, order ≡ₚ seqZ 0 (zlength ds) /\ made_nodes (a_next_node a) order vs /\
    es ≡ₚ map (place (a_next_node a) order) all_edges /\ a' = grow vs es a.
End Spec.
(** The versions that this version of the program reads. *)
Definition compatible (v : VersionDef) : Prop := TF_GRAPH_DEF_VERSION_MIN_PRODUCER <= producer v /\ min_consumer v <= TF_GRAPH_DEF_VERSION /\ TF_GRAPH_DEF_VERSION ∉ bad_consumers v.
End GraphConstructorSpec.

Open Scope Z_scope.

Module GraphConstructorFacts.
Import Status Graph GraphSpec GraphFacts GraphOps GraphConstructor GraphConstructorSpec.

(** ** Counting *)

#[export] Instance zlength_Permutation {A} : Proper (Permutation ==> eq) (@zlength A).
Proof. intros l l' Hl. unfold zlength. by rewrite Hl. Qed.
Definition count (n : Z) (l : list Z) : Z := zlength (List.filter (Z.eqb n) l).
Lemma count_nonneg n l : 0 <= count n l.
Proof. unfold count, zlength. lia. Qed.
Lemma count_app n l l' : count n (l ++ l') = count n l + count n l'.
Proof. unfold count. by rewrite List.filter_app, zlength_app. Qed.
Lemma count_cons n m l : count n (m :: l) = (if m =? n then 1 else 0) + count n l.
Proof. unfold count, zlength. cbn [List.filter]. rewrite (Z.eqb_sym n m). destruct (m =? n); cbn [length]; lia. Qed.
Lemma filter_count_split {A} (f g h : A -> bool) l : (forall x, h x = f x || g x) -> (forall x, f x && g x = false) ->
  zlength (List.filter h l) = zlength (List.filter f l) + zlength (List.filter g l).
Proof.
  intros Hh Hfg. unfold zlength. induction l as [|x l IH]; [done|]. cbn [List.filter]. specialize (Hh x). specialize (Hfg x). rewrite Hh. destruct (f x), (g x); cbn in *; try done; lia.
Qed.
Lemma filter_count_mono {A} (f h : A -> bool) l : (forall x, f x = true -> h x = true) -> zlength (List.filter f l) <= zlength (List.filter h l).
Proof. intros Hf. unfold zlength. induction l as [|x l IH]; [done|]. cbn [List.filter]. specialize (Hf x). destruct (f x), (h x); cbn [length]; lia || by specialize (Hf eq_refl). Qed.
Lemma filter_count_le {A} (f : A -> bool) l : zlength (List.filter f l) <= zlength l.
Proof. unfold zlength. pose proof (filter_length_le f l). lia. Qed.

(** ** Positions *)

Lemma pos_elem order o : o ∈ order <-> is_Some (pos order o).
Proof.
  split; [intros Ho; by apply (index_elem _ _ o)|]. intros [k (x & Hx & <-)%index_Some]. unfold zlookup in Hx. destruct (k <? 0); [done|]. by eapply list_elem_of_lookup_2.
Qed.
Lemma pos_lookup order o k : pos order o = Some k -> order !!z k = Some o.
Proof. by intros (x & Hx & <-)%index_Some. Qed.
Lemma pos_app order order' o : o ∈ order -> pos (order ++ order') o = pos order o.
Proof. intros [k Hk]%pos_elem. rewrite Hk. by apply index_app. Qed.
Lemma pos_snoc order o : o ∉ order -> pos (order ++ [o]) o = Some (zlength order).
Proof.
  intros Ho. unfold pos. rewrite index_app_None by (apply index_None; intros x Hx ->; done). rewrite index_one, decide_True by done. cbn. f_equal. lia.
Qed.
Lemma pos_snoc_other order o o' : o' <> o -> pos (order ++ [o]) o' = pos order o'.
Proof.
  intros Ho. destruct (pos order o') as [k|] eqn:E; [by apply index_app|]. unfold pos in *. rewrite index_app_None by done. by rewrite index_one, decide_False.
Qed.
Lemma pos_inj order o o' k : pos order o = Some k -> pos order o' = Some k -> o = o'.
Proof. intros H%pos_lookup H'%pos_lookup. congruence. Qed.
Lemma pos_unique order o k : NoDup order -> order !!z k = Some o -> pos order o = Some k.
Proof.
  intros Hnd Hk. assert (Ho : o ∈ order) by (unfold zlookup in Hk; destruct (k <? 0); [done|by eapply list_elem_of_lookup_2]).
  destruct (proj1 (pos_elem order o) Ho) as [k' Hk']. rewrite Hk'. pose proof (zlookup_range _ _ _ Hk) as Hr. pose proof (pos_lookup _ _ _ Hk') as Hl. pose proof (zlookup_range _ _ _ Hl) as Hr'.
  unfold zlookup in Hk, Hl. destruct (Z.ltb_spec k 0); [lia|]. destruct (Z.ltb_spec k' 0); [lia|]. pose proof (proj1 (NoDup_alt _) Hnd _ _ _ Hk Hl). f_equal. lia.
Qed.
Lemma id_of_app first order order' o : o ∈ order -> id_of first (order ++ order') o = id_of first order o.
Proof. intros Ho. unfold id_of. by rewrite pos_app. Qed.

Section Facts.
Context {OpDef AttrValue : Type} {registry : OpRegistryInterface OpDef AttrValue} {laws : OpRegistryLaws OpDef AttrValue registry}.
Context (addr : nat -> Z) {Haddr : addresses addr}.
Context (opts : Options) (gdef : GraphDef (AttrValue := AttrValue)).
Abbreviation NodeDef := (NodeDef AttrValue).
Abbreviation Graph := (Graph OpDef AttrValue).
Abbreviation AGraph := (AGraph OpDef AttrValue).
Abbreviation ANode := (ANode OpDef AttrValue).
Abbreviation Constructor := (Constructor (OpDef := OpDef) (AttrValue := AttrValue)).
Abbreviation rep := (rep addr).
Abbreviation ds := (node gdef).
Abbreviation source := (source ds).
Abbreviation inputs := (inputs ds).
Abbreviation need := (need ds).
Abbreviation got := (got ds).
Abbreviation valid := (valid opts ds).
Implicit Types (c : Constructor) (a : AGraph) (s : list Z).

(** ** The monad *)

Lemma wp_on_graph {A} (m : ST Graph A) c (Q : A -> Constructor -> Prop) : wp m (g_ c) (fun x g => Q x (set_graph g c)) -> wp (on_graph m) c Q.
Proof. unfold wp, on_graph. by destruct (m (g_ c)) as [[x g]| |]. Qed.
Lemma wp_and_then (m k : ST Constructor Status) c Q : wp m c (fun st c' => if ok st then wp k c' Q else Q st c') -> wp (and_then m k) c Q.
Proof. intros H. unfold and_then. wp_step. eapply wp_mono; [exact H|]. intros st c'. cbv beta. destruct (ok st); [done|]. intros HQ. by apply wp_ret. Qed.

(** ** The index *)

Definition indexed (l : list NodeDef) (m : gmap (list Z) (Z * Z)) : Prop := forall nm, m !! nm = (fun o => (o, 0)) <$> index_in l nm.
Lemma index_in_Some (l : list NodeDef) nm o : index_in l nm = Some o -> exists d, l !!z o = Some d /\ def_name d = nm.
Proof. apply index_Some. Qed.
Lemma index_in_snoc l (d : NodeDef) nm : def_name d ∉ map def_name l -> index_in (l ++ [d]) nm = if decide (def_name d = nm) then Some (zlength l) else index_in l nm.
Proof.
  intros Hd. destruct (index_in l nm) as [o|] eqn:E.
  - destruct (index_in_Some _ _ _ E) as (d' & Hd' & <-). rewrite decide_False; [by apply index_app|]. intros Heq. apply Hd. rewrite Heq. apply list_elem_of_fmap. exists d'. split; [done|].
    unfold zlookup in Hd'. destruct (o <? 0); [done|by eapply list_elem_of_lookup_2].
  - unfold index_in in *. rewrite index_app_None by done. rewrite index_one. case_decide; [|done]. cbn. f_equal. lia.
Qed.
Lemma index_in_None (l : list NodeDef) nm : index_in l nm = None <-> nm ∉ map def_name l.
Proof.
  unfold index_in. rewrite index_None. split.
  - intros H (d & -> & Hd)%list_elem_of_fmap. by apply (H d).
  - intros H d Hd <-. apply H, list_elem_of_fmap. by exists d.
Qed.
Lemma index_in_app (l l' : list NodeDef) nm o : index_in l nm = Some o -> index_in (l ++ l') nm = Some o.
Proof. apply index_app. Qed.
Lemma forallb_middle {A} (f : A -> bool) l x l' : forallb f (l ++ x :: l') = true -> f x = true.
Proof. rewrite forallb_app. cbn. intros [_ [? _]%andb_prop]%andb_prop. done. Qed.
Lemma same_index c (Q : Constructor -> Prop) : Q (set_name_index (name_index_ c) c) -> Q c.
Proof. by destruct c. Qed.
Lemma wp_index_loop l ds' c (Q : Status -> Constructor -> Prop) : ds = l ++ ds' -> indexed l (name_index_ c) -> NoDup (map def_name l) -> forallb (name_ok opts) l = true ->
  (forall m, indexed ds m -> NoDup (map def_name ds) -> forallb (name_ok opts) ds = true -> Q OK (set_name_index m c)) ->
  (forall st l' m, ok st = false -> indexed l' m -> ~ valid -> Q st (set_name_index m c)) -> wp (index_loop opts (zlength l) ds') c Q.
Proof.
  intros Hds. revert l Hds c Q. induction ds' as [|d ds' IH]; intros l Hds c Q Hm Hnd Hok HQ Herr; cbn [index_loop].
  { rewrite app_nil_r in Hds. apply wp_ret, same_index. rewrite <- Hds in *. by apply HQ. }
  assert (Hbad : name_ok opts d = false -> ~ valid) by (intros Hd Hv; pose proof (v_names _ _ Hv) as Hn; rewrite Hds in Hn; apply forallb_middle in Hn; congruence).
  unfold name_ok in Hbad. destruct (IsValidNodeName (def_name d) (allow_internal_ops opts)) eqn:E1; cbn [negb andb] in *.
  2:{ apply wp_ret, same_index. apply (Herr _ l); auto. }
  wp_step. wp_step. rewrite Hm. destruct (decide (is_Some ((fun o => (o, 0)) <$> index_in l (def_name d)))) as [Hdup|Hdup]; [rewrite bool_decide_eq_true_2 by done|rewrite bool_decide_eq_false_2 by done].
  { apply wp_ret, same_index. apply (Herr _ l); [done|done|]. intros Hv. pose proof (v_unique _ _ Hv) as Hu. rewrite Hds, map_app in Hu. apply NoDup_app in Hu as (_ & Hu & _).
    destruct (index_in l (def_name d)) as [o|] eqn:Ei; [|by destruct Hdup]. apply (Hu (def_name d)); [|by left]. destruct (decide (def_name d ∈ map def_name l)) as [?|Hn]; [done|]. apply index_in_None in Hn. congruence. }
  assert (Hnone : index_in l (def_name d) = None) by (apply eq_None_not_Some; intros [o Ho]; apply Hdup; rewrite Ho; by eexists).
  apply index_in_None in Hnone. set (m := <[def_name d := (zlength l, 0)]> (name_index_ c)).
  assert (Hm' : indexed (l ++ [d]) m).
  { intros nm. unfold m. rewrite index_in_snoc by done. destruct (decide (def_name d = nm)) as [<-|Hne]; [by rewrite lookup_insert_eq|]. by rewrite lookup_insert_ne. }
  wp_step. wp_step. case_bool_decide as E2; cbn [negb andb] in *; [apply wp_ret; apply (Herr _ (l ++ [d])); auto|].
  destruct (expect_device_spec opts && bool_decide (def_device d = [])) eqn:E3; cbn [negb] in *; [apply wp_ret; apply (Herr _ (l ++ [d])); auto|].
  replace (zlength l + 1) with (zlength (l ++ [d])) by by rewrite zlength_app. apply IH.
  - by rewrite Hds, <- app_assoc.
  - done.
  - rewrite map_app. apply NoDup_app. split; [done|]. split; [|apply NoDup_singleton]. intros nm Hnm ->%list_elem_of_singleton. done.
  - rewrite forallb_app, Hok. cbn. unfold name_ok. rewrite E1, E3. by rewrite bool_decide_eq_false_2.
  - intros m' H1 H2 H3. by apply HQ.
  - intros st l' m' H1 H2 H3. by apply (Herr _ l').
Qed.
(** ** The counts *)

Definition from (o : Z) s : bool := match source s with Some o' => o' =? o | None => false end.
Definition mult (o n : Z) : Z := zlength (List.filter (from o) (inputs n)).
Definition cnt (outs : list (list Z)) (o n : Z) : Z := from_option (count n) 0 (outs !!z o).
Lemma source_range s o : source s = Some o -> 0 <= o < zlength ds.
Proof. apply index_range. Qed.
Lemma cnt_add outs o l n o' m : outs !!z o = Some l -> cnt (zinsert outs o (l ++ [n])) o' m = cnt outs o' m + if (o' =? o) && (m =? n) then 1 else 0.
Proof.
  intros Hl. unfold cnt. rewrite (zlookup_zinsert _ _ _ _ _ Hl). destruct (Z.eqb_spec o' o) as [->|Hne]; [rewrite decide_True by done|rewrite decide_False by congruence; cbn; lia].
  rewrite Hl. cbn. rewrite count_app, count_cons, Z.eqb_sym. change (count m []) with 0. destruct (m =? n); lia.
Qed.
Lemma wp_outputs_loop n d ss c (Q : Status -> Constructor -> Prop) : indexed ds (name_index_ c) -> zlength (outputs_ c) = zlength ds ->
  (forall outs, zlength outs = zlength ds -> (forall o m, cnt outs o m = cnt (outputs_ c) o m + if m =? n then zlength (List.filter (from o) ss) else 0) ->
     (forall s, s ∈ ss -> is_Some (source s)) -> Q OK (set_outputs outs c)) ->
  (forall st outs s, ok st = false -> s ∈ ss -> source s = None -> Q st (set_outputs outs c)) -> wp (outputs_loop n d ss) c Q.
Proof.
  revert c Q. induction ss as [|s ss IH]; intros c Q Hm Hlen HQ Herr; cbn [outputs_loop].
  { apply wp_ret. assert (HQ' : Q OK (set_outputs (outputs_ c) c)) by (apply HQ; [done|intros o m; cbn; destruct (m =? n); change (zlength []) with 0; lia|by intros s ?%elem_of_nil]). by destruct c. }
  wp_step. wp_step. rewrite Hm. fold (source s). destruct (source s) as [o|] eqn:Es; cbn [fmap option_fmap option_map].
  2:{ apply wp_ret. assert (HQ' : Q (quoted d (bytes_of "': Unknown input node '" ++ s ++ bytes_of "'")) (set_outputs (outputs_ c) c)) by (by eapply (Herr _ _ s); [|left|]). by destruct c. }
  pose proof (source_range _ _ Es) as Ho. destruct (zlookup_is_Some (outputs_ c) o) as [l Hl]; [by rewrite Hlen|]. wp_step. eapply wp_opt; [done|]. wp_step. wp_step. apply IH; [done|cbn; by rewrite zinsert_length| |].
  - intros outs Hlen' Hcnt Hsrc. apply (HQ outs); [done| |intros s' [->|Hs']%elem_of_cons; [by eexists|auto]].
    intros o' m. rewrite Hcnt. cbn [outputs_ set_outputs]. rewrite (cnt_add _ _ _ _ _ _ Hl). cbn [List.filter]. unfold from at 2. rewrite Es, (Z.eqb_sym o o'). unfold zlength. destruct (o' =? o), (m =? n); cbn [andb length]; lia.
  - intros st outs s' Hst Hs' Hnone. apply (Herr st outs s'); [done|by right|done].
Qed.
(** What is known once the first [k] definitions are read. *)
Record started (k : Z) (outs : list (list Z)) (r : list Z) : Prop := mkStarted {
  st_len : zlength outs = zlength ds;
  st_nodup : NoDup r;
  st_ready : forall o, o ∈ r <-> 0 <= o < k /\ inputs o = [];
  st_cnt : forall o n, 0 <= o < zlength ds -> cnt outs o n = if decide (0 <= n < k) then mult o n else 0;
  st_src : forall o s, 0 <= o < k -> s ∈ inputs o -> is_Some (source s)
}.
Lemma inputs_at o (d : NodeDef) : ds !!z o = Some d -> inputs o = def_input d.
Proof. unfold GraphConstructorSpec.inputs. by intros ->. Qed.
Lemma wp_init_loop l ds' c (Q : Status -> Constructor -> Prop) : ds = l ++ ds' -> indexed ds (name_index_ c) -> pending_count_ c = map initial_pending l -> started (zlength l) (outputs_ c) (ready_ c) ->
  (forall outs r, started (zlength ds) outs r -> Q OK (set_outputs outs (set_ready r (set_pending (map initial_pending ds) c)))) ->
  (forall st outs r p, ok st = false -> ~ valid -> Q st (set_outputs outs (set_ready r (set_pending p c)))) -> wp (init_loop (zlength l) ds') c Q.
Proof.
  intros Hds. revert l Hds c Q. induction ds' as [|d ds' IH]; intros l Hds c Q Hm Hp Hst HQ Herr; cbn [init_loop].
  { rewrite app_nil_r in Hds. apply wp_ret. rewrite Hds, <- Hp in HQ. specialize (HQ _ _ Hst). by destruct c. }
  pose proof Hds as Hds'. rewrite cons_middle, app_assoc in Hds'. assert (Hl : zlength (l ++ [d]) = zlength l + 1) by by rewrite zlength_app.
  assert (Hd : ds !!z zlength l = Some d) by (rewrite Hds; apply zlookup_middle). pose proof (inputs_at _ _ Hd) as Hin. pose proof (zlookup_range _ _ _ Hd) as Hr.
  assert (Hp' : pending_count_ c ++ [initial_pending d] = map initial_pending (l ++ [d])) by (by rewrite map_app, <- Hp).
  pose proof Hst as [H1 H2 H3 H4 H5]. wp_step. wp_step. wp_step. wp_step. case_bool_decide as Hnil.
  - wp_step. wp_step. rewrite <- Hl. apply IH; [done|done|done| |done|done]. split; cbn [outputs_ ready_ set_ready set_pending].
    + done.
    + apply NoDup_cons. split; [|done]. intros [? _]%H3. lia.
    + intros o. rewrite elem_of_cons, H3, Hl. split; [intros [->|[? ?]]; [split; [lia|congruence]|split; [lia|done]]|]. intros [Ho Hi]. destruct (decide (o = zlength l)); [by left|right]. split; [lia|done].
    + intros o n Ho. rewrite H4, Hl by done. unfold mult. destruct (decide (n = zlength l)) as [->|]; [rewrite decide_False, decide_True by lia; rewrite Hin, Hnil; done|]. repeat case_decide; try lia; done.
    + intros o s Ho. destruct (decide (o = zlength l)) as [->|]; [rewrite Hin, Hnil; by intros ?%elem_of_nil|]. apply H5. lia.
  - apply wp_and_then. apply wp_outputs_loop; [done|done| |].
    + intros outs Hlen Hcnt Hsrc. cbn [ok]. rewrite <- Hl. apply IH; [done|done|done| |done|done]. split; cbn [outputs_ ready_ set_ready set_pending set_outputs].
      * done.
      * done.
      * intros o. rewrite H3, Hl. split; [intros [? ?]; split; [lia|done]|]. intros [Ho Hi]. destruct (decide (o = zlength l)) as [->|]; [congruence|]. split; [lia|done].
      * intros o n Ho. rewrite Hcnt. cbn [outputs_ set_pending]. rewrite H4, Hl by done. destruct (Z.eqb_spec n (zlength l)) as [->|]; [rewrite decide_False, decide_True by lia; unfold mult; by rewrite Hin|]. repeat case_decide; try lia; done.
      * intros o s Ho. destruct (decide (o = zlength l)) as [->|]; [rewrite Hin; apply Hsrc|]. apply H5. lia.
    + intros st outs s Hst' Hs Hnone. rewrite Hst'. apply (Herr st outs (ready_ c)); [done|]. intros Hv. rewrite <- Hin in Hs. destruct (v_inputs _ _ Hv _ _ Hs). congruence.
Qed.
(** ** Counting down *)

Definition reached (p : list Z) (lst : list Z) (n : Z) : Prop := exists k, p !!z n = Some k /\ 0 < k /\ k - count n lst <= 0.
Lemma wp_count_down lst c (Q : unit -> Constructor -> Prop) : (forall n, n ∈ lst -> is_Some (pending_count_ c !!z n)) ->
  (forall n k, pending_count_ c !!z n = Some k -> - 2 ^ 31 <= k - count n lst /\ k < 2 ^ 31) ->
  (forall p new, zlength p = zlength (pending_count_ c) -> (forall n, p !!z n = (fun k => k - count n lst) <$> pending_count_ c !!z n) -> NoDup new -> (forall n, n ∈ new <-> reached (pending_count_ c) lst n) ->
     Q tt (set_pending p (set_ready (new ++ ready_ c) c))) -> wp (count_down lst) c Q.
Proof.
  revert c Q. induction lst as [|o lst IH]; intros c Q Hin Hb HQ; cbn [count_down].
  { apply wp_ret. assert (HQ' : Q tt (set_pending (pending_count_ c) (set_ready ([] ++ ready_ c) c))).
    - apply HQ; [done|intros n; destruct (pending_count_ c !!z n); cbn; [f_equal; change (count n []) with 0; lia|done]|constructor|]. intros n. split; [by intros ?%elem_of_nil|]. intros (k & _ & ? & ?). change (count n []) with 0 in *. lia.
    - by destruct c. }
  destruct (Hin o) as [k Hk]; [by left|]. pose proof (Hb o k Hk) as Hbo. pose proof (count_nonneg o lst) as Hc0. rewrite count_cons, Z.eqb_refl in Hbo.
  wp_step. wp_step. wp_step. eapply wp_opt; [done|]. rewrite s32_id by lia. wp_step. wp_step. wp_step. set (c1 := set_pending (zinsert (pending_count_ c) o (k - 1)) c).
  assert (Hc1 : forall n, pending_count_ c1 !!z n = if decide (o = n) then Some (k - 1) else pending_count_ c !!z n) by (intros n; apply (zlookup_zinsert _ _ _ _ _ Hk)).
  apply (wp_mono _ _ (fun _ c2 => c2 = set_ready ((if k - 1 =? 0 then [o] else []) ++ ready_ c) c1)).
  { destruct (k - 1 =? 0); [by apply wp_modify|apply wp_ret]. by destruct c. }
  intros _ ? ->. apply IH; cbn [pending_count_ set_ready ready_].
  - intros n Hn. rewrite Hc1. case_decide; [by eexists|]. apply Hin. by right.
  - intros n k'. rewrite Hc1. case_decide as Hon; [intros [= <-]; subst n; lia|]. intros Hk'. specialize (Hb _ _ Hk'). rewrite count_cons in Hb. destruct (Z.eqb_spec o n); [congruence|]. lia.
  - intros p new Hlen Hp Hnd Hnew. assert (HQ' : Q tt (set_pending p (set_ready ((new ++ (if k - 1 =? 0 then [o] else [])) ++ ready_ c) c))); [|rewrite <- app_assoc in HQ'; exact HQ'].
    apply HQ.
    + rewrite Hlen. unfold c1. cbn. apply zinsert_length.
    + intros n. rewrite Hp, Hc1, count_cons. case_decide as Hon; [subst n; rewrite Hk, Z.eqb_refl; cbn; f_equal; lia|]. destruct (Z.eqb_spec o n); [congruence|]. destruct (pending_count_ c !!z n); cbn; f_equal; lia.
    + apply NoDup_app. split; [done|]. split; [|destruct (k - 1 =? 0); [apply NoDup_singleton|constructor]]. intros n Hn Hno. destruct (Z.eqb_spec (k - 1) 0); [|by apply elem_of_nil in Hno]. apply list_elem_of_singleton in Hno as ->. apply Hnew in Hn as (k' & Hk' & Hpos & _).
      rewrite Hc1, decide_True in Hk' by done. injection Hk' as <-. lia.
    + intros n. rewrite elem_of_app, Hnew. unfold reached. rewrite Hc1, count_cons. destruct (decide (o = n)) as [<-|Hon].
      * rewrite Z.eqb_refl. split.
        -- intros [(k' & [= <-] & ? & ?)|Hno]; [exists k; split; [done|lia]|]. destruct (Z.eqb_spec (k - 1) 0); [exists k; split; [done|lia]|by apply elem_of_nil in Hno].
        -- intros (k' & Hk' & ? & ?). rewrite Hk in Hk'. injection Hk' as <-. destruct (Z.eqb_spec (k - 1) 0); [right; by left|left]. exists (k - 1). split; [done|lia].
      * destruct (Z.eqb_spec o n); [congruence|]. cbn [Z.add]. split; [|by left]. intros [?|Hno]; [done|]. destruct (k - 1 =? 0); [by apply list_elem_of_singleton in Hno as ->|by apply elem_of_nil in Hno].
Qed.

(** ** What has been converted *)

Lemma got_snoc order o n : o ∉ order -> got (order ++ [o]) n = got order n + mult o n.
Proof.
  intros Ho. apply filter_count_split.
  - intros s. unfold comes_from, from. destruct (source s) as [o'|]; [|done]. apply Bool.eq_iff_eq_true. rewrite orb_true_iff, !bool_decide_eq_true, Z.eqb_eq, elem_of_app, list_elem_of_singleton. done.
  - intros s. unfold comes_from, from. destruct (source s) as [o'|]; [|done]. destruct (Z.eqb_spec o' o) as [->|]; [|apply andb_false_r]. by rewrite bool_decide_eq_false_2.
Qed.
Lemma got_nil n : got [] n = 0.
Proof.
  unfold GraphConstructorSpec.got. assert (E : forall l, List.filter (comes_from ds []) l = []); [|by rewrite E]. induction l as [|s l IH]; [done|]. cbn [List.filter]. unfold comes_from at 1. destruct (source s) as [o|]; [|done]. rewrite bool_decide_eq_false_2 by apply not_elem_of_nil. done.
Qed.
Lemma got_mono order order' n : (forall o, o ∈ order -> o ∈ order') -> got order n <= got order' n.
Proof. intros H. apply filter_count_mono. intros s. unfold comes_from. destruct (source s) as [o|]; [|done]. rewrite !bool_decide_eq_true. auto. Qed.
Lemma got_le order n : 0 <= got order n <= zlength (inputs n).
Proof. split; [unfold GraphConstructorSpec.got, zlength; lia|apply filter_count_le]. Qed.
Lemma filter_count_all {A} (f : A -> bool) l : zlength (List.filter f l) = zlength l -> forall x, x ∈ l -> f x = true.
Proof.
  unfold zlength. induction l as [|y l IH]; intros H x Hx; [by apply elem_of_nil in Hx|]. cbn [List.filter] in H. pose proof (filter_length_le f l). destruct (f y) eqn:E; cbn [length] in H; [|lia].
  apply elem_of_cons in Hx as [->|Hx]; [done|]. apply IH; [lia|done].
Qed.
(** A definition becomes ready once. *)
Definition is_ready (order : list Z) (o : Z) : Prop := inputs o = [] \/ need o <= got order o.
End Facts.
End GraphConstructorFacts.
