(* ===== verification/GraphConstructorEdges.v ===== *)
(** * Graph construction: the nodes and edges of a definition *)
From S2P Require Import Prelude StringPiece Status Numbers DataTypes EdgeSet Graph GraphFacts GraphOps GraphConstructor GraphConstructorSpec.
From stdpp Require Import gmap.
Open Scope Z_scope.

Module GraphConstructorEdges.
Import Status Graph GraphSpec GraphFacts GraphOps GraphConstructor GraphConstructorSpec GraphConstructorFacts.

Section Edges.
Context {OpDef AttrValue : Type} {registry : OpRegistryInterface OpDef AttrValue} {laws : OpRegistryLaws OpDef AttrValue registry}.
Context (addr : nat -> Z) {Haddr : addresses addr}.
Context (opts : Options) (gdef : GraphDef (AttrValue := AttrValue)).
Abbreviation NodeDef := (NodeDef AttrValue).
Abbreviation Graph := (Graph OpDef AttrValue).
Abbreviation AGraph := (AGraph OpDef AttrValue).
Abbreviation ANode := (ANode OpDef AttrValue).
Abbreviation Constructor := (Constructor (OpDef := OpDef) (AttrValue := AttrValue)).
Abbreviation rep := (rep addr).
Abbreviation ds := (node gdef).
Abbreviation source := (source ds).
Abbreviation inputs := (inputs ds).
Abbreviation valid := (valid opts ds).
Implicit Types (g : Graph) (c : Constructor) (a : AGraph) (s : list Z).

(** ** One edge *)

Lemma wp_live_props {B} g a i p (v : ANode) (f : Properties OpDef AttrValue -> ST Graph B) Q : rep g a -> at_ (nodes_ g) i = Some p -> a_nodes a !! i = Some v ->
  wp (f (a_props v)) g Q -> wp (let! n := node_of p in let! w := props_of (props_ n) in f w) g Q.
Proof.
  intros H Hp Hv HQ. destruct (rep_live addr H _ _ Hp) as (v' & Hv' & n & k & Hn & Hps & _). rewrite Hv in Hv'. injection Hv' as <-.
  wp_step. eapply wp_node_of; [exact Hn|]. wp_step. by eapply wp_props_of.
Qed.
Lemma wp_name {B} g a i p (v : ANode) (f : list Z -> ST Graph B) Q : rep g a -> at_ (nodes_ g) i = Some p -> a_nodes a !! i = Some v ->
  wp (f (def_name (node_def_ (a_props v)))) g Q -> wp (let! nm := name p in f nm) g Q.
Proof. intros H Hp Hv HQ. wp_step. unfold name, def. wp_step. eapply (wp_live_props g a i); [done..|]. wp_step. by wp_step. Qed.
Lemma wp_MakeEdge g a i k src dst (v w : ANode) x y so si (Q : Status -> Graph -> Prop) : rep g a -> has_ends a -> room (a_next_edge a) ->
  at_ (nodes_ g) i = Some src -> a_nodes a !! i = Some v -> at_ (nodes_ g) k = Some dst -> a_nodes a !! k = Some w -> 1 < i -> 1 < k -> x <> kControlSlot -> y <> kControlSlot ->
  output_types_ (a_props v) !!z x = Some so -> input_types_ (a_props w) !!z y = Some si -> is_Some (DataTypes.DataTypeString so) -> is_Some (DataTypes.DataTypeString si) ->
  (TypesCompatible si so = true -> forall g', rep g' (add_edge (mkAEdge i x k y) a) -> nodes_ g' = nodes_ g -> Q OK g') ->
  (TypesCompatible si so = false -> forall st, ok st = false -> Q st g) -> wp (MakeEdge addr src x dst y) g Q.
Proof.
  intros H He Hroom Hs Hv Hd Hw Hi Hk Hx Hy Hso Hsi [ts Hts] [td Htd] HQ Herr. unfold MakeEdge. wp_step. unfold output_type. eapply (wp_live_props g a i); [done..|]. eapply wp_opt; [exact Hso|].
  wp_step. unfold input_type. eapply (wp_live_props g a k); [done..|]. eapply wp_opt; [exact Hsi|]. destruct (TypesCompatible si so); cbn [negb].
  - wp_step. eapply (wp_AddEdge addr g a i x k y); [done..| |].
    + unfold control_ok, kSourceId, kSinkId. rewrite (proj2 (Z.eqb_neq i 0)), (proj2 (Z.eqb_neq k 1)), (proj2 (Z.eqb_neq x kControlSlot)), (proj2 (Z.eqb_neq y kControlSlot)) by (done || lia). done.
    + intros q g' H' Hn _. apply wp_ret. by apply HQ.
  - eapply (wp_name g a k); [done..|]. wp_step. eapply wp_opt; [exact Hts|]. eapply (wp_name g a i); [done..|]. wp_step. eapply wp_opt; [exact Htd|]. apply wp_ret. by apply Herr.
Qed.

(** ** The invariant of the graph *)

Context (a0 : AGraph).
Abbreviation first := (a_next_node a0).
Abbreviation place := (place first).
Abbreviation id_of := (id_of first).

(** The address of the node of a definition; null before it is converted. *)
Definition ptr_ok (order : list Z) g (o p : Z) : Prop := match pos order o with Some k => at_ (nodes_ g) (first + k) = Some p | None => p = 0 end.
Definition back_ok (order : list Z) g (b : EdgeInfo) (e : AEdge) : Prop :=
  index_in ds (src_name b) = Some (e_src e) /\ src_index b = e_out e /\ e_dst e ∈ order /\ ptr_ok order g (e_dst e) (dst_node b) /\ (e_out e <> kControlSlot -> dst_index b = e_in e).
Record graph_inv (order : list Z) (es back : list AEdge) c : Prop := mkGraphInv {
  g_rep : exists vs, made_nodes opts ds first order vs /\ rep (g_ c) (grow vs (map (place order) es) a0);
  g_nodup : NoDup order;
  g_range : forall o, o ∈ order -> 0 <= o < zlength ds;
  g_names : forall nm o p, name_index_ c !! nm = Some (o, p) -> index_in ds nm = Some o /\ ptr_ok order (g_ c) o p;
  g_named : forall nm o, index_in ds nm = Some o -> is_Some (name_index_ c !! nm);
  g_ends : forall e, e ∈ es -> e_src e ∈ order /\ e_dst e ∈ order;
  g_back : Forall2 (back_ok order (g_ c)) (back_edges_ c) back
}.
(** What [Undo] needs: every added node has a name, every added edge enters an
    added node. *)
Definition undoable c : Prop :=
  exists order vs es, length vs = length order /\ zlength order <= zlength ds /\ rep (g_ c) (grow vs es a0) /\ NoDup order /\ (forall e, e ∈ es -> first <= e_dst e < first + zlength order) /\
    (forall nm o p, name_index_ c !! nm = Some (o, p) -> ptr_ok order (g_ c) o p) /\
    (forall nm nm' o p p', name_index_ c !! nm = Some (o, p) -> name_index_ c !! nm' = Some (o, p') -> nm = nm') /\
    (forall o, o ∈ order -> exists nm p, name_index_ c !! nm = Some (o, p)).

Lemma id_of_range order o : o ∈ order -> first <= id_of order o < first + zlength order.
Proof. unfold GraphConstructorSpec.id_of. intros [k Hk]%pos_elem. rewrite Hk. cbn. pose proof (zlookup_range _ _ _ (pos_lookup _ _ _ Hk)). lia. Qed.
Lemma index_in_named (l : list NodeDef) nm nm' o : index_in l nm = Some o -> index_in l nm' = Some o -> nm = nm'.
Proof. intros (d & Hd & <-)%index_in_Some (d' & Hd' & <-)%index_in_Some. congruence. Qed.
Lemma range_lookup {A} (l : list A) k : 0 <= k < zlength l -> exists x, l !!z k = Some x.
Proof. apply zlookup_is_Some. Qed.
Lemma index_in_unique o (d : NodeDef) : NoDup (map def_name ds) -> ds !!z o = Some d -> index_in ds (def_name d) = Some o.
Proof.
  intros Hu Hd. destruct (index_in ds (def_name d)) as [o'|] eqn:Hi; [|apply index_in_None in Hi; destruct Hi; apply list_elem_of_fmap; exists d; split; [done|by eapply zlookup_elem]].
  destruct (index_in_Some _ _ _ Hi) as (d' & Hd' & Heq). pose proof (zlookup_range _ _ _ Hd'). pose proof (zlookup_range _ _ _ Hd). unfold zlookup in Hd, Hd'. destruct (Z.ltb_spec o 0), (Z.ltb_spec o' 0); try lia.
  assert (Z.to_nat o' = Z.to_nat o); [|f_equal; lia]. apply (proj1 (NoDup_alt _) Hu _ _ (def_name d)); rewrite list_lookup_fmap; [rewrite Hd', <- Heq|rewrite Hd]; done.
Qed.
Lemma order_length order : NoDup order -> (forall o, o ∈ order -> 0 <= o < zlength ds) -> zlength order <= zlength ds.
Proof.
  intros Hnd Hr. assert (Hs : order ⊆+ seqZ 0 (zlength ds)) by (apply NoDup_submseteq; [done|]; intros o Ho%Hr; apply elem_of_seqZ; lia).
  apply submseteq_length in Hs. rewrite length_seqZ in Hs. unfold zlength in *. lia.
Qed.
Lemma undo_inv order es back c : graph_inv order es back c -> NoDup (map def_name ds) -> undoable c.
Proof.
  intros [(vs & Hvs & Hrep) Hnd Hr Hnm Hnmd He _] Hu. exists order, vs, (map (place order) es). split; [apply Hvs|]. split; [by apply order_length|]. split; [done|]. split; [done|]. split; [|split; [|split]].
  - intros e (e' & -> & He')%list_elem_of_fmap. cbn. apply id_of_range, He, He'.
  - intros nm o p H. by apply (Hnm nm).
  - intros nm nm' o p p' [H _]%Hnm [H' _]%Hnm. by eapply index_in_named.
  - intros o Ho%Hr. destruct (range_lookup _ _ Ho) as [d Hd]. pose proof (index_in_unique _ _ Hu Hd) as Hi. destruct (Hnmd _ _ Hi) as [[o' p] Hp]. destruct (Hnm _ _ _ Hp) as [Hi' _]. exists (def_name d), p. congruence.
Qed.
(** ** The edges of the inputs *)

Context (Hends : has_ends a0) (Hfirst : 2 <= first) (Hw : wired ds).
Abbreviation edges_from := (edges_from ds).
Abbreviation edges_for := (edges_for ds).
Abbreviation edge_for := (edge_for ds).

Lemma grow_ends vs es : has_ends (grow vs es a0).
Proof. destruct Hends as [[v Hv] [w Hw']]. unfold has_ends, kSourceId, kSinkId. rewrite !grow_nodes, !decide_False by lia. split; by eexists. Qed.
Lemma edges_from_app o k l l' : edges_from o k (l ++ l') = edges_from o k l ++ edges_from o (k + zlength l) l'.
Proof.
  revert k. induction l as [|s l IH]; intros k; cbn [app GraphConstructorSpec.edges_from]; [f_equal; unfold zlength; cbn; lia|]. rewrite IH. do 3 f_equal. unfold zlength. cbn [length]. lia.
Qed.
Lemma edge_here o pre s ss : inputs o = pre ++ s :: ss -> edge_for o (zlength pre) s ∈ edges_for o.
Proof. intros Hi. unfold GraphConstructorSpec.edges_for. rewrite Hi, edges_from_app. cbn. rewrite Z.add_0_l. apply elem_of_app. right. by left. Qed.
Lemma made_props order vs es o k : made_nodes opts ds first order vs -> pos order o = Some k ->
  exists v, a_nodes (grow vs es a0) !! (first + k) = Some v /\ props ds o (a_props v).
Proof.
  intros [Hlen Hvs] Hk%pos_lookup. destruct (Hvs _ _ Hk) as (v & Hv & d & w & Hd & Hmade & ->). exists (mkANode w (first + k) (if expect_device_spec opts then def_device d else [])).
  pose proof (zlookup_range _ _ _ Hv). rewrite grow_nodes, decide_True by lia. split; [by replace (first + k - first) with k by lia|]. exists d. done.
Qed.
Lemma ptr_live order g o p k : ptr_ok order g o p -> pos order o = Some k -> at_ (nodes_ g) (first + k) = Some p.
Proof. unfold ptr_ok. intros H Hk. by rewrite Hk in H. Qed.
Lemma ptr_null order g o p : ptr_ok order g o p -> p = 0 <-> o ∉ order.
Proof.
  unfold ptr_ok. rewrite pos_elem. destruct (pos order o) as [k|]; [|intros ->; by split; [intros _ [? ?]|]]. intros [_ Hp]%at_Some. split; [done|]. intros H. destruct H. by eexists.
Qed.
Lemma id_of_pos order o k : pos order o = Some k -> id_of order o = first + k.
Proof. unfold GraphConstructorSpec.id_of. by intros ->. Qed.
Lemma inv_edge order es back c g' e : graph_inv order es back c -> (exists vs, made_nodes opts ds first order vs /\ rep g' (grow vs (map (place order) (es ++ [e])) a0)) -> nodes_ g' = nodes_ (g_ c) ->
  e_src e ∈ order -> e_dst e ∈ order -> graph_inv order (es ++ [e]) back (set_graph g' c).
Proof.
  intros [_ H2 H3 H4 H5 H6 H7] Hrep Hn Hs Hd. assert (Hp : forall o p, ptr_ok order g' o p <-> ptr_ok order (g_ c) o p) by (intros o p; unfold ptr_ok; by rewrite Hn). split; try done.
  - intros nm o p H. cbn. rewrite Hp. by apply H4.
  - intros e' [He|He%list_elem_of_singleton]%elem_of_app; [by apply H6|by subst e'].
  - cbn. eapply Forall2_impl; [exact H7|]. intros b e' (? & ? & ? & ? & ?). unfold back_ok. by rewrite Hp.
Qed.
Lemma inv_back order es back c b e : graph_inv order es back c -> back_ok order (g_ c) b e -> graph_inv order es (back ++ [e]) (set_back_edges (back_edges_ c ++ [b]) c).
Proof. intros [H1 H2 H3 H4 H5 H6 H7] Hb. split; try done. cbn. apply Forall2_app; [done|]. by constructor. Qed.
(** An edge between converted definitions; [MakeEdge] also adds control edges
    here. *)
Definition add_edge_for (src x dst y : Z) : ST Graph Status := if x =? -1 then AddControlEdge addr src dst ;;; st_ret OK else MakeEdge addr src x dst y.
Lemma wp_edge_for order es back c o s e k j src dst (Q : Status -> Constructor -> Prop) : graph_inv order es back c -> room (a_next_edge a0 + zlength es) ->
  e ∈ edges_for o -> e_dst e = o -> e_out e = slot s -> pos order (e_src e) = Some j -> pos order o = Some k -> kControlSlot <= e_out e -> (e_out e = kControlSlot -> e_in e = kControlSlot) ->
  (e_out e <> kControlSlot -> 0 <= e_in e /\ forall v, props ds (e_src e) v -> e_out e < zlength (output_types_ v)) ->
  ptr_ok order (g_ c) (e_src e) src -> ptr_ok order (g_ c) o dst ->
  (forall g', graph_inv order (es ++ [e]) back (set_graph g' c) -> nodes_ g' = nodes_ (g_ c) -> edge_ok ds e -> Q OK (set_graph g' c)) ->
  (forall st, ok st = false -> ~ valid -> Q st c) -> wp (on_graph (add_edge_for src (e_out e) dst (e_in e))) c Q.
Proof.
  intros H Hroom He Hdst Hslot Hj Hk Hx Hctl Hdata Hsrc Hd HQ Herr. destruct (g_rep _ _ _ _ H) as (vs & Hvs & Hrep).
  pose proof (ptr_live _ _ _ _ _ Hsrc Hj) as Hps. pose proof (ptr_live _ _ _ _ _ Hd Hk) as Hpd. set (a := grow vs (map (place order) es) a0) in *.
  destruct (made_props order vs (map (place order) es) _ _ Hvs Hj) as (v & Hv & Hpv). destruct (made_props order vs (map (place order) es) _ _ Hvs Hk) as (w & Hw' & Hpw). fold a in Hv, Hw'.
  assert (Hnext : room (a_next_edge a)) by (unfold a, room in *; destruct (grow_next vs (map (place order) es) a0) as (_ & -> & _); unfold zlength in *; rewrite length_map; lia).
  assert (Hse : e_src e ∈ order) by (apply pos_elem; by eexists). assert (Hoe : e_dst e ∈ order) by (rewrite Hdst; apply pos_elem; by eexists).
  assert (Hplace : place order e = mkAEdge (first + j) (e_out e) (first + k) (e_in e)) by (unfold GraphConstructorSpec.place; by rewrite Hdst, (id_of_pos _ _ _ Hj), (id_of_pos _ _ _ Hk)).
  assert (Hgo : forall g', rep g' (add_edge (mkAEdge (first + j) (e_out e) (first + k) (e_in e)) a) -> nodes_ g' = nodes_ (g_ c) -> graph_inv order (es ++ [e]) back (set_graph g' c)).
  { intros g' H' Hn. eapply inv_edge; try done. exists vs. split; [done|]. rewrite map_app. cbn [map]. rewrite grow_edge. by rewrite Hplace. }
  pose proof (zlookup_range _ _ _ (pos_lookup _ _ _ Hj)). pose proof (zlookup_range _ _ _ (pos_lookup _ _ _ Hk)).
  apply wp_on_graph. unfold add_edge_for. destruct (Z.eqb_spec (e_out e) (-1)) as [Hc|Hc].
  - wp_step. unfold AddControlEdge. eapply (wp_AddEdge addr (g_ c) a (first + j) _ (first + k)); [done|apply grow_ends|done..|by unfold control_ok; destruct (_ || _)|].
    intros q g' H' Hn _. apply wp_ret. apply HQ; [|done|by left]. apply Hgo; [|done]. rewrite (Hctl Hc). by rewrite Hc.
  - destruct (Hdata Hc) as [Hin Hout]. specialize (Hout _ Hpv). destruct (range_lookup (output_types_ (a_props v)) (e_out e)) as [so Hso]; [unfold kControlSlot in *; lia|].
    pose proof (w_input _ Hw _ _ _ He Hc Hpw) as Hinr. destruct (range_lookup (input_types_ (a_props w)) (e_in e)) as [si Hsi]; [lia|].
    eapply (wp_MakeEdge (g_ c) a (first + j) (first + k) _ _ v w _ _ so si); [done|apply grow_ends|done|exact Hps|done|exact Hpd|done|lia|lia|done|unfold kControlSlot; lia|done|done| | | |].
    + eapply (w_types _ Hw); [exact Hpv|]. apply elem_of_app. right. by eapply zlookup_elem.
    + eapply (w_types _ Hw); [exact Hpw|]. apply elem_of_app. left. by eapply zlookup_elem.
    + intros Ht g' H' Hn. apply HQ; [by apply Hgo|done|]. right. exists (a_props v), (a_props w), so, si. by rewrite Hdst.
    + intros Ht st Hst. apply (Herr st) in Hst; [by destruct c|]. intros Hval. destruct (v_edges _ _ Hval _ _ He) as [?|(v' & w' & so' & si' & (d1 & Hd1 & Hm1) & (d2 & Hd2 & Hm2) & Hso' & Hsi' & Ht')]; [done|].
      destruct Hpv as (d1' & Hd1' & Hm1'), Hpw as (d2' & Hd2' & Hm2'). rewrite Hdst in *. congruence.
Qed.
Lemma edge_for_slot src x dst y y' : x = kControlSlot \/ y = y' -> add_edge_for src x dst y = add_edge_for src x dst y'.
Proof. unfold add_edge_for. by intros [-> | ->]. Qed.
Lemma wp_edge_then src x dst y (m : ST Constructor Status) c Q : wp (and_then (on_graph (add_edge_for src x dst y)) m) c Q ->
  wp (if x =? -1 then on_graph (AddControlEdge addr src dst) ;;; m else and_then (on_graph (MakeEdge addr src x dst y)) m) c Q.
Proof.
  unfold add_edge_for. destruct (x =? -1); [|done]. unfold wp, and_then, on_graph, st_bind. destruct (AddControlEdge addr src dst (g_ c)) as [[q g]| |]; [|done..]. done.
Qed.
Lemma edges_from_elem o k ss e : e ∈ edges_from o k ss -> exists i s, 0 <= i /\ s ∈ ss /\ e = edge_for o (k + i) s.
Proof.
  revert k. induction ss as [|s ss IH]; intros k He; [by apply elem_of_nil in He|]. apply elem_of_cons in He as [->|He]; [exists 0, s; rewrite Z.add_0_r; split; [done|split; [by left|done]]|].
  destruct (IH _ He) as (i & s' & Hi & Hs' & ->). exists (i + 1), s'. split; [lia|]. split; [by right|]. f_equal. lia.
Qed.
(** What [collect_inputs] finds of an input, before its definition is
    converted. *)
Definition info_ok (order : list Z) g (x : InputInfo) s : Prop :=
  in_name x = (input_id s).1 /\ in_index x = slot s /\ exists o', source s = Some o' /\ ptr_ok order g o' (in_node x) /\
    (o' ∈ order -> slot s <> kControlSlot -> forall v, props ds o' v -> slot s < zlength (output_types_ v)).
Lemma edge_src o k s o' : source s = Some o' -> e_src (edge_for o k s) = o'.
Proof. unfold GraphConstructorSpec.edge_for. cbn. by intros ->. Qed.
Lemma wp_add_edges order0 o p ss : o ∉ order0 -> forall infos pre c es back (Q : Status -> Constructor -> Prop),
  inputs o = pre ++ ss -> graph_inv (order0 ++ [o]) es back c -> ptr_ok (order0 ++ [o]) (g_ c) o p -> Forall2 (info_ok order0 (g_ c)) infos ss ->
  room (a_next_edge a0 + zlength es + zlength ss) -> NoDup (map def_name ds) ->
  (forall g' bs new nback, graph_inv (order0 ++ [o]) (es ++ new) (back ++ nback) (set_graph g' (set_back_edges bs c)) -> new ++ nback ≡ₚ edges_from o (zlength pre) ss -> Forall (edge_ok ds) new -> Forall (fun e => e_src e ∉ order0) nback -> Q OK (set_graph g' (set_back_edges bs c))) ->
  (forall st g' bs, ok st = false -> ~ valid -> undoable (set_graph g' (set_back_edges bs c)) -> Q st (set_graph g' (set_back_edges bs c))) -> wp (add_edges addr p (zlength pre) infos) c Q.
Proof.
  intros Ho. set (order := order0 ++ [o]). induction ss as [|s ss IH]; intros infos pre c es back Q Hin H Hp Hinfos Hr2 Hu HQ Herr.
  { apply Forall2_nil_inv_r in Hinfos as ->. cbn [add_edges]. apply wp_ret. specialize (HQ (g_ c) (back_edges_ c) [] []). rewrite !app_nil_r in HQ. destruct c. apply HQ; [done|done|constructor|constructor]. }
  apply Forall2_cons_inv_r in Hinfos as (x & infos' & (Hname & Hidx & o' & Hs & Hpx & Hrange) & Hinfos & ->). cbn [add_edges].
  pose proof (edge_here _ _ _ _ Hin) as He. pose proof (edge_src o (zlength pre) s _ Hs) as Hsrc. set (e := edge_for o (zlength pre) s) in *.
  assert (Hin' : inputs o = (pre ++ [s]) ++ ss) by by rewrite <- app_assoc. assert (Hlen : zlength (pre ++ [s]) = zlength pre + 1) by apply zlength_app.
  assert (Hss : zlength (s :: ss) = zlength ss + 1 /\ 0 <= zlength ss) by (unfold zlength; cbn [length]; lia). unfold room in *. pose proof (pos_snoc _ _ Ho) as Hpo. fold order in Hpo.
  assert (Hix : e_out e <> kControlSlot -> e_in e = zlength pre) by (unfold e; cbn; intros Hc; by destruct (Z.eqb_spec (slot s) kControlSlot)).
  destruct (Z.eqb_spec (in_node x) 0) as [H0|H0].
  - wp_step. wp_step. wp_step. wp_step. rewrite <- Hlen. set (b := mkEdgeInfo _ _ _ _). assert (Hb : back_ok order (g_ c) b e).
    { split; [by rewrite Hsrc; cbn; rewrite Hname|]. split; [done|]. split; [apply elem_of_app; right; by left|]. split; [done|]. intros Hc. symmetry. exact (Hix Hc). }
    apply (IH infos' _ _ es (back ++ [e])); [done|by apply inv_back|done|done|lia|done| |].
    + intros g' bs new nback Hc' Hperm Hok Hnb. apply (HQ g' bs new (e :: nback)); [by rewrite <- app_assoc in Hc'| |done|constructor; [|done]; rewrite Hsrc; by apply (ptr_null _ _ _ _ Hpx)]. cbn [GraphConstructorSpec.edges_from]. fold e. rewrite <- Hlen, <- Hperm. symmetry. apply Permutation_middle.
    + intros st g' bs H1 H2 H3. by apply (Herr st g' bs).
  - assert (Ho' : o' ∈ order0) by (destruct (decide (o' ∈ order0)) as [?|Hn]; [done|by apply (ptr_null _ _ _ _ Hpx) in Hn]). destruct (proj1 (pos_elem _ _) Ho') as [j Hj].
    assert (Hj' : pos order o' = Some j) by by apply index_app. assert (Hne : o' <> o) by congruence.
    rewrite <- Hlen. apply wp_edge_then, wp_and_then. rewrite Hidx. change (slot s) with (e_out e).
    assert (Hy : e_out e = kControlSlot \/ zlength pre = e_in e) by (destruct (decide (e_out e = kControlSlot)); [by left|right; by rewrite Hix]).
    rewrite (edge_for_slot _ _ _ _ _ Hy).
    eapply (wp_edge_for order es back c o s e (zlength order0) j); [done|unfold room; lia|done|done|done|by rewrite Hsrc|done| | | |by unfold ptr_ok in *; rewrite Hsrc, Hj'; rewrite Hj in Hpx|done| |].
    + apply (w_slot _ Hw o). rewrite Hin. apply elem_of_app. right. by left.
    + intros Hc. unfold e in *. cbn in Hc |- *. by rewrite Hc.
    + intros Hc. rewrite (Hix Hc). split; [unfold zlength; lia|]. intros v Hv. rewrite Hsrc in Hv. by apply Hrange.
    + intros g' Hg' Hn Hok. cbn [ok]. assert (Hptr : forall l q r, ptr_ok l g' q r <-> ptr_ok l (g_ c) q r) by (intros l q r; unfold ptr_ok; by rewrite Hn).
      apply (IH infos' _ _ (es ++ [e]) back); [done|done|by cbn; rewrite Hptr| |rewrite zlength_app; change (zlength [e]) with 1; lia|done| |].
      * cbn. eapply Forall2_impl; [exact Hinfos|]. intros x' s' (? & ? & o2 & ? & ? & ?). split; [done|]. split; [done|]. exists o2. by rewrite Hptr.
      * intros g2 bs new nback Hc' Hperm Hnew Hnb. apply (HQ g2 bs (e :: new) nback); [by rewrite <- app_assoc in Hc'| |by constructor|done]. cbn [app GraphConstructorSpec.edges_from]. fold e. by rewrite <- Hlen, <- Hperm.
      * intros st g2 bs H1 H2 H3. by apply (Herr st g2 bs).
    + intros st Hst Hv. rewrite Hst. specialize (Herr st (g_ c) (back_edges_ c)). destruct c. apply Herr; [done|done|]. by eapply undo_inv.
Qed.
End Edges.
End GraphConstructorEdges.
