(* ===== verification/GraphConstructorLoop.v ===== *)
(** * Graph construction: the conversion of the definitions *)
From S2P Require Import Prelude StringPiece Status Numbers DataTypes EdgeSet Graph GraphFacts GraphOps GraphConstructor GraphConstructorSpec GraphConstructorEdges.
From stdpp Require Import gmap.
Open Scope Z_scope.

Module GraphConstructorLoop.
Import Status Graph GraphSpec GraphFacts GraphOps GraphConstructor GraphConstructorSpec GraphConstructorFacts GraphConstructorEdges.

Section Loop.
Context {OpDef AttrValue : Type} {registry : OpRegistryInterface OpDef AttrValue} {laws : OpRegistryLaws OpDef AttrValue registry}.
Context (addr : nat -> Z) {Haddr : addresses addr}.
Context (opts : Options) (gdef : GraphDef (AttrValue := AttrValue)).
Abbreviation NodeDef := (NodeDef AttrValue).
Abbreviation Graph := (Graph OpDef AttrValue).
Abbreviation AGraph := (AGraph OpDef AttrValue).
Abbreviation ANode := (ANode OpDef AttrValue).
Abbreviation Constructor := (Constructor (OpDef := OpDef) (AttrValue := AttrValue)).
Abbreviation rep := (rep addr).
Abbreviation ds := (node gdef).
Abbreviation source := (source ds).
Abbreviation inputs := (inputs ds).
Abbreviation need := (need ds).
Abbreviation got := (got ds).
Abbreviation valid := (valid opts ds).
Implicit Types (g : Graph) (c : Constructor) (a : AGraph) (s : list Z).
Context (a0 : AGraph).
Abbreviation first := (a_next_node a0).
Abbreviation place := (place first).
Abbreviation graph_inv := (graph_inv addr opts gdef a0).
Abbreviation undoable := (undoable addr gdef a0).
Abbreviation ptr_ok := (ptr_ok a0).
Abbreviation info_ok := (info_ok gdef a0).
Context (Hends : has_ends a0) (Hfirst : 2 <= first) (Hw : wired ds).

(** ** The inputs *)

Lemma controls_last_app l l' : controls_last (l ++ l') = controls_last l && if existsb is_control_name l then forallb is_control_name l' else controls_last l'.
Proof.
  induction l as [|s l IH]; [done|]. cbn. destruct (is_control_name s); cbn; [|done]. rewrite forallb_app. destruct (forallb is_control_name l) eqn:E; [|done]. done.
Qed.
Lemma wp_num_outputs order es back c o k p (Q : Z -> Constructor -> Prop) : graph_inv order es back c -> pos order o = Some k -> ptr_ok order (g_ c) o p ->
  (forall v, props ds o v -> Q (zlength (output_types_ v)) c) -> wp (on_graph (num_outputs p)) c Q.
Proof.
  intros H Hk Hp HQ. destruct (g_rep _ _ _ _ _ _ _ _ H) as (vs & Hvs & Hrep). destruct (made_props opts gdef a0 order vs (map (place order) es) _ _ Hvs Hk) as (v & Hv & Hpv).
  apply wp_on_graph. unfold num_outputs. eapply (wp_live_props addr _ _ _ _ _ _ _ Hrep); [by eapply ptr_live|exact Hv|]. apply wp_ret. pose proof (w_outputs _ Hw _ _ Hpv). rewrite s32_id by (unfold zlength in *; lia). destruct c. by apply HQ.
Qed.
Definition pending_data (order : list Z) s : bool := negb (is_control_name s) && negb (comes_from ds order s).
Lemma wp_collect_inputs o d order es back c ss : graph_inv order es back c -> (forall s, s ∈ inputs o -> is_Some (source s)) ->
  forall pre flag acc hb (Q : Status * (list InputInfo * bool) -> Constructor -> Prop), inputs o = pre ++ ss -> flag = existsb is_control_name pre ->
  (forall infos, Forall2 (info_ok order (g_ c)) infos ss -> (if flag then forallb is_control_name ss else controls_last ss) = true -> Q (OK, (acc ++ infos, hb || existsb (pending_data order) ss)) c) ->
  (forall st r, ok st = false -> ~ valid -> Q (st, r) c) -> wp (collect_inputs d ss flag acc hb) c Q.
Proof.
  intros H Hsrc. induction ss as [|s ss IH]; intros pre flag acc hb Q Hin Hflag HQ Herr; cbn [collect_inputs].
  { apply wp_ret. specialize (HQ []). rewrite app_nil_r in HQ. cbn in HQ. rewrite orb_false_r in HQ. apply HQ; [constructor|by destruct flag]. }
  destruct (Hsrc s) as [o' Hs]; [rewrite Hin; apply elem_of_app; right; by left|]. destruct (g_named _ _ _ _ _ _ _ _ H _ _ Hs) as [[o2 p] Hnm]. destruct (g_names _ _ _ _ _ _ _ _ H _ _ _ Hnm) as [Ho2 Hp].
  assert (o2 = o') as -> by (unfold GraphConstructorSpec.source in Hs; congruence). clear Ho2.
  assert (Hin' : inputs o = (pre ++ [s]) ++ ss) by by rewrite <- app_assoc. assert (Hflag' : existsb is_control_name (pre ++ [s]) = flag || is_control_name s) by (rewrite existsb_app, <- Hflag; cbn; by rewrite orb_false_r).
  assert (Hcf : comes_from ds order s = bool_decide (o' ∈ order)) by (unfold comes_from; by rewrite Hs).
  destruct (is_control_name s) eqn:Ec; cbn [negb andb].
  - wp_step. wp_step. wp_step. eapply wp_opt; [exact Hnm|]. apply (IH (pre ++ [s])); [done|by rewrite Hflag', orb_true_r| |done].
    intros infos Hinfos Hc. rewrite <- app_assoc. cbn [app]. assert (Hpd : existsb (pending_data order) (s :: ss) = existsb (pending_data order) ss) by (cbn; unfold pending_data at 1; by rewrite Ec).
    rewrite <- Hpd. apply HQ; [|cbn; rewrite Ec; by destruct flag]. constructor; [|done]. split; [done|]. assert (Hsl : slot s = -1) by (unfold slot; by rewrite Ec). split; [by rewrite Hsl|]. exists o'. rewrite Hsl. done.
  - destruct flag; cbn [negb andb].
    { apply wp_ret, Herr; [done|]. intros Hv. pose proof (v_controls _ _ Hv o) as Hc. rewrite Hin, controls_last_app, <- Hflag in Hc. cbn in Hc. rewrite Ec in Hc. by rewrite andb_false_r in Hc. }
    assert (Hsl : slot s = (input_id s).2) by (unfold slot; by rewrite Ec).
    assert (Hnext : forall x, info_ok order (g_ c) x s -> forall infos, Forall2 (info_ok order (g_ c)) infos ss -> controls_last ss = true -> Q (OK, ((acc ++ [x]) ++ infos, hb || existsb (pending_data order) (s :: ss))) c).
    { intros x Hx infos Hinfos Hc. rewrite <- app_assoc. apply HQ; [by constructor|]. cbn. by rewrite Ec. }
    wp_step. wp_step. wp_step. eapply wp_opt; [exact Hnm|]. cbv beta iota. destruct (Z.eqb_spec p 0) as [Hp0|Hp0].
    + assert (Ho' : o' ∉ order) by by apply (ptr_null a0 order (g_ c) o' p).
      apply (IH (pre ++ [s])); [done|by rewrite Hflag'| |done]. intros infos Hinfos Hc. assert (Hpd : hb || existsb (pending_data order) (s :: ss) = true).
      { cbn. unfold pending_data at 1. rewrite Ec, Hcf, bool_decide_eq_false_2 by done. apply orb_true_r. }
      assert (HQ' : Q (OK, ((acc ++ [mkInputInfo (input_id s).1 p (input_id s).2]) ++ infos, hb || existsb (pending_data order) (s :: ss))) c); [|by rewrite Hpd in HQ'].
      apply Hnext; [|done|done]. split; [done|]. split; [done|]. by exists o'.
    + assert (Ho' : o' ∈ order) by (destruct (decide (o' ∈ order)) as [?|Hn]; [done|by apply (ptr_null a0 order (g_ c) o' p) in Hn]). destruct (proj1 (pos_elem _ _) Ho') as [k Hk].
      wp_step. eapply (wp_num_outputs order es back c o' k p); [done..|]. intros v Hv. destruct (Z.leb_spec (zlength (output_types_ v)) (input_id s).2) as [Hle|Hlt].
      * apply wp_ret, Herr; [done|]. intros Hval. pose proof (edge_here gdef _ _ _ _ Hin) as He. destruct (v_edges _ _ Hval _ _ He) as [Hc|(v' & w' & so & si & Hv' & _ & Hso & _)].
        -- cbn in Hc. rewrite Hsl in Hc. unfold kControlSlot, zlength in *. lia.
        -- rewrite (edge_src gdef _ _ _ _ Hs) in Hv'. destruct Hv as (d1 & Hd1 & Hm1), Hv' as (d2 & Hd2 & Hm2). assert (v' = v) as -> by congruence. cbn in Hso. rewrite Hsl in Hso. apply zlookup_range in Hso. lia.
      * apply (IH (pre ++ [s])); [done|by rewrite Hflag'| |done]. intros infos Hinfos Hc. assert (Hpd : existsb (pending_data order) (s :: ss) = existsb (pending_data order) ss).
        { cbn. unfold pending_data at 1. by rewrite Ec, Hcf, bool_decide_eq_true_2. }
        rewrite <- Hpd. apply Hnext; [|done|done]. split; [done|]. split; [done|]. exists o'. split; [done|]. split; [done|]. intros _ _ v' Hv'. rewrite Hsl. destruct Hv as (d1 & Hd1 & Hm1), Hv' as (d2 & Hd2 & Hm2). by assert (v' = v) as -> by congruence.
Qed.
(** ** The node *)

Lemma made_status (d : NodeDef) : ok (made d OK).2 = match (made d OK).1 with Some _ => true | None => false end.
Proof.
  unfold made. pose proof (registry_found (def_op d)) as Hf. destruct (LookUpOpDef (def_op d)) as [st [op|]]; cbn [fst snd] in Hf; unfold Update; change (ok OK) with true; cbv iota.
  - destruct (ok st) eqn:E; cbv iota; [|exact E]. destruct (InOutTypesForNode d op) as [st' [i o]]. rewrite ?E. destruct (ok st') eqn:E'; [exact E'|]. by apply registry_attach.
  - destruct (ok st) eqn:E; cbv iota; [|exact E]. by destruct (Hf eq_refl).
Qed.
Lemma place_app order order' es : (forall e, e ∈ es -> e_src e ∈ order /\ e_dst e ∈ order) -> map (place (order ++ order')) es = map (place order) es.
Proof. intros He. apply map_ext_in. intros e [Hs Hd]%list_elem_of_In%He. unfold GraphConstructorSpec.place. by rewrite !id_of_app. Qed.
Lemma made_nodes_snoc order vs o v : made_nodes opts ds first order vs -> made_node opts ds o (first + zlength order) v -> made_nodes opts ds first (order ++ [o]) (vs ++ [v]).
Proof.
  intros [Hlen Hvs] Hv. split; [rewrite !length_app; cbn; lia|]. intros k o'. assert (Hz : zlength vs = zlength order) by (unfold zlength; lia). rewrite !zlookup_app_one, Hz. case_decide as Hk; [intros [= <-]; subst k; by exists v|apply Hvs].
Qed.
Lemma put_added v v' a : put_node (a_next_node a) v' (add_node v a) = add_node v' a.
Proof. unfold put_node, add_node. cbn. by rewrite insert_insert_eq. Qed.
Lemma wp_MakeNode o d order es back c (Q : Status * Z -> Constructor -> Prop) : graph_inv order es back c -> ds !!z o = Some d -> room (first + zlength order) ->
  (forall p g', (exists vs, made_nodes opts ds first (order ++ [o]) vs /\ rep g' (grow vs (map (place (order ++ [o])) es) a0)) -> at_ (nodes_ g') (first + zlength order) = Some p ->
     keeps (g_ c) g' -> (exists v, props ds o v) -> Q (OK, p) (set_graph g' c)) ->
  (forall st, ok st = false -> ~ valid -> Q (st, 0) c) -> wp (MakeNode addr opts d) c Q.
Proof.
  intros H Hd Hroom HQ Herr. destruct (g_rep _ _ _ _ _ _ _ _ H) as (vs & Hvs & Hrep). set (a := grow vs (map (place order) es) a0) in *.
  destruct (grow_next vs (map (place order) es) a0) as (Hn & _ & _). fold a in Hn. assert (Hz : zlength vs = zlength order) by (unfold zlength; f_equal; apply Hvs). rewrite Hz in Hn.
  unfold MakeNode. wp_step. apply wp_on_graph. apply (wp_AddNode addr _ a d OK); [done|by rewrite Hn|]. pose proof (made_status d) as Hok. destruct (made d OK) as [[v|] st] eqn:Em; cbn [fst snd] in Hok.
  - intros p g' H' Hp Hk. cbv beta iota. rewrite Hok. cbn [negb].
    assert (Hfin : forall g2, nodes_ g2 = nodes_ g' -> rep g2 (add_node (mkANode v (a_next_node a) (if expect_device_spec opts then def_device d else [])) a) -> Q (OK, p) (set_graph g2 c)).
    { intros g2 Hg2 H2. assert (Hps : props ds o v) by (exists d; by rewrite Em). apply HQ; [|by rewrite Hg2, <- Hn|by unfold keeps; rewrite Hg2|by exists v]. eexists. split; [|rewrite place_app by apply (g_ends _ _ _ _ _ _ _ _ H); rewrite grow_node; exact H2].
      apply made_nodes_snoc; [done|]. rewrite Hn. exists d, v. by rewrite Em. }
    wp_step. destruct (expect_device_spec opts).
    + apply wp_on_graph. cbn [g_ set_graph]. eapply (wp_set_device addr g' _ (a_next_node a)); [exact H'|exact Hp|by apply lookup_insert_eq|]. intros g2 H2 Hg2. wp_step. rewrite put_added in H2. by apply Hfin.
    + wp_step. wp_step. by apply Hfin.
  - cbv beta iota. rewrite Hok. cbn [negb]. apply wp_ret. destruct c. apply Herr; [done|]. intros Hv. destruct (v_ops _ _ Hv o) as (v & d' & Hd' & Hm); [by eapply zlookup_range|]. rewrite Hd in Hd'. injection Hd' as <-. by rewrite Em in Hm.
Qed.
(** ** The invariant of the conversion *)

Context (v0 : VersionDef) (Hroom_n : room (first + zlength ds)) (Hroom_e : room (a_next_edge a0 + zlength (all_edges ds))) (Hnext : 0 <= a_next_edge a0).
Context (Hu : NoDup (map def_name ds)) (Hsrc : forall o s, s ∈ inputs o -> is_Some (source s)).
Abbreviation edges_for := (edges_for ds).
Abbreviation is_ready := (is_ready gdef).
Abbreviation mult := (mult gdef).
Record inv (order : list Z) (es back : list AEdge) c : Prop := mkInv {
  i_graph : graph_inv order es back c;
  i_versions : g_versions c = v0;
  i_edges : es ++ back ≡ₚ flat_map edges_for order;
  i_ok : Forall (edge_ok ds) es;
  i_back : forall e, e ∈ back -> exists d, ds !!z e_dst e = Some d /\ IsMerge d = true;
  i_controls : forall o, o ∈ order -> controls_last (inputs o) = true;
  i_before : forall l1 o l2, order = l1 ++ o :: l2 -> is_ready l1 o;
  i_outs : zlength (outputs_ c) = zlength ds /\ forall o n, 0 <= o < zlength ds -> cnt (outputs_ c) o n = mult o n;
  i_pending : forall n, pending_count_ c !!z n = (fun _ => need n - got order n) <$> ds !!z n;
  i_nodup : NoDup (order ++ ready_ c);
  i_ready : forall o, o ∈ order ++ ready_ c <-> 0 <= o < zlength ds /\ is_ready order o
}.

Lemma edges_from_length o k ss : zlength (edges_from ds o k ss) = zlength ss.
Proof. unfold zlength. revert k. induction ss as [|s ss IH]; intros k; [done|]. cbn [edges_from length]. specialize (IH (k + 1)). lia. Qed.
Lemma edges_within order : NoDup order -> (forall o, o ∈ order -> 0 <= o < zlength ds) -> zlength (flat_map edges_for order) <= zlength (all_edges ds).
Proof.
  intros Hnd Hr. assert (Hsub : order ⊆+ seqZ 0 (zlength ds)) by (apply NoDup_submseteq; [done|]; intros o Ho; apply elem_of_seqZ; specialize (Hr o Ho); lia).
  apply submseteq_Permutation in Hsub as [rest Hrest]. unfold all_edges. rewrite Hrest, flat_map_app, zlength_app. unfold zlength. lia.
Qed.
Lemma inputs_bound o : zlength (inputs o) <= zlength (all_edges ds).
Proof.
  destruct (ds !!z o) as [d|] eqn:Hd; [|unfold GraphConstructorSpec.inputs; rewrite Hd; unfold zlength; cbn; lia]. pose proof (zlookup_range _ _ _ Hd).
  pose proof (edges_within [o]) as H1. cbn [flat_map] in H1. rewrite app_nil_r in H1. unfold GraphConstructorSpec.edges_for in H1. rewrite edges_from_length in H1. apply H1; [apply NoDup_singleton|]. by intros o' ->%list_elem_of_singleton.
Qed.
Lemma need_bound o : 0 <= need o <= zlength (all_edges ds) + 1.
Proof.
  pose proof (inputs_bound o) as Hb. unfold GraphConstructorSpec.need, room in *. destruct (ds !!z o) as [d|] eqn:Hd; cbn; [|unfold zlength; lia]. rewrite (inputs_at _ _ _ Hd) in Hb.
  pose proof (filter_count_le is_control_name (def_input d)). unfold initial_pending. destruct (IsMerge d); rewrite s32_id; unfold zlength in *; lia.
Qed.
Lemma need_all o d : ds !!z o = Some d -> IsMerge d = false -> need o = zlength (inputs o).
Proof.
  intros Hd Hm. pose proof (inputs_bound o) as Hb. unfold room in *. rewrite (inputs_at _ _ _ Hd) in *. unfold GraphConstructorSpec.need. rewrite Hd. cbn. unfold initial_pending. rewrite Hm, s32_id; unfold zlength in *; lia.
Qed.
Lemma mult_range o n : 0 < mult o n -> 0 <= n < zlength ds.
Proof. unfold GraphConstructorFacts.mult, GraphConstructorSpec.inputs. destruct (ds !!z n) eqn:E; [intros _; by eapply zlookup_range|]. unfold zlength. cbn. lia. Qed.
Lemma ready_mono order o n : is_ready order n -> is_ready (order ++ [o]) n.
Proof. intros [?|Hn]; [by left|right]. etransitivity; [exact Hn|]. apply got_mono. intros o' Ho'. apply elem_of_app. by left. Qed.
(** A definition that is not a merge is ready when all its inputs are
    converted. *)
Lemma ready_inputs order o d : ds !!z o = Some d -> IsMerge d = false -> is_ready order o -> existsb (pending_data order) (inputs o) = false.
Proof.
  intros Hd Hm Hr. apply not_true_is_false. intros (s & Hs%list_elem_of_In & [_ Hc]%andb_prop)%existsb_exists. apply negb_true_iff in Hc. destruct Hr as [Hnil|Hn]; [rewrite Hnil in Hs; by apply elem_of_nil in Hs|].
  rewrite (need_all _ _ Hd Hm) in Hn. pose proof (got_le gdef order o). unfold GraphConstructorSpec.got in *. rewrite (filter_count_all (comes_from ds order) (inputs o)) in Hc; [done|lia|done].
Qed.

Lemma graph_inv_frame order es back c c' : graph_inv order es back c -> g_ c' = g_ c -> name_index_ c' = name_index_ c -> back_edges_ c' = back_edges_ c -> graph_inv order es back c'.
Proof. intros [H1 H2 H3 H4 H5 H6 H7] Eg En Eb. split; rewrite ?Eg, ?En, ?Eb; done. Qed.
Lemma undoable_frame c c' : undoable c -> g_ c' = g_ c -> name_index_ c' = name_index_ c -> undoable c'.
Proof. unfold GraphConstructorEdges.undoable. by intros H -> ->. Qed.
Lemma ptr_keeps order g g' o o' p : o' <> o -> keeps g g' -> ptr_ok order g o' p -> ptr_ok (order ++ [o]) g' o' p.
Proof. intros Hne Hk. unfold GraphConstructorEdges.ptr_ok. rewrite pos_snoc_other by done. destruct (pos order o'); [apply Hk|done]. Qed.
Lemma inv_node order es back c o d g' p : graph_inv order es back c -> o ∉ order -> ds !!z o = Some d ->
  (exists vs, made_nodes opts ds first (order ++ [o]) vs /\ rep g' (grow vs (map (place (order ++ [o])) es) a0)) -> at_ (nodes_ g') (first + zlength order) = Some p -> keeps (g_ c) g' ->
  graph_inv (order ++ [o]) es back (set_name_index (<[def_name d := (o, p)]> (name_index_ c)) (set_graph g' c)).
Proof.
  intros [H1 H2 H3 H4 H5 H6 H7] Ho Hd Hrep Hp Hk. pose proof (index_in_unique gdef _ _ Hu Hd) as Hi. pose proof (zlookup_range _ _ _ Hd) as Hr. split; cbn [g_ name_index_ back_edges_ set_name_index set_graph].
  - done.
  - apply NoDup_app. split; [done|]. split; [|apply NoDup_singleton]. by intros o' Ho' ->%list_elem_of_singleton.
  - intros o' [Ho'|Ho'%list_elem_of_singleton]%elem_of_app; [by apply H3|by subst o'].
  - intros nm o' p' [[<- [= <- <-]]|[Hne Hnm]]%lookup_insert_Some.
    + split; [done|]. unfold GraphConstructorEdges.ptr_ok. by rewrite pos_snoc.
    + destruct (H4 _ _ _ Hnm) as [Hi' Hp']. split; [done|]. apply (ptr_keeps order (g_ c)); [|done|done]. intros ->. apply Hne. by eapply index_in_named.
  - intros nm o' Hi'. rewrite lookup_insert_is_Some'. right. by eapply H5.
  - intros e [Hs Hd']%H6. rewrite !elem_of_app. split; by left.
  - eapply Forall2_impl; [exact H7|]. intros b e (Hb1 & Hb2 & Hb3 & Hb4 & Hb5). split; [done|]. split; [done|]. split; [apply elem_of_app; by left|]. split; [|done]. apply (ptr_keeps order (g_ c)); [|done|done]. intros Heq. by rewrite Heq in Hb3.
Qed.
(** ** One definition *)

Definition outs_of c (o : Z) : list Z := default [] (outputs_ c !!z o).
Lemma count_elem n l : n ∈ l -> 0 < count n l.
Proof. intros Hn. induction l as [|m l IH]; [by apply elem_of_nil in Hn|]. rewrite count_cons. pose proof (count_nonneg n l). apply elem_of_cons in Hn as [->|Hn]; [rewrite Z.eqb_refl; lia|]. specialize (IH Hn). destruct (m =? n); lia. Qed.
(** The counts and the stack after a conversion. *)
Lemma sched_step order es back c o ready' p new : inv order es back c -> ready_ c = o :: ready' -> (forall n, p !!z n = (fun k => k - mult o n) <$> pending_count_ c !!z n) -> NoDup new ->
  (forall n, n ∈ new <-> exists k, pending_count_ c !!z n = Some k /\ 0 < k /\ k - mult o n <= 0) ->
  (forall n, p !!z n = (fun _ => need n - got (order ++ [o]) n) <$> ds !!z n) /\ NoDup ((order ++ [o]) ++ new ++ ready') /\
  (forall n, n ∈ (order ++ [o]) ++ new ++ ready' <-> 0 <= n < zlength ds /\ is_ready (order ++ [o]) n).
Proof.
  intros H Hready Hp Hnd Hnew. pose proof (i_nodup _ _ _ _ H) as Hnd0. pose proof (i_ready _ _ _ _ H) as Hr0. rewrite Hready in Hnd0, Hr0.
  assert (Ho : o ∉ order) by (intros Ho; apply NoDup_app in Hnd0 as (_ & Hno & _); apply (Hno o Ho); by left).
  assert (Hadd : forall n, n ∈ new <-> 0 <= n < zlength ds /\ 0 < need n - got order n /\ need n <= got (order ++ [o]) n).
  { intros n. rewrite Hnew, (i_pending _ _ _ _ H). split.
    - intros (k & Hk & Hpos & Hle). destruct (ds !!z n) eqn:Hd; [|done]. injection Hk as <-. pose proof (zlookup_range _ _ _ Hd). rewrite got_snoc by done. lia.
    - intros (Hr & Hpos & Hle). destruct (range_lookup _ _ Hr) as [d Hd]. rewrite Hd. cbn. rewrite got_snoc in Hle by done. exists (need n - got order n). split; [done|lia]. }
  assert (Hfresh : forall n, n ∈ new -> n ∉ order ++ o :: ready').
  { intros n (Hr & Hpos & Hle)%Hadd [_ [Hnil|Hn]]%Hr0; [|lia]. pose proof (got_le gdef (order ++ [o]) n) as Hg. rewrite Hnil in Hg. pose proof (got_le gdef order n). change (zlength []) with 0 in Hg. lia. }
  assert (Hmid : (order ++ [o]) ++ new ++ ready' ≡ₚ new ++ order ++ o :: ready') by (rewrite (cons_middle o order ready'), !app_assoc; apply Permutation_app_tail; rewrite <- (app_assoc new); apply Permutation_app_comm).
  split; [|split].
  - intros n. rewrite Hp, (i_pending _ _ _ _ H), got_snoc by done. destruct (ds !!z n); cbn; [f_equal; lia|done].
  - rewrite Hmid. apply NoDup_app. done.
  - intros n. rewrite Hmid, elem_of_app, Hr0, Hadd. split.
    + intros [(? & ? & ?)|[? Hn]]; (split; [done|]); [by right|by apply ready_mono].
    + intros [Hr [Hnil|Hn]]; [right; split; [done|by left]|]. destruct (Z.le_gt_cases (need n) (got order n)); [right; split; [done|by right]|left]. split; [done|lia].
Qed.
Lemma info_keeps order g g' x s : keeps g g' -> info_ok order g x s -> info_ok order g' x s.
Proof.
  intros Hk (H1 & H2 & o' & Hs & Hp & Hr). split; [done|]. split; [done|]. exists o'. split; [done|]. split; [|done]. unfold GraphConstructorEdges.ptr_ok in *. destruct (pos order o'); [by apply Hk|done].
Qed.
Lemma in_range_snoc order o : (forall o, o ∈ order -> 0 <= o < zlength ds) -> 0 <= o < zlength ds -> forall o', o' ∈ order ++ [o] -> 0 <= o' < zlength ds.
Proof. intros Hr Ho o' [Ho'|Ho'%list_elem_of_singleton]%elem_of_app; [by apply Hr|by subst o']. Qed.
Lemma NoDup_snoc (order : list Z) o : NoDup order -> o ∉ order -> NoDup (order ++ [o]).
Proof. intros Hnd Ho. apply NoDup_app. split; [done|]. split; [|apply NoDup_singleton]. by intros o' Ho' ->%list_elem_of_singleton. Qed.
Lemma room_for_node order o : NoDup order -> (forall o, o ∈ order -> 0 <= o < zlength ds) -> o ∉ order -> 0 <= o < zlength ds -> zlength order < zlength ds.
Proof.
  intros Hnd Hr Ho Hor. pose proof (order_length gdef (order ++ [o]) (NoDup_snoc _ _ Hnd Ho) (in_range_snoc _ _ Hr Hor)) as Hl. rewrite zlength_app in Hl. change (zlength [o]) with 1 in Hl. lia.
Qed.
Lemma room_for_edges order es back c o : inv order es back c -> o ∉ order -> 0 <= o < zlength ds -> zlength es + zlength (inputs o) <= zlength (all_edges ds).
Proof.
  intros H Ho Hor. pose proof (i_graph _ _ _ _ H) as Hg. pose proof (Permutation_length (i_edges _ _ _ _ H)) as Hlen. rewrite length_app in Hlen.
  pose proof (edges_within (order ++ [o]) (NoDup_snoc _ _ (g_nodup _ _ _ _ _ _ _ _ Hg) Ho) (in_range_snoc _ _ (g_range _ _ _ _ _ _ _ _ Hg) Hor)) as Hwi.
  rewrite flat_map_app in Hwi. cbn [flat_map] in Hwi. rewrite app_nil_r, zlength_app in Hwi. unfold GraphConstructorSpec.edges_for at 2 in Hwi. rewrite edges_from_length in Hwi. unfold zlength in *. lia.
Qed.
Lemma entry_of order es back c o d : graph_inv order es back c -> ds !!z o = Some d -> o ∉ order -> default (-1, 0) (name_index_ c !! def_name d) = (o, 0).
Proof.
  intros Hg Hd Ho. pose proof (index_in_unique gdef _ _ Hu Hd) as Hi. destruct (g_named _ _ _ _ _ _ _ _ Hg _ _ Hi) as [[o' p'] Hn]. rewrite Hn. destruct (g_names _ _ _ _ _ _ _ _ Hg _ _ _ Hn) as [Hi' Hp']. assert (o' = o) as -> by congruence.
  cbn. f_equal. by apply (ptr_null a0 order (g_ c) o p').
Qed.
(** Only merges have inputs that are not converted. *)
Lemma no_back order o d nback new k : ds !!z o = Some d -> is_ready order o -> new ++ nback ≡ₚ edges_from ds o k (inputs o) -> Forall (fun e => e_src e ∉ order) nback -> forall e, e ∈ nback -> e_dst e = o /\ IsMerge d = true.
Proof.
  intros Hd Hr Hperm Hnb e He. assert (Hin : e ∈ edges_from ds o k (inputs o)) by (rewrite <- Hperm; apply elem_of_app; by right). apply edges_from_elem in Hin as (i & s & _ & Hs & ->). split; [done|].
  destruct (IsMerge d) eqn:Em; [done|]. rewrite Forall_forall in Hnb. specialize (Hnb _ He). destruct Hr as [Hnil|Hn]; [rewrite Hnil in Hs; by apply elem_of_nil in Hs|].
  rewrite (need_all _ _ Hd Em) in Hn. pose proof (got_le gdef order o). assert (Hc : comes_from ds order s = true) by (apply (filter_count_all _ (inputs o)); [unfold GraphConstructorSpec.got in *; lia|done]).
  unfold comes_from in Hc. destruct (source s) as [o'|] eqn:Es; [|done]. apply bool_decide_eq_true in Hc. by rewrite (edge_src gdef _ _ _ _ Es) in Hnb.
Qed.
Lemma wp_convert_node order es back c o ready' (Q : Status -> Constructor -> Prop) : inv order es back c -> ready_ c = o :: ready' ->
  (forall c' es' back', inv (order ++ [o]) es' back' c' -> Q OK c') -> (forall st c', ok st = false -> ~ valid -> undoable c' -> g_versions c' = v0 -> Q st c') -> wp (convert_node addr opts gdef o) (set_ready ready' c) Q.
Proof.
  intros H Hready HQ Herr. pose proof (i_nodup _ _ _ _ H) as Hnd. pose proof (i_ready _ _ _ _ H) as Hr. rewrite Hready in Hnd, Hr.
  assert (Ho : o ∉ order) by (intros Ho; apply NoDup_app in Hnd as (_ & Hno & _); apply (Hno o Ho); by left).
  destruct (proj1 (Hr o)) as [Hor Hoready]; [apply elem_of_app; right; by left|]. destruct (range_lookup _ _ Hor) as [d Hd]. pose proof (inputs_at gdef _ _ Hd) as Hin.
  pose proof (i_graph _ _ _ _ H) as Hg. assert (Hg1 : graph_inv order es back (set_ready ready' c)) by by apply (graph_inv_frame order es back c).
  assert (Hund : undoable (set_ready ready' c)) by by eapply undo_inv.
  unfold convert_node. wp_step. eapply wp_opt; [exact Hd|]. rewrite <- Hin. wp_step.
  eapply (wp_collect_inputs o d order es back (set_ready ready' c) (inputs o) Hg1 (Hsrc o) []); [done|done| |].
  2:{ intros st [infos hb] Hst Hv. rewrite Hst. cbn [negb]. apply wp_ret. apply Herr; [done..|apply (i_versions _ _ _ _ H)]. }
  cbn [existsb app orb]. intros infos Hinfos Hctl. change (ok OK) with true. cbn [negb]. destruct (existsb (pending_data order) (inputs o) && negb (IsMerge d)) eqn:Eb.
  { apply andb_prop in Eb as [Eb Em%negb_true_iff]. by rewrite (ready_inputs order o d) in Eb. }
  pose proof (room_for_edges order es back c o H Ho Hor) as Hsize. pose proof (room_for_node order o (g_nodup _ _ _ _ _ _ _ _ Hg) (g_range _ _ _ _ _ _ _ _ Hg) Ho Hor) as Hzo.
  wp_step. eapply (wp_MakeNode o d order es back _ _ Hg1 Hd); [unfold room in *; lia| |].
  2:{ intros st Hst Hv. rewrite Hst. cbn [negb]. apply wp_ret. apply Herr; [done..|apply (i_versions _ _ _ _ H)]. }
  intros p g' Hrep Hp Hkeep [v Hv]. change (ok OK) with true. cbn [negb]. wp_step. wp_step. wp_step. wp_step.
  pose proof (entry_of order es back c o d Hg Hd Ho) as Hnm.
  cbn [name_index_ set_graph set_ready]. rewrite Hnm. cbn [fst].
  pose proof (inv_node _ _ _ _ _ _ _ _ Hg1 Ho Hd Hrep Hp Hkeep) as Hg2. cbn [name_index_ set_ready] in Hg2. set (c2 := set_name_index _ _) in *.
  apply wp_and_then. eapply (wp_add_edges addr opts gdef a0 Hends Hfirst Hw order o p (inputs o) Ho infos [] c2 es back); [done|exact Hg2| | |unfold room in *; lia|done| |].
  - unfold GraphConstructorEdges.ptr_ok. by rewrite pos_snoc.
  - eapply Forall2_impl; [exact Hinfos|]. intros x s. by apply info_keeps.
  - intros g2 bs new nback Hg3 Hperm Hok Hnb. change (ok OK) with true. cbv iota. wp_step. wp_step. wp_step. pose proof (i_outs _ _ _ _ H) as [Holen Hocnt].
    destruct (range_lookup (outputs_ c) o) as [lst Hlst]; [by rewrite Holen|]. assert (Hcnt : forall n, count n lst = mult o n) by (intros n; rewrite <- Hocnt by done; unfold cnt; by rewrite Hlst).
    eapply wp_opt; [exact Hlst|]. wp_step. apply wp_count_down; cbn [pending_count_ set_back_edges set_graph set_name_index set_ready c2].
    + intros n Hn%count_elem. rewrite Hcnt in Hn. apply mult_range in Hn. rewrite (i_pending _ _ _ _ H). destruct (range_lookup _ _ Hn) as [dn ->]. by eexists.
    + intros n k. rewrite (i_pending _ _ _ _ H), Hcnt. destruct (ds !!z n) eqn:Hdn; [|done]. intros [= <-]. pose proof (need_bound n). pose proof (got_le gdef (order ++ [o]) n) as Hg4. rewrite got_snoc in Hg4 by done. pose proof (inputs_bound n).
      pose proof (got_le gdef order n). pose proof (count_nonneg n lst) as Hc0. rewrite Hcnt in Hc0. unfold room in *. lia.
    + intros pend new' Hplen Hpend Hnd' Hnew'. wp_step. eapply (HQ _ (es ++ new) (back ++ nback)).
      destruct (sched_step order es back c o ready' pend new' H Hready) as (Hs1 & Hs2 & Hs3); [intros n; rewrite Hpend; by rewrite Hcnt|done|intros n; rewrite Hnew'; unfold reached; cbn; by setoid_rewrite Hcnt|].
      split; cbn [g_versions outputs_ pending_count_ ready_ set_pending set_ready set_back_edges set_graph set_name_index c2].
      * by eapply graph_inv_frame.
      * apply (i_versions _ _ _ _ H).
      * rewrite flat_map_app. cbn [flat_map]. rewrite app_nil_r. unfold GraphConstructorSpec.edges_for at 2. change (zlength []) with 0 in Hperm. rewrite <- Hperm, <- (i_edges _ _ _ _ H), <- !app_assoc. apply Permutation_app_head. rewrite !app_assoc. apply Permutation_app_tail, Permutation_app_comm.
      * apply Forall_app. split; [apply (i_ok _ _ _ _ H)|done].
      * intros e [He|He]%elem_of_app; [by apply (i_back _ _ _ _ H)|]. destruct (no_back order o d nback new _ Hd Hoready Hperm Hnb e He) as [-> Hm]. by exists d.
      * intros o' [Ho'|Ho'%list_elem_of_singleton]%elem_of_app; [by apply (i_controls _ _ _ _ H)|by subst o'].
      * intros l1 o' l2 [(-> & -> & _)|(l2' & _ & E)]%snoc_split; [done|by eapply (i_before _ _ _ _ H)].
      * done.
      * done.
      * done.
      * done.
  - intros st g2 bs Hst Hval Hun. rewrite Hst. apply Herr; [done|done|exact Hun|apply (i_versions _ _ _ _ H)].
Qed.
End Loop.
End GraphConstructorLoop.
