(* ===== verification/GraphConstructorRun.v ===== *)
(** * Graph construction: from the first definition to the last edge, and back *)
From S2P Require Import Prelude StringPiece Status Numbers DataTypes EdgeSet Graph GraphFacts GraphOps GraphPasses GraphConstructor GraphConstructorSpec GraphConstructorEdges GraphConstructorLoop.
From stdpp Require Import gmap.
Open Scope Z_scope.

Module GraphConstructorRun.
Import Status Graph GraphSpec GraphFacts GraphOps GraphRun GraphPasses GraphConstructor GraphConstructorSpec GraphConstructorFacts GraphConstructorEdges GraphConstructorLoop.

Section Run.
Context {OpDef AttrValue : Type} {registry : OpRegistryInterface OpDef AttrValue} {laws : OpRegistryLaws OpDef AttrValue registry}.
Context (addr : nat -> Z) {Haddr : addresses addr}.
Context (opts : Options) (gdef : GraphDef (AttrValue := AttrValue)).
Abbreviation NodeDef := (NodeDef AttrValue).
Abbreviation Graph := (Graph OpDef AttrValue).
Abbreviation AGraph := (AGraph OpDef AttrValue).
Abbreviation ANode := (ANode OpDef AttrValue).
Abbreviation Constructor := (Constructor (OpDef := OpDef) (AttrValue := AttrValue)).
Abbreviation rep := (rep addr).
Abbreviation ds := (node gdef).
Abbreviation source := (source ds).
Abbreviation inputs := (inputs ds).
Abbreviation need := (need ds).
Abbreviation got := (got ds).
Abbreviation valid := (valid opts ds).
Abbreviation edges_for := (edges_for ds).
Implicit Types (g : Graph) (c : Constructor) (a : AGraph) (s : list Z).
Context (a0 : AGraph).
Abbreviation first := (a_next_node a0).
Abbreviation place := (place first).
Abbreviation graph_inv := (graph_inv addr opts gdef a0).
Abbreviation undoable := (undoable addr gdef a0).
Abbreviation ptr_ok := (ptr_ok a0).
Context (Hends : has_ends a0) (Hfirst : 2 <= first) (Hw : wired ds).
Context (v0 : VersionDef) (Hroom_n : room (first + zlength ds)) (Hroom_e : room (a_next_edge a0 + zlength (all_edges ds))) (Hnext : 0 <= a_next_edge a0).

(** ** All definitions *)

Section Convert.
Context (Hu : NoDup (map def_name ds)) (Hsrc : forall o s, s ∈ inputs o -> is_Some (source s)).
Abbreviation inv := (inv addr opts gdef a0 v0).

Lemma wp_convert_loop fuel : forall order es back c processed (Q : Status * Z -> Constructor -> Prop), inv order es back c -> processed = zlength order -> zlength ds - zlength order < Z.of_nat fuel ->
  (forall order es back c', inv order es back c' -> ready_ c' = [] -> Q (OK, zlength order) c') ->
  (forall st k c', ok st = false -> ~ valid -> undoable c' -> g_versions c' = v0 -> Q (st, k) c') -> wp (convert_loop addr opts gdef fuel processed) c Q.
Proof.
  induction fuel as [|fuel IH]; intros order es back c processed Q H -> Hfuel HQ Herr; pose proof (i_graph _ _ _ _ _ _ _ _ _ H) as Hg;
    pose proof (order_length gdef order (g_nodup _ _ _ _ _ _ _ _ Hg) (g_range _ _ _ _ _ _ _ _ Hg)) as Hlen; [lia|].
  cbn [convert_loop]. wp_step. wp_step. destruct (ready_ c) as [|o ready'] eqn:Er; [apply wp_ret; by eapply HQ|].
  assert (Hs : s32 (zlength order + 1) = zlength order + 1) by (apply s32_id; unfold room, zlength in *; lia).
  wp_step. wp_step. wp_step. eapply (wp_convert_node addr opts gdef a0 Hends Hfirst Hw v0 Hroom_n Hroom_e Hnext Hu Hsrc order es back); [exact H|done| |].
  - intros c' es' back' H'. change (ok OK) with true. cbv iota. eapply (IH (order ++ [o])); [exact H'| | |done|done].
    + rewrite Hs, zlength_app. done.
    + rewrite zlength_app. change (zlength [o]) with 1. lia.
  - intros st c' Hst Hv Hun Hver. rewrite Hst. apply wp_ret. by apply Herr.
Qed.
(** With no definition ready, those that are left are in a cycle. *)
Lemma all_converted order es back c : inv order es back c -> ready_ c = [] -> valid -> forall o, 0 <= o < zlength ds -> o ∈ order.
Proof.
  intros H Hr Hv. destruct (v_order _ _ Hv) as [rank Hrank]. assert (Hgo : forall n o, (rank o < n)%nat -> 0 <= o < zlength ds -> o ∈ order); [|intros o; by apply (Hgo (S (rank o))); lia].
  induction n as [|n IH]; intros o Hn Ho; [lia|]. pose proof (i_ready _ _ _ _ _ _ _ _ _ H o) as Hready. rewrite Hr, app_nil_r in Hready. apply Hready. split; [done|]. destruct (decide (inputs o = [])) as [?|Hne]; [by left|right].
  destruct (Hrank o Ho Hne) as (before & Hb & Hgot). etransitivity; [exact Hgot|]. apply filter_count_mono. intros s. unfold comes_from. destruct (source s) as [o'|] eqn:Es; [|done].
  rewrite !bool_decide_eq_true. intros Ho'. apply IH; [specialize (Hb o' Ho'); lia|by eapply source_range].
Qed.
Lemma full_order order : NoDup order -> (forall o, o ∈ order -> 0 <= o < zlength ds) -> zlength ds <= zlength order -> order ≡ₚ seqZ 0 (zlength ds).
Proof.
  intros Hnd Hr Hlen. apply submseteq_length_Permutation.
  - apply NoDup_submseteq; [done|]. intros o Ho%Hr. apply elem_of_seqZ. lia.
  - rewrite length_seqZ. unfold zlength in *. lia.
Qed.
Lemma wp_Convert c (Q : Status -> Constructor -> Prop) : inv [] [] [] c ->
  (forall order es back c', inv order es back c' -> order ≡ₚ seqZ 0 (zlength ds) -> Q OK c') ->
  (forall st c', ok st = false -> ~ valid -> undoable c' -> g_versions c' = v0 -> Q st c') -> wp (Convert addr opts gdef) c Q.
Proof.
  intros H HQ Herr. unfold Convert. wp_step. eapply (wp_convert_loop (S (length ds)) [] [] []); [exact H|done|change (zlength []) with 0; unfold zlength; lia| |].
  - intros order es back c' H' Hr. pose proof (i_graph _ _ _ _ _ _ _ _ _ H') as Hg. pose proof (order_length gdef order (g_nodup _ _ _ _ _ _ _ _ Hg) (g_range _ _ _ _ _ _ _ _ Hg)) as Hlen.
    change (ok OK) with true. cbn [negb]. rewrite s32_id by (unfold room, zlength in *; lia). destruct (Z.ltb_spec (zlength order) (zlength ds)) as [Hlt|Hge].
    + apply wp_ret, Herr; [done| |by eapply undo_inv|apply (i_versions _ _ _ _ _ _ _ _ _ H')]. intros Hv. assert (Hsub : seqZ 0 (zlength ds) ⊆+ order).
      { apply NoDup_submseteq; [apply NoDup_seqZ|]. intros o Ho%elem_of_seqZ. eapply (all_converted _ _ _ _ H'); [done|done|lia]. }
      apply submseteq_length in Hsub. rewrite length_seqZ in Hsub. unfold zlength in *. lia.
    + apply wp_ret. eapply HQ; [exact H'|]. apply full_order; [apply (g_nodup _ _ _ _ _ _ _ _ Hg)|apply (g_range _ _ _ _ _ _ _ _ Hg)|done].
  - intros st k c' Hst Hv Hun Hver. rewrite Hst. cbn [negb]. apply wp_ret. by apply Herr.
Qed.

(** ** The back edges *)

Definition back_edge (e : AEdge) : Prop := e ∈ edges_for (e_dst e) /\ exists d, ds !!z e_dst e = Some d /\ IsMerge d = true.
Lemma wp_back_loop order back0 bs : forall back es c (Q : Status -> Constructor -> Prop), graph_inv order es back0 c -> Forall2 (back_ok gdef a0 order (g_ c)) bs back -> (forall o, 0 <= o < zlength ds -> o ∈ order) ->
  Forall back_edge back -> room (a_next_edge a0 + zlength es + zlength back) ->
  (forall g', graph_inv order (es ++ back) back0 (set_graph g' c) -> Forall (edge_ok ds) back -> Q OK (set_graph g' c)) ->
  (forall st g', ok st = false -> ~ valid -> undoable (set_graph g' c) -> Q st (set_graph g' c)) -> wp (back_loop addr bs) c Q.
Proof.
  induction bs as [|b bs IH]; intros back es c Q H Hbs Hall Hback Hroom HQ Herr.
  { apply Forall2_nil_inv_l in Hbs as ->. apply wp_ret. specialize (HQ (g_ c)). rewrite app_nil_r in HQ. destruct c. by apply HQ. }
  apply Forall2_cons_inv_l in Hbs as (e & back' & (Hi & Hx & Hd & Hp & Hy) & Hbs & ->). apply Forall_cons in Hback as [(He & d & Hds & Hm) Hback]. cbn [back_loop].
  destruct (g_named _ _ _ _ _ _ _ _ H _ _ Hi) as [[o p] Hn]. destruct (g_names _ _ _ _ _ _ _ _ H _ _ _ Hn) as [Hi' Hps]. assert (o = e_src e) as -> by congruence.
  wp_step. wp_step. wp_step. eapply wp_opt; [exact Hn|]. cbv beta iota. assert (Hs : e_src e ∈ order) by (apply Hall; destruct (index_in_Some _ _ _ Hi) as (d' & Hd' & _); by eapply zlookup_range).
  destruct (proj1 (pos_elem _ _) Hs) as [j Hj], (proj1 (pos_elem _ _) Hd) as [k Hk]. pose proof He as (i & s & Hi0 & Hs' & Heq)%edges_from_elem. apply wp_edge_then, wp_and_then. rewrite Hx.
  assert (Hy' : e_out e = kControlSlot \/ dst_index b = e_in e) by (destruct (decide (e_out e = kControlSlot)); [by left|right; auto]). rewrite (edge_for_slot addr _ _ _ _ _ Hy').
  unfold room in *. assert (Hl : zlength (e :: back') = zlength back' + 1 /\ 0 <= zlength back') by (unfold zlength; cbn [length]; lia).
  assert (Hslot : e_out e = slot s) by by rewrite Heq. assert (Hin : e_in e = if slot s =? kControlSlot then kControlSlot else 0 + i) by by rewrite Heq.
  eapply (wp_edge_for addr opts gdef a0 Hends Hfirst Hw order es back0 c (e_dst e) s e k j); [done|unfold room; lia|done|done|done|done|done| | | |done|done| |].
  - rewrite Hslot. by apply (w_slot _ Hw (e_dst e)).
  - rewrite Hslot, Hin. intros ->. done.
  - rewrite Hslot at 1. intros Hc. rewrite Hin, (proj2 (Z.eqb_neq (slot s) kControlSlot)) by done. split; [lia|]. intros v Hv. by eapply (w_merge _ Hw).
  - intros g' Hg' Hng Hok. change (ok OK) with true. cbv iota. apply (IH back' (es ++ [e])); [done| |done|done|rewrite zlength_app; change (zlength [e]) with 1; unfold room; lia| |].
    + cbn. eapply Forall2_impl; [exact Hbs|]. intros b' e' (? & ? & ? & ? & ?). unfold back_ok, GraphConstructorEdges.ptr_ok in *. by rewrite Hng.
    + intros g2 Hg2 Hok2. rewrite <- app_assoc in Hg2. apply (HQ g2); [exact Hg2|by constructor].
    + intros st g2 H1 H2 H3. by apply (Herr st g2).
  - intros st Hst Hv. rewrite Hst. specialize (Herr st (g_ c)). destruct c. apply Herr; [done|done|]. by eapply undo_inv.
Qed.
End Convert.
(** ** Undoing *)

Context (Hn0 : forall i v, a_nodes a0 !! i = Some v -> i < first).
Context (He0 : forall j e, a_edges a0 !! j = Some e -> j < a_next_edge a0 /\ e_src e < first /\ e_dst e < first).
Context (hash_order : gmap (list Z) (Z * Z) -> list (list Z * (Z * Z))) (Hhash : forall m, hash_order m ≡ₚ map_to_list m).

Definition removed_id (order : list Z) (x : list Z * (Z * Z)) : option Z := if x.2.2 =? 0 then None else Some (id_of first order x.2.1).
Lemma remove_all_snoc ids i a : remove_all (ids ++ [i]) a = remove_node i (remove_all ids a).
Proof. unfold remove_all. by rewrite fold_left_app. Qed.
Lemma wp_undo_loop order names : forall gone a c (Q : unit -> Constructor -> Prop), rep (g_ c) (remove_all gone a) -> a_next_node a < 2 ^ 31 ->
  (forall nm o p, (nm, (o, p)) ∈ names -> ptr_ok order (g_ c) o p) -> NoDup (omap (removed_id order) names) ->
  (forall g', rep g' (remove_all (gone ++ omap (removed_id order) names) a) -> Q tt (set_graph g' c)) -> wp (undo_loop names) c Q.
Proof.
  induction names as [|[nm [o p]] names IH]; intros gone a c Q H Hlt Hp Hnd HQ; cbn [undo_loop].
  { apply wp_ret. specialize (HQ (g_ c)). cbn in HQ. rewrite app_nil_r in HQ. destruct c. by apply HQ. }
  pose proof (Hp nm o p ltac:(by left)) as Hpo. cbn [omap list_omap] in Hnd, HQ. unfold removed_id at 1 in Hnd. unfold removed_id at 1 in HQ. cbn [fst snd] in Hnd, HQ. destruct (Z.eqb_spec p 0) as [Hp0|Hp0].
  { cbn [negb]. wp_step. wp_step. apply (IH gone a c); [done|done| |done|done]. intros nm' o' p' Hin. apply (Hp nm'). by right. }
  assert (Ho : o ∈ order) by (destruct (decide (o ∈ order)) as [?|Hn]; [done|by apply (ptr_null a0 order (g_ c) o p) in Hn]). destruct (proj1 (pos_elem _ _) Ho) as [k Hk].
  pose proof (ptr_live a0 _ _ _ _ _ Hpo Hk) as Hat. rewrite (id_of_pos a0 _ _ _ Hk) in Hnd, HQ. apply NoDup_cons in Hnd as [Hni Hnd]. destruct (remove_all_spec gone a) as (Hnx & _). pose proof (zlookup_range _ _ _ (pos_lookup _ _ _ Hk)).
  cbn [negb]. wp_step. apply wp_on_graph. eapply (wp_RemoveNode addr _ _ (first + k)); [exact H|exact Hat|lia|by rewrite Hnx|]. intros g' H' Hn'. rewrite <- remove_all_snoc in H'.
  apply (IH (gone ++ [first + k]) a (set_graph g' c)); [exact H'|done| |done|].
  - intros nm' o' p' Hin. pose proof (Hp nm' o' p' ltac:(by right)) as Hpo'. cbn [g_ set_graph]. unfold GraphConstructorEdges.ptr_ok in *. destruct (pos order o') as [k'|] eqn:Ek'; [|done]. rewrite Hn', at_null, decide_False; [done|].
    intros Heq. apply Hni. apply list_elem_of_omap. exists (nm', (o', p')). split; [done|]. unfold removed_id. cbn [fst snd]. rewrite (id_of_pos a0 _ _ _ Ek'), Heq. apply at_Some in Hpo' as [_ Hp']. by rewrite (proj2 (Z.eqb_neq p' 0)).
  - intros g2 H2. rewrite <- app_assoc in H2. by apply HQ.
Qed.
Lemma NoDup_omap {A B} (f : A -> option B) l : NoDup l -> (forall x y z, x ∈ l -> y ∈ l -> f x = Some z -> f y = Some z -> x = y) -> NoDup (omap f l).
Proof.
  induction 1 as [|x l Hx Hnd IH]; intros Hf; [constructor|]. cbn [omap list_omap]. assert (Hl : NoDup (omap f l)) by (apply IH; intros y y' z Hy Hy'; apply Hf; by right).
  destruct (f x) as [z|] eqn:E; [|done]. apply NoDup_cons. split; [|done]. intros (y & Hy & Hz)%list_elem_of_omap. apply Hx. by rewrite (Hf x y z ltac:(by left) ltac:(by right) E Hz).
Qed.
(** What is left when every added node is removed. *)
Lemma undone vs es ids : (forall i, i ∈ ids <-> first <= i < first + zlength vs) -> (forall e, e ∈ es -> e_dst e ∈ ids) ->
  let a := remove_all ids (grow vs es a0) in a_nodes a = a_nodes a0 /\ a_edges a = a_edges a0 /\ a_names a = a_names a0.
Proof.
  intros Hids Hes a. unfold a. destruct (remove_all_spec ids (grow vs es a0)) as (_ & _ & H3 & H4 & H5). split; [|split; [|rewrite H3; apply grow_next]].
  - apply map_eq. intros i. rewrite H4, grow_nodes. destruct (decide (i ∈ ids)) as [Hi|Hi]; [|rewrite decide_False; [done|by rewrite <- Hids]].
    symmetry. apply eq_None_not_Some. intros [v Hv%Hn0]. apply Hids in Hi. lia.
  - apply map_eq. intros j. apply option_eq. intros e. rewrite H5, grow_edges. split.
    + intros (He & _ & Hd). case_decide as Hj; [|done]. destruct Hd. apply Hes. by eapply zlookup_elem.
    + intros He. destruct (He0 _ _ He) as (Hj & Hs & Hd). rewrite decide_False by lia. split; [done|]. rewrite !Hids. lia.
Qed.
Lemma wp_Undo c v (Q : unit -> Constructor -> Prop) : undoable c -> 
  (forall c' a, rep (g_ c') a -> a_nodes a = a_nodes a0 -> a_edges a = a_edges a0 -> a_names a = a_names a0 -> g_versions c' = v -> Q tt c') -> wp (Undo hash_order v) c Q.
Proof.
  intros (order & vs & es & Hlen & Hsize & Hrep & Hnd & Hes & Hp & Hinj & Hall) HQ. unfold Undo. wp_step. wp_step. wp_step.
  set (m := name_index_ c) in *. set (ids := omap (removed_id order) (hash_order m)).
  assert (Hin : forall nm o p, (nm, (o, p)) ∈ hash_order m <-> m !! nm = Some (o, p)) by (intros nm o p; by rewrite Hhash, elem_of_map_to_list).
  assert (Hptr : forall nm o p, m !! nm = Some (o, p) -> p <> 0 -> exists k, pos order o = Some k).
  { intros nm o p Hm Hp0. destruct (pos order o) as [k|] eqn:Ek; [by eexists|]. specialize (Hp _ _ _ Hm). unfold GraphConstructorEdges.ptr_ok in Hp. by rewrite Ek in Hp. }
  assert (Hids : forall i, i ∈ ids <-> first <= i < first + zlength vs).
  { intros i. replace (zlength vs) with (zlength order) by (unfold zlength; by rewrite Hlen). unfold ids. rewrite list_elem_of_omap. split.
    - intros ([nm [o p]] & Hm%Hin & Hi). unfold removed_id in Hi. cbn [fst snd] in Hi. destruct (Z.eqb_spec p 0) as [|Hp0]; [done|]. injection Hi as <-. destruct (Hptr _ _ _ Hm Hp0) as [k Hk]. apply id_of_range, pos_elem. by eexists.
    - intros Hi. destruct (range_lookup order (i - first)) as [o Ho]; [lia|]. pose proof (pos_unique _ _ _ Hnd Ho) as Hk. destruct (Hall o) as (nm & p & Hm); [by eapply zlookup_elem|]. exists (nm, (o, p)). split; [by apply Hin|].
      unfold removed_id. cbn [fst snd]. pose proof (ptr_live a0 _ _ _ _ _ (Hp _ _ _ Hm) Hk) as [_ Hp0]%at_Some. rewrite (proj2 (Z.eqb_neq p 0)), (id_of_pos a0 _ _ _ Hk) by done. f_equal. lia. }
  assert (Hndi : NoDup ids).
  { apply NoDup_omap; [rewrite Hhash; apply NoDup_map_to_list|]. intros [nm [o p]] [nm' [o' p']] i Hm%Hin Hm'%Hin. unfold removed_id. cbn [fst snd]. destruct (Z.eqb_spec p 0) as [|Hp0], (Z.eqb_spec p' 0) as [|Hp0']; try done.
    destruct (Hptr _ _ _ Hm Hp0) as [k Hk], (Hptr _ _ _ Hm' Hp0') as [k' Hk']. rewrite (id_of_pos a0 _ _ _ Hk), (id_of_pos a0 _ _ _ Hk'). intros [= <-] [= Hkk]. assert (k' = k) as -> by lia.
    pose proof (pos_inj _ _ _ _ Hk Hk') as <-. pose proof (Hinj _ _ _ _ _ Hm Hm') as <-. congruence. }
  destruct (grow_next vs es a0) as (Hnx & _). assert (Hvl : zlength vs = zlength order) by (unfold zlength; by rewrite Hlen).
  eapply (wp_undo_loop order (hash_order m) [] (grow vs es a0)); [exact Hrep|unfold room in *; lia|intros nm o p Hm%Hin; by eapply Hp|exact Hndi|].
  intros g' H'. cbn [app] in H'. wp_step. destruct (undone vs es ids Hids) as (H1 & H2 & H3); [intros e He; apply Hids; rewrite Hvl; by apply Hes|]. by eapply (HQ _ (remove_all ids (grow vs es a0))).
Qed.
(** ** The whole import *)

Definition initial g (v : VersionDef) : Constructor := mkConstructor g v ∅ [] [] [] [].
Lemma indexed_undoable (l : list NodeDef) m c : indexed l m -> rep (g_ c) a0 -> name_index_ c = m -> undoable c.
Proof.
  intros Hm H Hc. exists [], [], []. split; [done|]. split; [unfold zlength; cbn; lia|]. split; [exact H|]. split; [constructor|]. split; [by intros e ?%elem_of_nil|]. rewrite Hc. split; [|split; [|by intros o ?%elem_of_nil]].
  - intros nm o p. rewrite Hm. intros (o' & _ & [= -> ->])%fmap_Some. done.
  - intros nm nm' o p p'. rewrite !Hm. intros (o1 & H1 & [= -> _])%fmap_Some (o2 & H2 & [= <- _])%fmap_Some. by eapply index_in_named.
Qed.
Lemma initial_inv g m outs r : rep g a0 -> indexed ds m -> started gdef (zlength ds) outs r -> inv addr opts gdef a0 v0 [] [] [] (set_outputs outs (set_ready r (set_pending (map initial_pending ds) (set_name_index m (initial g v0))))).
Proof.
  intros H Hm [H1 H2 H3 H4 H5]. split; cbn [g_versions outputs_ pending_count_ ready_ set_outputs set_ready set_pending set_name_index initial app].
  - split; cbn [g_ name_index_ back_edges_ set_outputs set_ready set_pending set_name_index initial].
    + exists []. split; [split; [done|]|exact H]. intros k o Hk. apply zlookup_elem in Hk. by apply elem_of_nil in Hk.
    + constructor.
    + by intros o ?%elem_of_nil.
    + intros nm o p. rewrite Hm. intros (o' & Ho & [= -> ->])%fmap_Some. done.
    + intros nm o Ho. rewrite Hm, Ho. by eexists.
    + by intros e ?%elem_of_nil.
    + constructor.
  - done.
  - done.
  - constructor.
  - by intros e ?%elem_of_nil.
  - by intros o ?%elem_of_nil.
  - intros l1 o l2 E. by destruct l1.
  - split; [done|]. intros o n Ho. rewrite H4 by done. destruct (decide (0 <= n < zlength ds)); [done|]. unfold mult, GraphConstructorSpec.inputs. destruct (ds !!z n) eqn:En; [apply zlookup_range in En; lia|done].
  - intros n. rewrite got_nil. unfold GraphConstructorSpec.need, zlookup. destruct (n <? 0); [done|]. rewrite list_lookup_fmap. destruct (ds !! Z.to_nat n); cbn; [f_equal; lia|done].
  - done.
  - intros o. rewrite H3. unfold is_ready. rewrite got_nil. split; [intros [? ?]; split; [done|by left]|]. intros [Ho [Hi|Hn]]; [done|]. split; [done|]. destruct (inputs o) as [|s l] eqn:Ei; [done|].
    destruct (range_lookup _ _ Ho) as [d Hd]. pose proof (inputs_at gdef _ _ Hd) as Hin. pose proof (inputs_bound gdef o) as Hb. unfold GraphConstructorSpec.need in Hn. rewrite Hd in Hn. cbn in Hn. unfold initial_pending in Hn. rewrite Ei in Hin, Hb. rewrite <- Hin in Hn.
    pose proof (filter_count_le is_control_name (s :: l)). unfold room in *. destruct (IsMerge d); rewrite s32_id in Hn; unfold zlength in *; cbn [length] in *; lia.
Qed.
Lemma order_before (order l1 l2 : list Z) o o' : NoDup order -> order = l1 ++ o :: l2 -> o' ∈ l1 -> (Z.to_nat (default 0%Z (pos order o')) < Z.to_nat (default 0%Z (pos order o)))%nat.
Proof.
  intros Hnd E Ho'. assert (Ho : pos order o = Some (zlength l1)) by (apply pos_unique; [done|]; rewrite E; apply zlookup_middle). rewrite Ho. cbn. destruct (proj1 (pos_elem _ _) Ho') as [k Hk]. rewrite E, pos_app by done. rewrite Hk. cbn.
  pose proof (zlookup_range _ _ _ (pos_lookup _ _ _ Hk)). unfold zlength in *. lia.
Qed.
Lemma built_valid order es back c : inv addr opts gdef a0 v0 order es back c -> order ≡ₚ seqZ 0 (zlength ds) -> NoDup (map def_name ds) -> forallb (name_ok opts) ds = true -> (forall o s, s ∈ inputs o -> is_Some (source s)) ->
  Forall (edge_ok ds) back -> valid.
Proof.
  intros H Horder Hu Hok Hsrc Hback. pose proof (i_graph _ _ _ _ _ _ _ _ _ H) as Hg. assert (Hall : forall o, 0 <= o < zlength ds -> o ∈ order) by (intros o Ho; rewrite Horder; apply elem_of_seqZ; lia).
  assert (Hin : forall o s, s ∈ inputs o -> o ∈ order) by (intros o s Hs; apply Hall; unfold GraphConstructorSpec.inputs in Hs; destruct (ds !!z o) eqn:Ed; [by eapply zlookup_range|by apply elem_of_nil in Hs]). split.
  - done.
  - done.
  - done.
  - intros o. destruct (inputs o) as [|s l] eqn:Ei; [done|]. rewrite <- Ei. apply (i_controls _ _ _ _ _ _ _ _ _ H). apply (Hin o s). rewrite Ei. by left.
  - intros o Ho. destruct (g_rep _ _ _ _ _ _ _ _ Hg) as (vs & [_ Hvs] & _). destruct (elem_zlookup _ _ (Hall o Ho)) as [k Hk]. destruct (Hvs _ _ Hk) as (v & _ & d & w & Hd & Hm & _). by exists w, d.
  - intros o e He. assert (He' : e ∈ es ++ back).
    { rewrite (i_edges _ _ _ _ _ _ _ _ _ H). apply list_elem_of_In, in_flat_map. exists o. split; [|by apply list_elem_of_In]. apply list_elem_of_In. apply edges_from_elem in He as (i & s & _ & Hs & _). by apply (Hin o s). }
    pose proof (i_ok _ _ _ _ _ _ _ _ _ H) as Hes. rewrite Forall_forall in Hes, Hback. apply elem_of_app in He' as [?|?]; auto.
  - exists (fun o => Z.to_nat (default 0 (pos order o))). intros o Ho Hne. destruct (list_elem_of_split _ _ (Hall o Ho)) as (l1 & l2 & E). exists l1. split.
    + intros o' Ho'. eapply order_before; [apply (g_nodup _ _ _ _ _ _ _ _ Hg)|exact E|done].
    + by destruct (i_before _ _ _ _ _ _ _ _ _ H _ _ _ E).
Qed.
Lemma back_edges_ok order es back c : inv addr opts gdef a0 v0 order es back c -> Forall back_edge back /\ zlength es + zlength back <= zlength (all_edges ds).
Proof.
  intros H. pose proof (i_graph _ _ _ _ _ _ _ _ _ H) as Hg. split.
  - apply Forall_forall. intros e He. split; [|by apply (i_back _ _ _ _ _ _ _ _ _ H)]. assert (Hin : e ∈ flat_map edges_for order) by (rewrite <- (i_edges _ _ _ _ _ _ _ _ _ H); apply elem_of_app; by right).
    apply list_elem_of_In, in_flat_map in Hin as (o & _ & Ho%list_elem_of_In). pose proof Ho as (i & s & _ & _ & ->)%edges_from_elem. exact Ho.
  - rewrite <- zlength_app, (i_edges _ _ _ _ _ _ _ _ _ H). apply edges_within; [apply (g_nodup _ _ _ _ _ _ _ _ Hg)|apply (g_range _ _ _ _ _ _ _ _ Hg)].
Qed.
Lemma wp_TryImport g (Q : Status -> Constructor -> Prop) : rep g a0 -> bounded a0 -> fits ds a0 ->
  (forall c a1 a2 changed, valid -> imported opts ds a0 a1 -> fixed a1 a2 changed -> rep (g_ c) a2 -> g_versions c = versions gdef -> Q OK c) ->
  (forall st c, ok st = false -> ~ valid -> undoable c -> Q st c) -> wp (TryImport addr opts gdef) (initial g v0) Q.
Proof.
  intros H Hb Hfits HQ Herr. unfold TryImport, BuildNodeIndex, InitFromEdges, AddBackEdges, UpdateVersionDef. apply wp_and_then. apply (wp_index_loop opts gdef []); [done|intros nm; cbn; by rewrite lookup_empty|constructor|done| |].
  2:{ intros st l' m Hst Hm Hv. rewrite Hst. apply Herr; [done|done|]. by apply (indexed_undoable l' m). }
  intros m Hm Hu Hok. change (ok OK) with true. cbv iota. apply wp_and_then. wp_step. wp_step.
  apply (wp_init_loop opts gdef []); [done|done|done| | |].
  { split; cbn [outputs_ ready_ set_outputs set_name_index initial].
    - unfold zlength. by rewrite length_replicate.
    - constructor.
    - intros o. split; [by intros ?%elem_of_nil|]. unfold zlength. cbn. lia.
    - intros o n Ho. unfold cnt, zlookup. destruct (o <? 0); [unfold zlength; cbn; by rewrite decide_False by lia|]. rewrite lookup_replicate_2 by (unfold zlength in Ho; lia). unfold zlength. cbn. by rewrite decide_False by lia.
    - unfold zlength. cbn. lia. }
  2:{ intros st outs r p Hst Hv. rewrite Hst. apply Herr; [done|done|]. by apply (indexed_undoable ds m). }
  intros outs r Hst. change (ok OK) with true. cbv iota. apply wp_and_then. assert (Hsrc : forall o s, s ∈ inputs o -> is_Some (source s)).
  { intros o s Hs. apply (st_src _ _ _ _ Hst o s); [|done]. unfold GraphConstructorSpec.inputs in Hs. destruct (ds !!z o) eqn:Ed; [by eapply zlookup_range|by apply elem_of_nil in Hs]. }
  pose proof (initial_inv g m outs r H Hm Hst) as Hinv. apply (wp_Convert Hu Hsrc _ _ Hinv).
  2:{ intros st c Hs Hv Hun _. rewrite Hs. by apply Herr. }
  intros order es back c Hc Horder. change (ok OK) with true. cbv iota. apply wp_and_then. wp_step. wp_step. pose proof (i_graph _ _ _ _ _ _ _ _ _ Hc) as Hg. destruct (back_edges_ok _ _ _ _ Hc) as [Hback Hlen].
  eapply (wp_back_loop Hu order back _ back es); [exact Hg|apply (g_back _ _ _ _ _ _ _ _ Hg)|intros o Ho; rewrite Horder; apply elem_of_seqZ; lia|exact Hback|unfold room in *; lia| |].
  2:{ intros st g' Hs Hv Hun. rewrite Hs. by apply Herr. }
  intros g1 Hg1 Hbok. change (ok OK) with true. cbv iota. apply wp_and_then. wp_step. wp_step. wp_step. change (ok OK) with true. cbv iota. wp_step. apply wp_on_graph.
  destruct (g_rep _ _ _ _ _ _ _ _ Hg1) as (vs & Hvs & Hrep). cbn [g_ set_graph] in Hrep. set (es1 := map (place order) (es ++ back)) in *. destruct (grow_next vs es1 a0) as (Hnx & Hex & Hnm). pose proof (Permutation_length Horder) as Hol. rewrite length_seqZ in Hol. destruct Hvs as [Hvl Hvs].
  assert (Hel : zlength es1 = zlength es + zlength back) by (unfold es1, zlength; rewrite length_map, length_app; lia). unfold fits in Hfits.
  eapply (wp_FixupSourceAndSinkEdges addr _ (grow vs es1 a0)); [exact Hrep| |rewrite Hnx, Hex; unfold zlength in *; lia|].
  { split; [by apply grow_ends|]. rewrite Hnx, Hnm. destruct Hb as (_ & _ & ?). split; [unfold zlength in *; lia|done]. }
  intros changed g2 a2 Hg2 Hfix. wp_step. eapply (HQ _ (grow vs es1 a0) a2 changed); [by eapply built_valid| |done|exact Hg2|done].
  exists order, vs, es1. split; [done|]. split; [done|]. split; [|done]. unfold es1. apply Permutation_map. rewrite (i_edges _ _ _ _ _ _ _ _ _ Hc). unfold all_edges. by rewrite Horder.
Qed.
End Run.
End GraphConstructorRun.
