(* ===== verification/GraphConstructorRoundtrip.v ===== *)
(** * Graph construction: what [ToGraphDef] gives back *)
From S2P Require Import Prelude StringPiece Status Numbers DataTypes EdgeSet Graph GraphFacts GraphOps GraphPasses GraphDef GraphConstructor GraphConstructorSpec GraphConstructorEdges GraphConstructorLoop GraphConstructorRun.
From stdpp Require Import gmap.
Open Scope Z_scope.

Module GraphConstructorRoundtrip.
Import Status Graph GraphSpec GraphFacts GraphOps GraphRun GraphPasses GraphConstructor GraphConstructorSpec GraphConstructorFacts GraphConstructorEdges.

Section Roundtrip.
Context {OpDef AttrValue : Type} {registry : OpRegistryInterface OpDef AttrValue} {laws : OpRegistryLaws OpDef AttrValue registry}.
Context (addr : nat -> Z) {Haddr : addresses addr}.
Context (opts : Options) (gdef : GraphConstructor.GraphDef (AttrValue := AttrValue)).
Abbreviation NodeDef := (NodeDef AttrValue).
Abbreviation Graph := (Graph OpDef AttrValue).
Abbreviation AGraph := (AGraph OpDef AttrValue).
Abbreviation ANode := (ANode OpDef AttrValue).
Abbreviation JEdge := (Z * AEdge)%type.
Abbreviation rep := (rep addr).
Abbreviation ds := (node gdef).
Abbreviation source := (source ds).
Abbreviation inputs := (inputs ds).
Abbreviation into := GraphDef.into.
Abbreviation is_control := GraphDef.is_control.
Implicit Types (g : Graph) (a : AGraph) (d : NodeDef) (s : list Z).

(** ** The statement *)

Definition data_inputs (l : list (list Z)) : list (list Z) := List.filter (fun s => negb (is_control_name s)) l.
Definition control_inputs (l : list (list Z)) : list (list Z) := List.filter is_control_name l.
(** An input is written as [ToGraphDef] writes it. *)
Definition canonical s : Prop := AddInput (input_id s).1 (slot s) = s.
(** The definitions are the same, up to the order of the control inputs. *)
Definition same_def d d' : Prop :=
  def_name d' = def_name d /\ def_op d' = def_op d /\ def_attr d' = def_attr d /\ def_device d' = def_device d /\
  exists ctl, def_input d' = data_inputs (def_input d) ++ ctl /\ ctl ≡ₚ control_inputs (def_input d).
(** As many data inputs as the op has. *)
Definition complete d : Prop := forall w, (made d OK).1 = Some w -> zlength (data_inputs (def_input d)) = zlength (input_types_ w).

(** ** The edges into a node *)

Lemma into_add_edge a e i : ids_fresh a -> map snd (into (add_edge e a) i) ≡ₚ (if e_dst e =? i then [e] else []) ++ map snd (into a i).
Proof.
  intros Hf. unfold GraphDef.into. cbn [add_edge a_edges]. assert (Hnone : a_edges a !! a_next_edge a = None) by (apply eq_None_not_Some; intros [e' He']; apply Hf in He'; lia).
  assert (Hp : forall (f : JEdge -> bool) l k, l ≡ₚ k -> map snd (List.filter f l) ≡ₚ map snd (List.filter f k)).
  { intros f l k Hlk. apply Permutation_map. induction Hlk; cbn; repeat case_match; eauto using Permutation_trans, perm_swap. }
  rewrite (Hp _ _ _ (map_to_list_insert _ _ e Hnone)). cbn [List.filter snd]. by destruct (e_dst e =? i).
Qed.
Lemma grow_fresh vs es a : ids_fresh a -> ids_fresh (grow vs es a).
Proof.
  intros Hf j e. destruct (grow_next vs es a) as (_ & Hn & _). rewrite grow_edges, Hn. case_decide as Hj; [intros _; lia|]. intros He%Hf. unfold zlength. lia.
Qed.
Lemma into_grow vs es a i : ids_fresh a -> map snd (into (grow vs es a) i) ≡ₚ List.filter (fun e => e_dst e =? i) es ++ map snd (into a i).
Proof.
  intros Hf. induction es as [|e es IH] using rev_ind.
  - assert (E : forall us, a_edges (grow us [] a) = a_edges a) by (intros us; apply map_eq; intros j; rewrite grow_edges, decide_False by (unfold zlength; cbn; lia); done). unfold GraphDef.into. by rewrite E.
  - rewrite grow_edge, (into_add_edge _ _ _ (grow_fresh vs es a Hf)), List.filter_app, IH. cbn [List.filter]. destruct (e_dst e =? i); [|by rewrite app_nil_r]. rewrite <- app_assoc. cbn [app]. apply Permutation_middle.
Qed.
(** The fixup adds to a node at most edges from the source. *)
Lemma into_extends a a' i : extends a a' -> i <> 1 -> exists extra, into a' i ≡ₚ into a i ++ extra /\ forall je, je ∈ extra -> je.2 = control 0 i.
Proof.
  intros (_ & _ & _ & Hsub & Hnew) Hi. set (old := fun je : JEdge => bool_decide (is_Some (a_edges a !! je.1))). exists (List.filter (fun je => negb (old je)) (into a' i)).
  assert (Hex : forall je, je ∈ List.filter (fun je => negb (old je)) (into a' i) <-> je ∈ into a' i /\ a_edges a !! je.1 = None).
  { intros je. rewrite list_elem_of_In, filter_In, <- list_elem_of_In. unfold old. rewrite negb_true_iff, bool_decide_eq_false, eq_None_not_Some. done. }
  split.
  - apply NoDup_Permutation; [apply GraphDef.into_NoDup| |].
    + apply NoDup_app. split; [apply GraphDef.into_NoDup|]. split; [|apply NoDup_ListNoDup, List.NoDup_filter, NoDup_ListNoDup, GraphDef.into_NoDup]. intros je [He _]%GraphDef.elem_of_into [_ Hn]%Hex. congruence.
    + intros je. rewrite elem_of_app, Hex, !GraphDef.elem_of_into. split.
      * intros [He Hd]. destruct (a_edges a !! je.1) as [e'|] eqn:E; [left|by right]. split; [|done]. pose proof (lookup_weaken _ _ _ _ E Hsub). congruence.
      * intros [[He Hd]|[[He Hd] _]]; (split; [|done]); [by eapply lookup_weaken|done].
  - intros [j e] [[He Hd]%GraphDef.elem_of_into Hn]%Hex. cbn [fst snd] in *. destruct (Hnew _ _ He) as [?|(k & _ & [(-> & _)|(-> & _)])]; [congruence| |]; cbn in Hd; [by rewrite Hd|congruence].
Qed.
Lemma made_def d w : (made d OK).1 = Some w -> node_def_ w = d.
Proof.
  unfold made. destruct (LookUpOpDef (def_op d)) as [st [op|]]; destruct (ok _); [|done..]. destruct (InOutTypesForNode d op) as [st' [i o]]. destruct (ok _); [|done]. by intros [= <-].
Qed.
Lemma filter_map_comm {A B} (f : A -> B) (P : B -> bool) l : List.filter P (map f l) = map f (List.filter (fun x => P (f x)) l).
Proof. induction l as [|x l IH]; [done|]. cbn. destruct (P (f x)); cbn; by rewrite IH. Qed.
Lemma flat_map_filter_one {A B} `{EqDecision A} (P : B -> bool) (f : A -> list B) (l : list A) o : NoDup l -> o ∈ l -> (forall x, x ∈ l -> forall y, y ∈ f x -> P y = true <-> x = o) -> List.filter P (flat_map f l) = f o.
Proof.
  assert (Hnone : forall k : list B, (forall y, y ∈ k -> P y = false) -> List.filter P k = []) by (induction k as [|y k IH]; intros Hk; [done|]; cbn; rewrite (Hk y) by (by left); apply IH; intros; apply Hk; by right).
  assert (Hall : forall k : list B, (forall y, y ∈ k -> P y = true) -> List.filter P k = k) by (induction k as [|y k IH]; intros Hk; [done|]; cbn; rewrite (Hk y) by (by left); f_equal; apply IH; intros; apply Hk; by right).
  induction l as [|x l IH]; [by intros _ ?%elem_of_nil|]. intros [Hx Hnd]%NoDup_cons Ho HP. cbn [flat_map]. rewrite List.filter_app. destruct (decide (x = o)) as [->|Hne].
  - rewrite Hall by (intros y Hy; by apply (HP o ltac:(by left))). rewrite Hnone, app_nil_r; [done|]. intros y (x & Hxl%list_elem_of_In & Hy%list_elem_of_In)%list_elem_of_In%in_flat_map.
    apply not_true_is_false. intros Ht. apply (HP x) in Ht; [by subst x|by right|done].
  - rewrite Hnone; [|intros y Hy; apply not_true_is_false; intros Ht; by apply (HP x) in Ht; [|by left|]]. cbn [app]. apply IH; [done| |intros x' Hx'; apply HP; by right]. by apply elem_of_cons in Ho as [->|?].
Qed.

Context (a0 : AGraph) (Hfirst : a_next_node a0 = 2) (Hends : has_ends a0) (Hfresh : ids_fresh a0) (Hold : forall j e, a_edges a0 !! j = Some e -> e_dst e < 2) (Hn0 : forall i v, a_nodes a0 !! i = Some v -> i < 2).
Abbreviation place := (place 2).
Context (order : list Z) (vs : list ANode) (es : list AEdge) (a2 : AGraph) (changed : bool).
Context (Horder : order ≡ₚ seqZ 0 (zlength ds)) (Hvs : made_nodes opts ds 2 order vs) (Hes : es ≡ₚ map (place order) (all_edges ds)) (Hfix : fixed (grow vs es a0) a2 changed).
Context (Hv : valid opts ds) (Hw : wired ds) (Hcan : forall o s, s ∈ inputs o -> canonical s) (Hcomp : forall o d, ds !!z o = Some d -> complete d) (Hbound : zlength (all_edges ds) < 2 ^ 31).

Lemma order_NoDup : NoDup order.
Proof. rewrite Horder. apply NoDup_seqZ. Qed.
Lemma order_elem o : o ∈ order <-> 0 <= o < zlength ds.
Proof. rewrite Horder, elem_of_seqZ. lia. Qed.
Lemma id_inj o o' : o ∈ order -> o' ∈ order -> id_of 2 order o = id_of 2 order o' -> o = o'.
Proof. unfold id_of. intros [k Hk]%pos_elem [k' Hk']%pos_elem. rewrite Hk, Hk'. cbn. intros Heq. eapply pos_inj; [exact Hk|]. rewrite Hk'. f_equal. lia. Qed.
Lemma edge_dst o k ss e : e ∈ edges_from ds o k ss -> e_dst e = o.
Proof. by intros (i & s & _ & _ & ->)%(edges_from_elem gdef). Qed.
Lemma into_node o : o ∈ order -> exists extra, map snd (into a2 (id_of 2 order o)) ≡ₚ map (place order) (edges_for ds o) ++ extra /\ forall e, e ∈ extra -> e = control 0 (id_of 2 order o).
Proof.
  intros Ho. pose proof (id_of_range a0 order o Ho) as Hr. rewrite Hfirst in Hr. set (i := id_of 2 order o) in *. destruct (into_extends _ _ i (f_extends _ _ _ Hfix)) as (extra & Hin & Hextra); [lia|].
  exists (map snd extra). split; [|intros e ([j e'] & -> & He)%list_elem_of_fmap; by apply (Hextra (j, e'))]. rewrite Hin, map_app, into_grow by done. apply Permutation_app_tail.
  assert (Hnil : map snd (into a0 i) = []).
  { destruct (into a0 i) as [|[j e] l] eqn:E; [done|]. assert (He : (j, e) ∈ into a0 i) by (rewrite E; by left). apply GraphDef.elem_of_into in He as [He Hd]. apply Hold in He. cbn in *. lia. }
  rewrite Hnil, app_nil_r, (filter_Permutation_bool _ _ _ Hes), filter_map_comm. apply Permutation_map. unfold all_edges. rewrite (flat_map_filter_one _ _ _ o); [done|apply NoDup_seqZ|by rewrite <- Horder|].
  intros x Hx e He. rewrite <- Horder in Hx. cbn. rewrite (edge_dst _ _ _ _ He), Z.eqb_eq. split; [by apply id_inj|by intros ->].
Qed.
(** The node of a definition, with the name of the definition. *)
Lemma node_at o d : ds !!z o = Some d -> exists v, a_nodes a2 !! id_of 2 order o = Some v /\ node_def_ (a_props v) = d /\ (made d OK).1 = Some (a_props v) /\ a_device v = (if expect_device_spec opts then def_device d else []).
Proof.
  intros Hd. assert (Ho : o ∈ order) by (apply order_elem; by eapply zlookup_range). destruct (proj1 (pos_elem _ _) Ho) as [k Hk]. destruct Hvs as [Hlen Hmade]. destruct (Hmade k o (pos_lookup _ _ _ Hk)) as (v & Hvk & d' & w & Hd' & Hm & ->).
  rewrite Hd in Hd'. injection Hd' as <-. exists (mkANode w (2 + k) (if expect_device_spec opts then def_device d else [])). split; [|split; [by apply made_def|by split]].
  destruct (f_extends _ _ _ Hfix) as (-> & _). assert (Hid : id_of 2 order o = 2 + k) by (unfold id_of; by rewrite Hk). rewrite grow_nodes, Hfirst, Hid. pose proof (zlookup_range _ _ _ Hvk). rewrite decide_True by lia. by replace (2 + k - 2) with k by lia.
Qed.
(** An edge is written as its input. *)
Lemma text_of o k s : s ∈ inputs o -> GraphDef.input_text a2 (place order (edge_for ds o k s)) = [s].
Proof.
  intros Hs. destruct (v_inputs _ _ Hv o s Hs) as [o' Ho']. destruct (index_in_Some _ _ _ Ho') as (d' & Hd' & Hnm). destruct (node_at o' d' Hd') as (v & Hnode & Hdef & _).
  assert (Ho : o' ∈ order) by (apply order_elem; by eapply zlookup_range). pose proof (id_of_range a0 order o' Ho) as Hr. rewrite Hfirst in Hr. unfold GraphDef.input_text, GraphConstructorSpec.place. cbn [e_src e_out].
  change (e_src (edge_for ds o k s)) with (default (-1) (source s)). rewrite Ho'. change (default (-1) (Some o')) with o'. rewrite (proj2 (Z.ltb_lt 1 (id_of 2 order o'))) by lia. rewrite Hnode. f_equal. unfold GraphDef.name_of. rewrite Hdef, Hnm. by apply (Hcan o).
Qed.
Lemma slot_control o s : s ∈ inputs o -> slot s = kControlSlot <-> is_control_name s = true.
Proof.
  intros Hs. pose proof (Hcan o s Hs) as Hc. unfold canonical in Hc. destruct (is_control_name s) eqn:E; [unfold slot; rewrite E; done|]. split; [|done]. intros Hsl. exfalso. rewrite Hsl in Hc. unfold AddInput in Hc. rewrite Z.eqb_refl in Hc.
  assert (E' : is_control_name s = true) by (apply StringPiece.starts_with_spec; exists (input_id s).1; by rewrite <- Hc at 1). congruence.
Qed.
Lemma controls_split l : controls_last l = true -> l = data_inputs l ++ control_inputs l.
Proof.
  unfold data_inputs, control_inputs. assert (Hctl : forall l, forallb is_control_name l = true -> List.filter (fun s => negb (is_control_name s)) l = [] /\ List.filter is_control_name l = l).
  { clear. induction l as [|s l IH]; [by split|]. cbn. intros [Hs Hl]%andb_prop. rewrite Hs. cbn. destruct (IH Hl) as [H1 H2]. split; [exact H1|]. f_equal. exact H2. }
  induction l as [|s l IH]; [done|]. cbn. destruct (is_control_name s) eqn:E; cbn.
  - intros Hl. destruct (Hctl l Hl) as [H1 H2]. by rewrite H1, H2.
  - intros Hl. f_equal. by apply IH.
Qed.
Definition data_edge (e : AEdge) : bool := negb (e_out e =? kControlSlot).
Lemma place_out e : e_out (place order e) = e_out e /\ e_in (place order e) = e_in e.
Proof. done. Qed.
Lemma control_texts o k ss : (forall s, s ∈ ss -> s ∈ inputs o) ->
  flat_map (GraphDef.input_text a2) (List.filter (fun e => e_out e =? kControlSlot) (map (place order) (edges_from ds o k ss))) = control_inputs ss.
Proof.
  revert k. induction ss as [|s ss IH]; intros k Hin; [done|]. assert (Hs : s ∈ inputs o) by (apply Hin; by left). pose proof (slot_control o s Hs) as Hsl. cbn [edges_from map List.filter]. unfold control_inputs. cbn [List.filter].
  change (e_out (place order (edge_for ds o k s))) with (slot s). specialize (IH (k + 1) ltac:(intros; apply Hin; by right)). unfold control_inputs in IH. destruct (is_control_name s).
  - rewrite (proj2 (Z.eqb_eq (slot s) kControlSlot)) by tauto. cbn [flat_map]. rewrite (text_of o k s Hs), IH. done.
  - assert (Hne : slot s <> kControlSlot) by (intros Hx; by apply Hsl in Hx). rewrite (proj2 (Z.eqb_neq _ _) Hne). exact IH.
Qed.
Lemma data_ends o k ss : (forall s, s ∈ ss -> s ∈ inputs o) -> let l := List.filter data_edge (map (place order) (edges_from ds o k ss)) in NoDup (map e_in l) /\ forall e, e ∈ l -> exists i s, ss !!z i = Some s /\ e = place order (edge_for ds o (k + i) s) /\ e_in e = k + i /\ is_control_name s = false.
Proof.
  revert k. induction ss as [|s ss IH]; intros k Hin; [split; [constructor|by intros e ?%elem_of_nil]|]. assert (Hs : s ∈ inputs o) by (apply Hin; by left). pose proof (slot_control o s Hs) as Hsl.
  destruct (IH (k + 1) ltac:(intros; apply Hin; by right)) as [Hnd Hl]. cbn [edges_from map List.filter]. assert (Hde : data_edge (place order (edge_for ds o k s)) = negb (slot s =? kControlSlot)) by done. rewrite Hde.
  assert (Hl' : forall e, e ∈ List.filter data_edge (map (place order) (edges_from ds o (k + 1) ss)) -> exists i s', (s :: ss) !!z i = Some s' /\ e = place order (edge_for ds o (k + i) s') /\ e_in e = k + i /\ is_control_name s' = false /\ 0 < i).
  { intros e He. destruct (Hl e He) as (i & s' & Hi & Heq & Hei & Hc). pose proof (zlookup_range _ _ _ Hi). exists (i + 1), s'. replace (k + (i + 1)) with (k + 1 + i) by lia. split; [|split; [done|split; [done|split; [done|lia]]]].
    unfold zlookup in *. destruct (Z.ltb_spec (i + 1) 0), (Z.ltb_spec i 0); try lia. by replace (Z.to_nat (i + 1)) with (S (Z.to_nat i)) by lia. }
  destruct (is_control_name s) eqn:Ec.
  - rewrite (proj2 (Z.eqb_eq (slot s) kControlSlot)) by tauto. cbn [negb]. split; [exact Hnd|]. intros e He. destruct (Hl' e He) as (i & s' & H1 & H2 & H3 & H4 & _). by exists i, s'.
  - assert (Hne : slot s <> kControlSlot) by (intros Hx; by apply Hsl in Hx). rewrite (proj2 (Z.eqb_neq _ _) Hne). cbn [negb map]. assert (Hk : e_in (place order (edge_for ds o k s)) = k) by (cbn; by rewrite (proj2 (Z.eqb_neq _ _) Hne)). split.
    + rewrite Hk. apply NoDup_cons. split; [|exact Hnd]. intros (e & Hek & He)%list_elem_of_fmap. destruct (Hl' e He) as (i & s' & _ & _ & H3 & _ & Hi). lia.
    + intros e [->|He]%elem_of_cons; [exists 0, s; rewrite Z.add_0_r; done|]. destruct (Hl' e He) as (i & s' & H1 & H2 & H3 & H4 & _). by exists i, s'.
Qed.
(** ** Each node is written as its definition *)

Lemma into_data o : o ∈ order -> map snd (GraphDef.data_into a2 (id_of 2 order o)) ≡ₚ List.filter data_edge (map (place order) (edges_for ds o)).
Proof.
  intros Ho. destruct (into_node o Ho) as (extra & Hin & Hex). unfold GraphDef.data_into.
  assert (E : forall l : list JEdge, map snd (List.filter (fun je => negb (is_control je)) l) = List.filter data_edge (map snd l)) by (intros l; symmetry; apply (filter_map_comm snd data_edge)).
  rewrite E, (filter_Permutation_bool _ _ _ Hin), List.filter_app. assert (Hnil : List.filter data_edge extra = []); [|by rewrite Hnil, app_nil_r].
  clear -Hex. induction extra as [|e l IH]; [done|]. cbn. rewrite (Hex e) by by left. apply IH. intros; apply Hex; by right.
Qed.
Lemma data_index o i s : inputs o !!z i = Some s -> is_control_name s = false -> data_inputs (inputs o) !!z i = Some s.
Proof.
  intros Hi Hs. rewrite (controls_split _ (v_controls _ _ Hv o)) in Hi. unfold zlookup in *. destruct (i <? 0); [done|]. apply lookup_app_Some in Hi as [Hi|[_ Hi]]; [done|].
  apply list_elem_of_lookup_2, list_elem_of_In, filter_In in Hi as [_ Hi]. congruence.
Qed.
Lemma num_in_data o d (v : ANode) : ds !!z o = Some d -> (made d OK).1 = Some (a_props v) -> GraphDef.num_in v = zlength (data_inputs (inputs o)).
Proof.
  intros Hd Hm. pose proof (Hcomp o d Hd _ Hm) as Hc. rewrite (inputs_at gdef o d Hd). unfold GraphDef.num_in. rewrite <- Hc. apply s32_id. pose proof (filter_count_le (fun s => negb (is_control_name s)) (def_input d)) as Hf.
  pose proof (GraphConstructorLoop.inputs_bound gdef o) as Hb. rewrite (inputs_at gdef o d Hd) in Hb. unfold data_inputs, zlength in *. lia.
Qed.
Lemma node_inv i v : a_nodes a2 !! i = Some v -> 1 < i -> exists o, o ∈ order /\ i = id_of 2 order o.
Proof.
  destruct (f_extends _ _ _ Hfix) as (-> & _). rewrite grow_nodes, Hfirst. case_decide as Hi; [|intros Hvi%Hn0; lia]. intros Hvi Hi1. destruct Hvs as [Hlen _]. destruct (zlookup_is_Some order (i - 2)) as [o Ho]; [unfold zlength in *; lia|].
  exists o. split; [by eapply zlookup_elem|]. unfold id_of. rewrite (pos_unique _ _ _ order_NoDup Ho). cbn. lia.
Qed.
Lemma order_def o : o ∈ order -> exists d, ds !!z o = Some d.
Proof. intros Ho%order_elem. by apply zlookup_is_Some. Qed.
Lemma data_edge_of o je : o ∈ order -> je ∈ into a2 (id_of 2 order o) -> is_control je = false -> exists i s, data_inputs (inputs o) !!z i = Some s /\ je.2 = place order (edge_for ds o i s) /\ e_in je.2 = i /\ s ∈ inputs o.
Proof.
  intros Ho Hje Hc. assert (Hin : je.2 ∈ map snd (GraphDef.data_into a2 (id_of 2 order o))) by (apply list_elem_of_fmap; exists je; split; [done|by apply GraphDef.elem_of_data]). rewrite (into_data o Ho) in Hin.
  destruct (data_ends o 0 (inputs o) ltac:(done)) as [_ Hends']. destruct (Hends' _ Hin) as (i & s & Hi & Heq & Hei & Hs). exists i, s. split; [by apply data_index|]. split; [exact Heq|]. split; [exact Hei|by eapply zlookup_elem].
Qed.
Lemma built_well_typed : GraphDef.well_typed a2.
Proof.
  intros i v Hvi Hi. destruct (node_inv i v Hvi Hi) as (o & Ho & ->). destruct (order_def o Ho) as [d Hd]. destruct (node_at o d Hd) as (v' & Hv' & Hdef & Hm & _). rewrite Hvi in Hv'. injection Hv' as <-. rewrite (num_in_data o d v Hd Hm).
  split; [unfold zlength; lia|]. split; [|split].
  - intros je Hje Hc. destruct (data_edge_of o je Ho Hje Hc) as (i & s & Hs & _ & -> & _). by eapply zlookup_range.
  - intros je je' Hje Hje' Hc Hc' Heq. apply (GraphDef.NoDup_map_inj (fun je : JEdge => e_in je.2) (GraphDef.data_into a2 (id_of 2 order o))); [|by apply GraphDef.elem_of_data|by apply GraphDef.elem_of_data|done].
    rewrite <- (map_map snd e_in), (into_data o Ho). by apply data_ends.
  - intros idx Hidx _. rewrite Hdef, <- (inputs_at gdef o d Hd), (controls_split _ (v_controls _ _ Hv o)). apply zlookup_is_Some. rewrite zlength_app. unfold zlength in *. lia.
Qed.
Lemma slot_text o d v idx s : ds !!z o = Some d -> o ∈ order -> a_nodes a2 !! id_of 2 order o = Some v -> data_inputs (inputs o) !!z idx = Some s -> GraphDef.slot a2 v (id_of 2 order o) idx = [s].
Proof.
  intros Hd Ho Hvi Hs. unfold GraphDef.slot. destruct (List.find _ _) as [je|] eqn:Ef.
  - apply List.find_some in Ef as [Hje%list_elem_of_In [Hc%negb_true_iff He%Z.eqb_eq]%andb_prop]. destruct (data_edge_of o je Ho Hje Hc) as (i & s' & Hi & Heq & Hei & Hin). rewrite Hei in He. subst i. assert (s' = s) as -> by congruence. rewrite Heq. by apply text_of.
  - exfalso. assert (Hin : s ∈ inputs o /\ is_control_name s = false).
    { apply zlookup_elem in Hs. apply list_elem_of_In, filter_In in Hs as [Hin%list_elem_of_In Hc%negb_true_iff]. done. }
    destruct Hin as [Hin Hc]. assert (Hsl : slot s <> kControlSlot) by (intros Hx%(slot_control o s Hin); congruence).
    assert (Hidx : inputs o !!z idx = Some s) by (rewrite (controls_split _ (v_controls _ _ Hv o)); by apply zlookup_app_l).
    assert (He : place order (edge_for ds o idx s) ∈ map (place order) (edges_for ds o)).
    { apply list_elem_of_fmap. eexists. split; [done|]. unfold edges_for. unfold zlookup in Hidx. destruct (Z.ltb_spec idx 0); [done|]. apply list_elem_of_split_length in Hidx as (l1 & l2 & Heq & Hl). rewrite Heq, (edges_from_app gdef). cbn. apply elem_of_app. right.
      replace (0 + zlength l1) with idx by (unfold zlength; lia). by left. }
    assert (Hin2 : place order (edge_for ds o idx s) ∈ map snd (into a2 (id_of 2 order o))).
    { destruct (into_node o Ho) as (extra & -> & _). apply elem_of_app. by left. }
    apply list_elem_of_fmap in Hin2 as (je & Heq & Hje). pose proof (List.find_none _ _ Ef je (proj1 (list_elem_of_In _ _) Hje)) as Hf. cbn in Hf. unfold GraphDef.is_control in Hf. rewrite <- Heq in Hf. cbn in Hf. rewrite (proj2 (Z.eqb_neq _ _) Hsl), Z.eqb_refl in Hf. done.
Qed.
Lemma control_text o : o ∈ order -> GraphDef.control_inputs a2 (id_of 2 order o) ≡ₚ control_inputs (inputs o).
Proof.
  intros Ho. destruct (into_node o Ho) as (extra & Hin & Hex). unfold GraphDef.control_inputs.
  assert (E : forall l : list JEdge, flat_map (fun je => GraphDef.input_text a2 je.2) (List.filter is_control l) = flat_map (GraphDef.input_text a2) (List.filter (fun e => e_out e =? kControlSlot) (map snd l))).
  { intros l. rewrite (filter_map_comm snd). induction (List.filter _ l) as [|je k IH]; [done|]. cbn. by rewrite IH. }
  rewrite E, (filter_Permutation_bool _ _ _ Hin), List.filter_app, flat_map_app. unfold edges_for. rewrite control_texts by done.
  assert (Hnil : flat_map (GraphDef.input_text a2) (List.filter (fun e => e_out e =? kControlSlot) extra) = []); [|by rewrite Hnil, app_nil_r].
  clear -Hex. induction extra as [|e l IH]; [done|]. cbn. rewrite (Hex e) by by left. cbn. apply IH. intros; apply Hex; by right.
Qed.
Lemma flat_map_slots {A} (f : Z -> list A) l : (forall k x, l !!z k = Some x -> f k = [x]) -> flat_map f (seqZ 0 (zlength l)) = l.
Proof.
  induction l as [|x l IH] using rev_ind; intros Hf; [done|]. rewrite zlength_app. change (zlength [x]) with 1. rewrite seqZ_app by (unfold zlength; lia). rewrite flat_map_app, IH.
  - f_equal. rewrite Z.add_0_l, seqZ_cons by lia. cbn. rewrite (Hf (zlength l) x) by apply zlookup_middle. done.
  - intros k y Hk. apply Hf. by apply zlookup_app_l.
Qed.
Lemma serialized_same o d d' : ds !!z o = Some d -> GraphDef.serialized a2 (id_of 2 order o) d' -> same_def d d'.
Proof.
  intros Hd (v & Hvi & Hnm & Hop & Hattr & Hdev & ctl & Hin & Hctl). assert (Ho : o ∈ order) by (apply order_elem; by eapply zlookup_range). destruct (node_at o d Hd) as (v' & Hv' & Hdef & Hm & Hvd). rewrite Hvi in Hv'. injection Hv' as <-.
  unfold GraphDef.name_of, type_of in *. rewrite Hdef in *. split; [done|]. split; [done|]. split; [done|]. split.
  - rewrite Hdev, Hvd. destruct (expect_device_spec opts); [by destruct (def_device d)|done].
  - exists ctl. rewrite <- (inputs_at gdef o d Hd). split; [|by rewrite Hctl, control_text]. rewrite Hin. f_equal. rewrite (num_in_data o d v Hd Hm). apply flat_map_slots. intros k s Hs. by eapply slot_text.
Qed.
Lemma ops_order g : rep g a2 -> GraphDef.ops_of a2 ≡ₚ map (id_of 2 order) (seqZ 0 (zlength ds)).
Proof.
  intros H. assert (Hids : forall i, i ∈ GraphDef.ops_of a2 <-> is_Some (a_nodes a2 !! i) /\ 1 < i).
  { intros i. unfold GraphDef.ops_of. rewrite list_elem_of_In, filter_In, <- list_elem_of_In, (elem_of_ids addr _ _ _ _ H), Z.ltb_lt. done. }
  apply NoDup_Permutation.
  - apply NoDup_ListNoDup, List.NoDup_filter, NoDup_ListNoDup, ids_NoDup.
  - rewrite <- Horder. apply NoDup_fmap_2_strong; [intros x y; apply id_inj|apply order_NoDup].
  - intros i. rewrite Hids, <- Horder, list_elem_of_fmap. split.
    + intros [[v Hvi] Hi]. destruct (node_inv i v Hvi Hi) as (o & Ho & ->). by exists o.
    + intros (o & -> & Ho). destruct (order_def o Ho) as [d Hd]. destruct (node_at o d Hd) as (v & Hvi & _). split; [by eexists|]. pose proof (id_of_range a0 order o Ho) as Hr. rewrite Hfirst in Hr. lia.
Qed.
Lemma built_ToGraphDef g : rep g a2 -> a_next_node a2 < 2 ^ 31 -> exists ds1 ds2, ToGraphDef g = Done (ds1, g) /\ ds1 ≡ₚ ds2 /\ Forall2 same_def ds ds2.
Proof.
  intros H Hn. destruct (GraphDef.ToGraphDef_Done addr g a2 H Hn built_well_typed) as (ds1 & Hdone & Hser).
  apply Forall2_flip in Hser. destruct (Permutation_Forall2 (ops_order g H) Hser) as (ds2 & Hperm & Hser2). exists ds1, ds2. split; [done|]. split; [done|].
  apply Forall2_same_length_lookup_2.
  - pose proof (Forall2_length _ _ _ Hser2) as Hl. rewrite length_map, length_seqZ in Hl. unfold zlength in Hl. lia.
  - intros k d d' Hd Hd'. destruct (Forall2_lookup_r _ _ _ _ _ Hser2 Hd') as (i & Hi & Hs). rewrite list_lookup_fmap in Hi. apply fmap_Some in Hi as (o & Ho & ->). apply lookup_seqZ in Ho as [-> _]. eapply serialized_same; [|exact Hs].
    unfold zlookup. destruct (Z.ltb_spec (0 + Z.of_nat k) 0); [lia|]. by rewrite Z.add_0_l, Nat2Z.id.
Qed.
End Roundtrip.
End GraphConstructorRoundtrip.
