(* ===== verification/GraphConstructorTheorems.v ===== *)
(** * Graph construction: the theorems *)
From S2P Require Import Prelude StringPiece Status Numbers DataTypes EdgeSet Graph GraphFacts GraphOps GraphPasses GraphTheorems GraphConstructor GraphConstructorSpec GraphConstructorEdges GraphConstructorRun GraphConstructorRoundtrip.
From stdpp Require Import gmap.
Open Scope Z_scope.

Module GraphConstructorTheorems.
Import Status Graph GraphSpec GraphFacts GraphOps GraphRun GraphPasses GraphTheorems GraphConstructor GraphConstructorSpec GraphConstructorFacts GraphConstructorEdges GraphConstructorRun GraphConstructorRoundtrip.

Section Theorems.
Context {OpDef AttrValue : Type} {registry : OpRegistryInterface OpDef AttrValue} {laws : OpRegistryLaws OpDef AttrValue registry}.
Context (addr : nat -> Z) {Haddr : addresses addr}.
Context (TF_VERSION_STRING : list Z) (hash_order : gmap (list Z) (Z * Z) -> list (list Z * (Z * Z))).
Abbreviation GraphDef := (GraphDef (AttrValue := AttrValue)).
Abbreviation Graph := (Graph OpDef AttrValue).
Abbreviation AGraph := (AGraph OpDef AttrValue).
Abbreviation rep := (rep addr).
Implicit Types (g : Graph) (a : AGraph) (gdef : GraphDef).

Lemma CheckVersions_ok v upper lower tf : ok (CheckVersions v TF_GRAPH_DEF_VERSION TF_GRAPH_DEF_VERSION_MIN_PRODUCER upper lower tf) = true <-> compatible v.
Proof.
  unfold CheckVersions, compatible. change (TF_GRAPH_DEF_VERSION <? TF_GRAPH_DEF_VERSION_MIN_PRODUCER) with false. cbv iota.
  destruct (Z.ltb_spec (producer v) TF_GRAPH_DEF_VERSION_MIN_PRODUCER); [split; [done|lia]|]. destruct (Z.ltb_spec TF_GRAPH_DEF_VERSION (min_consumer v)); [split; [done|lia]|].
  destruct (existsb (Z.eqb TF_GRAPH_DEF_VERSION) (bad_consumers v)) eqn:E.
  - split; [done|]. intros (_ & _ & Hn). apply existsb_exists in E as (k & Hk & <-%Z.eqb_eq). by destruct Hn; apply list_elem_of_In.
  - split; [|done]. intros _. split; [lia|]. split; [lia|]. intros Hin%list_elem_of_In. assert (E' : existsb (Z.eqb TF_GRAPH_DEF_VERSION) (bad_consumers v) = true) by (apply existsb_exists; exists TF_GRAPH_DEF_VERSION; split; [done|apply Z.eqb_refl]). congruence.
Qed.

(** ** The condition on the caller, decided *)

Definition props_at (ds : list (NodeDef AttrValue)) (o : Z) : option (Properties OpDef AttrValue) := match ds !!z o with Some d => (made d OK).1 | None => None end.
Definition wired_edge ds (d : NodeDef AttrValue) (e : AEdge) : bool :=
  (kControlSlot <=? e_out e) &&
  ((e_out e =? kControlSlot) || match props_at ds (e_dst e) with Some v => e_in e <? zlength (input_types_ v) | None => true end) &&
  (negb (IsMerge d) || match props_at ds (e_src e) with Some v => e_out e <? zlength (output_types_ v) | None => true end).
Definition wired_node ds (o : Z) : bool :=
  match ds !!z o with Some d => forallb (wired_edge ds d) (edges_for ds o) | None => true end &&
  match props_at ds o with
  | Some v => forallb (fun t => bool_decide (is_Some (DataTypes.DataTypeString t))) (input_types_ v ++ output_types_ v) && (zlength (output_types_ v) <? 2 ^ 31)
  | None => true
  end.
Definition wiredb (ds : list (NodeDef AttrValue)) : bool := forallb (wired_node ds) (seqZ 0 (zlength ds)).
Lemma props_at_iff ds o v : props ds o v <-> props_at ds o = Some v.
Proof. unfold props, props_at. destruct (ds !!z o) as [d|]; [|split; [by intros (? & ? & _)|done]]. split; [by intros (? & [= <-] & ?)|]. intros H. by exists d. Qed.
Lemma edge_mem (ds : list (NodeDef AttrValue)) o k ss s : s ∈ ss -> exists j, edge_for ds o j s ∈ edges_from ds o k ss.
Proof.
  revert k. induction ss as [|s' ss IH]; intros k Hs; [by apply elem_of_nil in Hs|]. apply elem_of_cons in Hs as [->|Hs]; [exists k; by left|]. destruct (IH (k + 1) Hs) as [j Hj]. exists j. by right.
Qed.
Lemma wiredb_ok gdef : wiredb (node gdef) = true -> wired (node gdef).
Proof.
  set (ds := node gdef).  unfold wiredb. rewrite forallb_forall. intros Hall. assert (Hn : forall o d, ds !!z o = Some d -> wired_node ds o = true).
  { intros o d Hd. apply Hall, list_elem_of_In, elem_of_seqZ. apply zlookup_range in Hd. lia. }
  assert (He : forall o d e, ds !!z o = Some d -> e ∈ edges_for ds o -> wired_edge ds d e = true).
  { intros o d e Hd He. specialize (Hn o d Hd). unfold wired_node in Hn. rewrite Hd in Hn. apply andb_prop in Hn as [Hn _]. rewrite forallb_forall in Hn. by apply Hn, list_elem_of_In. }
  assert (Hp : forall o v, props ds o v -> forallb (fun t => bool_decide (is_Some (DataTypes.DataTypeString t))) (input_types_ v ++ output_types_ v) = true /\ zlength (output_types_ v) < 2 ^ 31).
  { intros o v Hv. pose proof Hv as (d & Hd & _). specialize (Hn o d Hd). unfold wired_node in Hn. rewrite (proj1 (props_at_iff _ _ _) Hv) in Hn. apply andb_prop in Hn as [_ [H1 H2%Z.ltb_lt]%andb_prop]. done. }
  assert (Hi : forall o s, s ∈ inputs ds o -> exists d, ds !!z o = Some d) by (intros o s Hs; unfold inputs in Hs; destruct (ds !!z o) as [d|]; [by exists d|by apply elem_of_nil in Hs]).
  split.
  - intros o s Hs. destruct (Hi o s Hs) as [d Hd]. destruct (edge_mem ds o 0 _ _ Hs) as [j Hj]. specialize (He _ _ _ Hd Hj). apply andb_prop in He as [[He%Z.leb_le _]%andb_prop _]. exact He.
  - intros o e v Hin Hc Hv. pose proof Hv as (d & Hd & _). specialize (He _ _ _ Hd Hin). apply andb_prop in He as [[_ He]%andb_prop _]. rewrite (proj2 (Z.eqb_neq _ _) Hc) in He. assert (Ho : e_dst e = o) by by apply (edges_from_elem gdef) in Hin as (i & s & _ & _ & ->).
    rewrite Ho, (proj1 (props_at_iff _ _ _) Hv) in He. by apply Z.ltb_lt in He.
  - intros o d e v Hd Hm Hin Hv. specialize (He _ _ _ Hd Hin). apply andb_prop in He as [_ He]. rewrite Hm, (proj1 (props_at_iff _ _ _) Hv) in He. by apply Z.ltb_lt in He.
  - intros o v t Hv Ht. destruct (Hp o v Hv) as [H1 _]. rewrite forallb_forall in H1. specialize (H1 t (proj1 (list_elem_of_In _ _) Ht)). by apply bool_decide_eq_true in H1.
  - intros o v Hv. by destruct (Hp o v Hv).
Qed.

(** ** Construction *)

Definition constructed (opts : Options) gdef a (v : VersionDef) (r : Status * (Graph * VersionDef)) : Prop :=
  let '(st, (g', v')) := r in
  (ok st = true <-> compatible (versions gdef) /\ valid opts (node gdef)) /\
  (ok st = true -> v' = versions gdef /\ exists a1 a2 changed, imported opts (node gdef) a a1 /\ fixed a1 a2 changed /\ rep g' a2) /\
  (ok st = false -> v' = v /\ exists a', rep g' a' /\ a_nodes a' = a_nodes a /\ a_edges a' = a_edges a /\ a_names a' = a_names a).
Lemma Construct_done opts gdef g a v : rep g a -> bounded a -> wired (node gdef) -> fits (node gdef) a -> (forall m, hash_order m ≡ₚ map_to_list m) ->
  exists r, Construct addr TF_VERSION_STRING hash_order opts gdef g v = Done r /\ constructed opts gdef a v r.
Proof.
  intros H Hb Hw Hfits Hhash. unfold Construct. cbv zeta. destruct (ok (CheckVersions _ _ _ _ _ _)) eqn:Ev; cbn [negb].
  2:{ eexists. split; [done|]. split; [rewrite Ev; split; [done|]; intros [Hc _]; by rewrite (proj2 (CheckVersions_ok _ _ _ _) Hc) in Ev|]. split; [by rewrite Ev|]. intros _. split; [done|]. by exists a. }
  apply CheckVersions_ok in Ev. pose proof Hb as ([[v1 Hv1] [v2 Hv2]] & Hn & _). pose proof (node_range addr H _ _ Hv2) as Hr. unfold kSinkId in Hr. pose proof (r_len_e _ _ _ _ H) as Hle. pose proof Hfits as Hf. unfold fits in Hf.
  set (m := st_bind _ _). assert (Hwp : wp m (mkConstructor g v ∅ [] [] [] []) (fun st c => constructed opts gdef a v (st, (g_ c, g_versions c)))).
  { unfold m. wp_step. apply (wp_TryImport addr opts gdef a); try done; try lia; try (unfold room, zlength in *; lia).
    - intros c a1 a2 changed Hv Hi Hfx Hg Hver. change (ok OK) with true. cbn [negb]. wp_step. wp_step. wp_step. split; [by split|]. split; [|done]. intros _. split; [done|]. by exists a1, a2, changed.
    - intros st c Hst Hv Hun. rewrite Hst. cbn [negb]. wp_step. apply (wp_Undo addr gdef a); try done; try (unfold room, zlength in *; lia).
      + intros i w Hw'. apply (node_range addr H) in Hw'. lia.
      + intros j e He. split; [apply (edge_range addr H) in He; lia|]. destruct (edge_ends addr H j e He) as [[s Hs] [t Ht]]. apply (node_range addr H) in Hs, Ht. lia.
      + intros c' a' Hg' H1 H2 H3 Hver. wp_step. split; [rewrite Hst; split; [done|by intros [_ ?]]|]. split; [by rewrite Hst|]. intros _. split; [done|]. by exists a'. }
  apply wp_Done in Hwp as (st & c & Hm & Hc). rewrite Hm. by exists (st, (g_ c, g_versions c)).
Qed.

(** C5: for definitions that are [wiredb] (no node has more data inputs than its op,
    or asks a back edge of a merge for an output that the op does not have: the
    code reads out of bounds on those, as the findings say) and that fit in the
    32-bit ids, [ConvertGraphDefToGraph] on any graph that legal calls built
    returns, however the hash table orders its names. It accepts exactly those of
    them that are [valid] and of a [compatible] version, and then adds one node for
    each definition and one edge for each input, between the nodes that the
    definitions name, before the edges of the source and the sink are fixed.
    Otherwise it removes all that it added, although its header promises less:
    nodes, edges and versions are as they were. *)
Theorem graph_construct d os opts gdef v : let a := (spec_all os (spec_new d)).1 in LookUpOpDef (bytes_of "NoOp") = (OK, Some d) -> legal_all os (spec_new d) = true ->
  wiredb (node gdef) = true -> fits (node gdef) a -> (forall m, hash_order m ≡ₚ map_to_list m) ->
  wp (new_Graph addr ;;; run_all addr os) empty_Graph (fun _ g => exists r, Construct addr TF_VERSION_STRING hash_order opts gdef g v = Done r /\ constructed opts gdef a v r).
Proof.
  intros a Hd Hl Hw Hfits Hhash. wp_step. apply (wp_new_Graph addr d); [done|]. intros g Hg. eapply (run_all_refines addr); [exact Hg|apply new_bounded|done|]. intros g' Hg' Hb. apply Construct_done; [done|done|by apply wiredb_ok|done|done].
Qed.
(** ** Round trip *)

Definition faithful_def (d : NodeDef AttrValue) : bool :=
  forallb (fun s => bool_decide (AddInput (input_id s).1 (slot s) = s)) (def_input d) &&
  match (made d OK).1 with Some w => zlength (data_inputs (def_input d)) =? zlength (input_types_ w) | None => true end.
Lemma faithful_ok gdef : forallb faithful_def (node gdef) = true -> (forall o s, s ∈ inputs (node gdef) o -> canonical s) /\ (forall o d, node gdef !!z o = Some d -> complete d).
Proof.
  rewrite forallb_forall. intros Hall. assert (Hd : forall o d, node gdef !!z o = Some d -> faithful_def d = true) by (intros o d Hd; apply Hall, list_elem_of_In; by eapply zlookup_elem). split.
  - intros o s Hs. unfold inputs in Hs. destruct (node gdef !!z o) as [d|] eqn:E; [|by apply elem_of_nil in Hs]. specialize (Hd _ _ E). apply andb_prop in Hd as [Hd _]. rewrite forallb_forall in Hd. specialize (Hd s (proj1 (list_elem_of_In _ _) Hs)). by apply bool_decide_eq_true in Hd.
  - intros o d Ho w Hm. specialize (Hd _ _ Ho). apply andb_prop in Hd as [_ Hd]. rewrite Hm in Hd. by apply Z.eqb_eq in Hd.
Qed.
(** C26: when a new graph is constructed from definitions, [ToGraphDef] gives these
    definitions back, in some order: the same names, ops, attributes and devices,
    the same data inputs in the same order, and the same control inputs, which may
    be permuted. The definitions have as many data inputs as their ops, and write
    inputs as [ToGraphDef] does. *)
Theorem graph_def_roundtrip d opts gdef v : LookUpOpDef (bytes_of "NoOp") = (OK, Some d) -> wiredb (node gdef) = true -> fits (node gdef) (spec_new d) -> forallb faithful_def (node gdef) = true ->
  (forall m, hash_order m ≡ₚ map_to_list m) ->
  wp (new_Graph addr) empty_Graph (fun _ g => exists st g' v', Construct addr TF_VERSION_STRING hash_order opts gdef g v = Done (st, (g', v')) /\
    (ok st = true -> v' = versions gdef /\ exists ds1 ds2, ToGraphDef g' = Done (ds1, g') /\ ds1 ≡ₚ ds2 /\ Forall2 same_def (node gdef) ds2)).
Proof.
  intros Hd Hwb Hfits Hf Hhash. apply (wp_new_Graph addr d); [done|]. intros g Hg. pose proof (wiredb_ok _ Hwb) as Hw. destruct (faithful_ok _ Hf) as [Hcan Hcomp].
  destruct (Construct_done opts gdef g (spec_new d) v Hg (new_bounded d) Hw Hfits Hhash) as ([st [g' v']] & Hdone & Hiff & Hok & _). exists st, g', v'. split; [exact Hdone|]. intros Hst. destruct (Hok Hst) as (-> & a1 & a2 & changed & (order & vs & es & H1 & H2 & H3 & ->) & Hfx & Hg2). split; [done|].
  unfold fits in Hfits. change (a_next_node (spec_new d)) with 2 in *. change (a_next_edge (spec_new d)) with 1 in *.
  destruct (f_extends _ _ _ Hfx) as (_ & Hnext & _). destruct (grow_next vs es (spec_new d)) as (Hn1 & _). pose proof (Permutation_length H1) as Hl. rewrite length_seqZ in Hl. destruct H2 as [Hvl Hvs].
  eapply (built_ToGraphDef addr opts gdef (spec_new d)); try done.
  - intros j e. cbn. intros [<- _]%lookup_singleton_Some. lia.
  - intros j e. cbn. intros [_ <-]%lookup_singleton_Some. cbn. lia.
  - intros i w. cbn. intros [[<- _]|[_ [<- _]%lookup_singleton_Some]]%lookup_insert_Some; lia.
  - by apply Hiff.
  - unfold zlength in *. lia.
  - rewrite Hnext, Hn1. change (a_next_node (spec_new d)) with 2. unfold zlength in *. lia.
Qed.
End Theorems.
(** ** An example *)

#[local] Existing Instances demo_registry demo_registry_laws demo_addresses.
Abbreviation demo_node nm op ins := (demo_def nm op (map bytes_of ins)).
(** A loop through a merge, with a control input. *)
Definition demo_gdef : GraphDef (AttrValue := Z) := mkGraphDef (mkVersions 17 0 []) [
  demo_node "n" "Add" ["m"; "c"; "^c"]%string;
  demo_node "m" "Merge" ["c"; "n"]%string;
  demo_node "c" "Const" []].
(** The same without the merge. *)
Definition demo_cycle : GraphDef (AttrValue := Z) := mkGraphDef (mkVersions 17 0 []) [
  demo_node "n" "Add" ["m"; "c"; "^c"]%string;
  demo_node "m" "Sub" ["c"; "n"]%string;
  demo_node "c" "Const" []].
Definition demo_opts : Options := mkOptions false false.
Definition demo_construct gdef := Construct demo_addr [] map_to_list demo_opts gdef.
Definition demo_run (gdef : GraphDef (AttrValue := Z)) : option (Status * list (list Z * list (list Z))) :=
  match new_Graph demo_addr empty_Graph with
  | Done (_, g) =>
      match demo_construct gdef g (mkVersions 0 0 []) with
      | Done (st, (g', _)) => match ToGraphDef g' with Done (l, _) => Some (st, map (fun d => (def_name d, def_input d)) l) | _ => None end
      | _ => None
      end
  | _ => None
  end.
Example demo_accepted : demo_run demo_gdef = Some (OK, [(bytes_of "c", []); (bytes_of "m", map bytes_of ["c"; "n"]%string); (bytes_of "n", map bytes_of ["m"; "c"; "^c"]%string)]).
Proof. vm_compute. reflexivity. Qed.
Example demo_refused : demo_run demo_cycle = Some (InvalidArgument (bytes_of "2 nodes in a cycle"), []).
Proof. vm_compute. reflexivity. Qed.

Lemma graph_construct_witness : wiredb (node demo_gdef) = true /\
  wp (new_Graph demo_addr ;;; run_all demo_addr demo) empty_Graph (fun _ g => exists r, demo_construct demo_gdef g (mkVersions 0 0 []) = Done r /\
    constructed demo_addr demo_opts demo_gdef (spec_all demo (spec_new 0)).1 (mkVersions 0 0 []) r).
Proof.
  split; [vm_compute; reflexivity|]. apply (graph_construct demo_addr [] map_to_list 0 demo demo_opts demo_gdef); [reflexivity|vm_compute; reflexivity|vm_compute; reflexivity|vm_compute; reflexivity|]. intros m. reflexivity.
Defined.
Lemma graph_def_roundtrip_witness : forallb faithful_def (node demo_gdef) = true /\
  wp (new_Graph demo_addr) empty_Graph (fun _ g => exists st g' v', demo_construct demo_gdef g (mkVersions 0 0 []) = Done (st, (g', v')) /\
    (ok st = true -> v' = versions demo_gdef /\ exists ds1 ds2, ToGraphDef g' = Done (ds1, g') /\ ds1 ≡ₚ ds2 /\ Forall2 same_def (node demo_gdef) ds2)).
Proof.
  split; [vm_compute; reflexivity|]. apply (graph_def_roundtrip demo_addr [] map_to_list 0 demo_opts demo_gdef); [reflexivity|vm_compute; reflexivity|vm_compute; reflexivity|vm_compute; reflexivity|]. intros m. reflexivity.
Defined.
End GraphConstructorTheorems.
