(* ===== verification/BfcAllocator.v ===== *)
(** * The best-fit-with-coalescing allocator

    core/common_runtime/bfc_allocator.{h,cc}: the chunk table, the bins of free
    chunks, the regions obtained from the sub-allocator, and every operation
    on them. *)
From S2P Require Import Prelude.

(** ** The sub-allocator

    [SubAllocator] is an abstract class: [Alloc(alignment, num_bytes)] returns a
    pointer ([0] is [nullptr]).  The state it keeps is a type of its own. *)
Class SubAllocator (SA : Type) := {
  sa_alloc : SA -> Z -> Z -> Z * SA
}.

Module BFCAllocator.

(** ** Constants and arithmetic *)

Definition kInvalidChunkHandle : Z := -1.
Definition kInvalidBinNum : Z := -1.
Definition kNumBins : Z := 21.
Definition kMinAllocationBits : Z := 8.
Definition kMinAllocationSize : Z := Z.shiftl 1 kMinAllocationBits.

Definition RoundedBytes (bytes : Z) : Z :=
  u64 (kMinAllocationSize *
       (u64 (bytes + kMinAllocationSize - 1) / kMinAllocationSize)).

(** [63 ^ __builtin_clzll(n)] *)
Definition Log2FloorNonZero (n : Z) : Z := Z.lxor 63 (63 - Z.log2 n).

Definition BinNumToSize (index : Z) : Z := u64 (Z.shiftl 256 index).

Definition BinNumForSize (bytes : Z) : Z :=
  let v := Z.shiftr (Z.max bytes 256) kMinAllocationBits in
  Z.min (kNumBins - 1) (Log2FloorNonZero v).

(** ** Data *)

Record Chunk := mkChunk {
  c_size : Z;
  requested_size : Z;
  allocation_id : Z;
  c_ptr : Z;
  c_prev : Z;
  c_next : Z;
  bin_num : Z
}.

Definition Chunk_default : Chunk :=
  mkChunk 0 0 (-1) 0 kInvalidChunkHandle kInvalidChunkHandle kInvalidBinNum.

Definition in_use (c : Chunk) : bool := negb (allocation_id c =? -1).

Definition with_size v c := mkChunk v (requested_size c) (allocation_id c) (c_ptr c) (c_prev c) (c_next c) (bin_num c).
Definition with_requested_size v c := mkChunk (c_size c) v (allocation_id c) (c_ptr c) (c_prev c) (c_next c) (bin_num c).
Definition with_allocation_id v c := mkChunk (c_size c) (requested_size c) v (c_ptr c) (c_prev c) (c_next c) (bin_num c).
Definition with_ptr v c := mkChunk (c_size c) (requested_size c) (allocation_id c) v (c_prev c) (c_next c) (bin_num c).
Definition with_prev v c := mkChunk (c_size c) (requested_size c) (allocation_id c) (c_ptr c) v (c_next c) (bin_num c).
Definition with_next v c := mkChunk (c_size c) (requested_size c) (allocation_id c) (c_ptr c) (c_prev c) v (bin_num c).
Definition with_bin_num v c := mkChunk (c_size c) (requested_size c) (allocation_id c) (c_ptr c) (c_prev c) (c_next c) v.

Record Bin := mkBin { bin_size : Z; free_chunks : list Z }.

Record AllocationRegion := mkRegion {
  r_ptr : Z;
  memory_size : Z;
  r_end_ptr : Z;
  handles : list Z
}.

Record AllocatorStats := mkStats {
  num_allocs : Z;
  bytes_in_use : Z;
  max_bytes_in_use : Z;
  max_alloc_size : Z;
  bytes_limit : Z
}.

(** A visitor is named by an integer; a call [visitor(ptr, size)] is recorded
    in the trace [visits]. *)
Record Allocator {SA : Type} := mkAllocator {
  memory_limit_ : Z;
  bins : list Bin;
  curr_region_allocation_bytes_ : Z;
  total_region_allocated_bytes_ : Z;
  started_backpedal_ : bool;
  suballocator_ : SA;
  regions_ : list AllocationRegion;
  chunks_ : list Chunk;
  free_chunks_list_ : Z;
  region_visitors_ : list Z;
  next_allocation_id_ : Z;
  stats_ : AllocatorStats;
  visits : list (Z * Z * Z)
}.
Arguments Allocator SA : clear implicits.

(** ** AllocationRegion and RegionManager *)

Definition AllocationRegion_new (ptr memory_size : Z) : AllocationRegion :=
  let n_handles := u64 (memory_size + kMinAllocationSize - 1) / kMinAllocationSize in
  mkRegion ptr memory_size (u64 (ptr + memory_size))
           (replicate (Z.to_nat n_handles) kInvalidChunkHandle).

Definition IndexFor (r : AllocationRegion) (p : Z) : Z :=
  s32 (Z.shiftr (u64 (p - r_ptr r)) kMinAllocationBits).

Definition region_get_handle (r : AllocationRegion) (p : Z) : option Z :=
  handles r !!z IndexFor r p.

Definition region_set_handle (r : AllocationRegion) (p h : Z) : option AllocationRegion :=
  match handles r !!z IndexFor r p with
  | Some _ => Some (mkRegion (r_ptr r) (memory_size r) (r_end_ptr r)
                             (zinsert (handles r) (IndexFor r p) h))
  | None => None
  end.

(** [std::upper_bound(regions_.begin(), regions_.end(), p, &Comparator)] on the
    regions, which are sorted by [end_ptr]: the index of the first region with
    [p < end_ptr]. *)
Fixpoint upper_bound (p : Z) (rs : list AllocationRegion) : nat :=
  match rs with
  | [] => O
  | r :: rs' => if p <? r_end_ptr r then O else S (upper_bound p rs')
  end.

Definition AddAllocationRegion (ptr memory_size : Z) (rs : list AllocationRegion) :
    list AllocationRegion :=
  let entry := upper_bound ptr rs in
  take entry rs ++ AllocationRegion_new ptr memory_size :: drop entry rs.

(** [RegionFor]: [None] is [LOG(FATAL)]. *)
Definition RegionFor (p : Z) (rs : list AllocationRegion) : option (nat * AllocationRegion) :=
  let entry := upper_bound p rs in
  r ← rs !! entry; Some (entry, r).

Definition get_handle (p : Z) (rs : list AllocationRegion) : option Z :=
  '(_, r) ← RegionFor p rs; region_get_handle r p.

Definition set_handle (p h : Z) (rs : list AllocationRegion) : option (list AllocationRegion) :=
  '(i, r) ← RegionFor p rs;
  r' ← region_set_handle r p h;
  Some (<[i := r']> rs).

Definition erase_handle (p : Z) (rs : list AllocationRegion) : option (list AllocationRegion) :=
  set_handle p kInvalidChunkHandle rs.

(** ** FreeChunkSet: [std::set<ChunkHandle, ChunkComparator>]

    The set is the list of its elements in the comparator's order. *)
Definition ChunkComparator (cs : list Chunk) (ha hb : Z) : bool :=
  match cs !!z ha, cs !!z hb with
  | Some a, Some b =>
      if negb (c_size a =? c_size b) then c_size a <? c_size b
      else c_ptr a <? c_ptr b
  | _, _ => false
  end.

(** [insert(h)]: no effect when an equivalent element is present. *)
Fixpoint set_insert (cs : list Chunk) (h : Z) (l : list Z) : list Z :=
  match l with
  | [] => [h]
  | x :: l' =>
      if ChunkComparator cs h x then h :: l
      else if ChunkComparator cs x h then x :: set_insert cs h l'
      else l
  end.

(** [erase(h)]: the elements equivalent to [h]; the number of elements erased. *)
Fixpoint set_erase (cs : list Chunk) (h : Z) (l : list Z) : nat * list Z :=
  match l with
  | [] => (O, [])
  | x :: l' =>
      if negb (ChunkComparator cs h x) && negb (ChunkComparator cs x h)
      then (1%nat, l')
      else let '(n, r) := set_erase cs h l' in (n, x :: r)
  end.

(** [erase(citer)] where [*citer == h] *)
Definition set_erase_iter (h : Z) (l : list Z) : list Z :=
  filter (fun x => x <> h) l.

(** ** The operations *)

Section Ops.
Context {SA : Type} `{!SubAllocator SA}.
Abbreviation M := (ST (Allocator SA)).

Definition set_bins v (a : Allocator SA) := mkAllocator SA (memory_limit_ a) v (curr_region_allocation_bytes_ a) (total_region_allocated_bytes_ a) (started_backpedal_ a) (suballocator_ a) (regions_ a) (chunks_ a) (free_chunks_list_ a) (region_visitors_ a) (next_allocation_id_ a) (stats_ a) (visits a).
Definition set_curr v (a : Allocator SA) := mkAllocator SA (memory_limit_ a) (bins a) v (total_region_allocated_bytes_ a) (started_backpedal_ a) (suballocator_ a) (regions_ a) (chunks_ a) (free_chunks_list_ a) (region_visitors_ a) (next_allocation_id_ a) (stats_ a) (visits a).
Definition set_total v (a : Allocator SA) := mkAllocator SA (memory_limit_ a) (bins a) (curr_region_allocation_bytes_ a) v (started_backpedal_ a) (suballocator_ a) (regions_ a) (chunks_ a) (free_chunks_list_ a) (region_visitors_ a) (next_allocation_id_ a) (stats_ a) (visits a).
Definition set_started_backpedal v (a : Allocator SA) := mkAllocator SA (memory_limit_ a) (bins a) (curr_region_allocation_bytes_ a) (total_region_allocated_bytes_ a) v (suballocator_ a) (regions_ a) (chunks_ a) (free_chunks_list_ a) (region_visitors_ a) (next_allocation_id_ a) (stats_ a) (visits a).
Definition set_sub v (a : Allocator SA) := mkAllocator SA (memory_limit_ a) (bins a) (curr_region_allocation_bytes_ a) (total_region_allocated_bytes_ a) (started_backpedal_ a) v (regions_ a) (chunks_ a) (free_chunks_list_ a) (region_visitors_ a) (next_allocation_id_ a) (stats_ a) (visits a).
Definition set_regions v (a : Allocator SA) := mkAllocator SA (memory_limit_ a) (bins a) (curr_region_allocation_bytes_ a) (total_region_allocated_bytes_ a) (started_backpedal_ a) (suballocator_ a) v (chunks_ a) (free_chunks_list_ a) (region_visitors_ a) (next_allocation_id_ a) (stats_ a) (visits a).
Definition set_chunks v (a : Allocator SA) := mkAllocator SA (memory_limit_ a) (bins a) (curr_region_allocation_bytes_ a) (total_region_allocated_bytes_ a) (started_backpedal_ a) (suballocator_ a) (regions_ a) v (free_chunks_list_ a) (region_visitors_ a) (next_allocation_id_ a) (stats_ a) (visits a).
Definition set_free_chunks_list v (a : Allocator SA) := mkAllocator SA (memory_limit_ a) (bins a) (curr_region_allocation_bytes_ a) (total_region_allocated_bytes_ a) (started_backpedal_ a) (suballocator_ a) (regions_ a) (chunks_ a) v (region_visitors_ a) (next_allocation_id_ a) (stats_ a) (visits a).
Definition set_region_visitors v (a : Allocator SA) := mkAllocator SA (memory_limit_ a) (bins a) (curr_region_allocation_bytes_ a) (total_region_allocated_bytes_ a) (started_backpedal_ a) (suballocator_ a) (regions_ a) (chunks_ a) (free_chunks_list_ a) v (next_allocation_id_ a) (stats_ a) (visits a).
Definition set_next_id v (a : Allocator SA) := mkAllocator SA (memory_limit_ a) (bins a) (curr_region_allocation_bytes_ a) (total_region_allocated_bytes_ a) (started_backpedal_ a) (suballocator_ a) (regions_ a) (chunks_ a) (free_chunks_list_ a) (region_visitors_ a) v (stats_ a) (visits a).
Definition set_stats v (a : Allocator SA) := mkAllocator SA (memory_limit_ a) (bins a) (curr_region_allocation_bytes_ a) (total_region_allocated_bytes_ a) (started_backpedal_ a) (suballocator_ a) (regions_ a) (chunks_ a) (free_chunks_list_ a) (region_visitors_ a) (next_allocation_id_ a) v (visits a).
Definition set_visits v (a : Allocator SA) := mkAllocator SA (memory_limit_ a) (bins a) (curr_region_allocation_bytes_ a) (total_region_allocated_bytes_ a) (started_backpedal_ a) (suballocator_ a) (regions_ a) (chunks_ a) (free_chunks_list_ a) (region_visitors_ a) (next_allocation_id_ a) (stats_ a) v.

Definition ChunkFromHandle (h : Z) : M Chunk :=
  let! a := st_get in st_opt (chunks_ a !!z h).

(** [ChunkFromHandle(h)->field = v] *)
Definition UpdateChunk (h : Z) (f : Chunk -> Chunk) : M unit :=
  let! c := ChunkFromHandle h in
  st_modify (fun a => set_chunks (zinsert (chunks_ a) h (f c)) a).

Definition AllocateChunk : M Z :=
  let! a := st_get in
  if negb (free_chunks_list_ a =? kInvalidChunkHandle) then
    let h := free_chunks_list_ a in
    let! c := ChunkFromHandle h in
    st_modify (set_free_chunks_list (c_next c)) ;;;
    st_ret h
  else
    let h := zlength (chunks_ a) in
    st_modify (set_chunks (chunks_ a ++ [Chunk_default])) ;;;
    st_ret h.

Definition DeallocateChunk (h : Z) : M unit :=
  let! a := st_get in
  UpdateChunk h (with_next (free_chunks_list_ a)) ;;;
  st_modify (set_free_chunks_list h).

Definition rm_set_handle (p h : Z) : M unit :=
  let! a := st_get in
  let! rs := st_opt (set_handle p h (regions_ a)) in
  st_modify (set_regions rs).

Definition rm_erase (p : Z) : M unit :=
  let! a := st_get in
  let! rs := st_opt (erase_handle p (regions_ a)) in
  st_modify (set_regions rs).

Definition rm_get_handle (p : Z) : M Z :=
  let! a := st_get in st_opt (get_handle p (regions_ a)).

Definition BinFromIndex (index : Z) : M Bin :=
  let! a := st_get in st_opt (bins a !!z index).

Definition set_free_chunks (index : Z) (l : list Z) : M unit :=
  let! b := BinFromIndex index in
  st_modify (fun a => set_bins (zinsert (bins a) index (mkBin (bin_size b) l)) a).

Definition InsertFreeChunkIntoBin (h : Z) : M unit :=
  let! c := ChunkFromHandle h in
  st_check (negb (in_use c) && (bin_num c =? kInvalidBinNum)) ;;;
  let bn := BinNumForSize (c_size c) in
  let! new_bin := BinFromIndex bn in
  UpdateChunk h (with_bin_num bn) ;;;
  let! a := st_get in
  set_free_chunks bn (set_insert (chunks_ a) h (free_chunks new_bin)).

(** [index] is the bin whose [free_chunks] is iterated, [h] is [*citer]. *)
Definition RemoveFreeChunkIterFromBin (index h : Z) : M unit :=
  let! c := ChunkFromHandle h in
  st_check (negb (in_use c) && negb (bin_num c =? kInvalidBinNum)) ;;;
  let! b := BinFromIndex index in
  set_free_chunks index (set_erase_iter h (free_chunks b)) ;;;
  UpdateChunk h (with_bin_num kInvalidBinNum).

Definition RemoveFreeChunkFromBin (h : Z) : M unit :=
  let! c := ChunkFromHandle h in
  st_check (negb (in_use c) && negb (bin_num c =? kInvalidBinNum)) ;;;
  let! b := BinFromIndex (bin_num c) in
  let! a := st_get in
  let '(count, l) := set_erase (chunks_ a) h (free_chunks b) in
  set_free_chunks (bin_num c) l ;;;
  st_check (0 <? Z.of_nat count) ;;;
  UpdateChunk h (with_bin_num kInvalidBinNum).

Definition DeleteChunk (h : Z) : M unit :=
  let! c := ChunkFromHandle h in
  rm_erase (c_ptr c) ;;;
  DeallocateChunk h.

Definition SplitChunk (h num_bytes : Z) : M unit :=
  let! h_new_chunk := AllocateChunk in
  let! c := ChunkFromHandle h in
  st_check (negb (in_use c) && (bin_num c =? kInvalidBinNum)) ;;;
  UpdateChunk h_new_chunk (with_ptr (u64 (c_ptr c + num_bytes))) ;;;
  let! nc := ChunkFromHandle h_new_chunk in
  rm_set_handle (c_ptr nc) h_new_chunk ;;;
  UpdateChunk h_new_chunk (with_size (u64 (c_size c - num_bytes))) ;;;
  UpdateChunk h (with_size num_bytes) ;;;
  UpdateChunk h_new_chunk (with_allocation_id (-1)) ;;;
  let! c := ChunkFromHandle h in
  let h_neighbor := c_next c in
  UpdateChunk h_new_chunk (with_prev h) ;;;
  UpdateChunk h_new_chunk (with_next h_neighbor) ;;;
  UpdateChunk h (with_next h_new_chunk) ;;;
  (if negb (h_neighbor =? kInvalidChunkHandle) then
     UpdateChunk h_neighbor (with_prev h_new_chunk)
   else st_ret tt) ;;;
  InsertFreeChunkIntoBin h_new_chunk.

Definition Merge (h1 h2 : Z) : M unit :=
  let! c1 := ChunkFromHandle h1 in
  let! c2 := ChunkFromHandle h2 in
  st_check (negb (in_use c1) && negb (in_use c2)) ;;;
  let h3 := c_next c2 in
  UpdateChunk h1 (with_next h3) ;;;
  st_check (c_prev c2 =? h1) ;;;
  (if negb (h3 =? kInvalidChunkHandle) then UpdateChunk h3 (with_prev h1)
   else st_ret tt) ;;;
  UpdateChunk h1 (fun c => with_size (u64 (c_size c + c_size c2)) c) ;;;
  DeleteChunk h2.

(** The body of the search loop once a chunk [h] of bin [bn] fits. The id is
    counted without bound: the code has an [int64], whose overflow, after
    2^63 - 1 allocations, has no meaning in C++. *)
Definition TakeChunk (bn h rounded_bytes num_bytes : Z) : M Z :=
  RemoveFreeChunkIterFromBin bn h ;;;
  let! chunk := ChunkFromHandle h in
  (if u64 (rounded_bytes * 2) <=? c_size chunk then SplitChunk h rounded_bytes
   else st_ret tt) ;;;
  UpdateChunk h (with_requested_size num_bytes) ;;;
  let! a := st_get in
  UpdateChunk h (with_allocation_id (next_allocation_id_ a)) ;;;
  st_modify (set_next_id (next_allocation_id_ a + 1)) ;;;
  let! chunk := ChunkFromHandle h in
  st_modify (fun a =>
    let s := stats_ a in
    let bytes := s64 (bytes_in_use s + c_size chunk) in
    set_stats (mkStats (s64 (num_allocs s + 1)) bytes
                       (Z.max (max_bytes_in_use s) bytes)
                       (Z.max (max_alloc_size s) (c_size chunk))
                       (bytes_limit s)) a) ;;;
  st_ret (c_ptr chunk).

(** The inner loop: the first chunk of [l], in the set's order, that fits. *)
Fixpoint FindInBin (bn rounded_bytes num_bytes : Z) (l : list Z) : M (option Z) :=
  match l with
  | [] => st_ret None
  | h :: l' =>
      let! chunk := ChunkFromHandle h in
      if rounded_bytes <=? c_size chunk then
        let! p := TakeChunk bn h rounded_bytes num_bytes in st_ret (Some p)
      else FindInBin bn rounded_bytes num_bytes l'
  end.

(** The outer loop, [n] bins from [bn]. *)
Fixpoint FindFromBin (n : nat) (bn rounded_bytes num_bytes : Z) : M Z :=
  match n with
  | O => st_ret 0
  | S n' =>
      let! b := BinFromIndex bn in
      let! r := FindInBin bn rounded_bytes num_bytes (free_chunks b) in
      match r with
      | Some p => st_ret p
      | None => FindFromBin n' (bn + 1) rounded_bytes num_bytes
      end
  end.

Definition FindChunkPtr (bn rounded_bytes num_bytes : Z) : M Z :=
  FindFromBin (Z.to_nat (kNumBins - bn)) bn rounded_bytes num_bytes.

(** *** Extend *)

(** IEEE binary32, round to nearest even: the rounding of [m * 2^e], [m >= 0],
    to a 24-bit significand (no overflow or underflow is reached here). *)
Definition f32_round (m e : Z) : Z * Z :=
  let s := Z.log2 m + 1 - 24 in
  if s <=? 0 then (m, e)
  else
    let q := m / 2 ^ s in
    let r := m mod 2 ^ s in
    let half := 2 ^ (s - 1) in
    (if r <? half then q else if half <? r then q + 1
     else if Z.even q then q else q + 1, e + s).

(** [static_cast<size_t>(bytes * kBackpedalFactor)] with the [float] constant
    0.9, which is 15099494 / 2^24. *)
Definition MulBackpedal (bytes : Z) : Z :=
  let '(m1, e1) := f32_round bytes 0 in
  let '(m2, e2) := f32_round (m1 * 15099494) (e1 - 24) in
  if 0 <=? e2 then m2 * 2 ^ e2 else m2 / 2 ^ (- e2).

(** [while (rounded_bytes > curr_region_allocation_bytes_) ... *= 2]: the new
    size and [increased_allocation]. *)
Fixpoint GrowRegion (fuel : nat) (rounded_bytes curr : Z) (increased : bool) :
    outcome (Z * bool) :=
  match fuel with
  | O => Diverges
  | S f =>
      if curr <? rounded_bytes then GrowRegion f rounded_bytes (u64 (curr * 2)) true
      else Done (curr, increased)
  end.

Definition SubAlloc (bytes : Z) : M Z :=
  let! a := st_get in
  let '(p, s) := sa_alloc (suballocator_ a) 32 bytes in
  st_modify (set_sub s) ;;;
  st_ret p.

(** [while (mem_addr == nullptr && bytes > rounded_bytes)]: the address and the
    final value of [bytes]. *)
Fixpoint Backpedal (fuel : nat) (rounded_bytes mem_addr bytes : Z) : M (Z * Z) :=
  match fuel with
  | O => st_diverge
  | S f =>
      if (mem_addr =? 0) && (rounded_bytes <? bytes) then
        let! p := SubAlloc bytes in
        Backpedal f rounded_bytes p (RoundedBytes (MulBackpedal bytes))
      else st_ret (mem_addr, bytes)
  end.

Definition InvokeVisitors (mem_addr bytes : Z) : M unit :=
  st_modify (fun a =>
    set_visits (visits a ++ map (fun v => (v, mem_addr, bytes)) (region_visitors_ a)) a).

(** The allocation of the region: try [bytes], and backpedal once. *)
Definition AllocRegion (fuel : nat) (rounded_bytes bytes : Z) : M (Z * Z) :=
  let! mem_addr := SubAlloc bytes in
  let! a := st_get in
  if (mem_addr =? 0) && negb (started_backpedal_ a) then
    st_modify (set_started_backpedal true) ;;;
    Backpedal fuel rounded_bytes mem_addr (RoundedBytes (MulBackpedal bytes))
  else st_ret (mem_addr, bytes).

(** Registering the region and its one large chunk. *)
Definition NewRegion (mem_addr bytes : Z) : M unit :=
  st_modify (fun a => set_total (u64 (total_region_allocated_bytes_ a + bytes)) a) ;;;
  st_modify (fun a => set_regions (AddAllocationRegion mem_addr bytes (regions_ a)) a) ;;;
  let! h := AllocateChunk in
  UpdateChunk h (with_ptr mem_addr) ;;;
  UpdateChunk h (with_size bytes) ;;;
  UpdateChunk h (with_allocation_id (-1)) ;;;
  UpdateChunk h (with_prev kInvalidChunkHandle) ;;;
  UpdateChunk h (with_next kInvalidChunkHandle) ;;;
  rm_set_handle mem_addr h ;;;
  InsertFreeChunkIntoBin h ;;;
  InvokeVisitors mem_addr bytes.

Definition Extend (fuel : nat) (rounded_bytes : Z) : M bool :=
  let! a := st_get in
  let available_bytes := u64 (memory_limit_ a - total_region_allocated_bytes_ a) in
  let available_bytes := u64 ((available_bytes / kMinAllocationSize) * kMinAllocationSize) in
  if available_bytes <? rounded_bytes then st_ret false
  else
    let! '(curr, increased_allocation) :=
      st_outcome (GrowRegion fuel rounded_bytes (curr_region_allocation_bytes_ a) false) in
    st_modify (set_curr curr) ;;;
    let bytes := Z.min curr available_bytes in
    let! '(mem_addr, bytes) := AllocRegion fuel rounded_bytes bytes in
    if mem_addr =? 0 then st_ret false
    else
      (if negb increased_allocation then
         st_modify (fun a => set_curr (u64 (curr_region_allocation_bytes_ a * 2)) a)
       else st_ret tt) ;;;
      NewRegion mem_addr bytes ;;;
      st_ret true.

(** *** The public interface *)

Definition AllocateRawInternal (fuel : nat) (num_bytes : Z) : M Z :=
  if num_bytes =? 0 then st_ret 0
  else
    let rounded_bytes := RoundedBytes num_bytes in
    let bn := BinNumForSize rounded_bytes in
    let! ptr := FindChunkPtr bn rounded_bytes num_bytes in
    if negb (ptr =? 0) then st_ret ptr
    else
      let! extended := Extend fuel rounded_bytes in
      if extended then FindChunkPtr bn rounded_bytes num_bytes
      else st_ret 0.

Definition FreeAndMaybeCoalesce (h : Z) : M unit :=
  let! c := ChunkFromHandle h in
  st_check (in_use c && (bin_num c =? kInvalidBinNum)) ;;;
  UpdateChunk h (with_allocation_id (-1)) ;;;
  st_modify (fun a =>
    let s := stats_ a in
    set_stats (mkStats (num_allocs s) (s64 (bytes_in_use s - c_size c))
                       (max_bytes_in_use s) (max_alloc_size s) (bytes_limit s)) a) ;;;
  (if negb (c_next c =? kInvalidChunkHandle) then
     let! cnext := ChunkFromHandle (c_next c) in
     if negb (in_use cnext) then
       RemoveFreeChunkFromBin (c_next c) ;;;
       let! c' := ChunkFromHandle h in
       Merge h (c_next c')
     else st_ret tt
   else st_ret tt) ;;;
  let! c := ChunkFromHandle h in
  let! chunk_to_reassign :=
    (if negb (c_prev c =? kInvalidChunkHandle) then
       let! cprev := ChunkFromHandle (c_prev c) in
       if negb (in_use cprev) then
         RemoveFreeChunkFromBin (c_prev c) ;;;
         let! c' := ChunkFromHandle h in
         Merge (c_prev c') h ;;;
         st_ret (c_prev c)
       else st_ret h
     else st_ret h) in
  InsertFreeChunkIntoBin chunk_to_reassign.

Definition DeallocateRawInternal (ptr : Z) : M unit :=
  if ptr =? 0 then st_ret tt
  else
    let! h := rm_get_handle ptr in
    st_check (negb (h =? kInvalidChunkHandle)) ;;;
    FreeAndMaybeCoalesce h.

Definition AddAllocVisitor (visitor : Z) : M unit :=
  st_modify (fun a => set_region_visitors (region_visitors_ a ++ [visitor]) a) ;;;
  st_modify (fun a =>
    set_visits (visits a ++ map (fun r => (visitor, r_ptr r, memory_size r)) (regions_ a)) a).

Definition ChunkOf (ptr : Z) : M Chunk :=
  let! h := rm_get_handle ptr in
  st_check (negb (h =? kInvalidChunkHandle)) ;;;
  ChunkFromHandle h.

Definition RequestedSize (ptr : Z) : M Z :=
  let! c := ChunkOf ptr in st_ret (requested_size c).
Definition AllocatedSize (ptr : Z) : M Z :=
  let! c := ChunkOf ptr in st_ret (c_size c).
Definition AllocationId (ptr : Z) : M Z :=
  let! c := ChunkOf ptr in st_ret (allocation_id c).
Definition GetStats : M AllocatorStats :=
  let! a := st_get in st_ret (stats_ a).

(** The constructor; [None] is a failed [CHECK]. *)
Definition bin_checks (b : Z) : bool :=
  let bin_size := BinNumToSize b in
  (BinNumForSize bin_size =? b) &&
  (BinNumForSize (u64 (bin_size + 255)) =? b) &&
  (BinNumForSize (u64 (u64 (bin_size * 2) - 1)) =? b) &&
  (if b + 1 <? kNumBins then negb (BinNumForSize (u64 (bin_size * 2)) =? b) else true).

Definition BFCAllocator_new (sub : SA) (total_memory : Z) (allow_growth : bool) :
    option (Allocator SA) :=
  let curr := if allow_growth then RoundedBytes (Z.min total_memory 1048576)
              else RoundedBytes total_memory in
  let bs := map Z.of_nat (seq 0 (Z.to_nat kNumBins)) in
  if forallb bin_checks bs then
    Some (mkAllocator SA total_memory (map (fun b => mkBin (BinNumToSize b) []) bs)
            curr 0 false sub [] [] kInvalidChunkHandle [] 1
            (mkStats 0 0 0 0 (s64 total_memory)) [])
  else None.

(** The calls [suballocator_->Free(ptr, size)] of the destructor. *)
Definition BFCAllocator_destroy (a : Allocator SA) : list (Z * Z) :=
  map (fun r => (r_ptr r, memory_size r)) (regions_ a).

End Ops.
End BFCAllocator.
