(* ===== verification/BfcAllocatorFacts.v ===== *)
(** * The BFC allocator: the memory invariant

    [Core] relates the regions, the chunk table, the bins and the free list of
    handles: the chunks of a region tile it and are linked in address order,
    each bin holds the free chunks of its sizes. It is kept by splitting and
    merging chunks, by the moves between bins and by the handle table. *)
From S2P Require Import Prelude BfcAllocator.
Import BFCAllocator.

Module BFCFacts.

(** ** Arithmetic of sizes and bins *)

Lemma kMin_eq : kMinAllocationSize = 256.
Proof. done. Qed.

Lemma RoundedBytes_spec n :
  0 <= n <= 2 ^ 64 - 256 ->
  (256 | RoundedBytes n) /\ n <= RoundedBytes n < n + 256.
Proof.
  intros Hn. unfold RoundedBytes. rewrite kMin_eq.
  rewrite (u64_id (n + 256 - 1)) by lia.
  pose proof (Z.div_mod (n + 256 - 1) 256 ltac:(lia)).
  pose proof (Z.mod_pos_bound (n + 256 - 1) 256 ltac:(lia)).
  rewrite u64_id by lia. split; [apply Z.divide_factor_l | lia].
Qed.

Lemma RoundedBytes_mult n :
  0 <= n <= 2 ^ 64 - 256 -> (256 | n) -> RoundedBytes n = n.
Proof.
  intros Hn [k ->]. destruct (RoundedBytes_spec (k * 256) Hn) as [[j Hj] H]. lia.
Qed.

Lemma lxor63 k : 0 <= k < 64 -> Z.lxor 63 (63 - k) = k.
Proof.
  intros Hk.
  assert (H : forallb (fun i => Z.lxor 63 (63 - Z.of_nat i) =? Z.of_nat i) (seq 0 64) = true)
    by reflexivity.
  rewrite forallb_forall in H.
  specialize (H (Z.to_nat k)). rewrite in_seq in H.
  rewrite Z2Nat.id in H by lia. apply Z.eqb_eq, H. lia.
Qed.

Lemma BinNumForSize_eq n :
  0 <= n < 2 ^ 64 ->
  BinNumForSize n = Z.min 20 (Z.log2 (Z.max n 256 / 256)).
Proof.
  intros Hn. unfold BinNumForSize, Log2FloorNonZero, kNumBins, kMinAllocationBits.
  rewrite Z.shiftr_div_pow2 by lia. change (2 ^ 8) with 256.
  assert (1 <= Z.max n 256 / 256 < 2 ^ 56).
  { split; [apply Z.div_le_lower_bound; lia | apply Z.div_lt_upper_bound; lia]. }
  assert (0 <= Z.log2 (Z.max n 256 / 256) < 56).
  { split; [apply Z.log2_nonneg | apply Z.log2_lt_pow2; lia]. }
  rewrite lxor63 by lia. done.
Qed.

Lemma BinNumForSize_range n : 0 <= n < 2 ^ 64 -> 0 <= BinNumForSize n < 21.
Proof.
  intros Hn. rewrite BinNumForSize_eq by done.
  pose proof (Z.log2_nonneg (Z.max n 256 / 256)). lia.
Qed.

Lemma BinNumForSize_mono n m :
  0 <= n < 2 ^ 64 -> 0 <= m < 2 ^ 64 -> n <= m -> BinNumForSize n <= BinNumForSize m.
Proof.
  intros Hn Hm H. rewrite !BinNumForSize_eq by done.
  assert (Z.log2 (Z.max n 256 / 256) <= Z.log2 (Z.max m 256 / 256)).
  { apply Z.log2_le_mono, Z.div_le_mono; lia. }
  lia.
Qed.

(** ** Sums over the chunk table *)

Definition wsum (f : Chunk -> Z) (cs : list Chunk) : Z := foldr (fun c acc => f c + acc) 0 cs.

Lemma wsum_app f cs1 cs2 : wsum f (cs1 ++ cs2) = wsum f cs1 + wsum f cs2.
Proof. induction cs1 as [|c cs1 IH]; simpl; lia. Qed.

Lemma wsum_insert f cs (i : nat) c c' :
  cs !! i = Some c -> wsum f (<[i := c']> cs) = wsum f cs - f c + f c'.
Proof.
  revert i. induction cs as [|c0 cs IH]; intros [|i] H; simplify_eq/=; [lia|].
  rewrite (IH _ H). lia.
Qed.

Lemma wsum_zinsert f cs h c c' :
  cs !!z h = Some c -> wsum f (zinsert cs h c') = wsum f cs - f c + f c'.
Proof.
  unfold zlookup, zinsert. destruct (h <? 0); [done|]. apply wsum_insert.
Qed.

Lemma wsum_le f g cs : (forall c, f c <= g c) -> wsum f cs <= wsum g cs.
Proof. intros H. induction cs as [|c cs IH]; simpl; [lia|]. specialize (H c). lia. Qed.


Lemma zlookup_snoc {A} (l : list A) x : (l ++ [x]) !!z zlength l = Some x.
Proof.
  unfold zlookup, zlength. destruct (Z.ltb_spec (Z.of_nat (length l)) 0); [lia|].
  rewrite Nat2Z.id. by apply list_lookup_middle.
Qed.

Lemma zlookup_snoc_inv {A} (l : list A) x h y :
  (l ++ [x]) !!z h = Some y -> l !!z h = Some y \/ (h = zlength l /\ y = x).
Proof.
  unfold zlookup, zlength. destruct (Z.ltb_spec h 0); [done|].
  intros Hl. apply lookup_app_Some in Hl as [?|[? Hl]]; [by left|right].
  apply list_lookup_singleton_Some in Hl as [? ->]. split; [lia|done].
Qed.

(** ** Regions and the handle table *)

Definition region_ok (r : AllocationRegion) : Prop :=
  0 < r_ptr r /\ 0 < memory_size r < 2 ^ 39 /\ (256 | memory_size r) /\
  r_end_ptr r = r_ptr r + memory_size r /\ r_end_ptr r < 2 ^ 64 /\
  zlength (handles r) = memory_size r / 256.

Record reg_wf (rs : list AllocationRegion) : Prop := {
  rw_ok : Forall region_ok rs;
  rw_sorted : StronglySorted (fun r r' => r_end_ptr r <= r_ptr r') rs
}.

Definition geom (rs : list AllocationRegion) : list (Z * Z) :=
  map (fun r => (r_ptr r, memory_size r)) rs.

(** [p] is the start of a 256-byte slot of the region [(b, m)]. *)
Definition slot (rs : list AllocationRegion) (b m p : Z) : Prop :=
  (b, m) ∈ geom rs /\ b <= p < b + m /\ (256 | p - b).

Lemma upper_bound_spec rs r i p :
  Forall region_ok rs -> StronglySorted (fun r r' => r_end_ptr r <= r_ptr r') rs ->
  rs !! i = Some r -> r_ptr r <= p < r_end_ptr r -> upper_bound p rs = i.
Proof.
  revert i. induction rs as [|r0 rs IH]; intros i Hok Hs Hi Hp; [done|].
  inversion_clear Hok as [|?? Hr0 Hok']. inversion_clear Hs as [|?? Hs' Hall].
  destruct i as [|i]; simplify_eq/=.
  - destruct (Z.ltb_spec p (r_end_ptr r)); [done|lia].
  - rewrite Forall_forall in Hall. specialize (Hall r).
    pose proof (Hall ltac:(eapply list_elem_of_lookup_2; eauto)).
    destruct (Z.ltb_spec p (r_end_ptr r0)); [lia|].
    f_equal. by apply IH.
Qed.

Lemma RegionFor_slot rs b m p :
  reg_wf rs -> slot rs b m p ->
  exists i r, RegionFor p rs = Some (i, r) /\ rs !! i = Some r /\
    r_ptr r = b /\ memory_size r = m /\ region_ok r /\
    IndexFor r p = (p - b) / 256 /\ 0 <= (p - b) / 256 < zlength (handles r).
Proof.
  intros [Hok Hs] ([r [Heq Hin]]%list_elem_of_fmap & Hp & Hd). simplify_eq.
  apply list_elem_of_lookup in Hin as [i Hi].
  pose proof (Forall_lookup_1 _ _ _ _ Hok Hi) as Hr.
  destruct Hr as (H1 & H2 & H3 & H4 & H5 & H6).
  exists i, r.
  assert (upper_bound p rs = i) as Hub by (eapply upper_bound_spec; eauto; lia).
  assert (0 <= (p - r_ptr r) / 256 < memory_size r / 256).
  { split; [apply Z.div_pos; lia|]. destruct Hd as [k Hk], H3 as [j Hj].
    rewrite Hk, Hj, !Z.div_mul by lia. lia. }
  unfold RegionFor. rewrite Hub, Hi. repeat split; try done; try lia.
  unfold IndexFor, kMinAllocationBits. rewrite u64_id by lia.
  rewrite Z.shiftr_div_pow2 by lia. change (2 ^ 8) with 256.
  assert (memory_size r / 256 < 2 ^ 31) by (apply Z.div_lt_upper_bound; lia).
  rewrite s32_id by lia. done.
Qed.

Lemma slot_unique rs b m b' m' p :
  reg_wf rs -> slot rs b m p -> slot rs b' m' p -> b = b' /\ m = m'.
Proof.
  intros Hw H1 H2.
  destruct (RegionFor_slot _ _ _ _ Hw H1) as (i & r & E1 & _ & <- & <- & _).
  destruct (RegionFor_slot _ _ _ _ Hw H2) as (i' & r' & E2 & _ & <- & <- & _).
  by simplify_eq.
Qed.

Lemma get_handle_slot rs b m p :
  reg_wf rs -> slot rs b m p -> exists h, get_handle p rs = Some h.
Proof.
  intros Hw Hs. destruct (RegionFor_slot _ _ _ _ Hw Hs) as (i & r & E & _ & _ & _ & _ & HI & HR).
  unfold get_handle. rewrite E. simpl. unfold region_get_handle. rewrite HI.
  by apply zlookup_is_Some.
Qed.

Definition with_handles (hs : list Z) (r : AllocationRegion) : AllocationRegion :=
  mkRegion (r_ptr r) (memory_size r) (r_end_ptr r) hs.

Lemma upper_bound_insert rs (i : nat) r hs p :
  rs !! i = Some r -> upper_bound p (<[i := with_handles hs r]> rs) = upper_bound p rs.
Proof.
  revert i. induction rs as [|r0 rs IH]; intros [|i] H; simplify_eq/=; [done|].
  by rewrite (IH _ H).
Qed.

Lemma geom_insert rs (i : nat) r hs :
  rs !! i = Some r -> geom (<[i := with_handles hs r]> rs) = geom rs.
Proof.
  intros Hi. unfold geom. rewrite list_fmap_insert. apply list_insert_id.
  by rewrite list_lookup_fmap, Hi.
Qed.

Lemma reg_wf_insert rs (i : nat) r hs :
  reg_wf rs -> rs !! i = Some r -> zlength hs = zlength (handles r) ->
  reg_wf (<[i := with_handles hs r]> rs).
Proof.
  intros [Hf Hs] Hi Hlen. split.
  - apply Forall_insert; [done|]. pose proof (Forall_lookup_1 _ _ _ _ Hf Hi) as Hr.
    destruct Hr as (?&?&?&?&?&?). unfold region_ok; simpl. rewrite Hlen. done.
  - clear Hf Hlen. revert i Hi. induction Hs as [|r0 rs Hs IH Hall]; intros [|i] Hi; simplify_eq/=.
    + by constructor.
    + constructor; [by apply IH|]. apply Forall_insert; [done|]. simpl.
      rewrite Forall_forall in Hall. apply Hall. by eapply list_elem_of_lookup_2.
Qed.

Lemma set_handle_slot rs b m p h :
  reg_wf rs -> slot rs b m p ->
  exists rs', set_handle p h rs = Some rs' /\ reg_wf rs' /\ geom rs' = geom rs /\
    get_handle p rs' = Some h /\
    (forall b' m' q, slot rs b' m' q -> q <> p -> get_handle q rs' = get_handle q rs).
Proof.
  intros Hw Hs.
  destruct (RegionFor_slot _ _ _ _ Hw Hs) as (i & r & E & Hi & Hb & Hm & Hok & HI & HR).
  destruct (zlookup_is_Some _ _ HR) as [h0 Hh0].
  set (hs := zinsert (handles r) ((p - b) / 256) h).
  exists (<[i := with_handles hs r]> rs). split_and!.
  - unfold set_handle. rewrite E. simpl. unfold region_set_handle. by rewrite HI, Hh0.
  - apply reg_wf_insert; [done|done|]. unfold hs. by rewrite zinsert_length.
  - by apply geom_insert.
  - unfold get_handle, RegionFor in *. rewrite upper_bound_insert by done.
    destruct (rs !! upper_bound p rs) as [r0|] eqn:E0; simplify_eq/=.
    rewrite list_lookup_insert_eq by (by eapply lookup_lt_Some). simpl.
    unfold region_get_handle. change (IndexFor _ p) with (IndexFor r p).
    rewrite HI. by apply zlookup_zinsert_eq.
  - intros b' m' q Hq Hne.
    destruct (RegionFor_slot _ _ _ _ Hw Hq) as (j & rq & Eq & Hj & Hbq & Hmq & _ & HIq & _).
    unfold get_handle, RegionFor in *. rewrite upper_bound_insert by done.
    destruct (rs !! upper_bound q rs) as [r1|] eqn:E1; simplify_eq/=.
    destruct (decide (i = upper_bound q rs)) as [->|Hij].
    + rewrite list_lookup_insert_eq by (by eapply lookup_lt_Some). simplify_eq/=.
      unfold region_get_handle. change (IndexFor _ q) with (IndexFor r q). rewrite HIq.
      apply zlookup_zinsert_ne. destruct Hq as (_&?&[k1 Hk1]), Hs as (_&?&[k2 Hk2]).
      rewrite Hk1, Hk2, !Z.div_mul by lia. lia.
    + rewrite list_lookup_insert_ne by done. by rewrite E1.
Qed.

(** ** The ordered sets of free chunks *)

Definition key_lt (c d : Chunk) : Prop :=
  c_size c < c_size d \/ (c_size c = c_size d /\ c_ptr c < c_ptr d).

Lemma comparator_spec cs x y cx cy :
  cs !!z x = Some cx -> cs !!z y = Some cy ->
  ChunkComparator cs x y = true <-> key_lt cx cy.
Proof.
  intros Hx Hy. unfold ChunkComparator, key_lt. rewrite Hx, Hy.
  destruct (Z.eqb_spec (c_size cx) (c_size cy)); simpl; rewrite Z.ltb_lt; lia.
Qed.

Lemma comparator_Some cs x y :
  ChunkComparator cs x y = true -> exists cx cy, cs !!z x = Some cx /\ cs !!z y = Some cy.
Proof. unfold ChunkComparator. intros H. repeat case_match; naive_solver. Qed.

Definition cmp (cs : list Chunk) (x y : Z) : Prop := ChunkComparator cs x y = true.

Lemma cmp_trans cs : Transitive (cmp cs).
Proof.
  intros x y z Hxy Hyz. unfold cmp in *.
  destruct (comparator_Some _ _ _ Hxy) as (cx & cy & Hx & Hy).
  destruct (comparator_Some _ _ _ Hyz) as (cy' & cz & Hy' & Hz). simplify_eq.
  rewrite (comparator_spec _ _ _ _ _ Hx Hy) in Hxy.
  rewrite (comparator_spec _ _ _ _ _ Hy Hz) in Hyz.
  rewrite (comparator_spec _ _ _ _ _ Hx Hz). unfold key_lt in *. lia.
Qed.

Lemma cmp_irrefl cs x : ChunkComparator cs x x = false.
Proof.
  unfold ChunkComparator. destruct (cs !!z x); [|done].
  rewrite Z.eqb_refl. simpl. apply Z.ltb_irrefl.
Qed.

Lemma cmp_asym cs x y : cmp cs x y -> ChunkComparator cs y x = false.
Proof.
  intros H. destruct (ChunkComparator cs y x) eqn:E; [|done].
  pose proof (cmp_trans cs _ _ _ H E) as Hxx. unfold cmp in Hxx.
  by rewrite cmp_irrefl in Hxx.
Qed.

Lemma set_insert_elem cs h l x :
  Forall (fun y => cmp cs h y \/ cmp cs y h) l ->
  x ∈ set_insert cs h l <-> x = h \/ x ∈ l.
Proof.
  induction 1 as [|y l Hy Hl IH]; simpl; [set_solver|].
  destruct (ChunkComparator cs h y) eqn:E1; [set_solver|].
  destruct (ChunkComparator cs y h) eqn:E2; [set_solver|].
  unfold cmp in Hy. destruct Hy; congruence.
Qed.

Lemma set_insert_sorted cs h l :
  StronglySorted (cmp cs) l ->
  Forall (fun y => cmp cs h y \/ cmp cs y h) l ->
  StronglySorted (cmp cs) (set_insert cs h l).
Proof.
  induction 1 as [|y l Hs IH Hall]; intros Hf; simpl; [by repeat constructor|].
  inversion_clear Hf as [|?? Hy Hl].
  destruct (ChunkComparator cs h y) eqn:E1.
  - constructor; [by constructor|]. constructor; [done|].
    eapply Forall_impl; [exact Hall|]. intros z Hz. by eapply cmp_trans.
  - destruct (ChunkComparator cs y h) eqn:E2; [|unfold cmp in Hy; destruct Hy; congruence].
    constructor; [by apply IH|]. apply Forall_forall. intros x Hx.
    apply set_insert_elem in Hx as [->|Hx]; [done| |done].
    rewrite Forall_forall in Hall. by apply Hall.
Qed.

Lemma set_erase_spec cs h l :
  h ∈ l -> Forall (fun y => y = h \/ cmp cs h y \/ cmp cs y h) l ->
  StronglySorted (cmp cs) l ->
  set_erase cs h l = (1%nat, set_erase_iter h l).
Proof.
  intros Hin Hf Hs. induction Hs as [|y l Hs IH Hall]; [set_solver|].
  inversion_clear Hf as [|?? Hy Hl]. unfold set_erase_iter in *. cbn [set_erase].
  rewrite filter_cons. destruct Hy as [->|Hy].
  - rewrite cmp_irrefl. simpl. rewrite decide_False by naive_solver.
    f_equal. clear -Hall. induction Hall as [|z l Hz Hl IH]; [done|].
    rewrite filter_cons, <- IH. rewrite decide_True; [done|].
    intros ->. unfold cmp in Hz. by rewrite cmp_irrefl in Hz.
  - assert (y <> h) as Hne.
    { intros ->. unfold cmp in Hy. rewrite cmp_irrefl in Hy. naive_solver. }
    rewrite decide_True by done.
    destruct Hy as [Hy|Hy]; unfold cmp in Hy; rewrite Hy; simpl; rewrite ?andb_false_r;
      (rewrite IH; [done|set_solver|done]).
Qed.

Lemma StronglySorted_filter {A} (R : A -> A -> Prop) (P : A -> Prop) `{!forall x, Decision (P x)} l :
  StronglySorted R l -> StronglySorted R (filter P l).
Proof.
  induction 1 as [|x l Hs IH Hall]; [constructor|]. rewrite filter_cons.
  case_decide; [|done]. constructor; [done|].
  apply Forall_forall. intros y [_ Hy]%list_elem_of_filter.
  rewrite Forall_forall in Hall. by apply Hall.
Qed.

(** ** The structural invariant

    [at_ rs b m p h]: [h] is the handle registered for the slot [p] of the
    region [(b, m)].  [block_ok] says that a registered chunk is a block of its
    region linked to its neighbours; the slots strictly inside it are empty. *)

Definition at_ (rs : list AllocationRegion) (b m p h : Z) : Prop :=
  slot rs b m p /\ get_handle p rs = Some h.

Record block_ok (rs : list AllocationRegion) (cs : list Chunk) (b m p h : Z) (c : Chunk) : Prop := {
  bo_ptr : c_ptr c = p;
  bo_size : 0 < c_size c;
  bo_mult : (256 | c_size c);
  bo_fits : p + c_size c <= b + m;
  bo_gap : forall q, slot rs b m q -> p < q < p + c_size c -> get_handle q rs = Some (-1);
  bo_next : (p + c_size c = b + m /\ c_next c = -1) \/
            (p + c_size c < b + m /\ c_next c <> -1 /\ get_handle (p + c_size c) rs = Some (c_next c));
  bo_prev : (p = b /\ c_prev c = -1) \/
            (b < p /\ c_prev c <> -1 /\ exists cp, cs !!z c_prev c = Some cp /\
             at_ rs b m (c_ptr cp) (c_prev c) /\ c_ptr cp + c_size cp = p)
}.

(** What the invariant says of one chunk of the table. *)
Record chunk_ok (rs : list AllocationRegion) (h : Z) (c : Chunk) : Prop := {
  co_used : in_use c = true -> bin_num c = -1;
  co_bin : bin_num c <> -1 -> bin_num c = BinNumForSize (c_size c);
  co_owner : in_use c = true \/ bin_num c <> -1 -> exists b m, at_ rs b m (c_ptr c) h
}.

Definition bins_ok (cs : list Chunk) (bs : list Bin) : Prop :=
  zlength bs = 21 /\
  forall i B, bs !!z i = Some B ->
    StronglySorted (cmp cs) (free_chunks B) /\
    forall h, h ∈ free_chunks B <-> exists c, cs !!z h = Some c /\ bin_num c = i.

(** The list of unused chunk handles threaded through [next]. *)
Fixpoint flist (cs : list Chunk) (head : Z) (FL : list Z) : Prop :=
  match FL with
  | [] => head = -1
  | h :: FL' => head = h /\ h <> -1 /\ exists c, cs !!z h = Some c /\
      allocation_id c = -1 /\ bin_num c = -1 /\ flist cs (c_next c) FL'
  end.

Record Core (rs : list AllocationRegion) (cs : list Chunk) (bs : list Bin)
    (fl : Z) (FL : list Z) : Prop := {
  core_reg : reg_wf rs;
  core_tab : forall b m p h, at_ rs b m p h ->
    h = -1 \/ exists c, cs !!z h = Some c /\ block_ok rs cs b m p h c;
  core_base : forall b m, (b, m) ∈ geom rs -> get_handle b rs <> Some (-1);
  core_chunk : forall h c, cs !!z h = Some c -> chunk_ok rs h c;
  core_bins : bins_ok cs bs;
  core_fl : flist cs fl FL;
  core_FL_nodup : NoDup FL;
  core_FL_dead : forall h b m p, h ∈ FL -> ~ at_ rs b m p h
}.

(** *** Consequences *)

Lemma at_live rs cs bs fl FL b m p h :
  Core rs cs bs fl FL -> at_ rs b m p h -> h <> -1 ->
  exists c, cs !!z h = Some c /\ block_ok rs cs b m p h c.
Proof. intros HC Ha Hh. destruct (core_tab _ _ _ _ _ HC _ _ _ _ Ha); naive_solver. Qed.

Lemma at_fun rs b m p h b' m' h' :
  at_ rs b m p h -> at_ rs b' m' p h' -> h = h'.
Proof. unfold at_. naive_solver. Qed.

Lemma at_nonneg rs cs bs fl FL b m p h :
  Core rs cs bs fl FL -> at_ rs b m p h -> h = -1 \/ 0 <= h < zlength cs.
Proof.
  intros HC Ha. destruct (core_tab _ _ _ _ _ HC _ _ _ _ Ha) as [?|(c & Hc & _)]; [by left|].
  right. by apply zlookup_range in Hc.
Qed.

(** A handle is registered at one slot at most. *)
Lemma at_inj rs cs bs fl FL b m p b' m' p' h :
  Core rs cs bs fl FL -> h <> -1 -> at_ rs b m p h -> at_ rs b' m' p' h ->
  b = b' /\ m = m' /\ p = p'.
Proof.
  intros HC Hh H1 H2.
  destruct (at_live _ _ _ _ _ _ _ _ _ HC H1 Hh) as (c & Hc & [Hp _ _ _ _ _ _]).
  destruct (at_live _ _ _ _ _ _ _ _ _ HC H2 Hh) as (c' & Hc' & [Hp' _ _ _ _ _ _]).
  assert (p' = p) as -> by congruence.
  destruct (slot_unique rs b m b' m' p (core_reg _ _ _ _ _ HC) (proj1 H1) (proj1 H2)). done.
Qed.

(** Distinct registered blocks of a region do not overlap. *)
Lemma at_disjoint rs cs bs fl FL b m p h c p' h' c' :
  Core rs cs bs fl FL -> at_ rs b m p h -> at_ rs b m p' h' -> h <> -1 -> h' <> -1 ->
  cs !!z h = Some c -> cs !!z h' = Some c' -> p <> p' ->
  p + c_size c <= p' \/ p' + c_size c' <= p.
Proof.
  intros HC H1 H2 Hh Hh' Hc Hc' Hne.
  destruct (at_live _ _ _ _ _ _ _ _ _ HC H1 Hh) as (c1 & E1 & B1).
  destruct (at_live _ _ _ _ _ _ _ _ _ HC H2 Hh') as (c2 & E2 & B2). simplify_eq.
  destruct (decide (p < p' < p + c_size c)) as [Hin|].
  - pose proof (bo_gap _ _ _ _ _ _ _ B1 p' (proj1 H2) Hin). destruct H2. congruence.
  - destruct (decide (p' < p < p' + c_size c')) as [Hin|]; [|lia].
    pose proof (bo_gap _ _ _ _ _ _ _ B2 p (proj1 H1) Hin). destruct H1. congruence.
Qed.

(** Distinct regions do not overlap. *)
Lemma region_disjoint rs b m b' m' :
  reg_wf rs -> (b, m) ∈ geom rs -> (b', m') ∈ geom rs -> (b, m) <> (b', m') ->
  b + m <= b' \/ b' + m' <= b.
Proof.
  intros [Hok Hs] H1 H2 Hne. revert Hok H1 H2.
  induction Hs as [|r rs Hs IH Hall]; intros Hok H1 H2; simpl in *; [set_solver|].
  inversion_clear Hok as [|?? Hr Hok']. rewrite Forall_forall in Hall, Hok'.
  assert (Hone : forall b m, (b, m) ∈ geom rs -> r_ptr r + memory_size r <= b).
  { intros b0 m0 [r0 [Heq Hin]]%list_elem_of_fmap. simplify_eq.
    specialize (Hall _ Hin). destruct Hr as (?&?&?&?&?). lia. }
  apply elem_of_cons in H1 as [E1|H1], H2 as [E2|H2]; simplify_eq.
  - left. by eapply Hone.
  - right. by eapply Hone.
  - apply IH; try done. by apply Forall_forall.
Qed.

(** The slot after a block that is not the last one. *)
Lemma slot_shift rs b m p k :
  slot rs b m p -> 0 <= k -> (256 | k) -> p + k < b + m -> slot rs b m (p + k).
Proof.
  intros (Hin & Hp & Hd) Hk Hdk Hlt. split; [done|]. split; [lia|].
  replace (p + k - b) with ((p - b) + k) by lia. by apply Z.divide_add_r.
Qed.

(** ** Updates that keep size, address and links *)

Definition same_link (c c' : Chunk) : Prop :=
  c_size c' = c_size c /\ c_ptr c' = c_ptr c /\ c_prev c' = c_prev c /\ c_next c' = c_next c.

Lemma comparator_zinsert cs h c c' x y :
  cs !!z h = Some c -> same_link c c' ->
  ChunkComparator (zinsert cs h c') x y = ChunkComparator cs x y.
Proof.
  intros Hc (E1 & E2 & _ & _). unfold ChunkComparator.
  rewrite !(zlookup_zinsert _ _ _ _ _ Hc).
  repeat case_decide; subst; rewrite ?Hc, ?E1, ?E2; repeat case_match; congruence.
Qed.

Lemma sorted_zinsert cs h c c' l :
  cs !!z h = Some c -> same_link c c' ->
  StronglySorted (cmp cs) l -> StronglySorted (cmp (zinsert cs h c')) l.
Proof.
  intros Hc Hl Hs. induction Hs as [|x l Hs IH Hall]; constructor; [done|].
  eapply Forall_impl; [exact Hall|]. intros y Hy. unfold cmp.
  by rewrite (comparator_zinsert _ _ _ _ _ _ Hc Hl).
Qed.

Lemma block_ok_zinsert rs cs h0 c0 c0' b m p h c c' :
  cs !!z h0 = Some c0 -> same_link c0 c0' -> cs !!z h = Some c -> same_link c c' ->
  block_ok rs cs b m p h c -> block_ok rs (zinsert cs h0 c0') b m p h c'.
Proof.
  intros H0 (E1 & E2 & E3 & E4) Hc (F1 & F2 & F3 & F4) [B1 B2 B3 B4 B5 B6 B7].
  split; rewrite ?F1, ?F2, ?F3, ?F4; try done.
  destruct B7 as [?|(? & ? & cp & Hcp & Hat & Heq)]; [by left|right].
  split_and!; try done. rewrite (zlookup_zinsert _ _ _ _ _ H0).
  case_decide as Hd; [|by eauto]. subst h0. exists c0'. simplify_eq. rewrite E1, E2. eauto.
Qed.

Lemma flist_frame cs cs' fl FL :
  (forall h, h ∈ FL -> cs' !!z h = cs !!z h) -> flist cs fl FL -> flist cs' fl FL.
Proof.
  revert fl. induction FL as [|h FL IH]; intros fl Hf; simpl; [done|].
  intros (-> & Hh & c & Hc & Ha & Hb & Hfl). split_and!; [done|done|].
  exists c. rewrite Hf by set_solver. split_and!; try done. apply IH; [set_solver|done].
Qed.

Lemma flist_elem cs fl FL h :
  flist cs fl FL -> h ∈ FL ->
  h <> -1 /\ exists c, cs !!z h = Some c /\ allocation_id c = -1 /\ bin_num c = -1.
Proof.
  revert fl. induction FL as [|h0 FL IH]; intros fl Hfl Hin; [set_solver|].
  destruct Hfl as (-> & ? & c & ? & ? & ? & ?).
  apply elem_of_cons in Hin as [->|Hin]; [eauto 10|by eapply IH].
Qed.

Lemma core_update rs cs bs bs' fl FL h c c' b m p :
  Core rs cs bs fl FL -> cs !!z h = Some c -> same_link c c' -> at_ rs b m p h ->
  chunk_ok rs h c' -> bins_ok (zinsert cs h c') bs' ->
  Core rs (zinsert cs h c') bs' fl FL.
Proof.
  intros HC Hc Hl Hat Hok Hb. pose proof (zlookup_zinsert cs h c') as Hz.
  split; try apply HC; try done.
  - intros b' m' p' h' Hat'. destruct (core_tab _ _ _ _ _ HC _ _ _ _ Hat') as [?|(d & Hd & HB)]; [by left|].
    right. rewrite (Hz _ _ Hc). case_decide as Heq.
    + subst h'. simplify_eq. exists c'. split; [done|]. by eapply block_ok_zinsert.
    + exists d. split; [done|]. eapply block_ok_zinsert; [done|done|done| |done]. done.
  - intros h' d. rewrite (Hz _ _ Hc). case_decide; [by intros; simplify_eq|].
    apply (core_chunk _ _ _ _ _ HC).
  - eapply flist_frame; [|apply HC]. intros h' Hin. rewrite (Hz _ _ Hc).
    case_decide; [|done]. subst. by destruct (core_FL_dead _ _ _ _ _ HC _ b m p Hin).
Qed.

(** ** Bins *)

Lemma bins_lookup cs bs i : bins_ok cs bs -> 0 <= i < 21 -> exists B, bs !!z i = Some B.
Proof. intros [Hl _] Hi. apply zlookup_is_Some. by rewrite Hl. Qed.

Lemma in_use_false_bin c i : bin_num (with_bin_num i c) = i.
Proof. done. Qed.

Lemma bins_insert cs bs h c i B :
  bins_ok cs bs -> cs !!z h = Some c -> bin_num c = -1 -> 0 <= i -> bs !!z i = Some B ->
  (forall x cx, cs !!z x = Some cx -> bin_num cx = i -> key_lt c cx \/ key_lt cx c) ->
  let cs' := zinsert cs h (with_bin_num i c) in
  bins_ok cs' (zinsert bs i (mkBin (bin_size B) (set_insert cs' h (free_chunks B)))).
Proof.
  intros [Hlen Hbs] Hc Hbin Hi HB Hkey cs'.
  assert (Hcmp : forall x y, ChunkComparator cs' x y = ChunkComparator cs x y)
    by (intros; apply (comparator_zinsert _ _ _ _ _ _ Hc); done).
  assert (Hcs' : forall x, cs' !!z x = if decide (h = x) then Some (with_bin_num i c) else cs !!z x)
    by (intros; apply (zlookup_zinsert _ _ _ _ _ Hc)).
  assert (Hsplit : forall B, bs !!z i = Some B -> Forall (fun y => cmp cs' h y \/ cmp cs' y h) (free_chunks B)).
  { intros B' HB'. apply Forall_forall. intros y Hy.
    apply (proj2 (Hbs _ _ HB')) in Hy as (cy & Hcy & Hby).
    unfold cmp. rewrite !Hcmp, (comparator_spec _ _ _ _ _ Hc Hcy), (comparator_spec _ _ _ _ _ Hcy Hc).
    by eapply Hkey. }
  split; [by rewrite zinsert_length|].
  intros j B'. rewrite (zlookup_zinsert _ _ _ _ _ HB). case_decide as Hij.
  - intros [= <-]. subst j. simpl. destruct (Hbs _ _ HB) as [Hs Hel]. split.
    + apply set_insert_sorted; [|by apply Hsplit]. by eapply sorted_zinsert.
    + intros x. rewrite (set_insert_elem _ _ _ _ (Hsplit _ HB)), Hel, Hcs'.
      case_decide; naive_solver.
  - intros HB'. destruct (Hbs _ _ HB') as [Hs Hel]. split; [by eapply sorted_zinsert|].
    intros x. rewrite Hel, Hcs'. case_decide; [|done]. subst x.
    apply zlookup_range in HB'. simpl. split; intros (d & ? & ?); simplify_eq; simpl in *; lia.
Qed.

Lemma bins_remove cs bs h c i B :
  bins_ok cs bs -> cs !!z h = Some c -> bin_num c = i -> 0 <= i -> bs !!z i = Some B ->
  bins_ok (zinsert cs h (with_bin_num (-1) c))
          (zinsert bs i (mkBin (bin_size B) (set_erase_iter h (free_chunks B)))).
Proof.
  intros [Hlen Hbs] Hc Hbin Hi HB. split; [by rewrite zinsert_length|].
  assert (Hl : same_link c (with_bin_num (-1) c)) by done.
  intros j B'. rewrite (zlookup_zinsert _ _ _ _ _ HB). case_decide as Hij.
  - intros [= <-]. subst j. simpl. destruct (Hbs _ _ HB) as [Hs Hel]. split.
    + apply StronglySorted_filter. by eapply sorted_zinsert.
    + intros x. unfold set_erase_iter. rewrite list_elem_of_filter, Hel, (zlookup_zinsert _ _ _ _ _ Hc).
      case_decide; split; [naive_solver|intros (d & ? & ?); simplify_eq; simpl in *; lia|naive_solver|].
      intros (d & ? & ?). split; [congruence|eauto].
  - intros HB'. destruct (Hbs _ _ HB') as [Hs Hel]. split; [by eapply sorted_zinsert|].
    intros x. rewrite Hel, (zlookup_zinsert _ _ _ _ _ Hc). case_decide; [|done]. subst x.
    apply zlookup_range in HB'. split; intros (d & ? & ?); simplify_eq; simpl in *; lia.
Qed.

Lemma core_key_distinct rs cs bs fl FL b m h c x cx :
  Core rs cs bs fl FL -> cs !!z h = Some c -> at_ rs b m (c_ptr c) h ->
  cs !!z x = Some cx -> bin_num cx <> -1 -> x <> h -> key_lt c cx \/ key_lt cx c.
Proof.
  intros HC Hc Hat Hx Hb Hne.
  destruct (co_owner _ _ _ (core_chunk _ _ _ _ _ HC _ _ Hx) (or_intror Hb)) as (b' & m' & Hat').
  assert (c_ptr cx <> c_ptr c).
  { intros E. rewrite E in Hat'. by pose proof (at_fun _ _ _ _ _ _ _ _ Hat Hat'). }
  unfold key_lt. lia.
Qed.

Lemma core_size_bound rs cs bs fl FL b m p h c :
  Core rs cs bs fl FL -> at_ rs b m p h -> cs !!z h = Some c -> 0 < c_size c < 2 ^ 39.
Proof.
  intros HC Hat Hc.
  destruct (core_tab _ _ _ _ _ HC _ _ _ _ Hat) as [->|(c' & Hc' & HB)]; [done|]. simplify_eq.
  destruct (RegionFor_slot _ _ _ _ (core_reg _ _ _ _ _ HC) (proj1 Hat)) as (i & r & _ & _ & Hb & Hm & Hr & _).
  destruct Hr as (_ & Hmr & _). pose proof (bo_size _ _ _ _ _ _ _ HB).
  pose proof (bo_fits _ _ _ _ _ _ _ HB). destruct Hat as [(_ & ? & _) _]. lia.
Qed.

(** ** Rebuilding the invariant after a structural change *)

Lemma bins_frame cs cs' bs :
  (forall x c, cs !!z x = Some c -> bin_num c <> -1 ->
     exists c', cs' !!z x = Some c' /\ c_size c' = c_size c /\ c_ptr c' = c_ptr c /\ bin_num c' = bin_num c) ->
  (forall x c', cs' !!z x = Some c' -> bin_num c' <> -1 ->
     exists c, cs !!z x = Some c /\ bin_num c = bin_num c') ->
  bins_ok cs bs -> bins_ok cs' bs.
Proof.
  intros H1 H2 [Hl Hb]. split; [done|]. intros i B HB. destruct (Hb _ _ HB) as [Hs Hel].
  pose proof (zlookup_range _ _ _ HB). split.
  - assert (Hf : Forall (fun x => exists c, cs !!z x = Some c /\ bin_num c <> -1) (free_chunks B)).
    { apply Forall_forall. intros x Hx. apply Hel in Hx as (c & ? & ?). exists c. split; [done|lia]. }
    clear Hel. revert Hf. induction Hs as [|x l Hs IH Hall]; intros Hf; [constructor|].
    inversion_clear Hf as [|?? (cx & Hx & Hbx) Hfl]. constructor; [by apply IH|].
    rewrite Forall_forall in Hall, Hfl |- *. intros y Hy.
    destruct (Hfl _ Hy) as (cy & Hcy & Hby). pose proof (Hall _ Hy) as Hxy. unfold cmp in *.
    destruct (H1 _ _ Hx Hbx) as (cx' & Hx' & E1 & E2 & _).
    destruct (H1 _ _ Hcy Hby) as (cy' & Hy' & F1 & F2 & _).
    rewrite (comparator_spec _ _ _ _ _ Hx Hcy) in Hxy.
    rewrite (comparator_spec _ _ _ _ _ Hx' Hy'). unfold key_lt in *. by rewrite E1, E2, F1, F2.
  - intros x. rewrite Hel. split; intros (c & Hc & Hbc).
    + destruct (H1 _ _ Hc ltac:(lia)) as (c' & Hc' & _ & _ & E). exists c'. split; [done|congruence].
    + destruct (H2 _ _ Hc ltac:(lia)) as (c' & Hc' & E). exists c'. split; [done|congruence].
Qed.

Lemma slot_geom rs rs' b m p : geom rs' = geom rs -> slot rs' b m p <-> slot rs b m p.
Proof. unfold slot. by intros ->. Qed.

Lemma slot_base rs b m : reg_wf rs -> (b, m) ∈ geom rs -> slot rs b m b.
Proof.
  intros [Hok _] Hin. pose proof Hin as Hin'. apply list_elem_of_fmap in Hin' as (r & E & Hr). simplify_eq.
  rewrite Forall_forall in Hok. destruct (Hok _ Hr) as (? & ? & _). split; [done|]. split; [lia|].
  rewrite Z.sub_diag. apply Z.divide_0_r.
Qed.

(** Inside a block the table is empty. *)
Lemma block_interior rs cs bs fl FL b m p h c q x :
  Core rs cs bs fl FL -> at_ rs b m p h -> h <> -1 -> cs !!z h = Some c ->
  p < q < p + c_size c -> at_ rs b m q x -> x = -1.
Proof.
  intros HC Hat Hh Hc Hq [Hs Hg]. destruct (at_live _ _ _ _ _ _ _ _ _ HC Hat Hh) as (c' & Hc' & HB).
  simplify_eq. pose proof (bo_gap _ _ _ _ _ _ _ HB q Hs Hq). congruence.
Qed.

(** The handle after a block, and the block before one. *)
Lemma next_at rs cs b m p h c :
  slot rs b m p -> block_ok rs cs b m p h c -> c_next c <> -1 ->
  at_ rs b m (p + c_size c) (c_next c).
Proof.
  intros Hs [] Hn. destruct bo_next0 as [[_ ?]|(Hlt & _ & Hg)]; [done|]. split; [|done].
  apply slot_shift; try done. lia.
Qed.

(** A registered block followed by [q] is the predecessor recorded at [q]. *)
Lemma prev_unique rs cs bs fl FL b m p h c q x d :
  Core rs cs bs fl FL -> at_ rs b m p h -> h <> -1 -> cs !!z h = Some c ->
  at_ rs b m q x -> x <> -1 -> cs !!z x = Some d -> (c_next c = x <-> q = p + c_size c).
Proof.
  intros HC Hat Hh Hc Hq Hx Hd.
  destruct (at_live _ _ _ _ _ _ _ _ _ HC Hat Hh) as (c' & Hc' & HB). simplify_eq.
  split.
  - intros <-. pose proof (next_at _ _ _ _ _ _ _ (proj1 Hat) HB Hx) as Hn.
    by destruct (at_inj _ _ _ _ _ _ _ _ _ _ _ _ HC Hx Hn Hq) as (_ & _ & ->).
  - intros ->. destruct Hq as [(_ & ? & _) Hq], (bo_next _ _ _ _ _ _ _ HB) as [[? _]|(_ & _ & Hg)]; [lia|congruence].
Qed.

(** *** Splitting a block *)

Section Split.
Context (rs rs2 : list AllocationRegion) (cs cs2 : list Chunk) (bs : list Bin) (fl : Z) (FL : list Z).
Context (b m p n h hn : Z) (c cn0 cn : Chunk).
Hypothesis HC : Core rs cs bs fl FL.
Hypothesis Hat : at_ rs b m p h.
Hypothesis Hc : cs !!z h = Some c.
Hypothesis Hu : in_use c = false.
Hypothesis Hb : bin_num c = -1.
Hypothesis Hn : 0 < n < c_size c.
Hypothesis Hdn : (256 | n).
Hypothesis Hcn0 : cs !!z hn = Some cn0.
Hypothesis Hcn0b : bin_num cn0 = -1.
Hypothesis Hdead : forall b m p, ~ at_ rs b m p hn.
Hypothesis HFL : hn ∉ FL.
Hypothesis Hw2 : reg_wf rs2.
Hypothesis Hgeom : geom rs2 = geom rs.
Hypothesis Hset : get_handle (p + n) rs2 = Some hn.
Hypothesis Hother : forall b' m' q, slot rs b' m' q -> q <> p + n -> get_handle q rs2 = get_handle q rs.
Hypothesis Hcs2 : forall x, cs2 !!z x =
  if decide (x = hn) then Some cn
  else if decide (x = h) then Some (with_next hn (with_size n c))
  else if decide (x = c_next c) then with_prev hn <$> cs !!z x
  else cs !!z x.
Hypothesis Hcn : cn = mkChunk (c_size c - n) (requested_size cn0) (-1) (p + n) h (c_next c) (-1).

Lemma split_h : h <> -1.
Proof. apply zlookup_range in Hc. lia. Qed.
Lemma split_hn : hn <> -1.
Proof. apply zlookup_range in Hcn0. lia. Qed.
Lemma split_ne : h <> hn.
Proof. intros ->. by eapply Hdead. Qed.
Lemma split_block : block_ok rs cs b m p h c.
Proof.
  destruct (at_live _ _ _ _ _ _ _ _ _ HC Hat split_h) as (c' & Hc' & HB). congruence.
Qed.
Lemma split_slot : slot rs b m (p + n).
Proof.
  apply slot_shift; [apply Hat|lia|done|]. pose proof (bo_fits _ _ _ _ _ _ _ split_block). lia.
Qed.

Lemma split_at2 b' m' q x :
  at_ rs2 b' m' q x -> (q = p + n /\ b' = b /\ m' = m /\ x = hn) \/ (q <> p + n /\ at_ rs b' m' q x).
Proof.
  intros [Hs Hg]. rewrite (slot_geom _ _ _ _ _ Hgeom) in Hs.
  destruct (decide (q = p + n)) as [->|Hne].
  - left. destruct (slot_unique _ _ _ _ _ _ (core_reg _ _ _ _ _ HC) Hs split_slot) as [-> ->].
    split_and!; try done. congruence.
  - right. split; [done|]. split; [done|]. by rewrite <- (Hother _ _ _ Hs Hne).
Qed.

Lemma split_at1 b' m' q x : at_ rs b' m' q x -> x <> -1 -> at_ rs2 b' m' q x.
Proof.
  intros Hq Hx. assert (q <> p + n) as Hne.
  { intros ->. destruct (slot_unique _ _ _ _ _ _ (core_reg _ _ _ _ _ HC) (proj1 Hq) split_slot) as [-> ->].
    apply Hx. eapply (block_interior _ _ _ _ _ _ _ _ _ _ _ _ HC Hat split_h Hc); [|exact Hq]. lia. }
  destruct Hq as [Hs Hg]. split; [by apply (slot_geom _ _ _ _ _ Hgeom)|].
  by rewrite (Hother _ _ _ Hs Hne).
Qed.

Lemma split_keep x d :
  cs !!z x = Some d -> x <> hn -> x <> h ->
  exists d', cs2 !!z x = Some d' /\ c_size d' = c_size d /\ c_ptr d' = c_ptr d /\ c_next d' = c_next d /\
    bin_num d' = bin_num d /\ in_use d' = in_use d /\
    c_prev d' = (if decide (x = c_next c) then hn else c_prev d).
Proof.
  intros Hx H1 H2. rewrite Hcs2, decide_False, decide_False by done. case_decide.
  - rewrite Hx. simpl. by eexists.
  - exists d. done.
Qed.

(** The block [p] keeps its first [n] bytes. *)
Lemma split_left : block_ok rs2 cs2 b m p h (with_next hn (with_size n c)).
Proof.
  destruct split_block as [B1 B2 B3 B4 B5 B6 B7]. split; simpl; try done; try lia.
  - intros q Hq Hin. rewrite (slot_geom _ _ _ _ _ Hgeom) in Hq. rewrite (Hother b m q) by (done || lia).
    apply B5; [done|lia].
  - right. split_and!; [lia|apply split_hn|done].
  - destruct B7 as [?|(? & ? & cp & Hcp & Hatp & Heq)]; [by left|right]. split_and!; try done.
    assert (Hne : c_prev c <> h). { intros E. rewrite E in Hcp. assert (cp = c) by congruence. subst cp. lia. }
    assert (Hne2 : c_prev c <> hn). { intros E. rewrite E in Hatp. by eapply Hdead. }
    destruct (split_keep _ _ Hcp Hne2 Hne) as (cp' & Hcp' & E1 & E2 & _).
    exists cp'. rewrite E1, E2. split_and!; try done. by apply split_at1.
Qed.

Lemma split_right : block_ok rs2 cs2 b m (p + n) hn cn.
Proof.
  destruct split_block as [B1 B2 B3 B4 B5 B6 B7]. rewrite Hcn. split; simpl; try done; try lia.
  - by apply Z.divide_sub_r.
  - intros q Hq Hin. rewrite (slot_geom _ _ _ _ _ Hgeom) in Hq. rewrite (Hother b m q) by (done || lia).
    apply B5; [done|lia].
  - replace (p + n + (c_size c - n)) with (p + c_size c) by lia.
    destruct B6 as [?|(Hlt & Hne & Hg)]; [by left|right]. split_and!; try done.
    rewrite (Hother b m); [done| |lia]. apply slot_shift; [apply Hat|lia|done|lia].
  - right. split_and!; [destruct Hat as [(_ & ? & _) _]; lia|apply split_h|].
    exists (with_next hn (with_size n c)). rewrite Hcs2, decide_False, decide_True by (done || apply split_ne).
    simpl. rewrite B1. split_and!; try done. apply split_at1; [done|apply split_h].
Qed.

Lemma split_others b' m' q x d :
  at_ rs b' m' q x -> q <> p -> x <> h -> x <> hn -> cs !!z x = Some d ->
  block_ok rs cs b' m' q x d ->
  exists d', cs2 !!z x = Some d' /\ block_ok rs2 cs2 b' m' q x d'.
Proof.
  intros Hq Hqp Hxh Hxn Hd HB. pose proof (zlookup_range _ _ _ Hd) as Hxr.
  assert (Hx1 : x <> -1) by lia.
  assert (Hsep : (b', m') = (b, m) -> p + c_size c <= q \/ q + c_size d <= p).
  { intros [= -> ->]. eapply (at_disjoint _ _ _ _ _ _ _ _ _ _ _ _ _ HC Hat Hq split_h); [lia| | |]; done. }
  assert (Hnot : forall q', slot rs b' m' q' -> q < q' <= q + c_size d -> q' <> p + n).
  { intros q' Hs' Hin ->. destruct (slot_unique _ _ _ _ _ _ (core_reg _ _ _ _ _ HC) Hs' split_slot) as [-> ->].
    destruct (Hsep eq_refl); lia. }
  destruct (split_keep _ _ Hd Hxn Hxh) as (d' & Hd' & E1 & E2 & E3 & E4 & E5 & E6).
  exists d'. split; [done|]. destruct HB as [B1 B2 B3 B4 B5 B6 B7].
  split; rewrite ?E1, ?E2, ?E3; try done.
  - intros q' Hs Hin. rewrite (slot_geom _ _ _ _ _ Hgeom) in Hs.
    rewrite (Hother b' m' q'); [by apply B5|done|]. apply Hnot; [done|lia].
  - destruct B6 as [?|(Hlt & Hne & Hg)]; [by left|right]. split_and!; try done.
    assert (slot rs b' m' (q + c_size d)) as Hs by (apply slot_shift; [apply Hq|lia|done|lia]).
    rewrite (Hother b' m'); [done|done|]. apply Hnot; [done|lia].
  - rewrite E6. case_decide as Hnx.
    + assert (Hnc : c_next c <> -1) by (rewrite <- Hnx; lia).
      pose proof (next_at _ _ _ _ _ _ _ (proj1 Hat) split_block Hnc) as Hna. rewrite <- Hnx in Hna.
      destruct (at_inj _ _ _ _ _ _ _ _ _ _ _ _ HC Hx1 Hna Hq) as (<- & <- & <-).
      right. split_and!; [destruct Hat as [(_ & ? & _) _]; lia|apply split_hn|].
      exists cn. rewrite Hcs2, decide_True by done. rewrite Hcn. simpl. split_and!; [done| |lia].
      split; [by apply (slot_geom _ _ _ _ _ Hgeom), split_slot|done].
    + destruct B7 as [?|(? & ? & cp & Hcp & Hatp & Heq)]; [by left|right]. split_and!; try done.
      assert (Hne2 : c_prev d <> hn). { intros E. rewrite E in Hatp. by eapply Hdead. }
      assert (Hne : c_prev d <> h).
      { intros E. rewrite E in Hcp, Hatp. assert (cp = c) by congruence. subst cp.
        destruct (at_inj _ _ _ _ _ _ _ _ _ _ _ _ HC split_h Hat Hatp) as (-> & -> & Ep).
        apply Hnx. symmetry. apply (prev_unique _ _ _ _ _ _ _ _ _ _ q x d HC Hat split_h Hc Hq); [done|done|].
        rewrite Ep. done. }
      destruct (split_keep _ _ Hcp Hne2 Hne) as (cp' & Hcp' & F1 & F2 & _).
      exists cp'. rewrite F1, F2. split_and!; try done. by apply split_at1.
Qed.

Lemma split_nextFL x : x ∈ FL -> x <> hn /\ x <> h /\ x <> c_next c.
Proof.
  intros Hx. split_and!; [set_solver| |].
  - intros ->. by apply (core_FL_dead _ _ _ _ _ HC _ b m p Hx).
  - intros ->. destruct (flist_elem _ _ _ _ (core_fl _ _ _ _ _ HC) Hx) as (Hne & _).
    apply (core_FL_dead _ _ _ _ _ HC _ b m (p + c_size c) Hx).
    by eapply next_at; [apply Hat|apply split_block|].
Qed.

Lemma split_bins : bins_ok cs2 bs.
Proof.
  eapply bins_frame; [| |apply (core_bins _ _ _ _ _ HC)].
  - intros x d Hd Hbd. destruct (split_keep x d) as (d' & ? & ? & ? & ? & ? & _); [done|congruence|congruence|].
    eauto.
  - intros x d'. rewrite Hcs2. repeat case_decide; try subst x; [by rewrite ?Hcn; intros [= <-]|by intros [= <-]| |eauto].
    destruct (cs !!z c_next c) as [d|]; [|done]. intros [= <-] _. eauto.
Qed.

Lemma core_split : Core rs2 cs2 bs fl FL.
Proof.
  split; try done; try apply HC.
  - intros b' m' q x Hq. destruct (split_at2 _ _ _ _ Hq) as [(-> & -> & -> & ->)|(Hqn & Hq1)].
    + right. exists cn. rewrite Hcs2, decide_True by done. split; [done|apply split_right].
    + destruct (core_tab _ _ _ _ _ HC _ _ _ _ Hq1) as [?|(d & Hd & HB)]; [by left|right].
      assert (x <> hn) as Hxn by (intros ->; by eapply Hdead).
      destruct (decide (q = p)) as [->|Hqp].
      * assert (x = h) as -> by (by apply (at_fun _ _ _ _ _ _ _ _ Hq1 Hat)).
         destruct (slot_unique _ _ _ _ _ _ (core_reg _ _ _ _ _ HC) (proj1 Hq1) (proj1 Hat)) as [-> ->].
        eexists. rewrite Hcs2, decide_False, decide_True by done. split; [done|apply split_left].
      * eapply split_others; eauto. intros ->.
        destruct (at_inj _ _ _ _ _ _ _ _ _ _ _ _ HC split_h Hat Hq1) as (_ & _ & ?). congruence.
  - intros b' m' Hin. rewrite Hgeom in Hin. destruct (decide (b' = p + n)) as [->|Hne].
    + rewrite Hset. intros [= ?]. by apply split_hn.
    + rewrite (Hother b' m' b'); [|by apply slot_base; [apply HC|]|done]. by apply (core_base _ _ _ _ _ HC _ m').
  - intros x d. rewrite Hcs2. repeat case_decide; try subst x.
    + intros [= <-]. rewrite Hcn. split; simpl; [done|done|]. intros [?|?]; done.
    + intros [= <-]. split; simpl; [done|by rewrite Hb|]. intros [Hux|Hbx]; [|by rewrite Hb in Hbx].
      unfold in_use in *. simpl in Hux. congruence.
    + destruct (cs !!z c_next c) as [d0|] eqn:E; [|done]. intros [= <-].
      destruct (core_chunk _ _ _ _ _ HC _ _ E) as [C1 C2 C3]. split; simpl; try done.
      intros Hd. destruct (C3 Hd) as (b' & m' & Hd'). exists b', m'. apply split_at1; [done|].
      apply zlookup_range in E. lia.
    + intros Hd. destruct (core_chunk _ _ _ _ _ HC _ _ Hd) as [C1 C2 C3]. split; try done.
      intros Hd'. destruct (C3 Hd') as (b' & m' & Hd''). exists b', m'. apply split_at1; [done|].
      apply zlookup_range in Hd. lia.
  - apply split_bins.
  - eapply flist_frame; [|apply HC]. intros x Hx. destruct (split_nextFL _ Hx) as (? & ? & ?).
    rewrite Hcs2, !decide_False by done. done.
  - intros x b' m' q Hx Hq. destruct (split_at2 _ _ _ _ Hq) as [(_ & _ & _ & ->)|[_ ?]]; [done|].
    by apply (core_FL_dead _ _ _ _ _ HC x b' m' q).
Qed.
End Split.

(** *** Merging a block with its successor *)

Section Merge.
Context (rs rs2 : list AllocationRegion) (cs cs2 : list Chunk) (bs : list Bin) (fl : Z) (FL : list Z).
Context (b m p h1 h2 : Z) (c1 c2 : Chunk).
Hypothesis HC : Core rs cs bs fl FL.
Hypothesis Hat : at_ rs b m p h1.
Hypothesis Hc1 : cs !!z h1 = Some c1.
Hypothesis Hc2 : cs !!z h2 = Some c2.
Hypothesis Hnx : c_next c1 = h2.
Hypothesis Hu1 : in_use c1 = false.
Hypothesis Hu2 : in_use c2 = false.
Hypothesis Hb1 : bin_num c1 = -1.
Hypothesis Hb2 : bin_num c2 = -1.
Hypothesis Hw2 : reg_wf rs2.
Hypothesis Hgeom : geom rs2 = geom rs.
Hypothesis Hset : get_handle (p + c_size c1) rs2 = Some (-1).
Hypothesis Hother : forall b' m' q, slot rs b' m' q -> q <> p + c_size c1 -> get_handle q rs2 = get_handle q rs.
Hypothesis Hcs2 : forall x, cs2 !!z x =
  if decide (x = h1) then Some (with_size (c_size c1 + c_size c2) (with_next (c_next c2) c1))
  else if decide (x = c_next c2) then with_prev h1 <$> cs !!z x
  else cs !!z x.

Lemma merge_h1 : h1 <> -1.
Proof. apply zlookup_range in Hc1. lia. Qed.
Lemma merge_h2 : h2 <> -1.
Proof. apply zlookup_range in Hc2. lia. Qed.
Lemma merge_block1 : block_ok rs cs b m p h1 c1.
Proof. destruct (at_live _ _ _ _ _ _ _ _ _ HC Hat merge_h1) as (c' & Hc' & HB). congruence. Qed.
Lemma merge_at2 : at_ rs b m (p + c_size c1) h2.
Proof.
  rewrite <- Hnx. eapply next_at; [apply Hat|apply merge_block1|]. rewrite Hnx. apply merge_h2.
Qed.
Lemma merge_block2 : block_ok rs cs b m (p + c_size c1) h2 c2.
Proof. destruct (at_live _ _ _ _ _ _ _ _ _ HC merge_at2 merge_h2) as (c' & Hc' & HB). congruence. Qed.
Lemma merge_ne : h1 <> h2.
Proof.
  intros E. pose proof merge_at2 as H. rewrite <- E in H.
  destruct (at_inj _ _ _ _ _ _ _ _ _ _ _ _ HC merge_h1 Hat H) as (_ & _ & Ep).
  pose proof (bo_size _ _ _ _ _ _ _ merge_block1). lia.
Qed.

Lemma merge_at_inv b' m' q x :
  at_ rs2 b' m' q x -> x = -1 \/ (q <> p + c_size c1 /\ x <> h2 /\ at_ rs b' m' q x).
Proof.
  intros [Hs Hg]. rewrite (slot_geom _ _ _ _ _ Hgeom) in Hs.
  destruct (decide (q = p + c_size c1)) as [->|Hne]; [left; congruence|].
  destruct (decide (x = -1)); [by left|right].
  assert (at_ rs b' m' q x) as Hq by (split; [done|by rewrite <- (Hother _ _ _ Hs Hne)]).
  split_and!; try done. intros ->.
  by destruct (at_inj _ _ _ _ _ _ _ _ _ _ _ _ HC merge_h2 Hq merge_at2) as (_ & _ & ?).
Qed.

Lemma merge_at1 b' m' q x : at_ rs b' m' q x -> x <> h2 -> at_ rs2 b' m' q x.
Proof.
  intros Hq Hx. assert (q <> p + c_size c1) as Hne.
  { intros ->. apply Hx. by apply (at_fun _ _ _ _ _ _ _ _ Hq merge_at2). }
  destruct Hq as [Hs Hg]. split; [by apply (slot_geom _ _ _ _ _ Hgeom)|].
  by rewrite (Hother _ _ _ Hs Hne).
Qed.

Lemma merge_keep x d :
  cs !!z x = Some d -> x <> h1 ->
  exists d', cs2 !!z x = Some d' /\ c_size d' = c_size d /\ c_ptr d' = c_ptr d /\ c_next d' = c_next d /\
    bin_num d' = bin_num d /\ in_use d' = in_use d /\
    c_prev d' = (if decide (x = c_next c2) then h1 else c_prev d).
Proof.
  intros Hx H1. rewrite Hcs2, decide_False by done. case_decide.
  - rewrite Hx. simpl. by eexists.
  - exists d. done.
Qed.

Lemma merge_joined :
  block_ok rs2 cs2 b m p h1 (with_size (c_size c1 + c_size c2) (with_next (c_next c2) c1)).
Proof.
  destruct merge_block1 as [B1 B2 B3 B4 B5 B6 B7], merge_block2 as [D1 D2 D3 D4 D5 D6 D7].
  split; simpl; try done; try lia.
  - by apply Z.divide_add_r.
  - intros q Hq Hin. rewrite (slot_geom _ _ _ _ _ Hgeom) in Hq.
    destruct (decide (q = p + c_size c1)) as [->|Hne]; [done|].
    rewrite (Hother b m q) by done. destruct (decide (q < p + c_size c1)); [apply B5|apply D5]; done || lia.
  - rewrite Z.add_assoc. destruct D6 as [?|(Hlt & Hne & Hg)]; [by left|right]. split_and!; try done.
    rewrite (Hother b m); [done| |lia]. apply slot_shift; [apply merge_at2|lia|done|lia].
  - destruct B7 as [?|(? & ? & cp & Hcp & Hatp & Heq)]; [by left|right]. split_and!; try done.
    assert (Hne : c_prev c1 <> h1). { intros E. rewrite E in Hcp. assert (cp = c1) by congruence. subst cp. lia. }
    destruct (merge_keep _ _ Hcp Hne) as (cp' & Hcp' & E1 & E2 & _).
    exists cp'. rewrite E1, E2. split_and!; try done. apply merge_at1; [done|].
    intros E. rewrite E in Hcp. assert (cp = c2) by congruence. subst cp. lia.
Qed.

Lemma merge_others b' m' q x d :
  at_ rs b' m' q x -> q <> p -> x <> h1 -> x <> h2 -> cs !!z x = Some d ->
  block_ok rs cs b' m' q x d ->
  exists d', cs2 !!z x = Some d' /\ block_ok rs2 cs2 b' m' q x d'.
Proof.
  intros Hq Hqp Hx1 Hx2 Hd HB. pose proof (zlookup_range _ _ _ Hd) as Hxr.
  assert (Hxm : x <> -1) by lia.
  destruct (merge_keep _ _ Hd Hx1) as (d' & Hd' & E1 & E2 & E3 & E4 & E5 & E6).
  exists d'. split; [done|]. destruct HB as [B1 B2 B3 B4 B5 B6 B7].
  split; rewrite ?E1, ?E2, ?E3; try done.
  - intros q' Hs Hin. rewrite (slot_geom _ _ _ _ _ Hgeom) in Hs.
    destruct (decide (q' = p + c_size c1)) as [->|Hne]; [done|]. rewrite (Hother b' m' q') by done. by apply B5.
  - destruct B6 as [?|(Hlt & Hne & Hg)]; [by left|right]. split_and!; try done.
    assert (slot rs b' m' (q + c_size d)) as Hs by (apply slot_shift; [apply Hq|lia|done|lia]).
    rewrite (Hother b' m'); [done|done|]. intros Eq. rewrite Eq in Hs.
    destruct (slot_unique _ _ _ _ _ _ (core_reg _ _ _ _ _ HC) Hs (proj1 merge_at2)) as [-> ->].
    pose proof (at_disjoint _ _ _ _ _ _ _ _ _ _ _ _ _ HC Hat Hq merge_h1 Hxm Hc1 Hd ltac:(done)).
    pose proof (bo_size _ _ _ _ _ _ _ merge_block1). lia.
  - rewrite E6. case_decide as Hn3.
    + assert (Hnc : c_next c2 <> -1) by (rewrite <- Hn3; lia).
      pose proof (next_at _ _ _ _ _ _ _ (proj1 merge_at2) merge_block2 Hnc) as Hna. rewrite <- Hn3 in Hna.
      destruct (at_inj _ _ _ _ _ _ _ _ _ _ _ _ HC Hxm Hna Hq) as (<- & <- & <-).
      pose proof (bo_size _ _ _ _ _ _ _ merge_block1). pose proof (bo_size _ _ _ _ _ _ _ merge_block2).
      right. split_and!; [destruct Hat as [(_ & ? & _) _]; lia|apply merge_h1|].
      eexists. rewrite Hcs2, decide_True by done. split; [done|]. simpl.
      rewrite (bo_ptr _ _ _ _ _ _ _ merge_block1). split; [|lia]. apply merge_at1; [done|apply merge_ne].
    + destruct B7 as [?|(? & ? & cp & Hcp & Hatp & Heq)]; [by left|right]. split_and!; try done.
      assert (Hne2 : c_prev d <> h2).
      { intros E. rewrite E in Hcp, Hatp. assert (cp = c2) by congruence. subst cp.
        destruct (at_inj _ _ _ _ _ _ _ _ _ _ _ _ HC merge_h2 merge_at2 Hatp) as (Eb & Em & Ep). subst b' m'.
        apply Hn3. symmetry. apply (prev_unique _ _ _ _ _ _ _ _ _ _ q x d HC Hatp merge_h2 Hc2 Hq); done. }
      assert (Hne : c_prev d <> h1).
      { intros E. rewrite E in Hcp, Hatp. assert (cp = c1) by congruence. subst cp.
        destruct (at_inj _ _ _ _ _ _ _ _ _ _ _ _ HC merge_h1 Hat Hatp) as (Eb & Em & Ep). subst b' m'.
        apply Hx2. rewrite <- Hnx. symmetry.
        apply (prev_unique _ _ _ _ _ _ _ _ _ _ q x d HC Hatp merge_h1 Hc1 Hq); done. }
      destruct (merge_keep _ _ Hcp Hne) as (cp' & Hcp' & F1 & F2 & _).
      exists cp'. rewrite F1, F2. split_and!; try done. by apply merge_at1.
Qed.

Lemma merge_FL x : x ∈ FL -> x <> h1 /\ x <> h2 /\ x <> c_next c2.
Proof.
  intros Hx. split_and!.
  - intros ->. by apply (core_FL_dead _ _ _ _ _ HC _ b m p Hx).
  - intros ->. apply (core_FL_dead _ _ _ _ _ HC _ _ _ _ Hx merge_at2).
  - intros ->. destruct (flist_elem _ _ _ _ (core_fl _ _ _ _ _ HC) Hx) as (Hne & _).
    apply (core_FL_dead _ _ _ _ _ HC _ _ _ _ Hx (next_at _ _ _ _ _ _ _ (proj1 merge_at2) merge_block2 Hne)).
Qed.

Lemma merge_bins : bins_ok cs2 bs.
Proof.
  eapply bins_frame; [| |apply (core_bins _ _ _ _ _ HC)].
  - intros x d Hd Hbd. destruct (merge_keep x d) as (d' & ? & ? & ? & ? & ? & _); [done|congruence|].
    eauto.
  - intros x d'. rewrite Hcs2. repeat case_decide; try subst x; [by intros [= <-]| |eauto].
    destruct (cs !!z c_next c2) as [d|]; [|done]. intros [= <-] _. eauto.
Qed.

(** The second handle is no longer registered. *)
Lemma merge_dead b' m' q : ~ at_ rs2 b' m' q h2.
Proof. intros Hq. destruct (merge_at_inv _ _ _ _ Hq) as [?|(_ & ? & _)]; [by apply merge_h2|done]. Qed.

Lemma merge_notin_FL : h2 ∉ FL.
Proof. intros Hin. by destruct (merge_FL _ Hin) as (_ & ? & _). Qed.

Lemma core_merge : Core rs2 cs2 bs fl FL.
Proof.
  split; try done; try apply HC.
  - intros b' m' q x Hq. destruct (merge_at_inv _ _ _ _ Hq) as [?|(Hqn & Hx2 & Hq1)]; [by left|].
    destruct (core_tab _ _ _ _ _ HC _ _ _ _ Hq1) as [?|(d & Hd & HB)]; [by left|right].
    destruct (decide (q = p)) as [->|Hqp].
    * assert (x = h1) as -> by (by apply (at_fun _ _ _ _ _ _ _ _ Hq1 Hat)).
      destruct (slot_unique _ _ _ _ _ _ (core_reg _ _ _ _ _ HC) (proj1 Hq1) (proj1 Hat)) as [-> ->].
      eexists. rewrite Hcs2, decide_True by done. split; [done|apply merge_joined].
    * eapply merge_others; eauto. intros ->.
      destruct (at_inj _ _ _ _ _ _ _ _ _ _ _ _ HC merge_h1 Hat Hq1) as (_ & _ & ?). congruence.
  - intros b' m' Hin. rewrite Hgeom in Hin.
    assert (Hsb := slot_base _ _ _ (core_reg _ _ _ _ _ HC) Hin).
    destruct (decide (b' = p + c_size c1)) as [->|Hne].
    + destruct (slot_unique _ _ _ _ _ _ (core_reg _ _ _ _ _ HC) Hsb (proj1 merge_at2)) as [E _].
      pose proof (bo_size _ _ _ _ _ _ _ merge_block1). destruct Hat as [(_ & ? & _) _]. lia.
    + rewrite (Hother b' m' b') by done. by apply (core_base _ _ _ _ _ HC _ m').
  - assert (Hgen : forall x d, cs !!z x = Some d -> x <> h2 ->
      in_use d = true \/ bin_num d <> -1 -> exists b m, at_ rs2 b m (c_ptr d) x).
    { intros x d Hd Hx Hd'. destruct (co_owner _ _ _ (core_chunk _ _ _ _ _ HC _ _ Hd) Hd') as (b' & m' & ?).
      exists b', m'. by apply merge_at1. }
    intros x d. rewrite Hcs2. repeat case_decide; try subst x.
    + intros [= <-]. split; simpl; [done|by rewrite Hb1|]. intros [Hux|Hbx]; [|by rewrite Hb1 in Hbx].
      unfold in_use in *. simpl in Hux. congruence.
    + destruct (cs !!z c_next c2) as [d0|] eqn:E; [|done]. intros [= <-].
      destruct (core_chunk _ _ _ _ _ HC _ _ E) as [C1 C2 C3]. split; simpl; try done.
      apply (Hgen _ _ E). intros E2. rewrite E2 in E.
      pose proof (next_at _ _ _ _ _ _ _ (proj1 merge_at2) merge_block2) as Hna. rewrite E2 in Hna.
      destruct (at_inj _ _ _ _ _ _ _ _ _ _ _ _ HC merge_h2 merge_at2 (Hna merge_h2)) as (_ & _ & ?).
      pose proof (bo_size _ _ _ _ _ _ _ merge_block2). lia.
    + intros Hd. destruct (core_chunk _ _ _ _ _ HC _ _ Hd) as [C1 C2 C3]. split; try done.
      destruct (decide (x = h2)) as [->|Hx]; [|by apply (Hgen _ _ Hd)].
      assert (d = c2) by congruence. subst d. intros [?|?]; congruence.
  - apply merge_bins.
  - eapply flist_frame; [|apply HC]. intros x Hx. destruct (merge_FL _ Hx) as (? & ? & ?).
    rewrite Hcs2, !decide_False by done. done.
  - intros x b' m' q Hx Hq. destruct (merge_at_inv _ _ _ _ Hq) as [->|(_ & _ & ?)].
    + destruct (flist_elem _ _ _ _ (core_fl _ _ _ _ _ HC) Hx) as (Hne & _). done.
    + by apply (core_FL_dead _ _ _ _ _ HC x b' m' q).
Qed.
End Merge.

(** ** Specifications of the operations *)

(** Reading the chunk table after updates. *)
Ltac zl :=
  cbn [chunks_ set_chunks set_regions set_free_chunks_list set_bins];
  repeat first
    [ eassumption
    | rewrite zlookup_zinsert_ne by (done || congruence)
    | rewrite zlookup_zinsert_eq by (rewrite ?zinsert_length; eapply zlookup_range; eassumption) ];
  try reflexivity.

Section Specs.
Context {SA : Type} `{!SubAllocator SA}.
Implicit Types (a : Allocator SA).

Abbreviation CoreA a FL :=
  (Core (regions_ a) (chunks_ a) (bins a) (free_chunks_list_ a) FL).

Lemma ChunkFromHandle_wp a h c Q :
  chunks_ a !!z h = Some c -> Q c a -> wp (ChunkFromHandle h) a Q.
Proof. intros Hc HQ. unfold ChunkFromHandle. do 2 wp_step. by eapply wp_opt. Qed.

Lemma UpdateChunk_wp a h f c Q :
  chunks_ a !!z h = Some c ->
  Q tt (set_chunks (zinsert (chunks_ a) h (f c)) a) -> wp (UpdateChunk h f) a Q.
Proof.
  intros Hc HQ. unfold UpdateChunk. wp_step. apply (ChunkFromHandle_wp _ _ c); [done|].
  by wp_step.
Qed.

Lemma BinFromIndex_wp a i B Q :
  bins a !!z i = Some B -> Q B a -> wp (BinFromIndex i) a Q.
Proof. intros Hc HQ. unfold BinFromIndex. do 2 wp_step. by eapply wp_opt. Qed.

Lemma set_free_chunks_wp a i l B Q :
  bins a !!z i = Some B ->
  Q tt (set_bins (zinsert (bins a) i (mkBin (bin_size B) l)) a) -> wp (set_free_chunks i l) a Q.
Proof.
  intros HB HQ. unfold set_free_chunks. wp_step. apply (BinFromIndex_wp _ _ B); [done|].
  by wp_step.
Qed.

Lemma InsertFreeChunkIntoBin_wp a FL h c b m Q :
  CoreA a FL -> chunks_ a !!z h = Some c -> in_use c = false -> bin_num c = -1 ->
  at_ (regions_ a) b m (c_ptr c) h ->
  (forall bs',
    let cs' := zinsert (chunks_ a) h (with_bin_num (BinNumForSize (c_size c)) c) in
    Core (regions_ a) cs' bs' (free_chunks_list_ a) FL -> Q tt (set_bins bs' (set_chunks cs' a))) ->
  wp (InsertFreeChunkIntoBin h) a Q.
Proof.
  intros HC Hc Hu Hb Hat HQ. unfold InsertFreeChunkIntoBin.
  pose proof (core_size_bound _ _ _ _ _ _ _ _ _ _ HC Hat Hc) as Hsz.
  pose proof (BinNumForSize_range (c_size c) ltac:(lia)) as Hi.
  destruct (bins_lookup _ _ _ (core_bins _ _ _ _ _ HC) Hi) as [B HB].
  wp_step. apply (ChunkFromHandle_wp _ _ c); [done|].
  wp_step. wp_step; [by rewrite Hu, Hb|].
  wp_step. apply (BinFromIndex_wp _ _ B); [done|].
  wp_step. apply (UpdateChunk_wp _ _ _ c); [done|].
  wp_step. wp_step. apply (set_free_chunks_wp _ _ _ B); [done|]. simpl. apply HQ.
  apply (core_update _ _ (bins a) _ _ _ _ c _ b m (c_ptr c)); try done.
  - split; simpl; [|done|eauto]. unfold in_use in *; simpl. congruence.
  - apply bins_insert; try done; [apply HC|lia|].
    intros x cx Hx Hbx. eapply core_key_distinct; eauto; [lia|]. intros ->. simplify_eq. lia.
Qed.

Lemma core_remove a FL h c b m B :
  CoreA a FL -> chunks_ a !!z h = Some c -> at_ (regions_ a) b m (c_ptr c) h ->
  in_use c = false -> bin_num c <> -1 -> bins a !!z bin_num c = Some B ->
  Core (regions_ a) (zinsert (chunks_ a) h (with_bin_num (-1) c))
    (zinsert (bins a) (bin_num c) (mkBin (bin_size B) (set_erase_iter h (free_chunks B))))
    (free_chunks_list_ a) FL.
Proof.
  intros HC Hc Hat Hu Hb HB.
  apply (core_update _ _ (bins a) _ _ _ _ c _ b m (c_ptr c)); try done.
  - split; simpl; [done|done|]. unfold in_use in *; simpl. intros [?|?]; congruence.
  - apply bins_remove; try done; [apply HC|]. apply zlookup_range in HB. lia.
Qed.

(** A binned chunk is registered, and its bin exists. *)
Lemma binned_facts a FL h c :
  CoreA a FL -> chunks_ a !!z h = Some c -> bin_num c <> -1 ->
  (exists b m, at_ (regions_ a) b m (c_ptr c) h) /\ in_use c = false /\
  bin_num c = BinNumForSize (c_size c) /\
  exists B, bins a !!z bin_num c = Some B /\ h ∈ free_chunks B.
Proof.
  intros HC Hc Hb. destruct (core_chunk _ _ _ _ _ HC _ _ Hc) as [H1 H2 H3].
  destruct (H3 (or_intror Hb)) as (b & m & Hat).
  pose proof (core_size_bound _ _ _ _ _ _ _ _ _ _ HC Hat Hc).
  assert (0 <= bin_num c < 21) as Hi by (rewrite H2 by done; apply BinNumForSize_range; lia).
  destruct (bins_lookup _ _ _ (core_bins _ _ _ _ _ HC) Hi) as [B HB].
  split_and!; [eauto| |by auto|].
  - destruct (in_use c); [naive_solver|done].
  - exists B. split; [done|]. apply (proj2 (core_bins _ _ _ _ _ HC) _ _ HB). eauto.
Qed.

(** Both removals leave the chunk unbinned and drop it from its bin. *)
Lemma RemoveFreeChunkIterFromBin_wp a FL h c Q :
  CoreA a FL -> chunks_ a !!z h = Some c -> bin_num c <> -1 ->
  (forall bs',
    let cs' := zinsert (chunks_ a) h (with_bin_num (-1) c) in
    Core (regions_ a) cs' bs' (free_chunks_list_ a) FL -> Q tt (set_bins bs' (set_chunks cs' a))) ->
  wp (RemoveFreeChunkIterFromBin (bin_num c) h) a Q.
Proof.
  intros HC Hc Hb HQ. unfold RemoveFreeChunkIterFromBin.
  destruct (binned_facts _ _ _ _ HC Hc Hb) as ((b & m & Hat) & Hu & _ & B & HB & _).
  wp_step. apply (ChunkFromHandle_wp _ _ c); [done|].
  wp_step. wp_step.
  { rewrite Hu. simpl. by apply negb_true_iff, Z.eqb_neq. }
  wp_step. apply (BinFromIndex_wp _ _ B); [done|].
  wp_step. apply (set_free_chunks_wp _ _ _ B); [done|].
  apply (UpdateChunk_wp _ _ _ c); [done|]. apply HQ. by eapply core_remove.
Qed.

Lemma RemoveFreeChunkFromBin_wp a FL h c Q :
  CoreA a FL -> chunks_ a !!z h = Some c -> bin_num c <> -1 ->
  (forall bs',
    let cs' := zinsert (chunks_ a) h (with_bin_num (-1) c) in
    Core (regions_ a) cs' bs' (free_chunks_list_ a) FL -> Q tt (set_bins bs' (set_chunks cs' a))) ->
  wp (RemoveFreeChunkFromBin h) a Q.
Proof.
  intros HC Hc Hb HQ. unfold RemoveFreeChunkFromBin.
  destruct (binned_facts _ _ _ _ HC Hc Hb) as ((b & m & Hat) & Hu & _ & B & HB & Hin).
  destruct (proj2 (core_bins _ _ _ _ _ HC) _ _ HB) as [Hs Hel].
  wp_step. apply (ChunkFromHandle_wp _ _ c); [done|].
  wp_step. wp_step.
  { rewrite Hu. simpl. by apply negb_true_iff, Z.eqb_neq. }
  wp_step. apply (BinFromIndex_wp _ _ B); [done|]. wp_step. wp_step.
  rewrite set_erase_spec; [|done| |done].
  - wp_step. apply (set_free_chunks_wp _ _ _ B); [done|]. wp_step. wp_step; [done|].
    apply (UpdateChunk_wp _ _ _ c); [done|]. apply HQ. by eapply core_remove.
  - apply Forall_forall. intros y Hy. apply Hel in Hy as (cy & Hcy & Hby).
    destruct (decide (y = h)) as [|Hne]; [by left|right]. unfold cmp.
    rewrite (comparator_spec _ _ _ _ _ Hc Hcy), (comparator_spec _ _ _ _ _ Hcy Hc).
    eapply core_key_distinct; eauto. congruence.
Qed.


(** *** Chunk handles: AllocateChunk, DeallocateChunk *)

Lemma comparator_mono cs cs' x y :
  (forall h c, cs !!z h = Some c -> cs' !!z h = Some c) -> cmp cs x y -> cmp cs' x y.
Proof.
  intros Hsub Hxy. destruct (comparator_Some _ _ _ Hxy) as (cx & cy & Hx & Hy).
  unfold cmp in *. rewrite (comparator_spec _ _ _ _ _ Hx Hy) in Hxy.
  by rewrite (comparator_spec _ _ _ _ _ (Hsub _ _ Hx) (Hsub _ _ Hy)).
Qed.

Lemma core_snoc rs cs bs FL fl :
  Core rs cs bs fl FL -> Core rs (cs ++ [Chunk_default]) bs fl FL.
Proof.
  intros HC. assert (Hsub : forall h c, cs !!z h = Some c -> (cs ++ [Chunk_default]) !!z h = Some c)
    by (intros; by apply zlookup_app_l).
  split; try apply HC.
  - intros b m p h Hat. destruct (core_tab _ _ _ _ _ HC _ _ _ _ Hat) as [?|(d & Hd & [])]; [by left|right].
    exists d. split; [by auto|]. split; try done. naive_solver.
  - intros h c [Hc|[_ ->]]%zlookup_snoc_inv; [by apply (core_chunk _ _ _ _ _ HC)|].
    split; [done|done|]. intros [?|?]; done.
  - destruct (core_bins _ _ _ _ _ HC) as [Hl Hb]. split; [done|]. intros i B HB.
    destruct (Hb _ _ HB) as [Hs Hel]. split.
    + clear -Hs Hsub. induction Hs as [|x l Hs IH Hall]; constructor; [done|].
      eapply Forall_impl; [exact Hall|]. intros y. by apply comparator_mono.
    + intros h. rewrite Hel. split; intros (c & Hc & Hbc); [by eauto|].
      apply zlookup_snoc_inv in Hc as [?|[_ ->]]; [by eauto|].
      apply zlookup_range in HB. simpl in Hbc. unfold kInvalidBinNum in Hbc. lia.
  - eapply flist_frame; [|apply HC]. intros h Hin.
    destruct (flist_elem _ _ _ _ (core_fl _ _ _ _ _ HC) Hin) as (_ & c & Hc & _).
    rewrite Hc. by apply Hsub.
Qed.

Lemma AllocateChunk_wp a rs FL Q :
  Core rs (chunks_ a) (bins a) (free_chunks_list_ a) FL ->
  (forall cs' fl' FL' hn c0,
    Core rs cs' (bins a) fl' FL' ->
    cs' !!z hn = Some c0 -> allocation_id c0 = -1 -> bin_num c0 = -1 ->
    (forall b m p, ~ at_ rs b m p hn) -> hn ∉ FL' ->
    (forall h c, chunks_ a !!z h = Some c -> cs' !!z h = Some c) ->
    (forall f, f Chunk_default = 0 -> wsum f cs' = wsum f (chunks_ a)) ->
    (forall h c, cs' !!z h = Some c -> h <> hn -> chunks_ a !!z h = Some c) ->
    Q hn (set_free_chunks_list fl' (set_chunks cs' a))) ->
  wp AllocateChunk a Q.
Proof.
  intros HC HQ. unfold AllocateChunk. do 2 wp_step.
  pose proof (core_fl _ _ _ _ _ HC) as Hfl. destruct (Z.eqb_spec (free_chunks_list_ a) kInvalidChunkHandle) as [E|E]; simpl.
  - do 3 wp_step. apply (HQ _ (free_chunks_list_ a) FL _ Chunk_default); try done.
    + by apply core_snoc.
    + apply zlookup_snoc.
    + intros b m p Hat. destruct (at_nonneg _ _ _ _ _ _ _ _ _ HC Hat) as [?|?]; [|lia].
      unfold zlength in *. lia.
    + intros Hin. destruct FL as [|h FL']; [set_solver|]. destruct Hfl as (Hh & Hne & _).
      unfold kInvalidChunkHandle in *. congruence.
    + intros. by apply zlookup_app_l.
    + intros f Hf. rewrite wsum_app. simpl. lia.
    + intros h c Hc Hne. by apply zlookup_snoc_inv in Hc as [?|[? _]].
  - destruct FL as [|h FL']; [done|]. destruct Hfl as (Hh & Hne & c & Hc & Ha & Hb & Hfl). rewrite Hh.
    wp_step. apply (ChunkFromHandle_wp _ _ c); [done|]. do 3 wp_step.
    apply (HQ (chunks_ a) _ FL' _ c); try done.
    + destruct HC as [? ? ? ? ? ? Hnd ?]. apply NoDup_cons in Hnd as [_ Hnd].
      split; try done. intros h' b m p Hin. naive_solver set_solver.
    + intros b m p. apply (core_FL_dead _ _ _ _ _ HC). set_solver.
    + pose proof (core_FL_nodup _ _ _ _ _ HC) as Hnd. by apply NoDup_cons in Hnd as [? _].
Qed.

(** Returning the handle of an unregistered, unused chunk to the list. *)
Lemma DeallocateChunk_wp a FL h c Q :
  CoreA a FL -> chunks_ a !!z h = Some c -> allocation_id c = -1 -> bin_num c = -1 ->
  (forall b m p, ~ at_ (regions_ a) b m p h) -> h ∉ FL ->
  (let cs' := zinsert (chunks_ a) h (with_next (free_chunks_list_ a) c) in
   Core (regions_ a) cs' (bins a) h (h :: FL) ->
   Q tt (set_free_chunks_list h (set_chunks cs' a))) ->
  wp (DeallocateChunk h) a Q.
Proof.
  intros HC Hc Ha Hb Hdead Hnin HQ. unfold DeallocateChunk. do 3 wp_step.
  apply (UpdateChunk_wp _ _ _ c); [done|]. wp_step. apply HQ.
  set (c' := with_next (free_chunks_list_ a) c).
  assert (Hz : forall x, zinsert (chunks_ a) h c' !!z x = if decide (h = x) then Some c' else chunks_ a !!z x)
    by (intros; by apply (zlookup_zinsert _ _ _ _ _ Hc)).
  assert (Hcmp : forall x y, ChunkComparator (zinsert (chunks_ a) h c') x y = ChunkComparator (chunks_ a) x y).
  { intros x y. unfold ChunkComparator. rewrite !Hz. repeat case_decide; subst; rewrite ?Hc; done. }
  split; try apply HC.
  - intros b m p h' Hat. destruct (core_tab _ _ _ _ _ HC _ _ _ _ Hat) as [?|(d & Hd & [])]; [by left|right].
    exists d. rewrite Hz. rewrite decide_False by naive_solver. split; [done|]. split; try done.
    destruct bo_prev0 as [?|(? & ? & cp & Hcp & Hatp & ?)]; [by left|right].
    split_and!; try done. exists cp. rewrite Hz. rewrite decide_False by naive_solver. eauto.
  - intros h' d. rewrite Hz. case_decide; [|by apply (core_chunk _ _ _ _ _ HC)].
    intros [= <-]. subst h'. split; simpl; [done|done|]. unfold in_use. simpl. rewrite Ha. intros [?|?]; done.
  - destruct (core_bins _ _ _ _ _ HC) as [Hl Hbs]. split; [done|]. intros i B HB.
    destruct (Hbs _ _ HB) as [Hs Hel]. split.
    + clear -Hs Hcmp. induction Hs as [|x l Hs IH Hall]; constructor; [done|].
      eapply Forall_impl; [exact Hall|]. intros y. unfold cmp. by rewrite Hcmp.
    + intros x. rewrite Hel, Hz. case_decide; [|done]. subst x.
      split; intros (d & ? & ?); simplify_eq; simpl in *; eauto.
  - pose proof (zlookup_range _ _ _ Hc). split_and!; [done|lia|].
    exists c'. rewrite Hz, decide_True by done. split_and!; try done.
    eapply flist_frame; [|apply HC]. intros x Hx. rewrite Hz, decide_False; set_solver.
  - constructor; [done|apply HC].
  - intros h' b m p [->|Hin]%elem_of_cons; [by apply Hdead|]. by apply (core_FL_dead _ _ _ _ _ HC).
Qed.


(** *** SplitChunk and Merge *)

(** Weights of chunks that ignore [prev] and vanish on unused, unbinned chunks. *)
Definition weight (f : Chunk -> Z) : Prop :=
  (forall c v, f (with_prev v c) = f c) /\
  (forall c, allocation_id c = -1 -> bin_num c = -1 -> f c = 0).

Lemma in_use_false_id c : in_use c = false -> allocation_id c = -1.
Proof. unfold in_use. intros H. apply negb_false_iff in H. lia. Qed.


Lemma rm_set_handle_wp a FL b m p h Q :
  CoreA a FL -> slot (regions_ a) b m p ->
  (forall rs', reg_wf rs' -> geom rs' = geom (regions_ a) -> get_handle p rs' = Some h ->
    (forall b' m' q, slot (regions_ a) b' m' q -> q <> p -> get_handle q rs' = get_handle q (regions_ a)) ->
    Q tt (set_regions rs' a)) ->
  wp (rm_set_handle p h) a Q.
Proof.
  intros HC Hs HQ. destruct (set_handle_slot _ _ _ _ h (core_reg _ _ _ _ _ HC) Hs) as (rs' & E & ? & ? & ? & ?).
  unfold rm_set_handle. do 3 wp_step. eapply wp_opt; [done|]. wp_step. by apply HQ.
Qed.

Lemma SplitChunk_wp a FL b m h n c Q :
  CoreA a FL -> at_ (regions_ a) b m (c_ptr c) h -> chunks_ a !!z h = Some c ->
  in_use c = false -> bin_num c = -1 -> 0 < n < c_size c -> (256 | n) ->
  (forall rs2 cs3 bs' fl' FL' hn rq,
    let cn := mkChunk (c_size c - n) rq (-1) (c_ptr c + n) h (c_next c) (BinNumForSize (c_size c - n)) in
    Core rs2 cs3 bs' fl' FL' -> geom rs2 = geom (regions_ a) ->
    (forall x, cs3 !!z x = if decide (x = hn) then Some cn
      else if decide (x = h) then Some (with_next hn (with_size n c))
      else if decide (x = c_next c) then with_prev hn <$> chunks_ a !!z x
      else chunks_ a !!z x) ->
    (forall b m p, ~ at_ (regions_ a) b m p hn) ->
    (forall b' m' q x, at_ rs2 b' m' q x ->
       (q = c_ptr c + n /\ b' = b /\ m' = m /\ x = hn) \/ at_ (regions_ a) b' m' q x) ->
    (forall b' m' q x, at_ (regions_ a) b' m' q x -> x <> -1 -> at_ rs2 b' m' q x) ->
    (forall f, weight f -> f Chunk_default = 0 -> wsum f cs3 = wsum f (chunks_ a) + f cn) ->
    Q tt (set_bins bs' (set_chunks cs3 (set_regions rs2 (set_free_chunks_list fl' a))))) ->
  wp (SplitChunk h n) a Q.
Proof.
  intros HC Hat Hc Hu Hb Hn Hdn HQ. unfold SplitChunk. wp_step.
  apply (AllocateChunk_wp _ _ _ _ HC).
  intros cs' fl' FL' hn c0 HC' Hc0 Ha0 Hb0 Hdead HnFL Hsub Hsum Hback.
  pose proof (Hsub _ _ Hc) as Hc'.
  assert (Hhn : hn <> h) by (intros ->; by eapply Hdead).
  pose proof (split_slot _ _ _ _ _ _ _ _ _ _ _ HC' Hat Hc' Hn Hdn) as Hslot.
  pose proof (split_block _ _ _ _ _ _ _ _ _ _ HC' Hat Hc') as HB.
  pose proof (core_size_bound _ _ _ _ _ _ _ _ _ _ HC' Hat Hc') as Hsz.
  assert (Hp : 0 < c_ptr c /\ c_ptr c + c_size c < 2 ^ 64).
  { destruct (RegionFor_slot _ _ _ _ (core_reg _ _ _ _ _ HC') (proj1 Hat)) as (i & r & _ & _ & Hb' & Hm' & Hr & _).
    destruct Hr as (? & ? & ? & ? & ? & ?). pose proof (bo_fits _ _ _ _ _ _ _ HB).
    destruct Hat as [(_ & ? & _) _]. lia. }
  assert (Hid : allocation_id c = -1) by by apply in_use_false_id.
  wp_step. apply (ChunkFromHandle_wp _ _ c); [done|].
  wp_step. wp_step; [by rewrite Hu, Hb|].
  rewrite (u64_id (c_ptr c + n)), (u64_id (c_size c - n)) by lia.
  wp_step. apply (UpdateChunk_wp _ _ _ c0); [done|].
  wp_step. eapply ChunkFromHandle_wp; [zl|]. cbn [c_ptr with_ptr].
  set (a1 := set_chunks _ _).
  wp_step. unfold rm_set_handle. do 3 wp_step.
  destruct (set_handle_slot _ _ _ _ hn (core_reg _ _ _ _ _ HC') Hslot) as (rs2 & E & Hw2 & Hg2 & Hset & Hoth).
  eapply wp_opt; [exact E|]. wp_step. subst a1.
  wp_step. eapply UpdateChunk_wp; [zl|].
  wp_step. eapply UpdateChunk_wp; [zl|].
  wp_step. eapply UpdateChunk_wp; [zl|].
  wp_step. eapply ChunkFromHandle_wp; [zl|]. cbn [c_next with_size].
  wp_step. eapply UpdateChunk_wp; [zl|].
  wp_step. eapply UpdateChunk_wp; [zl|].
  wp_step. eapply UpdateChunk_wp; [zl|].
  set (cn := mkChunk (c_size c - n) (requested_size c0) (-1) (c_ptr c + n) h (c_next c) (-1)).
  (* the table after the last update *)
  set (final := fun cs2 => set_chunks cs2 (set_regions rs2 (set_free_chunks_list fl' a))).
  assert (Hfin : forall cs2,
    (forall x, cs2 !!z x = if decide (x = hn) then Some cn
      else if decide (x = h) then Some (with_next hn (with_size n c))
      else if decide (x = c_next c) then with_prev hn <$> cs' !!z x else cs' !!z x) ->
    (forall f, weight f -> f Chunk_default = 0 -> wsum f cs2 = wsum f (chunks_ a)) ->
    wp (InsertFreeChunkIntoBin hn) (final cs2) Q).
  { intros cs2 Hcs2 Hs2.
    assert (HC2 : Core rs2 cs2 (bins a) fl' FL').
    { by apply (core_split _ _ _ _ _ _ _ _ _ (c_ptr c) n h hn c c0 cn HC' Hat Hc'). }
    assert (Hx : cs2 !!z hn = Some cn) by (by rewrite Hcs2, decide_True).
    assert (Hat2 : at_ rs2 b m (c_ptr c + n) hn) by (split; [by apply (slot_geom _ _ _ _ _ Hg2)|done]).
    apply (InsertFreeChunkIntoBin_wp (final cs2) FL' hn cn b m); try done.
    intros bs' cs3 HC3. apply (HQ _ _ _ _ FL' hn (requested_size c0)); try done.
    - intros x. unfold cs3. change (chunks_ (final cs2)) with cs2.
      rewrite (zlookup_zinsert _ _ _ _ _ Hx). destruct (decide (x = hn)) as [->|Hxn]; [by rewrite decide_True|].
      rewrite decide_False by done. rewrite Hcs2, decide_False by done.
      assert (Hback' : cs' !!z x = chunks_ a !!z x).
      { destruct (cs' !!z x) eqn:Ex; [by rewrite (Hback _ _ Ex)|].
        destruct (chunks_ a !!z x) eqn:Ey; [|done]. by rewrite (Hsub _ _ Ey) in Ex. }
      by rewrite Hback'.
    - intros b' m' q x Hq.
      destruct (split_at2 _ _ _ _ _ _ _ _ _ n _ hn _ HC' Hat Hc' Hn Hdn Hg2 Hset Hoth _ _ _ _ Hq) as [?|[_ ?]]; auto.
    - intros b' m' q x Hq Hx1. by apply (split_at1 _ _ _ _ _ _ _ _ _ n _ _ HC' Hat Hc' Hn Hdn Hg2 Hoth).
    - intros f Hf Hf0. unfold cs3. change (chunks_ (final cs2)) with cs2.
      rewrite (wsum_zinsert _ _ _ _ _ Hx), (Hs2 _ Hf Hf0). rewrite (proj2 Hf cn) by done. rewrite Z.sub_0_r. reflexivity. }
  assert (Hw0 : forall f, weight f -> forall c, allocation_id c = -1 -> bin_num c = -1 -> f c = 0) by (intros f [_ ?]; done).
  wp_step. destruct (Z.eqb_spec (c_next c) kInvalidChunkHandle) as [Enx|Enx]; cbn [negb].
  - wp_step. apply Hfin.
    + intros x. destruct (decide (x = hn)) as [->|]; [|destruct (decide (x = h)) as [->|]].
      * zl. unfold cn. by rewrite <- Hb0.
      * zl.
      * zl. case_decide; [|done]. subst x. by rewrite Enx.
    + intros f Hf Hf0. cbn [chunks_ set_chunks set_free_chunks_list set_regions].
      repeat (erewrite wsum_zinsert by zl).
      rewrite !(Hw0 f Hf) by (simpl; congruence). rewrite Hsum by done. lia.
  - destruct (at_live _ _ _ _ _ _ _ _ _ HC' (next_at _ _ _ _ _ _ _ (proj1 Hat) HB Enx) Enx) as (d & Hd & _).
    assert (Hxh : c_next c <> h).
    { intros E0. pose proof (next_at _ _ _ _ _ _ _ (proj1 Hat) HB Enx) as Hna. rewrite E0 in Hna.
      assert (h <> -1) by (apply zlookup_range in Hc; lia).
      destruct (at_inj _ _ _ _ _ _ _ _ _ _ _ _ HC' ltac:(eassumption) Hat Hna) as (_ & _ & ?). lia. }
    assert (Hxn : c_next c <> hn).
    { intros E0. pose proof (next_at _ _ _ _ _ _ _ (proj1 Hat) HB Enx) as Hna. rewrite E0 in Hna. by eapply Hdead. }
    eapply UpdateChunk_wp; [zl|]. apply Hfin.
    + intros x. destruct (decide (x = hn)) as [->|]; [|destruct (decide (x = h)) as [->|]].
      * zl. unfold cn. by rewrite <- Hb0.
      * zl.
      * case_decide; [subst x|]; zl. by rewrite Hd.
    + intros f Hf Hf0. cbn [chunks_ set_chunks set_free_chunks_list set_regions].
      repeat (erewrite wsum_zinsert by zl).
      rewrite (proj1 Hf d). rewrite !(Hw0 f Hf) by (simpl; congruence). rewrite Hsum by done. lia.
Qed.


Lemma prev_is rs cs bs fl FL b m p h1 c1 h2 c2 :
  Core rs cs bs fl FL -> at_ rs b m p h1 -> cs !!z h1 = Some c1 -> c_next c1 = h2 ->
  cs !!z h2 = Some c2 -> c_prev c2 = h1.
Proof.
  intros HC Hat Hc1 Hnx Hc2.
  assert (Hh1 : h1 <> -1) by (apply zlookup_range in Hc1; lia).
  assert (Hh2 : h2 <> -1) by (apply zlookup_range in Hc2; lia).
  destruct (at_live _ _ _ _ _ _ _ _ _ HC Hat Hh1) as (c' & Hc' & HB). simplify_eq.
  pose proof (next_at _ _ _ _ _ _ _ (proj1 Hat) HB Hh2) as Hna.
  destruct (at_live _ _ _ _ _ _ _ _ _ HC Hna Hh2) as (c'' & Hc'' & HB2). simplify_eq.
  pose proof (bo_size _ _ _ _ _ _ _ HB). destruct Hat as [(Hin & Hr & Hd) Hg].
  destruct (bo_prev _ _ _ _ _ _ _ HB2) as [[? _]|(_ & Hp & cp & Hcp & Hatp & E)]; [lia|].
  destruct (decide (c_ptr cp = p)) as [Ep|Hne].
  - destruct Hatp as [_ Hgp]. rewrite Ep in Hgp. congruence.
  - pose proof (at_disjoint _ _ _ _ _ _ _ _ _ _ _ _ _ HC Hatp (conj (conj Hin (conj Hr Hd)) Hg) Hp Hh1 Hcp Hc1 Hne).
    destruct (at_live _ _ _ _ _ _ _ _ _ HC Hatp Hp) as (cp' & Hcp' & HBp). simplify_eq.
    pose proof (bo_size _ _ _ _ _ _ _ HBp). lia.
Qed.

Lemma Merge_wp a FL b m h1 h2 c1 c2 Q :
  CoreA a FL -> at_ (regions_ a) b m (c_ptr c1) h1 -> chunks_ a !!z h1 = Some c1 ->
  chunks_ a !!z h2 = Some c2 -> c_next c1 = h2 ->
  in_use c1 = false -> in_use c2 = false -> bin_num c1 = -1 -> bin_num c2 = -1 ->
  (forall rs2 cs3,
    Core rs2 cs3 (bins a) h2 (h2 :: FL) -> geom rs2 = geom (regions_ a) ->
    (forall x, cs3 !!z x = if decide (x = h2) then Some (with_next (free_chunks_list_ a) c2)
      else if decide (x = h1) then Some (with_size (c_size c1 + c_size c2) (with_next (c_next c2) c1))
      else if decide (x = c_next c2) then with_prev h1 <$> chunks_ a !!z x
      else chunks_ a !!z x) ->
    (forall b' m' q x, at_ rs2 b' m' q x -> x = -1 \/ (x <> h2 /\ at_ (regions_ a) b' m' q x)) ->
    (forall b' m' q x, at_ (regions_ a) b' m' q x -> x <> h2 -> at_ rs2 b' m' q x) ->
    (forall f, weight f -> wsum f cs3 = wsum f (chunks_ a)) ->
    Q tt (set_free_chunks_list h2 (set_chunks cs3 (set_regions rs2 a)))) ->
  wp (Merge h1 h2) a Q.
Proof.
  intros HC Hat Hc1 Hc2 Hnx Hu1 Hu2 Hb1 Hb2 HQ. unfold Merge.
  pose proof (merge_block1 _ _ _ _ _ _ _ _ _ _ HC Hat Hc1) as HB1.
  pose proof (merge_at2 _ _ _ _ _ _ _ _ _ _ _ _ HC Hat Hc1 Hc2 Hnx) as Hat2.
  pose proof (merge_block2 _ _ _ _ _ _ _ _ _ _ _ _ HC Hat Hc1 Hc2 Hnx) as HB2.
  pose proof (merge_ne _ _ _ _ _ _ _ _ _ _ _ _ HC Hat Hc1 Hc2 Hnx) as Hne.
  pose proof (prev_is _ _ _ _ _ _ _ _ _ _ _ _ HC Hat Hc1 Hnx Hc2) as Hpv.
  pose proof (merge_h2 _ _ _ Hc2) as Hh2.
  assert (Hn2 : c_next c2 <> h2 /\ (c_next c2 <> -1 -> c_next c2 <> h1 /\ is_Some (chunks_ a !!z c_next c2))).
  { assert (Hdn : c_next c2 <> -1 -> at_ (regions_ a) b m (c_ptr c1 + c_size c1 + c_size c2) (c_next c2))
      by (by eapply next_at; [apply Hat2|]).
    pose proof (bo_size _ _ _ _ _ _ _ HB1). pose proof (bo_size _ _ _ _ _ _ _ HB2). split.
    - intros E. rewrite E in Hdn.
      destruct (at_inj _ _ _ _ _ _ _ _ _ _ _ _ HC Hh2 Hat2 (Hdn Hh2)) as (_ & _ & ?). lia.
    - intros Hm1. split.
      + intros E. rewrite E in Hdn, Hm1.
        destruct (at_inj _ _ _ _ _ _ _ _ _ _ _ _ HC Hm1 Hat (Hdn Hm1)) as (_ & _ & ?). lia.
      + destruct (at_live _ _ _ _ _ _ _ _ _ HC (Hdn Hm1) Hm1) as (d & -> & _). done. }
  destruct Hn2 as [Hn2 Hn3].
  assert (Hsz : 0 < c_size c1 + c_size c2 < 2 ^ 64).
  { pose proof (core_size_bound _ _ _ _ _ _ _ _ _ _ HC Hat Hc1).
    pose proof (core_size_bound _ _ _ _ _ _ _ _ _ _ HC Hat2 Hc2). lia. }
  wp_step. apply (ChunkFromHandle_wp _ _ c1); [done|].
  wp_step. apply (ChunkFromHandle_wp _ _ c2); [done|].
  wp_step. wp_step; [by rewrite Hu1, Hu2|].
  wp_step. apply (UpdateChunk_wp _ _ _ c1); [done|].
  wp_step. wp_step; [by apply Z.eqb_eq|].
  (* the state after the links of the neighbours are fixed *)
  set (K := UpdateChunk h1 (fun c => with_size (u64 (c_size c + c_size c2)) c) ;;; DeleteChunk h2).
  assert (HK : forall cs1, (forall x, cs1 !!z x = if decide (x = h1) then Some (with_next (c_next c2) c1)
      else if decide (x = c_next c2) then with_prev h1 <$> chunks_ a !!z x else chunks_ a !!z x) ->
    (forall f, weight f -> wsum f cs1 = wsum f (chunks_ a)) ->
    wp K (set_chunks cs1 a) Q).
  { intros cs1 Hcs1 Hs1. unfold K. clear K.
    assert (Hx1 : cs1 !!z h1 = Some (with_next (c_next c2) c1)) by (by rewrite Hcs1, decide_True).
    assert (Hx2 : cs1 !!z h2 = Some c2) by (by rewrite Hcs1, !decide_False by congruence).
    wp_step. apply (UpdateChunk_wp _ _ _ (with_next (c_next c2) c1)); [done|].
    cbn [c_size with_next]. rewrite u64_id by lia. unfold DeleteChunk.
    wp_step. apply (ChunkFromHandle_wp _ _ c2); [zl|].
    rewrite (bo_ptr _ _ _ _ _ _ _ HB2).
    wp_step. unfold rm_erase. do 3 wp_step.
    destruct (set_handle_slot _ _ _ _ (-1) (core_reg _ _ _ _ _ HC) (proj1 Hat2)) as (rs2 & E & Hw2 & Hg2 & Hset & Hoth).
    eapply wp_opt; [exact E|]. wp_step. cbn [chunks_ set_chunks].
    set (cs2 := zinsert cs1 h1 _).
    assert (Hcs2 : forall x, cs2 !!z x =
      if decide (x = h1) then Some (with_size (c_size c1 + c_size c2) (with_next (c_next c2) c1))
      else if decide (x = c_next c2) then with_prev h1 <$> chunks_ a !!z x else chunks_ a !!z x).
    { intros x. unfold cs2. rewrite (zlookup_zinsert _ _ _ _ _ Hx1).
      destruct (decide (h1 = x)) as [->|]; [by rewrite decide_True|].
      by rewrite Hcs1, !(decide_False (P := x = h1)) by congruence. }
    pose proof (core_merge _ _ _ cs2 _ _ _ _ _ _ _ _ _ _ HC Hat Hc1 Hc2 Hnx Hu1 Hu2 Hb1 Hb2 Hw2 Hg2 Hset Hoth Hcs2) as HC2.
    apply (DeallocateChunk_wp (set_regions rs2 (set_chunks cs2 a)) FL h2 c2); try done.
    - unfold cs2. zl.
    - by apply in_use_false_id.
    - intros b' m' q. eapply (merge_dead (regions_ a) rs2 (chunks_ a) _ _ _ _ _ (c_ptr c1) h1 h2 c1 c2); eassumption.
    - eapply (merge_notin_FL (regions_ a) (chunks_ a) _ _ _ _ _ (c_ptr c1) h1 h2 c1 c2); eassumption.
    - intros cs3 HC3. cbn [chunks_ set_regions set_chunks free_chunks_list_] in cs3.
      assert (Hx22 : cs2 !!z h2 = Some c2) by (unfold cs2; zl).
      apply HQ; try done.
      + intros x. unfold cs3. rewrite (zlookup_zinsert _ _ _ _ _ Hx22).
        destruct (decide (h2 = x)) as [->|]; [by rewrite decide_True|].
        by rewrite Hcs2, (decide_False (P := x = h2)) by congruence.
      + intros b' m' q x Hq.
        assert (x = -1 \/ (q <> c_ptr c1 + c_size c1 /\ x <> h2 /\ at_ (regions_ a) b' m' q x)) as [?|(_ & ? & ?)]; [|auto..].
        eapply (merge_at_inv (regions_ a) rs2 (chunks_ a) _ _ _ _ _ (c_ptr c1) h1 h2 c1 c2); eassumption.
      + intros b' m' q x Hq Hx.
        eapply (merge_at1 (regions_ a) rs2 (chunks_ a) _ _ _ _ _ (c_ptr c1) h1 h2 c1 c2); eassumption.
      + intros f Hf. unfold cs3. rewrite (wsum_zinsert _ _ _ _ _ Hx22). unfold cs2.
        rewrite (wsum_zinsert _ _ _ _ _ Hx1), (Hs1 _ Hf).
        pose proof (in_use_false_id _ Hu1). pose proof (in_use_false_id _ Hu2).
        rewrite !(proj2 Hf) by done. lia. }
  pose proof (in_use_false_id _ Hu1) as Hid1.
  wp_step. destruct (Z.eqb_spec (c_next c2) kInvalidChunkHandle) as [E3|E3]; cbn [negb].
  - wp_step. apply HK.
    + intros x. rewrite (zlookup_zinsert _ _ _ _ _ Hc1).
      destruct (decide (h1 = x)) as [->|]; [by rewrite decide_True|].
      rewrite (decide_False (P := x = h1)) by congruence. case_decide as Ex; [|done].
      subst x. by rewrite E3.
    + intros f Hf. rewrite (wsum_zinsert _ _ _ _ _ Hc1). rewrite !(proj2 Hf) by done. lia.
  - destruct (Hn3 E3) as [Hn31 [d Hd]].
    apply (UpdateChunk_wp _ _ _ d); [zl|].
    assert (Hd' : zinsert (chunks_ a) h1 (with_next (c_next c2) c1) !!z c_next c2 = Some d) by zl.
    apply HK.
    + intros x. cbn [chunks_ set_chunks]. rewrite (zlookup_zinsert _ _ _ _ _ Hd'), (zlookup_zinsert _ _ _ _ _ Hc1).
      destruct (decide (c_next c2 = x)) as [<-|].
      * by rewrite decide_False, decide_True, Hd by congruence.
      * destruct (decide (h1 = x)) as [->|]; [by rewrite decide_True|].
        by rewrite !decide_False by congruence.
    + intros f Hf. cbn [chunks_ set_chunks]. rewrite (wsum_zinsert _ _ _ _ _ Hd'), (wsum_zinsert _ _ _ _ _ Hc1).
      rewrite (proj1 Hf d), !(proj2 Hf) by done. lia.
Qed.

End Specs.
End BFCFacts.
