(* ===== verification/BfcInvariant.v ===== *)
(** * The BFC allocator: the invariant of reachable states

    The top-level invariant of the allocator and its preservation by every
    public operation; the user-visible blocks and their accounting. *)
From S2P Require Import Prelude BfcAllocator BfcAllocatorFacts.
Import BFCAllocator BFCFacts.

Module BFCInv.

(** What the sub-allocator promises: a non-null result is a fresh region,
    disjoint from those it handed out before. *)
Class SubAllocatorLaws (SA : Type) `{!SubAllocator SA} (owned : SA -> list (Z * Z)) : Prop :=
  sa_alloc_law : forall s n p s', 0 < n -> sa_alloc s 32 n = (p, s') ->
    (p = 0 /\ owned s' = owned s) \/
    (0 < p /\ p + n < 2 ^ 64 /\ owned s' = (p, n) :: owned s /\
     forall q k, (q, k) ∈ owned s -> p + n <= q \/ q + k <= p).

(** ** The view of the client *)

Definition uview (cs : list Chunk) (h : Z) : option (Z * Z * Z * Z) :=
  match cs !!z h with
  | Some c => if in_use c then Some (c_ptr c, c_size c, requested_size c, allocation_id c) else None
  | None => None
  end.

(** [Allocated a p sz req id]: the block [p, p + sz) is granted to the client,
    who asked for [req] bytes, under the allocation id [id]. *)
Definition Allocated {SA} (a : Allocator SA) (p sz req id : Z) : Prop :=
  exists h, uview (chunks_ a) h = Some (p, sz, req, id).

Definition used (c : Chunk) : Z := if in_use c then c_size c else 0.
Definition tot (c : Chunk) : Z :=
  if in_use c || negb (bin_num c =? -1) then c_size c else 0.

Lemma weight_used : weight used.
Proof.
  split; [done|]. intros c Ha _. unfold used, in_use. by rewrite Ha.
Qed.
Lemma weight_tot : weight tot.
Proof.
  split; [done|]. intros c Ha Hb. unfold tot, in_use. by rewrite Ha, Hb.
Qed.

Definition lsz (cs : list Chunk) (x : Z) : Z :=
  match cs !!z x with Some c => c_size c | None => 0 end.

(** Every registered free chunk is binned, except the loose chunk [x]; no two
    neighbours are free, except the pairs with [y]. *)
Definition all_binned rs cs (x : Z) : Prop :=
  forall b m p h c, at_ rs b m p h -> cs !!z h = Some c -> in_use c = false -> h <> x -> bin_num c <> -1.
Definition coalesced rs cs (y : Z) : Prop :=
  forall b m p h c d, at_ rs b m p h -> cs !!z h = Some c -> in_use c = false ->
    c_next c <> -1 -> cs !!z c_next c = Some d -> in_use d = false -> h = y \/ c_next c = y.
Definition loose rs cs (x : Z) : Prop :=
  x = -1 \/ exists b m c, cs !!z x = Some c /\ at_ rs b m (c_ptr c) x /\ in_use c = false /\ bin_num c = -1.

Record Ids (cs : list Chunk) (next_id : Z) : Prop := {
  ids_ok : forall h p s r i, uview cs h = Some (p, s, r, i) -> 0 < r <= s /\ 1 <= i < next_id;
  ids_inj : forall h h' p s r i p' s' r',
    uview cs h = Some (p, s, r, i) -> uview cs h' = Some (p', s', r', i) -> h = h';
  ids_next : 1 <= next_id
}.

Record InvP (x y : Z) (rs : list AllocationRegion) (cs : list Chunk) (bs : list Bin) (fl next_id total in_use_bytes : Z) : Prop := {
  ip_core : exists FL, Core rs cs bs fl FL;
  ip_binned : all_binned rs cs x;
  ip_coal : coalesced rs cs y;
  ip_loose : loose rs cs x;
  ip_ids : Ids cs next_id;
  ip_used : in_use_bytes = wsum used cs;
  ip_tot : wsum tot cs + lsz cs x = total
}.

Lemma zlookup_m1 {A} (l : list A) : l !!z (-1) = None.
Proof. done. Qed.
Lemma lsz_m1 cs : lsz cs (-1) = 0.
Proof. done. Qed.

Lemma at_chunk rs cs bs fl FL b m p h c :
  Core rs cs bs fl FL -> at_ rs b m p h -> cs !!z h = Some c -> c_ptr c = p.
Proof.
  intros HC Hat Hc. destruct (core_tab _ _ _ _ _ HC _ _ _ _ Hat) as [->|(c' & Hc' & HB)]; [done|].
  simplify_eq. apply HB.
Qed.

Lemma used_pos rs cs bs fl FL : Core rs cs bs fl FL -> 0 <= wsum used cs <= wsum tot cs.
Proof.
  intros HC.
  assert (Hall : forall c, c ∈ cs -> 0 <= used c <= tot c).
  { intros c [i Hi]%list_elem_of_lookup. unfold used, tot.
    assert (Hz : cs !!z Z.of_nat i = Some c).
    { unfold zlookup. destruct (Z.ltb_spec (Z.of_nat i) 0); [lia|]. by rewrite Nat2Z.id. }
    destruct (in_use c) eqn:Hu; simpl.
    - destruct (co_owner _ _ _ (core_chunk _ _ _ _ _ HC _ _ Hz) (or_introl Hu)) as (b & m & Hat).
      pose proof (core_size_bound _ _ _ _ _ _ _ _ _ _ HC Hat Hz). lia.
    - destruct (Z.eqb_spec (bin_num c) (-1)); simpl; [lia|].
      destruct (co_owner _ _ _ (core_chunk _ _ _ _ _ HC _ _ Hz) (or_intror n)) as (b & m & Hat).
      pose proof (core_size_bound _ _ _ _ _ _ _ _ _ _ HC Hat Hz). lia. }
  clear HC. induction cs as [|c cs IH]; simpl; [lia|].
  pose proof (Hall c ltac:(set_solver)). assert (0 <= wsum used cs <= wsum tot cs) by (apply IH; set_solver). lia.
Qed.

Lemma ids_uview cs cs' nid : (forall h, uview cs' h = uview cs h) -> Ids cs nid -> Ids cs' nid.
Proof.
  intros He [H1 H2 H3]. split; [|by intros ???????? ?; rewrite !He; apply H2|done].
  intros h p s r i. rewrite He. apply H1.
Qed.

(** ** Steps of an allocation *)

Section Steps.
Context {SA : Type} `{!SubAllocator SA}.
Implicit Types (a : Allocator SA) (rs : list AllocationRegion) (cs : list Chunk) (bs : list Bin).

Abbreviation CoreA a FL :=
  (Core (regions_ a) (chunks_ a) (bins a) (free_chunks_list_ a) FL).
Abbreviation InvA x y a :=
  (InvP x y (regions_ a) (chunks_ a) (bins a) (free_chunks_list_ a) (next_allocation_id_ a)
     (total_region_allocated_bytes_ a) (bytes_in_use (stats_ a))).

Lemma loose_handle cs x (c : Chunk) : cs !!z x = Some c -> x <> -1.
Proof. intros Hc. apply zlookup_range in Hc. lia. Qed.

(** Changing the bin of a free chunk does not change the client's view. *)
Lemma uview_rebin cs h c i :
  cs !!z h = Some c -> in_use c = false ->
  forall h', uview (zinsert cs h (with_bin_num i c)) h' = uview cs h'.
Proof.
  intros Hc Hu h'. unfold uview. rewrite (zlookup_zinsert _ _ _ _ _ Hc).
  case_decide; [|done]. subst h'. rewrite Hc. unfold in_use in *. simpl. by rewrite Hu.
Qed.

Lemma tot_free c : in_use c = false -> bin_num c <> -1 -> tot c = c_size c.
Proof. intros Hu Hb. unfold tot. rewrite Hu. simpl. destruct (Z.eqb_spec (bin_num c) (-1)); done. Qed.

Lemma inv_remove rs cs bs bs' fl nid total iub h c FL :
  InvP (-1) (-1) rs cs bs fl nid total iub -> cs !!z h = Some c -> bin_num c <> -1 ->
  let cs' := zinsert cs h (with_bin_num (-1) c) in
  Core rs cs' bs' fl FL -> InvP h (-1) rs cs' bs' fl nid total iub.
Proof.
  intros [[FL0 HC] H2 H3 H4 H5 H6 H7] Hc Hb cs' HC'.
  pose proof (core_chunk _ _ _ _ _ HC _ _ Hc) as [K1 K2 K3].
  destruct (K3 (or_intror Hb)) as (b & m & Hat).
  assert (Hu : in_use c = false) by (destruct (in_use c); [naive_solver|done]).
  assert (Hz : forall x, cs' !!z x = if decide (h = x) then Some (with_bin_num (-1) c) else cs !!z x)
    by (intros; by apply (zlookup_zinsert _ _ _ _ _ Hc)).
  assert (Hback : forall x d, cs' !!z x = Some d ->
    exists d0, cs !!z x = Some d0 /\ in_use d0 = in_use d /\ c_next d0 = c_next d).
  { intros x d. rewrite Hz. case_decide; [|by eauto]. intros [= <-]. subst x. eauto. }
  split; [by eexists| | | | | |].
  - intros b' m' p' h' d Hat' Hd Hud Hne. rewrite Hz, decide_False in Hd by done.
    eapply H2; eauto. intros ->. by apply loose_handle in Hd.
  - intros b' m' p' h' d e Hat' Hd Hud Hnx He Hue.
    destruct (Hback _ _ Hd) as (d0 & D1 & D2 & D3), (Hback _ _ He) as (e0 & E1 & E2 & _).
    rewrite <- D3 in *. eapply H3; eauto; congruence.
  - right. exists b, m, (with_bin_num (-1) c). rewrite Hz, decide_True by done. done.
  - eapply ids_uview; [|exact H5]. by apply uview_rebin.
  - unfold cs'. rewrite (wsum_zinsert _ _ _ _ _ Hc). rewrite H6.
    unfold used, in_use in *. simpl. lia.
  - unfold cs', lsz. rewrite (wsum_zinsert _ _ _ _ _ Hc), Hz, decide_True by done.
    rewrite (tot_free c Hu Hb). rewrite (proj2 weight_tot (with_bin_num (-1) c)) by (done || by apply in_use_false_id).
    rewrite lsz_m1 in H7. simpl. lia.
Qed.

Lemma remove_wp a h c Q :
  InvA (-1) (-1) a -> chunks_ a !!z h = Some c -> bin_num c <> -1 ->
  (forall bs', let cs' := zinsert (chunks_ a) h (with_bin_num (-1) c) in
     InvA h (-1) (set_bins bs' (set_chunks cs' a)) ->
     (forall h', uview cs' h' = uview (chunks_ a) h') ->
     Q tt (set_bins bs' (set_chunks cs' a))) ->
  wp (RemoveFreeChunkIterFromBin (bin_num c) h) a Q.
Proof.
  intros HI Hc Hb HQ. pose proof HI as [[FL HC] _ _ _ _ _ _].
  destruct (binned_facts _ _ _ _ HC Hc Hb) as (_ & Hu & _).
  apply (RemoveFreeChunkIterFromBin_wp _ _ _ _ _ HC Hc Hb). intros bs' cs' HC'.
  apply HQ; [by eapply inv_remove|]. by apply uview_rebin.
Qed.

(** The next chunk of [x] is in use (or there is none). *)
Definition next_used cs x : Prop :=
  forall c d, cs !!z x = Some c -> c_next c <> -1 -> cs !!z c_next c = Some d -> in_use d = true.
Definition prev_used cs x : Prop :=
  forall c d, cs !!z x = Some c -> c_prev c <> -1 -> cs !!z c_prev c = Some d -> in_use d = true.

Lemma split_wp a h n c b m Q :
  InvA h (-1) a -> chunks_ a !!z h = Some c -> at_ (regions_ a) b m (c_ptr c) h ->
  in_use c = false -> bin_num c = -1 ->
  0 < n < c_size c -> (256 | n) ->
  (forall rs2 cs3 bs' fl' hn,
     let a' := set_bins bs' (set_chunks cs3 (set_regions rs2 (set_free_chunks_list fl' a))) in
     InvA h h a' -> geom rs2 = geom (regions_ a) ->
     cs3 !!z h = Some (with_next hn (with_size n c)) -> at_ rs2 b m (c_ptr c) h ->
     (forall h', uview cs3 h' = uview (chunks_ a) h') -> Q tt a') ->
  wp (SplitChunk h n) a Q.
Proof.
  intros [[FL HC] H2 H3 H4 H5 H6 H7] Hc Hat Hu Hb Hn Hd HQ.
  assert (Hh : h <> -1) by by eapply loose_handle.
  apply (SplitChunk_wp _ _ _ _ _ _ _ _ HC Hat Hc Hu Hb Hn Hd).
  intros rs2 cs3 bs' fl' FL' hn rq cn HC' Hg Hz Hdead Hat2 Hat1 Hs.
  assert (Hhn : hn <> h) by (intros ->; by eapply Hdead).
  assert (Hx : cs3 !!z h = Some (with_next hn (with_size n c))) by (by rewrite Hz, decide_False, decide_True).
  assert (Hnid : allocation_id c = -1) by by apply in_use_false_id.
  assert (Hold : forall x d, cs3 !!z x = Some d -> x <> hn -> x <> h ->
    exists d0, chunks_ a !!z x = Some d0 /\ in_use d0 = in_use d /\ bin_num d0 = bin_num d /\ c_next d0 = c_next d).
  { intros x d Hxd N1 N2. rewrite Hz, !decide_False in Hxd by done. case_decide; [|eauto].
    destruct (chunks_ a !!z x) as [d0|]; simplify_eq/=. eauto. }
  assert (Hv : forall h', uview cs3 h' = uview (chunks_ a) h').
  { intros x. unfold uview. destruct (decide (x = hn)) as [->|N1].
    - rewrite Hz, decide_True by done. destruct (chunks_ a !!z hn) as [d|] eqn:Ehn; [|done].
      destruct (in_use d) eqn:Hud; [|done].
      destruct (co_owner _ _ _ (core_chunk _ _ _ _ _ HC _ _ Ehn) (or_introl Hud)) as (?&?&?). by edestruct Hdead.
    - destruct (decide (x = h)) as [->|N2].
      + rewrite Hx, Hc, Hu. unfold in_use in *. simpl. by rewrite Hu.
      + rewrite Hz, !decide_False by done. case_decide; [|done].
        by destruct (chunks_ a !!z x). }
  apply (HQ _ _ _ _ hn); try done; [|by apply Hat1].
  split; [by eexists| | | | | |]; cbn [regions_ chunks_ set_bins set_chunks set_regions set_free_chunks_list stats_ next_allocation_id_ total_region_allocated_bytes_].
  - intros b' m' q x d Hq Hxd Hud Hne. destruct (decide (x = hn)) as [->|N1].
    + rewrite Hz, decide_True in Hxd by done. simplify_eq. simpl.
      pose proof (core_size_bound _ _ _ _ _ _ _ _ _ _ HC Hat Hc).
      pose proof (BinNumForSize_range (c_size c - n)). lia.
    + destruct (Hold _ _ Hxd N1 Hne) as (d0 & D1 & D2 & <- & _).
      destruct (Hat2 _ _ _ _ Hq) as [(_ & _ & _ & ?)|Hq1]; [done|].
      eapply H2; [exact Hq1|exact D1|congruence|done].
  - intros b' m' q x d e Hq Hxd Hud Hnx He Hue.
    destruct (decide (x = h)) as [->|N2]; [by left|]. right.
    destruct (decide (x = hn)) as [->|N1].
    + rewrite Hz, decide_True in Hxd by done. simplify_eq. simpl in Hnx, He. exfalso.
      assert (exists e0, chunks_ a !!z c_next c = Some e0 /\ in_use e0 = false) as (e0 & E1 & E2).
      { destruct (decide (c_next c = h)) as [Eh|N3].
        - destruct (at_live _ _ _ _ _ _ _ _ _ HC Hat Hh) as (c' & Hc' & HB). assert (c' = c) as -> by congruence.
          pose proof (next_at _ _ _ _ _ _ _ (proj1 Hat) HB Hnx) as Hna. rewrite Eh in Hna.
          destruct (at_inj _ _ _ _ _ _ _ _ _ _ _ _ HC Hh Hat Hna) as (_ & _ & ?).
          pose proof (bo_size _ _ _ _ _ _ _ HB). lia.
        - assert (c_next c <> hn).
          { destruct (at_live _ _ _ _ _ _ _ _ _ HC Hat Hh) as (c' & Hc' & HB). assert (c' = c) as -> by congruence.
            pose proof (next_at _ _ _ _ _ _ _ (proj1 Hat) HB Hnx) as Hna. intros Eh. rewrite Eh in Hna. by edestruct Hdead. }
          destruct (Hold _ _ He) as (e0 & ? & ? & _); [done..|]. exists e0. split; [done|congruence]. }
      destruct (H3 _ _ _ _ _ _ Hat Hc Hu Hnx E1 E2) as [?|?]; [by apply Hh|congruence].
    + destruct (Hold _ _ Hxd N1 N2) as (d0 & D1 & D2 & _ & D3).
      destruct (Hat2 _ _ _ _ Hq) as [(_ & _ & _ & ?)|Hq1]; [done|].
      destruct (decide (c_next d = h)) as [|N3]; [done|].
      assert (N4 : c_next d <> hn).
      { assert (x <> -1) by by eapply loose_handle.
        destruct (at_live _ _ _ _ _ _ _ _ _ HC Hq1 ltac:(eassumption)) as (c' & Hc' & HB). assert (c' = d0) as -> by congruence.
        rewrite <- D3 in Hnx |- *. pose proof (next_at _ _ _ _ _ _ _ (proj1 Hq1) HB Hnx) as Hna.
        intros Eh. rewrite Eh in Hna. by edestruct Hdead. }
      destruct (Hold _ _ He N4 N3) as (e0 & E1 & E2 & _). rewrite <- D3 in *.
      assert (x = -1 \/ c_next d0 = -1) as [->|?] by (eapply H3; eauto; congruence); done.
  - right. eexists _, _, _. split; [exact Hx|]. split; [by apply Hat1|]. done.
  - by eapply ids_uview.
  - rewrite (Hs _ weight_used) by done. unfold cn, used at 2. simpl. lia.
  - rewrite (Hs _ weight_tot) by done. unfold lsz in *. rewrite Hx. rewrite Hc in H7. simpl.
    rewrite (tot_free cn); [simpl; lia|done|]. simpl.
    pose proof (core_size_bound _ _ _ _ _ _ _ _ _ _ HC Hat Hc).
    pose proof (BinNumForSize_range (c_size c - n)). lia.
Qed.


(** What an allocation or a deallocation leaves alone. *)
Record same_env a a' : Prop := {
  se_geom : geom (regions_ a') = geom (regions_ a);
  se_limit : memory_limit_ a' = memory_limit_ a;
  se_total : total_region_allocated_bytes_ a' = total_region_allocated_bytes_ a;
  se_curr : curr_region_allocation_bytes_ a' = curr_region_allocation_bytes_ a;
  se_started : started_backpedal_ a' = started_backpedal_ a;
  se_sub : suballocator_ a' = suballocator_ a;
  se_visitors : region_visitors_ a' = region_visitors_ a;
  se_visits : visits a' = visits a
}.

Definition mark (n id : Z) (c : Chunk) : Chunk := with_allocation_id id (with_requested_size n c).

(** Granting the loose chunk [h] to the client. *)
Lemma inv_mark rs cs bs fl nid total iub h c n :
  InvP h h rs cs bs fl nid total iub -> cs !!z h = Some c -> in_use c = false ->
  0 < n <= c_size c ->
  let cs' := zinsert cs h (mark n nid c) in
  InvP (-1) (-1) rs cs' bs fl (nid + 1) total (iub + c_size c) /\
  uview cs h = None /\ uview cs' h = Some (c_ptr c, c_size c, n, nid) /\
  (forall x, x <> h -> uview cs' x = uview cs x).
Proof.
  intros [[FL HC] H2 H3 H4 H5 H6 H7] Hc Hu Hn cs'.
  assert (Hh : h <> -1) by by eapply loose_handle.
  destruct H4 as [?|(b & m & c0 & Hc0 & Hat & _ & Hb)]; [done|].
  assert (c0 = c) as -> by congruence. clear Hc0.
  pose proof (ids_next _ _ H5) as Hnid.
  assert (Hz : forall x, cs' !!z x = if decide (h = x) then Some (mark n nid c) else cs !!z x)
    by (intros; by apply (zlookup_zinsert _ _ _ _ _ Hc)).
  assert (Hum : in_use (mark n nid c) = true).
  { unfold in_use, mark. simpl. destruct (Z.eqb_spec nid (-1)); [lia|done]. }
  assert (Hv : uview cs h = None) by (unfold uview; by rewrite Hc, Hu).
  assert (Hv' : uview cs' h = Some (c_ptr c, c_size c, n, nid)).
  { unfold uview. by rewrite Hz, decide_True, Hum. }
  assert (Hvo : forall x, x <> h -> uview cs' x = uview cs x).
  { intros x Hx. unfold uview. by rewrite Hz, decide_False. }
  split_and!; try done. split.
  - exists FL. apply (core_update _ _ bs _ _ _ _ c _ b m (c_ptr c)); try done.
    + split; [by intros _; apply Hb|intros []; apply Hb|]. intros _. by exists b, m.
    + eapply bins_frame; [| |apply HC].
      * intros x d Hd Hbd. exists d. rewrite Hz, decide_False; [done|]. intros ->. simplify_eq.
      * intros x d. rewrite Hz. case_decide; [|eauto]. intros [= <-]. simpl. done.
  - intros b' m' q x d Hq Hd Hud _. rewrite Hz in Hd. case_decide; [simplify_eq; congruence|].
    eapply H2; eauto.
  - intros b' m' q x d e Hq Hd Hud Hnx He Hue. rewrite Hz in Hd, He.
    destruct (decide (h = x)); [simplify_eq; congruence|].
    destruct (decide (h = c_next d)); [simplify_eq; congruence|].
    destruct (H3 _ _ _ _ _ _ Hq Hd Hud Hnx He Hue); congruence.
  - by left.
  - destruct H5 as [I1 I2 I3]. split; [| |lia].
    + intros x p s r i. destruct (decide (x = h)) as [->|Hx].
      * rewrite Hv'. intros [= <- <- <- <-]. lia.
      * rewrite Hvo by done. intros E. destruct (I1 _ _ _ _ _ E). lia.
    + intros x y p s r i p' s' r'.
      destruct (decide (x = h)) as [->|Hx], (decide (y = h)) as [->|Hy]; rewrite ?Hv', ?Hvo by done; try done.
      * intros [= <- <- <- <-] E. destruct (I1 _ _ _ _ _ E). lia.
      * intros E [= <- <- <- <-]. destruct (I1 _ _ _ _ _ E). lia.
      * apply I2.
  - unfold cs'. rewrite (wsum_zinsert _ _ _ _ _ Hc), H6. unfold used at 3 4. rewrite Hu, Hum. simpl. lia.
  - unfold cs'. rewrite (wsum_zinsert _ _ _ _ _ Hc), lsz_m1. unfold lsz in H7. rewrite Hc in H7.
    rewrite (proj2 weight_tot c) by (done || by apply in_use_false_id).
    unfold tot at 2. rewrite Hum. simpl. lia.
Qed.

Lemma TakeChunk_wp a h c R n Q :
  InvA (-1) (-1) a -> total_region_allocated_bytes_ a < 2 ^ 63 ->
  chunks_ a !!z h = Some c -> bin_num c <> -1 ->
  R <= c_size c -> (256 | R) -> 0 < n <= R ->
  (forall a' sz,
     InvA (-1) (-1) a' -> same_env a a' -> R <= sz -> (sz < 2 * R \/ sz = R) ->
     next_allocation_id_ a' = next_allocation_id_ a + 1 ->
     uview (chunks_ a) h = None ->
     uview (chunks_ a') h = Some (c_ptr c, sz, n, next_allocation_id_ a) ->
     (forall x, x <> h -> uview (chunks_ a') x = uview (chunks_ a) x) ->
     Q (c_ptr c) a') ->
  wp (TakeChunk (bin_num c) h R n) a Q.
Proof.
  intros HI Htot Hc Hb HR Hd Hn HQ. unfold TakeChunk.
  wp_step. apply (remove_wp _ _ _ _ HI Hc Hb). intros bs1 cs1 HI1 Hv1.
  set (a1 := set_bins bs1 (set_chunks cs1 a)) in *.
  set (c1 := with_bin_num (-1) c).
  assert (Hc1 : chunks_ a1 !!z h = Some c1) by (by apply zlookup_zinsert_eq, (zlookup_range _ _ _ Hc)).
  assert (Hh : h <> -1) by by eapply loose_handle.
  destruct (ip_loose _ _ _ _ _ _ _ _ _ HI1) as [?|(b & m & c0 & Hc0 & Hat & Hu & _)]; [done|].
  assert (c0 = c1) as -> by congruence. clear Hc0.
  wp_step. apply (ChunkFromHandle_wp _ _ c1); [done|].
  (* the state when the chunk is about to be marked *)
  assert (Hfin : forall a2 c2, InvA h h a2 -> same_env a a2 -> chunks_ a2 !!z h = Some c2 ->
      in_use c2 = false -> c_ptr c2 = c_ptr c -> R <= c_size c2 -> c_size c2 < 2 * R \/ c_size c2 = R ->
      next_allocation_id_ a2 = next_allocation_id_ a -> 
      (forall x, uview (chunks_ a2) x = uview (chunks_ a) x) ->
      wp (UpdateChunk h (with_requested_size n) ;;;
          let! a := st_get in
          UpdateChunk h (with_allocation_id (next_allocation_id_ a)) ;;;
          st_modify (set_next_id (next_allocation_id_ a + 1)) ;;;
          let! chunk := ChunkFromHandle h in
          st_modify (fun a =>
            let s := stats_ a in
            let bytes := s64 (bytes_in_use s + c_size chunk) in
            set_stats (mkStats (s64 (num_allocs s + 1)) bytes
                               (Z.max (max_bytes_in_use s) bytes)
                               (Z.max (max_alloc_size s) (c_size chunk))
                               (bytes_limit s)) a) ;;;
          st_ret (c_ptr chunk)) a2 Q).
  { intros a2 c2 HI2 He Hc2 Hu2 Hp Hs1 Hs2 Hnid Hv2.
    assert (Hr : 0 <= h < zlength (chunks_ a2)) by by eapply zlookup_range.
    destruct (inv_mark _ _ _ _ _ _ _ _ _ n HI2 Hc2 Hu2 ltac:(lia)) as (HI3 & V1 & V2 & V3).
    wp_step. apply (UpdateChunk_wp _ _ _ c2); [done|]. do 2 wp_step. wp_step.
    apply (UpdateChunk_wp _ _ _ (with_requested_size n c2)); [by apply zlookup_zinsert_eq|].
    cbn [chunks_ set_chunks next_allocation_id_].
    assert (Hzz : zinsert (zinsert (chunks_ a2) h (with_requested_size n c2)) h
        (with_allocation_id (next_allocation_id_ a2) (with_requested_size n c2))
      = zinsert (chunks_ a2) h (mark n (next_allocation_id_ a2) c2)).
    { unfold zinsert. destruct (h <? 0); [done|]. by rewrite list_insert_insert_eq. }
    rewrite Hzz. do 2 wp_step. wp_step. eapply ChunkFromHandle_wp; [by apply zlookup_zinsert_eq|].
    do 2 wp_step. wp_step. cbn [c_ptr c_size mark with_allocation_id with_requested_size stats_ set_next_id set_chunks].
    rewrite Hp.
    assert (Hbd : 0 <= bytes_in_use (stats_ a2) + c_size c2 <= total_region_allocated_bytes_ a2).
    { destruct HI3 as [[FL3 HC3] _ _ _ _ E6 E7]. rewrite lsz_m1 in E7.
      pose proof (used_pos _ _ _ _ _ HC3). lia. }
    rewrite (se_total _ _ He) in Hbd.
    rewrite (s64_id (_ + c_size _)) by lia.
    apply (HQ _ (c_size c2)); try done.
    - by destruct He.
    - cbn [next_allocation_id_ set_stats set_next_id set_chunks]. by rewrite Hnid.
    - cbn [chunks_ set_stats set_next_id set_chunks]. by rewrite <- Hv2.
    - cbn [chunks_ set_stats set_next_id set_chunks]. by rewrite <- Hp, <- Hnid.
    - intros x Hx. cbn [chunks_ set_stats set_next_id set_chunks]. by rewrite V3, Hv2. }
  assert (Hsz : 0 < c_size c < 2 ^ 39).
  { destruct HI1 as [[FL1 HC1] _ _ _ _ _ _]. by pose proof (core_size_bound _ _ _ _ _ _ _ _ _ _ HC1 Hat Hc1). }
  rewrite u64_id by lia. cbn [c_size with_bin_num c1].
  wp_step. destruct (Z.leb_spec (R * 2) (c_size c)).
  - apply (split_wp _ _ _ _ _ _ _ HI1 Hc1 Hat Hu eq_refl); [cbn; lia|done|].
    intros rs2 cs3 bs' fl' hn a' HI' Hg Hx Hat' Hv.
    apply (Hfin a' (with_next hn (with_size R c1))); try done; [by right|].
    intros x. by rewrite <- Hv1, <- Hv.
  - wp_step. apply (Hfin a1 c1); try done; [|cbn; lia].
    destruct HI1 as [E1 E2 E3 E4 E5 E6 E7]. split; try done.
    intros b' m' q x d e Hq Hx Hud Hnx He Hue. destruct (E3 _ _ _ _ _ _ Hq Hx Hud Hnx He Hue) as [->|?]; [|done].
    by apply loose_handle in Hx.
Qed.


(** ** The best-fit search *)

(** [Grant a R n h c a']: [a'] is [a] after the free chunk [h] was granted
    for a request of [n] bytes rounded to [R]. *)
Definition Grant a (R n h : Z) (a' : Allocator SA) : Prop :=
  InvA (-1) (-1) a' /\ same_env a a' /\
  next_allocation_id_ a' = next_allocation_id_ a + 1 /\
  uview (chunks_ a) h = None /\
  (exists c sz, chunks_ a !!z h = Some c /\ R <= sz /\ (sz < 2 * R \/ sz = R) /\
     uview (chunks_ a') h = Some (c_ptr c, sz, n, next_allocation_id_ a)) /\
  (forall x, x <> h -> uview (chunks_ a') x = uview (chunks_ a) x).

(** [h] is the best fit for [R] among the free chunks of [P]: the smallest one
    that is large enough, and of these the one at the lowest address. *)
Definition best_fit (cs : list Chunk) (P : Chunk -> Prop) (R h : Z) (c : Chunk) : Prop :=
  cs !!z h = Some c /\ P c /\ R <= c_size c /\
  forall x d, cs !!z x = Some d -> P d -> R <= c_size d -> x = h \/ key_lt c d.

Definition no_fit (cs : list Chunk) (P : Chunk -> Prop) (R : Z) : Prop :=
  forall x d, cs !!z x = Some d -> P d -> c_size d < R.

Definition find_post a (P : Chunk -> Prop) (R n : Z) (r : option Z) (a' : Allocator SA) : Prop :=
  match r with
  | None => a' = a /\ no_fit (chunks_ a) P R
  | Some p => exists h c, best_fit (chunks_ a) P R h c /\ p = c_ptr c /\ Grant a R n h a'
  end.

Lemma FindInBin_wp a bn R n pre l B :
  InvA (-1) (-1) a -> total_region_allocated_bytes_ a < 2 ^ 63 -> (256 | R) -> 0 < n <= R ->
  bins a !!z bn = Some B -> free_chunks B = pre ++ l ->
  (forall x d, x ∈ pre -> chunks_ a !!z x = Some d -> c_size d < R) ->
  wp (FindInBin bn R n l) a (find_post a (fun d => bin_num d = bn) R n).
Proof.
  intros HI Ht Hd Hn HB. revert pre. pose proof HI as [[FL HC] _ _ _ _ _ _].
  destruct (core_bins _ _ _ _ _ HC) as [_ Hbins]. destruct (Hbins _ _ HB) as [Hs Hel].
  assert (Hbn : bn <> -1) by (apply zlookup_range in HB; lia).
  induction l as [|h l IH]; intros pre Hl Hpre; cbn [FindInBin].
  - wp_step. split; [done|]. intros x d Hx Hb. eapply Hpre; [|done].
    rewrite app_nil_r in Hl. rewrite <- Hl. apply Hel. eauto.
  - assert (h ∈ free_chunks B) as Hh by (rewrite Hl; set_solver).
    apply Hel in Hh as (c & Hc & Hb).
    wp_step. apply (ChunkFromHandle_wp _ _ c); [done|]. destruct (Z.leb_spec R (c_size c)) as [Hge|Hlt].
    + wp_step. rewrite <- Hb. apply TakeChunk_wp; try done; [by rewrite Hb|].
      intros a' sz H1 H2 H3 H4 H5 H6 H7 H8. wp_step.
      exists h, c. split; [split; [done|split; [done|split; [done|]]]|split; [done|]].
      * intros x d Hx Hbx Hsz. destruct (decide (x = h)) as [|Hne]; [by left|right].
        assert (x ∈ free_chunks B) as Hin by (apply Hel; exists d; split; [done|congruence]).
        rewrite Hl in Hin. apply elem_of_app in Hin as [Hin|Hin]; [pose proof (Hpre _ _ Hin Hx); lia|].
        apply elem_of_cons in Hin as [?|Hin]; [done|].
        rewrite Hl in Hs. clear -Hs Hin Hc Hx. induction pre as [|y pre IH]; simpl in Hs.
        -- inversion_clear Hs as [|?? _ Hall]. rewrite Forall_forall in Hall.
           apply (comparator_spec _ _ _ _ _ Hc Hx). by apply Hall.
        -- inversion_clear Hs. by apply IH.
      * unfold Grant. split_and!; try done. eauto 10.
    + apply (IH (pre ++ [h])); [by rewrite <- app_assoc|].
      intros x d [Hx|Hx]%elem_of_app Hxd; [by eapply Hpre|]. apply list_elem_of_singleton in Hx. subst x.
      congruence.
Qed.

Lemma FindFromBin_wp k : forall a bn R n,
  InvA (-1) (-1) a -> total_region_allocated_bytes_ a < 2 ^ 63 -> (256 | R) -> 0 < n <= R ->
  0 <= bn -> Z.of_nat k = 21 - bn ->
  wp (FindFromBin k bn R n) a (fun p a' =>
    (p = 0 /\ a' = a /\ no_fit (chunks_ a) (fun d => bn <= bin_num d) R) \/
    (p <> 0 /\ exists h c, best_fit (chunks_ a) (fun d => bn <= bin_num d) R h c /\ p = c_ptr c /\ Grant a R n h a')).
Proof.
  induction k as [|k IH]; intros a bn R n HI Ht Hd Hn Hbn Hk; cbn [FindFromBin].
  - wp_step. left. split_and!; [done|done|]. intros x d Hx Hb.
    destruct HI as [[FL HC] _ _ _ _ _ _]. 
    destruct (binned_facts _ _ _ _ HC Hx ltac:(lia)) as (_ & _ & _ & B & HB & _).
    apply zlookup_range in HB. rewrite (proj1 (core_bins _ _ _ _ _ HC)) in HB. lia.
  - pose proof HI as [[FL HC] _ _ _ _ _ _].
    destruct (bins_lookup _ _ bn (core_bins _ _ _ _ _ HC) ltac:(lia)) as [B HB].
    wp_step. apply (BinFromIndex_wp _ _ B); [done|].
    eapply wp_bind_mono; [by apply (FindInBin_wp _ _ _ _ [] _ B HI Ht Hd Hn HB); [|set_solver]|].
    intros [p|] a'; simpl.
    + intros (h & c & (Hc & Hb & Hs & Hbest) & -> & HG). wp_step. right. split.
      { destruct (binned_facts _ _ _ _ HC Hc ltac:(lia)) as ((b & m & Hat) & _).
        destruct (RegionFor_slot _ _ _ _ (core_reg _ _ _ _ _ HC) (proj1 Hat)) as (i & r & _ & _ & Hrb & Hrm & Hr & _).
        destruct Hr as (? & ? & _). destruct Hat as [(_ & ? & _) _]. lia. }
      exists h, c. unfold best_fit. split_and!; try done; [lia|]. intros x d Hx Hbx Hsz.
      destruct (decide (bin_num d = bn)); [by apply Hbest|right]. left.
      destruct (binned_facts _ _ _ _ HC Hx ltac:(lia)) as ((b1 & m1 & Hat1) & _ & E1 & _).
      destruct (binned_facts _ _ _ _ HC Hc ltac:(lia)) as ((b2 & m2 & Hat2) & _ & E2 & _).
      pose proof (core_size_bound _ _ _ _ _ _ _ _ _ _ HC Hat1 Hx).
      pose proof (core_size_bound _ _ _ _ _ _ _ _ _ _ HC Hat2 Hc).
      destruct (Z.lt_ge_cases (c_size c) (c_size d)); [done|].
      pose proof (BinNumForSize_mono (c_size d) (c_size c)). lia.
    + intros [-> Hno]. eapply wp_mono; [by apply (IH a (bn + 1) R n); try done; lia|].
      intros p a'' [(-> & -> & Hno')|(Hp & h & c & (Hc & Hb & Hs & Hbest) & -> & HG)].
      * left. split_and!; try done. intros x d Hx Hbx. destruct (decide (bin_num d = bn)); [by eapply Hno|].
        eapply Hno'; [done|]. lia.
      * right. split; [done|]. exists h, c. unfold best_fit. split_and!; try done; [lia|].
        intros x d Hx Hbx Hsz. destruct (decide (bin_num d = bn)) as [E|]; [|apply Hbest; (done || lia)].
        pose proof (Hno _ _ Hx E). lia.
Qed.

Definition is_free (c : Chunk) : Prop := bin_num c <> -1.

(** FindChunkPtr from the bin of [R] finds the best fit among all free chunks. *)
Lemma FindChunkPtr_wp a R n :
  InvA (-1) (-1) a -> total_region_allocated_bytes_ a < 2 ^ 63 -> (256 | R) -> 0 < n <= R -> R < 2 ^ 64 ->
  wp (FindChunkPtr (BinNumForSize R) R n) a (fun p a' =>
    (p = 0 /\ a' = a /\ no_fit (chunks_ a) is_free R) \/
    (p <> 0 /\ exists h c, best_fit (chunks_ a) is_free R h c /\ p = c_ptr c /\ Grant a R n h a')).
Proof.
  intros HI Ht Hd Hn HR. unfold FindChunkPtr.
  pose proof (BinNumForSize_range R ltac:(lia)).
  eapply wp_mono; [apply FindFromBin_wp; try done; unfold kNumBins; lia|].
  pose proof HI as [[FL HC] _ _ _ _ _ _].
  assert (Hbin : forall x d, chunks_ a !!z x = Some d -> is_free d -> R <= c_size d -> BinNumForSize R <= bin_num d).
  { intros x d Hx Hf Hsz. destruct (binned_facts _ _ _ _ HC Hx Hf) as ((b1 & m1 & Hat1) & _ & -> & _).
    pose proof (core_size_bound _ _ _ _ _ _ _ _ _ _ HC Hat1 Hx). apply BinNumForSize_mono; lia. }
  intros p a' [(-> & -> & Hno)|(Hp & h & c & (Hc & Hb & Hs & Hbest) & -> & HG)].
  - left. split_and!; try done. intros x d Hx Hf.
    destruct (Z.lt_ge_cases (c_size d) R); [done|]. eapply Hno; eauto.
  - right. split; [done|]. exists h, c. unfold best_fit. split_and!; try done; [unfold is_free; lia|].
    intros x d Hx Hf Hsz. apply Hbest; eauto.
Qed.


(** ** Steps of a deallocation *)

Lemma inv_unmark rs cs bs fl nid total iub h c :
  InvP (-1) (-1) rs cs bs fl nid total iub -> cs !!z h = Some c -> in_use c = true ->
  let cs' := zinsert cs h (with_allocation_id (-1) c) in
  InvP h h rs cs' bs fl nid total (iub - c_size c) /\
  uview cs' h = None /\ (forall x, x <> h -> uview cs' x = uview cs x).
Proof.
  intros [[FL HC] H2 H3 H4 H5 H6 H7] Hc Hu cs'.
  pose proof (core_chunk _ _ _ _ _ HC _ _ Hc) as [K1 K2 K3].
  destruct (K3 (or_introl Hu)) as (b & m & Hat). specialize (K1 Hu).
  assert (Hz : forall x, cs' !!z x = if decide (h = x) then Some (with_allocation_id (-1) c) else cs !!z x)
    by (intros; by apply (zlookup_zinsert _ _ _ _ _ Hc)).
  assert (Hvo : forall x, x <> h -> uview cs' x = uview cs x).
  { intros x Hx. unfold uview. by rewrite Hz, decide_False. }
  assert (Hv : uview cs' h = None) by (unfold uview; by rewrite Hz, decide_True).
  split_and!; try done. split.
  - exists FL. apply (core_update _ _ bs _ _ _ _ c _ b m (c_ptr c)); try done.
    + split; [done|done|]. intros [?|?]; [done|]. simpl in *. congruence.
    + eapply bins_frame; [| |apply HC].
      * intros x d Hd Hbd. exists d. rewrite Hz, decide_False; [done|]. intros ->. simplify_eq.
      * intros x d. rewrite Hz. case_decide; [|eauto]. intros [= <-]. simpl. done.
  - intros b' m' q x d Hq Hd Hud Hne. rewrite Hz, decide_False in Hd by done.
    eapply H2; eauto. intros ->. by apply loose_handle in Hd.
  - intros b' m' q x d e Hq Hd Hud Hnx He Hue. rewrite Hz in Hd, He.
    destruct (decide (h = x)); [by left|]. destruct (decide (h = c_next d)); [by right|].
    destruct (H3 _ _ _ _ _ _ Hq Hd Hud Hnx He Hue); [|done]. subst x. by apply loose_handle in Hd.
  - right. exists b, m, (with_allocation_id (-1) c). rewrite Hz, decide_True by done. done.
  - destruct H5 as [I1 I2 I3]. split; [| |done].
    + intros x p s r i. destruct (decide (x = h)) as [->|Hx]; [by rewrite Hv|]. rewrite Hvo by done. apply I1.
    + intros x z p s r i p' s' r'.
      destruct (decide (x = h)) as [->|Hx], (decide (z = h)) as [->|Hy]; rewrite ?Hv, ?Hvo by done; try done.
      apply I2.
  - unfold cs'. rewrite (wsum_zinsert _ _ _ _ _ Hc), H6. unfold used at 3 4. rewrite Hu. simpl. lia.
  - unfold cs', lsz. rewrite (wsum_zinsert _ _ _ _ _ Hc), Hz, decide_True by done. rewrite lsz_m1 in H7.
    rewrite (proj2 weight_tot (with_allocation_id (-1) c)) by done.
    unfold tot at 2. rewrite Hu. simpl. lia.
Qed.

(** Coalescing: the neighbours [h1], [h2] are free, [w] is the binned one, whose
    bin was just left, and [x] the loose one. *)
Lemma merge_inv_wp a bs1 w x cw h1 h2 c1 c2 b m FL1 Q :
  InvA x x a -> at_ (regions_ a) b m (c_ptr c1) h1 ->
  chunks_ a !!z h1 = Some c1 -> chunks_ a !!z h2 = Some c2 -> c_next c1 = h2 ->
  in_use c1 = false -> in_use c2 = false ->
  (w = h1 /\ x = h2 \/ w = h2 /\ x = h1) -> chunks_ a !!z w = Some cw -> bin_num cw <> -1 ->
  let a1 := set_bins bs1 (set_chunks (zinsert (chunks_ a) w (with_bin_num (-1) cw)) a) in
  CoreA a1 FL1 ->
  (forall a' c', InvA h1 h1 a' -> same_env a a' -> stats_ a' = stats_ a ->
     next_allocation_id_ a' = next_allocation_id_ a ->
     (forall z, uview (chunks_ a') z = uview (chunks_ a) z) ->
     (next_used (chunks_ a) h2 -> next_used (chunks_ a') h1) ->
     (prev_used (chunks_ a) h1 -> prev_used (chunks_ a') h1) ->
     chunks_ a' !!z h1 = Some c' -> c_prev c' = c_prev c1 -> in_use c' = false ->
     at_ (regions_ a') b m (c_ptr c') h1 -> Q tt a') ->
  wp (Merge h1 h2) a1 Q.
Proof.
  intros [[FL HC] H2 H3 H4 H5 H6 H7] Hat Hc1 Hc2 Hnx Hu1 Hu2 Hwx Hcw Hbw a1 HC1 HQ.
  pose proof (merge_ne _ _ _ _ _ _ _ _ _ _ _ _ HC Hat Hc1 Hc2 Hnx) as Hne.
  pose proof (merge_h1 _ _ _ Hc1) as Hm1. pose proof (merge_h2 _ _ _ Hc2) as Hm2.
  destruct H4 as [->|(bx & mx & cx & Hcx & Hatx & Hux & Hbx)]; [naive_solver|].
  assert (Hz1 : forall z, chunks_ a1 !!z z = if decide (w = z) then Some (with_bin_num (-1) cw) else chunks_ a !!z z)
    by (intros; apply (zlookup_zinsert _ _ _ _ _ Hcw)).
  set (d1 := if decide (w = h1) then with_bin_num (-1) c1 else c1).
  set (d2 := if decide (w = h2) then with_bin_num (-1) c2 else c2).
  assert (Hd1 : chunks_ a1 !!z h1 = Some d1) by (rewrite Hz1; unfold d1; case_decide; [subst w; congruence|done]).
  assert (Hd2 : chunks_ a1 !!z h2 = Some d2) by (rewrite Hz1; unfold d2; case_decide; [subst w; congruence|done]).
  assert (E1 : c_ptr d1 = c_ptr c1 /\ c_size d1 = c_size c1 /\ c_next d1 = h2 /\ c_prev d1 = c_prev c1 /\
    in_use d1 = false /\ bin_num d1 = -1).
  { unfold d1. case_decide; [done|]. destruct Hwx as [[? ?]|[? ?]]; [done|]. subst. by replace c1 with cx by congruence. }
  assert (E2 : c_size d2 = c_size c2 /\ c_next d2 = c_next c2 /\ in_use d2 = false /\ bin_num d2 = -1).
  { unfold d2. case_decide; [done|]. destruct Hwx as [[? ?]|[? ?]]; [|done]. subst. by replace c2 with cx by congruence. }
  destruct E1 as (P1 & S1 & N1 & V1 & U1 & B1), E2 as (S2 & N2 & U2 & B2).
  assert (Hold : forall z d, chunks_ a1 !!z z = Some d -> exists d0, chunks_ a !!z z = Some d0 /\
    in_use d0 = in_use d /\ c_next d0 = c_next d /\ (z <> w -> d0 = d)).
  { intros z d. rewrite Hz1. case_decide; [|by eauto]. intros [= <-]. subst z. exists cw. split_and!; try done. }
  apply (Merge_wp a1 FL1 b m h1 h2 d1 d2); try done; [by rewrite P1|].
  intros rs2 cs3 HC3 Hg Hz3 Hai Hat1 Hsum.
  assert (Hx3 : cs3 !!z h1 = Some (with_size (c_size d1 + c_size d2) (with_next (c_next d2) d1))).
  { by rewrite Hz3, decide_False, decide_True. }
  assert (Hold3 : forall z d, cs3 !!z z = Some d -> z <> h1 -> z <> h2 ->
    exists d0, chunks_ a !!z z = Some d0 /\ in_use d0 = in_use d /\ c_next d0 = c_next d /\ bin_num d0 = bin_num d).
  { intros z d Hz Z1 Z2. rewrite Hz3, !decide_False in Hz by done.
    assert (Hzw : z <> w) by naive_solver.
    rewrite Hz1 in Hz. rewrite (decide_False (P := w = z)) in Hz by done. case_decide; [|eauto].
    destruct (chunks_ a !!z z) as [d0|]; simplify_eq/=. eauto. }
  assert (Hv : forall z, uview cs3 z = uview (chunks_ a) z).
  { intros z. unfold uview. destruct (decide (z = h2)) as [->|Z2].
    { rewrite Hz3, decide_True by done. rewrite Hc2, Hu2. unfold in_use in *. simpl. by rewrite U2. }
    destruct (decide (z = h1)) as [->|Z1].
    { rewrite Hx3, Hc1, Hu1. unfold in_use in *. simpl. by rewrite U1. }
    rewrite Hz3, !decide_False by done. rewrite Hz1, (decide_False (P := w = z)) by naive_solver.
    case_decide; [|done]. by destruct (chunks_ a !!z z). }
  eapply (HQ _ (with_size (c_size d1 + c_size d2) (with_next (c_next d2) d1))); try done; [| | |].
  - split; [by eexists| | | | | |]; cbn [regions_ chunks_ set_free_chunks_list set_chunks set_regions set_bins a1 next_allocation_id_ stats_ total_region_allocated_bytes_].
    + intros b' m' q z d Hq Hz Hud Hzne. destruct (Hai _ _ _ _ Hq) as [->|[Hz2 Hq1]]; [done|].
      destruct (Hold3 _ _ Hz Hzne Hz2) as (d0 & D1 & D2 & _ & <-).
      eapply H2; [exact Hq1|exact D1|congruence|naive_solver].
    + intros b' m' q z d e Hq Hz Hud Hnz He Hue.
      destruct (decide (z = h1)) as [|Z1]; [by left|right]. destruct (Hai _ _ _ _ Hq) as [->|[Z2 Hq1]]; [done|].
      destruct (Hold3 _ _ Hz Z1 Z2) as (d0 & D1 & D2 & D3 & _).
      destruct (decide (c_next d = h1)) as [|Y1]; [done|]. exfalso.
      assert (Y2 : c_next d <> h2).
      { intros Y2. assert (chunks_ a !!z h2 = Some c2) as Hcc by done.
        assert (q = c_ptr d0) as -> by (symmetry; eapply at_chunk; [exact HC|exact Hq1|exact D1]).
        apply Z1. rewrite <- (prev_is _ _ _ _ _ _ _ _ _ _ _ _ HC Hq1 D1 (eq_trans D3 Y2) Hc2).
        by apply (prev_is _ _ _ _ _ _ _ _ _ _ _ _ HC Hat Hc1 Hnx Hc2). }
      destruct (Hold3 _ _ He Y1 Y2) as (e0 & F1 & F2 & _). rewrite <- D3 in *.
      assert (z = x \/ c_next d0 = x) by (eapply H3; eauto; congruence). naive_solver.
    + right. exists b, m. eexists. split; [exact Hx3|]. simpl. rewrite P1. split_and!; [|done|done].
      by apply Hat1.
    + by eapply ids_uview.
    + rewrite (Hsum _ weight_used). cbn [a1 chunks_ set_bins set_chunks]. rewrite (wsum_zinsert _ _ _ _ _ Hcw), H6.
      change (used (with_bin_num (-1) cw)) with (used cw). lia.
    + rewrite (Hsum _ weight_tot). cbn [a1 chunks_ set_bins set_chunks]. rewrite (wsum_zinsert _ _ _ _ _ Hcw).
      assert (Hucw : in_use cw = false) by (destruct Hwx as [[? ?]|[? ?]]; subst; congruence).
      rewrite (tot_free cw), (proj2 weight_tot (with_bin_num (-1) cw)) by (done || by apply in_use_false_id).
      unfold lsz in *. rewrite Hx3. rewrite Hcx in H7. cbn [c_size with_size with_next]. rewrite S1, S2.
      destruct Hwx as [[? ?]|[? ?]]; subst w x.
      * assert (cw = c1) by congruence. assert (cx = c2) by congruence. subst. lia.
      * assert (cw = c2) by congruence. assert (cx = c1) by congruence. subst. lia.
  - intros Hnu c d Hc Hnc Hd. assert (c = with_size (c_size d1 + c_size d2) (with_next (c_next d2) d1)) as -> by (change (cs3 !!z h1 = Some c) in Hc; congruence).
    cbn [c_next with_size with_next] in Hnc, Hd. rewrite N2 in Hnc, Hd.
    change (cs3 !!z c_next c2 = Some d) in Hd.
    destruct (decide (c_next c2 = h1)) as [Y1|Y1].
    { exfalso. pose proof (merge_at2 _ _ _ _ _ _ _ _ _ _ _ _ HC Hat Hc1 Hc2 Hnx) as Hat2.
      pose proof (merge_block2 _ _ _ _ _ _ _ _ _ _ _ _ HC Hat Hc1 Hc2 Hnx) as HB2.
      pose proof (merge_block1 _ _ _ _ _ _ _ _ _ _ HC Hat Hc1) as HB1.
      pose proof (next_at _ _ _ _ _ _ _ (proj1 Hat2) HB2 Hnc) as Hna. rewrite Y1 in Hna.
      destruct (at_inj _ _ _ _ _ _ _ _ _ _ _ _ HC Hm1 Hat Hna) as (_ & _ & ?).
      pose proof (bo_size _ _ _ _ _ _ _ HB1). pose proof (bo_size _ _ _ _ _ _ _ HB2). lia. }
    destruct (decide (c_next c2 = h2)) as [Y2|Y2].
    { exfalso. pose proof (merge_at2 _ _ _ _ _ _ _ _ _ _ _ _ HC Hat Hc1 Hc2 Hnx) as Hat2.
      pose proof (merge_block2 _ _ _ _ _ _ _ _ _ _ _ _ HC Hat Hc1 Hc2 Hnx) as HB2.
      pose proof (next_at _ _ _ _ _ _ _ (proj1 Hat2) HB2 Hnc) as Hna. rewrite Y2 in Hna.
      destruct (at_inj _ _ _ _ _ _ _ _ _ _ _ _ HC Hm2 Hat2 Hna) as (_ & _ & ?).
      pose proof (bo_size _ _ _ _ _ _ _ HB2). lia. }
    destruct (Hold3 _ _ Hd Y1 Y2) as (d0 & D1 & <- & _). by eapply Hnu.
  - intros Hpu c d Hc Hpc Hd. assert (c = with_size (c_size d1 + c_size d2) (with_next (c_next d2) d1)) as -> by (change (cs3 !!z h1 = Some c) in Hc; congruence).
    cbn [c_prev with_size with_next] in Hpc, Hd. rewrite V1 in Hpc, Hd. change (cs3 !!z c_prev c1 = Some d) in Hd.
    pose proof (merge_block1 _ _ _ _ _ _ _ _ _ _ HC Hat Hc1) as HB1.
    destruct (bo_prev _ _ _ _ _ _ _ HB1) as [[_ ?]|(_ & _ & cp & Hcp & Hatp & Heq)]; [done|].
    assert (Y1 : c_prev c1 <> h1).
    { intros E. rewrite E in Hcp. assert (cp = c1) by congruence. subst cp. pose proof (bo_size _ _ _ _ _ _ _ HB1). lia. }
    assert (Y2 : c_prev c1 <> h2).
    { intros E. pose proof (merge_at2 _ _ _ _ _ _ _ _ _ _ _ _ HC Hat Hc1 Hc2 Hnx) as Hat2.
      pose proof (merge_block2 _ _ _ _ _ _ _ _ _ _ _ _ HC Hat Hc1 Hc2 Hnx) as HB2.
      rewrite E in Hcp, Hatp. assert (cp = c2) by congruence. subst cp.
      destruct (at_inj _ _ _ _ _ _ _ _ _ _ _ _ HC Hm2 Hat2 Hatp) as (_ & _ & ?).
      pose proof (bo_size _ _ _ _ _ _ _ HB1). pose proof (bo_size _ _ _ _ _ _ _ HB2). lia. }
    destruct (Hold3 _ _ Hd Y1 Y2) as (d0 & D1 & <- & _). by eapply Hpu.
  - simpl. rewrite P1. by apply Hat1.
Qed.


(** Putting the loose chunk back in its bin restores the full invariant. *)
Lemma insert_inv_wp a x c Q :
  InvA x x a -> chunks_ a !!z x = Some c ->
  next_used (chunks_ a) x -> prev_used (chunks_ a) x ->
  (forall a', InvA (-1) (-1) a' -> same_env a a' -> stats_ a' = stats_ a ->
     next_allocation_id_ a' = next_allocation_id_ a ->
     (forall z, uview (chunks_ a') z = uview (chunks_ a) z) -> Q tt a') ->
  wp (InsertFreeChunkIntoBin x) a Q.
Proof.
  intros [[FL HC] H2 H3 H4 H5 H6 H7] Hc Hnu Hpu HQ.
  pose proof (loose_handle _ _ _ Hc) as Hx1.
  destruct H4 as [?|(b & m & c0 & Hc0 & Hat & Hu & Hb)]; [done|].
  assert (c0 = c) as -> by congruence. clear Hc0.
  apply (InsertFreeChunkIntoBin_wp a FL x c b m _ HC Hc Hu Hb Hat).
  intros bs' cs' HC'.
  assert (Hz : forall z, cs' !!z z = if decide (x = z) then Some (with_bin_num (BinNumForSize (c_size c)) c) else chunks_ a !!z z)
    by (intros; by apply (zlookup_zinsert _ _ _ _ _ Hc)).
  assert (Hold : forall z d, cs' !!z z = Some d -> exists d0, chunks_ a !!z z = Some d0 /\
    in_use d0 = in_use d /\ c_next d0 = c_next d).
  { intros z d. rewrite Hz. case_decide; [|by eauto]. intros [= <-]. subst z. eauto. }
  pose proof (core_size_bound _ _ _ _ _ _ _ _ _ _ HC Hat Hc) as Hsz.
  pose proof (BinNumForSize_range (c_size c) ltac:(lia)) as Hbr.
  apply HQ; try done; [|by apply uview_rebin].
  split; [by eexists| | | | | |]; cbn [regions_ chunks_ set_chunks set_bins next_allocation_id_ stats_ total_region_allocated_bytes_].
  - intros b' m' q z d Hq Hd Hud _. rewrite Hz in Hd. case_decide; [simplify_eq; simpl; lia|]. eapply H2; eauto.
  - intros b' m' q z d e Hq Hd Hud Hnx He Hue.
    destruct (Hold _ _ Hd) as (d0 & D1 & D2 & D3), (Hold _ _ He) as (e0 & E1 & E2 & _). rewrite <- D3 in *.
    exfalso. destruct (H3 _ _ _ _ _ _ Hq D1 ltac:(congruence) Hnx E1 ltac:(congruence)) as [->|Enx].
    + pose proof (Hnu _ _ D1 Hnx E1). congruence.
    + rewrite Enx in *. assert (Hp : c_ptr d0 = q) by (eapply at_chunk; [exact HC|exact Hq|exact D1]).
      pose proof (prev_is _ _ _ _ _ _ _ _ _ _ _ _ HC Hq D1 Enx Hc) as Epv.
      assert (Hzm : z <> -1) by by eapply loose_handle.
      pose proof (Hpu c d0 Hc) as Hd0. rewrite Epv in Hd0. specialize (Hd0 Hzm D1). congruence.
  - by left.
  - eapply ids_uview; [|exact H5]. by apply uview_rebin.
  - unfold cs'. rewrite (wsum_zinsert _ _ _ _ _ Hc), H6.
    change (used (with_bin_num (BinNumForSize (c_size c)) c)) with (used c). lia.
  - unfold cs'. rewrite (wsum_zinsert _ _ _ _ _ Hc), lsz_m1. unfold lsz in H7. rewrite Hc in H7.
    rewrite (tot_free (with_bin_num (BinNumForSize (c_size c)) c)); [|done|simpl; lia].
    rewrite (proj2 weight_tot c) by (done || by apply in_use_false_id). simpl. lia.
Qed.

(** The chunk [h] was just marked unused: coalesce it with its free neighbours. *)
Lemma next_neighbour rs cs bs fl nid total iub h c :
  InvP h h rs cs bs fl nid total iub -> cs !!z h = Some c -> c_next c <> -1 ->
  exists b m d, at_ rs b m (c_ptr c) h /\ cs !!z c_next c = Some d /\ c_next c <> h /\
    (in_use d = false -> bin_num d <> -1 /\ next_used cs (c_next c)).
Proof.
  intros [[FL HC] H2 H3 H4 H5 H6 H7] Hc Hnx. pose proof (loose_handle _ _ _ Hc) as Hm.
  destruct H4 as [?|(b & m & c0 & Hc0 & Hat & Hu & Hb)]; [done|].
  assert (c0 = c) as -> by congruence. clear Hc0.
  destruct (at_live _ _ _ _ _ _ _ _ _ HC Hat Hm) as (c' & Hc' & HB). assert (c' = c) as -> by congruence.
  pose proof (next_at _ _ _ _ _ _ _ (proj1 Hat) HB Hnx) as Hna.
  destruct (at_live _ _ _ _ _ _ _ _ _ HC Hna Hnx) as (d & Hd & HBd).
  assert (Hne : c_next c <> h).
  { intros E. rewrite E in Hna. destruct (at_inj _ _ _ _ _ _ _ _ _ _ _ _ HC Hm Hat Hna) as (_ & _ & ?).
    pose proof (bo_size _ _ _ _ _ _ _ HB). lia. }
  exists b, m, d. split_and!; try done. intros Hud. split; [by eapply H2|].
  intros d' e Hd' Hnd He. assert (d' = d) as -> by congruence. destruct (in_use e) eqn:Hue; [done|exfalso].
  destruct (H3 _ _ _ _ _ _ Hna Hd Hud Hnd He Hue) as [?|E]; [done|].
  pose proof (next_at _ _ _ _ _ _ _ (proj1 Hna) HBd Hnd) as Hnn. rewrite E in Hnn.
  destruct (at_inj _ _ _ _ _ _ _ _ _ _ _ _ HC Hm Hat Hnn) as (_ & _ & ?).
  pose proof (bo_size _ _ _ _ _ _ _ HB). pose proof (bo_size _ _ _ _ _ _ _ HBd). lia.
Qed.

Lemma prev_neighbour rs cs bs fl nid total iub h c :
  InvP h h rs cs bs fl nid total iub -> cs !!z h = Some c -> c_prev c <> -1 ->
  exists b m d, at_ rs b m (c_ptr d) (c_prev c) /\ cs !!z c_prev c = Some d /\ c_next d = h /\ c_prev c <> h /\
    (in_use d = false -> bin_num d <> -1 /\ prev_used cs (c_prev c)).
Proof.
  intros [[FL HC] H2 H3 H4 H5 H6 H7] Hc Hpv. pose proof (loose_handle _ _ _ Hc) as Hm.
  destruct H4 as [?|(b & m & c0 & Hc0 & Hat & Hu & Hb)]; [done|].
  assert (c0 = c) as -> by congruence. clear Hc0.
  destruct (at_live _ _ _ _ _ _ _ _ _ HC Hat Hm) as (c' & Hc' & HB). assert (c' = c) as -> by congruence.
  destruct (bo_prev _ _ _ _ _ _ _ HB) as [[_ ?]|(_ & _ & d & Hd & Hatd & Heq)]; [done|].
  destruct (at_live _ _ _ _ _ _ _ _ _ HC Hatd Hpv) as (d' & Hd' & HBd). assert (d' = d) as -> by congruence.
  pose proof (bo_size _ _ _ _ _ _ _ HBd) as Hsd. pose proof (bo_size _ _ _ _ _ _ _ HB) as Hsc.
  assert (Hnd : c_next d = h).
  { apply (prev_unique _ _ _ _ _ _ _ _ _ _ _ _ c HC Hatd Hpv Hd Hat Hm Hc). by symmetry. }
  assert (Hne : c_prev c <> h).
  { intros E. rewrite E in Hatd. destruct (at_inj _ _ _ _ _ _ _ _ _ _ _ _ HC Hm Hat Hatd) as (_ & _ & ?). lia. }
  exists b, m, d. split_and!; try done. intros Hud. split; [by eapply H2|].
  intros e0 e He0 Hpe He. assert (e0 = d) as -> by congruence.
  destruct (in_use e) eqn:Hue; [done|exfalso].
  destruct (bo_prev _ _ _ _ _ _ _ HBd) as [[_ ?]|(_ & _ & f & Hf & Hatf & Heqf)]; [done|].
  assert (f = e) as -> by congruence.
  destruct (at_live _ _ _ _ _ _ _ _ _ HC Hatf Hpe) as (f' & Hf' & HBf). assert (f' = e) as -> by congruence.
  pose proof (bo_size _ _ _ _ _ _ _ HBf) as Hsf.
  assert (Hne2 : c_next e = c_prev c).
  { apply (prev_unique _ _ _ _ _ _ _ _ _ _ _ _ d HC Hatf Hpe He Hatd Hpv Hd). by symmetry. }
  destruct (H3 _ _ _ _ _ _ Hatf He Hue ltac:(congruence) ltac:(by rewrite Hne2) Hud) as [E|E]; [|congruence].
  rewrite E in Hatf. destruct (at_inj _ _ _ _ _ _ _ _ _ _ _ _ HC Hm Hat Hatf) as (_ & _ & ?). lia.
Qed.

(** [a'] differs from [a] in nothing the client or the sub-allocator sees. *)
Record silent a a' : Prop := {
  si_env : same_env a a';
  si_stats : stats_ a' = stats_ a;
  si_nid : next_allocation_id_ a' = next_allocation_id_ a;
  si_view : forall z, uview (chunks_ a') z = uview (chunks_ a) z
}.

Lemma silent_refl a : silent a a.
Proof. by repeat split. Qed.
Lemma silent_trans a1 a2 a3 : silent a1 a2 -> silent a2 a3 -> silent a1 a3.
Proof.
  intros [[] ? ? V1] [[] ? ? V2]. split; [split|..]; congruence.
Qed.

Lemma next_step_wp a h c :
  InvA h h a -> chunks_ a !!z h = Some c ->
  wp (if negb (c_next c =? kInvalidChunkHandle) then
        let! cnext := ChunkFromHandle (c_next c) in
        if negb (in_use cnext) then
          RemoveFreeChunkFromBin (c_next c) ;;;
          let! c' := ChunkFromHandle h in
          Merge h (c_next c')
        else st_ret tt
      else st_ret tt) a
    (fun _ a' => InvA h h a' /\ silent a a' /\ next_used (chunks_ a') h /\ exists c', chunks_ a' !!z h = Some c').
Proof.
  intros HI Hc. destruct (Z.eqb_spec (c_next c) kInvalidChunkHandle) as [E|E]; cbn [negb].
  { wp_step. split_and!; [done|apply silent_refl| |eauto]. intros c' d Hc' Hn. by simplify_eq. }
  destruct (next_neighbour _ _ _ _ _ _ _ _ _ HI Hc E) as (b & m & d & Hat & Hd & Hne & Hfree).
  wp_step. apply (ChunkFromHandle_wp _ _ d); [done|].
  destruct (in_use d) eqn:Hud; cbn [negb].
  { wp_step. split_and!; [done|apply silent_refl| |eauto]. intros c' d' Hc' Hn Hd'. by simplify_eq. }
  destruct (Hfree eq_refl) as [Hbd Hnu]. pose proof HI as [[FL HC] _ _ HL _ _ _].
  assert (Hcf : in_use c = false).
  { destruct HL as [->|(? & ? & c0 & Hc0 & _ & ? & _)]; [by apply loose_handle in Hc|congruence]. }
  wp_step. apply (RemoveFreeChunkFromBin_wp _ _ _ _ _ HC Hd Hbd). intros bs1 cs1 HC1.
  wp_step. apply (ChunkFromHandle_wp _ _ c).
  { cbn [chunks_ set_bins set_chunks]. unfold cs1. by rewrite zlookup_zinsert_ne. }
  eapply (merge_inv_wp a bs1 (c_next c) h d h (c_next c) c d b m FL); try done; [by right|].
  intros a' c' HI' He Hs Hnid Hv Hnu' _ Hc' _ _ _. split_and!; [done|by split| |eauto]. by apply Hnu'.
Qed.

Lemma prev_step_wp a h c :
  InvA h h a -> chunks_ a !!z h = Some c -> next_used (chunks_ a) h ->
  wp (if negb (c_prev c =? kInvalidChunkHandle) then
        let! cprev := ChunkFromHandle (c_prev c) in
        if negb (in_use cprev) then
          RemoveFreeChunkFromBin (c_prev c) ;;;
          let! c' := ChunkFromHandle h in
          Merge (c_prev c') h ;;;
          st_ret (c_prev c)
        else st_ret h
      else st_ret h) a
    (fun r a' => InvA r r a' /\ silent a a' /\ next_used (chunks_ a') r /\ prev_used (chunks_ a') r /\
       exists c', chunks_ a' !!z r = Some c').
Proof.
  intros HI Hc Hnu. destruct (Z.eqb_spec (c_prev c) kInvalidChunkHandle) as [E|E]; cbn [negb].
  { wp_step. split_and!; [done|apply silent_refl|done| |eauto]. intros c' d Hc' Hn. by simplify_eq. }
  destruct (prev_neighbour _ _ _ _ _ _ _ _ _ HI Hc E) as (b & m & d & Hat & Hd & Hnx & Hne & Hfree).
  wp_step. apply (ChunkFromHandle_wp _ _ d); [done|].
  destruct (in_use d) eqn:Hud; cbn [negb].
  { wp_step. split_and!; [done|apply silent_refl|done| |eauto]. intros c' d' Hc' Hn Hd'. by simplify_eq. }
  destruct (Hfree eq_refl) as [Hbd Hpu]. pose proof HI as [[FL HC] _ _ HL _ _ _].
  assert (Hcf : in_use c = false).
  { destruct HL as [->|(? & ? & c0 & Hc0 & _ & ? & _)]; [by apply loose_handle in Hc|congruence]. }
  wp_step. apply (RemoveFreeChunkFromBin_wp _ _ _ _ _ HC Hd Hbd). intros bs1 cs1 HC1.
  wp_step. apply (ChunkFromHandle_wp _ _ c).
  { cbn [chunks_ set_bins set_chunks]. unfold cs1. by rewrite zlookup_zinsert_ne. }
  wp_step. eapply (merge_inv_wp a bs1 (c_prev c) h d (c_prev c) h d c b m FL); try done; [by left|].
  intros a' c' HI' He Hs Hnid Hv Hnu' Hpu' Hc' _ _ _. wp_step.
  split_and!; [done|by split|by apply Hnu'|by apply Hpu'|eauto].
Qed.

(** What freeing [h] does. *)
Definition Freed a h (a' : Allocator SA) : Prop :=
  InvA (-1) (-1) a' /\ same_env a a' /\ next_allocation_id_ a' = next_allocation_id_ a /\
  uview (chunks_ a') h = None /\ (forall x, x <> h -> uview (chunks_ a') x = uview (chunks_ a) x).

Lemma FreeAndMaybeCoalesce_wp a h c :
  InvA (-1) (-1) a -> total_region_allocated_bytes_ a < 2 ^ 63 ->
  chunks_ a !!z h = Some c -> in_use c = true ->
  wp (FreeAndMaybeCoalesce h) a (fun _ a' => Freed a h a').
Proof.
  intros HI Ht Hc Hu. unfold FreeAndMaybeCoalesce. pose proof HI as [[FL HC] _ _ _ _ _ _].
  destruct (inv_unmark _ _ _ _ _ _ _ _ _ HI Hc Hu) as (HI1 & V1 & V2).
  wp_step. apply (ChunkFromHandle_wp _ _ c); [done|].
  wp_step. wp_step. { rewrite Hu, (co_used _ _ _ (core_chunk _ _ _ _ _ HC _ _ Hc) Hu). done. }
  wp_step. apply (UpdateChunk_wp _ _ _ c); [done|]. do 2 wp_step.
  set (a1 := set_stats _ _).
  assert (Hbd : 0 <= bytes_in_use (stats_ a) - c_size c <= total_region_allocated_bytes_ a).
  { destruct HI1 as [[FL1 HC1] _ _ HL1 _ E6 E7]. pose proof (used_pos _ _ _ _ _ HC1).
    assert (0 <= lsz (zinsert (chunks_ a) h (with_allocation_id (-1) c)) h).
    { unfold lsz. destruct HL1 as [E|(b & m & c1 & Hc1 & Hat1 & _)]; [by subst; apply loose_handle in Hc|].
      rewrite Hc1. pose proof (core_size_bound _ _ _ _ _ _ _ _ _ _ HC1 Hat1 Hc1). lia. }
    lia. }
  assert (HI1' : InvA h h a1).
  { subst a1. cbn [regions_ chunks_ set_chunks set_stats bins free_chunks_list_ next_allocation_id_ total_region_allocated_bytes_ stats_ bytes_in_use].
    rewrite s64_id by lia. exact HI1. }
  assert (Hc1 : chunks_ a1 !!z h = Some (with_allocation_id (-1) c)) by (apply zlookup_zinsert_eq; by eapply zlookup_range).
  assert (He1 : same_env a a1) by done.
  wp_step. eapply wp_mono; [exact (next_step_wp a1 h _ HI1' Hc1)|]. simpl.
  intros _ a2 (HI2 & S2 & N2 & c2 & Hc2). wp_step. apply (ChunkFromHandle_wp _ _ c2); [done|].
  eapply wp_bind_mono; [by apply (prev_step_wp a2 h c2)|]. simpl.
  intros r a3 (HI3 & S3 & N3 & P3 & c3 & Hc3).
  apply (insert_inv_wp a3 r c3 _ HI3 Hc3 N3 P3). intros a4 HI4 He4 Hs4 Hn4 Hv4.
  pose proof (silent_trans _ _ _ (silent_trans _ _ _ S2 S3) (Build_silent _ _ He4 Hs4 Hn4 Hv4)) as [[] S5 S6 S7].
  split; [done|]. split; [destruct He1; split; congruence|]. split; [by rewrite S6|].
  split; [by rewrite S7|]. intros x Hx. rewrite S7. by apply V2.
Qed.

End Steps.
End BFCInv.
