(* ===== verification/BfcExtend.v ===== *)
(** * The BFC allocator: growing by a region

    [Extend]: the float backpedal, the growth of the region size, the new
    region and its single free chunk. *)
From S2P Require Import Prelude BfcAllocator BfcAllocatorFacts BfcInvariant.
Import BFCAllocator BFCFacts BFCInv.

Module BFCExtend.

(** ** The float multiplication *)

Lemma f32_round_bounds m e m' e' :
  0 < m -> f32_round m e = (m', e') ->
  exists s, 0 <= s /\ e' = e + s /\ 0 < m' /\
    2 ^ 24 * (m' * 2 ^ s) <= (2 ^ 24 + 1) * m /\ (2 ^ 24 - 1) * m <= 2 ^ 24 * (m' * 2 ^ s).
Proof.
  intros Hm. unfold f32_round. pose proof (Z.log2_spec m Hm) as [Hlo Hhi].
  set (s := Z.log2 m + 1 - 24). destruct (Z.leb_spec s 0) as [Hs|Hs].
  { intros [= <- <-]. exists 0. rewrite Z.pow_0_r. lia. }
  assert (Hp : 2 ^ s = 2 * 2 ^ (s - 1)) by (rewrite <- Z.pow_succ_r by lia; f_equal; lia).
  assert (Hbig : 2 ^ 24 * 2 ^ (s - 1) <= m).
  { rewrite <- Z.pow_add_r by lia. replace (24 + (s - 1)) with (Z.log2 m) by (unfold s; lia). done. }
  pose proof (Z.div_mod m (2 ^ s) ltac:(lia)) as Hdm.
  pose proof (Z.mod_pos_bound m (2 ^ s) ltac:(lia)) as Hr.
  assert (Hh : 0 < 2 ^ (s - 1)) by (apply Z.pow_pos_nonneg; lia).
  set (q := m / 2 ^ s) in *. set (r := m mod 2 ^ s) in *. set (H := 2 ^ (s - 1)) in *.
  intros E. assert (E1 : e' = e + s) by congruence.
  assert (E2 : m' = (if r <? H then q else if H <? r then q + 1 else if Z.even q then q else q + 1)) by congruence.
  assert (Hq : 0 < q) by nia.
  assert (Hcase : (m' = q /\ r <= H) \/ (m' = q + 1 /\ H <= r)).
  { rewrite E2. destruct (Z.ltb_spec r H); [lia|]. destruct (Z.ltb_spec H r); [lia|].
    destruct (Z.even q); lia. }
  exists s. rewrite Hp in *. change (2 ^ 24) with 16777216 in *. clearbody q r H.
  split_and!; [lia|done|lia| |]; destruct Hcase as [[-> ?]|[-> ?]]; nia.
Qed.

Lemma MulBackpedal_bounds b :
  0 < b ->
  2 ^ 72 * MulBackpedal b <= (2 ^ 24 + 1) * (2 ^ 24 + 1) * 15099494 * b /\
  (2 ^ 24 - 1) * (2 ^ 24 - 1) * 15099494 * b < 2 ^ 72 * (MulBackpedal b + 1).
Proof.
  intros Hb. unfold MulBackpedal.
  destruct (f32_round b 0) as [m1 e1] eqn:E1.
  destruct (f32_round_bounds _ _ _ _ Hb E1) as (s1 & Hs1 & -> & Hm1 & U1 & L1). rewrite Z.add_0_l.
  destruct (f32_round (m1 * 15099494) (s1 - 24)) as [m2 e2] eqn:E2.
  assert (Hm15 : 0 < m1 * 15099494) by lia.
  destruct (f32_round_bounds _ _ _ _ Hm15 E2) as (s2 & Hs2 & -> & Hm2 & U2 & L2).
  assert (Hs1p : 0 < 2 ^ s1) by (apply Z.pow_pos_nonneg; lia).
  assert (Hs2p : 0 < 2 ^ s2) by (apply Z.pow_pos_nonneg; lia).
  assert (Hsp : 2 ^ (s2 + s1) = 2 ^ s2 * 2 ^ s1) by (apply Z.pow_add_r; lia).
  set (res := if 0 <=? s1 - 24 + s2 then m2 * 2 ^ (s1 - 24 + s2) else m2 / 2 ^ (- (s1 - 24 + s2))).
  assert (Hres : 2 ^ 24 * res <= m2 * (2 ^ s2 * 2 ^ s1) < 2 ^ 24 * (res + 1)).
  { unfold res. rewrite <- Hsp. destruct (Z.leb_spec 0 (s1 - 24 + s2)) as [H|H].
    - replace (s2 + s1) with (24 + (s1 - 24 + s2)) by lia. rewrite (Z.pow_add_r 2 24) by lia.
      set (K := 2 ^ (s1 - 24 + s2)). change (2 ^ 24) with 16777216. lia.
    - assert (Hk : 2 ^ 24 = 2 ^ (- (s1 - 24 + s2)) * 2 ^ (s2 + s1)) by (rewrite <- Z.pow_add_r by lia; by replace (- (s1 - 24 + s2) + (s2 + s1)) with 24 by lia).
      assert (0 < 2 ^ (- (s1 - 24 + s2))) by (apply Z.pow_pos_nonneg; lia).
      pose proof (Z.div_mod m2 (2 ^ (- (s1 - 24 + s2))) ltac:(lia)).
      pose proof (Z.mod_pos_bound m2 (2 ^ (- (s1 - 24 + s2))) ltac:(lia)).
      rewrite Hk. assert (0 < 2 ^ (s2 + s1)) by (apply Z.pow_pos_nonneg; lia).
      set (K := 2 ^ (s2 + s1)) in *. set (L := 2 ^ (- (s1 - 24 + s2))) in *. clearbody K L. clear Hk. nia. }
  change (if 0 <=? s1 - 24 + s2 then m2 * 2 ^ (s1 - 24 + s2) else m2 / 2 ^ (- (s1 - 24 + s2))) with res.
  clearbody res. clear E1 E2 Hsp.
  set (A := 2 ^ s1) in *. set (B := 2 ^ s2) in *. clearbody A B.
  change (2 ^ 24) with 16777216 in *. change (2 ^ 72) with (16777216 * 16777216 * 16777216).
  assert (X1 : 16777216 * (m2 * B) * A <= (16777216 + 1) * (m1 * 15099494) * A) by nia.
  assert (X2 : (16777216 - 1) * (m1 * 15099494) * A <= 16777216 * (m2 * B) * A) by nia.
  split; nia.
Qed.

Lemma MulBackpedal_le b : 0 < b -> MulBackpedal b <= b.
Proof. intros Hb. pose proof (MulBackpedal_bounds b Hb). lia. Qed.
Lemma MulBackpedal_pos b : 2 <= b -> 0 < MulBackpedal b.
Proof. intros Hb. pose proof (MulBackpedal_bounds b ltac:(lia)). lia. Qed.
Lemma MulBackpedal_decr b : 2816 <= b -> MulBackpedal b <= b - 256.
Proof. intros Hb. pose proof (MulBackpedal_bounds b ltac:(lia)). lia. Qed.

(** One backpedal of a multiple of 256. *)
Lemma backpedal_step b :
  (256 | b) -> 256 <= b < 2 ^ 63 ->
  (256 | RoundedBytes (MulBackpedal b)) /\ 256 <= RoundedBytes (MulBackpedal b) <= b /\
  (2304 < b -> RoundedBytes (MulBackpedal b) < b).
Proof.
  intros Hd Hb. pose proof (MulBackpedal_le b ltac:(lia)). pose proof (MulBackpedal_pos b ltac:(lia)).
  destruct (RoundedBytes_spec (MulBackpedal b) ltac:(lia)) as [Hr1 Hr2].
  split; [done|]. destruct Hd as [k Hk], Hr1 as [j Hj]. split; [lia|]. intros Hbig.
  destruct (decide (b = 2560)) as [->|]; [vm_compute; done|].
  pose proof (MulBackpedal_decr b ltac:(lia)). lia.
Qed.

(** ** The growth of the region size *)

Lemma GrowRegion_spec k R : forall curr inc,
  0 < curr -> (256 | curr) -> R <= curr * 2 ^ Z.of_nat k -> R < 2 ^ 62 -> 
  exists curr' inc', GrowRegion (S k) R curr inc = Done (curr', inc') /\ R <= curr' /\ (256 | curr') /\ 0 < curr' /\
    ((curr' = curr /\ inc' = inc) \/ (curr' < 2 * R /\ inc' = true)).
Proof.
  induction k as [|k IH]; intros curr inc Hc Hd HR Hb; cbn [GrowRegion].
  - rewrite Z.mul_1_r in HR. destruct (Z.ltb_spec curr R); [lia|]. exists curr, inc. auto 10.
  - destruct (Z.ltb_spec curr R) as [Hlt|Hge]; [|exists curr, inc; auto 10].
    rewrite u64_id by lia.
    destruct (IH (curr * 2) true) as (c' & i' & E & H1 & H2 & H3 & H4); try lia.
    + by apply Z.divide_mul_l.
    + rewrite Nat2Z.inj_succ, Z.pow_succ_r in HR by lia. lia.
    + exists c', i'. split_and!; try done. right. destruct H4 as [[-> ->]|[? ?]]; [lia|done].
Qed.

(** ** Adding a region *)

Lemma region_ptr_inj rs r r' : reg_wf rs -> r ∈ rs -> r' ∈ rs -> r_ptr r = r_ptr r' -> r = r'.
Proof.
  intros [Hok Hs] Hr Hr' E. revert Hok Hr Hr'.
  induction Hs as [|r0 rs Hs IH Hall]; intros Hok Hr Hr'; [set_solver|].
  inversion_clear Hok as [|?? (? & ? & _ & ? & _) Hok']. rewrite Forall_forall in Hall.
  apply elem_of_cons in Hr as [->|Hr], Hr' as [->|Hr']; auto.
  - pose proof (Hall _ Hr'). lia.
  - pose proof (Hall _ Hr). lia.
Qed.

Lemma upper_bound_app p rs :
  Forall (fun r => r_end_ptr r <= p) (take (upper_bound p rs) rs) /\
  (forall r l, drop (upper_bound p rs) rs = r :: l -> p < r_end_ptr r).
Proof.
  induction rs as [|r rs [IH1 IH2]]; simpl; [split; [constructor|done]|].
  destruct (Z.ltb_spec p (r_end_ptr r)); simpl.
  - split; [constructor|]. by intros ? ? [= <- <-].
  - split; [by constructor|done].
Qed.

Lemma sorted_app_inv {A} (R : A -> A -> Prop) l1 l2 :
  StronglySorted R (l1 ++ l2) <->
  StronglySorted R l1 /\ StronglySorted R l2 /\ (forall x y, x ∈ l1 -> y ∈ l2 -> R x y).
Proof.
  induction l1 as [|a l1 IH]; simpl.
  - split; [intros H; split_and!; [constructor|done|set_solver]|by intros (_ & ? & _)].
  - split.
    + intros H. inversion_clear H as [|?? Hs Hall]. apply IH in Hs as (H1 & H2 & H3).
      rewrite Forall_app, !Forall_forall in Hall. destruct Hall as [Ha1 Ha2].
      split_and!; [by constructor; [|apply Forall_forall]|done|set_solver].
    + intros (H1 & H2 & H3). inversion_clear H1 as [|?? Hs Hall]. constructor.
      * apply IH. split_and!; [done|done|set_solver].
      * apply Forall_app. split; [done|]. apply Forall_forall. set_solver.
Qed.

Section AddRegion.
Context (rs : list AllocationRegion) (p n : Z).
Hypothesis Hwf : reg_wf rs.
Hypothesis Hp : 0 < p.
Hypothesis Hn : 0 < n < 2 ^ 39.
Hypothesis Hdn : (256 | n).
Hypothesis Hend : p + n < 2 ^ 64.
Hypothesis Hdisj : forall b m, (b, m) ∈ geom rs -> p + n <= b \/ b + m <= p.

Let rs' := AddAllocationRegion p n rs.
Let r0 := AllocationRegion_new p n.

Lemma new_region_ok : region_ok r0.
Proof.
  unfold r0, AllocationRegion_new, region_ok, zlength; simpl. rewrite kMin_eq.
  rewrite !u64_id by lia. rewrite length_replicate. destruct Hdn as [k Hk]. split_and!; try done; try lia.
  rewrite Z2Nat.id by (apply Z.div_pos; lia). subst n.
  replace (k * 256 + 256 - 1) with (255 + k * 256) by lia.
  rewrite Z.div_add, Z.div_mul by lia. change (255 / 256) with 0. lia.
Qed.

Lemma add_elem r : r ∈ rs' <-> r = r0 \/ r ∈ rs.
Proof.
  unfold rs', AddAllocationRegion. rewrite elem_of_app, elem_of_cons.
  assert (E : r ∈ rs <-> r ∈ take (upper_bound p rs) rs \/ r ∈ drop (upper_bound p rs) rs)
    by (by rewrite <- elem_of_app, take_drop).
  rewrite E. fold r0. tauto.
Qed.

Lemma geom_in r : r ∈ rs -> (r_ptr r, memory_size r) ∈ geom rs.
Proof. intros H. apply list_elem_of_fmap. eauto. Qed.

Lemma add_reg_wf : reg_wf rs'.
Proof.
  destruct Hwf as [Hok Hs]. pose proof (upper_bound_app p rs) as [Hlo Hhi]. split.
  - apply Forall_forall. intros r Hr. apply add_elem in Hr as [->|Hr]; [apply new_region_ok|].
    rewrite Forall_forall in Hok. by apply Hok.
  - unfold rs', AddAllocationRegion. rewrite <- (take_drop (upper_bound p rs) rs) in Hs.
    apply sorted_app_inv in Hs as (Hs1 & Hs2 & Hs12).
    rewrite Forall_forall in Hlo, Hok.
    destruct new_region_ok as (_ & _ & _ & Er & _). change (r_end_ptr r0 = p + n) in Er.
    assert (Hdrop : forall r, r ∈ drop (upper_bound p rs) rs -> p + n <= r_ptr r).
    { destruct (drop (upper_bound p rs) rs) as [|r1 l] eqn:Ed; [set_solver|].
      specialize (Hhi _ _ eq_refl). inversion_clear Hs2 as [|?? Hs2' Hall]. rewrite Forall_forall in Hall.
      assert (Hr1 : r1 ∈ rs) by (rewrite <- (take_drop (upper_bound p rs) rs), Ed; set_solver).
      destruct (Hok _ Hr1) as (_ & ? & _ & Ee & _). pose proof (Hdisj _ _ (geom_in _ Hr1)).
      intros r [->|Hr]%elem_of_cons; [lia|]. pose proof (Hall _ Hr). lia. }
    apply sorted_app_inv. split_and!; [done| |].
    + constructor; [done|]. apply Forall_forall. intros r Hr. fold r0. rewrite Er. by apply Hdrop.
    + intros x y Hx [->|Hy]%elem_of_cons; [by apply Hlo|]. by apply Hs12.
Qed.

Lemma add_geom b m : (b, m) ∈ geom rs' <-> (b, m) = (p, n) \/ (b, m) ∈ geom rs.
Proof.
  unfold geom. rewrite !list_elem_of_fmap. setoid_rewrite add_elem. split.
  - intros (r & E & [->|Hr]); [by left|right; eauto].
  - intros [E|(r & E & Hr)]; [exists r0; auto|eauto].
Qed.

Lemma add_get_old b m q : slot rs b m q -> get_handle q rs' = get_handle q rs.
Proof.
  intros Hs. assert (Hs' : slot rs' b m q) by (destruct Hs as (? & ? & ?); split; [apply add_geom; by right|by split]).
  destruct (RegionFor_slot _ _ _ _ Hwf Hs) as (i & r & E & Hi & Hb & Hm & _ & HI & _).
  destruct (RegionFor_slot _ _ _ _ add_reg_wf Hs') as (i' & r' & E' & Hi' & Hb' & Hm' & _ & HI' & _).
  assert (r' = r) as ->.
  { apply list_elem_of_lookup_2 in Hi, Hi'. apply add_elem in Hi' as [->|Hr']; [|apply (region_ptr_inj rs); [done..|congruence]].
    pose proof (Hdisj _ _ (geom_in _ Hi)). destruct Hs as (_ & ? & _). simpl in Hb'. lia. }
  unfold get_handle. rewrite E, E'. done.
Qed.

Lemma add_get_new q : slot rs' p n q -> get_handle q rs' = Some (-1).
Proof.
  intros Hs'. destruct (RegionFor_slot _ _ _ _ add_reg_wf Hs') as (i' & r' & E' & Hi' & Hb' & Hm' & _ & HI' & HR).
  assert (r' = r0) as ->.
  { apply list_elem_of_lookup_2 in Hi'. apply (region_ptr_inj rs'); [apply add_reg_wf|done|apply add_elem; by left|done]. }
  unfold get_handle. rewrite E'. simpl. unfold region_get_handle. rewrite HI'.
  destruct (zlookup_is_Some _ _ HR) as [h Hh]. rewrite Hh.
  unfold r0, AllocationRegion_new, zlookup in Hh. simpl in Hh. destruct (_ <? 0); [done|].
  apply lookup_replicate in Hh as [-> _]. done.
Qed.
End AddRegion.

(** ** The new region and its single chunk in the invariant *)

Section AddBlock.
Context (rs rs2 : list AllocationRegion) (cs cs2 : list Chunk) (bs : list Bin) (fl : Z) (FL : list Z).
Context (p n hn rq : Z) (c0 : Chunk).
Hypothesis HC : Core rs cs bs fl FL.
Hypothesis Hp : 0 < p.
Hypothesis Hn : 0 < n < 2 ^ 39.
Hypothesis Hdn : (256 | n).
Hypothesis Hend : p + n < 2 ^ 64.
Hypothesis Hdisj : forall b m, (b, m) ∈ geom rs -> p + n <= b \/ b + m <= p.
Hypothesis Hc0 : cs !!z hn = Some c0.
Hypothesis Hb0 : bin_num c0 = -1.
Hypothesis Hdead : forall b m p, ~ at_ rs b m p hn.
Hypothesis HFL : hn ∉ FL.
Hypothesis Hw2 : reg_wf rs2.
Hypothesis Hgeom : geom rs2 = geom (AddAllocationRegion p n rs).
Hypothesis Hset : get_handle p rs2 = Some hn.
Hypothesis Hother : forall b' m' q, slot (AddAllocationRegion p n rs) b' m' q -> q <> p ->
  get_handle q rs2 = get_handle q (AddAllocationRegion p n rs).
Let cn := mkChunk n rq (-1) p (-1) (-1) (-1).
Hypothesis Hcs2 : forall x, cs2 !!z x = if decide (x = hn) then Some cn else cs !!z x.

Let Hwf : reg_wf rs := core_reg _ _ _ _ _ HC.

Lemma add_slot_new : slot rs2 p n p.
Proof.
  split; [rewrite Hgeom; apply (proj2 (add_geom rs p n Hn _ _)); by left|]. split; [lia|].
  rewrite Z.sub_diag. apply Z.divide_0_r.
Qed.

Lemma add_at_old b m q x : at_ rs b m q x -> at_ rs2 b m q x.
Proof.
  intros [Hs Hg]. assert (Hs' : slot (AddAllocationRegion p n rs) b m q).
  { destruct Hs. split; [apply (proj2 (add_geom rs p n Hn _ _)); by right|done]. }
  split; [by apply (slot_geom _ _ _ _ _ Hgeom)|].
  rewrite (Hother _ _ _ Hs'); [by rewrite (add_get_old rs p n Hwf Hp Hn Hdn Hend Hdisj _ _ _ Hs)|].
  intros ->. destruct Hs as (Hin & ? & _). pose proof (Hdisj _ _ Hin). lia.
Qed.

Lemma add_at_inv b m q x :
  at_ rs2 b m q x -> (b = p /\ m = n /\ q = p /\ x = hn) \/ (b = p /\ m = n /\ q <> p /\ x = -1) \/ at_ rs b m q x.
Proof.
  intros [Hs Hg]. pose proof Hs as Hs'. rewrite (slot_geom _ _ _ _ _ Hgeom) in Hs'.
  pose proof Hs' as (Hin & Hr & Hd). apply (add_geom rs p n Hn) in Hin as [[= -> ->]|Hin].
  - destruct (decide (q = p)) as [->|Hq]; [left; split_and!; try done; congruence|right; left].
    split_and!; try done. rewrite (Hother _ _ _ Hs' Hq) in Hg.
    rewrite (add_get_new rs p n Hwf Hp Hn Hdn Hend Hdisj _ Hs') in Hg. congruence.
  - right; right. assert (slot rs b m q) as Hso by done. split; [done|].
    rewrite <- (add_get_old rs p n Hwf Hp Hn Hdn Hend Hdisj _ _ _ Hso), <- (Hother _ _ _ Hs'); [done|].
    intros ->. pose proof (Hdisj _ _ Hin). lia.
Qed.

Lemma add_keep x d : cs !!z x = Some d -> x <> hn -> cs2 !!z x = Some d.
Proof. intros Hx Hne. by rewrite Hcs2, decide_False. Qed.

Lemma core_add : Core rs2 cs2 bs fl FL.
Proof.
  assert (Hh : hn <> -1) by (apply zlookup_range in Hc0; lia).
  split; try done; try apply HC.
  - intros b m q x Hq. destruct (add_at_inv _ _ _ _ Hq) as [(-> & -> & -> & ->)|[(_ & _ & _ & ->)|Hq1]]; [right|by left|].
    + exists cn. rewrite Hcs2, decide_True by done. split; [done|]. split; simpl; try done; try lia; try by left.
      intros q Hs Hin. apply (slot_geom _ _ _ _ _ Hgeom) in Hs. rewrite (Hother _ _ _ Hs) by lia.
      by apply (add_get_new rs p n Hwf Hp Hn Hdn Hend Hdisj).
    + destruct (core_tab _ _ _ _ _ HC _ _ _ _ Hq1) as [?|(d & Hd & [B1 B2 B3 B4 B5 B6 B7])]; [by left|right].
      assert (x <> hn) by (intros ->; by eapply Hdead). exists d. split; [by apply add_keep|]. split; try done.
      * intros q' Hs Hin'. assert (slot rs b m q') as Hso.
        { destruct Hs as (_ & ? & ?). destruct Hq1 as [(? & _) _]. done. }
        by apply (add_at_old b m q' (-1) (conj Hso (B5 _ Hso Hin'))).
      * destruct B6 as [?|(Hlt & Hne & Hg)]; [by left|right]. split_and!; try done.
        assert (slot rs b m (q + c_size d)) as Hso by (apply slot_shift; [apply Hq1|lia|done|lia]).
        by apply (add_at_old b m _ _ (conj Hso Hg)).
      * destruct B7 as [?|(? & ? & cp & Hcp & Hatp & Heq)]; [by left|right]. split_and!; try done.
        exists cp. split_and!; [apply add_keep; [done|]|by apply add_at_old|done].
        intros E. rewrite E in Hatp. by eapply Hdead.
  - intros b m Hin. rewrite Hgeom in Hin. apply (add_geom rs p n Hn) in Hin as [[= -> ->]|Hin].
    + rewrite Hset. congruence.
    + destruct (get_handle_slot _ _ _ _ Hwf (slot_base _ _ _ Hwf Hin)) as [h Hg].
      rewrite (proj2 (add_at_old _ _ _ _ (conj (slot_base _ _ _ Hwf Hin) Hg))).
      pose proof (core_base _ _ _ _ _ HC _ _ Hin). congruence.
  - intros x d. rewrite Hcs2. case_decide.
    + intros [= <-]. split; simpl; [done|done|]. intros [?|?]; done.
    + intros Hd. destruct (core_chunk _ _ _ _ _ HC _ _ Hd) as [C1 C2 C3]. split; try done.
      intros Hd'. destruct (C3 Hd') as (b & m & ?). exists b, m. by apply add_at_old.
  - eapply bins_frame; [| |apply (core_bins _ _ _ _ _ HC)].
    + intros x d Hd Hbd. exists d. split; [|done]. apply add_keep; [done|]. intros ->. congruence.
    + intros x d. rewrite Hcs2. case_decide; [by intros [= <-]|eauto].
  - eapply flist_frame; [|apply HC]. intros x Hx. rewrite Hcs2, decide_False; [done|]. set_solver.
  - intros x b m q Hx Hq. destruct (add_at_inv _ _ _ _ Hq) as [(_ & _ & _ & ->)|[(_ & _ & _ & ->)|Hq1]]; [done| |].
    + destruct (flist_elem _ _ _ _ (core_fl _ _ _ _ _ HC) Hx) as (Hne & _). done.
    + by apply (core_FL_dead _ _ _ _ _ HC x b m q).
Qed.
End AddBlock.
End BFCExtend.
