(* ===== verification/BfcTheorems.v ===== *)
(** * The BFC allocator: correctness of the public operations

    [AllocateRaw] and [DeallocateRaw] from a state that satisfies the
    invariant: what is granted, what is released, when memory runs out, and
    when the backpedal loop does not end. *)
From S2P Require Import Prelude BfcAllocator BfcAllocatorFacts BfcInvariant BfcExtend.
Import BFCAllocator BFCFacts BFCInv BFCExtend.

Module BFCTheorems.

Section Top.
Context {SA : Type} `{!SubAllocator SA} (owned : SA -> list (Z * Z)) `{!SubAllocatorLaws SA owned}.
Implicit Types (a : Allocator SA).

Abbreviation CoreA a FL :=
  (Core (regions_ a) (chunks_ a) (bins a) (free_chunks_list_ a) FL).
Abbreviation InvA x y a :=
  (InvP x y (regions_ a) (chunks_ a) (bins a) (free_chunks_list_ a) (next_allocation_id_ a)
     (total_region_allocated_bytes_ a) (bytes_in_use (stats_ a))).

Definition avail a : Z := (memory_limit_ a - total_region_allocated_bytes_ a) / 256 * 256.

Definition owns a : Prop :=
  forall b m, (b, m) ∈ geom (regions_ a) -> exists k, m <= k /\ (b, k) ∈ owned (suballocator_ a).

Definition curr_ok a : Prop :=
  avail a = 0 \/
  ((256 | curr_region_allocation_bytes_ a) /\ 0 < curr_region_allocation_bytes_ a /\
   (curr_region_allocation_bytes_ a < 2 ^ 40 \/
    (started_backpedal_ a = true /\ curr_region_allocation_bytes_ a < 2 ^ 41))).

(** The calls made to the visitors: every visitor, once for every region. *)
Definition expected_visits (vs : list Z) (g : list (Z * Z)) : list (Z * Z * Z) :=
  v ← vs; (fun r => (v, r.1, r.2)) <$> g.

(** The invariant of the reachable states of the allocator. *)
Record Inv a : Prop := {
  inv_main : InvA (-1) (-1) a;
  inv_limit : memory_limit_ a < 2 ^ 39 /\ 0 <= total_region_allocated_bytes_ a <= memory_limit_ a;
  inv_curr : curr_ok a;
  inv_owns : owns a;
  inv_visits : visits a ≡ₚ expected_visits (region_visitors_ a) (geom (regions_ a))
}.

(** *** Registering a region *)

Lemma geom_add p n rs : geom (AddAllocationRegion p n rs) ≡ₚ (p, n) :: geom rs.
Proof.
  unfold geom, AddAllocationRegion. rewrite !map_app. simpl. symmetry.
  rewrite <- (take_drop (upper_bound p rs) rs) at 1. rewrite map_app.
  apply Permutation_middle.
Qed.

Lemma NewRegion_wp a p n Q :
  InvA (-1) (-1) a -> 0 < p -> 0 < n < 2 ^ 39 -> (256 | n) -> p + n < 2 ^ 64 ->
  (forall b m, (b, m) ∈ geom (regions_ a) -> p + n <= b \/ b + m <= p) ->
  0 <= total_region_allocated_bytes_ a < 2 ^ 63 ->
  (forall rs2 cs2 bs2 fl2 h c,
    let a' := mkAllocator SA (memory_limit_ a) bs2 (curr_region_allocation_bytes_ a)
      (total_region_allocated_bytes_ a + n) (started_backpedal_ a) (suballocator_ a) rs2 cs2 fl2
      (region_visitors_ a) (next_allocation_id_ a) (stats_ a)
      (visits a ++ map (fun v => (v, p, n)) (region_visitors_ a)) in
    InvA (-1) (-1) a' -> geom rs2 = geom (AddAllocationRegion p n (regions_ a)) ->
    (forall z, uview cs2 z = uview (chunks_ a) z) ->
    cs2 !!z h = Some c -> is_free c -> c_ptr c = p -> c_size c = n ->
    Q tt a') ->
  wp (NewRegion p n) a Q.
Proof.
  intros [[FL HC] H2 H3 H4 H5 H6 H7] Hp Hn Hd He Hdisj Ht HQ. unfold NewRegion.
  do 4 wp_step. rewrite u64_id by lia.
  wp_step. set (a1 := set_regions _ _).
  apply (AllocateChunk_wp a1 (regions_ a) FL); [exact HC|].
  intros cs' fl' FL' hn c0 HC' Hc0 Ha0 Hb0 Hdead HnFL Hsub Hsum Hback.
  cbn [a1 chunks_ set_regions set_total] in Hsub, Hsum, Hback.
  wp_step. apply (UpdateChunk_wp _ _ _ c0); [done|].
  do 4 (wp_step; eapply UpdateChunk_wp; [zl|]).
  cbn [chunks_ set_chunks set_free_chunks_list].
  set (cs2 := zinsert _ _ _). set (cn := mkChunk n (requested_size c0) (-1) p (-1) (-1) (-1)).
  assert (Hcs2 : forall x, cs2 !!z x = if decide (x = hn) then Some cn else cs' !!z x).
  { intros x. unfold cs2. destruct (decide (x = hn)) as [->|Hx]; [zl; unfold cn, kInvalidChunkHandle; by rewrite <- Hb0|zl]. }
  assert (Hwsum : forall f, weight f -> f Chunk_default = 0 -> wsum f cs2 = wsum f (chunks_ a)).
  { intros f Hf Hf0. unfold cs2. repeat (erewrite wsum_zinsert by zl).
    rewrite !(proj2 Hf) by done. rewrite Hsum by done. lia. }
  clearbody cs2.
  set (rs' := AddAllocationRegion p n (regions_ a)).
  pose proof (core_reg _ _ _ _ _ HC') as Hwf.
  assert (Hslot : slot rs' p n p).
  { split; [apply (proj2 (add_geom (regions_ a) p n Hn _ _)); by left|]. split; [lia|].
    rewrite Z.sub_diag. apply Z.divide_0_r. }
  destruct (set_handle_slot rs' p n p hn (add_reg_wf _ _ _ Hwf Hp Hn Hd He Hdisj) Hslot)
    as (rs2 & E & Hw2 & Hg2 & Hset & Hoth).
  pose proof (core_add _ rs2 _ cs2 _ _ _ p n hn (requested_size c0) c0 HC' Hp Hn Hd He Hdisj Hc0 Hb0 Hdead HnFL Hw2 Hg2 Hset Hoth Hcs2) as HC2.
  assert (Hx : cs2 !!z hn = Some cn) by (by rewrite Hcs2, decide_True).
  pose proof (add_slot_new (regions_ a) rs2 p n Hn Hg2) as Hsn.
  wp_step. unfold rm_set_handle. do 3 wp_step. eapply wp_opt; [exact E|]. do 2 wp_step.
  eapply (InsertFreeChunkIntoBin_wp _ FL' hn cn p n); [exact HC2|exact Hx|done|done|split; [exact Hsn|exact Hset]|].
  intros bs' cs3 HC3. unfold InvokeVisitors. wp_step. cbn [chunks_ set_chunks set_regions] in cs3.
  assert (Hz3 : forall x, cs3 !!z x = if decide (x = hn) then Some (with_bin_num (BinNumForSize n) cn) else cs' !!z x).
  { intros x. unfold cs3. rewrite (zlookup_zinsert _ _ _ _ _ Hx).
    destruct (decide (hn = x)) as [->|]; [by rewrite decide_True|]. by rewrite Hcs2, !decide_False by congruence. }
  assert (Hold : forall x, x <> hn -> cs3 !!z x = chunks_ a !!z x).
  { intros x Hxn. rewrite Hz3, decide_False by done. destruct (cs' !!z x) eqn:Ex; [by rewrite (Hback _ _ Ex)|].
    destruct (chunks_ a !!z x) eqn:Ey; [|done]. by rewrite (Hsub _ _ Ey) in Ex. }
  assert (Hhu : uview (chunks_ a) hn = None).
  { unfold uview. destruct (chunks_ a !!z hn) as [d|] eqn:Ehn; [|done]. destruct (in_use d) eqn:Hud; [|done].
    rewrite (Hsub _ _ Ehn) in Hc0. assert (d = c0) as -> by congruence. unfold in_use in Hud. by rewrite Ha0 in Hud. }
  pose proof (BinNumForSize_range n ltac:(lia)) as Hbr.
  assert (Hv : forall z, uview cs3 z = uview (chunks_ a) z).
  { intros z. destruct (decide (z = hn)) as [->|Hz]; [|unfold uview; by rewrite Hold].
    rewrite Hhu. unfold uview. by rewrite Hz3, decide_True. }
  pose proof (add_at_inv _ rs2 _ _ _ _ p n hn HC' Hp Hn Hd He Hdisj Hg2 Hset Hoth) as Hinv.
  eapply (HQ rs2 cs3 bs' fl' hn (with_bin_num (BinNumForSize n) cn)); try done;
    [|by rewrite Hz3, decide_True|unfold is_free; simpl; lia].
  split; [by eexists| | | | | |];
    cbn [regions_ chunks_ bins free_chunks_list_ next_allocation_id_ total_region_allocated_bytes_ stats_].
  - intros b m q x d Hq Hxd Hud _.
    destruct (decide (x = hn)) as [->|Hxn]; [rewrite Hz3, decide_True in Hxd by done; simplify_eq; simpl; lia|].
    rewrite Hold in Hxd by done. assert (Hxm : x <> -1) by by eapply loose_handle.
    destruct (Hinv _ _ _ _ Hq) as [(_ & _ & _ & ?)|[(_ & _ & _ & ->)|Hq1]]; [done|done|].
    by eapply H2.
  - intros b m q x d e Hq Hxd Hud Hnx Hxe Hue. exfalso.
    destruct (decide (x = hn)) as [->|Hxn]; [rewrite Hz3, decide_True in Hxd by done; simplify_eq; done|].
    destruct (Hinv _ _ _ _ Hq) as [(_ & _ & _ & ?)|[(_ & _ & _ & ->)|Hq1]]; [done|done|].
    rewrite Hold in Hxd by done.
    assert (c_next d <> hn).
    { intros E1. assert (Hxm : x <> -1) by (intros ->; done).
      destruct (at_live _ _ _ _ _ _ _ _ _ HC Hq1 Hxm) as (d' & Hd' & HB). assert (d' = d) as -> by congruence.
      pose proof (next_at _ _ _ _ _ _ _ (proj1 Hq1) HB Hnx) as Hna. rewrite E1 in Hna. by eapply Hdead. }
    rewrite Hold in Hxe by done. destruct (H3 _ _ _ _ _ _ Hq1 Hxd Hud Hnx Hxe Hue) as [->|?]; done.
  - by left.
  - by eapply ids_uview.
  - unfold cs3. rewrite (wsum_zinsert _ _ _ _ _ Hx), H6, (Hwsum _ weight_used) by done.
    change (used (with_bin_num (BinNumForSize (c_size cn)) cn)) with (used cn). lia.
  - unfold cs3. rewrite (wsum_zinsert _ _ _ _ _ Hx), (Hwsum _ weight_tot) by done.
    rewrite !lsz_m1 in *. rewrite (proj2 weight_tot cn) by done.
    rewrite tot_free; [|done|simpl; lia]. simpl. lia.
Qed.

(** *** Asking the sub-allocator *)

(** The region [(p, n)] with [n >= bytes] was granted between the two states of
    the sub-allocator, or [p] is null and nothing was. *)
Definition granted (s s' : SA) (p bytes : Z) : Prop :=
  (p = 0 /\ owned s' = owned s) \/
  (0 < p /\ exists n, bytes <= n /\ p + n < 2 ^ 64 /\ owned s' = (p, n) :: owned s /\
   forall q k, (q, k) ∈ owned s -> p + n <= q \/ q + k <= p).

(** The sub-allocator refuses a request of [bytes]. *)
Definition refused (s : SA) (bytes : Z) : Prop := (sa_alloc s 32 bytes).1 = 0.

Lemma SubAlloc_spec a n :
  0 < n -> exists p s', SubAlloc n a = Done (p, set_sub s' a) /\ granted (suballocator_ a) s' p n /\
    (p = 0 -> refused (suballocator_ a) n).
Proof.
  intros Hn. unfold SubAlloc, st_bind, st_get, st_modify, st_ret.
  destruct (sa_alloc (suballocator_ a) 32 n) as [p s'] eqn:E. exists p, s'. split; [done|].
  split; [|unfold refused; by rewrite E].
  destruct (sa_alloc_law _ _ _ _ Hn E) as [?|(? & ? & ? & ?)]; [by left|right]. split; [done|].
  exists n. split_and!; done || lia.
Qed.

Lemma Backpedal_spec fuel R : forall a bytes,
  (256 | bytes) -> 256 <= bytes < 2 ^ 63 ->
  (Backpedal fuel R 0 bytes a = Diverges /\ (R < 2304 \/ Z.of_nat fuel <= bytes / 256 + 1)) \/
  (exists p b s', Backpedal fuel R 0 bytes a = Done ((p, b), set_sub s' a) /\
     (256 | b) /\ 256 <= b <= bytes /\ granted (suballocator_ a) s' p b).
Proof.
  induction fuel as [|f IH]; intros a bytes Hd Hb; cbn [Backpedal].
  { left. split; [done|right]. pose proof (Z.div_pos bytes 256). lia. }
  rewrite Z.eqb_refl. simpl. destruct (Z.ltb_spec R bytes) as [Hlt|Hge].
  - destruct (SubAlloc_spec a bytes ltac:(lia)) as (p & s' & E & HG & Href).
    rewrite (st_bind_eq _ _ _ _ _ E).
    destruct (backpedal_step bytes Hd ltac:(lia)) as (Hd' & Hr' & Hdec).
    set (b' := RoundedBytes (MulBackpedal bytes)) in *. destruct HG as [[-> Ho]|(Hp & n & Hn & ? & Ho & Hdis)].
    + destruct (IH (set_sub s' a) b' Hd' ltac:(lia)) as [[-> HD]|(p & b & s2 & -> & ? & ? & HG)].
      * left. split; [done|]. destruct HD as [?|HD]; [by left|]. destruct (Z.lt_ge_cases R 2304); [by left|right].
        specialize (Hdec ltac:(lia)). destruct Hd as [k Hk], Hd' as [j Hj].
        rewrite Hj, Z.div_mul in HD by lia. rewrite Hk, Z.div_mul by lia. lia.
      * right. exists p, b, s2. split_and!; try done; try lia. unfold granted in *. cbn in HG. by rewrite Ho in HG.
    + destruct f as [|f]; cbn [Backpedal].
      * left. split; [done|right]. pose proof (Z.div_pos bytes 256). lia.
      * destruct (Z.eqb_spec p 0); [lia|]. simpl. right. exists p, b', s'.
        split_and!; try done; try lia. right. split; [done|]. exists n. split_and!; try done. lia.
  - right. exists 0, bytes, (suballocator_ a). split_and!; try done; try lia; try (by left); by destruct a.
Qed.

Lemma AllocRegion_spec fuel R a bytes :
  (256 | bytes) -> 256 <= bytes < 2 ^ 63 ->
  (AllocRegion fuel R bytes a = Diverges /\ started_backpedal_ a = false /\
     (R < 2304 \/ Z.of_nat fuel <= bytes / 256 + 1)) \/
  (exists p b s' st, AllocRegion fuel R bytes a = Done ((p, b), set_started_backpedal st (set_sub s' a)) /\
     (256 | b) /\ 256 <= b <= bytes /\ granted (suballocator_ a) s' p b /\
     ((b = bytes /\ st = started_backpedal_ a) \/ (started_backpedal_ a = false /\ st = true)) /\
     ((p <> 0 /\ b = bytes) \/ refused (suballocator_ a) bytes)).
Proof.
  intros Hd Hb. destruct (SubAlloc_spec a bytes ltac:(lia)) as (p & s' & E & HG & Href).
  unfold AllocRegion. rewrite (st_bind_eq _ _ _ _ _ E), (st_bind_eq st_get _ _ _ _ eq_refl).
  cbn [started_backpedal_ set_sub].
  assert (Hsame : set_started_backpedal (started_backpedal_ a) (set_sub s' a) = set_sub s' a) by (by destruct a).
  destruct (Z.eqb_spec p 0) as [->|Hp]; [destruct (started_backpedal_ a) eqn:Hst|]; cbn [andb negb].
  - right. exists 0, bytes, s', true. rewrite Hsame. split_and!; try done; try lia; try (by left). right. by apply Href.
  - rewrite (st_bind_eq (st_modify _) _ _ _ _ eq_refl).
    destruct (backpedal_step bytes Hd ltac:(lia)) as (Hd' & Hr' & _).
    destruct (Backpedal_spec fuel R (set_started_backpedal true (set_sub s' a)) _ Hd' ltac:(lia))
      as [[-> HD]|(p & b & s2 & -> & ? & ? & HG2)].
    + left. split_and!; try done. destruct HD as [?|HD]; [by left|right].
      pose proof (Z.div_le_mono _ _ 256 ltac:(lia) (proj2 Hr')). lia.
    + right. exists p, b, s2, true. split_and!; try done; try lia; try (by right); [|right; by apply Href].
      destruct HG as [[_ Ho]|[? _]]; [|done]. unfold granted in *. cbn in HG2. by rewrite Ho in HG2.
  - right. exists p, bytes, s', (started_backpedal_ a). rewrite Hsame. split_and!; try done; try lia; by left.
Qed.

(** *** Extend *)

(** The parts of the state that [Extend] and the search leave alone. *)
Record client_same a a' : Prop := {
  cl_limit : memory_limit_ a' = memory_limit_ a;
  cl_visitors : region_visitors_ a' = region_visitors_ a;
  cl_started : started_backpedal_ a = true -> started_backpedal_ a' = true
}.

Definition ext_post a (R : Z) (r : bool) (a' : Allocator SA) : Prop :=
  Inv a' /\ client_same a a' /\
  (forall z, uview (chunks_ a') z = uview (chunks_ a) z) /\
  next_allocation_id_ a' = next_allocation_id_ a /\ stats_ a' = stats_ a /\
  if r then
    exists p b h c, geom (regions_ a') ≡ₚ (p, b) :: geom (regions_ a) /\
      total_region_allocated_bytes_ a' = total_region_allocated_bytes_ a + b /\
      chunks_ a' !!z h = Some c /\ is_free c /\ c_ptr c = p /\ c_size c = b /\
      (R <= b \/ exists k, R <= k /\ refused (suballocator_ a) k)
  else geom (regions_ a') = geom (regions_ a) /\
       (avail a < R \/ exists k, R <= k /\ refused (suballocator_ a) k).

Lemma expected_visits_cons vs g p n :
  expected_visits vs ((p, n) :: g) ≡ₚ expected_visits vs g ++ map (fun v => (v, p, n)) vs.
Proof.
  unfold expected_visits. induction vs as [|v vs IH]; csimpl; [done|]. rewrite IH. 
  solve_Permutation.
Qed.

Lemma expected_visits_perm vs g g' : g ≡ₚ g' -> expected_visits vs g ≡ₚ expected_visits vs g'.
Proof.
  intros E. unfold expected_visits. induction vs as [|v vs IH]; csimpl; [done|]. by rewrite IH, E.
Qed.

Lemma avail_bounds a : Inv a ->
  0 <= avail a < 2 ^ 39 /\ (256 | avail a) /\
  avail a <= memory_limit_ a - total_region_allocated_bytes_ a < avail a + 256.
Proof.
  intros [_ [? ?] _ _ _]. unfold avail.
  pose proof (Z.div_mod (memory_limit_ a - total_region_allocated_bytes_ a) 256 ltac:(lia)).
  pose proof (Z.mod_pos_bound (memory_limit_ a - total_region_allocated_bytes_ a) 256 ltac:(lia)).
  split_and!; try lia. apply Z.divide_factor_r.
Qed.

(** The bytes taken from the limit by a region of [b <= avail] bytes. *)
Lemma avail_after a a' b :
  Inv a -> b <= avail a -> memory_limit_ a' = memory_limit_ a ->
  total_region_allocated_bytes_ a' = total_region_allocated_bytes_ a + b ->
  b = avail a -> avail a' = 0.
Proof.
  intros HI Hb Hl Ht ->. destruct (avail_bounds a HI) as (? & _ & ?).
  unfold avail at 1. rewrite Hl, Ht. rewrite Z.div_small; lia.
Qed.

Lemma owns_granted a s' p b :
  owns a -> granted (suballocator_ a) s' p b -> p <> 0 ->
  0 < p /\ p + b < 2 ^ 64 /\
  (forall b0 m, (b0, m) ∈ geom (regions_ a) -> p + b <= b0 \/ b0 + m <= p) /\
  (exists n, b <= n /\ (p, n) ∈ owned s') /\ (forall q k, (q, k) ∈ owned (suballocator_ a) -> (q, k) ∈ owned s').
Proof.
  intros Ho [[? _]|(Hp & n & Hn & He & Hs & Hd)] Hp0; [done|]. rewrite Hs. split_and!; try done; [lia| | |].
  - intros b0 m Hin. destruct (Ho _ _ Hin) as (k & Hk & Hin'). destruct (Hd _ _ Hin'); lia.
  - exists n. split; [done|]. set_solver.
  - set_solver.
Qed.

(** The state just before the region is registered, and the two outcomes. *)
Lemma extend_fail a curr st s' :
  Inv a -> curr_ok a -> avail a <> 0 -> granted (suballocator_ a) s' 0 0 ->
  (256 | curr) -> 0 < curr -> (curr = curr_region_allocation_bytes_ a \/ curr < 2 ^ 40) ->
  (started_backpedal_ a = true -> st = true) ->
  Inv (set_started_backpedal st (set_sub s' (set_curr curr a))).
Proof.
  intros [H1 H2 H3 H4 H5] Hc Hav HG Hd Hp Hcurr Hst. split; try done.
  - destruct Hc as [?|(_ & _ & Hb)]; [done|]. right. split_and!; try done. cbn.
    destruct Hcurr as [->|?]; [|by left]. destruct Hb as [?|[? ?]]; [by left|right]. auto.
  - intros b m Hin. cbn in *. destruct (H4 _ _ Hin) as (k & ? & ?). exists k. split; [done|].
    destruct HG as [[_ ->]|[? _]]; [done|lia].
Qed.

Lemma extend_ok a curr curr' st s' p b R :
  Inv a -> avail a <> 0 -> R <= avail a -> granted (suballocator_ a) s' p b -> p <> 0 ->
  (256 | b) -> 256 <= b <= Z.min curr (avail a) -> (256 | curr) -> R <= curr ->
  (256 | curr') -> 0 < curr' -> curr' <= 2 * curr ->
  (b = Z.min curr (avail a) /\ st = started_backpedal_ a \/
   started_backpedal_ a = false /\ st = true /\ curr < 2 ^ 40) ->
  b = Z.min curr (avail a) \/ refused (suballocator_ a) (Z.min curr (avail a)) ->
  wp (NewRegion p b) (set_curr curr' (set_started_backpedal st (set_sub s' (set_curr curr a))))
     (fun _ a' => ext_post a R true a').
Proof.
  intros HI Hav HR HG Hp Hdb Hb Hdc HRc Hdc' Hc' Hcc Hcase Hbr.
  pose proof HI as [[H1a H1b H1c H1d H1e H1f H1g] [Hl Ht] Hc Ho Hv].
  destruct (avail_bounds a HI) as (Hav1 & Hav2 & Hav3).
  destruct (owns_granted _ _ _ _ Ho HG Hp) as (Hp0 & Hpe & Hdisj & (n & Hn & Hin) & Hsub).
  apply NewRegion_wp; [by split|lia|lia|done|lia|exact Hdisj|cbn; lia|].
  intros rs2 cs2 bs2 fl2 h c a' HI' Hg Hview Hc2 Hfree Hcp Hcs.
  pose proof (geom_add p b (regions_ a)) as Hgp. cbn [regions_ set_curr set_started_backpedal set_sub] in Hg. rewrite <- Hg in Hgp.
  split_and!; try done.
  - split; [done|cbn; lia| | |].
    + destruct (decide (b = avail a)) as [Eb|Nb].
      { left. apply (avail_after a _ b); done || lia. }
      right. cbn. split_and!; [done|done|]. destruct Hcase as [[Eb _]|(_ & -> & Hc40)]; [left; lia|right; split; [done|lia]].
    + intros b0 m0 Hin0. cbn in *. rewrite Hgp in Hin0. apply elem_of_cons in Hin0 as [[= -> ->]|Hin0]; [eauto|].
      destruct (Ho _ _ Hin0) as (k & ? & ?). eauto.
    + etrans; [|symmetry; apply (expected_visits_perm _ _ _ Hgp)].
      rewrite expected_visits_cons. apply Permutation_app_tail. exact Hv.
  - split; try done. cbn. intros Hs. destruct Hcase as [[_ ->]|(? & -> & _)]; done.
  - exists p, b, h, c. split_and!; try done. cbn.
    destruct Hbr as [->|?]; [left; lia|right]. eexists. split; [|done]. lia.
Qed.

Lemma Extend_spec fuel R a :
  Inv a -> (256 | R) -> 0 < R -> 64 <= Z.of_nat fuel ->
  (Extend fuel R a = Diverges /\ started_backpedal_ a = false /\ (R < 2304 \/ Z.of_nat fuel <= memory_limit_ a / 256 + 1)) \/
  (exists r a', Extend fuel R a = Done (r, a') /\ ext_post a R r a').
Proof.
  intros HI HdR HR Hfuel. destruct (avail_bounds a HI) as (Hav1 & Hav2 & Hav3).
  pose proof HI as [_ [Hl Ht] Hc _ _].
  unfold Extend. rewrite (st_bind_eq st_get _ _ _ _ eq_refl). rewrite kMin_eq.
  rewrite (u64_id (memory_limit_ a - _)) by lia. fold (avail a). rewrite (u64_id (avail a)) by lia.
  destruct (Z.ltb_spec (avail a) R) as [Hlt|Hge].
  { right. exists false, a. split; [done|]. split_and!; try done. by left. }
  assert (Hav0 : avail a <> 0) by lia.
  destruct Hc as [?|(Hd & Hp & Hb)] eqn:Hceq; [done|]. clear Hceq.
  destruct fuel as [|k]; [lia|].
  destruct (GrowRegion_spec k R (curr_region_allocation_bytes_ a) false Hp Hd) as (curr & inc & Eg & Hg1 & Hg2 & Hg3 & Hg4); [|lia|].
  { assert (2 ^ 39 <= 2 ^ Z.of_nat k) by (apply Z.pow_le_mono_r; lia). nia. }
  rewrite (st_bind_eq (st_outcome _) _ _ (curr, inc) a) by (unfold st_outcome; by rewrite Eg).
  cbv beta iota zeta. rewrite (st_bind_eq (st_modify _) _ _ _ _ eq_refl).
  set (bytes := Z.min curr (avail a)).
  assert (Hbytes : (256 | bytes) /\ 256 <= bytes < 2 ^ 39).
  { assert (256 | bytes) as Hdiv by (unfold bytes; destruct (Z.min_spec curr (avail a)) as [[_ ->]|[_ ->]]; done).
    split; [done|]. destruct Hdiv as [j Hj]. unfold bytes in *. lia. }
  assert (Hc40 : curr = curr_region_allocation_bytes_ a \/ curr < 2 ^ 40) by (destruct Hg4 as [[? _]|[? _]]; [by left|right; lia]).
  destruct (AllocRegion_spec (S k) R (set_curr curr a) bytes) as [(E & Hst & HD)|(p & b & s' & st & E & Hdb & Hrb & HG & Hcase & Hbr)]; [apply Hbytes|lia| |].
  - left. split; [by apply st_bind_div|]. split; [done|]. destruct HD as [?|HD]; [by left|right].
    pose proof (Z.div_le_mono bytes (memory_limit_ a) 256 ltac:(lia) ltac:(unfold bytes; lia)). lia.
  - right. rewrite (st_bind_eq _ _ _ _ _ E). cbv beta iota.
    assert (HG' : granted (suballocator_ a) s' p b) by done. clear HG.
    destruct (Z.eqb_spec p 0) as [->|Hp0].
    + eexists false, _. split; [done|]. split.
      { apply extend_fail; try done; [destruct HG' as [?|[? _]]; [by left|lia]|].
        destruct Hcase as [[_ ->]|[? _]]; [done|]. cbn in *. congruence. }
      split_and!; try done; [split; try done; cbn in *; destruct Hcase as [[_ ->]|[? _]]; [done|congruence]|].
      right. exists bytes. destruct Hbr as [[? _]|?]; [done|]. split; [unfold bytes; lia|done].
    + set (curr' := if inc then curr else u64 (curr * 2)).
      assert (Hcu : u64 (curr * 2) = curr * 2) by (apply u64_id; destruct Hb as [?|[_ ?]]; lia).
      assert (Hc' : (256 | curr') /\ 0 < curr' <= 2 * curr).
      { unfold curr'. destruct inc; [split; [done|lia]|]. rewrite Hcu. split; [by apply Z.divide_mul_l|lia]. }
      assert (Hwp : wp (NewRegion p b) (set_curr curr' (set_started_backpedal st (set_sub s' (set_curr curr a)))) (fun _ a' => ext_post a R true a')).
      { apply extend_ok; [done|done|lia|done|done|done|fold bytes; lia|done|lia|apply Hc'|lia|lia| |fold bytes; destruct Hbr as [[_ ?]|?]; [by left|by right]]. fold bytes.
        destruct Hcase as [[-> ->]|[Hs ->]]; [by left|right]. cbn in Hs. split_and!; try done.
        destruct Hc40 as [->|?]; [|done]. destruct Hb as [?|[? _]]; [done|congruence]. }
      apply wp_Done in Hwp as ([] & a' & Ew & HQ). exists true, a'. split; [|done].
      unfold curr' in Ew. destruct inc; cbn [negb].
      * rewrite (st_bind_eq (st_ret tt) _ _ _ _ eq_refl).
        erewrite st_bind_eq; [done|]. rewrite <- Ew. done.
      * rewrite (st_bind_eq (st_modify _) _ _ _ _ eq_refl). erewrite st_bind_eq; [done|]. exact Ew.
Qed.
End Top.
End BFCTheorems.
