(* ===== verification/BfcApi.v ===== *)
(** * The BFC allocator: correctness of the public interface

    [AllocateRaw], [DeallocateRaw], [AddAllocVisitor] and the constructor
    against the client's view of the allocator: a set of granted blocks. The
    reachable states are those of the step relation [step]; every one of them
    satisfies the invariant [Inv], hence the guarantees of [Sound]. *)
From S2P Require Import Prelude BfcAllocator BfcAllocatorFacts BfcInvariant BfcExtend BfcTheorems.
Import BFCAllocator BFCFacts BFCInv BFCExtend BFCTheorems.

Module BFCApi.

Section Api.
Context {SA : Type} `{!SubAllocator SA} (owned : SA -> list (Z * Z)) `{!SubAllocatorLaws SA owned}.
Implicit Types (a : Allocator SA).

Abbreviation CoreA a FL :=
  (Core (regions_ a) (chunks_ a) (bins a) (free_chunks_list_ a) FL).
Abbreviation InvA x y a :=
  (InvP x y (regions_ a) (chunks_ a) (bins a) (free_chunks_list_ a) (next_allocation_id_ a)
     (total_region_allocated_bytes_ a) (bytes_in_use (stats_ a))).
Abbreviation Inv := (BFCTheorems.Inv owned).

Lemma avail_same a a' :
  memory_limit_ a' = memory_limit_ a ->
  total_region_allocated_bytes_ a' = total_region_allocated_bytes_ a -> avail a' = avail a.
Proof. unfold avail. by intros -> ->. Qed.

(** An operation that keeps the environment keeps the invariant. *)
Lemma Inv_same_env a a' : Inv a -> InvA (-1) (-1) a' -> same_env a a' -> Inv a'.
Proof.
  intros [H1 H2 H3 H4 H5] HI [Eg El Et Ec Es Esub Ev Evs]. split.
  - done.
  - by rewrite El, Et.
  - unfold curr_ok in *. by rewrite (avail_same a a'), Ec, Es.
  - unfold owns in *. by rewrite Eg, Esub.
  - by rewrite Evs, Ev, Eg.
Qed.

(** ** The blocks of the client *)

(** [a'] has the blocks of [a] and the new block [(p, sz, req, id)]. *)
Definition adds_block a a' (p sz req id : Z) : Prop :=
  forall q s r i, Allocated a' q s r i <-> Allocated a q s r i \/ (q, s, r, i) = (p, sz, req, id).
Definition same_blocks a a' : Prop :=
  forall q s r i, Allocated a' q s r i <-> Allocated a q s r i.

Lemma Allocated_view a a' :
  (forall z, uview (chunks_ a') z = uview (chunks_ a) z) -> same_blocks a a'.
Proof. intros H q s r i. unfold Allocated. by setoid_rewrite H. Qed.

Lemma Grant_blocks a R n h a' :
  Grant a R n h a' -> exists c sz, chunks_ a !!z h = Some c /\ R <= sz /\ (sz < 2 * R \/ sz = R) /\
    adds_block a a' (c_ptr c) sz n (next_allocation_id_ a).
Proof.
  intros (_ & _ & _ & Hh & (c & sz & Hc & H1 & H2 & Hv) & Hoth). exists c, sz. split_and!; try done.
  intros q s r i. unfold Allocated. split.
  - intros [x Hx]. destruct (decide (x = h)) as [->|Hn]; [right; congruence|].
    left. exists x. by rewrite <- Hoth.
  - intros [[x Hx]|[= -> -> -> ->]]; [|by exists h].
    exists x. rewrite Hoth; [done|]. intros ->. congruence.
Qed.

(** The block of a granted address is registered at that address. *)
Lemma Allocated_at a p s r i :
  Inv a -> Allocated a p s r i ->
  exists h c b m, chunks_ a !!z h = Some c /\ in_use c = true /\ h <> -1 /\
    c = mkChunk s r i p (c_prev c) (c_next c) (bin_num c) /\ at_ (regions_ a) b m p h /\
    block_ok (regions_ a) (chunks_ a) b m p h c.
Proof.
  intros HI [h Hv]. pose proof (inv_main _ _ HI) as [[FL HC] _ _ _ _ _ _].
  unfold uview in Hv. destruct (chunks_ a !!z h) as [c|] eqn:Hc; [|done].
  destruct (in_use c) eqn:Hu; [|done]. simplify_eq.
  destruct (co_owner _ _ _ (core_chunk _ _ _ _ _ HC _ _ Hc) (or_introl Hu)) as (b & m & Hat).
  assert (h <> -1) by by eapply loose_handle.
  destruct (at_live _ _ _ _ _ _ _ _ _ HC Hat) as (c' & Hc' & HB); [done|]. simplify_eq.
  exists h, c, b, m. split_and!; try done. by destruct c.
Qed.

(** A pointer is granted at most once. *)
Lemma Allocated_fun a p s r i s' r' i' :
  Inv a -> Allocated a p s r i -> Allocated a p s' r' i' -> (s, r, i) = (s', r', i').
Proof.
  intros HI H1 H2.
  destruct (Allocated_at _ _ _ _ _ HI H1) as (h & c & b & m & Hc & _ & _ & Ec & Hat & _).
  destruct (Allocated_at _ _ _ _ _ HI H2) as (h' & c' & b' & m' & Hc' & _ & _ & Ec' & Hat' & _).
  pose proof (at_fun _ _ _ _ _ _ _ _ Hat Hat') as <-. simplify_eq. congruence.
Qed.

(** ** AllocateRaw *)

(** The room for a request of [R] rounded bytes: no free chunk is large enough
    and the allocator could not get a region (the limit is reached, the
    sub-allocator refused, or a backpedalled region was too small). *)
Definition alloc_post a (n : Z) (p : Z) (a' : Allocator SA) : Prop :=
  Inv a' /\
  if p =? 0 then same_blocks a a' /\ no_fit (chunks_ a) is_free (RoundedBytes n) /\
    (avail a < RoundedBytes n \/ exists k, RoundedBytes n <= k /\ refused (suballocator_ a) k)
  else exists sz, n <= RoundedBytes n <= sz /\
         (sz < 2 * RoundedBytes n \/ sz = RoundedBytes n) /\
         adds_block a a' p sz n (next_allocation_id_ a).

Lemma find_alloc a n :
  Inv a -> 0 < n <= 2 ^ 64 - 256 ->
  wp (FindChunkPtr (BinNumForSize (RoundedBytes n)) (RoundedBytes n) n) a (fun p a' =>
    (p = 0 /\ a' = a /\ no_fit (chunks_ a) is_free (RoundedBytes n)) \/
    (p <> 0 /\ alloc_post a n p a')).
Proof.
  intros HI Hn. destruct (RoundedBytes_spec n ltac:(lia)) as [Hd Hr].
  pose proof (inv_limit _ _ HI) as [Hl Ht].
  assert (HR : RoundedBytes n < 2 ^ 64) by (unfold RoundedBytes; apply u64_range).
  eapply wp_mono; [apply FindChunkPtr_wp; [apply HI|lia|done|lia|done]|]. cbv beta.
  intros p a' [H|(Hp & h & c & (Hc & _) & -> & HG)]; [by left|right]. split; [done|].
  pose proof HG as (HI' & Hse & _). split; [by eapply Inv_same_env|].
  destruct (Z.eqb_spec (c_ptr c) 0); [done|].
  destruct (Grant_blocks _ _ _ _ _ HG) as (c' & sz & Hc' & H1 & H2 & Hb). simplify_eq.
  exists sz. split_and!; try done; lia.
Qed.

Lemma AllocateRaw_spec fuel a n :
  Inv a -> 0 < n <= 2 ^ 64 - 256 -> 64 <= Z.of_nat fuel -> memory_limit_ a / 256 + 1 < Z.of_nat fuel ->
  (AllocateRawInternal fuel n a = Diverges /\ started_backpedal_ a = false /\ RoundedBytes n < 2304) \/
  (exists p a', AllocateRawInternal fuel n a = Done (p, a') /\ alloc_post a n p a').
Proof.
  intros HI Hn Hf1 Hf2. destruct (RoundedBytes_spec n ltac:(lia)) as [Hd Hr].
  unfold AllocateRawInternal. destruct (Z.eqb_spec n 0); [lia|]. cbv zeta.
  destruct (proj1 (wp_Done _ _ _) (find_alloc a n HI Hn)) as (p & a1 & E & Hp). rewrite (st_bind_eq _ _ _ _ _ E).
  destruct Hp as [(-> & -> & Hno)|(Hp & HA)]; [|right].
  2: { destruct (Z.eqb_spec p 0); [done|]. cbn [negb]. by exists p, a1. }
  rewrite Z.eqb_refl. cbn [negb].
  destruct (Extend_spec owned fuel (RoundedBytes n) a HI Hd ltac:(lia) ltac:(lia))
    as [(E2 & Hs & HR)|(r & a2 & E2 & HI2 & Hcl & Hv & Hid & Hst & Hx)].
  { left. rewrite (st_bind_div _ _ _ E2). split_and!; try done. lia. }
  right. rewrite (st_bind_eq _ _ _ _ _ E2). destruct r.
  - destruct (proj1 (wp_Done _ _ _) (find_alloc a2 n HI2 Hn)) as (p & a3 & -> & Hp). exists p, a3. split; [done|].
    destruct Hp as [(-> & -> & Hno2)|(Hp & HI3 & HA)].
    + split; [done|]. rewrite Z.eqb_refl. split; [by apply Allocated_view|]. split; [done|]. right.
      destruct Hx as (q & b & h & c & _ & _ & Hc & Hf & _ & Hb & [?|?]); [|done].
      pose proof (Hno2 _ _ Hc Hf). lia.
    + split; [done|]. destruct (Z.eqb_spec p 0); [done|]. destruct HA as (sz & ? & ? & Hb). exists sz.
      split_and!; try done; try lia. rewrite Hid in Hb. intros q s r i.
      pose proof (Hb q s r i). pose proof (Allocated_view a a2 Hv q s r i). tauto.
  - exists 0, a2. split; [done|]. split; [done|]. rewrite Z.eqb_refl. split; [by apply Allocated_view|]. split; [done|apply Hx].
Qed.

(** ** DeallocateRaw *)

Definition dealloc_post a (p : Z) (a' : Allocator SA) : Prop :=
  Inv a' /\ (forall q s r i, Allocated a' q s r i <-> Allocated a q s r i /\ q <> p).

Lemma rm_get_handle_eq a p h :
  get_handle p (regions_ a) = Some h -> rm_get_handle p a = Done (h, a).
Proof. unfold rm_get_handle. intros E. rewrite (st_bind_eq st_get _ _ _ _ eq_refl). by rewrite E. Qed.

Lemma DeallocateRaw_spec a p s r i :
  Inv a -> Allocated a p s r i ->
  exists a', DeallocateRawInternal p a = Done (tt, a') /\ dealloc_post a p a' /\ geom (regions_ a') = geom (regions_ a).
Proof.
  intros HI HA. destruct (Allocated_at _ _ _ _ _ HI HA) as (h & c & b & m & Hc & Hu & Hh & Ec & Hat & HB).
  pose proof (inv_main _ _ HI) as HM. pose proof HM as [[FL HC] _ _ _ _ _ _].
  assert (Hp : 0 < p).
  { destruct (RegionFor_slot _ _ _ _ (core_reg _ _ _ _ _ HC) (proj1 Hat)) as (j & rr & _ & _ & Hb & _ & Hr & _).
    destruct Hr as (? & _). destruct Hat as [(_ & ? & _) _]. lia. }
  unfold DeallocateRawInternal. destruct (Z.eqb_spec p 0); [lia|].
  rewrite (st_bind_eq _ _ _ _ _ (rm_get_handle_eq _ _ _ (proj2 Hat))).
  unfold kInvalidChunkHandle. destruct (Z.eqb_spec h (-1)); [done|]. cbn [negb].
  rewrite (st_bind_eq (st_check true) _ _ _ _ eq_refl).
  pose proof (inv_limit _ _ HI).
  destruct (proj1 (wp_Done _ _ _) (FreeAndMaybeCoalesce_wp a h c HM ltac:(lia) Hc Hu)) as ([] & a' & E & HF).
  destruct HF as (HI' & Hse & Hid & Hhn & Hoth). exists a'. split; [done|].
  split; [|by destruct Hse]. split; [by eapply Inv_same_env|].
  intros q s' r' i'. unfold Allocated. split.
  - intros [x Hx]. destruct (decide (x = h)) as [->|Hxh]; [congruence|]. rewrite Hoth in Hx by done.
    split; [by exists x|]. intros ->.
    destruct (Allocated_at _ _ _ _ _ HI (ex_intro _ x Hx)) as (x' & c' & b' & m' & Hc' & Hu' & _ & Ec' & Hat' & _).
    pose proof (at_fun _ _ _ _ _ _ _ _ Hat Hat') as <-.
    assert (uview (chunks_ a) h = Some (p, s, r, i)) as Hvh by (unfold uview; rewrite Hc, Hu, Ec; done).
    assert (c' = c) as -> by congruence. rewrite Ec in Ec'. injection Ec' as <- <- <-.
    apply Hxh. by eapply (ids_inj _ _ (ip_ids _ _ _ _ _ _ _ _ _ HM)).
  - intros [[x Hx] Hq]. exists x. rewrite Hoth; [done|]. intros ->.
    unfold uview in Hx. rewrite Hc, Hu in Hx. rewrite Ec in Hx. simpl in Hx. congruence.
Qed.

(** A pointer that starts a slot of a region and is not granted is refused: a
    [CHECK] of [DeallocateRaw] fails. *)
Lemma DeallocateRaw_bad a b m p :
  Inv a -> slot (regions_ a) b m p -> (forall s r i, ~ Allocated a p s r i) ->
  DeallocateRawInternal p a = Aborts.
Proof.
  intros HI Hs Hno. pose proof (inv_main _ _ HI) as [[FL HC] _ _ _ _ _ _].
  destruct (RegionFor_slot _ _ _ _ (core_reg _ _ _ _ _ HC) Hs) as (j & rr & _ & _ & Hb & _ & Hr & _).
  destruct Hr as (Hp0 & _). pose proof Hs as (_ & Hrange & _).
  destruct (get_handle_slot _ _ _ _ (core_reg _ _ _ _ _ HC) Hs) as [h Hh].
  unfold DeallocateRawInternal. destruct (Z.eqb_spec p 0); [lia|].
  rewrite (st_bind_eq _ _ _ _ _ (rm_get_handle_eq _ _ _ Hh)). unfold kInvalidChunkHandle.
  destruct (Z.eqb_spec h (-1)) as [->|Hn]; [done|]. cbn [negb].
  rewrite (st_bind_eq (st_check true) _ _ _ _ eq_refl).
  destruct (at_live _ _ _ _ _ _ _ _ _ HC (conj Hs Hh) Hn) as (c & Hc & HB).
  assert (Hu : in_use c = false).
  { destruct (in_use c) eqn:Hu; [|done]. exfalso. apply (Hno (c_size c) (requested_size c) (allocation_id c)).
    exists h. unfold uview. rewrite Hc, Hu. by rewrite (bo_ptr _ _ _ _ _ _ _ HB). }
  unfold FreeAndMaybeCoalesce, ChunkFromHandle.
  rewrite (st_bind_eq _ _ _ c a). { by rewrite Hu. }
  rewrite (st_bind_eq st_get _ _ _ _ eq_refl). cbv beta. by rewrite Hc.
Qed.

(** ** The constructor *)

Lemma bin_checks_ok : forallb bin_checks (map Z.of_nat (seq 0 (Z.to_nat kNumBins))) = true.
Proof. vm_compute. reflexivity. Qed.

Definition new_bins : list Bin :=
  map (fun b => mkBin (BinNumToSize b) []) (map Z.of_nat (seq 0 (Z.to_nat kNumBins))).

Lemma new_core : Core [] [] new_bins (-1) [].
Proof.
  split; try done.
  - split; constructor.
  - intros b m p h [(Hin & _) _]. by apply not_elem_of_nil in Hin.
  - intros h c Hc. unfold zlookup in Hc. by destruct (h <? 0).
  - split; [done|]. intros i B HB. unfold new_bins, zlookup in HB. destruct (i <? 0); [done|].
    rewrite !list_lookup_fmap in HB. apply fmap_Some in HB as (? & _ & ->). split; [constructor|].
    simpl. intros h. split; [set_solver|]. intros (c & Hc & _). unfold zlookup in Hc. by destruct (h <? 0).
  - constructor.
  - intros h b m p Hin. by apply not_elem_of_nil in Hin.
Qed.

Lemma new_Inv sub total growth :
  0 <= total < 2 ^ 39 -> exists a, BFCAllocator_new sub total growth = Some a /\ Inv a /\ chunks_ a = [].
Proof.
  intros Ht. unfold BFCAllocator_new. rewrite bin_checks_ok. eexists. split; [done|]. split; [|done].
  split; cbn.
  - assert (Hnil : forall h, @zlookup Chunk [] h = None) by (intros h; unfold zlookup; by destruct (h <? 0)).
    split; [by exists []; apply new_core|..].
    + intros b m p h c _ Hc. by rewrite Hnil in Hc.
    + intros b m p h c d _ Hc. by rewrite Hnil in Hc.
    + by left.
    + split; [|..|done]; intros h; unfold uview; intros *; by rewrite Hnil.
    + done.
    + done.
  - lia.
  - unfold curr_ok. cbn.
    match goal with |- _ \/ ((256 | ?c) /\ _) => assert (total < 256 \/ ((256 | c) /\ 0 < c < 2 ^ 40)) as Hc end.
    { destruct growth; [pose proof (RoundedBytes_spec (Z.min total 1048576) ltac:(lia))
                       |pose proof (RoundedBytes_spec total ltac:(lia))];
        destruct (Z.lt_ge_cases total 256); (by left) || (right; intuition lia). }
    destruct Hc as [Hc|[? [? ?]]]; [left|right; split_and!; try done; by left].
    unfold avail. cbn. by rewrite Z.sub_0_r, Z.div_small by lia.
  - intros b m Hin. by apply not_elem_of_nil in Hin.
  - done.
Qed.

(** ** Visitors *)

Lemma AddAllocVisitor_spec a v :
  Inv a -> exists a', AddAllocVisitor v a = Done (tt, a') /\ Inv a' /\ same_blocks a a' /\
    region_visitors_ a' = region_visitors_ a ++ [v].
Proof.
  intros [H1 H2 H3 H4 H5]. eexists. split; [done|]. cbn. split; [|done]. split; try done. cbn.
  rewrite H5. unfold expected_visits, geom. rewrite bind_app. csimpl. rewrite app_nil_r.
  by rewrite <- list_fmap_compose.
Qed.

(** ** The granted blocks as a list *)

Definition block_of (c : Chunk) : option (Z * Z * Z * Z) :=
  if in_use c then Some (c_ptr c, c_size c, requested_size c, allocation_id c) else None.
Definition blocks a : list (Z * Z * Z * Z) := omap block_of (chunks_ a).

Lemma blocks_Allocated a p s r i : (p, s, r, i) ∈ blocks a <-> Allocated a p s r i.
Proof.
  unfold blocks, Allocated, uview. rewrite list_elem_of_omap. split.
  - intros (c & [j Hj]%list_elem_of_lookup & Hc). exists (Z.of_nat j). unfold zlookup.
    destruct (Z.ltb_spec (Z.of_nat j) 0); [lia|]. by rewrite Nat2Z.id, Hj.
  - intros [h Hh]. destruct (chunks_ a !!z h) as [c|] eqn:Hc; [|done]. exists c. split; [|done].
    unfold zlookup in Hc. destruct (h <? 0); [done|]. by eapply list_elem_of_lookup_2.
Qed.

Lemma wsum_blocks a : wsum used (chunks_ a) = foldr (fun b acc => b.1.1.2 + acc) 0 (blocks a).
Proof.
  unfold blocks, used, block_of. induction (chunks_ a) as [|c cs IH]; [done|]. simpl. rewrite IH.
  by destruct (in_use c).
Qed.

(** ** The states a client can reach

    The client frees only what it was granted, asks for at most [2^64 - 256]
    bytes and registers visitors at any time. The fuel of the model exceeds
    the number of iterations of every loop of [Extend] that terminates. *)
Inductive step : Allocator SA -> Allocator SA -> Prop :=
| step_alloc a a' fuel n p :
    0 <= n <= 2 ^ 64 - 256 -> 64 <= Z.of_nat fuel -> memory_limit_ a / 256 + 1 < Z.of_nat fuel ->
    AllocateRawInternal fuel n a = Done (p, a') -> step a a'
| step_dealloc a a' p :
    p = 0 \/ (exists s r i, Allocated a p s r i) ->
    DeallocateRawInternal p a = Done (tt, a') -> step a a'
| step_visitor a a' v :
    AddAllocVisitor v a = Done (tt, a') -> step a a'.

Inductive reachable : Allocator SA -> Prop :=
| reach_new sub total growth a :
    0 <= total < 2 ^ 39 -> BFCAllocator_new sub total growth = Some a -> reachable a
| reach_step a a' : reachable a -> step a a' -> reachable a'.

Lemma step_Inv a a' : Inv a -> step a a' -> Inv a'.
Proof.
  intros HI Hst. destruct Hst as [a a' fuel n p Hn Hf1 Hf2 E|a a' p Hp E|a a' v E].
  - destruct (decide (n = 0)) as [->|Hn0]; [by injection E as <- <-|].
    destruct (AllocateRaw_spec fuel a n HI ltac:(lia) Hf1 Hf2) as [(E' & _)|(p' & a2 & E' & HA)]; [congruence|].
    rewrite E in E'. injection E' as <- <-. apply HA.
  - destruct (decide (p = 0)) as [->|Hn0]; [by injection E as <-|].
    destruct Hp as [?|(s & r & i & HA)]; [done|].
    destruct (DeallocateRaw_spec a p s r i HI HA) as (a2 & E' & HD & _). rewrite E in E'. injection E' as <-. apply HD.
  - destruct (AddAllocVisitor_spec a v HI) as (a2 & E' & HD & _). rewrite E in E'. by injection E' as <-.
Qed.

Lemma reachable_Inv a : reachable a -> Inv a.
Proof.
  induction 1 as [sub total growth a Ht E|a a' _ IH Hst]; [|by eapply step_Inv].
  destruct (new_Inv sub total growth Ht) as (a' & E' & HI & _). congruence.
Qed.

(** What the allocator guarantees to its client in a state. *)
Record Sound a : Prop := {
  snd_inside : forall p s r i, Allocated a p s r i ->
    exists b k, (b, k) ∈ owned (suballocator_ a) /\ b <= p /\ p + s <= b + k /\ (256 | p - b) /\ 0 < r <= s;
  snd_disjoint : forall p s r i p' s' r' i', Allocated a p s r i -> Allocated a p' s' r' i' ->
    p + s <= p' \/ p' + s' <= p \/ (p, s, r, i) = (p', s', r', i');
  snd_ids : forall p s r i p' s' r', Allocated a p s r i -> Allocated a p' s' r' i -> p = p';
  snd_stats : bytes_in_use (stats_ a) = foldr (fun b acc => b.1.1.2 + acc) 0 (blocks a);
  snd_limit : bytes_in_use (stats_ a) <= total_region_allocated_bytes_ a <= memory_limit_ a;
  snd_coalesced : forall h c d, chunks_ a !!z h = Some c -> is_free c -> c_next c <> -1 ->
    chunks_ a !!z c_next c = Some d -> in_use d = true;
  snd_visits : visits a ≡ₚ expected_visits (region_visitors_ a) (geom (regions_ a))
}.

Lemma Allocated_disjoint a p s r i p' s' r' i' :
  Inv a -> Allocated a p s r i -> Allocated a p' s' r' i' ->
  p + s <= p' \/ p' + s' <= p \/ (p, s, r, i) = (p', s', r', i').
Proof.
  intros HI H1 H2. pose proof (inv_main _ _ HI) as [[FL HC] _ _ _ _ _ _].
  destruct (Allocated_at _ _ _ _ _ HI H1) as (h & c & b & m & Hc & _ & Hh & Ec & Hat & HB).
  destruct (Allocated_at _ _ _ _ _ HI H2) as (h' & c' & b' & m' & Hc' & _ & Hh' & Ec' & Hat' & HB').
  assert (Hs : c_size c = s) by (by rewrite Ec). assert (Hs' : c_size c' = s') by (by rewrite Ec').
  destruct (decide (p = p')) as [->|Hn].
  { right; right. pose proof (Allocated_fun _ _ _ _ _ _ _ _ HI H1 H2). congruence. }
  destruct (decide ((b, m) = (b', m'))) as [[= -> ->]|Hd].
  - pose proof (at_disjoint _ _ _ _ _ _ _ _ _ _ _ _ _ HC Hat Hat' Hh Hh' Hc Hc' Hn). lia.
  - destruct (region_disjoint _ _ _ _ _ (core_reg _ _ _ _ _ HC) (proj1 (proj1 Hat)) (proj1 (proj1 Hat')) Hd);
      pose proof (bo_fits _ _ _ _ _ _ _ HB); pose proof (bo_fits _ _ _ _ _ _ _ HB');
      destruct Hat as [(_ & ? & _) _], Hat' as [(_ & ? & _) _]; lia.
Qed.

Lemma Inv_Sound a : Inv a -> Sound a.
Proof.
  intros HI. pose proof (inv_main _ _ HI) as HM. pose proof HM as [[FL HC] Hbin Hcoal _ Hids Hused Htot].
  split.
  - intros p s r i HA. destruct (Allocated_at _ _ _ _ _ HI HA) as (h & c & b & m & Hc & _ & _ & Ec & Hat & HB).
    pose proof Hat as [(Hin & Hr & Hd) _]. destruct (inv_owns _ _ HI _ _ Hin) as (k & Hk & Ho).
    pose proof (bo_fits _ _ _ _ _ _ _ HB). assert (c_size c = s) by (by rewrite Ec).
    destruct HA as [x Hx]. pose proof (proj1 (ids_ok _ _ Hids _ _ _ _ _ Hx)).
    exists b, k. split_and!; try done; lia.
  - intros. by eapply Allocated_disjoint.
  - intros p s r i p' s' r' [x Hx] [y Hy]. pose proof (ids_inj _ _ Hids _ _ _ _ _ _ _ _ _ Hx Hy). congruence.
  - by rewrite Hused, wsum_blocks.
  - pose proof (used_pos _ _ _ _ _ HC). rewrite lsz_m1 in Htot. pose proof (inv_limit _ _ HI). lia.
  - intros h c d Hc Hf Hn Hd. destruct (binned_facts _ _ _ _ HC Hc Hf) as ((b & m & Hat) & Hu & _).
    destruct (in_use d) eqn:Hud; [done|]. destruct (Hcoal _ _ _ _ _ _ Hat Hc Hu Hn Hd Hud) as [E|E]; [apply zlookup_range in Hc; lia|done].
  - apply HI.
Qed.

(** ** The backpedal loop that does not end *)

Lemma RoundedBytes_lower k b : 0 <= b <= 2 ^ 64 - 256 -> (256 | k) -> k - 256 < b -> k <= RoundedBytes b.
Proof.
  intros Hb [j ->] Hk. destruct (RoundedBytes_spec b Hb) as [[i Hi] Hr]. lia.
Qed.

Lemma backpedal_keeps R b :
  (256 | b) -> (256 | R) -> 0 < R < 2304 -> R < b < 2 ^ 63 ->
  (256 | RoundedBytes (MulBackpedal b)) /\ R < RoundedBytes (MulBackpedal b) < 2 ^ 63.
Proof.
  intros Hb HR HR1 Hlt. assert (256 <= b) by (destruct Hb; lia).
  destruct (backpedal_step b Hb ltac:(lia)) as (Hd & Hle & _). split; [done|]. split; [|lia].
  pose proof (MulBackpedal_bounds b ltac:(lia)) as Hm. pose proof (MulBackpedal_le b ltac:(lia)).
  assert (Hn : R + 256 <= Z.min b 2304) by (destruct Hb, HR; lia).
  enough (Z.min b 2304 <= RoundedBytes (MulBackpedal b)) by lia.
  apply RoundedBytes_lower; [lia| |lia].
  destruct (Z.min_spec b 2304) as [[_ ->]|[_ ->]]; [done|by exists 9].
Qed.

Lemma Backpedal_diverges fuel R : forall a b,
  (forall s k, refused s k) -> (256 | b) -> (256 | R) -> 0 < R < 2304 -> R < b < 2 ^ 63 ->
  Backpedal fuel R 0 b a = Diverges.
Proof.
  induction fuel as [|f IH]; intros a b Href Hb HR HR1 Hlt; [done|]. cbn [Backpedal].
  rewrite Z.eqb_refl. destruct (Z.ltb_spec R b); [|lia]. cbn [andb].
  unfold SubAlloc. rewrite (st_bind_eq _ _ _ 0 (set_sub (sa_alloc (suballocator_ a) 32 b).2 a)).
  - destruct (backpedal_keeps R b Hb HR HR1 Hlt). by apply IH.
  - unfold st_bind, st_get, st_modify, st_ret. pose proof (Href (suballocator_ a) b) as Hr. unfold refused in Hr.
    destruct (sa_alloc (suballocator_ a) 32 b) as [p s']. simpl in *. by rewrite Hr.
Qed.

Lemma Extend_diverges fuel R a :
  Inv a -> (256 | R) -> 0 < R < 2304 -> R < avail a -> R < curr_region_allocation_bytes_ a ->
  started_backpedal_ a = false -> (forall s k, refused s k) ->
  Extend fuel R a = Diverges.
Proof.
  intros HI HdR HR Hav Hcu Hst Href. destruct (avail_bounds owned a HI) as (Hav1 & Hav2 & Hav3).
  pose proof HI as [_ [Hl Ht] Hc _ _].
  unfold Extend. rewrite (st_bind_eq st_get _ _ _ _ eq_refl). rewrite kMin_eq.
  rewrite (u64_id (memory_limit_ a - _)) by lia. fold (avail a). rewrite (u64_id (avail a)) by lia.
  destruct (Z.ltb_spec (avail a) R); [lia|].
  destruct Hc as [?|(Hd & Hp & Hb)]; [lia|].
  destruct fuel as [|k]; [done|]. cbn [GrowRegion].
  destruct (Z.ltb_spec (curr_region_allocation_bytes_ a) R); [lia|].
  rewrite (st_bind_eq (st_outcome _) _ _ (curr_region_allocation_bytes_ a, false) a) by done.
  cbv beta iota zeta. rewrite (st_bind_eq (st_modify _) _ _ _ _ eq_refl).
  set (bytes := Z.min (curr_region_allocation_bytes_ a) (avail a)).
  assert (Hby : (256 | bytes) /\ R < bytes < 2 ^ 63).
  { split; [|unfold bytes; lia]. unfold bytes.
    destruct (Z.min_spec (curr_region_allocation_bytes_ a) (avail a)) as [[_ ->]|[_ ->]]; done. }
  apply st_bind_div. unfold AllocRegion. set (a1 := set_curr _ _).
  assert (E : SubAlloc bytes a1 = Done (0, set_sub (sa_alloc (suballocator_ a) 32 bytes).2 a1)).
  { unfold SubAlloc, st_bind, st_get, st_modify, st_ret. pose proof (Href (suballocator_ a) bytes) as Hr. unfold refused in Hr.
    cbn in *. destruct (sa_alloc (suballocator_ a) 32 bytes) as [p s']. simpl in *. by rewrite Hr. }
  rewrite (st_bind_eq _ _ _ _ _ E), (st_bind_eq st_get _ _ _ _ eq_refl). cbn [started_backpedal_ a1 set_sub set_curr].
  rewrite Hst. cbn [Z.eqb andb negb]. rewrite (st_bind_eq (st_modify _) _ _ _ _ eq_refl).
  destruct (backpedal_keeps R bytes (proj1 Hby) HdR HR (proj2 Hby)) as [Hk1 Hk2]. by apply Backpedal_diverges.
Qed.

(** ** The properties *)

(** C13: In every state a client can reach, the blocks it holds are inside
    regions obtained from the sub-allocator, aligned to 256 bytes from the
    region's start, pairwise disjoint and under distinct allocation ids; the
    statistics count exactly these blocks; free neighbours are always merged;
    every visitor has seen every region exactly once. *)
Theorem BFC_reachable_sound a : reachable a -> Sound a.
Proof. intros H. by apply Inv_Sound, reachable_Inv. Qed.

(** C29: [AllocateRaw] of [n] bytes grants a block of at least [RoundedBytes n]
    bytes and less than twice that (or exactly that), under a fresh id, and
    leaves every other block alone; it returns null only when no free chunk is
    large enough and either the memory limit leaves no room or the
    sub-allocator refused a sufficient region. It never aborts; it fails to
    return only in the backpedal loop, for requests below 2304 bytes. *)
Theorem BFC_AllocateRaw_correct fuel a n :
  reachable a -> 0 < n <= 2 ^ 64 - 256 -> 64 <= Z.of_nat fuel -> memory_limit_ a / 256 + 1 < Z.of_nat fuel ->
  (AllocateRawInternal fuel n a = Diverges /\ started_backpedal_ a = false /\ RoundedBytes n < 2304) \/
  (exists p a', AllocateRawInternal fuel n a = Done (p, a') /\ alloc_post a n p a').
Proof. intros H. apply AllocateRaw_spec. by apply reachable_Inv. Qed.

(** C19: [DeallocateRaw] of a granted pointer never aborts, removes exactly that
    block, and the same pointer freed a second time is refused: a [CHECK]
    fails, whatever the chunk was merged into. *)
Theorem BFC_DeallocateRaw_correct a p s r i :
  reachable a -> Allocated a p s r i ->
  exists a', DeallocateRawInternal p a = Done (tt, a') /\ dealloc_post a p a' /\
    DeallocateRawInternal p a' = Aborts.
Proof.
  intros HI%reachable_Inv HA. destruct (DeallocateRaw_spec a p s r i HI HA) as (a' & E & [HI' HD] & Hg).
  exists a'. split_and!; [done|done|].
  destruct (Allocated_at _ _ _ _ _ HI HA) as (h & c & b & m & _ & _ & _ & _ & [(Hin & Hr) _] & _).
  apply (DeallocateRaw_bad a' b m p HI'); [split; [by rewrite Hg|done]|].
  intros s' r' i' [_ Hne]%HD. done.
Qed.

(** The search of the bins is a best fit: it finds the smallest free chunk
    that is large enough and, of these, the one at the lowest address; it finds
    none only when there is none. *)
Theorem BFC_FindChunkPtr_best_fit a n :
  reachable a -> 0 < n <= 2 ^ 64 - 256 ->
  wp (FindChunkPtr (BinNumForSize (RoundedBytes n)) (RoundedBytes n) n) a (fun p a' =>
    (p = 0 /\ a' = a /\ no_fit (chunks_ a) is_free (RoundedBytes n)) \/
    (p <> 0 /\ exists h c, best_fit (chunks_ a) is_free (RoundedBytes n) h c /\ p = c_ptr c)).
Proof.
  intros HI%reachable_Inv Hn. destruct (RoundedBytes_spec n ltac:(lia)) as [Hd Hr].
  pose proof (inv_limit _ _ HI). assert (RoundedBytes n < 2 ^ 64) by apply u64_range.
  eapply wp_mono; [apply FindChunkPtr_wp; [apply HI|lia|done|lia|done]|]. cbv beta.
  intros p a' [H'|(Hp & h & c & Hb & E & _)]; [by left|right; eauto].
Qed.

(** When the sub-allocator refuses every request and no free chunk fits, the first
    request of fewer than 2304 rounded bytes, which are fewer than what is
    available and than the next region, never returns: the backpedal multiplies by
    0.9 and rounds up to 256 bytes, which has fixed points. *)
Theorem BFC_backpedal_never_ends fuel a n :
  reachable a -> 0 < n -> RoundedBytes n < 2304 -> n <= 2304 -> started_backpedal_ a = false ->
  (forall s k, refused s k) -> no_fit (chunks_ a) is_free (RoundedBytes n) ->
  RoundedBytes n < avail a -> RoundedBytes n < curr_region_allocation_bytes_ a ->
  AllocateRawInternal fuel n a = Diverges.
Proof.
  intros HI%reachable_Inv Hn HR Hn2 Hst Href Hno Hav Hcu.
  destruct (RoundedBytes_spec n ltac:(lia)) as [Hd Hr].
  unfold AllocateRawInternal. destruct (Z.eqb_spec n 0); [lia|]. cbv zeta. pose proof (inv_limit _ _ HI).
  destruct (proj1 (wp_Done _ _ _) (FindChunkPtr_wp a (RoundedBytes n) n (inv_main _ _ HI) ltac:(lia) Hd ltac:(lia) ltac:(lia)))
    as (p & a1 & E & [(-> & -> & _)|(_ & h & c & (Hc & Hf & Hs & _) & _)]).
  - rewrite (st_bind_eq _ _ _ _ _ E). cbn [Z.eqb negb]. apply st_bind_div, Extend_diverges; try done. lia.
  - pose proof (Hno _ _ Hc Hf). lia.
Qed.

(** The constructor's [CHECK]s on the bins hold, it succeeds for every
    memory size below [2^39] bytes, in a state with no granted block; and the
    bin of a size is the one whose range of sizes contains it (the last bin
    being unbounded). *)
Theorem BFC_constructor sub total growth :
  0 <= total < 2 ^ 39 ->
  (exists a, BFCAllocator_new sub total growth = Some a /\ reachable a /\ blocks a = [] /\
     GetStats a = Done (mkStats 0 0 0 0 total, a)) /\
  (forall n, 256 <= n < 2 ^ 64 -> let b := BinNumForSize n in
     0 <= b < kNumBins /\ BinNumToSize b <= n /\ (b < kNumBins - 1 -> n < BinNumToSize (b + 1))).
Proof.
  intros Ht. split.
  - destruct (new_Inv sub total growth Ht) as (a & E & _ & Hnil). exists a.
    split; [done|]. split; [by eapply reach_new|]. split; [unfold blocks; by rewrite Hnil|].
    unfold BFCAllocator_new in E. rewrite bin_checks_ok in E. injection E as <-.
    unfold GetStats, st_bind, st_get, st_ret. cbn. by rewrite s64_id by lia.
  - intros n Hn b. pose proof (BinNumForSize_range n ltac:(lia)). split; [done|].
    unfold b. rewrite BinNumForSize_eq by lia. unfold kNumBins, BinNumToSize.
    rewrite Z.max_l by lia. pose proof (Z.log2_spec (n / 256)) as Hlog.
    assert (1 <= n / 256) by (apply Z.div_le_lower_bound; lia). specialize (Hlog ltac:(lia)).
    pose proof (Z.div_mod n 256 ltac:(lia)). pose proof (Z.mod_pos_bound n 256 ltac:(lia)).
    assert (Hsh : forall k, 0 <= k <= 20 -> u64 (Z.shiftl 256 k) = 256 * 2 ^ k).
    { intros k Hk. rewrite Z.shiftl_mul_pow2 by lia. apply u64_id.
      pose proof (Z.pow_le_mono_r 2 k 20). pose proof (Z.pow_pos_nonneg 2 k). lia. }
    set (l := Z.log2 (n / 256)) in *. assert (0 <= l) by apply Z.log2_nonneg.
    split.
    + rewrite Hsh by lia. pose proof (Z.pow_le_mono_r 2 (20 `min` l) l). lia.
    + intros Hl. rewrite Z.min_r in * by lia. rewrite Hsh by lia.
      rewrite <- Z.add_1_r in Hlog. lia.
Qed.

End Api.

(** ** Concrete sub-allocators

    [bump] hands out consecutive regions from address 4096; [refuse] never
    hands out any. *)

Definition bump_owned (s : list (Z * Z)) : list (Z * Z) := s.
#[export] Instance bump : SubAllocator (list (Z * Z)) := {|
  sa_alloc s al n :=
    let p := foldr (fun r acc => Z.max (r.1 + r.2) acc) 4096 s in
    if p + n <? 2 ^ 64 then (p, (p, n) :: s) else (0, s)
|}.
#[export] Instance bump_laws : SubAllocatorLaws (list (Z * Z)) bump_owned.
Proof.
  intros s n p s' Hn. simpl. set (q := foldr _ _ s).
  assert (Hq : 4096 <= q /\ forall b k, (b, k) ∈ s -> b + k <= q).
  { unfold q. clear q. induction s as [|[b k] s [IH1 IH2]]; simpl; [split; [lia|set_solver]|].
    split; [lia|]. intros b' k' [[= -> ->]|H]%elem_of_cons; [lia|]. specialize (IH2 _ _ H). lia. }
  destruct (Z.ltb_spec (q + n) (2 ^ 64)); intros [= <- <-]; [right|by left].
  split_and!; try done; try lia. intros b k Hin. right. by apply Hq.
Qed.
Definition refuse_owned (s : unit) : list (Z * Z) := [].
#[export] Instance refuse : SubAllocator unit := {| sa_alloc s al n := (0, s) |}.
#[export] Instance refuse_laws : SubAllocatorLaws unit refuse_owned.
Proof. intros s n p s' Hn [= <- <-]. by left. Qed.

Definition run {A S} (o : outcome (A * Allocator S)) : option (Allocator S) :=
  match o with Done (_, a) => Some a | _ => None end.
Definition bump0 : option (Allocator (list (Z * Z))) := BFCAllocator_new [] 1048576 true.
Definition bump1 : option (Allocator (list (Z * Z))) :=
  a ← bump0; run (AllocateRawInternal 4098 1000 a).

Lemma bump1_ok : exists a0 a, bump0 = Some a0 /\ bump1 = Some a /\
  reachable a0 /\ reachable a /\ Allocated a 4096 1024 1000 1.
Proof.
  destruct bump0 as [a0|] eqn:E0; [|vm_compute in E0; discriminate].
  assert (H0 : reachable a0) by (apply (reach_new [] 1048576 true); [lia|exact E0]).
  unfold bump1. rewrite E0. cbn [mbind option_bind].
  destruct (AllocateRawInternal 4098 1000 a0) as [[p a]| |] eqn:E1;
    vm_compute in E0; injection E0 as <-; vm_compute in E1; try discriminate.
  injection E1 as <- <-. eexists _, _. split_and!; [reflexivity|reflexivity|done| |].
  - eapply reach_step; [exact H0|]. apply (step_alloc _ _ 4098 1000 4096); [lia|lia| |vm_compute; reflexivity].
    vm_compute. reflexivity.
  - exists 0. vm_compute. reflexivity.
Qed.

Lemma BFC_reachable_sound_witness : exists a, bump1 = Some a /\ Sound bump_owned a.
Proof.
  destruct bump1_ok as (a0 & a & _ & E & _ & H & _). exists a. split; [exact E|].
  exact (BFC_reachable_sound bump_owned a H).
Defined.

Lemma BFC_AllocateRaw_correct_witness : exists a, bump1 = Some a /\
  ((AllocateRawInternal 4098 5000 a = Diverges /\ started_backpedal_ a = false /\ RoundedBytes 5000 < 2304) \/
   (exists p a', AllocateRawInternal 4098 5000 a = Done (p, a') /\ alloc_post bump_owned a 5000 p a')).
Proof.
  destruct bump1_ok as (a0 & a & E0 & E & _ & H & _). exists a. split; [exact E|].
  apply (BFC_AllocateRaw_correct bump_owned); [exact H|lia|lia|].
  vm_compute in E. injection E as <-. vm_compute. reflexivity.
Defined.

Lemma BFC_DeallocateRaw_correct_witness : exists a a', bump1 = Some a /\
  DeallocateRawInternal 4096 a = Done (tt, a') /\ dealloc_post bump_owned a 4096 a' /\
  DeallocateRawInternal 4096 a' = Aborts.
Proof.
  destruct bump1_ok as (a0 & a & _ & E & _ & H & HA). exists a.
  destruct (BFC_DeallocateRaw_correct bump_owned a 4096 1024 1000 1 H HA) as (a' & HD). exists a'. exact (conj E HD).
Defined.

Lemma BFC_FindChunkPtr_best_fit_witness : exists a, bump1 = Some a /\
  wp (FindChunkPtr (BinNumForSize (RoundedBytes 300)) (RoundedBytes 300) 300) a (fun p a' =>
    (p = 0 /\ a' = a /\ no_fit (chunks_ a) is_free (RoundedBytes 300)) \/
    (p <> 0 /\ exists h c, best_fit (chunks_ a) is_free (RoundedBytes 300) h c /\ p = c_ptr c)).
Proof.
  destruct bump1_ok as (a0 & a & _ & E & _ & H & _). exists a. split; [exact E|].
  apply (BFC_FindChunkPtr_best_fit bump_owned a 300 H). lia.
Defined.

Lemma BFC_backpedal_never_ends_witness : exists a : Allocator unit,
  BFCAllocator_new tt 1048576 true = Some a /\ forall fuel, AllocateRawInternal fuel 1000 a = Diverges.
Proof.
  destruct (BFCAllocator_new tt 1048576 true) as [a|] eqn:E; [|vm_compute in E; discriminate].
  assert (H : reachable a) by (apply (reach_new tt 1048576 true); [lia|exact E]).
  exists a. split; [done|]. intros fuel. vm_compute in E. injection E as <-.
  apply (BFC_backpedal_never_ends refuse_owned); [exact H|lia|reflexivity|lia|reflexivity|intros; reflexivity| |reflexivity|reflexivity].
  intros x d Hx. unfold zlookup in Hx. by destruct (x <? 0).
Defined.

Lemma BFC_constructor_witness :
  (exists a : Allocator (list (Z * Z)), BFCAllocator_new [] 1048576 true = Some a /\
     reachable a /\ blocks a = [] /\ GetStats a = Done (mkStats 0 0 0 0 1048576, a)) /\
  (forall n, 256 <= n < 2 ^ 64 -> let b := BinNumForSize n in
     0 <= b < kNumBins /\ BinNumToSize b <= n /\ (b < kNumBins - 1 -> n < BinNumToSize (b + 1))).
Proof. apply (BFC_constructor bump_owned); lia. Defined.
End BFCApi.
