(* ===== verification/FifoQueue.v ===== *)
(** * FIFO queue kernels

    [QueueBase] ([core/kernels/queue_base.{h,cc}]), [TypedQueue]
    ([typed_queue.h]), [FIFOQueue] ([fifo_queue.{h,cc}]) and the kernels that
    call them ([queue_ops.cc]): the code under [mu_], as actions on the state of
    the queue. A callback that is stored is a constructor with what it captures.
    The threads around these critical sections are in [FifoQueueThreads]. *)
From stdpp Require Import gmap.
From S2P Require Import Prelude Status Numbers DataTypes TensorShape.
Import Status Numbers DataTypes TensorShape.
Open Scope Z_scope.

Module FifoQueue.

(** ** Data types and tensors *)

Definition DT_FLOAT : Z := 1.
Definition ShapeListString (shapes : list TensorShape) : list Z := bytes_of "[" ++ Join (map DebugString shapes) (bytes_of ", ") ++ bytes_of "]".
(** The types of the [HANDLE_TYPE] lists. *)
Definition handled_types : list Z := [1; 19; 2; 3; 4; 5; 6; 7; 8; 18; 9; 10; 11; 12; 13; 15; 16].

(** A tensor: its type, its shape and the elements of its buffer, in row-major
    order. *)
Record Tensor (V : Type) := mkTensor { dtype : Z; shape : TensorShape; flat : list V }.
Arguments mkTensor {V} _ _ _.
Arguments dtype {V} _.
Arguments shape {V} _.
Arguments flat {V} _.
Abbreviation Tuple V := (list (Tensor V)).

(** What a queue is built with and what it runs on: the constant members of
    [QueueBase]; the contents of a new buffer; whether the n-th allocation
    succeeds; the cancellation manager of a context. *)
Class QueueEnv (V : Type) := mkQueueEnv {
  capacity_ : Z;
  component_dtypes_ : list Z;
  component_shapes_ : list TensorShape;
  name_ : list Z;
  uninitialized : V;
  allocates : nat -> bool;
  cancellation_manager : nat -> nat
}.

(** ** The state *)

Inductive Action := kEnqueue | kDequeue.
Inductive RunResult := kNoProgress | kProgress | kComplete.
#[global] Instance Action_eq_dec : EqDecision Action.
Proof. solve_decision. Defined.
#[global] Instance RunResult_eq_dec : EqDecision RunResult.
Proof. solve_decision. Defined.
Definition kInvalidToken : Z := -1.
Definition kUnbounded : Z := 2 ^ 31 - 1.

(** A [DoneCallback]: the callback of an operation, called with nothing, or
    with a tuple bound to it. *)
Inductive DoneCallback (V : Type) := Plain (callback : nat) | WithTuple (callback : nat) (tuple : Tuple V).
Arguments Plain {V} _.
Arguments WithTuple {V} _ _.
(** The run callbacks, with what they capture. *)
Inductive RunCallback (V : Type) :=
| CloseRun
| EnqueueRun (tuple : Tuple V)
| EnqueueManyRun (tuple : Tuple V)
| DequeueRun (callback : nat)
| DequeueManyRun (callback : nat) (allow_small_batch : bool).
Arguments CloseRun {V}.
Arguments EnqueueRun {V} _.
Arguments EnqueueManyRun {V} _.
Arguments DequeueRun {V} _.
Arguments DequeueManyRun {V} _ _.

(** A context is named by a number; [None] in [done_callback] is an empty
    [std::function], [None] in [manager] a null pointer. *)
Record Attempt (V : Type) := mkAttempt {
  elements_requested : Z;
  done_callback : option (DoneCallback V);
  context : nat;
  manager : option nat;
  cancellation_token : Z;
  run_callback : RunCallback V;
  is_cancelled : bool;
  tuple : Tuple V
}.
Arguments mkAttempt {V} _ _ _ _ _ _ _ _.
Arguments elements_requested {V} _.
Arguments done_callback {V} _.
Arguments context {V} _.
Arguments manager {V} _.
Arguments cancellation_token {V} _.
Arguments run_callback {V} _.
Arguments is_cancelled {V} _.
Arguments tuple {V} _.
Definition new_Attempt {V} (n : Z) (done : DoneCallback V) (ctx : nat) (cm : option nat) (token : Z) (run : RunCallback V) : Attempt V :=
  mkAttempt n (Some done) ctx cm token run false [].
Definition with_requested {V} (n : Z) (a : Attempt V) : Attempt V :=
  mkAttempt n (done_callback a) (context a) (manager a) (cancellation_token a) (run_callback a) (is_cancelled a) (tuple a).
Definition with_done {V} (d : option (DoneCallback V)) (a : Attempt V) : Attempt V :=
  mkAttempt (elements_requested a) d (context a) (manager a) (cancellation_token a) (run_callback a) (is_cancelled a) (tuple a).
Definition with_tuple {V} (t : Tuple V) (a : Attempt V) : Attempt V :=
  mkAttempt (elements_requested a) (done_callback a) (context a) (manager a) (cancellation_token a) (run_callback a) (is_cancelled a) t.
(** Cancelled, its callback swapped out. *)
Definition cancelled {V} (a : Attempt V) : Attempt V :=
  mkAttempt (elements_requested a) None (context a) (manager a) (cancellation_token a) (run_callback a) true (tuple a).

(** [queues_]: a deque per component. [statuses]: [status_] of the contexts;
    [allocations]: the allocations made so far. *)
Record Queue (V : Type) := mkQueue {
  closed_ : bool;
  queues_ : list (list (Tensor V));
  enqueue_attempts_ : list (Attempt V);
  dequeue_attempts_ : list (Attempt V);
  statuses : gmap nat Status;
  allocations : nat
}.
Arguments mkQueue {V} _ _ _ _ _ _.
Arguments closed_ {V} _.
Arguments queues_ {V} _.
Arguments enqueue_attempts_ {V} _.
Arguments dequeue_attempts_ {V} _.
Arguments statuses {V} _.
Arguments allocations {V} _.

Definition with_closed {V} (b : bool) (q : Queue V) : Queue V :=
  mkQueue b (queues_ q) (enqueue_attempts_ q) (dequeue_attempts_ q) (statuses q) (allocations q).
Definition with_queues {V} (l : list (list (Tensor V))) (q : Queue V) : Queue V :=
  mkQueue (closed_ q) l (enqueue_attempts_ q) (dequeue_attempts_ q) (statuses q) (allocations q).
Definition with_statuses {V} (m : gmap nat Status) (q : Queue V) : Queue V :=
  mkQueue (closed_ q) (queues_ q) (enqueue_attempts_ q) (dequeue_attempts_ q) m (allocations q).
Definition with_allocations {V} (n : nat) (q : Queue V) : Queue V :=
  mkQueue (closed_ q) (queues_ q) (enqueue_attempts_ q) (dequeue_attempts_ q) (statuses q) n.
(** The deque of an action. *)
Definition attempts {V} (action : Action) (q : Queue V) : list (Attempt V) :=
  match action with kEnqueue => enqueue_attempts_ q | kDequeue => dequeue_attempts_ q end.
Definition with_attempts {V} (action : Action) (l : list (Attempt V)) (q : Queue V) : Queue V :=
  match action with
  | kEnqueue => mkQueue (closed_ q) (queues_ q) l (dequeue_attempts_ q) (statuses q) (allocations q)
  | kDequeue => mkQueue (closed_ q) (queues_ q) (enqueue_attempts_ q) l (statuses q) (allocations q)
  end.
Definition status_of {V} (q : Queue V) (ctx : nat) : Status := default OK (statuses q !! ctx).

Section Kernels.
Context {V : Type} {E : QueueEnv V}.
Abbreviation Q := (ST (Queue V)).

(** [OpKernelContext::SetStatus] and [status]. *)
Definition SetStatus (ctx : nat) (s : Status) : Q unit :=
  st_modify (fun q => with_statuses (<[ctx := Update (status_of q ctx) s]> (statuses q)) q).
Definition status (ctx : nat) : Q Status := let! q := st_get in st_ret (status_of q ctx).

(** ** Tensors *)

Definition NumElements (t : Tensor V) : Z := num_elements (shape t).
(** The default constructor, of shape [[0]]. *)
Definition empty_shape : TensorShape := mkShape (Rep16 [0]) 1 DT_INVALID 0.
Definition new_Tensor : Tensor V := mkTensor DT_FLOAT empty_shape [].
(** [OpKernelContext::allocate_tensor]: a status and the tensor, when there is
    memory for it. *)
Definition allocate_tensor (type : Z) (sh : TensorShape) : Q (Status * option (Tensor V)) :=
  let! q := st_get in
  st_modify (with_allocations (S (allocations q))) ;;;
  if allocates (allocations q) then st_ret (OK, Some (mkTensor type sh (replicate (Z.to_nat (num_elements sh)) uninitialized)))
  else st_ret (Error RESOURCE_EXHAUSTED (bytes_of "OOM when allocating tensor with shape" ++ DebugString sh), None).

(** Row [index] of [flat_outer_dims], a matrix with a row per index of the first
    dimension; [None] when it is out of range. *)
Definition row_size (parent : Tensor V) (dim0 : Z) : Z := NumElements parent / dim0.
Definition chip (parent : Tensor V) (dim0 index : Z) : option (list V) :=
  if (0 <=? index) && (index <? dim0) then
    Some (take (Z.to_nat (row_size parent dim0)) (drop (Z.to_nat (row_size parent dim0 * index)) (flat parent)))
  else None.
Definition set_chip (parent : Tensor V) (dim0 index : Z) (row : list V) : option (Tensor V) :=
  if (0 <=? index) && (index <? dim0) then
    Some (mkTensor (dtype parent) (shape parent)
      (take (Z.to_nat (row_size parent dim0 * index)) (flat parent) ++ row ++ drop (Z.to_nat (row_size parent dim0 * (index + 1))) (flat parent)))
  else None.
Definition slice_mismatch (handler : String.string) (element parent : Tensor V) : option Status :=
  match RemoveDim 0 (shape parent) with
  | Some chip_shape => Some (Internal (bytes_of handler ++ bytes_of " Cannot copy slice: number of elements does not match.  Shapes are: [element]: " ++
      DebugString (shape element) ++ bytes_of ", [parent slice]: " ++ DebugString chip_shape))
  | None => None
  end.
(** [None]: a dimension that is not there, a division by zero, a row out of
    range or a buffer of another type. *)
Definition HandleSliceToElement (parent element : Tensor V) (index : Z) : option (Status * Tensor V) :=
  match dim_size (shape parent) 0 with
  | Some dim0 =>
      if dim0 =? 0 then None
      else if negb (NumElements element =? row_size parent dim0) then
        match slice_mismatch "HandleSliceToElement" element parent with Some s => Some (s, element) | None => None end
      else if negb (dtype element =? dtype parent) then None
      else match chip parent dim0 index with Some row => Some (OK, mkTensor (dtype element) (shape element) row) | None => None end
  | None => None
  end.
Definition HandleElementToSlice (element parent : Tensor V) (index : Z) : option (Status * Tensor V) :=
  match dim_size (shape parent) 0 with
  | Some dim0 =>
      if dim0 =? 0 then None
      else if negb (NumElements element =? row_size parent dim0) then
        match slice_mismatch "HandleElementToSlice" element parent with Some s => Some (s, parent) | None => None end
      else if negb (dtype parent =? dtype element) then None
      else match set_chip parent dim0 index (flat element) with Some parent' => Some (OK, parent') | None => None end
  | None => None
  end.
Definition CopySliceToElement (parent element : Tensor V) (index : Z) : option (Status * Tensor V) :=
  if bool_decide (dtype parent ∈ handled_types) then HandleSliceToElement parent element index
  else Some (Unimplemented (bytes_of "CopySliceToElement Unhandled data type: " ++ FastInt64ToBufferLeft (dtype parent)), element).
Definition CopyElementToSlice (element parent : Tensor V) (index : Z) : option (Status * Tensor V) :=
  if bool_decide (dtype element ∈ handled_types) then HandleElementToSlice element parent index
  else Some (Unimplemented (bytes_of "CopyElementToSlice Unhandled data type: " ++ FastInt64ToBufferLeft (dtype element)), parent).

(** ** Validation of the inputs *)

Definition num_components : Z := s32 (zlength component_dtypes_).
Definition specified_shapes : bool := 0 <? zlength component_shapes_.
(** [[batch_size] + component_shapes_[i]] *)
Definition ManyOutShape (i : nat) (batch_size : Z) : option TensorShape :=
  match component_shapes_ !! i, TensorShape_of [batch_size] with
  | Some component_shape, Some s => AppendShape component_shape s
  | _, _ => None
  end.

(** A loop over the components that returns the first error. *)
Fixpoint validate_from (check : nat -> Tensor V -> option Status) (i : nat) (tuple : Tuple V) : option Status :=
  match tuple with
  | [] => Some OK
  | t :: tuple' => match check i t with Some s => if ok s then validate_from check (S i) tuple' else Some s | None => None end
  end.
Definition check_dtype (i : nat) (t : Tensor V) : option Status :=
  match component_dtypes_ !! i with
  | Some d =>
      if dtype t =? d then Some OK
      else match DataTypeString d, DataTypeString (dtype t) with
           | Some a, Some b => Some (InvalidArgument (bytes_of "Type mismatch in tuple component " ++ FastInt64ToBufferLeft (Z.of_nat i) ++ bytes_of ". Expected " ++ a ++ bytes_of ", got " ++ b))
           | _, _ => None
           end
  | None => None
  end.
Definition ValidateTupleCommon (tuple : Tuple V) : option Status :=
  if negb (zlength tuple =? u64 num_components) then
    Some (InvalidArgument (bytes_of "Wrong number of components in tuple. Expected " ++ FastInt64ToBufferLeft num_components ++ bytes_of ", got " ++ FastInt64ToBufferLeft (zlength tuple)))
  else validate_from check_dtype 0 tuple.
Definition check_shape (i : nat) (expected : option TensorShape) (t : Tensor V) : option Status :=
  match expected with
  | Some e =>
      if IsSameSize e (shape t) then Some OK
      else Some (InvalidArgument (bytes_of "Shape mismatch in tuple component " ++ FastInt64ToBufferLeft (Z.of_nat i) ++ bytes_of ". Expected " ++ DebugString e ++
        bytes_of ", got " ++ DebugString (shape t)))
  | None => None
  end.
Definition ValidateTuple (tuple : Tuple V) : option Status :=
  match ValidateTupleCommon tuple with
  | Some s => if negb (ok s) then Some s
              else if specified_shapes then validate_from (fun i => check_shape i (component_shapes_ !! i)) 0 tuple else Some OK
  | None => None
  end.
Definition check_batch (batch_size : Z) (i : nat) (t : Tensor V) : option Status :=
  match dim_size (shape t) 0 with
  | Some d =>
      if d =? batch_size then Some OK
      else Some (InvalidArgument (bytes_of "All input tensors must have the same size in the 0th dimension. Component " ++ FastInt64ToBufferLeft (Z.of_nat i) ++
        bytes_of " has " ++ FastInt64ToBufferLeft d ++ bytes_of ", and should have " ++ FastInt64ToBufferLeft batch_size))
  | None => None
  end.
Definition batch_size_of (tuple : Tuple V) : option Z :=
  match tuple !! 0%nat with Some t => dim_size (shape t) 0 | None => None end.
Definition ValidateManyTuple (tuple : Tuple V) : option Status :=
  match ValidateTupleCommon tuple with
  | Some s =>
      if negb (ok s) then Some s else
      match batch_size_of tuple with
      | Some batch_size =>
          if specified_shapes then validate_from (fun i => check_shape i (ManyOutShape i batch_size)) 0 tuple
          else validate_from (check_batch batch_size) 1 (tail tuple)
      | None => None
      end
  | None => None
  end.

(** ** The deques *)

Definition components : list nat := seq 0 (Z.to_nat num_components).
Fixpoint for_each (l : list nat) (f : nat -> Q unit) : Q unit :=
  match l with [] => st_ret tt | i :: l' => f i ;;; for_each l' f end.
(** [queues_[0].size()] *)
Definition queue_size : Q Z := let! q := st_get in let! col := st_opt (queues_ q !! 0%nat) in st_ret (zlength col).
Definition push_back (i : nat) (t : Tensor V) : Q unit :=
  let! q := st_get in let! col := st_opt (queues_ q !! i) in st_modify (with_queues (<[i := col ++ [t]]> (queues_ q))).
Definition push_front (i : nat) (t : Tensor V) : Q unit :=
  let! q := st_get in let! col := st_opt (queues_ q !! i) in st_modify (with_queues (<[i := t :: col]> (queues_ q))).
Definition pop_front (i : nat) : Q (Tensor V) :=
  let! q := st_get in
  let! col := st_opt (queues_ q !! i) in
  match col with
  | t :: col' => st_modify (with_queues (<[i := col']> (queues_ q))) ;;; st_ret t
  | [] => st_abort
  end.
Fixpoint dequeue_components (comps : list nat) : Q (Tuple V) :=
  match comps with
  | [] => st_ret []
  | i :: comps' => let! t := pop_front i in let! tuple := dequeue_components comps' in st_ret (t :: tuple)
  end.
Definition DequeueLocked : Q (Tuple V) := dequeue_components components.

(** A status and [*out_tensor]. *)
Definition GetElementComponentFromBatch (tuple : Tuple V) (index : Z) (component : nat) : Q (Status * Tensor V) :=
  let! t := st_opt (tuple !! component) in
  let! element_shape := st_opt (RemoveDim 0 (shape t)) in
  let! '(s, element) := allocate_tensor (dtype t) element_shape in
  match element with
  | Some element => st_opt (CopySliceToElement t element index)
  | None => st_ret (s, new_Tensor)
  end.

(** ** The run callbacks *)

Definition closed_status : Status := Cancelled (bytes_of "FIFOQueue '" ++ name_ ++ bytes_of "' is closed.").
Definition insufficient (requested current : Z) : Status :=
  OutOfRange (bytes_of "FIFOQueue '" ++ name_ ++ bytes_of "' is closed and has insufficient elements (requested " ++ FastInt64ToBufferLeft requested ++
    bytes_of ", current size " ++ FastInt64ToBufferLeft current ++ bytes_of ")").

Definition run_close (a : Attempt V) : Q (RunResult * Attempt V) :=
  let! q := st_get in
  (if closed_ q then SetStatus (context a) (Cancelled (bytes_of "Queue '" ++ name_ ++ bytes_of "' is already closed.")) else st_modify (with_closed true)) ;;;
  st_ret (kComplete, a).

Definition run_enqueue (t : Tuple V) (a : Attempt V) : Q (RunResult * Attempt V) :=
  let! q := st_get in
  if closed_ q then SetStatus (context a) closed_status ;;; st_ret (kComplete, a)
  else
    let! size := queue_size in
    if size <? u64 capacity_ then
      for_each components (fun i => let! c := st_opt (t !! i) in push_back i c) ;;;
      st_ret (kComplete, a)
    else st_ret (kNoProgress, a).

(** The loop over the components of one element; false when it returns with an
    error. *)
Fixpoint enqueue_components (comps : list nat) (t : Tuple V) (index : Z) (ctx : nat) : Q bool :=
  match comps with
  | [] => st_ret true
  | i :: comps' =>
      let! '(s, element) := GetElementComponentFromBatch t index i in
      SetStatus ctx s ;;;
      let! st := status ctx in
      if negb (ok st) then st_ret false else push_back i element ;;; enqueue_components comps' t index ctx
  end.
Fixpoint enqueue_many_loop (fuel : nat) (t : Tuple V) (a : Attempt V) (result : RunResult) : Q (RunResult * Attempt V) :=
  match fuel with
  | O => st_diverge
  | S fuel' =>
      let! size := queue_size in
      if size <? u64 capacity_ then
        let! dim0 := st_opt (batch_size_of t) in
        let! success := enqueue_components components t (dim0 - elements_requested a) (context a) in
        if negb success then st_ret (kComplete, a)
        else if s32 (elements_requested a - 1) =? 0 then st_ret (kComplete, with_requested (s32 (elements_requested a - 1)) a)
        else enqueue_many_loop fuel' t (with_requested (s32 (elements_requested a - 1)) a) kProgress
      else st_ret (result, a)
  end.
Definition run_enqueue_many (t : Tuple V) (a : Attempt V) : Q (RunResult * Attempt V) :=
  let! q := st_get in
  if closed_ q then SetStatus (context a) closed_status ;;; st_ret (kComplete, a)
  else enqueue_many_loop (S (Z.to_nat (elements_requested a))) t a kNoProgress.

Definition run_dequeue (callback : nat) (a : Attempt V) : Q (RunResult * Attempt V) :=
  let! size := queue_size in
  let! q := st_get in
  if closed_ q && (size =? 0) then SetStatus (context a) (insufficient 1 size) ;;; st_ret (kComplete, a)
  else if 0 <? size then
    let! t := DequeueLocked in
    st_ret (kComplete, with_done (Some (WithTuple callback t)) a)
  else st_ret (kNoProgress, a).

(** Putting [n] rows back, the last first. *)
Fixpoint restore_loop (n : nat) (t : Tuple V) (ctx : nat) : Q unit :=
  match n with
  | O => st_ret tt
  | S i =>
      for_each components (fun j =>
        let! '(s, element) := GetElementComponentFromBatch t (Z.of_nat i) j in
        (if negb (ok s) then SetStatus ctx (DataLoss (bytes_of "Failed to restore element from partially-dequeued batch to FIFOQueue: " ++ error_message s)) else st_ret tt) ;;;
        push_front j element) ;;;
      restore_loop i t ctx
  end.
Definition restore (a : Attempt V) : Q unit :=
  if negb (bool_decide (tuple a = [])) then
    let! dim0 := st_opt (batch_size_of (tuple a)) in
    restore_loop (Z.to_nat (dim0 - elements_requested a)) (tuple a) (context a)
  else st_ret tt.
(** The tuple of [num_elements] rows; the statuses of the allocations are
    dropped. *)
Fixpoint allocate_batch (comps : list nat) (num_elements : Z) : Q (Tuple V) :=
  match comps with
  | [] => st_ret []
  | i :: comps' =>
      let! sh := st_opt (ManyOutShape i num_elements) in
      let! d := st_opt (component_dtypes_ !! i) in
      let! '(_, element) := allocate_tensor d sh in
      let! rest := allocate_batch comps' num_elements in
      st_ret (default new_Tensor element :: rest)
  end.
(** Copying an element into row [index]: the batch, and false on an error. *)
Fixpoint copy_components (comps : list nat) (t batch : Tuple V) (index : Z) (ctx : nat) : Q (bool * Tuple V) :=
  match comps with
  | [] => st_ret (true, batch)
  | i :: comps' =>
      let! e := st_opt (t !! i) in
      let! b := st_opt (batch !! i) in
      let! '(s, b') := st_opt (CopyElementToSlice e b index) in
      SetStatus ctx s ;;;
      let! st := status ctx in
      if negb (ok st) then st_ret (false, <[i := b']> batch) else copy_components comps' t (<[i := b']> batch) index ctx
  end.
(** The loop on [queue_size], as a number of rounds. *)
Fixpoint dequeue_many_loop (rounds : nat) (callback : nat) (a : Attempt V) (result : RunResult) : Q (RunResult * Attempt V) :=
  match rounds with
  | O => st_ret (result, a)
  | S rounds' =>
      let! batch := if bool_decide (tuple a = []) then allocate_batch components (elements_requested a) else st_ret (tuple a) in
      let! t := DequeueLocked in
      let! dim0 := st_opt (batch_size_of batch) in
      let! '(success, batch') := copy_components components t batch (dim0 - elements_requested a) (context a) in
      if negb success then st_ret (kComplete, with_tuple batch' a)
      else
        let a' := with_requested (s32 (elements_requested a - 1)) (with_tuple batch' a) in
        if elements_requested a' =? 0 then st_ret (kComplete, with_done (Some (WithTuple callback batch')) a')
        else dequeue_many_loop rounds' callback a' kProgress
  end.
Definition run_dequeue_many (callback : nat) (allow_small_batch : bool) (a : Attempt V) : Q (RunResult * Attempt V) :=
  let! size := queue_size in
  let! q := st_get in
  if closed_ q && (size <? elements_requested a) then
    restore a ;;;
    let! size' := queue_size in
    if allow_small_batch && (0 <? size') then
      dequeue_many_loop (Z.to_nat size') callback (with_requested (s32 size') (with_tuple [] a)) kNoProgress
    else if allow_small_batch && negb (bool_decide (enqueue_attempts_ q = [])) then st_ret (kProgress, a)
    else
      let! st := status (context a) in
      (if ok st then SetStatus (context a) (insufficient (elements_requested a) size) else st_ret tt) ;;;
      st_ret (kComplete, a)
  else dequeue_many_loop (Z.to_nat size) callback a kNoProgress.

Definition run (a : Attempt V) : Q (RunResult * Attempt V) :=
  match run_callback a with
  | CloseRun => run_close a
  | EnqueueRun t => run_enqueue t a
  | EnqueueManyRun t => run_enqueue_many t a
  | DequeueRun callback => run_dequeue callback a
  | DequeueManyRun callback allow_small_batch => run_dequeue_many callback allow_small_batch a
  end.

(** ** Progress *)

Record CleanUp := mkCleanUp { finished : option (DoneCallback V); to_deregister : Z; cm : nat }.

Definition set_front (action : Action) (l : list (Attempt V)) : Q unit := st_modify (with_attempts action l).
(** [while (!done && !attempts->empty())]; every round but the last removes an
    attempt. *)
Fixpoint try_loop (fuel : nat) (action : Action) (clean_up : list CleanUp) (progress : bool) : Q (bool * list CleanUp) :=
  match fuel with
  | O => st_diverge
  | S fuel' =>
      let! q := st_get in
      match attempts action q with
      | [] => st_ret (progress, clean_up)
      | cur_attempt :: rest =>
          if is_cancelled cur_attempt then set_front action rest ;;; try_loop fuel' action clean_up progress
          else
            let! '(result, a) := run cur_attempt in
            match result with
            | kNoProgress => set_front action (a :: rest) ;;; st_ret (progress, clean_up)
            | kProgress => set_front action (a :: rest) ;;; st_ret (true, clean_up)
            | kComplete =>
                set_front action rest ;;;
                try_loop fuel' action (clean_up ++ [mkCleanUp (done_callback a) (cancellation_token a) (cancellation_manager (context a))]) true
            end
      end
  end.
Definition TryAttemptLocked (action : Action) (clean_up : list CleanUp) : Q (bool * list CleanUp) :=
  let! q := st_get in try_loop (S (length (attempts action q))) action clean_up false.

(** The critical section of [FlushUnlocked]. The fuel counts, for every attempt,
    one round and one more for each element it still requests. *)
Fixpoint flush_loop (fuel : nat) (clean_up : list CleanUp) : Q (list CleanUp) :=
  match fuel with
  | O => st_diverge
  | S fuel' =>
      let! '(changed, clean_up) := TryAttemptLocked kEnqueue clean_up in
      let! '(changed', clean_up) := TryAttemptLocked kDequeue clean_up in
      if changed' || changed then flush_loop fuel' clean_up else st_ret clean_up
  end.
Definition flush_weight (l : list (Attempt V)) : nat := sum_list_with (fun a => S (Z.to_nat (elements_requested a))) l.
Definition flush_fuel (q : Queue V) : nat := S (flush_weight (enqueue_attempts_ q) + flush_weight (dequeue_attempts_ q)).
Definition FlushLocked : Q (list CleanUp) := let! q := st_get in flush_loop (flush_fuel q) [].

(** ** Cancellation and closing *)

Definition cancelled_status (action : Action) : Status :=
  Cancelled match action with kEnqueue => bytes_of "Enqueue operation was cancelled" | kDequeue => bytes_of "Dequeue operation was cancelled" end.
(** The loop of [Cancel]: the attempts, the context and the callback of the one
    that was cancelled, if any. *)
Fixpoint cancel_loop (l : list (Attempt V)) (cancellation_manager : nat) (token : Z) : list (Attempt V) * option (nat * option (DoneCallback V)) :=
  match l with
  | [] => ([], None)
  | a :: l' =>
      if bool_decide (manager a = Some cancellation_manager) && (cancellation_token a =? token) then
        if is_cancelled a then (l, None) else (cancelled a :: l', Some (context a, done_callback a))
      else let '(l'', r) := cancel_loop l' cancellation_manager token in (a :: l'', r)
  end.
Definition CancelLocked (action : Action) (cancellation_manager : nat) (token : Z) : Q (option (DoneCallback V)) :=
  let! q := st_get in
  let '(l, r) := cancel_loop (attempts action q) cancellation_manager token in
  match r with
  | Some (ctx, callback) => SetStatus ctx (cancelled_status action) ;;; set_front action l ;;; st_ret callback
  | None => st_ret None
  end.

(** The callbacks of the attempts that were not cancelled yet. *)
Fixpoint cancel_all (l : list (Attempt V)) : Q (list (option (DoneCallback V))) :=
  match l with
  | [] => st_ret []
  | a :: l' =>
      if is_cancelled a then cancel_all l'
      else SetStatus (context a) (cancelled_status kEnqueue) ;;; let! callbacks := cancel_all l' in st_ret (done_callback a :: callbacks)
  end.
Definition CloseAndCancelLocked : Q (list (option (DoneCallback V))) :=
  st_modify (with_closed true) ;;;
  let! q := st_get in
  let! callbacks := cancel_all (enqueue_attempts_ q) in
  set_front kEnqueue (map (fun a => if is_cancelled a then a else cancelled a) (enqueue_attempts_ q)) ;;;
  st_ret callbacks.

Definition push_attempt (action : Action) (a : Attempt V) : Q unit :=
  st_modify (fun q => with_attempts action (attempts action q ++ [a]) q).

(** [Initialize]: a status and, when it is OK, the queue. *)
Definition Initialize : option (Status * option (Queue V)) :=
  if bool_decide (component_dtypes_ = []) then Some (InvalidArgument (bytes_of "Empty component types for queue " ++ name_), None)
  else if negb (bool_decide (component_shapes_ = [])) && negb (zlength component_dtypes_ =? zlength component_shapes_) then
    (match DataTypeSliceString component_dtypes_ with
     | Some types => Some (InvalidArgument (bytes_of "Different number of component types.  Types: " ++ types ++ bytes_of ", Shapes: " ++ ShapeListString component_shapes_), None)
     | None => None
     end)
  else Some (OK, Some (mkQueue false (map (fun _ => []) components) [] [] ∅ 0)).
(** [FIFOQueue::size] *)
Definition size : Q Z := let! n := queue_size in st_ret (s32 n).
End Kernels.
Arguments CleanUp V : clear implicits.

Lemma empty_shape_of : TensorShape_of [0] = Some empty_shape.
Proof. reflexivity. Qed.

End FifoQueue.
