(* ===== verification/FifoQueueThreads.v ===== *)
(** * Threads on a FIFO queue

    The methods of [FifoQueue] as threads: the statements between the critical
    sections, the callbacks, and the cancellation managers, whose registered
    callbacks call [Cancel]. The kernels of [queue_ops.cc] start them. *)
From stdpp Require Import gmap relations.
From S2P Require Import Prelude Status TensorShape FifoQueue Cancellation.
Import Status TensorShape FifoQueue.
Open Scope Z_scope.

Module FifoQueueThreads.

(** What a kernel asks for. *)
Inductive Request (V : Type) :=
| Enqueue (t : Tuple V)
| EnqueueMany (t : Tuple V)
| Dequeue
| DequeueMany (num_elements : Z) (allow_small_batch : bool)
| Close (cancel_pending_enqueues : bool).
Arguments Enqueue {V} _.
Arguments EnqueueMany {V} _.
Arguments Dequeue {V}.
Arguments DequeueMany {V} _ _.
Arguments Close {V} _.

(** What a thread has left to do. An operation is named by its context, and its
    callback by the same number. [Waits cm] is [WaitForNotification]. *)
Inductive Stmt (V : Type) :=
| Compute_ (op : nat) (r : Request V)
| Attempt_ (op : nat) (r : Request V) (token : Z)
| CloseAndCancel_ (op : nat)
| Flush_
| Call_ (callback : option (DoneCallback V))
| Deregister_ (cm : nat) (token : Z)
| Waits_ (cm : nat)
| StartCancel_ (cm : nat)
| Cancel_ (action : Action) (cm : nat) (token : Z)
| CancelFinish_ (cm : nat)
| CancelNotify_ (cm : nat).
Arguments Compute_ {V} _ _.
Arguments Attempt_ {V} _ _ _.
Arguments CloseAndCancel_ {V} _.
Arguments Flush_ {V}.
Arguments Call_ {V} _.
Arguments Deregister_ {V} _ _.
Arguments Waits_ {V} _.
Arguments StartCancel_ {V} _.
Arguments Cancel_ {V} _ _ _.
Arguments CancelFinish_ {V} _.
Arguments CancelNotify_ {V} _.

(** [registrations]: the closures [Cancel(action, cm, token)] registered, by
    the number the managers know them by. [calls]: the callbacks called, with the
    status of their context, the latest last. [submitted]: the operations
    started, the latest first. *)
Record Config (V : Type) := mkConfig {
  queue : Queue V;
  managers : gmap nat Cancellation.Manager;
  registrations : list (Action * nat * Z);
  threads : list (list (Stmt V));
  calls : list (DoneCallback V * Status);
  submitted : list (nat * Request V)
}.
Arguments mkConfig {V} _ _ _ _ _ _.
Arguments queue {V} _.
Arguments managers {V} _.
Arguments registrations {V} _.
Arguments threads {V} _.
Arguments calls {V} _.
Arguments submitted {V} _.

Section Threads.
Context {V : Type} {E : QueueEnv V}.

Definition with_queue (q : Queue V) (c : Config V) : Config V := mkConfig q (managers c) (registrations c) (threads c) (calls c) (submitted c).
Definition with_manager (cm : nat) (m : Cancellation.Manager) (c : Config V) : Config V :=
  mkConfig (queue c) (<[cm := m]> (managers c)) (registrations c) (threads c) (calls c) (submitted c).
Definition with_registrations (l : list (Action * nat * Z)) (c : Config V) : Config V :=
  mkConfig (queue c) (managers c) l (threads c) (calls c) (submitted c).
Definition with_threads (l : list (list (Stmt V))) (c : Config V) : Config V := mkConfig (queue c) (managers c) (registrations c) l (calls c) (submitted c).
Definition with_calls (l : list (DoneCallback V * Status)) (c : Config V) : Config V :=
  mkConfig (queue c) (managers c) (registrations c) (threads c) l (submitted c).
Definition with_submitted (l : list (nat * Request V)) (c : Config V) : Config V := mkConfig (queue c) (managers c) (registrations c) (threads c) (calls c) l.
Definition manager_of (c : Config V) (cm : nat) : Cancellation.Manager := default Cancellation.new_Manager (managers c !! cm).
Definition new_Config (q : Queue V) : Config V := mkConfig q ∅ [] [] [] [].

Abbreviation C := (ST (Config V)).
(** A critical section of the queue. *)
Definition locked {A} (m : ST (Queue V) A) : C A :=
  fun c => match m (queue c) with Done (a, q) => Done (a, with_queue q c) | Aborts => Aborts | Diverges => Diverges end.

(** The callback of an operation, called on an error. *)
Definition is_dequeue (r : Request V) : bool := match r with Dequeue | DequeueMany _ _ => true | _ => false end.
Definition plain_callback (op : nat) (r : Request V) : DoneCallback V := if is_dequeue r then WithTuple op [] else Plain op.
Definition action_of (r : Request V) : Action := if is_dequeue r then kDequeue else kEnqueue.
Definition fails (op : nat) (r : Request V) (s : Status) : C (list (Stmt V)) :=
  locked (SetStatus op s) ;;; st_ret [Call_ (Some (plain_callback op r))].

(** [cm->get_cancellation_token()], then the rest of the method. *)
Definition take_token (op : nat) (r : Request V) : C (list (Stmt V)) :=
  let! c := st_get in
  let '(token, m) := Cancellation.get_cancellation_token (manager_of c (cancellation_manager op)) in
  st_modify (with_manager (cancellation_manager op) m) ;;;
  st_ret [Attempt_ op r token].

(** The [Try] methods up to the critical section: early returns, the token. *)
Definition TryEnqueueMany (op : nat) (t : Tuple V) : C (list (Stmt V)) :=
  let! batch_size := st_opt (batch_size_of t) in
  if batch_size =? 0 then st_ret [Call_ (Some (Plain op))] else take_token op (EnqueueMany t).
Definition TryDequeueMany (op : nat) (n : Z) (allow_small_batch : bool) : C (list (Stmt V)) :=
  let r := DequeueMany n allow_small_batch in
  if negb specified_shapes then
    fails op r (InvalidArgument (bytes_of "FIFOQueue's DequeueMany and DequeueUpTo require the components to have specified shapes."))
  else if n =? 0 then
    let! t := locked (allocate_batch components 0) in st_ret [Call_ (Some (WithTuple op t))]
  else take_token op r.
(** [ComputeAsync] of the kernels: the validation of the inputs. *)
Definition EnqueueOp (op : nat) (t : Tuple V) : C (list (Stmt V)) :=
  let! s := st_opt (ValidateTuple t) in
  if negb (ok s) then fails op (Enqueue t) s else take_token op (Enqueue t).
Definition EnqueueManyOp (op : nat) (t : Tuple V) : C (list (Stmt V)) :=
  let! s := st_opt (ValidateManyTuple t) in
  if negb (ok s) then fails op (EnqueueMany t) s else TryEnqueueMany op t.
(** [DequeueManyOp] and [DequeueUpToOp] *)
Definition DequeueManyOp (op : nat) (n : Z) (allow_small_batch : bool) : C (list (Stmt V)) :=
  if negb (0 <=? n) then
    fails op (DequeueMany n allow_small_batch) (InvalidArgument (bytes_of (if allow_small_batch then "DequeueUpToOp requested " else "DequeueManyOp requested ") ++
      Numbers.Numbers.FastInt64ToBufferLeft n ++ bytes_of " < 0 elements"))
  else TryDequeueMany op n allow_small_batch.
Definition QueueCloseOp (op : nat) (cancel_pending_enqueues : bool) : C (list (Stmt V)) :=
  if cancel_pending_enqueues then st_ret [CloseAndCancel_ op] else st_ret [Attempt_ op (Close cancel_pending_enqueues) kInvalidToken].
Definition compute (op : nat) (r : Request V) : C (list (Stmt V)) :=
  match r with
  | Enqueue t => EnqueueOp op t
  | EnqueueMany t => EnqueueManyOp op t
  | Dequeue => take_token op Dequeue
  | DequeueMany n allow_small_batch => DequeueManyOp op n allow_small_batch
  | Close cancel_pending_enqueues => QueueCloseOp op cancel_pending_enqueues
  end.

(** The attempt of a request. *)
Definition attempt_of (op : nat) (r : Request V) (token : Z) : FifoQueue.Attempt V :=
  let new n run := new_Attempt n (plain_callback op r) op (Some (cancellation_manager op)) token run in
  match r with
  | Enqueue t => new 1 (EnqueueRun t)
  | EnqueueMany t => new (s32 (default 0 (batch_size_of t))) (EnqueueManyRun t)
  | Dequeue => new 1 (DequeueRun op)
  | DequeueMany n allow_small_batch => new n (DequeueManyRun op allow_small_batch)
  | Close _ => new_Attempt 0 (Plain op) op None kInvalidToken CloseRun
  end.
(** The critical section of the [Try] methods: the cancellation is registered and
    the attempt added; [CHECK_LT] on the token is the [None] of
    [RegisterCallback]. *)
Definition register_attempt (op : nat) (r : Request V) (token : Z) : C (list (Stmt V)) :=
  let! c := st_get in
  let cm := cancellation_manager op in
  let! '(registered, m) := st_opt (Cancellation.RegisterCallback token (length (registrations c)) (manager_of c cm)) in
  st_modify (with_manager cm m) ;;;
  if registered then
    st_modify (with_registrations (registrations c ++ [(action_of r, cm, token)])) ;;;
    locked (push_attempt (action_of r) (attempt_of op r token)) ;;;
    st_ret [Flush_]
  else fails op r (cancelled_status (action_of r)).
(** That of [Close] registers nothing. *)
Definition attempt (op : nat) (r : Request V) (token : Z) : C (list (Stmt V)) :=
  match r with
  | Close _ => locked (push_attempt kEnqueue (attempt_of op r token)) ;;; st_ret [Flush_]
  | _ => register_attempt op r token
  end.

Definition clean_stmts (x : CleanUp V) : list (Stmt V) :=
  (if negb (to_deregister x =? kInvalidToken) then [Deregister_ (FifoQueue.cm x) (to_deregister x)] else []) ++ [Call_ (finished x)].
(** The status of the context that a callback reads. *)
Definition callback_of (d : DoneCallback V) : nat := match d with Plain f | WithTuple f _ => f end.

(** One statement: what replaces it. [None]: the thread is blocked. *)
Definition exec (s : Stmt V) : C (option (list (Stmt V))) :=
  match s with
  | Compute_ op r => let! k := compute op r in st_ret (Some k)
  | Attempt_ op r token => let! k := attempt op r token in st_ret (Some k)
  | CloseAndCancel_ op => let! callbacks := locked CloseAndCancelLocked in st_ret (Some (map Call_ callbacks ++ [Flush_; Call_ (Some (Plain op))]))
  | Flush_ => let! clean_up := locked FlushLocked in st_ret (Some (concat (map clean_stmts clean_up)))
  | Call_ callback =>
      let! d := st_opt callback in
      st_modify (fun c => with_calls (calls c ++ [(d, status_of (queue c) (callback_of d))]) c) ;;;
      st_ret (Some [])
  | Deregister_ cm token =>
      let! c := st_get in
      match Cancellation.DeregisterCallback token (manager_of c cm) with
      | (Cancellation.Returns _, m) => st_modify (with_manager cm m) ;;; st_ret (Some [])
      | (Cancellation.Waits, _) => st_ret (Some [Waits_ cm])
      end
  | Waits_ cm => let! c := st_get in st_ret (if Cancellation.notified (manager_of c cm) then Some [] else None)
  | StartCancel_ cm =>
      let! c := st_get in
      match Cancellation.StartCancel (manager_of c cm) with
      | Some (m, todo) =>
          st_modify (with_manager cm m) ;;;
          st_ret (Some (map (fun '(action, cm, token) => Cancel_ action cm token) (omap (fun i => registrations c !! i) todo) ++ [CancelFinish_ cm; CancelNotify_ cm]))
      | None => st_ret (Some [])
      end
  | Cancel_ action cm token =>
      let! callback := locked (CancelLocked action cm token) in
      st_ret (Some match callback with Some d => [Call_ (Some d); Flush_] | None => [] end)
  | CancelFinish_ cm => st_modify (fun c => with_manager cm (Cancellation.StartCancel_finish (manager_of c cm)) c) ;;; st_ret (Some [])
  | CancelNotify_ cm => st_modify (fun c => with_manager cm (Cancellation.StartCancel_notify (manager_of c cm)) c) ;;; st_ret (Some [])
  end.

(** The statement at the front of thread [i]; false when it cannot go on. *)
Definition run_thread (i : nat) : C bool :=
  let! c := st_get in
  match threads c !! i with
  | Some (s :: rest) =>
      let! k := exec s in
      match k with
      | Some k => st_modify (fun c => with_threads (<[i := k ++ rest]> (threads c)) c) ;;; st_ret true
      | None => st_ret false
      end
  | _ => st_ret false
  end.

(** ** Steps *)

Definition thread_step (c c' : Config V) : Prop := exists i, run_thread i c = Done (true, c').
(** A thread aborts the process, or its loop does not end. *)
Definition crashes (c : Config V) : Prop := exists i, run_thread i c = Aborts \/ run_thread i c = Diverges.

(** The environment starts an operation or cancels a step. [admissible]: the
    requests it makes. *)
Inductive call_step (admissible : Request V -> Prop) (c : Config V) : Config V -> Prop :=
| call_compute op r : op ∉ map fst (submitted c) -> admissible r -> zlength (submitted c) < 2 ^ 63 - 1 ->
    call_step admissible c (with_submitted ((op, r) :: submitted c) (with_threads (threads c ++ [[Compute_ op r]]) c))
| call_cancel cm :
    call_step admissible c (with_threads (threads c ++ [[StartCancel_ cm]]) c).
Definition step (admissible : Request V -> Prop) (c c' : Config V) : Prop := call_step admissible c c' \/ thread_step c c'.
(** Reached from a queue that has been initialized. *)
Definition reachable (admissible : Request V -> Prop) (c : Config V) : Prop :=
  exists q, Initialize = Some (OK, Some q) /\ rtc (step admissible) (new_Config q) c.
End Threads.
End FifoQueueThreads.
