(* ===== verification/FifoQueueSpec.v ===== *)
(** * What a FIFO queue promises

    The abstract machine of [FifoQueue]: a list of rows, the operations that
    wait to put rows in and those that wait to take rows out, one row at a time,
    and the history of both. Its invariant says that rows leave in the order they
    came, that a finished operation put or took what it asked for, and that an
    open queue stays within its capacity. *)
From stdpp Require Import relations.
From S2P Require Import Prelude Status.
Import Status.
Open Scope Z_scope.

Module FifoQueueSpec.

Section Spec.
Context {R : Type}.

(** What an operation asks for: to put rows, to take [count] of them ([one]: as
    a row and not as a batch; [small]: fewer will do once the queue is closed), to
    close. *)
Inductive Ask := Put (rows : list R) | Get (one small : bool) (count : nat) | Shut (now : bool).
(** A waiting operation that puts rows, or closes. *)
Inductive Offer := Rows (op : nat) (accepted todo : list R) | Closing (op : nat).
Record Want := mkWant { w_op : nat; w_one : bool; w_small : bool; w_count : nat; w_got : list R }.
Record Finished := mkFinished { f_op : nat; f_ask : Ask; f_code : Z; f_rows : list R }.
Definition offer_op (o : Offer) : nat := match o with Rows op _ _ | Closing op => op end.
Definition offer_ask (o : Offer) : Ask := match o with Rows _ d t => Put (d ++ t) | Closing _ => Shut false end.
Definition want_ask (w : Want) : Ask := Get (w_one w) (w_small w) (w_count w).

(** [s_begun]: the operations that do not wait yet. [s_in] and [s_out]: the rows
    put and taken so far, with the operation that did it. *)
Record Spec := mkSpec {
  s_closed : bool;
  s_items : list R;
  s_begun : list (nat * Ask);
  s_offers : list Offer;
  s_wants : list Want;
  s_done : list Finished;
  s_in : list (nat * R);
  s_out : list (nat * R)
}.
Definition new_Spec : Spec := mkSpec false [] [] [] [] [] [] [].

Definition refused (o : Offer) : Finished := mkFinished (offer_op o) (offer_ask o) CANCELLED [].
(** An operation that has rows left to put. *)
Definition unfinished (o : Offer) : Prop := match o with Rows _ _ todo => todo <> [] | Closing _ => True end.
Definition tag (op : nat) (rows : list R) : list (nat * R) := map (pair op) rows.
Definition missing (w : Want) : nat := w_count w - length (w_got w).

Definition ops (s : Spec) : list nat := map fst (s_begun s) ++ map offer_op (s_offers s) ++ map w_op (s_wants s) ++ map f_op (s_done s).

Inductive spec_act (capacity : Z) : Spec -> Spec -> Prop :=
(** an operation is refused, has nothing to do, or starts to wait *)
| sp_refuse closed items begun1 begun2 offers wants done ins outs op ask code :
    code = INVALID_ARGUMENT \/ code = CANCELLED ->
    spec_act capacity (mkSpec closed items (begun1 ++ (op, ask) :: begun2) offers wants done ins outs)
                      (mkSpec closed items (begun1 ++ begun2) offers wants (done ++ [mkFinished op ask code []]) ins outs)
| sp_nothing closed items begun1 begun2 offers wants done ins outs op ask :
    ask = Put [] \/ (exists small, ask = Get false small 0) ->
    spec_act capacity (mkSpec closed items (begun1 ++ (op, ask) :: begun2) offers wants done ins outs)
                      (mkSpec closed items (begun1 ++ begun2) offers wants (done ++ [mkFinished op ask 0 []]) ins outs)
| sp_offer closed items begun1 begun2 offers wants done ins outs op rows :
    spec_act capacity (mkSpec closed items (begun1 ++ (op, Put rows) :: begun2) offers wants done ins outs)
                      (mkSpec closed items (begun1 ++ begun2) (offers ++ [Rows op [] rows]) wants done ins outs)
| sp_closing closed items begun1 begun2 offers wants done ins outs op :
    spec_act capacity (mkSpec closed items (begun1 ++ (op, Shut false) :: begun2) offers wants done ins outs)
                      (mkSpec closed items (begun1 ++ begun2) (offers ++ [Closing op]) wants done ins outs)
| sp_want closed items begun1 begun2 offers wants done ins outs op one small count :
    spec_act capacity (mkSpec closed items (begun1 ++ (op, Get one small count) :: begun2) offers wants done ins outs)
                      (mkSpec closed items (begun1 ++ begun2) offers (wants ++ [mkWant op one small count []]) done ins outs)
(** the first of those that put *)
| sp_put items begun offers wants done ins outs op accepted r todo :
    zlength items < capacity ->
    spec_act capacity (mkSpec false items begun (Rows op accepted (r :: todo) :: offers) wants done ins outs)
                      (mkSpec false (items ++ [r]) begun (Rows op (accepted ++ [r]) todo :: offers) wants done (ins ++ [(op, r)]) outs)
| sp_put_all closed items begun offers wants done ins outs op accepted :
    spec_act capacity (mkSpec closed items begun (Rows op accepted [] :: offers) wants done ins outs)
                      (mkSpec closed items begun offers wants (done ++ [mkFinished op (Put accepted) 0 []]) ins outs)
| sp_reject items begun offer offers wants done ins outs :
    unfinished offer ->
    spec_act capacity (mkSpec true items begun (offer :: offers) wants done ins outs)
                      (mkSpec true items begun offers wants (done ++ [refused offer]) ins outs)
| sp_close items begun offers wants done ins outs op :
    spec_act capacity (mkSpec false items begun (Closing op :: offers) wants done ins outs)
                      (mkSpec true items begun offers wants (done ++ [mkFinished op (Shut false) 0 []]) ins outs)
(** closing at once, and refusing all that wait to put *)
| sp_close_now closed items begun1 begun2 offers wants done ins outs op :
    Forall unfinished offers ->
    spec_act capacity (mkSpec closed items (begun1 ++ (op, Shut true) :: begun2) offers wants done ins outs)
                      (mkSpec true items (begun1 ++ begun2) [] wants (done ++ map refused offers ++ [mkFinished op (Shut true) 0 []]) ins outs)
(** the first of those that take *)
| sp_take closed r items begun offers w wants done ins outs :
    missing w <> 0%nat ->
    spec_act capacity (mkSpec closed (r :: items) begun offers (w :: wants) done ins outs)
                      (mkSpec closed items begun offers (mkWant (w_op w) (w_one w) (w_small w) (w_count w) (w_got w ++ [r]) :: wants) done ins outs)
| sp_finish closed items begun offers w wants done ins outs :
    missing w = 0%nat ->
    spec_act capacity (mkSpec closed items begun offers (w :: wants) done ins outs)
                      (mkSpec closed items begun offers wants (done ++ [mkFinished (w_op w) (want_ask w) 0 (w_got w)]) ins (outs ++ tag (w_op w) (w_got w)))
| sp_short items begun offers w wants done ins outs :
    (length items < missing w)%nat -> w_small w = true -> w_got w ++ items <> [] ->
    spec_act capacity (mkSpec true items begun offers (w :: wants) done ins outs)
                      (mkSpec true [] begun offers wants (done ++ [mkFinished (w_op w) (want_ask w) 0 (w_got w ++ items)]) ins (outs ++ tag (w_op w) (w_got w ++ items)))
| sp_fail items begun offers w wants done ins outs :
    (length items < missing w)%nat -> w_small w = false \/ w_got w ++ items = [] ->
    spec_act capacity (mkSpec true items begun offers (w :: wants) done ins outs)
                      (mkSpec true (w_got w ++ items) begun offers wants (done ++ [mkFinished (w_op w) (want_ask w) OUT_OF_RANGE []]) ins outs)
(** cancellation, of any of those that wait; the rows already taken are lost *)
| sp_cancel_offer closed items begun offers1 offer offers2 wants done ins outs :
    unfinished offer ->
    spec_act capacity (mkSpec closed items begun (offers1 ++ offer :: offers2) wants done ins outs)
                      (mkSpec closed items begun (offers1 ++ offers2) wants (done ++ [refused offer]) ins outs)
| sp_cancel_want closed items begun offers wants1 w wants2 done ins outs :
    missing w <> 0%nat ->
    spec_act capacity (mkSpec closed items begun offers (wants1 ++ w :: wants2) done ins outs)
                      (mkSpec closed items begun offers (wants1 ++ wants2) (done ++ [mkFinished (w_op w) (want_ask w) CANCELLED []]) ins (outs ++ tag (w_op w) (w_got w))).
(** An operation begins, or one of those that have begun goes on. *)
Inductive spec_step (capacity : Z) : Spec -> Spec -> Prop :=
| sp_begin closed items begun offers wants done ins outs op ask :
    op ∉ ops (mkSpec closed items begun offers wants done ins outs) ->
    spec_step capacity (mkSpec closed items begun offers wants done ins outs)
                       (mkSpec closed items ((op, ask) :: begun) offers wants done ins outs)
| sp_act s s' : spec_act capacity s s' -> spec_step capacity s s'.

Definition spec_reach (capacity : Z) (s : Spec) : Prop := rtc (spec_step capacity) new_Spec s.

(** Every operation with what it asks for. *)
Definition asks (s : Spec) : list (nat * Ask) :=
  s_begun s ++ map (fun o => (offer_op o, offer_ask o)) (s_offers s) ++ map (fun w => (w_op w, want_ask w)) (s_wants s) ++ map (fun f => (f_op f, f_ask f)) (s_done s).

(** ** The invariant *)

(** The rows of an operation in a history. *)
Definition rows_of (op : nat) (l : list (nat * R)) : list R := map snd (filter (fun x => x.1 = op) l).

(** What a finished operation did. *)
Definition finished_ok (ins outs : list (nat * R)) (f : Finished) : Prop :=
  match f_ask f with
  | Put rows => f_rows f = [] /\ rows_of (f_op f) outs = [] /\
      exists k, rows_of (f_op f) ins = take k rows /\ (f_code f = 0 -> rows_of (f_op f) ins = rows) /\ (f_code f <> 0 -> rows = [] \/ (k < length rows)%nat)
  | Get one small count => rows_of (f_op f) ins = [] /\
      (f_code f = 0 -> f_rows f = rows_of (f_op f) outs /\ (length (f_rows f) = count \/ (small = true /\ (0 < length (f_rows f) < count)%nat))) /\
      (f_code f <> 0 -> f_rows f = [] /\ (count = 0%nat \/ (length (rows_of (f_op f) outs) < count)%nat)) /\
      (f_code f = OUT_OF_RANGE \/ f_code f = INVALID_ARGUMENT -> rows_of (f_op f) outs = []) /\ (length (rows_of (f_op f) outs) <= count)%nat
  | Shut _ => f_rows f = [] /\ rows_of (f_op f) ins = [] /\ rows_of (f_op f) outs = []
  end.
Definition offer_ok (ins outs : list (nat * R)) (o : Offer) : Prop :=
  match o with
  | Rows op accepted todo => rows_of op ins = accepted /\ rows_of op outs = []
  | Closing op => rows_of op ins = [] /\ rows_of op outs = []
  end.
Definition want_ok (ins outs : list (nat * R)) (w : Want) : Prop :=
  rows_of (w_op w) ins = [] /\ rows_of (w_op w) outs = [] /\ (length (w_got w) <= w_count w)%nat.

Record spec_inv (capacity : Z) (s : Spec) : Prop := {
  si_order : map snd (s_in s) = map snd (s_out s) ++ concat (map w_got (s_wants s)) ++ s_items s;
  si_front : Forall (fun w => w_got w = []) (tail (s_wants s));
  si_capacity : s_closed s = false -> zlength (s_items s) <= Z.max 0 capacity;
  si_nodup : NoDup (ops s);
  si_known : forall op r, (op, r) ∈ s_in s \/ (op, r) ∈ s_out s -> op ∈ ops s;
  si_begun : Forall (fun x => rows_of x.1 (s_in s) = [] /\ rows_of x.1 (s_out s) = []) (s_begun s);
  si_offers : Forall (offer_ok (s_in s) (s_out s)) (s_offers s);
  si_wants : Forall (want_ok (s_in s) (s_out s)) (s_wants s);
  si_done : Forall (finished_ok (s_in s) (s_out s)) (s_done s)
}.

(** ** Histories *)

Lemma rows_of_app op l1 l2 : rows_of op (l1 ++ l2) = rows_of op l1 ++ rows_of op l2.
Proof. unfold rows_of. by rewrite filter_app, map_app. Qed.
Lemma rows_of_tag op rows : rows_of op (tag op rows) = rows.
Proof. unfold rows_of, tag. induction rows as [|r rows IH]; [done|]. cbn [map]. rewrite filter_cons_True by done. cbn [map]. by rewrite IH. Qed.
Lemma rows_of_other op op' rows : op <> op' -> rows_of op (tag op' rows) = [].
Proof. intros Hne. unfold rows_of, tag. induction rows as [|r rows IH]; [done|]. cbn [map]. rewrite filter_cons_False; [done|]. cbn. congruence. Qed.
Lemma rows_of_unknown op l : (forall r, (op, r) ∉ l) -> rows_of op l = [].
Proof.
  intros H. unfold rows_of. induction l as [|[o r] l IH]; [done|]. rewrite filter_cons_False.
  - apply IH. intros r'. specialize (H r'). set_solver.
  - cbn. intros ->. apply (H r). by left.
Qed.
Lemma tag_rows op rows : map snd (tag op rows) = rows.
Proof. unfold tag. rewrite map_map. apply map_id. Qed.
Lemma elem_tag op op' r rows : (op', r) ∈ tag op rows -> op' = op.
Proof. unfold tag. rewrite list_elem_of_fmap. by intros (r' & [= -> ->] & _). Qed.

(** What holds of an operation does not depend on the rows of another one. *)
Lemma finished_ok_other ins outs op l k f : op <> f_op f -> finished_ok ins outs f -> finished_ok (ins ++ tag op l) (outs ++ tag op k) f.
Proof. intros Hne. unfold finished_ok. rewrite !rows_of_app, !rows_of_other, !app_nil_r by congruence. done. Qed.
Lemma offer_ok_other ins outs op l k o : op <> offer_op o -> offer_ok ins outs o -> offer_ok (ins ++ tag op l) (outs ++ tag op k) o.
Proof. intros Hne. destruct o; cbn in *; rewrite !rows_of_app, !rows_of_other, !app_nil_r by congruence; done. Qed.
Lemma want_ok_other ins outs op l k w : op <> w_op w -> want_ok ins outs w -> want_ok (ins ++ tag op l) (outs ++ tag op k) w.
Proof. intros Hne. unfold want_ok. rewrite !rows_of_app, !rows_of_other, !app_nil_r by congruence. done. Qed.

(** ** Preservation *)

(** The part of the invariant about operations, for a permutation of them. *)
Record ops_inv (begun : list (nat * Ask)) (offers : list Offer) (wants : list Want) (done : list Finished) (ins outs : list (nat * R)) : Prop := {
  oi_nodup : NoDup (map fst begun ++ map offer_op offers ++ map w_op wants ++ map f_op done);
  oi_known : forall op r, (op, r) ∈ ins \/ (op, r) ∈ outs -> op ∈ map fst begun ++ map offer_op offers ++ map w_op wants ++ map f_op done;
  oi_begun : Forall (fun x => rows_of x.1 ins = [] /\ rows_of x.1 outs = []) begun;
  oi_offers : Forall (offer_ok ins outs) offers;
  oi_wants : Forall (want_ok ins outs) wants;
  oi_done : Forall (finished_ok ins outs) done
}.
Lemma spec_inv_ops capacity s : spec_inv capacity s -> ops_inv (s_begun s) (s_offers s) (s_wants s) (s_done s) (s_in s) (s_out s).
Proof. intros []. by split. Qed.
Lemma ops_inv_perm b o w d b' o' w' d' ins outs : ops_inv b o w d ins outs -> b ≡ₚ b' -> o ≡ₚ o' -> w ≡ₚ w' -> d ≡ₚ d' -> ops_inv b' o' w' d' ins outs.
Proof.
  intros [H1 H2 H3 H4 H5 H6] Eb Eo Ew Ed. split; [by rewrite <- Eb, <- Eo, <- Ew, <- Ed|intros op r; rewrite <- Eb, <- Eo, <- Ew, <- Ed; apply H2|
    by rewrite <- Eb|by rewrite <- Eo|by rewrite <- Ew|by rewrite <- Ed].
Qed.
(** One operation changes its place, and puts and takes rows [l] and [k]. *)
Definition place_ok (ins outs : list (nat * R)) (x : (nat * Ask) + Offer + Want + Finished) : Prop :=
  match x with
  | inl (inl (inl b)) => rows_of b.1 ins = [] /\ rows_of b.1 outs = []
  | inl (inl (inr o)) => offer_ok ins outs o
  | inl (inr w) => want_ok ins outs w
  | inr f => finished_ok ins outs f
  end.
Definition place_op (x : (nat * Ask) + Offer + Want + Finished) : nat :=
  match x with inl (inl (inl b)) => b.1 | inl (inl (inr o)) => offer_op o | inl (inr w) => w_op w | inr f => f_op f end.
Definition places (b : list (nat * Ask)) (o : list Offer) (w : list Want) (d : list Finished) : list ((nat * Ask) + Offer + Want + Finished) :=
  map (fun x => inl (inl (inl x))) b ++ map (fun x => inl (inl (inr x))) o ++ map (fun x => inl (inr x)) w ++ map inr d.
Lemma place_ok_other ins outs op l k x : op <> place_op x -> place_ok ins outs x -> place_ok (ins ++ tag op l) (outs ++ tag op k) x.
Proof.
  destruct x as [[[b|o]|w]|f]; cbn; intros Hne; [|by apply offer_ok_other|by apply want_ok_other|by apply finished_ok_other].
  by rewrite !rows_of_app, !rows_of_other, !app_nil_r by congruence.
Qed.
Lemma ops_inv_places b o w d ins outs : ops_inv b o w d ins outs <->
  NoDup (map place_op (places b o w d)) /\ (forall op r, (op, r) ∈ ins \/ (op, r) ∈ outs -> op ∈ map place_op (places b o w d)) /\ Forall (place_ok ins outs) (places b o w d).
Proof.
  assert (E : map place_op (places b o w d) = map fst b ++ map offer_op o ++ map w_op w ++ map f_op d).
  { unfold places. rewrite !map_app, !map_map. done. }
  assert (F : Forall (place_ok ins outs) (places b o w d) <->
    Forall (fun x => rows_of x.1 ins = [] /\ rows_of x.1 outs = []) b /\ Forall (offer_ok ins outs) o /\ Forall (want_ok ins outs) w /\ Forall (finished_ok ins outs) d).
  { unfold places. rewrite !Forall_app, !Forall_map. done. }
  rewrite E, F. split; [intros []; tauto|]. intros (? & ? & ? & ? & ? & ?). by split.
Qed.
Lemma ops_inv_move b o w d b' o' w' d' ins outs x y P l k : ops_inv b o w d ins outs ->
  places b o w d ≡ₚ x :: P -> places b' o' w' d' ≡ₚ y :: P -> place_op y = place_op x ->
  (place_ok ins outs x -> place_ok (ins ++ tag (place_op x) l) (outs ++ tag (place_op x) k) y) ->
  ops_inv b' o' w' d' (ins ++ tag (place_op x) l) (outs ++ tag (place_op x) k).
Proof.
  rewrite !ops_inv_places. intros (Hn & Hk & Hp) E E' Eop Hxy. rewrite E in Hn, Hp. setoid_rewrite E in Hk. rewrite E'. setoid_rewrite E'.
  cbn [map] in *. rewrite Eop. apply NoDup_cons in Hn as [Hx Hn]. apply Forall_cons in Hp as [Hpx Hp]. split_and!.
  - by constructor.
  - intros op r. rewrite !elem_of_app. intros [[H|H]|[H|H]]; [apply (Hk op r); tauto| |apply (Hk op r); tauto|]; apply elem_tag in H as ->; by left.
  - constructor; [by apply Hxy|]. apply Forall_forall. intros z Hz. rewrite Forall_forall in Hp. apply place_ok_other; [|by apply Hp].
    intros Eo. apply Hx. rewrite Eo. by apply list_elem_of_fmap_2.
Qed.
Lemma ops_inv_move_same b o w d b' o' w' d' ins outs x y P : ops_inv b o w d ins outs ->
  places b o w d ≡ₚ x :: P -> places b' o' w' d' ≡ₚ y :: P -> place_op y = place_op x -> (place_ok ins outs x -> place_ok ins outs y) -> ops_inv b' o' w' d' ins outs.
Proof.
  intros H E E' Eop Hxy. pose proof (ops_inv_move b o w d b' o' w' d' ins outs x y P [] [] H E E' Eop) as Hm.
  cbn [tag map] in Hm. rewrite !app_nil_r in Hm. by apply Hm.
Qed.

Ltac solve_places := unfold places; rewrite ?map_app; cbn [map]; rewrite ?map_app; cbn [map]; solve_Permutation.

Lemma refused_ok ins outs o : unfinished o -> offer_ok ins outs o -> finished_ok ins outs (refused o).
Proof.
  destruct o as [op accepted todo|op]; cbn; intros Hu [H1 H2]; [|done]. split_and!; [done..|]. exists (length accepted).
  split; [by rewrite take_app_length|]. unfold CANCELLED. split; [done|]. intros _. right. rewrite length_app. destruct todo; [done|cbn; lia].
Qed.
Lemma ops_inv_refuse b o offers w d ins outs : unfinished o -> ops_inv b (o :: offers) w d ins outs -> ops_inv b offers w (d ++ [refused o]) ins outs.
Proof.
  intros Hu H. eapply (ops_inv_move_same _ _ _ _ _ _ _ _ _ _ (inl (inl (inr o))) (inr (refused o)) (places b offers w d) H); [solve_places..|done|]. by apply refused_ok.
Qed.
Lemma ops_inv_refuse_all b offers w d ins outs : Forall unfinished offers -> ops_inv b offers w d ins outs -> ops_inv b [] w (d ++ map refused offers) ins outs.
Proof.
  intros Hu. revert d. induction Hu as [|o offers Ho _ IH]; intros d H; cbn [map]; [by rewrite app_nil_r|].
  apply ops_inv_refuse, IH in H; [|done]. by rewrite <- app_assoc in H.
Qed.
(** An operation that has not started to wait. *)
Lemma ops_inv_begun b1 b2 op ask o w d o' w' d' ins outs y : ops_inv (b1 ++ (op, ask) :: b2) o w d ins outs ->
  places [] o' w' d' ≡ₚ y :: places [] o w d -> place_op y = op -> (rows_of op ins = [] -> rows_of op outs = [] -> place_ok ins outs y) ->
  ops_inv (b1 ++ b2) o' w' d' ins outs.
Proof.
  intros H E Eop Hy. eapply (ops_inv_move_same _ _ _ _ _ _ _ _ _ _ (inl (inl (inl (op, ask)))) y (places (b1 ++ b2) o w d) H); [solve_places| |done|intros []; by apply Hy].
  revert E. unfold places. rewrite !app_nil_l. intros ->. solve_Permutation.
Qed.
Lemma ops_inv_new b o w d ins outs op ask : ops_inv b o w d ins outs -> op ∉ map fst b ++ map offer_op o ++ map w_op w ++ map f_op d -> ops_inv ((op, ask) :: b) o w d ins outs.
Proof.
  intros [H1 H2 H3 H4 H5 H6] Hop. split; try done; cbn [map app fst].
  - by constructor.
  - intros op' r H. right. by apply (H2 op' r).
  - constructor; [|done]. split; apply rows_of_unknown; intros r Hr; apply Hop, (H2 op r); tauto.
Qed.

(** Rows that are put or taken by an operation already in its place. *)
Lemma ops_inv_put b op accepted r todo offers w d ins outs : ops_inv b (Rows op accepted (r :: todo) :: offers) w d ins outs ->
  ops_inv b (Rows op (accepted ++ [r]) todo :: offers) w d (ins ++ [(op, r)]) outs.
Proof.
  intros H. pose proof (ops_inv_move _ _ _ _ b (Rows op (accepted ++ [r]) todo :: offers) w d _ _ (inl (inl (inr (Rows op accepted (r :: todo)))))
    (inl (inl (inr (Rows op (accepted ++ [r]) todo)))) (places b offers w d) [r] [] H) as Hm.
  cbn [place_op offer_op tag map] in Hm. rewrite app_nil_r in Hm. apply Hm; [solve_places..|done|].
  cbn. intros [<- H2]. by rewrite rows_of_app, (rows_of_tag op [r] : rows_of op [(op, r)] = [r]).
Qed.
Lemma ops_inv_done_want b o w ws d rows code lost ins outs : ops_inv b o (w :: ws) d ins outs ->
  (want_ok ins outs w -> finished_ok ins (outs ++ tag (w_op w) lost) (mkFinished (w_op w) (want_ask w) code rows)) ->
  ops_inv b o ws (d ++ [mkFinished (w_op w) (want_ask w) code rows]) ins (outs ++ tag (w_op w) lost).
Proof.
  intros H Hw. pose proof (ops_inv_move _ _ _ _ b o ws (d ++ [mkFinished (w_op w) (want_ask w) code rows]) _ _ (inl (inr w))
    (inr (mkFinished (w_op w) (want_ask w) code rows)) (places b o ws d) [] lost H) as Hm.
  cbn [place_op tag map] in Hm. rewrite app_nil_r in Hm. apply Hm; [solve_places..|done|exact Hw].
Qed.
Lemma want_done ins outs w rows : want_ok ins outs w -> (length rows = w_count w \/ (w_small w = true /\ (0 < length rows < w_count w)%nat)) ->
  finished_ok ins (outs ++ tag (w_op w) rows) (mkFinished (w_op w) (want_ask w) 0 rows).
Proof.
  intros (H1 & H2 & _) Hl. cbn. rewrite rows_of_app, rows_of_tag, H2. unfold OUT_OF_RANGE, INVALID_ARGUMENT. split_and!; [done| |done|intros [?|?]; done|cbn [app]; lia].
  intros _. by split.
Qed.
Lemma want_failed ins outs w code lost : want_ok ins outs w -> (w_count w = 0%nat \/ (length lost < w_count w)%nat) /\ (code = CANCELLED /\ (length lost <= w_count w)%nat \/ code = OUT_OF_RANGE /\ lost = []) ->
  finished_ok ins (outs ++ tag (w_op w) lost) (mkFinished (w_op w) (want_ask w) code []).
Proof.
  intros (H1 & H2 & _) Hc. cbn. rewrite rows_of_app, rows_of_tag, H2. unfold CANCELLED, OUT_OF_RANGE, INVALID_ARGUMENT in *.
  destruct Hc as [Hlt [[-> Hl]|[-> ->]]]; split_and!; try done; try (intros [?|?]; done). cbn. lia.
Qed.
Lemma want_more b o w ws d ins outs r : ops_inv b o (w :: ws) d ins outs -> missing w <> 0%nat ->
  ops_inv b o (mkWant (w_op w) (w_one w) (w_small w) (w_count w) (w_got w ++ [r]) :: ws) d ins outs.
Proof.
  intros H Hm. eapply (ops_inv_move_same _ _ _ _ _ _ _ _ _ _ (inl (inr w)) (inl (inr (mkWant (w_op w) (w_one w) (w_small w) (w_count w) (w_got w ++ [r])))) (places b o ws d) H); [solve_places..|done|].
  unfold missing in Hm. unfold place_ok, want_ok. cbn. rewrite length_app. cbn. intros (? & ? & ?). split_and!; [done..|lia].
Qed.
Lemma ops_inv_offer_done b op accepted offers w d ins outs : ops_inv b (Rows op accepted [] :: offers) w d ins outs -> ops_inv b offers w (d ++ [mkFinished op (Put accepted) 0 []]) ins outs.
Proof.
  intros H. eapply (ops_inv_move_same _ _ _ _ _ _ _ _ _ _ (inl (inl (inr (Rows op accepted [])))) (inr (mkFinished op (Put accepted) 0 [])) (places b offers w d) H); [solve_places..|done|].
  cbn. intros [-> ->]. split_and!; [done..|]. exists (length accepted). by rewrite firstn_all.
Qed.

(** The part of the invariant about rows. *)
Lemma got_front w (ws : list Want) : Forall (fun w => w_got w = []) ws -> concat (map w_got (w :: ws)) = w_got w.
Proof. intros H. cbn. replace (concat (map w_got ws)) with (@nil R); [by rewrite app_nil_r|]. induction H as [|x l E _ IH]; [done|]. cbn. by rewrite E. Qed.
Lemma got_all (ws : list Want) : Forall (fun w => w_got w = []) ws -> concat (map w_got ws) = [].
Proof. induction 1 as [|x l E _ IH]; [done|]. cbn. by rewrite E. Qed.
Lemma wants_got_snoc (ws : list Want) w : w_got w = [] -> concat (map w_got (ws ++ [w])) = concat (map w_got ws).
Proof. intros E. rewrite map_app, concat_app. cbn. by rewrite E, !app_nil_r. Qed.
Lemma tail_Forall {A} (P : A -> Prop) l : Forall P l -> Forall P (tail l).
Proof. destruct 1; by cbn. Qed.
Lemma tail_app_Forall {A} (P : A -> Prop) l k x : Forall P (tail (l ++ x :: k)) -> Forall P k /\ (l = [] \/ P x) /\ Forall P (tail (l ++ k)).
Proof.
  destruct l as [|y l]; cbn; [intros H; split_and!; [done|by left|by apply tail_Forall]|].
  rewrite !Forall_app, Forall_cons. intros (? & ? & ?). split_and!; [done|by right|done..].
Qed.

Lemma spec_step_inv capacity s s' : spec_step capacity s s' -> spec_inv capacity s -> spec_inv capacity s'.
Proof.
  intros Hs Hi. pose proof (spec_inv_ops _ _ Hi) as Ho. destruct Hi as [Hord Hfr Hcap _ _ _ _ _ _].
  assert (Hops : ops_inv (s_begun s') (s_offers s') (s_wants s') (s_done s') (s_in s') (s_out s')).
  { destruct Hs as [closed items begun offers wants done ins outs op ask Hop|s s' Hs]; [by apply ops_inv_new|]. destruct Hs; cbn in Ho |- *.
    - eapply ops_inv_begun; [exact Ho|solve_places|done|]. intros E1 E2. destruct ask; cbn; rewrite E1, E2.
      + split_and!; [done..|]. exists 0%nat. split; [done|]. unfold INVALID_ARGUMENT, CANCELLED in *. cbn. split; [intros ->; lia|]. intros _. destruct rows; [by left|right; cbn; lia].
      + unfold INVALID_ARGUMENT, CANCELLED, OUT_OF_RANGE in *. split_and!; try done; cbn; [intros ->; lia|intros _; split; [done|]; lia|lia].
      + done.
    - eapply ops_inv_begun; [exact Ho|solve_places|done|]. intros E1 E2. destruct H as [->|[small ->]]; cbn; rewrite E1, E2.
      + split_and!; [done..|]. by exists 0%nat.
      + unfold INVALID_ARGUMENT, OUT_OF_RANGE. split_and!; try done. intros _. split; [done|]. by left.
    - eapply (ops_inv_begun _ _ _ _ _ _ _ _ _ _ _ _ (inl (inl (inr (Rows op [] rows))))); [exact Ho|solve_places|done|done].
    - eapply (ops_inv_begun _ _ _ _ _ _ _ _ _ _ _ _ (inl (inl (inr (Closing op))))); [exact Ho|solve_places|done|done].
    - eapply (ops_inv_begun _ _ _ _ _ _ _ _ _ _ _ _ (inl (inr (mkWant op one small count [])))); [exact Ho|solve_places|done|].
      intros E1 E2. unfold place_ok, want_ok. cbn. split_and!; [done..|lia].
    - by apply ops_inv_put.
    - by apply ops_inv_offer_done.
    - by apply ops_inv_refuse.
    - eapply (ops_inv_move_same _ _ _ _ _ _ _ _ _ _ (inl (inl (inr (Closing op)))) (inr (mkFinished op (Shut false) 0 [])) (places begun offers wants done) Ho); [solve_places..|done|].
      cbn. intros [-> ->]. done.
    - apply ops_inv_refuse_all in Ho; [|done]. rewrite app_assoc. eapply ops_inv_begun; [exact Ho|solve_places|done|]. intros E1 E2. cbn. by rewrite E1, E2.
    - by apply want_more.
    - apply ops_inv_done_want; [done|]. intros Hw. apply want_done; [done|]. left. destruct Hw as (_ & _ & ?). unfold missing in H. lia.
    - apply ops_inv_done_want; [done|]. intros Hw. apply want_done; [done|]. right. split; [done|]. unfold missing in H. rewrite length_app.
      assert (length (w_got w ++ items) <> 0)%nat by (by destruct (w_got w ++ items)). rewrite length_app in *. lia.
    - pose proof (ops_inv_done_want _ _ _ _ _ [] OUT_OF_RANGE [] _ _ Ho) as Hd. cbn [tag map] in Hd. rewrite app_nil_r in Hd. apply Hd.
      assert (Hlt : w_count w = 0%nat \/ (length (@nil R) < w_count w)%nat) by (cbn [length]; lia).
      intros Hw. pose proof (want_failed ins outs w OUT_OF_RANGE [] Hw (conj Hlt (or_intror (conj eq_refl eq_refl)))) as Hf. cbn [tag map] in Hf. by rewrite app_nil_r in Hf.
    - eapply ops_inv_perm; [eapply ops_inv_refuse; [done|]; apply (ops_inv_perm _ _ _ _ begun (offer :: offers1 ++ offers2) wants done _ _ Ho); [done|solve_Permutation|done..]|done..].
    - assert (Ho' : ops_inv begun offers (w :: wants1 ++ wants2) done ins outs) by (eapply ops_inv_perm; [exact Ho|done|done|solve_Permutation|done]).
      apply ops_inv_done_want; [done|]. intros Hw. apply want_failed; [done|]. unfold missing in H. split; [right; lia|]. left. split; [done|]. apply Hw. }
  destruct Hops as [P1 P2 P3 P4 P5 P6]. split; try done.
  - destruct Hs as [|s s' Hs]; [done|]. destruct Hs; cbn in Hord, Hfr |- *; try done.
    + by rewrite wants_got_snoc.
    + rewrite map_app, Hord, <- !app_assoc. done.
    + rewrite Hord, (got_all wants Hfr), !app_nil_r, <- !app_assoc. done.
    + rewrite Hord, (got_all wants Hfr), map_app, tag_rows, <- !app_assoc. done.
    + rewrite Hord, (got_all wants Hfr), map_app, tag_rows, <- !app_assoc. cbn. by rewrite !app_nil_r.
    + rewrite Hord, (got_all wants Hfr), <- !app_assoc. done.
    + apply tail_app_Forall in Hfr as (Hk & Hx & Hl). rewrite Hord, !map_app, tag_rows, !concat_app. cbn. rewrite (got_all wants2 Hk), !app_nil_r.
      destruct Hx as [->|Hx]; [by rewrite <- !app_assoc|]. rewrite Hx. by rewrite !app_nil_r.
  - destruct Hs as [|s s' Hs]; [done|]. destruct Hs; cbn in Hfr |- *; try done; try (by apply tail_Forall).
    + destruct wants as [|w ws]; [done|]. cbn in *. apply Forall_app. split; [done|]. by constructor.
    + by apply tail_app_Forall in Hfr as (_ & _ & ?).
  - destruct Hs as [|s s' Hs]; [done|]. destruct Hs; cbn in Hcap |- *; try done.
    + intros _. rewrite zlength_app. unfold zlength in *. cbn [length]. lia.
    + intros E. specialize (Hcap E). unfold zlength in *. cbn [length] in Hcap. lia.
Qed.
Lemma spec_reach_inv capacity s : spec_reach capacity s -> spec_inv capacity s.
Proof.
  unfold spec_reach. intros H. assert (H0 : spec_inv capacity new_Spec).
  { split; cbn; try done; [intros _; unfold zlength; cbn; lia|constructor|intros ? ? [?|?]; set_solver]. }
  revert H0. induction H as [|s1 s2 s3 Hs _ IH]; [done|]. intros Hi. by apply IH, (spec_step_inv _ _ _ Hs).
Qed.

(** Nothing that is asked for is lost or changed. *)
Lemma ops_asks s : ops s = map fst (asks s).
Proof. unfold ops, asks. by rewrite !map_app, !map_map. Qed.
Lemma spec_act_asks capacity s s' : spec_act capacity s s' -> asks s' ≡ₚ asks s.
Proof.
  intros Hs. destruct Hs; unfold asks; cbn [s_begun s_offers s_wants s_done offer_op offer_ask]; rewrite ?map_app, ?map_map; cbn [map offer_op offer_ask w_op f_op f_ask refused];
    rewrite ?app_nil_r, <- ?app_assoc; try solve_Permutation; done.
Qed.
Lemma spec_acts_asks capacity s s' : rtc (spec_act capacity) s s' -> asks s' ≡ₚ asks s.
Proof. induction 1 as [|s1 s2 s3 Hs _ IH]; [done|]. rewrite IH. by apply (spec_act_asks capacity). Qed.
Lemma spec_acts_steps capacity s s' : rtc (spec_act capacity) s s' -> rtc (spec_step capacity) s s'.
Proof. induction 1 as [|s1 s2 s3 Hs _ IH]; [done|]. eapply rtc_l; [by apply sp_act|done]. Qed.
End Spec.
Arguments Ask R : clear implicits.
Arguments Offer R : clear implicits.
Arguments Want R : clear implicits.
Arguments Finished R : clear implicits.
Arguments Spec R : clear implicits.
End FifoQueueSpec.
