(* ===== verification/FifoQueueDeques.v ===== *)
(** * FIFO queue: tensors, deques and the loops over the components

    What the loops over the components of [FifoQueue] do: the deques hold, column
    by column, a list of rows; slicing a batch gives its rows, and copying an
    element into a batch sets one.

    Under the assumptions [env_ok] on the queue and its environment, each loop of
    [FifoQueue] over the components pushes, pops or restores a whole row, and
    changes nothing else of the queue ([frame]). *)
From S2P Require Import Prelude Status TensorShape FifoQueue FifoQueueSpec.
From stdpp Require Import gmap relations.
Import Status TensorShape FifoQueue FifoQueueSpec.
Open Scope Z_scope.

Module FifoQueueFacts.

(** ** Rows *)

(** What is seen of a tensor, and a row of them. *)
Definition View (V : Type) : Type := Z * list Z * list V.
Abbreviation Row V := (list (View V)).
Definition view {V} (t : Tensor V) : View V := (dtype t, dim_sizes (shape t), flat t).
(** Slice [k] of a tensor along its first dimension. *)
Definition slice {A} (n k : nat) (l : list A) : list A := take n (drop (n * k) l).
Definition inner {V} (t : Tensor V) : nat := Z.to_nat (product (tail (dim_sizes (shape t)))).
Definition slice_view {V} (t : Tensor V) (k : nat) : View V := (dtype t, tail (dim_sizes (shape t)), slice (inner t) k (flat t)).
(** The first [n] rows of a batch. *)
Definition batch_row {V} (b : Tuple V) (k : nat) : Row V := map (fun t => slice_view t k) b.
Definition batch_rows {V} (n : nat) (b : Tuple V) : list (Row V) := map (batch_row b) (seq 0 n).
Definition batch_size {V} (b : Tuple V) : nat := Z.to_nat (default 0 (batch_size_of b)).

(** A tensor whose buffer has the elements its shape says. *)
Definition tensor_ok {V} (t : Tensor V) : Prop :=
  shape_ok (shape t) /\ within (dim_sizes (shape t)) /\ zlength (flat t) = product (dim_sizes (shape t)).

(** ** Arithmetic of slices *)

Lemma lookup_map {A B} (f : A -> B) l i : map f l !! i = f <$> l !! i.
Proof. exact (list_lookup_fmap f l i). Qed.
Lemma slice_length {A} n k d (l : list A) : length l = (n * d)%nat -> (k < d)%nat -> length (slice n k l) = n.
Proof. intros Hl Hk. unfold slice. rewrite length_take, length_drop, Hl. nia. Qed.
(** Replacing slice [k]. *)
Lemma slice_set {A} n k j d (l row : list A) : length l = (n * d)%nat -> (k < d)%nat -> length row = n ->
  slice n j (take (n * k) l ++ row ++ drop (n * (k + 1)) l) = if decide (j = k) then row else slice n j l.
Proof.
  intros Hl Hk Hr. unfold slice. assert (Hnk : (n * k + n <= n * d)%nat) by nia.
  assert (Ht : length (take (n * k) l) = (n * k)%nat) by (rewrite length_take; lia).
  destruct (decide (j = k)) as [->|Hj].
  - rewrite drop_app_length' by done. by rewrite take_app_length' by done.
  - destruct (decide (j < k)%nat) as [Hlt|Hge].
    + assert (j + 1 <= k)%nat by lia. assert (n * j + n <= n * k)%nat by nia. rewrite drop_app_le by lia. rewrite take_app_le by (rewrite length_drop; lia).
      rewrite <- (take_drop (n * k) l) at 2. rewrite drop_app_le by lia. rewrite (take_app_le (drop _ _)) by (rewrite length_drop; lia). done.
    + assert (k + 1 <= j)%nat by lia. assert (n * j >= n * k + n)%nat by nia. rewrite drop_app_ge by lia. rewrite drop_app_ge by lia. rewrite Ht, Hr, drop_drop. do 2 f_equal. lia.
Qed.
Lemma set_slice_length {A} n k d (l row : list A) : length l = (n * d)%nat -> (k < d)%nat -> length row = n ->
  length (take (n * k) l ++ row ++ drop (n * (k + 1)) l) = length l.
Proof. intros Hl Hk Hr. rewrite !length_app, length_take, length_drop. assert (n * k + n <= n * d)%nat by nia. lia. Qed.

Lemma product_nonneg l : Forall (fun x => 0 <= x) l -> 0 <= product l.
Proof. induction 1 as [|x l Hx _ IH]; cbn; [lia|]. unfold product in IH. nia. Qed.
Lemma within_cons_inv d l : within (d :: l) -> 0 < d -> within l.
Proof.
  intros [Hl [Hn Hk]] Hd. split; [unfold zlength in *; cbn [length] in Hl; lia|]. apply Forall_cons in Hn as [_ Hn]. split; [done|].
  intros k. specialize (Hk (S k)). cbn in Hk. fold (product (take k l)) in Hk. pose proof (product_nonneg _ (Forall_take _ k _ Hn)). nia.
Qed.
Lemma within_le d d' l : within (d :: l) -> 0 <= d' <= d -> within (d' :: l).
Proof.
  intros [Hl [Hn Hk]] Hd. split; [done|]. apply Forall_cons in Hn as [_ Hn]. split; [constructor; [lia|done]|].
  intros [|k]; [by vm_compute|]. specialize (Hk (S k)). cbn in Hk |- *. fold (product (take k l)) in *. pose proof (product_nonneg _ (Forall_take _ k _ Hn)). nia.
Qed.
Lemma within_product l : within l -> 0 <= product l <= kMaxElements.
Proof.
  intros [_ [Hn Hk]]. split; [by apply product_nonneg|]. specialize (Hk (length l)). rewrite firstn_all in Hk. lia.
Qed.
(** Shapes within the limits, as the sizes they list. *)
Lemma shape_sizes s : shape_ok s -> dim_sizes s = slots (rep s).
Proof. intros H. apply dim_sizes_slots, H. Qed.
Lemma shape_elements s : shape_ok s -> within (dim_sizes s) -> num_elements s = product (dim_sizes s).
Proof.
  intros H Hw. unfold num_elements. rewrite (ok_product s H), <- (shape_sizes s H). apply Z.mod_small.
  pose proof (within_product _ Hw) as Hp. unfold kMaxElements in Hp. change (Z.shiftl 1 40) with (2 ^ 40) in Hp. lia.
Qed.
Lemma first_dim s d l : shape_ok s -> dim_sizes s = d :: l -> dim_size s 0 = Some d.
Proof. intros H E. rewrite dim_size_sizes by done. by rewrite E. Qed.
Lemma first_dim_inv s d : shape_ok s -> dim_size s 0 = Some d -> exists l, dim_sizes s = d :: l.
Proof. intros H E. rewrite dim_size_sizes in E by done. destruct (dim_sizes s) as [|x l]; [done|]. injection E as ->. by exists l. Qed.
Lemma AddDims_sizes sizes s : shape_ok s -> num_elements_ s = 1 -> ndims_byte s = 0 -> within sizes -> exists s', AddDims sizes s = Some s' /\ num_elements_ s' = product sizes.
Proof.
  intros H E0 E1 [Hl Hw]. destruct (AddDims_within sizes s H) as (s' & E & En); [by rewrite E0|by rewrite E1, Z.add_0_l|]. exists s'. rewrite En, E0. split; [done|ring].
Qed.
Lemma remove_first s d l : shape_ok s -> dim_sizes s = d :: l -> 0 < d -> within (d :: l) ->
  exists s', RemoveDim 0 s = Some s' /\ shape_ok s' /\ dim_sizes s' = l.
Proof.
  intros H E Hd Hw. apply within_cons_inv in Hw as Hl; [|done].
  assert (Hex : exists s', RemoveDim 0 s = Some s').
  { unfold RemoveDim. rewrite (dims_sizes s H), E. unfold zlength. cbn [length]. rewrite (proj2 (Z.ltb_lt _ _)) by lia.
    change (AppendTo s []) with (dim_sizes s). rewrite E. change (base.delete (Z.to_nat 0) (d :: l)) with l. change ((0 <=? 0) && true) with true. cbv iota.
    destruct (AddDims_sizes l (ClearAllButDataType s)) as (s1 & E1 & En1); [apply cleared_ok|done|done|done|]. rewrite E1.
    apply AddDims_ok in E1 as (H1 & Hs1 & _); [|apply cleared_ok]. cbn in Hs1. unfold RecomputeNumElements. rewrite (shape_sizes s1 H1), Hs1.
    assert (Hr : forall p k, 0 <= p -> within_from p k -> exists n, recompute p k = Some n).
    { intros p k. revert p. induction k as [|x k IH]; intros p Hp Hwp; [by exists p|]. apply within_cons in Hwp as (Hx & Hb & Hwp); [|done].
      cbn. rewrite times_checked_small by done. apply IH; [lia|done]. }
    destruct (Hr 1 l) as [n ->]; [lia|apply Hl|]. by eexists. }
  destruct Hex as [s' E']. exists s'. destruct (RemoveDim_ok _ _ _ H E') as (H' & Es' & _). rewrite E in Es'. done.
Qed.
Lemma many_shape cs n : shape_ok cs -> within (n :: dim_sizes cs) ->
  exists s0 s, TensorShape_of [n] = Some s0 /\ AppendShape cs s0 = Some s /\ shape_ok s /\ dim_sizes s = n :: dim_sizes cs.
Proof.
  intros H Hw. assert (Hw0 : within [n]).
  { destruct Hw as [Hl [Hn Hk]]. apply Forall_cons in Hn as [Hn _]. split; [unfold MaxDimensions, zlength; cbn; lia|]. split; [by constructor|].
    intros [|k]; [by vm_compute|]. specialize (Hk 1%nat). cbn in Hk |- *. rewrite take_0 in Hk. rewrite take_nil. done. }
  destruct (AddDims_sizes [n] new_TensorShape new_shape_ok eq_refl eq_refl Hw0) as (s0 & E0 & En0). exists s0.
  destruct (AddDims_ok _ _ _ new_shape_ok E0) as (H0 & Hs0 & _). destruct Hw as [Hl [Hn Hk]].
  destruct (within_cons 1 n (dim_sizes cs) ltac:(lia) (conj Hn Hk)) as (Hn0 & _ & Hwc).
  destruct (AddDims_within (dim_sizes cs) s0 H0) as (s & E & _).
  - rewrite En0. cbn. by rewrite Z.mul_1_r, Z.mul_1_l in *.
  - rewrite <- (ok_ndims s0 H0), Hs0. unfold zlength in *. cbn in *. lia.
  - exists s. split; [done|]. split; [exact E|]. destruct (AddDims_ok _ _ _ H0 E) as (Hs & Es & _). split; [done|].
    rewrite (shape_sizes s Hs), Es, Hs0. done.
Qed.
End FifoQueueFacts.

Import Status TensorShape FifoQueue FifoQueueSpec FifoQueueFacts.
Open Scope Z_scope.

Module FifoQueueDeques.
Section Deques.
Context {V : Type} {E : QueueEnv V}.

(** A queue that [Initialize] accepts, of types that the copying functions
    handle, with memory for its tensors. *)
Record env_ok : Prop := {
  env_types : component_dtypes_ <> [];
  env_number : zlength component_dtypes_ < 2 ^ 31;
  env_shapes : component_shapes_ = [] \/ length component_shapes_ = length component_dtypes_;
  env_handled : Forall (fun d => d ∈ handled_types) component_dtypes_;
  env_within : Forall (fun cs => shape_ok cs /\ within (dim_sizes cs)) component_shapes_;
  env_capacity : 0 <= capacity_ < 2 ^ 31;
  env_memory : forall n, allocates n = true
}.
Definition ncomp : nat := length component_dtypes_.

(** An element of component [i]. *)
Definition elem_ok (i : nat) (t : Tensor V) : Prop :=
  tensor_ok t /\ component_dtypes_ !! i = Some (dtype t) /\ (forall cs, component_shapes_ !! i = Some cs -> dim_sizes (shape t) = dim_sizes cs).
(** The deques hold the rows [items], column by column. *)
Definition column (i : nat) (col : list (Tensor V)) (items : list (Row V)) : Prop :=
  Forall2 (fun t row => elem_ok i t /\ row !! i = Some (view t)) col items.
Definition columns (qs : list (list (Tensor V))) (items : list (Row V)) : Prop :=
  length qs = ncomp /\ Forall (fun row => length row = ncomp) items /\ forall i col, qs !! i = Some col -> column i col items.

(** Two queues that differ in their deques only. *)
Record frame (q q' : Queue V) : Prop := {
  fr_closed : closed_ q' = closed_ q;
  fr_enqueue : enqueue_attempts_ q' = enqueue_attempts_ q;
  fr_dequeue : dequeue_attempts_ q' = dequeue_attempts_ q;
  fr_status : forall op, status_of q' op = status_of q op
}.
#[export] Instance frame_preorder : PreOrder frame.
Proof. split; [by intros q; split|]. intros q1 q2 q3 [] []. split; congruence. Qed.

(** Columns [j .. j + m - 1] are changed as [P] says. *)
Record updates (j m : nat) (P : nat -> list (Tensor V) -> list (Tensor V) -> Prop) (q q' : Queue V) : Prop := {
  up_frame : frame q q';
  up_length : length (queues_ q') = length (queues_ q);
  up_other : forall i, (i < j \/ j + m <= i)%nat -> queues_ q' !! i = queues_ q !! i;
  up_columns : forall i col, (j <= i < j + m)%nat -> queues_ q !! i = Some col -> exists col', queues_ q' !! i = Some col' /\ P i col col'
}.
Lemma updates_nil j P q : updates j 0 P q q.
Proof. split; [done..|]. intros i col Hi. lia. Qed.
Lemma updates_cons j m P q q1 q2 col col' : queues_ q !! j = Some col -> frame q q1 -> queues_ q1 = <[j := col']> (queues_ q) -> P j col col' ->
  updates (S j) m P q1 q2 -> updates j (S m) P q q2.
Proof.
  intros Hj Hf Hq HP [H1 H2 H3 H4]. split.
  - by etrans.
  - by rewrite H2, Hq, length_insert.
  - intros i Hi. rewrite H3 by lia. rewrite Hq. apply list_lookup_insert_ne. lia.
  - intros i c Hi Hc. destruct (decide (i = j)) as [->|Hne].
    + assert (c = col) as -> by congruence. exists col'. rewrite H3 by lia. rewrite Hq, list_lookup_insert_eq by (by eapply lookup_lt_Some). done.
    + apply H4; [lia|]. rewrite Hq, list_lookup_insert_ne by done. done.
Qed.
Lemma frame_with_queues l q : frame q (with_queues l q).
Proof. done. Qed.

Lemma components_seq : env_ok -> components = seq 0 ncomp.
Proof.
  intros H. unfold components, num_components. rewrite s32_id; [|pose proof (env_number H); unfold zlength in *; lia]. unfold zlength. by rewrite Nat2Z.id.
Qed.
Lemma ncomp_pos : env_ok -> (0 < ncomp)%nat.
Proof. intros H. pose proof (env_types H). unfold ncomp. destruct component_dtypes_; [done|cbn; lia]. Qed.
Lemma type_handled i d : env_ok -> component_dtypes_ !! i = Some d -> bool_decide (d ∈ handled_types) = true.
Proof. intros H Hd. apply bool_decide_eq_true. pose proof (env_handled H) as Hf. rewrite Forall_lookup in Hf. by eapply Hf. Qed.

(** ** Columns and rows *)

Lemma columns_size qs items : env_ok -> columns qs items -> exists col, qs !! 0%nat = Some col /\ zlength col = zlength items.
Proof.
  intros H (Hl & _ & Hc). destruct (qs !! 0%nat) as [col|] eqn:E0; [|apply lookup_ge_None in E0; pose proof (ncomp_pos H); lia].
  exists col. split; [done|]. apply Hc in E0. unfold zlength. by rewrite (Forall2_length _ _ _ E0).
Qed.
Lemma wp_queue_size items q (Q : Z -> Queue V -> Prop) : env_ok -> columns (queues_ q) items -> Q (zlength items) q -> wp queue_size q Q.
Proof.
  intros H Hc HQ. destruct (columns_size _ _ H Hc) as (col & E0 & El). unfold queue_size. repeat wp_step; [exact E0|]. by rewrite El.
Qed.
Lemma updates_columns P q q' items items' : updates 0 ncomp P q q' -> columns (queues_ q) items -> Forall (fun row => length row = ncomp) items' ->
  (forall i col col', column i col items -> P i col col' -> column i col' items') -> columns (queues_ q') items'.
Proof.
  intros [_ Hl _ Hu] (Hq & _ & Hc) Hr HP. split; [lia|]. split; [done|]. intros i col' Hi.
  assert (Hlt : (i < ncomp)%nat) by (apply lookup_lt_Some in Hi; lia).
  destruct (queues_ q !! i) as [col|] eqn:E1; [|apply lookup_ge_None in E1; lia].
  destruct (Hu i col ltac:(lia) E1) as (c & Ec & HPc). assert (c = col') as -> by congruence. eapply HP; eauto.
Qed.

(** A tensor for each component, as a row. *)
Definition tuple_row (t : Tuple V) (row : Row V) : Prop := row = map view t /\ length t = ncomp /\ forall i x, t !! i = Some x -> elem_ok i x.

Lemma wp_push_back i x col q (Q : unit -> Queue V -> Prop) : queues_ q !! i = Some col -> Q tt (with_queues (<[i := col ++ [x]]> (queues_ q)) q) -> wp (push_back i x) q Q.
Proof. intros Hi HQ. unfold push_back. repeat wp_step; [exact Hi|exact HQ]. Qed.
Lemma wp_push_front i x col q (Q : unit -> Queue V -> Prop) : queues_ q !! i = Some col -> Q tt (with_queues (<[i := x :: col]> (queues_ q)) q) -> wp (push_front i x) q Q.
Proof. intros Hi HQ. unfold push_front. repeat wp_step; [exact Hi|exact HQ]. Qed.
Lemma wp_pop_front i x col q (Q : Tensor V -> Queue V -> Prop) : queues_ q !! i = Some (x :: col) -> Q x (with_queues (<[i := col]> (queues_ q)) q) -> wp (pop_front i) q Q.
Proof. intros Hi HQ. unfold pop_front. repeat wp_step; [exact Hi|]. cbv beta iota. repeat wp_step. exact HQ. Qed.

(** The loop of [TryEnqueue]'s callback. *)
Lemma push_loop (t : Tuple V) j m q : (forall i, (j <= i < j + m)%nat -> is_Some (t !! i) /\ is_Some (queues_ q !! i)) ->
  wp (for_each (seq j m) (fun i => let! c := st_opt (t !! i) in push_back i c)) q
     (fun _ q' => updates j m (fun i col col' => exists x, t !! i = Some x /\ col' = col ++ [x]) q q').
Proof.
  revert j q. induction m as [|m IH]; intros j q Hq; cbn [seq for_each]; [apply wp_ret, updates_nil|].
  destruct (Hq j ltac:(lia)) as [[x Hx] [col Hcol]]. wp_step. wp_step. eapply wp_opt; [exact Hx|]. apply (wp_push_back _ _ col); [done|].
  eapply wp_mono; [apply IH|].
  - intros i Hi. cbn. rewrite list_lookup_insert_ne by lia. apply Hq. lia.
  - intros ? q' Hu. eapply updates_cons; [exact Hcol|apply frame_with_queues|reflexivity|by exists x|done].
Qed.
Lemma column_snoc i col items x row : column i col items -> elem_ok i x -> row !! i = Some (view x) -> column i (col ++ [x]) (items ++ [row]).
Proof. intros Hc Hx Hr. apply Forall2_app; [done|]. constructor; [done|constructor]. Qed.
Lemma columns_lookup qs items i : columns qs items -> (i < ncomp)%nat -> is_Some (qs !! i).
Proof. intros (Hl & _) Hi. apply lookup_lt_is_Some. lia. Qed.
Lemma tuple_row_lookup t row i x : tuple_row t row -> t !! i = Some x -> elem_ok i x /\ row !! i = Some (view x).
Proof. intros (-> & _ & He) Hx. split; [by apply He|]. by rewrite lookup_map, Hx. Qed.
Lemma wp_push_row t row items q : env_ok -> columns (queues_ q) items -> tuple_row t row ->
  wp (for_each components (fun i => let! c := st_opt (t !! i) in push_back i c)) q (fun _ q' => frame q q' /\ columns (queues_ q') (items ++ [row])).
Proof.
  intros H Hc Ht. rewrite (components_seq H). eapply wp_mono; [apply push_loop|].
  - intros i Hi. split; [apply lookup_lt_is_Some; destruct Ht as (_ & -> & _); lia|]. apply (columns_lookup _ _ _ Hc). lia.
  - intros ? q' Hu. split; [apply Hu|]. eapply updates_columns; [exact Hu|exact Hc| |].
    + apply Forall_app. split; [apply Hc|]. constructor; [|done]. destruct Ht as (-> & Hl & _). by rewrite length_map.
    + intros i col col' Hcol (x & Hx & ->). destruct (tuple_row_lookup _ _ _ _ Ht Hx). by apply column_snoc.
Qed.

(** [DequeueLocked]. *)
Lemma pop_loop j m q : (forall i, (j <= i < j + m)%nat -> exists x col, queues_ q !! i = Some (x :: col)) ->
  wp (dequeue_components (seq j m)) q
     (fun t q' => length t = m /\ updates j m (fun i col col' => exists x, t !! (i - j)%nat = Some x /\ col = x :: col') q q').
Proof.
  revert j q. induction m as [|m IH]; intros j q Hq; cbn [seq dequeue_components]; [apply wp_ret; split; [done|apply updates_nil]|].
  destruct (Hq j ltac:(lia)) as (x & col & Hcol). wp_step. apply (wp_pop_front _ x col); [done|]. wp_step.
  eapply wp_mono; [apply IH|].
  - intros i Hi. cbn. rewrite list_lookup_insert_ne by lia. apply Hq. lia.
  - intros t q' [Hl Hu]. apply wp_ret. split; [cbn; lia|]. eapply updates_cons; [exact Hcol|apply frame_with_queues|reflexivity|exists x; by rewrite Nat.sub_diag|].
    destruct Hu as [H1 H2 H3 H4]. split; [done..|]. intros i c Hi Hc. destruct (H4 i c Hi Hc) as (c' & Hc' & y & Hy & Ey). exists c'. split; [done|].
    exists y. replace (i - j)%nat with (S (i - S j)) by lia. done.
Qed.
Lemma column_cons_inv i x col row items : column i (x :: col) (row :: items) -> elem_ok i x /\ row !! i = Some (view x) /\ column i col items.
Proof. intros Hc. by apply Forall2_cons_1 in Hc as [[? ?] ?]. Qed.
Lemma wp_DequeueLocked row items q : env_ok -> columns (queues_ q) (row :: items) ->
  wp DequeueLocked q (fun t q' => frame q q' /\ columns (queues_ q') items /\ tuple_row t row).
Proof.
  intros H Hc. unfold DequeueLocked. rewrite (components_seq H). eapply wp_mono; [apply pop_loop|].
  - intros i Hi. destruct (columns_lookup _ _ i Hc ltac:(lia)) as [col Hcol]. pose proof (proj2 (proj2 Hc) _ _ Hcol) as Hi'.
    apply Forall2_cons_inv_r in Hi' as (x & col' & _ & _ & ->). by exists x, col'.
  - intros t q' [Hl Hu]. assert (Hrow : length row = ncomp) by (destruct Hc as (_ & Hf & _); by apply Forall_cons in Hf as [? _]).
    assert (Hx : forall i, (i < ncomp)%nat -> exists x, t !! i = Some x /\ elem_ok i x /\ row !! i = Some (view x)).
    { intros i Hi. destruct (columns_lookup _ _ i Hc Hi) as [col Hcol]. destruct (up_columns _ _ _ _ _ Hu i col ltac:(lia) Hcol) as (col' & _ & x & Hx & ->).
      rewrite Nat.sub_0_r in Hx. destruct (column_cons_inv _ _ _ _ _ (proj2 (proj2 Hc) _ _ Hcol)) as (? & ? & _). by exists x. }
    split; [apply Hu|]. split.
    + eapply updates_columns; [exact Hu|exact Hc| |].
      * destruct Hc as (_ & Hf & _). by apply Forall_cons in Hf as [_ ?].
      * intros i col col' Hcol (x & _ & ->). by apply column_cons_inv in Hcol as (_ & _ & ?).
    + split_and!; [|done|].
      * apply list_eq. intros i. rewrite lookup_map. destruct (decide (i < ncomp)%nat) as [Hi|Hi].
        -- destruct (Hx i Hi) as (x & -> & _ & ->). done.
        -- rewrite (lookup_ge_None_2 row), (lookup_ge_None_2 t) by lia. done.
      * intros i x Hi. destruct (Hx i) as (y & Hy & ? & _); [apply lookup_lt_Some in Hi; lia|]. congruence.
Qed.
End Deques.
Arguments env_ok V E : clear implicits.
End FifoQueueDeques.
