(* ===== verification/FifoQueueBatches.v ===== *)
(** * FIFO queue: batches

    Slicing a batch into rows, filling one row by row, and the loops of
    [TryEnqueueMany] and [TryDequeueMany]: how many rows they move, and which. *)
From S2P Require Import Prelude Status TensorShape FifoQueue FifoQueueSpec FifoQueueDeques.
From stdpp Require Import gmap relations.
Import Status TensorShape FifoQueue FifoQueueSpec FifoQueueFacts FifoQueueDeques.
Open Scope Z_scope.

Module FifoQueueBatches.
Section Batches.
Context {V : Type} {E : QueueEnv V}.

(** A tensor of [n] elements of component [i], and a batch of [n] rows. *)
Definition stacked (n : Z) (i : nat) (x : Tensor V) : Prop :=
  tensor_ok x /\ component_dtypes_ !! i = Some (dtype x) /\
  exists rest, dim_sizes (shape x) = n :: rest /\ forall cs, component_shapes_ !! i = Some cs -> rest = dim_sizes cs.
Definition batch_ok (n : Z) (b : Tuple V) : Prop := length b = ncomp /\ forall i x, b !! i = Some x -> stacked n i x.

Lemma batch_ok_size n b : env_ok V E -> batch_ok n b -> batch_size_of b = Some n.
Proof.
  intros H [Hl Hb]. unfold batch_size_of. destruct (b !! 0%nat) as [x|] eqn:E0; [|apply lookup_ge_None in E0; pose proof (ncomp_pos H); lia].
  destruct (Hb _ _ E0) as ((Hs & _) & _ & rest & Ed & _). by apply (first_dim _ _ rest).
Qed.
Lemma stacked_flat n i x : stacked n i x -> length (flat x) = (inner x * Z.to_nat n)%nat /\ 0 <= n /\ 0 <= product (tail (dim_sizes (shape x))).
Proof.
  intros ((Hs & [Hw1 [Hw2 Hw3]] & Hf) & _ & rest & Ed & _). unfold inner. rewrite Ed in *. apply Forall_cons in Hw2 as [Hn Hr]. cbn [tail].
  pose proof (product_nonneg _ Hr) as Hp. split; [|done]. unfold zlength in Hf. cbn in Hf. fold (product rest) in Hf. nia.
Qed.
Lemma stacked_row_size n i x : stacked n i x -> 0 < n -> row_size x n = product (tail (dim_sizes (shape x))).
Proof.
  intros ((Hs & Hw & _) & _ & rest & Ed & _) Hn. unfold row_size, NumElements. rewrite shape_elements, Ed by done. cbn. fold (product rest).
  rewrite Z.mul_comm. apply Z.div_mul. lia.
Qed.
Lemma stacked_chip n i x k : stacked n i x -> 0 <= k < n -> chip x n k = Some (slice (inner x) (Z.to_nat k) (flat x)).
Proof.
  intros Hx Hk. unfold chip. rewrite (proj2 (Z.leb_le 0 k)), (proj2 (Z.ltb_lt k n)) by lia. cbn [andb]. rewrite (stacked_row_size _ _ _ Hx) by lia.
  unfold slice, inner. pose proof (stacked_flat _ _ _ Hx) as (_ & _ & Hp). do 3 f_equal. nia.
Qed.

(** ** Slicing *)

Lemma wp_allocate d sh q (Q : Status * option (Tensor V) -> Queue V -> Prop) : env_ok V E ->
  Q (OK, Some (mkTensor d sh (replicate (Z.to_nat (num_elements sh)) uninitialized))) (with_allocations (S (allocations q)) q) -> wp (allocate_tensor d sh) q Q.
Proof. intros H HQ. unfold allocate_tensor. repeat wp_step; [exact HQ|]. pose proof (env_memory H (allocations q)). congruence. Qed.
Lemma wp_GetElement n b i x k q (Q : Status * Tensor V -> Queue V -> Prop) : env_ok V E -> b !! i = Some x -> stacked n i x -> 0 <= k < n ->
  (forall e, view e = slice_view x (Z.to_nat k) -> elem_ok i e -> Q (OK, e) (with_allocations (S (allocations q)) q)) ->
  wp (GetElementComponentFromBatch b k i) q Q.
Proof.
  intros H Hi Hx Hk HQ. pose proof Hx as ((Hs & Hw & Hf) & Hd & rest & Ed & Hcs). unfold GetElementComponentFromBatch.
  rewrite Ed in Hw. destruct (remove_first _ _ _ Hs Ed ltac:(lia) Hw) as (sh & Esh & Hsh & Edsh). apply within_cons_inv in Hw as Hwr; [|lia].
  assert (Ee : num_elements sh = product rest) by (rewrite shape_elements, Edsh; [done..|by rewrite Edsh]).
  wp_step. eapply wp_opt; [exact Hi|]. wp_step. eapply wp_opt; [exact Esh|]. wp_step. apply wp_allocate; [done|]. cbv beta iota.
  set (e := mkTensor (dtype x) sh (slice (inner x) (Z.to_nat k) (flat x))).
  eapply (wp_opt _ (OK, e)).
  - unfold CopySliceToElement. rewrite (type_handled i) by done.
    unfold HandleSliceToElement. rewrite (first_dim _ _ _ Hs Ed), (proj2 (Z.eqb_neq n 0)), (stacked_row_size _ _ _ Hx) by lia.
    unfold NumElements. cbn [shape dtype flat]. rewrite Ee, Ed. cbn [tail]. rewrite !Z.eqb_refl. cbn [negb]. by rewrite (stacked_chip _ _ _ _ Hx Hk).
  - apply HQ.
    + unfold view, slice_view, e. cbn [dtype shape flat]. by rewrite Edsh, Ed.
    + split_and!; cbn [shape dtype flat e]; [|done|intros cs Hc; rewrite Edsh; by apply Hcs].
      split_and!; cbn [shape flat e]; [done|by rewrite Edsh|]. rewrite Edsh. pose proof (stacked_flat _ _ _ Hx) as (Hl & _ & Hp).
      unfold zlength. rewrite (slice_length _ _ (Z.to_nat n)) by (done || lia). unfold inner. rewrite Ed in *. cbn [tail] in *. lia.
Qed.

Lemma status_SetStatus (q : Queue V) ctx s op : status_of (with_statuses (<[ctx := Update (status_of q ctx) s]> (statuses q)) q) op = if decide (op = ctx) then Update (status_of q ctx) s else status_of q op.
Proof.
  unfold status_of at 1. cbn. destruct (decide (op = ctx)) as [->|Hne]; [by rewrite lookup_insert_eq|]. by rewrite lookup_insert_ne.
Qed.
Lemma wp_SetStatus ctx s q (Q : unit -> Queue V -> Prop) : Q tt (with_statuses (<[ctx := Update (status_of q ctx) s]> (statuses q)) q) -> wp (SetStatus ctx s) q Q.
Proof. done. Qed.
Lemma Update_OK s : Update s OK = s.
Proof. destruct s as [[st|]]; done. Qed.
(** Setting an OK status changes nothing. *)
Lemma frame_SetStatus_OK ctx (q : Queue V) : frame q (with_statuses (<[ctx := Update (status_of q ctx) OK]> (statuses q)) q).
Proof. split; [done..|]. intros op. rewrite status_SetStatus. destruct (decide (op = ctx)) as [->|]; [|done]. by apply Update_OK. Qed.
Lemma wp_status ctx q (Q : Status -> Queue V -> Prop) : Q (status_of q ctx) q -> wp (status ctx) q Q.
Proof. done. Qed.

(** One row of a batch, component by component. *)
Definition sliced (b : Tuple V) (k : nat) (i : nat) (e : Tensor V) : Prop := exists x, b !! i = Some x /\ view e = slice_view x k /\ elem_ok i e.
Lemma sliced_row b k i e : sliced b k i e -> elem_ok i e /\ batch_row b k !! i = Some (view e).
Proof. intros (x & Hx & -> & He). split; [done|]. unfold batch_row. by rewrite lookup_map, Hx. Qed.

Lemma enqueue_slices n b k ctx j m q : env_ok V E -> batch_ok n b -> 0 <= k < n -> (j + m <= ncomp)%nat -> length (queues_ q) = ncomp -> status_of q ctx = OK ->
  wp (enqueue_components (seq j m) b k ctx) q
     (fun r q' => r = true /\ updates j m (fun i col col' => exists e, sliced b (Z.to_nat k) i e /\ col' = col ++ [e]) q q').
Proof.
  intros H Hb Hk. revert j q. induction m as [|m IH]; intros j q Hj Hl Hst; cbn [seq enqueue_components]; [apply wp_ret; split; [done|apply updates_nil]|].
  destruct (lookup_lt_is_Some_2 (queues_ q) j ltac:(lia)) as [col Hcol]. destruct (lookup_lt_is_Some_2 b j) as [x Hx]; [destruct Hb as [-> _]; lia|].
  wp_step. apply (wp_GetElement n _ _ x); [done|done|by apply Hb|done|]. intros e Hv He. cbv beta iota.
  wp_step. apply wp_SetStatus. wp_step. apply wp_status. rewrite status_SetStatus, decide_True by done. cbn [statuses with_allocations].
  change (status_of (with_allocations (S (allocations q)) q) ctx) with (status_of q ctx). rewrite Hst. change (negb (ok (Update OK OK))) with false. cbv iota.
  wp_step. apply (wp_push_back _ _ col); [exact Hcol|].
  match goal with |- wp _ ?q1 _ => assert (Hf : frame q q1) end.
  { split; [done..|]. intros op. unfold status_of at 1. cbn. fold (status_of q op). destruct (decide (op = ctx)) as [->|Hne]; [by rewrite lookup_insert_eq|]. by rewrite lookup_insert_ne. }
  eapply wp_mono; [apply IH; [lia|cbn; by rewrite length_insert|]|].
  - etrans; [apply Hf|done].
  - intros r q' [-> Hu]. split; [done|]. eapply updates_cons; [exact Hcol|exact Hf|reflexivity| |exact Hu].
    exists e. split; [|done]. by exists x.
Qed.
Lemma batch_row_length n b k : batch_ok n b -> length (batch_row b k) = ncomp.
Proof. intros [Hl _]. unfold batch_row. by rewrite length_map. Qed.
Lemma wp_enqueue_row n b k ctx items q : env_ok V E -> batch_ok n b -> 0 <= k < n -> columns (queues_ q) items -> status_of q ctx = OK ->
  wp (enqueue_components components b k ctx) q (fun r q' => r = true /\ frame q q' /\ columns (queues_ q') (items ++ [batch_row b (Z.to_nat k)])).
Proof.
  intros H Hb Hk Hc Hst. rewrite (components_seq H). eapply wp_mono; [apply (enqueue_slices n); try done; apply Hc|].
  intros r q' [-> Hu]. split; [done|]. split; [apply Hu|]. eapply updates_columns; [exact Hu|exact Hc| |].
  - apply Forall_app. split; [apply Hc|]. constructor; [|done]. by eapply batch_row_length.
  - intros i col col' Hcol (e & He & ->). apply sliced_row in He as [? ?]. by apply column_snoc.
Qed.

(** Restoring. *)
Lemma column_cons i col items x row : column i col items -> elem_ok i x -> row !! i = Some (view x) -> column i (x :: col) (row :: items).
Proof. intros Hc Hx Hr. by constructor. Qed.
Definition restore_row (b : Tuple V) (k : nat) (ctx : nat) : nat -> ST (Queue V) unit := fun j =>
  let! '(s, element) := GetElementComponentFromBatch b (Z.of_nat k) j in
  (if negb (ok s) then SetStatus ctx (DataLoss (bytes_of "Failed to restore element from partially-dequeued batch to FIFOQueue: " ++ error_message s)) else st_ret tt) ;;;
  push_front j element.
Lemma restore_slices n b k ctx j m q : env_ok V E -> batch_ok n b -> Z.of_nat k < n -> (j + m <= ncomp)%nat -> length (queues_ q) = ncomp ->
  wp (for_each (seq j m) (restore_row b k ctx)) q (fun _ q' => updates j m (fun i col col' => exists e, sliced b k i e /\ col' = e :: col) q q').
Proof.
  intros H Hb Hk. revert j q. induction m as [|m IH]; intros j q Hj Hl; cbn [seq for_each]; [apply wp_ret, updates_nil|].
  destruct (lookup_lt_is_Some_2 (queues_ q) j ltac:(lia)) as [col Hcol]. destruct (lookup_lt_is_Some_2 b j) as [x Hx]; [destruct Hb as [-> _]; lia|].
  wp_step. unfold restore_row at 1. wp_step. apply (wp_GetElement n _ _ x); [done|done|by apply Hb|lia|]. intros e Hv He. cbv beta iota. rewrite Nat2Z.id in Hv.
  change (negb (ok OK)) with false. cbv iota. wp_step. wp_step. apply (wp_push_front _ _ col); [exact Hcol|].
  eapply wp_mono; [apply IH; [lia|cbn; by rewrite length_insert]|]. intros r q' Hu.
  refine (updates_cons _ _ _ _ _ _ _ _ Hcol _ _ _ Hu); [done|done|]. exists e. split; [|done]. by exists x.
Qed.
Lemma wp_restore_row n b k ctx items q : env_ok V E -> batch_ok n b -> Z.of_nat k < n -> columns (queues_ q) items ->
  wp (for_each components (restore_row b k ctx)) q (fun _ q' => frame q q' /\ columns (queues_ q') (batch_row b k :: items)).
Proof.
  intros H Hb Hk Hc. rewrite (components_seq H). eapply wp_mono; [apply (restore_slices n); try done; apply Hc|].
  intros r q' Hu. split; [apply Hu|]. eapply updates_columns; [exact Hu|exact Hc| |].
  - constructor; [by eapply batch_row_length|apply Hc].
  - intros i col col' Hcol (e & He & ->). apply sliced_row in He as [? ?]. by apply column_cons.
Qed.
Lemma batch_rows_S n (b : Tuple V) : batch_rows (S n) b = batch_rows n b ++ [batch_row b n].
Proof. unfold batch_rows. by rewrite seq_S, map_app. Qed.
Lemma batch_rows_length n (b : Tuple V) : length (batch_rows n b) = n.
Proof. unfold batch_rows. by rewrite length_map, length_seq. Qed.
Lemma wp_restore_loop n b k ctx items q : env_ok V E -> batch_ok n b -> Z.of_nat k <= n -> columns (queues_ q) items ->
  wp (restore_loop k b ctx) q (fun _ q' => frame q q' /\ columns (queues_ q') (batch_rows k b ++ items)).
Proof.
  intros H Hb. revert items q. induction k as [|k IH]; intros items q Hk Hc; cbn [restore_loop]; [by apply wp_ret|].
  wp_step. eapply wp_mono; [apply (wp_restore_row n b k ctx items); [done|done|lia|done]|]. intros r q1 [Hf1 Hc1].
  eapply wp_mono; [apply IH; [lia|exact Hc1]|]. intros r' q2 [Hf2 Hc2]. split; [by etrans|]. rewrite batch_rows_S, <- app_assoc. exact Hc2.
Qed.

(** ** Filling a batch *)

Lemma allocate_loop n j m q : env_ok V E -> (forall i cs, component_shapes_ !! i = Some cs -> within (n :: dim_sizes cs)) -> (j + m <= ncomp)%nat -> length component_shapes_ = ncomp ->
  wp (allocate_batch (seq j m) n) q (fun b q' => length b = m /\ (forall i x, b !! i = Some x -> stacked n (j + i) x) /\ frame q q' /\ queues_ q' = queues_ q).
Proof.
  intros H Hw. revert j q. induction m as [|m IH]; intros j q Hj Hl; cbn [seq allocate_batch]; [by apply wp_ret|].
  destruct (lookup_lt_is_Some_2 component_shapes_ j ltac:(lia)) as [cs Hcs]. destruct (lookup_lt_is_Some_2 component_dtypes_ j) as [d Hd]; [unfold ncomp in *; lia|].
  pose proof (env_within H) as Hf. rewrite Forall_lookup in Hf. destruct (Hf _ _ Hcs) as [Hs _]. pose proof (Hw _ _ Hcs) as Hwn.
  destruct (many_shape cs n Hs Hwn) as (s0 & s & E0 & Es & Hsok & Esz).
  wp_step. eapply wp_opt; [unfold ManyOutShape; rewrite Hcs, E0; exact Es|]. wp_step. eapply wp_opt; [exact Hd|]. wp_step. apply wp_allocate; [done|]. cbv beta iota.
  wp_step. eapply wp_mono; [apply IH; [lia|done]|]. intros b q' (Hb & Hx & Hfr & Hq). apply wp_ret. cbn [default]. split_and!; [cbn; lia| |by etrans; [|exact Hfr]|done].
  intros [|i] x Hi; cbn in Hi.
  - injection Hi as <-. rewrite Nat.add_0_r. split_and!; cbn [shape dtype]; [|done|].
    + assert (Hwn' : within (dim_sizes s)) by by rewrite Esz. split_and!; cbn [shape flat]; [done|done|]. rewrite shape_elements by done. unfold zlength. rewrite length_replicate.
      pose proof (within_product _ Hwn'). lia.
    + exists (dim_sizes cs). split; [done|]. intros cs' Hc'. congruence.
  - replace (j + S i)%nat with (S j + i)%nat by lia. by apply Hx.
Qed.
Lemma wp_allocate_batch n q : env_ok V E -> (forall i cs, component_shapes_ !! i = Some cs -> within (n :: dim_sizes cs)) -> length component_shapes_ = ncomp ->
  wp (allocate_batch components n) q (fun b q' => batch_ok n b /\ frame q q' /\ queues_ q' = queues_ q).
Proof.
  intros H Hw Hl. rewrite (components_seq H). eapply wp_mono; [by apply allocate_loop|]. intros b q' (Hb & Hx & Hf & Hq). split; [|done]. by split.
Qed.

(** A tensor after one of its slices has been set. *)
Lemma stacked_set n i x k e : stacked n i x -> 0 <= k < n -> elem_ok i e -> dim_sizes (shape e) = tail (dim_sizes (shape x)) -> dtype e = dtype x -> env_ok V E ->
  exists x', CopyElementToSlice e x k = Some (OK, x') /\ stacked n i x' /\
    forall j, slice_view x' j = if decide (j = Z.to_nat k) then view e else slice_view x j.
Proof.
  intros Hx Hk (He & Hde & _) Esz Edt H. pose proof Hx as ((Hs & Hw & Hf) & Hd & rest & Ed & Hcs). pose proof He as (Hse & Hwe & Hfe).
  pose proof (stacked_flat _ _ _ Hx) as (Hl & _ & Hp). rewrite Ed in Esz. cbn [tail] in Esz.
  assert (Hrow : length (flat e) = inner x) by (unfold inner; rewrite Ed; cbn [tail]; unfold zlength in Hfe; rewrite Esz in Hfe; lia).
  set (l := take (inner x * Z.to_nat k) (flat x) ++ flat e ++ drop (inner x * (Z.to_nat k + 1)) (flat x)).
  exists (mkTensor (dtype x) (shape x) l). split.
  - unfold CopyElementToSlice. rewrite (type_handled i) by done. unfold HandleElementToSlice.
    rewrite (first_dim _ _ _ Hs Ed), (proj2 (Z.eqb_neq n 0)), (stacked_row_size _ _ _ Hx) by lia. unfold NumElements. rewrite shape_elements, Esz, Ed by done. cbn [tail].
    rewrite Z.eqb_refl, Edt, Z.eqb_refl. cbn [negb]. unfold set_chip. rewrite (proj2 (Z.leb_le 0 k)), (proj2 (Z.ltb_lt k n)), (stacked_row_size _ _ _ Hx) by lia. cbn [andb].
    unfold l, inner. rewrite Ed in *. cbn [tail] in *. repeat f_equal; nia.
  - split.
    + split_and!; cbn [dtype shape flat]; [|done|by exists rest]. split_and!; cbn [shape flat]; [done|done|]. rewrite <- Hf. unfold zlength, l. rewrite (set_slice_length _ _ (Z.to_nat n)) by (done || lia). done.
    + intros j. unfold slice_view, inner. cbn [dtype shape flat]. fold (inner x). unfold l. rewrite (slice_set _ _ _ (Z.to_nat n)) by (done || lia).
      destruct (decide (j = Z.to_nat k)) as [->|]; [|done]. unfold view. by rewrite Esz, Ed, Edt.
Qed.

Definition row_set (t b b' : Tuple V) (k i : nat) : Prop :=
  exists e x x', t !! i = Some e /\ b !! i = Some x /\ b' !! i = Some x' /\ forall l, slice_view x' l = if decide (l = k) then view e else slice_view x l.
Lemma copy_loop n t b k ctx j m q : env_ok V E -> length component_shapes_ = ncomp -> batch_ok n b -> 0 <= k < n -> length t = ncomp -> (forall i e, t !! i = Some e -> elem_ok i e) ->
  (j + m <= ncomp)%nat -> status_of q ctx = OK ->
  wp (copy_components (seq j m) t b k ctx) q (fun r q' => exists b', r = (true, b') /\ batch_ok n b' /\ frame q q' /\ queues_ q' = queues_ q /\
    (forall i, (i < j \/ j + m <= i)%nat -> b' !! i = b !! i) /\ forall i, (j <= i < j + m)%nat -> row_set t b b' (Z.to_nat k) i).
Proof.
  intros H Hls Hb Hk Ht He. revert j b Hb q. induction m as [|m IH]; intros j b Hb q Hj Hst; cbn [seq copy_components].
  { apply wp_ret. exists b. split_and!; try done. intros i Hi. lia. }
  destruct (lookup_lt_is_Some_2 t j ltac:(lia)) as [e Hte]. destruct (lookup_lt_is_Some_2 b j) as [x Hx]; [destruct Hb as [-> _]; lia|].
  pose proof (proj2 Hb _ _ Hx) as Hsx. pose proof Hsx as ((Hs & Hw & Hf) & Hd & rest & Ed & Hcs).
  destruct (lookup_lt_is_Some_2 component_shapes_ j ltac:(lia)) as [cs Hc]. pose proof (He _ _ Hte) as Hel. pose proof Hel as (Het & Hde & Hse).
  destruct (stacked_set n j x k e Hsx Hk Hel) as (x' & Ecp & Hx' & Hsl); [by rewrite (Hse _ Hc), Ed, <- (Hcs _ Hc)|congruence|done|].
  wp_step. eapply wp_opt; [exact Hte|]. wp_step. eapply wp_opt; [exact Hx|]. wp_step. eapply wp_opt; [exact Ecp|]. cbv beta iota.
  wp_step. apply wp_SetStatus. wp_step. apply wp_status. pose proof (frame_SetStatus_OK ctx q) as Hfr. rewrite (fr_status _ _ Hfr ctx), Hst. change (negb (ok OK)) with false. cbv iota.
  assert (Hb' : batch_ok n (<[j := x']> b)).
  { destruct Hb as [Hlb Hbx]. split; [by rewrite length_insert|]. intros i y Hy. apply list_lookup_insert_Some in Hy as [(<- & <- & _)|[_ Hy]]; [done|by apply Hbx]. }
  rewrite Hst in Hfr. eapply wp_mono; [apply (IH (S j) _ Hb'); [lia|by rewrite (fr_status _ _ Hfr)]|].
  intros r q' (b' & -> & Hok & Hf2 & Hq2 & Ho & Hr). exists b'. split_and!; [done|done|by etrans|done| |].
  - intros i Hi. rewrite Ho by lia. apply list_lookup_insert_ne. lia.
  - intros i Hi. destruct (decide (i = j)) as [->|Hne].
    + exists e, x, x'. split_and!; [done|done| |done]. rewrite Ho by lia. apply list_lookup_insert_eq. by eapply lookup_lt_Some.
    + destruct (Hr i ltac:(lia)) as (e1 & x1 & x1' & H1 & H2 & H3 & H4). exists e1, x1, x1'. split_and!; try done. by rewrite list_lookup_insert_ne in H2.
Qed.
Lemma wp_copy_row n t b k ctx row q : env_ok V E -> length component_shapes_ = ncomp -> batch_ok n b -> 0 <= k < n -> tuple_row t row -> status_of q ctx = OK ->
  wp (copy_components components t b k ctx) q (fun r q' => exists b', r = (true, b') /\ batch_ok n b' /\ frame q q' /\ queues_ q' = queues_ q /\
    forall l, batch_row b' l = if decide (l = Z.to_nat k) then row else batch_row b l).
Proof.
  intros H Hls Hb Hk (-> & Ht & He) Hst. rewrite (components_seq H). eapply wp_mono; [by apply (copy_loop n)|].
  intros r q' (b' & -> & Hok & Hf & Hq & _ & Hr). exists b'. split_and!; try done. intros l. apply list_eq. intros i. unfold batch_row.
  destruct (decide (i < ncomp)%nat) as [Hi|Hi].
  - destruct (Hr i ltac:(lia)) as (e & x & x' & H1 & H2 & H3 & H4). rewrite lookup_map, H3. cbn. rewrite H4.
    destruct (decide (l = Z.to_nat k)); by rewrite lookup_map, ?H1, ?H2.
  - rewrite lookup_ge_None_2 by (rewrite length_map; destruct Hok as [-> _]; lia). symmetry. apply lookup_ge_None_2. destruct (decide _); rewrite length_map; [lia|destruct Hb as [-> _]; lia].
Qed.

(** The rows taken so far by an attempt for [n] of them. *)
Definition holds (n : Z) (got : list (Row V)) (b : Tuple V) : Prop :=
  (got = [] /\ b = []) \/ (got <> [] /\ batch_ok n b /\ got = batch_rows (length got) b).
Lemma batch_rows_set n (b b' : Tuple V) row : (forall l, batch_row b' l = if decide (l = n) then row else batch_row b l) -> batch_rows (S n) b' = batch_rows n b ++ [row].
Proof.
  intros H. rewrite batch_rows_S, H, decide_True by done. f_equal. unfold batch_rows. apply map_ext_in. intros k Hk. apply in_seq in Hk. rewrite H, decide_False by lia. done.
Qed.
Lemma batch_ok_nonempty n b : env_ok V E -> batch_ok n b -> b <> [].
Proof. intros H [Hl _] ->. pose proof (ncomp_pos H). cbn in Hl. lia. Qed.
Lemma holds_empty n got b : env_ok V E -> holds n got b -> bool_decide (b = []) = bool_decide (got = []).
Proof.
  intros H [[-> ->]|(Hg & Hb & _)]; [done|]. rewrite !bool_decide_eq_false_2; [done..|]. by eapply batch_ok_nonempty.
Qed.

(** [dequeue_many_loop]: it takes what is there, up to what is missing. *)
Definition batches_ok (n : Z) : Prop := 0 < n < 2 ^ 31 /\ length component_shapes_ = ncomp /\ forall i cs, component_shapes_ !! i = Some cs -> within (n :: dim_sizes cs).
Inductive took (rounds : nat) (callback : nat) (a : Attempt V) (result : RunResult) (n : Z) (got items : list (Row V)) : RunResult * Attempt V -> list (Row V) -> Prop :=
| took_some b : (rounds < Z.to_nat (elements_requested a))%nat -> holds n (got ++ take rounds items) b ->
    took rounds callback a result n got items (if decide (rounds = 0%nat) then result else kProgress, with_requested (elements_requested a - Z.of_nat rounds) (with_tuple b a)) (drop rounds items)
| took_all b : (Z.to_nat (elements_requested a) <= rounds)%nat -> batch_ok n b -> got ++ take (Z.to_nat (elements_requested a)) items = batch_rows (Z.to_nat n) b ->
    took rounds callback a result n got items (kComplete, with_done (Some (WithTuple callback b)) (with_requested 0 (with_tuple b a))) (drop (Z.to_nat (elements_requested a)) items).
Lemma with_same (a : Attempt V) : with_requested (elements_requested a - Z.of_nat 0) (with_tuple (tuple a) a) = a.
Proof. destruct a. unfold with_requested, with_tuple. cbn. by rewrite Z.sub_0_r. Qed.
Lemma took_later rounds callback a result n got items row b r items' : elements_requested a <> 1 -> 0 < elements_requested a ->
  took rounds callback (with_requested (elements_requested a - 1) (with_tuple b a)) kProgress n (got ++ [row]) items r items' ->
  took (S rounds) callback a result n got (row :: items) r items'.
Proof.
  intros H1 H0 Ht. inversion Ht as [b' Hr Hh E1 E2|b' Hr Hb Hg E1 E2]; subst; cbn [elements_requested with_requested with_tuple] in *.
  - replace (if decide (rounds = 0%nat) then kProgress else kProgress) with kProgress by by destruct (decide _).
    replace (with_requested (elements_requested a - 1 - Z.of_nat rounds) (with_tuple b' (with_requested (elements_requested a - 1) (with_tuple b a))))
      with (with_requested (elements_requested a - Z.of_nat (S rounds)) (with_tuple b' a)) by (unfold with_requested, with_tuple; cbn; f_equal; lia).
    change (drop rounds items) with (drop (S rounds) (row :: items)). change kProgress with (if decide (S rounds = 0%nat) then result else kProgress).
    apply took_some; [lia|]. cbn [take firstn]. by rewrite <- app_assoc in Hh.
  - replace (Z.to_nat (elements_requested a - 1)) with (pred (Z.to_nat (elements_requested a))) in * by lia. destruct (Z.to_nat (elements_requested a)) as [|m] eqn:Em; [lia|]. cbn [pred] in *.
    change (with_done (Some (WithTuple callback b')) (with_requested 0 (with_tuple b' (with_requested (elements_requested a - 1) (with_tuple b a)))))
      with (with_done (Some (WithTuple callback b')) (with_requested 0 (with_tuple b' a))). replace (drop m items) with (drop (Z.to_nat (elements_requested a)) (row :: items)) by by rewrite Em.
    apply took_all; [lia|done|]. rewrite Em. cbn [take firstn]. by rewrite <- app_assoc in Hg.
Qed.
Lemma wp_batch n got a q : env_ok V E -> batches_ok n -> holds n got (tuple a) -> elements_requested a = n - zlength got ->
  wp (if bool_decide (tuple a = []) then allocate_batch components (elements_requested a) else st_ret (tuple a)) q
     (fun b q' => batch_ok n b /\ got = batch_rows (length got) b /\ frame q q' /\ queues_ q' = queues_ q).
Proof.
  intros H (Hn & Hls & Hw) Hh Hreq. rewrite (holds_empty n got) by done. destruct Hh as [[-> Hb]|(Hg & Hb & Hgot)].
  - rewrite bool_decide_eq_true_2 by done. replace (elements_requested a) with n by (unfold zlength in Hreq; cbn in Hreq; lia).
    eapply wp_mono; [by apply wp_allocate_batch|]. intros b q' (? & ? & ?). done.
  - rewrite bool_decide_eq_false_2 by done. by apply wp_ret.
Qed.
Lemma wp_dequeue_many_loop rounds callback a result n got items q : env_ok V E -> batches_ok n -> holds n got (tuple a) -> elements_requested a = n - zlength got -> 0 < elements_requested a ->
  (rounds <= length items)%nat -> columns (queues_ q) items -> status_of q (context a) = OK ->
  wp (dequeue_many_loop rounds callback a result) q (fun r q' => exists items', took rounds callback a result n got items r items' /\ frame q q' /\ columns (queues_ q') items').
Proof.
  intros H Hn. revert a result got items q. induction rounds as [|rounds IH]; intros a result got items q Hh Hreq Hpos Hlen Hc Hst; cbn [dequeue_many_loop].
  { apply wp_ret. exists items. split; [|done]. rewrite <- (with_same a) at 2. apply (took_some 0 callback a result n got items); [lia|]. by rewrite take_0, app_nil_r. }
  destruct items as [|row items]; [cbn in Hlen; lia|]. cbn in Hlen. assert (Hgot : 0 <= zlength got < n) by (unfold zlength in *; lia). pose proof Hn as (Hn0 & Hls & _).
  wp_step. eapply wp_mono; [by apply (wp_batch n got)|]. intros b q1 (Hb & Hgb & Hf1 & Hq1).
  wp_step. eapply wp_mono; [apply (wp_DequeueLocked row items); [done|by rewrite Hq1]|]. intros t q2 (Hf2 & Hc2 & Ht).
  wp_step. eapply wp_opt; [by apply (batch_ok_size n)|]. wp_step.
  eapply wp_mono; [apply (wp_copy_row n t b _ _ row); try done; [lia|by rewrite (fr_status _ _ Hf2), (fr_status _ _ Hf1)]|].
  intros r q3 (b' & -> & Hb' & Hf3 & Hq3 & Hr). cbn [negb]. rewrite s32_id by lia. cbn [elements_requested with_requested with_tuple].
  assert (Hrows : batch_rows (S (length got)) b' = got ++ [row]).
  { rewrite Hgb at 2. apply batch_rows_set. intros l. rewrite Hr. by replace (Z.to_nat (n - elements_requested a)) with (length got) by (unfold zlength in *; lia). }
  assert (Hf : frame q q3) by (do 2 (etrans; [eassumption|]); done). assert (Hc3 : columns (queues_ q3) items) by by rewrite Hq3.
  destruct (Z.eqb_spec (elements_requested a - 1) 0) as [E0|E0].
  - apply wp_ret. exists items. split; [|done]. assert (E1 : elements_requested a = 1) by lia. rewrite E0. replace items with (drop (Z.to_nat (elements_requested a)) (row :: items)) at 2 by by rewrite E1.
    apply took_all; [lia|done|]. rewrite E1. cbn [Z.to_nat Pos.to_nat Pos.iter_op take firstn]. replace (Z.to_nat n) with (S (length got)) by (unfold zlength in *; lia). done.
  - eapply wp_mono; [apply (IH _ kProgress (got ++ [row]) items); cbn [tuple elements_requested context with_requested with_tuple]|].
    + right. split_and!; [by destruct got|done|]. rewrite length_app. cbn [length]. by rewrite Nat.add_1_r, Hrows.
    + rewrite zlength_app. unfold zlength in *. cbn [length]. lia.
    + lia.
    + lia.
    + done.
    + by rewrite (fr_status _ _ Hf).
    + intros r q4 (items' & Ht' & Hf4 & Hc4). exists items'. split; [|by split; [etrans|]]. by eapply took_later; [lia|lia|].
Qed.

(** [enqueue_many_loop]: it puts rows until it has put all or the queue is full. *)
Inductive gave (a : Attempt V) (result : RunResult) (items rows : list (Row V)) : RunResult * Attempt V -> list (Row V) -> Prop :=
| gave_some m : (m < length rows)%nat -> capacity_ <= zlength items + Z.of_nat m -> zlength items + Z.of_nat m <= Z.max (zlength items) capacity_ ->
    gave a result items rows (if decide (m = 0%nat) then result else kProgress, with_requested (elements_requested a - Z.of_nat m) a) (items ++ take m rows)
| gave_all : rows <> [] -> zlength items + zlength rows <= capacity_ -> gave a result items rows (kComplete, with_requested 0 a) (items ++ rows).
Lemma gave_later a result items row rows r items' : rows <> [] -> zlength items < capacity_ ->
  gave (with_requested (elements_requested a - 1) a) kProgress (items ++ [row]) rows r items' -> gave a result items (row :: rows) r items'.
Proof.
  intros Hr Hcap Hg. inversion Hg as [m Hm Hfull Hroom E1 E2|Hne Hroom E1 E2]; subst; rewrite <- app_assoc; rewrite ?zlength_app in *; change (zlength [row]) with 1 in *; cbn [app].
  - replace (if decide (m = 0%nat) then kProgress else kProgress) with kProgress by by destruct (decide _).
    change (row :: take m rows) with (take (S m) (row :: rows)). change kProgress with (if decide (S m = 0%nat) then result else kProgress).
    replace (with_requested (elements_requested (with_requested (elements_requested a - 1) a) - Z.of_nat m) (with_requested (elements_requested a - 1) a))
      with (with_requested (elements_requested a - Z.of_nat (S m)) a) by (unfold with_requested; cbn; f_equal; lia).
    apply gave_some; [cbn; lia|lia|lia].
  - change (with_requested 0 (with_requested (elements_requested a - 1) a)) with (with_requested 0 a). apply gave_all; [done|]. unfold zlength in *. cbn [length]. lia.
Qed.
Lemma batch_rows_drop n (b : Tuple V) k : (k < n)%nat -> drop k (batch_rows n b) = batch_row b k :: drop (S k) (batch_rows n b).
Proof.
  intros Hk. apply drop_S. unfold batch_rows. rewrite lookup_map, lookup_seq_lt by done. done.
Qed.
Lemma u64_capacity : env_ok V E -> u64 capacity_ = capacity_.
Proof. intros H. apply u64_id. pose proof (env_capacity H). lia. Qed.
Lemma wp_enqueue_many_loop fuel n b a result items q : env_ok V E -> batch_ok n b -> n < 2 ^ 31 -> 0 < elements_requested a <= n -> (Z.to_nat (elements_requested a) < fuel)%nat ->
  columns (queues_ q) items -> status_of q (context a) = OK ->
  wp (enqueue_many_loop fuel b a result) q (fun r q' => exists items', gave a result items (drop (Z.to_nat (n - elements_requested a)) (batch_rows (Z.to_nat n) b)) r items' /\ frame q q' /\ columns (queues_ q') items').
Proof.
  intros H Hb Hn. revert a result items q. induction fuel as [|fuel IH]; intros a result items q Hreq Hfuel Hc Hst; [lia|]. cbn [enqueue_many_loop].
  set (k := Z.to_nat (n - elements_requested a)). assert (Hk : (k < Z.to_nat n)%nat) by lia.
  wp_step. apply (wp_queue_size items); [done..|]. rewrite u64_capacity by done. destruct (Z.ltb_spec (zlength items) capacity_) as [Hlt|Hge].
  - wp_step. eapply wp_opt; [by apply (batch_ok_size n)|]. wp_step. eapply wp_mono; [apply (wp_enqueue_row n b _ _ items); [done|done|lia|done|done]|].
    intros r q1 (-> & Hf1 & Hc1). cbn [negb]. rewrite s32_id by lia. fold k in Hc1. rewrite batch_rows_drop by done.
    destruct (Z.eqb_spec (elements_requested a - 1) 0) as [E0|E0].
    + apply wp_ret. exists (items ++ [batch_row b k]). split; [|done]. rewrite E0. rewrite (drop_ge _ (S k)) by (rewrite batch_rows_length; lia).
      apply gave_all; [done|]. change (zlength [batch_row b k]) with 1. lia.
    + assert (Ek : Z.to_nat (n - (elements_requested a - 1)) = S k) by lia.
      eapply wp_mono; [apply (IH _ kProgress (items ++ [batch_row b k])); cbn [elements_requested context with_requested]; [lia|lia|done|by rewrite (fr_status _ _ Hf1)]|].
      intros r q2 (items' & Hg & Hf2 & Hc2). cbn [elements_requested with_requested] in Hg. rewrite Ek in Hg. exists items'. split; [|by split; [etrans|]]. apply gave_later; [|done|exact Hg].
      intros En. apply (f_equal length) in En. rewrite length_drop, batch_rows_length in En. cbn in En. lia.
  - apply wp_ret. exists items. split; [|done]. rewrite <- (app_nil_r items) at 2. change (@nil (Row V)) with (take 0 (drop k (batch_rows (Z.to_nat n) b))).
    replace (result, a) with (if decide (0%nat = 0%nat) then result else kProgress, with_requested (elements_requested a - Z.of_nat 0) a) by (destruct a; unfold with_requested; cbn; by rewrite Z.sub_0_r).
    apply gave_some; [rewrite length_drop, batch_rows_length; lia|lia|lia].
Qed.
End Batches.
End FifoQueueBatches.
