(* ===== verification/FifoQueueRefine.v ===== *)
(** * FIFO queue: the critical sections against the specification

    [qrel] relates a queue to a state of [FifoQueueSpec]: the deques to the rows,
    the attempts that are not cancelled to the operations that wait. Each run
    callback, and then the loops of [FlushUnlocked], take the steps of the
    specification; the flush ends, and leaves no attempt that could go on. *)
From S2P Require Import Prelude Status TensorShape FifoQueue FifoQueueSpec FifoQueueDeques FifoQueueBatches.
From stdpp Require Import gmap relations.
Import Status TensorShape FifoQueue FifoQueueSpec FifoQueueFacts FifoQueueDeques FifoQueueBatches.
Open Scope Z_scope.

Module FifoQueueRefine.

(** ** Runs of the specification *)
Section Runs.
Context {R : Type}.
Lemma put_rows capacity items begun op accepted rows todo offers wants done (ins outs : list (nat * R)) : rows = [] \/ zlength items + zlength rows <= capacity ->
  rtc (spec_act capacity) (mkSpec false items begun (Rows op accepted (rows ++ todo) :: offers) wants done ins outs)
    (mkSpec false (items ++ rows) begun (Rows op (accepted ++ rows) todo :: offers) wants done (ins ++ tag op rows) outs).
Proof.
  revert items accepted ins. induction rows as [|r rows IH]; intros items accepted ins Hc; [cbn; rewrite !app_nil_r; done|].
  destruct Hc as [?|Hc]; [done|]. unfold zlength in Hc. cbn [length] in Hc. eapply rtc_l; [apply sp_put; unfold zlength; lia|].
  specialize (IH (items ++ [r]) (accepted ++ [r]) (ins ++ [(op, r)])). rewrite <- !app_assoc in IH. apply IH. right. rewrite zlength_app. unfold zlength. cbn [length]. lia.
Qed.
Lemma take_rows capacity closed rows items begun offers w wants done (ins outs : list (nat * R)) : (length rows <= missing w)%nat ->
  rtc (spec_act capacity) (mkSpec closed (rows ++ items) begun offers (w :: wants) done ins outs)
    (mkSpec closed items begun offers (mkWant (w_op w) (w_one w) (w_small w) (w_count w) (w_got w ++ rows) :: wants) done ins outs).
Proof.
  revert w. induction rows as [|r rows IH]; intros w Hm; [rewrite app_nil_r; by destruct w|]. cbn [length] in Hm.
  eapply rtc_l; [apply sp_take; lia|]. specialize (IH (mkWant (w_op w) (w_one w) (w_small w) (w_count w) (w_got w ++ [r]))). cbn [w_op w_one w_small w_count w_got] in IH.
  rewrite <- app_assoc in IH. apply IH. unfold missing in *. cbn [w_count w_got]. rewrite length_app. cbn [length]. lia.
Qed.
End Runs.

Section Refine.
Context {V : Type} {E : QueueEnv V}.
Abbreviation Step := (spec_act (R := Row V) capacity_).

(** ** The relation *)

Definition live (l : list (Attempt V)) : list (Attempt V) := List.filter (fun a => negb (is_cancelled a)) l.
Definition offer_match (a : Attempt V) (o : Offer (Row V)) : Prop :=
  context a = offer_op o /\ done_callback a = Some (Plain (offer_op o)) /\
  match o with
  | Closing _ => run_callback a = CloseRun
  | Rows _ accepted todo =>
      (exists t row, run_callback a = EnqueueRun t /\ tuple_row t row /\ accepted = [] /\ todo = [row] /\ elements_requested a = 1) \/
      (exists n b, run_callback a = EnqueueManyRun b /\ batch_ok n b /\ n < 2 ^ 31 /\ 0 < elements_requested a <= n /\
        accepted = take (Z.to_nat (n - elements_requested a)) (batch_rows (Z.to_nat n) b) /\ todo = drop (Z.to_nat (n - elements_requested a)) (batch_rows (Z.to_nat n) b))
  end.
Definition want_match (a : Attempt V) (w : Want (Row V)) : Prop :=
  context a = w_op w /\ done_callback a = Some (WithTuple (w_op w) []) /\ elements_requested a = Z.of_nat (w_count w) - zlength (w_got w) /\ 0 < elements_requested a /\
  if w_one w then run_callback a = DequeueRun (w_op w) /\ w_count w = 1%nat /\ w_got w = [] /\ w_small w = false
  else run_callback a = DequeueManyRun (w_op w) (w_small w) /\ batches_ok (Z.of_nat (w_count w)) /\ holds (Z.of_nat (w_count w)) (w_got w) (tuple a).
Definition waiting (s : Spec (Row V)) : list nat := map offer_op (s_offers s) ++ map w_op (s_wants s).
Record qrel (q : Queue V) (s : Spec (Row V)) : Prop := {
  qr_closed : closed_ q = s_closed s;
  qr_columns : columns (queues_ q) (s_items s);
  qr_offers : Forall2 offer_match (live (enqueue_attempts_ q)) (s_offers s);
  qr_wants : Forall2 want_match (live (dequeue_attempts_ q)) (s_wants s);
  qr_status : forall op, op ∈ map fst (s_begun s) ++ waiting s -> status_of q op = OK
}.

(** What a callback is called with, against the operation that has finished. *)
Definition carries (f : Finished (Row V)) (d : DoneCallback V) : Prop :=
  match f_ask f, d with
  | Get one _ _, WithTuple op t => op = f_op f /\
      if f_code f =? 0 then if one then f_rows f = [map view t] else batch_ok (zlength (f_rows f)) t /\ f_rows f = batch_rows (length (f_rows f)) t
      else t = []
  | Put _, Plain op | Shut _, Plain op => op = f_op f
  | _, _ => False
  end.
Definition reports (d : DoneCallback V) (st : Status) (f : Finished (Row V)) : Prop := carries f d /\ code st = f_code f.
Definition cleaned (q : Queue V) (c : CleanUp V) (f : Finished (Row V)) : Prop := exists d, finished c = Some d /\ reports d (status_of q (f_op f)) f.

(** From [q] and [s] to [q'] and [s'], finishing [fs]; statuses change for the
    operations that waited only. *)
Record evolves (q : Queue V) (s : Spec (Row V)) (q' : Queue V) (s' : Spec (Row V)) (fs : list (Finished (Row V))) : Prop := {
  ev_steps : rtc Step s s';
  ev_rel : qrel q' s';
  ev_begun : s_begun s' = s_begun s;
  ev_done : s_done s' = s_done s ++ fs;
  ev_waiting : forall op, op ∈ waiting s' -> op ∈ waiting s;
  ev_status : forall op, op ∉ waiting s -> status_of q' op = status_of q op
}.
Lemma evolves_refl q s : qrel q s -> evolves q s q s [].
Proof. intros H. split; try done. by rewrite app_nil_r. Qed.
Lemma evolves_trans q s q1 s1 q2 s2 fs1 fs2 : evolves q s q1 s1 fs1 -> evolves q1 s1 q2 s2 fs2 -> evolves q s q2 s2 (fs1 ++ fs2).
Proof.
  intros [A1 A2 A3 A4 A5 A6] [B1 B2 B3 B4 B5 B6]. split; [by etrans|done|congruence|by rewrite B4, A4, app_assoc|auto|].
  intros op Hop. rewrite B6; [by apply A6|]. intros Hw. by apply Hop, A5.
Qed.
Lemma evolves_inv q s q' s' fs : evolves q s q' s' fs -> spec_inv capacity_ s -> spec_inv capacity_ s'.
Proof. intros [H _ _ _ _ _]. induction H as [|s1 s2 s3 Hs _ IH]; [done|]. intros Hi. by apply IH, (spec_step_inv _ _ _ (sp_act _ _ _ Hs)). Qed.
(** A finished operation does not wait any more: its status stays. *)
Lemma finished_not_waiting s f : spec_inv capacity_ s -> f ∈ s_done s -> f_op f ∉ map fst (s_begun s) ++ waiting s.
Proof.
  intros Hi Hf. pose proof (si_nodup _ _ Hi) as Hn. unfold ops in Hn. unfold waiting.
  assert (Hd : f_op f ∈ map f_op (s_done s)) by by apply list_elem_of_fmap_2. rewrite !app_assoc in Hn. apply NoDup_app in Hn as (_ & Hn & _).
  rewrite app_assoc. intros Hin. by apply (Hn _ Hin).
Qed.
Lemma cleaned_later q s q' s' fs cl fs1 : evolves q s q' s' fs -> spec_inv capacity_ s -> (forall f, f ∈ fs1 -> f ∈ s_done s) -> Forall2 (cleaned q) cl fs1 -> Forall2 (cleaned q') cl fs1.
Proof.
  intros He Hi Hd Hc. induction Hc as [|c f cl fs1 (d & Hf & Hr) _ IH]; constructor.
  - exists d. split; [done|]. rewrite (ev_status _ _ _ _ _ He); [done|]. intros Hw. apply (finished_not_waiting s f Hi); [apply Hd; by left|]. apply elem_of_app. by right.
  - apply IH. intros f' Hf'. apply Hd. by right.
Qed.

Lemma live_cons a l : is_cancelled a = false -> live (a :: l) = a :: live l.
Proof. intros H. unfold live. cbn. by rewrite H. Qed.
Lemma live_skip a l : is_cancelled a = true -> live (a :: l) = live l.
Proof. intros H. unfold live. cbn. by rewrite H. Qed.

(** The first operation that puts finishes. *)
Lemma offer_done q q' s s' a rest o os f : qrel q s -> spec_inv capacity_ s -> enqueue_attempts_ q = a :: rest -> is_cancelled a = false -> s_offers s = o :: os ->
  rtc Step s s' -> s_offers s' = os -> s_wants s' = s_wants s -> s_begun s' = s_begun s -> s_done s' = s_done s ++ [f] ->
  closed_ q' = s_closed s' -> columns (queues_ q') (s_items s') -> dequeue_attempts_ q' = dequeue_attempts_ q -> (forall op, op <> offer_op o -> status_of q' op = status_of q op) ->
  evolves q s (with_attempts kEnqueue rest q') s' [f].
Proof.
  intros Hr Hi Ea Hl Eo Hsteps Eo' Ew' Eb' Ed' Hcl Hcol Hdeq Hst. pose proof (qr_offers _ _ Hr) as Hf. rewrite Ea, live_cons, Eo in Hf by done. apply Forall2_cons_1 in Hf as [_ Hf].
  assert (Hne : forall op, op ∈ map fst (s_begun s) ++ map offer_op os ++ map w_op (s_wants s) -> op <> offer_op o).
  { intros op Hop ->. pose proof (si_nodup _ _ Hi) as Hn. unfold ops in Hn. rewrite Eo in Hn. cbn [map app] in Hn. rewrite <- Permutation_middle in Hn.
    apply NoDup_cons in Hn as [Hn _]. apply Hn. cbn [app]. set_solver. }
  split; [done| |done|done| |].
  - split; cbn [closed_ queues_ enqueue_attempts_ dequeue_attempts_ with_attempts]; [done|done|by rewrite Eo'|rewrite Hdeq, Ew'; apply Hr|].
    intros op Hop. unfold waiting in Hop. rewrite Eb', Eo', Ew' in Hop. change (status_of q' op = OK). rewrite Hst by by apply Hne. apply (qr_status _ _ Hr). unfold waiting. rewrite Eo. cbn [map]. set_solver.
  - intros op. unfold waiting. rewrite Eo', Ew', Eo. cbn [map]. set_solver.
  - intros op Hop. change (status_of q' op = status_of q op). apply Hst. intros ->. apply Hop. unfold waiting. rewrite Eo. by left.
Qed.
Lemma want_done_evolves q q' s s' a rest w ws f : qrel q s -> spec_inv capacity_ s -> dequeue_attempts_ q = a :: rest -> is_cancelled a = false -> s_wants s = w :: ws ->
  rtc Step s s' -> s_offers s' = s_offers s -> s_wants s' = ws -> s_begun s' = s_begun s -> s_done s' = s_done s ++ [f] ->
  closed_ q' = s_closed s' -> columns (queues_ q') (s_items s') -> enqueue_attempts_ q' = enqueue_attempts_ q -> (forall op, op <> w_op w -> status_of q' op = status_of q op) ->
  evolves q s (with_attempts kDequeue rest q') s' [f].
Proof.
  intros Hr Hi Ea Hl Eo Hsteps Eo' Ew' Eb' Ed' Hcl Hcol Henq Hst. pose proof (qr_wants _ _ Hr) as Hf. rewrite Ea, live_cons, Eo in Hf by done. apply Forall2_cons_1 in Hf as [_ Hf].
  assert (Hne : forall op, op ∈ map fst (s_begun s) ++ map offer_op (s_offers s) ++ map w_op ws -> op <> w_op w).
  { intros op Hop ->. pose proof (si_nodup _ _ Hi) as Hn. unfold ops in Hn. rewrite Eo in Hn. cbn [map] in Hn. rewrite (app_assoc (map fst _)) in Hn. cbn [app] in Hn. rewrite <- Permutation_middle in Hn.
    apply NoDup_cons in Hn as [Hn _]. apply Hn. set_solver. }
  split; [done| |done|done| |].
  - split; cbn [closed_ queues_ enqueue_attempts_ dequeue_attempts_ with_attempts]; [done|done|rewrite Henq, Eo'; apply Hr|by rewrite Ew'|].
    intros op Hop. unfold waiting in Hop. rewrite Eb', Eo', Ew' in Hop. change (status_of q' op = OK). rewrite Hst by by apply Hne. apply (qr_status _ _ Hr). unfold waiting. rewrite Eo. cbn [map]. set_solver.
  - intros op. unfold waiting. rewrite Eo', Ew', Eo. cbn [map]. set_solver.
  - intros op Hop. change (status_of q' op = status_of q op). apply Hst. intros ->. apply Hop. unfold waiting. rewrite Eo. cbn [map]. set_solver.
Qed.
(** The first operation goes on waiting. *)
Lemma offer_goes q q' s s' a a' rest o o' os : qrel q s -> enqueue_attempts_ q = a :: rest -> is_cancelled a = false -> s_offers s = o :: os ->
  rtc Step s s' -> s_offers s' = o' :: os -> offer_op o' = offer_op o -> is_cancelled a' = false -> offer_match a' o' -> s_wants s' = s_wants s -> s_begun s' = s_begun s -> s_done s' = s_done s ->
  closed_ q' = s_closed s' -> columns (queues_ q') (s_items s') -> frame q q' -> evolves q s (with_attempts kEnqueue (a' :: rest) q') s' [].
Proof.
  intros Hr Ea Hl Eo Hsteps Eo' Eop Hl' Hm Ew' Eb' Ed' Hcl Hcol Hf. pose proof (qr_offers _ _ Hr) as Hfo. rewrite Ea, live_cons, Eo in Hfo by done. apply Forall2_cons_1 in Hfo as [_ Hfo].
  assert (Ew : waiting s' = waiting s) by (unfold waiting; rewrite Eo', Ew', Eo; cbn [map]; by rewrite Eop).
  split; [done| |done|by rewrite app_nil_r|by rewrite Ew|].
  - split; cbn [closed_ queues_ enqueue_attempts_ dequeue_attempts_ with_attempts]; [done|done|rewrite live_cons, Eo' by done; by constructor|rewrite (fr_dequeue _ _ Hf), Ew'; apply Hr|].
    intros op. rewrite Eb', Ew. intros Hop. change (status_of q' op = OK). rewrite (fr_status _ _ Hf). by apply Hr.
  - intros op _. change (status_of q' op = status_of q op). apply Hf.
Qed.
Lemma want_goes q q' s s' a a' rest w w' ws : qrel q s -> dequeue_attempts_ q = a :: rest -> is_cancelled a = false -> s_wants s = w :: ws ->
  rtc Step s s' -> s_wants s' = w' :: ws -> w_op w' = w_op w -> is_cancelled a' = false -> want_match a' w' -> s_offers s' = s_offers s -> s_begun s' = s_begun s -> s_done s' = s_done s ->
  closed_ q' = s_closed s' -> columns (queues_ q') (s_items s') -> frame q q' -> evolves q s (with_attempts kDequeue (a' :: rest) q') s' [].
Proof.
  intros Hr Ea Hl Eo Hsteps Eo' Eop Hl' Hm Ew' Eb' Ed' Hcl Hcol Hf. pose proof (qr_wants _ _ Hr) as Hfo. rewrite Ea, live_cons, Eo in Hfo by done. apply Forall2_cons_1 in Hfo as [_ Hfo].
  assert (Ew : waiting s' = waiting s) by (unfold waiting; rewrite Eo', Ew', Eo; cbn [map]; by rewrite Eop).
  split; [done| |done|by rewrite app_nil_r|by rewrite Ew|].
  - split; cbn [closed_ queues_ enqueue_attempts_ dequeue_attempts_ with_attempts]; [done|done|rewrite (fr_enqueue _ _ Hf), Ew'; apply Hr|rewrite live_cons, Eo' by done; by constructor|].
    intros op. rewrite Eb', Ew. intros Hop. change (status_of q' op = OK). rewrite (fr_status _ _ Hf). by apply Hr.
  - intros op _. change (status_of q' op = status_of q op). apply Hf.
Qed.

(** ** One run of an attempt *)

(** An attempt that puts cannot go on when the queue is open and full; one that
    takes, when it is open and empty. *)
Definition stuck (action : Action) (s : Spec (Row V)) : Prop :=
  s_closed s = false /\ match action with kEnqueue => capacity_ <= zlength (s_items s) | kDequeue => s_items s = [] end.
Definition other (action : Action) : Action := match action with kEnqueue => kDequeue | kDequeue => kEnqueue end.
Definition after (action : Action) (rest : list (Attempt V)) (r : RunResult * Attempt V) (q' : Queue V) : Queue V :=
  with_attempts action match fst r with kComplete => rest | _ => snd r :: rest end q'.
Inductive round (action : Action) (q : Queue V) (s : Spec (Row V)) (a : Attempt V) (rest : list (Attempt V)) (q' : Queue V) : RunResult * Attempt V -> Prop :=
| round_complete a' s' f d : evolves q s (with_attempts action rest q') s' [f] -> done_callback a' = Some d -> reports d (status_of q' (f_op f)) f ->
    round action q s a rest q' (kComplete, a')
| round_progress a' s' : evolves q s (with_attempts action (a' :: rest) q') s' [] -> (Z.to_nat (elements_requested a') < Z.to_nat (elements_requested a))%nat -> is_cancelled a' = false ->
    stuck action s' -> round action q s a rest q' (kProgress, a')
| round_none a' : evolves q s (with_attempts action (a' :: rest) q') s [] -> (Z.to_nat (elements_requested a') <= Z.to_nat (elements_requested a))%nat -> is_cancelled a' = false ->
    stuck action s -> round action q s a rest q' (kNoProgress, a').

Lemma code_Cancelled m : code (Cancelled m) = CANCELLED.
Proof. done. Qed.
Lemma status_set (q : Queue V) ctx st : status_of q ctx = OK -> status_of (with_statuses (<[ctx := Update (status_of q ctx) st]> (statuses q)) q) ctx = st.
Proof. intros E0. rewrite status_SetStatus, decide_True, E0 by done. done. Qed.
(** A status set for the operation at the front. *)
Lemma status_set_other (q : Queue V) ctx st op : op <> ctx -> status_of (with_statuses (<[ctx := Update (status_of q ctx) st]> (statuses q)) q) op = status_of q op.
Proof. intros Hne. by rewrite status_SetStatus, decide_False. Qed.
Lemma waiting_offer s o os : s_offers s = o :: os -> offer_op o ∈ map fst (s_begun s) ++ waiting s.
Proof. intros Eo. unfold waiting. rewrite Eo. cbn [map]. set_solver. Qed.
Lemma waiting_want s w ws : s_wants s = w :: ws -> w_op w ∈ map fst (s_begun s) ++ waiting s.
Proof. intros Eo. unfold waiting. rewrite Eo. cbn [map]. set_solver. Qed.

(** An operation that waits has not got all it asks for. *)
Lemma offer_unfinished a o : offer_match a o -> unfinished o.
Proof.
  intros (_ & _ & Hm). destruct o as [op accepted todo|op]; [|done]. destruct Hm as [(t & row & _ & _ & _ & -> & _)|(n & b & _ & _ & _ & Hn & _ & ->)]; cbn [unfinished]; [done|].
  intros E0%(f_equal length). rewrite length_drop, batch_rows_length in E0. cbn [length] in E0. lia.
Qed.
Lemma offers_unfinished l os : Forall2 offer_match l os -> Forall unfinished os.
Proof. induction 1; constructor; [by eapply offer_unfinished|done]. Qed.
Lemma want_missing a w : want_match a w -> missing w <> 0%nat.
Proof. intros (_ & _ & Er & Hr & _). unfold missing, zlength in *. lia. Qed.

(** Refusing the operation at the front of a closed queue. *)
Lemma round_reject q s a rest o os st : qrel q s -> spec_inv capacity_ s -> enqueue_attempts_ q = a :: rest -> is_cancelled a = false -> s_offers s = o :: os -> offer_match a o ->
  s_closed s = true -> code st = CANCELLED -> wp (SetStatus (context a) st ;;; st_ret (kComplete, a)) q (fun r q' => round kEnqueue q s a rest q' r /\ dequeue_attempts_ q' = dequeue_attempts_ q).
Proof.
  intros Hr Hi Ea Hl Eo Hm Hcl Hst. pose proof Hm as (Ectx & Ed & _). wp_step. apply wp_SetStatus. wp_step. split; [|done].
  assert (Hok : status_of q (offer_op o) = OK) by (apply (qr_status _ _ Hr); by eapply waiting_offer).
  rewrite Ectx. apply (round_complete _ _ _ _ _ _ a (mkSpec true (s_items s) (s_begun s) os (s_wants s) (s_done s ++ [refused o]) (s_in s) (s_out s)) (refused o) (Plain (offer_op o))).
  - eapply (offer_done q _ s); try done; [|by rewrite <- Hcl; apply Hr|apply Hr|]; cbn [s_offers s_wants s_begun s_done s_closed s_items].
    + apply offer_unfinished in Hm. apply rtc_once. destruct s as [cl items begun offers wants dn ins outs]. cbn in *. subst. by apply sp_reject.
    + intros op Hne. by apply status_set_other.
  - done.
  - split; [|cbn [refused f_op f_code]; by rewrite status_set]. unfold carries. destruct o; done.
Qed.

Lemma run_close_round q s a rest op os : qrel q s -> spec_inv capacity_ s -> enqueue_attempts_ q = a :: rest -> is_cancelled a = false -> s_offers s = Closing op :: os -> offer_match a (Closing op) ->
  wp (run_close a) q (fun r q' => round kEnqueue q s a rest q' r /\ dequeue_attempts_ q' = dequeue_attempts_ q).
Proof.
  intros Hr Hi Ea Hl Eo Hm. unfold run_close. wp_step. wp_step. rewrite (qr_closed _ _ Hr). destruct (s_closed s) eqn:Hcl; [by eapply round_reject|].
  pose proof Hm as (Ectx & Ed & _). wp_step. wp_step. wp_step. split; [|done].
  apply (round_complete _ _ _ _ _ _ a (mkSpec true (s_items s) (s_begun s) os (s_wants s) (s_done s ++ [mkFinished op (Shut false) 0 []]) (s_in s) (s_out s)) (mkFinished op (Shut false) 0 []) (Plain op)); [|done|].
  - eapply (offer_done q _ s); try done; [|apply Hr]. apply rtc_once. destruct s as [cl items begun offers wants dn ins outs]. cbn in *. subst cl offers. apply sp_close.
  - split; [done|]. change (code (status_of q op) = 0). rewrite (qr_status _ _ Hr); [done|]. by eapply (waiting_offer _ (Closing op)).
Qed.
Lemma run_enqueue_round q s a rest op row t os : env_ok V E -> qrel q s -> spec_inv capacity_ s -> enqueue_attempts_ q = a :: rest -> is_cancelled a = false ->
  s_offers s = Rows op [] [row] :: os -> offer_match a (Rows op [] [row]) -> tuple_row t row ->
  wp (run_enqueue t a) q (fun r q' => round kEnqueue q s a rest q' r /\ dequeue_attempts_ q' = dequeue_attempts_ q).
Proof.
  intros H Hr Hi Ea Hl Eo Hm Ht. unfold run_enqueue. wp_step. wp_step. rewrite (qr_closed _ _ Hr). destruct (s_closed s) eqn:Hcl; [by eapply round_reject|].
  pose proof Hm as (Ectx & Ed & _). wp_step. apply (wp_queue_size (s_items s)); [done|apply Hr|]. rewrite u64_capacity by done. destruct (Z.ltb_spec (zlength (s_items s)) capacity_) as [Hlt|Hge].
  - wp_step. eapply wp_mono; [apply (wp_push_row t row (s_items s)); [done|apply Hr|done]|]. intros u q1 [Hf Hc]. wp_step. split; [|apply Hf].
    apply (round_complete _ _ _ _ _ _ a (mkSpec false (s_items s ++ [row]) (s_begun s) os (s_wants s) (s_done s ++ [mkFinished op (Put [row]) 0 []]) (s_in s ++ [(op, row)]) (s_out s)) (mkFinished op (Put [row]) 0 []) (Plain op)); [|done|].
    + eapply (offer_done q _ s); try done; [|by rewrite (fr_closed _ _ Hf), (qr_closed _ _ Hr)|apply Hf|intros op' _; apply Hf].
      destruct s as [cl items begun offers wants dn ins outs]. cbn in *. subst cl offers. eapply rtc_l; [by apply sp_put|]. apply rtc_once. apply (sp_put_all _ false _ _ _ _ _ _ _ op [row]).
    + split; [done|]. change (code (status_of q1 op) = 0). rewrite (fr_status _ _ Hf), (qr_status _ _ Hr); [done|]. by eapply (waiting_offer _ (Rows op [] [row])).
  - wp_step. split; [|done]. apply round_none; [|done|done|done]. eapply (offer_goes q _ s); try done; [apply Hr|apply Hr].
Qed.
Lemma run_enqueue_many_round q s a rest op accepted todo n b os : env_ok V E -> qrel q s -> spec_inv capacity_ s -> enqueue_attempts_ q = a :: rest -> is_cancelled a = false ->
  s_offers s = Rows op accepted todo :: os -> offer_match a (Rows op accepted todo) ->
  run_callback a = EnqueueManyRun b -> batch_ok n b -> n < 2 ^ 31 -> 0 < elements_requested a <= n ->
  accepted = take (Z.to_nat (n - elements_requested a)) (batch_rows (Z.to_nat n) b) -> todo = drop (Z.to_nat (n - elements_requested a)) (batch_rows (Z.to_nat n) b) ->
  wp (run_enqueue_many b a) q (fun r q' => round kEnqueue q s a rest q' r /\ dequeue_attempts_ q' = dequeue_attempts_ q).
Proof.
  intros H Hr Hi Ea Hl Eo Hm Erun Hb Hn Hreq Eacc Etodo. unfold run_enqueue_many. wp_step. wp_step. rewrite (qr_closed _ _ Hr). destruct (s_closed s) eqn:Hcl; [by eapply round_reject|].
  pose proof Hm as (Ectx & Ed & _). assert (Hok : status_of q op = OK) by (apply (qr_status _ _ Hr); by eapply (waiting_offer _ (Rows op _ _))).
  eapply wp_mono; [apply (wp_enqueue_many_loop _ n b a kNoProgress (s_items s)); try done; [lia|apply Hr|by rewrite Ectx]|].
  intros r q1 (items' & Hg & Hf & Hc). rewrite <- Etodo in Hg. split; [|apply Hf].
  assert (Hlen : length todo = Z.to_nat (elements_requested a)) by (rewrite Etodo, length_drop, batch_rows_length; lia).
  inversion Hg as [m Hm1 Hfull Hroom E1 E2|Hne Hroom E1 E2]; subst r items'.
  - set (s' := mkSpec false (s_items s ++ take m todo) (s_begun s) (Rows op (accepted ++ take m todo) (drop m todo) :: os) (s_wants s) (s_done s) (s_in s ++ tag op (take m todo)) (s_out s)).
    assert (Hev : evolves q s (with_attempts kEnqueue (with_requested (elements_requested a - Z.of_nat m) a :: rest) q1) s' []).
    { eapply (offer_goes q _ s); try done; [| |by rewrite (fr_closed _ _ Hf), (qr_closed _ _ Hr)].
      - destruct s as [cl items begun offers wants dn ins outs]. cbn in *. subst cl offers. rewrite <- (take_drop m todo) at 1. apply put_rows.
        destruct m as [|m]; [by left|right]. unfold zlength in *. rewrite length_take. lia.
      - split; [done|]. split; [done|]. right. exists n, b. cbn [elements_requested with_requested run_callback]. rewrite Eacc, Etodo. split_and!; try done; try lia.
        + replace (n - (elements_requested a - Z.of_nat m)) with (n - elements_requested a + Z.of_nat m) by lia. rewrite Z2Nat.inj_add, Nat2Z.id by lia. by rewrite take_take_drop.
        + replace (n - (elements_requested a - Z.of_nat m)) with (n - elements_requested a + Z.of_nat m) by lia. rewrite Z2Nat.inj_add, Nat2Z.id by lia. by rewrite drop_drop. }
    destruct (decide (m = 0%nat)) as [->|Hm0].
    + rewrite Z.sub_0_r in *. replace (with_requested (elements_requested a) a) with a in * by by destruct a. apply round_none; [|done|done|split; [done|lia]].
      replace s' with s in Hev; [done|]. unfold s'. destruct s as [cl items begun offers wants dn ins outs]. cbn in *. subst cl offers. by rewrite !app_nil_r.
    + apply (round_progress _ _ _ _ _ _ _ s'); [done|cbn; lia|done|]. split; [done|]. cbn. rewrite zlength_app. unfold zlength in *. rewrite length_take. lia.
  - apply (round_complete _ _ _ _ _ _ _ (mkSpec false (s_items s ++ todo) (s_begun s) os (s_wants s) (s_done s ++ [mkFinished op (Put (accepted ++ todo)) 0 []]) (s_in s ++ tag op todo) (s_out s)) (mkFinished op (Put (accepted ++ todo)) 0 []) (Plain op)); [|done|].
    + eapply (offer_done q _ s); try done; [|by rewrite (fr_closed _ _ Hf), (qr_closed _ _ Hr)|apply Hf|intros op' _; apply Hf].
      destruct s as [cl items begun offers wants dn ins outs]. cbn in *. subst cl offers. rewrite <- (app_nil_r todo) at 1. etrans; [apply put_rows; by right|]. apply rtc_once, sp_put_all.
    + split; [done|]. change (code (status_of q1 op) = 0). by rewrite (fr_status _ _ Hf), Hok.
Qed.
Lemma enqueue_round q s a rest : env_ok V E -> qrel q s -> spec_inv capacity_ s -> enqueue_attempts_ q = a :: rest -> is_cancelled a = false ->
  wp (run a) q (fun r q' => round kEnqueue q s a rest q' r /\ dequeue_attempts_ q' = dequeue_attempts_ q).
Proof.
  intros H Hr Hi Ea Hl. pose proof (qr_offers _ _ Hr) as Hf. rewrite Ea, live_cons in Hf by done. apply Forall2_cons_inv_l in Hf as (o & os & Hm & _ & Eo). unfold run. symmetry in Eo.
  pose proof Hm as (_ & _ & Hrun). destruct o as [op accepted todo|op].
  - destruct Hrun as [(t & row & -> & Ht & -> & -> & _)|(n & b & Erun & Hb & Hn & Hreq & Eacc & Etodo)]; [by eapply run_enqueue_round|]. rewrite Erun. by eapply run_enqueue_many_round.
  - rewrite Hrun. by eapply run_close_round.
Qed.

(** The operation at the front takes its rows, or fails on a closed queue. *)
Lemma round_got q q1 s a a' rest w ws rows items' t : qrel q s -> spec_inv capacity_ s -> dequeue_attempts_ q = a :: rest -> is_cancelled a = false -> s_wants s = w :: ws ->
  s_items s = rows ++ items' -> length rows = missing w -> frame q q1 -> columns (queues_ q1) items' -> done_callback a' = Some (WithTuple (w_op w) t) ->
  (if w_one w then w_got w ++ rows = [map view t] else batch_ok (zlength (w_got w ++ rows)) t /\ w_got w ++ rows = batch_rows (length (w_got w ++ rows)) t) ->
  round kDequeue q s a rest q1 (kComplete, a').
Proof.
  intros Hr Hi Ea Hl Ew Eit Hlen Hf Hc Ed Ht.
  set (w' := mkWant (w_op w) (w_one w) (w_small w) (w_count w) (w_got w ++ rows)).
  apply (round_complete _ _ _ _ _ _ _ (mkSpec (s_closed s) items' (s_begun s) (s_offers s) ws (s_done s ++ [mkFinished (w_op w) (want_ask w') 0 (w_got w ++ rows)]) (s_in s) (s_out s ++ tag (w_op w) (w_got w ++ rows)))
    (mkFinished (w_op w) (want_ask w') 0 (w_got w ++ rows)) (WithTuple (w_op w) t)); [|done|].
  - eapply (want_done_evolves q _ s); try done; [|by rewrite (fr_closed _ _ Hf), (qr_closed _ _ Hr)|apply Hf|intros op' _; apply Hf].
    destruct s as [cl items begun offers wants dn ins outs]. cbn in *. subst items wants. etrans; [apply take_rows; lia|]. fold w'. apply rtc_once.
    apply (sp_finish _ cl items' begun offers w' ws dn ins outs). unfold missing in *. cbn. rewrite length_app. lia.
  - split; [split; [done|]; exact Ht|]. change (code (status_of q1 (w_op w)) = 0). rewrite (fr_status _ _ Hf), (qr_status _ _ Hr); [done|]. by eapply waiting_want.
Qed.
Lemma round_failed q q1 s a rest w ws st : qrel q s -> spec_inv capacity_ s -> dequeue_attempts_ q = a :: rest -> is_cancelled a = false -> s_wants s = w :: ws -> want_match a w ->
  s_closed s = true -> zlength (s_items s) < elements_requested a -> w_small w = false \/ w_got w ++ s_items s = [] -> frame q q1 -> columns (queues_ q1) (w_got w ++ s_items s) -> code st = OUT_OF_RANGE ->
  round kDequeue q s a rest (with_statuses (<[context a := Update (status_of q1 (context a)) st]> (statuses q1)) q1) (kComplete, a).
Proof.
  intros Hr Hi Ea Hl Ew Hm Hcl Hlt Hsm Hf Hc Hst. pose proof Hm as (Ectx & Ed & Ereq & _).
  assert (Hok : status_of q1 (w_op w) = OK) by (rewrite (fr_status _ _ Hf); apply (qr_status _ _ Hr); by eapply waiting_want).
  apply (round_complete _ _ _ _ _ _ _ (mkSpec true (w_got w ++ s_items s) (s_begun s) (s_offers s) ws (s_done s ++ [mkFinished (w_op w) (want_ask w) OUT_OF_RANGE []]) (s_in s) (s_out s))
    (mkFinished (w_op w) (want_ask w) OUT_OF_RANGE []) (WithTuple (w_op w) [])); [|done|].
  - eapply (want_done_evolves q _ s); try done; [|cbn [closed_ with_statuses]; by rewrite (fr_closed _ _ Hf), (qr_closed _ _ Hr), Hcl|apply Hf|].
    + apply rtc_once. destruct s as [cl items begun offers wants dn ins outs]. cbn in *. subst cl wants. apply sp_fail; [|done]. unfold missing, zlength in *. lia.
    + intros op' Hne. rewrite Ectx, status_set_other by done. apply Hf.
  - split; [by split|]. cbn [f_op f_code]. by rewrite Ectx, status_set.
Qed.
Lemma run_dequeue_round q s a rest w ws c : closed_ q = c -> env_ok V E -> qrel q s -> spec_inv capacity_ s -> dequeue_attempts_ q = a :: rest -> is_cancelled a = false -> s_wants s = w :: ws -> want_match a w -> w_one w = true ->
  wp (run_dequeue (w_op w) a) q (fun r q' => round kDequeue q s a rest q' r /\ enqueue_attempts_ q' = enqueue_attempts_ q /\ closed_ q' = c).
Proof.
  intros Hqc H Hr Hi Ea Hl Ew Hm Eone. pose proof Hm as (Ectx & Ed & Ereq & Hpos & Hrun). rewrite Eone in Hrun. destruct Hrun as (_ & Ecount & Egot & Esmall).
  unfold run_dequeue. wp_step. apply (wp_queue_size (s_items s)); [done|apply Hr|]. wp_step. wp_step. rewrite (qr_closed _ _ Hr).
  destruct (s_items s) as [|row items] eqn:Eit.
  - change (zlength []) with 0. change (0 =? 0) with true. rewrite andb_true_r. destruct (s_closed s) eqn:Hcl.
    + wp_step. apply wp_SetStatus. wp_step. split; [|done]. apply (round_failed q q s a rest w ws); try done; [|by left|]; rewrite Eit.
      * by rewrite Ereq, Ecount, Egot.
      * rewrite Egot. cbn [app]. rewrite <- Eit. apply Hr.
    + change (0 <? 0) with false. cbv iota. wp_step. split; [|done]. apply round_none; [|done|done|by split]. by eapply (want_goes q _ s); try done; apply Hr.
  - assert (Hpos' : 0 < zlength (row :: items)) by (unfold zlength; cbn [length]; lia). rewrite (proj2 (Z.eqb_neq _ 0)) by lia. rewrite andb_false_r, (proj2 (Z.ltb_lt 0 _)) by lia.
    wp_step. eapply wp_mono; [apply (wp_DequeueLocked row items); [done|rewrite <- Eit; apply Hr]|]. intros t q1 (Hf & Hc & Ht). wp_step. split; [|split; [apply Hf|by rewrite (fr_closed _ _ Hf)]].
    eapply (round_got q q1 s a _ rest w ws [row] items t); try done.
    + unfold missing. by rewrite Ecount, Egot.
    + rewrite Eone, Egot. destruct Ht as (-> & _). done.
Qed.
Lemma dequeue_batch_round q s a rest w ws c : closed_ q = c -> env_ok V E -> qrel q s -> spec_inv capacity_ s -> dequeue_attempts_ q = a :: rest -> is_cancelled a = false -> s_wants s = w :: ws -> want_match a w -> w_one w = false ->
  s_closed s = false \/ elements_requested a <= zlength (s_items s) ->
  wp (dequeue_many_loop (length (s_items s)) (w_op w) a kNoProgress) q (fun r q' => round kDequeue q s a rest q' r /\ enqueue_attempts_ q' = enqueue_attempts_ q /\ closed_ q' = c).
Proof.
  intros Hqc H Hr Hi Ea Hl Ew Hm Eone Hen. pose proof Hm as (Ectx & Ed & Ereq & Hpos & Hrun). rewrite Eone in Hrun. destruct Hrun as (Erun & Hbs & Hh).
  eapply wp_mono; [apply (wp_dequeue_many_loop _ _ a kNoProgress (Z.of_nat (w_count w)) (w_got w) (s_items s)); try done; [apply Hr|rewrite Ectx; apply (qr_status _ _ Hr); by eapply waiting_want]|].
  intros r q1 (items' & Ht & Hf & Hc). split; [|split; [apply Hf|by rewrite (fr_closed _ _ Hf)]]. inversion Ht as [b Hlt Hh' E1 E2|b Hle Hb Hg E1 E2]; subst r items'.
  - assert (Hcl : s_closed s = false) by (destruct Hen as [?|Hen]; [done|unfold zlength in Hen; lia]). rewrite drop_ge in Hc by done. rewrite firstn_all in Hh'.
    set (w' := mkWant (w_op w) (w_one w) (w_small w) (w_count w) (w_got w ++ s_items s)).
    set (s' := mkSpec (s_closed s) [] (s_begun s) (s_offers s) (w' :: ws) (s_done s) (s_in s) (s_out s)).
    set (a' := with_requested (elements_requested a - Z.of_nat (length (s_items s))) (with_tuple b a)).
    assert (Hev : evolves q s (with_attempts kDequeue (a' :: rest) q1) s' []).
    { eapply (want_goes q _ s); try done; [| |by rewrite (fr_closed _ _ Hf), (qr_closed _ _ Hr)].
      - destruct s as [cl items begun offers wants dn ins outs]. cbn in *. subst cl wants. rewrite <- (app_nil_r items) at 1. apply take_rows. unfold missing, zlength in *. lia.
      - split; [done|]. split; [done|]. cbn [w' w_count w_got w_one w_small w_op]. rewrite Eone, zlength_app. unfold a', zlength in *. cbn [elements_requested with_requested with_tuple]. split_and!; try done; lia. }
    destruct (decide (length (s_items s) = 0%nat)) as [E0|E0].
    + apply (round_none _ _ _ _ _ _ a'); [|unfold a'; cbn; lia|done|split; [done|by apply nil_length_inv]].
      replace s' with s in Hev; [done|]. unfold s'. apply nil_length_inv in E0. unfold w'. rewrite E0, app_nil_r. destruct s as [cl items begun offers wants dn ins outs]. cbn in *. subst. by destruct w.
    + apply (round_progress _ _ _ _ _ _ a' s'); [done|unfold a'; cbn; lia|done|by split].
  - assert (Hgot : zlength (w_got w ++ take (Z.to_nat (elements_requested a)) (s_items s)) = Z.of_nat (w_count w)).
    { rewrite zlength_app. unfold zlength in *. rewrite length_take. lia. }
    eapply (round_got q q1 s a _ rest w ws (take (Z.to_nat (elements_requested a)) (s_items s)) _ b); try done.
    + by rewrite take_drop.
    + unfold missing, zlength in *. rewrite length_take. lia.
    + rewrite Eone, Hgot. split; [done|]. rewrite Hg, batch_rows_length. done.
Qed.
(** The rows taken so far go back to the front. *)
Lemma wp_restore w a items q : env_ok V E -> want_match a w -> w_one w = false -> columns (queues_ q) items -> wp (restore a) q (fun _ q' => frame q q' /\ columns (queues_ q') (w_got w ++ items)).
Proof.
  intros H Hm Eone Hc. destruct Hm as (_ & _ & Ereq & Hpos & Hrun). rewrite Eone in Hrun. destruct Hrun as (_ & _ & Hh). unfold restore. rewrite (holds_empty _ _ _ H Hh).
  destruct Hh as [[Hg _]|(Hg & Hb & Hgot)].
  - rewrite Hg. by wp_step.
  - rewrite bool_decide_eq_false_2 by done. cbn [negb]. wp_step. eapply wp_opt; [by eapply batch_ok_size|].
    replace (Z.to_nat (Z.of_nat (w_count w) - elements_requested a)) with (length (w_got w)) by (unfold zlength in Ereq; lia).
    eapply wp_mono; [apply (wp_restore_loop (Z.of_nat (w_count w)) _ _ _ items); try done; unfold zlength in Ereq; lia|].
    intros u q' [Hf Hc']. split; [done|]. by rewrite <- Hgot in Hc'.
Qed.
Lemma round_short q q1 s a a' rest w ws t items' : qrel q s -> spec_inv capacity_ s -> dequeue_attempts_ q = a :: rest -> is_cancelled a = false -> s_wants s = w :: ws -> want_match a w -> w_one w = false ->
  s_closed s = true -> zlength (s_items s) < elements_requested a -> w_small w = true -> w_got w ++ s_items s <> [] -> frame q q1 -> columns (queues_ q1) items' -> items' = [] ->
  done_callback a' = Some (WithTuple (w_op w) t) -> batch_ok (zlength (w_got w ++ s_items s)) t -> w_got w ++ s_items s = batch_rows (length (w_got w ++ s_items s)) t ->
  round kDequeue q s a rest q1 (kComplete, a').
Proof.
  intros Hr Hi Ea Hl Ew Hm Eone Hcl Hlt Hsm Hne Hf Hc -> Ed Hb Hg. pose proof Hm as (_ & _ & Ereq & _).
  apply (round_complete _ _ _ _ _ _ _ (mkSpec true [] (s_begun s) (s_offers s) ws (s_done s ++ [mkFinished (w_op w) (want_ask w) 0 (w_got w ++ s_items s)]) (s_in s) (s_out s ++ tag (w_op w) (w_got w ++ s_items s)))
    (mkFinished (w_op w) (want_ask w) 0 (w_got w ++ s_items s)) (WithTuple (w_op w) t)); [|done|].
  - eapply (want_done_evolves q _ s); try done; [|by rewrite (fr_closed _ _ Hf), (qr_closed _ _ Hr)|apply Hf|intros op' _; apply Hf].
    apply rtc_once. destruct s as [cl items begun offers wants dn ins outs]. cbn in *. subst cl wants. apply sp_short; [|done|done]. unfold missing, zlength in *. lia.
  - split; [split; [done|]; cbn; rewrite Eone; by split|]. change (code (status_of q1 (w_op w)) = 0). rewrite (fr_status _ _ Hf), (qr_status _ _ Hr); [done|]. by eapply waiting_want.
Qed.
Lemma run_dequeue_many_round q s a rest w ws c : closed_ q = c -> env_ok V E -> qrel q s -> spec_inv capacity_ s -> dequeue_attempts_ q = a :: rest -> is_cancelled a = false -> s_wants s = w :: ws -> want_match a w -> w_one w = false ->
  (s_closed s = true -> enqueue_attempts_ q = []) ->
  wp (run_dequeue_many (w_op w) (w_small w) a) q (fun r q' => round kDequeue q s a rest q' r /\ enqueue_attempts_ q' = enqueue_attempts_ q /\ closed_ q' = c).
Proof.
  intros Hqc H Hr Hi Ea Hl Ew Hm Eone Hnone. pose proof Hm as (Ectx & Ed & Ereq & Hpos & Hrun). rewrite Eone in Hrun. destruct Hrun as (Erun & Hbs & Hh).
  unfold run_dequeue_many. wp_step. apply (wp_queue_size (s_items s)); [done|apply Hr|]. wp_step. wp_step. rewrite (qr_closed _ _ Hr).
  destruct (Z.ltb_spec (zlength (s_items s)) (elements_requested a)) as [Hlt|Hge].
  2:{ rewrite andb_false_r. replace (Z.to_nat (zlength (s_items s))) with (length (s_items s)) by (unfold zlength; lia). apply (dequeue_batch_round q s a rest w ws c); try done. by right. }
  destruct (s_closed s) eqn:Hcl; cbn [andb].
  2:{ replace (Z.to_nat (zlength (s_items s))) with (length (s_items s)) by (unfold zlength; lia). apply (dequeue_batch_round q s a rest w ws c); try done. by left. }
  wp_step. eapply wp_mono; [apply (wp_restore w a (s_items s)); try done; apply Hr|]. intros u q1 [Hf Hc]. wp_step. apply (wp_queue_size (w_got w ++ s_items s)); [done..|].
  assert (Hok : status_of q1 (context a) = OK) by (rewrite (fr_status _ _ Hf), Ectx; apply (qr_status _ _ Hr); by eapply waiting_want).
  destruct (w_small w && (0 <? zlength (w_got w ++ s_items s))) eqn:Esh.
  - apply andb_true_iff in Esh as [Esm Hn%Z.ltb_lt]. set (n := zlength (w_got w ++ s_items s)) in *.
    assert (Hn2 : n < Z.of_nat (w_count w)) by (unfold n; rewrite zlength_app; lia). destruct Hbs as (Hcnt & Hls & Hw).
    rewrite s32_id by lia. eapply wp_mono; [apply (wp_dequeue_many_loop _ _ _ kNoProgress n [] (w_got w ++ s_items s)); cbn [tuple elements_requested context with_requested with_tuple]|].
    + done.
    + split_and!; [lia|lia|done|]. intros i cs Hcs. eapply within_le; [by eapply Hw|lia].
    + by left.
    + unfold zlength at 1. cbn. lia.
    + lia.
    + unfold n, zlength. lia.
    + done.
    + done.
    + intros r q2 (items' & Ht & Hf2 & Hc2). split; [|by rewrite (fr_enqueue _ _ Hf2), (fr_enqueue _ _ Hf), (fr_closed _ _ Hf2), (fr_closed _ _ Hf)]. inversion Ht as [b Hlt' Hh' E1 E2|b Hle Hb Hg E1 E2]; subst r items'; cbn [elements_requested with_requested with_tuple] in *; [lia|].
      eapply (round_short q q2 s a _ rest w ws b); try done.
      * intros Hnil. unfold n in Hn. rewrite Hnil in Hn. cbn in Hn. unfold zlength in Hn. cbn in Hn. lia.
      * by etrans.
      * apply drop_ge. unfold n, zlength. lia.
      * cbn [app] in Hg. rewrite take_ge in Hg by (unfold n, zlength; lia). rewrite Hg at 1. f_equal. unfold n, zlength. lia.
  - replace (w_small w && negb (bool_decide (enqueue_attempts_ q = []))) with false by (rewrite Hnone by done; by rewrite andb_false_r).
    wp_step. apply wp_status. rewrite Hok. change (ok OK) with true. cbv iota. wp_step. apply wp_SetStatus. wp_step. split; [|split; [apply Hf|change (closed_ q1 = c); by rewrite (fr_closed _ _ Hf)]].
    apply (round_failed q q1 s a rest w ws); try done. apply andb_false_iff in Esh as [?|Hz%Z.ltb_ge]; [by left|right]. apply nil_length_inv. unfold zlength in Hz. lia.
Qed.
Lemma dequeue_round q s a rest c : closed_ q = c -> env_ok V E -> qrel q s -> spec_inv capacity_ s -> dequeue_attempts_ q = a :: rest -> is_cancelled a = false -> (s_closed s = true -> enqueue_attempts_ q = []) ->
  wp (run a) q (fun r q' => round kDequeue q s a rest q' r /\ enqueue_attempts_ q' = enqueue_attempts_ q /\ closed_ q' = c).
Proof.
  intros Hqc H Hr Hi Ea Hl Hnone. pose proof (qr_wants _ _ Hr) as Hf. rewrite Ea, live_cons in Hf by done. apply Forall2_cons_inv_l in Hf as (w & ws & Hm & _ & Eo). unfold run. symmetry in Eo.
  pose proof Hm as (_ & _ & _ & _ & Hrun). destruct (w_one w) eqn:Eone; destruct Hrun as (-> & _); [by eapply run_dequeue_round|by eapply run_dequeue_many_round].
Qed.
End Refine.
End FifoQueueRefine.
