(* ===== verification/FifoQueueFlush.v ===== *)
(** * FIFO queue: [FlushUnlocked], [Cancel] and [CloseAndCancel]

    The loops around the run callbacks, and the other critical sections, as steps
    of [FifoQueueSpec]. *)
From S2P Require Import Prelude Status TensorShape FifoQueue FifoQueueSpec FifoQueueDeques FifoQueueBatches FifoQueueRefine.
From stdpp Require Import gmap relations.
Import Status TensorShape FifoQueue FifoQueueSpec FifoQueueFacts FifoQueueDeques FifoQueueBatches FifoQueueRefine.
Open Scope Z_scope.

Module FifoQueueFlush.
Section Flush.
Context {V : Type} {E : QueueEnv V}.

(** Nothing more can be done for the attempts of an action. *)
Definition settled (action : Action) (q : Queue V) (s : Spec (Row V)) : Prop :=
  match attempts action q with [] => True | a :: _ => is_cancelled a = false /\ stuck action s end.

Lemma attempts_with action l (q : Queue V) : attempts action (with_attempts action l q) = l.
Proof. by destruct action. Qed.
Lemma attempts_other action l (q : Queue V) : attempts (other action) (with_attempts action l q) = attempts (other action) q.
Proof. by destruct action. Qed.
Lemma closed_with action l (q : Queue V) : closed_ (with_attempts action l q) = closed_ q.
Proof. by destruct action. Qed.
(** Dropping a cancelled attempt. *)
Lemma skip_evolves action q s a rest : qrel q s -> attempts action q = a :: rest -> is_cancelled a = true -> evolves q s (with_attempts action rest q) s [].
Proof.
  intros Hr Ea Hl. split; [done| |done|by rewrite app_nil_r|done|by destruct action].
  destruct Hr as [H1 H2 H3 H4 H5]. destruct action; cbn in Ea; [rewrite Ea, live_skip in H3 by done|rewrite Ea, live_skip in H4 by done]; split; try done; intros op Hop; by apply H5.
Qed.
(** The run of the attempt at the front. *)
Lemma any_round action q s a rest : env_ok V E -> qrel q s -> spec_inv capacity_ s -> attempts action q = a :: rest -> is_cancelled a = false ->
  (action = kDequeue -> closed_ q = true -> enqueue_attempts_ q = []) ->
  wp (run a) q (fun r q' => round action q s a rest q' r /\ attempts (other action) q' = attempts (other action) q /\ (action = kDequeue -> closed_ q' = closed_ q)).
Proof.
  intros H Hr Hi Ea Hl Hnone. destruct action; cbn in Ea; [eapply wp_mono; [by apply enqueue_round|]|eapply wp_mono; [apply (dequeue_round q s a rest (closed_ q)); try done; rewrite <- (qr_closed _ _ Hr); by apply Hnone|]].
  - intros r q' [? ?]. split_and!; done.
  - intros r q' (? & ? & ?). split_and!; done.
Qed.
Lemma wp_set_front action l (q : Queue V) (Q : unit -> Queue V -> Prop) : Q tt (with_attempts action l q) -> wp (set_front action l) q Q.
Proof. done. Qed.

Record tried (action : Action) (q : Queue V) (s : Spec (Row V)) (clean_up : list (CleanUp V)) (progress : bool) (r : bool * list (CleanUp V)) (q' : Queue V) : Prop := {
  tr_spec : exists s' fs cl, snd r = clean_up ++ cl /\ evolves q s q' s' fs /\ Forall2 (cleaned q') cl fs /\ settled action q' s' /\ (fst r = false -> s' = s /\ fs = []);
  tr_other : attempts (other action) q' = attempts (other action) q;
  tr_weight : (flush_weight (attempts action q') <= flush_weight (attempts action q))%nat;
  tr_less : fst r = true -> progress = true \/ (flush_weight (attempts action q') < flush_weight (attempts action q))%nat;
  tr_kept : progress = true -> fst r = true
}.
Lemma flush_weight_cons a (l : list (Attempt V)) : flush_weight (a :: l) = (S (Z.to_nat (elements_requested a)) + flush_weight l)%nat.
Proof. done. Qed.
Lemma evolves_skip action q s a rest q' s' fs : evolves q s (with_attempts action rest q) s [] -> evolves (with_attempts action rest q) s q' s' fs -> attempts action q = a :: rest -> evolves q s q' s' fs.
Proof. intros H1 H2 _. exact (evolves_trans _ _ _ _ _ _ _ _ H1 H2). Qed.
Lemma wp_try_loop action fuel clean_up progress q s : env_ok V E -> qrel q s -> spec_inv capacity_ s -> (length (attempts action q) < fuel)%nat ->
  (action = kDequeue -> closed_ q = true -> enqueue_attempts_ q = []) ->
  wp (try_loop fuel action clean_up progress) q (tried action q s clean_up progress).
Proof.
  intros H. revert clean_up progress q s. induction fuel as [|fuel IH]; intros clean_up progress q s Hr Hi Hfuel Hnone; [lia|]. cbn [try_loop].
  wp_step. wp_step. destruct (attempts action q) as [|a rest] eqn:Ea.
  { wp_step. split; cbn [fst snd]; [|done|done|by left|done]. exists s, [], []. split_and!; [by rewrite app_nil_r|by apply evolves_refl|constructor|unfold settled; by rewrite Ea|done]. }
  cbn [length] in Hfuel. destruct (is_cancelled a) eqn:Hl.
  - wp_step. apply wp_set_front. pose proof (skip_evolves _ _ _ _ _ Hr Ea Hl) as Hev.
    eapply wp_mono; [apply (IH clean_up progress _ s); [by apply Hev|done|rewrite attempts_with; lia|intros -> ; by apply Hnone]|].
    intros r q' [(s' & fs & cl & E1 & E2 & E3 & E4 & E5) T2 T3 T4 T5]. rewrite attempts_with in T3, T4. rewrite attempts_other in T2. split; try done.
    + exists s', fs, cl. split_and!; try done. by eapply evolves_skip.
    + rewrite Ea, flush_weight_cons. lia.
    + intros Hp. destruct (T4 Hp) as [?|?]; [by left|right]. rewrite Ea, flush_weight_cons. lia.
  - wp_step. eapply wp_mono; [by apply (any_round action q s a rest)|]. intros r q1 (Hround & Hoth & Hclosed).
    destruct Hround as [a' s1 f d Hev Hd Hrep|a' s1 Hev Hw Hl' Hst|a' Hev Hw Hl' Hst]; wp_step; apply wp_set_front.
    + pose proof (evolves_inv _ _ _ _ _ Hev Hi) as Hi1.
      eapply wp_mono; [apply (IH _ true _ s1); [by apply Hev|done|rewrite attempts_with; lia|]|].
      { intros ->. cbn in *. rewrite Hclosed, Hoth by done. by apply Hnone. }
      intros r q' [(s' & fs & cl & E1 & E2 & E3 & E4 & E5) T2 T3 T4 T5]. rewrite attempts_with in T3, T4. rewrite attempts_other in T2. specialize (T5 eq_refl). split; try done.
      * exists s', (f :: fs), (mkCleanUp (done_callback a') (cancellation_token a') (cancellation_manager (context a')) :: cl).
        split_and!; [by rewrite E1, <- app_assoc|exact (evolves_trans _ _ _ _ _ _ _ _ Hev E2)| |done|by rewrite T5].
        change (Forall2 (cleaned q') ([mkCleanUp (done_callback a') (cancellation_token a') (cancellation_manager (context a'))] ++ cl) ([f] ++ fs)). apply Forall2_app; [|done]. eapply (cleaned_later _ _ _ _ _ _ [f] E2 Hi1).
        -- intros f' ->%list_elem_of_singleton. rewrite (ev_done _ _ _ _ _ Hev). apply elem_of_app. right. by left.
        -- constructor; [|constructor]. exists d. split; [done|]. by destruct action.
      * congruence.
      * rewrite Ea, flush_weight_cons. lia.
      * intros _. right. rewrite Ea, flush_weight_cons. lia.
    + wp_step. split; cbn [fst snd]; rewrite ?attempts_with, ?attempts_other, ?Ea, ?flush_weight_cons; try done; [|lia|intros _; right; lia].
      exists s1, [], []. split_and!; [by rewrite app_nil_r|done|constructor| |done]. unfold settled. by rewrite attempts_with.
    + wp_step. split; cbn [fst snd]; rewrite ?attempts_with, ?attempts_other, ?Ea, ?flush_weight_cons; try done; [|lia|by left].
      exists s, [], []. split_and!; [by rewrite app_nil_r|done|constructor| |done]. unfold settled. by rewrite attempts_with.
Qed.
(** [FlushUnlocked] ends, and leaves only attempts that cannot go on. *)
Record flushed (q : Queue V) (s : Spec (Row V)) (clean_up clean_up' : list (CleanUp V)) (q' : Queue V) : Prop := {
  fl_spec : exists s' fs cl, clean_up' = clean_up ++ cl /\ evolves q s q' s' fs /\ Forall2 (cleaned q') cl fs /\ settled kEnqueue q' s' /\ settled kDequeue q' s'
}.
Lemma wp_flush_loop fuel clean_up q s : env_ok V E -> qrel q s -> spec_inv capacity_ s -> (flush_weight (enqueue_attempts_ q) + flush_weight (dequeue_attempts_ q) < fuel)%nat ->
  wp (flush_loop fuel clean_up) q (flushed q s clean_up).
Proof.
  intros H. revert clean_up q s. induction fuel as [|fuel IH]; intros clean_up q s Hr Hi Hfuel; [lia|]. cbn [flush_loop].
  wp_step. unfold TryAttemptLocked at 1. wp_step. wp_step. eapply wp_mono; [apply (wp_try_loop kEnqueue _ _ _ _ s); try done; lia|].
  intros [c1 cu1] q1 [(s1 & fs1 & cl1 & E1 & E2 & E3 & E4 & E5) T2 T3 T4 _]. cbn [fst snd] in *. pose proof (evolves_inv _ _ _ _ _ E2 Hi) as Hi1. pose proof (ev_rel _ _ _ _ _ E2) as Hr1.
  assert (Hnone : closed_ q1 = true -> enqueue_attempts_ q1 = []).
  { intros Hcl. unfold settled in E4. cbn in E4. destruct (enqueue_attempts_ q1) as [|a l]; [done|]. destruct E4 as [_ [Hst _]]. rewrite (qr_closed _ _ Hr1) in Hcl. congruence. }
  wp_step. unfold TryAttemptLocked. wp_step. wp_step. eapply wp_mono; [apply (wp_try_loop kDequeue _ _ _ _ s1); try done; lia|].
  intros [c2 cu2] q2 [(s2 & fs2 & cl2 & F1 & F2 & F3 & F4 & F5) U2 U3 U4 _]. cbn [fst snd other attempts] in *. pose proof (evolves_inv _ _ _ _ _ F2 Hi1) as Hi2.
  assert (Hcl : Forall2 (cleaned q2) (cl1 ++ cl2) (fs1 ++ fs2)).
  { apply Forall2_app; [|done]. eapply (cleaned_later _ _ _ _ _ _ _ F2 Hi1); [|done]. intros f Hf. rewrite (ev_done _ _ _ _ _ E2). apply elem_of_app. by right. }
  pose proof (evolves_trans _ _ _ _ _ _ _ _ E2 F2) as G.
  destruct (c2 || c1) eqn:Ec.
  - eapply wp_mono; [apply (IH cu2 q2 s2); [apply F2|done|]|].
    + rewrite U2. cbn [other attempts] in T2, T3, T4. rewrite T2 in U3, U4. destruct c2; [destruct (U4 eq_refl); [done|lia]|]. destruct c1; [destruct (T4 eq_refl); [done|lia]|done].
    + intros cu3 q3 [(s3 & fs3 & cl3 & G1 & G2 & G3 & G4 & G5)]. split. exists s3, ((fs1 ++ fs2) ++ fs3), ((cl1 ++ cl2) ++ cl3). split_and!; try done.
      * by rewrite G1, F1, E1, <- !app_assoc.
      * exact (evolves_trans _ _ _ _ _ _ _ _ G G2).
      * apply Forall2_app; [|done]. eapply (cleaned_later _ _ _ _ _ _ _ G2 Hi2); [|done]. intros f Hf. rewrite (ev_done _ _ _ _ _ G). apply elem_of_app. by right.
  - apply orb_false_iff in Ec as [-> ->]. destruct (F5 eq_refl) as [-> ->]. wp_step. split. exists s1, (fs1 ++ []), (cl1 ++ cl2). split_and!; try done; [by rewrite F1, E1, app_assoc|].
    unfold settled in *. cbn in *. by rewrite U2.
Qed.
Lemma wp_FlushLocked q s : env_ok V E -> qrel q s -> spec_inv capacity_ s -> wp FlushLocked q (flushed q s []).
Proof. intros H Hr Hi. unfold FlushLocked. wp_step. wp_step. apply wp_flush_loop; try done. unfold flush_fuel. lia. Qed.

(** ** The other critical sections *)

Lemma live_app (l k : list (Attempt V)) : live (l ++ k) = live l ++ live k.
Proof. apply List.filter_app. Qed.
(** A new attempt. *)
Lemma push_offer q s a o b1 b2 : qrel q s -> s_begun s = b1 ++ (offer_op o, offer_ask o) :: b2 -> is_cancelled a = false -> offer_match a o ->
  match o with Rows _ accepted _ => accepted = [] | Closing _ => True end ->
  exists s', spec_act capacity_ s s' /\ s_begun s' = b1 ++ b2 /\ s_done s' = s_done s /\ qrel (with_attempts kEnqueue (attempts kEnqueue q ++ [a]) q) s'.
Proof.
  intros Hr Eb Hl Hm Ho. exists (mkSpec (s_closed s) (s_items s) (b1 ++ b2) (s_offers s ++ [o]) (s_wants s) (s_done s) (s_in s) (s_out s)). split_and!; [|done|done|].
  - destruct s as [cl items begun offers wants dn ins outs]. cbn in *. subst begun. destruct o as [op accepted todo|op]; [subst accepted; apply sp_offer|apply sp_closing].
  - destruct Hr as [H1 H2 H3 H4 H5]. split; cbn [with_attempts attempts closed_ queues_ enqueue_attempts_ dequeue_attempts_ s_closed s_items s_offers s_wants s_begun]; [done|done| |done|].
    + rewrite live_app, live_cons by done. apply Forall2_app; [done|]. constructor; [done|constructor].
    + intros op Hop. apply H5. revert Hop. unfold waiting. rewrite Eb. cbn. rewrite !map_app. cbn. set_solver.
Qed.
Lemma push_want q s a w b1 b2 : qrel q s -> s_begun s = b1 ++ (w_op w, want_ask w) :: b2 -> is_cancelled a = false -> want_match a w -> w_got w = [] ->
  exists s', spec_act capacity_ s s' /\ s_begun s' = b1 ++ b2 /\ s_done s' = s_done s /\ qrel (with_attempts kDequeue (attempts kDequeue q ++ [a]) q) s'.
Proof.
  intros Hr Eb Hl Hm Hg. exists (mkSpec (s_closed s) (s_items s) (b1 ++ b2) (s_offers s) (s_wants s ++ [w]) (s_done s) (s_in s) (s_out s)). split_and!; [|done|done|].
  - destruct s as [cl items begun offers wants dn ins outs]. cbn in *. subst begun. destruct w as [op one small count got]. cbn in Hg. subst got. apply sp_want.
  - destruct Hr as [H1 H2 H3 H4 H5]. split; cbn [with_attempts attempts closed_ queues_ enqueue_attempts_ dequeue_attempts_ s_closed s_items s_offers s_wants s_begun]; [done|done|done| |].
    + rewrite live_app, live_cons by done. apply Forall2_app; [done|]. constructor; [done|constructor].
    + intros op Hop. apply H5. revert Hop. unfold waiting. rewrite Eb. cbn. rewrite !map_app. cbn. set_solver.
Qed.
(** An operation that ends without waiting, its status set or not. *)
Lemma refuse_begun q s op ask b1 b2 st f : qrel q s -> s_begun s = b1 ++ (op, ask) :: b2 -> spec_inv capacity_ s ->
  (code st = INVALID_ARGUMENT \/ code st = CANCELLED) -> f = mkFinished op ask (code st) [] ->
  exists s', spec_act capacity_ s s' /\ s_begun s' = b1 ++ b2 /\ s_done s' = s_done s ++ [f] /\
    qrel (with_statuses (<[op := Update (status_of q op) st]> (statuses q)) q) s'.
Proof.
  intros Hr Eb Hi Hst ->. exists (mkSpec (s_closed s) (s_items s) (b1 ++ b2) (s_offers s) (s_wants s) (s_done s ++ [mkFinished op ask (code st) []]) (s_in s) (s_out s)). split_and!; [|done|done|].
  - destruct s as [cl items begun offers wants dn ins outs]. cbn in *. subst begun. by apply sp_refuse.
  - destruct Hr as [H1 H2 H3 H4 H5]. split; cbn [s_closed s_items s_offers s_wants s_begun]; [done..|]. intros op' Hop. rewrite status_set_other.
    + apply H5. revert Hop. unfold waiting. rewrite Eb. cbn. rewrite !map_app. cbn. set_solver.
    + intros ->. pose proof (si_nodup _ _ Hi) as Hn. unfold ops in Hn. rewrite Eb, map_app in Hn. cbn [map] in Hn. rewrite <- app_assoc in Hn. cbn [app] in Hn. rewrite <- Permutation_middle in Hn.
      apply NoDup_cons in Hn as [Hn _]. apply Hn. cbn [fst]. revert Hop. unfold waiting. cbn. rewrite !map_app. set_solver.
Qed.
Lemma nothing_begun q s op ask b1 b2 f : qrel q s -> s_begun s = b1 ++ (op, ask) :: b2 -> (ask = Put [] \/ exists small, ask = Get false small 0) -> f = mkFinished op ask 0 [] ->
  exists s', spec_act capacity_ s s' /\ s_begun s' = b1 ++ b2 /\ s_done s' = s_done s ++ [f] /\ qrel q s'.
Proof.
  intros Hr Eb Ha ->. exists (mkSpec (s_closed s) (s_items s) (b1 ++ b2) (s_offers s) (s_wants s) (s_done s ++ [mkFinished op ask 0 []]) (s_in s) (s_out s)). split_and!; [|done|done|].
  - destruct s as [cl items begun offers wants dn ins outs]. cbn in *. subst begun. by apply sp_nothing.
  - destruct Hr as [H1 H2 H3 H4 H5]. split; cbn [s_closed s_items s_offers s_wants s_begun]; [done..|]. intros op' Hop. apply H5. revert Hop. unfold waiting. rewrite Eb. cbn. rewrite !map_app. cbn. set_solver.
Qed.

(** [Cancel]: nothing, or one attempt. *)
Lemma cancel_loop_spec l cm token l' r : cancel_loop l cm token = (l', r) ->
  match r with
  | None => True
  | Some (ctx, d) => exists l1 (a : Attempt V) l2, l = l1 ++ a :: l2 /\ l' = l1 ++ cancelled a :: l2 /\ is_cancelled a = false /\ ctx = context a /\ d = done_callback a
  end.
Proof.
  revert l'. induction l as [|a l IH]; intros l'; cbn [cancel_loop]; [by intros [= <- <-]|]. destruct (_ && _).
  - destruct (is_cancelled a) eqn:Ha; intros [= <- <-]; [done|]. by exists [], a, l.
  - destruct (cancel_loop l cm token) as [l1 r1] eqn:Ec. intros [= <- <-]. specialize (IH _ eq_refl). destruct r1 as [[ctx d]|]; [|done].
    destruct IH as (k1 & a1 & k2 & -> & -> & ? & ? & ?). by exists (a :: k1), a1, k2.
Qed.
Lemma live_cancelled a (l1 l2 : list (Attempt V)) : live (l1 ++ cancelled a :: l2) = live l1 ++ live l2.
Proof. by rewrite live_app, live_skip. Qed.
Lemma live_middle (a : Attempt V) l1 l2 : is_cancelled a = false -> live (l1 ++ a :: l2) = live l1 ++ a :: live l2.
Proof. intros Ha. by rewrite live_app, live_cons. Qed.
Lemma not_elsewhere (s : Spec (Row V)) op x P : spec_inv capacity_ s -> ops s ≡ₚ x :: P -> op ∈ P -> op <> x.
Proof. intros Hi E0 Hop ->. pose proof (si_nodup _ _ Hi) as Hn. rewrite E0 in Hn. apply NoDup_cons in Hn as [Hn _]. done. Qed.
(** An operation that waits is cancelled. *)
Lemma cancel_evolves q s s' action l f : qrel q s -> spec_inv capacity_ s -> spec_act capacity_ s s' ->
  s_closed s' = s_closed s -> s_items s' = s_items s -> s_begun s' = s_begun s -> s_done s' = s_done s ++ [f] -> f_code f = CANCELLED -> waiting s ≡ₚ f_op f :: waiting s' ->
  Forall2 offer_match (live (enqueue_attempts_ (with_attempts action l q))) (s_offers s') -> Forall2 want_match (live (dequeue_attempts_ (with_attempts action l q))) (s_wants s') ->
  exists q', q' = with_attempts action l (with_statuses (<[f_op f := Update (status_of q (f_op f)) (cancelled_status action)]> (statuses q)) q) /\
    evolves q s q' s' [f] /\ code (status_of q' (f_op f)) = f_code f.
Proof.
  intros Hr Hi Hact Ecl Eit Eb Ed Ef Ew Ho Hw. eexists. split; [done|]. set (q1 := with_statuses _ q).
  assert (Hst : forall op, status_of (with_attempts action l q1) op = status_of q1 op) by by destruct action.
  assert (Hok : status_of q (f_op f) = OK) by (apply (qr_status _ _ Hr), elem_of_app; right; rewrite Ew; by left).
  assert (Hne : forall op, op ∈ map fst (s_begun s') ++ waiting s' -> op <> f_op f).
  { intros op Hop. eapply (not_elsewhere s _ _ (map fst (s_begun s) ++ waiting s' ++ map f_op (s_done s))); [done| |rewrite Eb in Hop; set_solver].
    unfold ops. rewrite (app_assoc (map offer_op _)). fold (waiting s). rewrite Ew. solve_Permutation. }
  split; [split; try done|].
  - by apply rtc_once.
  - split; [destruct action; cbn; by rewrite Ecl, (qr_closed _ _ Hr)|rewrite Eit; destruct action; apply Hr|by destruct action|by destruct action|].
    intros op Hop. rewrite Hst. unfold q1. rewrite status_set_other by by apply Hne. apply (qr_status _ _ Hr). rewrite Eb in Hop. rewrite Ew. set_solver.
  - intros op. rewrite Ew. set_solver.
  - intros op Hop. rewrite Hst. apply status_set_other. intros ->. apply Hop. rewrite Ew. by left.
  - rewrite Hst. unfold q1. rewrite status_set by done. rewrite Ef. by destruct action.
Qed.
Lemma wp_CancelLocked action cm token q s : qrel q s -> spec_inv capacity_ s ->
  wp (CancelLocked action cm token) q (fun r q' => exists s' fs, evolves q s q' s' fs /\
    match r with None => fs = [] /\ q' = q | Some d => exists f, fs = [f] /\ reports d (status_of q' (f_op f)) f end).
Proof.
  intros Hr Hi. unfold CancelLocked. wp_step. wp_step. destruct (cancel_loop (attempts action q) cm token) as [l r] eqn:Ec. apply cancel_loop_spec in Ec.
  destruct r as [[ctx d]|]; [|wp_step; exists s, []; split; [by apply evolves_refl|done]]. destruct Ec as (l1 & a & l2 & Ea & -> & Hl & -> & ->).
  wp_step. apply wp_SetStatus. wp_step. apply wp_set_front. wp_step. destruct action; cbn [attempts] in Ea.
  - pose proof (qr_offers _ _ Hr) as Hf. rewrite Ea, live_middle in Hf by done. apply Forall2_app_inv_l in Hf as (os1 & os2' & Hf1 & Hf2 & Eo). apply Forall2_cons_inv_l in Hf2 as (o & os2 & Hm & Hf2 & ->).
    pose proof Hm as (Ectx & Ed & _). set (s' := mkSpec (s_closed s) (s_items s) (s_begun s) (os1 ++ os2) (s_wants s) (s_done s ++ [refused o]) (s_in s) (s_out s)).
    destruct (cancel_evolves q s s' kEnqueue (l1 ++ cancelled a :: l2) (refused o)) as (q' & -> & Hev & Hst); try done.
    + destruct s as [cl items begun offers wants dn ins outs]. cbn in *. subst offers. apply sp_cancel_offer. by eapply offer_unfinished.
    + unfold waiting. rewrite Eo. cbn [s' s_offers s_wants]. rewrite !map_app. cbn [map]. cbn. solve_Permutation.
    + cbn [with_attempts enqueue_attempts_]. rewrite live_cancelled. by apply Forall2_app.
    + apply Hr.
    + rewrite Ectx, Ed. exists s', [refused o]. split; [exact Hev|]. exists (refused o). split; [done|]. split; [unfold carries; destruct o; done|exact Hst].
  - pose proof (qr_wants _ _ Hr) as Hf. rewrite Ea, live_middle in Hf by done. apply Forall2_app_inv_l in Hf as (os1 & os2' & Hf1 & Hf2 & Eo). apply Forall2_cons_inv_l in Hf2 as (o & os2 & Hm & Hf2 & ->).
    pose proof Hm as (Ectx & Ed & _). set (f := mkFinished (w_op o) (want_ask o) CANCELLED (@nil (Row V))).
    set (s' := mkSpec (s_closed s) (s_items s) (s_begun s) (s_offers s) (os1 ++ os2) (s_done s ++ [f]) (s_in s) (s_out s ++ tag (w_op o) (w_got o))).
    destruct (cancel_evolves q s s' kDequeue (l1 ++ cancelled a :: l2) f) as (q' & -> & Hev & Hst); try done.
    + destruct s as [cl items begun offers wants dn ins outs]. cbn in *. subst wants. apply sp_cancel_want. by eapply want_missing.
    + unfold waiting. rewrite Eo. cbn [s' s_offers s_wants f f_op]. rewrite !map_app. cbn [map]. solve_Permutation.
    + apply Hr.
    + cbn [with_attempts dequeue_attempts_]. rewrite live_cancelled. by apply Forall2_app.
    + rewrite Ectx, Ed. exists s', [f]. split; [exact Hev|]. exists f. split; [done|]. split; [by split|exact Hst].
Qed.

(** [CloseAndCancel]. *)
Lemma wp_cancel_all l (q : Queue V) :
  wp (cancel_all l) q (fun ds q' => ds = map done_callback (live l) /\ (exists m, q' = with_statuses m q) /\
    (forall op, op ∉ map context (live l) -> status_of q' op = status_of q op) /\
    forall op, op ∈ map context (live l) -> status_of q op = OK \/ status_of q op = cancelled_status kEnqueue -> status_of q' op = cancelled_status kEnqueue).
Proof.
  revert q. induction l as [|a l IH]; intros q; cbn [cancel_all].
  { wp_step. split_and!; [done| |done|]; [exists (statuses q); by destruct q|]. intros op Hop. by apply not_elem_of_nil in Hop. }
  destruct (is_cancelled a) eqn:Hl; [rewrite live_skip by done; apply IH|]. rewrite live_cons by done. cbn [map].
  wp_step. apply wp_SetStatus. wp_step. eapply wp_mono; [apply IH|]. intros ds q' (-> & [m ->] & Ho & Hc). wp_step. split_and!; [done|by exists m| |].
  - intros op Hop. rewrite Ho by set_solver. apply status_set_other. set_solver.
  - intros op Hop Hst. destruct (decide (op = context a)) as [->|Hne].
    + assert (E0 : status_of (with_statuses (<[context a := Update (status_of q (context a)) (cancelled_status kEnqueue)]> (statuses q)) q) (context a) = cancelled_status kEnqueue).
      { rewrite status_SetStatus, decide_True by done. by destruct Hst as [->| ->]. }
      destruct (decide (context a ∈ map context (live l))) as [Hin|Hin]; [by apply Hc; [|right]|]. by rewrite Ho.
    + apply Hc; [set_solver|]. by rewrite status_set_other.
Qed.
Lemma live_all_cancelled (l : list (Attempt V)) : live (map (fun a => if is_cancelled a then a else cancelled a) l) = [].
Proof. unfold live. induction l as [|a l IH]; [done|]. cbn. destruct (is_cancelled a) eqn:Ha; cbn; by rewrite ?Ha. Qed.
Lemma offers_contexts (l : list (Attempt V)) os : Forall2 offer_match l os -> map context l = map offer_op os /\ map done_callback l = map (fun o => Some (Plain (offer_op o))) os.
Proof. induction 1 as [|a o l os (E1 & E2 & _) _ [IH1 IH2]]; [done|]. cbn. by rewrite E1, E2, IH1, IH2. Qed.
Definition close_now (s : Spec (Row V)) (op : nat) (b : list (nat * Ask (Row V))) : Spec (Row V) :=
  mkSpec true (s_items s) b [] (s_wants s) (s_done s ++ map refused (s_offers s) ++ [mkFinished op (Shut true) 0 []]) (s_in s) (s_out s).
Lemma wp_CloseAndCancelLocked q s op b1 b2 : qrel q s -> spec_inv capacity_ s -> s_begun s = b1 ++ (op, Shut true) :: b2 ->
  wp CloseAndCancelLocked q (fun ds q' => spec_act capacity_ s (close_now s op (b1 ++ b2)) /\ qrel q' (close_now s op (b1 ++ b2)) /\
    (forall x, x ∉ waiting s -> status_of q' x = status_of q x) /\
    exists ds0, ds = map Some ds0 /\ Forall2 (fun d f => reports d (status_of q' (f_op f)) f) (ds0 ++ [Plain op]) (map refused (s_offers s) ++ [mkFinished op (Shut true) 0 []])).
Proof.
  intros Hr Hi Eb. unfold CloseAndCancelLocked. wp_step. wp_step. wp_step. wp_step. wp_step.
  destruct (offers_contexts _ _ (qr_offers _ _ Hr)) as [Ectx Edone].
  eapply wp_mono; [apply wp_cancel_all|]. intros ds q1 (-> & [m ->] & Ho & Hc). wp_step. apply wp_set_front. wp_step. cbn [enqueue_attempts_ with_closed] in *. rewrite Ectx in Ho, Hc.
  set (q' := with_attempts kEnqueue _ _).
  change (forall x, x ∉ map offer_op (s_offers s) -> status_of q' x = status_of q x) in Ho.
  change (forall x, x ∈ map offer_op (s_offers s) -> status_of q x = OK \/ status_of q x = cancelled_status kEnqueue -> status_of q' x = cancelled_status kEnqueue) in Hc.
  assert (Hst : forall x, x ∉ waiting s -> status_of q' x = status_of q x) by (intros x Hx; apply Ho; unfold waiting in Hx; set_solver).
  assert (Hop : (op ∉ waiting s) /\ status_of q op = OK).
  { split; [|apply (qr_status _ _ Hr); rewrite Eb, map_app; cbn [map fst]; set_solver]. pose proof (si_nodup _ _ Hi) as Hn. unfold ops in Hn. rewrite Eb, map_app in Hn. cbn [map fst] in Hn.
    rewrite <- app_assoc in Hn. cbn [app] in Hn. rewrite <- Permutation_middle in Hn. apply NoDup_cons in Hn as [Hn _]. intros Hx. apply Hn. unfold waiting in Hx. set_solver. }
  assert (Hdis : forall x, x ∈ map fst (s_begun s) ++ map w_op (s_wants s) -> x ∉ map offer_op (s_offers s)).
  { intros x Hx Hx'. pose proof (si_nodup _ _ Hi) as Hn. unfold ops in Hn. rewrite (app_assoc (map offer_op _)), (Permutation_app_comm (map offer_op _)), <- !app_assoc, (app_assoc (map fst _)), (Permutation_app_comm (map fst _ ++ _)) in Hn.
    revert Hn. rewrite <- !app_assoc. intros Hn. apply NoDup_app in Hn as (_ & Hn & _). apply (Hn x Hx'). set_solver. }
  split_and!; [| |done|].
  - pose proof (offers_unfinished _ _ (qr_offers _ _ Hr)) as Hu. destruct s as [cl items begun offers wants dn ins outs]. cbn in *. subst begun. by apply sp_close_now.
  - split; [done|apply Hr|change (Forall2 offer_match (live (map (fun a => if is_cancelled a then a else cancelled a) (enqueue_attempts_ q))) []); rewrite live_all_cancelled; constructor|apply Hr|].
    intros x Hx. cbn [close_now s_begun s_offers s_wants waiting map app] in Hx. rewrite Ho.
    + apply (qr_status _ _ Hr). unfold waiting. rewrite Eb, map_app. cbn [map fst]. rewrite map_app in Hx. set_solver.
    + apply Hdis. rewrite Eb, map_app. cbn [map fst]. rewrite map_app in Hx. set_solver.
  - exists (map (fun o => Plain (offer_op o)) (s_offers s)). split; [by rewrite Edone, map_map|]. apply Forall2_app.
    + apply Forall2_fmap_2. apply Forall_Forall2_diag. apply Forall_forall. intros o Hin. split; [unfold carries; by destruct o|]. cbn [refused f_op f_code].
      assert (Hin' : offer_op o ∈ map offer_op (s_offers s)) by by apply list_elem_of_fmap_2.
      rewrite Hc; [done|done|]. left. apply (qr_status _ _ Hr). unfold waiting. set_solver.
    + constructor; [|constructor]. split; [done|]. cbn [f_op f_code]. rewrite Hst by apply Hop. by destruct Hop as [_ ->].
Qed.
End Flush.
End FifoQueueFlush.
