(* ===== verification/FifoQueueSystem.v ===== *)
(** * FIFO queue: the threads against the specification

    [crel] relates a configuration of [FifoQueueThreads] to a state of
    [FifoQueueSpec]: the queue, the operations that threads still hold, and the
    callbacks called or about to be called, which are exactly the finished
    operations. Every step of a thread preserves it, without a crash. *)
From S2P Require Import Prelude Status DataTypes TensorShape FifoQueue Cancellation FifoQueueThreads FifoQueueSpec FifoQueueDeques FifoQueueBatches FifoQueueRefine FifoQueueFlush.
From stdpp Require Import gmap relations.
Import Status DataTypes TensorShape FifoQueue FifoQueueThreads FifoQueueSpec FifoQueueFacts FifoQueueDeques FifoQueueBatches FifoQueueRefine FifoQueueFlush.
Open Scope Z_scope.

Module FifoQueueSystem.
Section System.
Context {V : Type} {E : QueueEnv V}.

(** What a request asks for. *)
Definition ask_of (r : Request V) : Ask (Row V) :=
  match r with
  | Enqueue t => Put [map view t]
  | EnqueueMany b => Put (batch_rows (batch_size b) b)
  | Dequeue => Get true false 1
  | DequeueMany n small => Get false small (Z.to_nat n)
  | Close now => Shut now
  end.

(** The requests considered: whole tensors of known types; batches of less than
    2^31 rows, whose shapes stay within the limits of [TensorShape]. *)
Definition input_ok (t : Tensor V) : Prop := tensor_ok t /\ is_Some (DataTypeString (dtype t)).
Definition size_ok (n : Z) : Prop := n < 2 ^ 31 /\ (0 <= n -> forall i cs, component_shapes_ !! i = Some cs -> within (n :: dim_sizes cs)).
Definition request_ok (r : Request V) : Prop :=
  match r with
  | Enqueue t => Forall input_ok t
  | EnqueueMany b => Forall (fun t => input_ok t /\ dim_sizes (shape t) <> []) b /\ forall n, batch_size_of b = Some n -> size_ok n
  | DequeueMany n _ => size_ok n
  | Dequeue | Close _ => True
  end.
(** A request past validation. *)
Definition validated (r : Request V) : Prop :=
  match r with
  | Enqueue t => tuple_row t (map view t)
  | EnqueueMany b => exists n, batch_ok n b /\ 0 < n < 2 ^ 31
  | Dequeue => True
  | DequeueMany n _ => batches_ok n
  | Close now => now = false
  end.

(** ** Validation *)

Lemma validate_from_ok check i (t : Tuple V) : (forall j x, t !! j = Some x -> exists s, check (i + j)%nat x = Some s /\ (ok s = false -> code s = INVALID_ARGUMENT)) ->
  exists s, validate_from check i t = Some s /\ (ok s = false -> code s = INVALID_ARGUMENT) /\ (ok s = true -> forall j x, t !! j = Some x -> exists s', check (i + j)%nat x = Some s' /\ ok s' = true).
Proof.
  revert i. induction t as [|x t IH]; intros i H; cbn [validate_from]; [by exists OK|].
  destruct (H 0%nat x eq_refl) as (s & Hs & Hc). rewrite Nat.add_0_r in Hs. rewrite Hs. destruct (ok s) eqn:Eok.
  - destruct (IH (S i)) as (s' & E1 & E2 & E3).
    { intros j y Hj. replace (S i + j)%nat with (i + S j)%nat by lia. by apply H. }
    exists s'. split_and!; [done|done|]. intros Hs' [|j] y Hj; cbn in Hj.
    + injection Hj as <-. rewrite Nat.add_0_r. by exists s.
    + replace (i + S j)%nat with (S i + j)%nat by lia. by apply E3.
  - exists s. split_and!; [done|by intros; apply Hc|]. congruence.
Qed.
Lemma check_dtype_ok (t : Tuple V) i x : length t = ncomp -> t !! i = Some x -> is_Some (DataTypeString (dtype x)) -> env_ok V E -> exists s, check_dtype i x = Some s /\ (ok s = false -> code s = INVALID_ARGUMENT).
Proof.
  intros Hl Hx [nm Hnm] H. unfold check_dtype. destruct (lookup_lt_is_Some_2 component_dtypes_ i) as [d Hd]; [apply lookup_lt_Some in Hx; unfold ncomp in Hl; lia|]. rewrite Hd.
  destruct (dtype x =? d); [by exists OK|]. pose proof (type_handled _ _ H Hd) as Hh%bool_decide_eq_true. rewrite Hnm.
  assert (Hk : is_Some (DataTypeString d)) by (repeat (apply elem_of_cons in Hh as [->|Hh]; [by eexists|]); by apply not_elem_of_nil in Hh).
  destruct Hk as [nd ->]. by eexists.
Qed.
Lemma check_dtype_true i (x : Tensor V) s : check_dtype i x = Some s -> ok s = true -> component_dtypes_ !! i = Some (dtype x).
Proof.
  unfold check_dtype. destruct (component_dtypes_ !! i) as [d|]; [|done]. destruct (Z.eqb_spec (dtype x) d) as [->|]; [done|].
  destruct (DataTypeString d), (DataTypeString (dtype x)); intros [= <-]; done.
Qed.
Lemma num_components_nat : env_ok V E -> u64 num_components = Z.of_nat ncomp.
Proof. intros H. unfold num_components. pose proof (env_number H). unfold zlength, ncomp in *. rewrite s32_id, u64_id by lia. done. Qed.
Lemma common_ok (t : Tuple V) : env_ok V E -> Forall input_ok t ->
  exists s, ValidateTupleCommon t = Some s /\ (ok s = false -> code s = INVALID_ARGUMENT) /\ (ok s = true -> length t = ncomp /\ forall i x, t !! i = Some x -> component_dtypes_ !! i = Some (dtype x)).
Proof.
  intros H Ht. unfold ValidateTupleCommon. rewrite num_components_nat by done. destruct (Z.eqb_spec (zlength t) (Z.of_nat ncomp)) as [El|Hne]; cbn [negb]; [|by eexists].
  assert (Hl : length t = ncomp) by (unfold zlength in El; lia).
  destruct (validate_from_ok check_dtype 0 t) as (s & E1 & E2 & E3).
  { intros j x Hx. apply (check_dtype_ok t); try done. rewrite Forall_lookup in Ht. apply (Ht _ _ Hx). }
  exists s. split_and!; [done|done|]. intros Hs. split; [done|]. intros i x Hx. destruct (E3 Hs _ _ Hx) as (s' & Hc & Ho). by eapply check_dtype_true.
Qed.
Lemma check_shape_true i e (x : Tensor V) s : shape_ok e -> shape_ok (shape x) -> check_shape i (Some e) x = Some s -> (ok s = false -> code s = INVALID_ARGUMENT) /\ (ok s = true -> dim_sizes (shape x) = dim_sizes e).
Proof.
  intros He Hx. unfold check_shape. destruct (IsSameSize e (shape x)) eqn:Es; intros [= <-]; split; try done. intros _. by apply IsSameSize_spec in Es.
Qed.
Lemma specified_length : env_ok V E -> specified_shapes = true -> length component_shapes_ = ncomp.
Proof. intros H. unfold specified_shapes. destruct (env_shapes H) as [->|?]; done. Qed.
Lemma unspecified i : specified_shapes = false -> component_shapes_ !! i = None.
Proof.
  unfold specified_shapes. intros Hn%Z.ltb_ge. destruct component_shapes_ as [|s l] eqn:El; [done|]. unfold zlength in Hn. cbn [length] in Hn. lia.
Qed.
Lemma ValidateTuple_ok (t : Tuple V) : env_ok V E -> Forall input_ok t ->
  exists s, ValidateTuple t = Some s /\ (ok s = false -> code s = INVALID_ARGUMENT) /\ (ok s = true -> tuple_row t (map view t)).
Proof.
  intros H Ht. unfold ValidateTuple. destruct (common_ok t H Ht) as (s & -> & E2 & E3). destruct (ok s) eqn:Hs; cbn [negb]; [|exists s; split_and!; [done|by intros; apply E2|congruence]].
  destruct (E3 eq_refl) as [Hl Hd]. rewrite Forall_lookup in Ht. destruct specified_shapes eqn:Esp.
  - pose proof (specified_length H Esp) as Hls. pose proof (env_within H) as Hw. rewrite Forall_lookup in Hw.
    assert (Hcs : forall j x, t !! j = Some x -> exists cs, component_shapes_ !! j = Some cs /\ shape_ok cs).
    { intros j x Hx. destruct (lookup_lt_is_Some_2 component_shapes_ j) as [cs Hcs]; [apply lookup_lt_Some in Hx; lia|]. exists cs. split; [done|]. by apply (Hw _ _ Hcs). }
    destruct (validate_from_ok (fun i => check_shape i (component_shapes_ !! i)) 0 t) as (s' & F1 & F2 & F3).
    + intros j x Hx. destruct (Hcs j x Hx) as (cs & Hc & Hok). cbn [Nat.add]. rewrite Hc. assert (Hex : is_Some (check_shape j (Some cs) x)) by (unfold check_shape; destruct (IsSameSize _ _); by eexists).
      destruct Hex as [sx Hsx]. exists sx. split; [done|]. apply (check_shape_true j cs x sx); [done|apply (Ht _ _ Hx)|done].
    + exists s'. split_and!; [done|done|]. intros Hs'. split_and!; [done|done|]. intros i x Hx. split_and!; [apply (Ht _ _ Hx)|by apply Hd|].
      intros cs Hc. destruct (F3 Hs' _ _ Hx) as (sx & Hsx & Hox). cbn [Nat.add] in Hsx. rewrite Hc in Hsx. destruct (Hcs _ _ Hx) as (cs' & Hc' & Hok).
      apply (check_shape_true i cs x sx); [congruence|apply (Ht _ _ Hx)|done|done].
  - exists OK. split_and!; [done|done|]. intros _. split_and!; [done|done|]. intros i x Hx. split_and!; [apply (Ht _ _ Hx)|by apply Hd|]. intros cs Hc. by rewrite unspecified in Hc.
Qed.
Lemma ValidateManyTuple_ok (b : Tuple V) : env_ok V E -> request_ok (EnqueueMany b) ->
  exists s, ValidateManyTuple b = Some s /\ (ok s = false -> code s = INVALID_ARGUMENT) /\ (ok s = true -> exists n, batch_size_of b = Some n /\ 0 <= n < 2 ^ 31 /\ batch_ok n b).
Proof.
  intros H [Ht Hsz]. assert (Hin : Forall input_ok b) by (eapply Forall_impl; [exact Ht|]; by intros x [? _]). unfold ValidateManyTuple.
  destruct (common_ok b H Hin) as (s & -> & E2 & E3). destruct (ok s) eqn:Hs; cbn [negb]; [|exists s; split_and!; [done|by intros; apply E2|congruence]].
  destruct (E3 eq_refl) as [Hl Hd]. rewrite Forall_lookup in Ht.
  assert (Hdim : forall j x, b !! j = Some x -> exists n rest, dim_sizes (shape x) = n :: rest /\ dim_size (shape x) 0 = Some n /\ 0 <= n).
  { intros j x Hx. destruct (Ht _ _ Hx) as [[(Hsh & [_ [Hpos _]] & _) _] Hne]. destruct (dim_sizes (shape x)) as [|n rest] eqn:Ed; [done|]. exists n, rest. split_and!; [done|by eapply first_dim|]. by apply Forall_cons in Hpos as [? _]. }
  assert (Hbs : exists n, batch_size_of b = Some n /\ 0 <= n).
  { unfold batch_size_of. destruct (b !! 0%nat) as [x|] eqn:E0; [|apply lookup_ge_None in E0; pose proof (ncomp_pos H); lia]. destruct (Hdim _ _ E0) as (n & rest & _ & -> & ?). by exists n. }
  destruct Hbs as (n & Hn & Hn0). rewrite Hn. destruct (Hsz n Hn) as [Hn31 Hwn]. specialize (Hwn Hn0). destruct specified_shapes eqn:Esp.
  - pose proof (specified_length H Esp) as Hls. pose proof (env_within H) as Hw. rewrite Forall_lookup in Hw.
    assert (Hcs : forall j x, b !! j = Some x -> exists cs e, component_shapes_ !! j = Some cs /\ ManyOutShape j n = Some e /\ shape_ok e /\ dim_sizes e = n :: dim_sizes cs).
    { intros j x Hx. destruct (lookup_lt_is_Some_2 component_shapes_ j) as [cs Hcs]; [apply lookup_lt_Some in Hx; lia|]. destruct (many_shape cs n) as (s0 & e & F0 & F1 & F2 & F3); [by apply (Hw _ _ Hcs)|by eapply Hwn|].
      exists cs, e. split_and!; try done. unfold ManyOutShape. by rewrite Hcs, F0. }
    destruct (validate_from_ok (fun i => check_shape i (ManyOutShape i n)) 0 b) as (s' & F1 & F2 & F3).
    + intros j x Hx. destruct (Hcs j x Hx) as (cs & e & _ & He & Hok & _). cbn [Nat.add]. rewrite He. assert (Hex : is_Some (check_shape j (Some e) x)) by (unfold check_shape; destruct (IsSameSize _ _); by eexists).
      destruct Hex as [sx Hsx]. exists sx. split; [done|]. apply (check_shape_true j e x sx); [done|apply (Ht _ _ Hx)|done].
    + exists s'. split_and!; [done|done|]. intros Hs'. exists n. split_and!; [done|done|done|]. split; [done|]. intros i x Hx. split; [apply (Ht _ _ Hx)|]. split; [by apply Hd|].
      destruct (Hcs _ _ Hx) as (cs & e & Hc & He & Hok & Ee). destruct (F3 Hs' _ _ Hx) as (sx & Hsx & Hox). cbn [Nat.add] in Hsx. rewrite He in Hsx.
      exists (dim_sizes cs). split; [|intros cs' Hc'; congruence]. rewrite <- Ee. apply (check_shape_true i e x sx); [done|apply (Ht _ _ Hx)|done|done].
  - destruct b as [|x0 b']; [done|]. cbn [tail]. destruct (validate_from_ok (check_batch n) 1 b') as (s' & F1 & F2 & F3).
    + intros j x Hx. unfold check_batch. destruct (Hdim (S j) x Hx) as (d & rest & _ & -> & _). destruct (d =? n); by eexists.
    + exists s'. split_and!; [done|done|]. intros Hs'. exists n. split_and!; [done|done|done|]. split; [done|]. intros i x Hx. split; [apply (Ht _ _ Hx)|]. split; [by apply Hd|].
      destruct (Hdim _ _ Hx) as (d & rest & Ed & Eds & _). exists rest. split; [|intros cs Hc; by rewrite unspecified in Hc]. rewrite Ed. f_equal.
      destruct i as [|i]; [cbn in Hx, Hn; injection Hx as ->; congruence|]. destruct (F3 Hs' i x Hx) as (sx & Hsx & Hox). unfold check_batch in Hsx. rewrite Eds in Hsx.
      destruct (Z.eqb_spec d n); [done|]. injection Hsx as <-. done.
Qed.

(** ** The relation *)

(** What a statement still holds: an operation that has begun, a callback to
    call. *)
Definition begun_of (s : Stmt V) : list (nat * Ask (Row V)) :=
  match s with Compute_ op r | Attempt_ op r _ => [(op, ask_of r)] | CloseAndCancel_ op => [(op, Shut true)] | _ => [] end.
Definition pending_of (s : Stmt V) : list (DoneCallback V) := match s with Call_ (Some d) => [d] | _ => [] end.
Definition begun (l : list (Stmt V)) : list (nat * Ask (Row V)) := concat (map begun_of l).
Definition pending (l : list (Stmt V)) : list (DoneCallback V) := concat (map pending_of l).
Definition is_compute (s : Stmt V) : bool := match s with Compute_ _ _ => true | _ => false end.
Definition computes (l : list (Stmt V)) : Z := zlength (List.filter is_compute l).
Definition next_token (c : Config V) (cm : nat) : Z := Cancellation.next_cancellation_token_ (manager_of c cm).
Definition stmt_ok (c : Config V) (s : Stmt V) : Prop :=
  match s with
  | Compute_ _ r => request_ok r
  | Attempt_ op r token => validated r /\ match r with Close _ => True | _ => token < next_token c (cancellation_manager op) end
  | Call_ callback => callback <> None
  | _ => True
  end.
(** The callbacks called, and those to call with the status their context has. *)
Definition all_calls (c : Config V) (l : list (Stmt V)) : list (DoneCallback V * Status) :=
  calls c ++ map (fun d => (d, status_of (queue c) (callback_of d))) (pending l).
(** [l]: the statements of the threads. *)
Record crel_with (l : list (Stmt V)) (c : Config V) (s : Spec (Row V)) : Prop := {
  cr_queue : qrel (queue c) s;
  cr_inv : spec_inv capacity_ s;
  cr_begun : begun l ≡ₚ s_begun s;
  cr_calls : exists fs, fs ≡ₚ s_done s /\ Forall2 (fun x f => reports x.1 x.2 f) (all_calls c l) fs;
  cr_asks : asks s ≡ₚ map (fun x => (x.1, ask_of x.2)) (submitted c);
  cr_fresh : forall op, op ∉ ops s -> status_of (queue c) op = OK;
  cr_stmts : Forall (stmt_ok c) l;
  cr_tokens : forall cm, 0 <= next_token c cm /\ next_token c cm + computes l <= zlength (submitted c) < 2 ^ 63
}.
Definition crel (c : Config V) (s : Spec (Row V)) : Prop := crel_with (concat (threads c)) c s.

Lemma begun_app l k : begun (l ++ k) = begun l ++ begun k.
Proof. unfold begun. by rewrite map_app, concat_app. Qed.
Lemma pending_app l k : pending (l ++ k) = pending l ++ pending k.
Proof. unfold pending. by rewrite map_app, concat_app. Qed.
Lemma computes_app l k : computes (l ++ k) = computes l + computes k.
Proof. unfold computes. by rewrite List.filter_app, zlength_app. Qed.
Lemma computes_nonneg l : 0 <= computes l.
Proof. unfold computes, zlength. lia. Qed.
Lemma concat_map_perm {A B} (f : A -> list B) l k : l ≡ₚ k -> concat (map f l) ≡ₚ concat (map f k).
Proof. induction 1 as [|x l k _ IH|x y l|l1 l2 l3 _ IH1 _ IH2]; cbn; [done|by rewrite IH|solve_Permutation|by etrans]. Qed.
Lemma map_perm {A B} (f : A -> B) l k : l ≡ₚ k -> map f l ≡ₚ map f k.
Proof. apply Permutation_map. Qed.
Lemma Forall2_perm_r {A B} (P : A -> B -> Prop) l l' k : Forall2 P l k -> l ≡ₚ l' -> exists k', k' ≡ₚ k /\ Forall2 P l' k'.
Proof. intros Hf Hp. destruct (Permutation_Forall2 Hp Hf) as (k' & ? & ?). by exists k'. Qed.
Lemma crel_perm l l' c s : l ≡ₚ l' -> crel_with l c s -> crel_with l' c s.
Proof.
  intros Hp [H1 H2 H3 (fs & H4 & H5) H6 H7 H8]. split; try done.
  - rewrite <- H3. symmetry. by apply concat_map_perm.
  - destruct (Forall2_perm_r _ _ (all_calls c l') _ H5) as (fs' & Hfs & Hf).
    + unfold all_calls. apply Permutation_app_head, map_perm. by apply concat_map_perm.
    + exists fs'. split; [by rewrite Hfs|done].
  - by rewrite <- Hp.
  - intros cm. replace (computes l') with (computes l); [done|]. unfold computes, zlength. f_equal. apply Permutation_length. by apply filter_Permutation_bool.
Qed.

Lemma stmt_ok_mono c c' st : (forall cm, next_token c cm <= next_token c' cm) -> stmt_ok c st -> stmt_ok c' st.
Proof. intros H. destruct st as [op r|op r token| | | | | | | | |]; cbn; try done. intros [Hv Ht]. split; [done|]. destruct r; try done; specialize (H (cancellation_manager op)); lia. Qed.
Lemma carries_op (f : Finished (Row V)) d : carries f d -> callback_of d = f_op f.
Proof. unfold carries. destruct (f_ask f), d; cbn; try done. by intros [? _]. Qed.

(** The relation after a statement: [fs] have finished, their callbacks [ds] are
    to be called. *)
Lemma crel_update l l' c c' s s' fs ds : crel_with l c s -> rtc (spec_act capacity_) s s' -> qrel (queue c') s' -> s_done s' = s_done s ++ fs -> pending l' ≡ₚ ds ++ pending l ->
  Forall2 (fun d f => reports d (status_of (queue c') (f_op f)) f) ds fs -> (forall x, x ∉ map fst (s_begun s) ++ waiting s -> status_of (queue c') x = status_of (queue c) x) ->
  calls c' = calls c -> submitted c' = submitted c -> begun l' ≡ₚ s_begun s' -> Forall (stmt_ok c') l' -> (forall cm, 0 <= next_token c' cm /\ next_token c' cm + computes l' <= zlength (submitted c')) ->
  crel_with l' c' s'.
Proof.
  intros [H1 H2 H3 (fs0 & H4 & H5) H6 Hfresh H7 H8] Hs Hq Hd Hp Hr Hst Hc Hsub Hb Hok Htok. split; try done.
  - revert H2. clear -Hs. induction Hs as [|s1 s2 s3 Hs _ IH]; [done|]. intros Hi. by apply IH, (spec_step_inv _ _ _ (sp_act _ _ _ Hs)).
  - assert (Hold : Forall2 (fun x f => reports x.1 x.2 f) (calls c' ++ map (fun d => (d, status_of (queue c') (callback_of d))) (pending l)) fs0).
    { unfold all_calls in H5. rewrite Hc. apply Forall2_app_inv_l in H5 as (fa & fb & Ha & Hb' & ->). apply Forall2_app; [done|]. apply Forall2_fmap_l. apply Forall2_fmap_l in Hb'.
      assert (Hin : Forall (fun f => f ∈ s_done s) fb) by (apply Forall_forall; intros f Hf; rewrite <- H4; apply elem_of_app; by right).
      clear -Hb' Hst Hin H2. induction Hb' as [|d f ds fs Hr Hf IH]; constructor; apply Forall_cons in Hin as [Hf1 Hin]; [|by apply IH]. cbn in *. destruct Hr as [Hcar Hcode]. split; [done|].
      rewrite (carries_op _ _ Hcar) in *. rewrite Hst; [done|]. by apply finished_not_waiting. }
    assert (Hnew : Forall2 (fun x f => reports x.1 x.2 f) (map (fun d => (d, status_of (queue c') (callback_of d))) ds) fs).
    { apply Forall2_fmap_l. eapply Forall2_impl; [exact Hr|]. intros d f Hdf. cbn. destruct (Hdf) as [Hcar Hcode]. split; [done|]. by rewrite (carries_op _ _ Hcar). }
    destruct (Forall2_perm_r _ _ (all_calls c' l') _ (Forall2_app Hnew Hold)) as (fs' & Hfs & Hf).
    + unfold all_calls. rewrite (map_perm _ _ _ Hp), map_app. solve_Permutation.
    + exists fs'. split; [|done]. rewrite Hfs, Hd, H4. solve_Permutation.
  - rewrite (spec_acts_asks _ _ _ Hs), Hsub. done.
  - intros op Hop. rewrite ops_asks, (map_perm _ _ _ (spec_acts_asks _ _ _ Hs)), <- ops_asks in Hop. rewrite Hst; [by apply Hfresh|]. intros Hin. apply Hop. unfold ops. unfold waiting in Hin. set_solver.
  - intros cm. specialize (H8 cm). specialize (Htok cm). rewrite Hsub in *. lia.
Qed.
End System.
End FifoQueueSystem.
