(* ===== verification/FifoQueueSteps.v ===== *)
(** * FIFO queue: every statement of a thread

    Each statement of [FifoQueueThreads], run from a configuration related to the
    specification, ends in a configuration that is related to it again. *)
From S2P Require Import Prelude Status TensorShape FifoQueue Cancellation FifoQueueThreads FifoQueueSpec FifoQueueDeques FifoQueueBatches FifoQueueRefine FifoQueueFlush FifoQueueSystem.
From stdpp Require Import gmap relations.
Import Status TensorShape FifoQueue FifoQueueThreads FifoQueueSpec FifoQueueFacts FifoQueueDeques FifoQueueBatches FifoQueueRefine FifoQueueFlush FifoQueueSystem.
Open Scope Z_scope.

Module FifoQueueSteps.
Section Steps.
Context {V : Type} {E : QueueEnv V}.

Lemma wp_locked {A} (m : ST (Queue V) A) (c : Config V) (Q : A -> Config V -> Prop) : wp m (queue c) (fun a q' => Q a (with_queue q' c)) -> wp (locked m) c Q.
Proof. unfold wp, locked. destruct (m (queue c)) as [[a q']| |]; done. Qed.
Lemma manager_with (c : Config V) cm m cm' : manager_of (with_manager cm m c) cm' = if decide (cm' = cm) then m else manager_of c cm'.
Proof. unfold manager_of, with_manager. cbn. destruct (decide (cm' = cm)) as [->|Hne]; [by rewrite lookup_insert_eq|by rewrite lookup_insert_ne]. Qed.
Lemma next_token_with (c : Config V) cm m : Cancellation.next_cancellation_token_ m = next_token c cm -> forall cm', next_token (with_manager cm m c) cm' = next_token c cm'.
Proof. intros H cm'. unfold next_token at 1. rewrite manager_with. by destruct (decide (cm' = cm)) as [->|]. Qed.

(** What a statement [st] leads to, with the statements [R] of the others. *)
Record leads (R : list (Stmt V)) (c : Config V) (s : Spec (Row V)) (k : option (list (Stmt V))) (c' : Config V) : Prop := {
  ld_threads : threads c' = threads c;
  ld_submitted : submitted c' = submitted c;
  ld_rel : match k with None => c' = c | Some k => exists s', rtc (spec_act capacity_) s s' /\ crel_with (k ++ R) c' s' end
}.

(** A configuration that differs in its managers only. *)
Lemma crel_managers l c c' s : crel_with l c s -> queue c' = queue c -> calls c' = calls c -> submitted c' = submitted c -> (forall cm, next_token c' cm = next_token c cm) -> crel_with l c' s.
Proof.
  intros [H1 H2 H3 H4 H5 Hfresh H6 H7] Eq Ec Es Et. split; rewrite ?Eq, ?Es; try done.
  - unfold all_calls. by rewrite Eq, Ec.
  - eapply Forall_impl; [exact H6|]. intros st. apply stmt_ok_mono. intros cm. by rewrite Et.
  - intros cm. by rewrite Et.
Qed.
(** A statement that holds nothing is done. *)
Lemma crel_drop st k R c s : crel_with (st :: R) c s -> begun_of st = [] -> pending_of st = [] -> begun k = [] -> pending k = [] -> Forall (stmt_ok c) k -> computes k = 0 -> crel_with (k ++ R) c s.
Proof.
  intros [H1 H2 H3 H4 H5 Hfresh H6 H7] Eb Ep Ebk Epk Hk Hc. unfold all_calls in *. change (pending (st :: R)) with (pending_of st ++ pending R) in H4. change (begun (st :: R)) with (begun_of st ++ begun R) in H3. rewrite Eb in H3. rewrite Ep in H4.
  split; try done.
  - by rewrite begun_app, Ebk.
  - unfold all_calls. by rewrite pending_app, Epk.
  - apply Forall_app. split; [done|]. by apply Forall_cons in H6 as [_ ?].
  - intros cm. specialize (H7 cm). change (st :: R) with ([st] ++ R) in H7. rewrite computes_app in *. pose proof (computes_nonneg [st]). lia.
Qed.
Lemma begun_split X op ask (s : Spec (Row V)) : (op, ask) :: X ≡ₚ s_begun s -> exists b1 b2, s_begun s = b1 ++ (op, ask) :: b2 /\ X ≡ₚ b1 ++ b2.
Proof.
  intros H. destruct (list_elem_of_split (s_begun s) (op, ask)) as (b1 & b2 & Eb); [rewrite <- H; by left|]. exists b1, b2. split; [done|].
  rewrite Eb, <- Permutation_middle in H. by apply Permutation_cons_inv in H.
Qed.
(** The operation of a statement ends: its callback is to be called. *)
Lemma crel_finish st R op ask b1 b2 c c' s s' d f : crel_with (st :: R) c s -> begun_of st = [(op, ask)] -> pending_of st = [] -> s_begun s = b1 ++ (op, ask) :: b2 -> begun R ≡ₚ b1 ++ b2 ->
  spec_act capacity_ s s' -> s_begun s' = b1 ++ b2 -> s_done s' = s_done s ++ [f] -> qrel (queue c') s' -> f_op f = op -> reports d (status_of (queue c') op) f ->
  (forall x, x <> op -> status_of (queue c') x = status_of (queue c) x) -> calls c' = calls c -> submitted c' = submitted c -> (forall cm, next_token c' cm = next_token c cm) ->
  crel_with (Call_ (Some d) :: R) c' s'.
Proof.
  intros Hc Eb Ep Es ER Hact Eb' Ed Hq Ef Hrep Hst Ecalls Esub Etok. subst op. eapply (crel_update _ _ _ _ _ _ [f] [d] Hc); try done.
  - by apply rtc_once.
  - change (d :: pending R ≡ₚ [d] ++ (pending_of st ++ pending R)). by rewrite Ep.
  - constructor; [done|constructor].
  - intros x Hx. apply Hst. intros ->. apply Hx. rewrite Es, map_app. cbn [map fst]. set_solver.
  - change (begun R ≡ₚ s_begun s'). by rewrite Eb'.
  - constructor; [done|]. pose proof (cr_stmts _ _ _ Hc) as Hf. apply Forall_cons in Hf as [_ Hf]. eapply Forall_impl; [exact Hf|]. intros x. apply stmt_ok_mono. intros cm. by rewrite Etok.
  - intros cm. rewrite Etok, Esub. pose proof (cr_tokens _ _ _ Hc cm) as H7. change (st :: R) with ([st] ++ R) in H7. change (Call_ (Some d) :: R) with ([Call_ (Some d)] ++ R). rewrite computes_app in *.
    pose proof (computes_nonneg [st]). change (computes [Call_ (Some d)]) with 0. lia.
Qed.
Lemma status_with_queue q (c : Config V) : queue (with_queue q c) = q.
Proof. done. Qed.

(** An operation that is refused. *)
Lemma wp_fails st R op r c s code_st (Q : list (Stmt V) -> Config V -> Prop) : crel_with (st :: R) c s -> begun_of st = [(op, ask_of r)] -> pending_of st = [] ->
  code code_st = INVALID_ARGUMENT \/ code code_st = CANCELLED ->
  (forall k c', threads c' = threads c -> submitted c' = submitted c -> (exists s', rtc (spec_act capacity_) s s' /\ crel_with (k ++ R) c' s') -> Q k c') -> wp (fails op r code_st) c Q.
Proof.
  intros Hc Eb Ep Hst HQ. destruct (begun_split (begun R) op (ask_of r) s) as (b1 & b2 & Es & ER).
  { rewrite <- (cr_begun _ _ _ Hc). change (begun (st :: R)) with (begun_of st ++ begun R). by rewrite Eb. }
  unfold fails. wp_step. apply wp_locked. apply wp_SetStatus. wp_step. apply HQ; [done|done|].
  destruct (refuse_begun (queue c) s op (ask_of r) b1 b2 code_st (mkFinished op (ask_of r) (code code_st) [])) as (s' & Hact & Eb' & Ed & Hq); [apply Hc|done|apply Hc|done|done|].
  exists s'. split; [by apply rtc_once|]. cbn [app].
  eapply (crel_finish st R op (ask_of r) b1 b2 c _ s s'); try done.
  - assert (Hok : status_of (queue c) op = OK) by (apply (qr_status _ _ (cr_queue _ _ _ Hc)); rewrite Es, map_app; cbn [map fst]; set_solver).
    split; [|cbn [with_queue queue f_code]; by rewrite status_set]. unfold carries. cbn [f_ask f_op f_code f_rows]. destruct r; cbn; try done; (split; [done|]); rewrite (proj2 (Z.eqb_neq _ 0)); try done; unfold INVALID_ARGUMENT, CANCELLED in Hst; lia.
  - intros x Hx. cbn [with_queue queue]. by apply status_set_other.
Qed.

(** ** [Compute_] *)

(** A statement that holds the same operation as the one before. *)
Lemma crel_drop_begun st' st R c s : crel_with (st :: R) c s -> begun_of st' = begun_of st -> pending_of st' = [] -> pending_of st = [] -> stmt_ok c st' -> computes [st'] = 0 -> crel_with ([st'] ++ R) c s.
Proof.
  intros [H1 H2 H3 H4 H5 Hfresh H6 H7] Eb Ep' Ep Hk Hc. unfold all_calls in *. change (pending (st :: R)) with (pending_of st ++ pending R) in H4. change (begun (st :: R)) with (begun_of st ++ begun R) in H3. rewrite Ep in H4.
  split; try done.
  - change (begun ([st'] ++ R)) with (begun_of st' ++ begun R). by rewrite Eb.
  - unfold all_calls. change (pending ([st'] ++ R)) with (pending_of st' ++ pending R). by rewrite Ep'.
  - constructor; [done|]. by apply Forall_cons in H6 as [_ ?].
  - intros cm. specialize (H7 cm). change (st :: R) with ([st] ++ R) in H7. rewrite computes_app in *. pose proof (computes_nonneg [st]). lia.
Qed.

Lemma wp_take_token op r R c s : crel_with (Compute_ op r :: R) c s -> validated r ->
  (match r with Close _ => False | _ => True end) -> wp (take_token op r) c (fun k c' => leads R c s (Some k) c').
Proof.
  intros Hc Hv Hr. unfold take_token. wp_step. wp_step. cbn [Cancellation.get_cancellation_token].
  set (cm := cancellation_manager op). set (m := manager_of c cm).
  assert (Htok : Cancellation.next_cancellation_token_ m = next_token c cm) by done.
  destruct (cr_tokens _ _ _ Hc cm) as [H0 Hle]. change (Compute_ op r :: R) with ([Compute_ op r] ++ R) in Hle. rewrite computes_app in Hle. change (computes [Compute_ op r]) with 1 in Hle. pose proof (computes_nonneg R) as HR.
  wp_step. wp_step. wp_step. split; [done|done|]. exists s. split; [done|]. set (c' := with_manager _ _ _).
  assert (Hnext : forall x, next_token c' x = if decide (x = cm) then next_token c cm + 1 else next_token c x).
  { intros x. unfold next_token at 1, c'. rewrite manager_with. destruct (decide (x = cm)); [|done]. cbn [Cancellation.next_cancellation_token_]. rewrite Htok. apply s64_id. lia. }
  assert (Hmono : forall x, next_token c x <= next_token c' x) by (intros x; rewrite Hnext; destruct (decide (x = cm)) as [->|]; lia).
  destruct Hc as [H1 H2 H3 H4 H5 Hfresh H6 H7]. split; try done.
  - apply Forall_cons in H6 as [_ H6]. constructor.
    + split; [done|]. destruct r; try done; rewrite Hnext, decide_True by done; rewrite Htok; lia.
    + eapply Forall_impl; [exact H6|]. intros x. by apply stmt_ok_mono.
  - intros x. rewrite Hnext. specialize (H7 x). change (Compute_ op r :: R) with ([Compute_ op r] ++ R) in H7. change ([Attempt_ op r (Cancellation.next_cancellation_token_ m)] ++ R) with ([Attempt_ op r (Cancellation.next_cancellation_token_ m)] ++ R).
    rewrite computes_app in *. change (computes [Compute_ op r]) with 1 in H7. change (computes [Attempt_ op r (Cancellation.next_cancellation_token_ m)]) with 0. change (submitted c') with (submitted c). destruct (decide (x = cm)) as [->|]; lia.
Qed.
Lemma leads_fails st R op r c s st_code : crel_with (st :: R) c s -> begun_of st = [(op, ask_of r)] -> pending_of st = [] -> code st_code = INVALID_ARGUMENT \/ code st_code = CANCELLED ->
  wp (fails op r st_code) c (fun k c' => leads R c s (Some k) c').
Proof. intros Hc Eb Ep Hst. eapply wp_fails; [exact Hc|done|done|done|]. intros k c' Ht Hs Hex. by split. Qed.
(** An operation that has nothing to do. *)
Lemma leads_nothing R op r c q' s d : crel_with (Compute_ op r :: R) c s -> (ask_of r = Put [] \/ exists small, ask_of r = Get false small 0) -> carries (mkFinished op (ask_of r) 0 []) d ->
  frame (queue c) q' -> queues_ q' = queues_ (queue c) -> leads R c s (Some [Call_ (Some d)]) (with_queue q' c).
Proof.
  intros Hc Ha Hd Hf Hq. destruct (begun_split (begun R) op (ask_of r) s) as (b1 & b2 & Es & ER); [by rewrite <- (cr_begun _ _ _ Hc)|].
  destruct (nothing_begun (queue c) s op (ask_of r) b1 b2 (mkFinished op (ask_of r) 0 [])) as (s' & Hact & Eb' & Ed & [Q1 Q2 Q3 Q4 Q5]); [apply Hc|done|done|done|].
  split; [done|done|]. exists s'. split; [by apply rtc_once|]. cbn [app]. eapply (crel_finish (Compute_ op r) R op (ask_of r) b1 b2 c _ s s'); try done.
  - cbn [with_queue queue]. split; [by rewrite (fr_closed _ _ Hf)|by rewrite Hq|by rewrite (fr_enqueue _ _ Hf)|by rewrite (fr_dequeue _ _ Hf)|intros x Hx; rewrite (fr_status _ _ Hf); by apply Q5].
  - split; [done|]. cbn [with_queue queue f_code]. rewrite (fr_status _ _ Hf), (qr_status _ _ (cr_queue _ _ _ Hc)); [done|]. rewrite Es, map_app. cbn [map fst]. set_solver.
  - intros x _. cbn [with_queue queue]. apply Hf.
Qed.
Lemma with_queue_same (c : Config V) : with_queue (queue c) c = c.
Proof. by destruct c. Qed.
Lemma wp_compute op r R c s : env_ok V E -> crel_with (Compute_ op r :: R) c s -> wp (compute op r) c (fun k c' => leads R c s (Some k) c').
Proof.
  intros H Hc. pose proof (cr_stmts _ _ _ Hc) as Hok. apply Forall_cons in Hok as [Hok _]. cbn in Hok. destruct r as [t|b| |n small|now]; unfold compute, EnqueueOp, EnqueueManyOp, TryEnqueueMany, DequeueManyOp, TryDequeueMany, QueueCloseOp; cbn zeta.
  - destruct (ValidateTuple_ok t H Hok) as (st & Hv & Hinv & Hval). wp_step. eapply wp_opt; [exact Hv|]. destruct (ok st) eqn:Es; cbn [negb].
    + apply wp_take_token; [done|by apply Hval|done].
    + eapply leads_fails; try done. left. by apply Hinv.
  - destruct (ValidateManyTuple_ok b H Hok) as (st & Hv & Hinv & Hval). wp_step. eapply wp_opt; [exact Hv|]. destruct (ok st) eqn:Es; cbn [negb].
    + destruct (Hval eq_refl) as (n & Hn & Hn0 & Hb). wp_step. eapply wp_opt; [exact Hn|]. destruct (Z.eqb_spec n 0) as [->|Hne].
      * wp_step. rewrite <- (with_queue_same c) at 2. apply (leads_nothing R op (EnqueueMany b)); try done. left. cbn. unfold batch_size. by rewrite Hn.
      * apply wp_take_token; [done| |done]. exists n. split; [done|lia].
    + eapply leads_fails; try done. left. by apply Hinv.
  - by apply wp_take_token.
  - destruct (Z.leb_spec 0 n) as [H0|H0]; cbn [negb]; [|eapply leads_fails; try done; by left].
    destruct specified_shapes eqn:Esp; cbn [negb]; [|eapply leads_fails; try done; by left]. destruct Hok as [Hn Hw]. specialize (Hw H0). pose proof (specified_length H Esp) as Hls.
    destruct (Z.eqb_spec n 0) as [->|Hne].
    + wp_step. apply wp_locked. eapply wp_mono; [by apply wp_allocate_batch|]. intros t q' (Ht & Hf & Hq). wp_step. apply (leads_nothing R op (DequeueMany 0 small)); try done. right. by exists small.
    + apply wp_take_token; [done| |done]. split; [lia|done].
  - destruct now; wp_step; split; try done; exists s; (split; [done|]).
    + apply (crel_drop_begun (CloseAndCancel_ op) (Compute_ op (Close true))); done.
    + apply (crel_drop_begun (Attempt_ op (Close false) kInvalidToken) (Compute_ op (Close false))); done.
Qed.

(** ** [Attempt_] *)

Lemma crel_entered st R op ask b1 b2 c c' s s' k : crel_with (st :: R) c s -> begun_of st = [(op, ask)] -> pending_of st = [] -> s_begun s = b1 ++ (op, ask) :: b2 -> begun R ≡ₚ b1 ++ b2 ->
  spec_act capacity_ s s' -> s_begun s' = b1 ++ b2 -> s_done s' = s_done s -> qrel (queue c') s' ->
  (forall x, status_of (queue c') x = status_of (queue c) x) -> calls c' = calls c -> submitted c' = submitted c -> (forall cm, next_token c' cm = next_token c cm) ->
  begun k = [] -> pending k = [] -> Forall (stmt_ok c') k -> computes k = 0 -> crel_with (k ++ R) c' s'.
Proof.
  intros Hc Eb Ep Es ER Hact Eb' Ed Hq Hst Ecalls Esub Etok Ebk Epk Hok Ek. eapply (crel_update _ _ _ _ _ _ [] [] Hc); try done.
  - by apply rtc_once.
  - by rewrite app_nil_r.
  - change (pending (st :: R)) with (pending_of st ++ pending R). by rewrite pending_app, Epk, Ep.
  - by rewrite begun_app, Ebk, Eb'.
  - apply Forall_app. split; [done|]. pose proof (cr_stmts _ _ _ Hc) as Hf. apply Forall_cons in Hf as [_ Hf]. eapply Forall_impl; [exact Hf|]. intros x. apply stmt_ok_mono. intros cm. by rewrite Etok.
  - intros cm. rewrite Etok, Esub. pose proof (cr_tokens _ _ _ Hc cm) as H7. change (st :: R) with ([st] ++ R) in H7. rewrite computes_app in *. pose proof (computes_nonneg [st]). lia.
Qed.
(** The attempt of a request is one of those that wait. *)
Lemma attempt_offer op r token : env_ok V E -> validated r -> is_dequeue r = false ->
  exists o, offer_op o = op /\ offer_ask o = ask_of r /\ offer_match (attempt_of op r token) o /\ match o with Rows _ accepted _ => accepted = [] | Closing _ => True end.
Proof.
  intros H. destruct r as [t|b| |n small|now]; intros Hv Hd; try done.
  - exists (Rows op [] [map view t]). split_and!; try done. split; [done|]. split; [done|]. left. by exists t, (map view t).
  - destruct Hv as (n & Hb & Hn). pose proof (batch_ok_size n b H Hb) as En. exists (Rows op [] (batch_rows (batch_size b) b)). split_and!; try done.
    split; [done|]. split; [done|]. right. exists n, b. unfold batch_size. rewrite En. cbn [attempt_of new_Attempt run_callback elements_requested default]. rewrite En. cbn [default]. unfold id. rewrite s32_id by lia.
    rewrite Z.sub_diag. split_and!; try done; lia.
  - cbn in Hv. subst now. exists (Closing op). by split_and!.
Qed.
Lemma attempt_want op r token : validated r -> is_dequeue r = true ->
  exists w, w_op w = op /\ want_ask w = ask_of r /\ want_match (attempt_of op r token) w /\ w_got w = [].
Proof.
  destruct r as [t|b| |n small|now]; intros Hv Hd; try done.
  - exists (mkWant op true false 1 []). by split_and!.
  - pose proof Hv as (Hn & _). exists (mkWant op false small (Z.to_nat n) []). split_and!; try done. unfold want_match. cbn [w_op w_one w_small w_count w_got]. rewrite Z2Nat.id by lia.
    cbn [attempt_of new_Attempt context done_callback elements_requested run_callback tuple]. unfold zlength. cbn [length]. split_and!; try done; try lia. by left.
Qed.
Lemma not_cancelled op r token : is_cancelled (attempt_of (V := V) op r token) = false.
Proof. by destruct r. Qed.
(** Adding the attempt, and then the flush. *)
Lemma crel_push op r token R c c' s : env_ok V E -> crel_with (Attempt_ op r token :: R) c s -> validated r ->
  queue c' = with_attempts (action_of r) (attempts (action_of r) (queue c) ++ [attempt_of op r token]) (queue c) -> calls c' = calls c -> submitted c' = submitted c ->
  (forall cm, next_token c' cm = next_token c cm) -> exists s', rtc (spec_act capacity_) s s' /\ crel_with ([Flush_] ++ R) c' s'.
Proof.
  intros H Hc Hv Eq Ecalls Esub Etok. destruct (begun_split (begun R) op (ask_of r) s) as (b1 & b2 & Es & ER); [by rewrite <- (cr_begun _ _ _ Hc)|].
  assert (Hst : forall x, status_of (queue c') x = status_of (queue c) x) by (intros x; rewrite Eq; by destruct (action_of r)).
  enough (Hex : exists s', spec_act capacity_ s s' /\ s_begun s' = b1 ++ b2 /\ s_done s' = s_done s /\ qrel (queue c') s').
  { destruct Hex as (s' & Hact & Eb' & Ed & Hq). exists s'. split; [by apply rtc_once|]. eapply (crel_entered _ R op (ask_of r) b1 b2); try done. by repeat constructor. }
  rewrite Eq. unfold action_of. destruct (is_dequeue r) eqn:Ed.
  - destruct (attempt_want op r token Hv Ed) as (w & Ew & Ea & Hm & Hg). apply (push_want _ _ _ w b1 b2); [apply Hc|by rewrite Ew, Ea|apply not_cancelled|done|done].
  - destruct (attempt_offer op r token H Hv Ed) as (o & Eo & Ea & Hm & Hg). apply (push_offer _ _ _ o b1 b2); [apply Hc|by rewrite Eo, Ea|apply not_cancelled|done|done].
Qed.
Lemma wp_attempt op r token R c s : env_ok V E -> crel_with (Attempt_ op r token :: R) c s -> wp (attempt op r token) c (fun k c' => leads R c s (Some k) c').
Proof.
  intros H Hc. pose proof (cr_stmts _ _ _ Hc) as Hok. apply Forall_cons in Hok as [[Hv Ht] _].
  assert (Hreg : match r with Close _ => False | _ => True end -> wp (register_attempt op r token) c (fun k c' => leads R c s (Some k) c')).
  { intros Hr. unfold register_attempt. wp_step. wp_step. set (cm := cancellation_manager op). wp_step.
    assert (Hlt : token < Cancellation.next_cancellation_token_ (manager_of c cm)) by (destruct r; done).
    unfold Cancellation.RegisterCallback. rewrite (proj2 (Z.ltb_lt _ _)) by done. eapply wp_opt; [reflexivity|]. cbv beta iota.
    destruct (negb (Cancellation.is_cancelled_ (manager_of c cm)) && negb (Cancellation.is_cancelling_ (manager_of c cm))).
    - wp_step. wp_step. cbv iota. wp_step. wp_step. wp_step. apply wp_locked. unfold push_attempt. wp_step. wp_step. split; [done|done|]. eapply (crel_push op r token R c); try done. intros x. by apply (next_token_with c cm).
    - wp_step. wp_step. cbv iota. eapply (wp_mono _ _ (fun k c' => leads R (with_manager cm (manager_of c cm) c) s (Some k) c')).
      + eapply leads_fails; [eapply crel_managers; [exact Hc|done..|]; by apply next_token_with|done|done|right; by destruct (action_of r)].
      + intros k c' [? ? ?]. by split. }
  destruct r as [t|b| |n small|now]; try (by apply Hreg). cbn [attempt]. wp_step. apply wp_locked. unfold push_attempt. wp_step. wp_step. split; [done|done|]. by eapply (crel_push op (Close now) token R c).
Qed.

(** ** The other statements *)

Lemma clean_pending q cl fs : Forall2 (cleaned q) cl fs -> exists ds, pending (concat (map clean_stmts cl)) = ds /\ Forall2 (fun d f => reports d (status_of q (f_op f)) f) ds fs /\
  begun (concat (map clean_stmts cl)) = [] /\ (forall c, Forall (stmt_ok c) (concat (map clean_stmts cl))) /\ computes (concat (map clean_stmts cl)) = 0.
Proof.
  induction 1 as [|x f cl fs (d & Hd & Hr) _ (ds & IH1 & IH2 & IH3 & IH4 & IH5)]; [exists []; split_and!; try done; constructor|].
  exists (d :: ds). cbn [map concat]. rewrite pending_app, begun_app, computes_app, IH1, IH3, IH5.
  assert (Ec : clean_stmts x = (if negb (to_deregister x =? kInvalidToken) then [Deregister_ (FifoQueue.cm x) (to_deregister x)] else []) ++ [Call_ (Some d)]) by (unfold clean_stmts; by rewrite Hd).
  split_and!.
  - rewrite Ec. by destruct (negb _).
  - by constructor.
  - rewrite Ec. by destruct (negb _).
  - intros c. apply Forall_app. split; [|done]. rewrite Ec. apply Forall_app. split; [destruct (negb _); repeat constructor|]. by repeat constructor.
  - rewrite Ec. by destruct (negb _).
Qed.
(** A critical section that finishes [fs] and leaves [k] to do. *)
Lemma crel_evolves st k R c s q' s' fs ds : crel_with (st :: R) c s -> begun_of st = [] -> pending_of st = [] -> evolves (queue c) s q' s' fs -> pending k = ds -> Forall2 (fun d f => reports d (status_of q' (f_op f)) f) ds fs ->
  begun k = [] -> (forall c, Forall (stmt_ok c) k) -> computes k = 0 -> crel_with (k ++ R) (with_queue q' c) s'.
Proof.
  intros Hc Eb Ep Hev Epk Hr Ebk Hok Ek. eapply (crel_update _ _ _ _ _ _ fs ds Hc); try done; try apply Hev.
  - change (pending (st :: R)) with (pending_of st ++ pending R). by rewrite pending_app, Epk, Ep.
  - intros x Hx. cbn [with_queue queue]. apply (ev_status _ _ _ _ _ Hev). intros Hw. apply Hx, elem_of_app. by right.
  - rewrite begun_app, Ebk, (ev_begun _ _ _ _ _ Hev), <- (cr_begun _ _ _ Hc). change (begun (st :: R)) with (begun_of st ++ begun R). by rewrite Eb.
  - apply Forall_app. split; [apply Hok|]. pose proof (cr_stmts _ _ _ Hc) as Hf. by apply Forall_cons in Hf as [_ Hf].
  - intros cm. change (next_token (with_queue q' c) cm) with (next_token c cm). change (submitted (with_queue q' c)) with (submitted c). pose proof (cr_tokens _ _ _ Hc cm) as H7. change (st :: R) with ([st] ++ R) in H7.
    rewrite computes_app in *. pose proof (computes_nonneg [st]). lia.
Qed.
Lemma wp_flush_stmt R c s : env_ok V E -> crel_with (Flush_ :: R) c s -> wp (exec Flush_) c (leads R c s).
Proof.
  intros H Hc. cbn [exec]. wp_step. apply wp_locked. eapply wp_mono; [apply (wp_FlushLocked _ s); [done|apply Hc|apply Hc]|].
  intros cl q' [(s' & fs & cl' & -> & Hev & Hcl & _ & _)]. wp_step. split; [done|done|]. exists s'. split; [apply Hev|]. cbn [app].
  destruct (clean_pending _ _ _ Hcl) as (ds & E1 & E2 & E3 & E4 & E5). by eapply crel_evolves.
Qed.
Lemma wp_cancel_stmt action cm token R c s : crel_with (Cancel_ action cm token :: R) c s -> wp (exec (Cancel_ action cm token)) c (leads R c s).
Proof.
  intros Hc. cbn [exec]. wp_step. apply wp_locked. eapply wp_mono; [apply (wp_CancelLocked _ _ _ _ s); apply Hc|].
  intros r q' (s' & fs & Hev & Hr). wp_step. split; [done|done|]. exists s'. split; [apply Hev|]. destruct r as [d|].
  - destruct Hr as (f & -> & Hr). eapply crel_evolves; try done; [by constructor; [|constructor]|intros c0; by repeat constructor].
  - destruct Hr as [-> _]. eapply crel_evolves; try done.
Qed.
Lemma wp_close_stmt op R c s : crel_with (CloseAndCancel_ op :: R) c s -> wp (exec (CloseAndCancel_ op)) c (leads R c s).
Proof.
  intros Hc. destruct (begun_split (begun R) op (Shut true) s) as (b1 & b2 & Es & ER); [by rewrite <- (cr_begun _ _ _ Hc)|].
  cbn [exec]. wp_step. apply wp_locked. eapply wp_mono; [apply (wp_CloseAndCancelLocked _ s op b1 b2); [apply Hc|apply Hc|done]|].
  intros ds q' (Hact & Hq & Hst & ds0 & -> & Hr). wp_step. split; [done|done|]. exists (close_now s op (b1 ++ b2)). split; [by apply rtc_once|].
  assert (Hp : forall l : list (DoneCallback V), pending (map Call_ (map Some l)) = l) by (induction l as [|d l IH]; [done|]; change (d :: pending (map Call_ (map Some l)) = d :: l); by rewrite IH).
  assert (Hb : forall l : list (DoneCallback V), begun (map Call_ (map Some l)) = []) by (induction l as [|d l IH]; [done|]; exact IH).
  assert (Hn : forall l : list (DoneCallback V), computes (map Call_ (map Some l)) = 0) by (induction l as [|d l IH]; [done|]; exact IH).
  eapply (crel_update _ _ _ _ _ _ _ (ds0 ++ [Plain op]) Hc); try done.
  - by apply rtc_once.
  - change (pending (CloseAndCancel_ op :: R)) with (pending R). rewrite !pending_app, Hp. cbn. rewrite <- app_assoc. done.
  - intros x Hx. cbn [with_queue queue]. apply Hst. intros Hw. apply Hx, elem_of_app. by right.
  - rewrite !begun_app, Hb. cbn. done.
  - pose proof (cr_stmts _ _ _ Hc) as Hf. apply Forall_cons in Hf as [_ Hf]. rewrite !Forall_app. split_and!; [|by repeat constructor|done]. apply Forall_map, Forall_map, Forall_forall. by intros d _.
  - intros cm. pose proof (cr_tokens _ _ _ Hc cm) as H7. rewrite !computes_app, Hn. change (computes [Flush_; Call_ (Some (Plain op))]) with 0. change (computes (CloseAndCancel_ op :: R)) with (computes R) in H7.
    change (next_token (with_queue q' c) cm) with (next_token c cm). change (submitted (with_queue q' c)) with (submitted c). lia.
Qed.
Lemma wp_call_stmt callback R c s : crel_with (Call_ callback :: R) c s -> wp (exec (Call_ callback)) c (leads R c s).
Proof.
  intros Hc. pose proof (cr_stmts _ _ _ Hc) as Hok. apply Forall_cons in Hok as [Hok _]. destruct callback as [d|]; [|done]. cbn [exec]. wp_step. eapply wp_opt; [done|].
  wp_step. wp_step. wp_step. split; [done|done|]. exists s. split; [done|]. destruct Hc as [H1 H2 H3 (fs & H4 & H5) H6 Hfresh H7 H8]. split; try done.
  - exists fs. split; [done|]. unfold all_calls in *. cbn [calls with_calls queue]. change (pending (Call_ (Some d) :: R)) with (d :: pending R) in H5. rewrite <- app_assoc. exact H5.
  - by apply Forall_cons in H7 as [_ ?].
Qed.
(** The statements of the cancellation manager. *)
Lemma leads_managers st k R c c' s : crel_with (st :: R) c s -> begun_of st = [] -> pending_of st = [] -> begun k = [] -> pending k = [] -> (forall c, Forall (stmt_ok c) k) -> computes k = 0 ->
  threads c' = threads c -> queue c' = queue c -> calls c' = calls c -> submitted c' = submitted c -> (forall cm, next_token c' cm = next_token c cm) -> leads R c s (Some k) c'.
Proof.
  intros Hc Eb Ep Ebk Epk Hok Ek Et Eq Ec Es En. split; [done|done|]. exists s. split; [done|]. eapply crel_managers; [by eapply crel_drop|done..].
Qed.
Lemma wp_exec st R c s : env_ok V E -> crel_with (st :: R) c s -> wp (exec st) c (leads R c s).
Proof.
  intros H Hc. destruct st as [op r|op r token|op| |callback|cm token|cm|cm|action cm token|cm|cm].
  - cbn [exec]. wp_step. eapply wp_mono; [by apply wp_compute|]. intros k c' Hl. by wp_step.
  - cbn [exec]. wp_step. eapply wp_mono; [by apply wp_attempt|]. intros k c' Hl. by wp_step.
  - by apply wp_close_stmt.
  - by apply wp_flush_stmt.
  - by apply wp_call_stmt.
  - cbn [exec]. wp_step. wp_step. unfold Cancellation.DeregisterCallback. destruct (Cancellation.is_cancelled_ (manager_of c cm)), (Cancellation.is_cancelling_ (manager_of c cm)); repeat wp_step;
      (eapply leads_managers; try done; try (intros c0; by repeat constructor); by apply next_token_with).
  - cbn [exec]. wp_step. wp_step. wp_step. destruct (Cancellation.notified (manager_of c cm)); [|by split]. by eapply leads_managers.
  - cbn [exec]. wp_step. wp_step. destruct (Cancellation.StartCancel (manager_of c cm)) as [[m todo]|] eqn:Esc; [|wp_step; by eapply leads_managers].
    wp_step. wp_step. wp_step. set (l := omap _ todo). assert (Hl : forall (l : list (Action * nat * Z)) (k : list (Stmt V)), begun k = [] -> pending k = [] -> (forall c, Forall (stmt_ok c) k) -> computes k = 0 ->
      let k' := map (fun '(action, cm, token) => Cancel_ action cm token) l ++ k in begun k' = [] /\ pending k' = [] /\ (forall c, Forall (stmt_ok c) k') /\ computes k' = 0).
    { intros l0 k0 B1 B2 B3 B4. cbn zeta. induction l0 as [|[[a x] t] l0 (I1 & I2 & I3 & I4)]; [done|]. split_and!; [exact I1|exact I2|intros c0; by constructor|exact I4]. }
    destruct (Hl l [CancelFinish_ cm; CancelNotify_ cm]) as (L1 & L2 & L3 & L4); [done|done|intros c0; by repeat constructor|done|].
    eapply leads_managers; try done. apply next_token_with. unfold Cancellation.StartCancel in Esc. destruct (_ || _); [done|]. by injection Esc as <- _.
  - by apply wp_cancel_stmt.
  - cbn [exec]. wp_step. wp_step. wp_step. eapply leads_managers; try done. by apply next_token_with.
  - cbn [exec]. wp_step. wp_step. wp_step. eapply leads_managers; try done. by apply next_token_with.
Qed.
End Steps.
End FifoQueueSteps.
