(* ===== verification/FifoQueueRun.v ===== *)
(** * FIFO queue: executions

    Every reachable configuration of [FifoQueueThreads] is related to a reachable
    state of [FifoQueueSpec]; a flush is under way, or no waiting attempt could go
    on; and schedules that can be evaluated.

    Concrete queues and requests on which the properties are tried. *)
From S2P Require Import Prelude Status DataTypes TensorShape FifoQueue Cancellation FifoQueueThreads FifoQueueSpec FifoQueueDeques FifoQueueBatches FifoQueueRefine FifoQueueFlush FifoQueueSystem FifoQueueSteps.
From stdpp Require Import gmap relations.
Import Status DataTypes TensorShape FifoQueue FifoQueueThreads FifoQueueSpec FifoQueueFacts FifoQueueDeques FifoQueueBatches FifoQueueRefine FifoQueueFlush FifoQueueSystem FifoQueueSteps.
Open Scope Z_scope.

Module FifoQueueRun.
Section Run.
Context {V : Type} {E : QueueEnv V}.

(** ** Steps *)

(** The statement at the front of a thread, and those of the others. *)
Lemma concat_front (l : list (list (Stmt V))) i st rest : l !! i = Some (st :: rest) ->
  exists R, concat l ≡ₚ st :: R /\ forall k, concat (<[i := k ++ rest]> l) ≡ₚ k ++ R.
Proof.
  intros Hi. exists (concat (take i l) ++ rest ++ concat (drop (S i) l)). split.
  - rewrite <- (take_drop_middle l i _ Hi) at 1. rewrite concat_app. cbn. solve_Permutation.
  - intros k. rewrite insert_take_drop by (by eapply lookup_lt_Some). rewrite concat_app. cbn. solve_Permutation.
Qed.
Lemma crel_with_threads l t c s : crel_with (V := V) l c s -> crel_with l (with_threads t c) s.
Proof. intros [H1 H2 H3 H4 H5 H6 H7]. by split. Qed.
Lemma wp_run_thread i c s : env_ok V E -> crel c s -> wp (run_thread i) c (fun _ c' => exists s', rtc (spec_act capacity_) s s' /\ crel c' s').
Proof.
  intros H Hc. unfold run_thread. wp_step. wp_step. destruct (threads c !! i) as [[|st rest]|] eqn:Hi; [wp_step; by exists s| |wp_step; by exists s].
  destruct (concat_front _ _ _ _ Hi) as (R & HR & Hk). wp_step. eapply wp_mono; [apply (wp_exec st R c s H); by eapply crel_perm|].
  intros k c' [Ht Hs Hrel]. destruct k as [k|]; [|wp_step; subst c'; by exists s]. destruct Hrel as (s' & Hact & Hc'). wp_step. wp_step. wp_step. exists s'. split; [done|].
  apply crel_with_threads. rewrite Ht. cbn [threads with_threads]. eapply crel_perm; [symmetry; apply Hk|done].
Qed.
Lemma call_step_crel c c' s : call_step request_ok c c' -> crel c s -> exists s', rtc (spec_step capacity_) s s' /\ crel c' s'.
Proof.
  intros Hs Hc. unfold crel in Hc. destruct Hs as [op r Hop Hr Hlen|cm].
  - set (s' := mkSpec (s_closed s) (s_items s) ((op, ask_of r) :: s_begun s) (s_offers s) (s_wants s) (s_done s) (s_in s) (s_out s)).
    assert (Hnew : op ∉ ops s).
    { rewrite ops_asks. intros Hin. apply Hop. rewrite (map_perm _ _ _ (cr_asks _ _ _ Hc)), map_map in Hin. exact Hin. }
    assert (Hstep : spec_step capacity_ s s') by (destruct s as [cl items begun offers wants dn ins outs]; by apply sp_begin).
    exists s'. split; [by apply rtc_once|]. unfold crel. cbn [threads with_threads with_submitted]. rewrite concat_app. cbn [concat].
    eapply crel_perm; [apply Permutation_app_comm|]. cbn [app]. destruct Hc as [H1 H2 H3 (fs & H4 & H5) H6 H7 H8 H9]. split.
    + destruct H1 as [Q1 Q2 Q3 Q4 Q5]. split; cbn [queue with_threads with_submitted]; try done. intros x Hx. cbn [s' s_begun map fst app] in Hx. apply elem_of_cons in Hx as [->|Hx]; [by apply H7|by apply Q5].
    + by apply (spec_step_inv capacity_ s).
    + change (begun (Compute_ op r :: concat (threads c))) with ((op, ask_of r) :: begun (concat (threads c))). cbn [s' s_begun]. by rewrite H3.
    + by exists fs.
    + unfold asks in *. cbn [s' s_begun s_offers s_wants s_done with_threads with_submitted submitted map fst snd app]. by rewrite H6.
    + intros x Hx. apply H7. intros Hin. apply Hx. by right.
    + constructor; [done|]. eapply Forall_impl; [exact H8|]. intros x. by apply stmt_ok_mono.
    + intros x. specialize (H9 x). change (Compute_ op r :: concat (threads c)) with ([Compute_ op r] ++ concat (threads c)). rewrite computes_app. change (computes [Compute_ op r]) with 1.
      cbn [with_threads with_submitted submitted]. change (next_token (with_submitted _ _) x) with (next_token c x). unfold zlength in *. cbn [length]. lia.
  - exists s. split; [done|]. unfold crel. cbn [threads with_threads]. rewrite concat_app. cbn [concat]. eapply crel_perm; [apply Permutation_app_comm|]. cbn [app].
    apply crel_with_threads. destruct Hc as [H1 H2 H3 H4 H5 H6 H7 H8]. split; try done. by constructor.
Qed.
Lemma initial_crel q : env_ok V E -> Initialize = Some (OK, Some q) -> crel (new_Config q) new_Spec.
Proof.
  intros H Hq. unfold Initialize in Hq. destruct (bool_decide _); [done|]. destruct (_ && _); [by destruct (DataTypeSliceString _)|]. injection Hq as <-. split.
  - split; cbn; [done| |constructor|constructor|done]. rewrite (components_seq H). split_and!; [by rewrite length_map, length_seq|done|].
    intros i col Hi. rewrite lookup_map in Hi. destruct (seq 0 ncomp !! i); [|done]. injection Hi as <-. constructor.
  - apply (spec_reach_inv capacity_). by unfold spec_reach.
  - done.
  - exists []. split; [done|constructor].
  - done.
  - intros op _. done.
  - constructor.
  - intros cm. unfold next_token, manager_of. cbn [managers new_Config]. rewrite lookup_empty. split; [done|]. by split.
Qed.
Lemma thread_step_crel c c' s : env_ok V E -> thread_step c c' -> crel c s -> exists s', rtc (spec_act capacity_) s s' /\ crel c' s'.
Proof. intros H [i Hi] Hc. pose proof (wp_run_thread i c s H Hc) as Hw. unfold wp in Hw. by rewrite Hi in Hw. Qed.
Lemma reachable_crel c : env_ok V E -> reachable request_ok c -> exists s, spec_reach capacity_ s /\ crel c s.
Proof.
  intros H (q & Hq & Hr). assert (H0 : spec_reach capacity_ (@new_Spec (Row V)) /\ crel (new_Config q) new_Spec) by (split; [by unfold spec_reach|by apply initial_crel]).
  revert H0. generalize (@new_Spec (Row V)). induction Hr as [c|c c1 c2 Hs _ IH]; intros s [Hsr Hc]; [by exists s|]. destruct Hs as [Hs|Hs].
  - destruct (call_step_crel _ _ _ Hs Hc) as (s' & Hst & Hc'). apply (IH s'). split; [|done]. unfold spec_reach. by etrans.
  - destruct (thread_step_crel _ _ _ H Hs Hc) as (s' & Hst & Hc'). apply (IH s'). split; [|done]. unfold spec_reach. etrans; [exact Hsr|]. by apply spec_acts_steps.
Qed.
Lemma crel_no_crash c s : env_ok V E -> crel c s -> ~ crashes c.
Proof. intros H Hc [i Hi]. pose proof (wp_run_thread i c s H Hc) as Hw. unfold wp in Hw. by destruct Hi as [Hi|Hi]; rewrite Hi in Hw. Qed.
(** ** Schedules *)

(** A move of the environment, or a step of thread [i]. *)
Inductive Move := Begin (op : nat) (r : Request V) | Cancels (cm : nat) | Go (i : nat).
Definition move (m : Move) (c : Config V) : option (Config V) :=
  match m with
  | Begin op r =>
      if bool_decide (op ∈ map fst (submitted c)) || negb (zlength (submitted c) <? 2 ^ 63 - 1) then None
      else Some (with_submitted ((op, r) :: submitted c) (with_threads (threads c ++ [[Compute_ op r]]) c))
  | Cancels cm => Some (with_threads (threads c ++ [[StartCancel_ cm]]) c)
  | Go i => match run_thread i c with Done (true, c') => Some c' | _ => None end
  end.
Fixpoint drive (ms : list Move) (c : Config V) : option (Config V) :=
  match ms with [] => Some c | m :: ms' => match move m c with Some c' => drive ms' c' | None => None end end.
(** A thread on its own, as long as it can go on. *)
Fixpoint alone (fuel i : nat) (c : Config V) : Config V :=
  match fuel with O => c | S fuel' => match run_thread i c with Done (true, c') => alone fuel' i c' | _ => c end end.
(** An operation or a cancellation started, and its thread run until it stops. *)
Definition serve (m : Move) (c : Config V) : option (Config V) :=
  match move m c with Some c' => Some (alone 50 (length (threads c)) c') | None => None end.
Fixpoint serves (ms : list Move) (c : Config V) : option (Config V) :=
  match ms with [] => Some c | m :: ms' => match serve m c with Some c' => serves ms' c' | None => None end end.

Definition move_ok (admissible : Request V -> Prop) (m : Move) : Prop := match m with Begin _ r => admissible r | _ => True end.
Lemma move_step admissible m c c' : move_ok admissible m -> move m c = Some c' -> step admissible c c'.
Proof.
  intros Hm. destruct m as [op r|cm|i]; cbn [move].
  - case_bool_decide as Hop; [done|]. cbn [orb]. destruct (Z.ltb_spec (zlength (submitted c)) (2 ^ 63 - 1)); [|done]. intros [= <-]. left. by constructor.
  - intros [= <-]. left. constructor.
  - destruct (run_thread i c) as [[[] c1]| |] eqn:Hi; try done. intros [= <-]. right. by exists i.
Qed.
Lemma drive_steps admissible ms c c' : Forall (move_ok admissible) ms -> drive ms c = Some c' -> rtc (step admissible) c c'.
Proof.
  intros Hf. revert c. induction Hf as [|m ms Hm _ IH]; intros c; cbn [drive]; [by intros [= ->]|]. destruct (move m c) as [c1|] eqn:Em; [|done].
  intros Hd. eapply rtc_l; [by eapply move_step|by apply IH].
Qed.
Lemma alone_steps admissible fuel i c : rtc (step admissible) c (alone fuel i c).
Proof.
  revert c. induction fuel as [|fuel IH]; intros c; cbn [alone]; [done|]. destruct (run_thread i c) as [[[] c1]| |] eqn:Hi; try done. eapply rtc_l; [|apply IH]. right. by exists i.
Qed.
Lemma serves_reachable admissible ms q c : Initialize = Some (OK, Some q) -> Forall (move_ok admissible) ms -> serves ms (new_Config q) = Some c -> reachable admissible c.
Proof.
  intros Hq Hf Hs. exists q. split; [done|]. revert Hs. generalize (new_Config q). induction Hf as [|m ms Hm _ IH]; intros c0; cbn [serves]; [by intros [= ->]|].
  unfold serve. destruct (move m c0) as [c1|] eqn:Em; [|done]. intros Hs. eapply rtc_l; [by eapply move_step|]. etrans; [apply alone_steps|by apply IH].
Qed.
End Run.
End FifoQueueRun.

Import Status DataTypes TensorShape FifoQueue FifoQueueThreads FifoQueueSpec FifoQueueFacts FifoQueueDeques FifoQueueSystem FifoQueueRun.
Open Scope Z_scope.

Module FifoQueueExamples.

(** A scalar, and a vector. *)
Definition scalar (d v : Z) : Tensor Z := mkTensor d new_TensorShape [v].
Definition vector (d : Z) (l : list Z) : Tensor Z := mkTensor d (default new_TensorShape (TensorShape_of [zlength l])) l.

Lemma within_nil : within [].
Proof. split; [done|]. split; [constructor|]. intros k. rewrite take_nil. by vm_compute. Qed.
Lemma within_one n : 0 <= n < 2 ^ 31 -> within [n].
Proof.
  intros Hn. split; [done|]. split; [by constructor; [lia|]|]. intros [|k]; [by vm_compute|]. cbn [take]. rewrite take_nil.
  change (1 * (n * 1) <= 2 ^ 40). lia.
Qed.
Lemma vector_shape n : 0 <= n < 2 ^ 31 -> exists s, TensorShape_of [n] = Some s /\ shape_ok s /\ dim_sizes s = [n].
Proof.
  intros Hn. destruct (AddDims_sizes [n] new_TensorShape new_shape_ok eq_refl eq_refl (within_one n Hn)) as (s & Es & _). exists s. split; [exact Es|].
  destruct (AddDims_ok _ _ _ new_shape_ok Es) as (Hs & Hd & _). split; [done|]. by rewrite (shape_sizes s Hs), Hd.
Qed.
Lemma scalar_ok d v : is_Some (DataTypeString d) -> input_ok (scalar d v).
Proof. intros H. split; [|done]. split; [apply new_shape_ok|]. split; [exact within_nil|done]. Qed.
Lemma vector_ok d l : is_Some (DataTypeString d) -> zlength l < 2 ^ 31 -> input_ok (vector d l) /\ dim_sizes (shape (vector d l)) <> [].
Proof.
  intros H Hl. assert (Hn : 0 <= zlength l < 2 ^ 31) by (unfold zlength in *; lia). destruct (vector_shape _ Hn) as (s & Es & Hs & Hd).
  unfold vector. rewrite Es. cbn [default]. unfold id. split; [|cbn [shape]; by rewrite Hd]. split; [|done]. unfold tensor_ok. cbn [shape flat]. rewrite Hd. split; [done|].
  split; [by apply within_one|]. unfold product. cbn. lia.
Qed.

(** Queues of capacity [n], whose components are scalars of the types [ds]. *)
Definition scalars (n : Z) (ds : list Z) (cm : nat -> nat) : QueueEnv Z := mkQueueEnv Z n ds (map (fun _ => new_TensorShape) ds) (bytes_of "queue") 0 (fun _ => true) cm.
Lemma scalars_ok n ds cm : 0 <= n < 2 ^ 31 -> ds <> [] -> zlength ds < 2 ^ 31 -> Forall (fun d => d ∈ handled_types) ds -> env_ok Z (scalars n ds cm).
Proof.
  intros Hn Hd Hl Hh. split; try done; cbn.
  - right. by rewrite length_map.
  - apply Forall_map, Forall_forall. intros d _. split; [apply new_shape_ok|exact within_nil].
Qed.
(** Requests on them. *)
Definition row (ds : list Z) (v : Z) : Tuple Z := map (fun d => scalar d v) ds.
Definition batch (ds : list Z) (l : list Z) : Tuple Z := map (fun d => vector d l) ds.
Lemma row_request {E : QueueEnv Z} ds v : Forall (fun d => is_Some (DataTypeString d)) ds -> request_ok (Enqueue (row ds v)).
Proof. intros H. cbn. unfold row. apply Forall_map. eapply Forall_impl; [exact H|]. intros d. by apply scalar_ok. Qed.
Lemma size_scalars n ds cm k : k < 2 ^ 31 -> size_ok (E := scalars n ds cm) k.
Proof.
  intros Hk. split; [done|]. intros H0 i cs Hcs. cbn in Hcs. rewrite lookup_map in Hcs. destruct (ds !! i); [|done]. injection Hcs as <-. apply within_one. lia.
Qed.
Lemma batch_request n ds cm l : Forall (fun d => is_Some (DataTypeString d)) ds -> zlength l < 2 ^ 31 -> request_ok (E := scalars n ds cm) (EnqueueMany (batch ds l)).
Proof.
  intros H Hl. split.
  - unfold batch. apply Forall_map. eapply Forall_impl; [exact H|]. intros d Hd. by apply vector_ok.
  - intros k Hk. apply size_scalars. destruct ds as [|d ds]; [done|]. change (dim_size (default new_TensorShape (TensorShape_of [zlength l])) 0 = Some k) in Hk. destruct (vector_shape (zlength l)) as (s & Es & Hs & Hd); [unfold zlength in *; lia|].
    rewrite Es in Hk. cbn [default] in Hk. unfold id in Hk. rewrite (first_dim s _ [] Hs Hd) in Hk. by injection Hk as <-.
Qed.
Lemma Initialize_scalars n ds cm : ds <> [] -> Initialize (E := scalars n ds cm) = Some (OK, Some (mkQueue false (map (fun _ => []) (components (E := scalars n ds cm))) [] [] ∅ 0%nat)).
Proof.
  intros Hd. unfold Initialize. cbn. rewrite bool_decide_eq_false_2 by done. unfold zlength. rewrite length_map, Z.eqb_refl. cbn. by rewrite andb_false_r.
Qed.
End FifoQueueExamples.
