(* ===== verification/FifoQueueProgress.v ===== *)
(** * FIFO queue: progress

    The threads of [FifoQueueThreads] come to rest, and where no statement is
    left to run, every operation has been called back or waits in a queue where
    it cannot go on. *)
From S2P Require Import Prelude Status DataTypes TensorShape FifoQueue Cancellation FifoQueueThreads FifoQueueSpec FifoQueueDeques FifoQueueBatches FifoQueueRefine FifoQueueFlush FifoQueueSystem FifoQueueSteps FifoQueueRun.
From stdpp Require Import gmap relations.
Import Status DataTypes TensorShape FifoQueue FifoQueueThreads FifoQueueSpec FifoQueueFacts FifoQueueDeques FifoQueueBatches FifoQueueRefine FifoQueueFlush FifoQueueSystem FifoQueueSteps FifoQueueRun.
Open Scope Z_scope.

Module FifoQueueProgress.
Section Progress.
Context {V : Type} {E : QueueEnv V}.

(** ** No attempt is forgotten *)

Definition deque_size (q : Queue V) : Z := match queues_ q !! 0%nat with Some col => zlength col | None => 0 end.
(** The first attempt of an action, if any, is waiting and cannot go on. *)
Definition blocked (action : Action) (q : Queue V) : Prop :=
  match attempts action q with
  | [] => True
  | a :: _ => is_cancelled a = false /\ closed_ q = false /\ match action with kEnqueue => capacity_ <= deque_size q | kDequeue => deque_size q = 0 end
  end.
Lemma settled_blocked action q s : env_ok V E -> qrel q s -> settled action q s -> blocked action q.
Proof.
  intros H Hr Hs. unfold settled, blocked in *. destruct (attempts action q) as [|a l]; [done|]. destruct Hs as (Hl & Hcl & Hst). split; [done|]. split; [by rewrite (qr_closed _ _ Hr)|].
  destruct (columns_size _ _ H (qr_columns _ _ Hr)) as (col & E0 & El). unfold deque_size. rewrite E0, El. destruct action; [done|]. by rewrite Hst.
Qed.
Record same_work (q q' : Queue V) : Prop := {
  sw_closed : closed_ q' = closed_ q;
  sw_queues : queues_ q' = queues_ q;
  sw_enqueue : enqueue_attempts_ q' = enqueue_attempts_ q;
  sw_dequeue : dequeue_attempts_ q' = dequeue_attempts_ q
}.
#[export] Instance same_work_preorder : PreOrder same_work.
Proof. split; [by intros q; split|]. intros q1 q2 q3 [] []. split; congruence. Qed.
Lemma same_blocked action q q' : same_work q q' -> blocked action q -> blocked action q'.
Proof. intros [H1 H2 H3 H4]. unfold blocked, deque_size. by destruct action; cbn; rewrite ?H1, ?H2, ?H3, ?H4. Qed.
(** Actions that leave the work alone. *)
Definition leaves {A} (m : ST (Queue V) A) : Prop := forall q a q', m q = Done (a, q') -> same_work q q'.
Lemma leaves_bind {A B} (m : ST (Queue V) A) (k : A -> ST (Queue V) B) : leaves m -> (forall a, leaves (k a)) -> leaves (st_bind m k).
Proof. intros Hm Hk q b q' Hb. apply st_bind_Done in Hb as (a & q1 & H1 & H2). etrans; [by eapply Hm|by eapply Hk]. Qed.
Lemma leaves_ret {A} (a : A) : leaves (st_ret a).
Proof. by intros q a' q' [= <- <-]. Qed.
Lemma leaves_opt {A} (o : option A) : leaves (st_opt o).
Proof. intros q a q' H. by apply st_opt_Done in H as [_ ->]. Qed.
Lemma leaves_SetStatus ctx s : leaves (SetStatus ctx s).
Proof. by intros q a q' [= <- <-]. Qed.
Lemma leaves_allocate d sh : leaves (allocate_tensor d sh).
Proof. intros q a q' H. unfold allocate_tensor, st_bind, st_get, st_modify in H. destruct (allocates _); injection H as <- <-; done. Qed.
Lemma leaves_allocate_batch comps n : leaves (allocate_batch comps n).
Proof.
  induction comps as [|i comps IH]; cbn [allocate_batch]; [apply leaves_ret|]. apply leaves_bind; [apply leaves_opt|intros sh]. apply leaves_bind; [apply leaves_opt|intros d].
  apply leaves_bind; [apply leaves_allocate|intros [s e]]. apply leaves_bind; [done|intros r]. apply leaves_ret.
Qed.
Lemma locked_Done {A} (m : ST (Queue V) A) (c : Config V) a c' : locked m c = Done (a, c') -> exists q', m (queue c) = Done (a, q') /\ c' = with_queue q' c.
Proof. unfold locked. destruct (m (queue c)) as [[a0 q0]| |]; intros [= <- <-]. by exists q0. Qed.
Lemma fails_same op r s c k c' : fails op r s c = Done (k, c') -> same_work (queue c) (queue c').
Proof.
  unfold fails. intros (u & c1 & H1 & H2)%st_bind_Done. injection H2 as _ <-. apply locked_Done in H1 as (q' & Hq & ->). by eapply leaves_SetStatus.
Qed.
Lemma take_token_same op r c k c' : take_token op r c = Done (k, c') -> same_work (queue c) (queue c').
Proof. unfold take_token, st_bind, st_get, st_modify, st_ret. cbn. by intros [= <- <-]. Qed.
Lemma compute_same op r c k c' : compute op r c = Done (k, c') -> same_work (queue c) (queue c').
Proof.
  destruct r as [t|b| |n small|now]; unfold compute, EnqueueOp, EnqueueManyOp, TryEnqueueMany, DequeueManyOp, TryDequeueMany, QueueCloseOp; cbn zeta.
  - intros (s & c1 & [Hs ->]%st_opt_Done & H2)%st_bind_Done. destruct (negb (ok s)); [by eapply fails_same|by eapply take_token_same].
  - intros (s & c1 & [Hs ->]%st_opt_Done & H2)%st_bind_Done. destruct (negb (ok s)); [by eapply fails_same|].
    apply st_bind_Done in H2 as (n & c2 & [Hn ->]%st_opt_Done & H2). destruct (n =? 0); [by injection H2 as _ <-|by eapply take_token_same].
  - apply take_token_same.
  - destruct (negb (0 <=? n)); [apply fails_same|]. destruct (negb specified_shapes); [apply fails_same|]. destruct (n =? 0); [|apply take_token_same].
    intros (t & c1 & H1 & H2)%st_bind_Done. injection H2 as _ <-. apply locked_Done in H1 as (q' & Hq & ->). by eapply leaves_allocate_batch.
  - destruct now; by intros [= _ <-].
Qed.
Lemma attempt_same op r token c k c' : attempt op r token c = Done (k, c') -> Flush_ ∈ k \/ same_work (queue c) (queue c').
Proof.
  assert (Hflush : forall (m : ST (Queue V) unit) (c1 c2 : Config V) k0, (locked m ;;; st_ret [Flush_]) c1 = Done (k0, c2) -> (@Flush_ V) ∈ k0).
  { intros m c1 c2 k0 (u & c3 & _ & H2)%st_bind_Done. injection H2 as <- _. by left. }
  assert (Hreg : register_attempt op r token c = Done (k, c') -> Flush_ ∈ k \/ same_work (queue c) (queue c')).
  { unfold register_attempt. intros (c0 & c1 & [= <- <-] & H)%st_bind_Done. apply st_bind_Done in H as ([reg m] & c2 & [_ ->]%st_opt_Done & H2). apply st_bind_Done in H2 as (u & c3 & H1 & H2). injection H1 as _ <-. destruct reg.
    - left. apply st_bind_Done in H2 as (u' & c4 & _ & H2). by eapply Hflush.
    - right. exact (fails_same op r _ (with_manager (cancellation_manager op) m c) k c' H2). }
  unfold attempt. destruct r as [t|b| |n small|now]; try (intros H; apply Hreg; exact H). intros H. left. by eapply Hflush.
Qed.
Lemma exec_same st c k c' : exec st c = Done (Some k, c') -> st <> Flush_ -> (forall action cm token, st <> Cancel_ action cm token) -> Flush_ ∈ k \/ same_work (queue c) (queue c').
Proof.
  intros He Hne Hcan. destruct st as [op r|op r token|op| |callback|cm token|cm|cm|action cm token|cm|cm]; cbn [exec] in He; try done.
  - apply st_bind_Done in He as (k0 & c1 & H1 & H2). injection H2 as <- <-. right. by eapply compute_same.
  - apply st_bind_Done in He as (k0 & c1 & H1 & H2). injection H2 as <- <-. by eapply attempt_same.
  - apply st_bind_Done in He as (k0 & c1 & H1 & H2). injection H2 as <- <-. left. apply elem_of_app. right. by left.
  - right. apply st_bind_Done in He as (d & c1 & [_ ->]%st_opt_Done & H2). by injection H2 as _ <-.
  - right. unfold st_bind, st_get in He. destruct (Cancellation.DeregisterCallback _ _) as [[b|] m]; by injection He as _ <-.
  - right. by injection He as _ <-.
  - right. unfold st_bind, st_get in He. destruct (Cancellation.StartCancel _) as [[m todo]|]; by injection He as _ <-.
  - by destruct (Hcan action cm token).
  - right. by injection He as _ <-.
  - right. by injection He as _ <-.
Qed.

Definition quiet (c : Config V) : Prop := Flush_ ∈ concat (threads c) \/ (blocked kEnqueue (queue c) /\ blocked kDequeue (queue c)).
Lemma wp_exec_quiet st c s : env_ok V E -> qrel (queue c) s -> spec_inv capacity_ s -> (st = Flush_ \/ exists action cm token, st = Cancel_ action cm token) ->
  wp (exec st) c (fun k c' => match k with Some k => (Flush_ ∈ k \/ (st <> Flush_ /\ same_work (queue c) (queue c')) \/ (blocked kEnqueue (queue c') /\ blocked kDequeue (queue c'))) | None => True end).
Proof.
  intros H Hr Hi [->|(action & cm & token & ->)]; cbn [exec]; wp_step; apply wp_locked.
  - eapply wp_mono; [by apply (wp_FlushLocked _ s)|]. intros cl q' [(s' & fs & cl' & _ & Hev & _ & H1 & H2)]. wp_step. right. right. split; (eapply settled_blocked; [done|apply Hev|done]).
  - eapply wp_mono; [by apply (wp_CancelLocked _ _ _ _ s)|]. intros r q' (s' & fs & _ & Hc). wp_step. destruct r as [d|]; [left; by right; left|]. right. left. split; [done|]. by destruct Hc as [_ ->].
Qed.
Lemma exec_quiet st c s k c' : env_ok V E -> qrel (queue c) s -> spec_inv capacity_ s -> exec st c = Done (Some k, c') ->
  Flush_ ∈ k \/ (st <> Flush_ /\ same_work (queue c) (queue c')) \/ (blocked kEnqueue (queue c') /\ blocked kDequeue (queue c')).
Proof.
  intros H Hr Hi He. pose proof (wp_exec_quiet st c s H Hr Hi) as Hw. unfold wp in Hw. rewrite He in Hw.
  assert (Hd : (st = Flush_ \/ exists action cm token, st = Cancel_ action cm token) \/ st <> Flush_ /\ forall action cm token, st <> Cancel_ action cm token)
    by (destruct st; try (by right); left; eauto).
  destruct Hd as [Hd|[Hd Hn]]; [by apply Hw|]. destruct (exec_same _ _ _ _ He Hd Hn) as [?|?]; [by left|right; left; by split].
Qed.

(** A step of a thread, as its statement. *)
Lemma thread_step_exec (c c' : Config V) : thread_step c c' -> exists i st rest k c1, threads c !! i = Some (st :: rest) /\ exec st c = Done (Some k, c1) /\ c' = with_threads (<[i := k ++ rest]> (threads c1)) c1.
Proof.
  intros [i Hi]. unfold run_thread in Hi. unfold st_bind, st_get at 1 in Hi. destruct (threads c !! i) as [[|st rest]|] eqn:Ht; [done| |done].
  apply st_bind_Done in Hi as (k & c1 & He & Hi). destruct k as [k|]; [|done]. exists i, st, rest, k, c1. split; [done|]. split; [done|]. by injection Hi.
Qed.
Lemma exec_threads st R (c : Config V) s k c' : env_ok V E -> crel_with (st :: R) c s -> exec st c = Done (k, c') -> threads c' = threads c.
Proof. intros H Hc He. pose proof (wp_exec st R c s H Hc) as Hw. unfold wp in Hw. rewrite He in Hw. apply Hw. Qed.
Lemma thread_step_quiet c c' s : env_ok V E -> crel c s -> thread_step c c' -> quiet c -> quiet c'.
Proof.
  intros H Hc (i & st & rest & k & c1 & Ht & He & ->)%thread_step_exec Hq. destruct (concat_front _ _ _ _ Ht) as (R & HR & Hk).
  assert (Hth : threads c1 = threads c) by (eapply (exec_threads st R); [done|by eapply crel_perm|done]).
  unfold quiet. cbn [threads queue with_threads]. rewrite Hth, (Hk k).
  destruct (exec_quiet _ _ s _ _ H (cr_queue _ _ _ Hc) (cr_inv _ _ _ Hc) He) as [Hf|[[Hne Hs]|Hb]]; [left; apply elem_of_app; by left| |by right].
  destruct Hq as [Hq|[H1 H2]]; [|right; split; by eapply same_blocked]. left. rewrite HR in Hq. apply elem_of_cons in Hq as [Hq|Hq]; [by destruct Hne|]. apply elem_of_app. by right.
Qed.
Lemma reachable_quiet c : env_ok V E -> reachable request_ok c -> (exists s, spec_reach capacity_ s /\ crel c s) /\ quiet c.
Proof.
  intros H (q & Hq & Hr). assert (H0 : reachable request_ok (new_Config q)) by (by exists q). assert (Hq0 : quiet (new_Config q)).
  { right. unfold Initialize in Hq. destruct (bool_decide _); [done|]. destruct (_ && _); [by destruct (DataTypeSliceString _)|]. by injection Hq as <-. }
  assert (Hreach : forall c0, rtc (step request_ok) (new_Config q) c0 -> reachable request_ok c0) by (intros c0 ?; by exists q).
  revert c Hr. apply (rtc_ind_r (fun c => (exists s, spec_reach capacity_ s /\ crel c s) /\ quiet c)); [split; [by apply reachable_crel|done]|].
  intros c1 c2 Hr Hs [(s & Hsr & Hc) Hqc]. split; [apply reachable_crel; [done|]; by apply Hreach, (rtc_r _ c1)|].
  destruct Hs as [[op r Hop Hr' Hlen|cm]|Hs].
  - destruct Hqc as [Hf|?]; [left|by right]. cbn [threads with_threads with_submitted]. rewrite concat_app. apply elem_of_app. by left.
  - destruct Hqc as [Hf|?]; [left|by right]. cbn [threads with_threads]. rewrite concat_app. apply elem_of_app. by left.
  - by eapply thread_step_quiet.
Qed.
(** ** The threads come to rest *)

(** What a statement may still cost; a callback that has been called pays for it. *)
Definition price (st : Stmt V) : Z :=
  match st with
  | Compute_ _ _ => 4 | Attempt_ _ _ _ | StartCancel_ _ => 3 | Deregister_ _ _ => 2 | CloseAndCancel_ _ => -1 | Call_ _ => -3
  | Flush_ | Waits_ _ | Cancel_ _ _ _ | CancelFinish_ _ | CancelNotify_ _ => 1
  end.
Fixpoint prices (l : list (Stmt V)) : Z := match l with [] => 0 | st :: l' => price st + prices l' end.
Definition registered (ms : gmap nat Cancellation.Manager) : Z := map_fold (fun _ m n => Z.of_nat (base.size (Cancellation.callbacks_ m)) + n) 0 ms.
Definition measure (l : list (Stmt V)) (c : Config V) : Z := prices l + 4 * (zlength (submitted c) - zlength (calls c)) + registered (managers c).

Lemma prices_app l k : prices (l ++ k) = prices l + prices k.
Proof. induction l as [|st l IH]; cbn [app prices]; lia. Qed.
Lemma prices_perm l k : l ≡ₚ k -> prices l = prices k.
Proof. induction 1; cbn [prices]; lia. Qed.
Lemma prices_map {A} (f : A -> Stmt V) p l : (forall x, price (f x) = p) -> prices (map f l) = p * zlength l.
Proof. intros H. unfold zlength. induction l as [|x l IH]; cbn [map prices length]; rewrite ?H, ?IH; lia. Qed.
Lemma registered_nonneg ms : 0 <= registered ms.
Proof. unfold registered. apply (map_fold_weak_ind (fun n _ => 0 <= n)); [done|]. intros i m ms' n _ Hn. lia. Qed.
Lemma registered_insert cm m ms :
  registered (<[cm := m]> ms) = registered ms - Z.of_nat (base.size (Cancellation.callbacks_ (default Cancellation.new_Manager (ms !! cm)))) + Z.of_nat (base.size (Cancellation.callbacks_ m)).
Proof.
  destruct (ms !! cm) as [m0|] eqn:Em; unfold registered.
  - rewrite <- (insert_delete_eq ms), (map_fold_insert_L _ _ cm m), (map_fold_delete_L _ 0 cm m0 ms); [cbn [default]; unfold id; lia| |done| |by rewrite lookup_delete_eq]; intros; lia.
  - rewrite map_fold_insert_L; [|intros; lia|done]. cbn [default Cancellation.new_Manager Cancellation.callbacks_]. rewrite map_size_empty. lia.
Qed.
Lemma length_omap_le {A B} (f : A -> option B) (l : list A) : (length (omap f l) <= length l)%nat.
Proof. induction l as [|x l IH]; [done|]. cbn [omap list_omap]. destruct (f x); cbn [length]; fold (omap f l) in *; lia. Qed.
(** A statement replaced by [k]. *)
Definition cheaper (st : Stmt V) (c : Config V) (k : list (Stmt V)) (c' : Config V) : Prop := submitted c' = submitted c /\ measure k c' < measure [st] c.
Lemma cheaper_same st (c c' : Config V) k : submitted c' = submitted c -> calls c' = calls c -> managers c' = managers c -> prices k < price st -> cheaper st c k c'.
Proof. intros Hs Hc Hm Hp. split; [done|]. unfold measure. rewrite Hs, Hc, Hm. cbn [prices]. lia. Qed.
(** With the manager [cm] changed to [m]. *)
Lemma cheaper_manager st (c c' : Config V) k cm m : submitted c' = submitted c -> calls c' = calls c -> managers c' = <[cm := m]> (managers c) ->
  prices k + Z.of_nat (base.size (Cancellation.callbacks_ m)) < price st + Z.of_nat (base.size (Cancellation.callbacks_ (manager_of c cm))) -> cheaper st c k c'.
Proof. intros Hs Hc Hm Hp. split; [done|]. unfold measure. rewrite Hs, Hc, Hm, registered_insert. unfold manager_of in Hp. cbn [prices]. lia. Qed.
Lemma fails_cheaper st op r s (c : Config V) k c' : -3 < price st -> fails op r s c = Done (k, c') -> cheaper st c k c'.
Proof.
  intros Hp (u & c1 & H1 & H2)%st_bind_Done. injection H2 as <- <-. apply locked_Done in H1 as (q' & _ & ->). by apply cheaper_same; cbn [prices price].
Qed.
Lemma take_token_cheaper op r r' (c : Config V) k c' : take_token op r' c = Done (k, c') -> cheaper (Compute_ op r) c k c'.
Proof.
  unfold take_token, st_bind, st_get, st_modify, st_ret. cbn [Cancellation.get_cancellation_token]. intros [= <- <-]. eapply cheaper_manager; try reflexivity. cbn [prices price Cancellation.callbacks_]. lia.
Qed.
Lemma compute_cheaper op r (c : Config V) k c' : compute op r c = Done (k, c') -> cheaper (Compute_ op r) c k c'.
Proof.
  destruct r as [t|b| |n small|now]; unfold compute, EnqueueOp, EnqueueManyOp, TryEnqueueMany, DequeueManyOp, TryDequeueMany, QueueCloseOp; cbn zeta.
  - intros (s & c1 & [Hs ->]%st_opt_Done & H2)%st_bind_Done. destruct (negb (ok s)); [by eapply fails_cheaper|by eapply take_token_cheaper].
  - intros (s & c1 & [Hs ->]%st_opt_Done & H2)%st_bind_Done. destruct (negb (ok s)); [by eapply fails_cheaper|].
    apply st_bind_Done in H2 as (n & c2 & [Hn ->]%st_opt_Done & H2). destruct (n =? 0); [|by eapply take_token_cheaper]. injection H2 as <- <-. by apply cheaper_same.
  - apply take_token_cheaper.
  - destruct (negb (0 <=? n)); [by apply fails_cheaper|]. destruct (negb specified_shapes); [by apply fails_cheaper|]. destruct (n =? 0); [|apply take_token_cheaper].
    intros (t & c1 & H1 & H2)%st_bind_Done. injection H2 as <- <-. apply locked_Done in H1 as (q' & _ & ->). by apply cheaper_same.
  - destruct now; intros [= <- <-]; by apply cheaper_same.
Qed.
Lemma attempt_cheaper op r token (c : Config V) k c' : attempt op r token c = Done (k, c') -> cheaper (Attempt_ op r token) c k c'.
Proof.
  assert (Hreg : register_attempt op r token c = Done (k, c') -> cheaper (Attempt_ op r token) c k c').
  { unfold register_attempt. intros (c0 & c1 & [= <- <-] & H)%st_bind_Done. apply st_bind_Done in H as ([reg m] & c2 & [Hreg ->]%st_opt_Done & H). apply st_bind_Done in H as (u & c3 & [= _ <-] & H).
    unfold Cancellation.RegisterCallback in Hreg. destruct (token <? _); [|done]. destruct reg.
    - apply st_bind_Done in H as (u1 & c4 & [= _ <-] & H). apply st_bind_Done in H as (u2 & c5 & (q' & _ & ->)%locked_Done & H). injection H as <- <-.
      eapply cheaper_manager; try reflexivity. injection Hreg as Hb <-. rewrite Hb. cbn [prices price Cancellation.callbacks_].
      assert (Hsz : forall (m0 : gmap Z nat) i x, (base.size (<[i := x]> m0) <= S (base.size m0))%nat) by (intros m0 i x; rewrite map_size_insert; destruct (m0 !! i); cbn; lia).
      pose proof (Hsz (Cancellation.callbacks_ (manager_of c (cancellation_manager op))) token (length (registrations c))). lia.
    - apply (fails_cheaper (Attempt_ op r token)) in H; [|done]. injection Hreg as Hb <-. rewrite Hb in H. destruct H as [Hs Hm]. split; [done|]. unfold measure in *. cbn [submitted calls managers with_manager] in Hm.
      rewrite registered_insert in Hm. unfold manager_of in Hm. lia. }
  unfold attempt. destruct r as [t|b| |n small|now]; try (intros H; apply Hreg; exact H). intros (u & c1 & (q' & _ & ->)%locked_Done & H)%st_bind_Done. injection H as <- <-. by apply cheaper_same.
Qed.
Lemma clean_prices (cl : list (CleanUp V)) : prices (concat (map clean_stmts cl)) <= 0.
Proof. induction cl as [|x cl IH]; cbn [map concat]; [done|]. rewrite prices_app. unfold clean_stmts at 1. rewrite prices_app. destruct (negb _); cbn [prices price]; lia. Qed.
Lemma exec_cheaper st (c : Config V) k c' : exec st c = Done (Some k, c') -> cheaper st c k c'.
Proof.
  destruct st as [op r|op r token|op| |callback|cm token|cm|cm|action cm token|cm|cm]; cbn [exec]; intros He.
  - apply st_bind_Done in He as (k0 & c1 & H1 & H2). injection H2 as <- <-. by apply compute_cheaper.
  - apply st_bind_Done in He as (k0 & c1 & H1 & H2). injection H2 as <- <-. by apply attempt_cheaper.
  - apply st_bind_Done in He as (l & c1 & (q' & _ & ->)%locked_Done & H2). injection H2 as <- <-. apply cheaper_same; try done.
    rewrite prices_app, (prices_map _ (-3)) by done. unfold zlength. cbn [prices price]. lia.
  - apply st_bind_Done in He as (l & c1 & (q' & _ & ->)%locked_Done & H2). injection H2 as <- <-. apply cheaper_same; try done. pose proof (clean_prices l). cbn [price]. lia.
  - apply st_bind_Done in He as (d & c1 & [_ ->]%st_opt_Done & H2). injection H2 as <- <-. split; [done|]. unfold measure. cbn [submitted calls managers with_calls prices price]. rewrite zlength_app. unfold zlength. cbn [length]. lia.
  - apply st_bind_Done in He as (c0 & c1 & [= <- <-] & H). unfold Cancellation.DeregisterCallback in H.
    destruct (Cancellation.is_cancelled_ _); [|destruct (Cancellation.is_cancelling_ _)]; injection H as <- <-; [|by apply cheaper_same|]; (eapply cheaper_manager; try reflexivity); cbn [prices price Cancellation.callbacks_]; [lia|].
    rewrite map_size_delete. destruct (_ !! token); unfold id; lia.
  - apply st_bind_Done in He as (c0 & c1 & [= <- <-] & H). destruct (Cancellation.notified _); [|done]. injection H as <- <-. by apply cheaper_same.
  - apply st_bind_Done in He as (c0 & c1 & [= <- <-] & H). unfold Cancellation.StartCancel in H. destruct (_ || _); injection H as <- <-; [by apply cheaper_same|].
    eapply cheaper_manager; try reflexivity. rewrite prices_app, (prices_map _ 1) by (by intros [[? ?] ?]). cbn [prices price Cancellation.callbacks_]. rewrite map_size_empty.
    set (cbs := Cancellation.callbacks_ (manager_of c cm)). assert (Hl : (length (omap (fun i => registrations c !! i) (map snd (map_to_list cbs))) <= base.size cbs)%nat).
    { rewrite <- length_map_to_list. etrans; [apply length_omap_le|]. by rewrite length_map. }
    unfold zlength. lia.
  - apply st_bind_Done in He as (d & c1 & (q' & _ & ->)%locked_Done & H2). injection H2 as <- <-. by apply cheaper_same; destruct d.
  - apply st_bind_Done in He as (u & c1 & [= _ <-] & H). injection H as <- <-. eapply cheaper_manager; try reflexivity. cbn [prices price Cancellation.StartCancel_finish Cancellation.callbacks_]. lia.
  - apply st_bind_Done in He as (u & c1 & [= _ <-] & H). injection H as <- <-. eapply cheaper_manager; try reflexivity. cbn [prices price Cancellation.StartCancel_notify Cancellation.callbacks_]. lia.
Qed.
(** What is called or about to be called has been asked for once. *)
Lemma measure_nonneg (c : Config V) s : crel c s -> 0 <= measure (concat (threads c)) c.
Proof.
  intros Hc. assert (Hp : forall l, Forall (stmt_ok c) l -> -4 * (zlength (begun l) + zlength (pending l)) <= prices l).
  { induction 1 as [|st l Hok _ IH]; [done|]. change (begun (st :: l)) with (begun_of st ++ begun l). change (pending (st :: l)) with (pending_of st ++ pending l). rewrite !zlength_app.
    destruct st as [op r|op r token|op| |[d|]|cm token|cm|cm|action cm token|cm|cm]; try done; unfold zlength in *; cbn [prices price begun_of pending_of length] in *; lia. }
  specialize (Hp _ (cr_stmts _ _ _ Hc)). unfold measure. pose proof (registered_nonneg (managers c)). destruct (cr_calls _ _ _ Hc) as (fs & Hfs & Hf).
  apply Forall2_length in Hf. apply Permutation_length in Hfs. unfold all_calls in Hf. rewrite length_app, length_map in Hf. pose proof (Permutation_length (cr_begun _ _ _ Hc)) as Hb.
  pose proof (Permutation_length (cr_asks _ _ _ Hc)) as Ha. unfold asks in Ha. rewrite !length_app, !length_map in Ha. unfold zlength in *. lia.
Qed.
Lemma thread_step_cheaper (c c' : Config V) : (forall i st rest k c1, threads c !! i = Some (st :: rest) -> exec st c = Done (k, c1) -> threads c1 = threads c) ->
  thread_step c c' -> submitted c' = submitted c /\ measure (concat (threads c')) c' < measure (concat (threads c)) c.
Proof.
  intros Hth (i & st & rest & k & c1 & Ht & He & ->)%thread_step_exec. destruct (concat_front _ _ _ _ Ht) as (R & HR & Hk). destruct (exec_cheaper _ _ _ _ He) as [Hs Hm].
  split; [done|]. unfold measure in *. cbn [threads submitted calls managers with_threads]. rewrite (Hth _ _ _ _ _ Ht He), (prices_perm _ _ (Hk k)), (prices_perm _ _ HR), prices_app. cbn [prices] in *. lia.
Qed.
Lemma crel_threads (c : Config V) s i st rest k c1 : env_ok V E -> crel c s -> threads c !! i = Some (st :: rest) -> exec st c = Done (k, c1) -> threads c1 = threads c.
Proof. intros H Hc Ht He. destruct (concat_front _ _ _ _ Ht) as (R & HR & _). eapply (exec_threads st R); [done|by eapply crel_perm|done]. Qed.
(** The threads, by themselves, stop. *)
Lemma crel_terminates (c : Config V) s : env_ok V E -> crel c s -> Acc (fun c2 c1 => thread_step c1 c2) c.
Proof.
  intros H. remember (Z.to_nat (measure (concat (threads c)) c)) as n eqn:En. assert (Hn : (Z.to_nat (measure (concat (threads c)) c) <= n)%nat) by lia. clear En.
  revert c s Hn. induction n as [|n IH]; intros c s Hn Hc; constructor; intros c' Hs.
  - destruct (thread_step_crel _ _ _ H Hs Hc) as (s' & _ & Hc'). apply measure_nonneg in Hc'. apply thread_step_cheaper in Hs as [_ Hlt]; [lia|]. intros. by eapply crel_threads.
  - destruct (thread_step_crel _ _ _ H Hs Hc) as (s' & _ & Hc'). apply (IH _ s'); [|done]. pose proof (measure_nonneg _ _ Hc'). apply thread_step_cheaper in Hs as [_ Hlt]; [lia|]. intros. by eapply crel_threads.
Qed.

(** ** At rest *)

Definition at_rest (c : Config V) : Prop := forall c', ~ thread_step c c'.
Lemma exec_blocked st (c c' : Config V) : exec st c = Done (None, c') -> exists cm, st = Waits_ cm /\ Cancellation.notified (manager_of c cm) = false.
Proof.
  destruct st as [op r|op r token|op| |callback|cm token|cm|cm|action cm token|cm|cm]; cbn [exec]; intros He.
  all: try (apply st_bind_Done in He as (? & ? & _ & H2); discriminate H2).
  - unfold st_bind, st_get in He. destruct (Cancellation.DeregisterCallback _ _) as [[b|] m]; discriminate He.
  - exists cm. unfold st_bind, st_get in He. by destruct (Cancellation.notified _).
  - unfold st_bind, st_get in He. destruct (Cancellation.StartCancel _) as [[m todo]|]; discriminate He.
Qed.
(** Where no thread can go on, one that has not finished waits for a cancellation. *)
Lemma rest_waits (c : Config V) s i st rest : env_ok V E -> crel c s -> at_rest c -> threads c !! i = Some (st :: rest) -> exists cm, st = Waits_ cm /\ Cancellation.notified (manager_of c cm) = false.
Proof.
  intros H Hc Hrest Ht. destruct (concat_front _ _ _ _ Ht) as (R & HR & _). assert (Hc' : crel_with (st :: R) c s) by (by eapply crel_perm).
  pose proof (wp_exec st R c s H Hc') as Hw. unfold wp in Hw. destruct (exec st c) as [[[k|] c1]| |] eqn:He; try done; [|by eapply exec_blocked].
  destruct (Hrest (with_threads (<[i := k ++ rest]> (threads c1)) c1)). exists i. unfold run_thread, st_bind, st_get. rewrite Ht, He. done.
Qed.
(** Where nothing is left to do, an operation has been called back or waits. *)
Lemma rest_settled (c : Config V) s : crel c s -> concat (threads c) = [] ->
  map fst (submitted c) ≡ₚ map (fun x => callback_of x.1) (calls c) ++ map context (live (enqueue_attempts_ (queue c))) ++ map context (live (dequeue_attempts_ (queue c))).
Proof.
  intros [Hq _ Hb (fs & Hfs & Hf) Ha _ _ _] Hl. rewrite Hl in Hb, Hf. assert (Hb' : s_begun s = []) by (symmetry; by apply Permutation_nil_l).
  assert (Hsub : map fst (submitted c) = map fst (map (fun x => (x.1, ask_of x.2)) (submitted c))) by (by rewrite map_map).
  rewrite Hsub, <- (map_perm fst _ _ Ha). unfold asks. rewrite Hb'. cbn [app]. rewrite !map_app, !map_map. cbn [fst].
  assert (Ho : map context (live (enqueue_attempts_ (queue c))) = map offer_op (s_offers s)) by (induction (qr_offers _ _ Hq) as [|a o la lo Hm _ IH]; [done|]; cbn [map]; f_equal; [by destruct Hm|done]).
  assert (Hw : map context (live (dequeue_attempts_ (queue c))) = map w_op (s_wants s)) by (induction (qr_wants _ _ Hq) as [|a o la lo Hm _ IH]; [done|]; cbn [map]; f_equal; [by destruct Hm|done]).
  assert (Hd : map (fun x => callback_of x.1) (calls c) = map f_op fs).
  { unfold all_calls in Hf. cbn in Hf. rewrite app_nil_r in Hf. clear -Hf. induction Hf as [|x f l fs [Hx _] _ IH]; [done|]. cbn [map]. f_equal; [by apply carries_op|done]. }
  rewrite Ho, Hw, Hd, (map_perm f_op _ _ Hfs). solve_Permutation.
Qed.
End Progress.
End FifoQueueProgress.
