(* ===== verification/FifoQueueTheorems.v ===== *)
(** * FIFO queue: properties

    What holds of every interleaving of the kernels on a FIFO queue: refinement
    of [FifoQueueSpec], the order of the rows, progress; and three executions that
    go wrong where the assumptions of the others fail.

    A batch of a type that the slices cannot copy leaves the deques of different
    lengths; a cancellation that lets another operation finish waits for itself. *)
From S2P Require Import Prelude Status DataTypes TensorShape FifoQueue Cancellation FifoQueueThreads FifoQueueSpec FifoQueueDeques FifoQueueBatches FifoQueueRefine FifoQueueFlush FifoQueueSystem FifoQueueSteps FifoQueueRun FifoQueueProgress.
From stdpp Require Import gmap relations.
Import Status DataTypes TensorShape FifoQueue FifoQueueThreads FifoQueueSpec FifoQueueFacts FifoQueueDeques FifoQueueBatches FifoQueueRefine FifoQueueFlush FifoQueueSystem FifoQueueSteps FifoQueueRun FifoQueueExamples FifoQueueProgress.
Open Scope Z_scope.

Module FifoQueueTheorems.
Section Theorems.
Context {V : Type} {E : QueueEnv V}.

(** The rows a request puts. *)
Definition puts (r : Request V) : list (Row V) :=
  match r with Enqueue t => [map view t] | EnqueueMany b => batch_rows (batch_size b) b | _ => [] end.
(** What an operation has done once its callback is called: [ins] and [outs] are
    the rows put and taken so far, with the operation that did it. *)
Definition call_ok (ins outs : list (nat * Row V)) (op : nat) (r : Request V) (d : DoneCallback V) (st : Status) : Prop :=
  let put := rows_of op ins in
  let taken := rows_of op outs in
  match r with
  | Enqueue _ | EnqueueMany _ => d = Plain op /\ taken = [] /\ (code st = 0 -> put = puts r) /\ (code st <> 0 -> puts r = [] \/ (length put < length (puts r))%nat)
  | Dequeue => put = [] /\ exists t, d = WithTuple op t /\ (code st = 0 -> taken = [map view t]) /\ (code st <> 0 -> t = [] /\ taken = [])
  | DequeueMany n small => put = [] /\ exists b, d = WithTuple op b /\
      (code st = 0 -> taken = batch_rows (length taken) b /\ batch_ok (zlength taken) b /\ (zlength taken = Z.max 0 n \/ small = true /\ 0 < zlength taken < n)) /\
      (code st <> 0 -> b = [] /\ zlength taken < Z.max 1 n) /\ (code st = OUT_OF_RANGE -> taken = [])
  | Close _ => d = Plain op /\ put = [] /\ taken = []
  end.

Lemma submitted_ask (c : Config V) s op ask : crel c s -> (op, ask) ∈ asks s -> exists r, (op, r) ∈ submitted c /\ ask_of r = ask.
Proof. intros Hc H. rewrite (cr_asks _ _ _ Hc) in H. apply list_elem_of_fmap in H as ([op' r] & [= -> ->] & Hr). by exists r. Qed.
Lemma finished_call (c : Config V) s (d : DoneCallback V) st f : crel c s -> f ∈ s_done s -> reports d st f ->
  exists r, (callback_of d, r) ∈ submitted c /\ call_ok (s_in s) (s_out s) (callback_of d) r d st.
Proof.
  intros Hc Hf [Hd Hst]. rewrite (carries_op _ _ Hd). destruct (submitted_ask c s (f_op f) (f_ask f)) as (r & Hr & Ea); [done| |].
  { unfold asks. rewrite !elem_of_app. do 3 right. apply list_elem_of_fmap. by exists f. }
  exists r. split; [done|]. pose proof (si_done _ _ (cr_inv _ _ _ Hc)) as Hok. rewrite Forall_forall in Hok. specialize (Hok f Hf). unfold finished_ok, carries in *. rewrite <- Ea in *. unfold call_ok. rewrite Hst.
  destruct r as [t|b| |n small|now]; cbn [ask_of puts] in *; destruct d as [op|op t']; try done.
  - subst op. destruct Hok as (_ & Ho & k & Hk & H0 & H1). split_and!; try done. intros Hne. rewrite Hk, length_take. destruct (H1 Hne) as [?|?]; [by left|right; lia].
  - subst op. destruct Hok as (_ & Ho & k & Hk & H0 & H1). split_and!; try done. intros Hne. rewrite Hk, length_take. destruct (H1 Hne) as [?|?]; [by left|right; lia].
  - destruct Hd as [-> Hd]. destruct Hok as (Hi & H0 & H1 & H2 & H3). split; [done|]. exists t'. split; [done|]. destruct (Z.eqb_spec (f_code f) 0) as [E0|E0].
    + split; [|done]. intros _. destruct (H0 E0) as [<- _]. done.
    + split; [done|]. intros _. split; [done|]. destruct (H1 E0) as [_ [?|Hl]]; [done|]. destruct (rows_of (f_op f) (s_out s)); [done|cbn in Hl; lia].
  - destruct Hd as [-> Hd]. destruct Hok as (Hi & H0 & H1 & H2 & H3). split; [done|]. exists t'. split; [done|]. destruct (Z.eqb_spec (f_code f) 0) as [E0|E0].
    + split_and!; [|done|rewrite E0; done]. intros _. destruct (H0 E0) as [Er Hl]. rewrite <- Er. destruct Hd as [Hb Hrows]. split; [done|]. split; [done|]. unfold zlength. destruct Hl as [Hl|[? Hl]]; [left; lia|right; split; [done|lia]].
    + split_and!; [done| |intros Hc'; apply H2; by left]. intros _. split; [done|]. unfold zlength. destruct (H1 E0) as [_ Hl]. lia.
  - destruct Hok as (_ & Hi & Ho). by subst op.
Qed.
(** Every request has put a prefix of its rows. *)
Lemma submitted_puts (c : Config V) s op r : crel c s -> (op, r) ∈ submitted c -> exists k, rows_of op (s_in s) = take k (puts r).
Proof.
  intros Hc Hr. assert (Ha : (op, ask_of r) ∈ asks s) by (rewrite (cr_asks _ _ _ Hc); apply list_elem_of_fmap; by exists (op, r)).
  assert (Hput : forall rows, ask_of r = Put rows -> puts r = rows) by (destruct r; by intros rows [= <-]).
  assert (Hnone : rows_of op (s_in s) = [] -> exists k, rows_of op (s_in s) = take k (puts r)) by (intros ->; by exists 0%nat).
  pose proof (cr_inv _ _ _ Hc) as [_ _ _ _ _ Hb Ho Hw Hd]. rewrite Forall_forall in Hb. rewrite Forall_forall in Ho. rewrite Forall_forall in Hw. rewrite Forall_forall in Hd. unfold asks in Ha. rewrite !elem_of_app in Ha. destruct Ha as [Ha|[Ha|[Ha|Ha]]].
  - destruct (Hb _ Ha) as [? _]. by apply Hnone.
  - apply list_elem_of_fmap in Ha as (o & [= -> Ea] & Hin). apply Ho in Hin. destruct o as [op accepted todo|op]; destruct Hin as [Hin _]; [|by apply Hnone].
    cbn [offer_op offer_ask] in *. rewrite (Hput _ Ea), Hin. exists (length accepted). by rewrite take_app_length.
  - apply list_elem_of_fmap in Ha as (w & [= -> Ea] & Hin). apply Hw in Hin as [Hin _]. by apply Hnone.
  - apply list_elem_of_fmap in Ha as (f & [= -> Ea] & Hin). apply Hd in Hin. unfold finished_ok in Hin. destruct (f_ask f) as [rows|one small n|now].
    + destruct Hin as (_ & _ & k & Hk & _). exists k. by rewrite (Hput _ Ea).
    + apply Hnone, Hin.
    + apply Hnone, Hin.
Qed.
Lemma crel_ops (c : Config V) s : crel c s -> ops s ≡ₚ map fst (submitted c).
Proof. intros Hc. rewrite ops_asks, (map_perm fst _ _ (cr_asks _ _ _ Hc)), map_map. done. Qed.
(** The calls made, against the operations that have finished. *)
Lemma calls_finished (c : Config V) s : crel c s -> exists fs rest, fs ++ rest ≡ₚ s_done s /\ Forall2 (fun x f => reports x.1 x.2 f) (calls c) fs.
Proof.
  intros Hc. destruct (cr_calls _ _ _ Hc) as (fs & Hfs & Hf). unfold all_calls in Hf. apply Forall2_app_inv_l in Hf as (f1 & f2 & H1 & _ & ->). by exists f1, f2.
Qed.
Lemma calls_ops (l : list (DoneCallback V * Status)) fs : Forall2 (fun x f => reports x.1 x.2 f) l fs -> map (fun x => callback_of x.1) l = map f_op fs.
Proof. induction 1 as [|x f l fs [Hx _] _ IH]; [done|]. cbn [map]. f_equal; [by apply carries_op|done]. Qed.
(** The rows held by the attempt at the front. *)
Lemma held_front (q : Queue V) s : qrel q s -> spec_inv capacity_ s ->
  concat (map w_got (s_wants s)) = [] \/ exists a l n, live (dequeue_attempts_ q) = a :: l /\ holds n (concat (map w_got (s_wants s))) (tuple a).
Proof.
  intros Hq Hi. pose proof (qr_wants _ _ Hq) as Hw. pose proof (si_front _ _ Hi) as Hf. destruct Hw as [|a w l ws (_ & _ & _ & _ & Hm) _]; [by left|]. cbn [tail] in Hf. rewrite (got_front w ws Hf).
  destruct (w_one w); [left; by destruct Hm as (_ & _ & ? & _)|]. destruct Hm as (_ & _ & Hm). right. by exists a, l, (Z.of_nat (w_count w)).
Qed.

(** ** The properties *)

(** C10: for a queue as [env_ok] says (one that [Initialize] accepts, types that the
    copying functions handle, enough memory) and requests as [request_ok] says
    (what the kernels pass on, fewer than 2^31 rows), every interleaving of the
    operations, with cancellations, is an execution of the abstract queue: no
    thread aborts and no loop under the lock runs for ever, and every step is a
    sequence of steps of [FifoQueueSpec] between related states. *)
Theorem fifo_refines (c : Config V) : env_ok V E -> reachable request_ok c ->
  ~ crashes c /\ exists s, spec_reach capacity_ s /\ crel c s /\ forall c', step request_ok c c' -> exists s', rtc (spec_step capacity_) s s' /\ crel c' s'.
Proof.
  intros H Hr. destruct (reachable_crel c H Hr) as (s & Hs & Hc). split; [by eapply crel_no_crash|]. exists s. split; [done|]. split; [done|]. intros c' [Hstep|Hstep].
  - by eapply call_step_crel.
  - destruct (thread_step_crel _ _ _ H Hstep Hc) as (s' & Hact & Hc'). exists s'. split; [by apply spec_acts_steps|done].
Qed.

(** C11: under the same assumptions ([env_ok], [request_ok]) rows leave the queue in the order in which they entered it, and none is
    lost in between: those put are those taken, then those that an unfinished
    [DequeueMany] at the front holds, then those in the queue, which are within
    the capacity while it is open. A callback is called at most once; on success
    the operation has put, or returns, exactly the rows it should; on failure an
    [Enqueue] has put nothing, a [Dequeue] has taken nothing and a [DequeueMany]
    that was not cancelled has given its rows back. *)
Theorem fifo_order (c : Config V) : env_ok V E -> reachable request_ok c -> exists ins outs held items,
  columns (queues_ (queue c)) items /\ map snd ins = map snd outs ++ held ++ items /\
  (held = [] \/ exists a l n, live (dequeue_attempts_ (queue c)) = a :: l /\ holds n held (tuple a)) /\
  (closed_ (queue c) = false -> zlength items <= capacity_) /\
  NoDup (map fst (submitted c)) /\ NoDup (map (fun x => callback_of x.1) (calls c)) /\
  Forall (fun x => exists r, (callback_of x.1, r) ∈ submitted c /\ call_ok ins outs (callback_of x.1) r x.1 x.2) (calls c) /\
  Forall (fun x => exists k, rows_of x.1 ins = take k (puts x.2)) (submitted c).
Proof.
  intros H Hr. destruct (reachable_crel c H Hr) as (s & Hs & Hc). pose proof (cr_queue _ _ _ Hc) as Hq. pose proof (cr_inv _ _ _ Hc) as Hi. pose proof (env_capacity H) as Hcap.
  exists (s_in s), (s_out s), (concat (map w_got (s_wants s))), (s_items s). destruct (calls_finished c s Hc) as (fs & rest & Hfs & Hf).
  split; [apply Hq|]. split; [apply Hi|]. split; [by apply held_front|].
  split; [rewrite (qr_closed _ _ Hq); intros Hcl; pose proof (si_capacity _ _ Hi Hcl); lia|]. split; [rewrite <- (crel_ops c s Hc); apply Hi|]. split; [|split].
  - rewrite (calls_ops _ _ Hf). pose proof (si_nodup _ _ Hi) as Hn. unfold ops in Hn. rewrite <- (map_perm f_op _ _ Hfs), map_app, !app_assoc in Hn. by apply NoDup_app in Hn as ((_ & _ & Hn)%NoDup_app & _).
  - apply Forall_forall. intros x Hx. apply list_elem_of_lookup in Hx as [i Hx]. destruct (Forall2_lookup_l _ _ _ _ _ Hf Hx) as (f & Hfi & Hrep). apply (finished_call c s _ _ f); [done| |done].
    rewrite <- Hfs. apply elem_of_app. left. by eapply list_elem_of_lookup_2.
  - apply Forall_forall. intros [op r] Hx. by eapply submitted_puts.
Qed.

(** C12: under the same assumptions the threads come to rest by themselves; there, a thread that has not
    finished waits for a [StartCancel] to end. When nothing is left to run, every
    operation has had its callback called or still waits, in an open queue: one
    that puts only if the queue is full, one that takes only if it is empty. *)
Theorem fifo_quiescent (c : Config V) : env_ok V E -> reachable request_ok c ->
  Acc (fun c2 c1 => thread_step c1 c2) c /\
  (at_rest c -> forall i st rest, threads c !! i = Some (st :: rest) -> exists cm, st = Waits_ cm /\ Cancellation.notified (manager_of c cm) = false) /\
  (concat (threads c) = [] ->
    map fst (submitted c) ≡ₚ map (fun x => callback_of x.1) (calls c) ++ map context (live (enqueue_attempts_ (queue c))) ++ map context (live (dequeue_attempts_ (queue c))) /\
    (live (enqueue_attempts_ (queue c)) <> [] -> closed_ (queue c) = false /\ capacity_ <= deque_size (queue c)) /\
    (live (dequeue_attempts_ (queue c)) <> [] -> closed_ (queue c) = false /\ deque_size (queue c) = 0)).
Proof.
  intros H Hr. destruct (reachable_quiet c H Hr) as [(s & _ & Hc) Hq]. split; [by eapply crel_terminates|]. split; [intros Hrest i st rest Ht; by eapply (rest_waits c s i st rest)|].
  intros Hl. split; [by eapply rest_settled|]. destruct Hq as [Hq|[H1 H2]]; [rewrite Hl in Hq; by apply not_elem_of_nil in Hq|]. unfold blocked, attempts in *. split; intros Hne.
  - destruct (enqueue_attempts_ (queue c)); [done|]. by destruct H1 as (_ & ? & ?).
  - destruct (dequeue_attempts_ (queue c)); [done|]. by destruct H2 as (_ & ? & ?).
Qed.
End Theorems.

(** A queue of two components with room for two rows: a batch of three that has
    to wait, a [DequeueMany] that waits with two of its three rows. *)
#[local] Instance sample : QueueEnv Z := scalars 2 [3; 9] (fun op => op).
Definition sample_moves : list Move :=
  [Begin 0 (Enqueue (row [3; 9] 10)); Begin 1 (EnqueueMany (batch [3; 9] [20; 30; 40])); Begin 2 Dequeue; Begin 3 (DequeueMany 2 false); Begin 4 (DequeueMany 3 false);
   Begin 5 (Enqueue (row [3; 9] 50))].
Definition sample_end : Config Z := default (new_Config (mkQueue false [] [] [] ∅ 0%nat)) (serves sample_moves (new_Config (mkQueue false [[]; []] [] [] ∅ 0%nat))).
Lemma sample_ok : env_ok Z sample.
Proof. apply scalars_ok; [lia|done|done|]. by apply (bool_decide_eq_true (Forall (fun d => d ∈ handled_types) [3; 9])). Qed.
Lemma sample_reachable : reachable request_ok sample_end.
Proof.
  apply (serves_reachable request_ok sample_moves (mkQueue false [[]; []] [] [] ∅ 0%nat)); [reflexivity| |vm_compute; reflexivity].
  assert (Ht : Forall (fun d => is_Some (DataTypeString d)) [3; 9]) by (repeat constructor; by eexists).
  unfold sample_moves. rewrite !Forall_cons. split_and!; cbn [move_ok]; [by apply row_request|by apply batch_request|done|by apply size_scalars|by apply size_scalars|by apply row_request|by apply Forall_nil].
Qed.
Lemma fifo_refines_witness : env_ok Z sample /\ reachable request_ok sample_end /\ ~ crashes sample_end.
Proof. split; [exact sample_ok|]. split; [exact sample_reachable|]. exact (proj1 (fifo_refines sample_end sample_ok sample_reachable)). Defined.
(** The [DequeueMany] of three rows holds those of 40 and 50. *)
Lemma fifo_order_witness : env_ok Z sample /\ reachable request_ok sample_end /\ length (calls sample_end) = 5%nat /\
  exists ins outs held items, columns (queues_ (queue sample_end)) items /\ map snd ins = map snd outs ++ held ++ items /\
    Forall (fun x => exists r, (callback_of x.1, r) ∈ submitted sample_end /\ call_ok ins outs (callback_of x.1) r x.1 x.2) (calls sample_end).
Proof.
  split; [exact sample_ok|]. split; [exact sample_reachable|]. split; [vm_compute; reflexivity|].
  destruct (fifo_order sample_end sample_ok sample_reachable) as (ins & outs & held & items & H1 & H2 & _ & _ & _ & _ & H3 & _). by exists ins, outs, held, items.
Defined.
Lemma fifo_quiescent_witness : env_ok Z sample /\ reachable request_ok sample_end /\ concat (threads sample_end) = [] /\
  map fst (submitted sample_end) ≡ₚ map (fun x => callback_of x.1) (calls sample_end) ++ [4%nat] /\ deque_size (queue sample_end) = 0.
Proof.
  split; [exact sample_ok|]. split; [exact sample_reachable|]. assert (Hl : concat (threads sample_end) = []) by (vm_compute; reflexivity). split; [exact Hl|].
  destruct (fifo_quiescent sample_end sample_ok sample_reachable) as (_ & _ & H). destruct (H Hl) as (Hp & _ & Hd). split; [|apply Hd; by vm_compute].
  assert (Ew : map context (live (enqueue_attempts_ (queue sample_end))) ++ map context (live (dequeue_attempts_ (queue sample_end))) = [4%nat]) by (vm_compute; reflexivity).
  rewrite Ew in Hp. exact Hp.
Defined.
End FifoQueueTheorems.

Import Status DataTypes TensorShape FifoQueue FifoQueueThreads FifoQueueSpec FifoQueueFacts FifoQueueDeques FifoQueueSystem FifoQueueRun FifoQueueExamples FifoQueueProgress.
Open Scope Z_scope.

Module FifoQueueFailures.

(** ** A thread that waits for itself *)
Section Wedge.
Context {V : Type} {E : QueueEnv V}.

(** [StartCancel] has begun and not ended. *)
Record cancelling (cm : nat) (c : Config V) : Prop := {
  cg_cancelling : Cancellation.is_cancelling_ (manager_of c cm) = true;
  cg_cancelled : Cancellation.is_cancelled_ (manager_of c cm) = false;
  cg_notified : Cancellation.notified (manager_of c cm) = false
}.
(** The statements that end it. *)
Definition ends (cm : nat) (st : Stmt V) : bool := match st with CancelFinish_ x | CancelNotify_ x => bool_decide (x = cm) | _ => false end.
Definition none_ends (cm : nat) (l : list (Stmt V)) : Prop := Forall (fun st => ends cm st = false) l.
Definition wedged (cm i : nat) (l : list (Stmt V)) (c : Config V) : Prop :=
  cancelling cm c /\ threads c !! i = Some (Waits_ cm :: l) /\ forall j k, j <> i -> threads c !! j = Some k -> none_ends cm k.

Lemma cancelling_managers cm (c c' : Config V) : managers c' = managers c -> cancelling cm c -> cancelling cm c'.
Proof. unfold manager_of. intros Hm [H1 H2 H3]. unfold manager_of in *. split; unfold manager_of; by rewrite Hm. Qed.
Lemma cancelling_with cm cm' m (c : Config V) : cancelling cm c ->
  Cancellation.is_cancelling_ m = Cancellation.is_cancelling_ (manager_of c cm') -> Cancellation.is_cancelled_ m = Cancellation.is_cancelled_ (manager_of c cm') -> Cancellation.notified m = Cancellation.notified (manager_of c cm') ->
  cancelling cm (with_manager cm' m c).
Proof.
  intros [H1 H2 H3] F1 F2 F3. assert (Hm : manager_of (with_manager cm' m c) cm = if decide (cm = cm') then m else manager_of c cm).
  { unfold manager_of, with_manager. cbn. destruct (decide (cm = cm')) as [->|Hne]; [by rewrite lookup_insert_eq|by rewrite lookup_insert_ne]. }
  split; rewrite Hm; destruct (decide (cm = cm')) as [->|]; congruence.
Qed.
Lemma fails_cancelling cm op r s (c : Config V) k c' : fails op r s c = Done (k, c') -> cancelling cm c -> cancelling cm c' /\ none_ends cm k.
Proof. intros (u & c1 & (q' & _ & ->)%locked_Done & H2)%st_bind_Done. injection H2 as <- <-. intros Hc. split; [by apply (cancelling_managers cm c)|by repeat constructor]. Qed.
Lemma take_token_cancelling cm op r (c : Config V) k c' : take_token op r c = Done (k, c') -> cancelling cm c -> cancelling cm c' /\ none_ends cm k.
Proof.
  unfold take_token, st_bind, st_get, st_modify, st_ret. cbn [Cancellation.get_cancellation_token]. intros [= <- <-] Hc. split; [by apply cancelling_with|by repeat constructor].
Qed.
Lemma compute_cancelling cm op r (c : Config V) k c' : compute op r c = Done (k, c') -> cancelling cm c -> cancelling cm c' /\ none_ends cm k.
Proof.
  destruct r as [t|b| |n small|now]; unfold compute, EnqueueOp, EnqueueManyOp, TryEnqueueMany, DequeueManyOp, TryDequeueMany, QueueCloseOp; cbn zeta.
  - intros (s & c1 & [Hs ->]%st_opt_Done & H2)%st_bind_Done. destruct (negb (ok s)); [by eapply fails_cancelling|by eapply take_token_cancelling].
  - intros (s & c1 & [Hs ->]%st_opt_Done & H2)%st_bind_Done. destruct (negb (ok s)); [by eapply fails_cancelling|].
    apply st_bind_Done in H2 as (n & c2 & [Hn ->]%st_opt_Done & H2). destruct (n =? 0); [|by eapply take_token_cancelling]. injection H2 as <- <-. split; [done|by repeat constructor].
  - apply take_token_cancelling.
  - destruct (negb (0 <=? n)); [apply fails_cancelling|]. destruct (negb specified_shapes); [apply fails_cancelling|]. destruct (n =? 0); [|apply take_token_cancelling].
    intros (t & c1 & (q' & _ & ->)%locked_Done & H2)%st_bind_Done. injection H2 as <- <-. intros Hc. split; [by apply (cancelling_managers cm c)|by repeat constructor].
  - destruct now; intros [= <- <-]; (split; [done|by repeat constructor]).
Qed.
Lemma attempt_cancelling cm op r token (c : Config V) k c' : attempt op r token c = Done (k, c') -> cancelling cm c -> cancelling cm c' /\ none_ends cm k.
Proof.
  intros H Hc. assert (Hpush : forall (m : ST (Queue V) unit) c1, cancelling cm c1 -> (locked m ;;; st_ret [Flush_]) c1 = Done (k, c') -> cancelling cm c' /\ none_ends cm k).
  { intros m c1 Hc1 (u & c2 & (q' & _ & ->)%locked_Done & [= <- <-])%st_bind_Done. split; [by apply (cancelling_managers cm c1)|by repeat constructor]. }
  assert (Hreg : register_attempt op r token c = Done (k, c') -> cancelling cm c' /\ none_ends cm k).
  { clear H. unfold register_attempt. intros (c0 & c1 & [= <- <-] & H)%st_bind_Done. apply st_bind_Done in H as ([reg m] & c2 & [Hreg ->]%st_opt_Done & H). apply st_bind_Done in H as (u & c3 & [= _ <-] & H).
    unfold Cancellation.RegisterCallback in Hreg. destruct (token <? _); [|done]. assert (Hm : cancelling cm (with_manager (cancellation_manager op) m c)) by (apply cancelling_with; [done|..]; injection Hreg as _ <-; by destruct (_ && _)).
    destruct reg; [|by eapply fails_cancelling]. apply st_bind_Done in H as (u1 & c4 & [= _ <-] & H). eapply Hpush; [|exact H]. by apply (cancelling_managers cm (with_manager (cancellation_manager op) m c)). }
  unfold attempt in H. destruct r as [t|b| |n small|now]; try (apply Hreg; exact H). by eapply Hpush.
Qed.
Lemma none_ends_map {A} cm (f : A -> Stmt V) l : (forall x, ends cm (f x) = false) -> none_ends cm (map f l).
Proof. intros H. apply Forall_map, Forall_forall. intros x _. apply H. Qed.
Lemma exec_cancelling cm st (c : Config V) k c' : exec st c = Done (Some k, c') -> cancelling cm c -> ends cm st = false -> cancelling cm c' /\ none_ends cm k.
Proof.
  destruct st as [op r|op r token|op| |callback|x token|x|x|action x token|x|x]; cbn [exec ends]; intros He Hc Hne.
  - apply st_bind_Done in He as (k0 & c1 & H1 & H2). injection H2 as <- <-. by eapply compute_cancelling.
  - apply st_bind_Done in He as (k0 & c1 & H1 & H2). injection H2 as <- <-. by eapply attempt_cancelling.
  - apply st_bind_Done in He as (l & c1 & (q' & _ & ->)%locked_Done & H2). injection H2 as <- <-. split; [by apply (cancelling_managers cm c)|]. apply Forall_app. split; [by apply none_ends_map|by repeat constructor].
  - apply st_bind_Done in He as (l & c1 & (q' & _ & ->)%locked_Done & H2). injection H2 as <- <-. split; [by apply (cancelling_managers cm c)|].
    apply Forall_concat, Forall_map, Forall_forall. intros y _. apply Forall_app. split; [destruct (negb _)|]; by repeat constructor.
  - apply st_bind_Done in He as (d & c1 & [_ ->]%st_opt_Done & H2). injection H2 as <- <-. split; [by apply (cancelling_managers cm c)|by constructor].
  - apply st_bind_Done in He as (c0 & c1 & [= <- <-] & H). unfold Cancellation.DeregisterCallback in H.
    destruct (Cancellation.is_cancelled_ _) eqn:E1; [|destruct (Cancellation.is_cancelling_ _) eqn:E2]; injection H as <- <-; (split; [|by repeat constructor]); [by apply cancelling_with|done|by apply cancelling_with].
  - apply st_bind_Done in He as (c0 & c1 & [= <- <-] & H). destruct (Cancellation.notified _); [|done]. injection H as <- <-. split; [done|by constructor].
  - apply st_bind_Done in He as (c0 & c1 & [= <- <-] & H). unfold Cancellation.StartCancel in H. destruct (_ || _) eqn:Eb; injection H as <- <-; [split; [done|by constructor]|].
    assert (Hne' : x <> cm) by (intros ->; rewrite (cg_cancelling _ _ Hc) in Eb; by destruct (Cancellation.is_cancelled_ _)).
    split.
    + destruct Hc as [H1 H2 H3]. assert (Hm : forall m, manager_of (with_manager x m c) cm = manager_of c cm) by (intros m; unfold manager_of; cbn; by rewrite lookup_insert_ne).
      split; by rewrite Hm.
    + apply Forall_app. split; [by apply none_ends_map; intros [[? ?] ?]|]. repeat constructor; cbn; by apply bool_decide_eq_false.
  - apply st_bind_Done in He as (d & c1 & (q' & _ & ->)%locked_Done & H2). injection H2 as <- <-. split; [by apply (cancelling_managers cm c)|]. destruct d; by repeat constructor.
  - apply st_bind_Done in He as (u & c1 & [= _ <-] & H). injection H as <- <-. split; [|by constructor]. apply bool_decide_eq_false in Hne. destruct Hc as [H1 H2 H3].
    assert (Hm : forall m, manager_of (with_manager x m c) cm = manager_of c cm) by (intros m; unfold manager_of; cbn; by rewrite lookup_insert_ne). split; by rewrite Hm.
  - apply st_bind_Done in He as (u & c1 & [= _ <-] & H). injection H as <- <-. split; [|by constructor]. apply bool_decide_eq_false in Hne. destruct Hc as [H1 H2 H3].
    assert (Hm : forall m, manager_of (with_manager x m c) cm = manager_of c cm) by (intros m; unfold manager_of; cbn; by rewrite lookup_insert_ne). split; by rewrite Hm.
Qed.
(** What the thread would itself have to do never happens. *)
Lemma wedged_step cm i l (c c' : Config V) : env_ok V E -> reachable request_ok c -> wedged cm i l c -> step request_ok c c' -> wedged cm i l c'.
Proof.
  intros H Hr (Hc & Hi & Ho) [[op r Hop Hreq Hlen|x]|Hs].
  - split; [by apply (cancelling_managers cm c)|]. cbn [threads with_threads with_submitted]. split; [by apply lookup_app_l_Some|]. intros j k Hj Hk. apply lookup_app_Some in Hk as [Hk|[_ Hk]]; [by eapply Ho|].
    apply list_lookup_singleton_Some in Hk as [_ <-]. by repeat constructor.
  - split; [by apply (cancelling_managers cm c)|]. cbn [threads with_threads]. split; [by apply lookup_app_l_Some|]. intros j k Hj Hk. apply lookup_app_Some in Hk as [Hk|[_ Hk]]; [by eapply Ho|].
    apply list_lookup_singleton_Some in Hk as [_ <-]. by repeat constructor.
  - destruct (reachable_crel c H Hr) as (s & _ & Hcr). apply thread_step_exec in Hs as (j & st & rest & k & c1 & Ht & He & ->). pose proof (crel_threads _ _ _ _ _ _ _ H Hcr Ht He) as Hth.
    destruct (decide (j = i)) as [->|Hne].
    + rewrite Hi in Ht. injection Ht as <- <-. cbn [exec] in He. apply st_bind_Done in He as (c0 & c2 & [= <- <-] & He). rewrite (cg_notified _ _ Hc) in He. done.
    + assert (Hst : none_ends cm (st :: rest)) by (by eapply Ho). apply Forall_cons in Hst as [Hst Hrest]. destruct (exec_cancelling cm _ _ _ _ He Hc Hst) as [Hc1 Hk].
      split; [by apply (cancelling_managers cm c1)|]. cbn [threads with_threads]. rewrite Hth. split; [by rewrite list_lookup_insert_ne|]. intros j' k' Hj' Hk'.
      apply list_lookup_insert_Some in Hk' as [(_ & <- & _)|[_ Hk']]; [by apply Forall_app|by eapply Ho].
Qed.
Lemma wedged_forever cm i l (c c' : Config V) : env_ok V E -> reachable request_ok c -> wedged cm i l c -> rtc (step request_ok) c c' -> wedged cm i l c'.
Proof.
  intros H Hr Hw Hs. revert Hr Hw. induction Hs as [|c1 c2 c3 Hs _ IH]; [done|]. intros Hr Hw. apply IH; [|by eapply wedged_step]. destruct Hr as (q & Hq & Hr). exists q. split; [done|by eapply rtc_r].
Qed.
End Wedge.
(** ** The executions *)

(** One component with room for one row; every operation is of the same step. *)
Definition one_slot : QueueEnv Z := scalars 1 [3] (fun _ => 0%nat).
Definition deadlock_moves : list Move :=
  [Begin 0 (Enqueue (row [3] 10)); Begin 1 Dequeue; Begin 2 (Enqueue (row [3] 20)); Begin 3 (Enqueue (row [3] 30)); Begin 4 (Close false); Begin 5 (Enqueue (row [3] 40)); Cancels 0].
Definition start (n : nat) : Config Z := new_Config (mkQueue false (replicate n []) [] [] ∅ 0%nat).
Definition deadlock_end : Config Z := default (start 1) (serves (E := one_slot) deadlock_moves (start 1)).
Definition deadlock_thread : list (Stmt Z) := [Call_ (Some (Plain 5)); Cancel_ kEnqueue 0 4; CancelFinish_ 0; CancelNotify_ 0].

(** C30: with every assumption of the other properties satisfied, cancelling a
    step can hang for ever: the flush that follows the cancellation of an
    [Enqueue] lets a [Close] finish, and with it a later [Enqueue] of the same
    step; the thread then waits, in [DeregisterCallback], for the end of the very
    [StartCancel] that it is running, whatever the others do. *)
Theorem fifo_cancel_deadlock : env_ok Z one_slot /\ exists c : Config Z, reachable (E := one_slot) (request_ok (E := one_slot)) c /\
  forall c', rtc (step (E := one_slot) (request_ok (E := one_slot))) c c' -> threads c' !! 6%nat = Some (Waits_ 0 :: deadlock_thread).
Proof.
  assert (H : env_ok Z one_slot) by (apply scalars_ok; [lia|done|done|by apply (bool_decide_eq_true (Forall (fun d => d ∈ handled_types) [3]))]).
  split; [done|]. exists deadlock_end. assert (Hr : reachable (E := one_slot) (request_ok (E := one_slot)) deadlock_end).
  { apply (serves_reachable (E := one_slot) (request_ok (E := one_slot)) deadlock_moves (mkQueue false [[]] [] [] ∅ 0%nat)); [reflexivity| |vm_compute; reflexivity].
    assert (Ht : Forall (fun d => is_Some (DataTypeString d)) [3]) by (repeat constructor; by eexists).
    unfold deadlock_moves. rewrite !Forall_cons. split_and!; cbn [move_ok]; try (by apply (row_request (E := one_slot))); done || by apply Forall_nil. }
  split; [done|]. intros c' Hs. apply (wedged_forever (E := one_slot) 0 6 deadlock_thread deadlock_end c' H Hr); [|done].
  split; [by split; vm_compute|]. split; [vm_compute; reflexivity|]. intros j k Hj Hk. assert (El : map (fun _ => tt) (threads deadlock_end) = replicate 7 tt) by (vm_compute; reflexivity).
  assert (Hnil : forall j', (j' < 6)%nat -> threads deadlock_end !! j' = Some []) by (intros j' Hlt; do 6 (destruct j' as [|j']; [vm_compute; reflexivity|]); lia).
  apply (f_equal length) in El. rewrite length_map, length_replicate in El. assert (j < 6)%nat by (apply lookup_lt_Some in Hk; lia). rewrite Hnil in Hk by done. injection Hk as <-. constructor.
Qed.

(** Two components, the second of a type that the slices do not copy. *)
Definition with_uint16 : QueueEnv Z := scalars 2 [3; 17] (fun op => op).
(** No memory. *)
Definition no_memory : QueueEnv Z := mkQueueEnv Z 2 [3] [new_TensorShape] (bytes_of "queue") 0 (fun _ => false) (fun op => op).
Definition uint16_moves : list Move := [Begin 0 (EnqueueMany (batch [3; 17] [10; 20]))].
Definition uint16_end : Config Z := default (start 2) (serves (E := with_uint16) uint16_moves (start 2)).
Definition memory_moves : list Move := [Begin 0 (Enqueue (row [3] 10))].
Definition memory_end : Config Z := default (start 1) (serves (E := no_memory) memory_moves (start 1)).

(** Two executions in which the code does not undo. An [EnqueueMany] fails at its
    second component and has put the first one: the deques are of different
    lengths, and the next [Dequeue] takes from an empty one. The batch of a
    [DequeueMany] of one row cannot be allocated, and the code divides by the
    length of an empty tensor. *)
Theorem fifo_error_crashes :
  (exists c : Config Z, reachable (E := with_uint16) (request_ok (E := with_uint16)) c /\ map (fun x => code x.2) (calls c) = [UNIMPLEMENTED] /\ map (length (A := Tensor Z)) (queues_ (queue c)) = [1; 0]%nat /\
     exists c', rtc (step (E := with_uint16) (request_ok (E := with_uint16))) c c' /\ crashes (E := with_uint16) c') /\
  (exists c : Config Z, reachable (E := no_memory) (request_ok (E := no_memory)) c /\ map (fun x => code x.2) (calls c) = [0] /\
     exists c', rtc (step (E := no_memory) (request_ok (E := no_memory))) c c' /\ crashes (E := no_memory) c').
Proof.
  split.
  - exists uint16_end. split; [|split; [vm_compute; reflexivity|split; [vm_compute; reflexivity|]]].
    + apply (serves_reachable (E := with_uint16) (request_ok (E := with_uint16)) uint16_moves (mkQueue false [[]; []] [] [] ∅ 0%nat)); [reflexivity| |vm_compute; reflexivity].
      unfold uint16_moves. rewrite Forall_cons. split; [|by apply Forall_nil]. apply (batch_request 2); [|done]. repeat constructor; by eexists.
    + exists (default uint16_end (drive (E := with_uint16) [Begin 1 Dequeue; Go 1; Go 1] uint16_end)). split.
      * apply (drive_steps (E := with_uint16) (request_ok (E := with_uint16)) [Begin 1 Dequeue; Go 1; Go 1]); [by repeat constructor|vm_compute; reflexivity].
      * exists 1%nat. left. vm_compute. reflexivity.
  - exists memory_end. split; [|split; [vm_compute; reflexivity|]].
    + apply (serves_reachable (E := no_memory) (request_ok (E := no_memory)) memory_moves (mkQueue false [[]] [] [] ∅ 0%nat)); [reflexivity| |vm_compute; reflexivity].
      unfold memory_moves. rewrite Forall_cons. split; [|by apply Forall_nil]. apply (row_request (E := no_memory)). repeat constructor; by eexists.
    + exists (default memory_end (drive (E := no_memory) [Begin 1 (DequeueMany 1 false); Go 1; Go 1] memory_end)). split.
      * apply (drive_steps (E := no_memory) (request_ok (E := no_memory)) [Begin 1 (DequeueMany 1 false); Go 1; Go 1]); [|vm_compute; reflexivity].
        rewrite !Forall_cons. split; [by apply (size_scalars 2 [3] (fun op => op))|by repeat constructor].
      * exists 1%nat. left. vm_compute. reflexivity.
Qed.
End FifoQueueFailures.
