(* ===== verification/Kernels.v ===== *)
(** * Device sets and the kernel registry

    [Device] ([common_runtime/device.{h,cc}], its attributes) and [DeviceSet]
    ([common_runtime/device_set.{h,cc}]).

    What the placer asks the registry of kernels in [framework/op_kernel.cc]:
    which of the device types have a kernel for a node. *)
From S2P Require Import Prelude Status StringPiece DeviceNames Numbers Graph.
From stdpp Require Import gmap sorting.
Open Scope Z_scope.

Module DeviceSet.
Import DeviceNames.

(** The attributes of a device that its users read. *)
Record Device := mkDevice { name : list Z; device_type : list Z; parsed_name : ParsedName }.
(** The constructor; [None] is its [CHECK]. *)
Definition new_Device (nm ty : list Z) : option Device :=
  match ParseFullName nm with Some (true, p) => Some (mkDevice nm ty p) | _ => None end.
#[global] Instance Device_eq_dec : EqDecision Device.
Proof. intros x y. unfold Decision. repeat decide equality. Defined.

Record DeviceSet := mkDeviceSet { devices_ : list Device; device_by_name_ : gmap (list Z) Device }.
Definition new_DeviceSet : DeviceSet := mkDeviceSet [] ∅.
(** [insert] keeps the device that has the name already. *)
Definition AddDevice (d : Device) (s : DeviceSet) : DeviceSet :=
  mkDeviceSet (devices_ s ++ [d]) (match device_by_name_ s !! name d with Some _ => device_by_name_ s | None => <[name d := d]> (device_by_name_ s) end).

(** [None]: the [CHECK] of [IsCompleteSpecification] on the name of a device. *)
Fixpoint matching (spec : ParsedName) (l : list Device) : option (list Device) :=
  match l with
  | [] => Some []
  | d :: l' =>
      match IsCompleteSpecification spec (parsed_name d), matching spec l' with
      | Some b, Some r => Some (if b then d :: r else r)
      | _, _ => None
      end
  end.
Definition FindMatchingDevices (s : DeviceSet) (spec : ParsedName) : option (list Device) := matching spec (devices_ s).
Definition FindDeviceByName (s : DeviceSet) (nm : list Z) : option Device := device_by_name_ s !! nm.

Definition DeviceTypeOrder (d : list Z) : Z := if bool_decide (d = bytes_of "CPU") then 3 else if bool_decide (d = bytes_of "GPU") then 2 else 1.
(** The order of pairs of a number and a text, as [<=]; [std::sort] by it. *)
Definition pair_le (a b : Z * list Z) : bool := (a.1 <? b.1) || (a.1 =? b.1) && (StringPiece.compare a.2 b.2 <=? 0).
Definition type_key (d : list Z) : Z * list Z := (DeviceTypeOrder d, d).
Definition DeviceTypeComparator (a b : list Z) : Prop := pair_le (type_key a) (type_key b) = true.
#[global] Instance DeviceTypeComparator_dec a b : Decision (DeviceTypeComparator a b).
Proof. unfold DeviceTypeComparator. apply _. Defined.
Fixpoint distinct (seen : list (list Z)) (l : list (list Z)) : list (list Z) :=
  match l with [] => [] | t :: l' => if bool_decide (t ∈ seen) then distinct seen l' else t :: distinct (t :: seen) l' end.
Definition PrioritizedDeviceTypeList (s : DeviceSet) : list (list Z) := merge_sort DeviceTypeComparator (distinct [] (map device_type (devices_ s))).
End DeviceSet.

Open Scope Z_scope.

Module Kernels.
Import Status Numbers Graph.

(** kernel_def.proto: a constraint is the name of an attribute with the types
    that are allowed. *)
Record KernelDef := mkKernelDef { k_op : list Z; k_device_type : list Z; k_label : list Z; k_constraint : list (list Z * list Z) }.

(** Protocol buffers: what is read from an attribute (its type, or the value
    when it has the type [list(type)], [list(string)] or [string]), and texts.
    [registered]: the kernels that were registered, in the order of the registry.
    [Global_LookUp]: the status of [OpRegistry::Global()->LookUp]. *)
Class KernelRegistry (AttrValue : Type) := mkRegistry {
  registered : list KernelDef;
  Global_LookUp : list Z -> Status;
  attr_type : AttrValue -> Z;
  attr_types : AttrValue -> option (list Z);
  attr_strings : AttrValue -> option (list (list Z));
  attr_string : AttrValue -> option (list Z);
  SummarizeAttrValue : AttrValue -> list Z;
  SummarizeNodeDef : NodeDef AttrValue -> list Z;
  ProtoShortDebugString : KernelDef -> list Z;
  SummarizeTypes : list Z -> list Z
}.

Section Registry.
Context {AttrValue : Type} {kernels : KernelRegistry AttrValue}.
Abbreviation NodeDef := (NodeDef AttrValue).

Definition Key (op_type device_type label : list Z) : list Z := op_type ++ bytes_of ":" ++ device_type ++ bytes_of ":" ++ label.
Definition InTypeList (dt : Z) (l : list Z) : bool := existsb (Z.eqb dt) l.
(** A status and [*match]. *)
Fixpoint attrs_match (node_def : NodeDef) (kernel_def : KernelDef) (constraints : list (list Z * list Z)) : Status * bool :=
  match constraints with
  | [] => (OK, true)
  | (name, allowed) :: constraints' =>
      if bool_decide (allowed = []) then
        (Unimplemented (bytes_of "KernelDef '" ++ ProtoShortDebugString kernel_def ++ bytes_of " has constraint on attr '" ++ name ++
           bytes_of "' with unsupported type: " ++ SummarizeTypes allowed), false)
      else
        match def_attr node_def !! name with
        | Some found =>
            if negb (attr_type found =? 0) then
              if InTypeList (attr_type found) allowed then attrs_match node_def kernel_def constraints' else (OK, false)
            else
              match attr_types found with
              | None =>
                  (InvalidArgument (bytes_of "KernelDef '" ++ ProtoShortDebugString kernel_def ++ bytes_of "' has constraint on attr '" ++ name ++
                     bytes_of "' that has value '" ++ SummarizeAttrValue found ++ bytes_of "' that does not have type 'type' or 'list(type)' in NodeDef '" ++
                     SummarizeNodeDef node_def ++ bytes_of "'"), false)
              | Some types =>
                  if forallb (fun t => InTypeList t allowed) types then attrs_match node_def kernel_def constraints' else (OK, false)
              end
        | None =>
            (InvalidArgument (bytes_of "OpKernel '" ++ k_op kernel_def ++ bytes_of "' has constraint on attr '" ++ name ++ bytes_of "' not in NodeDef '" ++
               SummarizeNodeDef node_def ++ bytes_of "', KernelDef: '" ++ ProtoShortDebugString kernel_def ++ bytes_of "'"), false)
        end
  end.
Definition AttrsMatch (node_def : NodeDef) (kernel_def : KernelDef) : Status * bool := attrs_match node_def kernel_def (k_constraint kernel_def).

(** The loop over the kernels with the key: a status and [*reg]. *)
Fixpoint find_registration (node_def : NodeDef) (regs : list KernelDef) (reg : option KernelDef) : Status * option KernelDef :=
  match regs with
  | [] => (OK, reg)
  | k :: regs' =>
      let '(s, m) := AttrsMatch node_def k in
      if negb (ok s) then (s, reg)
      else if m then
        match reg with
        | Some r =>
            (InvalidArgument (bytes_of "Multiple OpKernel registrations match NodeDef '" ++ SummarizeNodeDef node_def ++ bytes_of "': '" ++ ProtoShortDebugString r ++
               bytes_of "' and '" ++ ProtoShortDebugString k ++ bytes_of "'"), reg)
        | None => find_registration node_def regs' (Some k)
        end
      else find_registration node_def regs' reg
  end.
Definition kernel_label (node_def : NodeDef) : list Z :=
  match def_attr node_def !! bytes_of "_kernel" with Some v => default [] (attr_string v) | None => [] end.
Definition equal_range (key : list Z) : list KernelDef :=
  List.filter (fun k => bool_decide (Key (k_op k) (k_device_type k) (k_label k) = key)) (List.filter (fun k => negb (bool_decide (k_op k = bytes_of "_no_register"))) registered).
Definition FindKernelRegistration (device_type : list Z) (node_def : NodeDef) : Status * option KernelDef :=
  find_registration node_def (equal_range (Key (def_op node_def) device_type (kernel_label node_def))) None.

(** The loop over the prioritized types: a status and [*device_types]. *)
Fixpoint supported_types (types : list (list Z)) (d : NodeDef) (device_types : list (list Z)) : Status * list (list Z) :=
  match types with
  | [] => (OK, device_types)
  | device_type :: types' =>
      let '(s, reg) := FindKernelRegistration device_type d in
      if negb (ok s) then (s, device_types)
      else supported_types types' d (match reg with Some _ => device_types ++ [device_type] | None => device_types end)
  end.
Definition SupportedDeviceTypesForNode (prioritized_types : list (list Z)) (d : NodeDef) : Status * list (list Z) :=
  if ok (Global_LookUp (def_op d)) then supported_types prioritized_types d [] else (OK, prioritized_types).

Definition kernel_text (k : KernelDef) : list Z :=
  bytes_of "  device='" ++ k_device_type k ++ bytes_of "'" ++
  (if bool_decide (k_label k = []) then [] else bytes_of "; label='" ++ k_label k ++ bytes_of "'") ++
  concat (map (fun c => bytes_of "; " ++ c.1 ++ bytes_of " in " ++ SummarizeTypes c.2) (k_constraint k)) ++ [10].
Definition KernelsRegisteredForOp (op_name : list Z) : list Z :=
  let ret := concat (map kernel_text (List.filter (fun k => bool_decide (k_op k = op_name)) (List.filter (fun k => negb (bool_decide (k_op k = bytes_of "_no_register"))) registered))) in
  if bool_decide (ret = []) then bytes_of "  <no registered kernels>" ++ [10] else ret.
End Registry.
End Kernels.
