(* ===== verification/Placer.v ===== *)
(** * The placer

    [SimplePlacer] and its [ColocationGraph] ([common_runtime/simple_placer.{h,cc}]):
    the nodes of a graph get a device each. The state is the graph in memory
    ([Graph]) and the forest of the disjoint sets of colocated nodes. *)
From S2P Require Import Prelude Status Numbers StringPiece DataTypes EdgeSet Graph DeviceNames Kernels.
From stdpp Require Import gmap sorting.
Open Scope Z_scope.

Module Placer.
Import Status Numbers DataTypes Graph Kernels.

Definition kColocationAttrName : list Z := bytes_of "_class".
Definition kColocationGroupPrefix : list Z := bytes_of "loc:@".

(** ** Devices of a type *)

Definition device_key (d : DeviceSet.Device) : Z * list Z := (DeviceSet.DeviceTypeOrder (DeviceSet.device_type d), DeviceSet.name d).
Definition device_sort (a b : DeviceSet.Device) : Prop := DeviceSet.pair_le (device_key a) (device_key b) = true.
#[global] Instance device_sort_dec a b : Decision (device_sort a b).
Proof. unfold device_sort. apply _. Defined.
Definition FilterSupportedDevices (devices : list DeviceSet.Device) (supported_device_types : list (list Z)) : list DeviceSet.Device :=
  merge_sort device_sort (concat (map (fun d => List.filter (fun device => bool_decide (DeviceSet.device_type device = d)) devices) supported_device_types)).

(** The texts in order. *)
Definition text_le (a b : list Z) : Prop := (StringPiece.compare a b <=? 0) = true.
#[global] Instance text_le_dec a b : Decision (text_le a b).
Proof. unfold text_le. apply _. Defined.

(** ** The forest *)

Record Member := mkMember {
  parent : Z;
  ids_in_group : list Z;
  op_type : list Z;
  rank : Z;
  supported_device_types : list (list Z);
  device_name : DeviceNames.ParsedName;
  possible_devices : list DeviceSet.Device
}.
Definition new_Member : Member := mkMember (-1) [] [] 0 [] DeviceNames.Clear [].
Definition with_parent x (m : Member) := mkMember x (ids_in_group m) (op_type m) (rank m) (supported_device_types m) (device_name m) (possible_devices m).
Definition with_ids x (m : Member) := mkMember (parent m) x (op_type m) (rank m) (supported_device_types m) (device_name m) (possible_devices m).
Definition with_rank x (m : Member) := mkMember (parent m) (ids_in_group m) (op_type m) x (supported_device_types m) (device_name m) (possible_devices m).
Definition with_types x (m : Member) := mkMember (parent m) (ids_in_group m) (op_type m) (rank m) x (device_name m) (possible_devices m).
Definition with_name x (m : Member) := mkMember (parent m) (ids_in_group m) (op_type m) (rank m) (supported_device_types m) x (possible_devices m).
Definition with_possible x (m : Member) := mkMember (parent m) (ids_in_group m) (op_type m) (rank m) (supported_device_types m) (device_name m) x.
(** A [std::set] of ids, in order. *)
Fixpoint set_insert (i : Z) (l : list Z) : list Z :=
  match l with [] => [i] | j :: l' => if i <? j then i :: l else if i =? j then l else j :: set_insert i l' end.

(** [MergeSupportedDevices] *)
Definition MergeSupportedDevices (target other : list (list Z)) : list (list Z) := List.filter (fun t => existsb (fun o => bool_decide (t = o)) other) target.

(** ** The state *)

Section Placer.
Context {OpDef AttrValue : Type} {registry : OpRegistryInterface OpDef AttrValue} {kernels : KernelRegistry AttrValue}.
Abbreviation NodeDef := (NodeDef AttrValue).
Abbreviation Graph := (Graph OpDef AttrValue).
(** The devices, and whether soft placement is allowed (it is without options). *)
Context (device_set_ : DeviceSet.DeviceSet) (allow_soft_placement : bool).

Record State := mkState { graph_ : Graph; members_ : list Member; colocation_group_root_ : gmap (list Z) Z }.
Definition with_members f (s : State) : State := mkState (graph_ s) (f (members_ s)) (colocation_group_root_ s).
Definition with_roots f (s : State) : State := mkState (graph_ s) (members_ s) (f (colocation_group_root_ s)).
Abbreviation P := (ST State).
Definition on_graph {A} (m : ST Graph A) : P A :=
  fun s => match m (graph_ s) with Done (a, g) => Done (a, mkState g (members_ s) (colocation_group_root_ s)) | Aborts => Aborts | Diverges => Diverges end.

Definition device_types_ : list (list Z) := DeviceSet.PrioritizedDeviceTypeList device_set_.
Definition member_of (i : Z) : P Member := let! s := st_get in st_opt (members_ s !!z i).
Definition update_member (i : Z) (f : Member -> Member) : P unit := let! m := member_of i in st_modify (with_members (fun l => zinsert l i (f m))).

(** [FindRoot], with path compression. A path visits each member at most once. *)
Fixpoint find_root (fuel : nat) (node_id : Z) : P Z :=
  match fuel with
  | O => st_diverge
  | S fuel' =>
      let! m := member_of node_id in
      st_check (0 <=? parent m) ;;;
      (if negb (parent m =? node_id) then let! r := find_root fuel' (parent m) in update_member node_id (with_parent r) else st_ret tt) ;;;
      let! m := member_of node_id in
      st_ret (parent m)
  end.
Definition FindRoot (node_id : Z) : P Z := let! s := st_get in find_root (S (length (members_ s))) node_id.

(** ** [ColocationGroups] *)

Definition own_group (nm : list Z) : list (list Z) := [kColocationGroupPrefix ++ nm].
Definition ColocationGroups (d : NodeDef) : list (list Z) :=
  match def_attr d !! kColocationAttrName with
  | Some v =>
      match attr_strings v with
      | Some class_specs =>
          let found := List.filter (fun spec => (StringPiece.Consume spec kColocationGroupPrefix).1) class_specs in
          if bool_decide (found = []) then own_group (def_name d) else found
      | None => own_group (def_name d)
      end
  | None => own_group (def_name d)
  end.

(** ** [AddNode] *)

(** The text of the kernels of a group: the last member of each op. *)
Definition debug_line (m : Member) : list Z := concat (map (fun t => t ++ bytes_of " ") (supported_device_types m)).
Fixpoint type_to_devices (ids : list Z) (acc : gmap (list Z) (list Z)) : P (gmap (list Z) (list Z)) :=
  match ids with
  | [] => st_ret acc
  | i :: ids' => let! m := member_of i in type_to_devices ids' (<[op_type m := debug_line m]> acc)
  end.
Definition AddDebugInfo (node_root : Z) : P (list Z) :=
  let! m := member_of node_root in
  if 1 <? zlength (ids_in_group m) then
    let! t := type_to_devices (ids_in_group m) ∅ in
    st_ret ([10] ++ bytes_of "Colocation Debug Info:" ++ [10] ++ bytes_of "Colocation group had the following types and devices: " ++
      concat (map (fun td => [10] ++ td.1 ++ bytes_of ": " ++ td.2) (map_to_list t)))
  else st_ret [].

(** A status and the member. *)
Definition InitializeMember (p : Z) : P (Status * Member) :=
  let! n := on_graph (node_of p) in
  let! d := on_graph (def p) in
  let m := with_ids [id_ n] new_Member in
  let m := mkMember (parent m) (ids_in_group m) (def_op d) (rank m) (supported_device_types m) (device_name m) (possible_devices m) in
  if id_ n <? 0 then st_ret (InvalidArgument (bytes_of "Node id was not positive: " ++ FastInt32ToBufferLeft (id_ n)), m)
  else
    let m := with_parent (id_ n) m in
    let '(s, types) := SupportedDeviceTypesForNode device_types_ d in
    let m := with_types types m in
    if negb (ok s) then st_ret (s, m)
    else if negb (bool_decide (assigned_device_name_ n = [])) then
      let! '(parsed, nm) := st_opt (DeviceNames.ParseFullName (assigned_device_name_ n)) in
      let m := with_name nm m in
      if negb parsed then st_ret (Internal (bytes_of "Malformed assigned device '" ++ assigned_device_name_ n ++ bytes_of "'"), m)
      else
        match DeviceSet.FindDeviceByName device_set_ (assigned_device_name_ n) with
        | None => st_ret (Internal (bytes_of "Assigned device '" ++ assigned_device_name_ n ++ bytes_of "' does not match any device"), m)
        | Some assigned_device =>
            if existsb (fun t => bool_decide (DeviceSet.device_type assigned_device = t)) types then st_ret (OK, m)
            else st_ret (Internal (bytes_of "Assigned device '" ++ assigned_device_name_ n ++ bytes_of "' does not have registered OpKernel support for " ++ def_op d), m)
        end
    else if bool_decide (types = []) then
      st_ret (InvalidArgument (bytes_of "No OpKernel was registered to support Op '" ++ def_op d ++ bytes_of "' with these attrs.  Registered devices: [" ++
        Join (merge_sort text_le (DeviceSet.distinct [] (map DeviceSet.device_type (DeviceSet.devices_ device_set_)))) (bytes_of ",") ++
        bytes_of "], Registered kernels:" ++ [10] ++ KernelsRegisteredForOp (def_op d)), m)
    else if negb (bool_decide (def_device d = [])) then
      let! '(parsed, nm) := st_opt (DeviceNames.ParseFullName (def_device d)) in
      let m := with_name nm m in
      if negb parsed then st_ret (InvalidArgument (bytes_of "Malformed device specification '" ++ def_device d ++ bytes_of "'"), m) else st_ret (OK, m)
    else st_ret (OK, m).

(** The linking of two roots by rank: the new root and the old one. *)
Definition link_roots (x_root y_root : Z) : P (Z * Z) :=
  let! mx := member_of x_root in
  let! my := member_of y_root in
  if rank mx <? rank my then update_member x_root (with_parent y_root) ;;; st_ret (y_root, x_root)
  else if rank my <? rank mx then update_member y_root (with_parent x_root) ;;; st_ret (x_root, y_root)
  else
    update_member y_root (with_parent x_root) ;;;
    update_member x_root (with_rank (s32 (rank mx + 1))) ;;;
    st_ret (x_root, y_root).
Definition ColocateNodes (x y : Z) : P Status :=
  let! nx := on_graph (node_of x) in
  let! ny := on_graph (node_of y) in
  let! x_root := FindRoot (id_ nx) in
  let! y_root := FindRoot (id_ ny) in
  if x_root =? y_root then st_ret OK
  else
    let! x_name := on_graph (Graph.name x) in
    let! y_name := on_graph (Graph.name y) in
    let! '(new_root, old_root) := link_roots x_root y_root in
    let! mn := member_of new_root in
    let! mo := member_of old_root in
    let '(s, merged) := DeviceNames.MergeDevNames (device_name mn) (device_name mo) allow_soft_placement in
    update_member new_root (with_name merged) ;;;
    if negb (ok s) then
      st_ret (InvalidArgument (bytes_of "Cannot colocate nodes '" ++ x_name ++ bytes_of "' and '" ++ y_name ++ bytes_of ": " ++ error_message s))
    else
      update_member new_root (with_ids (foldr set_insert (ids_in_group mn) (ids_in_group mo))) ;;;
      update_member old_root (with_ids []) ;;;
      let types := MergeSupportedDevices (supported_device_types mn) (supported_device_types mo) in
      update_member new_root (with_types types) ;;;
      if bool_decide (types = []) then
        let! dx := AddDebugInfo x_root in
        let! dy := AddDebugInfo y_root in
        st_ret (InvalidArgument (bytes_of "Cannot colocate nodes '" ++ x_name ++ bytes_of "' and '" ++ y_name ++
          bytes_of "' because no device type supports both of those nodes and the other nodes colocated with them." ++ dx ++ dy))
      else st_ret OK.

Fixpoint add_groups (p : Z) (groups : list (list Z)) : P Status :=
  match groups with
  | [] => st_ret OK
  | group :: groups' =>
      let! s := st_get in
      match colocation_group_root_ s !! group with
      | None => st_modify (with_roots <[group := p]>) ;;; add_groups p groups'
      | Some root => let! st := ColocateNodes p root in if negb (ok st) then st_ret st else add_groups p groups'
      end
  end.
Definition AddNode (p : Z) : P Status :=
  let! '(s, member) := InitializeMember p in
  if negb (ok s) then st_ret s
  else
    st_check (0 <=? parent member) ;;;
    st_modify (with_members (fun l => zinsert (resize (Z.to_nat (parent member + 1)) new_Member l) (parent member) member)) ;;;
    let! d := on_graph (def p) in
    add_groups p (ColocationGroups d).

Definition DeviceForNode (p : Z) : P DeviceNames.ParsedName :=
  let! n := on_graph (node_of p) in let! r := FindRoot (id_ n) in let! m := member_of r in st_ret (device_name m).
Definition SetDeviceForNode (p : Z) (device : DeviceNames.ParsedName) : P unit :=
  let! n := on_graph (node_of p) in let! r := FindRoot (id_ n) in update_member r (with_name device).

(** ** [GetDevicesForNode] *)

Definition input_types (p : Z) : ST Graph (list Z) := let! n := node_of p in let! v := props_of (props_ n) in st_ret (input_types_ v).
Definition output_types (p : Z) : ST Graph (list Z) := let! n := node_of p in let! v := props_of (props_ n) in st_ret (output_types_ v).
(** The devices with a (possibly partial) name and of supported types: those of
    the name, or with soft placement those of its job, replica and task. *)
Definition soft_device_name (nm : DeviceNames.ParsedName) : DeviceNames.ParsedName :=
  DeviceNames.mkParsed (DeviceNames.has_job nm) (DeviceNames.job nm) (DeviceNames.has_replica nm) (DeviceNames.replica nm) (DeviceNames.has_task nm) (DeviceNames.task nm) false [] false (DeviceNames.id nm).
Definition find_and_filter (nm : DeviceNames.ParsedName) (types : list (list Z)) : option (list DeviceSet.Device) :=
  match DeviceSet.FindMatchingDevices device_set_ nm with
  | Some devices => Some (if bool_decide (devices = []) then devices else FilterSupportedDevices devices types)
  | None => None
  end.
Definition explicit_devices (nm : DeviceNames.ParsedName) (types : list (list Z)) : option (list DeviceSet.Device) :=
  match find_and_filter nm types with
  | Some devices => if bool_decide (devices = []) && allow_soft_placement then find_and_filter (soft_device_name nm) types else Some devices
  | None => None
  end.
(** The error when there is none. *)
Definition unsatisfied (d : NodeDef) (m : Member) (debug_info : list Z) : option Status :=
  match DeviceNames.ParseFullName (def_device d) with
  | None => None
  | Some (parsed, specified) =>
      if parsed && DeviceNames.ParsedName_eqb specified (device_name m) then
        match DeviceSet.FindMatchingDevices device_set_ specified with
        | None => None
        | Some devices_matching_nodedef =>
            Some (InvalidArgument (bytes_of "Could not satisfy explicit device specification '" ++ def_device d ++
              (if bool_decide (devices_matching_nodedef = []) then
                 bytes_of "' because no devices matching that specification are registered in this process; available devices: " ++
                   Join (merge_sort text_le (map DeviceSet.name (DeviceSet.devices_ device_set_))) (bytes_of ", ")
               else if DeviceNames.has_type specified then bytes_of "' because no supported kernel for " ++ DeviceNames.type specified ++ bytes_of " devices is available."
               else []) ++ debug_info))
        end
      else
        Some (InvalidArgument (bytes_of "Could not satisfy explicit device specification '" ++ def_device d ++
          bytes_of "' because the node was colocated with a group of nodes that required incompatible device '" ++
          DeviceNames.ParsedNameToString (device_name m) ++ bytes_of "'" ++ debug_info))
  end.
Definition cache (r : Z) (devices : list DeviceSet.Device) : P (Status * list DeviceSet.Device) :=
  update_member r (with_possible devices) ;;; st_ret (OK, devices).
Definition GetDevicesForNode (p : Z) : P (Status * list DeviceSet.Device) :=
  let! n := on_graph (node_of p) in
  let! node_root := FindRoot (id_ n) in
  let! m := member_of node_root in
  if negb (bool_decide (possible_devices m = [])) then st_ret (OK, possible_devices m)
  else if DeviceNames.HasSomeDetails (device_name m) then
    let! devices := st_opt (explicit_devices (device_name m) (supported_device_types m)) in
    if bool_decide (devices = []) then
      let! debug_info := AddDebugInfo node_root in
      let! d := on_graph (def p) in
      let! s := st_opt (unsatisfied d m debug_info) in
      st_ret (s, [])
    else cache node_root devices
  else if bool_decide (DeviceSet.devices_ device_set_ = []) then st_ret (Internal (bytes_of "No devices are registered"), [])
  else
    let devices := FilterSupportedDevices (DeviceSet.devices_ device_set_) (supported_device_types m) in
    if bool_decide (devices = []) then
      let! debug_info := AddDebugInfo node_root in
      let! d := on_graph (def p) in
      let! inputs := on_graph (input_types p) in
      let! inputs := st_opt (DataTypeSliceString inputs) in
      st_ret (InvalidArgument (bytes_of "Node had no OpKernel registered to support this operation: Operation was " ++ def_op d ++
        bytes_of " and inputs were " ++ inputs ++ debug_info), [])
    else cache node_root devices.

(** ** [SimplePlacer] *)

Definition IsMetadataNode (p : Z) : ST Graph bool :=
  let! d := def p in
  st_ret (bool_decide (def_op d = bytes_of "Size") || bool_decide (def_op d = bytes_of "Shape") || bool_decide (def_op d = bytes_of "Rank")).
Definition IsGeneratorNode (p : Z) : ST Graph bool :=
  let! n := node_of p in
  let! inputs := input_types p in
  let! outputs := output_types p in
  match outputs with
  | [ty] => st_ret (bool_decide (inputs = []) && (EdgeSet.size (out_edges_ n) =? 1) && negb (IsRefType ty))
  | _ => st_ret false
  end.
(** [None]: an access through the null pointer of a name that is not in the set. *)
Definition CanAssignToDevice (candidate_device_name : list Z) (devices : list DeviceSet.Device) : option bool :=
  if bool_decide (candidate_device_name = []) then Some false
  else
    match DeviceSet.FindDeviceByName device_set_ candidate_device_name with
    | Some other_device => Some (existsb (fun d => bool_decide (DeviceSet.device_type d = DeviceSet.device_type other_device)) devices)
    | None => if bool_decide (devices = []) then Some false else None
    end.
Definition AssignAndLog (assigned_device : list Z) (p : Z) : P unit := on_graph (set_assigned_device_name p assigned_device).

(** Step 1. A status that is not OK ends [Run]. *)
Fixpoint add_nodes (ps : list Z) : P Status :=
  match ps with
  | [] => st_ret OK
  | p :: ps' =>
      let! n := on_graph (node_of p) in
      if negb (IsOp n) then add_nodes ps'
      else
        let! s := AddNode p in
        if negb (ok s) then let! d := on_graph (def p) in st_ret (AttachDef s d) else add_nodes ps'
  end.

(** Step 2, for an edge into [p] of reference or resource type. *)
Definition reference_edge (p src : Z) : P Status :=
  let! source_parsed_name := DeviceForNode src in
  let! dest_parsed_name := DeviceForNode p in
  (if DeviceNames.HasSomeDetails source_parsed_name && DeviceNames.HasSomeDetails dest_parsed_name then
     if negb (DeviceNames.AreCompatibleDevNames source_parsed_name dest_parsed_name) then SetDeviceForNode p source_parsed_name
     else if DeviceNames.IsSpecification source_parsed_name dest_parsed_name && negb (DeviceNames.IsSpecification dest_parsed_name source_parsed_name)
     then SetDeviceForNode src dest_parsed_name
     else SetDeviceForNode p source_parsed_name
   else st_ret tt) ;;;
  let! s := ColocateNodes src p in
  if negb (ok s) then
    let! d := on_graph (def p) in
    st_ret (AttachDef (InvalidArgument (bytes_of "Nodes were connected by a reference connection (requiring them to be on the same device), but the two nodes were assigned two different devices: " ++
      error_message s)) d)
  else st_ret OK.
Fixpoint constrain_edges (p : Z) (es : list Z) : P Status :=
  match es with
  | [] => st_ret OK
  | q :: es' =>
      let! e := on_graph (edge_of q) in
      if IsControlEdge e then constrain_edges p es'
      else
        let! types := on_graph (input_types p) in
        let! ty := st_opt (types !!z dst_input_ e) in
        if IsRefType ty || (ty =? DT_RESOURCE) then
          let! s := reference_edge p (src_ e) in
          if negb (ok s) then st_ret s else constrain_edges p es'
        else constrain_edges p es'
  end.
Fixpoint constrain_nodes (ps : list Z) : P Status :=
  match ps with
  | [] => st_ret OK
  | p :: ps' =>
      let! n := on_graph (node_of p) in
      if negb (IsOp n) then constrain_nodes ps'
      else
        let! s := constrain_edges p (EdgeSet.elements (in_edges_ n)) in
        if negb (ok s) then st_ret s else constrain_nodes ps'
  end.

Definition cannot_assign (p : Z) (s : Status) : P Status :=
  let! nm := on_graph (Graph.name p) in
  let! d := on_graph (def p) in
  st_ret (AttachDef (InvalidArgument (bytes_of "Cannot assign a device to node '" ++ nm ++ bytes_of "': " ++ error_message s)) d).
(** The first device, or the one of a neighbour that can be preferred. *)
Definition prefer (neighbour : Z) (devices : list DeviceSet.Device) (assigned_device : list Z) : P (list Z) :=
  let! n := on_graph (node_of neighbour) in
  let! can := st_opt (CanAssignToDevice (assigned_device_name_ n) devices) in
  st_ret (if can then assigned_device_name_ n else assigned_device).
(** The source of the first of the edges into the node, the end of the first
    of those out of it. *)
Definition first_input (p : Z) : ST Graph Z :=
  let! n := node_of p in let! q := st_opt (head (EdgeSet.elements (in_edges_ n))) in let! e := edge_of q in st_ret (src_ e).
Definition first_output (p : Z) : ST Graph Z :=
  let! n := node_of p in let! q := st_opt (head (EdgeSet.elements (out_edges_ n))) in let! e := edge_of q in st_ret (dst_ e).

(** Step 3: a status and the nodes of the second pass. *)
Fixpoint assign_nodes (ps : list Z) (second_pass : list Z) : P (Status * list Z) :=
  match ps with
  | [] => st_ret (OK, second_pass)
  | p :: ps' =>
      let! n := on_graph (node_of p) in
      if negb (IsOp n) then assign_nodes ps' second_pass
      else if negb (bool_decide (assigned_device_name_ n = [])) then assign_nodes ps' second_pass
      else
        let! generator := on_graph (IsGeneratorNode p) in
        if generator then assign_nodes ps' (second_pass ++ [p])
        else
          let! '(s, devices) := GetDevicesForNode p in
          if negb (ok s) then let! s := cannot_assign p s in st_ret (s, second_pass)
          else
            let! d := st_opt (head devices) in
            let! metadata := on_graph (IsMetadataNode p) in
            let! assigned_device := (if metadata then let! input := on_graph (first_input p) in prefer input devices (DeviceSet.name d) else st_ret (DeviceSet.name d)) in
            AssignAndLog assigned_device p ;;;
            assign_nodes ps' second_pass
  end.
(** Step 4. *)
Fixpoint assign_generators (ps : list Z) : P Status :=
  match ps with
  | [] => st_ret OK
  | p :: ps' =>
      let! '(s, devices) := GetDevicesForNode p in
      if negb (ok s) then cannot_assign p s
      else
        let! d := st_opt (head devices) in
        let! generator := on_graph (IsGeneratorNode p) in
        let! assigned_device := (if generator then let! output := on_graph (first_output p) in prefer output devices (DeviceSet.name d) else st_ret (DeviceSet.name d)) in
        AssignAndLog assigned_device p ;;;
        assign_generators ps'
  end.
Definition Run : P Status :=
  if bool_decide (DeviceSet.devices_ device_set_ = []) then st_ret (Error FAILED_PRECONDITION (bytes_of "No devices are registered"))
  else
    let! ps := on_graph nodes in
    let! s := add_nodes ps in
    if negb (ok s) then st_ret s
    else
      let! s := constrain_nodes ps in
      if negb (ok s) then st_ret s
      else
        let! '(s, second_pass) := assign_nodes ps [] in
        if negb (ok s) then st_ret s else assign_generators second_pass.
(** [SimplePlacer(graph, devices, options).Run()] *)
Definition place : ST Graph Status :=
  fun g => match Run (mkState g [] ∅) with Done (s, st) => Done (s, graph_ st) | Aborts => Aborts | Diverges => Diverges end.
End Placer.
Arguments State : clear implicits.
End Placer.
