(* ===== verification/PlacerForest.v ===== *)
(** * The forest of the placer

    [FindRoot] with its path compression and the linking by rank of
    [ColocationGraph] ([common_runtime/simple_placer.cc]) keep a forest whose
    ranks grow towards the roots; the roots tell the classes. *)
From S2P Require Import Prelude Status Graph Kernels Placer.
From stdpp Require Import gmap.
Open Scope Z_scope.

Module PlacerForest.
Import Graph Placer.
Implicit Types (l : list Member) (f : Z -> option Z).

(** ** Roots *)

Definition up l (j : Z) : option Z := parent <$> l !!z j.
Inductive root_of f : Z -> Z -> Prop :=
| root_here i : f i = Some i -> root_of f i i
| root_up i p r : f i = Some p -> p <> i -> root_of f p r -> root_of f i r.
Lemma root_det f i r r' : root_of f i r -> root_of f i r' -> r = r'.
Proof. intros H. revert r'. induction H as [i Hi|i p r Hi Hp _ IH]; intros r' H'; inversion H'; subst; try congruence. apply IH. congruence. Qed.
Lemma root_fixed f i r : root_of f i r -> f r = Some r.
Proof. by induction 1. Qed.
Lemma root_self f i r : root_of f i r -> root_of f r r.
Proof. intros H. apply root_here. by eapply root_fixed. Qed.
Lemma root_ext f f' i r : (forall j, f' j = f j) -> root_of f i r -> root_of f' i r.
Proof. intros He. induction 1 as [i Hi|i p r Hi Hp _ IH]; [apply root_here|eapply root_up]; rewrite ?He; eauto. Qed.
(** A path from a node leads to its root or to no root. *)
Lemma root_step f i p r : f i = Some p -> root_of f i r <-> root_of f p r.
Proof.
  intros Hi. split.
  - intros H. inversion H as [j Hj|j q k Hj Hq Hr]; subst; rewrite Hi in Hj; injection Hj as ->; done.
  - intros H. destruct (decide (p = i)) as [->|Hp]; [done|]. by eapply root_up.
Qed.

(** ** Forests *)

Record forest l : Prop := mkForest {
  f_up : forall i m, l !!z i = Some m -> 0 <= parent m -> parent m <> i -> exists mp, l !!z parent m = Some mp /\ 0 <= parent mp /\ rank m < rank mp;
  f_rank : forall i m, l !!z i = Some m -> 0 <= rank m /\ forall k, 0 <= k < rank m -> exists j mj, l !!z j = Some mj /\ rank mj = k
}.
(** The ranks below one are all taken, so it is less than their number. *)
Lemma rank_bound l i m : forest l -> l !!z i = Some m -> 0 <= rank m < zlength l.
Proof.
  intros F Hi. destruct (f_rank _ F i m Hi) as [H0 Hk]. split; [done|].
  assert (Hsub : seqZ 0 (rank m + 1) ⊆ map rank l).
  { intros k Hk'%elem_of_seqZ. apply list_elem_of_In, in_map_iff. destruct (decide (k = rank m)) as [->|Hne].
    - exists m. split; [done|]. apply list_elem_of_In. by eapply zlookup_elem.
    - destruct (Hk k ltac:(lia)) as (j & mj & Hj & <-). exists mj. split; [done|]. apply list_elem_of_In. by eapply zlookup_elem. }
  apply NoDup_submseteq, submseteq_length in Hsub; [|apply NoDup_seqZ]. rewrite length_seqZ, length_map in Hsub. unfold zlength. lia.
Qed.
Lemma root_total l i m : forest l -> l !!z i = Some m -> 0 <= parent m -> exists r, root_of (up l) i r.
Proof.
  intros F. remember (Z.to_nat (zlength l - rank m)) as n eqn:En. revert i m En. induction n as [n IH] using lt_wf_ind. intros i m -> Hi Hp. destruct (decide (parent m = i)) as [He|Hne].
  - exists i. apply root_here. unfold up. rewrite Hi. cbn. by f_equal.
  - destruct (f_up _ F i m Hi Hp Hne) as (mp & Hmp & Hpp & Hr). pose proof (rank_bound _ _ _ F Hi). pose proof (rank_bound _ _ _ F Hmp).
    destruct (IH (Z.to_nat (zlength l - rank mp)) ltac:(lia) _ _ eq_refl Hmp Hpp) as [r Hroot]. exists r. eapply root_up; [unfold up; by rewrite Hi|done|done].
Qed.
Lemma root_member l i r : root_of (up l) i r -> exists m, l !!z r = Some m /\ parent m = r.
Proof. intros H%root_fixed. unfold up in H. destruct (l !!z r) as [m|]; [|done]. exists m. split; [done|]. by injection H. Qed.
Lemma member_root l i r : root_of (up l) i r -> exists m, l !!z i = Some m /\ 0 <= parent m.
Proof.
  assert (Hr : forall j k, root_of (up l) j k -> 0 <= j) by (intros j k [i' Hi|i' p k' Hi _ _]; unfold up in Hi; destruct (l !!z i') eqn:E; try done; apply zlookup_range in E; lia).
  intros H. assert (Hp : exists p, up l i = Some p /\ root_of (up l) p r) by (destruct H as [i Hi|i p r Hi _ Hp]; eauto using root_here).
  destruct Hp as (p & Hi & Hp). unfold up in Hi. destruct (l !!z i) as [m|]; [|done]. exists m. split; [done|]. injection Hi as ->. by eapply Hr.
Qed.
(** Towards the root the rank grows. *)
Lemma root_rank l i r m mr : forest l -> root_of (up l) i r -> l !!z i = Some m -> l !!z r = Some mr -> i = r \/ rank m < rank mr.
Proof.
  intros F H. revert m. induction H as [i Hi|i p r Hi Hp Hroot IH]; intros m Hm Hr; [by left|]. right. destruct (member_root _ _ _ Hroot) as (mp & Hmp & Hpp).
  unfold up in Hi. rewrite Hm in Hi. injection Hi as <-. destruct (member_root l i r) as (m' & Hm' & H0); [eapply root_up; [|done|done]; unfold up; by rewrite Hm|]. rewrite Hm in Hm'. injection Hm' as <-.
  destruct (f_up _ F i m Hm H0 Hp) as (mp' & Hmp' & _ & Hlt). destruct (IH _ Hmp' Hr) as [He|?]; [|lia]. rewrite He in Hmp'. congruence.
Qed.

(** ** Path compression *)

(** A node may point to its root at once. *)
Lemma root_compress f f' i r : root_of f i r -> f' i = Some r -> (forall j, j <> i -> f' j = f j) -> forall j k, root_of f j k -> root_of f' j k.
Proof.
  intros Hir Hi Hne. assert (Hrr : root_of f' r r) by (apply root_here; destruct (decide (r = i)) as [->|]; [done|rewrite Hne by done; by eapply root_fixed]).
  induction 1 as [j Hj|j p k Hj Hp Hroot IH].
  - destruct (decide (j = i)) as [->|Hji]; [|apply root_here; by rewrite Hne]. assert (r = i) as -> by (eapply root_det; [exact Hir|by apply root_here]). by apply root_here.
  - destruct (decide (j = i)) as [->|Hji]; [|eapply root_up; [by rewrite Hne|done|done]]. assert (r = k) as -> by (eapply root_det; [exact Hir|by eapply root_up]).
    destruct (decide (k = i)) as [->|]; [done|]. by eapply root_up.
Qed.
(** What compression keeps: everything but the parents, and the roots. *)
Definition compressed l l' : Prop :=
  zlength l' = zlength l /\ (forall j m, l !!z j = Some m -> exists p, l' !!z j = Some (with_parent p m)) /\ (forall j m, l' !!z j = Some m -> exists p, l !!z j = Some (with_parent p m)) /\
  forest l' /\ forall j r, root_of (up l') j r <-> root_of (up l) j r.
Lemma with_parent_id m : with_parent (parent m) m = m.
Proof. by destruct m. Qed.
Lemma compressed_refl l : forest l -> compressed l l.
Proof. intros F. split; [done|]. split; [|split; [|split; [done|done]]]; intros j m Hm; exists (parent m); by rewrite with_parent_id. Qed.
Lemma compressed_trans l l' l'' : compressed l l' -> compressed l' l'' -> compressed l l''.
Proof.
  intros (H1 & H2 & H3 & H4 & H5) (K1 & K2 & K3 & K4 & K5). split; [congruence|]. split; [|split; [|split; [done|]]].
  - intros j m Hm. destruct (H2 j m Hm) as (p & Hp). destruct (K2 _ _ Hp) as (p' & Hp'). by exists p'.
  - intros j m Hm. destruct (K3 j m Hm) as (p & Hp). destruct (H3 _ _ Hp) as (p' & Hp'). by exists p'.
  - intros j r. by rewrite K5, H5.
Qed.
(** The member at a root is the same. *)
Lemma compressed_root l l' i r m : compressed l l' -> root_of (up l) i r -> l !!z r = Some m -> l' !!z r = Some m.
Proof.
  intros (_ & H2 & _ & _ & H5) Hr Hm. destruct (H2 _ _ Hm) as (p & Hp). rewrite Hp. f_equal. pose proof (root_fixed _ _ _ Hr) as Hf. apply H5, root_fixed in Hr. unfold up in Hr, Hf. rewrite Hp in Hr. rewrite Hm in Hf. cbn in Hr, Hf.
  injection Hr as ->. injection Hf as Hf. rewrite <- Hf at 1. apply with_parent_id.
Qed.
Lemma compress_step l i r m : forest l -> root_of (up l) i r -> l !!z i = Some m -> compressed l (zinsert l i (with_parent r m)).
Proof.
  intros F Hir Hm. pose proof (zlookup_zinsert l i (with_parent r m)) as Hz. specialize (Hz) with (1 := Hm).
  assert (Hup : forall j, up (zinsert l i (with_parent r m)) j = if decide (i = j) then Some r else up l j) by (intros j; unfold up; rewrite Hz; by case_decide).
  assert (H1 : forall j k, root_of (up l) j k -> root_of (up (zinsert l i (with_parent r m))) j k).
  { apply (root_compress _ _ i r Hir); [rewrite Hup; by rewrite decide_True|]. intros j Hj. rewrite Hup. by rewrite decide_False. }
  destruct (member_root _ _ _ Hir) as (m' & Hm' & Hp). rewrite Hm in Hm'. injection Hm' as <-. destruct (root_member _ _ _ Hir) as (mr & Hmr & Hpr). destruct (member_root l r r) as (mr' & Hmr' & Hr0); [by eapply root_self|]. rewrite Hmr in Hmr'. injection Hmr' as <-.
  split; [by rewrite zinsert_length|]. split; [|split; [|split]].
  - intros j mj Hj. rewrite Hz. case_decide as He; [subst j; rewrite Hm in Hj; injection Hj as <-; by exists r|]. exists (parent mj). by rewrite with_parent_id.
  - intros j mj. rewrite Hz. case_decide as He; [subst j; intros [= <-]; exists (parent m); cbn; destruct m; done|]. intros Hj. exists (parent mj). by rewrite with_parent_id.
  - split.
    + intros j mj. rewrite Hz. case_decide as He.
      * subst j. intros [= <-] _ Hne. cbn in Hne |- *. exists mr. rewrite Hz, decide_False by done. split; [done|]. split; [done|]. by destruct (root_rank _ _ _ _ _ F Hir Hm Hmr) as [->|?].
      * intros Hj H0 Hne. destruct (f_up _ F j mj Hj H0 Hne) as (mp & Hmp & Hpp & Hlt). rewrite Hz. case_decide as He'; [|by exists mp]. exists (with_parent r m). rewrite <- He', Hm in Hmp. injection Hmp as <-. split; [done|]. split; [cbn; congruence|done].
    + assert (Hrk : forall j mj, l !!z j = Some mj -> exists mj', zinsert l i (with_parent r m) !!z j = Some mj' /\ rank mj' = rank mj).
      { intros j mj Hj. rewrite Hz. case_decide as He; [|by exists mj]. subst j. rewrite Hm in Hj. injection Hj as <-. by eexists. }
      assert (H2 : forall j mj, l !!z j = Some mj -> 0 <= rank mj /\ forall k, 0 <= k < rank mj -> exists j' mj', zinsert l i (with_parent r m) !!z j' = Some mj' /\ rank mj' = k).
      { intros j mj Hj. destruct (f_rank _ F j mj Hj) as [H0 Hk]. split; [done|]. intros k Hkr. destruct (Hk k Hkr) as (j' & mj' & Hj' & <-). destruct (Hrk _ _ Hj') as (mj2 & ? & ?). by exists j', mj2. }
      intros j mj. rewrite Hz. case_decide as He; [|apply H2]. intros [= <-]. by apply (H2 i m).
  - intros j k. split; [|apply H1]. intros Hj.
    assert (Hv : exists k', root_of (up l) j k'). { destruct (member_root _ _ _ Hj) as (mj & Hmj & H0). rewrite Hz in Hmj. case_decide as He; [subst j; by exists r|]. by eapply root_total. }
    destruct Hv as [k' Hk']. by rewrite (root_det _ _ _ _ Hj (H1 _ _ Hk')).
Qed.

(** ** Linking *)

(** Only the parents and the ranks matter. *)
Definition shape l (j : Z) : option (Z * Z) := (fun m => (parent m, rank m)) <$> l !!z j.
Lemma shape_up l l' : (forall j, shape l' j = shape l j) -> forall j, up l' j = up l j.
Proof. intros Hs j. specialize (Hs j). unfold shape in Hs. unfold up. destruct (l !!z j), (l' !!z j); cbn in *; congruence. Qed.
Lemma shape_roots l l' : (forall j, shape l' j = shape l j) -> forall j r, root_of (up l') j r <-> root_of (up l) j r.
Proof. intros Hs j r. pose proof (shape_up _ _ Hs) as Hu. split; apply root_ext; done. Qed.
Lemma shape_lookup l l' j m : (forall j, shape l' j = shape l j) -> l' !!z j = Some m -> exists m', l !!z j = Some m' /\ parent m' = parent m /\ rank m' = rank m.
Proof. intros Hs Hj. specialize (Hs j). unfold shape in Hs. rewrite Hj in Hs. cbn in Hs. destruct (l !!z j) as [m'|]; [|done]. exists m'. by injection Hs. Qed.
Lemma shape_forest l l' : (forall j, shape l' j = shape l j) -> forest l -> forest l'.
Proof.
  intros Hs F. assert (Hs' : forall j, shape l j = shape l' j) by done. split; intros i m Hi; destruct (shape_lookup _ _ _ _ Hs Hi) as (m' & Hm' & Hp & Hr).
  - rewrite <- Hp, <- Hr. intros H0 Hne. destruct (f_up _ F i m' Hm' H0 Hne) as (mp & Hmp & Hpp & Hlt). destruct (shape_lookup _ _ _ _ Hs' Hmp) as (mq & Hmq & Hqp & Hqr). exists mq. split; [done|]. split; [lia|lia].
  - rewrite <- Hr. destruct (f_rank _ F i m' Hm') as [H0 Hk]. split; [done|]. intros k Hkr. destruct (Hk k Hkr) as (j & mj & Hj & <-). destruct (shape_lookup _ _ _ _ Hs' Hj) as (mq & Hmq & Hqp & Hqr). by exists j, mq.
Qed.
(** A write that keeps the parent and the rank. *)
Lemma shape_zinsert l i m m' : l !!z i = Some m -> parent m' = parent m -> rank m' = rank m -> forall j, shape (zinsert l i m') j = shape l j.
Proof. intros Hi Hp Hr j. unfold shape. rewrite (zlookup_zinsert _ _ _ _ _ Hi). case_decide as He; [subst j; rewrite Hi; cbn; by rewrite Hp, Hr|done]. Qed.

(** The root [old] becomes a child of the root [new]. *)
Definition link_root (new old r : Z) : Z := if decide (r = old) then new else r.
Record linked (new old : Z) (l l' : list Member) : Prop := mkLinked {
  k_len : zlength l' = zlength l;
  k_data : forall j m, l !!z j = Some m -> exists p k, l' !!z j = Some (with_rank k (with_parent p m));
  k_forest : forest l';
  k_roots : forall j r, root_of (up l') j r <-> exists r0, root_of (up l) j r0 /\ r = link_root new old r0
}.
Lemma link_roots_iff f f' new old : f new = Some new -> f old = Some old -> new <> old -> (forall j, f' j = if decide (j = old) then Some new else f j) ->
  (forall j r, root_of f' j r -> exists r0, root_of f j r0) -> forall j r, root_of f' j r <-> exists r0, root_of f j r0 /\ r = link_root new old r0.
Proof.
  intros Hn Ho Hne Hf' Htot. assert (Hnew : root_of f' new new) by (apply root_here; rewrite Hf'; by rewrite decide_False).
  assert (H1 : forall j r0, root_of f j r0 -> root_of f' j (link_root new old r0)).
  { induction 1 as [j Hj|j p r Hj Hp Hr IH]; unfold link_root in *.
    - case_decide as He; [subst j; eapply root_up; [rewrite Hf'; by rewrite decide_True|done|done]|]. apply root_here. rewrite Hf'. by rewrite decide_False.
    - eapply root_up; [|exact Hp|exact IH]. rewrite Hf'. rewrite decide_False; [done|]. intros ->. congruence. }
  intros j r. split; [|intros (r0 & Hr0 & ->); by apply H1]. intros Hr. destruct (Htot _ _ Hr) as [r0 Hr0]. exists r0. split; [done|]. eapply root_det; [exact Hr|by apply H1].
Qed.
Lemma linked_intro l l' new old mn mo k : forest l -> l !!z new = Some mn -> parent mn = new -> l !!z old = Some mo -> parent mo = old -> new <> old ->
  zlength l' = zlength l ->
  (forall j, l' !!z j = if decide (j = old) then Some (with_parent new mo) else if decide (j = new) then Some (with_rank k mn) else l !!z j) ->
  (rank mo < rank mn /\ k = rank mn) \/ (rank mo = rank mn /\ k = rank mn + 1) -> linked new old l l'.
Proof.
  intros F Hn Hpn Ho Hpo Hne Hlen Hl' Hk.
  assert (Hn0 : 0 <= new) by (apply zlookup_range in Hn; lia). assert (Ho0 : 0 <= old) by (apply zlookup_range in Ho; lia).
  assert (Hnew : l' !!z new = Some (with_rank k mn)) by (rewrite Hl'; by rewrite decide_False, decide_True).
  assert (Hold : l' !!z old = Some (with_parent new mo)) by (rewrite Hl'; by rewrite decide_True).
  assert (Hup : forall j, up l' j = if decide (j = old) then Some new else up l j).
  { intros j. unfold up. rewrite Hl'. case_decide; [done|]. case_decide as He; [|done]. subst j. rewrite Hn. done. }
  assert (Hdata : forall j m, l !!z j = Some m -> exists p k', l' !!z j = Some (with_rank k' (with_parent p m)) /\ rank m <= k' /\ (0 <= parent m -> 0 <= p)).
  { intros j m Hj. rewrite Hl'. destruct (decide (j = old)) as [->|]; [|destruct (decide (j = new)) as [->|]].
    - rewrite Ho in Hj. injection Hj as <-. exists new, (rank mo). split; [done|]. split; [lia|done].
    - rewrite Hn in Hj. injection Hj as <-. exists (parent mn), k. rewrite with_parent_id. split; [done|]. split; [lia|done].
    - exists (parent m), (rank m). rewrite with_parent_id, Hj. split; [by destruct m|]. split; [lia|done]. }
  assert (F' : forest l').
  { split.
    - intros i m. rewrite Hl'. destruct (decide (i = old)) as [->|Hio]; [|destruct (decide (i = new)) as [->|Hin]].
      + intros [= <-] _ _. cbn. exists (with_rank k mn). split; [done|]. split; [cbn; lia|cbn; lia].
      + intros [= <-] _ Hx. by destruct Hx.
      + intros Hi H0 Hp. destruct (f_up _ F i m Hi H0 Hp) as (mp & Hmp & Hpp & Hlt). destruct (Hdata _ _ Hmp) as (p & k' & Hq & Hle & Hpos). exists (with_rank k' (with_parent p mp)). split; [done|]. cbn. split; [auto|lia].
    - assert (Hin : forall j m k', l !!z j = Some m -> rank m = k' -> exists j' m', l' !!z j' = Some m' /\ rank m' = k').
      { intros j m k' Hj <-. destruct (decide (j = old)) as [->|Hjo]; [rewrite Ho in Hj; injection Hj as <-; by eexists _, _|]. destruct (decide (j = new)) as [->|Hjn].
        - rewrite Hn in Hj. injection Hj as <-. destruct Hk as [[Hlt ->]|[Heq ->]]; [by exists new, (with_rank (rank mn) mn)|]. exists old, (with_parent new mo). split; [done|exact Heq].
        - exists j, m. rewrite Hl', !decide_False by done. done. }
      intros i m. rewrite Hl'. intros Hi.
      assert (Hm : exists i0 m0, l !!z i0 = Some m0 /\ (rank m = rank m0 \/ rank m = rank m0 + 1 /\ rank m0 = rank mn)).
      { destruct (decide (i = old)) as [->|]; [injection Hi as <-; exists old, mo; auto|]. destruct (decide (i = new)) as [->|]; [injection Hi as <-; exists new, mn; cbn; split; [done|]; destruct Hk as [[_ ->]|[_ ->]]; auto|]. exists i, m. auto. }
      destruct Hm as (i0 & m0 & Hi0 & Hr). destruct (f_rank _ F i0 m0 Hi0) as [H0 Hlow]. split; [lia|]. intros k' Hk'. destruct (decide (k' = rank m0)) as [->|Hk0]; [by apply (Hin i0 m0)|].
      destruct (Hlow k' ltac:(lia)) as (j & mj & Hj & Hjr). by apply (Hin j mj). }
  split; [done| |done|].
  - intros j m Hj. destruct (Hdata j m Hj) as (p & k' & Hq & _). eauto.
  - apply link_roots_iff; [unfold up; rewrite Hn; cbn; by f_equal|unfold up; rewrite Ho; cbn; by f_equal|done|done|]. intros j r Hr. destruct (member_root _ _ _ Hr) as (m & Hm & H0). rewrite Hl' in Hm.
    destruct (decide (j = old)) as [->|]; [exists old; apply root_here; unfold up; rewrite Ho; cbn; by f_equal|]. destruct (decide (j = new)) as [->|]; [exists new; apply root_here; unfold up; rewrite Hn; cbn; by f_equal|].
    by eapply root_total.
Qed.

Section Wp.
Context {OpDef AttrValue : Type}.
Abbreviation State := (State OpDef AttrValue).
Implicit Types (s : State).

(** The state with another forest. *)
Definition set_members l s : State := mkState (graph_ s) l (colocation_group_root_ s).
Lemma set_members_id s : set_members (members_ s) s = s.
Proof. by destruct s. Qed.
Lemma wp_member_of i m s (Q : Member -> State -> Prop) : members_ s !!z i = Some m -> Q m s -> wp (member_of i) s Q.
Proof. intros Hm HQ. unfold member_of. wp_step. wp_step. wp_step; [exact Hm|done]. Qed.
Lemma wp_update_member i h m s (Q : unit -> State -> Prop) : members_ s !!z i = Some m -> Q tt (set_members (zinsert (members_ s) i (h m)) s) -> wp (update_member i h) s Q.
Proof. intros Hm HQ. unfold update_member. wp_step. eapply wp_member_of; [exact Hm|]. by wp_step. Qed.

Lemma wp_find_root fuel i r s (Q : Z -> State -> Prop) : forest (members_ s) -> root_of (up (members_ s)) i r ->
  (forall m, members_ s !!z i = Some m -> zlength (members_ s) - rank m <= Z.of_nat fuel) ->
  (forall l', compressed (members_ s) l' -> Q r (set_members l' s)) -> wp (find_root fuel i) s Q.
Proof.
  revert i s Q. induction fuel as [|fuel IH]; intros i s Q F Hir Hfuel HQ; destruct (member_root _ _ _ Hir) as (m & Hm & H0); specialize (Hfuel m Hm).
  { pose proof (rank_bound _ _ _ F Hm). lia. }
  cbn [find_root]. wp_step. eapply wp_member_of; [exact Hm|]. wp_step. wp_step; [by apply Z.leb_le|]. wp_step.
  destruct (Z.eqb_spec (parent m) i) as [He|Hne]; cbn [negb].
  - wp_step. wp_step. eapply wp_member_of; [exact Hm|]. wp_step. assert (Hii : up (members_ s) i = Some i) by (unfold up; rewrite Hm; cbn; by f_equal). rewrite He, (root_det _ _ _ _ (root_here _ _ Hii) Hir).
    specialize (HQ _ (compressed_refl _ F)). by rewrite set_members_id in HQ.
  - assert (Hpr : root_of (up (members_ s)) (parent m) r) by (apply (root_step (up (members_ s)) i); [unfold up; by rewrite Hm|done]).
    destruct (f_up _ F _ _ Hm H0 Hne) as (mp & Hmp & _ & Hlt). wp_step. apply IH; [done|done|intros mp' Hmp'; rewrite Hmp in Hmp'; injection Hmp' as <-; lia|]. intros l' Hc.
    destruct Hc as (C1 & C2 & C3 & C4 & C5). destruct (C2 _ _ Hm) as (p & Hp). assert (Hir' : root_of (up l') i r) by by apply C5.
    pose proof (compress_step _ _ _ _ C4 Hir' Hp) as Hstep. eapply wp_update_member; [exact Hp|]. cbn [graph_ members_ colocation_group_root_ set_members].
    wp_step. eapply wp_member_of; [cbn; apply zlookup_zinsert_eq; by eapply zlookup_range|]. wp_step. cbn [parent with_parent]. apply HQ. eapply compressed_trans; [|exact Hstep]. done.
Qed.
(** [FindRoot] ends, with the root of the class, and keeps the classes. *)
Lemma wp_FindRoot i r s (Q : Z -> State -> Prop) : forest (members_ s) -> root_of (up (members_ s)) i r ->
  (forall l', compressed (members_ s) l' -> Q r (set_members l' s)) -> wp (FindRoot i) s Q.
Proof.
  intros F Hir HQ. unfold FindRoot. wp_step. wp_step. apply wp_find_root with (r := r); try done. intros m Hm. pose proof (rank_bound _ _ _ F Hm). unfold zlength in *. lia.
Qed.
Lemma wp_link_roots x y mx my s (Q : Z * Z -> State -> Prop) : forest (members_ s) -> zlength (members_ s) < 2 ^ 31 ->
  members_ s !!z x = Some mx -> parent mx = x -> members_ s !!z y = Some my -> parent my = y -> x <> y ->
  (forall new old l', (new = x /\ old = y) \/ (new = y /\ old = x) -> linked new old (members_ s) l' -> Q (new, old) (set_members l' s)) -> wp (link_roots x y) s Q.
Proof.
  intros F Hlen Hx Hpx Hy Hpy Hne HQ. unfold link_roots. wp_step. eapply wp_member_of; [exact Hx|]. wp_step. eapply wp_member_of; [exact Hy|].
  assert (Hz : forall i m j, members_ s !!z i = Some m -> forall m', zinsert (members_ s) i m' !!z j = if decide (j = i) then Some m' else members_ s !!z j).
  { intros i m j Hi m'. rewrite (zlookup_zinsert _ _ _ _ _ Hi). by repeat case_decide. }
  assert (Hrid : forall m, with_rank (rank m) m = m) by (by intros []).
  destruct (Z.ltb_spec (rank mx) (rank my)) as [Hlt|Hge]; [|destruct (Z.ltb_spec (rank my) (rank mx)) as [Hlt|Hle]].
  - wp_step. eapply wp_update_member; [exact Hx|]. wp_step. apply HQ; [by right|]. eapply (linked_intro _ _ y x my mx (rank my)); try done; [by rewrite zinsert_length| |by left].
    intros j. rewrite (Hz _ _ _ Hx), Hrid. case_decide; [done|]. case_decide as He; [by subst j|done].
  - wp_step. eapply wp_update_member; [exact Hy|]. wp_step. apply HQ; [by left|]. eapply (linked_intro _ _ x y mx my (rank mx)); try done; [by rewrite zinsert_length| |by left].
    intros j. rewrite (Hz _ _ _ Hy), Hrid. case_decide; [done|]. case_decide as He; [by subst j|done].
  - pose proof (rank_bound _ _ _ F Hx). wp_step. eapply wp_update_member; [exact Hy|]. cbn [members_ set_members]. wp_step. eapply (wp_update_member _ _ mx); [cbn [members_ set_members]; rewrite (Hz _ _ _ Hy); by rewrite decide_False|].
    cbn [members_ set_members]. wp_step. apply HQ; [by left|]. rewrite s32_id by lia. eapply (linked_intro _ _ x y mx my (rank mx + 1)); try done; [by rewrite !zinsert_length| |right; lia].
    intros j. rewrite (zlookup_zinsert _ _ _ _ mx) by (rewrite (Hz _ _ _ Hy); by rewrite decide_False). rewrite (Hz _ _ _ Hy). repeat case_decide; try done; congruence.
Qed.
End Wp.
End PlacerForest.
