(* ===== verification/PlacerSpec.v ===== *)
(** * The placer: its constraints and the merging of classes

    The constraints that a graph puts on the devices of its nodes, and the
    invariant that relates the forest of [ColocationGraph] to them.

    [ColocateNodes] ([common_runtime/simple_placer.cc]) merges the classes of
    two nodes, their types and their names, or returns an error. *)
From S2P Require Import Prelude Status Numbers DataTypes EdgeSet Graph GraphFacts DeviceNames DeviceNamesFacts Kernels Placer PlacerForest.
From stdpp Require Import gmap relations sorting.
Open Scope Z_scope.

Module PlacerSpec.
Import Status Numbers DataTypes Graph GraphSpec Kernels Placer PlacerForest.

(** ** The devices *)

(** A set that the constructor and [AddDevice] made, of devices that their
    constructor made, with distinct and complete names. *)
Definition device_set_of (l : list DeviceSet.Device) : DeviceSet.DeviceSet := fold_left (fun s d => DeviceSet.AddDevice d s) l DeviceSet.new_DeviceSet.
Definition devices_ok (l : list DeviceSet.Device) : Prop :=
  NoDup (map DeviceSet.parsed_name l) /\ Forall (fun d => DeviceSet.new_Device (DeviceSet.name d) (DeviceSet.device_type d) = Some d /\ DeviceNames.complete (DeviceSet.parsed_name d) = true) l.

Section Spec.
Context {OpDef AttrValue : Type} {registry : OpRegistryInterface OpDef AttrValue} {kernels : KernelRegistry AttrValue}.
Context (addr : nat -> Z) (device_set_ : DeviceSet.DeviceSet) (allow_soft_placement : bool).
Abbreviation NodeDef := (NodeDef AttrValue).
Abbreviation Graph := (Graph OpDef AttrValue).
Abbreviation AGraph := (AGraph OpDef AttrValue).
Abbreviation ANode := (ANode OpDef AttrValue).
Abbreviation State := (State OpDef AttrValue).
Implicit Types (a : AGraph) (s : State) (l : list Member).

(** ** The constraints *)

Definition is_op a (i : Z) : Prop := 1 < i /\ is_Some (a_nodes a !! i).
Definition def_of (v : ANode) : NodeDef := node_def_ (a_props v).
Definition of_node {A} (d : A) (f : ANode -> A) a (i : Z) : A := match a_nodes a !! i with Some v => f v | None => d end.
(** The types of devices with a kernel for the node, the name that it asks
    for (the assigned one, if any), its groups. *)
Definition node_types (v : ANode) : list (list Z) := (SupportedDeviceTypesForNode (device_types_ device_set_) (def_of v)).2.
Definition request_text (v : ANode) : list Z := match a_device v with [] => def_device (def_of v) | nm => nm end.
Definition request (v : ANode) : DeviceNames.ParsedName := match DeviceNames.ParseFullName (request_text v) with Some (_, n) => n | None => DeviceNames.Clear end.
Definition own_types := of_node [] node_types.
Definition own_name := of_node DeviceNames.Clear request.
Definition groups := of_node [] (fun v => ColocationGroups (def_of v)).
Definition in_type a (e : AEdge) : option Z := of_node None (fun v => input_types_ (a_props v) !!z e_in e) a (e_dst e).
(** The edges that force both ends on one device. *)
Definition binding a (e : AEdge) : Prop := e_out e <> kControlSlot /\ 1 < e_dst e /\ exists ty, in_type a e = Some ty /\ (IsRefType ty = true \/ ty = DT_RESOURCE).
Definition share_group a (i j : Z) : Prop := is_op a i /\ is_op a j /\ exists grp, grp ∈ groups a i /\ grp ∈ groups a j.
Definition bound a (i j : Z) : Prop := exists k e, a_edges a !! k = Some e /\ binding a e /\ e_src e = i /\ e_dst e = j.
(** Nodes that have to be on one device: the equivalence that both generate. *)
Definition must_share a (i j : Z) : Prop := share_group a i j \/ bound a i j.
Definition together a : Z -> Z -> Prop := rtsc (must_share a).

(** Nodes that prefer the device of a neighbour. *)
Definition metadata (v : ANode) : Prop := type_of v ∈ [bytes_of "Size"; bytes_of "Shape"; bytes_of "Rank"].
Definition generator a (i : Z) (v : ANode) : Prop :=
  input_types_ (a_props v) = [] /\ (exists ty, output_types_ (a_props v) = [ty] /\ IsRefType ty = false) /\
  exists k e, a_edges a !! k = Some e /\ e_src e = i /\ forall k' e', a_edges a !! k' = Some e' -> e_src e' = i -> k' = k.
(** What the placer changes: the devices of nodes that had none. *)
Definition same_but_device (i : Z) (v v' : ANode) : Prop := a_props v' = a_props v /\ a_cost v' = a_cost v /\ (i <= 1 \/ a_device v <> [] -> a_device v' = a_device v).
Record only_devices a a' : Prop := mkOnly {
  od_next : a_next_node a' = a_next_node a;
  od_edges : a_edges a' = a_edges a;
  od_next_edge : a_next_edge a' = a_next_edge a;
  od_names : a_names a' = a_names a;
  od_nodes : forall i, option_Forall2 (same_but_device i) (a_nodes a !! i) (a_nodes a' !! i)
}.
Definition has_device a (i : Z) : Prop := exists v, a_nodes a !! i = Some v /\ a_device v <> [].

(** What the placer relies on: typed edges, and metadata nodes with an input. *)
Record placeable a : Prop := mkPlaceable {
  pl_next : a_next_node a < 2 ^ 31;
  pl_ends : forall i v, a_nodes a !! i = Some v -> i <= 1 -> a_device v = [];
  pl_typed : forall k e, a_edges a !! k = Some e -> 1 < e_dst e -> e_out e <> kControlSlot -> 1 < e_src e /\ is_Some (in_type a e);
  pl_types : forall i v, a_nodes a !! i = Some v -> is_Some (DataTypeSliceString (input_types_ (a_props v)));
  pl_metadata : forall i v, a_nodes a !! i = Some v -> metadata v -> exists k e, a_edges a !! k = Some e /\ e_dst e = i
}.

(** A node on its own can be placed: its kernels are found, its request is the
    name of devices, and a device that it has already supports it. *)
Definition node_ok a (i : Z) : Prop := forall v, a_nodes a !! i = Some v ->
  ok (SupportedDeviceTypesForNode (device_types_ device_set_) (def_of v)).1 = true /\ DeviceNames.ParseFullName (request_text v) = Some (true, request v) /\ node_types v <> [] /\
  (a_device v <> [] -> exists d, DeviceSet.FindDeviceByName device_set_ (a_device v) = Some d /\ DeviceSet.device_type d ∈ node_types v).
(** Each node can be placed, and some device supports and is what is asked for by
    all the nodes that have to be with it. *)
Definition feasible a : Prop :=
  DeviceSet.devices_ device_set_ <> [] /\ forall i, is_op a i -> node_ok a i /\
    exists d, d ∈ DeviceSet.devices_ device_set_ /\ forall j, together a i j -> DeviceSet.device_type d ∈ own_types a j /\ DeviceNamesFacts.spec (own_name a j) (DeviceSet.parsed_name d).
(** Without soft placement and without edges that force devices, whose names
    override each other. *)
Definition strict a : Prop := allow_soft_placement = false /\ forall i j, ~ bound a i j.

(** ** The invariant

    [D] are the nodes that were added, [R] the pairs that were colocated. *)
Definition name_of_class a l (r : Z) (m : Member) : Prop :=
  forall n, DeviceNamesFacts.spec (device_name m) n <-> forall i, root_of (up l) i r -> DeviceNamesFacts.spec (own_name a i) n.
(** The member at a root: the types that all nodes of the class support. *)
Record class_ok a l (r : Z) (m : Member) : Prop := mkClass {
  c_types : forall t, t ∈ supported_device_types m <-> forall i, root_of (up l) i r -> t ∈ own_types a i;
  c_some : supported_device_types m <> [];
  c_name : strict a -> name_of_class a l r m
}.
Record classes a (D : list Z) (R : Z -> Z -> Prop) l : Prop := mkClasses {
  i_forest : forest l;
  i_len : zlength l <= a_next_node a;
  i_dom : forall i, i ∈ D <-> exists r, root_of (up l) i r;
  i_rel : forall i j, R i j -> (i ∈ D) /\ j ∈ D;
  i_class : forall i j r, root_of (up l) i r -> root_of (up l) j r <-> rtsc R i j;
  i_roots : forall r m, root_of (up l) r r -> l !!z r = Some m -> class_ok a l r m;
  i_ids : forall j m i, l !!z j = Some m -> i ∈ ids_in_group m -> i ∈ D;
  i_cache : forall j m, l !!z j = Some m -> possible_devices m = [];
  i_nodes : forall i, i ∈ D -> is_op a i /\ node_ok a i
}.
(** One more pair. *)
Definition also (R : Z -> Z -> Prop) (x y i j : Z) : Prop := R i j \/ (i = x /\ j = y).
(** A name and a type of device for all nodes of a class. *)
Definition satisfiable a (R : Z -> Z -> Prop) (x : Z) : Prop :=
  exists n t, DeviceNames.complete n = true /\ forall i, rtsc R x i -> DeviceNamesFacts.spec (own_name a i) n /\ t ∈ own_types a i.
End Spec.
End PlacerSpec.

Open Scope Z_scope.

Module PlacerGroups.
Import Status Numbers Graph GraphSpec GraphFacts Kernels Placer PlacerForest PlacerSpec.

(** ** Generated equivalences *)

Lemma rtsc_sym (R : Z -> Z -> Prop) i j : rtsc R i j -> rtsc R j i.
Proof. intros H. by symmetry. Qed.
Lemma rtsc_mono (R R' : Z -> Z -> Prop) : (forall i j, R i j -> rtsc R' i j) -> forall i j, rtsc R i j -> rtsc R' i j.
Proof. intros Hm i j. induction 1 as [|i k j Hik _ IH]; [done|]. etrans; [|exact IH]. destruct Hik as [?|?]; [auto|apply rtsc_sym; auto]. Qed.
Lemma rtsc_ext (R R' : Z -> Z -> Prop) : (forall i j, R i j <-> R' i j) -> forall i j, rtsc R i j <-> rtsc R' i j.
Proof. intros He i j. split; apply rtsc_mono; intros; apply rtsc_lr; by apply He. Qed.
Lemma rtsc_also (R : Z -> Z -> Prop) x y i j : rtsc (also R x y) i j <-> rtsc R i j \/ (rtsc R i x /\ rtsc R y j) \/ (rtsc R i y /\ rtsc R x j).
Proof.
  assert (Hin : forall i j, rtsc R i j -> rtsc (also R x y) i j) by (apply rtsc_mono; intros; apply rtsc_lr; by left). assert (Hxy : rtsc (also R x y) x y) by (apply rtsc_lr; by right). split.
  - induction 1 as [|i k j Hik _ IH]; [by left|]. assert (Hs : rtsc R i k \/ (i = x /\ k = y) \/ (i = y /\ k = x)) by (destruct Hik as [[?|[-> ->]]|[?|[-> ->]]]; [left; by apply rtsc_lr|auto|left; by apply rtsc_rl|auto]).
    destruct Hs as [Hs|[[-> ->]|[-> ->]]], IH as [IH|[[IH1 IH2]|[IH1 IH2]]].
    + left. by etrans.
    + right; left. split; [by etrans|done].
    + right; right. split; [by etrans|done].
    + right; left. by split.
    + left. etrans; [|exact IH2]. by apply rtsc_sym.
    + by left.
    + right; right. by split.
    + by left.
    + left. etrans; [|exact IH2]. by apply rtsc_sym.
  - intros [H|[[H1 H2]|[H1 H2]]]; [auto|etrans; [by apply Hin|]; etrans; [exact Hxy|auto]|etrans; [by apply Hin|]; etrans; [apply rtsc_sym; exact Hxy|auto]].
Qed.
(** Pairs outside of a set are only related by reflexivity. *)
Lemma rtsc_dom (R : Z -> Z -> Prop) (D : list Z) i j : (forall i j, R i j -> (i ∈ D) /\ j ∈ D) -> rtsc R i j -> i = j \/ (i ∈ D) /\ j ∈ D.
Proof. intros HR. induction 1 as [|i k j Hik _ IH]; [by left|]. right. assert (Hd : (i ∈ D) /\ k ∈ D) by (destruct Hik as [H%HR|H%HR]; tauto). destruct IH as [->|?]; tauto. Qed.

(** ** Names and types *)

Lemma spec_union p q n : DeviceNamesFacts.compatible p q -> DeviceNamesFacts.spec (DeviceNamesFacts.union p q) n <-> DeviceNamesFacts.spec p n /\ DeviceNamesFacts.spec q n.
Proof.
  intros Hc. destruct (DeviceNamesFacts.union_join p q Hc) as (H1 & H2 & H3). split; [|intros [? ?]; by apply H3]. intros Hu. split; by eapply DeviceNamesFacts.spec_trans.
Qed.
Lemma elem_of_merge t (l k : list (list Z)) : t ∈ MergeSupportedDevices l k <-> (t ∈ l) /\ t ∈ k.
Proof.
  unfold MergeSupportedDevices. rewrite list_elem_of_In, filter_In, <- list_elem_of_In. rewrite existsb_exists. split; intros [H1 H2]; (split; [done|]).
  - destruct H2 as (o & Ho & He). apply bool_decide_eq_true in He as ->. by apply list_elem_of_In.
  - exists t. split; [by apply list_elem_of_In|]. by apply bool_decide_eq_true.
Qed.
Lemma elem_of_set_insert i j (l : list Z) : j ∈ set_insert i l -> j = i \/ j ∈ l.
Proof.
  induction l as [|k l IH]; cbn; [intros ->%list_elem_of_singleton; by left|]. destruct (i <? k); [intros [?|?]%elem_of_cons; auto|]. destruct (Z.eqb_spec i k) as [->|]; [by right|].
  intros [->|H]%elem_of_cons; [right; by left|]. destruct (IH H); [by left|right; by right].
Qed.
Lemma elem_of_inserts j (l k : list Z) : j ∈ foldr set_insert l k -> (j ∈ l) \/ j ∈ k.
Proof. induction k as [|i k IH]; cbn; [by left|]. intros [->|H]%elem_of_set_insert; [right; by left|]. destruct (IH H); [by left|right; by right]. Qed.

Section Groups.
Context {OpDef AttrValue : Type} {registry : OpRegistryInterface OpDef AttrValue} {kernels : KernelRegistry AttrValue}.
Context {laws : OpRegistryLaws OpDef AttrValue registry}.
Context (addr : nat -> Z) {Haddr : addresses addr} (device_set_ : DeviceSet.DeviceSet) (allow_soft_placement : bool).
Abbreviation Graph := (Graph OpDef AttrValue).
Abbreviation AGraph := (AGraph OpDef AttrValue).
Abbreviation State := (State OpDef AttrValue).
Abbreviation rep := (rep addr).
Abbreviation classes := (classes device_set_ allow_soft_placement).
Abbreviation class_ok := (class_ok device_set_ allow_soft_placement).
Implicit Types (a : AGraph) (s : State) (l : list Member).

(** ** What keeps the invariant *)

Lemma class_ok_roots a l l' r m : (forall i, root_of (up l') i r <-> root_of (up l) i r) -> class_ok a l r m -> class_ok a l' r m.
Proof.
  intros Hr [H1 H2 H3]. split; [|done|].
  - intros t. rewrite H1. split; intros H i Hi; by apply H, Hr.
  - intros Hs n. rewrite (H3 Hs n). split; intros H i Hi; by apply H, Hr.
Qed.
Lemma classes_compressed a D R l l' : compressed l l' -> classes a D R l -> classes a D R l'.
Proof.
  intros Hc C. pose proof Hc as (H1 & H2 & H3 & H4 & H5). split; try by apply C.
  - done.
  - rewrite H1. apply C.
  - intros i. rewrite (i_dom _ _ _ _ _ _ C). split; intros [r Hr]; exists r; by apply H5.
  - intros i j r. rewrite !H5. apply C.
  - intros r m Hr Hm. apply H5 in Hr. destruct (root_member _ _ _ Hr) as (m' & Hm' & _). pose proof (compressed_root _ _ _ _ _ Hc Hr Hm') as He. rewrite Hm in He. injection He as ->.
    eapply class_ok_roots; [intros i; apply H5|]. by apply (i_roots _ _ _ _ _ _ C).
  - intros j m i Hm Hi. destruct (H3 _ _ Hm) as (p & Hp). by eapply (i_ids _ _ _ _ _ _ C).
  - intros j m Hm. destruct (H3 _ _ Hm) as (p & Hp). by apply (i_cache _ _ _ _ _ _ C _ _ Hp).
Qed.
Lemma classes_rel a D (R R' : Z -> Z -> Prop) l : (forall i j, rtsc R i j <-> rtsc R' i j) -> (forall i j, R' i j -> (i ∈ D) /\ j ∈ D) -> classes a D R l -> classes a D R' l.
Proof. intros He Hd C. split; try by apply C. { done. } intros i j r Hr. rewrite <- He. by apply C. Qed.
Lemma classes_same a D R l i j : (i ∈ D) -> (j ∈ D) -> rtsc R i j -> classes a D R l -> classes a D (also R i j) l.
Proof.
  intros Hi Hj Hij C. eapply classes_rel; [|intros i' j' [H|[-> ->]]; [by apply C|done]|exact C]. intros i' j'. rewrite rtsc_also. split; [by left|]. intros [H|[[H1 H2]|[H1 H2]]]; [done| |].
  - etrans; [exact H1|]. etrans; [exact Hij|exact H2].
  - etrans; [exact H1|]. etrans; [apply rtsc_sym; exact Hij|exact H2].
Qed.
(** The root of a node of the graph. *)
Lemma classes_root a D R l i : classes a D R l -> i ∈ D -> exists r m, root_of (up l) i r /\ root_of (up l) r r /\ l !!z r = Some m /\ parent m = r /\ r ∈ D.
Proof.
  intros C Hi. apply (i_dom _ _ _ _ _ _ C) in Hi as [r Hr]. destruct (root_member _ _ _ Hr) as (m & Hm & Hp). exists r, m. assert (Hrr : root_of (up l) r r) by by eapply root_self. do 4 (split; [done|]). apply (i_dom _ _ _ _ _ _ C). by exists r.
Qed.

(** What the writes leave when two classes become one. *)
Record joined (new old : Z) (mn mo : Member) (merged : DeviceNames.ParsedName) (l l' : list Member) : Prop := mkJoined {
  j_len : zlength l' = zlength l;
  j_shape : forall j, shape l' j = shape l j;
  j_new : exists m, l' !!z new = Some m /\ supported_device_types m = MergeSupportedDevices (supported_device_types mn) (supported_device_types mo) /\ device_name m = merged;
  j_data : forall j m', l' !!z j = Some m' -> exists m, l !!z j = Some m /\ possible_devices m' = possible_devices m /\ (forall i, i ∈ ids_in_group m' -> (i ∈ ids_in_group m) \/ (i ∈ ids_in_group mn) \/ i ∈ ids_in_group mo) /\
    (j = new \/ supported_device_types m' = supported_device_types m /\ device_name m' = device_name m)
}.
Lemma classes_link a D R l l1 l' new old mn mo (st : Status) merged : classes a D R l -> root_of (up l) new new -> root_of (up l) old old -> new <> old -> l !!z new = Some mn -> l !!z old = Some mo ->
  linked new old l l1 -> joined new old mn mo merged l1 l' ->
  DeviceNames.MergeDevNames (device_name mn) (device_name mo) allow_soft_placement = (st, merged) -> ok st = true ->
  MergeSupportedDevices (supported_device_types mn) (supported_device_types mo) <> [] -> classes a D (also R new old) l'.
Proof.
  intros C Hnn Hoo Hne Hn Ho Hlk Hj Hmerge Hok Htypes. destruct Hj as [Jl Js (m' & Jm & Jt & Jn) Jd].
  assert (Hroots : forall j r, root_of (up l') j r <-> exists r0, root_of (up l) j r0 /\ r = link_root new old r0) by (intros j r; rewrite (shape_roots _ _ Js); apply Hlk).
  assert (Hdata : forall j m, l' !!z j = Some m -> exists m0, l !!z j = Some m0 /\ possible_devices m = possible_devices m0 /\ (forall i, i ∈ ids_in_group m -> (i ∈ ids_in_group m0) \/ (i ∈ ids_in_group mn) \/ i ∈ ids_in_group mo) /\
    (j = new \/ supported_device_types m = supported_device_types m0 /\ device_name m = device_name m0)).
  { intros j m Hm. destruct (Jd j m Hm) as (m1 & Hm1 & H1 & H2 & H3). destruct (zlookup_is_Some l j) as [m0 Hm0]; [rewrite <- (k_len _ _ _ _ Hlk); by eapply zlookup_range|]. exists m0. split; [done|].
    destruct (k_data _ _ _ _ Hlk j m0 Hm0) as (p & k & Hpk). rewrite Hm1 in Hpk. injection Hpk as ->. done. }
  assert (HnD : new ∈ D) by (apply (i_dom _ _ _ _ _ _ C); by exists new). assert (HoD : old ∈ D) by (apply (i_dom _ _ _ _ _ _ C); by exists old).
  assert (Hnew : forall i, root_of (up l') i new <-> root_of (up l) i new \/ root_of (up l) i old).
  { intros i. rewrite Hroots. unfold link_root. split.
    - intros (r0 & Hr0 & He). case_decide as Hd; [subst r0; by right|]. subst r0. by left.
    - intros [H|H]; eexists; (split; [exact H|]); [by rewrite decide_False|by rewrite decide_True]. }
  assert (Hother : forall r i, r <> new -> r <> old -> root_of (up l') i r <-> root_of (up l) i r).
  { intros r i H1 H2. rewrite Hroots. unfold link_root. split; [intros (r0 & Hr0 & He); case_decide; congruence|]. intros H. exists r. rewrite decide_False by done. done. }
  split; try by apply C.
  - eapply shape_forest; [exact Js|apply Hlk].
  - rewrite Jl, (k_len _ _ _ _ Hlk). apply C.
  - intros i. rewrite (i_dom _ _ _ _ _ _ C). split; [intros [r Hr]; exists (link_root new old r); apply Hroots; eauto|intros [r Hr]; apply Hroots in Hr as (r0 & Hr0 & _); eauto].
  - intros i j [H|[-> ->]]; [by apply C|done].
  - intros i j r (ri & Hri & ->)%Hroots. rewrite Hroots, rtsc_also. rewrite <- (i_class _ _ _ _ _ _ C i j ri Hri).
    assert (Hcl : forall i j r, root_of (up l) i r -> rtsc R i j <-> root_of (up l) j r) by (intros; symmetry; by apply C).
    assert (Hx : forall r, root_of (up l) r r -> rtsc R i r <-> ri = r) by (intros r Hr; rewrite (Hcl i r ri Hri); split; [intros Hr'; by eapply root_det|by intros ->]).
    rewrite (Hx new Hnn), (Hx old Hoo), (Hcl new j new Hnn), (Hcl old j old Hoo). unfold link_root. split.
    + intros (rj & Hrj & He). repeat case_decide; subst; auto.
    + intros [H|[[-> H]|[-> H]]]; eexists; (split; [exact H|]); repeat case_decide; congruence.
  - intros r m Hr Hm. destruct (decide (r = new)) as [->|Hrn].
    + rewrite Jm in Hm. injection Hm as <-. pose proof (i_roots _ _ _ _ _ _ C new mn Hnn Hn) as [Tn _ Nn]. pose proof (i_roots _ _ _ _ _ _ C old mo Hoo Ho) as [To _ No]. split.
      * intros t. rewrite Jt, elem_of_merge, Tn, To. split; [intros [H1 H2] i [?|?]%Hnew; auto|]. intros H. split; intros i Hi; apply H, Hnew; auto.
      * by rewrite Jt.
      * intros Hs n. rewrite Jn. destruct Hs as [Hsoft Hb] eqn:Es. pose proof (DeviceNamesFacts.merge_spec (device_name mn) (device_name mo)) as Hms. rewrite Hsoft in Hmerge. rewrite Hmerge in Hms. cbn [fst snd] in Hms. rewrite Hok in Hms. destruct Hms as [Hcomp ->].
        rewrite spec_union, (Nn Hs n), (No Hs n) by done. split; [intros [H1 H2] i [?|?]%Hnew; auto|]. intros H. split; intros i Hi; apply H, Hnew; auto.
    + assert (Hro : r <> old). { intros ->. apply Hroots in Hr as (r0 & Hr0 & He). unfold link_root in He. case_decide; congruence. }
      destruct (Hdata _ _ Hm) as (m0 & Hm0 & _ & _ & [?|[Ht Hnm]]); [done|]. apply Hother in Hr; [|done|done]. pose proof (i_roots _ _ _ _ _ _ C r m0 Hr Hm0) as [T1 T2 T3]. split.
      * intros t. rewrite Ht, T1. split; intros H i Hi; apply H; by apply Hother.
      * by rewrite Ht.
      * intros Hs n. rewrite Hnm, (T3 Hs n). split; intros H i Hi; apply H; by apply Hother.
  - intros j m i Hm Hi. destruct (Hdata _ _ Hm) as (m0 & Hm0 & _ & Hids & _). destruct (Hids i Hi) as [H|[H|H]]; [exact (i_ids _ _ _ _ _ _ C _ _ _ Hm0 H)|exact (i_ids _ _ _ _ _ _ C _ _ _ Hn H)|exact (i_ids _ _ _ _ _ _ C _ _ _ Ho H)].
  - intros j m Hm. destruct (Hdata _ _ Hm) as (m0 & Hm0 & -> & _). exact (i_cache _ _ _ _ _ _ C _ _ Hm0).
Qed.
(** ** Reading the graph *)

Lemma wp_read_graph {A} (m : ST Graph A) (v : A) s (Q : A -> State -> Prop) : m (graph_ s) = Done (v, graph_ s) -> Q v s -> wp (on_graph m) s Q.
Proof. intros Hm HQ. unfold wp, on_graph. rewrite Hm. by destruct s. Qed.
(** What can be read of the node with an id. *)
Record node_at (g : Graph) a (p i : Z) (n : Node) (v : ANode OpDef AttrValue) : Prop := mkNodeAt {
  n_at : at_ (nodes_ g) i = Some p;
  n_live : a_nodes a !! i = Some v;
  n_node : node_of p g = Done (n, g);
  n_id : id_ n = i;
  n_device : assigned_device_name_ n = a_device v;
  n_props : props_of (props_ n) g = Done (a_props v, g);
  n_in : incident (edges_ g) (a_edges a) e_dst i (in_edges_ n);
  n_out : incident (edges_ g) (a_edges a) e_src i (out_edges_ n)
}.
Lemma rep_node_at g a i p : rep g a -> at_ (nodes_ g) i = Some p -> exists n v, node_at g a p i n v.
Proof.
  intros H Hp. destruct (rep_live addr H _ _ Hp) as (v & Hv & n & k & Hn & Hps & _ & Hid & _ & Hd & _ & Hi & Ho). exists n, v. split; try done.
  - unfold node_of. by rewrite Hn.
  - unfold props_of. by rewrite Hps.
Qed.
Lemma node_at_def g a p i n v : node_at g a p i n v -> Graph.def p g = Done (def_of v, g).
Proof. intros N. unfold Graph.def. rewrite (st_bind_eq _ _ _ _ _ (n_node _ _ _ _ _ _ N)), (st_bind_eq _ _ _ _ _ (n_props _ _ _ _ _ _ N)). done. Qed.
Lemma node_at_name g a p i n v : node_at g a p i n v -> Graph.name p g = Done (def_name (def_of v), g).
Proof. intros N. unfold Graph.name. by rewrite (st_bind_eq _ _ _ _ _ (node_at_def _ _ _ _ _ _ N)). Qed.
Lemma node_at_inputs g a p i n v : node_at g a p i n v -> input_types p g = Done (input_types_ (a_props v), g).
Proof. intros N. unfold input_types. by rewrite (st_bind_eq _ _ _ _ _ (n_node _ _ _ _ _ _ N)), (st_bind_eq _ _ _ _ _ (n_props _ _ _ _ _ _ N)). Qed.
Lemma node_at_outputs g a p i n v : node_at g a p i n v -> output_types p g = Done (output_types_ (a_props v), g).
Proof. intros N. unfold output_types. by rewrite (st_bind_eq _ _ _ _ _ (n_node _ _ _ _ _ _ N)), (st_bind_eq _ _ _ _ _ (n_props _ _ _ _ _ _ N)). Qed.

(** ** [ColocateNodes] *)

(** The members that debug texts and merges read are there. *)
Lemma wp_type_to_devices (ids : list Z) (acc : gmap (list Z) (list Z)) s (Q : gmap (list Z) (list Z) -> State -> Prop) : (forall i, i ∈ ids -> is_Some (members_ s !!z i)) -> (forall t, Q t s) -> wp (type_to_devices ids acc) s Q.
Proof.
  revert acc. induction ids as [|i ids IH]; intros acc Hi HQ; cbn [type_to_devices]; [by wp_step|]. destruct (Hi i) as [m Hm]; [by left|]. wp_step. eapply wp_member_of; [exact Hm|]. apply IH; [|done]. intros j Hj. apply Hi. by right.
Qed.
Lemma wp_AddDebugInfo r m s (Q : list Z -> State -> Prop) : members_ s !!z r = Some m -> (forall i, i ∈ ids_in_group m -> is_Some (members_ s !!z i)) -> (forall t, Q t s) -> wp (AddDebugInfo r) s Q.
Proof.
  intros Hm Hi HQ. unfold AddDebugInfo. wp_step. eapply wp_member_of; [exact Hm|]. wp_step; [|by wp_step]. wp_step. apply wp_type_to_devices; [done|]. intros t. by wp_step.
Qed.
Lemma zinsert_lookup l i m m' j : l !!z i = Some m -> zinsert l i m' !!z j = if decide (i = j) then Some m' else l !!z j.
Proof. apply zlookup_zinsert. Qed.
(** A status that is not OK ends [Run], which returns it. *)
Lemma wp_ColocateNodes a D R s x y px py (Q : Status -> State -> Prop) : rep (graph_ s) a -> a_next_node a < 2 ^ 31 -> classes a D R (members_ s) ->
  (x ∈ D) -> (y ∈ D) -> at_ (nodes_ (graph_ s)) x = Some px -> at_ (nodes_ (graph_ s)) y = Some py ->
  (forall st l', ok st = false -> (strict allow_soft_placement a -> ~ satisfiable device_set_ a (also R x y) x) -> Q st (set_members l' s)) -> (forall l', zlength l' = zlength (members_ s) -> classes a D (also R x y) l' -> Q OK (set_members l' s)) -> wp (ColocateNodes allow_soft_placement px py) s Q.
Proof.
  intros H Hnext C Hx Hy Hpx Hpy Hbad HQ. destruct (rep_node_at _ _ _ _ H Hpx) as (nx & vx & Nx). destruct (rep_node_at _ _ _ _ H Hpy) as (ny & vy & Ny).
  unfold ColocateNodes. wp_step. eapply wp_read_graph; [apply Nx|]. wp_step. eapply wp_read_graph; [apply Ny|]. rewrite (n_id _ _ _ _ _ _ Nx), (n_id _ _ _ _ _ _ Ny).
  destruct (classes_root _ _ _ _ _ C Hx) as (rx & mx & Hrx & Hrrx & Hmx & _). wp_step. eapply wp_FindRoot; [apply C|exact Hrx|]. intros l1 Hc1. pose proof (classes_compressed _ _ _ _ _ Hc1 C) as C1.
  destruct (classes_root _ _ _ _ _ C1 Hy) as (ry & my & Hry & _). wp_step. eapply wp_FindRoot; [apply C1|exact Hry|]. cbn [members_ set_members]. intros l2 Hc2. change (set_members l2 (set_members l1 s)) with (set_members l2 s). pose proof (classes_compressed _ _ _ _ _ Hc2 C1) as C2.
  assert (Hlen2 : zlength l2 = zlength (members_ s)) by (rewrite (proj1 Hc2); apply Hc1).
  assert (Hrx2 : root_of (up l2) x rx) by (apply Hc2; apply Hc1; exact Hrx). assert (Hry2 : root_of (up l2) y ry) by (apply Hc2; exact Hry). clear Hc1 Hc2 C C1 Hrx Hrrx Hmx Hry mx my l1.
  destruct (Z.eqb_spec rx ry) as [->|Hne].
  { wp_step. apply HQ; [done|]. apply classes_same; try done. apply (i_class _ _ _ _ _ _ C2 x y ry); done. }
  wp_step. eapply wp_read_graph; [eapply node_at_name, Nx|]. wp_step. eapply wp_read_graph; [eapply node_at_name, Ny|].
  destruct (root_member _ _ _ Hrx2) as (mx & Hmx & Hpx'). destruct (root_member _ _ _ Hry2) as (my & Hmy & Hpy'). pose proof (root_self _ _ _ Hrx2) as Hrrx. pose proof (root_self _ _ _ Hry2) as Hrry.
  wp_step. eapply wp_link_roots; [apply C2|pose proof (i_len _ _ _ _ _ _ C2); cbn; lia|exact Hmx|done|exact Hmy|done|done|]. intros new old l3 Hno Hlk. cbn [members_ set_members] in Hlk.
  assert (Hgoal : exists mn mo, l2 !!z new = Some mn /\ l2 !!z old = Some mo /\ root_of (up l2) new new /\ root_of (up l2) old old /\ new <> old /\ (forall i j, rtsc (also R new old) i j <-> rtsc (also R x y) i j) /\ (rtsc R x new \/ rtsc R x old)).
  { assert (Hxr : rtsc R x rx) by (by apply (i_class _ _ _ _ _ _ C2 x rx rx Hrx2)). assert (Hyr : rtsc R y ry) by (by apply (i_class _ _ _ _ _ _ C2 y ry ry Hry2)).
    assert (He : forall i j, rtsc (also R rx ry) i j <-> rtsc (also R x y) i j).
    { intros i j. rewrite !rtsc_also.
      assert (E1 : rtsc R i rx <-> rtsc R i x) by (split; intros ?; (etrans; [eassumption|]); [by apply rtsc_sym|done]). assert (E2 : rtsc R i ry <-> rtsc R i y) by (split; intros ?; (etrans; [eassumption|]); [by apply rtsc_sym|done]).
      assert (E3 : rtsc R rx j <-> rtsc R x j) by (split; intros ?; (etrans; [|eassumption]); [done|by apply rtsc_sym]). assert (E4 : rtsc R ry j <-> rtsc R y j) by (split; intros ?; (etrans; [|eassumption]); [done|by apply rtsc_sym]). by rewrite E1, E2, E3, E4. }
    destruct Hno as [[-> ->]|[-> ->]]; eexists _, _; (split; [eassumption|]); (split; [eassumption|]); (split; [done|]); (split; [done|]); (split; [congruence|]); (split; [|auto]); [done|]. intros i j. rewrite <- He, !rtsc_also. tauto. }
  destruct Hgoal as (mn & mo & Hmn & Hmo & Hrn & Hro & Hnew & Hrel & Hxno).
  assert (Hsat : forall n t, (forall i, rtsc (also R x y) x i -> DeviceNamesFacts.spec (own_name a i) n /\ t ∈ own_types device_set_ a i) -> strict allow_soft_placement a ->
    (DeviceNamesFacts.spec (device_name mn) n /\ DeviceNamesFacts.spec (device_name mo) n) /\ (t ∈ supported_device_types mn) /\ t ∈ supported_device_types mo).
  { intros n t Hall Hst. assert (Hcls : forall i, root_of (up l2) i new \/ root_of (up l2) i old -> rtsc (also R x y) x i).
    { intros i Hi. apply Hrel, rtsc_also. destruct Hi as [Hi|Hi]; [apply (i_class _ _ _ _ _ _ C2 new i new Hrn) in Hi|apply (i_class _ _ _ _ _ _ C2 old i old Hro) in Hi]; destruct Hxno as [Hx'|Hx']; [left; by etrans|by right; right|by right; left|left; by etrans]. }
    pose proof (i_roots _ _ _ _ _ _ C2 new mn Hrn Hmn) as [Tn _ Nn]. pose proof (i_roots _ _ _ _ _ _ C2 old mo Hro Hmo) as [To _ No]. split; split; [apply (Nn Hst)|apply (No Hst)|apply Tn|apply To]; intros i Hi; apply Hall, Hcls; auto. } 
  destruct (k_data _ _ _ _ Hlk _ _ Hmn) as (pn & kn & Hn3). destruct (k_data _ _ _ _ Hlk _ _ Hmo) as (po & ko & Ho3). set (mn3 := with_rank kn (with_parent pn mn)) in *. set (mo3 := with_rank ko (with_parent po mo)) in *.
  wp_step. eapply wp_member_of; [exact Hn3|]. wp_step. eapply wp_member_of; [exact Ho3|].
  change (device_name mn3) with (device_name mn). change (device_name mo3) with (device_name mo). change (supported_device_types mn3) with (supported_device_types mn). change (supported_device_types mo3) with (supported_device_types mo). change (ids_in_group mn3) with (ids_in_group mn). change (ids_in_group mo3) with (ids_in_group mo).
  destruct (DeviceNames.MergeDevNames (device_name mn) (device_name mo) allow_soft_placement) as [st merged] eqn:Em.
  wp_step. eapply wp_update_member; [exact Hn3|]. cbn [graph_ members_ colocation_group_root_ set_members]. destruct (ok st) eqn:Eok; cbn [negb].
  2: { wp_step. apply Hbad; [done|]. intros Hst (n & t & Hn & Hall). destruct (Hsat n t Hall Hst) as [[Hs1 Hs2] _]. pose proof (DeviceNamesFacts.merge_spec (device_name mn) (device_name mo)) as Hms. destruct Hst as [Hsoft _]. rewrite Hsoft in Em. rewrite Em in Hms. cbn [fst] in Hms. rewrite Eok in Hms.
    apply Hms, DeviceNamesFacts.compatible_iff. by exists n. }
  wp_step. eapply (wp_update_member _ _ (with_name merged mn3)); [cbn; rewrite (zinsert_lookup _ _ _ _ _ Hn3); by rewrite decide_True|]. cbn [graph_ members_ colocation_group_root_ set_members].
  set (ids := foldr set_insert (ids_in_group mn) (ids_in_group mo)). set (types := MergeSupportedDevices (supported_device_types mn) (supported_device_types mo)).
  set (l4 := zinsert l3 new (with_name merged mn3)). assert (L4 : forall j, l4 !!z j = if decide (new = j) then Some (with_name merged mn3) else l3 !!z j) by (intros j; by apply (zinsert_lookup _ _ mn3)).
  set (l5 := zinsert l4 new (with_ids ids (with_name merged mn3))). assert (L5 : forall j, l5 !!z j = if decide (new = j) then Some (with_ids ids (with_name merged mn3)) else l3 !!z j).
  { intros j. unfold l5. rewrite (zinsert_lookup l4 new (with_name merged mn3)) by (rewrite L4; by rewrite decide_True). rewrite L4. by case_decide. }
  wp_step. eapply (wp_update_member _ _ mo3); [cbn [members_ set_members]; rewrite L5; by rewrite decide_False|]. cbn [graph_ members_ colocation_group_root_ set_members].
  set (l6 := zinsert l5 old (with_ids [] mo3)). assert (L6 : forall j, l6 !!z j = if decide (old = j) then Some (with_ids [] mo3) else l5 !!z j) by (intros j; apply (zinsert_lookup _ _ mo3); rewrite L5; by rewrite decide_False).
  wp_step. eapply (wp_update_member _ _ (with_ids ids (with_name merged mn3))); [cbn [members_ set_members]; rewrite L6, L5; by rewrite decide_False, decide_True|]. cbn [graph_ members_ colocation_group_root_ set_members].
  set (m7 := with_types types (with_ids ids (with_name merged mn3))). set (l7 := zinsert l6 new m7).
  assert (L7 : forall j, l7 !!z j = if decide (new = j) then Some m7 else if decide (old = j) then Some (with_ids [] mo3) else l3 !!z j).
  { intros j. unfold l7. rewrite (zinsert_lookup l6 new (with_ids ids (with_name merged mn3))) by (rewrite L6, L5; by rewrite decide_False, decide_True). rewrite L6, L5. by repeat case_decide. }
  assert (Hj : joined new old mn mo merged l3 l7).
  { split.
    - unfold l7, l6, l5, l4. by rewrite !zinsert_length.
    - intros j. unfold shape. rewrite L7. case_decide; [subst j; by rewrite Hn3|]. case_decide; [subst j; by rewrite Ho3|done].
    - exists m7. rewrite L7. by rewrite decide_True.
    - intros j m'. rewrite L7. case_decide; [subst j; intros [= <-]; exists mn3; split; [done|]; split; [done|]; split; [|by left]; intros i Hi; right; by apply elem_of_inserts in Hi|].
      case_decide; [subst j; intros [= <-]; exists mo3; split; [done|]; split; [done|]; split; [by intros i ?%elem_of_nil|by right]|]. intros Hm'. exists m'. split; [done|]. split; [done|]. split; [auto|by right]. }
  case_bool_decide as Hty.
  - assert (Hids : forall j m i, l7 !!z j = Some m -> i ∈ ids_in_group m -> is_Some (l7 !!z i)).
    { intros j m i Hm Hi. apply zlookup_is_Some. rewrite (j_len _ _ _ _ _ _ _ Hj), (k_len _ _ _ _ Hlk). destruct (j_data _ _ _ _ _ _ _ Hj _ _ Hm) as (m3 & Hm3 & _ & Hd & _).
      assert (HiD : i ∈ D). { destruct (zlookup_is_Some l2 j) as [m2 Hm2]; [rewrite <- (k_len _ _ _ _ Hlk); by eapply zlookup_range|]. destruct (k_data _ _ _ _ Hlk _ _ Hm2) as (p & k & Hm3'). rewrite Hm3 in Hm3'. injection Hm3' as ->.
        destruct (Hd i Hi) as [Hd'|[Hd'|Hd']]; [exact (i_ids _ _ _ _ _ _ C2 _ _ _ Hm2 Hd')|exact (i_ids _ _ _ _ _ _ C2 _ _ _ Hmn Hd')|exact (i_ids _ _ _ _ _ _ C2 _ _ _ Hmo Hd')]. }
      apply (i_dom _ _ _ _ _ _ C2) in HiD as [r Hr]. destruct (member_root _ _ _ Hr) as (m0 & Hm0 & _). by eapply zlookup_range. }
    assert (Hdbg : forall r (Q' : list Z -> State -> Prop), r = new \/ r = old -> (forall t, Q' t (set_members l7 s)) -> wp (AddDebugInfo r) (set_members l7 s) Q').
    { intros r Q' Hr HQ'. destruct (zlookup_is_Some l7 r) as [m Hm]; [rewrite (j_len _ _ _ _ _ _ _ Hj); destruct Hr as [->| ->]; by eapply zlookup_range|]. eapply wp_AddDebugInfo; [exact Hm|intros i; by eapply Hids|done]. }
    wp_step. apply Hdbg; [naive_solver|]. intros t1. wp_step. apply Hdbg; [naive_solver|]. intros t2. wp_step. apply Hbad; [done|]. intros Hst (n & t & Hn & Hall). destruct (Hsat n t Hall Hst) as [_ Ht]. apply elem_of_merge in Ht. fold types in Ht. rewrite Hty in Ht. by apply elem_of_nil in Ht.
  - wp_step. apply HQ; [by rewrite (j_len _ _ _ _ _ _ _ Hj), (k_len _ _ _ _ Hlk)|]. eapply classes_rel; [exact Hrel|intros i j [Hij|[-> ->]]; [by apply C2|done]|]. by eapply classes_link.
Qed.
End Groups.
End PlacerGroups.
