(* ===== verification/PlacerConstraints.v ===== *)
(** * The placer: collecting the constraints

    Steps 1 and 2 of [SimplePlacer::Run] ([common_runtime/simple_placer.cc]):
    [AddNode] for every node and [ColocateNodes] for every binding edge make
    the classes of [together]. *)
From S2P Require Import Prelude Status Numbers StringPiece DataTypes EdgeSet Graph GraphFacts GraphPasses DeviceNames DeviceNamesFacts Kernels Placer PlacerForest PlacerSpec.
From stdpp Require Import gmap relations sorting.
Open Scope Z_scope.

Module PlacerConstraints.
Import Status Numbers DataTypes Graph GraphSpec GraphFacts GraphPasses Kernels Placer PlacerForest PlacerSpec PlacerGroups.

Lemma parse_total nm : exists b n, DeviceNames.ParseFullName nm = Some (b, n).
Proof.
  unfold DeviceNames.ParseFullName. case_bool_decide as Hr; [eauto|]. pose proof (DeviceNamesFacts.parse_loop_total (S (length nm)) nm DeviceNames.Clear ltac:(lia)) as H.
  destruct (DeviceNames.parse_loop _ _ _) as [[b n]|]; [eauto|done].
Qed.

Section Constraints.
Context {OpDef AttrValue : Type} {registry : OpRegistryInterface OpDef AttrValue} {kernels : KernelRegistry AttrValue}.
Context {laws : OpRegistryLaws OpDef AttrValue registry}.
Context (addr : nat -> Z) {Haddr : addresses addr} (device_set_ : DeviceSet.DeviceSet) (allow_soft_placement : bool).
Context (Hcomplete : Forall (fun d => DeviceNames.complete (DeviceSet.parsed_name d) = true) (DeviceSet.devices_ device_set_)).
Abbreviation Graph := (Graph OpDef AttrValue).
Abbreviation AGraph := (AGraph OpDef AttrValue).
Abbreviation State := (State OpDef AttrValue).
Abbreviation rep := (rep addr).
Abbreviation classes := (classes device_set_ allow_soft_placement).
Implicit Types (a : AGraph) (s : State) (l : list Member) (g : Graph).

(** ** A new node *)

Definition fresh_member a (i : Z) (op : list Z) : Member := mkMember i [i] op 0 (own_types device_set_ a i) (own_name a i) [].
Lemma wp_InitializeMember a s i p (Q : Status * Member -> State -> Prop) : rep (graph_ s) a -> at_ (nodes_ (graph_ s)) i = Some p ->
  (forall st m, ok st = false -> ~ node_ok device_set_ a i -> Q (st, m) s) -> (forall op, node_ok device_set_ a i -> Q (OK, fresh_member a i op) s) -> wp (InitializeMember device_set_ p) s Q.
Proof.
  intros H Hp Hbad HQ. destruct (rep_node_at addr _ _ _ _ H Hp) as (n & v & N). pose proof (at_range _ _ _ Hp) as Hi.
  unfold InitializeMember. wp_step. eapply wp_read_graph; [apply N|]. wp_step. eapply wp_read_graph; [eapply node_at_def, N|]. rewrite (n_id _ _ _ _ _ _ N), (n_device _ _ _ _ _ _ N).
  rewrite (proj2 (Z.ltb_ge i 0)) by lia. pose proof (n_live _ _ _ _ _ _ N) as Hv.
  assert (Ht : own_types device_set_ a i = node_types device_set_ v) by (unfold own_types, of_node; by rewrite Hv). assert (Hn : own_name a i = request v) by (unfold own_name, of_node; by rewrite Hv).
  unfold fresh_member in HQ. rewrite Ht, Hn in HQ.
  assert (Hok : node_ok device_set_ a i <-> ok (SupportedDeviceTypesForNode (device_types_ device_set_) (def_of v)).1 = true /\ DeviceNames.ParseFullName (request_text v) = Some (true, request v) /\ node_types device_set_ v <> [] /\
    (a_device v <> [] -> exists d, DeviceSet.FindDeviceByName device_set_ (a_device v) = Some d /\ DeviceSet.device_type d ∈ node_types device_set_ v)).
  { split; [intros Hok; by apply Hok|]. intros Hok w Hw. assert (w = v) as -> by congruence. exact Hok. }
  setoid_rewrite Hok in HQ. setoid_rewrite Hok in Hbad. clear Hok. unfold request in HQ, Hbad. destruct (parse_total (request_text v)) as (b & nm & Hparse). rewrite Hparse in HQ, Hbad. unfold request_text in Hparse. unfold node_types in HQ, Hbad.
  destruct (SupportedDeviceTypesForNode (device_types_ device_set_) (def_of v)) as [st types] eqn:Es. cbn [fst snd] in HQ, Hbad. destruct (ok st) eqn:Eok; cbn [negb]; [|wp_step; apply Hbad; [done|]; by intros [? _]].
  cbn [with_parent with_ids with_types with_name new_Member parent ids_in_group op_type rank supported_device_types device_name possible_devices].
  destruct (a_device v) as [|c dev] eqn:Ed.
  - rewrite bool_decide_eq_true_2 by done. cbn [negb]. case_bool_decide as Hty; [wp_step; apply Hbad; [done|]; by intros (_ & _ & ? & _)|].
    case_bool_decide as Hdd; cbn [negb].
    + wp_step. rewrite Hdd in Hparse. injection Hparse as <- <-. apply HQ. split_and!; done.
    + wp_step. wp_step; [exact Hparse|]. destruct b; cbn [negb]; wp_step; [apply HQ; split_and!; done|]. apply Hbad; [done|]. by intros (_ & ? & _).
  - rewrite bool_decide_eq_false_2 by done. cbn [negb]. wp_step. wp_step; [exact Hparse|]. destruct b; cbn [negb]; [|wp_step; apply Hbad; [done|]; by intros (_ & ? & _)].
    destruct (DeviceSet.FindDeviceByName device_set_ (c :: dev)) as [d|] eqn:Ef; [|wp_step; apply Hbad; [done|]; intros (_ & _ & _ & Hx); by destruct Hx as (? & ? & _)].
    assert (Hin : existsb (fun t => bool_decide (DeviceSet.device_type d = t)) types = true <-> DeviceSet.device_type d ∈ types).
    { rewrite existsb_exists. split; [intros (t & Hin & He); apply bool_decide_eq_true in He as <-; by apply list_elem_of_In|]. intros Hin. eexists. split; [by apply list_elem_of_In|by apply bool_decide_eq_true]. }
    destruct (existsb _ _) eqn:Ee; wp_step.
    + apply HQ. pose proof (proj1 Hin eq_refl) as Hin'. split_and!; try done; [intros ->; by apply elem_of_nil in Hin'|]. intros _. by exists d.
    + apply Hbad; [done|]. intros (_ & _ & _ & Hx). destruct Hx as (d' & [= <-] & Hx); [done|]. apply Hin in Hx. congruence.
Qed.

(** The vector grows; the ids that it skips have no node. *)
Definition grow l (i : Z) (m : Member) : list Member := zinsert (resize (Z.to_nat (i + 1)) new_Member l) i m.
Lemma grow_lookup l i m j : zlength l <= i -> grow l i m !!z j = if decide (j = i) then Some m else if decide (zlength l <= j < i) then Some new_Member else l !!z j.
Proof.
  intros Hi. unfold grow. assert (H0 : 0 <= i) by (unfold zlength in Hi; lia). assert (Hlen : zlength (resize (Z.to_nat (i + 1)) new_Member l) = i + 1) by (unfold zlength; rewrite length_resize; lia).
  destruct (zlookup_is_Some (resize (Z.to_nat (i + 1)) new_Member l) i ltac:(lia)) as [x Hx]. rewrite (zlookup_zinsert _ _ _ _ _ Hx).
  case_decide as He; [subst j; by rewrite decide_True|]. rewrite decide_False by congruence. unfold zlookup, zlength in *. destruct (Z.ltb_spec j 0) as [Hj|Hj]; [by rewrite decide_False by lia|].
  case_decide as Hd.
  - apply lookup_resize_new; lia.
  - destruct (decide (j < Z.of_nat (length l))); [apply lookup_resize; lia|]. rewrite lookup_resize_old by lia. symmetry. apply lookup_ge_None_2. lia.
Qed.
Lemma grow_length l i m : 0 <= i -> zlength (grow l i m) = i + 1.
Proof. intros Hi. unfold grow. rewrite zinsert_length. unfold zlength. rewrite length_resize. lia. Qed.
Lemma grow_roots l i m : forest l -> zlength l <= i -> parent m = i -> forall j r, root_of (up (grow l i m)) j r <-> (j = i /\ r = i) \/ root_of (up l) j r.
Proof.
  intros F Hi Hm. pose proof (grow_lookup l i m) as Hl. specialize (fun j => Hl j Hi) as Hl'. clear Hl. assert (H0 : 0 <= i) by (unfold zlength in Hi; lia).
  assert (Hup : forall j, up (grow l i m) j = if decide (j = i) then Some i else if decide (zlength l <= j < i) then Some (-1) else up l j).
  { intros j. unfold up. rewrite Hl'. repeat case_decide; cbn; by subst. }
  assert (Hneg : forall l r, ~ root_of (up l) (-1) r) by (intros l0 r Hr; destruct (member_root _ _ _ Hr) as (? & Hx & _); apply zlookup_range in Hx; lia).
  intros j r. split.
  - induction 1 as [j Hj|j p r Hj Hp Hr IH].
    + rewrite Hup in Hj. destruct (decide (j = i)); [auto|]. destruct (decide (zlength l <= j < i)); [injection Hj; unfold zlength in *; lia|]. right. by apply root_here.
    + rewrite Hup in Hj. destruct (decide (j = i)); [congruence|]. destruct (decide (zlength l <= j < i)); [injection Hj as <-; by apply Hneg in Hr|]. right. eapply root_up; [exact Hj|done|].
      destruct IH as [[-> ->]|?]; [|done]. unfold up in Hj. destruct (l !!z j) as [mj|] eqn:Hmj; [|done]. injection Hj as Hpj. destruct (f_up _ F j mj Hmj) as (mp & Hmp & _); [lia|congruence|]. rewrite Hpj in Hmp. apply zlookup_range in Hmp. lia.
  - intros [[-> ->]|Hr]; [apply root_here; rewrite Hup; by rewrite decide_True|]. assert (Hj : forall j p, up l j = Some p -> up (grow l i m) j = Some p).
    { intros k p Hk. rewrite Hup. unfold up in Hk. destruct (l !!z k) eqn:E; [|done]. pose proof (zlookup_range _ _ _ E). rewrite !decide_False by lia. unfold up. by rewrite E. }
    induction Hr as [j Hx|j p r Hx Hp _ IH]; [apply root_here|eapply root_up]; eauto.
Qed.
Lemma classes_grow a D R l i op : classes a D R l -> zlength l <= i < a_next_node a -> is_op a i -> node_ok device_set_ a i -> classes a (i :: D) R (grow l i (fresh_member a i op)).
Proof.
  intros C Hi Hop Hok. set (m := fresh_member a i op). assert (H0 : 0 <= i) by (unfold zlength in Hi; lia). pose proof (i_forest _ _ _ _ _ _ C) as F.
  pose proof (grow_roots l i m F ltac:(lia) eq_refl) as Hroots. pose proof (fun j => grow_lookup l i m j ltac:(lia)) as Hl. fold m.
  assert (HD : forall j r, root_of (up l) j r -> j <> i /\ r <> i).
  { intros j r Hr. destruct (member_root _ _ _ Hr) as (mj & Hj%zlookup_range & _). destruct (root_member _ _ _ Hr) as (mr & Hr'%zlookup_range & _). lia. }
  assert (Hin : forall j mj, l !!z j = Some mj -> grow l i m !!z j = Some mj) by (intros j mj Hj; pose proof (zlookup_range _ _ _ Hj); rewrite Hl, !decide_False by lia; done).
  assert (Hcases : forall j mj, grow l i m !!z j = Some mj -> (j = i /\ mj = m) \/ mj = new_Member \/ l !!z j = Some mj) by (intros j mj; rewrite Hl; repeat case_decide; intros [= <-] || intros ?; auto).
  split.
  - split.
    + intros j mj Hj Hp Hne. destruct (Hcases _ _ Hj) as [[-> ->]|[->|Hj']]; [done|cbn in Hp; lia|]. destruct (f_up _ F j mj Hj' Hp Hne) as (mp & Hmp & ?). exists mp. split; [by apply Hin|done].
    + intros j mj Hj. destruct (Hcases _ _ Hj) as [[-> ->]|[->|Hj']]; [cbn; split; [done|lia]|cbn; split; [done|lia]|]. destruct (f_rank _ F j mj Hj') as [? Hk]. split; [done|]. intros k Hkr. destruct (Hk k Hkr) as (j' & mj' & Hj2 & ?). exists j', mj'. split; [by apply Hin|done].
  - rewrite grow_length by done. lia.
  - intros j. rewrite elem_of_cons, (i_dom _ _ _ _ _ _ C). split; [intros [->|[r Hr]]; eexists; apply Hroots; [by left|by right]|]. intros [r [[-> _]|Hr]%Hroots]; [by left|right; by exists r].
  - intros j k Hjk. apply (i_rel _ _ _ _ _ _ C) in Hjk as [? ?]. split; by right.
  - intros j k r Hr. rewrite Hroots in Hr. rewrite Hroots. destruct Hr as [[-> ->]|Hr].
    + split; [intros [[-> _]|Hk]; [done|by destruct (HD _ _ Hk)]|]. intros Hik. left. split; [|done]. destruct (rtsc_dom _ _ _ _ (i_rel _ _ _ _ _ _ C) Hik) as [->|[Hd _]]; [done|]. apply (i_dom _ _ _ _ _ _ C) in Hd as [r Hr]. by destruct (HD _ _ Hr).
    + rewrite <- (i_class _ _ _ _ _ _ C j k r Hr). split; [|by right]. intros [[-> ->]|?]; [|done]. by destruct (HD _ _ Hr).
  - intros r mr Hr Hmr. apply Hroots in Hr as [[-> _]|Hr].
    + destruct (Hcases _ _ Hmr) as [[_ ->]|[->|Hx]]; [|rewrite Hl, decide_True in Hmr by done; discriminate Hmr|apply zlookup_range in Hx; lia].
      assert (Honly : forall k, root_of (up (grow l i m)) k i <-> k = i) by (intros k; rewrite Hroots; split; [intros [[-> _]|Hk]; [done|by destruct (HD _ _ Hk)]|by left]).
      split; cbn [m fresh_member supported_device_types device_name].
      * intros t. split; [by intros Ht k ->%Honly|]. intros Hk. apply Hk. by apply Honly.
      * destruct Hop as [_ [v Hv]]. unfold own_types, of_node. rewrite Hv. by apply Hok.
      * intros _ n. cbn. split; [by intros Hs k ->%Honly|]. intros Hk. apply Hk. by apply Honly.
    + destruct (root_member _ _ _ Hr) as (mr' & Hmr' & _). rewrite (Hin _ _ Hmr') in Hmr. injection Hmr as <-. eapply class_ok_roots; [|by apply (i_roots _ _ _ _ _ _ C)].
      intros k. rewrite Hroots. split; [|by right]. intros [[-> ->]|?]; [|done]. by destruct (HD _ _ Hr).
  - intros j mj k Hj Hk. destruct (Hcases _ _ Hj) as [[-> ->]|[->|Hj']]; [apply list_elem_of_singleton in Hk as ->; by left|by apply elem_of_nil in Hk|]. right. by eapply (i_ids _ _ _ _ _ _ C).
  - intros j mj Hj. destruct (Hcases _ _ Hj) as [[-> ->]|[->|Hj']]; [done|done|]. by eapply (i_cache _ _ _ _ _ _ C).
  - intros j [->|Hj]%elem_of_cons; [done|]. by apply (i_nodes _ _ _ _ _ _ C).
Qed.

(** An error of a strict graph is one of its constraints. *)
Definition infeasible a : Prop := strict allow_soft_placement a -> ~ feasible device_set_ a.
Lemma feasible_satisfiable a (R : Z -> Z -> Prop) i : feasible device_set_ a -> is_op a i -> (forall x y, R x y -> together a x y) -> satisfiable device_set_ a R i.
Proof.
  intros [_ Hf] Hi HR. destruct (Hf i Hi) as (_ & d & Hd & Hall). exists (DeviceSet.parsed_name d), (DeviceSet.device_type d). split; [by apply (proj1 (Forall_forall _ _) Hcomplete)|].
  intros j Hij. assert (Ht : together a i j) by by eapply rtsc_mono. destruct (Hall j Ht). done.
Qed.

(** ** The groups of a node *)

(** The representatives of the groups, and what [R] is made of. *)
Record grouped (g : Graph) a (D : list Z) (R : Z -> Z -> Prop) (roots : gmap (list Z) Z) : Prop := mkGrouped {
  g_map : forall grp p, roots !! grp = Some p -> exists k, (k ∈ D) /\ at_ (nodes_ g) k = Some p /\ grp ∈ groups a k;
  g_sound : forall i j, R i j -> together a i j
}.
Definition in_group (g : Graph) (R : Z -> Z -> Prop) (roots : gmap (list Z) Z) (k : Z) (grp : list Z) : Prop :=
  exists p k0, roots !! grp = Some p /\ at_ (nodes_ g) k0 = Some p /\ rtsc R k k0.
Lemma in_group_mono g (R R' : Z -> Z -> Prop) (roots roots' : gmap (list Z) Z) (k : Z) (grp : list Z) : roots ⊆ roots' -> (forall i j, R i j -> R' i j) -> in_group g R roots k grp -> in_group g R' roots' k grp.
Proof. intros Hm HR (p & k0 & Hp & Hk & Hr). exists p, k0. split; [by eapply lookup_weaken|]. split; [done|]. eapply rtsc_mono; [|exact Hr]. intros. apply rtsc_lr. auto. Qed.
Lemma wp_add_groups a (D : list Z) (i p : Z) (gs : list (list Z)) : forall R s (Q : Status -> State -> Prop), rep (graph_ s) a -> a_next_node a < 2 ^ 31 -> classes a D R (members_ s) -> grouped (graph_ s) a D R (colocation_group_root_ s) ->
  i ∈ D -> at_ (nodes_ (graph_ s)) i = Some p -> (forall grp, grp ∈ gs -> grp ∈ groups a i) ->
  (forall st s', ok st = false -> graph_ s' = graph_ s -> infeasible a -> Q st s') ->
  (forall s' (R' : Z -> Z -> Prop), graph_ s' = graph_ s -> zlength (members_ s') = zlength (members_ s) -> classes a D R' (members_ s') -> grouped (graph_ s) a D R' (colocation_group_root_ s') ->
    colocation_group_root_ s ⊆ colocation_group_root_ s' -> (forall i j, R i j -> R' i j) -> (forall grp, grp ∈ gs -> in_group (graph_ s) R' (colocation_group_root_ s') i grp) -> Q OK s') ->
  wp (add_groups allow_soft_placement p gs) s Q.
Proof.
  induction gs as [|grp gs IH]; intros R s Q H Hnext C G Hi Hp Hgs Hbad HQ; cbn [add_groups].
  { wp_step. apply (HQ s R); try done. by intros ? ?%elem_of_nil. }
  wp_step. wp_step. destruct (colocation_group_root_ s !! grp) as [root|] eqn:Er.
  - destruct (g_map _ _ _ _ _ G _ _ Er) as (k & Hk & Hroot & Hgrp).
    assert (Hsg : must_share a i k) by (left; split; [by apply (i_nodes _ _ _ _ _ _ C)|]; split; [by apply (i_nodes _ _ _ _ _ _ C)|]; exists grp; split; [apply Hgs; by left|done]).
    wp_step. eapply (wp_ColocateNodes addr device_set_ allow_soft_placement a D R s i k); try done.
    { intros st l' Hst Hinf. rewrite Hst. cbn [negb]. wp_step. apply Hbad; [done|done|]. intros Hs Hf. apply (Hinf Hs). apply feasible_satisfiable; [done|by apply (i_nodes _ _ _ _ _ _ C)|].
      intros x y [Hxy|[-> ->]]; [by apply G|]. by apply rtsc_lr, Hsg. }
    intros l' Hlen' C'. cbn [ok OK negb]. change (ok OK) with true. cbn [negb]. apply (IH (also R i k)); try done.
    + split; [apply G|]. intros x y [Hxy|[-> ->]]; [by apply G|]. by apply rtsc_lr.
    + intros grp' Hg. apply Hgs. by right.
    + intros s' R' Hg Hlen C2 G2 Hsub HR Hin. apply (HQ s' R'); try done.
      * rewrite Hlen. exact Hlen'.
      * intros x y Hxy. apply HR. by left.
      * intros grp' [->|Hg']%elem_of_cons; [|auto]. exists root, k. split; [by eapply lookup_weaken|]. split; [done|]. apply rtsc_lr, HR. by right.
  - wp_step. wp_step. apply (IH R); try done.
    + split; [|apply G]. intros grp' p'. cbn. rewrite lookup_insert_Some. intros [[<- <-]|[_ Hp']]; [exists i; split; [done|]; split; [done|]; apply Hgs; by left|by eapply (g_map _ _ _ _ _ G)].
    + intros grp' Hg. apply Hgs. by right.
    + intros s' R' Hg Hlen C2 G2 Hsub HR Hin. cbn in Hsub. apply (HQ s' R'); try done.
      * etrans; [|exact Hsub]. by apply insert_subseteq.
      * intros grp' [->|Hg']%elem_of_cons; [|auto]. exists p, i. split; [eapply lookup_weaken; [|exact Hsub]; by apply lookup_insert_eq|]. done.
Qed.
(** ** Step 1 *)

Record ready g a (D : list Z) (R : Z -> Z -> Prop) s : Prop := mkReady {
  rd_graph : graph_ s = g;
  rd_classes : classes a D R (members_ s);
  rd_grouped : grouped g a D R (colocation_group_root_ s);
  rd_cover : forall k grp, k ∈ D -> grp ∈ groups a k -> in_group g R (colocation_group_root_ s) k grp
}.
Lemma wp_add_node g a D R i p s (Q : Status -> State -> Prop) : rep g a -> a_next_node a < 2 ^ 31 -> ready g a D R s -> zlength (members_ s) <= i -> 1 < i -> at_ (nodes_ g) i = Some p ->
  (forall st s', ok st = false -> graph_ s' = g -> infeasible a -> Q st s') -> (forall s' R', ready g a (i :: D) R' s' -> zlength (members_ s') = i + 1 -> Q OK s') ->
  wp (AddNode device_set_ allow_soft_placement p) s Q.
Proof.
  intros H Hnext [<- C G Hcov] Hlen Hi Hp Hbad HQ. destruct (rep_node_at addr _ _ _ _ H Hp) as (n & v & N). pose proof (at_range _ _ _ Hp) as Hr. rewrite (r_len_n _ _ _ _ H) in Hr.
  assert (Hop : is_op a i) by (split; [done|]; rewrite (n_live _ _ _ _ _ _ N); by eexists).
  unfold AddNode. wp_step. eapply wp_InitializeMember; [done|exact Hp| |].
  { intros st m Hst Hno. rewrite Hst. cbn [negb]. wp_step. apply Hbad; [done|done|]. intros _ [_ Hf]. by apply Hno, Hf. }
  intros op Hok. change (ok OK) with true. cbn [negb]. wp_step. wp_step; [apply Z.leb_le; cbn; lia|]. wp_step. wp_step. cbn [parent fresh_member]. wp_step. eapply wp_read_graph; [eapply node_at_def, N|].
  pose proof (classes_grow a D R (members_ s) i op C ltac:(lia) Hop Hok) as C'.
  assert (Hgr : groups a i = ColocationGroups (def_of v)) by (unfold groups, of_node; by rewrite (n_live _ _ _ _ _ _ N)). rewrite <- Hgr.
  apply (wp_add_groups a (i :: D) i p _ R); try done.
  - split; [|apply G]. intros grp p' Hp'. destruct (g_map _ _ _ _ _ G _ _ Hp') as (k & Hk & ?). exists k. split; [by right|done].
  - by left.
  - intros s' R' Hg Hlen' C2 G2 Hsub HR Hin. apply (HQ s' R').
    + split; [done|done|done|]. intros k grp [->|Hk]%elem_of_cons Hgrp; [auto|]. eapply in_group_mono; [exact Hsub|exact HR|auto].
    + rewrite Hlen'. apply grow_length. lia.
Qed.
(** The nodes in the order of their ids. *)
Definition ascending (b : Z) (ids : list Z) : Prop := StronglySorted Z.lt ids /\ Forall (Z.le b) ids.
Lemma wp_add_nodes g a ps : forall ids b D R s (Q : Status -> State -> Prop), rep g a -> a_next_node a < 2 ^ 31 -> ready g a D R s -> zlength (members_ s) <= b -> located g ps ids -> ascending b ids ->
  (forall st s', ok st = false -> graph_ s' = g -> infeasible a -> Q st s') ->
  (forall s' D' R', ready g a D' R' s' -> (forall i, i ∈ D' <-> (i ∈ D) \/ (i ∈ ids) /\ 1 < i) -> Q OK s') -> wp (add_nodes device_set_ allow_soft_placement ps) s Q.
Proof.
  induction ps as [|p ps IH]; intros ids b D R s Q H Hnext Rd Hlen Hloc Hasc Hbad HQ; cbn [add_nodes].
  { apply Forall2_nil_inv_l in Hloc as ->. wp_step. apply (HQ s D R); [done|]. intros i. rewrite elem_of_nil. tauto. }
  apply Forall2_cons_inv_l in Hloc as (i & ids' & Hp & Hloc & ->). destruct Hasc as [[Hs Hlt]%StronglySorted_inv [Hb _]%Forall_cons]. pose proof (rd_graph _ _ _ _ _ Rd) as Hg.
  assert (Hasc : ascending (i + 1) ids') by (split; [done|]; eapply Forall_impl; [exact Hlt|]; cbn; lia).
  destruct (rep_node_at addr _ _ _ _ H Hp) as (n & v & N). wp_step. eapply wp_read_graph; [rewrite Hg; apply N|]. unfold IsOp. rewrite (n_id _ _ _ _ _ _ N). destruct (Z.ltb_spec 1 i) as [Hi|Hi]; cbn [negb].
  - wp_step. eapply (wp_add_node g a D R i); try done; [lia| |].
    + intros st s' Hst Hs' Hinf. rewrite Hst. cbn [negb]. wp_step. eapply wp_read_graph; [rewrite Hs'; eapply node_at_def, N|]. wp_step. apply Hbad; [by apply registry_attach|done|done].
    + intros s' R' Rd' Hl'. change (ok OK) with true. cbn [negb]. eapply (IH ids' (i + 1)); try done; [lia|]. intros s2 D2 R2 Rd2 HD. apply (HQ s2 D2 R2 Rd2). intros j. rewrite HD, !elem_of_cons. split; [intros [[->|?]|?]; tauto|intros [?|[[->|?] ?]]; tauto].
  - eapply (IH ids' (i + 1)); try done; [lia|]. intros s2 D2 R2 Rd2 HD. apply (HQ s2 D2 R2 Rd2). intros j. rewrite HD, elem_of_cons. split; [intros [?|[? ?]]; tauto|intros [?|[[->|?] ?]]; [tauto|lia|tauto]].
Qed.
(** ** Step 2 *)

Lemma classes_set_name a D R l r m nm : ~ strict allow_soft_placement a -> classes a D R l -> l !!z r = Some m -> classes a D R (zinsert l r (with_name nm m)).
Proof.
  intros Hns C Hm. pose proof (zinsert_lookup l r m (with_name nm m)) as Hl. specialize (fun j => Hl j Hm) as Hl'. clear Hl.
  pose proof (shape_zinsert l r m (with_name nm m) Hm eq_refl eq_refl) as Hs. pose proof (shape_roots _ _ Hs) as Hr.
  assert (Hdata : forall j mj, zinsert l r (with_name nm m) !!z j = Some mj -> exists m0, l !!z j = Some m0 /\ supported_device_types mj = supported_device_types m0 /\ ids_in_group mj = ids_in_group m0 /\ possible_devices mj = possible_devices m0).
  { intros j mj. rewrite Hl'. case_decide; [subst j; intros [= <-]; by exists m|]. intros Hj. by exists mj. }
  split; try by apply C.
  - eapply shape_forest; [exact Hs|apply C].
  - rewrite zinsert_length. apply C.
  - intros i. rewrite (i_dom _ _ _ _ _ _ C). split; intros [k Hk]; exists k; by apply Hr.
  - intros i j k. rewrite !Hr. apply C.
  - intros k mk Hk Hmk. apply Hr in Hk. destruct (Hdata _ _ Hmk) as (m0 & Hm0 & Ht & _). pose proof (i_roots _ _ _ _ _ _ C k m0 Hk Hm0) as [T1 T2 _]. split; [|by rewrite Ht|by intros ?].
    intros t. rewrite Ht, T1. split; intros H i Hi; by apply H, Hr.
  - intros j mj i Hj. destruct (Hdata _ _ Hj) as (m0 & Hm0 & _ & -> & _). by apply (i_ids _ _ _ _ _ _ C _ _ _ Hm0).
  - intros j mj Hj. destruct (Hdata _ _ Hj) as (m0 & Hm0 & _ & _ & ->). by apply (i_cache _ _ _ _ _ _ C _ _ Hm0).
Qed.
Lemma wp_root_of_node {B} a D R s i p (k : Z -> ST State B) (Q : B -> State -> Prop) : rep (graph_ s) a -> classes a D R (members_ s) -> i ∈ D -> at_ (nodes_ (graph_ s)) i = Some p ->
  (forall r m l', zlength l' = zlength (members_ s) -> classes a D R l' -> root_of (up l') i r -> l' !!z r = Some m -> wp (k r) (set_members l' s) Q) ->
  wp (let! n := on_graph (node_of p) in let! r := FindRoot (id_ n) in k r) s Q.
Proof.
  intros H C Hi Hp HQ. destruct (rep_node_at addr _ _ _ _ H Hp) as (n & v & N). wp_step. eapply wp_read_graph; [apply N|]. rewrite (n_id _ _ _ _ _ _ N).
  destruct (classes_root _ _ _ _ _ _ _ C Hi) as (r & m & Hr & Hrr & Hm & _). wp_step. eapply wp_FindRoot; [apply C|exact Hr|]. intros l' Hc. apply (HQ r m).
  - apply Hc.
  - by eapply classes_compressed.
  - apply Hc. exact Hr.
  - by eapply compressed_root.
Qed.
Lemma wp_DeviceForNode a D R s i p (Q : DeviceNames.ParsedName -> State -> Prop) : rep (graph_ s) a -> classes a D R (members_ s) -> i ∈ D -> at_ (nodes_ (graph_ s)) i = Some p ->
  (forall nm l', zlength l' = zlength (members_ s) -> classes a D R l' -> Q nm (set_members l' s)) -> wp (DeviceForNode p) s Q.
Proof. intros H C Hi Hp HQ. unfold DeviceForNode. eapply wp_root_of_node; try done. intros r m l' Hlen C' Hr Hm. wp_step. eapply wp_member_of; [exact Hm|]. wp_step. by apply HQ. Qed.
Lemma wp_SetDeviceForNode a D R s i p nm (Q : unit -> State -> Prop) : rep (graph_ s) a -> ~ strict allow_soft_placement a -> classes a D R (members_ s) -> i ∈ D -> at_ (nodes_ (graph_ s)) i = Some p ->
  (forall l', zlength l' = zlength (members_ s) -> classes a D R l' -> Q tt (set_members l' s)) -> wp (SetDeviceForNode p nm) s Q.
Proof.
  intros H Hns C Hi Hp HQ. unfold SetDeviceForNode. eapply wp_root_of_node; try done. intros r m l' Hlen C' Hr Hm. eapply wp_update_member; [exact Hm|]. apply HQ; [by rewrite zinsert_length|by apply classes_set_name].
Qed.
Lemma wp_reference_edge a D R s k i q p (Q : Status -> State -> Prop) : rep (graph_ s) a -> a_next_node a < 2 ^ 31 -> bound a k i -> classes a D R (members_ s) -> k ∈ D -> i ∈ D ->
  at_ (nodes_ (graph_ s)) k = Some q -> at_ (nodes_ (graph_ s)) i = Some p ->
  (forall st l', ok st = false -> Q st (set_members l' s)) -> (forall l', zlength l' = zlength (members_ s) -> classes a D (also R k i) l' -> Q OK (set_members l' s)) ->
  wp (reference_edge allow_soft_placement p q) s Q.
Proof.
  intros H Hnext Hb C Hk Hi Hq Hp Hbad HQ. assert (Hns : ~ strict allow_soft_placement a) by (intros [_ Hn]; by apply (Hn k i)).
  unfold reference_edge. wp_step. eapply wp_DeviceForNode; [exact H|exact C|exact Hk|exact Hq|]. intros nk l1 Hl1 C1. wp_step. eapply wp_DeviceForNode; [exact H|exact C1|exact Hi|exact Hp|]. intros ni l2 Hl2 C2. change (set_members l2 (set_members l1 s)) with (set_members l2 s).
  cbn [members_ set_members] in Hl2. assert (Hl2' : zlength l2 = zlength (members_ s)) by congruence. clear C1 Hl1 Hl2 l1.
  wp_step. assert (Hmid : forall l3, zlength l3 = zlength (members_ s) -> classes a D R l3 ->
    wp (let! s0 := ColocateNodes allow_soft_placement q p in if negb (ok s0) then let! d := on_graph (def p) in
      st_ret (AttachDef (InvalidArgument (bytes_of "Nodes were connected by a reference connection (requiring them to be on the same device), but the two nodes were assigned two different devices: " ++ error_message s0)) d) else st_ret OK) (set_members l3 s) Q).
  { intros l3 Hl3 C3. wp_step. eapply (wp_ColocateNodes addr device_set_ allow_soft_placement a D R _ k i q p); try done.
    - intros st l' Hst _. rewrite Hst. cbn [negb]. destruct (rep_node_at addr _ _ _ _ H Hp) as (n & v & N). wp_step. eapply wp_read_graph; [eapply node_at_def, N|]. wp_step. apply Hbad. by apply registry_attach.
    - intros l' Hl' C'. change (ok OK) with true. cbn [negb]. wp_step. apply HQ; [|done]. cbn [members_ set_members] in Hl'. congruence. }
  assert (Hset : forall j pj nm, j ∈ D -> at_ (nodes_ (graph_ s)) j = Some pj -> wp (SetDeviceForNode pj nm) (set_members l2 s) (fun _ s' => exists l3, s' = set_members l3 s /\ zlength l3 = zlength (members_ s) /\ classes a D R l3)).
  { intros j pj nm Hj Hpj. eapply wp_SetDeviceForNode; [exact H|done|exact C2|exact Hj|exact Hpj|]. intros l' Hl' C'. exists l'. split; [done|]. split; [|done]. cbn [members_ set_members] in Hl'. congruence. }
  assert (Hset' : forall j pj nm, j ∈ D -> at_ (nodes_ (graph_ s)) j = Some pj -> wp (SetDeviceForNode pj nm) (set_members l2 s) (fun _ s' => wp (let! s0 := ColocateNodes allow_soft_placement q p in if negb (ok s0) then let! d := on_graph (def p) in
      st_ret (AttachDef (InvalidArgument (bytes_of "Nodes were connected by a reference connection (requiring them to be on the same device), but the two nodes were assigned two different devices: " ++ error_message s0)) d) else st_ret OK) s' Q)).
  { intros j pj nm Hj Hpj. eapply wp_mono; [by eapply Hset|]. intros _ s' (l3 & -> & Hl3 & C3). by apply Hmid. }
  destruct (_ && _); [|wp_step; by apply Hmid]. destruct (negb _); [by apply (Hset' i)|]. destruct (_ && _); [by apply (Hset' k)|by apply (Hset' i)].
Qed.
Record linking g a (D : list Z) (R : Z -> Z -> Prop) s : Prop := mkLinking {
  lk_graph : graph_ s = g;
  lk_classes : classes a D R (members_ s);
  lk_sound : forall i j, R i j -> together a i j
}.
(** The edge with an address, in its abstract form. *)
Definition edge_at g a (q : Z) (e : AEdge) : Prop := exists j, at_ (edges_ g) j = Some q /\ a_edges a !! j = Some e.
Lemma edge_at_read g a q e : rep g a -> edge_at g a q e -> exists src d k, edge_of q g = Done (mkEdge src d k (e_out e) (e_in e), g) /\ at_ (nodes_ g) (e_src e) = Some src /\ at_ (nodes_ g) (e_dst e) = Some d.
Proof.
  intros H (j & Hq & He). destruct (rep_live_edge addr H _ _ Hq) as (e' & He' & s & d & Hh & Hs & Hd). assert (e' = e) as -> by congruence. exists s, d, j. split; [unfold edge_of; by rewrite Hh|done].
Qed.
Lemma in_edge_at g a p i n v q : node_at g a p i n v -> q ∈ EdgeSet.elements (in_edges_ n) -> exists e, edge_at g a q e /\ e_dst e = i.
Proof. intros N Hq. apply (n_in _ _ _ _ _ _ N) in Hq as (j & e & Hj & He & Hd). exists e. split; [by exists j|done]. Qed.
Definition binding_type (ty : Z) : bool := IsRefType ty || (ty =? DT_RESOURCE).
Lemma binding_iff a e : binding a e <-> e_out e <> kControlSlot /\ 1 < e_dst e /\ exists ty, in_type a e = Some ty /\ binding_type ty = true.
Proof. unfold binding, binding_type. split; intros (H1 & H2 & ty & H3 & H4); (split; [done|]); (split; [done|]); exists ty; (split; [done|]); [apply orb_true_iff; destruct H4 as [?| ->]; [by left|by right]|apply orb_true_iff in H4 as [?|?%Z.eqb_eq]; auto]. Qed.
Lemma wp_constrain_edges g a D i p n v es : forall R s (Q : Status -> State -> Prop), rep g a -> placeable a -> linking g a D R s -> node_at g a p i n v -> 1 < i ->
  (forall k, is_op a k -> k ∈ D) -> (forall q, q ∈ es -> q ∈ EdgeSet.elements (in_edges_ n)) ->
  (forall st s', ok st = false -> graph_ s' = g -> infeasible a -> Q st s') ->
  (forall s' (R' : Z -> Z -> Prop), linking g a D R' s' -> (forall x y, R x y -> R' x y) -> (forall q e, q ∈ es -> edge_at g a q e -> binding a e -> R' (e_src e) i) -> Q OK s') ->
  wp (constrain_edges allow_soft_placement p es) s Q.
Proof.
  induction es as [|q es IH]; intros R s Q H Pl Lk N Hi Hops Hes Hbad HQ; cbn [constrain_edges].
  { wp_step. apply (HQ s R); try done. by intros ? ? ?%elem_of_nil. }
  pose proof Lk as [<- C Hsound]. destruct (in_edge_at _ _ _ _ _ _ q N) as (e & He & Hd); [apply Hes; by left|]. destruct (edge_at_read _ _ _ _ H He) as (src & dst & k & Hread & Hsrc & Hdst).
  assert (Hrest : forall (R1 : Z -> Z -> Prop) s1, linking (graph_ s) a D R1 s1 -> (forall x y, R x y -> R1 x y) -> (binding a e -> R1 (e_src e) i) -> wp (constrain_edges allow_soft_placement p es) s1 Q).
  { intros R1 s1 Lk1 HR1 Hb1. apply (IH R1); try done; [intros q' Hq'; apply Hes; by right|]. intros s' R' Lk' HR' Hin. apply (HQ s' R' Lk'); [auto|]. intros q' e' [->|Hq']%elem_of_cons He' Hb'; [|by eapply Hin].
    destruct He as (j & Hj & Hej), He' as (j' & Hj' & Hej'). assert (j = j') as <- by (by eapply (live_edge_inj addr H)). assert (e' = e) as -> by congruence. auto. }
  wp_step. eapply wp_read_graph; [exact Hread|]. unfold IsControlEdge. cbn [src_output_ dst_input_ src_]. destruct (Z.eqb_spec (e_out e) kControlSlot) as [Hc|Hc].
  { apply (Hrest R); try done. intros [? _]. done. }
  wp_step. eapply wp_read_graph; [eapply node_at_inputs, N|]. destruct He as (j & Hj & Hej). destruct (pl_typed _ Pl j e Hej ltac:(lia) Hc) as [Hs1 [ty Hty]].
  assert (Hin : input_types_ (a_props v) !!z e_in e = Some ty) by (unfold in_type, of_node in Hty; by rewrite Hd, (n_live _ _ _ _ _ _ N) in Hty). wp_step. wp_step; [exact Hin|].
  fold (binding_type ty). destruct (binding_type ty) eqn:Eb.
  - assert (Hbind : binding a e) by (apply binding_iff; split; [done|]; split; [lia|by exists ty]).
    assert (HkD : e_src e ∈ D) by (apply Hops; split; [done|]; apply (edge_ends addr H _ _ Hej)). assert (HiD : i ∈ D) by (apply Hops; split; [done|]; rewrite (n_live _ _ _ _ _ _ N); by eexists).
    assert (Hbound : bound a (e_src e) i) by (by exists j, e).
    wp_step. eapply (wp_reference_edge a D R s (e_src e) i); try done; [apply Pl|apply N| |].
    + intros st l' Hst. rewrite Hst. cbn [negb]. wp_step. apply Hbad; [done|done|]. intros [_ Hn]. by apply Hn in Hbound.
    + intros l' _ C'. change (ok OK) with true. cbn [negb]. apply (Hrest (also R (e_src e) i)); [|by left|by right]. split; [done|done|]. intros x y [Hxy|[-> ->]]; [auto|]. apply rtsc_lr. by right.
  - apply (Hrest R); try done. intros (_ & _ & ty' & Hty' & Hb')%binding_iff. congruence.
Qed.
Lemma wp_constrain_nodes g a D ps : forall ids R s (Q : Status -> State -> Prop), rep g a -> placeable a -> linking g a D R s -> located g ps ids -> (forall k, is_op a k -> k ∈ D) ->
  (forall st s', ok st = false -> graph_ s' = g -> infeasible a -> Q st s') ->
  (forall s' (R' : Z -> Z -> Prop), linking g a D R' s' -> (forall x y, R x y -> R' x y) -> (forall j e, a_edges a !! j = Some e -> e_dst e ∈ ids -> binding a e -> R' (e_src e) (e_dst e)) -> Q OK s') ->
  wp (constrain_nodes allow_soft_placement ps) s Q.
Proof.
  induction ps as [|p ps IH]; intros ids R s Q H Pl Lk Hloc Hops Hbad HQ; cbn [constrain_nodes].
  { apply Forall2_nil_inv_l in Hloc as ->. wp_step. apply (HQ s R); try done. by intros ? ? ? ?%elem_of_nil. }
  apply Forall2_cons_inv_l in Hloc as (i & ids' & Hp & Hloc & ->). pose proof (lk_graph _ _ _ _ _ Lk) as Hg. destruct (rep_node_at addr _ _ _ _ H Hp) as (n & v & N).
  assert (Hrest : forall (R1 : Z -> Z -> Prop) s1, linking g a D R1 s1 -> (forall x y, R x y -> R1 x y) -> (forall j e, a_edges a !! j = Some e -> e_dst e = i -> binding a e -> R1 (e_src e) i) -> wp (constrain_nodes allow_soft_placement ps) s1 Q).
  { intros R1 s1 Lk1 HR1 Hb1. apply (IH ids' R1); try done. intros s' R' Lk' HR' Hin. apply (HQ s' R' Lk'); [auto|]. intros j e He [Hd|Hd]%elem_of_cons Hb; [rewrite Hd; apply HR'; by eapply Hb1|by eapply Hin]. }
  wp_step. eapply wp_read_graph; [rewrite Hg; apply N|]. unfold IsOp. rewrite (n_id _ _ _ _ _ _ N). destruct (Z.ltb_spec 1 i) as [Hi|Hi]; cbn [negb].
  - wp_step. eapply (wp_constrain_edges g a D i p n v); try done.
    + intros st s' Hst Hs' Hinf. rewrite Hst. cbn [negb]. wp_step. by apply Hbad.
    + intros s' R' Lk' HR' Hin. change (ok OK) with true. cbn [negb]. apply (Hrest R'); try done. intros j e He Hd Hb. destruct (rep_edge addr H _ _ He) as (q & Hq & _). apply (Hin q e); [|by exists j|done]. apply (n_in _ _ _ _ _ _ N). by exists j, e.
  - apply (Hrest R); try done. intros j e He Hd (_ & Hb & _). lia.
Qed.

(** ** Both steps *)

Lemma ids_ascending a : ascending 0 (ids_of a).
Proof.
  unfold ids_of, ascending. assert (Hs : forall n k, StronglySorted Z.lt (List.filter (fun i => bool_decide (is_Some (a_nodes a !! i))) (seqZ k (Z.of_nat n))) /\ Forall (Z.le k) (List.filter (fun i => bool_decide (is_Some (a_nodes a !! i))) (seqZ k (Z.of_nat n)))).
  { induction n as [|n IH]; intros k; [split; constructor|]. rewrite seqZ_step by lia. cbn [List.filter]. replace (Z.of_nat (S n) - 1) with (Z.of_nat n) by lia. destruct (IH (k + 1)) as [H1 H2].
    assert (H3 : Forall (Z.le k) (List.filter (fun i => bool_decide (is_Some (a_nodes a !! i))) (seqZ (k + 1) (Z.of_nat n)))) by (eapply Forall_impl; [exact H2|]; cbn; lia). case_bool_decide; [|done]. split; constructor; try done; try lia. eapply Forall_impl; [exact H2|]. cbn. lia. }
  destruct (Z.le_gt_cases 0 (a_next_node a)); [|rewrite seqZ_nil by lia; split; constructor]. replace (a_next_node a) with (Z.of_nat (Z.to_nat (a_next_node a))) by lia. apply Hs.
Qed.
Definition ops_of a : list Z := List.filter (fun i => 1 <? i) (ids_of a).
Lemma elem_of_ops g a i : rep g a -> i ∈ ops_of a <-> is_op a i.
Proof. intros H. unfold ops_of. rewrite list_elem_of_In, filter_In, <- list_elem_of_In, (elem_of_ids addr (fun _ => 0) g a i H), Z.ltb_lt. unfold is_op. tauto. Qed.
(** The new relation, on the same nodes. *)
Lemma classes_domain a D D' R l : (forall i, i ∈ D <-> i ∈ D') -> classes a D R l -> classes a D' R l.
Proof.
  intros Hd C. split; try by apply C.
  - intros i. rewrite <- Hd. apply C.
  - intros i j Hij. rewrite <- !Hd. by apply (i_rel _ _ _ _ _ _ C).
  - intros j m i Hj Hi. apply Hd. by eapply (i_ids _ _ _ _ _ _ C).
  - intros i Hi. apply (i_nodes _ _ _ _ _ _ C). by apply Hd.
Qed.
Lemma must_share_ops g a i j : rep g a -> placeable a -> must_share a i j -> is_op a i /\ is_op a j.
Proof.
  intros H Pl [(? & ? & _)|(k & e & He & (Hc & Hd & _) & <- & <-)]; [done|]. destruct (edge_ends addr H _ _ He). destruct (pl_typed _ Pl _ _ He Hd Hc). done.
Qed.
Lemma wp_constraints g a ps s (Q : Status -> State -> Prop) : rep g a -> placeable a -> ps = live_from g 0 -> s = mkState g [] ∅ ->
  (forall st s', ok st = false -> graph_ s' = g -> infeasible a -> Q st s') -> (forall s', graph_ s' = g -> classes a (ops_of a) (must_share a) (members_ s') -> Q OK s') ->
  wp (let! st := add_nodes device_set_ allow_soft_placement ps in if negb (ok st) then st_ret st else constrain_nodes allow_soft_placement ps) s Q.
Proof.
  intros H Pl -> -> Hbad HQ. pose proof (live_from_located addr g a H) as Hloc.
  assert (Hnone : forall j, ([] : list Member) !!z j = None) by (intros j; unfold zlookup; by destruct (j <? 0)). assert (Hn0 : forall i r, ~ root_of (up []) i r) by (intros i r Hr; destruct (member_root _ _ _ Hr) as (m & Hm & _); by rewrite Hnone in Hm).
  assert (Rd : ready g a [] (fun _ _ => False) (mkState g [] ∅)).
  { split; [done| | |by intros ? ? ?%elem_of_nil].
    - split; cbn [members_]; try done; try (intros *; rewrite Hnone; done).
      + split; intros i m; by rewrite Hnone.
      + pose proof (r_len_n _ _ _ _ H). unfold zlength in *. cbn. lia.
      + intros i. rewrite elem_of_nil. split; [done|]. intros [r Hr]. by apply Hn0 in Hr.
      + intros i j r Hr. by apply Hn0 in Hr.
      + by intros i ?%elem_of_nil.
    - split; [|done]. intros grp p. cbn. by rewrite lookup_empty. }
  wp_step. eapply (wp_add_nodes g a _ (ids_of a) 0); try done; [apply Pl|apply ids_ascending| |].
  - intros st s' Hst Hs' Hinf. rewrite Hst. cbn [negb]. wp_step. by apply Hbad.
  - intros s' D R [Hg C G Hcov] HD. change (ok OK) with true. cbn [negb].
    assert (HDops : forall i, i ∈ D <-> i ∈ ops_of a) by (intros i; rewrite HD, elem_of_nil, (elem_of_ops g a i H); unfold is_op; rewrite (elem_of_ids addr (fun _ => 0) g a i H); tauto).
    assert (Hshare : forall i j, share_group a i j -> rtsc R i j).
    { intros i j (Hi & Hj & grp & Hgi & Hgj). apply (elem_of_ops g a _ H), HDops in Hi, Hj. destruct (Hcov i grp Hi Hgi) as (p & k & Hp & Hk & Hik). destruct (Hcov j grp Hj Hgj) as (p' & k' & Hp' & Hk' & Hjk).
      rewrite Hp in Hp'. injection Hp' as <-. rewrite (live_inj addr H _ _ _ Hk Hk') in Hik. etrans; [exact Hik|]. by apply rtsc_sym. }
    eapply (wp_constrain_nodes g a D _ (ids_of a) R); try done; [split; [done|done|apply G]|intros k Hk; by apply HDops, (elem_of_ops g a _ H)|].
    intros s2 R2 [Hg2 C2 Hs2] HR2 Hb2. apply HQ; [done|]. eapply classes_domain; [exact HDops|]. eapply classes_rel; [| |exact C2].
    + intros i j. split; [apply rtsc_mono; by apply Hs2|]. apply rtsc_mono. intros x y [Hxy|(k & e & He & Hb & <- & <-)]; [eapply rtsc_mono; [|by apply Hshare]; intros; apply rtsc_lr; auto|]. apply rtsc_lr. eapply Hb2; [exact He| |exact Hb].
      apply (elem_of_ids addr (fun _ => 0) g a _ H). apply (edge_ends addr H _ _ He).
    + intros i j Hij. rewrite !HDops, !(elem_of_ops g a _ H). by eapply must_share_ops.
Qed.
End Constraints.
End PlacerConstraints.
