(* ===== verification/PlacerAssign.v ===== *)
(** * The placer: assigning devices

    Steps 3 and 4 of [SimplePlacer::Run] and [GetDevicesForNode]
    ([common_runtime/simple_placer.cc]): a node gets the first of the devices of
    its class, or the device of a neighbour. *)
From S2P Require Import Prelude Status Numbers StringPiece DataTypes EdgeSet Graph GraphFacts GraphOps GraphPasses DeviceNames DeviceNamesFacts Kernels Placer PlacerForest PlacerSpec PlacerConstraints.
From stdpp Require Import gmap relations sorting.
Open Scope Z_scope.

Module PlacerAssign.
Import Status Numbers DataTypes Graph GraphSpec GraphFacts GraphOps GraphPasses Kernels Placer PlacerForest PlacerSpec PlacerGroups PlacerConstraints.

(** ** The devices of a class *)

Lemma matching_spec spec l : Forall (fun d => DeviceNames.complete (DeviceSet.parsed_name d) = true) l ->
  exists r, DeviceSet.matching spec l = Some r /\ forall d, d ∈ r <-> d ∈ l /\ DeviceNamesFacts.spec spec (DeviceSet.parsed_name d).
Proof.
  induction 1 as [|d l Hd _ (r & Hr & Hin)]; cbn [DeviceSet.matching]; [exists []; split; [done|]; intros d; rewrite elem_of_nil; tauto|].
  rewrite (DeviceNamesFacts.spec_complete _ _ Hd), Hr. eexists. split; [done|]. intros x. rewrite elem_of_cons.
  destruct (DeviceNames.IsSpecification spec (DeviceSet.parsed_name d)) eqn:E.
  - apply DeviceNamesFacts.IsSpecification_iff in E. rewrite elem_of_cons, Hin. split; [intros [->|[? ?]]; auto|intros [[->|?] ?]; auto].
  - rewrite Hin. split; [intros [? ?]; auto|]. intros [[->|?] Hs]; [|done]. apply DeviceNamesFacts.IsSpecification_iff in Hs. congruence.
Qed.
Lemma elem_of_supported d devices types : d ∈ FilterSupportedDevices devices types <-> d ∈ devices /\ DeviceSet.device_type d ∈ types.
Proof.
  unfold FilterSupportedDevices. rewrite (merge_sort_Permutation device_sort). rewrite list_elem_of_In, in_concat. split.
  - intros (l & (t & <- & Ht)%in_map_iff & Hd). apply filter_In in Hd as [Hd He%bool_decide_eq_true]. subst t. split; by apply list_elem_of_In.
  - intros [Hd Ht]. eexists. split; [apply in_map_iff; exists (DeviceSet.device_type d); split; [done|by apply list_elem_of_In]|]. apply filter_In. split; [by apply list_elem_of_In|]. by apply bool_decide_eq_true.
Qed.
(** The devices for a name and types, as [GetDevicesForNode] finds them. *)
Definition candidates (s : DeviceSet.DeviceSet) (soft : bool) (nm : DeviceNames.ParsedName) (types : list (list Z)) : option (list DeviceSet.Device) :=
  if DeviceNames.HasSomeDetails nm then explicit_devices s soft nm types else Some (FilterSupportedDevices (DeviceSet.devices_ s) types).
Lemma no_details nm n : DeviceNames.HasSomeDetails nm = false -> DeviceNamesFacts.spec nm n.
Proof. unfold DeviceNames.HasSomeDetails. rewrite !orb_false_iff. intros ((((H1 & H2) & H3) & H4) & H5). unfold DeviceNamesFacts.spec. rewrite H1, H2, H3, H4, H5. by split_and!. Qed.
Lemma find_and_filter_spec s nm types : Forall (fun d => DeviceNames.complete (DeviceSet.parsed_name d) = true) (DeviceSet.devices_ s) ->
  exists r, find_and_filter s nm types = Some r /\ forall d, d ∈ r <-> d ∈ DeviceSet.devices_ s /\ DeviceNamesFacts.spec nm (DeviceSet.parsed_name d) /\ DeviceSet.device_type d ∈ types.
Proof.
  intros Hc. unfold find_and_filter, DeviceSet.FindMatchingDevices. destruct (matching_spec nm _ Hc) as (r & -> & Hin). case_bool_decide as Hr.
  - exists r. split; [done|]. intros d. subst r. specialize (Hin d). rewrite elem_of_nil in *. tauto.
  - eexists. split; [done|]. intros d. rewrite elem_of_supported, Hin. tauto.
Qed.
Lemma candidates_spec s soft nm types : Forall (fun d => DeviceNames.complete (DeviceSet.parsed_name d) = true) (DeviceSet.devices_ s) ->
  exists r, candidates s soft nm types = Some r /\ (forall d, d ∈ r -> d ∈ DeviceSet.devices_ s /\ DeviceSet.device_type d ∈ types) /\
    (soft = false -> forall d, d ∈ r <-> d ∈ DeviceSet.devices_ s /\ DeviceNamesFacts.spec nm (DeviceSet.parsed_name d) /\ DeviceSet.device_type d ∈ types).
Proof.
  intros Hc. unfold candidates. destruct (DeviceNames.HasSomeDetails nm) eqn:Ed.
  - unfold explicit_devices. destruct (find_and_filter_spec s nm types Hc) as (r & -> & Hr). destruct (find_and_filter_spec s (soft_device_name nm) types Hc) as (r' & Hr'1 & Hr').
    destruct (bool_decide (r = []) && soft) eqn:Eb.
    + rewrite Hr'1. apply andb_prop in Eb as [_ ->]. exists r'. split; [done|]. split; [|done]. intros d Hd. apply Hr' in Hd. tauto.
    + exists r. split; [done|]. split; [|by intros _]. intros d Hd. apply Hr in Hd. tauto.
  - eexists. split; [done|]. split; [intros d; by rewrite elem_of_supported|]. intros _ d. rewrite elem_of_supported. pose proof (no_details nm (DeviceSet.parsed_name d) Ed). tauto.
Qed.
(** A set of devices by their names. *)
Lemma device_set_of_spec l : NoDup (map DeviceSet.name l) ->
  DeviceSet.devices_ (device_set_of l) = l /\ forall nm d, DeviceSet.FindDeviceByName (device_set_of l) nm = Some d <-> d ∈ l /\ DeviceSet.name d = nm.
Proof.
  unfold device_set_of. induction l as [|d l IH] using rev_ind; [intros _; split; [done|]; intros nm d; cbn; unfold DeviceSet.FindDeviceByName; cbn; rewrite lookup_empty, elem_of_nil; split; [done|by intros [? _]]|].
  rewrite map_app. intros (Hnd & Hdisj & _)%NoDup_app. destruct (IH Hnd) as [Hdev Hfind]. rewrite fold_left_app. cbn [fold_left]. set (s := fold_left _ l _) in *. cbn [DeviceSet.AddDevice DeviceSet.devices_ DeviceSet.device_by_name_]. rewrite Hdev. split; [done|].
  assert (Hno : DeviceSet.device_by_name_ s !! DeviceSet.name d = None).
  { apply eq_None_not_Some. intros [d' [Hd' Hn]%Hfind]. apply (Hdisj (DeviceSet.name d)); [|by left]. rewrite <- Hn. apply list_elem_of_In, in_map. by apply list_elem_of_In. }
  intros nm d'. unfold DeviceSet.FindDeviceByName in *. cbn. rewrite Hno, lookup_insert_Some, Hfind, elem_of_app, list_elem_of_singleton. split.
  - intros [[<- <-]|[_ [? ?]]]; auto.
  - intros [[Hd'| ->] <-]; [|by left]. right. split; [|done]. intros Hn. apply (Hdisj (DeviceSet.name d)); [|by left]. rewrite Hn. apply list_elem_of_In, in_map. by apply list_elem_of_In.
Qed.
(** Distinct parsed names are of distinct names. *)
Lemma device_parsed l d : devices_ok l -> d ∈ l -> DeviceNames.ParseFullName (DeviceSet.name d) = Some (true, DeviceSet.parsed_name d) /\ DeviceNames.complete (DeviceSet.parsed_name d) = true.
Proof.
  intros Hdev Hd. destruct (proj1 (Forall_forall _ _) (proj2 Hdev) d Hd) as [Hnew Hc]. split; [|done]. unfold DeviceSet.new_Device in Hnew. destruct (DeviceNames.ParseFullName (DeviceSet.name d)) as [[[] n]|]; [|done|done].
  injection Hnew as Hnew. by rewrite <- Hnew.
Qed.
Lemma device_names_distinct l : devices_ok l -> NoDup (map DeviceSet.name l).
Proof.
  intros Hdev. pose proof (fun d => device_parsed l d Hdev) as Hp. destruct Hdev as [Hnd _]. induction l as [|d l IH]; cbn in *; [constructor|]. apply NoDup_cons in Hnd as [Hni Hnd]. constructor; [|apply IH; [done|intros x Hx; apply Hp; by right]].
  intros (x & Hn & Hx)%list_elem_of_In%in_map_iff. apply list_elem_of_In in Hx. apply Hni. destruct (Hp d) as [H1 _]; [by left|]. destruct (Hp x) as [H2 _]; [by right|]. rewrite Hn, H1 in H2. injection H2 as ->. apply list_elem_of_In, in_map. by apply list_elem_of_In.
Qed.
Lemma device_parsed_inj l d d' : devices_ok l -> d ∈ l -> d' ∈ l -> DeviceSet.parsed_name d = DeviceSet.parsed_name d' -> d = d'.
Proof.
  intros [Hnd _]. induction l as [|x l IH]; [by intros ?%elem_of_nil|]. cbn in Hnd. apply NoDup_cons in Hnd as [Hni Hnd]. assert (Hin : forall y, y ∈ l -> DeviceSet.parsed_name y ∈ map DeviceSet.parsed_name l) by (intros y Hy; apply list_elem_of_In, in_map; by apply list_elem_of_In).
  intros [->|Hd]%elem_of_cons [->|Hd']%elem_of_cons He; [done|destruct Hni; rewrite He; auto|destruct Hni; rewrite <- He; auto|auto].
Qed.

Section Assign.
Context {OpDef AttrValue : Type} {registry : OpRegistryInterface OpDef AttrValue} {kernels : KernelRegistry AttrValue}.
Context {laws : OpRegistryLaws OpDef AttrValue registry}.
Context (addr : nat -> Z) {Haddr : addresses addr} (devices : list DeviceSet.Device) (allow_soft_placement : bool) (Hdev : devices_ok devices).
Abbreviation Graph := (Graph OpDef AttrValue).
Abbreviation AGraph := (AGraph OpDef AttrValue).
Abbreviation ANode := (ANode OpDef AttrValue).
Abbreviation State := (State OpDef AttrValue).
Abbreviation rep := (rep addr).
Abbreviation device_set_ := (device_set_of devices).
Abbreviation classes := (classes device_set_ allow_soft_placement).
Implicit Types (a : AGraph) (s : State) (l : list Member) (g : Graph).

Lemma all_complete : Forall (fun d => DeviceNames.complete (DeviceSet.parsed_name d) = true) (DeviceSet.devices_ device_set_).
Proof. rewrite (proj1 (device_set_of_spec devices (device_names_distinct _ Hdev))). eapply Forall_impl; [exact (proj2 Hdev)|]. by intros d [_ ?]. Qed.
Lemma device_named d : d ∈ devices -> DeviceSet.name d <> [].
Proof.
  intros Hd Hn. destruct (device_parsed _ _ Hdev Hd) as [Hp Hc]. rewrite Hn in Hp. change (DeviceNames.ParseFullName []) with (Some (true, DeviceNames.Clear)) in Hp. injection Hp as Hp. by rewrite <- Hp in Hc.
Qed.
Lemma find_device nm d : DeviceSet.FindDeviceByName device_set_ nm = Some d <-> d ∈ devices /\ DeviceSet.name d = nm.
Proof. by apply device_set_of_spec, device_names_distinct. Qed.
Lemma devices_eq : DeviceSet.devices_ device_set_ = devices.
Proof. by apply device_set_of_spec, device_names_distinct. Qed.

(** From here on the classes are fixed: [l0] has the members after step 2. *)
Context (a0 : AGraph) (D : list Z) (l0 : list Member) (C0 : classes a0 D (must_share a0) l0) (Pl : placeable a0) (HD : forall i, i ∈ D <-> is_op a0 i).

Abbreviation infeasible := (infeasible device_set_ allow_soft_placement).
Definition member_devices (m : Member) : option (list DeviceSet.Device) := candidates device_set_ allow_soft_placement (device_name m) (supported_device_types m).
Definition class_devices (i : Z) (ds : list DeviceSet.Device) : Prop := exists r m, root_of (up l0) i r /\ l0 !!z r = Some m /\ member_devices m = Some ds.
Lemma class_devices_det i ds ds' : class_devices i ds -> class_devices i ds' -> ds = ds'.
Proof. intros (r & m & Hr & Hm & Hd) (r' & m' & Hr' & Hm' & Hd'). pose proof (root_det _ _ _ _ Hr Hr') as <-. congruence. Qed.
(** [FindRoot] compresses the paths, and a root may hold its devices. *)
Record cached l : Prop := mkCached {
  ch_len : zlength l = zlength l0;
  ch_data : forall j m0, l0 !!z j = Some m0 -> exists p x, l !!z j = Some (with_possible x (with_parent p m0)) /\ (x = [] \/ member_devices m0 = Some x);
  ch_forest : forest l;
  ch_roots : forall j r, root_of (up l) j r <-> root_of (up l0) j r
}.
Lemma cached_start : cached l0.
Proof. split; [done| |apply C0|done]. intros j m0 Hm. exists (parent m0), []. split; [|by left]. rewrite Hm, with_parent_id. f_equal. pose proof (i_cache _ _ _ _ _ _ C0 _ _ Hm) as Hc. destruct m0. cbn in *. by subst. Qed.
Lemma cached_compressed l l' : cached l -> compressed l l' -> cached l'.
Proof.
  intros [H1 H2 H3 H4] (K1 & K2 & _ & K4 & K5). split; [congruence| |done|intros j r; by rewrite K5].
  intros j m0 Hm. destruct (H2 j m0 Hm) as (p & x & Hj & Hx). destruct (K2 _ _ Hj) as (p' & Hj'). exists p', x. split; [exact Hj'|done].
Qed.
Lemma cached_write l r m0 m ds : cached l -> l0 !!z r = Some m0 -> l !!z r = Some m -> member_devices m0 = Some ds -> cached (zinsert l r (with_possible ds m)).
Proof.
  intros [H1 H2 H3 H4] Hm0 Hm Hds. pose proof (shape_zinsert l r m (with_possible ds m) Hm eq_refl eq_refl) as Hs. split; [by rewrite zinsert_length| |by eapply shape_forest|].
  - intros j mj Hj. rewrite (zinsert_lookup _ _ _ _ _ Hm). destruct (H2 j mj Hj) as (p & x & Hjl & Hx). case_decide as He; [|by exists p, x]. subst j. rewrite Hm0 in Hj. injection Hj as <-. rewrite Hm in Hjl. injection Hjl as ->. exists p, ds. split; [done|by right].
  - intros j k. rewrite <- H4. by apply shape_roots.
Qed.
Lemma explicit_unsatisfied d m dbg : exists st, unsatisfied (AttrValue := AttrValue) device_set_ d m dbg = Some st /\ ok st = false.
Proof.
  unfold unsatisfied. destruct (parse_total (def_device d)) as (b & n & ->). destruct (b && _); [|eauto]. unfold DeviceSet.FindMatchingDevices. destruct (matching_spec n _ all_complete) as (r & -> & _). eauto.
Qed.
Lemma wp_GetDevicesForNode a p i n v s (Q : Status * list DeviceSet.Device -> State -> Prop) : node_at (graph_ s) a p i n v -> cached (members_ s) -> i ∈ D -> is_Some (DataTypeSliceString (input_types_ (a_props v))) ->
  (forall st ds l', ok st = false -> cached l' -> infeasible a0 -> Q (st, ds) (set_members l' s)) -> (forall d ds l', class_devices i (d :: ds) -> cached l' -> Q (OK, d :: ds) (set_members l' s)) ->
  wp (GetDevicesForNode device_set_ allow_soft_placement p) s Q.
Proof.
  intros N Hc Hi [txt Htxt] Hbad HQ. unfold GetDevicesForNode. wp_step. eapply wp_read_graph; [apply N|]. rewrite (n_id _ _ _ _ _ _ N).
  destruct (classes_root _ _ _ _ _ _ _ C0 Hi) as (r & m0 & Hr & Hrr & Hm0 & _). wp_step. eapply wp_FindRoot; [apply Hc|by apply (ch_roots _ Hc)|]. intros l1 Hl1. pose proof (cached_compressed _ _ Hc Hl1) as Hc1.
  destruct (ch_data _ Hc1 _ _ Hm0) as (pm & x & Hm & Hx). wp_step. eapply wp_member_of; [exact Hm|]. cbn [with_possible with_parent possible_devices device_name supported_device_types].
  assert (Hids : forall j, j ∈ ids_in_group m0 -> is_Some (l1 !!z j)).
  { intros j Hj. apply (i_ids _ _ _ _ _ _ C0 _ _ _ Hm0) in Hj. apply (i_dom _ _ _ _ _ _ C0) in Hj as [rj Hrj]. destruct (member_root _ _ _ Hrj) as (mj & Hmj & _). apply zlookup_is_Some. rewrite (ch_len _ Hc1). by eapply zlookup_range. }
  assert (Hdbg : forall Q' : list Z -> State -> Prop, (forall t, Q' t (set_members l1 s)) -> wp (AddDebugInfo r) (set_members l1 s) Q') by (intros Q' HQ'; eapply wp_AddDebugInfo; [exact Hm|exact Hids|done]).
  assert (Hcache : forall ds, member_devices m0 = Some ds -> ds <> [] -> wp (cache r ds) (set_members l1 s) Q).
  { intros [|d ds] Hds Hne; [done|]. unfold cache. wp_step. eapply wp_update_member; [exact Hm|]. wp_step. cbn [graph_ members_ colocation_group_root_ set_members].
    change (Q (OK, d :: ds) (set_members (zinsert l1 r (with_possible (d :: ds) (with_possible x (with_parent pm m0)))) s)). apply HQ; [by exists r, m0|]. by eapply cached_write. }
  assert (Hnone : forall ds, member_devices m0 = Some ds -> ds = [] -> infeasible a0).
  { intros ds Hds -> Hst [_ Hf]. destruct (Hf i (proj1 (HD i) Hi)) as (_ & d & Hd & Hall). destruct (candidates_spec device_set_ allow_soft_placement (device_name m0) (supported_device_types m0) all_complete) as (ds' & Hds' & _ & Hiff).
    unfold member_devices in Hds. rewrite Hds in Hds'. injection Hds' as <-. destruct (i_roots _ _ _ _ _ _ C0 r m0 Hrr Hm0) as [T1 _ T3]. assert (Hcl : forall j, root_of (up l0) j r -> together a0 i j) by (intros j; apply (i_class _ _ _ _ _ _ C0 i j r Hr)).
    assert (Hin : d ∈ ([] : list DeviceSet.Device)); [|by apply elem_of_nil in Hin]. apply (Hiff (proj1 Hst)). split; [done|]. split; [apply (T3 Hst)|apply T1]; intros j Hj; by apply Hall, Hcl. }
  case_bool_decide as Hx0; cbn [negb].
  2: { wp_step. destruct Hx as [?|Hx]; [done|]. destruct x as [|d ds]; [done|]. apply HQ; [by exists r, m0|done]. }
  unfold member_devices, candidates in Hcache. destruct (DeviceNames.HasSomeDetails (device_name m0)) eqn:Ed.
  - destruct (candidates_spec device_set_ allow_soft_placement (device_name m0) (supported_device_types m0) all_complete) as (ds & Hds & _). unfold candidates in Hds. rewrite Ed in Hds.
    wp_step. wp_step; [exact Hds|]. case_bool_decide as Hnil; [|by apply Hcache]. wp_step. apply Hdbg. intros t. wp_step. eapply wp_read_graph; [eapply node_at_def, N|].
    destruct (explicit_unsatisfied (def_of v) (with_possible x (with_parent pm m0)) t) as (st & Hst & Hok). wp_step. wp_step; [exact Hst|]. wp_step. apply Hbad; [done|done|]. apply (Hnone ds); [unfold member_devices, candidates; by rewrite Ed|done].
  - case_bool_decide as He; [wp_step; apply Hbad; [done|done|]; by intros _ [? _]|]. case_bool_decide as Hnil; [|by apply Hcache]. wp_step. apply Hdbg. intros t. wp_step. eapply wp_read_graph; [eapply node_at_def, N|]. wp_step. eapply wp_read_graph; [eapply node_at_inputs, N|].
    wp_step. wp_step; [exact Htxt|]. wp_step. apply Hbad; [done|done|]. eapply Hnone; [unfold member_devices, candidates; by rewrite Ed|done].
Qed.
(** ** The two heuristics *)

Lemma metadata_Done g a p i n v : node_at g a p i n v -> exists b, IsMetadataNode p g = Done (b, g) /\ (b = true <-> metadata v).
Proof.
  intros N. unfold IsMetadataNode. rewrite (st_bind_eq _ _ _ _ _ (node_at_def _ _ _ _ _ _ N)). eexists. split; [done|]. unfold metadata, type_of. rewrite !elem_of_cons, elem_of_nil, !orb_true_iff, !bool_decide_eq_true. unfold def_of. tauto.
Qed.
Lemma generator_Done g a p i n v : rep g a -> node_at g a p i n v -> exists b, IsGeneratorNode p g = Done (b, g) /\ (b = true <-> generator a i v).
Proof.
  intros H N. unfold IsGeneratorNode. rewrite (st_bind_eq _ _ _ _ _ (n_node _ _ _ _ _ _ N)), (st_bind_eq _ _ _ _ _ (node_at_inputs _ _ _ _ _ _ N)), (st_bind_eq _ _ _ _ _ (node_at_outputs _ _ _ _ _ _ N)). unfold generator.
  destruct (n_out _ _ _ _ _ _ N) as [Hok Hin]. rewrite (EdgeSet.size_elements _ Hok).
  assert (Hone : (zlength (EdgeSet.elements (out_edges_ n)) =? 1) = true <-> exists k e, a_edges a !! k = Some e /\ e_src e = i /\ forall k' e', a_edges a !! k' = Some e' -> e_src e' = i -> k' = k).
  { rewrite Z.eqb_eq. unfold zlength. split.
    - intros Hl. destruct (EdgeSet.elements (out_edges_ n)) as [|q [|? ?]] eqn:Ee; cbn in Hl; try lia. destruct (proj1 (Hin q)) as (k & e & Hk & He & Hs); [by left|]. exists k, e. split; [done|]. split; [done|]. intros k' e' He' Hs'.
      destruct (rep_edge addr H _ _ He') as (q' & Hq' & _). assert (q' ∈ [q]) as ->%list_elem_of_singleton by (apply Hin; eauto). by eapply (live_edge_inj addr H).
    - intros (k & e & He & Hs & Hu). destruct (rep_edge addr H _ _ He) as (q & Hq & _). destruct (EdgeSet.set_ok_nodup _ Hok) as [Hnd _].
      assert (Hall : forall q', q' ∈ EdgeSet.elements (out_edges_ n) -> q' = q) by (intros q' (k' & e' & Hk' & He' & Hs')%Hin; rewrite (Hu k' e' He' Hs') in Hk'; congruence). assert (Hq1 : q ∈ EdgeSet.elements (out_edges_ n)) by (apply Hin; eauto).
      destruct (EdgeSet.elements (out_edges_ n)) as [|x [|y r]]; [by apply elem_of_nil in Hq1|done|]. exfalso. apply NoDup_cons in Hnd as [Hnd _]. apply Hnd. rewrite (Hall x), <- (Hall y); [by left|right; by left|by left]. }
  destruct (output_types_ (a_props v)) as [|ty [|ty' tys]]; [exists false; split; [done|]; split; [done|]; by intros (_ & (? & ? & _) & _)| |exists false; split; [done|]; split; [done|]; by intros (_ & (? & ? & _) & _)].
  eexists. split; [done|]. rewrite !andb_true_iff, bool_decide_eq_true, negb_true_iff, Hone. split.
  - intros [[H1 H2] H3]. split; [done|]. split; [by exists ty|done].
  - intros (H1 & (ty1 & [= <-] & H3) & H2). done.
Qed.
(** An end of the first of some edges of a node. *)
Lemma first_input_Done g a p i n v : rep g a -> node_at g a p i n v -> (exists k e, a_edges a !! k = Some e /\ e_dst e = i) -> exists j pj, first_input p g = Done (pj, g) /\ at_ (nodes_ g) j = Some pj.
Proof.
  intros H N (k & e & He & Hd). destruct (n_in _ _ _ _ _ _ N) as [_ Hin]. destruct (rep_edge addr H _ _ He) as (q & Hq & _). assert (Hq1 : q ∈ EdgeSet.elements (in_edges_ n)) by (apply Hin; eauto).
  unfold first_input. rewrite (st_bind_eq _ _ _ _ _ (n_node _ _ _ _ _ _ N)). destruct (EdgeSet.elements (in_edges_ n)) as [|q1 qs] eqn:Ee; [by apply elem_of_nil in Hq1|]. cbn [head]. rewrite (st_bind_eq _ _ _ q1 g) by done.
  destruct (proj1 (Hin q1)) as (k1 & e1 & Hk1 & He1 & _); [by left|]. destruct (edge_at_read addr _ _ q1 e1 H) as (src & dst & k2 & Hread & Hs & _); [by exists k1|]. rewrite (st_bind_eq _ _ _ _ _ Hread). by exists (e_src e1), src.
Qed.
Lemma first_output_Done g a p i n v : rep g a -> node_at g a p i n v -> generator a i v -> exists j pj, first_output p g = Done (pj, g) /\ at_ (nodes_ g) j = Some pj.
Proof.
  intros H N (_ & _ & k & e & He & Hd & _). destruct (n_out _ _ _ _ _ _ N) as [_ Hin]. destruct (rep_edge addr H _ _ He) as (q & Hq & _). assert (Hq1 : q ∈ EdgeSet.elements (out_edges_ n)) by (apply Hin; eauto).
  unfold first_output. rewrite (st_bind_eq _ _ _ _ _ (n_node _ _ _ _ _ _ N)). destruct (EdgeSet.elements (out_edges_ n)) as [|q1 qs] eqn:Ee; [by apply elem_of_nil in Hq1|]. cbn [head]. rewrite (st_bind_eq _ _ _ q1 g) by done.
  destruct (proj1 (Hin q1)) as (k1 & e1 & Hk1 & He1 & _); [by left|]. destruct (edge_at_read addr _ _ q1 e1 H) as (src & dst & k2 & Hread & _ & Hs); [by exists k1|]. rewrite (st_bind_eq _ _ _ _ _ Hread). by exists (e_dst e1), dst.
Qed.

(** ** The state of the assignment *)

(** A name for a node that had none: the first device of its class, or the
    device of a neighbour that has the type of a device of the class. *)
Definition fits (i : Z) (v : ANode) (nm : list Z) : Prop :=
  exists d ds, class_devices i (d :: ds) /\
    (nm = DeviceSet.name d \/ (metadata v \/ generator a0 i v) /\ exists other x, DeviceSet.FindDeviceByName device_set_ nm = Some other /\ x ∈ d :: ds /\ DeviceSet.device_type x = DeviceSet.device_type other).
Record placing g0 s a : Prop := mkPlacing {
  ps_rep : rep (graph_ s) a;
  ps_nodes : nodes_ (graph_ s) = nodes_ g0;
  ps_cached : cached (members_ s);
  ps_only : only_devices a0 a;
  ps_fits : forall i v v', a_nodes a0 !! i = Some v -> a_nodes a !! i = Some v' -> a_device v = [] -> 1 < i -> a_device v' = [] \/ fits i v (a_device v')
}.
Lemma only_node a a' i v' : only_devices a a' -> a_nodes a' !! i = Some v' -> exists v, a_nodes a !! i = Some v /\ same_but_device i v v'.
Proof. intros O Hv'. pose proof (od_nodes _ _ O i) as Hn. rewrite Hv' in Hn. inversion Hn; subst. eauto. Qed.
Lemma class_devices_in i ds d : class_devices i ds -> d ∈ ds -> d ∈ devices /\ DeviceSet.device_type d ∈ own_types device_set_ a0 i.
Proof.
  intros (r & m & Hr & Hm & Hds) Hd. destruct (candidates_spec device_set_ allow_soft_placement (device_name m) (supported_device_types m) all_complete) as (ds' & Hds' & Hin & _). unfold member_devices in Hds. rewrite Hds in Hds'. injection Hds' as <-.
  destruct (Hin d Hd) as [H1 H2]. rewrite devices_eq in H1. split; [done|]. by apply (c_types _ _ _ _ _ _ (i_roots _ _ _ _ _ _ C0 r m (root_self _ _ _ Hr) Hm)).
Qed.
Lemma fits_found i v nm : fits i v nm -> exists d, DeviceSet.FindDeviceByName device_set_ nm = Some d /\ nm <> [] /\ DeviceSet.device_type d ∈ own_types device_set_ a0 i.
Proof.
  intros (d & ds & Hc & Hnm). assert (Hne : forall d nm, DeviceSet.FindDeviceByName device_set_ nm = Some d -> nm <> []) by (intros x y [Hx <-]%find_device; by apply device_named).
  destruct Hnm as [->|[_ (other & x & Ho & Hx & Ht)]].
  - destruct (class_devices_in _ _ d Hc) as [Hd Ht]; [by left|]. exists d. assert (Hf : DeviceSet.FindDeviceByName device_set_ (DeviceSet.name d) = Some d) by by apply find_device. split; [done|]. split; [by eapply Hne|done].
  - exists other. split; [done|]. split; [by eapply Hne|]. rewrite <- Ht. by eapply class_devices_in.
Qed.
(** Every name on a node of the graph is one of the set. *)
Lemma placing_found g0 s a j v : placing g0 s a -> a_nodes a !! j = Some v -> a_device v = [] \/ exists d, DeviceSet.FindDeviceByName device_set_ (a_device v) = Some d.
Proof.
  intros P Hv. destruct (only_node _ _ _ _ (ps_only _ _ _ P) Hv) as (v0 & Hv0 & _ & _ & Hsame). destruct (Z.le_gt_cases j 1) as [Hj|Hj].
  { left. rewrite Hsame by auto. by eapply (pl_ends _ Pl). }
  destruct (decide (a_device v0 = [])) as [Hnone|Hsome].
  - destruct (ps_fits _ _ _ P j v0 v Hv0 Hv Hnone Hj) as [?|Hf]; [by left|]. right. destruct (fits_found _ _ _ Hf) as (d & Hd & _). by exists d.
  - right. rewrite Hsame by auto. assert (Hop : is_op a0 j) by (split; [done|rewrite Hv0; by eexists]). apply HD in Hop. destruct (i_nodes _ _ _ _ _ _ C0 j Hop) as [_ Hok]. destruct (Hok v0 Hv0) as (_ & _ & _ & Hdv). destruct (Hdv Hsome) as (d & Hd & _). by exists d.
Qed.
Lemma wp_prefer g0 s a j pj ds nm (Q : list Z -> State -> Prop) : placing g0 s a -> at_ (nodes_ (graph_ s)) j = Some pj ->
  Q nm s -> (forall other x nm', DeviceSet.FindDeviceByName device_set_ nm' = Some other -> x ∈ ds -> DeviceSet.device_type x = DeviceSet.device_type other -> Q nm' s) -> wp (prefer device_set_ pj ds nm) s Q.
Proof.
  intros P Hp HQ HQ'. destruct (rep_node_at addr _ _ _ _ (ps_rep _ _ _ P) Hp) as (n & v & N). unfold prefer. wp_step. eapply wp_read_graph; [apply N|]. rewrite (n_device _ _ _ _ _ _ N). unfold CanAssignToDevice.
  case_bool_decide as He; [wp_step; wp_step; [done|]; by wp_step|]. destruct (placing_found _ _ _ _ _ P (n_live _ _ _ _ _ _ N)) as [?|[other Ho]]; [done|]. rewrite Ho. wp_step. wp_step; [done|]. wp_step. destruct (existsb _ ds) eqn:Ee; [|done].
  apply existsb_exists in Ee as (x & Hx & Ht). apply bool_decide_eq_true in Ht. apply list_elem_of_In in Hx. by eapply HQ'.
Qed.
Lemma wp_change_graph {A} (m : ST Graph A) s (Q : A -> State -> Prop) : wp m (graph_ s) (fun v g => Q v (mkState g (members_ s) (colocation_group_root_ s))) -> wp (on_graph m) s Q.
Proof. unfold wp, on_graph. by destruct (m (graph_ s)) as [[v g]| |]. Qed.
Lemma placing_members g0 s a l : placing g0 s a -> cached l -> placing g0 (set_members l s) a.
Proof. intros [H1 H2 _ H4 H5] Hc. by split. Qed.
(** The node gets its device, and no other changes. *)
Definition with_device (nm : list Z) (v : ANode) : ANode := mkANode (a_props v) (a_cost v) nm.
Lemma wp_AssignAndLog g0 s a i p v nm (Q : unit -> State -> Prop) : placing g0 s a -> at_ (nodes_ (graph_ s)) i = Some p -> a_nodes a0 !! i = Some v -> a_device v = [] -> 1 < i -> fits i v nm ->
  (forall s' a', placing g0 s' a' -> (forall j, has_device a' j <-> j = i \/ has_device a j) -> Q tt s') -> wp (AssignAndLog nm p) s Q.
Proof.
  intros P Hp Hv0 Hnone Hi Hf HQ. destruct (rep_node_at addr _ _ _ _ (ps_rep _ _ _ P) Hp) as (n & v1 & N). pose proof (n_live _ _ _ _ _ _ N) as Hv1.
  unfold AssignAndLog. apply wp_change_graph. eapply (wp_set_device addr _ a i p v1); [apply P|done|done|]. intros g' H' Hn'. fold (with_device nm v1) in H'.
  assert (Hne : nm <> []) by (destruct (fits_found _ _ _ Hf) as (? & _ & ? & _); done).
  apply (HQ _ (put_node i (with_device nm v1) a)).
  - destruct (ps_only _ _ _ P) as [O1 O2 O3 O4 O5]. split; [done|by rewrite <- (ps_nodes _ _ _ P)|apply P| |].
    + split; try done. intros j. cbn. destruct (decide (j = i)) as [->|Hji].
      * rewrite lookup_insert_eq. pose proof (O5 i) as Oi. rewrite Hv0, Hv1 in *. inversion Oi as [x y Hsame|]; subst. constructor. destruct Hsame as (S1 & S2 & S3). split; [done|]. split; [done|]. intros [?|?]; [lia|done].
      * rewrite lookup_insert_ne by done. apply O5.
    + intros j w w' Hw Hw' Hwn Hj. cbn in Hw'. destruct (decide (j = i)) as [->|Hji]; [|rewrite lookup_insert_ne in Hw' by done; by eapply (ps_fits _ _ _ P)].
      rewrite lookup_insert_eq in Hw'. injection Hw' as <-. assert (w = v) as -> by congruence. by right.
  - intros j. unfold has_device. cbn. destruct (decide (j = i)) as [->|Hji].
    + rewrite lookup_insert_eq. split; [by left|]. intros _. by eexists.
    + rewrite lookup_insert_ne by done. split; [by right|]. by intros [?|?].
Qed.
Lemma wp_cannot_assign g a p i n v st s (Q : Status -> State -> Prop) : graph_ s = g -> node_at g a p i n v -> (forall st', ok st' = false -> Q st' s) -> wp (cannot_assign p st) s Q.
Proof.
  intros <- N HQ. unfold cannot_assign. wp_step. eapply wp_read_graph; [eapply node_at_name, N|]. wp_step. eapply wp_read_graph; [eapply node_at_def, N|]. wp_step. apply HQ. by apply registry_attach.
Qed.
Lemma a0_node g0 s a i v : placing g0 s a -> a_nodes a !! i = Some v -> a_device v = [] -> exists v0, a_nodes a0 !! i = Some v0 /\ a_device v0 = [] /\ a_props v = a_props v0.
Proof.
  intros P Hv Hnone. destruct (only_node _ _ _ _ (ps_only _ _ _ P) Hv) as (v0 & Hv0 & Hp & _ & Hsame). exists v0. split; [done|]. split; [|done]. destruct (decide (a_device v0 = [])) as [?|Hs]; [done|]. rewrite Hsame in Hnone by auto. done.
Qed.
Lemma generator_a0 g0 s a i v v0 : placing g0 s a -> a_props v = a_props v0 -> generator a i v <-> generator a0 i v0.
Proof. intros P Hp. unfold generator. by rewrite Hp, (od_edges _ _ (ps_only _ _ _ P)). Qed.
Lemma metadata_a0 (v v0 : ANode) : a_props v = a_props v0 -> metadata v <-> metadata v0.
Proof. intros Hp. unfold metadata, type_of. by rewrite Hp. Qed.
Lemma wp_assign_nodes g0 ps : forall ids second s a (Q : Status * list Z -> State -> Prop), placing g0 s a -> located g0 ps ids ->
  (forall st sp s' a', ok st = false -> placing g0 s' a' -> infeasible a0 -> Q (st, sp) s') ->
  (forall s' a' sp sids, placing g0 s' a' -> located g0 sp sids -> (forall i, i ∈ sids -> 1 < i /\ exists v, a_nodes a0 !! i = Some v /\ a_device v = []) -> (forall i, has_device a i -> has_device a' i) ->
    (forall i, i ∈ ids -> 1 < i -> has_device a' i \/ i ∈ sids) -> Q (OK, second ++ sp) s') ->
  wp (assign_nodes device_set_ allow_soft_placement ps second) s Q.
Proof.
  induction ps as [|p ps IH]; intros ids second s a Q P Hloc Hbad HQ; cbn [assign_nodes].
  { apply Forall2_nil_inv_l in Hloc as ->. wp_step. specialize (HQ s a [] []). rewrite app_nil_r in HQ. apply HQ; [done|constructor|by intros ? ?%elem_of_nil|done|by intros ? ?%elem_of_nil]. }
  apply Forall2_cons_inv_l in Hloc as (i & ids' & Hp & Hloc & ->). pose proof Hp as Hp0. rewrite <- (ps_nodes _ _ _ P) in Hp. destruct (rep_node_at addr _ _ _ _ (ps_rep _ _ _ P) Hp) as (n & v & N).
  assert (Hrest : forall s1 a1, placing g0 s1 a1 -> (forall j, has_device a j -> has_device a1 j) -> (1 < i -> has_device a1 i) -> wp (assign_nodes device_set_ allow_soft_placement ps second) s1 Q).
  { intros s1 a1 P1 Hm1 Hi1. apply (IH ids' second s1 a1 Q P1 Hloc Hbad). intros s' a' sp sids P' Hsp Hs Hm Hall. apply (HQ s' a' sp sids P' Hsp Hs); [auto|]. intros j [->|Hj]%elem_of_cons Hj1; [left; auto|auto]. }
  wp_step. eapply wp_read_graph; [apply N|]. unfold IsOp. rewrite (n_id _ _ _ _ _ _ N), (n_device _ _ _ _ _ _ N). destruct (Z.ltb_spec 1 i) as [Hi|Hi]; cbn [negb]; [|apply (Hrest s a); try done; lia].
  case_bool_decide as Hnone; cbn [negb]; [|apply (Hrest s a); try done; intros _; exists v; split; [apply N|done]].
  destruct (a0_node _ _ _ _ _ P (n_live _ _ _ _ _ _ N) Hnone) as (v0 & Hv0 & Hnone0 & Hprops).
  destruct (generator_Done _ _ _ _ _ _ (ps_rep _ _ _ P) N) as (b & Hb & Hgen). wp_step. eapply wp_read_graph; [exact Hb|]. destruct b.
  { eapply (IH ids' (second ++ [p]) s a Q P Hloc Hbad). intros s' a' sp sids P' Hsp Hs Hm Hall. rewrite <- app_assoc. apply (HQ s' a' (p :: sp) (i :: sids)); [done|by constructor| |done|].
    - intros j [->|Hj]%elem_of_cons; [split; [done|by exists v0]|auto].
    - intros j [->|Hj]%elem_of_cons Hj1; [right; by left|]. destruct (Hall j Hj Hj1); [by left|right; by right]. }
  assert (HiD : i ∈ D) by (apply HD; split; [done|rewrite Hv0; by eexists]).
  wp_step. eapply wp_GetDevicesForNode; [exact N|apply P|exact HiD|rewrite Hprops; by eapply (pl_types _ Pl)| |].
  { intros st ds l' Hst Hc Hinf. rewrite Hst. cbn [negb]. wp_step. eapply wp_cannot_assign; [done|exact N|]. intros st' Hst'. wp_step. apply (Hbad _ _ _ a Hst'); [|done]. by apply placing_members. }
  intros d ds l' Hcl Hc. change (ok OK) with true. cbn [negb head]. wp_step. wp_step; [done|]. pose proof (placing_members _ _ _ _ P Hc) as P1.
  destruct (metadata_Done _ _ _ _ _ _ N) as (bm & Hbm & Hmeta). wp_step. eapply wp_read_graph; [exact Hbm|].
  assert (Hdone : forall nm, fits i v0 nm -> wp (AssignAndLog nm p ;;; assign_nodes device_set_ allow_soft_placement ps second) (set_members l' s) Q).
  { intros nm Hf. wp_step. eapply (wp_AssignAndLog g0 _ a i p v0); try done. intros s' a' P' Hh. apply (Hrest s' a' P'); [intros j Hj; apply Hh; by right|intros _; apply Hh; by left]. }
  wp_step. destruct bm; [|wp_step; apply Hdone; exists d, ds; split; [done|by left]].
  destruct (first_input_Done _ _ _ _ _ _ (ps_rep _ _ _ P) N) as (j & pj & Hfi & Hpj).
  { rewrite (od_edges _ _ (ps_only _ _ _ P)). apply (pl_metadata _ Pl i v0 Hv0). apply (metadata_a0 v v0 Hprops). by apply Hmeta. }
  wp_step. eapply wp_read_graph; [exact Hfi|]. eapply wp_prefer; [exact P1|exact Hpj|apply Hdone; exists d, ds; split; [done|by left]|]. intros other x nm' Ho Hx Ht. apply Hdone. exists d, ds. split; [done|]. right. split; [left; apply (metadata_a0 v v0 Hprops); by apply Hmeta|by exists other, x].
Qed.
Lemma wp_assign_generators g0 ps : forall ids s a (Q : Status -> State -> Prop), placing g0 s a -> located g0 ps ids -> (forall i, i ∈ ids -> 1 < i /\ exists v, a_nodes a0 !! i = Some v /\ a_device v = []) ->
  (forall st s' a', ok st = false -> placing g0 s' a' -> infeasible a0 -> Q st s') ->
  (forall s' a', placing g0 s' a' -> (forall i, has_device a i -> has_device a' i) -> (forall i, i ∈ ids -> has_device a' i) -> Q OK s') -> wp (assign_generators device_set_ allow_soft_placement ps) s Q.
Proof.
  induction ps as [|p ps IH]; intros ids s a Q P Hloc Hids Hbad HQ; cbn [assign_generators].
  { apply Forall2_nil_inv_l in Hloc as ->. wp_step. apply (HQ s a); try done. by intros ? ?%elem_of_nil. }
  apply Forall2_cons_inv_l in Hloc as (i & ids' & Hp & Hloc & ->). rewrite <- (ps_nodes _ _ _ P) in Hp. destruct (rep_node_at addr _ _ _ _ (ps_rep _ _ _ P) Hp) as (n & v & N).
  destruct (Hids i) as (Hi & v0 & Hv0 & Hnone0); [by left|]. destruct (only_node _ _ _ _ (ps_only _ _ _ P) (n_live _ _ _ _ _ _ N)) as (v0' & Hv0' & Hprops & _). rewrite Hv0 in Hv0'. injection Hv0' as <-.
  assert (Hrest : forall s1 a1, placing g0 s1 a1 -> (forall j, has_device a1 j <-> j = i \/ has_device a j) -> wp (assign_generators device_set_ allow_soft_placement ps) s1 Q).
  { intros s1 a1 P1 Hh. apply (IH ids' s1 a1 Q P1 Hloc); [intros j Hj; apply Hids; by right|done|]. intros s' a' P' Hm Hall. apply (HQ s' a' P'); [intros j Hj; apply Hm, Hh; by right|]. intros j [->|Hj]%elem_of_cons; [apply Hm, Hh; by left|auto]. }
  assert (HiD : i ∈ D) by (apply HD; split; [done|rewrite Hv0; by eexists]).
  wp_step. eapply wp_GetDevicesForNode; [exact N|apply P|exact HiD|rewrite Hprops; by eapply (pl_types _ Pl)| |].
  { intros st ds l' Hst Hc Hinf. rewrite Hst. cbn [negb]. eapply wp_cannot_assign; [done|exact N|]. intros st' Hst'. apply (Hbad _ _ a Hst'); [|done]. by apply placing_members. }
  intros d ds l' Hcl Hc. change (ok OK) with true. cbn [negb head]. wp_step. wp_step; [done|]. pose proof (placing_members _ _ _ _ P Hc) as P1.
  destruct (generator_Done _ _ _ _ _ _ (ps_rep _ _ _ P) N) as (b & Hb & Hgen). wp_step. eapply wp_read_graph; [exact Hb|].
  assert (Hdone : forall nm, fits i v0 nm -> wp (AssignAndLog nm p ;;; assign_generators device_set_ allow_soft_placement ps) (set_members l' s) Q).
  { intros nm Hf. wp_step. eapply (wp_AssignAndLog g0 _ a i p v0); done. }
  wp_step. destruct b; [|wp_step; apply Hdone; exists d, ds; split; [done|by left]].
  assert (Hg : generator a i v) by by apply Hgen. destruct (first_output_Done _ _ _ _ _ _ (ps_rep _ _ _ P) N Hg) as (j & pj & Hfo & Hpj).
  wp_step. eapply wp_read_graph; [exact Hfo|]. eapply wp_prefer; [exact P1|exact Hpj|apply Hdone; exists d, ds; split; [done|by left]|]. intros other x nm' Ho Hx Ht. apply Hdone. exists d, ds. split; [done|]. right. split; [right; by apply (generator_a0 _ _ _ _ _ _ P Hprops)|by exists other, x].
Qed.
End Assign.
End PlacerAssign.
