(* ===== verification/PlacerTheorems.v ===== *)
(** * The placer: the theorems

    A registry, kernels and devices, graphs over them, and [placeable] as a
    condition that can be computed.

    What [SimplePlacer::Run] does to any graph that satisfies [placeable]. *)
From S2P Require Import Prelude Status Numbers StringPiece DataTypes EdgeSet Graph GraphFacts GraphOps GraphTheorems DeviceNames DeviceNamesFacts Kernels Placer PlacerForest PlacerSpec PlacerAssign GraphPasses PlacerConstraints.
From stdpp Require Import gmap relations sorting.
Open Scope Z_scope.

Module PlacerExamples.
Import Status Numbers DataTypes Graph GraphSpec GraphFacts GraphOps GraphRun GraphTheorems Kernels Placer PlacerForest PlacerSpec PlacerAssign.

Section Decide.
Context {OpDef AttrValue : Type}.
Abbreviation AGraph := (AGraph OpDef AttrValue).
Abbreviation ANode := (ANode OpDef AttrValue).
Implicit Types (a : AGraph).

#[export] Instance metadata_dec (v : ANode) : Decision (metadata v).
Proof. unfold metadata. apply _. Defined.
Definition placeableb a : bool :=
  (a_next_node a <? 2 ^ 31) &&
  bool_decide (map_Forall (fun i v => i <= 1 -> a_device v = []) (a_nodes a)) &&
  bool_decide (map_Forall (fun k e => 1 < e_dst e -> e_out e <> kControlSlot -> 1 < e_src e /\ is_Some (in_type a e)) (a_edges a)) &&
  bool_decide (map_Forall (fun i v => is_Some (DataTypeSliceString (input_types_ (a_props v)))) (a_nodes a)) &&
  bool_decide (map_Forall (fun i v => metadata v -> Exists (fun ke : Z * AEdge => e_dst ke.2 = i) (map_to_list (a_edges a))) (a_nodes a)).
Lemma placeableb_ok a : placeableb a = true -> placeable a.
Proof.
  unfold placeableb. rewrite !andb_true_iff, !bool_decide_eq_true, Z.ltb_lt. intros [[[[H1 H2] H3] H4] H5]. split; [done|exact H2|exact H3|exact H4|].
  intros i v Hv Hm. apply (H5 i v Hv), Exists_exists in Hm as ([k e] & Hin & Hd). apply elem_of_map_to_list in Hin. by exists k, e.
Qed.
Definition strictb a (soft : bool) : bool := negb soft && bool_decide (map_Forall (fun k e => e_out e = kControlSlot \/ e_dst e <= 1 \/ IsRefType (default 0 (in_type a e)) = false /\ default 0 (in_type a e) <> DT_RESOURCE) (a_edges a)).
Lemma strictb_ok a soft : strictb a soft = true -> strict soft a.
Proof.
  unfold strictb. rewrite andb_true_iff, bool_decide_eq_true, negb_true_iff. intros [-> H]. split; [done|]. intros i j (k & e & He & (Hc & Hd & ty & Hty & Hb) & _). destruct (H k e He) as [?|[?|Hn]]; [done|lia|]. rewrite Hty in Hn. destruct Hn as [Hr Hres]. cbn in Hr, Hres. destruct Hb; congruence.
Qed.
Definition devices_okb (l : list DeviceSet.Device) : bool :=
  bool_decide (NoDup (map DeviceSet.parsed_name l)) && bool_decide (Forall (fun d => DeviceSet.new_Device (DeviceSet.name d) (DeviceSet.device_type d) = Some d /\ DeviceNames.complete (DeviceSet.parsed_name d) = true) l).
Lemma devices_okb_ok l : devices_okb l = true -> devices_ok l.
Proof. unfold devices_okb. by rewrite andb_true_iff, !bool_decide_eq_true. Qed.
End Decide.

(** ** Ops, kernels, devices *)

(** The definition of an op is the types of its inputs and outputs; the value of
    an attribute is a list of texts. *)
#[export] Instance op_table : OpRegistryInterface (list Z * list Z) (list (list Z)) := {
  LookUpOpDef op :=
    if bool_decide (op = []) then (NotFound [], None)
    else (OK, Some (if bool_decide (op = bytes_of "Const") then ([], [1]) else if bool_decide (op = bytes_of "Neg") then ([1], [1]) else if bool_decide (op = bytes_of "Add") then ([1; 1], [1]) else if bool_decide (op = bytes_of "Variable") then ([], [101]) else if bool_decide (op = bytes_of "Assign") then ([101; 1], [101]) else ([], [])));
  InOutTypesForNode _ op := (OK, op);
  AttachDef s _ := s
}.
#[export] Instance op_table_laws : OpRegistryLaws (list Z * list Z) (list (list Z)) op_table.
Proof.
  split; [done| | |done].
  - intros op. cbn. case_bool_decide; [done|]. intros _. by eexists.
  - eexists. split; [reflexivity|]. done.
Qed.
Definition kernel (op ty : String.string) : KernelDef := mkKernelDef (bytes_of op) (bytes_of ty) [] [].
#[export] Instance kernel_table : KernelRegistry (list (list Z)) := {
  registered := [kernel "Const" "CPU"; kernel "Const" "GPU"; kernel "Neg" "CPU"; kernel "Add" "CPU"; kernel "Add" "GPU"; kernel "Variable" "CPU"; kernel "Variable" "GPU"; kernel "Assign" "CPU"];
  Global_LookUp _ := OK;
  attr_type _ := 0;
  attr_types _ := None;
  attr_strings v := Some v;
  attr_string _ := None;
  SummarizeAttrValue _ := [];
  SummarizeNodeDef _ := [];
  ProtoShortDebugString _ := [];
  SummarizeTypes _ := []
}.
Definition address (k : nat) : Z := Z.of_nat k + 1.
#[export] Instance address_ok : addresses address.
Proof. split; unfold address; intros; lia. Qed.
Definition device (nm ty : String.string) : list DeviceSet.Device := match DeviceSet.new_Device (bytes_of nm) (bytes_of ty) with Some d => [d] | None => [] end.
Definition worker : list DeviceSet.Device := device "/job:a/replica:0/task:0/device:CPU:0" "CPU" ++ device "/job:a/replica:0/task:0/device:CPU:1" "CPU" ++ device "/job:a/replica:0/task:0/device:GPU:0" "GPU".
Lemma worker_ok : devices_ok worker.
Proof. apply devices_okb_ok. vm_compute. reflexivity. Qed.

(** ** Graphs *)

Definition node (nm op dev : String.string) (class : list String.string) : NodeDef (list (list Z)) :=
  mkNodeDef (bytes_of nm) (bytes_of op) [] (bytes_of dev) (match class with [] => ∅ | _ => {[ kColocationAttrName := map bytes_of class ]} end).
(** [x] and [y] are in one group; [x] asks for a GPU, [y] for the job. *)
Definition pair_graph : list (GOp (AttrValue := list (list Z))) := [
  OpAddNode (node "c" "Const" "/device:CPU:1" []) OK;
  OpAddNode (node "x" "Add" "/device:GPU:*" []) OK;
  OpAddNode (node "y" "Add" "/job:a" ["loc:@x"%string]) OK;
  OpAddEdge 2 0 3 0; OpAddEdge 2 0 3 1; OpAddEdge 3 0 4 0; OpAddEdge 2 0 4 1].
(** A variable, and an assignment that has to be with it. *)
Definition assign_graph : list (GOp (AttrValue := list (list Z))) := [
  OpAddNode (node "v" "Variable" "" []) OK;
  OpAddNode (node "c" "Const" "/device:CPU:1" []) OK;
  OpAddNode (node "s" "Assign" "/job:a" []) OK;
  OpAddEdge 2 0 4 0; OpAddEdge 3 0 4 1].
(** A generator that asks for [CPU:1], and its consumer. *)
Definition request_graph : list (GOp (AttrValue := list (list Z))) := [
  OpAddNode (node "c" "Const" "/device:CPU:1" []) OK;
  OpAddNode (node "n" "Neg" "" []) OK;
  OpAddEdge 2 0 3 0].
(** A generator in the group of a node on [CPU:1], and its consumer. *)
Definition group_graph : list (GOp (AttrValue := list (list Z))) := [
  OpAddNode (node "b" "Const" "" []) OK;
  OpAddNode (node "x" "Neg" "/device:CPU:1" []) OK;
  OpAddNode (node "c" "Const" "" ["loc:@x"%string]) OK;
  OpAddNode (node "n" "Neg" "" []) OK;
  OpAddEdge 2 0 3 0; OpAddEdge 4 0 5 0].
(** A variable that asks for [CPU:0], and its assignment, which is on [CPU:1]. *)
Definition assigned_graph : list (GOp (AttrValue := list (list Z))) := [
  OpAddNode (node "v" "Variable" "/device:CPU:0" []) OK;
  OpAddNode (node "c" "Const" "" []) OK;
  OpAddNode (node "s" "Assign" "" []) OK;
  OpAddEdge 2 0 4 0; OpAddEdge 3 0 4 1;
  OpSetDevice 4 (bytes_of "/job:a/replica:0/task:0/device:CPU:1")].
Definition abstract (os : list (GOp (AttrValue := list (list Z)))) : AGraph (list Z * list Z) (list (list Z)) := (spec_all os (spec_new ([], []))).1.
Definition built (os : list (GOp (AttrValue := list (list Z)))) : Graph (list Z * list Z) (list (list Z)) :=
  match (new_Graph address ;;; run_all address os) empty_Graph with Done (_, g) => g | _ => empty_Graph end.
Lemma built_rep os : legal_all os (spec_new ([], [])) = true -> rep address (built os) (abstract os) /\ bounded (abstract os).
Proof.
  intros Hl. assert (H : wp (new_Graph address ;;; run_all address os) empty_Graph (fun _ g => rep address g (abstract os) /\ bounded (abstract os))).
  { wp_step. apply (wp_new_Graph address ([], [])); [reflexivity|]. intros g Hg. eapply (run_all_refines address); [exact Hg|apply new_bounded|done|]. done. }
  apply wp_Done in H as (rs & g & Hg & HQ). unfold built. by rewrite Hg.
Qed.
(** The status and the devices of the nodes with some ids. *)
Fixpoint devices_of (ids : list Z) : ST (Graph (list Z * list Z) (list (list Z))) (list (list Z)) :=
  match ids with [] => st_ret [] | i :: ids' => let! p := FindNodeId i in let! n := node_of p in let! l := devices_of ids' in st_ret (assigned_device_name_ n :: l) end.
Definition place_and_read (soft : bool) (os : list (GOp (AttrValue := list (list Z)))) (ids : list Z) : outcome (Status * list (list Z)) :=
  match (let! st := place (device_set_of worker) soft in let! l := devices_of ids in st_ret (st, l)) (built os) with Done (r, _) => Done r | Aborts => Aborts | Diverges => Diverges end.
Definition CPU0 : list Z := bytes_of "/job:a/replica:0/task:0/device:CPU:0".
Definition CPU1 : list Z := bytes_of "/job:a/replica:0/task:0/device:CPU:1".
Definition GPU0 : list Z := bytes_of "/job:a/replica:0/task:0/device:GPU:0".
Example place_pair : place_and_read false pair_graph [2; 3; 4] = Done (OK, [CPU1; GPU0; GPU0]).
Proof. vm_compute. reflexivity. Qed.
Example place_assign : place_and_read false assign_graph [2; 3; 4] = Done (OK, [CPU0; CPU0; CPU0]).
Proof. vm_compute. reflexivity. Qed.
Example place_request : place_and_read false request_graph [2; 3] = Done (OK, [CPU0; CPU0]).
Proof. vm_compute. reflexivity. Qed.
Example place_group : place_and_read false group_graph [3; 4; 5] = Done (OK, [CPU1; CPU0; CPU0]).
Proof. vm_compute. reflexivity. Qed.
Example place_assigned : place_and_read false assigned_graph [2; 4] = Done (OK, [CPU0; CPU1]).
Proof. vm_compute. reflexivity. Qed.
End PlacerExamples.

Open Scope Z_scope.

Module PlacerTheorems.
Import Status Numbers DataTypes Graph GraphSpec GraphFacts GraphOps GraphRun GraphPasses Kernels Placer PlacerForest PlacerSpec PlacerGroups PlacerConstraints PlacerAssign PlacerExamples.

(** A complete name is only a specification of itself. *)
Lemma complete_spec p n : DeviceNames.complete p = true -> DeviceNamesFacts.spec p n -> p = n.
Proof.
  unfold DeviceNames.complete. rewrite !andb_true_iff. intros [[[[H1 H2] H3] H4] H5] (S1 & S2 & S3 & S4 & S5). destruct p, n; cbn in *. subst.
  destruct (S1 eq_refl) as [-> ->], (S2 eq_refl) as [-> ->], (S3 eq_refl) as [-> ->], (S4 eq_refl) as [-> ->], (S5 eq_refl) as [-> ->]. done.
Qed.
Lemma spec_completion n : DeviceNamesFacts.spec n (DeviceNamesFacts.completion n).
Proof. unfold DeviceNamesFacts.spec, DeviceNamesFacts.completion. cbn. by split_and!. Qed.

Section Theorems.
Context {OpDef AttrValue : Type} {registry : OpRegistryInterface OpDef AttrValue} {kernels : KernelRegistry AttrValue}.
Context {laws : OpRegistryLaws OpDef AttrValue registry}.
Context (addr : nat -> Z) {Haddr : addresses addr} (devices : list DeviceSet.Device) (allow_soft_placement : bool) (Hdev : devices_ok devices).
Abbreviation Graph := (Graph OpDef AttrValue).
Abbreviation AGraph := (AGraph OpDef AttrValue).
Abbreviation State := (State OpDef AttrValue).
Abbreviation rep := (rep addr).
Abbreviation device_set_ := (device_set_of devices).
Abbreviation place := (place device_set_ allow_soft_placement).
Abbreviation own_types := (own_types device_set_).
Implicit Types (a : AGraph) (s : State) (l : list Member) (g : Graph).

(** A graph in memory represents one abstract graph. *)
Lemma rep_det g a a' : rep g a -> rep g a' -> a = a'.
Proof.
  intros H H'. assert (Hn : a_nodes a = a_nodes a').
  { apply map_eq. intros i. pose proof (r_nodes _ _ _ _ H i) as R. pose proof (r_nodes _ _ _ _ H' i) as R'. destruct (at_ (nodes_ g) i) as [p|]; inversion R as [x v N Hx Hv|]; inversion R' as [x' v' N' Hx' Hv'|]; [|done].
    destruct N as (n & k & Hn & Hp & _ & _ & Hc & Hd & _), N' as (n' & k' & Hn' & Hp' & _ & _ & Hc' & Hd' & _). rewrite Hn in Hn'. injection Hn' as <-. rewrite Hp in Hp'. destruct v, v'; cbn in *. f_equal. congruence. }
  assert (He : a_edges a = a_edges a').
  { apply map_eq. intros j. pose proof (r_edges _ _ _ _ H j) as R. pose proof (r_edges _ _ _ _ H' j) as R'. destruct (at_ (edges_ g) j) as [q|]; inversion R as [x e N Hx Hv|]; inversion R' as [x' e' N' Hx' Hv'|]; [|done].
    destruct N as (s & d & Hq & Hs & Hd), N' as (s' & d' & Hq' & Hs' & Hd'). rewrite Hq in Hq'. injection Hq' as <- <- Ho Hi. pose proof (live_inj addr H _ _ _ Hs Hs') as E1. pose proof (live_inj addr H _ _ _ Hd Hd') as E2. destruct e, e'; cbn in *. congruence. }
  pose proof (r_len_n _ _ _ _ H). pose proof (r_len_n _ _ _ _ H'). pose proof (r_len_e _ _ _ _ H). pose proof (r_len_e _ _ _ _ H'). pose proof (r_names _ _ _ _ H). pose proof (r_names _ _ _ _ H'). destruct a, a'; cbn in *. congruence.
Qed.
Lemma only_refl a : only_devices a a.
Proof. split; try done. intros i. destruct (a_nodes a !! i); constructor. by split. Qed.

(** [Run] from the start: an error, only if the constraints have no solution when
    they are strict, or a device for every node. *)
Abbreviation classes := (classes device_set_ allow_soft_placement).
Definition all_fit a a' l0 : Prop :=
  (forall i v v', a_nodes a !! i = Some v -> a_nodes a' !! i = Some v' -> a_device v = [] -> 1 < i -> fits devices allow_soft_placement a l0 i v (a_device v')) /\ forall i, is_op a i -> has_device a' i.
Definition outcome a a' (st : Status) : Prop :=
  (ok st = false /\ infeasible device_set_ allow_soft_placement a) \/ (st = OK /\ devices <> [] /\ exists l0, classes a (ops_of a) (must_share a) l0 /\ all_fit a a' l0).
Lemma place_outcome g a : rep g a -> bounded a -> placeable a -> exists st g' a', place g = Done (st, g') /\ rep g' a' /\ only_devices a a' /\ outcome a a' st.
Proof.
  intros H Hb Pl. pose proof (device_set_of_spec devices (device_names_distinct _ Hdev)) as [Hdevs _].
  assert (Hrun : wp (Run device_set_ allow_soft_placement) (mkState g [] ∅) (fun st s' => exists a', rep (graph_ s') a' /\ only_devices a a' /\ outcome a a' st)).
  { unfold Run. rewrite Hdevs. case_bool_decide as Hnil.
    { wp_step. exists a. split; [done|]. split; [apply only_refl|]. left. split; [done|]. intros _ [Hne _]. by rewrite Hdevs in Hne. }
    wp_step. eapply wp_read_graph; [by apply (nodes_Done addr g a)|].
    assert (Hbad : forall st s', ok st = false -> graph_ s' = g -> infeasible device_set_ allow_soft_placement a -> exists a', rep (graph_ s') a' /\ only_devices a a' /\ outcome a a' st).
    { intros st s' Hst Hs' Hinf. exists a. rewrite Hs'. split; [done|]. split; [apply only_refl|]. by left. }
    assert (Hrest : forall s', graph_ s' = g -> classes a (ops_of a) (must_share a) (members_ s') ->
      wp (let! '(s, second_pass) := assign_nodes device_set_ allow_soft_placement (live_from g 0) [] in if negb (ok s) then st_ret s else assign_generators device_set_ allow_soft_placement second_pass) s' (fun st s' => exists a', rep (graph_ s') a' /\ only_devices a a' /\ outcome a a' st)).
    { intros s' Hs' C. pose proof (elem_of_ops addr g a) as Hops. assert (HD : forall i, i ∈ ops_of a <-> is_op a i) by (intros i; by apply Hops). set (l0 := members_ s') in *.
      assert (P : placing addr devices allow_soft_placement a l0 g s' a).
      { split; [by rewrite Hs'|by rewrite Hs'|by eapply (cached_start devices allow_soft_placement a (ops_of a) l0 C)|apply only_refl|]. intros i v v' Hv Hv' Hn _. left. congruence. }
      wp_step. eapply (wp_assign_nodes addr devices allow_soft_placement Hdev a (ops_of a) l0 C Pl HD g _ (ids_of a) [] s' a); [exact P|by apply (live_from_located addr g a)| |].
      - intros st sp s2 a2 Hst P2 Hinf. rewrite Hst. cbn [negb]. wp_step. exists a2. split; [apply P2|]. split; [apply P2|by left].
      - intros s2 a2 sp sids P2 Hsp Hs Hm Hall. change (ok OK) with true. cbn [negb app].
        eapply (wp_assign_generators addr devices allow_soft_placement Hdev a (ops_of a) l0 C Pl HD g sp sids s2 a2); [exact P2|exact Hsp|exact Hs| |].
        + intros st s3 a3 Hst P3 Hinf. exists a3. split; [apply P3|]. split; [apply P3|by left].
        + intros s3 a3 P3 Hm3 Hall3. exists a3. split; [apply P3|]. split; [apply P3|]. right. split; [done|]. split; [done|]. exists l0. split; [done|].
          assert (Hdone : forall i, is_op a i -> has_device a3 i).
          { intros i Hi. destruct (Hall i) as [Hi2|Hi2]; [apply (elem_of_ids addr (fun _ => 0) g a i H); apply Hi|apply Hi|auto|auto]. }
          split; [|done]. intros i v v' Hv Hv' Hn Hi. destruct (ps_fits _ _ _ _ _ _ _ _ P3 i v v' Hv Hv' Hn Hi) as [Hnone|?]; [|done]. destruct (Hdone i) as (w & Hw & Hne); [split; [done|by eexists]|]. congruence. }
    assert (Hstep : wp (let! s := add_nodes device_set_ allow_soft_placement (live_from g 0) in if negb (ok s) then st_ret s else constrain_nodes allow_soft_placement (live_from g 0)) (mkState g [] ∅)
      (fun st s' => graph_ s' = g /\ ((ok st = false /\ infeasible device_set_ allow_soft_placement a) \/ (st = OK /\ classes a (ops_of a) (must_share a) (members_ s'))))).
    { eapply (wp_constraints addr device_set_ allow_soft_placement); try done; [by apply all_complete|intros st s' Hst Hg Hinf; split; [done|by left]|intros s' Hg C; split; [done|by right]]. }
    revert Hstep. unfold wp, st_bind. destruct (add_nodes _ _ _ _) as [[st1 s1]| |]; [|done..]. destruct (ok st1) eqn:E1; cbn [negb].
    - destruct (constrain_nodes _ _ _) as [[st2 s2]| |]; [|done..]. intros [Hg2 [[Hst Hinf]|[-> C2]]]; [rewrite Hst; cbn [negb st_ret]; by apply Hbad|]. change (ok OK) with true. cbn [negb]. by apply Hrest.
    - cbn [st_ret]. intros [Hg1 [[_ Hinf]|[-> _]]]; [by apply Hbad|done]. }
  apply wp_Done in Hrun as (st & s' & Hrun & a' & Ha' & Ho & Hout). exists st, (graph_ s'), a'. split; [|done]. unfold Placer.place. by rewrite Hrun.
Qed.
Lemma outcome_ok a a' st : outcome a a' st -> ok st = true -> devices <> [] /\ exists l0, classes a (ops_of a) (must_share a) l0 /\ all_fit a a' l0.
Proof. intros [[Hf _]|(_ & H)] Hok; [congruence|done]. Qed.
(** The outcome of a call that is known. *)
Lemma place_known g a st g' a' : rep g a -> bounded a -> placeable a -> place g = Done (st, g') -> rep g' a' -> only_devices a a' /\ outcome a a' st.
Proof.
  intros H Hb Pl Hrun H'. destruct (place_outcome g a H Hb Pl) as (st1 & g1 & a1 & Hrun1 & Ha1 & Ho & Hout). rewrite Hrun in Hrun1. injection Hrun1 as <- <-. by rewrite (rep_det _ _ _ H' Ha1).
Qed.
Lemma own_types_of a i v : a_nodes a !! i = Some v -> own_types a i = node_types device_set_ v.
Proof. intros Hv. unfold PlacerSpec.own_types, of_node. by rewrite Hv. Qed.
Lemma own_name_of a i v : a_nodes a !! i = Some v -> own_name a i = request v.
Proof. intros Hv. unfold own_name, of_node. by rewrite Hv. Qed.

(** C6: on every graph that is [placeable] (data edges end in inputs of their ops and
    come from ops, the source and the sink have no device, and each metadata node
    has an edge into it; without one the code reads the first of no edges) and
    every set of devices with distinct, complete names, the placer ends, without
    failing an assertion; it only writes the devices of nodes that had none; and
    when it returns OK each node has a device of the set, of a type that has a
    kernel for it. *)
Theorem placer_places g a : rep g a -> bounded a -> placeable a ->
  exists st g' a', place g = Done (st, g') /\ rep g' a' /\ only_devices a a' /\
    (ok st = true -> forall i v', is_op a i -> a_nodes a' !! i = Some v' -> exists d, d ∈ devices /\ DeviceSet.name d = a_device v' /\ DeviceSet.device_type d ∈ own_types a i).
Proof.
  intros H Hb Pl. destruct (place_outcome g a H Hb Pl) as (st & g' & a' & Hrun & Ha' & Ho & Hout). exists st, g', a'. do 3 (split; [done|]). intros Hok i v' Hi Hv'. destruct (outcome_ok _ _ _ Hout Hok) as (_ & l0 & C & Hfit & _).
  destruct (only_node _ _ _ _ Ho Hv') as (v & Hv & _ & _ & Hsame). destruct (decide (a_device v = [])) as [Hn|Hn].
  - destruct (fits_found devices allow_soft_placement Hdev a (ops_of a) l0 C i v _ (Hfit i v v' Hv Hv' Hn (proj1 Hi))) as (d & Hd & _ & Ht). apply find_device in Hd as [Hd Hnm]; [|done]. by exists d.
  - destruct (proj2 (i_nodes _ _ _ _ _ _ C i (proj2 (elem_of_ops addr g a i H) Hi)) v Hv) as (_ & _ & _ & Hx). destruct (Hx Hn) as (d & Hd & Ht). apply find_device in Hd as [Hd Hnm]; [|done]. exists d. split; [done|]. rewrite Hsame by auto. split; [done|]. by rewrite (own_types_of _ _ _ Hv).
Qed.

(** A node without a device that is not placed with a neighbour. *)
Definition ordinary a (i : Z) : Prop := 1 < i /\ exists v, a_nodes a !! i = Some v /\ a_device v = [] /\ ~ metadata v /\ ~ generator a i v.
Lemma ordinary_first a a' l0 i : only_devices a a' -> all_fit a a' l0 -> ordinary a i -> exists d ds, class_devices devices allow_soft_placement l0 i (d :: ds) /\ a_device <$> a_nodes a' !! i = Some (DeviceSet.name d).
Proof.
  intros Ho [Hfit _] (Hi & v & Hv & Hn & Hm & Hg). pose proof (od_nodes _ _ Ho i) as Hr. rewrite Hv in Hr. destruct (a_nodes a' !! i) as [v'|] eqn:Hv'; [|by inversion Hr]. destruct (Hfit i v v' Hv Hv' Hn Hi) as (d & ds & Hc & Hd). exists d, ds. split; [done|].
  cbn. f_equal. destruct Hd as [?|[[?|?] _]]; done.
Qed.
Lemma class_spec a l0 i d ds j : strict allow_soft_placement a -> classes a (ops_of a) (must_share a) l0 -> class_devices devices allow_soft_placement l0 i ds -> d ∈ ds -> together a i j ->
  d ∈ devices /\ DeviceSet.device_type d ∈ own_types a j /\ DeviceNamesFacts.spec (own_name a j) (DeviceSet.parsed_name d).
Proof.
  intros Hst C (r & m & Hr & Hm & Hds) Hd Hij. destruct (candidates_spec device_set_ allow_soft_placement (device_name m) (supported_device_types m) (all_complete devices Hdev)) as (ds' & Hds' & _ & Hiff). unfold member_devices in Hds. rewrite Hds in Hds'. injection Hds' as <-.
  destruct (proj1 (Hiff (proj1 Hst) d) Hd) as (H1 & H2 & H3). rewrite (devices_eq devices Hdev) in H1. destruct (i_roots _ _ _ _ _ _ C r m (root_self _ _ _ Hr) Hm) as [T1 _ T3]. assert (Hjr : root_of (up l0) j r) by by apply (i_class _ _ _ _ _ _ C i j r Hr).
  split; [done|]. split; [by apply T1|by apply (T3 Hst)].
Qed.
(** C7: when the placer returns OK on a [placeable] graph, two nodes that have to be
    together get the same device if both are [ordinary]: they had no device, and
    the heuristics that put a metadata node on the device of its input and a
    constant with one consumer on the device of that do not apply to them (with
    those the claim fails). Nodes have to be together that share a colocation
    group or are connected by an edge of a reference or resource type, directly
    or through other nodes. Without soft placement and such edges the device is
    what each node that has to be with them asks for. *)
Theorem placer_colocates g a st g' a' i j : rep g a -> bounded a -> placeable a -> place g = Done (st, g') -> rep g' a' -> ok st = true ->
  together a i j -> ordinary a i -> ordinary a j -> exists d, d ∈ devices /\ a_device <$> a_nodes a' !! i = Some (DeviceSet.name d) /\ a_device <$> a_nodes a' !! j = Some (DeviceSet.name d) /\
    (strict allow_soft_placement a -> forall k, together a i k -> DeviceNamesFacts.spec (own_name a k) (DeviceSet.parsed_name d)).
Proof.
  intros H Hb Pl Hrun H' Hok Hij Hi Hj. destruct (place_known _ _ _ _ _ H Hb Pl Hrun H') as [Ho Hout]. destruct (outcome_ok _ _ _ Hout Hok) as (_ & l0 & C & Hfit).
  destruct (ordinary_first _ _ _ _ Ho Hfit Hi) as (d & ds & Hci & Hdi). destruct (ordinary_first _ _ _ _ Ho Hfit Hj) as (d' & ds' & Hcj & Hdj).
  assert (Hci' : class_devices devices allow_soft_placement l0 j (d :: ds)) by (destruct Hci as (r & m & Hr & Hm & Hd); exists r, m; split; [by apply (i_class _ _ _ _ _ _ C i j r Hr)|done]).
  pose proof (class_devices_det _ _ _ _ _ _ Hcj Hci') as [= -> ->]. exists d. split; [|split; [done|split; [done|]]].
  - by eapply (class_devices_in devices allow_soft_placement Hdev a (ops_of a) l0 C i (d :: ds)); [|left].
  - intros Hst k Hik. by destruct (class_spec a l0 i d _ k Hst C Hci ltac:(by left) Hik) as (_ & _ & ?).
Qed.

(** ** Completeness *)

(** A node that had a device asks for just this device. *)
Lemma assigned_request a i v d : a_nodes a !! i = Some v -> a_device v <> [] -> d ∈ devices -> DeviceSet.name d = a_device v -> own_name a i = DeviceSet.parsed_name d.
Proof.
  intros Hv Hn Hd Hnm. rewrite (own_name_of _ _ _ Hv). unfold request, request_text. destruct (device_parsed _ _ Hdev Hd) as [Hp _]. rewrite Hnm in Hp. destruct (a_device v); [done|]. by rewrite Hp.
Qed.
(** The names that a class asks for agree. *)
Lemma class_name a l0 i : strict allow_soft_placement a -> classes a (ops_of a) (must_share a) l0 -> i ∈ ops_of a -> exists n, DeviceNames.complete n = true /\ forall j, together a i j -> DeviceNamesFacts.spec (own_name a j) n.
Proof.
  intros Hst C Hi. destruct (classes_root _ _ _ _ _ _ _ C Hi) as (r & m & Hr & Hrr & Hm & _). destruct (i_roots _ _ _ _ _ _ C r m Hrr Hm) as [_ _ T3]. exists (DeviceNamesFacts.completion (device_name m)). split; [done|].
  intros j Hij. apply (proj1 (T3 Hst _) (spec_completion _)). by apply (i_class _ _ _ _ _ _ C i j r Hr).
Qed.
Lemma placed_feasible g a a' l0 : rep g a -> strict allow_soft_placement a -> devices <> [] -> only_devices a a' -> classes a (ops_of a) (must_share a) l0 -> all_fit a a' l0 -> feasible device_set_ a.
Proof.
  intros H Hst Hne Ho C [Hfit Hhas]. assert (Hops : forall j, j ∈ ops_of a <-> is_op a j) by (intros j; by apply (elem_of_ops addr g)).
  assert (Hassigned : forall j v, is_op a j -> a_nodes a !! j = Some v -> a_device v <> [] -> exists d, d ∈ devices /\ own_name a j = DeviceSet.parsed_name d /\ DeviceSet.device_type d ∈ own_types a j).
  { intros j v Hj Hv Hn. destruct (proj2 (i_nodes _ _ _ _ _ _ C j (proj2 (Hops j) Hj)) v Hv) as (_ & _ & _ & Hx). destruct (Hx Hn) as (d & Hd & Ht). apply find_device in Hd as [Hd Hnm]; [|done]. exists d. split; [done|]. split; [by eapply assigned_request|]. by rewrite (own_types_of _ _ _ Hv). }
  assert (Hfree : forall j v, is_op a j -> a_nodes a !! j = Some v -> a_device v = [] -> exists d ds, class_devices devices allow_soft_placement l0 j (d :: ds)).
  { intros j v Hj Hv Hn. destruct (Hhas j Hj) as (v' & Hv' & _). destruct (Hfit j v v' Hv Hv' Hn (proj1 Hj)) as (d & ds & Hc & _). eauto. }
  split; [by rewrite (devices_eq devices Hdev)|]. intros i Hi. split; [by apply (i_nodes _ _ _ _ _ _ C), Hops|]. rewrite (devices_eq devices Hdev). destruct Hi as [Hi1 [v Hv]] eqn:Ei. clear Ei.
  destruct (decide (a_device v = [])) as [Hn|Hn].
  - destruct (Hfree i v Hi Hv Hn) as (d & ds & Hc). assert (Hd : forall j, together a i j -> d ∈ devices /\ DeviceSet.device_type d ∈ own_types a j /\ DeviceNamesFacts.spec (own_name a j) (DeviceSet.parsed_name d)) by (intros j Hij; eapply class_spec; [exact Hst|exact C|exact Hc|by left|exact Hij]).
    exists d. split; [by apply (Hd i)|]. intros j Hij. by apply Hd.
  - destruct (Hassigned i v Hi Hv Hn) as (d & Hd & Hnm & _). destruct (class_name a l0 i Hst C (proj2 (Hops i) Hi)) as (n & Hcn & Hall).
    assert (Hdn : DeviceSet.parsed_name d = n) by (apply complete_spec; [by eapply device_parsed|rewrite <- Hnm; by apply Hall]). exists d. split; [done|]. intros j Hij. split; [|rewrite Hdn; by apply Hall].
    assert (Hj : is_op a j). { destruct (rtsc_dom _ _ _ _ (i_rel _ _ _ _ _ _ C) Hij) as [<-|[_ Hj]]; [done|by apply Hops]. } pose proof Hj as [_ [w Hw]]. destruct (decide (a_device w = [])) as [Hwn|Hwn].
    + destruct (Hfree j w Hj Hw Hwn) as (x & ds & Hc). destruct (class_spec a l0 j x _ i Hst C Hc ltac:(by left) (rtsc_sym _ _ _ Hij)) as (Hx & _ & Hxs). destruct (class_spec a l0 j x _ j Hst C Hc ltac:(by left) ltac:(done)) as (_ & Hxt & _).
      rewrite Hnm in Hxs. apply complete_spec in Hxs; [|by eapply device_parsed]. by rewrite (device_parsed_inj devices d x Hdev Hd Hx Hxs).
    + destruct (Hassigned j w Hj Hw Hwn) as (x & Hx & Hxn & Hxt). assert (Hxs : DeviceSet.parsed_name x = n) by (apply complete_spec; [by eapply device_parsed|rewrite <- Hxn; by apply Hall]).
      assert (x = d) as -> by (apply (device_parsed_inj devices x d Hdev Hx Hd); congruence). done.
Qed.
(** C8: on a [placeable] graph, without soft placement and reference or resource
    edges, the placer decides whether the constraints have a solution: it returns
    OK if and only if the kernels of every node are found, the names that are
    asked for are names, and for each class some device is what all its nodes ask
    for and has kernels for all of them. *)
Theorem placer_decides g a : rep g a -> bounded a -> placeable a -> strict allow_soft_placement a ->
  exists st g', place g = Done (st, g') /\ (ok st = true <-> feasible device_set_ a).
Proof.
  intros H Hb Pl Hst. destruct (place_outcome g a H Hb Pl) as (st & g' & a' & Hrun & Ha' & Ho & Hout). exists st, g'. split; [done|]. destruct Hout as [[Hno Hinf]|(-> & Hne & l0 & C & Hfit)].
  - split; [congruence|]. intros Hf. by apply Hinf in Hf.
  - split; [|done]. intros _. by eapply placed_feasible.
Qed.

(** C9: on a [placeable] graph, after the nodes and the reference and resource edges
    were seen without an error, two nodes have the same root in the forest of the
    placer if and only if they have to be together. *)
Theorem placer_classes g a : rep g a -> bounded a -> placeable a ->
  wp (let! ps := on_graph nodes in let! st := add_nodes device_set_ allow_soft_placement ps in if negb (ok st) then st_ret st else constrain_nodes allow_soft_placement ps) (mkState g [] ∅) (fun st s' =>
    graph_ s' = g /\ (ok st = true -> forall i j, is_op a i -> is_op a j -> (exists r, root_of (up (members_ s')) i r /\ root_of (up (members_ s')) j r) <-> together a i j)).
Proof.
  intros H Hb Pl. wp_step. eapply wp_read_graph; [by apply (nodes_Done addr g a)|]. eapply (wp_constraints addr device_set_ allow_soft_placement); try done; [by apply all_complete|intros st s' Hst Hg _; split; [done|congruence]|].
  intros s' Hg C. split; [done|]. intros _ i j Hi Hj. destruct (classes_root _ _ _ _ _ _ _ C (proj2 (elem_of_ops addr g a i H) Hi)) as (r & m & Hr & _). split.
  - intros (r' & Hr1 & Hr2). by apply (i_class _ _ _ _ _ _ C i j r' Hr1).
  - intros Hij. exists r. split; [done|]. by apply (i_class _ _ _ _ _ _ C i j r Hr).
Qed.
End Theorems.

(** ** Examples *)

Lemma pair_rep : rep address (built pair_graph) (abstract pair_graph) /\ bounded (abstract pair_graph).
Proof. apply built_rep. vm_compute. reflexivity. Qed.
Lemma pair_placeable : placeable (abstract pair_graph).
Proof. apply placeableb_ok. vm_compute. reflexivity. Qed.
Lemma pair_strict : strict false (abstract pair_graph).
Proof. apply strictb_ok. vm_compute. reflexivity. Qed.
Lemma pair_placed : exists g' a', place (device_set_of worker) false (built pair_graph) = Done (OK, g') /\ rep address g' a'.
Proof.
  destruct (place_outcome address worker false worker_ok _ _ (proj1 pair_rep) (proj2 pair_rep) pair_placeable) as (st & g' & a' & Hrun & Ha & _).
  assert (Hst : match place (device_set_of worker) false (built pair_graph) with Done (st, _) => st | _ => Error UNKNOWN [] end = OK) by (vm_compute; reflexivity). rewrite Hrun in Hst. subst st. exists g', a'. exact (conj Hrun Ha).
Qed.
Lemma in_pair i : 1 < i -> bool_decide (is_Some (a_nodes (abstract pair_graph) !! i)) = true -> is_op (abstract pair_graph) i.
Proof. intros Hi H%bool_decide_eq_true. done. Qed.
Lemma pair_together : together (abstract pair_graph) 3 4.
Proof.
  apply rtsc_lr. left. split; [apply in_pair; [lia|vm_compute; reflexivity]|]. split; [apply in_pair; [lia|vm_compute; reflexivity]|]. exists (bytes_of "loc:@x"). split; apply (bool_decide_unpack _); vm_compute; exact I.
Qed.
Lemma pair_ordinary i : i = 3 \/ i = 4 -> ordinary (abstract pair_graph) i.
Proof.
  intros Hi. split; [lia|]. destruct Hi as [->| ->]; (eexists; split; [vm_compute; reflexivity|]; split; [reflexivity|]; split; [apply (bool_decide_unpack _); vm_compute; exact I|intros [Hin _]; vm_compute in Hin; discriminate Hin]).
Qed.
Lemma placer_places_witness : exists st g' a', place (device_set_of worker) false (built pair_graph) = Done (st, g') /\ rep address g' a' /\ only_devices (abstract pair_graph) a' /\
  (ok st = true -> forall i v', is_op (abstract pair_graph) i -> a_nodes a' !! i = Some v' -> exists d, d ∈ worker /\ DeviceSet.name d = a_device v' /\ DeviceSet.device_type d ∈ own_types (device_set_of worker) (abstract pair_graph) i).
Proof. apply (placer_places address worker false worker_ok); [apply pair_rep|apply pair_rep|apply pair_placeable]. Defined.
Lemma placer_colocates_witness : exists g' (a' : AGraph (list Z * list Z) (list (list Z))) d, place (device_set_of worker) false (built pair_graph) = Done (OK, g') /\ d ∈ worker /\
  a_device <$> a_nodes a' !! 4 = Some (DeviceSet.name d) /\ a_device <$> a_nodes a' !! 3 = Some (DeviceSet.name d) /\ DeviceNamesFacts.spec (own_name (abstract pair_graph) 3) (DeviceSet.parsed_name d).
Proof.
  destruct pair_placed as (g' & a' & Hrun & Ha). exists g', a'. pose proof (rtsc_sym _ _ _ pair_together) as Ht.
  destruct (placer_colocates address worker false worker_ok _ _ OK g' a' 4 3 (proj1 pair_rep) (proj2 pair_rep) pair_placeable Hrun Ha eq_refl Ht (pair_ordinary 4 ltac:(by right)) (pair_ordinary 3 ltac:(by left))) as (d & H1 & H2 & H3 & H4).
  exists d. exact (conj Hrun (conj H1 (conj H2 (conj H3 (H4 pair_strict 3 Ht))))).
Defined.
Lemma placer_decides_witness : exists st g', place (device_set_of worker) false (built pair_graph) = Done (st, g') /\ (ok st = true <-> feasible (device_set_of worker) (abstract pair_graph)).
Proof. apply (placer_decides address worker false worker_ok); [apply pair_rep|apply pair_rep|apply pair_placeable|apply pair_strict]. Defined.
Lemma placer_classes_witness : wp (let! ps := on_graph nodes in let! st := add_nodes (device_set_of worker) false ps in if negb (ok st) then st_ret st else constrain_nodes false ps) (mkState (built pair_graph) [] ∅) (fun st s' =>
  graph_ s' = built pair_graph /\ (ok st = true -> forall i j, is_op (abstract pair_graph) i -> is_op (abstract pair_graph) j -> (exists r, root_of (up (members_ s')) i r /\ root_of (up (members_ s')) j r) <-> together (abstract pair_graph) i j)).
Proof. apply (placer_classes address worker false worker_ok); [apply pair_rep|apply pair_rep|apply pair_placeable]. Defined.

(** Three graphs on which the placer returns OK and breaks a constraint: a constant
    with one consumer is put on the consumer's device though it asked for another
    one; one is, though it has to be with a node on another device; and the name
    of a node with an input by reference is replaced though the node has a device,
    so that the two ends are not together. *)
Theorem placer_breaks_constraints :
  (place_and_read false request_graph [2] = Done (OK, [CPU0]) /\
   map (fun d => DeviceNames.IsSpecification (own_name (abstract request_graph) 2) (DeviceSet.parsed_name d)) worker = [false; true; false] /\ map DeviceSet.name worker = [CPU0; CPU1; GPU0]) /\
  (place_and_read false group_graph [3; 4] = Done (OK, [CPU1; CPU0]) /\ together (abstract group_graph) 3 4) /\
  (place_and_read false assigned_graph [2; 4] = Done (OK, [CPU0; CPU1]) /\ together (abstract assigned_graph) 2 4).
Proof.
  split; [split; [vm_compute; reflexivity|split; vm_compute; reflexivity]|]. split; (split; [vm_compute; reflexivity|]); apply rtsc_lr.
  - left. split; [split; [lia|apply (bool_decide_unpack _); vm_compute; exact I]|]. split; [split; [lia|apply (bool_decide_unpack _); vm_compute; exact I]|]. exists (bytes_of "loc:@x"). split; apply (bool_decide_unpack _); vm_compute; exact I.
  - right. exists 1, (mkAEdge 2 0 4 0). split; [vm_compute; reflexivity|]. split; [|done]. split; [done|]. split; [done|]. exists 101. split; [vm_compute; reflexivity|by left].
Qed.
End PlacerTheorems.
