(* ===== verification/PartialTensorShape.v ===== *)
(** * Partially known shapes

    [PartialTensorShape] of [core/framework/partial_tensor_shape.{h,cc}]: a
    shape whose rank, or some of whose sizes, may be unknown. A failed [CHECK]
    is [None]. *)
From S2P Require Import Prelude Status Numbers TensorShape.


Import Status Numbers.
Open Scope Z_scope.

(** tensor_shape.proto, without the names of the dimensions. *)
Record TensorShapeProto := mkShapeProto { proto_dim : list Z; unknown_rank : bool }.

Module PartialTensorShape.

Record PartialTensorShape := mkPartial { is_unknown_ : bool; dim_sizes_ : list Z }.
#[global] Instance PartialTensorShape_eq_dec : EqDecision PartialTensorShape.
Proof. solve_decision. Defined.
Definition new_PartialTensorShape : PartialTensorShape := mkPartial true [].

Definition dims (s : PartialTensorShape) : Z := if is_unknown_ s then -1 else zlength (dim_sizes_ s).
(** [None]: a failed [DCHECK]. *)
Definition dim_size (s : PartialTensorShape) (d : Z) : option Z :=
  if 0 <=? d then if is_unknown_ s then Some (-1) else dim_sizes_ s !!z d else None.

Definition size_text (v : Z) : list Z := if v =? -1 then bytes_of "?" else FastInt64ToBufferLeft v.
(** The loop of the two [DebugString]s. *)
Fixpoint debug_loop (s : list Z) (first : bool) (sizes : list Z) : list Z :=
  match sizes with
  | [] => s
  | v :: sizes' => debug_loop (s ++ (if first then [] else bytes_of ",") ++ size_text v) false sizes'
  end.
Definition DebugString (s : PartialTensorShape) : list Z :=
  if is_unknown_ s then bytes_of "<unknown>" else debug_loop (bytes_of "[") true (dim_sizes_ s) ++ bytes_of "]".
Definition proto_DebugString (proto : TensorShapeProto) : list Z :=
  if unknown_rank proto then bytes_of "<unknown>" else debug_loop (bytes_of "[") true (proto_dim proto) ++ bytes_of "]".

Definition IsValid (proto : TensorShapeProto) : bool :=
  if unknown_rank proto then zlength (proto_dim proto) =? 0 else negb (existsb (fun d => d <? -1) (proto_dim proto)).
Definition IsFullyDefined (s : PartialTensorShape) : bool :=
  if is_unknown_ s then false else negb (existsb (fun v => v <? 0) (dim_sizes_ s)).
Definition IsValidShape (proto : TensorShapeProto) : Status :=
  if unknown_rank proto && (0 <? zlength (proto_dim proto)) then
    InvalidArgument (bytes_of "An unknown shape must not have any dimensions set.")
  else if existsb (fun d => d <? -1) (proto_dim proto) then
    InvalidArgument (bytes_of "Shape " ++ proto_DebugString proto ++ bytes_of " has dimensions with values below -1 (where -1 means unknown)")
  else OK.

(** The constructors, from a proto and from sizes. *)
Definition of_sizes (sizes : list Z) : option PartialTensorShape :=
  if forallb (fun d => -1 <=? d) sizes then Some (mkPartial false sizes) else None.
Definition of_proto (proto : TensorShapeProto) : option PartialTensorShape :=
  if unknown_rank proto then Some (mkPartial true []) else of_sizes (proto_dim proto).

Definition Concatenate_dim (s : PartialTensorShape) (size : Z) : option PartialTensorShape :=
  if is_unknown_ s then Some s else if -1 <=? size then Some (mkPartial false (dim_sizes_ s ++ [size])) else None.
Definition Concatenate (s shape : PartialTensorShape) : PartialTensorShape :=
  if is_unknown_ s || is_unknown_ shape then new_PartialTensorShape else mkPartial false (dim_sizes_ s ++ dim_sizes_ shape).

(** The loop of [MergeWith] over the sizes of [this] and [shape] from [i], with
    [result->dim_sizes_]: whether the shapes agree, and the result. *)
Fixpoint merge_loop (i : nat) (mine theirs : list Z) (result : list Z) : bool * list Z :=
  match mine, theirs with
  | d :: mine', e :: theirs' =>
      if d =? -1 then merge_loop (S i) mine' theirs' (<[i := e]> result)
      else if negb (e =? -1) && negb (d =? e) then (false, result)
      else merge_loop (S i) mine' theirs' result
  | _, _ => (true, result)
  end.
(** [*result] is another object than [this]. *)
Definition MergeWith (s shape : PartialTensorShape) : Status * PartialTensorShape :=
  if is_unknown_ s then (OK, shape)
  else if is_unknown_ shape then (OK, s)
  else if negb (dims s =? dims shape) then
    (InvalidArgument (bytes_of "PartialTensorShape: Incompatible ranks during merge: " ++ FastInt32ToBufferLeft (dims s) ++ bytes_of " vs. " ++
       FastInt32ToBufferLeft (dims shape)), s)
  else
    let '(agree, result) := merge_loop 0 (dim_sizes_ s) (dim_sizes_ shape) (dim_sizes_ s) in
    if agree then (OK, mkPartial false result)
    else (InvalidArgument (bytes_of "PartialTensorShape: Incompatible shapes during merge: " ++ DebugString s ++ bytes_of " vs. " ++ DebugString shape),
          mkPartial false result).

Definition AsProto (s : PartialTensorShape) : TensorShapeProto :=
  if is_unknown_ s then mkShapeProto [] true else mkShapeProto (dim_sizes_ s) false.
(** [*shape], and whether it is complete. *)
Fixpoint to_shape (sizes : list Z) (shape : TensorShape.TensorShape) : option (bool * TensorShape.TensorShape) :=
  match sizes with
  | [] => Some (true, shape)
  | s :: sizes' =>
      if s <? 0 then Some (false, shape)
      else match TensorShape.AddDim s shape with Some shape' => to_shape sizes' shape' | None => None end
  end.
Definition AsTensorShape (s : PartialTensorShape) (shape : TensorShape.TensorShape) : option (bool * TensorShape.TensorShape) :=
  if is_unknown_ s then Some (false, shape) else to_shape (dim_sizes_ s) (TensorShape.Clear shape).

Fixpoint compatible_loop (mine theirs : list Z) : bool :=
  match mine, theirs with
  | d :: mine', e :: theirs' => ((d =? -1) || (e =? -1) || (d =? e)) && compatible_loop mine' theirs'
  | _, _ => true
  end.
Definition IsCompatibleWith (s shape : PartialTensorShape) : bool :=
  if is_unknown_ s || is_unknown_ shape then true
  else (dims s =? dims shape) && compatible_loop (dim_sizes_ s) (dim_sizes_ shape).
(** Against a [TensorShape], whose sizes are not negative. *)
Fixpoint compatible_shape_loop (mine : list Z) (i : Z) (shape : TensorShape.TensorShape) : bool :=
  match mine with
  | d :: mine' => ((d =? -1) || bool_decide (Some d = TensorShape.dim_size shape i)) && compatible_shape_loop mine' (i + 1) shape
  | [] => true
  end.
Definition IsCompatibleWith_shape (s : PartialTensorShape) (shape : TensorShape.TensorShape) : bool :=
  if is_unknown_ s then true else (dims s =? TensorShape.dims shape) && compatible_shape_loop (dim_sizes_ s) 0 shape.

(** [out_dims] is not cleared. *)
Fixpoint CheckAndCopyDims (sizes : list Z) (out_dims : list Z) : Status * list Z :=
  match sizes with
  | [] => (OK, out_dims)
  | dim :: sizes' =>
      if -1 <=? dim then CheckAndCopyDims sizes' (out_dims ++ [dim])
      else (InvalidArgument (bytes_of "Dimension " ++ FastInt64ToBufferLeft dim ++ bytes_of " must be >= -1"), out_dims)
  end.
Definition MakePartialShape (sizes : list Z) (out : PartialTensorShape) : Status * PartialTensorShape :=
  let '(s, l) := CheckAndCopyDims sizes (dim_sizes_ out) in (s, mkPartial false l).

Fixpoint list_text (result : list Z) (first : bool) (shapes : list PartialTensorShape) : list Z :=
  match shapes with
  | [] => result
  | s :: shapes' => list_text (result ++ (if first then [] else bytes_of ", ") ++ DebugString s) false shapes'
  end.
Definition PartialShapeListString (shapes : list PartialTensorShape) : list Z := list_text (bytes_of "[") true shapes ++ bytes_of "]".
Fixpoint AreCompatible_loop (shapes0 shapes1 : list PartialTensorShape) : bool :=
  match shapes0, shapes1 with
  | a :: shapes0', b :: shapes1' => IsCompatibleWith a b && AreCompatible_loop shapes0' shapes1'
  | _, _ => true
  end.
Definition AreCompatible (shapes0 shapes1 : list PartialTensorShape) : bool :=
  (zlength shapes0 =? zlength shapes1) && AreCompatible_loop shapes0 shapes1.

End PartialTensorShape.
