(* ===== verification/ShapeInference.v ===== *)
(** * Shape inference: attributes and the context

    Module [Attrs]: what shape functions read of a node
    ([core/framework/node_def_util.cc], [attr_value_util.cc],
    [util/padding.cc]): attributes of a given type, and the ranges of inputs and
    outputs that the arguments of its op stand for.

    Module [ShapeInference]: [InferenceContext] of
    [core/framework/shape_inference.{h,cc}]: what is known of the shapes of a
    node's inputs and outputs, and the operations by which shape functions
    compute with them.

    A handle is the position of its object in the order of allocation, or null
    ([None]); the memory [ShapeManager] holds the dimensions and shapes of all
    contexts that exist, and a context owns those that its calls appended. An
    operation returns an error status or its result ([*out]); on errors no
    caller reads [*out]. A failed [CHECK] or [DCHECK], an exception of the
    standard library and an access out of range abort. *)
From S2P Require Import Prelude Status Numbers DataTypes TensorShape PartialTensorShape EdgeSet Graph.
From stdpp Require Import gmap.
Open Scope Z_scope.

Module Attrs.
Import Status Numbers.

(** attr_value.proto. A float is its bits; a tensor and a function are their
    serialized messages. *)
Record ListValue := mkList {
  l_s : list (list Z); l_i : list Z; l_f : list Z; l_b : list bool; l_type : list Z;
  l_shape : list TensorShapeProto; l_tensor : list (list Z)
}.
Inductive AttrValue :=
| VALUE_NOT_SET
| kS (s : list Z) | kI (i : Z) | kF (f : Z) | kB (b : bool) | kType (type : Z)
| kShape (shape : TensorShapeProto) | kTensor (tensor : list Z)
| kList (l : ListValue) | kFunc (func : list Z) | kPlaceholder (placeholder : list Z).
Definition empty_list : ListValue := mkList [] [] [] [] [] [] [].
(** Accessors give the default value when another case is set. *)
Definition attr_list (a : AttrValue) : ListValue := match a with kList l => l | _ => empty_list end.
Definition attr_s (a : AttrValue) : list Z := match a with kS s => s | _ => [] end.
Definition attr_i (a : AttrValue) : Z := match a with kI i => i | _ => 0 end.
Definition attr_b (a : AttrValue) : bool := match a with kB b => b | _ => false end.
Definition attr_type (a : AttrValue) : Z := match a with kType t => t | _ => 0 end.

(** op_def.proto: what the arguments of an op say of their number. *)
Record ArgDef := mkArg { arg_name : list Z; arg_type : Z; type_attr : list Z; number_attr : list Z; type_list_attr : list Z }.
Record OpDef := mkOpDef { input_arg : list ArgDef; output_arg : list ArgDef }.
Abbreviation NodeDef := (Graph.NodeDef AttrValue).

(** [AttachDef] and [SummarizeOpDef], texts of messages. *)
Class DefText := { AttachDef : Status -> NodeDef -> Status; SummarizeOpDef : OpDef -> list Z }.

(** [VALIDATE_FIELD]: the number of elements of the field in a list, whether
    the field is the case that is set, and its type. The result is an error
    or [num_set]. *)
Definition validate_field (a : AttrValue) (type : list Z) (num_set : Z) (field : nat * bool * list Z) : Status + Z :=
  let '(size, set, type_string) := field in
  match a with
  | kList _ =>
      if (0 <? size)%nat then
        if negb (bool_decide (type = bytes_of "list(" ++ type_string ++ bytes_of ")")) then
          inl (InvalidArgument (bytes_of "AttrValue had value with type 'list(" ++ type_string ++ bytes_of ")' when '" ++ type ++ bytes_of "' expected"))
        else inr (num_set + 1)
      else inr num_set
  | _ =>
      if set then
        if negb (bool_decide (type = type_string)) then
          inl (InvalidArgument (bytes_of "AttrValue had value with type '" ++ type_string ++ bytes_of "' when '" ++ type ++ bytes_of "' expected"))
        else inr (num_set + 1)
      else inr num_set
  end.
Fixpoint validate_fields (a : AttrValue) (type : list Z) (num_set : Z) (fields : list (nat * bool * list Z)) : Status + Z :=
  match fields with
  | [] => inr num_set
  | field :: fields' => match validate_field a type num_set field with inl s => inl s | inr n => validate_fields a type n fields' end
  end.
Definition fields (a : AttrValue) : list (nat * bool * list Z) :=
  let l := attr_list a in
  [(length (l_s l), match a with kS _ => true | _ => false end, bytes_of "string");
   (length (l_i l), match a with kI _ => true | _ => false end, bytes_of "int");
   (length (l_f l), match a with kF _ => true | _ => false end, bytes_of "float");
   (length (l_b l), match a with kB _ => true | _ => false end, bytes_of "bool");
   (length (l_type l), match a with kType _ => true | _ => false end, bytes_of "type");
   (length (l_shape l), match a with kShape _ => true | _ => false end, bytes_of "shape");
   (length (l_tensor l), match a with kTensor _ => true | _ => false end, bytes_of "tensor")].

Definition has_list (a : AttrValue) : bool := match a with kList _ => true | _ => false end.
Definition starts_list (type : list Z) : bool := bool_decide (take 5 type = bytes_of "list(").
Definition missing (type : list Z) : Status := InvalidArgument (bytes_of "AttrValue missing value with expected type '" ++ type ++ bytes_of "'").
(** [DataTypeString] ends the program on a number that is no type. Only attributes
    of type [type] or [list(type)] come here, which no shape function asks for. *)
Definition type_name (dtype : Z) : list Z := default [] (DataTypes.DataTypeString dtype).
(** The check of the elements of a list of types. *)
Fixpoint check_types (types : list Z) : Status :=
  match types with
  | [] => OK
  | dtype :: types' =>
      if DataTypes.IsRefType dtype then InvalidArgument (bytes_of "AttrValue must not have reference type value of " ++ type_name dtype)
      else if dtype =? 0 then InvalidArgument (bytes_of "AttrValue contains invalid DataType")
      else check_types types'
  end.
Definition AttrValueHasType (a : AttrValue) (type : list Z) : Status :=
  match validate_fields a type 0 (fields a) with
  | inl s => s
  | inr num_set =>
      let func := match a with kFunc _ => true | _ => false end in
      if func && negb (bool_decide (type = bytes_of "func")) then
        InvalidArgument (bytes_of "AttrValue had value with type 'func' when '" ++ type ++ bytes_of "' expected")
      else
        let num_set := if func then num_set + 1 else num_set in
        if match a with kPlaceholder _ => true | _ => false end then InvalidArgument (bytes_of "AttrValue had value with unexpected type 'placeholder'")
        else if starts_list type && negb (has_list a) && negb (num_set =? 0) then missing type
        else
          let num_set := if starts_list type && negb (has_list a) then num_set + 1 else num_set in
          if (num_set =? 0) && negb (starts_list type) then missing type
          else if bool_decide (type = bytes_of "type") then
            if DataTypes.IsRefType (attr_type a) then InvalidArgument (bytes_of "AttrValue must not have reference type value of " ++ type_name (attr_type a))
            else if attr_type a =? 0 then InvalidArgument (bytes_of "AttrValue has invalid DataType")
            else OK
          else if bool_decide (type = bytes_of "list(type)") then check_types (l_type (attr_list a))
          else OK
  end.

Section Nodes.
Context {text : DefText}.

Definition Find (node_def : NodeDef) (attr_name : list Z) : Status + AttrValue :=
  match Graph.def_attr node_def !! attr_name with
  | Some v => inr v
  | None =>
      let s := NotFound (bytes_of "No attr named '" ++ attr_name ++ bytes_of "' in NodeDef:") in
      inl (if bool_decide (take 1 attr_name = bytes_of "_") then s else AttachDef s node_def)
  end.
(** [DEFINE_GET_ATTR] up to the value, which has the type. *)
Definition find_typed (node_def : NodeDef) (attr_name type : list Z) : Status + AttrValue :=
  match Find node_def attr_name with
  | inl s => inl s
  | inr v => let s := AttrValueHasType v type in if ok s then inr v else inl s
  end.
Definition GetNodeAttr_string (node_def : NodeDef) (attr_name : list Z) : Status + list Z :=
  match find_typed node_def attr_name (bytes_of "string") with inl s => inl s | inr v => inr (attr_s v) end.
Definition GetNodeAttr_bool (node_def : NodeDef) (attr_name : list Z) : Status + bool :=
  match find_typed node_def attr_name (bytes_of "bool") with inl s => inl s | inr v => inr (attr_b v) end.
Definition to_int32 (attr_name : list Z) (v : Z) : Status + Z :=
  if negb (s32 v =? v) then
    inl (InvalidArgument (bytes_of "Attr " ++ attr_name ++ bytes_of " has value " ++ FastInt64ToBufferLeft v ++ bytes_of " out of range for an int32"))
  else inr (s32 v).
Definition GetNodeAttr_int32 (node_def : NodeDef) (attr_name : list Z) : Status + Z :=
  match find_typed node_def attr_name (bytes_of "int") with inl s => inl s | inr v => to_int32 attr_name (attr_i v) end.
Fixpoint to_int32s (attr_name : list Z) (l : list Z) : Status + list Z :=
  match l with
  | [] => inr []
  | v :: l' =>
      match to_int32 attr_name v with
      | inl s => inl s
      | inr x => match to_int32s attr_name l' with inl s => inl s | inr xs => inr (x :: xs) end
      end
  end.
Definition GetNodeAttr_int32s (node_def : NodeDef) (attr_name : list Z) : Status + list Z :=
  match find_typed node_def attr_name (bytes_of "list(int)") with inl s => inl s | inr v => to_int32s attr_name (l_i (attr_list v)) end.

(** util/padding.{h,cc} *)
Inductive Padding := VALID | SAME.
Definition GetNodeAttr_Padding (node_def : NodeDef) (attr_name : list Z) : Status + Padding :=
  match GetNodeAttr_string node_def attr_name with
  | inl s => inl s
  | inr str_value =>
      if bool_decide (str_value = bytes_of "SAME") then inr SAME
      else if bool_decide (str_value = bytes_of "VALID") then inr VALID
      else inl (NotFound (str_value ++ bytes_of " is not an allowed padding type"))
  end.

(** ** The ranges of the arguments of an op *)

Definition ComputeArgRange (node_def : NodeDef) (arg_def : ArgDef) (op_def : OpDef) : Status + Z :=
  if negb (bool_decide (number_attr arg_def = [])) then GetNodeAttr_int32 node_def (number_attr arg_def)
  else if negb (bool_decide (type_list_attr arg_def = [])) then
    match Find node_def (type_list_attr arg_def) with inl s => inl s | inr v => inr (zlength (l_type (attr_list v))) end
  else if negb (bool_decide (type_attr arg_def = [])) || negb (arg_type arg_def =? 0) then inr 1
  else inl (InvalidArgument (bytes_of "Argument '" ++ arg_name arg_def ++ bytes_of "' incorrectly specified in op definition: " ++ SummarizeOpDef op_def)).
Definition NameRangeMap : Type := gmap (list Z) (Z * Z).
Fixpoint name_ranges (node_def : NodeDef) (args : list ArgDef) (op_def : OpDef) (start : Z) (result : NameRangeMap) : Status * NameRangeMap :=
  match args with
  | [] => (OK, result)
  | arg :: args' =>
      match ComputeArgRange node_def arg op_def with
      | inl s => (s, result)
      | inr num => name_ranges node_def args' op_def (s32 (start + num)) (<[arg_name arg := (start, s32 (start + num))]> result)
      end
  end.
Definition NameRangesHelper (node_def : NodeDef) (args : list ArgDef) (op_def : OpDef) (result : NameRangeMap) : Status * NameRangeMap :=
  name_ranges node_def args op_def 0 result.
(** Both maps are asked for. *)
Definition NameRangesForNode (node_def : NodeDef) (op_def : OpDef) (inputs outputs : NameRangeMap) : Status * NameRangeMap * NameRangeMap :=
  let '(s, inputs') := NameRangesHelper node_def (input_arg op_def) op_def inputs in
  if ok s then let '(s', outputs') := NameRangesHelper node_def (output_arg op_def) op_def outputs in (s', inputs', outputs')
  else (s, inputs', outputs).
End Nodes.
End Attrs.

Module ShapeInference.
Import Status Numbers Attrs.

Definition kUnknownDim : Z := -1.
Definition kUnknownRank : Z := -1.
Definition kint32max : Z := 2 ^ 31 - 1.
Definition kint64max : Z := 2 ^ 63 - 1.
Definition DT_INT32 : Z := 3.
Definition DT_INT64 : Z := 9.
Definition DT_INVALID : Z := 0.

Definition DimensionHandle : Type := option nat.
Definition ShapeHandle : Type := option nat.
Inductive DimensionOrConstant := of_dim (dim : DimensionHandle) | of_val (val : Z).

(** A dimension is its value. *)
Record Shape := mkShape { rank_ : Z; dims_ : list DimensionHandle }.
Record ShapeManager := mkManager { all_shapes_ : list Shape; all_dims_ : list Z }.
(** A tensor, as far as it is read: its type, its sizes and its integers. *)
Record Tensor := mkTensor { dtype : Z; shape : list Z; elements : list Z }.

Record InferenceContext := mkContext {
  shape_manager_ : ShapeManager;
  inputs_ : list ShapeHandle;
  input_tensors_ : list (option Tensor);
  requested_input_tensor_ : list bool;
  outputs_ : list ShapeHandle;
  input_tensors_as_shapes_ : list ShapeHandle;
  requested_input_tensor_as_partial_shape_ : list bool;
  input_handle_shape_ : list ShapeHandle;
  input_handle_dtype_ : list Z;
  output_handle_shape_ : list ShapeHandle;
  output_handle_dtype_ : list Z;
  node_def_ : NodeDef;
  input_name_map_ : NameRangeMap;
  output_name_map_ : NameRangeMap;
  construction_status_ : Status
}.

(** Writes to the fields. *)
Definition with_manager m (c : InferenceContext) := mkContext m (inputs_ c) (input_tensors_ c) (requested_input_tensor_ c) (outputs_ c) (input_tensors_as_shapes_ c) (requested_input_tensor_as_partial_shape_ c) (input_handle_shape_ c) (input_handle_dtype_ c) (output_handle_shape_ c) (output_handle_dtype_ c) (node_def_ c) (input_name_map_ c) (output_name_map_ c) (construction_status_ c).
Definition with_inputs l (c : InferenceContext) := mkContext (shape_manager_ c) l (input_tensors_ c) (requested_input_tensor_ c) (outputs_ c) (input_tensors_as_shapes_ c) (requested_input_tensor_as_partial_shape_ c) (input_handle_shape_ c) (input_handle_dtype_ c) (output_handle_shape_ c) (output_handle_dtype_ c) (node_def_ c) (input_name_map_ c) (output_name_map_ c) (construction_status_ c).
Definition with_tensors l (c : InferenceContext) := mkContext (shape_manager_ c) (inputs_ c) l (requested_input_tensor_ c) (outputs_ c) (input_tensors_as_shapes_ c) (requested_input_tensor_as_partial_shape_ c) (input_handle_shape_ c) (input_handle_dtype_ c) (output_handle_shape_ c) (output_handle_dtype_ c) (node_def_ c) (input_name_map_ c) (output_name_map_ c) (construction_status_ c).
Definition with_requested l (c : InferenceContext) := mkContext (shape_manager_ c) (inputs_ c) (input_tensors_ c) l (outputs_ c) (input_tensors_as_shapes_ c) (requested_input_tensor_as_partial_shape_ c) (input_handle_shape_ c) (input_handle_dtype_ c) (output_handle_shape_ c) (output_handle_dtype_ c) (node_def_ c) (input_name_map_ c) (output_name_map_ c) (construction_status_ c).
Definition with_outputs l (c : InferenceContext) := mkContext (shape_manager_ c) (inputs_ c) (input_tensors_ c) (requested_input_tensor_ c) l (input_tensors_as_shapes_ c) (requested_input_tensor_as_partial_shape_ c) (input_handle_shape_ c) (input_handle_dtype_ c) (output_handle_shape_ c) (output_handle_dtype_ c) (node_def_ c) (input_name_map_ c) (output_name_map_ c) (construction_status_ c).
Definition with_as_shapes l (c : InferenceContext) := mkContext (shape_manager_ c) (inputs_ c) (input_tensors_ c) (requested_input_tensor_ c) (outputs_ c) l (requested_input_tensor_as_partial_shape_ c) (input_handle_shape_ c) (input_handle_dtype_ c) (output_handle_shape_ c) (output_handle_dtype_ c) (node_def_ c) (input_name_map_ c) (output_name_map_ c) (construction_status_ c).
Definition with_requested_partial l (c : InferenceContext) := mkContext (shape_manager_ c) (inputs_ c) (input_tensors_ c) (requested_input_tensor_ c) (outputs_ c) (input_tensors_as_shapes_ c) l (input_handle_shape_ c) (input_handle_dtype_ c) (output_handle_shape_ c) (output_handle_dtype_ c) (node_def_ c) (input_name_map_ c) (output_name_map_ c) (construction_status_ c).
Definition with_input_handles l k (c : InferenceContext) := mkContext (shape_manager_ c) (inputs_ c) (input_tensors_ c) (requested_input_tensor_ c) (outputs_ c) (input_tensors_as_shapes_ c) (requested_input_tensor_as_partial_shape_ c) l k (output_handle_shape_ c) (output_handle_dtype_ c) (node_def_ c) (input_name_map_ c) (output_name_map_ c) (construction_status_ c).
Definition with_output_handles l k (c : InferenceContext) := mkContext (shape_manager_ c) (inputs_ c) (input_tensors_ c) (requested_input_tensor_ c) (outputs_ c) (input_tensors_as_shapes_ c) (requested_input_tensor_as_partial_shape_ c) (input_handle_shape_ c) (input_handle_dtype_ c) l k (node_def_ c) (input_name_map_ c) (output_name_map_ c) (construction_status_ c).
Definition with_names i o (c : InferenceContext) := mkContext (shape_manager_ c) (inputs_ c) (input_tensors_ c) (requested_input_tensor_ c) (outputs_ c) (input_tensors_as_shapes_ c) (requested_input_tensor_as_partial_shape_ c) (input_handle_shape_ c) (input_handle_dtype_ c) (output_handle_shape_ c) (output_handle_dtype_ c) (node_def_ c) i o (construction_status_ c).
Definition with_status s (c : InferenceContext) := mkContext (shape_manager_ c) (inputs_ c) (input_tensors_ c) (requested_input_tensor_ c) (outputs_ c) (input_tensors_as_shapes_ c) (requested_input_tensor_as_partial_shape_ c) (input_handle_shape_ c) (input_handle_dtype_ c) (output_handle_shape_ c) (output_handle_dtype_ c) (node_def_ c) (input_name_map_ c) (output_name_map_ c) s.

(** A computation on a context, one that may return an error, and
    [TF_RETURN_IF_ERROR]. *)
Definition SI (A : Type) : Type := ST InferenceContext A.
Definition ok_with {A} (a : A) : SI (Status + A) := st_ret (inr a).
Definition fail {A} (s : Status) : SI (Status + A) := st_ret (inl s).
Definition try_bind {A B} (m : SI (Status + A)) (k : A -> SI (Status + B)) : SI (Status + B) :=
  let! r := m in match r with inl s => fail s | inr a => k a end.
Notation "'let?' x := m 'in' k" := (try_bind m (fun x => k)) (at level 10, x name, m at level 99, k at level 200) : tf_scope.
Notation "'let?' ' p := m 'in' k" := (try_bind m (fun x => match x with p => k end)) (at level 10, p pattern, m at level 99, k at level 200) : tf_scope.
Definition lift {A} (r : Status + A) : SI (Status + A) := st_ret r.
(** [TF_CHECK_OK] *)
Definition check_ok {A} (m : SI (Status + A)) : SI A := let! r := m in match r with inl _ => st_abort | inr a => st_ret a end.
(** A loop that appends the values of [n] turns, from [i]. *)
Fixpoint tabulate {A} (n : nat) (i : Z) (f : Z -> SI A) : SI (list A) :=
  match n with
  | O => st_ret []
  | S n' => let! x := f i in let! l := tabulate n' (i + 1) f in st_ret (x :: l)
  end.
Fixpoint try_tabulate {A} (n : nat) (i : Z) (f : Z -> SI (Status + A)) : SI (Status + list A) :=
  match n with
  | O => ok_with []
  | S n' => let? x := f i in let? l := try_tabulate n' (i + 1) f in ok_with (x :: l)
  end.
Definition resize {A} (l : list A) (n : nat) (d : A) : list A := take n l ++ replicate (n - length l) d.

Section Context.
Context {text : DefText}.

(** ** The shape manager *)

(** [DimensionOrConstant(dim)], [DimensionOrConstant(val)] and
    [Dimension(value)]: their [DCHECK]s. *)
Definition doc_ok (d : DimensionOrConstant) : bool :=
  match d with of_dim h => bool_decide (is_Some h) | of_val val => (0 <=? val) || (val =? kUnknownDim) end.
Definition MakeDim (d : DimensionOrConstant) : SI DimensionHandle :=
  st_check (doc_ok d) ;;;
  match d with
  | of_dim h => st_ret h
  | of_val val =>
      let! c := st_get in
      let m := shape_manager_ c in
      st_modify (with_manager (mkManager (all_shapes_ m) (all_dims_ m ++ [val]))) ;;;
      st_ret (Some (length (all_dims_ m)))
  end.
Definition new_shape (s : Shape) : SI ShapeHandle :=
  let! c := st_get in
  let m := shape_manager_ c in
  st_modify (with_manager (mkManager (all_shapes_ m ++ [s]) (all_dims_ m))) ;;;
  st_ret (Some (length (all_shapes_ m))).
Definition MakeShape (dims : list DimensionHandle) : SI ShapeHandle := new_shape (mkShape (s32 (zlength dims)) dims).
Definition UnknownShape : SI ShapeHandle := new_shape (mkShape kUnknownRank []).
Definition UnknownDim : SI DimensionHandle := MakeDim (of_val kUnknownDim).

(** ** Reading *)

(** [->] of a handle *)
Definition deref_shape (s : ShapeHandle) : SI Shape :=
  let! c := st_get in st_opt (match s with Some p => all_shapes_ (shape_manager_ c) !! p | None => None end).
Definition deref_dim (d : DimensionHandle) : SI Z :=
  let! c := st_get in st_opt (match d with Some p => all_dims_ (shape_manager_ c) !! p | None => None end).
Definition Rank (s : ShapeHandle) : SI Z := let! x := deref_shape s in st_ret (rank_ x).
Definition RankKnown (s : ShapeHandle) : SI bool :=
  match s with None => st_ret false | Some _ => let! r := Rank s in st_ret (negb (r =? kUnknownRank)) end.
Definition Value (d : DimensionOrConstant) : SI Z :=
  st_check (doc_ok d) ;;; match d with of_dim h => deref_dim h | of_val val => st_ret val end.
Definition ValueKnown (d : DimensionOrConstant) : SI bool := let! v := Value d in st_ret (negb (v =? kUnknownDim)).
Definition Dim (s : ShapeHandle) (idx : Z) : SI DimensionHandle :=
  let! x := deref_shape s in
  if rank_ x =? kUnknownRank then UnknownDim
  else if idx <? 0 then st_opt (dims_ x !!z (zlength (dims_ x) + idx))
  else st_opt (dims_ x !!z idx).

Fixpoint fully_loop (n : nat) (i : Z) (s : ShapeHandle) : SI bool :=
  match n with
  | O => st_ret true
  | S n' => let! d := Dim s i in let! known := ValueKnown (of_dim d) in if negb known then st_ret false else fully_loop n' (i + 1) s
  end.
Definition FullyDefined (s : ShapeHandle) : SI bool :=
  let! known := RankKnown s in
  if negb known then st_ret false else let! rank := Rank s in fully_loop (Z.to_nat rank) 0 s.
Fixpoint elements_loop (n : nat) (i size : Z) (s : ShapeHandle) : SI DimensionHandle :=
  match n with
  | O => MakeDim (of_val size)
  | S n' =>
      let! d := Dim s i in
      let! dim_val := Value (of_dim d) in
      if dim_val =? kUnknownDim then UnknownDim else elements_loop n' (i + 1) (s64 (size * dim_val)) s
  end.
Definition NumElements (s : ShapeHandle) : SI DimensionHandle :=
  let! rank := Rank s in
  if rank =? kUnknownRank then UnknownDim else elements_loop (Z.to_nat rank) 0 1 s.

Definition DebugString_dim (d : DimensionHandle) : SI (list Z) :=
  let! known := ValueKnown (of_dim d) in
  if known then let! v := Value (of_dim d) in st_ret (FastInt64ToBufferLeft v) else st_ret (bytes_of "?").
Fixpoint debug_dims (l : list DimensionHandle) : SI (list (list Z)) :=
  match l with [] => st_ret [] | d :: l' => let! t := DebugString_dim d in let! ts := debug_dims l' in st_ret (t :: ts) end.
Definition DebugString (s : ShapeHandle) : SI (list Z) :=
  let! known := RankKnown s in
  if known then
    let! x := deref_shape s in
    let! vals := debug_dims (dims_ x) in
    st_ret (bytes_of "[" ++ Join vals (bytes_of ",") ++ bytes_of "]")
  else st_ret (bytes_of "?").

(** ** Inputs and outputs *)

Definition input (idx : Z) : SI ShapeHandle := let! c := st_get in st_opt (inputs_ c !!z idx).
Definition num_inputs : SI Z := let! c := st_get in st_ret (zlength (inputs_ c)).
Definition num_outputs : SI Z := let! c := st_get in st_ret (zlength (outputs_ c)).
Definition output (idx : Z) : SI ShapeHandle := let! c := st_get in st_opt (outputs_ c !!z idx).
(** [v[idx] = x] *)
Definition write {A} (get : InferenceContext -> list A) (set : list A -> InferenceContext -> InferenceContext) (idx : Z) (x : A) : SI unit :=
  let! c := st_get in st_opt (get c !!z idx) ;;; st_modify (set (zinsert (get c) idx x)).
Definition set_output (idx : Z) (s : ShapeHandle) : SI unit := write outputs_ with_outputs idx s.
Definition input_tensor (idx : Z) : SI (option Tensor) :=
  write requested_input_tensor_ with_requested idx true ;;;
  let! c := st_get in st_opt (input_tensors_ c !!z idx).
Definition requested_input_tensor (idx : Z) : SI bool := let! c := st_get in st_opt (requested_input_tensor_ c !!z idx).
Definition requested_input_tensor_as_partial_shape (idx : Z) : SI bool := let! c := st_get in st_opt (requested_input_tensor_as_partial_shape_ c !!z idx).
Definition set_input_tensors (l : list (option Tensor)) : SI unit := st_modify (with_tensors l).
Definition set_input_tensors_as_shapes (l : list ShapeHandle) : SI unit := st_modify (with_as_shapes l).
Definition input_handle_shape (idx : Z) : SI ShapeHandle :=
  let! c := st_get in
  let! s := st_opt (input_handle_shape_ c !!z idx) in
  match s with
  | Some _ => st_ret s
  | None =>
      let! u := UnknownShape in
      write input_handle_shape_ (fun l c => with_input_handles l (input_handle_dtype_ c) c) idx u ;;;
      st_ret u
  end.
Definition input_handle_dtype (idx : Z) : SI Z := let! c := st_get in st_opt (input_handle_dtype_ c !!z idx).
Definition set_output_handle_shape (idx : Z) (s : ShapeHandle) : SI unit :=
  write output_handle_shape_ (fun l c => with_output_handles l (output_handle_dtype_ c) c) idx s.
Definition set_output_handle_dtype (idx : Z) (t : Z) : SI unit :=
  write output_handle_dtype_ (fun l c => with_output_handles (output_handle_shape_ c) l c) idx t.
Definition output_handle_shape (idx : Z) : SI ShapeHandle := let! c := st_get in st_opt (output_handle_shape_ c !!z idx).
Definition output_handle_dtype (idx : Z) : SI Z := let! c := st_get in st_opt (output_handle_dtype_ c !!z idx).

(** By the name of an argument. *)
Definition set_output_named (output_name : list Z) (shapes : list ShapeHandle) : SI (Status + unit) :=
  let! c := st_get in
  match output_name_map_ c !! output_name with
  | None => fail (InvalidArgument (bytes_of "Unknown output name: " ++ output_name))
  | Some (start, stop) =>
      (* A status is built when the sizes differ, and not returned. *)
      tabulate (Z.to_nat (stop - start)) 0 (fun i => let! s := st_opt (shapes !!z i) in set_output (i + start) s) ;;;
      ok_with tt
  end.
Definition input_named (input_name : list Z) : SI (Status + list ShapeHandle) :=
  let! c := st_get in
  match input_name_map_ c !! input_name with
  | None => fail (InvalidArgument (bytes_of "Unknown input name: " ++ input_name))
  | Some (start, stop) => let! l := tabulate (Z.to_nat (stop - start)) start input in ok_with l
  end.
Definition output_named (output_name : list Z) : SI (Status + list ShapeHandle) :=
  let! c := st_get in
  match output_name_map_ c !! output_name with
  | None => fail (InvalidArgument (bytes_of "Unknown output name: " ++ output_name))
  | Some (start, stop) => let! l := tabulate (Z.to_nat (stop - start)) start output in ok_with l
  end.

(** [GetAttr] for the types that shape functions ask for. *)
Definition GetAttr {A} (get : NodeDef -> list Z -> Status + A) (attr_name : list Z) : SI (Status + A) :=
  let! c := st_get in st_ret (get (node_def_ c) attr_name).

(** ** Ranks and values *)

Definition number (z : Z) : list Z := FastInt64ToBufferLeft z.
Definition ReturnUnknownShape : SI (Status + ShapeHandle) := let! s := UnknownShape in ok_with s.
Definition ReturnCreatedShape (dims : list DimensionHandle) : SI (Status + ShapeHandle) := let! s := MakeShape dims in ok_with s.
Definition WithRank (s : ShapeHandle) (rank : Z) : SI (Status + ShapeHandle) :=
  let! existing := Rank s in
  if existing =? rank then ok_with s
  else if existing =? kUnknownRank then
    (* [reserve] throws on a negative number. *)
    st_check (0 <=? rank) ;;;
    let! dims := tabulate (Z.to_nat rank) 0 (fun _ => UnknownDim) in
    let! out := MakeShape dims in ok_with out
  else fail (InvalidArgument (bytes_of "Shape must be rank " ++ number rank ++ bytes_of " but is rank " ++ number existing)).
Definition WithRankAtLeast (s : ShapeHandle) (rank : Z) : SI (Status + ShapeHandle) :=
  let! existing := Rank s in
  if rank <=? existing then ok_with s
  else if existing =? kUnknownRank then ReturnUnknownShape
  else fail (InvalidArgument (bytes_of "Shape must be at least rank " ++ number rank ++ bytes_of " but is rank " ++ number existing)).
Definition WithRankAtMost (s : ShapeHandle) (rank : Z) : SI (Status + ShapeHandle) :=
  let! existing := Rank s in
  if existing =? kUnknownRank then ReturnUnknownShape
  else if existing <=? rank then ok_with s
  else fail (InvalidArgument (bytes_of "Shape must be at most rank " ++ number rank ++ bytes_of " but is rank " ++ number existing)).
Definition WithValue (dim : DimensionHandle) (value : Z) : SI (Status + DimensionHandle) :=
  let! existing := Value (of_dim dim) in
  if existing =? value then ok_with dim
  else if existing =? kUnknownDim then let! d := MakeDim (of_val value) in ok_with d
  else fail (InvalidArgument (bytes_of "Dimension must be " ++ number value ++ bytes_of " but is " ++ number existing)).

(** ** Merging *)

Definition SameHandle (a b : option nat) : bool := bool_decide (a = b).
Definition Merge_dim (d0 d1 : DimensionHandle) : SI (Status + DimensionHandle) :=
  let! known1 := if SameHandle d0 d1 then st_ret false else ValueKnown (of_dim d1) in
  if SameHandle d0 d1 || negb known1 then ok_with d0
  else
    let! known0 := ValueKnown (of_dim d0) in
    if negb known0 then ok_with d1
    else
      let! v0 := Value (of_dim d0) in
      let! v1 := Value (of_dim d1) in
      if v0 =? v1 then ok_with d0
      else fail (InvalidArgument (bytes_of "Dimensions must be equal, but are " ++ number v0 ++ bytes_of " and " ++ number v1)).
(** [*s_out] and [*prefix_out]. *)
Definition MergePrefix (s prefix : ShapeHandle) : SI (Status + (ShapeHandle * ShapeHandle)) :=
  let! known_prefix := RankKnown prefix in
  let! known := if known_prefix then RankKnown s else st_ret false in
  if negb known_prefix || negb known then ok_with (s, prefix)
  else
    let! rank := Rank prefix in
    let? s := WithRankAtLeast s rank in
    let? dims := try_tabulate (Z.to_nat rank) 0 (fun i => let! d := Dim s i in let! p := Dim prefix i in Merge_dim d p) in
    let! prefix_out := MakeShape dims in
    let! s_rank := Rank s in
    let! rest := tabulate (Z.to_nat (s_rank - rank)) rank (Dim s) in
    let! s_out := MakeShape (dims ++ rest) in
    ok_with (s_out, prefix_out).

(** The first loop of [Merge]: [return_s0] and [return_s1]. *)
Fixpoint merge_check (n : nat) (i : Z) (s0 s1 : ShapeHandle) (return_s0 return_s1 : bool) : SI (Status + (bool * bool)) :=
  match n with
  | O => ok_with (return_s0, return_s1)
  | S n' =>
      let! d0 := Dim s0 i in
      let! d1 := Dim s1 i in
      if SameHandle d0 d1 then merge_check n' (i + 1) s0 s1 return_s0 return_s1
      else
        let! v0 := Value (of_dim d0) in
        let! v1 := Value (of_dim d1) in
        if v0 =? kUnknownDim then merge_check n' (i + 1) s0 s1 (if v1 =? kUnknownDim then return_s0 else false) return_s1
        else if v1 =? kUnknownDim then merge_check n' (i + 1) s0 s1 return_s0 false
        else if negb (v0 =? v1) then
          fail (InvalidArgument (bytes_of "Dimension " ++ number i ++ bytes_of " in both shapes must be equal, but are " ++ number v0 ++
            bytes_of " and " ++ number v1))
        else merge_check n' (i + 1) s0 s1 return_s0 return_s1
  end.
Definition Merge (s0 s1 : ShapeHandle) : SI (Status + ShapeHandle) :=
  let! known1 := if SameHandle s0 s1 then st_ret false else RankKnown s1 in
  if SameHandle s0 s1 || negb known1 then ok_with s0
  else
    let! known0 := RankKnown s0 in
    if negb known0 then ok_with s1
    else
      let! rank := Rank s0 in
      let! rank1 := Rank s1 in
      if negb (rank =? rank1) then
        fail (InvalidArgument (bytes_of "Shapes must be equal rank, but are " ++ number rank ++ bytes_of " and " ++ number rank1))
      else
        let? '(return_s0, return_s1) := merge_check (Z.to_nat rank) 0 s0 s1 true true in
        if return_s0 || return_s1 then ok_with (if return_s0 then s0 else s1)
        else
          let! dims := tabulate (Z.to_nat rank) 0 (fun i => let! d0 := Dim s0 i in let! d1 := Dim s1 i in check_ok (Merge_dim d0 d1)) in
          ReturnCreatedShape dims.

(** ** Parts of shapes *)

Definition Subshape (s : ShapeHandle) (start_in end_in : Z) : SI (Status + ShapeHandle) :=
  let! rank := Rank s in
  let! known := RankKnown s in
  if (start_in =? 0) && ((known && (rank <=? end_in)) || (end_in =? kint64max)) then ok_with s
  else if negb known then ReturnUnknownShape
  else
    let start := if rank <? start_in then rank else start_in in
    let stop := if rank <? end_in then rank else end_in in
    let start' := if start <? 0 then rank + start else start in
    if start' <? 0 then
      fail (InvalidArgument (bytes_of "Subshape start out of bounds: " ++ number start_in ++ bytes_of ", for shape with rank " ++ number rank))
    else
      let stop' := if stop <? 0 then rank + stop else stop in
      if stop' <? 0 then
        fail (InvalidArgument (bytes_of "Subshape end out of bounds: " ++ number end_in ++ bytes_of ", for shape with rank " ++ number rank))
      else if stop' <? start' then
        fail (InvalidArgument (bytes_of "Subshape must have computed start <= end, but is " ++ number start' ++ bytes_of " and " ++ number stop' ++
          bytes_of " (computed from start " ++ number start_in ++ bytes_of " and end " ++ number end_in ++ bytes_of " over shape with rank " ++
          number rank ++ bytes_of ")"))
      else
        let! dims := tabulate (Z.to_nat (stop' - start')) start' (Dim s) in
        ReturnCreatedShape dims.
Definition Subshape_from (s : ShapeHandle) (start : Z) : SI (Status + ShapeHandle) := Subshape s start kint64max.
Definition Concatenate (s1 s2 : ShapeHandle) : SI (Status + ShapeHandle) :=
  let! known1 := RankKnown s1 in
  let! known2 := if known1 then RankKnown s2 else st_ret false in
  if negb known1 || negb known2 then ReturnUnknownShape
  else
    let! s1_rank := Rank s1 in
    let! s2_rank := Rank s2 in
    let! dims1 := tabulate (Z.to_nat s1_rank) 0 (Dim s1) in
    let! dims2 := tabulate (Z.to_nat s2_rank) 0 (Dim s2) in
    ReturnCreatedShape (dims1 ++ dims2).
Definition ReplaceDim (s : ShapeHandle) (dim_index_in : Z) (new_dim : DimensionHandle) : SI (Status + ShapeHandle) :=
  let! known := RankKnown s in
  if negb known then ReturnUnknownShape
  else
    let! x := deref_shape s in
    let dim_index := if dim_index_in <? 0 then s32 (zlength (dims_ x) + dim_index_in) else dim_index_in in
    if negb (u64 dim_index <? zlength (dims_ x)) then
      fail (InvalidArgument (bytes_of "Out of range dim_index " ++ number dim_index_in ++ bytes_of " for shape with " ++ number (zlength (dims_ x)) ++
        bytes_of " dimensions"))
    else ReturnCreatedShape (zinsert (dims_ x) dim_index new_dim).

(** ** Making shapes *)

Fixpoint make_dims (l : list DimensionOrConstant) : SI (list DimensionHandle) :=
  match l with [] => st_ret [] | d :: l' => let! h := MakeDim d in let! hs := make_dims l' in st_ret (h :: hs) end.
(** [MakeShape] of an initializer list *)
Definition MakeShape_list (dims : list DimensionOrConstant) : SI ShapeHandle := let! dims_actual := make_dims dims in MakeShape dims_actual.
Definition UnknownShapeOfRank (rank : Z) : SI ShapeHandle :=
  (* A vector of a negative size throws. *)
  st_check (0 <=? rank) ;;;
  let! dims := tabulate (Z.to_nat rank) 0 (fun _ => UnknownDim) in MakeShape dims.
Definition Scalar : SI ShapeHandle := MakeShape_list [].
Definition Vector (dim : DimensionOrConstant) : SI ShapeHandle := MakeShape_list [dim].
Definition Matrix (dim1 dim2 : DimensionOrConstant) : SI ShapeHandle := MakeShape_list [dim1; dim2].

(** [flat<T>] and [scalar<T>]: the type is checked, and that there is one
    element. *)
Definition flat (t : Tensor) (type : Z) : SI (list Z) := st_check (dtype t =? type) ;;; st_ret (elements t).
Definition scalar (t : Tensor) (type : Z) : SI Z :=
  st_check (dtype t =? type) ;;; match elements t with [x] => st_ret x | _ => st_abort end.
Fixpoint dims_of_values (l : list Z) : SI (Status + list DimensionHandle) :=
  match l with
  | [] => ok_with []
  | val :: l' =>
      if val <? -1 then fail (InvalidArgument (bytes_of "Invalid value in tensor used for shape: " ++ number val))
      else let! d := MakeDim (of_val val) in let? ds := dims_of_values l' in ok_with (d :: ds)
  end.
Definition MakeShapeFromTensor (t : option Tensor) (tensor_shape : ShapeHandle) : SI (Status + ShapeHandle) :=
  match t with
  | None =>
      let! shape_dim := Dim tensor_shape 0 in
      let! known := ValueKnown (of_dim shape_dim) in
      if negb known then ReturnUnknownShape
      else
        let! num_dims := Value (of_dim shape_dim) in
        (* [int i] does not get further. *)
        st_check (num_dims <=? kint32max) ;;;
        let! dims := tabulate (Z.to_nat num_dims) 0 (fun _ => UnknownDim) in
        ReturnCreatedShape dims
  | Some t =>
      if negb (zlength (shape t) =? 1) then
        fail (InvalidArgument (bytes_of "Input tensor must be rank 1, but was rank " ++ number (zlength (shape t))))
      else if dtype t =? DT_INT32 then
        let! flat_t := flat t DT_INT32 in let? dims := dims_of_values flat_t in ReturnCreatedShape dims
      else if dtype t =? DT_INT64 then
        let! flat_t := flat t DT_INT64 in let? dims := dims_of_values flat_t in ReturnCreatedShape dims
      else
        let! name := st_opt (DataTypes.DataTypeString (dtype t)) in
        fail (InvalidArgument (bytes_of "Input tensor must be int32 or int64, but was " ++ name))
  end.
Definition MakeShapeFromShapeTensor (input_idx : Z) : SI (Status + ShapeHandle) :=
  let! s := input input_idx in
  let? input_shape := WithRank s 1 in
  let! c := st_get in
  let as_shape := match input_tensors_as_shapes_ c !!z input_idx with Some s => s | None => None end in
  let! known := RankKnown as_shape in
  if known then ok_with as_shape
  else
    write requested_input_tensor_as_partial_shape_ with_requested_partial input_idx true ;;;
    let! t := input_tensor input_idx in
    MakeShapeFromTensor t input_shape.
Definition MakeShapeFromShapeProto (proto : TensorShapeProto) : SI (Status + ShapeHandle) :=
  let s := PartialTensorShape.IsValidShape proto in
  if negb (ok s) then fail s
  else
    let! partial_shape := st_opt (PartialTensorShape.of_proto proto) in
    if PartialTensorShape.dims partial_shape =? -1 then ReturnUnknownShape
    else
      let num_dims := PartialTensorShape.dims partial_shape in
      let! dims := tabulate (Z.to_nat num_dims) 0 (fun i => let! d := st_opt (PartialTensorShape.dim_size partial_shape i) in MakeDim (of_val d)) in
      ReturnCreatedShape dims.
Definition MakeDimForScalarInput (idx : Z) : SI (Status + DimensionHandle) :=
  let! t := input_tensor idx in
  match t with
  | None => let! d := UnknownDim in ok_with d
  | Some t =>
      let rank := zlength (shape t) in
      if negb (rank =? 0) then fail (InvalidArgument (bytes_of "Input must be scalar but has rank " ++ number rank))
      else
        let? val :=
          if dtype t =? DT_INT32 then let! x := scalar t DT_INT32 in ok_with x
          else if dtype t =? DT_INT64 then let! x := scalar t DT_INT64 in ok_with x
          else fail (InvalidArgument (bytes_of "Scalar input for dim size must be int32 or int64")) in
        if val <? 0 then
          fail (InvalidArgument (bytes_of "Dimension size, given by scalar input " ++ number idx ++ bytes_of ", must be non-negative but is " ++ number val))
        else let! d := MakeDim (of_val val) in ok_with d
  end.

(** ** Arithmetic of dimensions *)

Definition make (d : DimensionOrConstant) : SI (Status + DimensionHandle) := let! h := MakeDim d in ok_with h.
Definition Divide (dividend : DimensionHandle) (divisor : DimensionOrConstant) (evenly_divisible : bool) : SI (Status + DimensionHandle) :=
  let! divisor_value := Value divisor in
  if divisor_value =? 1 then ok_with dividend
  else
    let! known := ValueKnown (of_dim dividend) in
    let! unknown_divisor :=
      match divisor with of_dim h => if known then let! k := ValueKnown (of_dim h) in st_ret (negb k) else st_ret false | of_val _ => st_ret false end in
    if negb known || unknown_divisor then make (of_val kUnknownDim)
    else
      let! v := Value (of_dim dividend) in
      if divisor_value <=? 0 then fail (InvalidArgument (bytes_of "Divisor must be positive but is " ++ number divisor_value))
      else if evenly_divisible && negb (Z.rem v divisor_value =? 0) then
        fail (InvalidArgument (bytes_of "Dimension size must be evenly divisible by " ++ number divisor_value ++ bytes_of " but is " ++ number v))
      else make (of_val (Z.quot v divisor_value)).
Definition Add (first : DimensionHandle) (second : DimensionOrConstant) : SI (Status + DimensionHandle) :=
  let! first_value := Value (of_dim first) in
  let! second_value := Value second in
  if first_value =? 0 then make second
  else if second_value =? 0 then make (of_dim first)
  else if (first_value =? kUnknownDim) || (second_value =? kUnknownDim) then make (of_val kUnknownDim)
  else
    let sum := s64 (first_value + second_value) in
    if sum <? 0 then
      fail (InvalidArgument (bytes_of "Dimension size overflow from adding " ++ number first_value ++ bytes_of " and " ++ number second_value))
    else make (of_val sum).
Definition Subtract (first : DimensionHandle) (second : DimensionOrConstant) : SI (Status + DimensionHandle) :=
  let! first_value := Value (of_dim first) in
  let! second_value := Value second in
  if second_value =? 0 then make (of_dim first)
  else if (first_value =? kUnknownDim) || (second_value =? kUnknownDim) then make (of_val kUnknownDim)
  else if first_value <? second_value then
    fail (InvalidArgument (bytes_of "Negative dimension size caused by subtracting " ++ number second_value ++ bytes_of " from " ++ number first_value))
  else make (of_val (s64 (first_value - second_value))).
Definition Multiply (first : DimensionHandle) (second : DimensionOrConstant) : SI (Status + DimensionHandle) :=
  let! first_value := Value (of_dim first) in
  let! second_value := Value second in
  if first_value =? 0 then ok_with first
  else if second_value =? 0 then make second
  else if first_value =? 1 then make second
  else if second_value =? 1 then ok_with first
  else if (first_value =? kUnknownDim) || (second_value =? kUnknownDim) then make (of_val kUnknownDim)
  else
    let product := s64 (first_value * second_value) in
    if product <? 0 then
      fail (InvalidArgument (bytes_of "Negative dimension size caused by overflow when multiplying " ++ number first_value ++ bytes_of " and " ++
        number second_value))
    else make (of_val product).
Definition Min (first : DimensionHandle) (second : DimensionOrConstant) : SI (Status + DimensionHandle) :=
  let! first_value := Value (of_dim first) in
  let! second_value := Value second in
  if first_value =? 0 then ok_with first
  else if second_value =? 0 then make second
  else if (first_value =? kUnknownDim) || (second_value =? kUnknownDim) then make (of_val kUnknownDim)
  else if first_value <=? second_value then ok_with first
  else make second.
Definition Max (first : DimensionHandle) (second : DimensionOrConstant) : SI (Status + DimensionHandle) :=
  let! first_value := Value (of_dim first) in
  let! second_value := Value second in
  if (first_value =? kUnknownDim) || (second_value =? kUnknownDim) then make (of_val kUnknownDim)
  else if second_value <=? first_value then ok_with first
  else make second.

(** ** Construction and running *)

(** The loop over the ends of the ranges. *)
Definition max_end (m : NameRangeMap) : Z := map_fold (fun _ e n => Z.max n e.2) 0 m.
Definition construction_ok : SI bool := let! c := st_get in st_ret (ok (construction_status_ c)).
Definition PreInputInit (op_def : OpDef) (input_tensors : list (option Tensor)) (input_tensors_as_shapes : list ShapeHandle) : SI unit :=
  st_modify (with_tensors input_tensors) ;;;
  st_modify (with_as_shapes input_tensors_as_shapes) ;;;
  let! c := st_get in
  let '(s, inputs, outputs) := NameRangesForNode (node_def_ c) op_def (input_name_map_ c) (output_name_map_ c) in
  st_modify (with_names inputs outputs) ;;;
  st_modify (with_status s) ;;;
  if negb (ok s) then st_ret tt
  else
    let n := Z.to_nat (max_end outputs) in
    st_modify (fun c => with_outputs (outputs_ c ++ replicate n None) c) ;;;
    let! unknown := tabulate n 0 (fun _ => UnknownShape) in
    st_modify (fun c => with_output_handles (output_handle_shape_ c ++ unknown) (replicate n DT_INVALID) c).
Definition wrong_number (what : list Z) (expected got : Z) : Status :=
  InvalidArgument (bytes_of "Wrong number of handle " ++ what ++ bytes_of " passed; expected " ++ number expected ++ bytes_of " got " ++ number got).
Definition PostInputInit (input_handle_shapes : list ShapeHandle) (input_handle_dtypes : list Z) : SI unit :=
  let! c := st_get in
  let num_inputs_from_node_def := max_end (input_name_map_ c) in
  let n := length (inputs_ c) in
  (if bool_decide (input_handle_shapes = []) then st_modify (fun c => with_input_handles (resize (input_handle_shape_ c) n None) (input_handle_dtype_ c) c)
   else
     st_modify (fun c => with_input_handles input_handle_shapes (input_handle_dtype_ c) c) ;;;
     if negb (length input_handle_shapes =? n)%nat then
       st_modify (with_status (wrong_number (bytes_of "shapes") (Z.of_nat n) (zlength input_handle_shapes)))
     else st_ret tt) ;;;
  (if bool_decide (input_handle_dtypes = []) then st_modify (fun c => with_input_handles (input_handle_shape_ c) (replicate n DT_INVALID) c)
   else
     st_modify (fun c => with_input_handles (input_handle_shape_ c) input_handle_dtypes c) ;;;
     if negb (length input_handle_dtypes =? n)%nat then
       st_modify (with_status (wrong_number (bytes_of "dtypes") (Z.of_nat n) (zlength input_handle_dtypes)))
     else st_ret tt) ;;;
  if negb (Z.of_nat n =? num_inputs_from_node_def) then
    st_modify (with_status (InvalidArgument (bytes_of "Wrong number of inputs passed: " ++ number (Z.of_nat n) ++ bytes_of " while " ++
      number num_inputs_from_node_def ++ bytes_of " expected based on NodeDef")))
  else
    let! c := st_get in
    st_check (length (input_tensors_ c) <=? n)%nat ;;;
    st_modify (with_tensors (resize (input_tensors_ c) n None)) ;;;
    st_modify (fun c => with_requested (resize (requested_input_tensor_ c) n false) c) ;;;
    st_modify (fun c => with_requested_partial (resize (requested_input_tensor_as_partial_shape_ c) n false) c).

(** The members before a constructor's body, over the memory that exists. *)
Definition new_members (m : ShapeManager) (node_def : NodeDef) : InferenceContext :=
  mkContext m [] [] [] [] [] [] [] [] [] [] node_def ∅ ∅ OK.
(** The constructor from handles. *)
Definition construct (op_def : OpDef) (input_shapes : list ShapeHandle) (input_tensors : list (option Tensor))
    (input_tensors_as_shapes input_handle_shapes : list ShapeHandle) (input_handle_dtypes : list Z) : SI unit :=
  PreInputInit op_def input_tensors input_tensors_as_shapes ;;;
  let! fine := construction_ok in
  if negb fine then st_ret tt
  else st_modify (with_inputs input_shapes) ;;; PostInputInit input_handle_shapes input_handle_dtypes.
(** The loops over protos of the other one: the handles, unless one fails,
    which [construction_status_] tells. *)
Fixpoint shapes_of_protos (protos : list TensorShapeProto) : SI (list ShapeHandle) :=
  match protos with
  | [] => st_ret []
  | p :: protos' =>
      let! r := MakeShapeFromShapeProto p in
      st_modify (fun c => with_status (Update (construction_status_ c) (match r with inl s => s | inr _ => OK end)) c) ;;;
      let! fine := construction_ok in
      if negb fine then st_ret []
      else let! l := shapes_of_protos protos' in st_ret (match r with inl _ => l | inr s => s :: l end)
  end.
(** The loop that also fills [inputs_]. *)
Fixpoint inputs_of_protos (protos : list TensorShapeProto) : SI unit :=
  match protos with
  | [] => st_ret tt
  | p :: protos' =>
      let! r := MakeShapeFromShapeProto p in
      st_modify (fun c => with_status (Update (construction_status_ c) (match r with inl s => s | inr _ => OK end)) c) ;;;
      let! fine := construction_ok in
      if negb fine then st_ret tt
      else
        match r with inl _ => st_ret tt | inr s => st_modify (fun c => with_inputs (inputs_ c ++ [s]) c) end ;;;
        inputs_of_protos protos'
  end.
Definition construct_protos (op_def : OpDef) (input_shapes : list TensorShapeProto) (input_tensors : list (option Tensor))
    (input_tensors_as_shapes input_handle_shapes : list TensorShapeProto) (input_handle_dtypes : list Z) : SI unit :=
  let! as_shapes := shapes_of_protos input_tensors_as_shapes in
  let! fine := construction_ok in
  if negb fine then st_ret tt
  else
    PreInputInit op_def input_tensors as_shapes ;;;
    let! fine := construction_ok in
    if negb fine then st_ret tt
    else
      inputs_of_protos input_shapes ;;;
      let! fine := construction_ok in
      if negb fine then st_ret tt
      else
        let! handle_shapes := shapes_of_protos input_handle_shapes in
        let! fine := construction_ok in
        if negb fine then st_ret tt else PostInputInit handle_shapes input_handle_dtypes.

Fixpoint debug_shapes (l : list ShapeHandle) : SI (list (list Z)) :=
  match l with [] => st_ret [] | s :: l' => let! t := DebugString s in let! ts := debug_shapes l' in st_ret (t :: ts) end.
Definition AttachContext (status : Status) : SI Status :=
  let! c := st_get in
  let! input_shapes := debug_shapes (inputs_ c) in
  st_ret (Error (code status) (error_message status ++ bytes_of " for '" ++ Graph.def_name (node_def_ c) ++ bytes_of "' (op: '" ++
    Graph.def_op (node_def_ c) ++ bytes_of "') with input shapes: " ++ Join input_shapes (bytes_of ", ") ++ bytes_of ".")).
Definition Run (fn : SI (Status + unit)) : SI (Status + unit) :=
  let! r := fn in
  match r with inl s => let! s' := AttachContext s in fail s' | inr _ => ok_with tt end.
End Context.
End ShapeInference.
