(* ===== verification/ShapeInferenceSpec.v ===== *)
(** * Shape inference: specification

    A world gives a size to each dimension and sizes to each shape in memory,
    a value to each input, and the sizes that an input stands for when it is a
    vector of them. It is described by a context when it agrees with
    everything that the context knows. [means] is what a call denotes in a
    world, and [exec] the triple of the proofs: a computation does not abort, and
    in a world where what it denotes exists it returns a handle for it, after
    giving sizes to the objects that it made. *)
From S2P Require Import Prelude Status Numbers DataTypes TensorShape PartialTensorShape EdgeSet Graph ShapeInference.
Open Scope Z_scope.

Module ShapeInferenceSpec.
Import Status Numbers Attrs ShapeInference.

(** ** Well-formed contexts *)

Definition dim_in (m : ShapeManager) (h : DimensionHandle) : Prop := exists p, h = Some p /\ (p < length (all_dims_ m))%nat.
Definition shape_in (m : ShapeManager) (h : ShapeHandle) : Prop := exists p, h = Some p /\ (p < length (all_shapes_ m))%nat.
Definition shape_or_null (m : ShapeManager) (h : ShapeHandle) : Prop := h = None \/ shape_in m h.
Definition value_ok (v : Z) : Prop := -1 <= v <= kint64max.
Definition shape_ok (m : ShapeManager) (s : Shape) : Prop :=
  (rank_ s = kUnknownRank /\ dims_ s = []) \/ (rank_ s = zlength (dims_ s) /\ zlength (dims_ s) <= kint32max /\ Forall (dim_in m) (dims_ s)).
Record manager_ok (m : ShapeManager) : Prop := {
  values_ok : Forall value_ok (all_dims_ m);
  shapes_ok : Forall (shape_ok m) (all_shapes_ m)
}.
(** A tensor whose elements are those of its shape and of its type. *)
Definition tensor_ok (t : Tensor) : Prop :=
  Forall (fun v => - 2 ^ 63 <= v <= kint64max) (elements t) /\ zlength (elements t) = fold_right Z.mul 1 (shape t) /\
  zlength (elements t) <= kint32max /\ is_Some (DataTypes.DataTypeString (dtype t)).
Record context_ok (c : InferenceContext) : Prop := {
  memory_ok : manager_ok (shape_manager_ c);
  inputs_ok : Forall (shape_in (shape_manager_ c)) (inputs_ c);
  outputs_ok : Forall (shape_or_null (shape_manager_ c)) (outputs_ c);
  as_shapes_ok : Forall (shape_or_null (shape_manager_ c)) (input_tensors_as_shapes_ c);
  handle_shapes_ok : Forall (shape_or_null (shape_manager_ c)) (input_handle_shape_ c);
  tensors_ok : Forall (fun t => match t with Some t => tensor_ok t | None => True end) (input_tensors_ c);
  tensors_length : length (input_tensors_ c) = length (inputs_ c);
  requested_length : length (requested_input_tensor_ c) = length (inputs_ c);
  partial_length : length (requested_input_tensor_as_partial_shape_ c) = length (inputs_ c);
  handle_length : length (input_handle_shape_ c) = length (inputs_ c)
}.
(** What a handle points to. *)
Definition shape_at (m : ShapeManager) (h : ShapeHandle) : option Shape := match h with Some p => all_shapes_ m !! p | None => None end.
Definition value_at (m : ShapeManager) (h : DimensionHandle) : option Z := match h with Some p => all_dims_ m !! p | None => None end.
Definition doc_in (m : ShapeManager) (d : DimensionOrConstant) : Prop :=
  match d with of_dim h => dim_in m h | of_val v => value_ok v end.

(** What a computation keeps: objects in memory do not change, and of the
    context only the requests and the handle shapes that were null may. *)
Definition grows (m m' : ShapeManager) : Prop := all_shapes_ m `prefix_of` all_shapes_ m' /\ all_dims_ m `prefix_of` all_dims_ m'.
Record keeps (c c' : InferenceContext) : Prop := {
  keeps_memory : grows (shape_manager_ c) (shape_manager_ c');
  keeps_inputs : inputs_ c' = inputs_ c;
  keeps_tensors : input_tensors_ c' = input_tensors_ c;
  keeps_as_shapes : input_tensors_as_shapes_ c' = input_tensors_as_shapes_ c;
  keeps_outputs : length (outputs_ c') = length (outputs_ c);
  keeps_def : node_def_ c' = node_def_ c
}.

(** ** Worlds *)

Definition is_size (x : Z) : Prop := 0 <= x <= kint64max.
Definition sizes_fit (l : list Z) : Prop := Forall is_size l /\ zlength l <= kint32max.
Record world := mkWorld { size_at : nat -> Z; sizes_at : nat -> list Z; value_of : Z -> Tensor; target_of : Z -> list Z }.
Definition dim_of (w : world) (h : DimensionHandle) : Z := match h with Some p => size_at w p | None => -1 end.
Definition sizes_of (w : world) (h : ShapeHandle) : list Z := match h with Some p => sizes_at w p | None => [] end.
(** An unknown constant stands for any size. *)
Definition doc_is (w : world) (d : DimensionOrConstant) (x : Z) : Prop :=
  match d with of_dim h => x = dim_of w h | of_val v => is_size x /\ (v = kUnknownDim \/ x = v) end.

(** A vector of integers that gives the sizes [l]; -1 leaves a size open. *)
Definition vector_gives (t : Tensor) (l : list Z) : Prop :=
  (dtype t = DT_INT32 \/ dtype t = DT_INT64) /\ shape t = [zlength (elements t)] /\
  Forall2 (fun v x => is_size x /\ (v = -1 \/ x = v)) (elements t) l.
Record describes (w : world) (c : InferenceContext) : Prop := {
  dims_described : forall p v, all_dims_ (shape_manager_ c) !! p = Some v -> is_size (size_at w p) /\ (v = kUnknownDim \/ size_at w p = v);
  shapes_described : forall p s, all_shapes_ (shape_manager_ c) !! p = Some s ->
    sizes_fit (sizes_at w p) /\ (rank_ s = kUnknownRank \/ sizes_at w p = map (dim_of w) (dims_ s));
  inputs_described : forall i h, inputs_ c !!z i = Some h -> shape (value_of w i) = sizes_of w h;
  tensors_described : forall i t, input_tensors_ c !!z i = Some (Some t) -> value_of w i = t;
  as_shapes_described : forall i h s, input_tensors_as_shapes_ c !!z i = Some h -> shape_at (shape_manager_ c) h = Some s -> rank_ s <> kUnknownRank ->
    vector_gives (value_of w i) (target_of w i) -> sizes_of w h = target_of w i
}.
(** [w'] only adds objects. *)
Definition agree (m : ShapeManager) (w w' : world) : Prop :=
  (forall p, (p < length (all_dims_ m))%nat -> size_at w' p = size_at w p) /\
  (forall p, (p < length (all_shapes_ m))%nat -> sizes_at w' p = sizes_at w p) /\
  (forall i, value_of w' i = value_of w i) /\ (forall i, target_of w' i = target_of w i).
(** The proofs follow a world, or none. *)
Definition knows (c : InferenceContext) (ow : option world) : Prop :=
  context_ok c /\ match ow with Some w => describes w c | None => True end.
Definition later (c : InferenceContext) (ow : option world) (c' : InferenceContext) (ow' : option world) : Prop :=
  knows c' ow' /\ keeps c c' /\
  match ow, ow' with Some w, Some w' => agree (shape_manager_ c) w w' | None, None => True | _, _ => False end.

(** A computation that returns, and one that may fail, but does not in a world
    that it has to follow. *)
Definition exec_total {A} (m : SI A) (c : InferenceContext) (ow : option world) (Q : A -> InferenceContext -> option world -> Prop) : Prop :=
  wp m c (fun a c' => exists ow', later c ow c' ow' /\ Q a c' ow').
Definition exec {A} (m : SI (Status + A)) (c : InferenceContext) (ow : option world) (Q : A -> InferenceContext -> option world -> Prop) : Prop :=
  wp m c (fun r c' =>
    match r with
    | inl s => context_ok c' /\ keeps c c' /\ ow = None /\ ok s = false
    | inr a => exists ow', later c ow c' ow' /\ Q a c' ow'
    end).

(** A fact of the world that is followed, if there is one; what a handle or a
    constant is there. *)
Definition within (ow : option world) (P : world -> Prop) : Prop := match ow with Some w => P w | None => True end.
Definition is_dim (c : InferenceContext) (ow : option world) (h : DimensionHandle) (x : Z) : Prop :=
  dim_in (shape_manager_ c) h /\ within ow (fun w => dim_of w h = x).
Definition is_doc (c : InferenceContext) (ow : option world) (d : DimensionOrConstant) (x : Z) : Prop :=
  doc_in (shape_manager_ c) d /\ within ow (fun w => doc_is w d x).
Definition is_shape (c : InferenceContext) (ow : option world) (h : ShapeHandle) (l : list Z) : Prop :=
  shape_in (shape_manager_ c) h /\ within ow (fun w => sizes_of w h = l).
(** The rank and the value that the context knows. *)
Definition rank_at (c : InferenceContext) (h : ShapeHandle) : Z := match shape_at (shape_manager_ c) h with Some s => rank_ s | None => kUnknownRank end.
Definition known_value (c : InferenceContext) (h : DimensionHandle) : Z := default kUnknownDim (value_at (shape_manager_ c) h).
Definition known_doc (c : InferenceContext) (d : DimensionOrConstant) : Z := match d with of_dim h => known_value c h | of_val v => v end.
End ShapeInferenceSpec.
