(* ===== verification/ShapeInferenceFacts.v ===== *)
(** * Shape inference: the calls

    The total correctness of the calls of [InferenceContext], in the terms of
    [ShapeInferenceSpec]. *)
From S2P Require Import Prelude Status Numbers DataTypes TensorShape PartialTensorShape EdgeSet Graph ShapeInference ShapeInferenceSpec.
Open Scope Z_scope.

Module ShapeInferenceFacts.
Import Status Numbers Attrs ShapeInference ShapeInferenceSpec.

(** ** Memory grows *)

Lemma grows_refl m : grows m m.
Proof. split; reflexivity. Qed.
Lemma grows_trans m1 m2 m3 : grows m1 m2 -> grows m2 m3 -> grows m1 m3.
Proof. intros [? ?] [? ?]. split; by etrans. Qed.
Lemma grows_dims m l : grows m (mkManager (all_shapes_ m) (all_dims_ m ++ l)).
Proof. split; [reflexivity|by apply prefix_app_r]. Qed.
Lemma grows_shapes m l : grows m (mkManager (all_shapes_ m ++ l) (all_dims_ m)).
Proof. split; [by apply prefix_app_r|reflexivity]. Qed.
#[export] Hint Resolve grows_refl grows_dims grows_shapes : core.
Lemma dim_in_grows m m' h : grows m m' -> dim_in m h -> dim_in m' h.
Proof. intros [_ H%prefix_length] (p & -> & Hp). exists p. split; [done|lia]. Qed.
Lemma shape_in_grows m m' h : grows m m' -> shape_in m h -> shape_in m' h.
Proof. intros [H%prefix_length _] (p & -> & Hp). exists p. split; [done|lia]. Qed.
Lemma shape_or_null_grows m m' h : grows m m' -> shape_or_null m h -> shape_or_null m' h.
Proof. intros G [->|H]; [by left|right]. by eapply shape_in_grows. Qed.
Lemma shape_ok_grows m m' s : grows m m' -> shape_ok m s -> shape_ok m' s.
Proof. intros G [?|(? & ? & H)]; [by left|right]. split_and!; [done..|]. eapply Forall_impl; [exact H|]. intros h. by apply dim_in_grows. Qed.
Lemma shape_at_grows m m' h s : grows m m' -> shape_at m h = Some s -> shape_at m' h = Some s.
Proof. intros [G _]. destruct h as [p|]; [|done]. cbn. intros H. by eapply prefix_lookup_Some. Qed.
Lemma value_at_grows m m' h v : grows m m' -> value_at m h = Some v -> value_at m' h = Some v.
Proof. intros [_ G]. destruct h as [p|]; [|done]. cbn. intros H. by eapply prefix_lookup_Some. Qed.
Lemma shape_in_at m h : shape_in m h -> exists s, shape_at m h = Some s.
Proof. intros (p & -> & Hp). by apply lookup_lt_is_Some in Hp. Qed.
Lemma dim_in_at m h : dim_in m h -> exists v, value_at m h = Some v.
Proof. intros (p & -> & Hp). by apply lookup_lt_is_Some in Hp. Qed.
Lemma manager_shape_ok m h s : manager_ok m -> shape_at m h = Some s -> shape_ok m s.
Proof. intros [_ H] E. destruct h as [p|]; [|done]. rewrite Forall_forall in H. apply H. by eapply list_elem_of_lookup_2. Qed.
Lemma manager_value_ok m h v : manager_ok m -> value_at m h = Some v -> value_ok v.
Proof. intros [H _] E. destruct h as [p|]; [|done]. rewrite Forall_forall in H. apply H. by eapply list_elem_of_lookup_2. Qed.

(** ** Contexts and worlds over more memory *)

Lemma keeps_refl c : keeps c c.
Proof. by constructor. Qed.
Lemma keeps_trans c1 c2 c3 : keeps c1 c2 -> keeps c2 c3 -> keeps c1 c3.
Proof. intros [] []. constructor; try congruence. by eapply grows_trans. Qed.
Lemma agree_refl m w : agree m w w.
Proof. done. Qed.
Lemma agree_trans m1 m2 w1 w2 w3 : grows m1 m2 -> agree m1 w1 w2 -> agree m2 w2 w3 -> agree m1 w1 w3.
Proof.
  intros [Gs%prefix_length Gd%prefix_length] (A & B & C & D) (A' & B' & C' & D'). split_and!; intros.
  - rewrite A', A; [done|done|lia].
  - rewrite B', B; [done|done|lia].
  - by rewrite C', C.
  - by rewrite D', D.
Qed.
Lemma agree_dim m w w' h : agree m w w' -> dim_in m h -> dim_of w' h = dim_of w h.
Proof. intros (A & _) (p & -> & Hp). by apply A. Qed.
Lemma agree_shape m w w' h : agree m w w' -> shape_in m h -> sizes_of w' h = sizes_of w h.
Proof. intros (_ & A & _) (p & -> & Hp). by apply A. Qed.
Lemma agree_doc m w w' d x : agree m w w' -> doc_in m d -> doc_is w d x -> doc_is w' d x.
Proof. destruct d as [h|v]; cbn; [|done]. intros A H ->. symmetry. by eapply agree_dim. Qed.
Lemma agree_dims m w w' l : agree m w w' -> Forall (dim_in m) l -> map (dim_of w') l = map (dim_of w) l.
Proof. intros A. induction 1 as [|h l Hh _ IH]; [done|]. cbn. by rewrite IH, (agree_dim m w w'). Qed.

Lemma knows_describes c w : knows c (Some w) -> describes w c.
Proof. by intros [_ H]. Qed.
Lemma later_refl c ow : knows c ow -> later c ow c ow.
Proof. intros H. split_and!; [done|apply keeps_refl|]. by destruct ow. Qed.
Lemma later_trans c1 o1 c2 o2 c3 o3 : later c1 o1 c2 o2 -> later c2 o2 c3 o3 -> later c1 o1 c3 o3.
Proof.
  intros (K2 & P2 & A2) (K3 & P3 & A3). split_and!; [done|by eapply keeps_trans|].
  destruct o1, o2, o3; try done. eapply agree_trans; [apply P2|done..].
Qed.
Lemma later_knows c ow c' ow' : later c ow c' ow' -> knows c' ow'.
Proof. by intros []. Qed.
Lemma later_grows c ow c' ow' : later c ow c' ow' -> grows (shape_manager_ c) (shape_manager_ c').
Proof. by intros (_ & [] & _). Qed.
Lemma later_none c c' ow' : later c None c' ow' -> ow' = None.
Proof. intros (_ & _ & A). by destruct ow'. Qed.
Lemma later_none_l c ow c' : later c ow c' None -> ow = None.
Proof. intros (_ & _ & A). by destruct ow. Qed.

Lemma is_dim_later c ow c' ow' h x : later c ow c' ow' -> is_dim c ow h x -> is_dim c' ow' h x.
Proof.
  intros L [H W]. split; [eapply dim_in_grows; [by eapply later_grows|done]|]. destruct L as (_ & _ & A). destruct ow, ow'; try done.
  cbn in *. by erewrite agree_dim.
Qed.
Lemma is_doc_later c ow c' ow' d x : later c ow c' ow' -> is_doc c ow d x -> is_doc c' ow' d x.
Proof.
  intros L [H W]. split.
  - destruct d; cbn in *; [eapply dim_in_grows; [by eapply later_grows|done]|done].
  - destruct L as (_ & _ & A). destruct ow, ow'; try done. cbn in *. by eapply agree_doc.
Qed.
Lemma is_shape_later c ow c' ow' h l : later c ow c' ow' -> is_shape c ow h l -> is_shape c' ow' h l.
Proof.
  intros L [H W]. split; [eapply shape_in_grows; [by eapply later_grows|done]|]. destruct L as (_ & _ & A). destruct ow, ow'; try done.
  cbn in *. by erewrite agree_shape.
Qed.
Lemma rank_at_later c ow c' ow' h : later c ow c' ow' -> shape_in (shape_manager_ c) h -> rank_at c' h = rank_at c h.
Proof. intros L%later_grows (s & Hs)%shape_in_at. unfold rank_at. by rewrite Hs, (shape_at_grows _ _ _ _ L Hs). Qed.
Lemma known_value_later c ow c' ow' h : later c ow c' ow' -> dim_in (shape_manager_ c) h -> known_value c' h = known_value c h.
Proof. intros L%later_grows (s & Hs)%dim_in_at. unfold known_value. by rewrite Hs, (value_at_grows _ _ _ _ L Hs). Qed.
Lemma is_doc_dim c ow h x : is_dim c ow h x -> is_doc c ow (of_dim h) x.
Proof. intros [H W]. split; [done|]. by destruct ow; cbn in *. Qed.
Lemma is_doc_val c ow v : 0 <= v <= kint64max -> is_doc c ow (of_val v) v.
Proof. intros Hv. split; [cbn; unfold value_ok; lia|]. destruct ow; cbn; [|done]. split; [done|by right]. Qed.
Create HintDb shapes.
#[export] Hint Resolve is_dim_later is_doc_later is_shape_later is_doc_dim : shapes.

(** ** The rules of [exec] *)

Section Rules.
Context {A B : Type}.
Implicit Types (c : InferenceContext) (ow : option world).

Lemma exec_ok (a : A) c ow Q : knows c ow -> Q a c ow -> exec (ok_with a) c ow Q.
Proof. intros K H. exists ow. split; [by apply later_refl|done]. Qed.
Lemma exec_fail s c ow (Q : A -> InferenceContext -> option world -> Prop) : context_ok c -> ow = None -> ok s = false -> exec (fail s) c ow Q.
Proof. intros. split_and!; [done|apply keeps_refl|done..]. Qed.
Lemma total_ret (a : A) c ow Q : knows c ow -> Q a c ow -> exec_total (st_ret a) c ow Q.
Proof. intros K H. exists ow. split; [by apply later_refl|done]. Qed.
Lemma exec_mono (m : SI (Status + A)) c ow (P Q : A -> InferenceContext -> option world -> Prop) :
  exec m c ow P -> (forall a c' ow', later c ow c' ow' -> P a c' ow' -> Q a c' ow') -> exec m c ow Q.
Proof. intros H HPQ. eapply wp_mono; [exact H|]. intros [s|a] c'; [done|]. intros (ow' & L & HP). exists ow'. split; [done|by apply HPQ]. Qed.
Lemma total_mono (m : SI A) c ow (P Q : A -> InferenceContext -> option world -> Prop) :
  exec_total m c ow P -> (forall a c' ow', later c ow c' ow' -> P a c' ow' -> Q a c' ow') -> exec_total m c ow Q.
Proof. intros H HPQ. eapply wp_mono; [exact H|]. intros a c' (ow' & L & HP). exists ow'. split; [done|by apply HPQ]. Qed.
Lemma exec_after (m : SI (Status + B)) c ow c1 ow1 Q : later c ow c1 ow1 -> exec m c1 ow1 Q -> wp m c1 (fun r c' =>
    match r with inl s => context_ok c' /\ keeps c c' /\ ow = None /\ ok s = false | inr b => exists ow', later c ow c' ow' /\ Q b c' ow' end).
Proof.
  intros L H. eapply wp_mono; [exact H|]. intros [s|b] c2.
  - intros (C & K & -> & ?). split_and!; [done|eapply keeps_trans; [apply L|done]|by eapply later_none_l|done].
  - intros (ow2 & L2 & HQ). exists ow2. split; [by eapply later_trans|done].
Qed.
Lemma exec_try (m : SI (Status + A)) (k : A -> SI (Status + B)) c ow Q :
  exec m c ow (fun a c' ow' => exec (k a) c' ow' Q) -> exec (try_bind m k) c ow Q.
Proof.
  intros H. apply wp_bind. eapply wp_mono; [exact H|]. intros [s|a] c1; [done|]. intros (ow1 & L & H1). by eapply exec_after.
Qed.
Lemma exec_let (m : SI A) (k : A -> SI (Status + B)) c ow Q :
  exec_total m c ow (fun a c' ow' => exec (k a) c' ow' Q) -> exec (st_bind m k) c ow Q.
Proof. intros H. apply wp_bind. eapply wp_mono; [exact H|]. intros a c1 (ow1 & L & H1). by eapply exec_after. Qed.
Lemma total_let (m : SI A) (k : A -> SI B) c ow Q :
  exec_total m c ow (fun a c' ow' => exec_total (k a) c' ow' Q) -> exec_total (st_bind m k) c ow Q.
Proof.
  intros H. apply wp_bind. eapply wp_mono; [exact H|]. intros a c1 (ow1 & L & H1). eapply wp_mono; [exact H1|].
  intros b c2 (ow2 & L2 & HQ). exists ow2. split; [by eapply later_trans|done].
Qed.
(** A reading. *)
Lemma exec_read (m : SI A) (k : A -> SI (Status + B)) a c ow Q : m c = Done (a, c) -> exec (k a) c ow Q -> exec (st_bind m k) c ow Q.
Proof. unfold exec, wp. intros E. by rewrite (st_bind_eq _ _ _ _ _ E). Qed.
Lemma total_read (m : SI A) (k : A -> SI B) a c ow Q : m c = Done (a, c) -> exec_total (k a) c ow Q -> exec_total (st_bind m k) c ow Q.
Proof. unfold exec_total, wp. intros E. by rewrite (st_bind_eq _ _ _ _ _ E). Qed.
Lemma total_check b (k : unit -> SI A) c ow Q : b = true -> exec_total (k tt) c ow Q -> exec_total (st_bind (st_check b) k) c ow Q.
Proof. by intros ->. Qed.
Lemma exec_check b (k : unit -> SI (Status + A)) c ow Q : b = true -> exec (k tt) c ow Q -> exec (st_bind (st_check b) k) c ow Q.
Proof. by intros ->. Qed.
End Rules.

(** ** Readings *)

Section Readings.
Implicit Types (c : InferenceContext) (ow : option world).

Lemma deref_shape_eq c h s : shape_at (shape_manager_ c) h = Some s -> deref_shape h c = Done (s, c).
Proof. unfold deref_shape, st_bind, st_get, shape_at. by intros ->. Qed.
Lemma Rank_eq c h : shape_in (shape_manager_ c) h -> Rank h c = Done (rank_at c h, c).
Proof. intros (s & Hs)%shape_in_at. unfold Rank, rank_at. by rewrite (st_bind_eq _ _ _ _ _ (deref_shape_eq _ _ _ Hs)), Hs. Qed.
Lemma RankKnown_eq c h : shape_in (shape_manager_ c) h -> RankKnown h c = Done (negb (rank_at c h =? kUnknownRank), c).
Proof.
  intros H. pose proof (Rank_eq c h H) as E. destruct h as [p|]; [|by destruct H as (? & ? & _)].
  unfold RankKnown. by rewrite (st_bind_eq _ _ _ _ _ E).
Qed.
Lemma dim_doc_ok m h : dim_in m h -> doc_ok (of_dim h) = true.
Proof. intros (p & -> & _). done. Qed.
Lemma doc_in_ok m d : doc_in m d -> doc_ok d = true.
Proof.
  destruct d as [h|v]; [apply dim_doc_ok|]. cbn. unfold value_ok, kUnknownDim. intros. apply orb_true_iff.
  destruct (decide (v = -1)); [right|left]; lia.
Qed.
Lemma Value_eq c d : doc_in (shape_manager_ c) d -> Value d c = Done (known_doc c d, c).
Proof.
  intros H. unfold Value. rewrite (doc_in_ok _ _ H). destruct d as [h|v]; [|done]. destruct (dim_in_at _ _ H) as (v & Hv).
  cbn [known_doc]. unfold known_value. rewrite Hv. unfold st_bind, st_check, st_ret, deref_dim, st_get, value_at in *. cbn. unfold st_bind. by rewrite Hv.
Qed.
Lemma ValueKnown_eq c d : doc_in (shape_manager_ c) d -> ValueKnown d c = Done (negb (known_doc c d =? kUnknownDim), c).
Proof. intros H. unfold ValueKnown. by rewrite (st_bind_eq _ _ _ _ _ (Value_eq _ _ H)). Qed.

(** What is known is so in the world. *)
Lemma known_doc_ok c ow d : knows c ow -> doc_in (shape_manager_ c) d -> value_ok (known_doc c d).
Proof.
  intros [[[K _]] _] H. destruct d as [h|v]; [|done]. destruct (dim_in_at _ _ H) as (v & Hv). cbn. unfold known_value. rewrite Hv. cbn.
  destruct h as [p|]; [|done]. rewrite Forall_forall in K. apply K. by eapply list_elem_of_lookup_2.
Qed.
Lemma doc_known c w d x : knows c (Some w) -> is_doc c (Some w) d x -> is_size x /\ (known_doc c d = kUnknownDim \/ x = known_doc c d).
Proof.
  intros K [H W]. destruct d as [h|v]; cbn in *; [|done]. subst x. destruct (dim_in_at _ _ H) as (v & Hv). unfold known_value. rewrite Hv. cbn.
  destruct h as [p|]; [|done]. by apply (dims_described w c (knows_describes _ _ K)).
Qed.
Lemma dim_known c w h x : knows c (Some w) -> is_dim c (Some w) h x -> is_size x /\ (known_value c h = kUnknownDim \/ x = known_value c h).
Proof. intros K H. apply (doc_known c w (of_dim h)); [done|]. by apply is_doc_dim. Qed.
(** A known value, with or without a world. *)
Lemma doc_value c ow d x : knows c ow -> is_doc c ow d x -> known_doc c d <> kUnknownDim -> within ow (fun _ => x = known_doc c d).
Proof. intros K H Hne. destruct ow as [w|]; [|done]. cbn. by destruct (doc_known c w d x K H) as [_ [?|?]]. Qed.

Lemma shape_described c w h s : knows c (Some w) -> shape_at (shape_manager_ c) h = Some s ->
  sizes_fit (sizes_of w h) /\ (rank_ s = kUnknownRank \/ sizes_of w h = map (dim_of w) (dims_ s)).
Proof. intros K H. destruct h as [p|]; [|done]. by apply (shapes_described w c (knows_describes _ _ K)). Qed.
Lemma rank_known c ow h l : knows c ow -> is_shape c ow h l -> rank_at c h <> kUnknownRank -> within ow (fun _ => zlength l = rank_at c h).
Proof.
  intros K [H W] Hne. destruct ow as [w|]; [|done]. cbn in *. subst l. destruct (shape_in_at _ _ H) as (s & Hs). unfold rank_at in *. rewrite Hs in *.
  destruct (shape_described c w h s K Hs) as [_ [?|E]]; [done|]. rewrite E.
  destruct (manager_shape_ok _ _ _ (memory_ok c (proj1 K)) Hs) as [[? _]|(-> & _)]; [done|]. unfold zlength. by rewrite length_map.
Qed.
Lemma shape_fits c ow h l : knows c ow -> is_shape c ow h l -> within ow (fun _ => sizes_fit l).
Proof. intros K [H W]. destruct ow as [w|]; [|done]. cbn in *. subst l. destruct (shape_in_at _ _ H) as (s & Hs). by apply (shape_described c w h s K Hs). Qed.
Lemma sizes_ok c w h l : knows c (Some w) -> is_shape c (Some w) h l -> Forall is_size l.
Proof. intros K H. apply (shape_fits c (Some w) h l K H). Qed.
Lemma rank_range c ow h : knows c ow -> shape_in (shape_manager_ c) h -> rank_at c h = kUnknownRank \/ 0 <= rank_at c h <= kint32max.
Proof.
  intros K H. destruct (shape_in_at _ _ H) as (s & Hs). unfold rank_at. rewrite Hs.
  destruct (manager_shape_ok _ _ _ (memory_ok c (proj1 K)) Hs) as [[? _]|(-> & ? & _)]; [by left|right]. unfold zlength in *. lia.
Qed.
End Readings.

(** ** New objects *)

Section Allocation.
Implicit Types (c : InferenceContext) (ow : option world).

Lemma context_ok_grown c m : context_ok c -> grows (shape_manager_ c) m -> manager_ok m -> context_ok (with_manager m c).
Proof.
  intros [] G H. constructor; cbn; try done.
  - eapply Forall_impl; [done|]. intros h. by apply shape_in_grows.
  - eapply Forall_impl; [done|]. intros h. by apply shape_or_null_grows.
  - eapply Forall_impl; [done|]. intros h. by apply shape_or_null_grows.
  - eapply Forall_impl; [done|]. intros h. by apply shape_or_null_grows.
Qed.
Lemma prefix_old {A} (l l' : list A) p x : l `prefix_of` l' -> (p < length l)%nat -> l' !! p = Some x -> l !! p = Some x.
Proof. intros [k ->] Hp H. by rewrite lookup_app_l in H by done. Qed.
Lemma shape_at_old m m' h s : grows m m' -> shape_in m h -> shape_at m' h = Some s -> shape_at m h = Some s.
Proof. intros [G _] (p & -> & Hp) H. cbn in *. by eapply prefix_old. Qed.

(** A world over more memory describes the context, if it does what is new. *)
Lemma describes_grown w w' c m :
  context_ok c -> describes w c -> grows (shape_manager_ c) m -> agree (shape_manager_ c) w w' ->
  (forall p v, all_dims_ m !! p = Some v -> (length (all_dims_ (shape_manager_ c)) <= p)%nat -> is_size (size_at w' p) /\ (v = kUnknownDim \/ size_at w' p = v)) ->
  (forall p s, all_shapes_ m !! p = Some s -> (length (all_shapes_ (shape_manager_ c)) <= p)%nat ->
     sizes_fit (sizes_at w' p) /\ (rank_ s = kUnknownRank \/ sizes_at w' p = map (dim_of w') (dims_ s))) ->
  describes w' (with_manager m c).
Proof.
  intros C [D1 D2 D3 D4 D5] G A Nd Ns. pose proof A as (A1 & A2 & A3 & A4). constructor; cbn.
  - intros p v H. destruct (decide (p < length (all_dims_ (shape_manager_ c)))%nat) as [Hp|Hp]; [|apply Nd; [done|lia]].
    rewrite A1 by done. apply D1. by eapply prefix_old; [apply G|..].
  - intros p s H. destruct (decide (p < length (all_shapes_ (shape_manager_ c)))%nat) as [Hp|Hp]; [|apply Ns; [done|lia]].
    assert (H' : all_shapes_ (shape_manager_ c) !! p = Some s) by (by eapply prefix_old; [apply G|..]).
    rewrite A2 by done. destruct (D2 _ _ H') as [? E]. split; [done|]. destruct E as [?|E]; [by left|].
    destruct (manager_shape_ok (shape_manager_ c) (Some p) s (memory_ok c C) H') as [[? _]|(_ & _ & F)]; [by left|]. right.
    by rewrite (agree_dims (shape_manager_ c) w).
  - intros i h H. rewrite A3. rewrite (agree_shape (shape_manager_ c) w); [by apply D3|done|].
    pose proof (inputs_ok c C) as F. rewrite Forall_forall in F. apply F. by eapply zlookup_elem.
  - intros i t H. rewrite A3. by apply D4.
  - intros i h s H Hs Hne. rewrite A3, A4. pose proof (as_shapes_ok c C) as F. rewrite Forall_forall in F.
    destruct (F h ltac:(by eapply zlookup_elem)) as [->|Hh]; [done|].
    rewrite (agree_shape (shape_manager_ c) w) by done. eapply D5; [done| |done]. by eapply shape_at_old.
Qed.
Lemma later_grown c ow m ow' :
  knows c ow -> grows (shape_manager_ c) m -> manager_ok m ->
  match ow, ow' with Some w, Some w' => agree (shape_manager_ c) w w' /\ describes w' (with_manager m c) | None, None => True | _, _ => False end ->
  later c ow (with_manager m c) ow'.
Proof.
  intros [C D] G M W. split_and!.
  - split; [by apply context_ok_grown|]. destruct ow, ow'; try done. apply W.
  - by constructor.
  - destruct ow, ow'; try done. apply W.
Qed.

(** Worlds with one more dimension, or shape. *)
Definition add_dim (m : ShapeManager) (x : Z) (w : world) : world :=
  mkWorld (fun p => if decide (p = length (all_dims_ m)) then x else size_at w p) (sizes_at w) (value_of w) (target_of w).
Definition add_shape (m : ShapeManager) (l : list Z) (w : world) : world :=
  mkWorld (size_at w) (fun p => if decide (p = length (all_shapes_ m)) then l else sizes_at w p) (value_of w) (target_of w).
Lemma agree_add_dim m x w : agree m w (add_dim m x w).
Proof. by split_and!; cbn; intros; [rewrite decide_False by lia|..]. Qed.
Lemma agree_add_shape m l w : agree m w (add_shape m l w).
Proof. by split_and!; cbn; intros; [|rewrite decide_False by lia|..]. Qed.
Lemma lookup_snoc_new {A} (l : list A) x p y : (l ++ [x]) !! p = Some y -> (length l <= p)%nat -> p = length l /\ y = x.
Proof.
  intros H Hp. pose proof (lookup_lt_Some _ _ _ H) as Hl. rewrite length_app in Hl. cbn in Hl. assert (p = length l) as -> by lia.
  split; [done|]. rewrite lookup_app_r, Nat.sub_diag in H by done. by injection H.
Qed.

Lemma total_MakeDim_val v x c ow (Q : DimensionHandle -> InferenceContext -> option world -> Prop) :
  knows c ow -> value_ok v -> within ow (fun _ => is_size x /\ (v = kUnknownDim \/ x = v)) ->
  (forall h c' ow', later c ow c' ow' -> is_dim c' ow' h x -> known_value c' h = v -> Q h c' ow') ->
  exec_total (MakeDim (of_val v)) c ow Q.
Proof.
  intros K Hv W HQ. unfold MakeDim. apply total_check; [exact (doc_in_ok (shape_manager_ c) (of_val v) Hv)|].
  set (m := shape_manager_ c). set (m' := mkManager (all_shapes_ m) (all_dims_ m ++ [v])).
  assert (G : grows m m') by apply grows_dims.
  assert (M : manager_ok m').
  { destruct K as [[[V S] _] _]. split; cbn; [apply Forall_app; auto|]. eapply Forall_impl; [exact S|]. intros s. by apply shape_ok_grows. }
  exists (add_dim m x <$> ow).
  assert (L : later c ow (with_manager m' c) (add_dim m x <$> ow)).
  { apply later_grown; [done..|]. destruct ow as [w|]; [|done]. split; [apply agree_add_dim|]. cbn.
    apply (describes_grown w); [apply K|apply K|done|apply agree_add_dim|..]; cbn.
    - intros p v' H Hp. destruct (lookup_snoc_new _ _ _ _ H Hp) as [-> ->]. rewrite decide_True by done. exact W.
    - intros p s H Hp. apply lookup_lt_Some in H. subst m. lia. }
  split; [done|]. apply HQ; [done| |].
  - split; [exists (length (all_dims_ m)); split; [done|]; unfold m', m; cbn; rewrite length_app; cbn; apply Nat.lt_add_pos_r, Nat.lt_0_1|]. destruct ow as [w|]; [|done]. cbn. by rewrite decide_True.
  - unfold known_value, m'. cbn. by rewrite list_lookup_middle.
Qed.
Lemma total_new_shape s l c ow (Q : ShapeHandle -> InferenceContext -> option world -> Prop) :
  knows c ow -> shape_ok (shape_manager_ c) s ->
  within ow (fun w => sizes_fit l /\ (rank_ s = kUnknownRank \/ l = map (dim_of w) (dims_ s))) ->
  (forall h c' ow', later c ow c' ow' -> is_shape c' ow' h l -> shape_at (shape_manager_ c') h = Some s -> Q h c' ow') ->
  exec_total (new_shape s) c ow Q.
Proof.
  intros K Hs W HQ. unfold new_shape. set (m := shape_manager_ c). set (m' := mkManager (all_shapes_ m ++ [s]) (all_dims_ m)).
  assert (G : grows m m') by apply grows_shapes.
  assert (M : manager_ok m').
  { destruct K as [[[V S] _] _]. split; cbn; [done|]. apply Forall_app. split; [eapply Forall_impl; [exact S|]; intros s'; by apply shape_ok_grows|].
    constructor; [|done]. by eapply shape_ok_grows. }
  exists (add_shape m l <$> ow).
  assert (L : later c ow (with_manager m' c) (add_shape m l <$> ow)).
  { apply later_grown; [done..|]. destruct ow as [w|]; [|done]. split; [apply agree_add_shape|]. cbn.
    apply (describes_grown w); [apply K|apply K|done|apply agree_add_shape|..]; cbn.
    - intros p v' H Hp. apply lookup_lt_Some in H. subst m. lia.
    - intros p s' H Hp. destruct (lookup_snoc_new _ _ _ _ H Hp) as [-> ->]. rewrite decide_True by done. exact W. }
  split; [done|]. apply HQ; [done| |].
  - split; [exists (length (all_shapes_ m)); split; [done|]; unfold m', m; cbn; rewrite length_app; cbn; apply Nat.lt_add_pos_r, Nat.lt_0_1|]. destruct ow as [w|]; [|done]. cbn. by rewrite decide_True.
  - unfold m'. cbn. by rewrite list_lookup_middle.
Qed.
End Allocation.

(** ** Dimensions *)

Section Dimensions.
Implicit Types (c : InferenceContext) (ow : option world).

Lemma is_dim_in c ow h x : is_dim c ow h x -> dim_in (shape_manager_ c) h.
Proof. by intros []. Qed.
Lemma dim_doc_in c ow h x : is_dim c ow h x -> doc_in (shape_manager_ c) (of_dim h).
Proof. by intros []. Qed.
Lemma is_doc_in c ow d x : is_doc c ow d x -> doc_in (shape_manager_ c) d.
Proof. by intros []. Qed.
Lemma is_dim_cast c ow c' ow' h x y : later c ow c' ow' -> within ow (fun _ => x = y) -> is_dim c' ow' h x -> is_dim c' ow' h y.
Proof. intros (_ & _ & A) E [H W]. split; [done|]. destruct ow, ow'; try done. cbn in *. by subst. Qed.
Lemma total_UnknownDim x c ow (Q : DimensionHandle -> InferenceContext -> option world -> Prop) :
  knows c ow -> within ow (fun _ => is_size x) ->
  (forall h c' ow', later c ow c' ow' -> is_dim c' ow' h x -> known_value c' h = kUnknownDim -> Q h c' ow') -> exec_total UnknownDim c ow Q.
Proof.
  intros K W HQ. apply (total_MakeDim_val _ x); [done|unfold value_ok, kUnknownDim, kint64max; lia| |done].
  destruct ow; cbn in *; [|done]. split; [done|by left].
Qed.
Lemma total_MakeDim d x c ow (Q : DimensionHandle -> InferenceContext -> option world -> Prop) :
  knows c ow -> is_doc c ow d x ->
  (forall h c' ow', later c ow c' ow' -> is_dim c' ow' h x -> known_value c' h = known_doc c d -> Q h c' ow') -> exec_total (MakeDim d) c ow Q.
Proof.
  intros K [D W] HQ. destruct d as [h|v].
  - unfold MakeDim. apply total_check; [by eapply dim_doc_ok|]. apply total_ret; [done|]. apply HQ; [by apply later_refl| |done].
    split; [done|]. by destruct ow; cbn in *.
  - by apply (total_MakeDim_val v x).
Qed.
Lemma exec_make d x c ow (Q : DimensionHandle -> InferenceContext -> option world -> Prop) :
  knows c ow -> is_doc c ow d x ->
  (forall h c' ow', later c ow c' ow' -> is_dim c' ow' h x -> known_value c' h = known_doc c d -> Q h c' ow') -> exec (make d) c ow Q.
Proof.
  intros K D HQ. unfold make. apply exec_let. apply (total_MakeDim d x); [done..|]. intros h c' ow' L H E. apply exec_ok; [by eapply later_knows|by apply HQ].
Qed.
(** A new dimension that stands for [x]. *)
Lemma exec_make_val v x c ow (Q : DimensionHandle -> InferenceContext -> option world -> Prop) :
  knows c ow -> value_ok v -> within ow (fun _ => is_size x /\ (v = kUnknownDim \/ x = v)) ->
  (forall h c' ow', later c ow c' ow' -> is_dim c' ow' h x -> known_value c' h = v -> Q h c' ow') -> exec (make (of_val v)) c ow Q.
Proof. intros K Hv W HQ. apply (exec_make (of_val v) x); [done| |done]. split; [done|]. by destruct ow. Qed.

(** The known value of a result, from those of the operands. *)
Definition known_add k1 k2 : Z := if k1 =? 0 then k2 else if k2 =? 0 then k1 else if (k1 =? kUnknownDim) || (k2 =? kUnknownDim) then kUnknownDim else k1 + k2.
Definition known_sub k1 k2 : Z := if k2 =? 0 then k1 else if (k1 =? kUnknownDim) || (k2 =? kUnknownDim) then kUnknownDim else k1 - k2.
Definition known_mul k1 k2 : Z :=
  if k1 =? 0 then k1 else if k2 =? 0 then k2 else if k1 =? 1 then k2 else if k2 =? 1 then k1
  else if (k1 =? kUnknownDim) || (k2 =? kUnknownDim) then kUnknownDim else k1 * k2.
Definition known_div k1 k2 : Z := if k2 =? 1 then k1 else if (k1 =? kUnknownDim) || (k2 =? kUnknownDim) then kUnknownDim else k1 / k2.
Definition known_min k1 k2 : Z :=
  if k1 =? 0 then k1 else if k2 =? 0 then k2 else if (k1 =? kUnknownDim) || (k2 =? kUnknownDim) then kUnknownDim else Z.min k1 k2.
Definition known_max k1 k2 : Z := if (k1 =? kUnknownDim) || (k2 =? kUnknownDim) then kUnknownDim else Z.max k1 k2.

Lemma negative_s64 z : 0 <= z <= 2 * kint64max -> kint64max < z -> s64 z < 0.
Proof.
  unfold kint64max. intros ? ?. unfold s64. replace (z + 2 ^ 63) with (z - 2 ^ 63 + 1 * 2 ^ 64) by lia. rewrite Z.mod_add, Z.mod_small by lia. lia.
Qed.
(** Both operands, as known and in the world. *)
Lemma operands c ow d e x y : knows c ow -> is_dim c ow d x -> is_doc c ow e y ->
  value_ok (known_value c d) /\ value_ok (known_doc c e) /\
  within ow (fun _ => is_size x /\ is_size y /\ (known_value c d = kUnknownDim \/ x = known_value c d) /\ (known_doc c e = kUnknownDim \/ y = known_doc c e)).
Proof.
  intros K D E. split_and!.
  - apply (known_doc_ok c ow (of_dim d)); [done|apply D].
  - apply (known_doc_ok c ow e); [done|apply E].
  - destruct ow as [w|]; [|done]. destruct (dim_known c w d x K D), (doc_known c w e y K E). done.
Qed.
End Dimensions.

(** Reads of values, and the cases on them. *)
Ltac read_value := eapply exec_read; [apply Value_eq; eauto using dim_doc_in, is_doc_in|]; cbn [known_doc].
Ltac on_world ow := destruct ow; cbn [within] in *; [|done].
Ltac sizes := unfold is_size, value_ok, kUnknownDim, kint64max in *; lia.

Section Arithmetic.
Implicit Types (c : InferenceContext) (ow : option world) (Q : DimensionHandle -> InferenceContext -> option world -> Prop).

Lemma exec_Add d e x y c ow Q :
  knows c ow -> is_dim c ow d x -> is_doc c ow e y -> within ow (fun _ => x + y <= kint64max) ->
  (forall h c' ow', later c ow c' ow' -> is_dim c' ow' h (x + y) -> known_value c' h = known_add (known_value c d) (known_doc c e) -> Q h c' ow') ->
  exec (Add d e) c ow Q.
Proof.
  intros K D E W HQ. destruct (operands c ow d e x y K D E) as (Vd & Ve & Wd). unfold Add. do 2 read_value. unfold known_add in HQ.
  destruct (Z.eqb_spec (known_value c d) 0) as [E1|N1]; [|destruct (Z.eqb_spec (known_doc c e) 0) as [E2|N2]].
  - apply (exec_make e y); [done..|]. intros h c' ow' L Hh Hk. apply HQ; [done| |done]. eapply is_dim_cast; [done| |done]. on_world ow. sizes.
  - apply (exec_make (of_dim d) x); [done|by apply is_doc_dim|]. intros h c' ow' L Hh Hk. apply HQ; [done| |done].
    eapply is_dim_cast; [done| |done]. on_world ow. sizes.
  - destruct (_ || _) eqn:U.
    + apply (exec_make_val _ (x + y)); [done|sizes| |done]. on_world ow. split; [sizes|by left].
    + apply orb_false_iff in U as [U1 U2]. apply Z.eqb_neq in U1, U2.
      destruct (Z.ltb_spec (s64 (known_value c d + known_doc c e)) 0) as [O|O].
      * apply exec_fail; [apply K| |done]. on_world ow. destruct Wd as (? & ? & [? | ->] & [? | ->]); try done. rewrite s64_id in O by sizes. sizes.
      * assert (Hle : known_value c d + known_doc c e <= kint64max).
        { destruct (Z.le_gt_cases (known_value c d + known_doc c e) kint64max); [done|]. pose proof (negative_s64 (known_value c d + known_doc c e)). sizes. }
        rewrite s64_id by sizes. apply (exec_make_val _ (x + y)); [done|sizes| |done].
        on_world ow. split; [sizes|right]. destruct Wd as (? & ? & [? | ->] & [? | ->]); done.
Qed.
Lemma exec_Subtract d e x y c ow Q :
  knows c ow -> is_dim c ow d x -> is_doc c ow e y -> within ow (fun _ => y <= x) ->
  (forall h c' ow', later c ow c' ow' -> is_dim c' ow' h (x - y) -> known_value c' h = known_sub (known_value c d) (known_doc c e) ->
     (known_value c d <> kUnknownDim -> known_doc c e <> kUnknownDim -> known_doc c e <= known_value c d) -> Q h c' ow') ->
  exec (Subtract d e) c ow Q.
Proof.
  intros K D E W HQ. destruct (operands c ow d e x y K D E) as (Vd & Ve & Wd). unfold Subtract. do 2 read_value. unfold known_sub in HQ.
  destruct (Z.eqb_spec (known_doc c e) 0) as [E2|N2].
  - apply (exec_make (of_dim d) x); [done|by apply is_doc_dim|]. intros h c' ow' L Hh Hk. apply HQ; [done| |done|sizes].
    eapply is_dim_cast; [done| |done]. on_world ow. sizes.
  - destruct (_ || _) eqn:U.
    + apply (exec_make_val _ (x - y)); [done|sizes|on_world ow; split; [sizes|by left]|]. intros. apply HQ; [done..|].
      intros. apply orb_true_iff in U as [U%Z.eqb_eq|U%Z.eqb_eq]; done.
    + apply orb_false_iff in U as [U1 U2]. apply Z.eqb_neq in U1, U2.
      destruct (Z.ltb_spec (known_value c d) (known_doc c e)) as [O|O].
      * apply exec_fail; [apply K| |done]. on_world ow. destruct Wd as (? & ? & [?| ->] & [?| ->]); try done. sizes.
      * rewrite s64_id by sizes. apply (exec_make_val _ (x - y)); [done|sizes|on_world ow; split; [sizes|right]|by auto].
        destruct Wd as (? & ? & [?| ->] & [?| ->]); done.
Qed.
Lemma exec_Multiply d e x y c ow Q :
  knows c ow -> is_dim c ow d x -> is_doc c ow e y -> within ow (fun _ => x * y <= kint64max) ->
  (forall h c' ow', later c ow c' ow' -> is_dim c' ow' h (x * y) ->
     (known_value c d * known_doc c e <= kint64max -> known_value c' h = known_mul (known_value c d) (known_doc c e)) -> Q h c' ow') ->
  exec (Multiply d e) c ow Q.
Proof.
  intros K D E W HQ. destruct (operands c ow d e x y K D E) as (Vd & Ve & Wd). unfold Multiply. do 2 read_value. unfold known_mul in HQ.
  destruct (Z.eqb_spec (known_value c d) 0) as [E1|N1]; [|destruct (Z.eqb_spec (known_doc c e) 0) as [E2|N2];
    [|destruct (Z.eqb_spec (known_value c d) 1) as [E3|N3]; [|destruct (Z.eqb_spec (known_doc c e) 1) as [E4|N4]]]].
  - apply exec_ok; [done|]. apply HQ; [by apply later_refl| |done]. eapply is_dim_cast; [by apply later_refl| |done].
    on_world ow. destruct Wd as (? & ? & [?| ->] & _); [sizes|]. rewrite E1. lia.
  - apply (exec_make e y); [done..|]. intros h c' ow' L Hh Hk. apply HQ; [done| |done]. eapply is_dim_cast; [done| |done].
    on_world ow. destruct Wd as (? & ? & _ & [?| ->]); [sizes|]. rewrite E2. lia.
  - apply (exec_make e y); [done..|]. intros h c' ow' L Hh Hk. apply HQ; [done| |done]. eapply is_dim_cast; [done| |done].
    on_world ow. destruct Wd as (? & ? & [?| ->] & _); [sizes|]. rewrite E3. lia.
  - apply exec_ok; [done|]. apply HQ; [by apply later_refl| |done]. eapply is_dim_cast; [by apply later_refl| |done].
    on_world ow. destruct Wd as (? & ? & _ & [?| ->]); [sizes|]. rewrite E4. lia.
  - destruct (_ || _) eqn:U.
    + apply (exec_make_val _ (x * y)); [done|sizes|on_world ow; split; [unfold is_size in *; nia|by left]|by auto].
    + apply orb_false_iff in U as [U1 U2]. apply Z.eqb_neq in U1, U2.
      destruct (Z.ltb_spec (s64 (known_value c d * known_doc c e)) 0) as [O|O].
      * apply exec_fail; [apply K| |done]. on_world ow. destruct Wd as (? & ? & [?| ->] & [?| ->]); try done.
        rewrite s64_id in O by (unfold is_size, kint64max in *; nia). unfold is_size in *. nia.
      * pose proof (s64_range (known_value c d * known_doc c e)). apply (exec_make_val _ (x * y)); [done|sizes| |].
        { on_world ow. destruct Wd as (? & ? & [?| ->] & [?| ->]); try done. rewrite s64_id by (unfold is_size, kint64max in *; nia).
          split; [unfold is_size in *; nia|by right]. }
        intros h c' ow' L Hh Hk. apply HQ; [done..|]. intros Hle. rewrite Hk. apply s64_id. unfold value_ok, kUnknownDim, kint64max in *. nia.
Qed.
Lemma quotient_size x y : is_size x -> 0 < y -> is_size (x / y).
Proof.
  unfold is_size. intros ? ?. split; [apply Z.div_pos; lia|]. transitivity x; [apply Z.div_le_upper_bound; nia|lia].
Qed.
Lemma exec_Divide d e x y even c ow Q :
  knows c ow -> is_dim c ow d x -> is_doc c ow e y -> e <> of_val kUnknownDim -> within ow (fun _ => 0 < y /\ (even = true -> (y | x))) ->
  (forall h c' ow', later c ow c' ow' -> is_dim c' ow' h (x / y) -> known_value c' h = known_div (known_value c d) (known_doc c e) ->
     (known_value c d <> kUnknownDim -> known_doc c e <> kUnknownDim -> 0 < known_doc c e) -> Q h c' ow') ->
  exec (Divide d e even) c ow Q.
Proof.
  intros K D E He W HQ. destruct (operands c ow d e x y K D E) as (Vd & Ve & Wd). unfold Divide. read_value. unfold known_div in HQ.
  destruct (Z.eqb_spec (known_doc c e) 1) as [E1|N1].
  { apply exec_ok; [done|]. apply HQ; [by apply later_refl| |done|lia]. eapply is_dim_cast; [by apply later_refl| |done].
    on_world ow. destruct Wd as (? & ? & _ & [?| ->]); [sizes|]. by rewrite E1, Z.div_1_r. }
  eapply exec_read; [apply ValueKnown_eq; eauto using dim_doc_in|]. cbn [known_doc].
  eapply (exec_read _ _ (negb (known_value c d =? kUnknownDim) && (known_doc c e =? kUnknownDim))).
  { destruct e as [h|v]; cbn.
    - destruct (known_value c d =? kUnknownDim); [done|]. cbn. rewrite (st_bind_eq _ _ _ _ _ (ValueKnown_eq c (of_dim h) (is_doc_in _ _ _ _ E))).
      unfold st_ret. by rewrite negb_involutive.
    - destruct (Z.eqb_spec v kUnknownDim) as [->|]; [done|]. by rewrite andb_false_r. }
  replace (negb (negb (known_value c d =? kUnknownDim)) || (negb (known_value c d =? kUnknownDim) && (known_doc c e =? kUnknownDim)))
    with ((known_value c d =? kUnknownDim) || (known_doc c e =? kUnknownDim)) by (by destruct (known_value c d =? kUnknownDim)).
  assert (Hq : within ow (fun _ => is_size (x / y))).
  { on_world ow. destruct W, Wd as (? & ? & _). by apply quotient_size. }
  destruct (_ || _) eqn:U.
  - apply (exec_make_val _ (x / y)); [done|sizes|on_world ow; by auto|]. intros. apply HQ; [done..|].
    intros. apply orb_true_iff in U as [U%Z.eqb_eq|U%Z.eqb_eq]; done.
  - apply orb_false_iff in U as [U1 U2]. apply Z.eqb_neq in U1, U2. read_value.
    destruct (Z.leb_spec (known_doc c e) 0) as [O|O].
    { apply exec_fail; [apply K| |done]. on_world ow. destruct Wd as (? & ? & _ & [?| ->]); [done|lia]. }
    destruct (even && _) eqn:Ev.
    { apply exec_fail; [apply K| |done]. on_world ow. apply andb_true_iff in Ev as [-> Ev]. apply negb_true_iff, Z.eqb_neq in Ev.
      destruct Wd as (? & ? & [?| ->] & [?| ->]); try done. destruct W as [_ W]. destruct Ev. apply Z.rem_divide; [lia|auto]. }
    rewrite Z.quot_div_nonneg by sizes. apply (exec_make_val _ (x / y)); [done| |on_world ow; split; [done|right]|by auto].
    + pose proof (quotient_size (known_value c d) (known_doc c e)). sizes.
    + destruct Wd as (? & ? & [?| ->] & [?| ->]); done.
Qed.
Lemma exec_Min d e x y c ow Q :
  knows c ow -> is_dim c ow d x -> is_doc c ow e y ->
  (forall h c' ow', later c ow c' ow' -> is_dim c' ow' h (Z.min x y) -> known_value c' h = known_min (known_value c d) (known_doc c e) -> Q h c' ow') ->
  exec (Min d e) c ow Q.
Proof.
  intros K D E HQ. destruct (operands c ow d e x y K D E) as (Vd & Ve & Wd). unfold Min. do 2 read_value. unfold known_min in HQ.
  destruct (Z.eqb_spec (known_value c d) 0) as [E1|N1]; [|destruct (Z.eqb_spec (known_doc c e) 0) as [E2|N2]].
  - apply exec_ok; [done|]. apply HQ; [by apply later_refl| |done]. eapply is_dim_cast; [by apply later_refl| |done]. on_world ow. sizes.
  - apply (exec_make e y); [done..|]. intros h c' ow' L Hh Hk. apply HQ; [done| |done]. eapply is_dim_cast; [done| |done]. on_world ow. sizes.
  - destruct (_ || _) eqn:U; [apply (exec_make_val _ (Z.min x y)); [done|sizes|on_world ow; split; [sizes|by left]|done]|].
    apply orb_false_iff in U as [U1 U2]. apply Z.eqb_neq in U1, U2. destruct (Z.leb_spec (known_value c d) (known_doc c e)) as [O|O].
    + apply exec_ok; [done|]. apply HQ; [by apply later_refl| |sizes]. eapply is_dim_cast; [by apply later_refl| |done]. on_world ow. sizes.
    + apply (exec_make e y); [done..|]. intros h c' ow' L Hh Hk. apply HQ; [done| |sizes]. eapply is_dim_cast; [done| |done]. on_world ow. sizes.
Qed.
Lemma exec_Max d e x y c ow Q :
  knows c ow -> is_dim c ow d x -> is_doc c ow e y ->
  (forall h c' ow', later c ow c' ow' -> is_dim c' ow' h (Z.max x y) -> known_value c' h = known_max (known_value c d) (known_doc c e) -> Q h c' ow') ->
  exec (Max d e) c ow Q.
Proof.
  intros K D E HQ. destruct (operands c ow d e x y K D E) as (Vd & Ve & Wd). unfold Max. do 2 read_value. unfold known_max in HQ.
  destruct (_ || _) eqn:U; [apply (exec_make_val _ (Z.max x y)); [done|sizes|on_world ow; split; [sizes|by left]|done]|].
  apply orb_false_iff in U as [U1 U2]. apply Z.eqb_neq in U1, U2. destruct (Z.leb_spec (known_doc c e) (known_value c d)) as [O|O].
  - apply exec_ok; [done|]. apply HQ; [by apply later_refl| |sizes]. eapply is_dim_cast; [by apply later_refl| |done]. on_world ow. sizes.
  - apply (exec_make e y); [done..|]. intros h c' ow' L Hh Hk. apply HQ; [done| |sizes]. eapply is_dim_cast; [done| |done]. on_world ow. sizes.
Qed.
Lemma exec_WithValue d v x c ow Q :
  knows c ow -> is_dim c ow d x -> 0 <= v <= kint64max -> within ow (fun _ => x = v) ->
  (forall h c' ow', later c ow c' ow' -> is_dim c' ow' h v -> known_value c' h = v -> Q h c' ow') -> exec (WithValue d v) c ow Q.
Proof.
  intros K D Hv W HQ. assert (Wd : within ow (fun _ => is_size x /\ (known_value c d = kUnknownDim \/ x = known_value c d))).
  { destruct ow as [w|]; [|done]. by apply (dim_known c w d x). }
  unfold WithValue. read_value. destruct (Z.eqb_spec (known_value c d) v) as [E|N].
  - apply exec_ok; [done|]. apply HQ; [by apply later_refl| |done]. eapply is_dim_cast; [by apply later_refl| |done]. on_world ow. sizes.
  - destruct (Z.eqb_spec (known_value c d) kUnknownDim) as [U|U].
    + apply exec_let. apply (total_MakeDim_val v v); [done|sizes|on_world ow; split; [sizes|by right]|]. intros h c' ow' L Hh Hk.
      apply exec_ok; [by eapply later_knows|by apply HQ].
    + apply exec_fail; [apply K| |done]. on_world ow. sizes.
Qed.
Lemma exec_Merge_dim d e x c ow Q :
  knows c ow -> is_dim c ow d x -> dim_in (shape_manager_ c) e -> within ow (fun w => dim_of w e = x) ->
  (forall h, (h = d \/ h = e) -> is_dim c ow h x ->
     known_value c h = (if known_value c d =? kUnknownDim then known_value c e else known_value c d) ->
     (known_value c d <> kUnknownDim -> known_value c e <> kUnknownDim -> known_value c d = known_value c e) -> Q h c ow) ->
  exec (Merge_dim d e) c ow Q.
Proof.
  intros K D E W HQ. assert (E' : is_dim c ow e x) by done. unfold Merge_dim, SameHandle.
  destruct (decide (d = e)) as [<-|S].
  { rewrite bool_decide_eq_true_2 by done. eapply exec_read; [done|]. apply exec_ok; [done|]. apply HQ; [by left|done| |done]. by destruct (_ =? _). }
  rewrite bool_decide_eq_false_2 by done.
  eapply exec_read; [apply ValueKnown_eq; eauto using dim_doc_in|]. cbn [known_doc orb]. rewrite negb_involutive.
  destruct (Z.eqb_spec (known_value c e) kUnknownDim) as [Ue|Ue].
  { apply exec_ok; [done|]. apply HQ; [by left|done| |done]. destruct (Z.eqb_spec (known_value c d) kUnknownDim); [congruence|done]. }
  eapply exec_read; [apply ValueKnown_eq; eauto using dim_doc_in|]. cbn [known_doc]. rewrite negb_involutive.
  destruct (Z.eqb_spec (known_value c d) kUnknownDim) as [Ud|Ud]; [apply exec_ok; [done|]; apply HQ; [by right|done..]|].
  do 2 read_value. destruct (Z.eqb_spec (known_value c d) (known_value c e)) as [V|V].
  - apply exec_ok; [done|]. apply HQ; [by left|done|done|done].
  - apply exec_fail; [apply K| |done]. destruct ow as [w|]; [|done].
    destruct (dim_known c w d x K D) as [_ [?|?]], (dim_known c w e x K E') as [_ [?|?]]; congruence.
Qed.
End Arithmetic.

(** ** The dimensions of a shape *)

(** Handles that stand for the sizes [l]. *)
Definition are_dims (c : InferenceContext) (ow : option world) (ds : list DimensionHandle) (l : list Z) : Prop :=
  Forall (dim_in (shape_manager_ c)) ds /\ within ow (fun w => map (dim_of w) ds = l).
Definition dims_at (c : InferenceContext) (h : ShapeHandle) : list DimensionHandle := match shape_at (shape_manager_ c) h with Some s => dims_ s | None => [] end.
(** A negative index counts from the end. *)
Definition norm (n i : Z) : Z := if i <? 0 then n + i else i.

Section Shapes.
Implicit Types (c : InferenceContext) (ow : option world).

Lemma is_shape_in c ow h l : is_shape c ow h l -> shape_in (shape_manager_ c) h.
Proof. by intros []. Qed.
Lemma are_dims_nil c ow : are_dims c ow [] [].
Proof. split; [done|]. by destruct ow. Qed.
Lemma are_dims_cons c ow d ds x l : is_dim c ow d x -> are_dims c ow ds l -> are_dims c ow (d :: ds) (x :: l).
Proof. intros [? W] [? W']. split; [by constructor|]. destruct ow; cbn in *; [|done]. by rewrite W, W'. Qed.
Lemma are_dims_app c ow ds es l k : are_dims c ow ds l -> are_dims c ow es k -> are_dims c ow (ds ++ es) (l ++ k).
Proof. intros [? W] [? W']. split; [by apply Forall_app|]. destruct ow; cbn in *; [|done]. by rewrite map_app, W, W'. Qed.
Lemma are_dims_later c ow c' ow' ds l : later c ow c' ow' -> are_dims c ow ds l -> are_dims c' ow' ds l.
Proof.
  intros L [H W]. split; [eapply Forall_impl; [exact H|]; intros h; eapply dim_in_grows; by eapply later_grows|].
  destruct L as (_ & _ & A). destruct ow, ow'; try done. cbn in *. by rewrite (agree_dims (shape_manager_ c) w).
Qed.
Lemma are_dims_lookup c ow ds l i d : are_dims c ow ds l -> ds !!z i = Some d -> is_dim c ow d (default 0 (l !!z i)) /\ within ow (fun _ => is_Some (l !!z i)).
Proof.
  intros [F W] H. unfold zlookup in *. destruct (i <? 0); [done|]. rewrite Forall_forall in F. split; [split|].
  - apply F. by eapply list_elem_of_lookup_2.
  - destruct ow as [w|]; [|done]. cbn in *. rewrite <- W; change (map (dim_of w) ds) with (dim_of w <$> ds); rewrite list_lookup_fmap, H. done.
  - destruct ow as [w|]; [|done]. cbn in *. rewrite <- W; change (map (dim_of w) ds) with (dim_of w <$> ds); rewrite list_lookup_fmap, H. by eexists.
Qed.
Lemma are_dims_take c ow ds l n : are_dims c ow ds l -> are_dims c ow (take n ds) (take n l).
Proof. intros [F W]. split; [by apply Forall_take|]. destruct ow; cbn in *; [|done]. by rewrite <- W, <- firstn_map. Qed.
Lemma are_dims_drop c ow ds l n : are_dims c ow ds l -> are_dims c ow (drop n ds) (drop n l).
Proof. intros [F W]. split; [by apply Forall_drop|]. destruct ow; cbn in *; [|done]. by rewrite <- W, <- skipn_map. Qed.
Lemma are_dims_length c ow ds l : are_dims c ow ds l -> within ow (fun _ => length ds = length l).
Proof. intros [F W]. destruct ow; cbn in *; [|done]. by rewrite <- W, length_map. Qed.
Lemma are_dims_sizes c w ds l : knows c (Some w) -> are_dims c (Some w) ds l -> Forall is_size l.
Proof.
  intros K [F W]. cbn in W. subst l. induction F as [|d ds Hd _ IH]; [done|]. constructor; [|done]. by apply (dim_known c w d (dim_of w d) K).
Qed.
Lemma are_dims_values c ow ds l : knows c ow -> are_dims c ow ds l ->
  within ow (fun _ => Forall2 (fun v x => v = kUnknownDim \/ x = v) (map (known_value c) ds) l).
Proof.
  intros K [F W]. destruct ow as [w|]; [|done]. cbn in *. subst l. induction F as [|d ds Hd _ IH]; [constructor|]. constructor; [|done].
  by apply (dim_known c w d (dim_of w d) K).
Qed.

Lemma dims_at_later c ow c' ow' h : later c ow c' ow' -> shape_in (shape_manager_ c) h -> dims_at c' h = dims_at c h.
Proof. intros L%later_grows (s & Hs)%shape_in_at. unfold dims_at. by rewrite Hs, (shape_at_grows _ _ _ _ L Hs). Qed.
Lemma known_values_later c ow c' ow' ds : later c ow c' ow' -> Forall (dim_in (shape_manager_ c)) ds -> map (known_value c') ds = map (known_value c) ds.
Proof. intros L. induction 1 as [|d ds Hd _ IH]; [done|]. cbn. by rewrite IH, (known_value_later c ow c' ow'). Qed.
(** A shape of known rank. *)
Lemma known_dims c ow h l : knows c ow -> is_shape c ow h l -> rank_at c h <> kUnknownRank ->
  are_dims c ow (dims_at c h) l /\ rank_at c h = zlength (dims_at c h) /\ zlength (dims_at c h) <= kint32max.
Proof.
  intros K [H W] Hne. destruct (shape_in_at _ _ H) as (s & Hs). unfold rank_at, dims_at in *. rewrite Hs in *.
  destruct (manager_shape_ok _ _ _ (memory_ok c (proj1 K)) Hs) as [[? _]|(? & ? & F)]; [done|]. split_and!; [|done..]. split; [done|].
  destruct ow as [w|]; [|done]. cbn in *. subst l. by destruct (shape_described c w h s K Hs) as [_ [?| ->]].
Qed.
Lemma Dim_known c h i d : shape_in (shape_manager_ c) h -> rank_at c h <> kUnknownRank -> dims_at c h !!z norm (zlength (dims_at c h)) i = Some d ->
  Dim h i c = Done (d, c).
Proof.
  intros (s & Hs)%shape_in_at Hne Hd. unfold rank_at, dims_at, norm in *. rewrite Hs in *. unfold Dim. rewrite (st_bind_eq _ _ _ _ _ (deref_shape_eq _ _ _ Hs)).
  destruct (Z.eqb_spec (rank_ s) kUnknownRank); [done|]. destruct (i <? 0); by rewrite Hd.
Qed.
Lemma total_Dim h i l x c ow (Q : DimensionHandle -> InferenceContext -> option world -> Prop) :
  knows c ow -> is_shape c ow h l -> (rank_at c h = kUnknownRank \/ 0 <= norm (rank_at c h) i < rank_at c h) ->
  within ow (fun _ => l !!z norm (zlength l) i = Some x) ->
  (forall d c' ow', later c ow c' ow' -> is_dim c' ow' d x ->
     known_value c' d = (if rank_at c h =? kUnknownRank then kUnknownDim else default kUnknownDim (known_value c <$> dims_at c h !!z norm (rank_at c h) i)) -> Q d c' ow') ->
  exec_total (Dim h i) c ow Q.
Proof.
  intros K H Hr W HQ. destruct (Z.eq_dec (rank_at c h) kUnknownRank) as [U|U].
  - destruct (shape_in_at _ _ (proj1 H)) as (s & Hs). unfold Dim. eapply total_read; [by apply deref_shape_eq|].
    rewrite U in HQ. unfold rank_at in U. rewrite Hs in U. rewrite U. cbn [Z.eqb kUnknownRank Pos.eqb]. apply (total_UnknownDim x); [done| |done].
    destruct ow as [w|]; [|done]. pose proof (sizes_ok c w h l K H) as F. rewrite Forall_forall in F. apply F. by eapply zlookup_elem.
  - destruct Hr as [?|Hr]; [done|]. destruct (known_dims c ow h l K H U) as (D & Er & _). rewrite Er in Hr, HQ.
    destruct (zlookup_is_Some _ _ Hr) as (d & Hd). assert (E : Dim h i c = Done (d, c)) by (apply Dim_known; [apply H|done|done]).
    unfold exec_total, wp. rewrite E. exists ow. split; [by apply later_refl|]. apply HQ; [by apply later_refl| |].
    + destruct (are_dims_lookup c ow _ _ _ _ D Hd) as [Hi _]. eapply is_dim_cast; [by apply later_refl| |done].
      pose proof (are_dims_length c ow _ _ D) as Hl. destruct ow; [|done]. cbn in *. unfold zlength in *. by rewrite Hl, W.
    + destruct (Z.eqb_spec (zlength (dims_at c h)) kUnknownRank); [unfold zlength, kUnknownRank in *; lia|]. by rewrite Hd.
Qed.
Lemma tabulate_Dim c h n i : shape_in (shape_manager_ c) h -> rank_at c h <> kUnknownRank -> 0 <= i -> i + Z.of_nat n <= zlength (dims_at c h) ->
  tabulate n i (Dim h) c = Done (take n (drop (Z.to_nat i) (dims_at c h)), c).
Proof.
  intros H Hne. revert i. induction n as [|n IH]; intros i Hi Hn; [done|]. cbn [tabulate].
  destruct (zlookup_is_Some (dims_at c h) i) as (d & Hd); [lia|].
  assert (E : Dim h i c = Done (d, c)). { apply Dim_known; [done..|]. unfold norm. by destruct (Z.ltb_spec i 0); [lia|]. }
  rewrite (st_bind_eq _ _ _ _ _ E), (st_bind_eq _ _ _ _ _ (IH (i + 1) ltac:(lia) ltac:(lia))).
  unfold st_ret. do 2 f_equal. unfold zlookup in Hd. destruct (Z.ltb_spec i 0); [lia|]. rewrite (drop_S _ _ _ Hd). cbn.
  do 2 f_equal. f_equal. lia.
Qed.
Lemma tabulate_all_dims c ow h l : knows c ow -> is_shape c ow h l -> rank_at c h <> kUnknownRank -> tabulate (Z.to_nat (rank_at c h)) 0 (Dim h) c = Done (dims_at c h, c).
Proof.
  intros K H Hne. destruct (known_dims c ow h l K H Hne) as (_ & -> & _). rewrite tabulate_Dim; [|apply H|done|lia|unfold zlength; lia].
  rewrite drop_0, take_ge; [done|]. unfold zlength. lia.
Qed.

(** ** Making shapes *)

Lemma total_MakeShape ds l c ow (Q : ShapeHandle -> InferenceContext -> option world -> Prop) :
  knows c ow -> are_dims c ow ds l -> zlength ds <= kint32max ->
  (forall h c' ow', later c ow c' ow' -> is_shape c' ow' h l -> rank_at c' h = zlength ds -> dims_at c' h = ds -> Q h c' ow') ->
  exec_total (MakeShape ds) c ow Q.
Proof.
  intros K D Hl HQ. unfold MakeShape. rewrite s32_id by (unfold zlength, kint32max in *; lia).
  apply (total_new_shape _ l); [done|right; cbn; split_and!; [done|done|apply D]|..].
  - destruct ow as [w|]; [|done]. pose proof (are_dims_length c _ _ _ D). cbn in *. split; [|right; by destruct D as [_ <-]].
    split; [by eapply are_dims_sizes|]. unfold zlength in *. lia.
  - intros h c' ow' L H Hs. apply HQ; [done..| |]; [unfold rank_at|unfold dims_at]; by rewrite Hs.
Qed.
Lemma exec_created ds l c ow (Q : ShapeHandle -> InferenceContext -> option world -> Prop) :
  knows c ow -> are_dims c ow ds l -> zlength ds <= kint32max ->
  (forall h c' ow', later c ow c' ow' -> is_shape c' ow' h l -> rank_at c' h = zlength ds -> dims_at c' h = ds -> Q h c' ow') ->
  exec (ReturnCreatedShape ds) c ow Q.
Proof.
  intros K D Hl HQ. unfold ReturnCreatedShape. apply exec_let. apply (total_MakeShape ds l); [done..|]. intros h c' ow' L H R E.
  apply exec_ok; [by eapply later_knows|by apply HQ].
Qed.
Lemma total_UnknownShape l c ow (Q : ShapeHandle -> InferenceContext -> option world -> Prop) :
  knows c ow -> within ow (fun _ => sizes_fit l) ->
  (forall h c' ow', later c ow c' ow' -> is_shape c' ow' h l -> rank_at c' h = kUnknownRank -> Q h c' ow') -> exec_total UnknownShape c ow Q.
Proof.
  intros K W HQ. unfold UnknownShape. apply (total_new_shape _ l); [done|by left| |].
  - destruct ow; cbn in *; [|done]. split; [done|by left].
  - intros h c' ow' L H Hs. apply HQ; [done..|]. unfold rank_at. by rewrite Hs.
Qed.
Lemma exec_unknown l c ow (Q : ShapeHandle -> InferenceContext -> option world -> Prop) :
  knows c ow -> within ow (fun _ => sizes_fit l) ->
  (forall h c' ow', later c ow c' ow' -> is_shape c' ow' h l -> rank_at c' h = kUnknownRank -> Q h c' ow') -> exec ReturnUnknownShape c ow Q.
Proof.
  intros K W HQ. unfold ReturnUnknownShape. apply exec_let. apply (total_UnknownShape l); [done..|]. intros h c' ow' L H R.
  apply exec_ok; [by eapply later_knows|by apply HQ].
Qed.
Lemma total_unknown_dims n l i c ow (Q : list DimensionHandle -> InferenceContext -> option world -> Prop) :
  knows c ow -> within ow (fun _ => Forall is_size l /\ length l = n) ->
  (forall ds c' ow', later c ow c' ow' -> are_dims c' ow' ds l -> length ds = n -> map (known_value c') ds = replicate n kUnknownDim -> Q ds c' ow') ->
  exec_total (tabulate n i (fun _ => UnknownDim)) c ow Q.
Proof.
  revert l i c ow Q. induction n as [|n IH]; intros l i c ow Q K W HQ; cbn [tabulate].
  - apply total_ret; [done|]. apply HQ; [by apply later_refl| |done|done]. split; [done|]. destruct ow; cbn in *; [|done]. by destruct W as [_ ->%nil_length_inv].
  - apply total_let. apply (total_UnknownDim (hd 0 l)); [done| |].
    { destruct ow; cbn in *; [|done]. destruct W as [F E], l; [done|]. by inversion F. }
    intros d c1 ow1 L1 Hd Kd. apply total_let. apply (IH (tl l)); [by eapply later_knows| |].
    { destruct L1 as (_ & _ & A). destruct ow, ow1; cbn in *; try done. destruct W as [F E], l; [done|]. inversion F. cbn in *. split; [done|lia]. }
    intros ds c2 ow2 L2 D Hl Ks. apply total_ret; [by eapply later_knows|]. apply HQ; [by eapply later_trans| |cbn; lia|].
    + pose proof (are_dims_cons c2 ow2 d ds _ _ (is_dim_later _ _ _ _ _ _ L2 Hd) D) as D'. destruct D' as [? D']. split; [done|].
      destruct L1 as (_ & _ & A), L2 as (_ & _ & A2). destruct ow, ow1, ow2; cbn in *; try done. rewrite D'. destruct W as [_ W], l; done.
    + cbn. by rewrite Ks, (known_value_later c1 ow1 c2 ow2), Kd by (done || apply Hd).
Qed.
Lemma total_UnknownShapeOfRank n l c ow (Q : ShapeHandle -> InferenceContext -> option world -> Prop) :
  knows c ow -> 0 <= n <= kint32max -> within ow (fun _ => Forall is_size l /\ zlength l = n) ->
  (forall h c' ow', later c ow c' ow' -> is_shape c' ow' h l -> rank_at c' h = n -> Q h c' ow') -> exec_total (UnknownShapeOfRank n) c ow Q.
Proof.
  intros K Hn W HQ. unfold UnknownShapeOfRank. apply total_check; [lia|]. apply total_let. apply (total_unknown_dims _ l); [done| |].
  { destruct ow; cbn in *; [|done]. destruct W. split; [done|]. unfold zlength in *. lia. }
  intros ds c1 ow1 L D Hl _. apply (total_MakeShape ds l); [by eapply later_knows|done|unfold zlength in *; lia|].
  intros h c2 ow2 L2 H R _. apply HQ; [by eapply later_trans|done|]. rewrite R. unfold zlength. lia.
Qed.
End Shapes.

(** ** The calls on shapes *)

Ltac read_rank := eapply exec_read; [apply Rank_eq; eauto using is_shape_in|].
Ltac read_known := eapply exec_read; [apply RankKnown_eq; eauto using is_shape_in|].

Lemma are_dims_eq c ow ds l l' : are_dims c ow ds l -> within ow (fun _ => l = l') -> are_dims c ow ds l'.
Proof. intros [D W] E. split; [done|]. destruct ow; cbn in *; congruence. Qed.

Section Calls.
Implicit Types (c : InferenceContext) (ow : option world) (Q : ShapeHandle -> InferenceContext -> option world -> Prop).

Lemma exec_WithRank s n l c ow Q :
  knows c ow -> is_shape c ow s l -> 0 <= n <= kint32max -> within ow (fun _ => zlength l = n) ->
  (forall h c' ow', later c ow c' ow' -> is_shape c' ow' h l -> rank_at c' h = n -> (rank_at c s <> kUnknownRank -> h = s /\ c' = c) ->
     (rank_at c s = kUnknownRank -> Forall (fun d => known_value c' d = kUnknownDim) (dims_at c' h)) -> Q h c' ow') ->
  exec (WithRank s n) c ow Q.
Proof.
  intros K H Hn W HQ. unfold WithRank. read_rank. destruct (Z.eqb_spec (rank_at c s) n) as [E|N].
  - apply exec_ok; [done|]. apply HQ; [by apply later_refl|done..|]. intros U. unfold kUnknownRank in U. lia.
  - destruct (Z.eqb_spec (rank_at c s) kUnknownRank) as [U|U].
    + apply exec_check; [lia|]. apply exec_let. apply (total_unknown_dims _ l); [done| |].
      { destruct ow as [w|]; [|done]. cbn in *. split; [by eapply sizes_ok|]. unfold zlength in *. lia. }
      intros ds c1 ow1 L D Hl Hu. apply exec_let. apply (total_MakeShape ds l); [by eapply later_knows|done|unfold zlength in *; lia|].
      intros h c2 ow2 L2 Hh R Ed. apply exec_ok; [by eapply later_knows|]. apply HQ; [by eapply later_trans|done|rewrite R; unfold zlength; lia|done|].
      intros _. rewrite Ed. apply Forall_forall. intros d Hd. destruct D as [D _]. rewrite Forall_forall in D. rewrite (known_value_later c1 ow1 c2 ow2) by auto.
      apply (list_elem_of_fmap_2 (known_value c1)) in Hd. change (known_value c1 <$> ds) with (map (known_value c1) ds) in Hd. rewrite Hu in Hd.
      by apply elem_of_replicate in Hd as [-> _].
    + apply exec_fail; [apply K| |done]. destruct ow as [w|]; [|done]. pose proof (rank_known c _ s l K H U). cbn in *. lia.
Qed.
Lemma exec_WithRankAtLeast s n l c ow Q :
  knows c ow -> is_shape c ow s l -> 0 <= n -> within ow (fun _ => n <= zlength l) ->
  (forall h c' ow', later c ow c' ow' -> is_shape c' ow' h l -> rank_at c' h = rank_at c s ->
     (rank_at c s <> kUnknownRank -> h = s /\ c' = c /\ n <= rank_at c s) -> Q h c' ow') ->
  exec (WithRankAtLeast s n) c ow Q.
Proof.
  intros K H Hn W HQ. unfold WithRankAtLeast. read_rank. destruct (Z.leb_spec n (rank_at c s)) as [E|N].
  - apply exec_ok; [done|]. apply HQ; [by apply later_refl|done..].
  - destruct (Z.eqb_spec (rank_at c s) kUnknownRank) as [U|U].
    + apply (exec_unknown l); [done|by eapply shape_fits|]. intros h c' ow' L Hh R. apply HQ; [done..|congruence|done].
    + apply exec_fail; [apply K| |done]. destruct ow as [w|]; [|done]. pose proof (rank_known c _ s l K H U). cbn in *. lia.
Qed.
Lemma exec_WithRankAtMost s n l c ow Q :
  knows c ow -> is_shape c ow s l -> within ow (fun _ => zlength l <= n) ->
  (forall h c' ow', later c ow c' ow' -> is_shape c' ow' h l -> rank_at c' h = rank_at c s -> (rank_at c s <> kUnknownRank -> rank_at c s <= n) -> Q h c' ow') ->
  exec (WithRankAtMost s n) c ow Q.
Proof.
  intros K H W HQ. unfold WithRankAtMost. read_rank. destruct (Z.eqb_spec (rank_at c s) kUnknownRank) as [U|U].
  - apply (exec_unknown l); [done|by eapply shape_fits|]. intros h c' ow' L Hh R. apply HQ; [done..|congruence|done].
  - destruct (Z.leb_spec (rank_at c s) n) as [E|N].
    + apply exec_ok; [done|]. apply HQ; [by apply later_refl|done..].
    + apply exec_fail; [apply K| |done]. destruct ow as [w|]; [|done]. pose proof (rank_known c _ s l K H U). cbn in *. lia.
Qed.

(** Where [Subshape] starts and ends in a shape of rank [n]; [None]: an error. *)
Definition subrange (n start_in end_in : Z) : option (Z * Z) :=
  let start := norm n (if n <? start_in then n else start_in) in
  let stop := norm n (if n <? end_in then n else end_in) in
  if (0 <=? start) && (0 <=? stop) && (start <=? stop) then Some (start, stop) else None.
Definition subsizes {A} (l : list A) (start_in end_in : Z) : option (list A) :=
  match subrange (zlength l) start_in end_in with Some (a, b) => Some (take (Z.to_nat (b - a)) (drop (Z.to_nat a) l)) | None => None end.
Lemma subrange_bounds n a b a' b' : 0 <= n -> subrange n a b = Some (a', b') -> 0 <= a' <= b' /\ b' <= n.
Proof.
  unfold subrange, norm. intros Hn H. destruct (_ && _) eqn:E; [|done]. apply andb_true_iff in E as [[E1%Z.leb_le E2%Z.leb_le]%andb_true_iff E3%Z.leb_le].
  injection H as <- <-. repeat (case_match; try lia).
Qed.
(** The whole shape. *)
Lemma subsizes_all {A} (l : list A) b : zlength l <= b -> subsizes l 0 b = Some l.
Proof.
  intros Hb. pose proof (Zle_0_nat (length l)). unfold subsizes, subrange, norm, zlength in *.
  destruct (Z.ltb_spec (Z.of_nat (length l)) 0); [lia|]. cbn [Z.ltb Z.compare].
  assert (E : (if Z.of_nat (length l) <? b then Z.of_nat (length l) else b) = Z.of_nat (length l)) by (destruct (Z.ltb_spec (Z.of_nat (length l)) b); lia).
  rewrite E. destruct (Z.ltb_spec (Z.of_nat (length l)) 0); [lia|]. cbn. destruct (Z.leb_spec 0 (Z.of_nat (length l))); [|lia]. cbn.
  rewrite Z.sub_0_r, drop_0, take_ge; [done|lia].
Qed.
Lemma exec_Subshape s a b l k c ow Q :
  knows c ow -> is_shape c ow s l -> within ow (fun _ => subsizes l a b = Some k) ->
  (forall h c' ow', later c ow c' ow' -> is_shape c' ow' h k ->
     (if rank_at c s =? kUnknownRank then rank_at c' h = kUnknownRank
      else rank_at c' h = zlength (dims_at c' h) /\ subsizes (dims_at c s) a b = Some (dims_at c' h)) -> Q h c' ow') ->
  exec (Subshape s a b) c ow Q.
Proof.
  intros K H W HQ. pose proof (shape_fits c ow s l K H) as F. unfold Subshape. read_rank. read_known.
  destruct (Z.eqb_spec (rank_at c s) kUnknownRank) as [U|U]; cbn [negb andb orb].
  - destruct ((a =? 0) && (b =? kint64max)) eqn:Z0.
    + apply andb_true_iff in Z0 as [->%Z.eqb_eq ->%Z.eqb_eq]. apply exec_ok; [done|]. apply HQ; [by apply later_refl| |done].
      destruct H as [H W']. split; [done|]. destruct ow; [|done]. cbn in *. destruct F as [_ F]. rewrite subsizes_all in W by (unfold kint32max, kint64max in *; lia).
      congruence.
    + apply (exec_unknown k); [done| |done]. destruct ow; [|done]. cbn in *. destruct F as [F Hl]. unfold subsizes in W.
      destruct (subrange _ _ _) as [[x y]|]; [|done]. injection W as <-. split; [by apply Forall_take, Forall_drop|]. unfold zlength in *. rewrite length_take, length_drop. lia.
  - destruct (known_dims c ow s l K H U) as (D & Er & Hl). rewrite Er in *.
    destruct ((a =? 0) && ((zlength (dims_at c s) <=? b) || (b =? kint64max))) eqn:Z0.
    { apply andb_true_iff in Z0 as [->%Z.eqb_eq Z0]. assert (Hb : zlength (dims_at c s) <= b).
      { apply orb_true_iff in Z0 as [?%Z.leb_le| ->%Z.eqb_eq]; [done|]. unfold kint32max, kint64max in *. lia. }
      apply exec_ok; [done|]. apply HQ; [by apply later_refl| |split; [done|by apply subsizes_all]].
      destruct H as [H W']. split; [done|]. pose proof (are_dims_length c ow _ _ D) as Dl. destruct ow; [|done]. cbn in *.
      rewrite subsizes_all in W by (unfold zlength in *; lia). congruence. }
    assert (Hw : within ow (fun _ => exists x y, subrange (zlength (dims_at c s)) a b = Some (x, y) /\ k = take (Z.to_nat (y - x)) (drop (Z.to_nat x) l))).
    { pose proof (are_dims_length c ow _ _ D) as Dl. destruct ow; [|done]. cbn in *. unfold subsizes in W.
      replace (zlength (dims_at c s)) with (zlength l) by (unfold zlength; lia). destruct (subrange _ _ _) as [[x y]|]; [|done]. exists x, y. by simplify_eq. }
    unfold subrange, norm in Hw. unfold subsizes, subrange, norm in HQ.
    set (start := if zlength (dims_at c s) <? a then _ else a) in *. set (stop := if zlength (dims_at c s) <? b then _ else b) in *.
    set (start' := if start <? 0 then _ else start) in *. set (stop' := if stop <? 0 then _ else stop) in *.
    destruct (Z.ltb_spec start' 0) as [N1|N1].
    { apply exec_fail; [apply K| |done]. destruct ow; [|done]. destruct Hw as (? & ? & E & _). destruct (Z.leb_spec 0 start'); [lia|done]. }
    destruct (Z.ltb_spec stop' 0) as [N2|N2].
    { apply exec_fail; [apply K| |done]. destruct ow; [|done]. destruct Hw as (? & ? & E & _). destruct (Z.leb_spec 0 stop'); [lia|]. by rewrite andb_false_r in E. }
    destruct (Z.ltb_spec stop' start') as [N3|N3].
    { apply exec_fail; [apply K| |done]. destruct ow; [|done]. destruct Hw as (? & ? & E & _). destruct (Z.leb_spec start' stop'); [lia|]. by rewrite !andb_false_r in E. }
    assert (E : (0 <=? start') && (0 <=? stop') && (start' <=? stop') = true) by lia. rewrite E in Hw, HQ.
    assert (B : 0 <= start' <= stop' /\ stop' <= zlength (dims_at c s)).
    { apply (subrange_bounds _ a b); [unfold zlength; lia|]. unfold subrange, norm. fold start stop. fold start' stop'. by rewrite E. }
    eapply exec_read; [apply tabulate_Dim; [apply H|congruence|lia|lia]|].
    apply (exec_created _ k); [done| |unfold zlength in *; rewrite length_take, length_drop; lia|].
    + eapply are_dims_eq; [apply are_dims_take, are_dims_drop, D|]. destruct ow; [|done]. destruct Hw as (? & ? & [= <- <-] & ->). done.
    + intros h c' ow' L Hh R Ed. apply HQ; [done..|]. by rewrite Ed.
Qed.
End Calls.

Section Building.
Implicit Types (c : InferenceContext) (ow : option world) (Q : ShapeHandle -> InferenceContext -> option world -> Prop).

Lemma exec_Concatenate s1 s2 l1 l2 c ow Q :
  knows c ow -> is_shape c ow s1 l1 -> is_shape c ow s2 l2 -> within ow (fun _ => zlength l1 + zlength l2 <= kint32max) ->
  (rank_at c s1 <> kUnknownRank -> rank_at c s2 <> kUnknownRank -> rank_at c s1 + rank_at c s2 <= kint32max) ->
  (forall h c' ow', later c ow c' ow' -> is_shape c' ow' h (l1 ++ l2) ->
     (if (rank_at c s1 =? kUnknownRank) || (rank_at c s2 =? kUnknownRank) then rank_at c' h = kUnknownRank
      else rank_at c' h = zlength (dims_at c' h) /\ dims_at c' h = dims_at c s1 ++ dims_at c s2) -> Q h c' ow') ->
  exec (Concatenate s1 s2) c ow Q.
Proof.
  intros K H1 H2 W Hr HQ. pose proof (shape_fits c ow s1 l1 K H1) as F1. pose proof (shape_fits c ow s2 l2 K H2) as F2.
  assert (U : forall c' h ow', later c ow c' ow' -> is_shape c' ow' h (l1 ++ l2) -> rank_at c' h = kUnknownRank ->
    (rank_at c s1 =? kUnknownRank) || (rank_at c s2 =? kUnknownRank) = true -> Q h c' ow') by (intros c' h ow' L Hh R Z; apply HQ; [done..|by rewrite Z]).
  assert (F : within ow (fun _ => sizes_fit (l1 ++ l2))).
  { destruct ow; [|done]. cbn in *. destruct F1, F2. split; [by apply Forall_app|]. by rewrite zlength_app. }
  unfold Concatenate. read_known. destruct (Z.eqb_spec (rank_at c s1) kUnknownRank) as [U1|U1]; cbn [negb].
  { eapply exec_read; [done|]. apply (exec_unknown (l1 ++ l2)); [done..|]. intros. by apply U. }
  read_known. destruct (Z.eqb_spec (rank_at c s2) kUnknownRank) as [U2|U2]; cbn [negb orb].
  { apply (exec_unknown (l1 ++ l2)); [done..|]. intros. by apply U. }
  do 2 read_rank. do 2 (eapply exec_read; [eapply tabulate_all_dims; eauto|]).
  destruct (known_dims c ow s1 l1 K H1 U1) as (D1 & E1 & _), (known_dims c ow s2 l2 K H2 U2) as (D2 & E2 & _).
  apply (exec_created _ (l1 ++ l2)); [done|by apply are_dims_app|rewrite zlength_app; lia|]. intros h c' ow' L Hh R E. apply HQ; [done..|]. by rewrite E.
Qed.
Lemma Forall_zinsert {A} (P : A -> Prop) l i x : Forall P l -> P x -> Forall P (zinsert l i x).
Proof. intros. unfold zinsert. destruct (i <? 0); [done|]. by apply Forall_insert. Qed.
Lemma map_zinsert {A B} (f : A -> B) l i x : map f (zinsert l i x) = zinsert (map f l) i (f x).
Proof. unfold zinsert. destruct (i <? 0); [done|]. apply (list_fmap_insert f). Qed.
Lemma exec_ReplaceDim s i d l x c ow Q :
  knows c ow -> is_shape c ow s l -> is_dim c ow d x -> - 2 ^ 31 <= i <= kint32max ->
  within ow (fun _ => 0 <= norm (zlength l) i < zlength l) ->
  (forall h c' ow', later c ow c' ow' -> is_shape c' ow' h (zinsert l (norm (zlength l) i) x) ->
     (if rank_at c s =? kUnknownRank then rank_at c' h = kUnknownRank
      else rank_at c' h = zlength (dims_at c' h) /\ dims_at c' h = zinsert (dims_at c s) (norm (zlength (dims_at c s)) i) d) -> Q h c' ow') ->
  exec (ReplaceDim s i d) c ow Q.
Proof.
  intros K H D Hi W HQ. pose proof (shape_fits c ow s l K H) as F. unfold ReplaceDim. read_known.
  destruct (Z.eqb_spec (rank_at c s) kUnknownRank) as [U|U]; cbn [negb].
  - apply (exec_unknown (zinsert l (norm (zlength l) i) x)); [done| |done]. destruct ow as [w|]; [|done]. cbn in *.
    destruct F as [F Hl]. split; [|by rewrite zinsert_length]. apply Forall_zinsert; [done|]. by apply (dim_known c w d x K D).
  - destruct (known_dims c ow s l K H U) as (Ds & Er & Hl). destruct (shape_in_at _ _ (proj1 H)) as (y & Hy).
    assert (Ey : dims_ y = dims_at c s) by (unfold dims_at; by rewrite Hy).
    eapply exec_read; [by apply deref_shape_eq|]. rewrite Ey.
    assert (En : (if i <? 0 then s32 (zlength (dims_at c s) + i) else i) = norm (zlength (dims_at c s)) i).
    { unfold norm. destruct (Z.ltb_spec i 0); [|done]. apply s32_id. unfold zlength, kint32max in *. lia. }
    rewrite En. assert (Hn : - 2 ^ 31 <= norm (zlength (dims_at c s)) i <= kint32max) by (unfold norm, zlength, kint32max in *; destruct (Z.ltb_spec i 0); lia).
    pose proof (are_dims_length c ow _ _ Ds) as Dl.
    destruct (Z.ltb_spec (u64 (norm (zlength (dims_at c s)) i)) (zlength (dims_at c s))) as [B|B]; cbn [negb].
    + assert (Hb : 0 <= norm (zlength (dims_at c s)) i).
      { destruct (Z.lt_ge_cases (norm (zlength (dims_at c s)) i) 0) as [Hneg|]; [|done]. exfalso. unfold u64 in B.
        rewrite <- (Z.mod_add _ 1), Z.mod_small in B by (unfold kint32max in *; lia). unfold kint32max in *. lia. }
      apply (exec_created _ (zinsert l (norm (zlength l) i) x)); [done| |by rewrite zinsert_length|].
      * split.
        -- apply Forall_zinsert; [apply Ds|apply D].
        -- destruct ow as [w|]; [|done]. cbn in *. replace (zlength l) with (zlength (dims_at c s)) by (unfold zlength; lia).
           destruct Ds as [_ W'], D as [_ <-]. cbn in W'. subst l. by rewrite map_zinsert.
      * intros h c' ow' L Hh R E. apply HQ; [done..|]. by rewrite E.
    + apply exec_fail; [apply K| |done]. destruct ow as [w|]; [|done]. cbn in *. replace (zlength l) with (zlength (dims_at c s)) in W by (unfold zlength; lia).
      rewrite u64_id in B by (unfold kint32max in *; lia). lia.
Qed.

(** An initializer list, and what it stands for. *)
Definition are_docs (c : InferenceContext) (ow : option world) (ds : list DimensionOrConstant) (l : list Z) : Prop :=
  length ds = length l /\ Forall2 (is_doc c ow) ds l.
Lemma are_docs_later c ow c' ow' ds l : later c ow c' ow' -> Forall2 (is_doc c ow) ds l -> Forall2 (is_doc c' ow') ds l.
Proof. intros L. induction 1; constructor; [by eapply is_doc_later|done]. Qed.
Lemma total_make_dims ds l c ow (Q : list DimensionHandle -> InferenceContext -> option world -> Prop) :
  knows c ow -> Forall2 (is_doc c ow) ds l ->
  (forall hs c' ow', later c ow c' ow' -> are_dims c' ow' hs l -> length hs = length ds -> map (known_value c') hs = map (known_doc c) ds -> Q hs c' ow') ->
  exec_total (make_dims ds) c ow Q.
Proof.
  intros K H. revert l c ow K Q H. induction ds as [|d ds IH]; intros l c ow K Q H HQ; inversion H as [|? x ? l' Hd Hl]; subst; cbn [make_dims].
  - apply total_ret; [done|]. apply HQ; [by apply later_refl|apply are_dims_nil|done|done].
  - apply total_let. apply (total_MakeDim d x); [done..|]. intros h c1 ow1 L1 Hh Kh. apply total_let.
    apply (IH l'); [by eapply later_knows|by eapply are_docs_later|]. intros hs c2 ow2 L2 Hhs Hlen Ks. apply total_ret; [by eapply later_knows|].
    apply HQ; [by eapply later_trans|apply are_dims_cons; [by eapply is_dim_later|done]|cbn; lia|]. cbn.
    rewrite (known_value_later c1 ow1 c2 ow2), Kh, Ks by (done || apply Hh). f_equal. apply map_ext_in. intros e He.
    destruct e as [e|]; [|done]. apply (known_value_later c ow c1 ow1); [done|]. apply list_elem_of_In in He.
    apply (list_elem_of_lookup_1) in He as (i & Hi). destruct (Forall2_lookup_l _ _ _ _ _ Hl Hi) as (y & _ & Hy & _). exact Hy.
Qed.
Lemma total_MakeShape_list ds l c ow Q :
  knows c ow -> Forall2 (is_doc c ow) ds l -> zlength ds <= kint32max ->
  (forall h c' ow', later c ow c' ow' -> is_shape c' ow' h l -> rank_at c' h = zlength ds -> map (known_value c') (dims_at c' h) = map (known_doc c) ds -> Q h c' ow') ->
  exec_total (MakeShape_list ds) c ow Q.
Proof.
  intros K H Hl HQ. unfold MakeShape_list. apply total_let. apply (total_make_dims ds l); [done..|]. intros hs c1 ow1 L1 D Hlen Ks.
  apply (total_MakeShape hs l); [by eapply later_knows|done|unfold zlength in *; lia|]. intros h c2 ow2 L2 Hh R E.
  apply HQ; [by eapply later_trans|done|unfold zlength in *; lia|]. rewrite E, <- Ks. by eapply known_values_later; [|apply D].
Qed.
(** The product of the sizes wraps around, but only its end is looked at. *)
Definition prod (l : list Z) : Z := fold_right Z.mul 1 l.
Lemma prod_nonneg l : Forall (fun v => 0 <= v) l -> 0 <= prod l.
Proof. induction 1 as [|x l Hx _ IH]; cbn; [lia|]. apply Z.mul_nonneg_nonneg; [done|exact IH]. Qed.
Lemma s64_mul a b : s64 (s64 a * b) = s64 (a * b).
Proof.
  unfold s64. f_equal. rewrite <- (Zplus_mod_idemp_l (((a + 2 ^ 63) mod 2 ^ 64 - 2 ^ 63) * b)), <- (Zplus_mod_idemp_l (a * b)). do 2 f_equal.
  rewrite <- Zmult_mod_idemp_l, <- (Zmult_mod_idemp_l a). do 2 f_equal. rewrite Zminus_mod_idemp_l. f_equal. lia.
Qed.
Lemma total_elements_loop n i P s l c ow (Q : DimensionHandle -> InferenceContext -> option world -> Prop) :
  knows c ow -> is_shape c ow s l -> rank_at c s <> kUnknownRank -> 0 <= i -> i + Z.of_nat n = zlength (dims_at c s) -> 0 <= P ->
  (Forall (fun v => v <> kUnknownDim) (map (known_value c) (drop (Z.to_nat i) (dims_at c s))) ->
     P * prod (map (known_value c) (drop (Z.to_nat i) (dims_at c s))) <= kint64max) ->
  within ow (fun _ => is_size (P * prod (drop (Z.to_nat i) l))) ->
  (forall d c' ow', later c ow c' ow' -> is_dim c' ow' d (P * prod (drop (Z.to_nat i) l)) -> Q d c' ow') ->
  exec_total (elements_loop n i (s64 P) s) c ow Q.
Proof.
  intros K H U. revert i P. destruct (known_dims c ow s l K H U) as (D & _ & _). pose proof (are_dims_length c ow _ _ D) as Dl.
  induction n as [|n IH]; intros i P Hi Hn HP Hk W HQ; cbn [elements_loop].
  - rewrite drop_ge in Hk by (unfold zlength in *; lia). cbn in Hk. rewrite Z.mul_1_r in Hk. specialize (Hk (Forall_nil_2 _)).
    rewrite s64_id by (unfold kint64max in *; lia). apply (total_MakeDim_val P (P * prod (drop (Z.to_nat i) l))); [done|sizes| |intros; by apply HQ].
    destruct ow; [|done]. cbn in *. rewrite drop_ge by (unfold zlength in *; lia). cbn. rewrite Z.mul_1_r. split; [sizes|by right].
  - destruct (zlookup_is_Some (dims_at c s) i) as (d & Hd); [lia|]. destruct (are_dims_lookup c ow _ _ _ _ D Hd) as [Hx Hs].
    eapply total_read; [apply (Dim_known c s i d); [apply H|done|unfold norm; by destruct (Z.ltb_spec i 0); [lia|]]|].
    eapply total_read; [apply Value_eq; by eapply dim_doc_in|]. cbn [known_doc].
    assert (Ed : drop (Z.to_nat i) (dims_at c s) = d :: drop (Z.to_nat (i + 1)) (dims_at c s)).
    { unfold zlookup in Hd. destruct (Z.ltb_spec i 0); [lia|]. rewrite (drop_S _ _ _ Hd). do 2 f_equal. lia. }
    assert (El : within ow (fun _ => drop (Z.to_nat i) l = default 0 (l !!z i) :: drop (Z.to_nat (i + 1)) l)).
    { destruct ow; [|done]. cbn in *. destruct Hs as (x & Hxl). rewrite Hxl. unfold zlookup in Hxl. destruct (Z.ltb_spec i 0); [lia|].
      rewrite (drop_S _ _ _ Hxl). cbn. do 2 f_equal. lia. }
    destruct (Z.eqb_spec (known_value c d) kUnknownDim) as [V|V].
    + apply (total_UnknownDim (P * prod (drop (Z.to_nat i) l))); [done..|]. intros. by apply HQ.
    + rewrite s64_mul. pose proof (known_doc_ok c ow (of_dim d) K (dim_doc_in _ _ _ _ Hx)) as Vd. cbn in Vd.
      assert (Ev : within ow (fun _ => default 0 (l !!z i) = known_value c d)).
      { destruct ow as [w|]; [|done]. by destruct (dim_known c w _ _ K Hx) as [_ [?|?]]. }
      assert (Et : within ow (fun _ => P * known_value c d * prod (drop (Z.to_nat (i + 1)) l) = P * prod (drop (Z.to_nat i) l))).
      { destruct ow; [|done]. cbn in *. rewrite El, Ev. cbn. fold (prod (drop (Z.to_nat (i + 1)) l)). ring. }
      apply IH; [lia|lia|apply Z.mul_nonneg_nonneg; sizes| | |].
      * intros F. rewrite Ed in Hk. cbn in Hk. rewrite <- Z.mul_assoc. apply Hk. by constructor.
      * destruct ow; [|done]. cbn in *. by rewrite Et.
      * intros d' c' ow' L Hd'. apply HQ; [done|]. by eapply is_dim_cast.
Qed.
Lemma total_NumElements s l c ow (Q : DimensionHandle -> InferenceContext -> option world -> Prop) :
  knows c ow -> is_shape c ow s l ->
  (Forall (fun v => v <> kUnknownDim) (map (known_value c) (dims_at c s)) -> prod (map (known_value c) (dims_at c s)) <= kint64max) ->
  within ow (fun _ => prod l <= kint64max) ->
  (forall d c' ow', later c ow c' ow' -> is_dim c' ow' d (prod l) -> Q d c' ow') -> exec_total (NumElements s) c ow Q.
Proof.
  intros K H Hk W HQ. unfold NumElements. eapply total_read; [apply Rank_eq, H|].
  assert (Hp : within ow (fun _ => is_size (prod l))).
  { destruct ow as [w|]; [|done]. cbn in *. split; [|done]. apply prod_nonneg. eapply Forall_impl; [by eapply sizes_ok|]. by intros x [? _]. }
  destruct (Z.eqb_spec (rank_at c s) kUnknownRank) as [U|U].
  - apply (total_UnknownDim (prod l)); [done..|]. intros. by apply HQ.
  - destruct (known_dims c ow s l K H U) as (D & Er & _). change 1 with (s64 1).
    apply (total_elements_loop _ _ _ _ l); [done..|unfold zlength in *; lia|done| | |]; rewrite ?drop_0, ?Z.mul_1_l; [done|done|]. cbn. rewrite ?drop_0. done.
Qed.
End Building.

(** ** Merging *)

(** What is known of a shape, and which sizes a partially known shape allows. *)
Definition known_shape (c : InferenceContext) (h : ShapeHandle) : PartialTensorShape.PartialTensorShape :=
  if rank_at c h =? kUnknownRank then PartialTensorShape.new_PartialTensorShape else PartialTensorShape.mkPartial false (map (known_value c) (dims_at c h)).
Definition fits (p : PartialTensorShape.PartialTensorShape) (l : list Z) : Prop :=
  PartialTensorShape.is_unknown_ p = true \/ Forall2 (fun v x => v = kUnknownDim \/ x = v) (PartialTensorShape.dim_sizes_ p) l.
(** What two shapes that are the same are known to be; [None]: they differ. *)
Definition merge_value (a b : Z) : option Z :=
  if a =? kUnknownDim then Some b else if b =? kUnknownDim then Some a else if a =? b then Some a else None.
Fixpoint merge_values (l k : list Z) : option (list Z) :=
  match l, k with
  | [], [] => Some []
  | a :: l', b :: k' => match merge_value a b, merge_values l' k' with Some x, Some m => Some (x :: m) | _, _ => None end
  | _, _ => None
  end.
Definition merge_shapes (p q : PartialTensorShape.PartialTensorShape) : option PartialTensorShape.PartialTensorShape :=
  if PartialTensorShape.is_unknown_ p then Some q
  else if PartialTensorShape.is_unknown_ q then Some p
  else PartialTensorShape.mkPartial false <$> merge_values (PartialTensorShape.dim_sizes_ p) (PartialTensorShape.dim_sizes_ q).

Lemma merge_value_same a : merge_value a a = Some a.
Proof. unfold merge_value. by repeat case_match; rewrite ?Z.eqb_refl in *. Qed.
Lemma merge_values_same l : merge_values l l = Some l.
Proof. induction l as [|a l IH]; [done|]. cbn. by rewrite merge_value_same, IH. Qed.
Lemma merge_shapes_same p : merge_shapes p p = Some p.
Proof. unfold merge_shapes. destruct p as [[] l]; [done|]. cbn. by rewrite merge_values_same. Qed.
Lemma merge_values_length l k : length l <> length k -> merge_values l k = None.
Proof. revert k. induction l as [|a l IH]; intros [|b k] H; try done. cbn in *. rewrite IH by lia. by destruct (merge_value a b). Qed.
(** Sizes that both allow, are allowed by what they merge to. *)
Lemma merge_value_fits a b x : (a = kUnknownDim \/ x = a) /\ (b = kUnknownDim \/ x = b) <-> exists v, merge_value a b = Some v /\ (v = kUnknownDim \/ x = v).
Proof.
  unfold merge_value. destruct (Z.eqb_spec a kUnknownDim), (Z.eqb_spec b kUnknownDim), (Z.eqb_spec a b); (split; [intros [H1 H2]; try (eexists; split; [done|]); intuition congruence
    |intros (v & E & Hv); simplify_eq; intuition congruence]).
Qed.
Lemma merge_values_fits l k xs : Forall2 (fun v x => v = kUnknownDim \/ x = v) l xs /\ Forall2 (fun v x => v = kUnknownDim \/ x = v) k xs <->
  exists m, merge_values l k = Some m /\ Forall2 (fun v x => v = kUnknownDim \/ x = v) m xs.
Proof.
  revert k xs. induction l as [|a l IH]; intros k xs.
  - split.
    + intros [H1 H2]. inversion H1; subst. inversion H2; subst. by exists [].
    + intros (m & E & H). destruct k; [|done]. injection E as <-. done.
  - split.
    + intros [H1 H2]. inversion H1 as [|? x ? xs' Ha Hl]; subst. inversion H2 as [|b ? k' ? Hb Hk]; subst.
      destruct (proj1 (merge_value_fits a b x) (conj Ha Hb)) as (v & Ev & Hv). destruct (proj1 (IH k' xs') (conj Hl Hk)) as (m & Em & Hm).
      exists (v :: m). cbn. rewrite Ev, Em. split; [done|by constructor].
    + intros (m & E & H). destruct k as [|b k]; [done|]. cbn in E. destruct (merge_value a b) as [v|] eqn:Ev; [|done].
      destruct (merge_values l k) as [m'|] eqn:Em; [|done]. injection E as <-. inversion H as [|? x ? xs' Hv Hm]; subst.
      destruct (proj2 (merge_value_fits a b x)) as [Ha Hb]; [by exists v|]. destruct (proj2 (IH k xs')) as [Hl Hk]; [by exists m'|]. split; by constructor.
Qed.
Lemma merge_shapes_fits p q l : fits p l /\ fits q l <-> exists r, merge_shapes p q = Some r /\ fits r l.
Proof.
  unfold fits, merge_shapes. destruct p as [[] dp], q as [[] dq]; cbn; (split; [intros [H1 H2]|intros (r & E & H)]).
  1,3,5: by eexists; split; [|eauto]. 1: simplify_eq; by auto. 1: simplify_eq; cbn in *; by auto. 1: simplify_eq; cbn in *; by auto.
  - destruct H1 as [?|H1], H2 as [?|H2]; try done. destruct (proj1 (merge_values_fits dp dq l) (conj H1 H2)) as (m & -> & Hm). eexists. split; [done|by right].
  - destruct (merge_values dp dq) as [m|] eqn:E'; [|done]. cbn in E. simplify_eq. cbn in H. destruct H as [?|H]; [done|].
    destruct (proj2 (merge_values_fits dp dq l)) as [? ?]; [by exists m|]. by auto.
Qed.

Section Merging.
Implicit Types (c : InferenceContext) (ow : option world).

Lemma known_shape_fits c ow h l : knows c ow -> is_shape c ow h l -> within ow (fun _ => fits (known_shape c h) l).
Proof.
  intros K H. unfold known_shape. destruct (Z.eqb_spec (rank_at c h) kUnknownRank) as [U|U]; [destruct ow; [by left|done]|].
  destruct (known_dims c ow h l K H U) as (D & _ & _). pose proof (are_dims_values c ow _ _ K D). destruct ow; [|done]. by right.
Qed.

(** The dimension that is returned for two. *)
Definition merge_pick (c : InferenceContext) (d e : DimensionHandle) : DimensionHandle :=
  if bool_decide (d = e) || (known_value c e =? kUnknownDim) then d else if known_value c d =? kUnknownDim then e else d.
Lemma Merge_dim_eq c d e : dim_in (shape_manager_ c) d -> dim_in (shape_manager_ c) e ->
  match merge_value (known_value c d) (known_value c e) with
  | Some v => Merge_dim d e c = Done (inr (merge_pick c d e), c) /\ known_value c (merge_pick c d e) = v
  | None => d <> e /\ exists s, Merge_dim d e c = Done (inl s, c) /\ ok s = false
  end.
Proof.
  intros Hd He. unfold merge_pick, merge_value, Merge_dim, SameHandle. destruct (decide (d = e)) as [<-|N].
  - rewrite !bool_decide_eq_true_2 by done. cbn [orb]. rewrite Z.eqb_refl. by destruct (known_value c d =? kUnknownDim).
  - rewrite !bool_decide_eq_false_2 by done. cbn [orb].
    rewrite (st_bind_eq _ _ _ _ _ (ValueKnown_eq c (of_dim e) He)). cbn [known_doc]. rewrite negb_involutive.
    destruct (Z.eqb_spec (known_value c e) kUnknownDim) as [Ue|Ue].
    + destruct (Z.eqb_spec (known_value c d) kUnknownDim); (split; [done|congruence]).
    + rewrite (st_bind_eq _ _ _ _ _ (ValueKnown_eq c (of_dim d) Hd)). cbn [known_doc]. rewrite negb_involutive.
      destruct (Z.eqb_spec (known_value c d) kUnknownDim) as [Ud|Ud]; [done|].
      rewrite (st_bind_eq _ _ _ _ _ (Value_eq c (of_dim d) Hd)), (st_bind_eq _ _ _ _ _ (Value_eq c (of_dim e) He)). cbn [known_doc].
      destruct (Z.eqb_spec (known_value c d) (known_value c e)); [done|]. split; [done|]. by eexists.
Qed.
Lemma merge_pick_in c d e : merge_pick c d e = d \/ merge_pick c d e = e.
Proof. unfold merge_pick. repeat case_match; auto. Qed.

(** Two shapes of the same known rank. *)
Record pair_of (c : InferenceContext) (s0 s1 : ShapeHandle) : Prop := {
  pair_in0 : shape_in (shape_manager_ c) s0;
  pair_in1 : shape_in (shape_manager_ c) s1;
  pair_known0 : rank_at c s0 <> kUnknownRank;
  pair_known1 : rank_at c s1 <> kUnknownRank;
  pair_length : length (dims_at c s0) = length (dims_at c s1);
  pair_dims0 : Forall (dim_in (shape_manager_ c)) (dims_at c s0);
  pair_dims1 : Forall (dim_in (shape_manager_ c)) (dims_at c s1)
}.
Lemma pair_step c s0 s1 n i : pair_of c s0 s1 -> 0 <= i -> i + Z.of_nat (S n) = zlength (dims_at c s0) ->
  exists d e, Dim s0 i c = Done (d, c) /\ Dim s1 i c = Done (e, c) /\ dim_in (shape_manager_ c) d /\ dim_in (shape_manager_ c) e /\
    drop (Z.to_nat i) (dims_at c s0) = d :: drop (Z.to_nat (i + 1)) (dims_at c s0) /\ drop (Z.to_nat i) (dims_at c s1) = e :: drop (Z.to_nat (i + 1)) (dims_at c s1).
Proof.
  intros [H0 H1 U0 U1 Hl F0 F1] Hi Hn.
  assert (step : forall s, shape_in (shape_manager_ c) s -> rank_at c s <> kUnknownRank -> Forall (dim_in (shape_manager_ c)) (dims_at c s) ->
    length (dims_at c s) = length (dims_at c s0) -> exists d, Dim s i c = Done (d, c) /\ dim_in (shape_manager_ c) d /\
      drop (Z.to_nat i) (dims_at c s) = d :: drop (Z.to_nat (i + 1)) (dims_at c s)).
  { intros s H U F E. destruct (zlookup_is_Some (dims_at c s) i) as (d & Hd); [unfold zlength in *; lia|]. exists d. split_and!.
    - apply Dim_known; [done..|]. unfold norm. by destruct (Z.ltb_spec i 0); [lia|].
    - rewrite Forall_forall in F. apply F. by eapply zlookup_elem.
    - unfold zlookup in Hd. destruct (Z.ltb_spec i 0); [lia|]. rewrite (drop_S _ _ _ Hd). do 2 f_equal. lia. }
  destruct (step s0) as (d & ? & ? & ?), (step s1) as (e & ? & ? & ?); try done. by exists d, e.
Qed.
Lemma merge_check_eq c s0 s1 n : pair_of c s0 s1 -> forall i r0 r1, 0 <= i -> i + Z.of_nat n = zlength (dims_at c s0) ->
  match merge_values (map (known_value c) (drop (Z.to_nat i) (dims_at c s0))) (map (known_value c) (drop (Z.to_nat i) (dims_at c s1))) with
  | None => exists s, merge_check n i s0 s1 r0 r1 c = Done (inl s, c) /\ ok s = false
  | Some m => exists t0 t1, merge_check n i s0 s1 r0 r1 c = Done (inr (t0, t1), c) /\
      (t0 = true -> m = map (known_value c) (drop (Z.to_nat i) (dims_at c s0))) /\ (t1 = true -> m = map (known_value c) (drop (Z.to_nat i) (dims_at c s1))) /\
      (t0 = true -> r0 = true) /\ (t1 = true -> r1 = true)
  end.
Proof.
  intros P. induction n as [|n IH]; intros i r0 r1 Hi Hn.
  - rewrite !drop_ge by (rewrite <- ?(pair_length _ _ _ P); unfold zlength in Hn; lia). cbn. by exists r0, r1.
  - destruct (pair_step c s0 s1 n i P Hi Hn) as (d & e & E0 & E1 & Hd & He & -> & ->). cbn [map merge_values merge_check].
    rewrite (st_bind_eq _ _ _ _ _ E0), (st_bind_eq _ _ _ _ _ E1). unfold SameHandle.
    assert (HI : forall r0' r1', (merge_value (known_value c d) (known_value c e) = None -> False) ->
      (r0' = true -> r0 = true /\ merge_value (known_value c d) (known_value c e) = Some (known_value c d)) ->
      (r1' = true -> r1 = true /\ merge_value (known_value c d) (known_value c e) = Some (known_value c e)) ->
      match match merge_value (known_value c d) (known_value c e) with Some x => match merge_values (map (known_value c) (drop (Z.to_nat (i + 1)) (dims_at c s0)))
          (map (known_value c) (drop (Z.to_nat (i + 1)) (dims_at c s1))) with Some m => Some (x :: m) | None => None end | None => None end with
      | None => exists s, merge_check n (i + 1) s0 s1 r0' r1' c = Done (inl s, c) /\ ok s = false
      | Some m => exists t0 t1, merge_check n (i + 1) s0 s1 r0' r1' c = Done (inr (t0, t1), c) /\
          (t0 = true -> m = known_value c d :: map (known_value c) (drop (Z.to_nat (i + 1)) (dims_at c s0))) /\
          (t1 = true -> m = known_value c e :: map (known_value c) (drop (Z.to_nat (i + 1)) (dims_at c s1))) /\ (t0 = true -> r0 = true) /\ (t1 = true -> r1 = true)
      end).
    { intros r0' r1' Hc H0 H1. specialize (IH (i + 1) r0' r1' ltac:(lia) ltac:(lia)). destruct (merge_value _ _) as [v|]; [|by destruct Hc].
      destruct (merge_values _ _) as [m|]; [|done]. destruct IH as (t0 & t1 & -> & A0 & A1 & B0 & B1). exists t0, t1. split; [done|].
      split_and!; intros Ht.
      - destruct (H0 (B0 Ht)) as [_ [= ->]]. by rewrite A0.
      - destruct (H1 (B1 Ht)) as [_ [= ->]]. by rewrite A1.
      - by apply H0, B0.
      - by apply H1, B1. }
    destruct (decide (d = e)) as [<-|N]; [rewrite bool_decide_eq_true_2 by done; rewrite merge_value_same in *; by apply HI|].
    rewrite bool_decide_eq_false_2 by done.
    rewrite (st_bind_eq _ _ _ _ _ (Value_eq c (of_dim d) Hd)), (st_bind_eq _ _ _ _ _ (Value_eq c (of_dim e) He)). cbn [known_doc].
    unfold merge_value in *. destruct (Z.eqb_spec (known_value c d) kUnknownDim) as [Ud|Ud].
    + apply HI; [done| |done]. destruct (Z.eqb_spec (known_value c e) kUnknownDim); [|done]. intros. split; congruence.
    + destruct (Z.eqb_spec (known_value c e) kUnknownDim) as [Ue|Ue]; [by apply HI|].
      destruct (Z.eqb_spec (known_value c d) (known_value c e)) as [V|V]; cbn [negb]; [|by eexists].
      apply HI; [done..|]. intros. split; [done|congruence].
Qed.
(** The loop that builds the merged shape, when nothing is in conflict. *)
Lemma merge_dims_eq c s0 s1 n : pair_of c s0 s1 -> forall i m, 0 <= i -> i + Z.of_nat n = zlength (dims_at c s0) ->
  merge_values (map (known_value c) (drop (Z.to_nat i) (dims_at c s0))) (map (known_value c) (drop (Z.to_nat i) (dims_at c s1))) = Some m ->
  exists ds, tabulate n i (fun i => let! d0 := Dim s0 i in let! d1 := Dim s1 i in check_ok (Merge_dim d0 d1)) c = Done (ds, c) /\
    map (known_value c) ds = m /\ length ds = n /\ Forall (dim_in (shape_manager_ c)) ds /\
    forall w, map (dim_of w) (drop (Z.to_nat i) (dims_at c s0)) = map (dim_of w) (drop (Z.to_nat i) (dims_at c s1)) -> map (dim_of w) ds = map (dim_of w) (drop (Z.to_nat i) (dims_at c s0)).
Proof.
  intros P. induction n as [|n IH]; intros i m Hi Hn.
  - rewrite !drop_ge by (rewrite <- ?(pair_length _ _ _ P); unfold zlength in Hn; lia). cbn. intros [= <-]. by exists [].
  - destruct (pair_step c s0 s1 n i P Hi Hn) as (d & e & E0 & E1 & Hd & He & -> & ->). cbn [map merge_values tabulate].
    pose proof (Merge_dim_eq c d e Hd He) as M. destruct (merge_value _ _) as [v|]; [|done]. destruct M as [M Mv].
    destruct (merge_values _ _) as [m'|] eqn:Em; [|done]. intros [= <-]. destruct (IH (i + 1) m' ltac:(lia) ltac:(lia) Em) as (ds & E & Ev & El & F & W).
    exists (merge_pick c d e :: ds). split_and!.
    + rewrite (st_bind_eq _ _ _ (merge_pick c d e) c); [by rewrite (st_bind_eq _ _ _ _ _ E)|].
      rewrite (st_bind_eq _ _ _ _ _ E0), (st_bind_eq _ _ _ _ _ E1). unfold check_ok. by rewrite (st_bind_eq _ _ _ _ _ M).
    + cbn. by rewrite Mv, Ev.
    + cbn. lia.
    + constructor; [|done]. by destruct (merge_pick_in c d e) as [->| ->].
    + intros w [= Hh Ht]. cbn. rewrite W by done. f_equal. destruct (merge_pick_in c d e) as [->| ->]; congruence.
Qed.
End Merging.

Section MergeCalls.
Implicit Types (c : InferenceContext) (ow : option world) (Q : ShapeHandle -> InferenceContext -> option world -> Prop).

Lemma is_unknown_known_shape c h : PartialTensorShape.is_unknown_ (known_shape c h) = (rank_at c h =? kUnknownRank).
Proof. unfold known_shape. by destruct (_ =? _). Qed.
Lemma pair_of_known c ow s0 s1 l0 l1 : knows c ow -> is_shape c ow s0 l0 -> is_shape c ow s1 l1 ->
  rank_at c s0 <> kUnknownRank -> rank_at c s1 <> kUnknownRank -> rank_at c s0 = rank_at c s1 -> pair_of c s0 s1.
Proof.
  intros K H0 H1 U0 U1 E. destruct (known_dims c ow s0 l0 K H0 U0) as (D0 & E0 & _), (known_dims c ow s1 l1 K H1 U1) as (D1 & E1 & _).
  constructor; try done; [apply H0|apply H1|unfold zlength in *; lia|apply D0|apply D1].
Qed.
(** [Merge] returns what is known of either shape, or that they differ. *)
Lemma Merge_spec s0 s1 l0 l1 c ow : knows c ow -> is_shape c ow s0 l0 -> is_shape c ow s1 l1 ->
  wp (Merge s0 s1) c (fun r c' =>
    match r with
    | inl s => c' = c /\ ok s = false /\ merge_shapes (known_shape c s0) (known_shape c s1) = None
    | inr h => exists ow', later c ow c' ow' /\ shape_in (shape_manager_ c') h /\ within ow' (fun w => l0 = l1 -> sizes_of w h = l0) /\
        merge_shapes (known_shape c s0) (known_shape c s1) = Some (known_shape c' h)
    end).
Proof.
  intros K H0 H1. unfold Merge, SameHandle, wp.
  assert (R0 : exists ow', later c ow c ow' /\ shape_in (shape_manager_ c) s0 /\ within ow' (fun w => l0 = l1 -> sizes_of w s0 = l0)).
  { exists ow. split; [by apply later_refl|]. split; [apply H0|]. destruct H0 as [_ W]. destruct ow; cbn in *; [by intros _|done]. }
  assert (R1 : exists ow', later c ow c ow' /\ shape_in (shape_manager_ c) s1 /\ within ow' (fun w => l0 = l1 -> sizes_of w s1 = l0)).
  { exists ow. split; [by apply later_refl|]. split; [apply H1|]. destruct H1 as [_ W]. destruct ow; [|done]. cbn in *. congruence. }
  destruct (decide (s0 = s1)) as [<-|N].
  { rewrite bool_decide_eq_true_2 by done. cbn. destruct R0 as (ow' & ? & ? & ?). exists ow'. split_and!; [done..|apply merge_shapes_same]. }
  rewrite bool_decide_eq_false_2 by done. cbn [orb]. rewrite (st_bind_eq _ _ _ _ _ (RankKnown_eq c s1 (proj1 H1))), negb_involutive.
  pose proof (is_unknown_known_shape c s0) as P0. pose proof (is_unknown_known_shape c s1) as P1. unfold merge_shapes. rewrite P0, P1.
  destruct (Z.eqb_spec (rank_at c s1) kUnknownRank) as [U1|U1].
  { cbn. destruct R0 as (ow' & ? & ? & ?). exists ow'. split_and!; [done..|]. destruct (Z.eqb_spec (rank_at c s0) kUnknownRank) as [U0|U0]; [|done].
    unfold known_shape. by rewrite U0, U1. }
  rewrite (st_bind_eq _ _ _ _ _ (RankKnown_eq c s0 (proj1 H0))), negb_involutive.
  destruct (Z.eqb_spec (rank_at c s0) kUnknownRank) as [U0|U0].
  { cbn. destruct R1 as (ow' & ? & ? & ?). by exists ow'. }
  rewrite (st_bind_eq _ _ _ _ _ (Rank_eq c s0 (proj1 H0))), (st_bind_eq _ _ _ _ _ (Rank_eq c s1 (proj1 H1))).
  destruct (known_dims c ow s0 l0 K H0 U0) as (D0 & E0 & B0), (known_dims c ow s1 l1 K H1 U1) as (D1 & E1 & _).
  assert (S0 : PartialTensorShape.dim_sizes_ (known_shape c s0) = map (known_value c) (dims_at c s0)).
  { unfold known_shape. destruct (Z.eqb_spec (rank_at c s0) kUnknownRank); done. }
  assert (S1 : PartialTensorShape.dim_sizes_ (known_shape c s1) = map (known_value c) (dims_at c s1)).
  { unfold known_shape. destruct (Z.eqb_spec (rank_at c s1) kUnknownRank); done. }
  rewrite S0, S1. destruct (Z.eqb_spec (rank_at c s0) (rank_at c s1)) as [E|E]; cbn [negb].
  2: { split_and!; [done..|]. rewrite merge_values_length; [done|]. rewrite !length_map. unfold zlength in *. lia. }
  pose proof (pair_of_known c ow s0 s1 l0 l1 K H0 H1 U0 U1 E) as P.
  pose proof (merge_check_eq c s0 s1 (Z.to_nat (rank_at c s0)) P 0 true true ltac:(lia) ltac:(unfold zlength in *; lia)) as C. rewrite !drop_0 in C.
  destruct (merge_values _ _) as [m|] eqn:Em.
  2: { destruct C as (s & Ec & Hs). unfold try_bind. rewrite (st_bind_eq _ _ _ _ _ Ec). done. }
  destruct C as (t0 & t1 & Ec & A0 & A1 & _). unfold try_bind. rewrite (st_bind_eq _ _ _ _ _ Ec). destruct (t0 || t1) eqn:T.
  { unfold ok_with, st_ret. destruct t0; [|destruct t1; [|done]].
    - destruct R0 as (ow' & ? & ? & ?). exists ow'. split_and!; [done..|]. rewrite A0 by done. unfold known_shape. destruct (Z.eqb_spec (rank_at c s0) kUnknownRank); done.
    - destruct R1 as (ow' & ? & ? & ?). exists ow'. split_and!; [done..|]. rewrite A1 by done. unfold known_shape. destruct (Z.eqb_spec (rank_at c s1) kUnknownRank); done. }
  destruct (merge_dims_eq c s0 s1 (Z.to_nat (rank_at c s0)) P 0 m ltac:(lia) ltac:(unfold zlength in *; lia)) as (ds & Ed & Ev & El & F & W); [by rewrite !drop_0|].
  rewrite (st_bind_eq _ _ _ _ _ Ed). rewrite !drop_0 in W.
  assert (D : exists l, are_dims c ow ds l /\ within ow (fun _ => l0 = l1 -> l = l0)).
  { destruct ow as [w|]; [|by exists []]. exists (map (dim_of w) ds). split; [done|]. cbn. intros <-. destruct D0 as [_ D0], D1 as [_ D1]. cbn in *. rewrite W; congruence. }
  destruct D as (l & D & Hl).
  assert (X : exec (ReturnCreatedShape ds) c ow (fun h c' ow' => is_shape c' ow' h l /\ known_shape c' h = PartialTensorShape.mkPartial false m)).
  { apply (exec_created ds l); [done|done|unfold zlength in *; lia|]. intros h c' ow' L Hh R Edims. split; [done|]. unfold known_shape. rewrite R, Edims.
    destruct (Z.eqb_spec (zlength ds) kUnknownRank); [unfold zlength, kUnknownRank in *; lia|]. f_equal. rewrite <- Ev. eapply known_values_later; [done|apply D]. }
  unfold exec, wp, ReturnCreatedShape in *. destruct (st_bind _ _ c) as [[[s|h] c']| |] eqn:Eb; [|destruct X as (ow' & L & [Hh1 Hh2] & Ek)|done..].
  { exfalso. unfold st_bind, ok_with, st_ret in Eb. destruct (MakeShape ds c) as [[? ?]| |]; done. }
  exists ow'. split_and!; [done|done| |by rewrite Ek].
  destruct L as (_ & _ & A). destruct ow, ow'; try done. cbn in *. intros EQ. by rewrite Hh2, Hl.
Qed.
Lemma exec_Merge s0 s1 l c ow Q :
  knows c ow -> is_shape c ow s0 l -> is_shape c ow s1 l ->
  (forall h c' ow', later c ow c' ow' -> is_shape c' ow' h l -> merge_shapes (known_shape c s0) (known_shape c s1) = Some (known_shape c' h) -> Q h c' ow') ->
  exec (Merge s0 s1) c ow Q.
Proof.
  intros K H0 H1 HQ. eapply wp_mono; [by apply (Merge_spec s0 s1 l l c ow)|]. cbv beta. intros [s|h] c'.
  - intros (-> & Hs & E). split_and!; [apply K|apply keeps_refl| |done]. destruct ow as [w|]; [exfalso|done].
    pose proof (known_shape_fits c _ _ _ K H0) as F0. pose proof (known_shape_fits c _ _ _ K H1) as F1.
    destruct (proj1 (merge_shapes_fits _ _ l) (conj F0 F1)) as (r & Er & _). congruence.
  - intros (ow' & L & Hh & W & E). exists ow'. split; [done|]. apply HQ; [done| |done]. split; [done|]. destruct ow'; [|done]. by apply W.
Qed.
Lemma try_tabulate_merge n c ow ds es l k : are_dims c ow ds l -> are_dims c ow es k -> knows c ow -> length ds = n -> length es = n -> within ow (fun _ => l = k) ->
  forall s p i, (forall j d, ds !! j = Some d -> Dim s (i + Z.of_nat j) c = Done (d, c)) -> (forall j e, es !! j = Some e -> Dim p (i + Z.of_nat j) c = Done (e, c)) ->
  exists r, try_tabulate n i (fun i => let! d := Dim s i in let! e := Dim p i in Merge_dim d e) c = Done (r, c) /\
    match r with inl s => ok s = false /\ ow = None | inr fs => are_dims c ow fs l /\ length fs = n end.
Proof.
  revert ds es l k. induction n as [|n IH]; intros ds es l k D E K Hd He W s p i Hs Hp.
  - exists (inr []). split; [done|]. split; [|done]. destruct ds; [|done]. done.
  - destruct ds as [|d ds], es as [|e es]; try done. cbn [try_tabulate].
    destruct D as [[Dd Ds]%Forall_cons Dw], E as [[Ed Es]%Forall_cons Ew].
    pose proof (Hs 0%nat d eq_refl) as H0. pose proof (Hp 0%nat e eq_refl) as H1. rewrite Z.add_0_r in H0, H1.
    unfold try_bind. unfold st_bind at 1. unfold st_bind at 1. rewrite H0. unfold st_bind at 1. rewrite H1.
    pose proof (Merge_dim_eq c d e Dd Ed) as M. destruct (merge_value _ _) as [v|] eqn:Ev.
    + destruct M as [M _]. rewrite M. destruct (IH ds es (tl l) (tl k)) with (s := s) (p := p) (i := i + 1) as (r & Er & Hr); try done.
      * split; [done|]. destruct ow; [|done]. cbn in *. by subst l.
      * split; [done|]. destruct ow; [|done]. cbn in *. by subst k.
      * cbn in *. lia.
      * cbn in *. lia.
      * destruct ow; [|done]. cbn in *. by rewrite W.
      * intros j d' Hj. rewrite <- (Hs (S j) d' Hj). f_equal. lia.
      * intros j d' Hj. rewrite <- (Hp (S j) d' Hj). f_equal. lia.
      * rewrite (st_bind_eq _ _ _ _ _ Er). destruct r as [st|fs]; [by exists (inl st)|]. exists (inr (merge_pick c d e :: fs)). split; [done|].
        destruct Hr as [[F Fw] Hl]. split; [|cbn; lia]. split; [constructor; [by destruct (merge_pick_in c d e) as [->| ->]|done]|].
        destruct ow as [w|]; [|done]. cbn in *. rewrite Fw. subst l k. injection W as W1 W2. cbn. f_equal. destruct (merge_pick_in c d e) as [->| ->]; congruence.
    + destruct M as (_ & st & M & Hst). rewrite M. exists (inl st). split; [done|]. split; [done|]. destruct ow as [w|]; [exfalso|done].
      cbn in *. subst l k. injection W as W _. destruct (dim_known c w d _ K (conj Dd eq_refl)) as [_ ?], (dim_known c w e _ K (conj Ed eq_refl)) as [_ ?].
      destruct (proj1 (merge_value_fits (known_value c d) (known_value c e) (dim_of w d))) as (v & ? & _); [|congruence]. split; [done|]. by rewrite W.
Qed.
End MergeCalls.

Section Prefix.
Implicit Types (c : InferenceContext) (ow : option world).

Lemma within_later c ow c' ow' P : later c ow c' ow' -> within ow (fun _ => P) -> within ow' (fun _ => P).
Proof. intros (_ & _ & A). by destruct ow, ow'. Qed.
Lemma exec_MergePrefix s p l k c ow (Q : ShapeHandle * ShapeHandle -> InferenceContext -> option world -> Prop) :
  knows c ow -> is_shape c ow s l -> is_shape c ow p k -> within ow (fun _ => take (length k) l = k) ->
  (forall hs hp c' ow', later c ow c' ow' -> is_shape c' ow' hs l -> is_shape c' ow' hp k -> Q (hs, hp) c' ow') ->
  exec (MergePrefix s p) c ow Q.
Proof.
  intros K Hs Hp W HQ. unfold MergePrefix. read_known. destruct (Z.eqb_spec (rank_at c p) kUnknownRank) as [Up|Up]; cbn [negb].
  { eapply exec_read; [done|]. apply exec_ok; [done|]. apply HQ; [by apply later_refl|done..]. }
  read_known. destruct (Z.eqb_spec (rank_at c s) kUnknownRank) as [Us|Us]; cbn [negb orb].
  { apply exec_ok; [done|]. apply HQ; [by apply later_refl|done..]. }
  read_rank. apply exec_try. destruct (known_dims c ow p k K Hp Up) as (Dp & Ep & Bp). apply (exec_WithRankAtLeast s _ l); [done|done|rewrite Ep; unfold zlength; lia| |].
  { pose proof (are_dims_length c ow _ _ Dp). destruct ow; [|done]. cbn in *. rewrite Ep. unfold zlength. apply (f_equal length) in W. rewrite length_take in W. lia. }
  intros h c0 ow0 L0 Hh Rh Hk. destruct (Hk Us) as (-> & -> & Hle). clear Hk Rh Dp.
  apply (within_later _ _ _ _ _ L0) in W. assert (K0 : knows c ow0) by (by eapply later_knows).
  pose proof (is_shape_later _ _ _ _ _ _ L0 Hp) as Hp0. destruct (known_dims c ow0 p k K0 Hp0 Up) as (Dp & _ & _).
  destruct (known_dims c ow0 s l K0 Hh Us) as (Ds & Es & Bs). rewrite Ep in Hle |- *. rewrite Es in Hle.
  pose proof (are_dims_length c ow0 _ _ Dp) as Lp. pose proof (are_dims_length c ow0 _ _ Ds) as Ls.
  set (n := length (dims_at c p)). assert (En : Z.to_nat (zlength (dims_at c p)) = n) by (unfold zlength, n; lia). rewrite En.
  assert (Hn : (n <= length (dims_at c s))%nat) by (unfold zlength, n in *; lia).
  assert (Wn : within ow0 (fun _ => take n l = k)) by (destruct ow0; [|done]; unfold n; cbn in *; by rewrite Lp).
  destruct (try_tabulate_merge n c ow0 (take n (dims_at c s)) (dims_at c p) (take n l) k) with (s := s) (p := p) (i := 0) as (r & Er & Hr); try done.
  { by apply are_dims_take. }
  { rewrite length_take. lia. }
  { intros j d Hj. apply Dim_known; [apply Hs|done|]. unfold norm, zlookup. destruct (Z.ltb_spec (0 + Z.of_nat j) 0); [lia|]. destruct (Z.ltb_spec (0 + Z.of_nat j) 0); [lia|].
    apply lookup_take_Some in Hj as [Hj _]. rewrite <- Hj. f_equal. lia. }
  { intros j d Hj. apply Dim_known; [apply Hp|done|]. unfold norm, zlookup. destruct (Z.ltb_spec (0 + Z.of_nat j) 0); [lia|]. destruct (Z.ltb_spec (0 + Z.of_nat j) 0); [lia|].
    rewrite <- Hj. f_equal. lia. }
  destruct r as [st|fs].
  { unfold exec, wp, try_bind. rewrite (st_bind_eq _ _ _ _ _ Er). destruct Hr. split_and!; [apply K0|apply keeps_refl|done|done]. }
  destruct Hr as [F Fl]. apply exec_try. unfold exec at 1, wp. rewrite Er. exists ow0. split; [by apply later_refl|].
  apply exec_let. apply (total_MakeShape fs k); [done|eapply are_dims_eq; [apply F|done]|unfold zlength, n in *; lia|]. intros hp c1 ow1 L1 Hhp _ _.
  assert (K1 : knows c1 ow1) by (by eapply later_knows). pose proof (is_shape_later _ _ _ _ _ _ L1 Hh) as Hs1.
  assert (Us1 : rank_at c1 s <> kUnknownRank) by (rewrite (rank_at_later c ow0 c1 ow1); [done|done|apply Hs]).
  assert (Ds1 : dims_at c1 s = dims_at c s) by (eapply dims_at_later; [done|apply Hs]).
  destruct (known_dims c1 ow1 s l K1 Hs1 Us1) as (D1 & E1 & _). rewrite Ds1 in *.
  read_rank. rewrite E1. eapply exec_read; [apply tabulate_Dim; [apply Hs1|done|unfold zlength; lia|rewrite Ds1; unfold zlength in *; lia]|]. rewrite Ds1, En.
  apply exec_let. rewrite take_ge by (rewrite length_drop; unfold zlength; lia).
  apply (total_MakeShape _ l); [done| |rewrite zlength_app; unfold zlength in *; rewrite length_drop; lia|].
  { eapply are_dims_eq; [apply are_dims_app; [eapply are_dims_later; [exact L1|exact F]|apply are_dims_drop, D1]|]. destruct ow1; [|done]. apply take_drop. }
  intros hs c2 ow2 L2 Hhs _ _. apply exec_ok; [by eapply later_knows|]. apply HQ; [by eapply later_trans; [|eapply later_trans]|done|by eapply is_shape_later].
Qed.
End Prefix.

(** ** Inputs *)

Section Inputs.
Implicit Types (c : InferenceContext) (ow : option world) (Q : ShapeHandle -> InferenceContext -> option world -> Prop).

(** A write that only concerns the requests, or the handle shapes. *)
Lemma later_same c ow c' : knows c ow -> context_ok c' -> shape_manager_ c' = shape_manager_ c -> inputs_ c' = inputs_ c -> input_tensors_ c' = input_tensors_ c ->
  input_tensors_as_shapes_ c' = input_tensors_as_shapes_ c -> length (outputs_ c') = length (outputs_ c) -> node_def_ c' = node_def_ c -> later c ow c' ow.
Proof.
  intros [C D] C' Em Ei Et Ea Eo En. split_and!.
  - split; [done|]. destruct ow as [w|]; [|done]. destruct D. constructor; rewrite ?Em, ?Ei, ?Et, ?Ea; done.
  - constructor; rewrite ?Em; done.
  - destruct ow; [apply agree_refl|done].
Qed.
Lemma write_eq {A} (get : InferenceContext -> list A) set i x c : 0 <= i < zlength (get c) -> write get set i x c = Done (tt, set (zinsert (get c) i x) c).
Proof. intros H. unfold write, st_bind, st_get. destruct (zlookup_is_Some _ _ H) as (y & ->). done. Qed.
Lemma input_eq i h c : inputs_ c !!z i = Some h -> input i c = Done (h, c).
Proof. intros H. unfold input, st_bind, st_get. by rewrite H. Qed.
Lemma is_input c ow i h : knows c ow -> inputs_ c !!z i = Some h -> is_shape c ow h (match ow with Some w => shape (value_of w i) | None => [] end).
Proof.
  intros [C D] H. split; [pose proof (inputs_ok c C) as F; rewrite Forall_forall in F; apply F; by eapply zlookup_elem|].
  destruct ow as [w|]; [|done]. symmetry. by apply (inputs_described w c D).
Qed.
Lemma total_input_tensor i c ow (Q : option Tensor -> InferenceContext -> option world -> Prop) :
  knows c ow -> 0 <= i < zlength (inputs_ c) ->
  (forall t c' ow', later c ow c' ow' -> input_tensors_ c !!z i = Some t -> shape_manager_ c' = shape_manager_ c ->
     match t with Some t => within ow' (fun w => value_of w i = t) | None => True end -> Q t c' ow') ->
  exec_total (input_tensor i) c ow Q.
Proof.
  intros K Hi HQ. unfold exec_total, wp, input_tensor. pose proof (requested_length c (proj1 K)) as El. pose proof (tensors_length c (proj1 K)) as Et.
  rewrite (st_bind_eq _ _ _ _ _ (write_eq requested_input_tensor_ _ _ _ _ ltac:(unfold zlength in *; rewrite El; done))).
  destruct (zlookup_is_Some (input_tensors_ c) i) as (t & Ht); [unfold zlength in *; by rewrite Et|].
  unfold st_bind, st_get. cbn [input_tensors_ with_requested]. rewrite Ht. cbn.
  assert (L : later c ow (with_requested (zinsert (requested_input_tensor_ c) i true) c) ow).
  { apply later_same; try done. destruct K as [[] _]. constructor; try done. cbn. unfold zinsert. destruct (_ <? 0); [done|]. by rewrite length_insert. }
  exists ow. split; [done|]. apply (HQ t); [done..|]. destruct t as [t|]; [|done]. destruct ow as [w|]; [|done]. by apply (tensors_described w c (proj2 K)).
Qed.
Lemma exec_dims_of_values vs l c ow (Q : list DimensionHandle -> InferenceContext -> option world -> Prop) :
  knows c ow -> Forall (fun v => v <= kint64max) vs -> within ow (fun _ => Forall2 (fun v x => is_size x /\ (v = -1 \/ x = v)) vs l) ->
  (forall ds c' ow', later c ow c' ow' -> are_dims c' ow' ds l -> length ds = length vs -> map (known_value c') ds = vs -> Q ds c' ow') ->
  exec (dims_of_values vs) c ow Q.
Proof.
  intros K. revert l c ow K Q. induction vs as [|v vs IH]; intros l c ow K Q Hv W HQ; cbn [dims_of_values].
  - apply exec_ok; [done|]. apply HQ; [by apply later_refl| |done|done]. split; [done|]. destruct ow; [|done]. cbn in *. by inversion W.
  - apply Forall_cons in Hv as [Hv Hvs]. destruct (Z.ltb_spec v (-1)) as [N|N].
    { apply exec_fail; [apply K| |done]. destruct ow; [|done]. inversion W as [|? x ? l' [? [?|?]]]; subst; unfold is_size in *; lia. }
    apply exec_let. apply (total_MakeDim_val v (hd 0 l)); [done|unfold value_ok; lia| |].
    { destruct ow; [|done]. cbn in *. by inversion W as [|? x ? l' Hx]; subst. }
    intros d c1 ow1 L1 Hd Kd. apply exec_try. apply (IH (tl l)); [by eapply later_knows|done| |].
    { apply (within_later _ _ _ _ _ L1). destruct ow; [|done]. cbn in *. by inversion W. }
    intros ds c2 ow2 L2 Ds Hl Ks. apply exec_ok; [by eapply later_knows|]. apply HQ; [by eapply later_trans| |cbn; lia|].
    + eapply are_dims_eq; [apply are_dims_cons; [by eapply is_dim_later|done]|]. apply (within_later _ _ _ _ _ L2), (within_later _ _ _ _ _ L1).
      destruct ow; [|done]. cbn in *. by inversion W.
    + cbn. by rewrite Ks, (known_value_later c1 ow1 c2 ow2), Kd by (done || apply Hd).
Qed.
End Inputs.

Section TensorCalls.
Implicit Types (c : InferenceContext) (ow : option world) (Q : ShapeHandle -> InferenceContext -> option world -> Prop).

(** The context knows no vector of sizes that is longer than a rank. *)
Definition vector_fits (c : InferenceContext) (h : ShapeHandle) : Prop :=
  rank_at c h = kUnknownRank \/ (0 < rank_at c h /\ forall d, dims_at c h !!z 0 = Some d -> known_value c d <= kint32max).
Lemma exec_flat_dims t T l c ow Q :
  knows c ow -> tensor_ok t -> dtype t = T -> within ow (fun _ => vector_gives t l) ->
  (forall h c' ow', later c ow c' ow' -> is_shape c' ow' h l -> known_shape c' h = PartialTensorShape.mkPartial false (elements t) -> Q h c' ow') ->
  exec (let! flat_t := flat t T in let? dims := dims_of_values flat_t in ReturnCreatedShape dims) c ow Q.
Proof.
  intros K (V & _ & Hl & _) ET W HQ. eapply exec_read; [unfold flat; by rewrite ET, Z.eqb_refl|].
  apply exec_try. apply (exec_dims_of_values _ l); [done|eapply Forall_impl; [exact V|]; by intros v [_ ?]| |].
  { destruct ow; [|done]. apply W. }
  intros ds c1 ow1 L D El Ek. apply (exec_created ds l); [by eapply later_knows|done|unfold zlength in *; lia|]. intros h c2 ow2 L2 Hh R Ed.
  apply HQ; [by eapply later_trans|done|]. unfold known_shape. rewrite R, Ed.
  destruct (Z.eqb_spec (zlength ds) kUnknownRank); [unfold zlength, kUnknownRank in *; lia|]. f_equal. rewrite <- Ek. by eapply known_values_later; [|apply D].
Qed.
Lemma exec_MakeShapeFromTensor t s k l c ow Q :
  knows c ow -> is_shape c ow s k ->
  match t with
  | Some t => tensor_ok t /\ within ow (fun _ => vector_gives t l)
  | None => vector_fits c s /\ within ow (fun _ => k = [zlength l] /\ sizes_fit l)
  end ->
  (forall h c' ow', later c ow c' ow' -> is_shape c' ow' h l -> Q h c' ow') -> exec (MakeShapeFromTensor t s) c ow Q.
Proof.
  intros K H Ht HQ. destruct t as [t|]; cbn [MakeShapeFromTensor].
  - destruct Ht as [T W]. destruct (Z.eqb_spec (zlength (shape t)) 1) as [E|N]; cbn [negb].
    2: { apply exec_fail; [apply K| |done]. destruct ow; [|done]. destruct W as (_ & W & _). by rewrite W in N. }
    destruct (Z.eqb_spec (dtype t) DT_INT32) as [E32|N32]; [apply (exec_flat_dims t _ l); auto|].
    destruct (Z.eqb_spec (dtype t) DT_INT64) as [E64|N64]; [apply (exec_flat_dims t _ l); auto|].
    destruct T as (_ & _ & _ & (nm & Hn)). eapply exec_read; [by rewrite Hn|]. apply exec_fail; [apply K| |done]. destruct ow; [|done]. by destruct W as ([?|?] & _).
  - destruct Ht as [V W]. apply exec_let. apply (total_Dim s 0 k (zlength l)); [done|done|destruct V as [?|[? _]]; [by left|right; unfold norm; cbn; lia]| |].
    { destruct ow; [|done]. cbn in *. by destruct W as [-> _]. }
    intros d c1 ow1 L1 Hd Kd. assert (K1 : knows c1 ow1) by (by eapply later_knows). apply (within_later _ _ _ _ _ L1) in W.
    eapply exec_read; [apply ValueKnown_eq; by eapply dim_doc_in|]. cbn [known_doc]. rewrite negb_involutive.
    destruct (Z.eqb_spec (known_value c1 d) kUnknownDim) as [U|U].
    { apply (exec_unknown l); [done|destruct ow1; [|done]; apply W|]. intros. apply HQ; [by eapply later_trans|done]. }
    read_value. apply exec_check.
    { apply Z.leb_le. rewrite Kd. destruct V as [-> |[_ V]]; [done|]. destruct (Z.eqb_spec (rank_at c s) kUnknownRank); [done|]. unfold norm. cbn [Z.ltb Z.compare].
      destruct (dims_at c s !!z 0) as [e|] eqn:E; [by apply V|done]. }
    pose proof (known_doc_ok c1 ow1 (of_dim d) K1 (dim_doc_in _ _ _ _ Hd)) as Vd. cbn in Vd.
    assert (El : within ow1 (fun _ => zlength l = known_value c1 d)). { destruct ow1 as [w|]; [|done]. by destruct (dim_known c1 w d _ K1 Hd) as [_ [?|?]]. }
    assert (B : known_value c1 d <= kint32max).
    { rewrite Kd. destruct V as [-> |[_ V]]; [done|]. destruct (Z.eqb_spec (rank_at c s) kUnknownRank); [done|]. unfold norm. cbn [Z.ltb Z.compare].
      destruct (dims_at c s !!z 0) as [e|] eqn:E; [by apply V|done]. }
    apply exec_let. apply (total_unknown_dims _ l); [done| |].
    { destruct ow1; [|done]. cbn in *. destruct W as [_ [W _]]. split; [done|]. unfold zlength in *. lia. }
    intros ds c2 ow2 L2 D Hl _. apply (exec_created ds l); [by eapply later_knows|done|unfold zlength in *; sizes|]. intros h c3 ow3 L3 Hh _ _.
    apply HQ; [by eapply later_trans; [|eapply later_trans]|done].
Qed.
Lemma exec_MakeShapeFromShapeTensor i l c ow Q :
  knows c ow -> 0 <= i < zlength (inputs_ c) -> (forall h, inputs_ c !!z i = Some h -> input_tensors_ c !!z i = Some None -> vector_fits c h) ->
  within ow (fun w => vector_gives (value_of w i) l /\ target_of w i = l /\ sizes_fit l) ->
  (forall h c' ow', later c ow c' ow' -> is_shape c' ow' h l -> Q h c' ow') -> exec (MakeShapeFromShapeTensor i) c ow Q.
Proof.
  intros K Hi V W HQ. unfold MakeShapeFromShapeTensor. destruct (zlookup_is_Some _ _ Hi) as (s & Hs). eapply exec_read; [by apply input_eq|].
  pose proof (is_input c ow i s K Hs) as H. set (k := match ow with Some w => _ | None => _ end) in H.
  assert (Wk : within ow (fun w => k = [zlength l])).
  { unfold k. destruct ow as [w|]; [|done]. cbn in W |- *. destruct W as [(_ & -> & F) _]. apply Forall2_length in F. unfold zlength. by rewrite F. }
  apply exec_try. apply (exec_WithRank s 1 k); [done|done|unfold kint32max; lia|destruct ow; [|done]; cbn in *; by rewrite Wk|].
  intros h c1 ow1 L1 Hh R1 Hsame Hnew. assert (K1 : knows c1 ow1) by (by eapply later_knows). assert (P : keeps c c1) by apply L1.
  assert (W1 : within ow1 (fun w => vector_gives (value_of w i) l /\ target_of w i = l /\ sizes_fit l)).
  { destruct L1 as (_ & _ & A). destruct ow as [w|], ow1 as [w1|]; try done. cbn in *. destruct A as (_ & _ & -> & ->). done. }
  apply (within_later c ow c1 ow1 (k = [zlength l]) L1) in Wk. eapply exec_read; [done|].
  rewrite (keeps_as_shapes _ _ P). set (as_shape := match input_tensors_as_shapes_ c !!z i with Some s => s | None => None end).
  assert (Ha : shape_or_null (shape_manager_ c1) as_shape).
  { unfold as_shape. destruct (input_tensors_as_shapes_ c !!z i) as [a|] eqn:E; [|by left]. pose proof (as_shapes_ok c1 (proj1 K1)) as F.
    rewrite (keeps_as_shapes _ _ P), Forall_forall in F. apply F. by eapply zlookup_elem. }
  eapply (exec_read _ _ (match as_shape with None => false | Some _ => negb (rank_at c1 as_shape =? kUnknownRank) end)).
  { destruct Ha as [->|Ha]; [done|]. rewrite (RankKnown_eq _ _ Ha). by destruct Ha as (p & -> & _). }
  destruct (match as_shape with None => false | Some _ => _ end) eqn:E.
  { destruct Ha as [Ha|Ha]; [by rewrite Ha in E|]. apply exec_ok; [done|]. apply HQ; [done|]. split; [done|]. destruct ow1 as [w|]; [|done]. cbn in W1 |- *.
    destruct W1 as (W1 & Wt & _). rewrite <- Wt. destruct (shape_in_at _ _ Ha) as (y & Hy). eapply (as_shapes_described w c1 (proj2 K1)); [|exact Hy| |by rewrite Wt].
    - rewrite (keeps_as_shapes _ _ P). unfold as_shape in *. destruct (input_tensors_as_shapes_ c !!z i); done.
    - destruct as_shape; [|done]. unfold rank_at in E. rewrite Hy in E. by apply negb_true_iff, Z.eqb_neq in E. }
  assert (Hi1 : 0 <= i < zlength (inputs_ c1)) by (by rewrite (keeps_inputs _ _ P)).
  pose proof (partial_length c1 (proj1 K1)) as El. apply exec_let. set (c1' := with_requested_partial (zinsert (requested_input_tensor_as_partial_shape_ c1) i true) c1).
  assert (L2 : later c1 ow1 c1' ow1).
  { apply later_same; try done. destruct K1 as [[] _]. constructor; try done. cbn. unfold zinsert. destruct (_ <? 0); [done|]. by rewrite length_insert. }
  unfold exec_total, wp. rewrite write_eq by (unfold zlength in *; by rewrite El). exists ow1. split; [done|].
  apply exec_let. apply (total_input_tensor i); [by eapply later_knows|done|]. intros t c2 ow2 L3 Ht Em Wt.
  assert (L : later c ow c2 ow2) by (eapply later_trans; [exact L1|by eapply later_trans]).
  assert (L23 : later c1 ow1 c2 ow2) by (by eapply later_trans).
  assert (W2 : within ow2 (fun w => vector_gives (value_of w i) l /\ sizes_fit l)).
  { destruct L23 as (_ & _ & A). destruct ow1, ow2; try done. cbn in *. destruct A as (_ & _ & -> & _). by destruct W1 as (? & _ & ?). }
  cbn in Ht. rewrite (keeps_tensors _ _ P) in Ht.
  apply (exec_MakeShapeFromTensor t h k l); [by eapply later_knows|by eapply is_shape_later| |].
  2: { intros. apply HQ; [by eapply later_trans|done]. }
  destruct t as [t|].
  - split; [|destruct ow2; [|done]; cbn in *; rewrite <- Wt; apply W2]. pose proof (tensors_ok c (proj1 K)) as F. rewrite Forall_forall in F. apply (F (Some t)). by eapply zlookup_elem.
  - split; [|pose proof (within_later _ _ _ _ _ L23 Wk); destruct ow2; [|done]; cbn in *; by destruct W2].
    assert (R2 : rank_at c2 h = 1) by (rewrite (rank_at_later c1 ow1 c2 ow2); [done|done|apply Hh]). right. rewrite R2. split; [lia|]. intros d Hd.
    rewrite (dims_at_later c1 ow1 c2 ow2) in Hd by (done || apply Hh).
    destruct (Z.eq_dec (rank_at c s) kUnknownRank) as [U|U].
    + destruct (known_dims c1 ow1 h k K1 Hh ltac:(by rewrite R1)) as (D & _ & _).
      rewrite (known_value_later c1 ow1 c2 ow2); [|done|by destruct (are_dims_lookup c1 ow1 _ _ _ _ D Hd) as [[? _] _]].
      specialize (Hnew U). rewrite Forall_forall in Hnew. by rewrite (Hnew d) by (by eapply zlookup_elem).
    + destruct (Hsame U) as [-> ->]. destruct (V s Hs Ht) as [?|[_ V']]; [done|]. rewrite (known_value_later c ow1 c2 ow2); [by apply V'|done|].
      destruct (known_dims c ow1 s k K1 Hh U) as (D & _ & _). by destruct (are_dims_lookup c ow1 _ _ _ _ D Hd) as [[? _] _].
Qed.
Lemma total_proto_dims dims len i l c ow (Q : list DimensionHandle -> InferenceContext -> option world -> Prop) :
  Forall (fun v => v <= kint64max) dims -> forallb (fun d => -1 <=? d) dims = true -> knows c ow -> 0 <= i -> i + Z.of_nat len = zlength dims ->
  within ow (fun _ => Forall is_size l /\ Forall2 (fun v x => v = kUnknownDim \/ x = v) (drop (Z.to_nat i) dims) l) ->
  (forall ds c' ow', later c ow c' ow' -> are_dims c' ow' ds l -> length ds = len -> map (known_value c') ds = drop (Z.to_nat i) dims -> Q ds c' ow') ->
  exec_total (tabulate len i (fun i => let! d := st_opt (PartialTensorShape.dim_size (PartialTensorShape.mkPartial false dims) i) in MakeDim (of_val d))) c ow Q.
Proof.
  intros Hv Ha. revert i c ow l Q. induction len as [|len IH]; intros i c ow l Q K Hi Hn W HQ; cbn [tabulate].
  - apply total_ret; [done|]. rewrite drop_ge in * by (unfold zlength in *; lia). apply HQ; [by apply later_refl| |done|done].
    split; [done|]. destruct ow; [|done]. cbn in *. destruct W as [_ W]. by inversion W.
  - destruct (zlookup_is_Some dims i) as (v & Hvi); [lia|].
    assert (Ed : drop (Z.to_nat i) dims = v :: drop (Z.to_nat (i + 1)) dims).
    { unfold zlookup in Hvi. destruct (Z.ltb_spec i 0); [lia|]. rewrite (drop_S _ _ _ Hvi). do 2 f_equal. lia. }
    rewrite Ed in W, HQ. apply zlookup_elem in Hvi as Hin. pose proof Hv as Hv'. pose proof Ha as Ha'. rewrite Forall_forall in Hv'. rewrite forallb_forall in Ha'.
    apply total_let. eapply total_read.
    { unfold PartialTensorShape.dim_size. destruct (Z.leb_spec 0 i); [|lia]. cbn [PartialTensorShape.is_unknown_ PartialTensorShape.dim_sizes_]. by rewrite Hvi. }
    assert (W' : within ow (fun _ => exists x l', l = x :: l' /\ is_size x /\ (v = kUnknownDim \/ x = v) /\ Forall is_size l' /\
      Forall2 (fun v x => v = kUnknownDim \/ x = v) (drop (Z.to_nat (i + 1)) dims) l')).
    { destruct ow; [|done]. destruct W as [F W]. inversion W as [|? x ? l' Hx Hl']; subst. inversion F; subst. by exists x, l'. }
    apply (total_MakeDim_val v (hd 0 l)); [done| | |].
    { split; [apply Z.leb_le, Ha'; by apply list_elem_of_In|by apply Hv']. }
    { destruct ow; [|done]. by destruct W' as (x & l' & -> & ? & ? & _). }
    intros d c1 ow1 L1 Hd Kd. apply total_let. apply (IH (i + 1) c1 ow1 (tl l)); [by eapply later_knows|lia|lia| |].
    { apply (within_later _ _ _ _ _ L1). destruct ow; [|done]. by destruct W' as (x & l' & -> & _ & _ & ? & ?). }
    intros ds c2 ow2 L2 D El Ek. apply total_ret; [by eapply later_knows|]. apply HQ; [by eapply later_trans| |cbn; lia|].
    + eapply are_dims_eq; [apply are_dims_cons; [by eapply is_dim_later|done]|]. apply (within_later _ _ _ _ _ L2), (within_later _ _ _ _ _ L1).
      destruct ow; [|done]. by destruct W' as (x & l' & -> & _).
    + cbn. by rewrite Ek, (known_value_later c1 ow1 c2 ow2), Kd by (done || apply Hd).
Qed.
Lemma exec_MakeShapeFromShapeProto p l c ow Q :
  knows c ow -> zlength (proto_dim p) <= kint32max -> Forall (fun v => v <= kint64max) (proto_dim p) ->
  within ow (fun _ => sizes_fit l /\ (if unknown_rank p then proto_dim p = [] else Forall2 (fun v x => v = kUnknownDim \/ x = v) (proto_dim p) l)) ->
  (forall h c' ow', later c ow c' ow' -> is_shape c' ow' h l ->
     known_shape c' h = (if unknown_rank p then PartialTensorShape.new_PartialTensorShape else PartialTensorShape.mkPartial false (proto_dim p)) -> Q h c' ow') ->
  exec (MakeShapeFromShapeProto p) c ow Q.
Proof.
  intros K Hl Hv W HQ. unfold MakeShapeFromShapeProto, PartialTensorShape.IsValidShape.
  destruct (unknown_rank p && (0 <? zlength (proto_dim p))) eqn:E0.
  { cbn [negb ok InvalidArgument Error state_]. apply exec_fail; [apply K| |done]. destruct ow; [|done]. cbn in W. apply andb_true_iff in E0 as [E1 E2]. rewrite E1 in W. destruct W as [_ W]. by rewrite W in E2. }
  destruct (existsb (fun d => d <? -1) (proto_dim p)) eqn:E.
  { cbn [negb ok InvalidArgument Error state_]. apply exec_fail; [apply K| |done]. destruct ow as [w|]; [|done]. cbn in W. apply existsb_exists in E as (v & Hin & Hneg). exfalso.
    destruct W as [[F _] W]. destruct (unknown_rank p); [by rewrite W in Hin|]. apply list_elem_of_In in Hin.
    apply list_elem_of_lookup in Hin as (i & Hi). destruct (Forall2_lookup_l _ _ _ _ _ W Hi) as (x & Hx & Hvx). rewrite Forall_forall in F.
    specialize (F x ltac:(by eapply list_elem_of_lookup_2)). unfold is_size, kUnknownDim in *. lia. }
  cbn [ok OK state_ negb]. unfold PartialTensorShape.of_proto, PartialTensorShape.of_sizes.
  assert (Ha : forallb (fun d => -1 <=? d) (proto_dim p) = true).
  { apply forallb_forall. intros v Hin. destruct (Z.leb_spec (-1) v) as [|N]; [done|]. assert (existsb (fun d => d <? -1) (proto_dim p) = true); [|congruence].
    apply existsb_exists. exists v. split; [done|lia]. }
  destruct (unknown_rank p) eqn:Eu.
  { eapply exec_read; [done|]. cbn. apply (exec_unknown l); [done|destruct ow; [|done]; apply W|]. intros h c' ow' L Hh R. apply HQ; [done..|].
    unfold known_shape. rewrite R. done. }
  rewrite Ha. eapply exec_read; [done|]. unfold PartialTensorShape.dims. cbn [PartialTensorShape.is_unknown_ PartialTensorShape.dim_sizes_].
  destruct (Z.eqb_spec (zlength (proto_dim p)) (-1)); [unfold zlength in *; lia|].
  apply exec_let. apply (total_proto_dims _ _ 0 l); [done|done|done|done|unfold zlength; lia|rewrite drop_0; destruct ow; [|done]; cbn in W; split; apply W|].
  intros ds c1 ow1 L D El Ek. apply (exec_created ds l); [by eapply later_knows|done|unfold zlength in *; lia|]. intros h c2 ow2 L2 Hh R Ed.
  apply HQ; [by eapply later_trans|done|]. unfold known_shape. rewrite R, Ed.
  destruct (Z.eqb_spec (zlength ds) kUnknownRank); [unfold zlength, kUnknownRank in *; lia|]. f_equal. rewrite drop_0 in Ek. rewrite <- Ek. by eapply known_values_later; [|apply D].
Qed.
Lemma exec_MakeDimForScalarInput i x c ow (Q : DimensionHandle -> InferenceContext -> option world -> Prop) :
  knows c ow -> 0 <= i < zlength (inputs_ c) ->
  within ow (fun w => shape (value_of w i) = [] /\ (dtype (value_of w i) = DT_INT32 \/ dtype (value_of w i) = DT_INT64) /\ elements (value_of w i) = [x] /\ is_size x) ->
  (forall h c' ow', later c ow c' ow' -> is_dim c' ow' h x -> Q h c' ow') -> exec (MakeDimForScalarInput i) c ow Q.
Proof.
  intros K Hi W HQ. unfold MakeDimForScalarInput. apply exec_let. apply total_input_tensor; [done..|]. intros t c1 ow1 L1 Ht Em Wt.
  assert (K1 : knows c1 ow1) by (by eapply later_knows).
  assert (W1 : within ow1 (fun w => shape (value_of w i) = [] /\ (dtype (value_of w i) = DT_INT32 \/ dtype (value_of w i) = DT_INT64) /\ elements (value_of w i) = [x] /\ is_size x)).
  { destruct L1 as (_ & _ & A). destruct ow, ow1; try done. cbn in *. by destruct A as (_ & _ & -> & _). }
  destruct t as [t|].
  2: { apply exec_let. apply (total_UnknownDim x); [done|destruct ow1; [|done]; apply W1|]. intros h c2 ow2 L2 Hh _. apply exec_ok; [by eapply later_knows|].
       apply HQ; [by eapply later_trans|done]. }
  assert (T : tensor_ok t). { pose proof (tensors_ok c (proj1 K)) as F. rewrite Forall_forall in F. apply (F (Some t)). by eapply zlookup_elem. }
  assert (W2 : within ow1 (fun _ => shape t = [] /\ (dtype t = DT_INT32 \/ dtype t = DT_INT64) /\ elements t = [x] /\ is_size x)).
  { destruct ow1; [|done]. cbn in *. by rewrite <- Wt. }
  destruct (Z.eqb_spec (zlength (shape t)) 0) as [E|N]; cbn [negb].
  2: { apply exec_fail; [apply K1| |done]. destruct ow1; [|done]. destruct W2 as [W2 _]. by rewrite W2 in N. }
  destruct T as (V & Te & _ & _). destruct (shape t); [|unfold zlength in E; cbn in E; lia]. cbn in Te.
  destruct (elements t) as [|y [|]] eqn:Ee; [unfold zlength in Te; cbn in Te; lia| |unfold zlength in Te; cbn in Te; lia].
  apply Forall_cons in V as [V _]. assert (Wy : within ow1 (fun _ => y = x /\ is_size x)) by (destruct ow1; [|done]; destruct W2 as (_ & _ & [= ->] & ?); done).
  assert (Rest : exec (if y <? 0 then fail (InvalidArgument (bytes_of "Dimension size, given by scalar input " ++ number i ++ bytes_of ", must be non-negative but is " ++ number y))
    else let! d := MakeDim (of_val y) in ok_with d) c1 ow1 Q).
  { destruct (Z.ltb_spec y 0) as [Ny|Ny].
    - apply exec_fail; [apply K1| |done]. destruct ow1; [|done]. destruct Wy as [-> ?]. unfold is_size in *. lia.
    - apply exec_let. apply (total_MakeDim_val y x); [done|unfold value_ok; lia|destruct ow1; [|done]; destruct Wy as [-> ?]; split; [done|by right]|].
      intros h c2 ow2 L2 Hh _. apply exec_ok; [by eapply later_knows|]. apply HQ; [by eapply later_trans|done]. }
  assert (Scalar : forall T, dtype t = T -> exec (try_bind (let! x := scalar t T in ok_with x) (fun val => if val <? 0 then
      fail (InvalidArgument (bytes_of "Dimension size, given by scalar input " ++ number i ++ bytes_of ", must be non-negative but is " ++ number val))
    else let! d := MakeDim (of_val val) in ok_with d)) c1 ow1 Q).
  { intros T ET. unfold exec, wp, try_bind. rewrite (st_bind_eq _ _ _ (inr y) c1); [exact Rest|]. unfold scalar. by rewrite ET, Z.eqb_refl, Ee. }
  destruct (Z.eqb_spec (dtype t) DT_INT32) as [E32|N32]; [by apply Scalar|].
  destruct (Z.eqb_spec (dtype t) DT_INT64) as [E64|N64]; [by apply Scalar|].
  apply exec_try, exec_fail; [apply K1| |done]. destruct ow1; [|done]. by destruct W2 as (_ & [?|?] & _).
Qed.
End TensorCalls.
End ShapeInferenceFacts.
