(* ===== verification/ShapeFns.v ===== *)
(** * Shape functions

    [core/framework/common_shape_fns.cc]: the sizes of windowed operations, and
    the functions that compute the shapes of the outputs of common ops. *)
From S2P Require Import Prelude Status Numbers DataTypes TensorShape PartialTensorShape EdgeSet Graph ShapeInference.
From stdpp Require Import gmap.
Open Scope Z_scope.

Module ShapeFns.
Import Status Numbers Attrs ShapeInference.

(** ** Windows *)

(** [*output_size], [*padding_before] and [*padding_after]. *)
Definition GetWindowedOutputSizeVerbose (input_size filter_size stride : Z) (padding_type : Padding) : Status + (Z * Z * Z) :=
  if stride <=? 0 then inl (InvalidArgument (bytes_of "Stride must be > 0, but got " ++ number stride))
  else
    let '(output_size, before, after) :=
      match padding_type with
      | VALID => (Z.quot (s64 (input_size - filter_size + stride)) stride, 0, 0)
      | SAME =>
          let output_size := Z.quot (s64 (input_size + stride - 1)) stride in
          let padding_needed := Z.max 0 (s64 ((output_size - 1) * stride + filter_size - input_size)) in
          (output_size, Z.quot padding_needed 2, padding_needed - Z.quot padding_needed 2)
      end in
    if output_size <? 0 then inl (InvalidArgument (bytes_of "computed output size would be negative"))
    else inr (output_size, before, after).
Definition GetWindowedOutputSize (input_size filter_size stride : Z) (padding_type : Padding) : Status + (Z * Z) :=
  match GetWindowedOutputSizeVerbose input_size filter_size stride padding_type with
  | inl s => inl s
  | inr (output_size, before, _) => inr (output_size, before)
  end.
(** Over arrays of three. *)
Fixpoint output_sizes (input window strides : list Z) (padding_type : Padding) : Status + list (Z * Z) :=
  match input, window, strides with
  | i :: input', w :: window', s :: strides' =>
      match GetWindowedOutputSize i w s padding_type with
      | inl st => inl st
      | inr x => match output_sizes input' window' strides' padding_type with inl st => inl st | inr l => inr (x :: l) end
      end
  | _, _, _ => inr []
  end.
Definition Get3dOutputSize (input window strides : Z * Z * Z) (padding_type : Padding) : Status + list (Z * Z) :=
  let arr '(a, b, c) := [a; b; c] in output_sizes (arr input) (arr window) (arr strides) padding_type.

Section Functions.
Context {text : DefText}.

(** The argument [filter_size] is checked when the caller builds it. *)
Definition GetWindowedOutputSizeFromDims (input_size : DimensionHandle) (filter_size : DimensionOrConstant) (stride : Z) (padding_type : Padding) : SI (Status + DimensionHandle) :=
  st_check (doc_ok filter_size) ;;;
  if stride <=? 0 then fail (InvalidArgument (bytes_of "Stride must be > 0, but got " ++ number stride))
  else
    match padding_type with
    | VALID =>
        let? output_size := Subtract input_size filter_size in
        let? output_size := Add output_size (of_val stride) in
        Divide output_size (of_val stride) false
    | SAME =>
        let? output_size := Add input_size (of_val (stride - 1)) in
        Divide output_size (of_val stride) false
    end.

(** ** Functions of the shapes *)

Definition done_ok (m : SI unit) : SI (Status + unit) := m ;;; ok_with tt.
Definition UnchangedShape : SI (Status + unit) := let! s := input 0 in done_ok (set_output 0 s).
Definition UnchangedShapeWithRank (rank : Z) : SI (Status + unit) := let! s := input 0 in let? out := WithRank s rank in done_ok (set_output 0 out).
Definition UnchangedShapeWithRankAtLeast (rank : Z) : SI (Status + unit) := let! s := input 0 in let? out := WithRankAtLeast s rank in done_ok (set_output 0 out).
Definition UnchangedShapeWithRankAtMost (rank : Z) : SI (Status + unit) := let! s := input 0 in let? out := WithRankAtMost s rank in done_ok (set_output 0 out).
Definition NoOutputs : SI (Status + unit) := ok_with tt.
Definition ScalarShape : SI (Status + unit) := let! s := Scalar in done_ok (set_output 0 s).
Definition MergeBothInputsShapeFn : SI (Status + unit) :=
  let! s0 := input 0 in let! s1 := input 1 in let? out := Merge s0 s1 in done_ok (set_output 0 out).
Definition MatMulShape : SI (Status + unit) :=
  let! in0 := input 0 in
  let? a := WithRank in0 2 in
  let! in1 := input 1 in
  let? b := WithRank in1 2 in
  let? transpose_a := GetAttr GetNodeAttr_bool (bytes_of "transpose_a") in
  let? transpose_b := GetAttr GetNodeAttr_bool (bytes_of "transpose_b") in
  let! output_rows := if transpose_a then Dim a 1 else Dim a 0 in
  let! output_cols := if transpose_b then Dim b 0 else Dim b 1 in
  let! inner_a := if transpose_a then Dim a 0 else Dim a 1 in
  let! inner_b := if transpose_b then Dim b 1 else Dim b 0 in
  let? merged := Merge_dim inner_a inner_b in
  let! out := Matrix (of_dim output_rows) (of_dim output_cols) in
  done_ok (set_output 0 out).

(** [data_format] is empty where there is no such attribute. *)
Definition nchw : SI bool :=
  let! r := GetAttr GetNodeAttr_string (bytes_of "data_format") in
  st_ret match r with inl _ => false | inr data_format => bool_decide (data_format = bytes_of "NCHW") end.
Definition BiasAddShape : SI (Status + unit) :=
  let! is_nchw := nchw in
  let! in0 := input 0 in
  let? input_shape := if is_nchw : bool then WithRankAtLeast in0 3 else WithRankAtLeast in0 2 in
  let! in1 := input 1 in
  let? bias_shape := WithRank in1 1 in
  let! bias_dim := Dim bias_shape 0 in
  let! known := RankKnown input_shape in
  if negb known then let! u := UnknownShape in done_ok (set_output 0 u)
  else
    let? output_shape :=
      if is_nchw : bool then
        let? first := Subshape input_shape 0 (-3) in
        let? last := Subshape_from input_shape (-2) in
        let! input_bias_dim := Dim input_shape (-3) in
        let? merged_bias_dim := Merge_dim input_bias_dim bias_dim in
        let! merged_bias := Vector (of_dim merged_bias_dim) in
        let? temp := Concatenate first merged_bias in
        Concatenate temp last
      else
        let? all_but_bias := Subshape input_shape 0 (-1) in
        let! input_bias_dim := Dim input_shape (-1) in
        let? merged_bias_dim := Merge_dim input_bias_dim bias_dim in
        let! merged_bias := Vector (of_dim merged_bias_dim) in
        Concatenate all_but_bias merged_bias in
    done_ok (set_output 0 output_shape).
Definition BiasAddGradShape : SI (Status + unit) :=
  let! is_nchw := nchw in
  let! in0 := input 0 in
  if is_nchw : bool then
    let? input_shape := WithRankAtLeast in0 3 in
    let! d := Dim input_shape (-3) in
    let! out := Vector (of_dim d) in
    done_ok (set_output 0 out)
  else
    let? input_shape := WithRankAtLeast in0 2 in
    let! d := Dim input_shape (-1) in
    let! out := Vector (of_dim d) in
    done_ok (set_output 0 out).

(** The dimensions of [s], in the order of [idx]. *)
Fixpoint permuted (s : ShapeHandle) (idx : list Z) : SI (list DimensionHandle) :=
  match idx with [] => st_ret [] | i :: idx' => let! d := Dim s i in let! ds := permuted s idx' in st_ret (d :: ds) end.
Definition to_nhwc (s : ShapeHandle) : SI ShapeHandle := let! ds := permuted s [0; 2; 3; 1] in MakeShape_list (map of_dim ds).
Definition must_contain (what attr : list Z) (n got : Z) : Status :=
  InvalidArgument (what ++ bytes_of " the " ++ attr ++ bytes_of " attribute to contain " ++ number n ++ bytes_of " values, but got: " ++ number got).
Definition at_ (l : list Z) (i : Z) : SI Z := st_opt (l !!z i).

Definition Conv2DShape : SI (Status + unit) :=
  let! in0 := input 0 in
  let? input_shape := WithRank in0 4 in
  let! in1 := input 1 in
  let? filter_shape := WithRank in1 4 in
  let! is_nchw := nchw in
  let? strides := GetAttr GetNodeAttr_int32s (bytes_of "strides") in
  if negb (zlength strides =? 4) then fail (must_contain (bytes_of "Conv2D requires") (bytes_of "stride") 4 (zlength strides))
  else
    let! input_shape := if is_nchw : bool then to_nhwc input_shape else st_ret input_shape in
    let! stride_rows := at_ strides (if is_nchw : bool then 2 else 1) in
    let! stride_cols := at_ strides (if is_nchw : bool then 3 else 2) in
    let! batch_size_dim := Dim input_shape 0 in
    let! in_rows_dim := Dim input_shape 1 in
    let! in_cols_dim := Dim input_shape 2 in
    let! filter_rows_dim := Dim filter_shape 0 in
    let! filter_cols_dim := Dim filter_shape 1 in
    let! output_depth_dim := Dim filter_shape 3 in
    let! in_depth := Dim input_shape 3 in
    let! filter_depth := Dim filter_shape 2 in
    let? unused := Merge_dim in_depth filter_depth in
    let? padding := GetAttr GetNodeAttr_Padding (bytes_of "padding") in
    let? output_rows := GetWindowedOutputSizeFromDims in_rows_dim (of_dim filter_rows_dim) stride_rows padding in
    let? output_cols := GetWindowedOutputSizeFromDims in_cols_dim (of_dim filter_cols_dim) stride_cols padding in
    let! output_shape :=
      if is_nchw : bool then MakeShape_list (map of_dim [batch_size_dim; output_depth_dim; output_rows; output_cols])
      else MakeShape_list (map of_dim [batch_size_dim; output_rows; output_cols; output_depth_dim]) in
    done_ok (set_output 0 output_shape).
Definition Conv3DShape : SI (Status + unit) :=
  let! in0 := input 0 in
  let? input_shape := WithRank in0 5 in
  let! in1 := input 1 in
  let? filter_shape := WithRank in1 5 in
  let? strides := GetAttr GetNodeAttr_int32s (bytes_of "strides") in
  if negb (zlength strides =? 5) then fail (must_contain (bytes_of "Conv3D requires") (bytes_of "stride") 5 (zlength strides))
  else
    let! stride_planes := at_ strides 1 in
    let! stride_rows := at_ strides 2 in
    let! stride_cols := at_ strides 3 in
    let! batch_size_dim := Dim input_shape 0 in
    let! in_planes_dim := Dim input_shape 1 in
    let! in_rows_dim := Dim input_shape 2 in
    let! in_cols_dim := Dim input_shape 3 in
    let! filter_planes_dim := Dim filter_shape 0 in
    let! filter_rows_dim := Dim filter_shape 1 in
    let! filter_cols_dim := Dim filter_shape 2 in
    let! output_depth_dim := Dim filter_shape 4 in
    let! in_depth := Dim input_shape 4 in
    let! filter_depth := Dim filter_shape 3 in
    let? unused := Merge_dim in_depth filter_depth in
    let? padding := GetAttr GetNodeAttr_Padding (bytes_of "padding") in
    let? output_planes := GetWindowedOutputSizeFromDims in_planes_dim (of_dim filter_planes_dim) stride_planes padding in
    let? output_rows := GetWindowedOutputSizeFromDims in_rows_dim (of_dim filter_rows_dim) stride_rows padding in
    let? output_cols := GetWindowedOutputSizeFromDims in_cols_dim (of_dim filter_cols_dim) stride_cols padding in
    let! output_shape := MakeShape_list (map of_dim [batch_size_dim; output_planes; output_rows; output_cols; output_depth_dim]) in
    done_ok (set_output 0 output_shape).
Definition DepthwiseConv2DNativeShape : SI (Status + unit) :=
  let! in0 := input 0 in
  let? input_shape := WithRank in0 4 in
  let! in1 := input 1 in
  let? filter_shape := WithRank in1 4 in
  let? strides := GetAttr GetNodeAttr_int32s (bytes_of "strides") in
  if negb (zlength strides =? 4) then fail (must_contain (bytes_of "DepthwiseConv2D requires") (bytes_of "stride") 4 (zlength strides))
  else
    let! batch_size_dim := Dim input_shape 0 in
    let! in_rows_dim := Dim input_shape 1 in
    let! in_cols_dim := Dim input_shape 2 in
    let! filter_rows_dim := Dim filter_shape 0 in
    let! filter_cols_dim := Dim filter_shape 1 in
    let! input_depth := Dim filter_shape 2 in
    let! depth_multiplier := Dim filter_shape 3 in
    let! in_depth := Dim input_shape 3 in
    let? input_depth := Merge_dim in_depth input_depth in
    let? output_depth := Multiply input_depth (of_dim depth_multiplier) in
    let? padding := GetAttr GetNodeAttr_Padding (bytes_of "padding") in
    let! stride_rows := at_ strides 1 in
    let! stride_cols := at_ strides 2 in
    let? output_rows := GetWindowedOutputSizeFromDims in_rows_dim (of_dim filter_rows_dim) stride_rows padding in
    let? output_cols := GetWindowedOutputSizeFromDims in_cols_dim (of_dim filter_cols_dim) stride_cols padding in
    let! output_shape := MakeShape_list (map of_dim [batch_size_dim; output_rows; output_cols; output_depth]) in
    done_ok (set_output 0 output_shape).

(** ** Pooling *)

Definition AvgPoolShape : SI (Status + unit) :=
  let! in0 := input 0 in
  let? input_shape := WithRank in0 4 in
  let! is_nchw := nchw in
  let? strides := GetAttr GetNodeAttr_int32s (bytes_of "strides") in
  if negb (zlength strides =? 4) then fail (must_contain (bytes_of "AvgPool requires") (bytes_of "stride") 4 (zlength strides))
  else
    let? kernel_sizes := GetAttr GetNodeAttr_int32s (bytes_of "ksize") in
    if negb (zlength kernel_sizes =? 4) then fail (must_contain (bytes_of "AvgPool requires") (bytes_of "ksize") 4 (zlength kernel_sizes))
    else
      let! input_shape := if is_nchw : bool then to_nhwc input_shape else st_ret input_shape in
      let! stride_rows := at_ strides (if is_nchw : bool then 2 else 1) in
      let! stride_cols := at_ strides (if is_nchw : bool then 3 else 2) in
      let! kernel_rows := at_ kernel_sizes (if is_nchw : bool then 2 else 1) in
      let! kernel_cols := at_ kernel_sizes (if is_nchw : bool then 3 else 2) in
      let! batch_size_dim := Dim input_shape 0 in
      let! in_rows_dim := Dim input_shape 1 in
      let! in_cols_dim := Dim input_shape 2 in
      let! output_depth_dim := Dim input_shape 3 in
      let? padding := GetAttr GetNodeAttr_Padding (bytes_of "padding") in
      let? output_rows := GetWindowedOutputSizeFromDims in_rows_dim (of_val kernel_rows) stride_rows padding in
      let? output_cols := GetWindowedOutputSizeFromDims in_cols_dim (of_val kernel_cols) stride_cols padding in
      let! output_shape :=
        if is_nchw : bool then MakeShape_list (map of_dim [batch_size_dim; output_depth_dim; output_rows; output_cols])
        else MakeShape_list (map of_dim [batch_size_dim; output_rows; output_cols; output_depth_dim]) in
      done_ok (set_output 0 output_shape).
Definition MaxPoolShape : SI (Status + unit) :=
  let! in0 := input 0 in
  let? input_shape := WithRank in0 4 in
  let! is_nchw := nchw in
  let? strides := GetAttr GetNodeAttr_int32s (bytes_of "strides") in
  if negb (zlength strides =? 4) then fail (must_contain (bytes_of "MaxPool requires") (bytes_of "stride") 4 (zlength strides))
  else
    let? kernel_sizes := GetAttr GetNodeAttr_int32s (bytes_of "ksize") in
    if negb (zlength kernel_sizes =? 4) then fail (must_contain (bytes_of "MaxPool requires") (bytes_of "ksize") 4 (zlength kernel_sizes))
    else
      let! input_shape := if is_nchw : bool then to_nhwc input_shape else st_ret input_shape in
      let! stride_rows := at_ strides (if is_nchw : bool then 2 else 1) in
      let! stride_cols := at_ strides (if is_nchw : bool then 3 else 2) in
      let! stride_depth := at_ strides (if is_nchw : bool then 1 else 3) in
      let! kernel_rows := at_ kernel_sizes (if is_nchw : bool then 2 else 1) in
      let! kernel_cols := at_ kernel_sizes (if is_nchw : bool then 3 else 2) in
      let! kernel_depth := at_ kernel_sizes (if is_nchw : bool then 1 else 3) in
      let! batch_size_dim := Dim input_shape 0 in
      let! in_rows_dim := Dim input_shape 1 in
      let! in_cols_dim := Dim input_shape 2 in
      let! in_depth_dim := Dim input_shape 3 in
      let? padding := GetAttr GetNodeAttr_Padding (bytes_of "padding") in
      let? output_rows := GetWindowedOutputSizeFromDims in_rows_dim (of_val kernel_rows) stride_rows padding in
      let? output_cols := GetWindowedOutputSizeFromDims in_cols_dim (of_val kernel_cols) stride_cols padding in
      let? output_depth := GetWindowedOutputSizeFromDims in_depth_dim (of_val kernel_depth) stride_depth padding in
      let! output_shape := MakeShape_list (map of_dim [batch_size_dim; output_rows; output_cols; output_depth]) in
      let! output_shape :=
        if is_nchw : bool then let! ds := permuted output_shape [0; 3; 1; 2] in MakeShape_list (map of_dim ds) else st_ret output_shape in
      done_ok (set_output 0 output_shape).
Definition Pool3DShape : SI (Status + unit) :=
  let! in0 := input 0 in
  let? input_shape := WithRank in0 5 in
  let? strides := GetAttr GetNodeAttr_int32s (bytes_of "strides") in
  if negb (zlength strides =? 5) then fail (must_contain (bytes_of "Pool3D ops require") (bytes_of "stride") 5 (zlength strides))
  else
    let? kernel_sizes := GetAttr GetNodeAttr_int32s (bytes_of "ksize") in
    if negb (zlength kernel_sizes =? 5) then fail (must_contain (bytes_of "Pool3D requires") (bytes_of "ksize") 5 (zlength kernel_sizes))
    else
      let! stride_planes := at_ strides 1 in
      let! stride_rows := at_ strides 2 in
      let! stride_cols := at_ strides 3 in
      let! kernel_planes := at_ kernel_sizes 1 in
      let! kernel_rows := at_ kernel_sizes 2 in
      let! kernel_cols := at_ kernel_sizes 3 in
      let! batch_size_dim := Dim input_shape 0 in
      let! in_planes_dim := Dim input_shape 1 in
      let! in_rows_dim := Dim input_shape 2 in
      let! in_cols_dim := Dim input_shape 3 in
      let! output_depth_dim := Dim input_shape 4 in
      let! known_planes := ValueKnown (of_dim in_planes_dim) in
      let! known_rows := ValueKnown (of_dim in_rows_dim) in
      let! known_cols := ValueKnown (of_dim in_cols_dim) in
      if negb known_planes || negb known_rows || negb known_cols then
        let! output_shape := MakeShape_list [of_dim batch_size_dim; of_val kUnknownDim; of_val kUnknownDim; of_val kUnknownDim; of_dim output_depth_dim] in
        done_ok (set_output 0 output_shape)
      else
        let? padding := GetAttr GetNodeAttr_Padding (bytes_of "padding") in
        let? output_planes := GetWindowedOutputSizeFromDims in_planes_dim (of_val kernel_planes) stride_planes padding in
        let? output_rows := GetWindowedOutputSizeFromDims in_rows_dim (of_val kernel_rows) stride_rows padding in
        let? output_cols := GetWindowedOutputSizeFromDims in_cols_dim (of_val kernel_cols) stride_cols padding in
        let! output_shape := MakeShape_list (map of_dim [batch_size_dim; output_planes; output_rows; output_cols; output_depth_dim]) in
        done_ok (set_output 0 output_shape).

(** ** Unknown shapes, reductions *)

Fixpoint unknown_outputs (n : nat) (i : Z) : SI unit :=
  match n with O => st_ret tt | S n' => let! u := UnknownShape in set_output i u ;;; unknown_outputs n' (i + 1) end.
(** [shape_inference::UnknownShape] *)
Definition UnknownShapeFn : SI (Status + unit) := let! n := num_outputs in done_ok (unknown_outputs (Z.to_nat n) 0).

Definition bad_index (reduction_index input_rank : Z) : Status :=
  InvalidArgument (bytes_of "Invalid reduction dimension " ++ number reduction_index ++ bytes_of " for input with " ++ number input_rank ++
    bytes_of " dimensions.").
Definition wrap_index (reduction_index input_rank : Z) : Z := if reduction_index <? 0 then reduction_index + input_rank else reduction_index.
(** The loop over the indices: [true_indices]. *)
Fixpoint reduction_set (indices : list Z) (input_rank : Z) (true_indices : gset Z) : Status + gset Z :=
  match indices with
  | [] => inr true_indices
  | reduction_index :: indices' =>
      if (reduction_index <? - input_rank) || (input_rank <=? reduction_index) then inl (bad_index reduction_index input_rank)
      else reduction_set indices' input_rank ({[wrap_index reduction_index input_rank]} ∪ true_indices)
  end.
(** The loop that builds the dimensions, from [i]. *)
Fixpoint reduced_dims (n : nat) (i : Z) (input : ShapeHandle) (true_indices : gset Z) (keep_dims : bool) : SI (list DimensionHandle) :=
  match n with
  | O => st_ret []
  | S n' =>
      if bool_decide (i ∈ true_indices) then
        if keep_dims then
          let! d := MakeDim (of_val 1) in
          let! ds := reduced_dims n' (i + 1) input true_indices keep_dims in st_ret (d :: ds)
        else reduced_dims n' (i + 1) input true_indices keep_dims
      else
        let! d := Dim input i in
        let! ds := reduced_dims n' (i + 1) input true_indices keep_dims in st_ret (d :: ds)
  end.
Definition ReductionShape : SI (Status + unit) :=
  let! input := input 0 in
  let! in1 := ShapeInference.input 1 in
  let? indices := WithRankAtMost in1 1 in
  let? keep_dims := GetAttr GetNodeAttr_bool (bytes_of "keep_dims") in
  let! reduction_indices_t := input_tensor 1 in
  let! known := RankKnown input in
  match reduction_indices_t with
  | Some t =>
      if negb known then UnknownShapeFn
      else
        let! input_rank := Rank input in
        let! reduction_indices := flat t DT_INT32 in
        let? true_indices := lift (reduction_set reduction_indices input_rank ∅) in
        let! dims := reduced_dims (Z.to_nat input_rank) 0 input true_indices keep_dims in
        let! out := MakeShape dims in
        done_ok (set_output 0 out)
  | None =>
      if keep_dims && known then
        let! rank := Rank input in
        let! out := UnknownShapeOfRank rank in
        done_ok (set_output 0 out)
      else UnknownShapeFn
  end.

(** The same for [ReduceJoin], where an index may not come twice. *)
Fixpoint join_set (indices : list Z) (input_rank : Z) (true_indices : gset Z) : Status + gset Z :=
  match indices with
  | [] => inr true_indices
  | reduction_index :: indices' =>
      if (reduction_index <? - input_rank) || (input_rank <=? reduction_index) then inl (bad_index reduction_index input_rank)
      else
        let wrapped_index := wrap_index reduction_index input_rank in
        if bool_decide (wrapped_index ∈ true_indices) then inl (InvalidArgument (bytes_of "Duplicate reduction index " ++ number wrapped_index))
        else join_set indices' input_rank ({[wrapped_index]} ∪ true_indices)
  end.
Fixpoint joined_dims (n : nat) (i : Z) (input : ShapeHandle) (true_indices : gset Z) (reduce_all keep_dims : bool) : SI (Status + list DimensionHandle) :=
  match n with
  | O => ok_with []
  | S n' =>
      if reduce_all || bool_decide (i ∈ true_indices) then
        let! zero := if bool_decide (i ∈ true_indices) then let! d := Dim input i in let! v := Value (of_dim d) in st_ret (v =? 0) else st_ret false in
        if zero : bool then fail (InvalidArgument (bytes_of "Cannot reduce dimension " ++ number i ++ bytes_of " with size 0"))
        else if keep_dims then
          let! d := MakeDim (of_val 1) in
          let? ds := joined_dims n' (i + 1) input true_indices reduce_all keep_dims in ok_with (d :: ds)
        else joined_dims n' (i + 1) input true_indices reduce_all keep_dims
      else
        let! d := Dim input i in
        let? ds := joined_dims n' (i + 1) input true_indices reduce_all keep_dims in ok_with (d :: ds)
  end.
Definition ReductionShapeForReduceJoin : SI (Status + unit) :=
  let! input := input 0 in
  let! in1 := ShapeInference.input 1 in
  let? indices := WithRankAtMost in1 1 in
  let? keep_dims := GetAttr GetNodeAttr_bool (bytes_of "keep_dims") in
  let! reduction_indices_t := input_tensor 1 in
  let! known := RankKnown input in
  match reduction_indices_t with
  | None => UnknownShapeFn
  | Some t =>
      if negb known then UnknownShapeFn
      else
        let! input_rank := Rank input in
        let! reduction_indices := flat t DT_INT32 in
        let? true_indices := lift (join_set reduction_indices input_rank ∅) in
        let reduce_all := bool_decide (elements t = []) in
        let? dims := joined_dims (Z.to_nat input_rank) 0 input true_indices reduce_all keep_dims in
        let! out := MakeShape dims in
        done_ok (set_output 0 out)
  end.

(** ** Concatenation *)

(** The loop that finds the rank, from input [i]. *)
Fixpoint concat_rank (n : nat) (i rank : Z) : SI (Status + Z) :=
  match n with
  | O => ok_with rank
  | S n' =>
      let! rank := if rank =? kUnknownRank then let! s := input i in Rank s else st_ret rank in
      if negb (rank =? kUnknownRank) then
        let! s := input i in let? unused := WithRank s rank in concat_rank n' (i + 1) rank
      else concat_rank n' (i + 1) rank
  end.
(** The loop over the inputs before the last, down from [i]: [output_before],
    [output_middle] and [output_after]. *)
Fixpoint concat_loop (n : nat) (i concat_dim min_rank : Z) (output_before : ShapeHandle) (output_middle : DimensionHandle) (output_after : ShapeHandle)
    : SI (Status + (ShapeHandle * DimensionHandle * ShapeHandle)) :=
  match n with
  | O => ok_with (output_before, output_middle, output_after)
  | S n' =>
      let! in_i := input i in
      let? input := WithRankAtLeast in_i min_rank in
      let? before := Subshape input 0 concat_dim in
      let! middle := Dim input concat_dim in
      let? after := Subshape_from input (s32 (concat_dim + 1)) in
      let? output_before := Merge before output_before in
      let? output_middle := Add output_middle (of_dim middle) in
      let? output_after := Merge after output_after in
      concat_loop n' (i - 1) concat_dim min_rank output_before output_middle output_after
  end.
Definition ConcatShapeHelper (start_value_index end_value_index dim_index : Z) : SI (Status + unit) :=
  let! dim_input := input dim_index in
  let? unused := WithRank dim_input 0 in
  let! concat_dim_t := input_tensor dim_index in
  match concat_dim_t with
  | None =>
      let? rank := concat_rank (Z.to_nat (end_value_index - start_value_index)) start_value_index kUnknownRank in
      if rank =? kUnknownRank then let! u := UnknownShape in done_ok (set_output 0 u)
      else if rank =? 0 then fail (InvalidArgument (bytes_of "Can't concatenate scalars (use tf.pack instead)"))
      else
        let! dims := tabulate (Z.to_nat rank) 0 (fun _ => UnknownDim) in
        let! out := MakeShape dims in
        done_ok (set_output 0 out)
  | Some t =>
      let! concat_dim := scalar t DT_INT32 in
      let min_rank := if concat_dim <? 0 then s32 (- concat_dim) else s32 (concat_dim + 1) in
      let! in_last := input (end_value_index - 1) in
      let? input := WithRankAtLeast in_last min_rank in
      let? output_before := Subshape input 0 concat_dim in
      let! output_middle := Dim input concat_dim in
      let? output_after := Subshape_from input (s32 (concat_dim + 1)) in
      let? '(output_before, output_middle, output_after) :=
        concat_loop (Z.to_nat (end_value_index - 1 - start_value_index)) (end_value_index - 2) concat_dim min_rank output_before output_middle output_after in
      let! vector := Vector (of_dim output_middle) in
      let? s := Concatenate output_before vector in
      let? s := Concatenate s output_after in
      done_ok (set_output 0 s)
  end.
Definition ConcatShape (num_inputs_to_concat : Z) : SI (Status + unit) := ConcatShapeHelper 1 (1 + num_inputs_to_concat) 0.
Definition ConcatV2Shape : SI (Status + unit) := let! n := num_inputs in ConcatShapeHelper 0 (n - 1) (n - 1).

(** ** Broadcasting *)

(** The dimension for the pair [dim_x], [dim_y]. *)
Definition broadcast_dim (dim_x dim_y : DimensionHandle) (dim_y_is_one : bool) : SI (Status + DimensionHandle) :=
  let! known_x := ValueKnown (of_dim dim_x) in
  let! known_y := ValueKnown (of_dim dim_y) in
  let! x := Value (of_dim dim_x) in
  let! y := Value (of_dim dim_y) in
  if negb known_x || negb known_y then
    if 1 <? x then ok_with dim_x
    else if 1 <? y then ok_with dim_y
    else if x =? 1 then ok_with dim_y
    else if y =? 1 then ok_with dim_x
    else let! u := UnknownDim in ok_with u
  else if (x =? 1) || (y =? 1) then
    if (x =? 1) && negb dim_y_is_one then ok_with dim_y
    else st_check (y =? 1) ;;; ok_with dim_x
  else Merge_dim dim_x dim_y.
Fixpoint broadcast_dims (n : nat) (i : Z) (shape_x shape_y : ShapeHandle) (rank_x rank_y rank_out : Z) (dim_one : DimensionHandle) : SI (Status + list DimensionHandle) :=
  match n with
  | O => ok_with []
  | S n' =>
      let! dim_x := if i <? rank_out - rank_x then st_ret dim_one else Dim shape_x (i - (rank_out - rank_x)) in
      let dim_y_is_one := i <? rank_out - rank_y in
      let! dim_y := if dim_y_is_one then st_ret dim_one else Dim shape_y (i - (rank_out - rank_y)) in
      let? d := broadcast_dim dim_x dim_y dim_y_is_one in
      let? ds := broadcast_dims n' (i + 1) shape_x shape_y rank_x rank_y rank_out dim_one in
      ok_with (d :: ds)
  end.
Definition BroadcastBinaryOpShapeFn : SI (Status + unit) :=
  let! shape_x := input 0 in
  let! shape_y := input 1 in
  let! known_x := RankKnown shape_x in
  let! known_y := RankKnown shape_y in
  if negb known_x || negb known_y then let! u := UnknownShape in done_ok (set_output 0 u)
  else
    let! rank_x := Rank shape_x in
    let! rank_y := Rank shape_y in
    let rank_out := Z.max rank_x rank_y in
    let! dim_one := if negb (rank_x =? rank_y) then MakeDim (of_val 1) else st_ret None in
    let? dims := broadcast_dims (Z.to_nat rank_out) 0 shape_x shape_y rank_x rank_y rank_out dim_one in
    let! out := MakeShape dims in
    done_ok (set_output 0 out).

(** ** Sparse tensors *)

Definition ValidateSparseTensor (indices_shape values_shape shape_shape : ShapeHandle) : SI (Status + unit) :=
  let? unused := WithRank indices_shape 2 in
  let? unused := WithRank values_shape 1 in
  let? unused := WithRank shape_shape 1 in
  let! num_index_elements_dim := Dim indices_shape 0 in
  let! num_index_elements := Value (of_dim num_index_elements_dim) in
  let? checked :=
    if negb (num_index_elements =? kUnknownDim) then
      let! num_values_elements_dim := Dim values_shape 0 in
      let! num_values_elements := Value (of_dim num_values_elements_dim) in
      if negb (num_values_elements =? kUnknownDim) && negb (num_index_elements =? num_values_elements) then
        fail (InvalidArgument (bytes_of "Number of elements in index (" ++ number num_index_elements ++ bytes_of ") and values (" ++
          number num_values_elements ++ bytes_of ") do not match."))
      else ok_with tt
    else ok_with tt in
  let! index_rank_dim := Dim indices_shape 1 in
  let! index_rank := Value (of_dim index_rank_dim) in
  if negb (index_rank =? kUnknownDim) then
    let! shape_rank_dim := Dim shape_shape 0 in
    let! shape_rank := Value (of_dim shape_rank_dim) in
    if negb (shape_rank =? kUnknownDim) && negb (index_rank =? s32 shape_rank) then
      fail (InvalidArgument (bytes_of "Index rank (" ++ number index_rank ++ bytes_of ") and shape rank (" ++ number (s32 shape_rank) ++
        bytes_of ") do not match."))
    else ok_with tt
  else ok_with tt.
End Functions.
End ShapeFns.
