(* ===== verification/ShapeFnsFacts.v ===== *)
(** * Shape functions: attributes, windows, outputs

    The parts that the shape functions share, and what the functions of
    [ShapeFns] for matrices, convolutions and pooling infer: sizes that the
    operation has in every world, and which of them is known. *)
From S2P Require Import Prelude Status Numbers DataTypes TensorShape PartialTensorShape EdgeSet Graph ShapeInference ShapeInferenceSpec ShapeInferenceFacts ShapeFns.
From stdpp Require Import gmap.
Open Scope Z_scope.

Module ShapeFnsFacts.
Import Status Numbers Attrs ShapeInference ShapeInferenceSpec ShapeInferenceFacts ShapeFns.

(** [AttachDef] keeps an error an error. *)
Class DefTextLaws (text : DefText) : Prop := AttachDef_fails : forall s d, ok s = false -> ok (AttachDef s d) = false.

(** What a handle stands for in the world, and what is known of it. *)
Definition dim_is (c : InferenceContext) (ow : option world) (h : DimensionHandle) (x k : Z) : Prop := is_dim c ow h x /\ known_value c h = k.
Definition doc_known_as (c : InferenceContext) (ow : option world) (d : DimensionOrConstant) (x k : Z) : Prop := is_doc c ow d x /\ known_doc c d = k.
Definition shape_is (c : InferenceContext) (ow : option world) (h : ShapeHandle) (l ks : list Z) : Prop :=
  is_shape c ow h l /\ known_shape c h = PartialTensorShape.mkPartial false ks.

Definition shape_as (c : InferenceContext) (ow : option world) (h : ShapeHandle) (l : list Z) (p : PartialTensorShape.PartialTensorShape) : Prop :=
  is_shape c ow h l /\ known_shape c h = p.

Section Known.
Implicit Types (c : InferenceContext) (ow : option world).

Lemma dim_is_later c ow c' ow' h x k : later c ow c' ow' -> dim_is c ow h x k -> dim_is c' ow' h x k.
Proof. intros L [H E]. split; [by eapply is_dim_later|]. rewrite (known_value_later c ow c' ow'); [done|done|apply H]. Qed.
Lemma known_shape_later c ow c' ow' h l : knows c ow -> later c ow c' ow' -> is_shape c ow h l -> known_shape c' h = known_shape c h.
Proof.
  intros K L H. unfold known_shape. rewrite (rank_at_later c ow c' ow'), (dims_at_later c ow c' ow') by (done || apply H).
  destruct (Z.eqb_spec (rank_at c h) kUnknownRank) as [U|U]; [done|]. f_equal.
  destruct (known_dims c ow h l K H U) as (D & _ & _). by eapply known_values_later; [|apply D].
Qed.
Lemma shape_is_later c ow c' ow' h l ks : knows c ow -> later c ow c' ow' -> shape_is c ow h l ks -> shape_is c' ow' h l ks.
Proof. intros K L [H E]. split; [by eapply is_shape_later|]. by rewrite (known_shape_later c ow c' ow' h l). Qed.
Lemma shape_as_later c ow c' ow' h l p : knows c ow -> later c ow c' ow' -> shape_as c ow h l p -> shape_as c' ow' h l p.
Proof. intros K L [H E]. split; [by eapply is_shape_later|]. by rewrite (known_shape_later c ow c' ow' h l). Qed.
Lemma doc_of_dim c ow h x k : dim_is c ow h x k -> doc_known_as c ow (of_dim h) x k.
Proof. intros [H E]. split; [by apply is_doc_dim|done]. Qed.
Lemma doc_of_val c ow v : 0 <= v <= kint64max -> doc_known_as c ow (of_val v) v v.
Proof. intros H. split; [by apply is_doc_val|done]. Qed.
Lemma dim_is_range c ow h x k : knows c ow -> dim_is c ow h x k -> value_ok k /\ within ow (fun _ => is_size x /\ (k = kUnknownDim \/ x = k)).
Proof.
  intros K [H <-]. split; [apply (known_doc_ok c ow (of_dim h) K); apply H|]. destruct ow as [w|]; [|done]. by apply (dim_known c w h x K H).
Qed.
Lemma shape_is_known c ow h l ks : knows c ow -> shape_is c ow h l ks ->
  rank_at c h = zlength ks /\ rank_at c h <> kUnknownRank /\ map (known_value c) (dims_at c h) = ks /\ are_dims c ow (dims_at c h) l /\ zlength ks <= kint32max /\
  within ow (fun _ => length l = length ks /\ Forall2 (fun v x => v = kUnknownDim \/ x = v) ks l /\ Forall is_size l).
Proof.
  intros K [H E]. unfold known_shape in E. destruct (Z.eqb_spec (rank_at c h) kUnknownRank) as [U|U]; [done|]. injection E as E.
  destruct (known_dims c ow h l K H U) as (D & Er & B). pose proof (are_dims_values c ow _ _ K D) as V. rewrite E in V.
  assert (El : length (dims_at c h) = length ks) by (by rewrite <- E, length_map). unfold zlength in *. split_and!; [lia|done|done|done|lia|].
  pose proof (are_dims_length c ow _ _ D) as Dl. destruct ow as [w|]; [|done]. cbn in *. split_and!; [lia|done|by eapply sizes_ok].
Qed.
Lemma dim_is_cast c ow h x y k : dim_is c ow h x k -> within ow (fun _ => x = y) -> dim_is c ow h y k.
Proof. intros [[H W] E] El. split; [|done]. split; [done|]. destruct ow; cbn in *; congruence. Qed.
Lemma shape_is_cast c ow h l l' ks : shape_is c ow h l ks -> within ow (fun _ => l = l') -> shape_is c ow h l' ks.
Proof. intros [[H W] E] El. split; [|done]. split; [done|]. destruct ow; cbn in *; congruence. Qed.

(** ** The rules *)

(** The handle that [WithRank] gives: what is known if the rank is [n]. *)
Definition ranked (n : Z) (p : PartialTensorShape.PartialTensorShape) : list Z :=
  if PartialTensorShape.is_unknown_ p then replicate (Z.to_nat n) kUnknownDim else PartialTensorShape.dim_sizes_ p.
(** The size at an index of a shape, which may count from the end. *)
Definition size_of (l : list Z) (i : Z) : Z := default 0 (l !!z norm (zlength l) i).
Definition known_of (ks : list Z) (i : Z) : Z := default kUnknownDim (ks !!z norm (zlength ks) i).

Lemma rule_WithRank s n l c ow (Q : ShapeHandle -> InferenceContext -> option world -> Prop) :
  knows c ow -> is_shape c ow s l -> 0 <= n <= kint32max -> within ow (fun _ => zlength l = n) ->
  (forall h c' ow', later c ow c' ow' -> zlength (ranked n (known_shape c s)) = n -> shape_is c' ow' h l (ranked n (known_shape c s)) -> Q h c' ow') ->
  exec (WithRank s n) c ow Q.
Proof.
  intros K H Hn W HQ. apply (exec_WithRank s n l); [done..|]. intros h c' ow' L Hh R Hsame Hnew.
  assert (U : rank_at c' h <> kUnknownRank) by (unfold kUnknownRank; lia).
  destruct (known_dims c' ow' h l (later_knows _ _ _ _ L) Hh U) as (_ & Er & _).
  assert (E : map (known_value c') (dims_at c' h) = ranked n (known_shape c s)).
  { unfold ranked, known_shape. destruct (Z.eqb_spec (rank_at c s) kUnknownRank) as [Us|Us]; cbn.
    - apply list_eq. intros i. specialize (Hnew Us). rewrite Forall_forall in Hnew.
      change (map (known_value c')) with (fmap (M := list) (known_value c')). rewrite list_lookup_fmap.
      destruct (dims_at c' h !! i) as [d|] eqn:Ed; cbn.
      + rewrite lookup_replicate_2; [f_equal; apply Hnew; by eapply list_elem_of_lookup_2|]. apply lookup_lt_Some in Ed. unfold zlength in *. lia.
      + symmetry. apply lookup_replicate_None. apply lookup_ge_None in Ed. unfold zlength in *. lia.
    - destruct (Hsame Us) as [-> ->]. done. }
  apply HQ; [done| |].
  - rewrite <- E, <- R, Er. unfold zlength. by rewrite length_map.
  - split; [done|]. unfold known_shape. destruct (Z.eqb_spec (rank_at c' h) kUnknownRank); [done|]. by rewrite E.
Qed.
Lemma known_of_lookup ks i : 0 <= norm (zlength ks) i < zlength ks -> ks !!z norm (zlength ks) i = Some (known_of ks i).
Proof. intros H. unfold known_of. destruct (zlookup_is_Some ks _ H) as [x Hx]. by rewrite Hx. Qed.
Lemma read_Dim s i l ks c ow : knows c ow -> shape_is c ow s l ks -> 0 <= norm (zlength ks) i < zlength ks ->
  exists d, Dim s i c = Done (d, c) /\ dim_is c ow d (size_of l i) (known_of ks i).
Proof.
  intros K H Hi. destruct (shape_is_known c ow s l ks K H) as (R & U & Ed & D & _ & Wl). pose proof (known_of_lookup ks i Hi) as Hk.
  assert (E : exists d, dims_at c s !!z norm (zlength (dims_at c s)) i = Some d /\ known_value c d = known_of ks i).
  { revert Hk. generalize (known_of ks i). intros k Hk. rewrite <- Ed in Hk.
    assert (Ez : zlength (map (known_value c) (dims_at c s)) = zlength (dims_at c s)) by (unfold zlength; by rewrite length_map).
    rewrite Ez in Hk. unfold zlookup in *. destruct (_ <? 0); [done|]. apply (list_lookup_fmap_Some (known_value c)) in Hk as (d & -> & Hd). by exists d. }
  destruct E as (d & Hd & Ek). exists d. split; [by apply Dim_known; [apply H|..]|]. split; [|done].
  destruct (are_dims_lookup c ow _ _ _ _ D Hd) as [Hi' _]. eapply is_dim_cast; [by apply later_refl| |done].
  pose proof (are_dims_length c ow _ _ D) as Dl. destruct ow; [|done]. cbn in *. unfold size_of. by replace (zlength (dims_at c s)) with (zlength l) by (unfold zlength; lia).
Qed.
Lemma rule_Merge_dim d e x y kd ke c ow (Q : DimensionHandle -> InferenceContext -> option world -> Prop) :
  knows c ow -> dim_is c ow d x kd -> dim_is c ow e y ke -> within ow (fun _ => x = y) ->
  (forall h k, dim_is c ow h x k -> merge_value kd ke = Some k -> Q h c ow) -> exec (Merge_dim d e) c ow Q.
Proof.
  intros K [D <-] [E <-] W HQ. apply (exec_Merge_dim d e x); [done|done|apply E| |].
  { destruct E as [_ E]. destruct ow; [|done]. cbn in *. congruence. }
  intros h _ Hh Hk Heq. apply (HQ h _ (conj Hh eq_refl)). rewrite Hk. unfold merge_value. destruct (Z.eqb_spec (known_value c d) kUnknownDim); [done|].
  destruct (Z.eqb_spec (known_value c e) kUnknownDim); [done|]. rewrite Heq by done. by rewrite Z.eqb_refl.
Qed.
Lemma rule_MakeShape_list ds l ks c ow (Q : ShapeHandle -> InferenceContext -> option world -> Prop) :
  knows c ow -> Forall2 (fun d '(x, k) => doc_known_as c ow d x k) ds (combine l ks) -> length l = length ds -> length ks = length ds -> zlength ds <= kint32max ->
  (forall h c' ow', later c ow c' ow' -> shape_is c' ow' h l ks -> Q h c' ow') -> exec_total (MakeShape_list ds) c ow Q.
Proof.
  intros K H El Ek Hl HQ. assert (F : Forall2 (is_doc c ow) ds l /\ map (known_doc c) ds = ks).
  { clear HQ Hl. revert l ks El Ek H. induction ds as [|d ds IH]; intros [|x l] [|k ks] El Ek H; try done. cbn in H. apply Forall2_cons_1 in H as [[Hd Hk] H].
    destruct (IH l ks ltac:(cbn in *; lia) ltac:(cbn in *; lia) H) as [F E]. split; [by constructor|]. cbn. by rewrite Hk, E. }
  destruct F as [F Ed]. apply (total_MakeShape_list ds l); [done..|]. intros h c' ow' L Hh R E. apply HQ; [done|]. split; [done|]. unfold known_shape.
  destruct (Z.eqb_spec (rank_at c' h) kUnknownRank) as [U|U]; [exfalso; rewrite R in U; unfold zlength, kUnknownRank in U; lia|]. by rewrite E, Ed.
Qed.
End Known.

(** ** Inputs, attributes and outputs *)

(** An input has the sizes [l]; what is known of it; an output as a result. *)
Definition input_is (c : InferenceContext) (ow : option world) (i : Z) (l : list Z) : Prop := exists h, inputs_ c !!z i = Some h /\ is_shape c ow h l.
Definition known_input (c : InferenceContext) (i : Z) : PartialTensorShape.PartialTensorShape :=
  match inputs_ c !!z i with Some h => known_shape c h | None => PartialTensorShape.new_PartialTensorShape end.
Definition output_is (i : Z) (l : list Z) (p : PartialTensorShape.PartialTensorShape -> Prop) (c : InferenceContext) (ow : option world) : Prop :=
  exists h, outputs_ c !!z i = Some h /\ is_shape c ow h l /\ p (known_shape c h).
(** An attribute that may not be there. *)
Definition attr_or {A} (d : A) (r : Status + A) : A := match r with inl _ => d | inr a => a end.
Definition attr_set {A} (r : Status + A) : Prop := match r with inl _ => False | inr _ => True end.

Section Parts.
Context {text : DefText} {laws : DefTextLaws text}.
Implicit Types (c : InferenceContext) (ow : option world).

Lemma input_is_later c ow c' ow' i l : later c ow c' ow' -> input_is c ow i l -> input_is c' ow' i l.
Proof. intros L (h & E & H). exists h. split; [|by eapply is_shape_later]. by rewrite (keeps_inputs c c') by apply L. Qed.
Lemma known_input_later c ow c' ow' i l : knows c ow -> later c ow c' ow' -> input_is c ow i l -> known_input c' i = known_input c i.
Proof.
  intros K L (h & E & H). unfold known_input. rewrite (keeps_inputs c c') by apply L. rewrite E. by rewrite (known_shape_later c ow c' ow' h l).
Qed.
Lemma known_input_at c i h : inputs_ c !!z i = Some h -> known_input c i = known_shape c h.
Proof. unfold known_input. by intros ->. Qed.
(** Every input of a context has the sizes of its value. *)
Lemma input_is_value c ow i : knows c ow -> 0 <= i < zlength (inputs_ c) -> input_is c ow i (match ow with Some w => shape (value_of w i) | None => [] end).
Proof. intros K Hi. destruct (zlookup_is_Some _ _ Hi) as [h Hh]. exists h. split; [done|]. by apply is_input. Qed.

Lemma exec_input {A} i l c ow (k : ShapeHandle -> SI (Status + A)) Q :
  input_is c ow i l -> (forall s, is_shape c ow s l -> known_shape c s = known_input c i -> exec (k s) c ow Q) -> exec (st_bind (input i) k) c ow Q.
Proof. intros (h & E & H) HQ. eapply exec_read; [by apply input_eq|]. apply HQ; [done|]. by rewrite (known_input_at c i h). Qed.
Lemma exec_ranked {A} i n l c ow (k : ShapeHandle -> SI (Status + A)) Q :
  knows c ow -> input_is c ow i l -> 0 <= n <= kint32max -> within ow (fun _ => zlength l = n) ->
  (forall h c' ow', later c ow c' ow' -> zlength (ranked n (known_input c i)) = n -> shape_is c' ow' h l (ranked n (known_input c i)) -> exec (k h) c' ow' Q) ->
  exec (let! s := input i in let? h := WithRank s n in k h) c ow Q.
Proof. intros K H Hn W HQ. apply (exec_input i l); [done|]. intros s Hs Ek. rewrite <- Ek in HQ. apply exec_try. by apply (rule_WithRank s n l). Qed.

Lemma exec_GetAttr {A B} (get : NodeDef -> list Z -> Status + A) (d : A) name c ow (k : A -> SI (Status + B)) Q :
  knows c ow -> (forall s, get (node_def_ c) name = inl s -> ok s = false) -> within ow (fun _ => attr_set (get (node_def_ c) name)) ->
  (get (node_def_ c) name = inr (attr_or d (get (node_def_ c) name)) -> exec (k (attr_or d (get (node_def_ c) name))) c ow Q) ->
  exec (let? a := GetAttr get name in k a) c ow Q.
Proof.
  intros K F W HQ. unfold GetAttr, try_bind. eapply (exec_read _ _ (get (node_def_ c) name)); [done|]. destruct (get (node_def_ c) name) as [s|a]; [|by apply HQ].
  apply exec_fail; [apply K| |by apply F]. by destruct ow.
Qed.
Lemma Find_fails d name s : Find d name = inl s -> ok s = false.
Proof. unfold Find. destruct (_ !! _); [done|]. destruct (bool_decide _); intros [= <-]; [done|]. by apply AttachDef_fails. Qed.
Lemma find_typed_fails d name type s : find_typed d name type = inl s -> ok s = false.
Proof. unfold find_typed. destruct (Find d name) eqn:E; [intros [= <-]; by eapply Find_fails|]. destruct (ok (AttrValueHasType _ _)) eqn:E2; [done|]. by intros [= <-]. Qed.
Lemma bool_fails d name s : GetNodeAttr_bool d name = inl s -> ok s = false.
Proof. unfold GetNodeAttr_bool. destruct (find_typed _ _ _) eqn:E; [|done]. intros [= <-]. by eapply find_typed_fails. Qed.
Lemma string_fails d name s : GetNodeAttr_string d name = inl s -> ok s = false.
Proof. unfold GetNodeAttr_string. destruct (find_typed _ _ _) eqn:E; [|done]. intros [= <-]. by eapply find_typed_fails. Qed.
Lemma Padding_fails d name s : GetNodeAttr_Padding d name = inl s -> ok s = false.
Proof.
  unfold GetNodeAttr_Padding. destruct (GetNodeAttr_string _ _) eqn:E; [intros [= <-]; by eapply string_fails|]. repeat destruct (bool_decide _); try done. by intros [= <-].
Qed.
Lemma to_int32s_fails name l s : to_int32s name l = inl s -> ok s = false.
Proof.
  revert s. induction l as [|v l IH]; intros s; [done|]. cbn. unfold to_int32. destruct (negb _); [by intros [= <-]|].
  destruct (to_int32s name l) eqn:E; [|done]. intros [= <-]. by apply IH.
Qed.
Lemma int32s_fails d name s : GetNodeAttr_int32s d name = inl s -> ok s = false.
Proof. unfold GetNodeAttr_int32s. destruct (find_typed _ _ _) eqn:E; [intros [= <-]; by eapply find_typed_fails|]. apply to_int32s_fails. Qed.
Definition int32 (v : Z) : Prop := - 2 ^ 31 <= v <= kint32max.
Lemma to_int32s_range name l k : to_int32s name l = inr k -> Forall int32 k.
Proof.
  revert k. induction l as [|v l IH]; intros k; cbn; [by intros [= <-]|]. unfold to_int32. destruct (Z.eqb_spec (s32 v) v) as [E|]; [|done]. cbn.
  destruct (to_int32s name l) eqn:E2; [done|]. intros [= <-]. constructor; [|by apply IH]. unfold int32, kint32max, s32 in *. pose proof (Z.mod_pos_bound (v + 2 ^ 31) (2 ^ 32) eq_refl). lia.
Qed.
Lemma int32s_range d name k : GetNodeAttr_int32s d name = inr k -> Forall int32 k.
Proof. unfold GetNodeAttr_int32s. destruct (find_typed _ _ _) eqn:E; [done|]. apply to_int32s_range. Qed.

(** [data_format] *)
Definition is_NCHW c : bool := match GetNodeAttr_string (node_def_ c) (bytes_of "data_format") with inl _ => false | inr f => bool_decide (f = bytes_of "NCHW") end.
Lemma nchw_eq c : nchw c = Done (is_NCHW c, c).
Proof. done. Qed.
Lemma is_NCHW_later c ow c' ow' : later c ow c' ow' -> is_NCHW c' = is_NCHW c.
Proof. intros (_ & P & _). unfold is_NCHW. by rewrite (keeps_def _ _ P). Qed.

Lemma total_set_output i h l c ow (Q : unit -> InferenceContext -> option world -> Prop) :
  knows c ow -> 0 <= i < zlength (outputs_ c) -> is_shape c ow h l ->
  (forall c', later c ow c' ow -> outputs_ c' = zinsert (outputs_ c) i h -> Q tt c' ow) -> exec_total (set_output i h) c ow Q.
Proof.
  intros K Hi H HQ. unfold exec_total, wp, set_output. rewrite write_eq by done. exists ow. split; [|apply HQ; [|done]].
  all: apply later_same; try done; [|cbn; unfold zinsert; destruct (_ <? 0); [done|]; by rewrite length_insert].
  all: destruct K as [K _], H as [H _]; destruct K; constructor; try done; cbn; apply Forall_zinsert; [done|by right].
Qed.
Lemma zinsert_lookup_case {A} (l : list A) i j x : 0 <= i < zlength l -> zinsert l i x !!z j = if i =? j then Some x else l !!z j.
Proof.
  intros Hi. unfold zlookup, zinsert. destruct (Z.ltb_spec i 0); [lia|]. destruct (Z.ltb_spec j 0), (Z.eqb_spec i j); try lia; try done.
  - subst j. apply list_lookup_insert_eq. unfold zlength in Hi. lia.
  - apply list_lookup_insert_ne. lia.
Qed.
Lemma output_is_later i l P c ow c' ow' : knows c ow -> later c ow c' ow' -> outputs_ c' !!z i = outputs_ c !!z i -> output_is i l P c ow -> output_is i l P c' ow'.
Proof.
  intros K L E (h & Eh & H & HP). exists h. split; [by rewrite E|]. split; [by eapply is_shape_later|]. by rewrite (known_shape_later c ow c' ow' h l).
Qed.
Lemma exec_set_output i h l ks c ow (Q : unit -> InferenceContext -> option world -> Prop) :
  knows c ow -> 0 <= i < zlength (outputs_ c) -> is_shape c ow h l -> known_shape c h = ks ->
  (forall c', later c ow c' ow -> output_is i l (fun p => p = ks) c' ow -> Q tt c' ow) -> exec (done_ok (set_output i h)) c ow Q.
Proof.
  intros K Hi H Ek HQ. unfold done_ok. apply exec_let, (total_set_output i h l); [done..|]. intros c' L E. apply exec_ok; [by eapply later_knows|]. apply HQ; [done|].
  exists h. split; [rewrite E, zinsert_lookup_case by done; by rewrite Z.eqb_refl|]. split; [by eapply is_shape_later|]. by rewrite (known_shape_later c ow _ ow h l).
Qed.
End Parts.

(** ** Windows *)

(** The number of windows of [f] elements, [s] apart, over [x] elements, and
    what is known of it; where the sums of the code do not overflow. *)
Definition window_size (pad : Padding) (x f s : Z) : Z := match pad with VALID => (x - f + s) / s | SAME => (x + s - 1) / s end.
Definition window_ok (pad : Padding) (x f s : Z) : Prop :=
  0 < s /\ match pad with VALID => f <= x /\ x - f + s <= kint64max | SAME => x + s - 1 <= kint64max end.
Definition known_window (pad : Padding) (kx kf s : Z) : Z :=
  if (kx =? kUnknownDim) || match pad with VALID => kf =? kUnknownDim | SAME => false end then kUnknownDim else window_size pad kx kf s.

Section Windows.
Context {text : DefText}.
Implicit Types (c : InferenceContext) (ow : option world).

Lemma dim_is_known c ow h x : is_dim c ow h x -> dim_is c ow h x (known_value c h).
Proof. done. Qed.
(** What is known of a sum that cannot be -1 by chance, divided. *)
Lemma known_div_value k s : 0 < s -> known_div k s = if k =? kUnknownDim then kUnknownDim else k / s.
Proof.
  intros Hs. unfold known_div, kUnknownDim. destruct (Z.eqb_spec s 1) as [->|]; [rewrite Z.div_1_r; by destruct (Z.eqb_spec k (-1)) as [->|]|].
  destruct (Z.eqb_spec s (-1)); [lia|]. by rewrite orb_false_r.
Qed.
Lemma known_add_value k s : 0 <= s -> value_ok k -> known_add k s = if k =? kUnknownDim then kUnknownDim else k + s.
Proof.
  intros Hs Hk. unfold known_add, value_ok, kUnknownDim in *. destruct (Z.eqb_spec k 0) as [->|]; [by rewrite (proj2 (Z.eqb_neq 0 (-1)))|].
  destruct (Z.eqb_spec s 0) as [->|]; [rewrite Z.add_0_r; by destruct (Z.eqb_spec k (-1)) as [->|]|]. destruct (Z.eqb_spec s (-1)); [lia|]. by rewrite orb_false_r.
Qed.
Lemma known_window_VALID kx kf s : value_ok kx -> value_ok kf -> (kx <> kUnknownDim -> kf <> kUnknownDim -> kf <= kx) -> 0 < s ->
  known_div (known_add (known_sub kx kf) s) s = known_window VALID kx kf s.
Proof.
  intros Hx Hf Hle Hs. assert (E : known_sub kx kf = if (kx =? kUnknownDim) || (kf =? kUnknownDim) then kUnknownDim else kx - kf).
  { unfold known_sub, kUnknownDim. destruct (Z.eqb_spec kf 0) as [->|]; [|done]. rewrite orb_false_r, Z.sub_0_r. by destruct (Z.eqb_spec kx (-1)) as [->|]. }
  rewrite E. unfold known_window, value_ok, kUnknownDim in *. destruct (Z.eqb_spec kx (-1)) as [->|N1]; cbn [orb];
    [by rewrite known_add_value, known_div_value by (unfold value_ok; lia)|].
  destruct (Z.eqb_spec kf (-1)) as [->|N2]; [by rewrite known_add_value, known_div_value by (unfold value_ok; lia)|].
  rewrite known_add_value by (unfold value_ok; lia). unfold kUnknownDim. destruct (Z.eqb_spec (kx - kf) (-1)); [lia|].
  rewrite known_div_value by done. unfold kUnknownDim. by destruct (Z.eqb_spec (kx - kf + s) (-1)); [lia|].
Qed.
Lemma known_window_SAME kx kf s : value_ok kx -> 0 < s -> known_div (known_add kx (s - 1)) s = known_window SAME kx kf s.
Proof.
  intros Hx Hs. unfold known_window. rewrite orb_false_r. rewrite known_add_value, known_div_value by (done || lia). unfold value_ok, kUnknownDim in *.
  destruct (Z.eqb_spec kx (-1)) as [->|]; [done|]. destruct (Z.eqb_spec (kx + (s - 1)) (-1)); [lia|]. cbn. f_equal. lia.
Qed.
Lemma rule_window d f s pad x y kx ky c ow (Q : DimensionHandle -> InferenceContext -> option world -> Prop) :
  knows c ow -> dim_is c ow d x kx -> doc_known_as c ow f y ky -> int32 s -> within ow (fun _ => window_ok pad x y s) ->
  (forall h c' ow', later c ow c' ow' -> dim_is c' ow' h (window_size pad x y s) (known_window pad kx ky s) -> Q h c' ow') ->
  exec (GetWindowedOutputSizeFromDims d f s pad) c ow Q.
Proof.
  intros K D F Is W HQ. unfold GetWindowedOutputSizeFromDims. apply exec_check; [eapply doc_in_ok; apply F|]. destruct (Z.leb_spec s 0) as [N|Hs].
  { apply exec_fail; [apply K| |done]. destruct ow; [|done]. cbn in W. destruct W. lia. }
  assert (Hs' : 0 <= s <= kint64max) by (unfold int32, kint32max, kint64max in *; lia).
  destruct (dim_is_range _ _ _ _ _ K D) as [Vx _]. pose proof (known_doc_ok c ow f K (is_doc_in _ _ _ _ (proj1 F))) as Vy.
  destruct D as [D Ex], F as [F Ey]. subst kx ky. destruct pad.
  - apply exec_try. apply (exec_Subtract d f x y); [done..|destruct ow; [|done]; apply W|]. intros h c1 ow1 L1 D1 E1 Hle.
    apply exec_try. apply (exec_Add h (of_val s) (x - y) s); [by eapply later_knows|done|by apply is_doc_val| |].
    { apply (within_later _ _ _ _ _ L1). destruct ow; [|done]. apply W. }
    intros h2 c2 ow2 L2 D2 E2. apply (exec_Divide h2 (of_val s) (x - y + s) s); [by eapply later_knows|done|by apply is_doc_val|intros [=]; unfold kUnknownDim in *; lia| |].
    { destruct ow2; [|done]. done. }
    intros h3 c3 ow3 L3 D3 E3 _. apply HQ; [eapply later_trans; [done|by eapply later_trans]|]. split; [done|].
    rewrite E3, E2, E1. cbn. by apply known_window_VALID.
  - apply exec_try. apply (exec_Add d (of_val (s - 1)) x (s - 1)); [done..|apply is_doc_val; unfold kint64max in *; lia| |].
    { destruct ow; [|done]. cbn in *. destruct W. lia. }
    intros h2 c2 ow2 L2 D2 E2. apply (exec_Divide h2 (of_val s) (x + (s - 1)) s); [by eapply later_knows|done|by apply is_doc_val|intros [=]; unfold kUnknownDim in *; lia| |].
    { destruct ow2; [|done]. done. }
    intros h3 c3 ow3 L3 D3 E3 _. apply HQ; [by eapply later_trans|]. replace (window_size SAME x y s) with ((x + (s - 1)) / s) by (cbn; f_equal; lia).
    split; [done|]. rewrite E3, E2. cbn. by apply known_window_SAME.
Qed.
End Windows.

(** ** Stages of a shape function *)

(** What a shape function may use at a point: its node, room for an output, and
    the inputs with their sizes and what is known of them. *)
Definition stage (nd : NodeDef) (c : InferenceContext) (ow : option world) : Prop := knows c ow /\ node_def_ c = nd /\ 0 < zlength (outputs_ c).
Definition input_as (c : InferenceContext) (ow : option world) (i : Z) (l : list Z) (p : PartialTensorShape.PartialTensorShape) : Prop :=
  input_is c ow i l /\ known_input c i = p.

Section Stages.
Context {text : DefText} {laws : DefTextLaws text}.
Implicit Types (nd : NodeDef) (c : InferenceContext) (ow : option world).

Lemma stage_knows nd c ow : stage nd c ow -> knows c ow.
Proof. by intros [K _]. Qed.
Lemma stage_later nd c ow c' ow' : stage nd c ow -> later c ow c' ow' -> stage nd c' ow'.
Proof. intros (K & E & H) L. split; [by eapply later_knows|]. destruct L as (_ & P & _). rewrite (keeps_def _ _ P). unfold zlength in *. by rewrite (keeps_outputs _ _ P). Qed.
Lemma input_as_later nd c ow c' ow' i l p : stage nd c ow -> later c ow c' ow' -> input_as c ow i l p -> input_as c' ow' i l p.
Proof. intros [K _] L [H <-]. split; [by eapply input_is_later|by eapply known_input_later]. Qed.

Lemma stage_ranked {A} nd i n l p c ow (k : ShapeHandle -> SI (Status + A)) Q :
  stage nd c ow -> input_as c ow i l p -> 0 <= n <= kint32max -> within ow (fun _ => zlength l = n) ->
  (forall h c' ow', later c ow c' ow' -> zlength (ranked n p) = n -> shape_is c' ow' h l (ranked n p) -> exec (k h) c' ow' Q) ->
  exec (let! s := input i in let? h := WithRank s n in k h) c ow Q.
Proof. intros [K _] [H <-]. by apply exec_ranked. Qed.
Lemma stage_attr {A B} (get : NodeDef -> list Z -> Status + A) (d : A) nd name c ow (k : A -> SI (Status + B)) Q :
  stage nd c ow -> (forall s, get nd name = inl s -> ok s = false) -> within ow (fun _ => attr_set (get nd name)) ->
  (get nd name = inr (attr_or d (get nd name)) -> exec (k (attr_or d (get nd name))) c ow Q) ->
  exec (let? a := GetAttr get name in k a) c ow Q.
Proof. intros (K & <- & _). by apply exec_GetAttr. Qed.
Lemma stage_Dim {A} nd s i l ks c ow (k : DimensionHandle -> SI (Status + A)) Q :
  stage nd c ow -> shape_is c ow s l ks -> 0 <= norm (zlength ks) i < zlength ks ->
  (forall d, dim_is c ow d (size_of l i) (known_of ks i) -> exec (k d) c ow Q) -> exec (st_bind (Dim s i) k) c ow Q.
Proof. intros [K _] H Hi HQ. destruct (read_Dim s i l ks c ow K H Hi) as (d & E & D). eapply exec_read; [done|]. by apply HQ. Qed.
Lemma stage_Merge {A} nd d e x y kd ke c ow (k : DimensionHandle -> SI (Status + A)) Q :
  stage nd c ow -> dim_is c ow d x kd -> dim_is c ow e y ke -> within ow (fun _ => x = y) ->
  (forall h v, dim_is c ow h x v -> merge_value kd ke = Some v -> exec (k h) c ow Q) -> exec (let? h := Merge_dim d e in k h) c ow Q.
Proof. intros [K _] D E W HQ. apply exec_try. by eapply rule_Merge_dim. Qed.
Lemma stage_window {A} nd d f s pad x y kx ky c ow (k : DimensionHandle -> SI (Status + A)) Q :
  stage nd c ow -> dim_is c ow d x kx -> doc_known_as c ow f y ky -> int32 s -> within ow (fun _ => window_ok pad x y s) ->
  (forall h c' ow', later c ow c' ow' -> dim_is c' ow' h (window_size pad x y s) (known_window pad kx ky s) -> exec (k h) c' ow' Q) ->
  exec (let? h := GetWindowedOutputSizeFromDims d f s pad in k h) c ow Q.
Proof. intros [K _] D F Is W HQ. apply exec_try. by eapply rule_window. Qed.
(** The end of most functions: a shape from dimensions. *)
Lemma stage_return nd ds l ks c ow (Q : unit -> InferenceContext -> option world -> Prop) :
  stage nd c ow -> Forall2 (fun d '(x, k) => dim_is c ow d x k) ds (combine l ks) -> length l = length ds -> length ks = length ds -> zlength ds <= kint32max ->
  (forall c' ow', output_is 0 l (fun p => p = PartialTensorShape.mkPartial false ks) c' ow' -> Q tt c' ow') ->
  exec (let! s := MakeShape_list (map of_dim ds) in done_ok (set_output 0 s)) c ow Q.
Proof.
  intros S H El Ek Hl HQ. apply exec_let. apply (rule_MakeShape_list _ l ks); [apply S| |by rewrite length_map|by rewrite length_map|unfold zlength in *; by rewrite length_map|].
  { apply Forall2_fmap_l. eapply Forall2_impl; [done|]. intros d [x k] D. by apply doc_of_dim. }
  intros h c' ow' L [Hh E]. destruct (stage_later _ _ _ _ _ S L) as (K' & _ & Ho). eapply exec_set_output; [done|lia|done|done|]. intros c2 _ O. by apply HQ.
Qed.
Lemma stage_set nd h l p (P : PartialTensorShape.PartialTensorShape -> Prop) c ow : stage nd c ow -> shape_as c ow h l p -> P p ->
  exec (done_ok (set_output 0 h)) c ow (fun _ => output_is 0 l P).
Proof.
  intros (K & _ & Ho) [H E] HP. eapply exec_set_output; [done|lia|done|done|]. intros c' _ (h' & Eh & Hh & Ep). exists h'. split; [done|]. split; [done|]. by rewrite Ep.
Qed.
Lemma stage_output nd ds l ks c ow :
  stage nd c ow -> Forall2 (fun d '(x, k) => dim_is c ow d x k) ds (combine l ks) -> length l = length ds -> length ks = length ds -> zlength ds <= kint32max ->
  exec (let! s := MakeShape_list (map of_dim ds) in done_ok (set_output 0 s)) c ow (fun _ => output_is 0 l (fun p => p = PartialTensorShape.mkPartial false ks)).
Proof. intros. by eapply stage_return. Qed.
Lemma read_at {A} l i c ow (k : Z -> SI (Status + A)) Q : 0 <= i < zlength l -> exec (k (default 0 (l !!z i))) c ow Q -> exec (st_bind (at_ l i) k) c ow Q.
Proof. intros Hi HQ. destruct (zlookup_is_Some l i Hi) as [x Hx]. eapply (exec_read _ _ x); [unfold at_; by rewrite Hx|]. by rewrite Hx in HQ. Qed.
Lemma exec_require {A} (b : bool) s c ow (m : SI (Status + A)) Q : context_ok c -> ok s = false -> within ow (fun _ => b = true) -> (b = true -> exec m c ow Q) ->
  exec (if negb b then fail s else m) c ow Q.
Proof. intros K F W HQ. destruct b; cbv [negb]; [by apply HQ|]. apply exec_fail; [done| |done]. by destruct ow. Qed.
End Stages.
(** Carries what is known to a later context. *)
Ltac advance S L :=
  lazymatch type of L with later ?c ?ow ?c' ?ow' =>
    repeat match goal with
    | H : input_as c ow _ _ _ |- _ => apply (input_as_later _ _ _ _ _ _ _ _ S L) in H
    | H : shape_is c ow _ _ _ |- _ => apply (shape_is_later _ _ _ _ _ _ _ (stage_knows _ _ _ S) L) in H
    | H : shape_as c ow _ _ _ |- _ => apply (shape_as_later _ _ _ _ _ _ _ (stage_knows _ _ _ S) L) in H
    | H : dim_is c ow _ _ _ |- _ => apply (dim_is_later _ _ _ _ _ _ _ L) in H
    | H : within ow (fun _ => ?P) |- _ => apply (within_later _ _ _ _ P L) in H
    end; apply (stage_later _ _ _ _ _ S) in L; clear S; rename L into S
  end.
(** A fact of the sizes, where a world is followed. *)
Ltac in_world := match goal with |- within ?ow _ => destruct ow; [|done]; cbn [within] in * end.
Ltac each_dim := cbn [combine]; repeat (apply List.Forall2_cons; [|]); [..|apply List.Forall2_nil].
Ltac in_range := match goal with H : zlength _ = _ |- _ => unfold norm; rewrite H; cbn; lia end.

End ShapeFnsFacts.

Module ShapeFnsWindows.
Import Status Numbers Attrs ShapeInference ShapeInferenceSpec ShapeInferenceFacts ShapeFns ShapeFnsFacts.

Section MatMul.
Context {text : DefText} {laws : DefTextLaws text}.
Implicit Types (nd : NodeDef) (c : InferenceContext) (ow : option world).

Definition bool_attr nd name : bool := attr_or false (GetNodeAttr_bool nd (bytes_of name)).
Lemma exec_MatMulShape nd c ow l0 l1 p0 p1 m k n :
  stage nd c ow -> input_as c ow 0 l0 p0 -> input_as c ow 1 l1 p1 ->
  within ow (fun _ => attr_set (GetNodeAttr_bool nd (bytes_of "transpose_a")) /\ attr_set (GetNodeAttr_bool nd (bytes_of "transpose_b")) /\
    l0 = (if bool_attr nd "transpose_a" then [k; m] else [m; k]) /\ l1 = (if bool_attr nd "transpose_b" then [n; k] else [k; n])) ->
  exec MatMulShape c ow (fun _ => output_is 0 [m; n] (fun p => p = PartialTensorShape.mkPartial false
    [known_of (ranked 2 p0) (if bool_attr nd "transpose_a" then 1 else 0); known_of (ranked 2 p1) (if bool_attr nd "transpose_b" then 0 else 1)])).
Proof.
  intros S I0 I1 W. unfold MatMulShape.
  eapply stage_ranked; [done|exact I0|unfold kint32max; lia|in_world; destruct W as (_ & _ & -> & _); by destruct (bool_attr _ _)|]. intros a c1 ow1 L R0 A. advance S L.
  eapply stage_ranked; [done|exact I1|unfold kint32max; lia|in_world; destruct W as (_ & _ & _ & ->); by destruct (bool_attr _ _)|]. intros b c2 ow2 L R1 B. advance S L.
  apply (stage_attr _ false nd); [done|apply bool_fails|in_world; apply W|]. intros _. apply (stage_attr _ false nd); [done|apply bool_fails|in_world; apply W|]. intros _.
  fold (bool_attr nd "transpose_a") (bool_attr nd "transpose_b"). set (ta := bool_attr nd "transpose_a") in *. set (tb := bool_attr nd "transpose_b") in *.
  assert (G : forall (t : bool) s i j, (if t then Dim s i else Dim s j) = Dim s (if t then i else j)) by (by intros []).
  rewrite !G.
  eapply stage_Dim; [done|exact A|destruct ta; in_range|]. intros rows Dr. eapply stage_Dim; [done|exact B|destruct tb; in_range|]. intros cols Dc.
  eapply stage_Dim; [done|exact A|destruct ta; in_range|]. intros ia Di. eapply stage_Dim; [done|exact B|destruct tb; in_range|]. intros ib Dj.
  eapply stage_Merge; [done..|in_world; destruct W as (_ & _ & -> & ->); by destruct ta, tb|]. intros _ _ _ _.
  unfold Matrix. change [of_dim rows; of_dim cols] with (map of_dim [rows; cols]).
  apply (stage_output nd); [done| |done..].
  each_dim; (eapply dim_is_cast; [eassumption|in_world; destruct W as (_ & _ & -> & ->); by destruct ta, tb]).
Qed.
End MatMul.

(** ** Layouts, strides *)

(** The dimensions in the order batch, rows, columns, depth. *)
Definition nhwc (f : list Z -> Z -> Z) (is_nchw : bool) (l : list Z) : list Z := if is_nchw then map (f l) [0; 2; 3; 1] else l.
Definition layout (is_nchw : bool) (n r c d : Z) : list Z := if is_nchw then [n; d; r; c] else [n; r; c; d].
Section Layouts.
Context {text : DefText} {laws : DefTextLaws text}.
Implicit Types (nd : NodeDef) (c : InferenceContext) (ow : option world).

Definition nchw_attr (nd : NodeDef) : bool := match GetNodeAttr_string nd (bytes_of "data_format") with inl _ => false | inr f => bool_decide (f = bytes_of "NCHW") end.
Definition int32s_attr (nd : NodeDef) (name : String.string) : list Z := attr_or [] (GetNodeAttr_int32s nd (bytes_of name)).
Definition padding_attr (nd : NodeDef) : Padding := attr_or VALID (GetNodeAttr_Padding nd (bytes_of "padding")).
Definition int_at (l : list Z) (i : Z) : Z := default 0 (l !!z i).
Definition has_ints (nd : NodeDef) (name : String.string) (n : Z) : Prop :=
  attr_set (GetNodeAttr_int32s nd (bytes_of name)) /\ zlength (int32s_attr nd name) = n.
Definition has_padding (nd : NodeDef) : Prop := attr_set (GetNodeAttr_Padding nd (bytes_of "padding")).

Lemma read_nchw {A} nd c ow (k : bool -> SI (Status + A)) Q : stage nd c ow -> exec (k (nchw_attr nd)) c ow Q -> exec (st_bind nchw k) c ow Q.
Proof. intros (_ & <- & _) HQ. by eapply exec_read. Qed.
Lemma int32s_attr_range nd name : Forall int32 (int32s_attr nd name).
Proof. unfold int32s_attr. destruct (GetNodeAttr_int32s nd (bytes_of name)) eqn:E; [done|]. by eapply int32s_range. Qed.
Lemma int_at_range l i : Forall int32 l -> int32 (int_at l i).
Proof.
  intros F. unfold int_at. destruct (l !!z i) as [x|] eqn:E; cbn; [|unfold int32, kint32max; lia]. rewrite Forall_forall in F. apply F. by eapply zlookup_elem.
Qed.
(** A list of [n] integers that the node must have. *)
Lemma stage_ints {A} nd name n s c ow (k : list Z -> SI (Status + A)) Q :
  stage nd c ow -> (forall l, ok (s l) = false) -> within ow (fun _ => has_ints nd name n) ->
  (zlength (int32s_attr nd name) = n -> exec (k (int32s_attr nd name)) c ow Q) ->
  exec (let? l := GetAttr GetNodeAttr_int32s (bytes_of name) in if negb (zlength l =? n) then fail (s l) else k l) c ow Q.
Proof.
  intros S F W HQ. apply (stage_attr _ [] nd); [done|apply int32s_fails|in_world; apply W|]. intros _. fold (int32s_attr nd name).
  apply exec_require; [apply S|done|in_world; by apply Z.eqb_eq, W|]. intros E. by apply HQ, Z.eqb_eq.
Qed.
Lemma stage_padding {A} nd c ow (k : Padding -> SI (Status + A)) Q :
  stage nd c ow -> within ow (fun _ => has_padding nd) -> exec (k (padding_attr nd)) c ow Q -> exec (let? p := GetAttr GetNodeAttr_Padding (bytes_of "padding") in k p) c ow Q.
Proof. intros S W HQ. by apply (stage_attr _ VALID nd); [|apply Padding_fails|in_world; apply W|]. Qed.

Lemma read_permuted s l ks idx c ow : knows c ow -> shape_is c ow s l ks -> Forall (fun i => 0 <= norm (zlength ks) i < zlength ks) idx ->
  exists ds, permuted s idx c = Done (ds, c) /\ length ds = length idx /\ Forall2 (fun d '(x, k) => dim_is c ow d x k) ds (combine (map (size_of l) idx) (map (known_of ks) idx)).
Proof.
  intros K H. induction idx as [|i idx IH]; intros F; [by exists []|]. apply Forall_cons in F as [Hi F]. destruct (IH F) as (ds & E & El & D).
  destruct (read_Dim s i l ks c ow K H Hi) as (d & Ed & Dd). exists (d :: ds). split; [|split; [cbn; congruence|by constructor]]. cbn. unfold st_bind. by rewrite Ed, E.
Qed.
Lemma total_permuted s l ks idx c ow (Q : ShapeHandle -> InferenceContext -> option world -> Prop) :
  knows c ow -> shape_is c ow s l ks -> Forall (fun i => 0 <= norm (zlength ks) i < zlength ks) idx -> zlength idx <= kint32max ->
  (forall h c' ow', later c ow c' ow' -> shape_is c' ow' h (map (size_of l) idx) (map (known_of ks) idx) -> Q h c' ow') ->
  exec_total (let! ds := permuted s idx in MakeShape_list (map of_dim ds)) c ow Q.
Proof.
  intros K H F Hl HQ. destruct (read_permuted s l ks idx c ow K H F) as (ds & E & El & D). eapply total_read; [done|].
  apply (rule_MakeShape_list _ (map (size_of l) idx) (map (known_of ks) idx)); [done| |by rewrite !length_map|by rewrite !length_map|unfold zlength in *; rewrite length_map; lia|done].
  apply Forall2_fmap_l. eapply Forall2_impl; [done|]. intros d [x k] Dx. by apply doc_of_dim.
Qed.
Lemma stage_nhwc {A} nd b s l ks c ow (k : ShapeHandle -> SI (Status + A)) Q :
  stage nd c ow -> shape_is c ow s l ks -> zlength ks = 4 ->
  (forall h c' ow', later c ow c' ow' -> zlength (nhwc known_of b ks) = 4 -> shape_is c' ow' h (nhwc size_of b l) (nhwc known_of b ks) -> exec (k h) c' ow' Q) ->
  exec (let! s' := if b : bool then to_nhwc s else st_ret s in k s') c ow Q.
Proof.
  intros S H E HQ. apply exec_let. destruct b.
  - apply (total_permuted s l ks); [apply S|done| |done|intros; by apply HQ]. rewrite E. repeat constructor; cbn; lia.
  - apply total_ret; [apply S|]. apply HQ; [apply later_refl; apply S|done|done].
Qed.
End Layouts.

(** ** Convolutions *)

Section Convolutions.
Context {text : DefText} {laws : DefTextLaws text}.
Implicit Types (nd : NodeDef) (c : InferenceContext) (ow : option world).

(** Where the rows and the columns are in a list of four, and the sizes of the
    result: [x] is the input by rows and columns, [f] the filter. *)
Definition row_at (b : bool) : Z := if b then 2 else 1.
Definition col_at (b : bool) : Z := if b then 3 else 2.
Definition conv2d (size : Padding -> Z -> Z -> Z -> Z) (at_i : list Z -> Z -> Z) nd (b : bool) (x f : list Z) : list Z :=
  let strides := int32s_attr nd "strides" in
  layout b (at_i x 0) (size (padding_attr nd) (at_i x 1) (at_i f 0) (int_at strides (row_at b))) (size (padding_attr nd) (at_i x 2) (at_i f 1) (int_at strides (col_at b))) (at_i f 3).
Definition conv2d_ok nd (b : bool) (x f : list Z) : Prop :=
  let strides := int32s_attr nd "strides" in
  size_of x 3 = size_of f 2 /\ window_ok (padding_attr nd) (size_of x 1) (size_of f 0) (int_at strides (row_at b)) /\
  window_ok (padding_attr nd) (size_of x 2) (size_of f 1) (int_at strides (col_at b)).

Lemma exec_Conv2DShape nd c ow l0 l1 p0 p1 :
  let b := nchw_attr nd in
  stage nd c ow -> input_as c ow 0 l0 p0 -> input_as c ow 1 l1 p1 ->
  within ow (fun _ => zlength l0 = 4 /\ zlength l1 = 4 /\ has_ints nd "strides" 4 /\ has_padding nd /\ conv2d_ok nd b (nhwc size_of b l0) l1) ->
  exec Conv2DShape c ow (fun _ => output_is 0 (conv2d window_size size_of nd b (nhwc size_of b l0) l1)
    (fun p => p = PartialTensorShape.mkPartial false (conv2d known_window known_of nd b (nhwc known_of b (ranked 4 p0)) (ranked 4 p1)))).
Proof.
  intros b S I0 I1 W. unfold Conv2DShape.
  eapply stage_ranked; [done|exact I0|unfold kint32max; lia|in_world; apply W|]. intros s0 c1 ow1 L R0 A0. advance S L.
  eapply stage_ranked; [done|exact I1|unfold kint32max; lia|in_world; apply W|]. intros s1 c2 ow2 L R1 A1. advance S L.
  eapply read_nchw; [done|]. fold b. apply (stage_ints nd); [done|done|in_world; apply W|]. intros Es. pose proof (int32s_attr_range nd "strides") as Is.
  eapply stage_nhwc; [done..|]. intros s c3 ow3 L R A. advance S L.
  apply read_at; [rewrite Es; by destruct b|]. apply read_at; [rewrite Es; by destruct b|].
  eapply stage_Dim; [done|exact A|in_range|]. intros n Dn. eapply stage_Dim; [done|exact A|in_range|]. intros ir Dr. eapply stage_Dim; [done|exact A|in_range|]. intros ic Dc.
  eapply stage_Dim; [done|exact A1|in_range|]. intros fr Fr. eapply stage_Dim; [done|exact A1|in_range|]. intros fc Fc. eapply stage_Dim; [done|exact A1|in_range|]. intros od Do.
  eapply stage_Dim; [done|exact A|in_range|]. intros d Dd. eapply stage_Dim; [done|exact A1|in_range|]. intros fd Df.
  eapply stage_Merge; [done..|in_world; apply W|]. intros _ _ _ _. eapply stage_padding; [done|in_world; apply W|].
  eapply stage_window; [done|exact Dr|apply doc_of_dim, Fr|by apply int_at_range|in_world; apply W|]. intros r c4 ow4 L Or. advance S L.
  eapply stage_window; [done|exact Dc|apply doc_of_dim, Fc|by apply int_at_range|in_world; apply W|]. intros cc c5 ow5 L Oc. advance S L.
  destruct b; (apply (stage_output nd); [done| |done..]; each_dim; assumption).
Qed.

Definition conv3d (size : Padding -> Z -> Z -> Z -> Z) (at_i : list Z -> Z -> Z) nd (x f : list Z) : list Z :=
  let out i := size (padding_attr nd) (at_i x i) (at_i f (i - 1)) (int_at (int32s_attr nd "strides") i) in [at_i x 0; out 1; out 2; out 3; at_i f 4].
Definition conv3d_ok nd (x f : list Z) : Prop :=
  size_of x 4 = size_of f 3 /\ forall i, 1 <= i <= 3 -> window_ok (padding_attr nd) (size_of x i) (size_of f (i - 1)) (int_at (int32s_attr nd "strides") i).
Lemma exec_Conv3DShape nd c ow l0 l1 p0 p1 :
  stage nd c ow -> input_as c ow 0 l0 p0 -> input_as c ow 1 l1 p1 ->
  within ow (fun _ => zlength l0 = 5 /\ zlength l1 = 5 /\ has_ints nd "strides" 5 /\ has_padding nd /\ conv3d_ok nd l0 l1) ->
  exec Conv3DShape c ow (fun _ => output_is 0 (conv3d window_size size_of nd l0 l1)
    (fun p => p = PartialTensorShape.mkPartial false (conv3d known_window known_of nd (ranked 5 p0) (ranked 5 p1)))).
Proof.
  intros S I0 I1 W. unfold Conv3DShape.
  eapply stage_ranked; [done|exact I0|unfold kint32max; lia|in_world; apply W|]. intros s0 c1 ow1 L R0 A0. advance S L.
  eapply stage_ranked; [done|exact I1|unfold kint32max; lia|in_world; apply W|]. intros s1 c2 ow2 L R1 A1. advance S L.
  apply (stage_ints nd); [done|done|in_world; apply W|]. intros Es. pose proof (int32s_attr_range nd "strides") as Is.
  do 3 (apply read_at; [by rewrite Es|]).
  eapply stage_Dim; [done|exact A0|in_range|]. intros n Dn. eapply stage_Dim; [done|exact A0|in_range|]. intros ip Dp.
  eapply stage_Dim; [done|exact A0|in_range|]. intros ir Dr. eapply stage_Dim; [done|exact A0|in_range|]. intros ic Dc.
  eapply stage_Dim; [done|exact A1|in_range|]. intros fp Fp. eapply stage_Dim; [done|exact A1|in_range|]. intros fr Fr.
  eapply stage_Dim; [done|exact A1|in_range|]. intros fc Fc. eapply stage_Dim; [done|exact A1|in_range|]. intros od Do.
  eapply stage_Dim; [done|exact A0|in_range|]. intros d Dd. eapply stage_Dim; [done|exact A1|in_range|]. intros fd Df.
  eapply stage_Merge; [done..|in_world; apply W|]. intros _ _ _ _. eapply stage_padding; [done|in_world; apply W|].
  assert (G : forall i, 1 <= i <= 3 -> within ow2 (fun _ => window_ok (padding_attr nd) (size_of l0 i) (size_of l1 (i - 1)) (int_at (int32s_attr nd "strides") i))).
  { intros i Hi. in_world. by apply W. }
  pose proof (G 1 ltac:(lia)) as G1. pose proof (G 2 ltac:(lia)) as G2. pose proof (G 3 ltac:(lia)) as G3. cbn in G1, G2, G3. clear G.
  eapply stage_window; [done|exact Dp|apply doc_of_dim, Fp|by apply int_at_range|exact G1|]. intros op c4 ow4 L Op. advance S L.
  eapply stage_window; [done|exact Dr|apply doc_of_dim, Fr|by apply int_at_range|exact G2|]. intros r c5 ow5 L Or. advance S L.
  eapply stage_window; [done|exact Dc|apply doc_of_dim, Fc|by apply int_at_range|exact G3|]. intros cc c6 ow6 L Oc. advance S L.
  apply (stage_output nd); [done| |done..]; each_dim; assumption.
Qed.

(** Each channel of the input gives [size_of f 3] channels of the result. *)
Definition depthwise (size : Padding -> Z -> Z -> Z -> Z) (mul : Z -> Z -> Z) (at_i : list Z -> Z -> Z) nd (x f : list Z) (depth : Z) : list Z :=
  let out i := size (padding_attr nd) (at_i x i) (at_i f (i - 1)) (int_at (int32s_attr nd "strides") i) in [at_i x 0; out 1; out 2; mul depth (at_i f 3)].
Definition depthwise_ok nd (x f : list Z) : Prop :=
  size_of x 3 = size_of f 2 /\ size_of x 3 * size_of f 3 <= kint64max /\
  forall i, 1 <= i <= 2 -> window_ok (padding_attr nd) (size_of x i) (size_of f (i - 1)) (int_at (int32s_attr nd "strides") i).
Lemma exec_DepthwiseConv2DNativeShape nd c ow l0 l1 p0 p1 :
  stage nd c ow -> input_as c ow 0 l0 p0 -> input_as c ow 1 l1 p1 ->
  within ow (fun _ => zlength l0 = 4 /\ zlength l1 = 4 /\ has_ints nd "strides" 4 /\ has_padding nd /\ depthwise_ok nd l0 l1) ->
  exec DepthwiseConv2DNativeShape c ow (fun _ => output_is 0 (depthwise window_size Z.mul size_of nd l0 l1 (size_of l0 3))
    (fun p => exists k, merge_value (known_of (ranked 4 p0) 3) (known_of (ranked 4 p1) 2) = Some k /\
       (k * known_of (ranked 4 p1) 3 <= kint64max -> p = PartialTensorShape.mkPartial false (depthwise known_window known_mul known_of nd (ranked 4 p0) (ranked 4 p1) k)))).
Proof.
  intros S I0 I1 W. unfold DepthwiseConv2DNativeShape.
  eapply stage_ranked; [done|exact I0|unfold kint32max; lia|in_world; apply W|]. intros s0 c1 ow1 L R0 A0. advance S L.
  eapply stage_ranked; [done|exact I1|unfold kint32max; lia|in_world; apply W|]. intros s1 c2 ow2 L R1 A1. advance S L.
  apply (stage_ints nd); [done|done|in_world; apply W|]. intros Es. pose proof (int32s_attr_range nd "strides") as Is.
  eapply stage_Dim; [done|exact A0|in_range|]. intros n Dn.
  eapply stage_Dim; [done|exact A0|in_range|]. intros ir Dr. eapply stage_Dim; [done|exact A0|in_range|]. intros ic Dc.
  eapply stage_Dim; [done|exact A1|in_range|]. intros fr Fr. eapply stage_Dim; [done|exact A1|in_range|]. intros fc Fc.
  eapply stage_Dim; [done|exact A1|in_range|]. intros fd Df. eapply stage_Dim; [done|exact A1|in_range|]. intros md Dm. eapply stage_Dim; [done|exact A0|in_range|]. intros d Dd.
  eapply stage_Merge; [done..|in_world; apply W|]. intros dd kd Ddd Ek.
  apply exec_try, (exec_Multiply dd (of_dim md) (size_of l0 3) (size_of l1 3)); [apply S|apply Ddd|apply is_doc_dim, Dm|in_world; apply W|].
  intros od c3 ow3 L Do Eo. rewrite (proj2 Ddd) in Eo. change (known_doc c2 (of_dim md)) with (known_value c2 md) in Eo. rewrite (proj2 Dm) in Eo.
  assert (Do' : dim_is c3 ow3 od (size_of l0 3 * size_of l1 3) (known_value c3 od)) by done. advance S L.
  eapply stage_padding; [done|in_world; apply W|]. do 2 (apply read_at; [by rewrite Es|]).
  assert (G : forall i, 1 <= i <= 2 -> within ow3 (fun _ => window_ok (padding_attr nd) (size_of l0 i) (size_of l1 (i - 1)) (int_at (int32s_attr nd "strides") i))).
  { intros i Hi. in_world. by apply W. }
  pose proof (G 1 ltac:(lia)) as G1. pose proof (G 2 ltac:(lia)) as G2. cbn in G1, G2. clear G.
  eapply stage_window; [done|exact Dr|apply doc_of_dim, Fr|by apply int_at_range|exact G1|]. intros r c5 ow5 L Or. advance S L.
  eapply stage_window; [done|exact Dc|apply doc_of_dim, Fc|by apply int_at_range|exact G2|]. intros cc c6 ow6 L Oc. advance S L.
  eapply (stage_return nd _ [_; _; _; _] [_; _; _; _]); [done| |done|done|done|].
  { each_dim; eassumption. }
  intros c' ow' (h & Eh & H & Ep). exists h. split; [done|]. split; [done|]. exists kd. split; [done|]. intros Hle. by rewrite Ep, (Eo Hle).
Qed.
End Convolutions.

(** ** Pooling *)

Section Pooling.
Context {text : DefText} {laws : DefTextLaws text}.
Implicit Types (nd : NodeDef) (c : InferenceContext) (ow : option world).

Lemma doc_of_attr c ow v : int32 v -> -1 <= v -> within ow (fun _ => 0 <= v) -> doc_known_as c ow (of_val v) v v.
Proof.
  unfold int32, kint32max. intros I H W. split; [|done]. split; [cbn; unfold value_ok, kint64max; lia|]. destruct ow; [|done]. cbn in *. unfold is_size, kint64max. lia.
Qed.
Lemma int_at_lower lo l i : lo <= 0 -> Forall (fun v => lo <= v) l -> lo <= int_at l i.
Proof. intros Hl F. unfold int_at. destruct (l !!z i) eqn:E; [|done]. rewrite Forall_forall in F. apply F. by eapply zlookup_elem. Qed.

(** The sizes of the windows are attributes. They are not below -1 (the
    [DCHECK] of [DimensionOrConstant]) and are sizes if the op makes sense. *)
Definition ksize_known nd : Prop := Forall (fun v => -1 <= v) (int32s_attr nd "ksize").
Definition ksize_ok nd (n : Z) : Prop := has_ints nd "ksize" n /\ Forall (fun v => 0 <= v) (int32s_attr nd "ksize").
Definition pooled (size : Padding -> Z -> Z -> Z -> Z) (at_i : list Z -> Z -> Z) nd (x : list Z) (i at_attr : Z) : Z :=
  size (padding_attr nd) (at_i x i) (int_at (int32s_attr nd "ksize") at_attr) (int_at (int32s_attr nd "strides") at_attr).
Definition pooled_ok nd (x : list Z) (i at_attr : Z) : Prop :=
  window_ok (padding_attr nd) (size_of x i) (int_at (int32s_attr nd "ksize") at_attr) (int_at (int32s_attr nd "strides") at_attr).
Definition depth_at (b : bool) : Z := if b then 1 else 3.
Definition avg_pool size at_i nd (b : bool) (x : list Z) : list Z :=
  layout b (at_i x 0) (pooled size at_i nd x 1 (row_at b)) (pooled size at_i nd x 2 (col_at b)) (at_i x 3).
Definition max_pool size at_i nd (b : bool) (x : list Z) : list Z :=
  layout b (at_i x 0) (pooled size at_i nd x 1 (row_at b)) (pooled size at_i nd x 2 (col_at b)) (pooled size at_i nd x 3 (depth_at b)).

Lemma stage_pooled {A} nd x kx i at_attr d c ow (k : DimensionHandle -> SI (Status + A)) Q :
  stage nd c ow -> dim_is c ow d (size_of x i) (known_of kx i) -> ksize_known nd ->
  within ow (fun _ => Forall (fun v => 0 <= v) (int32s_attr nd "ksize") /\ pooled_ok nd x i at_attr) ->
  (forall h c' ow', later c ow c' ow' -> dim_is c' ow' h (pooled window_size size_of nd x i at_attr) (pooled known_window known_of nd kx i at_attr) -> exec (k h) c' ow' Q) ->
  exec (let? h := GetWindowedOutputSizeFromDims d (of_val (int_at (int32s_attr nd "ksize") at_attr)) (int_at (int32s_attr nd "strides") at_attr) (padding_attr nd) in k h) c ow Q.
Proof.
  intros S D Kk W HQ. eapply stage_window; [done|exact D| |by apply int_at_range, int32s_attr_range|in_world; apply W|exact HQ].
  apply doc_of_attr; [by apply int_at_range, int32s_attr_range|by apply int_at_lower|in_world; by apply int_at_lower, W].
Qed.

Lemma exec_AvgPoolShape nd c ow l0 p0 :
  let b := nchw_attr nd in
  stage nd c ow -> input_as c ow 0 l0 p0 -> ksize_known nd ->
  within ow (fun _ => zlength l0 = 4 /\ has_ints nd "strides" 4 /\ ksize_ok nd 4 /\ has_padding nd /\
    pooled_ok nd (nhwc size_of b l0) 1 (row_at b) /\ pooled_ok nd (nhwc size_of b l0) 2 (col_at b)) ->
  exec AvgPoolShape c ow (fun _ => output_is 0 (avg_pool window_size size_of nd b (nhwc size_of b l0))
    (fun p => p = PartialTensorShape.mkPartial false (avg_pool known_window known_of nd b (nhwc known_of b (ranked 4 p0))))).
Proof.
  intros b S I0 Kk W. unfold AvgPoolShape.
  eapply stage_ranked; [done|exact I0|unfold kint32max; lia|in_world; apply W|]. intros s0 c1 ow1 L R0 A0. advance S L.
  eapply read_nchw; [done|]. fold b. apply (stage_ints nd); [done|done|in_world; apply W|]. intros Es.
  apply (stage_ints nd); [done|done|in_world; apply W|]. intros Ek.
  eapply stage_nhwc; [done..|]. intros s c3 ow3 L R A. advance S L.
  do 4 (apply read_at; [rewrite ?Es, ?Ek; by destruct b|]).
  eapply stage_Dim; [done|exact A|in_range|]. intros n Dn. eapply stage_Dim; [done|exact A|in_range|]. intros ir Dr. eapply stage_Dim; [done|exact A|in_range|]. intros ic Dc.
  eapply stage_Dim; [done|exact A|in_range|]. intros od Do. eapply stage_padding; [done|in_world; apply W|].
  eapply (stage_pooled nd _ _ 1 (row_at b)); [done|exact Dr|done|in_world; split; apply W|]. intros r c4 ow4 L Or. advance S L.
  eapply (stage_pooled nd _ _ 2 (col_at b)); [done|exact Dc|done|in_world; split; apply W|]. intros cc c5 ow5 L Oc. advance S L.
  destruct b; (apply (stage_output nd); [done| |done..]; each_dim; assumption).
Qed.
Lemma exec_MaxPoolShape nd c ow l0 p0 :
  let b := nchw_attr nd in
  stage nd c ow -> input_as c ow 0 l0 p0 -> ksize_known nd ->
  within ow (fun _ => zlength l0 = 4 /\ has_ints nd "strides" 4 /\ ksize_ok nd 4 /\ has_padding nd /\
    pooled_ok nd (nhwc size_of b l0) 1 (row_at b) /\ pooled_ok nd (nhwc size_of b l0) 2 (col_at b) /\ pooled_ok nd (nhwc size_of b l0) 3 (depth_at b)) ->
  exec MaxPoolShape c ow (fun _ => output_is 0 (max_pool window_size size_of nd b (nhwc size_of b l0))
    (fun p => p = PartialTensorShape.mkPartial false (max_pool known_window known_of nd b (nhwc known_of b (ranked 4 p0))))).
Proof.
  intros b S I0 Kk W. unfold MaxPoolShape.
  eapply stage_ranked; [done|exact I0|unfold kint32max; lia|in_world; apply W|]. intros s0 c1 ow1 L R0 A0. advance S L.
  eapply read_nchw; [done|]. fold b. apply (stage_ints nd); [done|done|in_world; apply W|]. intros Es.
  apply (stage_ints nd); [done|done|in_world; apply W|]. intros Ek.
  eapply stage_nhwc; [done..|]. intros s c3 ow3 L R A. advance S L.
  do 6 (apply read_at; [rewrite ?Es, ?Ek; by destruct b|]).
  eapply stage_Dim; [done|exact A|in_range|]. intros n Dn. eapply stage_Dim; [done|exact A|in_range|]. intros ir Dr. eapply stage_Dim; [done|exact A|in_range|]. intros ic Dc.
  eapply stage_Dim; [done|exact A|in_range|]. intros id Dd. eapply stage_padding; [done|in_world; apply W|].
  eapply (stage_pooled nd _ _ 1 (row_at b)); [done|exact Dr|done|in_world; split; apply W|]. intros r c4 ow4 L Or. advance S L.
  eapply (stage_pooled nd _ _ 2 (col_at b)); [done|exact Dc|done|in_world; split; apply W|]. intros cc c5 ow5 L Oc. advance S L.
  eapply (stage_pooled nd _ _ 3 (depth_at b)); [done|exact Dd|done|in_world; split; apply W|]. intros od c6 ow6 L Od. advance S L.
  apply exec_let. eapply (rule_MakeShape_list _ [_; _; _; _] [_; _; _; _]); [apply S| |done..|].
  { each_dim; apply doc_of_dim; eassumption. }
  intros h c7 ow7 L H. advance S L. apply exec_let. destruct b.
  - eapply total_permuted; [apply S|exact H|by repeat constructor|done|]. intros h2 c8 ow8 L H2. advance S L. by eapply (stage_set nd).
  - apply total_ret; [apply S|]. by eapply (stage_set nd).
Qed.

(** [Pool3DShape] gives up all three sizes when one is not known. *)
Definition known_all (l : list Z) : bool := forallb (fun k => negb (k =? kUnknownDim)) l.
Definition pool3d size at_i nd (x : list Z) : list Z :=
  [at_i x 0; pooled size at_i nd x 1 1; pooled size at_i nd x 2 2; pooled size at_i nd x 3 3; at_i x 4].
Definition known_pool3d nd (x : list Z) : list Z :=
  if known_all [known_of x 1; known_of x 2; known_of x 3] then pool3d known_window known_of nd x
  else [known_of x 0; kUnknownDim; kUnknownDim; kUnknownDim; known_of x 4].
Lemma window_is_size pad x y s : is_size x -> 0 <= y -> window_ok pad x y s -> is_size (window_size pad x y s).
Proof.
  intros Hx Hy [Hs W]. unfold is_size in *. destruct pad; cbn; split; try (apply Z.div_pos; lia).
  - transitivity (x - y + s); [|lia]. apply Z.div_le_upper_bound; nia.
  - transitivity (x + s - 1); [|lia]. apply Z.div_le_upper_bound; nia.
Qed.
Lemma exec_Pool3DShape nd c ow l0 p0 :
  stage nd c ow -> input_as c ow 0 l0 p0 -> ksize_known nd ->
  within ow (fun _ => zlength l0 = 5 /\ has_ints nd "strides" 5 /\ ksize_ok nd 5 /\ has_padding nd /\ forall i, 1 <= i <= 3 -> pooled_ok nd l0 i i) ->
  exec Pool3DShape c ow (fun _ => output_is 0 (pool3d window_size size_of nd l0) (fun p => p = PartialTensorShape.mkPartial false (known_pool3d nd (ranked 5 p0)))).
Proof.
  intros S I0 Kk W. unfold Pool3DShape.
  eapply stage_ranked; [done|exact I0|unfold kint32max; lia|in_world; apply W|]. intros s0 c1 ow1 L R0 A0. advance S L.
  apply (stage_ints nd); [done|done|in_world; apply W|]. intros Es. apply (stage_ints nd); [done|done|in_world; apply W|]. intros Ek.
  do 6 (apply read_at; [by rewrite ?Es, ?Ek|]).
  eapply stage_Dim; [done|exact A0|in_range|]. intros n Dn. eapply stage_Dim; [done|exact A0|in_range|]. intros ip Dp.
  eapply stage_Dim; [done|exact A0|in_range|]. intros ir Dr. eapply stage_Dim; [done|exact A0|in_range|]. intros ic Dc. eapply stage_Dim; [done|exact A0|in_range|]. intros od Do.
  eapply exec_read; [apply ValueKnown_eq; eapply dim_doc_in; apply Dp|]. eapply exec_read; [apply ValueKnown_eq; eapply dim_doc_in; apply Dr|].
  eapply exec_read; [apply ValueKnown_eq; eapply dim_doc_in; apply Dc|]. cbn [known_doc]. rewrite (proj2 Dp), (proj2 Dr), (proj2 Dc).
  assert (G : forall i, 1 <= i <= 3 -> within ow1 (fun _ => Forall (fun v => 0 <= v) (int32s_attr nd "ksize") /\ pooled_ok nd l0 i i)).
  { intros i Hi. in_world. split; [apply W|by apply W]. }
  pose proof (G 1 ltac:(lia)) as G1. pose proof (G 2 ltac:(lia)) as G2. pose proof (G 3 ltac:(lia)) as G3. clear G.
  unfold known_pool3d, known_all. cbn [forallb]. rewrite <- !negb_andb, andb_true_r, andb_assoc.
  destruct (_ && _ && _) eqn:E; cbn [negb].
  - eapply stage_padding; [done|in_world; apply W|].
    eapply (stage_pooled nd _ _ 1 1); [done|exact Dp|done|exact G1|]. intros op c4 ow4 L Op. advance S L.
    eapply (stage_pooled nd _ _ 2 2); [done|exact Dr|done|exact G2|]. intros r c5 ow5 L Or. advance S L.
    eapply (stage_pooled nd _ _ 3 3); [done|exact Dc|done|exact G3|]. intros cc c6 ow6 L Oc. advance S L.
    apply (stage_output nd); [done| |done..]; each_dim; assumption.
  - assert (U : forall i d, 1 <= i <= 3 -> dim_is c1 ow1 d (size_of l0 i) (known_of (ranked 5 p0) i) -> doc_known_as c1 ow1 (of_val kUnknownDim) (pooled window_size size_of nd l0 i i) kUnknownDim).
    { intros i d Hi D. split; [|done]. split; [cbn; unfold value_ok, kUnknownDim, kint64max; lia|]. pose proof (dim_is_range _ _ _ _ _ (stage_knows _ _ _ S) D) as [_ Z].
      in_world. destruct Z as [Z _]. split; [|by left]. apply window_is_size; [done|apply int_at_lower; [lia|apply W]|by apply W]. }
    apply exec_let. eapply (rule_MakeShape_list _ [_; _; _; _; _] [_; _; _; _; _]); [apply S| |done..|].
    { each_dim; [by apply doc_of_dim, Dn|by eapply (U 1), Dp|by eapply (U 2), Dr|by eapply (U 3), Dc|by apply doc_of_dim, Do]. }
    intros h c7 ow7 L H. advance S L. by eapply (stage_set nd).
Qed.
End Pooling.
End ShapeFnsWindows.
