(* ===== verification/ShapeFnsArrays.v ===== *)
(** * Shape functions: biases, reductions, concatenation and broadcasting

    What the other functions of [ShapeFns] infer. *)
From S2P Require Import Prelude Status Numbers DataTypes TensorShape PartialTensorShape Bcast EdgeSet Graph ShapeInference ShapeInferenceSpec ShapeInferenceFacts ShapeFns ShapeFnsFacts.
From stdpp Require Import gmap.
Open Scope Z_scope.

Module ShapeFnsArrays.
Import Status Numbers Attrs ShapeInference ShapeInferenceSpec ShapeInferenceFacts ShapeFns ShapeFnsFacts ShapeFnsWindows.
Abbreviation known_sizes := (PartialTensorShape.mkPartial false).
Abbreviation unknown_sizes := PartialTensorShape.new_PartialTensorShape.

(** ** Parts of shapes *)

Section PartsOfShapes.
Implicit Types (c : InferenceContext) (ow : option world).

Lemma subsizes_map {A B} (f : A -> B) l a b : subsizes (map f l) a b = map f <$> subsizes l a b.
Proof.
  unfold subsizes. assert (E : zlength (map f l) = zlength l) by (unfold zlength; by rewrite length_map). rewrite E. destruct (subrange _ _ _) as [[x y]|]; [|done].
  cbn. change (map f) with (fmap (M := list) f). by rewrite <- fmap_drop, <- fmap_take.
Qed.
Lemma shape_is_dims c ow h l ks : is_shape c ow h l -> rank_at c h <> kUnknownRank -> map (known_value c) (dims_at c h) = ks -> shape_is c ow h l ks.
Proof. intros H U <-. split; [done|]. unfold known_shape. by destruct (Z.eqb_spec (rank_at c h) kUnknownRank). Qed.
Lemma rule_Subshape s a b l k ks kks c ow (Q : ShapeHandle -> InferenceContext -> option world -> Prop) :
  knows c ow -> shape_is c ow s l ks -> subsizes ks a b = Some kks -> within ow (fun _ => subsizes l a b = Some k) ->
  (forall h c' ow', later c ow c' ow' -> shape_is c' ow' h k kks -> Q h c' ow') -> exec (Subshape s a b) c ow Q.
Proof.
  intros K H Ek W HQ. destruct (shape_is_known c ow s l ks K H) as (R & U & Ed & D & _). apply (exec_Subshape s a b l k); [done|apply H|done|].
  intros h c' ow' L Hh Hd. destruct (Z.eqb_spec (rank_at c s) kUnknownRank); [done|]. destruct Hd as [Rh Es]. apply HQ; [done|].
  apply shape_is_dims; [done|rewrite Rh; unfold zlength, kUnknownRank; lia|]. rewrite <- Ed, subsizes_map, Es in Ek. injection Ek as <-.
  assert (F : Forall (dim_in (shape_manager_ c)) (dims_at c' h)).
  { destruct D as [F _]. unfold subsizes in Es. destruct (subrange _ _ _) as [[x y]|]; [|done]. injection Es as <-. by apply Forall_take, Forall_drop. }
  by eapply known_values_later.
Qed.
Lemma rule_Concatenate s1 s2 l1 l2 k1 k2 c ow (Q : ShapeHandle -> InferenceContext -> option world -> Prop) :
  knows c ow -> shape_is c ow s1 l1 k1 -> shape_is c ow s2 l2 k2 -> zlength k1 + zlength k2 <= kint32max ->
  (forall h c' ow', later c ow c' ow' -> shape_is c' ow' h (l1 ++ l2) (k1 ++ k2) -> Q h c' ow') -> exec (Concatenate s1 s2) c ow Q.
Proof.
  intros K H1 H2 B HQ. destruct (shape_is_known c ow s1 l1 k1 K H1) as (R1 & U1 & E1 & D1 & _ & W1), (shape_is_known c ow s2 l2 k2 K H2) as (R2 & U2 & E2 & D2 & _ & W2).
  apply (exec_Concatenate s1 s2 l1 l2); [done|apply H1|apply H2|destruct ow; [|done]; cbn in *; unfold zlength in *; lia|intros _ _; lia|].
  intros h c' ow' L Hh Hd. destruct (Z.eqb_spec (rank_at c s1) kUnknownRank); [done|]. destruct (Z.eqb_spec (rank_at c s2) kUnknownRank); [done|].
  destruct Hd as [Rh Ed]. apply HQ; [done|]. apply shape_is_dims; [done|rewrite Rh; unfold zlength, kUnknownRank; lia|]. rewrite Ed, map_app.
  rewrite <- E1, <- E2. f_equal; (eapply known_values_later; [done|]); [apply D1|apply D2].
Qed.
End PartsOfShapes.

(** ** Biases *)

Lemma subsizes_front {A} (l : list A) n : 0 < n <= zlength l -> subsizes l 0 (- n) = Some (take (Z.to_nat (zlength l - n)) l).
Proof.
  intros H. unfold subsizes, subrange, norm. destruct (Z.ltb_spec (zlength l) 0); [lia|]. cbn. destruct (Z.ltb_spec (zlength l) (- n)); [lia|].
  destruct (Z.ltb_spec (- n) 0); [|lia]. destruct (Z.leb_spec 0 (zlength l + - n)); [|lia]. cbn. do 2 f_equal. lia.
Qed.
Lemma subsizes_back {A} (l : list A) n : 0 < n <= zlength l -> zlength l <= kint32max -> subsizes l (- n) kint64max = Some (drop (Z.to_nat (zlength l - n)) l).
Proof.
  intros H B. unfold kint32max in B. unfold subsizes, subrange, norm. destruct (Z.ltb_spec (zlength l) (- n)); [lia|]. destruct (Z.ltb_spec (- n) 0); [|lia].
  assert (E : (if (if zlength l <? kint64max then zlength l else kint64max) <? 0 then zlength l + (if zlength l <? kint64max then zlength l else kint64max)
    else if zlength l <? kint64max then zlength l else kint64max) = zlength l) by (unfold kint64max; destruct (Z.ltb_spec (zlength l) (2 ^ 63 - 1)); [|lia]; destruct (Z.ltb_spec (zlength l) 0); [lia|done]).
  rewrite E. destruct (Z.leb_spec 0 (zlength l + - n)); [|lia]. destruct (Z.leb_spec 0 (zlength l)); [|lia]. cbn. destruct (Z.leb_spec (zlength l + - n) (zlength l)); [|lia].
  rewrite take_ge by (rewrite length_drop; unfold zlength in *; lia). done.
Qed.
Lemma zinsert_split {A} (l : list A) i x : 0 <= i < zlength l -> zinsert l i x = take (Z.to_nat i) l ++ x :: drop (Z.to_nat (i + 1)) l.
Proof. intros H. unfold zinsert. destruct (Z.ltb_spec i 0); [lia|]. rewrite insert_take_drop by (unfold zlength in H; lia). by replace (Z.to_nat (i + 1)) with (S (Z.to_nat i)) by lia. Qed.
Lemma size_of_insert l i : 0 <= norm (zlength l) i < zlength l -> zinsert l (norm (zlength l) i) (size_of l i) = l.
Proof.
  intros H. unfold size_of. destruct (zlookup_is_Some l _ H) as [x Hx]. rewrite Hx. cbn. unfold zinsert, zlookup in *. destruct (_ <? 0); [done|]. by apply list_insert_id.
Qed.
Lemma biased_whole {A} (l : list A) n x : 0 < n <= zlength l ->
  take (Z.to_nat (zlength l - n)) l ++ x :: drop (Z.to_nat (zlength l - (n - 1))) l = zinsert l (norm (zlength l) (- n)) x.
Proof.
  intros H. unfold norm. destruct (Z.ltb_spec (- n) 0); [|lia]. rewrite zinsert_split by lia. do 3 f_equal; lia.
Qed.
Definition bias_axis (is_nchw : bool) : Z := if is_nchw then -3 else -1.
Definition bias_rank (is_nchw : bool) : Z := if is_nchw then 3 else 2.
(** What is known of a shape with the known size of the bias. *)
Definition biased (is_nchw : bool) (p : PartialTensorShape.PartialTensorShape) (k1 : Z) (q : PartialTensorShape.PartialTensorShape) : Prop :=
  let ks := PartialTensorShape.dim_sizes_ p in
  if PartialTensorShape.is_unknown_ p then q = unknown_sizes
  else exists k, merge_value (known_of ks (bias_axis is_nchw)) k1 = Some k /\ q = known_sizes (zinsert ks (norm (zlength ks) (bias_axis is_nchw)) k).

Section Biases.
Context {text : DefText} {laws : DefTextLaws text}.
Implicit Types (nd : NodeDef) (c : InferenceContext) (ow : option world).

Lemma stage_at_least {A} nd i n l p c ow (k : ShapeHandle -> SI (Status + A)) Q :
  stage nd c ow -> input_as c ow i l p -> 0 <= n -> within ow (fun _ => n <= zlength l) ->
  (forall h c' ow', later c ow c' ow' -> shape_as c' ow' h l p ->
     (p = unknown_sizes \/ exists ks, p = known_sizes ks /\ n <= zlength ks) -> exec (k h) c' ow' Q) ->
  exec (let! s := input i in let? h := WithRankAtLeast s n in k h) c ow Q.
Proof.
  intros [K _] [H <-] Hn W HQ. apply (exec_input i l); [done|]. intros s Hs Ek. rewrite <- Ek in HQ. apply exec_try, (exec_WithRankAtLeast s n l); [done..|].
  intros h c' ow' L Hh R Hsame. unfold known_shape in *. destruct (Z.eqb_spec (rank_at c s) kUnknownRank) as [U|U].
  - apply HQ; [done| |by left]. split; [done|]. unfold known_shape. by rewrite R, U.
  - destruct (Hsame U) as (-> & -> & B). apply HQ; [done| |right].
    + split; [done|]. unfold known_shape. by destruct (Z.eqb_spec (rank_at c s) kUnknownRank).
    + eexists. split; [done|]. destruct (known_dims c ow s l K Hs U) as (_ & E & _). unfold zlength in *. rewrite length_map. lia.
Qed.
Lemma stage_part {A} nd s a b l k ks kks c ow (f : ShapeHandle -> SI (Status + A)) Q :
  stage nd c ow -> shape_is c ow s l ks -> subsizes ks a b = Some kks -> within ow (fun _ => subsizes l a b = Some k) ->
  (forall h c' ow', later c ow c' ow' -> shape_is c' ow' h k kks -> exec (f h) c' ow' Q) -> exec (let? h := Subshape s a b in f h) c ow Q.
Proof. intros [K _] H E W HQ. apply exec_try. by eapply rule_Subshape. Qed.
Lemma stage_vector {A} nd d x k c ow (f : ShapeHandle -> SI (Status + A)) Q :
  stage nd c ow -> dim_is c ow d x k -> (forall h c' ow', later c ow c' ow' -> shape_is c' ow' h [x] [k] -> exec (f h) c' ow' Q) ->
  exec (let! h := Vector (of_dim d) in f h) c ow Q.
Proof. intros [K _] D HQ. apply exec_let. apply (rule_MakeShape_list _ [x] [k]); [done| |done..]. each_dim. by apply doc_of_dim. Qed.

Lemma stage_unknown nd l (P : PartialTensorShape.PartialTensorShape -> Prop) c ow : stage nd c ow -> within ow (fun _ => sizes_fit l) -> P unknown_sizes ->
  exec (let! u := UnknownShape in done_ok (set_output 0 u)) c ow (fun _ => output_is 0 l P).
Proof.
  intros S W HP. apply exec_let, (total_UnknownShape l); [apply S|done|]. intros h c' ow' L H R. advance S L. eapply stage_set; [done| |exact HP].
  split; [done|]. unfold known_shape. by rewrite R.
Qed.
Lemma stage_joined {A} nd s1 s2 l1 l2 k1 k2 c ow (f : ShapeHandle -> SI (Status + A)) Q :
  stage nd c ow -> shape_is c ow s1 l1 k1 -> shape_is c ow s2 l2 k2 -> zlength k1 + zlength k2 <= kint32max ->
  (forall h c' ow', later c ow c' ow' -> shape_is c' ow' h (l1 ++ l2) (k1 ++ k2) -> exec (f h) c' ow' Q) -> exec (let? h := Concatenate s1 s2 in f h) c ow Q.
Proof. intros [K _] H1 H2 B HQ. apply exec_try. by eapply rule_Concatenate. Qed.
Lemma exec_last (m : SI (Status + ShapeHandle)) c ow Q : exec (let? s := m in ok_with s) c ow Q -> exec m c ow Q.
Proof.
  unfold exec, wp, try_bind, st_bind. destruct (m c) as [[[s|h] c']| |]; try done.
Qed.

(** The two layouts, once the shape is known. *)
Lemma bias_nchw nd s bd l0 ks n k1 c ow :
  stage nd c ow -> shape_is c ow s l0 ks -> 3 <= zlength ks -> dim_is c ow bd n k1 -> within ow (fun _ => size_of l0 (-3) = n) ->
  exec (let? output_shape :=
    let? first := Subshape s 0 (-3) in
    let? last := Subshape_from s (-2) in
    let! input_bias_dim := Dim s (-3) in
    let? merged_bias_dim := Merge_dim input_bias_dim bd in
    let! merged_bias := Vector (of_dim merged_bias_dim) in
    let? temp := Concatenate first merged_bias in
    Concatenate temp last in
    done_ok (set_output 0 output_shape)) c ow (fun _ => output_is 0 l0 (biased true (known_sizes ks) k1)).
Proof.
  intros S Hs Bk Db W. destruct (shape_is_known _ _ _ _ _ (stage_knows _ _ _ S) Hs) as (_ & _ & _ & _ & Bm & Wl).
  assert (El : within ow (fun _ => zlength l0 = zlength ks)) by (in_world; unfold zlength; lia).
  apply exec_try. eapply (stage_part nd); [done|exact Hs|by apply (subsizes_front _ 3)|in_world; apply (subsizes_front _ 3); lia|].
  intros first c3 ow3 L Hf. advance S L. eapply (stage_part nd); [done|exact Hs|apply (subsizes_back _ 2); lia|in_world; apply (subsizes_back _ 2); lia|].
  intros last c4 ow4 L Hla. advance S L. eapply stage_Dim; [done|exact Hs|unfold norm; cbn; lia|]. intros id Di.
  eapply stage_Merge; [done|exact Di|exact Db|in_world; by rewrite W|]. intros md mk Dm Ek.
  eapply stage_vector; [done|exact Dm|]. intros mb c5 ow5 L Hm. advance S L.
  eapply stage_joined; [done|exact Hf|exact Hm| |].
  { unfold zlength in *. rewrite length_take. cbn. lia. }
  intros temp c6 ow6 L Ht. advance S L. apply exec_last. eapply stage_joined; [done|exact Ht|exact Hla| |].
  { unfold zlength in *. rewrite length_app, length_take, length_drop. cbn. lia. }
  intros out c7 ow7 L Ho. advance S L. apply exec_ok; [apply S|].
  eapply (stage_set nd); [done|eapply shape_is_cast; [exact Ho|]|].
  - in_world. rewrite <- app_assoc. cbn [app]. rewrite (biased_whole l0 3) by lia. apply (size_of_insert l0 (-3)). unfold norm. cbn. lia.
  - unfold biased. cbn [PartialTensorShape.is_unknown_ PartialTensorShape.dim_sizes_]. exists mk. split; [done|]. rewrite <- app_assoc. cbn [app].
    by rewrite (biased_whole ks 3) by lia.
Qed.
Lemma bias_nhwc nd s bd l0 ks n k1 c ow :
  stage nd c ow -> shape_is c ow s l0 ks -> 2 <= zlength ks -> dim_is c ow bd n k1 -> within ow (fun _ => size_of l0 (-1) = n) ->
  exec (let? output_shape :=
    let? all_but_bias := Subshape s 0 (-1) in
    let! input_bias_dim := Dim s (-1) in
    let? merged_bias_dim := Merge_dim input_bias_dim bd in
    let! merged_bias := Vector (of_dim merged_bias_dim) in
    Concatenate all_but_bias merged_bias in
    done_ok (set_output 0 output_shape)) c ow (fun _ => output_is 0 l0 (biased false (known_sizes ks) k1)).
Proof.
  intros S Hs Bk Db W. destruct (shape_is_known _ _ _ _ _ (stage_knows _ _ _ S) Hs) as (_ & _ & _ & _ & Bm & Wl).
  assert (El : within ow (fun _ => zlength l0 = zlength ks)) by (in_world; unfold zlength; lia).
  apply exec_try. eapply (stage_part nd); [done|exact Hs|apply (subsizes_front _ 1); lia|in_world; apply (subsizes_front _ 1); lia|].
  intros first c3 ow3 L Hf. advance S L. eapply stage_Dim; [done|exact Hs|unfold norm; cbn; lia|]. intros id Di.
  eapply stage_Merge; [done|exact Di|exact Db|in_world; by rewrite W|]. intros md mk Dm Ek.
  eapply stage_vector; [done|exact Dm|]. intros mb c5 ow5 L Hm. advance S L.
  apply exec_last. eapply stage_joined; [done|exact Hf|exact Hm| |].
  { unfold zlength in *. rewrite length_take. cbn. lia. }
  intros out c7 ow7 L Ho. advance S L. apply exec_ok; [apply S|].
  assert (G : forall A (l : list A) x, 0 < zlength l -> take (Z.to_nat (zlength l - 1)) l ++ [x] = zinsert l (norm (zlength l) (-1)) x).
  { intros A l x Hl. rewrite <- (biased_whole l 1) by lia. rewrite (drop_ge l) by (unfold zlength; lia). done. }
  eapply (stage_set nd); [done|eapply shape_is_cast; [exact Ho|]|].
  - in_world. rewrite (G _ l0) by lia. apply (size_of_insert l0 (-1)). unfold norm. cbn. lia.
  - unfold biased. cbn [PartialTensorShape.is_unknown_ PartialTensorShape.dim_sizes_]. exists mk. split; [done|]. by rewrite (G _ ks) by lia.
Qed.
Lemma exec_BiasAddShape nd c ow l0 l1 p0 p1 :
  let b := nchw_attr nd in
  stage nd c ow -> input_as c ow 0 l0 p0 -> input_as c ow 1 l1 p1 ->
  within ow (fun _ => bias_rank b <= zlength l0 /\ l1 = [size_of l0 (bias_axis b)]) ->
  exec BiasAddShape c ow (fun _ => output_is 0 l0 (biased b p0 (known_of (ranked 1 p1) 0))).
Proof.
  intros b S I0 I1 W. unfold BiasAddShape. eapply read_nchw; [done|]. fold b. destruct b; cbv iota beta.
  all: eapply stage_at_least; [done|exact I0|lia|in_world; apply W|]; intros s c1 ow1 L Hs Hp; advance S L.
  all: eapply stage_ranked; [done|exact I1|unfold kint32max; lia|in_world; by destruct W as [_ ->]|]; intros v c2 ow2 L Rv Hv; advance S L.
  all: eapply stage_Dim; [done|exact Hv|in_range|]; intros bd Db; (eapply exec_read; [apply RankKnown_eq; apply Hs|]).
  all: rewrite <- is_unknown_known_shape, (proj2 Hs); destruct Hp as [->|(ks & -> & Bk)]; cbn [negb PartialTensorShape.is_unknown_].
  all: try (apply (stage_unknown nd); [done|eapply shape_fits; [apply S|apply Hs]|done]).
  - eapply bias_nchw; [done|exact Hs|done|exact Db|in_world; by destruct W as [_ ->]].
  - eapply bias_nhwc; [done|exact Hs|done|exact Db|in_world; by destruct W as [_ ->]].
Qed.

(** A dimension of a shape whose rank may be unknown. *)
Lemma stage_Dim_any {A} nd s i l p c ow (k : DimensionHandle -> SI (Status + A)) Q :
  stage nd c ow -> shape_as c ow s l p -> (p = unknown_sizes \/ exists ks, p = known_sizes ks /\ 0 <= norm (zlength ks) i < zlength ks) ->
  within ow (fun _ => 0 <= norm (zlength l) i < zlength l) ->
  (forall d c' ow', later c ow c' ow' -> dim_is c' ow' d (size_of l i) (known_of (PartialTensorShape.dim_sizes_ p) i) -> exec (k d) c' ow' Q) ->
  exec (let! d := Dim s i in k d) c ow Q.
Proof.
  intros S H Hp W HQ. destruct Hp as [->|(ks & -> & Hi)].
  - assert (U : rank_at c s = kUnknownRank) by (apply Z.eqb_eq; rewrite <- is_unknown_known_shape; by rewrite (proj2 H)).
    apply exec_let, (total_Dim s i l (size_of l i)); [apply S|apply H|by left| |].
    { in_world. unfold size_of. destruct (zlookup_is_Some l _ W) as [x Hx]. by rewrite Hx. }
    intros d c' ow' L D E. apply HQ; [done|]. split; [done|]. rewrite E, U. cbn. unfold known_of, zlookup. cbn. by destruct (_ <? 0).
  - eapply stage_Dim; [done|exact H|done|]. intros d D. apply HQ; [apply later_refl, S|done].
Qed.

(** The gradient of a bias is a vector. *)
Lemma exec_BiasAddGradShape nd c ow l0 p0 :
  let b := nchw_attr nd in
  stage nd c ow -> input_as c ow 0 l0 p0 -> within ow (fun _ => bias_rank b <= zlength l0) ->
  exec BiasAddGradShape c ow (fun _ => output_is 0 [size_of l0 (bias_axis b)] (fun p => p = known_sizes [known_of (PartialTensorShape.dim_sizes_ p0) (bias_axis b)])).
Proof.
  intros b S I0 W. unfold BiasAddGradShape. eapply read_nchw; [done|]. fold b. destruct b; cbv iota beta.
  all: eapply stage_at_least; [done|exact I0|lia|in_world; apply W|]; intros s c1 ow1 L Hs Hp; advance S L.
  all: eapply (stage_Dim_any nd); [done|exact Hs| |in_world; unfold norm; cbn in *; lia|].
  1,3: destruct Hp as [Hp|(ks & Hp & Bk)]; [by left|right; exists ks; split; [done|unfold norm; cbn in *; lia]].
  all: intros d c2 ow2 L D; advance S L; eapply stage_vector; [done|exact D|]; intros h c3 ow3 L H; advance S L; by eapply (stage_set nd).
Qed.
End Biases.

(** ** Values of inputs, unknown outputs *)

(** The value of an input in the world, and the tensor that the context has. *)
Definition tensor_as (c : InferenceContext) (ow : option world) (i : Z) (T : Tensor) (m : option Tensor) : Prop :=
  0 <= i < zlength (inputs_ c) /\ within ow (fun w => value_of w i = T) /\ input_tensors_ c !!z i = Some m.

Section Values.
Context {text : DefText}.
Implicit Types (nd : NodeDef) (c : InferenceContext) (ow : option world).

Lemma tensor_as_later c ow c' ow' i T m : later c ow c' ow' -> tensor_as c ow i T m -> tensor_as c' ow' i T m.
Proof.
  intros (_ & P & A) (Hi & W & E). split; [by rewrite (keeps_inputs _ _ P)|]. split; [|by rewrite (keeps_tensors _ _ P)].
  destruct ow, ow'; try done. cbn in *. destruct A as (_ & _ & -> & _). done.
Qed.
Lemma stage_tensor {A} nd i T m c ow (k : option Tensor -> SI (Status + A)) Q :
  stage nd c ow -> tensor_as c ow i T m ->
  (forall c' ow', later c ow c' ow' -> within ow' (fun _ => match m with Some t => T = t | None => True end) -> exec (k m) c' ow' Q) ->
  exec (let! t := input_tensor i in k t) c ow Q.
Proof.
  intros [K _] (Hi & W & E) HQ. apply exec_let, total_input_tensor; [done|done|]. intros t c' ow' L Et _ Wt. rewrite E in Et. injection Et as <-.
  apply HQ; [done|]. destruct m as [t|]; [|by destruct ow']. destruct L as (_ & _ & A'). destruct ow, ow'; try done. cbn in *. destruct A' as (_ & _ & V & _). congruence.
Qed.

Lemma total_unknown_new l c ow (Q : ShapeHandle -> InferenceContext -> option world -> Prop) :
  knows c ow -> within ow (fun _ => sizes_fit l) ->
  (forall h c' ow', later c ow c' ow' -> shape_as c' ow' h l unknown_sizes -> outputs_ c' = outputs_ c -> Q h c' ow') -> exec_total UnknownShape c ow Q.
Proof.
  intros K W HQ. pose proof (total_UnknownShape l c ow (fun h c' ow' => shape_as c' ow' h l unknown_sizes) K W) as T.
  unfold exec_total, wp, UnknownShape, new_shape, st_bind, st_get, st_modify, st_ret in *. cbn in *. destruct T as (ow' & L & H).
  - intros h c' ow' _ H R. split; [done|]. unfold known_shape. by rewrite R.
  - exists ow'. split; [done|]. by apply HQ.
Qed.
Lemma total_unknown_outputs nd n i (f : Z -> list Z) c ow :
  stage nd c ow -> 0 <= i -> i + Z.of_nat n = zlength (outputs_ c) -> within ow (fun _ => forall j, sizes_fit (f j)) ->
  (forall j, 0 <= j < i -> output_is j (f j) (fun p => p = unknown_sizes) c ow) ->
  exec_total (unknown_outputs n i) c ow (fun _ c' ow' => forall j, 0 <= j < zlength (outputs_ c) -> output_is j (f j) (fun p => p = unknown_sizes) c' ow').
Proof.
  revert i c ow. induction n as [|n IH]; intros i c ow S Hi Hn W H.
  { apply total_ret; [apply S|]. intros j Hj. apply H. lia. }
  cbn [unknown_outputs]. apply total_let, (total_unknown_new (f i)); [apply S|in_world; apply W|]. intros h c1 ow1 L Hh E1.
  assert (H1 : forall j, 0 <= j < i -> output_is j (f j) (fun p => p = unknown_sizes) c1 ow1).
  { intros j Hj. eapply output_is_later; [apply S|done|by rewrite E1|by apply H]. }
  clear H. advance S L. apply total_let, (total_set_output i h (f i)); [apply S|rewrite E1; lia|apply Hh|]. intros c2 L E2.
  pose proof S as S1. pose proof L as L2. advance S L. rewrite <- E1. assert (El : zlength (outputs_ c2) = zlength (outputs_ c1)).
  { rewrite E2. unfold zinsert, zlength. destruct (_ <? 0); [done|]. by rewrite length_insert. }
  rewrite <- El. apply IH; [done|lia|rewrite El, E1; lia|done|]. intros j Hj. destruct (Z.eq_dec j i) as [->|Nj].
  - exists h. split; [rewrite E2, zinsert_lookup_case by (rewrite E1; lia); by rewrite Z.eqb_refl|]. done.
  - eapply output_is_later; [apply S1|exact L2| |apply H1; lia]. rewrite E2, zinsert_lookup_case by (rewrite E1; lia). by destruct (Z.eqb_spec i j); [lia|].
Qed.
Lemma exec_UnknownShapeFn nd l (P : PartialTensorShape.PartialTensorShape -> Prop) c ow :
  stage nd c ow -> within ow (fun _ => sizes_fit l) -> P unknown_sizes -> exec UnknownShapeFn c ow (fun _ => output_is 0 l P).
Proof.
  intros S W HP. unfold UnknownShapeFn. eapply exec_read; [done|]. unfold done_ok. apply exec_let.
  eapply total_mono; [apply (total_unknown_outputs nd _ 0 (fun _ => l)); [done|lia|unfold zlength; lia|in_world; done|lia]|].
  intros u c' ow' L H. apply exec_ok; [by eapply later_knows|]. destruct S as (_ & _ & Ho). destruct (H 0 ltac:(lia)) as (h & Eh & Hh & Ep). exists h. by rewrite Ep.
Qed.
End Values.

(** ** Reductions *)

(** The sizes [l], from dimension [i], where [f] says which are reduced. *)
Fixpoint reduced (f : Z -> bool) (keep_dims : bool) (i : Z) (l : list Z) : list Z :=
  match l with
  | [] => []
  | x :: l' => if f i then (if keep_dims then 1 :: reduced f keep_dims (i + 1) l' else reduced f keep_dims (i + 1) l') else x :: reduced f keep_dims (i + 1) l'
  end.
(** The dimensions that indices, some counted from the end, stand for. *)
Definition reduces (indices : list Z) (n i : Z) : bool := existsb (fun r => wrap_index r n =? i) indices.
Definition indices_ok (indices : list Z) (n : Z) : Prop := Forall (fun r => - n <= r < n) indices.
Lemma length_reduced f keep i l : (length (reduced f keep i l) <= length l)%nat.
Proof. revert i. induction l as [|x l IH]; intros i; cbn; [done|]. specialize (IH (i + 1)). repeat case_match; cbn; lia. Qed.
Lemma reduction_set_spec indices n S0 :
  match reduction_set indices n S0 with
  | inl s => ok s = false /\ ~ indices_ok indices n
  | inr true_indices => indices_ok indices n /\ forall i, bool_decide (i ∈ true_indices) = bool_decide (i ∈ S0) || reduces indices n i
  end.
Proof.
  revert S0. induction indices as [|r indices IH]; intros S0; cbn.
  - split; [by constructor|]. intros i. by rewrite orb_false_r.
  - destruct (Z.ltb_spec r (- n)) as [N|N1]; cbn; [split; [done|intros F; apply Forall_cons in F; lia]|].
    destruct (Z.leb_spec n r) as [N|N2]; cbn; [split; [done|intros F; apply Forall_cons in F; lia]|].
    specialize (IH ({[wrap_index r n]} ∪ S0)). destruct (reduction_set indices n _) as [s|X].
    + destruct IH as [E N]. split; [done|]. intros F. by apply Forall_cons in F as [_ F].
    + destruct IH as [F E]. split; [constructor; [lia|done]|]. intros i. rewrite E. cbn. destruct (Z.eqb_spec (wrap_index r n) i) as [->|Ni].
      * rewrite bool_decide_true by set_solver. by rewrite orb_true_r.
      * cbn. f_equal. apply bool_decide_ext. set_solver.
Qed.

Section Reductions.
Context {text : DefText} {laws : DefTextLaws text}.
Implicit Types (nd : NodeDef) (c : InferenceContext) (ow : option world).

Lemma known_shape_cases c h : known_shape c h = unknown_sizes \/ exists ks, known_shape c h = known_sizes ks.
Proof. unfold known_shape. destruct (_ =? _); [by left|right; by eexists]. Qed.
Lemma stage_input {A} nd i l p c ow (k : ShapeHandle -> SI (Status + A)) Q :
  stage nd c ow -> input_as c ow i l p -> (forall s, shape_as c ow s l p -> (p = unknown_sizes \/ exists ks, p = known_sizes ks) -> exec (k s) c ow Q) -> exec (let! s := input i in k s) c ow Q.
Proof. intros S [H <-] HQ. apply (exec_input i l); [done|]. intros s Hs Es. apply HQ; [done|]. rewrite <- Es. apply known_shape_cases. Qed.

(** Handles, the sizes that they stand for, and the values that are known. *)
Definition dims_as c ow (ds : list DimensionHandle) (l ks : list Z) : Prop := are_dims c ow ds l /\ map (known_value c) ds = ks.
Lemma dims_as_nil c ow : dims_as c ow [] [] [].
Proof. split; [apply are_dims_nil|done]. Qed.
Lemma dims_as_cons c ow d ds x l k ks : dim_is c ow d x k -> dims_as c ow ds l ks -> dims_as c ow (d :: ds) (x :: l) (k :: ks).
Proof. intros [D E] [F Es]. split; [by apply are_dims_cons|]. cbn. by rewrite E, Es. Qed.
Lemma dims_as_cast c ow ds l l' ks : dims_as c ow ds l ks -> within ow (fun _ => l = l') -> dims_as c ow ds l' ks.
Proof. intros [D E] W. split; [by eapply are_dims_eq|done]. Qed.
Lemma stage_MakeShape {A} nd ds l ks c ow (k : ShapeHandle -> SI (Status + A)) Q :
  stage nd c ow -> dims_as c ow ds l ks -> zlength ks <= kint32max -> (forall h c' ow', later c ow c' ow' -> shape_is c' ow' h l ks -> exec (k h) c' ow' Q) ->
  exec (let! h := MakeShape ds in k h) c ow Q.
Proof.
  intros S [D E] B HQ. assert (El : zlength ds = zlength ks) by (rewrite <- E; unfold zlength; by rewrite length_map).
  apply exec_let, (total_MakeShape ds l); [apply S|done|lia|]. intros h c' ow' L H R Ed. apply HQ; [done|].
  apply shape_is_dims; [done|rewrite R; unfold zlength, kUnknownRank; lia|]. rewrite Ed, <- E. eapply known_values_later; [done|apply D].
Qed.

Lemma drop_size_of l i : 0 <= i < zlength l -> drop (Z.to_nat i) l = size_of l i :: drop (Z.to_nat (i + 1)) l.
Proof.
  intros H. unfold size_of, norm. destruct (Z.ltb_spec i 0); [lia|]. destruct (zlookup_is_Some l i H) as [x Hx]. rewrite Hx. cbn.
  replace (Z.to_nat (i + 1)) with (S (Z.to_nat i)) by lia. apply drop_S. unfold zlookup in Hx. by destruct (_ <? 0).
Qed.
Lemma drop_known_of l i : 0 <= i < zlength l -> drop (Z.to_nat i) l = known_of l i :: drop (Z.to_nat (i + 1)) l.
Proof.
  intros H. unfold known_of, norm. destruct (Z.ltb_spec i 0); [lia|]. destruct (zlookup_is_Some l i H) as [x Hx]. rewrite Hx. cbn.
  replace (Z.to_nat (i + 1)) with (S (Z.to_nat i)) by lia. apply drop_S. unfold zlookup in Hx. by destruct (_ <? 0).
Qed.
Lemma total_reduced_dims nd s l ks (S0 : gset Z) f keep n i c ow (Q : list DimensionHandle -> InferenceContext -> option world -> Prop) :
  stage nd c ow -> shape_is c ow s l ks -> (forall j, bool_decide (j ∈ S0) = f j) -> 0 <= i -> i + Z.of_nat n = zlength ks -> within ow (fun _ => zlength l = zlength ks) ->
  (forall ds c' ow', later c ow c' ow' -> dims_as c' ow' ds (reduced f keep i (drop (Z.to_nat i) l)) (reduced f keep i (drop (Z.to_nat i) ks)) -> Q ds c' ow') ->
  exec_total (reduced_dims n i s S0 keep) c ow Q.
Proof.
  intros S. revert i c ow S Q. induction n as [|n IH]; intros i c ow S Q H Hf Hi Hn El HQ.
  { apply total_ret; [apply S|]. apply HQ; [apply later_refl, S|]. rewrite (drop_ge ks) by (unfold zlength in *; lia). split; [|done]. split; [done|].
    in_world. by rewrite drop_ge by (unfold zlength in *; lia). }
  assert (C : forall c' ow', later c ow c' ow' -> within ow' (fun _ => reduced f keep i (drop (Z.to_nat i) l) = reduced f keep i (size_of l i :: drop (Z.to_nat (i + 1)) l))).
  { intros c' ow' L. apply (within_later _ _ _ _ _ L). in_world. by rewrite drop_size_of by lia. }
  cbn [reduced_dims]. rewrite (drop_known_of ks) in HQ by lia. cbn [reduced] in HQ, C. rewrite Hf. destruct (f i) eqn:Ef; [destruct keep|].
  - apply total_let, (total_MakeDim_val 1 1); [apply S|done|in_world; split; [done|by right]|]. intros d c1 ow1 L D E.
    pose proof L as L1. assert (D1 : dim_is c1 ow1 d 1 1) by done. advance S L. apply total_let, IH; [done..|lia|lia|done|]. intros ds c2 ow2 L Ds. pose proof L as L2. advance S L.
    apply total_ret; [apply S|]. assert (L : later c ow c2 ow2) by (by eapply later_trans). apply HQ; [done|]. eapply dims_as_cast; [by apply dims_as_cons|]. by specialize (C _ _ L); in_world.
  - apply IH; [done..|lia|lia|done|]. intros ds c2 ow2 L Ds. apply HQ; [done|]. eapply dims_as_cast; [done|]. by specialize (C _ _ L); in_world.
  - destruct (read_Dim s i l ks c ow (stage_knows _ _ _ S) H) as (d & E & D); [unfold norm; destruct (Z.ltb_spec i 0); lia|]. eapply total_read; [done|].
    apply total_let, IH; [done..|lia|lia|done|]. intros ds c2 ow2 L Ds. pose proof L as L2. advance S L.
    apply total_ret; [apply S|]. apply HQ; [done|]. eapply dims_as_cast; [by apply dims_as_cons|]. by specialize (C _ _ L2); in_world.
Qed.

(** What is known of a reduction: [m] is the tensor of the indices, if it is known. *)
Definition known_reduction (keep_dims : bool) (p : PartialTensorShape.PartialTensorShape) (m : option Tensor) : PartialTensorShape.PartialTensorShape :=
  let ks := PartialTensorShape.dim_sizes_ p in
  if PartialTensorShape.is_unknown_ p then unknown_sizes
  else match m with
       | Some t => known_sizes (reduced (reduces (elements t) (zlength ks)) keep_dims 0 ks)
       | None => if keep_dims then known_sizes (replicate (length ks) kUnknownDim) else unknown_sizes
       end.
Lemma reduced_fits f keep i l : sizes_fit l -> sizes_fit (reduced f keep i l).
Proof.
  intros [F B]. split; [|pose proof (length_reduced f keep i l); unfold zlength in *; lia]. clear B. revert i. induction F as [|x l Hx F IH]; intros i; [by constructor|].
  cbn. repeat case_match; try constructor; done.
Qed.
Lemma length_reduced_keep f i l : length (reduced f true i l) = length l.
Proof. revert i. induction l as [|x l IH]; intros i; cbn; [done|]. case_match; cbn; by rewrite IH. Qed.
Lemma stage_unknown_rank {A} nd n l c ow (k : ShapeHandle -> SI (Status + A)) Q :
  stage nd c ow -> 0 <= n <= kint32max -> within ow (fun _ => Forall is_size l /\ zlength l = n) ->
  (forall h c' ow', later c ow c' ow' -> shape_is c' ow' h l (replicate (Z.to_nat n) kUnknownDim) -> exec (k h) c' ow' Q) ->
  exec (let! h := UnknownShapeOfRank n in k h) c ow Q.
Proof.
  intros S Hn W HQ. apply exec_let. unfold UnknownShapeOfRank. apply total_check; [lia|]. apply total_let, (total_unknown_dims _ l); [apply S|in_world; unfold zlength in *; split; [apply W|lia]|].
  intros ds c1 ow1 L D El E. apply (total_MakeShape ds l); [by eapply later_knows|done|unfold zlength; lia|]. intros h c2 ow2 L2 H R Ed. apply HQ; [by eapply later_trans|].
  apply shape_is_dims; [done|rewrite R; unfold zlength, kUnknownRank; lia|]. rewrite Ed, <- E. eapply known_values_later; [done|apply D].
Qed.
Lemma exec_ReductionShape nd c ow l0 l1 p0 p1 T m :
  let keep := bool_attr nd "keep_dims" in
  stage nd c ow -> input_as c ow 0 l0 p0 -> input_as c ow 1 l1 p1 -> tensor_as c ow 1 T m -> (forall t, m = Some t -> dtype t = DT_INT32) ->
  within ow (fun _ => zlength l1 <= 1 /\ attr_set (GetNodeAttr_bool nd (bytes_of "keep_dims")) /\ indices_ok (elements T) (zlength l0)) ->
  exec ReductionShape c ow (fun _ => output_is 0 (reduced (reduces (elements T) (zlength l0)) keep 0 l0) (fun p => p = known_reduction keep p0 m)).
Proof.
  intros keep S I0 I1 V Ht W. unfold ReductionShape. eapply stage_input; [done|exact I0|]. intros s Hs Hp.
  eapply stage_input; [done|exact I1|]. intros s1 Hs1 _. apply exec_try, (exec_WithRankAtMost s1 1 l1); [apply S|apply Hs1|in_world; apply W|]. intros h1 c1 ow1 L _ _ _.
  apply (tensor_as_later _ _ _ _ _ _ _ L) in V. advance S L.
  apply (stage_attr _ false nd); [done|apply bool_fails|in_world; apply W|]. intros _. fold (bool_attr nd "keep_dims"). fold keep.
  eapply stage_tensor; [done|exact V|]. intros c2 ow2 L Wt. advance S L. eapply exec_read; [apply RankKnown_eq; apply Hs|].
  rewrite <- is_unknown_known_shape, (proj2 Hs).
  assert (Fit : within ow2 (fun _ => sizes_fit (reduced (reduces (elements T) (zlength l0)) keep 0 l0))).
  { pose proof (shape_fits _ _ _ _ (stage_knows _ _ _ S) (proj1 Hs)). in_world. by apply reduced_fits. }
  destruct m as [t|].
  - destruct Hp as [->|(ks & ->)]; cbn [PartialTensorShape.is_unknown_ negb]; [by apply (exec_UnknownShapeFn nd)|].
    destruct (shape_is_known _ _ _ _ _ (stage_knows _ _ _ S) Hs) as (R & _ & _ & _ & Bm & Wl).
    assert (El : within ow2 (fun _ => zlength l0 = zlength ks)) by (in_world; unfold zlength; lia).
    eapply exec_read; [apply Rank_eq; apply Hs|]. rewrite R. eapply (exec_read _ _ (elements t)); [unfold flat; by rewrite (Ht t eq_refl)|].
    pose proof (reduction_set_spec (elements t) (zlength ks) ∅) as Sp. destruct (reduction_set (elements t) (zlength ks) ∅) as [e|S0].
    { apply exec_try. unfold lift. apply exec_fail; [apply S| |apply Sp]. destruct ow2; [|done]. exfalso. cbn [within] in *. subst T. rewrite El in W. destruct Sp as [_ N]. by apply N, W. }
    destruct Sp as [_ Sp]. apply exec_try, exec_ok; [apply S|]. apply exec_let.
    eapply (total_reduced_dims nd s l0 ks S0 (reduces (elements t) (zlength ks)) keep); [done|exact Hs| |lia|unfold zlength; lia|done|].
    { intros i. by rewrite Sp, bool_decide_false by set_solver. }
    intros ds c3 ow3 L Ds. change (Z.to_nat 0) with 0%nat in Ds. rewrite !drop_0 in Ds. advance S L. eapply stage_MakeShape; [done|exact Ds| |].
    { pose proof (length_reduced (reduces (elements t) (zlength ks)) keep 0 ks). unfold zlength in *. lia. }
    intros h c4 ow4 L H. advance S L. eapply (stage_set nd); [done|eapply shape_is_cast; [exact H|]|done]. in_world. subst T. by rewrite El.
  - destruct keep; cbn [andb]; [|apply (exec_UnknownShapeFn nd); [done..|]; by destruct Hp as [->|(ks & ->)]].
    destruct Hp as [->|(ks & ->)]; cbn [PartialTensorShape.is_unknown_ negb]; [by apply (exec_UnknownShapeFn nd)|].
    destruct (shape_is_known _ _ _ _ _ (stage_knows _ _ _ S) Hs) as (R & _ & _ & _ & Bm & Wl).
    eapply exec_read; [apply Rank_eq; apply Hs|]. rewrite R. eapply (stage_unknown_rank nd _ (reduced (reduces (elements T) (zlength l0)) true 0 l0)); [done|unfold zlength in *; lia| |].
    { in_world. split; [apply Fit|]. unfold zlength in *. rewrite length_reduced_keep. lia. }
    intros h c4 ow4 L H. advance S L. eapply (stage_set nd); [done|exact H|]. cbn. unfold zlength. by rewrite Nat2Z.id.
Qed.

(** [ReduceJoin]: no indices stand for all dimensions, none comes twice, and a
    reduced dimension is not empty. *)
Definition distinct (indices : list Z) (n : Z) : Prop := NoDup (map (fun r => wrap_index r n) indices).
Definition joins (indices : list Z) (n i : Z) : bool := bool_decide (indices = []) || reduces indices n i.
Lemma reduces_elem indices n i : reduces indices n i = true <-> i ∈ map (fun r => wrap_index r n) indices.
Proof.
  unfold reduces. rewrite existsb_exists. split.
  - intros (r & Hr & <-%Z.eqb_eq). apply list_elem_of_fmap. exists r. split; [done|by apply list_elem_of_In].
  - intros (r & -> & Hr)%list_elem_of_fmap. exists r. split; [by apply list_elem_of_In|by apply Z.eqb_eq].
Qed.
Lemma join_set_spec indices n S0 :
  match join_set indices n S0 with
  | inl s => ok s = false /\ (indices_ok indices n -> distinct indices n -> exists r, r ∈ indices /\ wrap_index r n ∈ S0)
  | inr true_indices => indices_ok indices n /\ forall i, bool_decide (i ∈ true_indices) = bool_decide (i ∈ S0) || reduces indices n i
  end.
Proof.
  revert S0. induction indices as [|r indices IH]; intros S0; cbn.
  - split; [by constructor|]. intros i. by rewrite orb_false_r.
  - destruct (Z.ltb_spec r (- n)) as [N|N1]; cbn; [split; [done|intros F; apply Forall_cons in F; lia]|].
    destruct (Z.leb_spec n r) as [N|N2]; cbn; [split; [done|intros F; apply Forall_cons in F; lia]|].
    case_bool_decide as D; [split; [done|]; intros _ _; exists r; split; [by left|done]|].
    specialize (IH ({[wrap_index r n]} ∪ S0)). destruct (join_set indices n _) as [s|X].
    + destruct IH as [E N]. split; [done|]. intros F Nd. apply Forall_cons in F as [_ F]. unfold distinct in Nd. cbn in Nd. apply NoDup_cons in Nd as [Nr Nd].
      destruct (N F Nd) as (r' & Hr & Hw). exists r'. split; [by right|]. apply elem_of_union in Hw as [Hw|Hw]; [|done]. apply elem_of_singleton in Hw.
      destruct Nr. apply list_elem_of_fmap. by exists r'.
    + destruct IH as [F E]. split; [constructor; [lia|done]|]. intros i. rewrite E. cbn. destruct (Z.eqb_spec (wrap_index r n) i) as [->|Ni].
      * rewrite bool_decide_true by set_solver. by rewrite orb_true_r.
      * cbn. f_equal. apply bool_decide_ext. set_solver.
Qed.
Lemma exec_joined_dims nd s l ks (S0 : gset Z) all f keep n i c ow (Q : list DimensionHandle -> InferenceContext -> option world -> Prop) :
  stage nd c ow -> shape_is c ow s l ks -> (forall j, bool_decide (j ∈ S0) = f j) -> 0 <= i -> i + Z.of_nat n = zlength ks ->
  within ow (fun _ => zlength l = zlength ks /\ forall j, 0 <= j < zlength l -> f j = true -> size_of l j <> 0) ->
  (forall ds c' ow', later c ow c' ow' ->
     dims_as c' ow' ds (reduced (fun j => all || f j) keep i (drop (Z.to_nat i) l)) (reduced (fun j => all || f j) keep i (drop (Z.to_nat i) ks)) -> Q ds c' ow') ->
  exec (joined_dims n i s S0 all keep) c ow Q.
Proof.
  intros S. revert i c ow S Q. induction n as [|n IH]; intros i c ow S Q H Hf Hi Hn El HQ.
  { apply exec_ok; [apply S|]. apply HQ; [apply later_refl, S|]. rewrite (drop_ge ks) by (unfold zlength in *; lia). split; [|done]. split; [done|].
    in_world. by rewrite drop_ge by (unfold zlength in *; lia). }
  set (g := fun j => all || f j) in *.
  assert (C : forall c' ow', later c ow c' ow' -> within ow' (fun _ => reduced g keep i (drop (Z.to_nat i) l) = reduced g keep i (size_of l i :: drop (Z.to_nat (i + 1)) l))).
  { intros c' ow' L. apply (within_later _ _ _ _ _ L). in_world. by rewrite drop_size_of by lia. }
  cbn [joined_dims]. rewrite (drop_known_of ks) in HQ by lia. cbn [reduced] in HQ, C. rewrite Hf. change (all || f i) with (g i).
  destruct (read_Dim s i l ks c ow (stage_knows _ _ _ S) H) as (d & E & D); [unfold norm; destruct (Z.ltb_spec i 0); lia|].
  destruct (g i) eqn:Eg.
  - eapply (exec_read _ _ (f i && (known_of ks i =? 0))).
    { destruct (f i); [|done]. rewrite (st_bind_eq _ _ _ _ _ E). rewrite (st_bind_eq _ _ _ _ _ (Value_eq c (of_dim d) (dim_doc_in _ _ _ _ (proj1 D)))). cbn. by rewrite (proj2 D). }
    destruct (f i && (known_of ks i =? 0)) eqn:Ez.
    { apply exec_fail; [apply S| |done]. pose proof (dim_is_range _ _ _ _ _ (stage_knows _ _ _ S) D) as [_ R]. destruct ow; [|done]. exfalso. cbn [within] in *.
      apply andb_true_iff in Ez as [Ef Ez%Z.eqb_eq]. destruct El as [El Nz]. apply (Nz i); [lia|done|]. unfold kUnknownDim in R. lia. }
    destruct keep.
    + apply exec_let, (total_MakeDim_val 1 1); [apply S|done|in_world; split; [done|by right]|]. intros d1 c1 ow1 L D1 E1.
      pose proof L as L1. assert (D2 : dim_is c1 ow1 d1 1 1) by done. clear D. advance S L. apply exec_try, IH; [done..|lia|lia|done|]. intros ds c2 ow2 L Ds. pose proof L as L2. advance S L.
      apply exec_ok; [apply S|]. assert (L : later c ow c2 ow2) by (by eapply later_trans). apply HQ; [done|]. eapply dims_as_cast; [by apply dims_as_cons|]. by specialize (C _ _ L); in_world.
    + apply IH; [done..|lia|lia|done|]. intros ds c2 ow2 L Ds. apply HQ; [done|]. eapply dims_as_cast; [done|]. by specialize (C _ _ L); in_world.
  - eapply exec_read; [done|]. apply exec_try, IH; [done..|lia|lia|done|]. intros ds c2 ow2 L Ds. pose proof L as L2. advance S L.
    apply exec_ok; [apply S|]. apply HQ; [done|]. eapply dims_as_cast; [by apply dims_as_cons|]. by specialize (C _ _ L2); in_world.
Qed.
Definition known_join (keep_dims : bool) (p : PartialTensorShape.PartialTensorShape) (m : option Tensor) : PartialTensorShape.PartialTensorShape :=
  let ks := PartialTensorShape.dim_sizes_ p in
  if PartialTensorShape.is_unknown_ p then unknown_sizes
  else match m with Some t => known_sizes (reduced (joins (elements t) (zlength ks)) keep_dims 0 ks) | None => unknown_sizes end.
Lemma exec_ReductionShapeForReduceJoin nd c ow l0 l1 p0 p1 T m :
  let keep := bool_attr nd "keep_dims" in
  stage nd c ow -> input_as c ow 0 l0 p0 -> input_as c ow 1 l1 p1 -> tensor_as c ow 1 T m -> (forall t, m = Some t -> dtype t = DT_INT32) ->
  within ow (fun _ => zlength l1 <= 1 /\ attr_set (GetNodeAttr_bool nd (bytes_of "keep_dims")) /\ indices_ok (elements T) (zlength l0) /\
    distinct (elements T) (zlength l0) /\ forall j, 0 <= j < zlength l0 -> reduces (elements T) (zlength l0) j = true -> size_of l0 j <> 0) ->
  exec ReductionShapeForReduceJoin c ow (fun _ => output_is 0 (reduced (joins (elements T) (zlength l0)) keep 0 l0) (fun p => p = known_join keep p0 m)).
Proof.
  intros keep S I0 I1 V Ht W. unfold ReductionShapeForReduceJoin. eapply stage_input; [done|exact I0|]. intros s Hs Hp.
  eapply stage_input; [done|exact I1|]. intros s1 Hs1 _. apply exec_try, (exec_WithRankAtMost s1 1 l1); [apply S|apply Hs1|in_world; apply W|]. intros h1 c1 ow1 L _ _ _.
  apply (tensor_as_later _ _ _ _ _ _ _ L) in V. advance S L.
  apply (stage_attr _ false nd); [done|apply bool_fails|in_world; apply W|]. intros _. fold (bool_attr nd "keep_dims"). fold keep.
  eapply stage_tensor; [done|exact V|]. intros c2 ow2 L Wt. advance S L. eapply exec_read; [apply RankKnown_eq; apply Hs|].
  rewrite <- is_unknown_known_shape, (proj2 Hs).
  assert (Fit : within ow2 (fun _ => sizes_fit (reduced (joins (elements T) (zlength l0)) keep 0 l0))).
  { pose proof (shape_fits _ _ _ _ (stage_knows _ _ _ S) (proj1 Hs)). in_world. by apply reduced_fits. }
  destruct m as [t|]; [|apply (exec_UnknownShapeFn nd); [done..|]; by destruct Hp as [->|(ks & ->)]].
  destruct Hp as [->|(ks & ->)]; cbn [PartialTensorShape.is_unknown_ negb]; [by apply (exec_UnknownShapeFn nd)|].
  destruct (shape_is_known _ _ _ _ _ (stage_knows _ _ _ S) Hs) as (R & _ & _ & _ & Bm & Wl).
  assert (El : within ow2 (fun _ => zlength l0 = zlength ks)) by (in_world; unfold zlength; lia).
  eapply exec_read; [apply Rank_eq; apply Hs|]. rewrite R. eapply (exec_read _ _ (elements t)); [unfold flat; by rewrite (Ht t eq_refl)|].
  pose proof (join_set_spec (elements t) (zlength ks) ∅) as Sp. destruct (join_set (elements t) (zlength ks) ∅) as [e|S0].
  { apply exec_try. unfold lift. apply exec_fail; [apply S| |apply Sp]. destruct ow2; [|done]. exfalso. cbn [within] in *. subst T. rewrite El in W.
    destruct Sp as [_ N]. destruct N as (r & _ & Hr); [apply W..|]. set_solver. }
  destruct Sp as [_ Sp]. apply exec_try, exec_ok; [apply S|]. apply exec_try.
  eapply (exec_joined_dims nd s l0 ks S0 _ (reduces (elements t) (zlength ks))); [done|exact Hs| |lia|unfold zlength; lia| |].
  { intros i. by rewrite Sp, bool_decide_false by set_solver. }
  { in_world. split; [done|]. subst T. rewrite <- El. apply W. }
  intros ds c3 ow3 L Ds. change (Z.to_nat 0) with 0%nat in Ds. rewrite !drop_0 in Ds. advance S L. fold (joins (elements t) (zlength ks)) in Ds.
  eapply stage_MakeShape; [done|exact Ds| |].
  { pose proof (length_reduced (joins (elements t) (zlength ks)) keep 0 ks). unfold zlength in *. lia. }
  intros h c4 ow4 L H. advance S L. eapply (stage_set nd); [done|eapply shape_is_cast; [exact H|]|done]. in_world. subst T. by rewrite El.
Qed.
End Reductions.
End ShapeFnsArrays.
