(* ===== verification/ShapeFnsConcat.v ===== *)
(** * Shape functions: broadcasting and concatenation

    What is known of the result of broadcasting two shapes, where a size that is
    not known is -1; the sizes that are inferred for a concatenation, all of them
    known if those of the inputs and the axis are. *)
From S2P Require Import Prelude Status Numbers DataTypes TensorShape PartialTensorShape Bcast EdgeSet Graph ShapeInference ShapeInferenceSpec ShapeInferenceFacts ShapeFns ShapeFnsFacts ShapeFnsArrays.
From stdpp Require Import gmap.
Open Scope Z_scope.

Module ShapeFnsBroadcast.
Import Status Numbers Attrs ShapeInference ShapeInferenceSpec ShapeInferenceFacts ShapeFns ShapeFnsFacts ShapeFnsWindows ShapeFnsArrays.

(** ** The broadcasting rule, by dimensions *)

Definition bdim (x y : Z) : Z := if (x =? y) || (y =? 1) then x else y.
Definition bdim_ok (x y : Z) : Prop := x = y \/ y = 1 \/ x = 1.
(** What is known of the dimension for two. *)
Definition known_bdim (kx ky : Z) : Z :=
  if (kx =? kUnknownDim) || (ky =? kUnknownDim) then
    if 1 <? kx then kx else if 1 <? ky then ky else if kx =? 1 then ky else if ky =? 1 then kx else kUnknownDim
  else if kx =? 1 then ky else kx.
(** Dimension [j] of [n], of a shape whose missing dimensions are 1. *)
Definition padded (f : list Z -> Z -> Z) (l : list Z) (n j : Z) : Z := if j <? n - zlength l then 1 else f l (j - (n - zlength l)).
Definition broadcasted (b : Z -> Z -> Z) (f : list Z -> Z -> Z) (l k : list Z) : list Z :=
  let n := Z.max (zlength l) (zlength k) in map (fun j => b (padded f l n j) (padded f k n j)) (seqZ 0 n).

Lemma shape_rule_lookup xs ys os : Bcast.shape_rule xs ys = Some os ->
  length os = Nat.max (length xs) (length ys) /\
  forall k, (k < length os)%nat -> os !! k = Some (bdim (default 1 (xs !! k)) (default 1 (ys !! k))) /\ bdim_ok (default 1 (xs !! k)) (default 1 (ys !! k)).
Proof.
  revert ys os. induction xs as [|x xs IH]; intros ys os.
  { cbn. intros [= <-]. split; [done|]. intros k Hk. rewrite lookup_nil. cbn. destruct (lookup_lt_is_Some_2 ys k Hk) as [y ->]. cbn. unfold bdim, bdim_ok.
    destruct (Z.eqb_spec 1 y); cbn; [by subst; auto|]. destruct (Z.eqb_spec y 1); [lia|]. auto. }
  destruct ys as [|y ys].
  { cbn. intros [= <-]. split; [done|]. intros k Hk. destruct (lookup_lt_is_Some_2 (x :: xs) k Hk) as [z Hz]. cbn in Hz |- *. rewrite Hz. cbn. unfold bdim, bdim_ok. rewrite orb_true_r. auto. }
  cbn. destruct (Bcast.shape_rule xs ys) as [os'|] eqn:E; [|done]. cbn. destruct (IH ys os' E) as [El H]. intros Hos.
  assert (D : exists z, os = z :: os' /\ z = bdim x y /\ bdim_ok x y).
  { unfold bdim, bdim_ok. destruct (Z.eqb_spec x y), (Z.eqb_spec y 1), (Z.eqb_spec x 1); cbn in *; try done; injection Hos as <-; eexists; split_and!; try done; auto. }
  destruct D as (z & -> & -> & Hz). split; [cbn; lia|]. intros [|k] Hk; [done|]. cbn in *. apply H. lia.
Qed.
Lemma padded_rev l n j : zlength l <= n -> 0 <= j < n -> padded size_of l n j = default 1 (rev l !! Z.to_nat (n - 1 - j)).
Proof.
  intros Hl Hj. unfold padded. rewrite rev_alt. change (rev_append l []) with (reverse l). destruct (Z.ltb_spec j (n - zlength l)) as [H|H].
  - rewrite lookup_ge_None_2; [done|]. rewrite length_reverse. unfold zlength in *. lia.
  - rewrite reverse_lookup by (unfold zlength in *; lia). unfold size_of, norm. destruct (Z.ltb_spec (j - (n - zlength l)) 0); [lia|].
    unfold zlookup. destruct (Z.ltb_spec (j - (n - zlength l)) 0); [lia|]. replace (length l - S (Z.to_nat (n - 1 - j)))%nat with (Z.to_nat (j - (n - zlength l))) by (unfold zlength in *; lia).
    by destruct (lookup_lt_is_Some_2 l (Z.to_nat (j - (n - zlength l)))) as [x ->]; [unfold zlength in *; lia|].
Qed.
(** The rule of [Bcast] in these terms. *)
Lemma numpy_shape_dims l k o : Bcast.numpy_shape l k = Some o ->
  o = broadcasted bdim size_of l k /\
  forall j, 0 <= j < Z.max (zlength l) (zlength k) -> bdim_ok (padded size_of l (Z.max (zlength l) (zlength k)) j) (padded size_of k (Z.max (zlength l) (zlength k)) j).
Proof.
  unfold Bcast.numpy_shape. destruct (Bcast.shape_rule (rev l) (rev k)) as [os|] eqn:E; [|done]. cbn. intros [= <-].
  apply shape_rule_lookup in E as [El H]. rewrite !length_rev in El. set (n := Z.max (zlength l) (zlength k)).
  assert (En : Z.of_nat (length os) = n) by (unfold n, zlength; lia).
  assert (P : forall j, 0 <= j < n -> padded size_of l n j = default 1 (rev l !! Z.to_nat (n - 1 - j)) /\ padded size_of k n j = default 1 (rev k !! Z.to_nat (n - 1 - j))).
  { intros j Hj. split; apply padded_rev; unfold n in *; lia. }
  split.
  - apply list_eq. intros q. rewrite rev_alt. change (rev_append os []) with (reverse os). unfold broadcasted. fold n.
    change (map ?f ?x) with (fmap (M := list) f x). rewrite list_lookup_fmap. destruct (decide (q < length os)%nat) as [Hq|Hq].
    + rewrite reverse_lookup by done. rewrite (proj1 (H (length os - S q)%nat ltac:(lia))). rewrite lookup_seqZ_lt by lia. rewrite Z.add_0_l. cbn [fmap option_fmap option_map].
      destruct (P (Z.of_nat q) ltac:(lia)) as [-> ->]. by replace (Z.to_nat (n - 1 - Z.of_nat q)) with (length os - S q)%nat by lia.
    + rewrite lookup_seqZ_ge by lia. cbn. apply lookup_ge_None_2. rewrite length_reverse. lia.
  - intros j Hj. destruct (P j Hj) as [-> ->]. apply (H (Z.to_nat (n - 1 - j))). lia.
Qed.

Section Broadcasting.
Context {text : DefText} {laws : DefTextLaws text}.
Implicit Types (nd : NodeDef) (c : InferenceContext) (ow : option world).

Lemma bdim_x x y : bdim_ok x y -> x <> 1 \/ y = 1 -> x = bdim x y.
Proof. unfold bdim, bdim_ok. intros H1 H2. destruct (Z.eqb_spec x y), (Z.eqb_spec y 1); cbn; lia. Qed.
Lemma bdim_y x y : bdim_ok x y -> x = 1 \/ y <> 1 -> y = bdim x y.
Proof. unfold bdim, bdim_ok. intros H1 H2. destruct (Z.eqb_spec x y), (Z.eqb_spec y 1); cbn; lia. Qed.
Lemma bdim_size x y : is_size x -> is_size y -> is_size (bdim x y).
Proof. unfold bdim. by destruct (_ || _). Qed.
Lemma exec_last_dim (m : SI (Status + DimensionHandle)) c ow Q : exec (let? s := m in ok_with s) c ow Q -> exec m c ow Q.
Proof. unfold exec, wp, try_bind, st_bind. destruct (m c) as [[[s|h] c']| |]; try done. Qed.
Ltac known_cases := match goal with Rx : is_size ?x /\ _, Ry : is_size ?y /\ _ |- _ => destruct Rx as [_ Rx], Ry as [_ Ry]; unfold kUnknownDim in *; lia end.
Lemma exec_broadcast_dim nd dx dy one x y kx ky c ow (Q : DimensionHandle -> InferenceContext -> option world -> Prop) :
  stage nd c ow -> dim_is c ow dx x kx -> dim_is c ow dy y ky -> (one = true -> ky = 1) -> within ow (fun _ => bdim_ok x y) ->
  (forall h c' ow', later c ow c' ow' -> dim_is c' ow' h (bdim x y) (known_bdim kx ky) -> Q h c' ow') -> exec (broadcast_dim dx dy one) c ow Q.
Proof.
  intros S Dx Dy H1 W HQ. unfold broadcast_dim.
  do 2 (eapply exec_read; [apply ValueKnown_eq; eapply dim_doc_in; first [apply Dx|apply Dy]|]).
  do 2 (eapply exec_read; [apply Value_eq; eapply dim_doc_in; first [apply Dx|apply Dy]|]). cbn [known_doc]. rewrite (proj2 Dx), (proj2 Dy).
  destruct (dim_is_range _ _ _ _ _ (stage_knows _ _ _ S) Dx) as [Vx Rx], (dim_is_range _ _ _ _ _ (stage_knows _ _ _ S) Dy) as [Vy Ry].
  rewrite !negb_involutive. unfold known_bdim in HQ.
  assert (Take : forall d z k, dim_is c ow d z k -> within ow (fun _ => z = bdim x y) -> (forall h c' ow', later c ow c' ow' -> dim_is c' ow' h (bdim x y) k -> Q h c' ow') ->
    exec (ok_with d) c ow Q).
  { intros d z k D E HQ'. apply exec_ok; [apply S|]. apply HQ'; [apply later_refl, S|]. by eapply dim_is_cast. }
  destruct ((kx =? kUnknownDim) || (ky =? kUnknownDim)) eqn:U.
  - assert (U' : kx = -1 \/ ky = -1) by (by apply orb_true_iff in U as [U%Z.eqb_eq|U%Z.eqb_eq]; [left|right]). clear U.
    destruct (Z.ltb_spec 1 kx); [by eapply Take; [exact Dx|in_world; apply bdim_x; [done|by known_cases]|]|]. destruct (Z.ltb_spec 1 ky); [by eapply Take; [exact Dy|in_world; apply bdim_y; [done|by known_cases]|]|].
    destruct (Z.eqb_spec kx 1); [by eapply Take; [exact Dy|in_world; apply bdim_y; [done|by known_cases]|]|]. destruct (Z.eqb_spec ky 1); [by eapply Take; [exact Dx|in_world; apply bdim_x; [done|by known_cases]|]|].
    apply exec_let, (total_UnknownDim (bdim x y)); [apply S|in_world; apply bdim_size; [apply Rx|apply Ry]|]. intros h c' ow' L D E. apply exec_ok; [by eapply later_knows|]. by apply HQ.
  - apply orb_false_iff in U as [U1%Z.eqb_neq U2%Z.eqb_neq]. unfold kUnknownDim in *. destruct (Z.eqb_spec kx 1) as [E1|N1]; cbn [orb andb].
    + destruct one; cbn [negb]; [specialize (H1 eq_refl)|by eapply Take; [exact Dy|in_world; apply bdim_y; [done|by known_cases]|]].
      eapply exec_check; [by apply Z.eqb_eq|]. eapply Take; [exact Dx|in_world; apply bdim_x; [done|by known_cases]|]. intros. apply HQ; [done|]. by rewrite H1, <- E1.
    + destruct (Z.eqb_spec ky 1) as [E2|N2].
      * eapply exec_check; [done|]. by eapply Take; [exact Dx|in_world; apply bdim_x; [done|by known_cases]|].
      * apply (exec_last_dim). eapply (stage_Merge nd); [done|exact Dx|exact Dy|in_world; unfold bdim_ok in W; by known_cases|].
        intros h v D Ev. unfold merge_value, kUnknownDim in Ev. rewrite (proj2 (Z.eqb_neq _ _) U1), (proj2 (Z.eqb_neq _ _) U2) in Ev. case_match; [|done]. injection Ev as <-.
        by eapply Take; [exact D|in_world; apply bdim_x; [done|by known_cases]|].
Qed.
(** One dimension of an operand, which may be missing. *)
Lemma read_padded s one l ks n i c ow :
  knows c ow -> shape_is c ow s l ks -> within ow (fun _ => zlength l = zlength ks) -> zlength ks <= n -> 0 <= i < n -> (zlength ks < n -> dim_is c ow one 1 1) ->
  exists d, (if i <? n - zlength ks then st_ret one else Dim s (i - (n - zlength ks))) c = Done (d, c) /\ dim_is c ow d (padded size_of l n i) (padded known_of ks n i).
Proof.
  intros K H El Hn Hi Ho. unfold padded at 2. destruct (Z.ltb_spec i (n - zlength ks)) as [Hb|Hb].
  - exists one. split; [done|]. eapply dim_is_cast; [apply Ho; lia|]. in_world. unfold padded. rewrite El. by destruct (Z.ltb_spec i (n - zlength ks)); [|lia].
  - destruct (read_Dim s (i - (n - zlength ks)) l ks c ow K H) as (d & E & D); [unfold norm; destruct (Z.ltb_spec (i - (n - zlength ks)) 0); lia|].
    exists d. split; [done|]. eapply dim_is_cast; [exact D|]. in_world. unfold padded. rewrite El. by destruct (Z.ltb_spec i (n - zlength ks)); [lia|].
Qed.
Lemma exec_broadcast_dims nd sx sy one l k ks js n m i c ow (Q : list DimensionHandle -> InferenceContext -> option world -> Prop) :
  stage nd c ow -> shape_is c ow sx l ks -> shape_is c ow sy k js -> (zlength ks <> zlength js -> dim_is c ow one 1 1) -> n = Z.max (zlength ks) (zlength js) ->
  within ow (fun _ => zlength l = zlength ks) -> within ow (fun _ => zlength k = zlength js) -> 0 <= i -> i + Z.of_nat m = n ->
  within ow (fun _ => forall j, 0 <= j < n -> bdim_ok (padded size_of l n j) (padded size_of k n j)) ->
  (forall ds c' ow', later c ow c' ow' ->
     dims_as c' ow' ds (map (fun j => bdim (padded size_of l n j) (padded size_of k n j)) (seqZ i (Z.of_nat m)))
       (map (fun j => known_bdim (padded known_of ks n j) (padded known_of js n j)) (seqZ i (Z.of_nat m))) -> Q ds c' ow') ->
  exec (broadcast_dims m i sx sy (zlength ks) (zlength js) n one) c ow Q.
Proof.
  intros S. revert i c ow S Q. induction m as [|m IH]; intros i c ow S Q Hx Hy Ho En Lx Ly Hi Hm W HQ.
  { apply exec_ok; [apply S|]. apply HQ; [apply later_refl, S|]. apply dims_as_nil. }
  cbn [broadcast_dims]. rewrite (seqZ_cons i (Z.of_nat (Datatypes.S m))) in HQ by lia. replace (Z.pred (Z.of_nat (Datatypes.S m))) with (Z.of_nat m) in HQ by lia.
  replace (Z.succ i) with (i + 1) in HQ by lia. cbn [map] in HQ.
  destruct (read_padded sx one l ks n i c ow (stage_knows _ _ _ S) Hx Lx ltac:(lia) ltac:(lia) ltac:(intros; apply Ho; lia)) as (dx & Ex & Dx).
  destruct (read_padded sy one k js n i c ow (stage_knows _ _ _ S) Hy Ly ltac:(lia) ltac:(lia) ltac:(intros; apply Ho; lia)) as (dy & Ey & Dy).
  eapply exec_read; [exact Ex|]. eapply exec_read; [exact Ey|]. apply exec_try. eapply exec_broadcast_dim; [done|exact Dx|exact Dy| | |].
  { intros Hb. unfold padded. by rewrite Hb. }
  { in_world. apply W. lia. }
  intros d c1 ow1 L D. pose proof L as L1. clear Dx Dy. assert (Ho1 : zlength ks <> zlength js -> dim_is c1 ow1 one 1 1) by (intros N; by eapply dim_is_later, Ho). clear Ho. advance S L.
  apply exec_try, IH; [done..|lia|lia|done|]. intros ds c2 ow2 L Ds. pose proof L as L2. advance S L. apply exec_ok; [apply S|]. apply HQ; [by eapply later_trans|]. by apply dims_as_cons.
Qed.
Definition broadcast_known (p q : PartialTensorShape.PartialTensorShape) : PartialTensorShape.PartialTensorShape :=
  if PartialTensorShape.is_unknown_ p || PartialTensorShape.is_unknown_ q then unknown_sizes
  else known_sizes (broadcasted known_bdim known_of (PartialTensorShape.dim_sizes_ p) (PartialTensorShape.dim_sizes_ q)).
Lemma length_broadcasted b f l k : zlength (broadcasted b f l k) = Z.max (zlength l) (zlength k).
Proof. unfold broadcasted, zlength. rewrite length_map, length_seqZ. lia. Qed.
Lemma exec_BroadcastBinaryOpShapeFn nd c ow l0 l1 p0 p1 o :
  stage nd c ow -> input_as c ow 0 l0 p0 -> input_as c ow 1 l1 p1 -> within ow (fun _ => Bcast.numpy_shape l0 l1 = Some o /\ sizes_fit o) ->
  exec BroadcastBinaryOpShapeFn c ow (fun _ => output_is 0 o (fun p => p = broadcast_known p0 p1)).
Proof.
  intros S I0 I1 W. unfold BroadcastBinaryOpShapeFn. eapply stage_input; [done|exact I0|]. intros sx Hx Px. eapply stage_input; [done|exact I1|]. intros sy Hy Py.
  eapply exec_read; [apply RankKnown_eq; apply Hx|]. eapply exec_read; [apply RankKnown_eq; apply Hy|].
  rewrite <- !is_unknown_known_shape, (proj2 Hx), (proj2 Hy), !negb_involutive.
  destruct Px as [->|(ks & ->)]; cbn [PartialTensorShape.is_unknown_ orb]; [apply (stage_unknown nd); [done|in_world; apply W|done]|].
  destruct Py as [->|(js & ->)]; cbn [PartialTensorShape.is_unknown_ orb]; [apply (stage_unknown nd); [done|in_world; apply W|done]|].
  destruct (shape_is_known _ _ _ _ _ (stage_knows _ _ _ S) Hx) as (Rx & _ & _ & _ & Bx & Wx), (shape_is_known _ _ _ _ _ (stage_knows _ _ _ S) Hy) as (Ry & _ & _ & _ & By_ & Wy).
  eapply exec_read; [apply Rank_eq; apply Hx|]. eapply exec_read; [apply Rank_eq; apply Hy|]. rewrite Rx, Ry.
  assert (Lx : within ow (fun _ => zlength l0 = zlength ks)) by (in_world; unfold zlength; lia).
  assert (Ly : within ow (fun _ => zlength l1 = zlength js)) by (in_world; unfold zlength; lia). clear Wx Wy Rx Ry.
  set (n := Z.max (zlength ks) (zlength js)).
  apply exec_let. eapply (total_mono _ _ _ (fun one c' ow' => zlength ks <> zlength js -> dim_is c' ow' one 1 1)).
  { destruct (Z.eqb_spec (zlength ks) (zlength js)); cbn [negb]; [by apply total_ret; [apply S|]|].
    apply (total_MakeDim_val 1 1); [apply S|done|in_world; split; [done|by right]|]. by intros d c1 ow1 L D E. }
  intros one c1 ow1 L Ho. advance S L. apply exec_try.
  eapply (exec_broadcast_dims nd sx sy one l0 l1 ks js n _ 0); [done..|lia|unfold n, zlength; lia| |].
  { in_world. destruct W as [W _]. apply numpy_shape_dims in W as [_ W]. by rewrite Lx, Ly in W. }
  intros ds c2 ow2 L Ds. advance S L. rewrite Z2Nat.id in Ds by (unfold n, zlength; lia).
  eapply stage_MakeShape; [done|exact Ds| |].
  { fold (broadcasted known_bdim known_of ks js). unfold zlength in *. rewrite length_map, length_seqZ. lia. }
  intros h c3 ow3 L H. advance S L. eapply (stage_set nd); [done|eapply shape_is_cast; [exact H|]|done].
  in_world. destruct W as [W _]. apply numpy_shape_dims in W as [-> _]. unfold broadcasted. by rewrite Lx, Ly.
Qed.
End Broadcasting.
End ShapeFnsBroadcast.

Module ShapeFnsConcat.
Import Status Numbers Attrs ShapeInference ShapeInferenceSpec ShapeInferenceFacts ShapeFns ShapeFnsFacts ShapeFnsWindows ShapeFnsArrays.

(** A shape of at most [B] known dimensions; in a world where [F] holds all of
    it is known. *)
Definition piece (F : Prop) (B : Z) (c : InferenceContext) (ow : option world) (h : ShapeHandle) (l : list Z) : Prop :=
  is_shape c ow h l /\ zlength (PartialTensorShape.dim_sizes_ (known_shape c h)) <= B /\ within ow (fun _ => F -> known_shape c h = known_sizes l).
Definition dim_piece (F : Prop) (c : InferenceContext) (ow : option world) (h : DimensionHandle) (x : Z) : Prop :=
  is_dim c ow h x /\ within ow (fun _ => F -> known_value c h = x).

Section Pieces.
Context {text : DefText}.
Implicit Types (nd : NodeDef) (c : InferenceContext) (ow : option world) (F : Prop).

Lemma piece_later F B c ow c' ow' h l : knows c ow -> later c ow c' ow' -> piece F B c ow h l -> piece F B c' ow' h l.
Proof.
  intros K L (H & Hb & W). split; [by eapply is_shape_later|]. rewrite (known_shape_later c ow c' ow' h l) by done. split; [done|]. by eapply within_later.
Qed.
Lemma dim_piece_later F c ow c' ow' h x : later c ow c' ow' -> dim_piece F c ow h x -> dim_piece F c' ow' h x.
Proof. intros L [H W]. split; [by eapply is_dim_later|]. rewrite (known_value_later c ow c' ow') by (done || apply H). by eapply within_later. Qed.
Lemma piece_cast F B c ow h l l' : piece F B c ow h l -> within ow (fun _ => l = l') -> piece F B c ow h l'.
Proof. intros ([H W0] & Hb & W) El. split; [|split; [done|]]; [split; [done|]|]; destruct ow; cbn in *; subst; auto. Qed.
Lemma known_shape_dims c ow h l : knows c ow -> is_shape c ow h l -> rank_at c h <> kUnknownRank ->
  rank_at c h = zlength (PartialTensorShape.dim_sizes_ (known_shape c h)) /\ known_shape c h = known_sizes (map (known_value c) (dims_at c h)).
Proof.
  intros K H U. destruct (known_dims c ow h l K H U) as (_ & R & _). unfold known_shape. destruct (Z.eqb_spec (rank_at c h) kUnknownRank); [done|].
  split; [|done]. cbn. unfold zlength in *. by rewrite length_map.
Qed.
Lemma known_shape_unknown c h : rank_at c h = kUnknownRank -> known_shape c h = unknown_sizes.
Proof. intros U. unfold known_shape. by rewrite U. Qed.
Lemma known_shape_eq c ow h l ks : knows c ow -> is_shape c ow h l -> rank_at c h <> kUnknownRank -> map (known_value c) (dims_at c h) = ks -> known_shape c h = known_sizes ks.
Proof. intros K H U <-. by eapply known_shape_dims. Qed.

Lemma stage_subshape {A} nd F B s a b l k p c ow (f : ShapeHandle -> SI (Status + A)) Q :
  stage nd c ow -> shape_as c ow s l p -> within ow (fun _ => F -> p = known_sizes l) -> within ow (fun _ => subsizes l a b = Some k) -> 0 <= B ->
  (forall ks kks, p = known_sizes ks -> subsizes ks a b = Some kks -> zlength kks <= B) ->
  (forall h c' ow', later c ow c' ow' -> piece F B c' ow' h k -> exec (f h) c' ow' Q) -> exec (let? h := Subshape s a b in f h) c ow Q.
Proof.
  intros [K _] [H Ep] WF W HB Hb HQ. apply exec_try, (exec_Subshape s a b l k); [done..|]. intros h c' ow' L Hh Hd. apply HQ; [done|]. assert (K' : knows c' ow') by (by eapply later_knows).
  destruct (Z.eqb_spec (rank_at c s) kUnknownRank) as [U|U].
  - rewrite known_shape_unknown in Ep by done. split; [done|]. rewrite known_shape_unknown by done. split; [done|]. apply (within_later _ _ _ _ _ L) in WF. in_world. intros f'. specialize (WF f'). subst p. done.
  - destruct Hd as [Rh Es]. destruct (known_shape_dims c ow s l K H U) as [_ Ek]. rewrite Ek in Ep. destruct (known_dims c ow s l K H U) as ([Fd _] & _).
    assert (Fh : Forall (dim_in (shape_manager_ c)) (dims_at c' h)).
    { unfold subsizes in Es. destruct (subrange _ _ _) as [[x y]|]; [|done]. injection Es as <-. by apply Forall_take, Forall_drop. }
    assert (E : known_shape c' h = known_sizes (map (known_value c) (dims_at c' h))).
    { eapply known_shape_eq; [done|exact Hh|rewrite Rh; unfold zlength, kUnknownRank; lia|]. by eapply known_values_later. }
    assert (Em : subsizes (map (known_value c) (dims_at c s)) a b = Some (map (known_value c) (dims_at c' h))) by (by rewrite subsizes_map, Es).
    split; [done|]. rewrite E. split; [by eapply Hb|]. apply (within_later _ _ _ _ _ L) in WF, W. in_world. intros f'. specialize (WF f'). subst p. injection WF as <-.
    rewrite Em in W. by injection W as <-.
Qed.
Lemma merge_values_length_eq l k m : merge_values l k = Some m -> length m = length k.
Proof.
  revert k m. induction l as [|x l IH]; intros [|y k] m; cbn; try done; [by intros [= <-]|].
  destruct (merge_value x y), (merge_values l k) eqn:E; try done. intros [= <-]. cbn. f_equal. by eapply IH.
Qed.
Lemma merge_shapes_bound p q r B : merge_shapes p q = Some r -> zlength (PartialTensorShape.dim_sizes_ p) <= B -> zlength (PartialTensorShape.dim_sizes_ q) <= B ->
  zlength (PartialTensorShape.dim_sizes_ r) <= B.
Proof.
  unfold merge_shapes. destruct (PartialTensorShape.is_unknown_ p); [by intros [= <-]|]. destruct (PartialTensorShape.is_unknown_ q); [by intros [= <-]|].
  destruct (merge_values _ _) as [m|] eqn:E; [|done]. intros [= <-]. apply merge_values_length_eq in E. cbn. unfold zlength. lia.
Qed.
Lemma stage_merge_pieces {A} nd F B s0 s1 l c ow (f : ShapeHandle -> SI (Status + A)) Q :
  stage nd c ow -> piece F B c ow s0 l -> piece F B c ow s1 l ->
  (forall h c' ow', later c ow c' ow' -> piece F B c' ow' h l -> exec (f h) c' ow' Q) -> exec (let? h := Merge s0 s1 in f h) c ow Q.
Proof.
  intros [K _] (H0 & B0 & W0) (H1 & B1 & W1) HQ. apply exec_try, (exec_Merge s0 s1 l); [done..|]. intros h c' ow' L Hh Em. apply HQ; [done|].
  split; [done|]. split; [by eapply merge_shapes_bound|]. apply (within_later _ _ _ _ _ L) in W0, W1. in_world. intros f'. rewrite W0, W1, merge_shapes_same in Em by done. by injection Em as <-.
Qed.
Lemma stage_join_pieces {A} nd F B0 B1 s0 s1 l0 l1 c ow (f : ShapeHandle -> SI (Status + A)) Q :
  stage nd c ow -> piece F B0 c ow s0 l0 -> piece F B1 c ow s1 l1 -> B0 + B1 <= kint32max -> 0 <= B0 -> 0 <= B1 -> within ow (fun _ => zlength l0 + zlength l1 <= kint32max) ->
  (forall h c' ow', later c ow c' ow' -> piece F (B0 + B1) c' ow' h (l0 ++ l1) -> exec (f h) c' ow' Q) -> exec (let? h := Concatenate s0 s1 in f h) c ow Q.
Proof.
  intros [K _] (H0 & Hb0 & W0) (H1 & Hb1 & W1) HB P0 P1 W HQ. apply exec_try, (exec_Concatenate s0 s1 l0 l1); [done..| |].
  { intros U0 U1. rewrite (proj1 (known_shape_dims _ _ _ _ K H0 U0)), (proj1 (known_shape_dims _ _ _ _ K H1 U1)). lia. }
  intros h c' ow' L Hh Hd. apply HQ; [done|]. assert (K' : knows c' ow') by (by eapply later_knows). split; [done|]. apply (within_later _ _ _ _ _ L) in W0, W1.
  destruct (Z.eqb_spec (rank_at c s0) kUnknownRank) as [U0|U0]; cbn [orb] in Hd.
  { rewrite (known_shape_unknown c' h) by done. rewrite (known_shape_unknown c s0) in W0 by done. split; [change (0 <= B0 + B1); lia|]. in_world. intros f'. by specialize (W0 f'). }
  destruct (Z.eqb_spec (rank_at c s1) kUnknownRank) as [U1|U1].
  { rewrite (known_shape_unknown c' h) by done. rewrite (known_shape_unknown c s1) in W1 by done. split; [change (0 <= B0 + B1); lia|]. in_world. intros f'. by specialize (W1 f'). }
  destruct Hd as [Rh Ed]. destruct (known_shape_dims _ _ _ _ K H0 U0) as [_ E0], (known_shape_dims _ _ _ _ K H1 U1) as [_ E1].
  assert (E : known_shape c' h = known_sizes (map (known_value c) (dims_at c s0) ++ map (known_value c) (dims_at c s1))).
  { eapply known_shape_eq; [done|exact Hh|rewrite Rh; unfold zlength, kUnknownRank; lia|]. rewrite Ed, map_app.
    f_equal; (eapply known_values_later; [done|]); [apply (known_dims c ow s0 l0 K H0 U0)|apply (known_dims c ow s1 l1 K H1 U1)]. }
  rewrite E. rewrite E0 in Hb0, W0. rewrite E1 in Hb1, W1. split; [cbn in *; unfold zlength in *; rewrite length_app; lia|].
  in_world. intros f'. specialize (W0 f'). specialize (W1 f'). congruence.
Qed.
End Pieces.

(** ** One input *)

(** An axis of a shape of rank [n], other than -1; how many dimensions there can
    be before and after it. *)
Definition axis_ok (d n : Z) : Prop := 0 <= d < n \/ - n <= d < -1.
Definition axis_range (d : Z) : Prop := - kint32max <= d < kint32max /\ d <> -1.
Definition before_bound (d : Z) : Z := if d <? 0 then kint32max + d else d.
Definition after_bound (d : Z) : Z := if d <? 0 then - d - 1 else kint32max - d - 1.
Definition before {A} (d : Z) (l : list A) : list A := take (Z.to_nat (norm (zlength l) d)) l.
Definition after {A} (d : Z) (l : list A) : list A := drop (Z.to_nat (norm (zlength l) d + 1)) l.
Definition min_rank (d : Z) : Z := if d <? 0 then s32 (- d) else s32 (d + 1).

Lemma norm_axis d n : axis_ok d n -> 0 <= norm n d < n.
Proof. unfold axis_ok, norm. destruct (Z.ltb_spec d 0); lia. Qed.
Lemma subsizes_before {A} (l : list A) d : axis_ok d (zlength l) -> subsizes l 0 d = Some (before d l).
Proof.
  intros H. unfold subsizes, subrange. assert (E0 : norm (zlength l) (if zlength l <? 0 then zlength l else 0) = 0) by (unfold zlength; by destruct (Z.ltb_spec (Z.of_nat (length l)) 0); [lia|]).
  rewrite E0. unfold axis_ok in H. destruct (Z.ltb_spec (zlength l) d); [lia|]. assert (Hn := norm_axis d (zlength l) H). destruct (Z.leb_spec 0 (norm (zlength l) d)); [|lia]. cbn.
  unfold before. by rewrite Z.sub_0_r, drop_0.
Qed.
Lemma subsizes_after {A} (l : list A) d : axis_ok d (zlength l) -> zlength l <= kint32max -> axis_range d -> subsizes l (s32 (d + 1)) kint64max = Some (after d l).
Proof.
  intros H B [R N]. rewrite s32_id by (unfold kint32max in *; lia). assert (Hn := norm_axis d (zlength l) H).
  unfold axis_ok in H. unfold subsizes, subrange. destruct (Z.ltb_spec (zlength l) (d + 1)); [lia|].
  assert (E : (if zlength l <? kint64max then zlength l else kint64max) = zlength l) by (unfold kint32max, kint64max in *; by destruct (Z.ltb_spec (zlength l) (2 ^ 63 - 1)); [|lia]).
  rewrite E. assert (E1 : norm (zlength l) (zlength l) = zlength l) by (unfold norm, zlength; by destruct (Z.ltb_spec (Z.of_nat (length l)) 0); [lia|]). rewrite E1.
  assert (E2 : norm (zlength l) (d + 1) = norm (zlength l) d + 1) by (unfold norm; destruct (Z.ltb_spec (d + 1) 0), (Z.ltb_spec d 0); lia). rewrite E2.
  destruct (Z.leb_spec 0 (norm (zlength l) d + 1)); [|lia]. destruct (Z.leb_spec 0 (zlength l)); [|lia]. cbn. destruct (Z.leb_spec (norm (zlength l) d + 1) (zlength l)); [|lia].
  unfold after. rewrite take_ge; [done|]. rewrite length_drop. unfold zlength in *. lia.
Qed.
Lemma before_length {A} (l : list A) d : axis_ok d (zlength l) -> zlength l <= kint32max -> zlength (before d l) <= before_bound d.
Proof.
  intros H B. unfold before, before_bound. assert (Hn := norm_axis d (zlength l) H). unfold zlength at 1. rewrite length_take. unfold norm, axis_ok, zlength in *.
  destruct (Z.ltb_spec d 0); lia.
Qed.
Lemma after_length {A} (l : list A) d : axis_ok d (zlength l) -> zlength l <= kint32max -> zlength (after d l) <= after_bound d.
Proof.
  intros H B. unfold after, after_bound. assert (Hn := norm_axis d (zlength l) H). unfold zlength at 1. rewrite length_drop. unfold norm, axis_ok, zlength in *.
  destruct (Z.ltb_spec d 0); lia.
Qed.
Lemma min_rank_eq d : axis_range d -> min_rank d = (if d <? 0 then - d else d + 1) /\ 0 <= min_rank d.
Proof. intros [R _]. unfold min_rank. unfold kint32max in R. destruct (Z.ltb_spec d 0); rewrite s32_id; lia. Qed.
Lemma axis_min_rank d n : axis_range d -> min_rank d <= n -> axis_ok d n.
Proof. intros R. rewrite (proj1 (min_rank_eq d R)). destruct R as [R N]. unfold axis_ok. destruct (Z.ltb_spec d 0); lia. Qed.
Lemma min_rank_axis d n : axis_range d -> axis_ok d n -> min_rank d <= n.
Proof. intros R. rewrite (proj1 (min_rank_eq d R)). unfold axis_ok. destruct (Z.ltb_spec d 0); lia. Qed.

Section Slices.
Context {text : DefText}.
Implicit Types (nd : NodeDef) (c : InferenceContext) (ow : option world) (F : Prop).

Lemma stage_slice {A} nd F i d l p c ow (k : ShapeHandle -> DimensionHandle -> ShapeHandle -> SI (Status + A)) Q :
  stage nd c ow -> input_as c ow i l p -> axis_range d -> within ow (fun _ => axis_ok d (zlength l)) -> within ow (fun _ => F -> p = known_sizes l) ->
  (forall b m a c' ow', later c ow c' ow' -> piece F (before_bound d) c' ow' b (before d l) -> dim_piece F c' ow' m (size_of l d) -> piece F (after_bound d) c' ow' a (after d l) ->
     exec (k b m a) c' ow' Q) ->
  exec (let! s := input i in let? s := WithRankAtLeast s (min_rank d) in let? b := Subshape s 0 d in let! m := Dim s d in let? a := Subshape_from s (s32 (d + 1)) in k b m a) c ow Q.
Proof.
  intros S I AR W WF HQ. pose proof AR as [R N].
  assert (HB : 0 <= before_bound d /\ 0 <= after_bound d) by (unfold before_bound, after_bound, kint32max in *; destruct (Z.ltb_spec d 0); lia).
  assert (Fit : within ow (fun _ => zlength l <= kint32max)).
  { destruct I as [(h & _ & H) _]. pose proof (shape_fits c ow h l (proj1 S) H) as Fit. in_world. apply Fit. }
  eapply (stage_at_least nd); [done|exact I|by apply min_rank_eq|in_world; by apply min_rank_axis|]. intros s c1 ow1 L Hs Hp.
  pose proof L as L1. advance S L.
  assert (Hk : forall ks, p = known_sizes ks -> axis_ok d (zlength ks) /\ zlength ks <= kint32max).
  { intros ks ->. destruct Hp as [Hp|(ks' & [= <-] & Hp)]; [done|]. split; [by apply axis_min_rank|]. by apply (shape_is_known _ _ _ _ _ (stage_knows _ _ _ S) Hs). }
  eapply (stage_subshape nd F (before_bound d)); [done|exact Hs|done|in_world; by apply subsizes_before|apply HB| |].
  { intros ks kks E Ek. destruct (Hk ks E). rewrite subsizes_before in Ek by done. injection Ek as <-. by apply before_length. }
  intros b c2 ow2 L Pb. pose proof L as L2. advance S L. eapply (stage_Dim_any nd); [done|exact Hs| |in_world; by apply norm_axis|].
  { destruct Hp as [Hp|(ks & Hp & _)]; [by left|right]. exists ks. split; [done|]. apply norm_axis. by apply Hk. }
  intros m c3 ow3 L Dm. pose proof L as L3. apply (piece_later _ _ _ _ _ _ _ _ (stage_knows _ _ _ S) L) in Pb. advance S L.
  eapply (stage_subshape nd F (after_bound d)); [done|exact Hs|done|in_world; by apply subsizes_after|apply HB| |].
  { intros ks kks E Ek. destruct (Hk ks E). rewrite subsizes_after in Ek by done. injection Ek as <-. by apply after_length. }
  intros a c4 ow4 L Pa. pose proof L as L4. apply (piece_later _ _ _ _ _ _ _ _ (stage_knows _ _ _ S) L) in Pb. advance S L.
  apply HQ; [eapply later_trans; [exact L1|]; eapply later_trans; [exact L2|]; by eapply later_trans|done| |done]. split; [apply Dm|].
  in_world. intros f. rewrite (proj2 Dm), WF by done. cbn. unfold known_of, size_of. destruct (zlookup_is_Some l (norm (zlength l) d)) as [x ->]; [by apply norm_axis|done].
Qed.
End Slices.

(** ** All inputs *)

(** The inputs from [a] to before [b], their sizes and what is known of them. *)
Definition inputs_as (c : InferenceContext) (ow : option world) (a b : Z) (L : Z -> list Z) (P : Z -> PartialTensorShape.PartialTensorShape) : Prop :=
  forall i, a <= i < b -> input_as c ow i (L i) (P i).
(** The sizes along the axis, of [n] inputs down from [i]. *)
Fixpoint axis_sum (L : Z -> list Z) (d : Z) (n : nat) (i : Z) : Z := match n with O => 0 | S n' => size_of (L i) d + axis_sum L d n' (i - 1) end.
(** Shapes that differ along the axis only. *)
Definition same_but (d : Z) (l k : list Z) : Prop := axis_ok d (zlength k) /\ before d k = before d l /\ after d k = after d l.

Section Loop.
Context {text : DefText}.
Implicit Types (nd : NodeDef) (c : InferenceContext) (ow : option world) (F : Prop).

Lemma inputs_as_later nd c ow c' ow' a b L P : stage nd c ow -> later c ow c' ow' -> inputs_as c ow a b L P -> inputs_as c' ow' a b L P.
Proof. intros S Lt H i Hi. by eapply input_as_later, H. Qed.
Lemma dim_piece_size F c ow h x : knows c ow -> dim_piece F c ow h x -> within ow (fun _ => is_size x).
Proof. intros K [D _]. destruct ow as [w|]; [|done]. by apply (dim_known c w h x K D). Qed.
Lemma axis_sum_nonneg L d n i : (forall j, i - Z.of_nat n < j <= i -> 0 <= size_of (L j) d) -> 0 <= axis_sum L d n i.
Proof.
  revert i. induction n as [|n IH]; intros i H; cbn [axis_sum]; [lia|]. pose proof (H i ltac:(lia)). pose proof (IH (i - 1)) as IH'.
  assert (0 <= axis_sum L d n (i - 1)) by (apply IH'; intros j Hj; apply H; lia). lia.
Qed.
Lemma stage_add_pieces {A} nd F m e x y c ow (k : DimensionHandle -> SI (Status + A)) Q :
  stage nd c ow -> dim_piece F c ow m x -> dim_piece F c ow e y -> within ow (fun _ => x + y <= kint64max) ->
  (forall h c' ow', later c ow c' ow' -> dim_piece F c' ow' h (x + y) -> exec (k h) c' ow' Q) -> exec (let? h := Add m (of_dim e) in k h) c ow Q.
Proof.
  intros S Dm De W HQ. apply exec_try, (exec_Add m (of_dim e) x y); [apply S|apply Dm|apply is_doc_dim, De|done|]. intros h c' ow' L D E. apply HQ; [done|]. split; [done|].
  pose proof (dim_piece_size _ _ _ _ _ (stage_knows _ _ _ S) Dm) as Zx. pose proof (dim_piece_size _ _ _ _ _ (stage_knows _ _ _ S) De) as Zy. destruct Dm as [_ Wm], De as [_ We].
  apply (within_later _ _ _ _ _ L) in Zx, Zy, Wm, We. in_world. intros f. rewrite E. cbn [known_doc]. rewrite Wm, We by done. unfold known_add, kUnknownDim, is_size in *.
  destruct (Z.eqb_spec x 0); [lia|]. destruct (Z.eqb_spec y 0); [lia|]. destruct (Z.eqb_spec x (-1)), (Z.eqb_spec y (-1)); cbn; lia.
Qed.
Ltac advance_pieces S Lt :=
  lazymatch type of Lt with later ?c ?ow ?c' ?ow' =>
    repeat match goal with
    | H : inputs_as c ow _ _ _ _ |- _ => apply (inputs_as_later _ _ _ _ _ _ _ _ _ S Lt) in H
    | H : piece _ _ c ow _ _ |- _ => apply (piece_later _ _ _ _ _ _ _ _ (stage_knows _ _ _ S) Lt) in H
    | H : dim_piece _ c ow _ _ |- _ => apply (dim_piece_later _ _ _ _ _ _ _ Lt) in H
    end; advance S Lt
  end.
(** The inputs can be concatenated along axis [d]: they are as [l] but for it. *)
Definition alike a b L d l : Prop := forall j, a <= j < b -> same_but d l (L j) /\ 0 <= size_of (L j) d.
Lemma exec_concat_loop nd F a b L P d l n i x ob om oa c ow (Q : ShapeHandle * DimensionHandle * ShapeHandle -> InferenceContext -> option world -> Prop) :
  stage nd c ow -> inputs_as c ow a b L P -> axis_range d -> a <= i - Z.of_nat n + 1 -> i < b ->
  within ow (fun _ => alike a b L d l /\ (F -> forall j, a <= j < b -> P j = known_sizes (L j)) /\ x + axis_sum L d n i <= kint64max) ->
  piece F (before_bound d) c ow ob (before d l) -> dim_piece F c ow om x -> piece F (after_bound d) c ow oa (after d l) ->
  (forall ob om oa c' ow', later c ow c' ow' -> piece F (before_bound d) c' ow' ob (before d l) -> dim_piece F c' ow' om (x + axis_sum L d n i) ->
     piece F (after_bound d) c' ow' oa (after d l) -> Q (ob, om, oa) c' ow') ->
  exec (concat_loop n i d (min_rank d) ob om oa) c ow Q.
Proof.
  intros S I R. revert i x ob om oa c ow S I Q. induction n as [|n IH]; intros i x ob om oa c ow S I Q Ha Hb W Pb Dm Pa HQ.
  { cbn. cbn in HQ. rewrite Z.add_0_r in HQ. apply exec_ok; [apply S|]. apply HQ; [apply later_refl, S|done..]. }
  cbn [concat_loop axis_sum] in *. assert (Hi : a <= i < b) by lia.
  eapply (stage_slice nd F i d); [done|by apply I|done|in_world; by apply W|in_world; intros f; by apply W|].
  intros b1 m1 a1 c1 ow1 Lt Pb1 Dm1 Pa1. pose proof Lt as L1. advance_pieces S Lt.
  apply (piece_cast _ _ _ _ _ _ (before d l)) in Pb1; [|in_world; by apply W]. apply (piece_cast _ _ _ _ _ _ (after d l)) in Pa1; [|in_world; by apply W].
  eapply (stage_merge_pieces nd); [done|exact Pb1|exact Pb|]. clear Pb Pb1 ob. intros ob c2 ow2 Lt Pb. pose proof Lt as L2. advance_pieces S Lt.
  eapply (stage_add_pieces nd); [done|exact Dm|exact Dm1| |].
  { in_world. assert (0 <= axis_sum L d n (i - 1)) by (apply axis_sum_nonneg; intros j Hj; apply W; lia). lia. }
  clear Dm Dm1 om. intros om c3 ow3 Lt Dm. pose proof Lt as L3. advance_pieces S Lt.
  eapply (stage_merge_pieces nd); [done|exact Pa1|exact Pa|]. clear Pa Pa1 oa. intros oa c4 ow4 Lt Pa. pose proof Lt as L4. advance_pieces S Lt.
  eapply (IH (i - 1) (x + size_of (L i) d)); [done|done|lia|lia|in_world; split_and!; [apply W|apply W|lia]|done|done|done|].
  intros ob' om' oa' c5 ow5 Lt Pb' Dm' Pa'. apply HQ; [|done| |done].
  - eapply later_trans; [exact L1|]. eapply later_trans; [exact L2|]. eapply later_trans; [exact L3|]. by eapply later_trans.
  - by rewrite Z.add_assoc.
Qed.

(** The rank that some input has, if it is known. *)
Lemma exec_concat_rank nd a b L P r n i k c ow (Q : Z -> InferenceContext -> option world -> Prop) :
  stage nd c ow -> inputs_as c ow a b L P -> a <= i -> i + Z.of_nat n <= b -> (k = kUnknownRank \/ 0 <= k <= kint32max) ->
  within ow (fun _ => (forall j, a <= j < b -> zlength (L j) = r) /\ (k = kUnknownRank \/ k = r)) ->
  (forall k' c' ow', later c ow c' ow' -> (k' = kUnknownRank \/ 0 <= k' <= kint32max) -> within ow' (fun _ => k' = kUnknownRank \/ k' = r) -> Q k' c' ow') ->
  exec (concat_rank n i k) c ow Q.
Proof.
  intros S I. revert i k c ow S I Q. induction n as [|n IH]; intros i k c ow S I Q Ha Hb Hk W HQ.
  { apply exec_ok; [apply S|]. apply HQ; [apply later_refl, S|done|]. in_world. apply W. }
  cbn [concat_rank]. assert (Hi : a <= i < b) by lia. pose proof (I i Hi) as Ii. destruct Ii as [(h & Eh & Hh) Ep]. set (k1 := if k =? kUnknownRank then rank_at c h else k).
  eapply (exec_read _ _ k1).
  { unfold k1. destruct (k =? kUnknownRank); [|done]. rewrite (st_bind_eq _ _ _ _ _ (input_eq _ _ _ Eh)). apply Rank_eq, Hh. }
  assert (Hk1 : k1 = kUnknownRank \/ 0 <= k1 <= kint32max).
  { unfold k1. destruct (k =? kUnknownRank); [|done]. apply (rank_range c ow h (proj1 S)), Hh. }
  assert (W1 : within ow (fun _ => (forall j, a <= j < b -> zlength (L j) = r) /\ (k1 = kUnknownRank \/ k1 = r))).
  { pose proof (rank_known c ow h (L i) (proj1 S) Hh) as Rk. unfold k1. destruct ow as [w|]; [|done]. cbn [within] in *. split; [apply W|]. destruct (k =? kUnknownRank); [|apply W].
    destruct (Z.eqb_spec (rank_at c h) kUnknownRank) as [U|U]; [by left|right]. rewrite <- Rk by done. by apply W. }
  clearbody k1. destruct (Z.eqb_spec k1 kUnknownRank) as [U|U]; cbn [negb].
  - apply IH; [done|done|lia|lia|done|done|done].
  - eapply (stage_ranked nd); [done|by apply I|destruct Hk1; [done|lia]|in_world; destruct W1 as [W1 [E|E]]; [done|rewrite E; by apply W1]|].
    intros h' c1 ow1 Lt _ _. pose proof Lt as L1. advance_pieces S Lt. apply IH; [done|done|lia|lia|done|done|]. intros. apply HQ; [by eapply later_trans|done..].
Qed.
(** The sizes of the concatenation of the inputs from [a] to before [b]. *)
Definition concat_sizes L a b d : list Z := zinsert (L (b - 1)) (norm (zlength (L (b - 1))) d) (axis_sum L d (Z.to_nat (b - a)) (b - 1)).
Definition concat_ok L a b d : Prop := alike a b L d (L (b - 1)) /\ axis_sum L d (Z.to_nat (b - a)) (b - 1) <= kint64max.
Lemma concat_sizes_parts L a b d : axis_ok d (zlength (L (b - 1))) ->
  concat_sizes L a b d = (before d (L (b - 1)) ++ [axis_sum L d (Z.to_nat (b - a)) (b - 1)]) ++ after d (L (b - 1)).
Proof. intros H. unfold concat_sizes, before, after. by rewrite zinsert_split, <- app_assoc by (by apply norm_axis). Qed.
Lemma same_but_length d l k : axis_ok d (zlength l) -> same_but d l k -> zlength k = zlength l.
Proof.
  intros H (H' & Eb & Ea). apply norm_axis in H, H'. apply (f_equal length) in Eb, Ea. unfold before, after in *. rewrite !length_take in Eb. rewrite !length_drop in Ea. unfold zlength in *. lia.
Qed.
Lemma concat_sizes_fit L a b d : a < b -> concat_ok L a b d -> sizes_fit (L (b - 1)) -> sizes_fit (concat_sizes L a b d) /\ zlength (concat_sizes L a b d) = zlength (L (b - 1)).
Proof.
  intros Hab [H B] [Fz Bz]. assert (El : zlength (concat_sizes L a b d) = zlength (L (b - 1))).
  { unfold concat_sizes, zinsert, zlength. destruct (_ <? 0); [done|]. by rewrite length_insert. }
  split; [|done]. split; [|by rewrite El]. apply Forall_zinsert; [done|]. split; [|done]. apply axis_sum_nonneg. intros j Hj. apply H. lia.
Qed.

Lemma output_is_mono i l (P Q : PartialTensorShape.PartialTensorShape -> Prop) c ow : output_is i l P c ow -> (forall p, P p -> Q p) -> output_is i l Q c ow.
Proof. intros (h & E & H & HP) HQ. exists h. split; [done|]. split; [done|]. by apply HQ. Qed.
Lemma concat_end nd F d lb x la l ob om oa c ow :
  stage nd c ow -> axis_range d -> piece F (before_bound d) c ow ob lb -> dim_piece F c ow om x -> piece F (after_bound d) c ow oa la ->
  within ow (fun _ => l = (lb ++ [x]) ++ la /\ zlength l <= kint32max) ->
  exec (let! vector := Vector (of_dim om) in let? s := Concatenate ob vector in let? s := Concatenate s oa in done_ok (set_output 0 s)) c ow
    (fun _ c' ow' => output_is 0 l (fun p => within ow' (fun _ => F -> p = known_sizes l)) c' ow').
Proof.
  intros S [R N] Pb Dm Pa W. assert (HB : 0 <= before_bound d /\ 0 <= after_bound d /\ before_bound d + 1 + after_bound d = kint32max).
  { unfold before_bound, after_bound, kint32max in *. destruct (Z.ltb_spec d 0); lia. }
  assert (Wl : within ow (fun _ => zlength lb + 1 + zlength la <= kint32max)).
  { in_world. destruct W as [-> W]. unfold zlength in *. rewrite !length_app in W. cbn in W. lia. }
  eapply (stage_vector nd om x (known_value c om)); [done|split; [apply Dm|done]|]. intros v c1 ow1 Lt Hv.
  assert (Pv : piece F 1 c1 ow1 v [x]).
  { destruct Hv as [Hv Ev]. split; [done|]. rewrite Ev. split; [done|]. destruct Dm as [_ Dm]. apply (within_later _ _ _ _ _ Lt) in Dm. in_world. intros f. by rewrite Dm. }
  advance_pieces S Lt.
  eapply (stage_join_pieces nd F (before_bound d) 1); [done|exact Pb|exact Pv|lia|lia|lia|in_world; unfold zlength in *; cbn; lia|]. intros s c2 ow2 Lt Ps. advance_pieces S Lt.
  eapply (stage_join_pieces nd F (before_bound d + 1) (after_bound d)); [done|exact Ps|exact Pa|lia|lia|lia|in_world; unfold zlength in *; rewrite length_app; cbn; lia|].
  intros s2 c3 ow3 Lt Ps2. advance_pieces S Lt. apply (piece_cast _ _ _ _ _ _ l) in Ps2; [|in_world; by destruct W as [-> _]]. destruct Ps2 as (Hs & _ & Ws).
  destruct S as (K & _ & Ho). eapply exec_set_output; [done|lia|exact Hs|done|]. intros c4 _ O. eapply output_is_mono; [exact O|]. by intros p ->.
Qed.

Lemma exec_ConcatShapeHelper nd a b dim L P lt pt T m d c ow :
  let F := m <> None /\ forall j, a <= j < b -> P j = known_sizes (L j) in
  stage nd c ow -> 0 <= a < b -> inputs_as c ow a b L P -> input_as c ow dim lt pt -> tensor_as c ow dim T m ->
  (forall t, m = Some t -> dtype t = DT_INT32 /\ elements t = [d] /\ axis_range d) ->
  within ow (fun _ => lt = [] /\ elements T = [d] /\ concat_ok L a b d) ->
  exec (ConcatShapeHelper a b dim) c ow (fun _ c' ow' => output_is 0 (concat_sizes L a b d) (fun p => within ow' (fun _ => F -> p = known_sizes (concat_sizes L a b d))) c' ow').
Proof.
  intros F S Hab I It V Ht W. unfold ConcatShapeHelper.
  eapply stage_ranked; [done|exact It|unfold kint32max; lia|in_world; by destruct W as [-> _]|]. intros s0 c1 ow1 Lt _ _.
  apply (tensor_as_later _ _ _ _ _ _ _ Lt) in V. advance_pieces S Lt. eapply stage_tensor; [done|exact V|]. intros c2 ow2 Lt Wt. advance_pieces S Lt.
  assert (Hl : a <= b - 1 < b) by lia. assert (Ax : within ow2 (fun _ => axis_ok d (zlength (L (b - 1))))) by (in_world; by apply W).
  assert (Fit : within ow2 (fun _ => sizes_fit (L (b - 1)))).
  { destruct (I _ Hl) as [(h & _ & Hh) _]. pose proof (shape_fits _ _ _ _ (stage_knows _ _ _ S) Hh). by in_world. }
  destruct m as [t|].
  - destruct (Ht t eq_refl) as (Et & El & R). eapply (exec_read _ _ d); [unfold scalar; by rewrite Et, El|]. cbv zeta. fold (min_rank d).
    eapply (stage_slice nd F (b - 1) d); [done|by apply I|done|done|in_world; intros [_ f]; by apply f|].
    intros ob om oa c3 ow3 Lt Pb Dm Pa. advance_pieces S Lt. apply exec_try.
    assert (Es : axis_sum L d (Z.to_nat (b - a)) (b - 1) = size_of (L (b - 1)) d + axis_sum L d (Z.to_nat (b - 1 - a)) (b - 2)).
    { replace (Z.to_nat (b - a)) with (Datatypes.S (Z.to_nat (b - 1 - a))) by lia. cbn [axis_sum]. by replace (b - 1 - 1) with (b - 2) by lia. }
    eapply (exec_concat_loop nd F a b L P d (L (b - 1))); [done|done|done|lia|lia| |done|done|done|].
    { in_world. split_and!; [apply W|by intros [_ f]|rewrite <- Es; apply W]. }
    rewrite <- Es. clear Pb Dm Pa ob om oa. intros ob om oa c4 ow4 Lt Pb Dm Pa. advance_pieces S Lt.
    assert (Wt' : within ow4 (fun _ => concat_sizes L a b d = (before d (L (b - 1)) ++ [axis_sum L d (Z.to_nat (b - a)) (b - 1)]) ++ after d (L (b - 1)) /\
      zlength (concat_sizes L a b d) <= kint32max)).
    { in_world. split; [by apply concat_sizes_parts|]. destruct (concat_sizes_fit L a b d) as [[_ B] _]; [lia|apply W|done|done]. }
    by eapply concat_end.
  - apply exec_try, (exec_concat_rank nd a b L P (zlength (L (b - 1)))); [done|done|lia|lia|by left| |].
    { in_world. split; [|by left]. intros j Hj. destruct W as (_ & _ & W & _). by eapply same_but_length, W. }
    intros k c3 ow3 Lt Hk Wk. advance_pieces S Lt. assert (NF : F -> False) by (by intros [f _]).
    assert (Fit' : within ow3 (fun _ => sizes_fit (concat_sizes L a b d) /\ zlength (concat_sizes L a b d) = zlength (L (b - 1)))).
    { in_world. apply concat_sizes_fit; [lia|apply W|done]. }
    destruct (Z.eqb_spec k kUnknownRank) as [->|U].
    { eapply exec_mono; [apply (stage_unknown nd (concat_sizes L a b d) (fun _ => True)); [done|in_world; apply Fit'|done]|]. intros u c' ow' _ O. eapply output_is_mono; [exact O|]. intros p _. destruct ow'; [intros f; by destruct (NF f)|done]. }
    destruct (Z.eqb_spec k 0) as [->|U0].
    { apply exec_fail; [apply S| |done]. destruct ow3; [|done]. exfalso. cbn [within] in *. apply norm_axis in Ax. destruct Wk; [done|lia]. }
    destruct Hk as [?|Hk]; [done|]. apply exec_let, (total_unknown_dims _ (concat_sizes L a b d)); [apply S| |].
    { in_world. destruct Wk as [?|Wk]; [done|]. split; [apply Fit'|]. unfold zlength in *. lia. }
    intros ds c4 ow4 Lt D El E. advance_pieces S Lt. eapply stage_MakeShape; [done|split; [exact D|exact E]|unfold zlength; rewrite length_replicate; lia|].
    intros h c5 ow5 Lt H. advance_pieces S Lt. eapply exec_mono; [eapply (stage_set nd _ _ _ (fun _ => True)); [done|exact H|done]|]. intros u c' ow' _ O. eapply output_is_mono; [exact O|]. intros p _. destruct ow'; [intros f; by destruct (NF f)|done].
Qed.
End Loop.
End ShapeFnsConcat.
