(* ===== verification/ShapeInferenceTheorems.v ===== *)
(** * Shape inference: theorems

    What the calls and the shape functions guarantee in every well-formed
    context, for every world that the context describes. *)
From S2P Require Import Prelude Status Numbers DataTypes TensorShape PartialTensorShape Bcast EdgeSet Graph ShapeInference ShapeInferenceSpec ShapeInferenceFacts ShapeFns ShapeFnsFacts ShapeFnsArrays ShapeFnsConcat.
From stdpp Require Import gmap.
Open Scope Z_scope.

Module ShapeInferenceTheorems.
Import Status Numbers Attrs ShapeInference ShapeInferenceSpec ShapeInferenceFacts ShapeFns ShapeFnsFacts ShapeFnsWindows ShapeFnsArrays ShapeFnsBroadcast ShapeFnsConcat.
Import PartialTensorShape.

(** ** Examples *)

(** Messages without the text of the node. *)
#[local] Instance plain_text : DefText := {| AttachDef s _ := s; SummarizeOpDef _ := [] |}.
#[local] Instance plain_laws : DefTextLaws plain_text.
Proof. by intros s d. Qed.
(** A context whose inputs have the shapes [shapes] over the dimensions [dims],
    and a world with the sizes [sizes] and the values [values]. *)
Definition sample (nd : NodeDef) (dims : list Z) (shapes : list (list nat)) (tensors : list (option Tensor)) : InferenceContext :=
  mkContext (mkManager (map (fun s => mkShape (zlength s) (map Some s)) shapes) dims) (map Some (seq 0 (length shapes))) tensors
    (map (fun _ => false) shapes) [None] [] (map (fun _ => false) shapes) (map (fun _ => None) shapes) [] [] [] nd ∅ ∅ OK.
Definition sizes_in (sizes : list Z) (s : list nat) : list Z := map (fun p => nth p sizes 0) s.
Definition sample_world (sizes : list Z) (shapes : list (list nat)) (values : list Tensor) : world :=
  mkWorld (fun p => nth p sizes 0) (fun p => sizes_in sizes (nth p shapes [])) (fun i => nth (Z.to_nat i) values (mkTensor 0 [] [])) (fun _ => []).
Record sample_ok (dims : list Z) (shapes : list (list nat)) (tensors : list (option Tensor)) (sizes : list Z) (values : list Tensor) : Prop := {
  sample_dims : Forall2 (fun v x => -1 <= v <= kint64max /\ is_size x /\ (v = -1 \/ x = v)) dims sizes;
  sample_shapes : Forall (fun s => Forall (fun p => p < length dims)%nat s /\ zlength s <= kint32max) shapes;
  sample_values : map (sizes_in sizes) shapes = map shape values;
  sample_tensors : Forall2 (fun m v => m = None \/ (m = Some v /\ tensor_ok v)) tensors values
}.
Lemma sample_knows nd dims shapes tensors sizes values : sample_ok dims shapes tensors sizes values ->
  knows (sample nd dims shapes tensors) (Some (sample_world sizes shapes values)).
Proof.
  intros [D S V T]. assert (Ev : length values = length shapes) by (by rewrite <- (length_map shape values), <- V, length_map).
  assert (Et : length tensors = length shapes) by (by rewrite (Forall2_length _ _ _ T)).
  assert (In : forall i h, map Some (seq 0 (length shapes)) !!z i = Some h -> exists p s, i = Z.of_nat p /\ h = Some p /\ shapes !! p = Some s).
  { intros i h. unfold zlookup. destruct (Z.ltb_spec i 0); [done|]. intros (p & -> & Hp)%(list_lookup_fmap_Some Some). apply lookup_seq in Hp as [-> Hp].
    destruct (lookup_lt_is_Some_2 shapes _ Hp) as [s Hs]. exists (Z.to_nat i), s. split; [lia|]. done. }
  assert (Sz : forall p s, shapes !! p = Some s -> sizes_fit (sizes_in sizes s)).
  { intros p s Hs. rewrite Forall_forall in S. destruct (S s) as [F B]; [by eapply list_elem_of_lookup_2|]. split; [|unfold sizes_in, zlength; by rewrite length_map].
    apply Forall_map. eapply Forall_impl; [exact F|]. intros q Hq. cbn. destruct (lookup_lt_is_Some_2 dims q Hq) as [v Hv].
    destruct (Forall2_lookup_l _ _ _ _ _ D Hv) as (x & Hx & _ & Z & _). by rewrite (nth_lookup_Some _ _ _ _ Hx). }
  split.
  - constructor; cbn; try (by rewrite ?length_map, ?length_seq); try by constructor.
    + constructor; cbn.
      * eapply Forall2_Forall_l; [exact D|]. apply Forall_true. intros x v H. apply H.
      * apply Forall_map. eapply Forall_impl; [exact S|]. intros s [F B]. right. cbn [rank_ dims_]. assert (Em : zlength (map Some s) = zlength s) by (unfold zlength; by rewrite length_map). split; [symmetry; exact Em|]. split; [eapply Z.le_trans; [apply Z.eq_le_incl; exact Em|done]|].
        apply Forall_map. eapply Forall_impl; [exact F|]. intros p Hp. by exists p.
    + apply Forall_map, Forall_forall. intros p Hp%elem_of_seq. exists p. split; [done|]. cbn. rewrite List.length_map. lia.
    + constructor; [by left|constructor].
    + apply Forall_map, Forall_true. intros s. by left.
    + eapply Forall2_Forall_l; [exact T|]. apply Forall_true. intros v m [->|[-> H]]; done.
  - constructor; cbn.
    + intros p v Hv. destruct (Forall2_lookup_l _ _ _ _ _ D Hv) as (x & Hx & _ & Z & E). by rewrite (nth_lookup_Some _ _ _ _ Hx).
    + intros p s (s0 & -> & Hs)%(list_lookup_fmap_Some (fun s => mkShape (zlength s) (map Some s))). rewrite (nth_lookup_Some _ _ _ _ Hs). split; [by eapply Sz|]. right. cbn.
      by rewrite map_map.
    + intros i h (p & s & -> & -> & Hs)%In. cbn. rewrite Nat2Z.id, (nth_lookup_Some _ _ _ _ Hs).
      assert (E : (shape <$> values) !! p = Some (sizes_in sizes s)) by (change (shape <$> values) with (map shape values); rewrite <- V; change (map (sizes_in sizes) shapes) with (sizes_in sizes <$> shapes); by rewrite list_lookup_fmap, Hs).
      rewrite list_lookup_fmap in E. apply fmap_Some in E as (v & Hv & ->). by rewrite (nth_lookup_Some _ _ _ _ Hv).
    + intros i t. unfold zlookup. destruct (Z.ltb_spec i 0); [done|]. intros Ht. destruct (Forall2_lookup_l _ _ _ _ _ T Ht) as (v & Hv & [?|[[= ->] _]]); [done|].
      by rewrite (nth_lookup_Some _ _ _ _ Hv).
    + intros i h s H. unfold zlookup in H. by destruct (_ <? 0).
Qed.

Definition known_in (dims : list Z) (s : list nat) : list Z := map (fun p => default (-1) (dims !! p)) s.
Section Samples.
Context (nd : NodeDef) (dims : list Z) (shapes : list (list nat)) (tensors : list (option Tensor)) (sizes : list Z) (values : list Tensor) (H : sample_ok dims shapes tensors sizes values).
Let c := sample nd dims shapes tensors.
Let w := sample_world sizes shapes values.
Lemma sample_stage : stage nd c (Some w).
Proof. split; [by apply sample_knows|done]. Qed.
Lemma sample_shape p s : shapes !! p = Some s -> shape_as c (Some w) (Some p) (sizes_in sizes s) (known_sizes (known_in dims s)).
Proof.
  intros Hs. assert (E : shape_at (shape_manager_ c) (Some p) = Some (mkShape (zlength s) (map Some s))).
  { cbn. change (map ?f shapes) with (f <$> shapes). by rewrite list_lookup_fmap, Hs. }
  split; [split|].
  - exists p. split; [done|]. cbn. rewrite List.length_map. by eapply lookup_lt_Some.
  - cbn. by rewrite (nth_lookup_Some _ _ _ _ Hs).
  - unfold known_shape, rank_at, dims_at. rewrite E. cbn [rank_ dims_]. destruct (Z.eqb_spec (zlength s) kUnknownRank) as [U|_]; [exfalso; unfold zlength, kUnknownRank in U; lia|].
    unfold known_in. rewrite map_map. done.
Qed.
Lemma sample_input p s : shapes !! p = Some s -> input_as c (Some w) (Z.of_nat p) (sizes_in sizes s) (known_sizes (known_in dims s)).
Proof.
  intros Hs. destruct (sample_shape p s Hs) as [Hh Ek]. assert (E : inputs_ c !!z Z.of_nat p = Some (Some p)).
  { unfold zlookup. destruct (Z.ltb_spec (Z.of_nat p) 0); [lia|]. rewrite Nat2Z.id. cbn. change (map Some ?l) with (Some <$> l). rewrite list_lookup_fmap.
    rewrite lookup_seq_lt; [done|]. by eapply lookup_lt_Some. }
  split; [by exists (Some p)|]. unfold known_input. by rewrite E.
Qed.
End Samples.

(** ** [MergeWith] *)

Lemma merge_loop_values pre mine theirs : length mine = length theirs ->
  match merge_loop (length pre) mine theirs (pre ++ mine) with
  | (true, r) => exists m, merge_values mine theirs = Some m /\ r = pre ++ m
  | (false, _) => merge_values mine theirs = None
  end.
Proof.
  revert pre theirs. induction mine as [|d mine IH]; intros pre [|e theirs] El; try done; [by exists []|]. cbn [merge_loop merge_values]. unfold merge_value, kUnknownDim.
  injection El as El. destruct (Z.eqb_spec d (-1)) as [->|Nd].
  - replace (<[length pre := e]> (pre ++ -1 :: mine)) with ((pre ++ [e]) ++ mine) by (rewrite insert_app_r_alt, Nat.sub_diag by done; cbn; by rewrite <- app_assoc).
    specialize (IH (pre ++ [e]) theirs El). rewrite length_app, Nat.add_1_r in IH. destruct (merge_loop _ mine theirs _) as [[] r]; [|by rewrite IH].
    destruct IH as (m & -> & ->). exists (e :: m). by rewrite <- app_assoc.
  - destruct (Z.eqb_spec e (-1)) as [->|Ne]; cbn [negb andb].
    + specialize (IH (pre ++ [d]) theirs El). rewrite length_app, Nat.add_1_r, <- app_assoc in IH. cbn [app] in IH.
      destruct (merge_loop _ mine theirs _) as [[] r]; [|by rewrite IH]. destruct IH as (m & -> & ->). exists (d :: m). by rewrite <- app_assoc.
    + destruct (Z.eqb_spec d e) as [<-|N]; cbn [negb]; [|done].
      specialize (IH (pre ++ [d]) theirs El). rewrite length_app, Nat.add_1_r, <- app_assoc in IH. cbn [app] in IH.
      destruct (merge_loop _ mine theirs _) as [[] r]; [|by rewrite IH]. destruct IH as (m & -> & ->). exists (d :: m). by rewrite <- app_assoc.
Qed.
Lemma MergeWith_shapes p q : let '(s, r) := MergeWith p q in if ok s then merge_shapes p q = Some r else merge_shapes p q = None.
Proof.
  unfold MergeWith, merge_shapes. destruct (is_unknown_ p) eqn:Ep; [done|]. destruct (is_unknown_ q) eqn:Eq; [done|].
  unfold dims. rewrite Ep, Eq. destruct (Z.eqb_spec (zlength (dim_sizes_ p)) (zlength (dim_sizes_ q))) as [El|N]; cbn [negb].
  - pose proof (merge_loop_values [] (dim_sizes_ p) (dim_sizes_ q) ltac:(unfold zlength in El; lia)) as H. cbn in H.
    destruct (merge_loop 0 _ _ _) as [[] r]; cbn; [by destruct H as (m & -> & ->)|by rewrite H].
  - cbn. rewrite merge_values_length; [done|]. unfold zlength in N. lia.
Qed.

(** C38: [Merge] on two shapes of a well-formed context ([context_ok]: the handles
    point into the memory, known sizes are not negative) returns: no check fails
    and no access is out of range. It agrees with
    [PartialTensorShape::MergeWith] on what is known of the two: it fails exactly
    when that fails, and otherwise what is known of the shape that it returns is
    that one's result. The result allows the sizes that both shapes allow and no
    others, and [Merge] fails only if no sizes fit both. The context stays
    well-formed, and the objects that existed do not change. *)
Theorem shape_merge c s0 s1 : context_ok c -> shape_in (shape_manager_ c) s0 -> shape_in (shape_manager_ c) s1 ->
  wp (Merge s0 s1) c (fun r c' =>
    context_ok c' /\ keeps c c' /\
    match r with
    | inl s => ok s = false /\ ok (MergeWith (known_shape c s0) (known_shape c s1)).1 = false /\ forall l, ~ (fits (known_shape c s0) l /\ fits (known_shape c s1) l)
    | inr h => shape_in (shape_manager_ c') h /\ ok (MergeWith (known_shape c s0) (known_shape c s1)).1 = true /\
        (MergeWith (known_shape c s0) (known_shape c s1)).2 = known_shape c' h /\
        forall l, fits (known_shape c' h) l <-> fits (known_shape c s0) l /\ fits (known_shape c s1) l
    end).
Proof.
  intros K H0 H1. pose proof (Merge_spec s0 s1 [] [] c None (conj K I) (conj H0 I) (conj H1 I)) as M. pose proof (MergeWith_shapes (known_shape c s0) (known_shape c s1)) as W.
  pose proof (merge_shapes_fits (known_shape c s0) (known_shape c s1)) as Fit. destruct (MergeWith _ _) as [st r0].
  eapply wp_mono; [exact M|]. clear M. intros [s|h] c' H; cbn.
  - destruct H as (-> & E & N). rewrite N in *. split; [done|]. split; [apply keeps_refl|]. split; [done|]. split; [by destruct (ok st)|].
    intros l Hl. apply Fit in Hl as (r & ? & _). done.
  - destruct H as (ow' & (K' & P & _) & Hh & _ & E). split; [apply K'|]. split; [done|]. split; [done|]. rewrite E in W. destruct (ok st); [|done]. split; [done|]. split; [congruence|].
    intros l. rewrite Fit, E. split; [intros Hl; by exists (known_shape c' h)|]. by intros (r & [= <-] & ?).
Qed.
Definition node_of (op : String.string) (attrs : list (String.string * AttrValue)) : NodeDef :=
  Graph.mkNodeDef [] (bytes_of op) [] [] (list_to_map (map (fun '(k, v) => (bytes_of k, v)) attrs)).
Definition a_tensor (l : list Z) : Tensor := mkTensor 1 l [].
Definition merge_sample : InferenceContext := sample (node_of "Merge" []) [2; -1; 3] [[0; 1]%nat; [1; 2]%nat] [None; None].
Lemma merge_sample_ok : sample_ok [2; -1; 3] [[0; 1]%nat; [1; 2]%nat] [None; None] [2; 2; 3] [a_tensor [2; 2]; a_tensor [2; 3]].
Proof. constructor; [by repeat constructor|by repeat constructor|done|]. repeat constructor. Qed.
(** Of [2, ?] and [?, 3] becomes [2, 3]. *)
Lemma shape_merge_witness : wp (Merge (Some 0%nat) (Some 1%nat)) merge_sample (fun r c' => exists h, r = inr h /\ known_shape c' h = known_sizes [2; 3]).
Proof.
  eapply wp_mono; [apply (shape_merge merge_sample (Some 0%nat) (Some 1%nat))|].
  - apply (sample_knows _ _ _ _ _ _ merge_sample_ok).
  - by exists 0%nat; split; [|cbn; lia].
  - by exists 1%nat; split; [|cbn; lia].
  - intros [s|h] c' (_ & _ & R); [destruct R as (_ & R & _); by vm_compute in R|]. exists h. split; [done|]. destruct R as (_ & _ & <- & _). done.
Defined.

(** ** Windows *)

(** [n] windows of [f] elements, [s] apart: those that lie in [x] elements, or
    those that start there. *)
Definition counts_windows (pad : Padding) (x f s n : Z) : Prop :=
  forall k, 0 <= k -> (k < n <-> match pad with VALID => k * s + f <= x | SAME => k * s < x end).
Lemma window_size_counts pad x f s : 0 <= x -> 0 <= f -> window_ok pad x f s -> counts_windows pad x f s (window_size pad x f s) /\ 0 <= window_size pad x f s.
Proof.
  intros Hx Hf [Hs W]. destruct pad; cbn.
  - pose proof (Z.div_mod (x - f + s) s ltac:(lia)) as D. pose proof (Z.mod_pos_bound (x - f + s) s Hs) as M. split; [|apply Z.div_pos; lia].
    intros k Hk. cbn. split; intros H; nia.
  - pose proof (Z.div_mod (x + s - 1) s ltac:(lia)) as D. pose proof (Z.mod_pos_bound (x + s - 1) s Hs) as M. split; [|apply Z.div_pos; lia].
    intros k Hk. cbn. split; intros H; nia.
Qed.
Lemma verbose_VALID x f s : is_size x -> 0 <= f -> window_ok VALID x f s -> GetWindowedOutputSizeVerbose x f s VALID = inr (window_size VALID x f s, 0, 0).
Proof.
  unfold is_size, kint64max. intros Hx Hf [Hs W]. cbn in W. unfold kint64max in W. unfold GetWindowedOutputSizeVerbose. destruct (Z.leb_spec s 0); [lia|]. rewrite s64_id by lia.
  rewrite Z.quot_div_nonneg by lia. cbn zeta beta iota. assert (0 <= (x - f + s) / s) by (apply Z.div_pos; lia). by destruct (Z.ltb_spec ((x - f + s) / s) 0); [lia|].
Qed.
Lemma verbose_SAME x f s : is_size x -> is_size f -> x + f + s <= kint64max -> window_ok SAME x f s ->
  let n := window_size SAME x f s in let needed := Z.max 0 ((n - 1) * s + f - x) in
  GetWindowedOutputSizeVerbose x f s SAME = inr (n, needed / 2, needed - needed / 2).
Proof.
  intros Hx Hf Hb [Hs W] n needed. cbn in W. unfold is_size, kint64max in *. unfold GetWindowedOutputSizeVerbose. destruct (Z.leb_spec s 0); [lia|]. rewrite (s64_id (x + s - 1)) by lia.
  rewrite Z.quot_div_nonneg by lia. change ((x + s - 1) / s) with n. assert (Hn : 0 <= n) by (apply Z.div_pos; lia).
  assert (Hm : (n - 1) * s <= x - 1 /\ - s <= (n - 1) * s).
  { pose proof (Z.mul_div_le (x + s - 1) s Hs) as M. change ((x + s - 1) / s) with n in M. nia. }
  rewrite s64_id by lia. fold needed. rewrite Z.quot_div_nonneg by lia. by destruct (Z.ltb_spec n 0); [lia|].
Qed.

Section Windows.
Context {text : DefText} {laws : DefTextLaws text}.

(** Where the sums do not overflow and the window is not larger than the
    input, [GetWindowedOutputSizeVerbose] succeeds: its size is the number of
    windows; the padding is none for VALID, and for SAME what the last window
    needs beyond the input, one half before it and one after, where the odd
    element goes. [GetWindowedOutputSizeFromDims], the "parallel implementation"
    on symbolic dimensions, gives a dimension that stands for the same size, and
    it is known if the sizes that it depends on are. *)
Theorem windowed_sizes pad x f s c ow d e :
  is_size x -> is_size f -> x + f + s <= kint64max -> int32 s -> window_ok pad x f s -> knows c ow -> is_dim c ow d x -> is_dim c ow e f ->
  exists n before after, GetWindowedOutputSizeVerbose x f s pad = inr (n, before, after) /\ counts_windows pad x f s n /\
    0 <= before /\ before <= after <= before + 1 /\ before + after = match pad with VALID => 0 | SAME => Z.max 0 ((n - 1) * s + f - x) end /\
    exec (GetWindowedOutputSizeFromDims d (of_dim e) s pad) c ow (fun h c' ow' => is_dim c' ow' h n /\
      (known_value c d = x -> pad = SAME \/ known_value c e = f -> known_value c' h = n)).
Proof.
  intros Hx Hf Hb Is W K D E. destruct (window_size_counts pad x f s ltac:(apply Hx) ltac:(apply Hf) W) as [C _].
  assert (X : exec (GetWindowedOutputSizeFromDims d (of_dim e) s pad) c ow (fun h c' ow' => is_dim c' ow' h (window_size pad x f s) /\
      (known_value c d = x -> pad = SAME \/ known_value c e = f -> known_value c' h = window_size pad x f s))).
  { eapply rule_window; [done|by apply dim_is_known|apply doc_of_dim; by apply dim_is_known|done|by destruct ow|]. intros h c' ow' _ [H Ek]. split; [done|].
    intros Ex Ef. rewrite Ek, Ex. unfold known_window. destruct Hx, Hf. unfold kUnknownDim. destruct (Z.eqb_spec x (-1)); [lia|]. cbn [orb].
    destruct pad; [|done]. destruct Ef as [?|Ef]; [done|]. rewrite Ef. by destruct (Z.eqb_spec f (-1)); [lia|]. }
  destruct pad.
  - exists (window_size VALID x f s), 0, 0. split; [apply verbose_VALID; [done|apply Hf|done]|]. split_and!; try done.
  - eexists _, _, _. split; [by apply verbose_SAME|]. set (needed := Z.max 0 _). assert (0 <= needed) by lia.
    pose proof (Z.div_mod needed 2 ltac:(lia)). pose proof (Z.mod_pos_bound needed 2 ltac:(lia)). split; [done|]. split_and!; try done; lia.
Qed.
End Windows.
Definition window_sample : InferenceContext := sample (node_of "Window" []) [5; 3] [[0; 1]%nat] [None].
Lemma window_sample_ok : sample_ok [5; 3] [[0; 1]%nat] [None] [5; 3] [a_tensor [5; 3]].
Proof. constructor; [by repeat constructor|by repeat constructor|done|]. repeat constructor. Qed.
(** Windows of 3, 2 apart, over 5 elements. *)
Lemma windowed_sizes_witness : exists n before after, GetWindowedOutputSizeVerbose 5 3 2 SAME = inr (n, before, after) /\ n = 3 /\ before = 1 /\ after = 1 /\
  exec (GetWindowedOutputSizeFromDims (Some 0%nat) (of_dim (Some 1%nat)) 2 SAME) window_sample (Some (sample_world [5; 3] [[0; 1]%nat] [a_tensor [5; 3]])) (fun h c' ow' => known_value c' h = 3).
Proof.
  destruct (windowed_sizes SAME 5 3 2 window_sample (Some (sample_world [5; 3] [[0; 1]%nat] [a_tensor [5; 3]])) (Some 0%nat) (Some 1%nat)) as (n & b & a & E & _ & _ & _ & _ & X);
    [done|done|done|done|done|apply sample_knows, window_sample_ok|split; [by exists 0%nat; split; [|cbn; lia]|done]|split; [by exists 1%nat; split; [|cbn; lia]|done]|].
  exists n, b, a. split; [done|]. injection E as <- <- <-. split_and!; [done..|]. eapply exec_mono; [exact X|]. intros h c' ow' _ [_ Hk]. rewrite Hk; [done|done|by left].
Defined.

(** ** Shape functions

    [stage nd c ow]: a well-formed context of node [nd], with room for an
    output; it is described by the world, if [ow] has one. [exec]: the function
    does not abort; it may return an error if there is no world, and in a world
    it returns OK and its output stands for the sizes that are given; the last
    argument of [output_is] says what is known of it. *)

Section Functions.
Context {text : DefText} {laws : DefTextLaws text}.

(** [MatMulShape], [BiasAddShape] and [BiasAddGradShape] never abort. In a
    world where the operation makes sense they return OK and their output stands
    for the sizes of its result (of the product [m] by [n] of matrices that may
    be transposed; of the first input; the size of the bias), in both layouts.
    Every size that an input tells is known of the output: rows and columns, and
    the size of the bias from either input. *)
Theorem shape_products nd c ow l0 l1 p0 p1 :
  stage nd c ow -> input_as c ow 0 l0 p0 -> input_as c ow 1 l1 p1 ->
  (forall m k n,
     within ow (fun _ => attr_set (GetNodeAttr_bool nd (bytes_of "transpose_a")) /\ attr_set (GetNodeAttr_bool nd (bytes_of "transpose_b")) /\
       l0 = (if bool_attr nd "transpose_a" then [k; m] else [m; k]) /\ l1 = (if bool_attr nd "transpose_b" then [n; k] else [k; n])) ->
     exec MatMulShape c ow (fun _ => output_is 0 [m; n] (fun p => p = known_sizes
       [known_of (ranked 2 p0) (if bool_attr nd "transpose_a" then 1 else 0); known_of (ranked 2 p1) (if bool_attr nd "transpose_b" then 0 else 1)]))) /\
  (within ow (fun _ => bias_rank (nchw_attr nd) <= zlength l0 /\ l1 = [size_of l0 (bias_axis (nchw_attr nd))]) ->
     exec BiasAddShape c ow (fun _ => output_is 0 l0 (biased (nchw_attr nd) p0 (known_of (ranked 1 p1) 0)))) /\
  (within ow (fun _ => bias_rank (nchw_attr nd) <= zlength l0) ->
     exec BiasAddGradShape c ow (fun _ => output_is 0 [size_of l0 (bias_axis (nchw_attr nd))]
       (fun p => p = known_sizes [known_of (dim_sizes_ p0) (bias_axis (nchw_attr nd))]))).
Proof.
  intros S I0 I1. split; [intros m k n W; by eapply exec_MatMulShape|]. split; intros W; [by eapply exec_BiasAddShape|by eapply exec_BiasAddGradShape].
Qed.

(** C39: the shape functions of convolutions (2-D in both layouts, 3-D,
    depthwise) and of pooling (average and maximum in both layouts, 3-D), run in
    a well-formed context with room for an output, never abort; for pooling,
    provided that no window size in the attribute [ksize] is below -1. Take any
    world that the context describes, that is any sizes of the inputs that agree
    with what it knows, in which the operation makes sense: inputs of rank 4 or 5,
    the attributes [strides], [padding] and [ksize] present and well-formed,
    strides of the windowed dimensions positive, window sizes not negative and for
    VALID padding not above the size of the input, the depth of the filter that of
    the input, and no size or intermediate sum above the int64s. Then they return
    OK, and the output stands for the batch, the number of windows along each
    dimension and the channels of the result. An output size is known as soon as
    the sizes that it depends on are, but for [Pool3DShape], which gives up all
    three windowed sizes when one input size is not known. *)
Theorem shape_windows nd c ow l0 l1 p0 p1 :
  stage nd c ow -> input_as c ow 0 l0 p0 ->
  let b := nchw_attr nd in
  (input_as c ow 1 l1 p1 ->
   (within ow (fun _ => zlength l0 = 4 /\ zlength l1 = 4 /\ has_ints nd "strides" 4 /\ has_padding nd /\ conv2d_ok nd b (nhwc size_of b l0) l1) ->
    exec Conv2DShape c ow (fun _ => output_is 0 (conv2d window_size size_of nd b (nhwc size_of b l0) l1)
      (fun p => p = known_sizes (conv2d known_window known_of nd b (nhwc known_of b (ranked 4 p0)) (ranked 4 p1))))) /\
   (within ow (fun _ => zlength l0 = 5 /\ zlength l1 = 5 /\ has_ints nd "strides" 5 /\ has_padding nd /\ conv3d_ok nd l0 l1) ->
    exec Conv3DShape c ow (fun _ => output_is 0 (conv3d window_size size_of nd l0 l1)
      (fun p => p = known_sizes (conv3d known_window known_of nd (ranked 5 p0) (ranked 5 p1))))) /\
   (within ow (fun _ => zlength l0 = 4 /\ zlength l1 = 4 /\ has_ints nd "strides" 4 /\ has_padding nd /\ depthwise_ok nd l0 l1) ->
    exec DepthwiseConv2DNativeShape c ow (fun _ => output_is 0 (depthwise window_size Z.mul size_of nd l0 l1 (size_of l0 3))
      (fun p => exists k, merge_value (known_of (ranked 4 p0) 3) (known_of (ranked 4 p1) 2) = Some k /\
         (k * known_of (ranked 4 p1) 3 <= kint64max -> p = known_sizes (depthwise known_window known_mul known_of nd (ranked 4 p0) (ranked 4 p1) k)))))) /\
  (ksize_known nd ->
   (within ow (fun _ => zlength l0 = 4 /\ has_ints nd "strides" 4 /\ ksize_ok nd 4 /\ has_padding nd /\
      pooled_ok nd (nhwc size_of b l0) 1 (row_at b) /\ pooled_ok nd (nhwc size_of b l0) 2 (col_at b)) ->
    exec AvgPoolShape c ow (fun _ => output_is 0 (avg_pool window_size size_of nd b (nhwc size_of b l0))
      (fun p => p = known_sizes (avg_pool known_window known_of nd b (nhwc known_of b (ranked 4 p0)))))) /\
   (within ow (fun _ => zlength l0 = 4 /\ has_ints nd "strides" 4 /\ ksize_ok nd 4 /\ has_padding nd /\
      pooled_ok nd (nhwc size_of b l0) 1 (row_at b) /\ pooled_ok nd (nhwc size_of b l0) 2 (col_at b) /\ pooled_ok nd (nhwc size_of b l0) 3 (depth_at b)) ->
    exec MaxPoolShape c ow (fun _ => output_is 0 (max_pool window_size size_of nd b (nhwc size_of b l0))
      (fun p => p = known_sizes (max_pool known_window known_of nd b (nhwc known_of b (ranked 4 p0)))))) /\
   (within ow (fun _ => zlength l0 = 5 /\ has_ints nd "strides" 5 /\ ksize_ok nd 5 /\ has_padding nd /\ forall i, 1 <= i <= 3 -> pooled_ok nd l0 i i) ->
    exec Pool3DShape c ow (fun _ => output_is 0 (pool3d window_size size_of nd l0) (fun p => p = known_sizes (known_pool3d nd (ranked 5 p0)))))).
Proof.
  intros S I0 b. split; [intros I1|intros Kk]; (split; [|split]); intros W.
  - by apply exec_Conv2DShape.
  - by apply exec_Conv3DShape.
  - by apply exec_DepthwiseConv2DNativeShape.
  - by apply exec_AvgPoolShape.
  - by apply exec_MaxPoolShape.
  - by apply exec_Pool3DShape.
Qed.

(** [ReductionShape] and [ReductionShapeForReduceJoin] never abort, if the
    tensor of the indices, when it is known, is one of int32. In a world where
    the indices name dimensions of the input (and for the second are distinct
    and name none of size 0, and no index at all stands for all dimensions) they
    return OK and the output stands for the input without these dimensions, or
    with size 1 for them under [keep_dims]. All that is known of the other
    dimensions stays known if the indices are; if not, the rank is still known
    where it cannot change. *)
Theorem shape_reductions nd c ow l0 l1 p0 p1 T m :
  stage nd c ow -> input_as c ow 0 l0 p0 -> input_as c ow 1 l1 p1 -> tensor_as c ow 1 T m -> (forall t, m = Some t -> dtype t = DT_INT32) ->
  let keep := bool_attr nd "keep_dims" in
  (within ow (fun _ => zlength l1 <= 1 /\ attr_set (GetNodeAttr_bool nd (bytes_of "keep_dims")) /\ indices_ok (elements T) (zlength l0)) ->
   exec ReductionShape c ow (fun _ => output_is 0 (reduced (reduces (elements T) (zlength l0)) keep 0 l0) (fun p => p = known_reduction keep p0 m))) /\
  (within ow (fun _ => zlength l1 <= 1 /\ attr_set (GetNodeAttr_bool nd (bytes_of "keep_dims")) /\ indices_ok (elements T) (zlength l0) /\
     distinct (elements T) (zlength l0) /\ forall j, 0 <= j < zlength l0 -> reduces (elements T) (zlength l0) j = true -> size_of l0 j <> 0) ->
   exec ReductionShapeForReduceJoin c ow (fun _ => output_is 0 (reduced (joins (elements T) (zlength l0)) keep 0 l0) (fun p => p = known_join keep p0 m))).
Proof. intros S I0 I1 V Ht keep. split; intros W; [by eapply exec_ReductionShape|by eapply exec_ReductionShapeForReduceJoin]. Qed.

(** [ConcatShape] (the axis first, then [n] shapes) and [ConcatV2Shape] (the
    axis last) never abort, if the tensor of the axis, when it is known, is one
    int32 other than -1 and the extreme ones. In a world where the inputs differ
    along the axis only they return OK and the output stands for the sizes of
    the first but for the axis, where it has the sum. If the axis and all input
    sizes are known, so are all sizes of the output. *)
Theorem shape_concat nd c ow L P lt pt T m d n :
  stage nd c ow -> (forall t, m = Some t -> dtype t = DT_INT32 /\ elements t = [d] /\ axis_range d) ->
  (let F := m <> None /\ forall j, 1 <= j < 1 + n -> P j = known_sizes (L j) in
   0 < n -> inputs_as c ow 1 (1 + n) L P -> input_as c ow 0 lt pt -> tensor_as c ow 0 T m ->
   within ow (fun _ => lt = [] /\ elements T = [d] /\ concat_ok L 1 (1 + n) d) ->
   exec (ConcatShape n) c ow (fun _ c' ow' => output_is 0 (concat_sizes L 1 (1 + n) d) (fun p => within ow' (fun _ => F -> p = known_sizes (concat_sizes L 1 (1 + n) d))) c' ow')) /\
  (let F := m <> None /\ forall j, 0 <= j < n -> P j = known_sizes (L j) in
   zlength (inputs_ c) = n + 1 -> 0 < n -> inputs_as c ow 0 n L P -> input_as c ow n lt pt -> tensor_as c ow n T m ->
   within ow (fun _ => lt = [] /\ elements T = [d] /\ concat_ok L 0 n d) ->
   exec ConcatV2Shape c ow (fun _ c' ow' => output_is 0 (concat_sizes L 0 n d) (fun p => within ow' (fun _ => F -> p = known_sizes (concat_sizes L 0 n d))) c' ow')).
Proof.
  intros S Ht. split; intros F.
  - intros Hn I It V W. eapply exec_ConcatShapeHelper; [done|lia|done..].
  - intros El Hn I It V W. unfold ConcatV2Shape. eapply (exec_read _ _ (n + 1)); [by rewrite <- El|]. replace (n + 1 - 1) with n by lia.
    eapply exec_ConcatShapeHelper; [done|lia|done..].
Qed.

(** C40: [BroadcastBinaryOpShapeFn], run in a well-formed context with room for
    an output, never aborts. For any sizes of the two inputs that agree with what
    the context knows and that broadcast, by the rule that [BCast] implements, to
    a shape [o] with sizes and rank in range, it returns OK and the output stands
    for [o]. If both ranks are known so is the rank of the output, and each of its
    sizes for which the sizes of both operands are known (a missing one is 1) or
    one of the two is known to be more than 1; the other sizes are left open, and
    so is the rank if one of the ranks is not known. *)
Theorem shape_broadcast nd c ow l0 l1 p0 p1 o :
  stage nd c ow -> input_as c ow 0 l0 p0 -> input_as c ow 1 l1 p1 -> within ow (fun _ => Bcast.numpy_shape l0 l1 = Some o /\ sizes_fit o) ->
  exec BroadcastBinaryOpShapeFn c ow (fun _ => output_is 0 o (fun p => p = broadcast_known p0 p1)).
Proof. apply exec_BroadcastBinaryOpShapeFn. Qed.
End Functions.

(** ** The shape functions on examples *)

Definition matmul_node : NodeDef := node_of "MatMul" [("transpose_a"%string, kB false); ("transpose_b"%string, kB true)].
Definition matmul_world : world := sample_world [2; 3; 4] [[0; 1]%nat; [2; 1]%nat] [a_tensor [2; 3]; a_tensor [4; 3]].
Lemma matmul_sample_ok : sample_ok [2; -1; 4] [[0; 1]%nat; [2; 1]%nat] [None; None] [2; 3; 4] [a_tensor [2; 3]; a_tensor [4; 3]].
Proof. constructor; [repeat constructor; try done; try (by left); by right|by repeat constructor|done|]. repeat constructor. Qed.
(** [2, ?] times the transpose of [4, ?] is [2, 4]. *)
Lemma shape_products_witness : exec MatMulShape (sample matmul_node [2; -1; 4] [[0; 1]%nat; [2; 1]%nat] [None; None]) (Some matmul_world)
  (fun _ => output_is 0 [2; 4] (fun p => p = known_sizes [2; 4])).
Proof.
  pose proof (sample_input matmul_node [2; -1; 4] [[0; 1]%nat; [2; 1]%nat] [None; None] [2; 3; 4] [a_tensor [2; 3]; a_tensor [4; 3]]) as I.
  destruct (shape_products _ _ _ _ _ _ _ (sample_stage matmul_node _ _ _ _ _ matmul_sample_ok) (I 0%nat [0; 1]%nat eq_refl) (I 1%nat [2; 1]%nat eq_refl)) as [X _].
  apply (X 2 3 4). split_and!; done.
Defined.

Definition conv_node : NodeDef := node_of "Conv2D" [("strides"%string, kList (mkList [] [1; 2; 2; 1] [] [] [] [] [])); ("padding"%string, kS (bytes_of "SAME"))].
Definition conv_shapes : list (list nat) := [[0; 1; 2; 3]%nat; [3; 3; 3; 4]%nat].
Definition conv_sizes : list Z := [1; 5; 6; 3; 8].
Definition conv_world : world := sample_world conv_sizes conv_shapes [a_tensor [1; 5; 6; 3]; a_tensor [3; 3; 3; 8]].
Lemma conv_sample_ok : sample_ok [1; 5; -1; 3; 8] conv_shapes [None; None] conv_sizes [a_tensor [1; 5; 6; 3]; a_tensor [3; 3; 3; 8]].
Proof. constructor; [repeat constructor; try done; try (by left); by right|by repeat constructor|done|]. repeat constructor. Qed.
(** 3 by 3 windows, 2 apart, over [1, 5, ?, 3]. *)
Lemma shape_windows_witness : exec Conv2DShape (sample conv_node [1; 5; -1; 3; 8] conv_shapes [None; None]) (Some conv_world)
  (fun _ => output_is 0 [1; 3; 3; 8] (fun p => p = known_sizes [1; 3; -1; 8])).
Proof.
  pose proof (sample_input conv_node [1; 5; -1; 3; 8] conv_shapes [None; None] conv_sizes [a_tensor [1; 5; 6; 3]; a_tensor [3; 3; 3; 8]]) as I.
  destruct (shape_windows _ _ _ _ [3; 3; 3; 8] _ (known_sizes [3; 3; 3; 8]) (sample_stage conv_node _ _ _ _ _ conv_sample_ok) (I 0%nat [0; 1; 2; 3]%nat eq_refl)) as [X _].
  destruct (X (I 1%nat [3; 3; 3; 4]%nat eq_refl)) as [Y _]. apply Y. clear I X Y. split_and!; vm_compute; repeat split; try done; by intros [=].
Defined.

Definition reduction_node : NodeDef := node_of "Sum" [("keep_dims"%string, kB false)].
Definition indices : Tensor := mkTensor DT_INT32 [1] [-2].
Lemma indices_tensor_ok : tensor_ok indices.
Proof. split; [repeat constructor; done|]. split; [done|]. split; [done|]. by eexists. Qed.
Lemma reduction_sample_ok : sample_ok [2; -1; 4; 1] [[0; 1; 2]%nat; [3]%nat] [None; Some indices] [2; 3; 4; 1] [a_tensor [2; 3; 4]; indices].
Proof.
  constructor; [repeat constructor; try done; try (by left); by right|by repeat constructor|done|]. constructor; [by left|]. constructor; [|constructor]. right. split; [done|apply indices_tensor_ok].
Qed.
(** The dimension before the last of [2, ?, 4]. *)
Lemma shape_reductions_witness :
  exec ReductionShape (sample reduction_node [2; -1; 4; 1] [[0; 1; 2]%nat; [3]%nat] [None; Some indices])
    (Some (sample_world [2; 3; 4; 1] [[0; 1; 2]%nat; [3]%nat] [a_tensor [2; 3; 4]; indices])) (fun _ => output_is 0 [2; 4] (fun p => p = known_sizes [2; 4])).
Proof.
  pose proof (sample_input reduction_node [2; -1; 4; 1] [[0; 1; 2]%nat; [3]%nat] [None; Some indices] [2; 3; 4; 1] [a_tensor [2; 3; 4]; indices]) as I.
  destruct (shape_reductions _ _ _ _ _ _ _ indices (Some indices) (sample_stage reduction_node _ _ _ _ _ reduction_sample_ok) (I 0%nat [0; 1; 2]%nat eq_refl) (I 1%nat [3]%nat eq_refl)) as [X _].
  - split; [done|]. by split.
  - by intros t [= <-].
  - apply X. split; [done|]. split; [done|]. by repeat constructor.
Defined.

Definition axis : Tensor := mkTensor DT_INT32 [] [1].
Lemma axis_tensor_ok : tensor_ok axis.
Proof. split; [repeat constructor; done|]. split; [done|]. split; [done|]. by eexists. Qed.
Definition concat_shapes : list (list nat) := [[]; [0; 1]%nat; [0; 2]%nat].
Lemma concat_sample_ok : sample_ok [2; 3; 5] concat_shapes [Some axis; None; None] [2; 3; 5] [axis; a_tensor [2; 3]; a_tensor [2; 5]].
Proof.
  constructor; [by repeat constructor|by repeat constructor|done|]. constructor; [right; split; [done|apply axis_tensor_ok]|]. repeat constructor.
Qed.
(** [2, 3] and [2, 5] along axis 1. *)
Lemma shape_concat_witness :
  let w := sample_world [2; 3; 5] concat_shapes [axis; a_tensor [2; 3]; a_tensor [2; 5]] in
  exec (ConcatShape 2) (sample (node_of "Concat" []) [2; 3; 5] concat_shapes [Some axis; None; None]) (Some w) (fun _ => output_is 0 [2; 8] (fun p => p = known_sizes [2; 8])).
Proof.
  intros w. pose proof (sample_input (node_of "Concat" []) [2; 3; 5] concat_shapes [Some axis; None; None] [2; 3; 5] [axis; a_tensor [2; 3]; a_tensor [2; 5]]) as I.
  set (L := fun i : Z => if i =? 1 then [2; 3] else [2; 5]).
  destruct (shape_concat (node_of "Concat" []) _ _ L (fun i => known_sizes (L i)) [] (known_sizes []) axis (Some axis) 1 2 (sample_stage (node_of "Concat" []) _ _ _ _ _ concat_sample_ok)) as [X _].
  { intros t [= <-]. by split_and!. }
  eapply exec_mono; [apply X; clear X|clear X I].
  - done.
  - intros i Hi. assert (E : i = 1 \/ i = 2) by lia. destruct E as [-> | ->]; [apply (I 1%nat [0; 1]%nat eq_refl)|apply (I 2%nat [0; 2]%nat eq_refl)].
  - apply (I 0%nat [] eq_refl).
  - clear I. split; [done|]. by split.
  - clear I. split; [reflexivity|]. split; [reflexivity|]. split; [|vm_compute; done]. intros j Hj. assert (E : j = 1 \/ j = 2) by lia.
    destruct E as [-> | ->]; vm_compute; repeat split; try done; by left.
  - intros u c' ow' (_ & _ & A) (h & Eh & Hh & Wh). exists h. split; [exact Eh|]. split; [exact Hh|]. destruct ow' as [w'|]; [|destruct A]. apply Wh. split; [discriminate|]. intros j Hj. reflexivity.
Defined.

Lemma broadcast_sample_ok : sample_ok [2; -1; 1; 3; 4] [[0; 1; 2]%nat; [3; 4]%nat] [None; None] [2; 3; 1; 3; 4] [a_tensor [2; 3; 1]; a_tensor [3; 4]].
Proof. constructor; [repeat constructor; try done; try (by left); by right|by repeat constructor|done|]. repeat constructor. Qed.
(** [2, ?, 1] and [3, 4]. *)
Lemma shape_broadcast_witness :
  exec BroadcastBinaryOpShapeFn (sample (node_of "Add" []) [2; -1; 1; 3; 4] [[0; 1; 2]%nat; [3; 4]%nat] [None; None])
    (Some (sample_world [2; 3; 1; 3; 4] [[0; 1; 2]%nat; [3; 4]%nat] [a_tensor [2; 3; 1]; a_tensor [3; 4]])) (fun _ => output_is 0 [2; 3; 4] (fun p => p = known_sizes [2; 3; 4])).
Proof.
  pose proof (sample_input (node_of "Add" []) [2; -1; 1; 3; 4] [[0; 1; 2]%nat; [3; 4]%nat] [None; None] [2; 3; 1; 3; 4] [a_tensor [2; 3; 1]; a_tensor [3; 4]]) as I.
  apply (shape_broadcast _ _ _ _ _ _ _ _ (sample_stage (node_of "Add" []) _ _ _ _ _ broadcast_sample_ok) (I 0%nat [0; 1; 2]%nat eq_refl) (I 1%nat [3; 4]%nat eq_refl)).
  split; [done|]. split; [by repeat constructor|done].
Defined.
End ShapeInferenceTheorems.
